(* ===== verification/_CoqProject ===== *)
-Q . S2P
Prelude.v
Mem.v
Cbs.v
Asn1.v
Der.v
Cbb.v
CbbSpec.v
CbbDer.v
CbbProgram.v
CbbSetOf.v
Unicode.v
Oid.v
ConstTime.v
Base64.v
Stack.v
StackSpec.v
Lhash.v
LhashSpec.v
Err.v
ErrSpec.v
ErrString.v
BufMem.v
Bio.v
BioMem.v
BioPair.v
PosixTime.v
Asn1Time.v
Ber.v
BerSpec.v
Words.v
Md32.v
Sha2.v
Sha256.v
Sha512.v
Sha1.v
Md5.v
Digest.v
Hmac.v
Kdf.v
TlsKdf.v
TlsCbc.v
TlsCbcMac.v
SslVersions.v
Aead.v
SslCipher.v
SslAead.v
TlsMessage.v
TlsRecord.v
DtlsRecord.v
SslBuffer.v
TlsFlight.v
TlsHandshake.v
Transcript.v
Tls1Enc.v
Tls13Enc.v
Tls13Spec.v
Tls13Keys.v
AppData.v
AppDataSpec.v
DtlsMessage.v
DtlsMessageSpec.v
DtlsFlight.v
DtlsFlightSpec.v
DtlsDelivery.v
DtlsTimer.v
CipherList.v
CipherListSpec.v
Modes.v
ModesCtr.v
Cbc.v
