(* ===== verification/Prelude.v ===== *)
(** * Verification of the C core of swift-nio-ssl

    swift-nio-ssl is a TLS library for Swift. Its Swift part drives a vendored
    BoringSSL, the C library under src/Sources/CNIOBoringSSL. This development
    models the support layer of that library, on which everything above it is
    built: byte strings, DER and BER, Base64, containers, the error queue, the
    BIO streams through which TLS records travel, calendar time; and the
    symmetric layer that TLS keys its records with: the hash functions, HMAC,
    the key derivations and the modes of operation of block ciphers; and, from
    the C++ part, the lower half of TLS itself: versions, cipher suites, record
    encryption, the record layers of TLS and DTLS, the flights of handshake
    messages, the transcript, the key schedules and application data. Paths below
    are relative to src/Sources/CNIOBoringSSL/crypto, those that start with ssl/
    to src/Sources/CNIOBoringSSL.

    ** The parts and their files

    - Memory and C strings (mem.c): Mem.v. Blocks of bytes, reallocation,
      comparison, bounded copies. Theorems: [CRYPTO_memcmp] is equality,
      [OPENSSL_strcasecmp] is the order of the lower-case strings,
      [OPENSSL_strlcat] stays in its buffer and terminates it.
    - Byte-string reader CBS (bytestring/cbs.c): Cbs.v has the readers of
      integers, prefixed strings and decimal numbers; Der.v the ASN.1 part
      (identifiers, lengths, elements, INTEGER, BOOLEAN, OPTIONAL, BIT STRING).
      Asn1.v is the specification: the octets X.690 prescribes. Theorems: the
      element reader and the INTEGER readers accept exactly those octets.
    - Byte-string builder CBB (bytestring/cbb.c): Cbb.v has the shared buffer,
      the chain of open children and every writer. CbbSpec.v has the abstract
      builder (the finished bytes and the bytes of each open child), the
      representation relation and the refinement lemmas; CbbDer.v those of the
      DER writers; CbbProgram.v those of whole call sequences. Theorems: any
      call sequence refines the builder under any allocator, succeeds when
      memory does not run out, and never loses an error; what is written as DER
      is read back by the reader. CbbSetOf.v has the sorting of a SET OF.
      Theorem: the elements end in the order of X.690, section 11.6.
    - Character encodings (bytestring/unicode.c): Unicode.v. Theorems: the UTF-8
      reader accepts exactly the shortest forms of valid code points and the
      writer produces them.
    - Object identifiers (cbs.c, cbb.c): Oid.v. Theorems: octets and dotted text
      convert into each other and nothing else is accepted.
    - Constant-time primitives (internal.h): ConstTime.v. Theorem: the
      branch-free comparisons and selection are what their names say.
    - Base64 (base64/base64.c): Base64.v. Theorems: round trips of the one-shot
      and of the streaming functions, independence of the cutting into calls,
      exact sizes, the branch-free tables are the alphabet of RFC 4648.
    - Stacks (stack/stack.c): Stack.v, StackSpec.v. Theorems: the heap sort
      sorts, the search finds the earliest equal element, insertion, deletion
      and filtering are those of lists, the sorted flag is truthful, and
      [OPENSSL_sk_set], which keeps the flag, leaves it so exactly when the new
      element fits between its neighbours.
    - Hash table (lhash/lhash.c): Lhash.v, LhashSpec.v. Theorems: the table is a
      finite map through any history and its resizes, its invariant holds under
      any allocator, iteration visits every element once.
    - Error queue (err/err.c): Err.v, ErrSpec.v for the ring, ErrString.v for
      the text. Theorems: the ring is a queue of the fifteen most recent errors,
      marks undo, saving and restoring, the text keeps its fields and its bound.
    - Buffers (buf/buf.c): BufMem.v. Theorems: append and grow are exact, stay
      in the allocation and change nothing on failure.
    - BIO (bio/bio.c): Bio.v has the generic calls over a method, the class
      [BioMethod], and the class [ByteStream], which says what a byte stream
      promises, with its client theorem [run_stream_spec]. BioMem.v
      (bio/bio_mem.c) and BioPair.v (bio/pair.c) are two methods; both are
      instances of [ByteStream]. Theorems: both are FIFOs for every sequence of
      calls (the pair in both directions, on both ends), the results and retry
      flags of every branch, lines, resets, connection and disconnection.
    - Calendar time (asn1/posix_time.c): PosixTime.v. Theorems: the conversions
      are inverse and total on years 0 to 9999 and follow the calendar.
      Asn1Time.v has the readers of UTCTime and GeneralizedTime (bytestring/cbs.c),
      which accept exactly the texts of times.
    - BER to DER (bytestring/ber.c): Ber.v has the scan, the recursive
      conversion (over the readers of Cbs.v and Der.v and the builder of Cbb.v)
      and the reader of implicitly tagged strings; BerSpec.v the trees X.690
      gives to BER and the DER each of them stands for. Theorems: a BER tree in
      which the scan shows BER is converted to its DER, and any other is handed
      back as it is; which trees these are, and that the scan overlooks BER in a
      member that others follow; whatever is converted is DER, DER is left
      alone, the recursion ends, [CBS_get_asn1_implicit_string] joins the parts.
    - Words (internal.h): Words.v. Big- and little-endian loads and stores,
      rotations, and their laws.
    - Hash functions (fipsmodule/digest/md32_common.h, sha/sha256.c,
      sha/sha512.c, sha/sha1.c, md5/md5.c, md4/md4.c): Md32.v has the common
      buffering over the class [BlockFunc]; Sha2.v the standard's functions and
      constants; Sha256.v, Sha512.v, Sha1.v and Md5.v the unrolled block
      functions, with their ring buffers of message words, and the init, update
      and final functions. Theorems: cutting a message into calls in any way
      gives the digest of the padded message, computed as FIPS 180-4 and RFC
      1320 and 1321 define it; their constants are the roots and sines the
      standards take them from.
    - Digest contexts (fipsmodule/digest/digest.c, digests.c): Digest.v. The
      method tables as instances of the class [Digest], which says that a
      digest is a function of the concatenated message, and [EVP_DigestInit],
      [EVP_DigestUpdate] and [EVP_DigestFinal] over it.
    - HMAC (fipsmodule/hmac/hmac.c): Hmac.v, proved against the class [Digest].
      Theorem: every order of key setting, updating and finishing computes the
      code of RFC 2104, also when a key is reused.
    - Key derivation (hkdf/hkdf.c, evp/pbkdf.c): Kdf.v. Theorems: HKDF is RFC
      5869 and PBKDF2 is RFC 8018 (with an iteration count of zero read as
      one), the errors of each branch included.
    - Stream modes (fipsmodule/modes/ctr.c, ofb.c, cfb.c): Modes.v over the
      class [BlockCipher], ModesCtr.v for the counter modes. Theorems: cutting
      the data into calls does not matter, decryption inverts encryption, CTR is
      the exclusive or with the keystream of a 128-bit counter, and the variant
      over a 32-bit multi-block function (class [Ctr32Func]) is the same.
    - CBC (fipsmodule/modes/cbc.c): Cbc.v, with one memory in which input,
      output are ranges that may overlap. Theorems: decryption of any length is
      right for an output at or before the input or behind all that is read, and
      writes nothing else; encryption and decryption are inverse.
    - TLS key derivation (fipsmodule/tls/kdf.c): TlsKdf.v, over HMAC, HKDF and
      the builder. Theorems: the PRF of RFC 5246 and HKDF-Expand-Label of RFC
      8446, with their failures.
    - CBC records (cipher_extra/tls_cbc.c): TlsCbc.v and TlsCbcMac.v. Theorems:
      the branch-free padding check, the extraction of the MAC at a secret
      offset and the MAC over data of secret length compute what the
      straightforward definitions say.
    - Versions (ssl/ssl_versions.cc): SslVersions.v. Theorems: the range of
      enabled versions and the negotiated version.
    - AEADs (fipsmodule/cipher/aead.c): Aead.v has the calls over a table of
      functions and the class [AeadLaws], which says what a table promises; a
      small instance shows that the laws can hold.
    - Cipher suites (ssl/ssl_cipher.cc): SslCipher.v. The table of suites, its
      search and the properties of a suite. CipherList.v has the language of
      cipher rules: the doubly linked list of suites as an array of nodes with
      their pointers, and the parser over the class [CipherOrder];
      CipherListSpec.v the instance of that class that is a plain list. Theorems:
      for every rule string the linked list computes what the plain list does and
      the parser ends; the stored list has no duplicates and closed groups;
      [@STRENGTH] is a stable sort.
    - Record encryption (ssl/ssl_aead_ctx.cc): SslAead.v, over Aead.v. Lemmas:
      what a context seals its partner opens; the contexts two ends create from
      the same secrets are partners, for every suite and version (over the class
      [AeadTable], the table of AEADs).
    - Handshake messages (ssl/s3_both.cc): TlsMessage.v, over BufMem.v. Theorem:
      data cut anywhere is delivered as the messages it encodes. TlsFlight.v has
      the rest of the file: the packing of messages into records, the flight
      and its writing, the V2 ClientHello. SslBuffer.v (ssl/ssl_buffer.cc) has
      the read and write buffers and their loops over the classes [ByteStream]
      and [PromptStream]. TlsHandshake.v joins them with the loop of
      [ssl_run_handshake] that waits for a message. Theorem: the messages that
      one end adds to a flight and flushes into a byte stream are received by
      the other, each once and in order.
    - Records (ssl/tls_record.cc): TlsRecord.v, over SslAead.v and TlsMessage.v.
      Theorems: a stream of sealed records of handshake and application data is
      read back, and the reader makes progress and keeps its limits on any input.
    - The transcript (ssl/ssl_transcript.cc): Transcript.v, over BufMem.v and
      Digest.v. Theorem: it is the list of bytes that were added, with or
      without its buffer, across the choice of the hash and a HelloRetryRequest.
    - Keys (ssl/t1_enc.cc, the cipher states of ssl/tls_method.cc,
      ssl/tls13_enc.cc): Tls1Enc.v for TLS 1.0 to 1.2 and Tls13Enc.v for TLS
      1.3, over Transcript.v, TlsKdf.v and SslAead.v. Tls13Spec.v has the key
      schedule of RFC 8446 as plain functions of hashes and its theorem: the
      calls of a handshake compute it, on both sides. Theorems of Tls1Enc.v and
      Tls13Keys.v: the record contexts that the two sides install are partners,
      through every rotation; the PSK binder of a client is accepted.
    - Application data and alerts (ssl/s3_pkt.cc): AppData.v, over SslBuffer.v,
      TlsFlight.v and TlsRecord.v. AppDataSpec.v has the theorems: whatever the
      transport refuses and the peer reads between the calls, the peer gets the
      caller's bytes once and in order; early data stay within a limit of
      sixteen bits, and a larger limit is never enforced.
    - Datagram records (ssl/dtls_record.cc, the epochs of ssl/dtls_method.cc):
      DtlsRecord.v, over SslAead.v. Theorem: whatever datagrams are lost,
      repeated or reordered, the reader delivers each record at most once and
      unchanged, and drops only repetitions and what is older than its window.
    - Datagram handshakes (ssl/d1_both.cc, ssl/d1_lib.cc): DtlsMessage.v has the
      receiving side (the ring of seven messages, their masks of received
      bytes), DtlsFlight.v the sending side (the flight, its fragments and
      packets, the timer), over the class [DatagramBio]. DtlsMessageSpec.v,
      DtlsFlightSpec.v, DtlsDelivery.v and DtlsTimer.v have the theorems: the
      receiving side returns what plain sets of received pieces say; a flight
      that is fragmented, sealed, packed and arrives in any order is received as
      it was sent; every timeout sends the whole flight again and the timer backs
      off.

    ** How the code is modelled

    A [w]-bit unsigned integer is a [Z]; an operation that can leave its range
    is followed by the wrap-around [uw w]. Bytes are [Z], byte strings and
    memory blocks [list Z]; a store is [zsplice], which would lengthen a block
    when it runs past its end, so that an invariant on the length of a block is
    a proof that no store leaves it. Functions that mutate a struct and may
    fail are [ST S A]: the state is threaded through failing calls too. An
    out-parameter is a component of the result, a NULL pointer is [None]. Where
    two objects share state (the children of a CBB and its buffer, the two ends
    of a BIO pair) the model keeps the shared state once.

    The allocator is a parameter, the class [Allocator]: theorems that do not
    assume that allocations succeed hold whichever of them fail. Comparison,
    hash and callback functions of callers are parameters as well, with the
    laws their documentation demands as hypotheses. So are the block functions
    of ciphers and the multi-block counter function, which are mostly assembly,
    the table of AEADs, and what the random generator returns.
    Undefined behaviour that the code can reach is a value of its own (an outer
    [None]).

    Loops are recursions on their data where they are structural and on fuel
    otherwise. The fuel is the largest number of iterations the code can make:
    the length of the input for loops that consume a byte or more, two for the
    chunks of a ring buffer, sixteen for the error ring, the number of elements
    for the heap, one more than the length of the input for the recursion of
    the BER converter (every level consumes a header), the length of the output
    for the outer loop of PBKDF2, the bytes and messages left for the packets of
    a DTLS flight, one more than the bytes of a call for the records of application
    data, three for the reads of one record; the theorems state the results
    themselves, so they show that it is enough.

    ** What is not modelled

    Deallocation and ownership (beyond which blocks exist), threads, the
    system-call BIOs, printf formats beyond those the error text uses, and the
    generated tables, which are parameters. Of the modelled files: BIO chains, CFB with segments of one
    and eight bits, the SHA-512 block function for 32-bit machines, the assembly
    block functions (the C ones are modelled) and the FIPS service indicator,
    which counts approved calls. Big numbers, curves, RSA, AES and GCM are not
    modelled: much of them is assembly that the C code only stands in for, and
    the parts above take them as functions with their laws. Nor are the ASN.1
    objects and X.509, which are driven by templates that macros generate. Of
    the C++ code, the handshake state machines, the extensions, sessions and the
    public API are not modelled: they are callbacks into an application,
    certificates and private keys around the parts that are. QUIC, which
    replaces the record layer, and the callbacks that only observe are left out
    throughout. The Swift handlers are not C code.

    ** This file

    Machine integers, byte strings and stores, bit operations as arithmetic,
    big-endian integers, the allocator, and the state-and-failure monad, with
    the tactics and hints the other files use. *)

From Stdlib Require Export ZArith Lia.
From stdpp Require Export base tactics numbers list sets.

Global Open Scope Z_scope.

(** * Machine integers

    A [w]-bit unsigned integer is a [Z]; every C operation that can leave the
    range is followed by the wrap-around written out with [uw]. *)

Definition uw (w x : Z) : Z := x mod 2 ^ w.

Abbreviation u8 := (uw 8).
Abbreviation u16 := (uw 16).
Abbreviation u32 := (uw 32).
Abbreviation u64 := (uw 64).

Definition UINT64_MAX : Z := 2 ^ 64 - 1.
Definition SIZE_MAX : Z := 2 ^ 64 - 1.
Definition INT_MAX : Z := 2 ^ 31 - 1.
Definition INT_MIN : Z := - 2 ^ 31.
Definition UINT_MAX : Z := 2 ^ 32 - 1.

Lemma uw_small (w x : Z) : 0 <= x < 2 ^ w -> uw w x = x.
Proof. intros; unfold uw; now apply Z.mod_small. Qed.

Lemma uw_bound (w x : Z) : 0 <= w -> 0 <= uw w x < 2 ^ w.
Proof. intros; unfold uw; apply Z.mod_pos_bound; apply Z.pow_pos_nonneg; lia. Qed.

Lemma uw_idemp (w x : Z) : uw w (uw w x) = uw w x.
Proof. unfold uw; apply Zmod_mod. Qed.

Lemma div_mul_add q m r : 0 <= r < m -> (q * m + r) / m = q.
Proof. intros; rewrite Z.add_comm, Z.div_add, Z.div_small; lia. Qed.

Lemma mod_mul_add q m r : 0 <= r < m -> (q * m + r) mod m = r.
Proof. intros; rewrite Z.add_comm, Z.mod_add, Z.mod_small; lia. Qed.

(** Turns the powers of two that bound machine integers into literals, so that
    [lia] can use them. *)
Ltac pow2 :=
  repeat match goal with
  | |- context [2 ^ ?n] => let v := eval vm_compute in (2 ^ n) in
                           lazymatch isZcst n with true => change (2 ^ n) with v end
  | H : context [2 ^ ?n] |- _ => let v := eval vm_compute in (2 ^ n) in
                           lazymatch isZcst n with true => change (2 ^ n) with v in H end
  end.

Ltac unfold_max := unfold UINT64_MAX, SIZE_MAX, INT_MAX, INT_MIN, UINT_MAX in *.

(** [case_bool] splits on the boolean tests of the code and turns each into
    the arithmetic fact it decides. *)
Ltac bool_facts :=
  repeat match goal with
  | H : (_ && _) = true |- _ => apply andb_true_iff in H as [? ?]
  | H : (_ || _) = false |- _ => apply orb_false_iff in H as [? ?]
  | H : negb _ = true |- _ => apply negb_true_iff in H
  | H : negb _ = false |- _ => apply negb_false_iff in H
  | H : (_ =? _)%Z = true |- _ => apply Z.eqb_eq in H
  | H : (_ =? _)%Z = false |- _ => apply Z.eqb_neq in H
  | H : (_ <? _)%Z = true |- _ => apply Z.ltb_lt in H
  | H : (_ <? _)%Z = false |- _ => apply Z.ltb_ge in H
  | H : (_ <=? _)%Z = true |- _ => apply Z.leb_le in H
  | H : (_ <=? _)%Z = false |- _ => apply Z.leb_gt in H
  end.

Ltac case_if :=
  match goal with
  | |- context [if ?b then _ else _] => destruct b eqn:?
  | H : context [if ?b then _ else _] |- _ => destruct b eqn:?
  end.

(** * Byte strings *)

(** An octet; a byte string is a [list Z] all of whose elements are octets. *)
Definition byte (b : Z) : Prop := 0 <= b < 256.
Abbreviation bytes := (Forall byte).

(** Length, prefix, suffix and element of a list, indexed by machine integers. *)
Definition zlen {A} (l : list A) : Z := Z.of_nat (length l).
Definition ztake {A} (n : Z) (l : list A) : list A := take (Z.to_nat n) l.
Definition zdrop {A} (n : Z) (l : list A) : list A := drop (Z.to_nat n) l.
Definition znth (l : list Z) (i : Z) : Z := nth (Z.to_nat i) l 0.
Definition zrep {A} (n : Z) (a : A) : list A := replicate (Z.to_nat n) a.

(** A store of the bytes [data] at offset [off] of a buffer. A store that runs
    past the end of the buffer lengthens the list, so an invariant that fixes
    the length of a buffer rules out-of-bounds stores out. *)
Definition zsplice {A} (buf : list A) (off : Z) (data : list A) : list A :=
  ztake off buf ++ data ++ zdrop (off + zlen data) buf.

Create HintDb zlist.
Create Rewrite HintDb zlist.

Lemma zlen_nil {A} : zlen (@nil A) = 0.
Proof. reflexivity. Qed.

Lemma zlen_cons {A} (a : A) l : zlen (a :: l) = 1 + zlen l.
Proof. unfold zlen; simpl; lia. Qed.

Lemma zlen_app {A} (l k : list A) : zlen (l ++ k) = zlen l + zlen k.
Proof. unfold zlen; rewrite length_app; lia. Qed.

Lemma zlen_nonneg {A} (l : list A) : 0 <= zlen l.
Proof. unfold zlen; lia. Qed.

Lemma zlen_zrep {A} n (a : A) : 0 <= n -> zlen (zrep n a) = n.
Proof. intros; unfold zlen, zrep; rewrite length_replicate; lia. Qed.

Lemma zlen_ztake {A} n (l : list A) : 0 <= n <= zlen l -> zlen (ztake n l) = n.
Proof. unfold zlen, ztake; intros; rewrite length_take; lia. Qed.

Lemma zlen_zdrop {A} n (l : list A) :
  0 <= n <= zlen l -> zlen (zdrop n l) = zlen l - n.
Proof. unfold zlen, zdrop; intros; rewrite length_drop; lia. Qed.

Lemma zlen_map {A B} (f : A -> B) l : zlen (map f l) = zlen l.
Proof. unfold zlen; now rewrite length_map. Qed.

Lemma zlen_0_nil {A} (l : list A) : zlen l = 0 -> l = [].
Proof. destruct l; [easy|rewrite zlen_cons; pose proof (zlen_nonneg l); lia]. Qed.

Lemma ztake_zdrop {A} n (l : list A) : ztake n l ++ zdrop n l = l.
Proof. apply take_drop. Qed.

Lemma ztake_app {A} (l k : list A) : ztake (zlen l) (l ++ k) = l.
Proof. unfold ztake, zlen; rewrite Nat2Z.id; now rewrite take_app_length. Qed.

Lemma zdrop_app {A} (l k : list A) : zdrop (zlen l) (l ++ k) = k.
Proof. unfold zdrop, zlen; rewrite Nat2Z.id; now rewrite drop_app_length. Qed.

Lemma ztake_app_eq {A} n (l k : list A) : n = zlen l -> ztake n (l ++ k) = l.
Proof. intros ->; apply ztake_app. Qed.

Lemma zdrop_app_eq {A} n (l k : list A) : n = zlen l -> zdrop n (l ++ k) = k.
Proof. intros ->; apply zdrop_app. Qed.

Lemma ztake_all {A} n (l : list A) : zlen l <= n -> ztake n l = l.
Proof. unfold ztake, zlen; intros; apply take_ge; lia. Qed.

Lemma zdrop_all {A} n (l : list A) : zlen l <= n -> zdrop n l = [].
Proof. unfold zdrop, zlen; intros; apply drop_ge; lia. Qed.

Lemma ztake_0 {A} (l : list A) : ztake 0 l = [].
Proof. reflexivity. Qed.

Lemma zdrop_0 {A} (l : list A) : zdrop 0 l = l.
Proof. reflexivity. Qed.

Lemma zlen_zsplice {A} (buf : list A) off data :
  0 <= off -> off + zlen data <= zlen buf ->
  zlen (zsplice buf off data) = zlen buf.
Proof.
  intros; unfold zsplice; pose proof (zlen_nonneg data).
  rewrite !zlen_app, zlen_ztake, zlen_zdrop by lia; lia.
Qed.

(** A store in the middle of a buffer whose parts are known. *)
Lemma zsplice_mid {A} (pre old data post : list A) off :
  off = zlen pre -> zlen old = zlen data ->
  zsplice (pre ++ old ++ post) off data = pre ++ data ++ post.
Proof.
  intros -> E; unfold zsplice; rewrite ztake_app; do 2 f_equal.
  replace (zlen pre + zlen data) with (zlen (pre ++ old)) by (rewrite zlen_app; lia).
  now rewrite app_assoc, zdrop_app.
Qed.

(** ** Prefixes, suffixes and elements *)

Lemma znth_lookup l i : znth l i = default 0 (l !! Z.to_nat i).
Proof. unfold znth; now rewrite nth_lookup. Qed.

Lemma znth_ztake l n i : 0 <= i < n -> znth (ztake n l) i = znth l i.
Proof. intros; rewrite !znth_lookup; unfold ztake; now rewrite lookup_take_lt by lia. Qed.

Lemma znth_zdrop l n i : 0 <= n -> 0 <= i -> znth (zdrop n l) i = znth l (n + i).
Proof. intros; rewrite !znth_lookup; unfold zdrop; rewrite lookup_drop; do 3 f_equal; lia. Qed.

Lemma znth_app1 l k i : 0 <= i < zlen l -> znth (l ++ k) i = znth l i.
Proof. intros; unfold znth; apply app_nth1; unfold zlen in *; lia. Qed.

Lemma znth_app2 l k i : zlen l <= i -> znth (l ++ k) i = znth k (i - zlen l).
Proof.
  intros; unfold znth; rewrite app_nth2 by (unfold zlen in *; lia); f_equal; unfold zlen; lia.
Qed.

Lemma znth_zrep n a i : 0 <= i < n -> znth (zrep n a) i = a.
Proof. intros Hi; rewrite znth_lookup; unfold zrep; rewrite lookup_replicate_2 by lia; reflexivity. Qed.

Lemma znth_ext (l k : list Z) : zlen l = zlen k -> (forall i, 0 <= i < zlen l -> znth l i = znth k i) -> l = k.
Proof.
  intros Hl Hn; apply (nth_ext l k 0 0); [unfold zlen in Hl; lia|]; intros i Hi.
  specialize (Hn (Z.of_nat i) ltac:(unfold zlen; lia)); unfold znth in Hn; now rewrite Nat2Z.id in Hn.
Qed.

Lemma znth_cons c l i : 0 <= i -> znth (c :: l) (i + 1) = znth l i.
Proof. intros; unfold znth; now replace (Z.to_nat (i + 1)) with (S (Z.to_nat i)) by lia. Qed.

Lemma ztake_cons {A} n (c : A) l : 0 < n -> ztake n (c :: l) = c :: ztake (n - 1) l.
Proof. intros; unfold ztake; now replace (Z.to_nat n) with (S (Z.to_nat (n - 1))) by lia. Qed.

Lemma zdrop_cons {A} n (c : A) l : 0 < n -> zdrop n (c :: l) = zdrop (n - 1) l.
Proof. intros; unfold zdrop; now replace (Z.to_nat n) with (S (Z.to_nat (n - 1))) by lia. Qed.

Lemma ztake_app_le {A} n (l k : list A) : n <= zlen l -> ztake n (l ++ k) = ztake n l.
Proof. unfold ztake, zlen; intros; apply take_app_le; lia. Qed.

Lemma ztake_app_ge {A} n (l k : list A) : zlen l <= n -> ztake n (l ++ k) = l ++ ztake (n - zlen l) k.
Proof.
  intros Hn; unfold ztake, zlen in *; rewrite take_app_ge by lia; do 2 f_equal; lia.
Qed.

Lemma zdrop_app_le {A} n (l k : list A) : n <= zlen l -> zdrop n (l ++ k) = zdrop n l ++ k.
Proof. unfold zdrop, zlen; intros; apply drop_app_le; lia. Qed.

Lemma zdrop_app_ge {A} n (l k : list A) : zlen l <= n -> zdrop n (l ++ k) = zdrop (n - zlen l) k.
Proof. unfold zdrop, zlen; intros; rewrite drop_app_ge by lia; f_equal; lia. Qed.

Lemma ztake_ztake {A} n k (l : list A) : n <= k -> ztake n (ztake k l) = ztake n l.
Proof. unfold ztake; intros; rewrite take_take; f_equal; lia. Qed.

Lemma zdrop_ztake {A} n k (l : list A) : 0 <= n -> 0 <= k -> zdrop n (ztake (n + k) l) = ztake k (zdrop n l).
Proof. unfold ztake, zdrop; intros; rewrite skipn_firstn_comm; f_equal; lia. Qed.

Lemma zdrop_zdrop {A} n m (l : list A) : 0 <= n -> 0 <= m -> zdrop n (zdrop m l) = zdrop (m + n) l.
Proof. intros; unfold zdrop; rewrite drop_drop; f_equal; lia. Qed.

Lemma ztake_add {A} n k (l : list A) : 0 <= n -> 0 <= k -> ztake (n + k) l = ztake n l ++ ztake k (zdrop n l).
Proof.
  intros; rewrite <- (ztake_zdrop n (ztake (n + k) l)), ztake_ztake by lia; now rewrite zdrop_ztake by lia.
Qed.

Lemma zdrop_zrep {A} k n (a : A) : 0 <= k -> zdrop k (zrep n a) = zrep (n - k) a.
Proof. intros; unfold zdrop, zrep; rewrite drop_replicate; f_equal; lia. Qed.

Lemma zsplice_0 {A} (block data : list A) : zsplice block 0 data = data ++ zdrop (zlen data) block.
Proof. reflexivity. Qed.

Lemma ztake_zsplice {A} (l data : list A) off : 0 <= off <= zlen l ->
  ztake (off + zlen data) (zsplice l off data) = ztake off l ++ data.
Proof.
  intros; unfold zsplice; rewrite app_assoc; apply ztake_app_eq; rewrite zlen_app, zlen_ztake; lia.
Qed.

Lemma zsplice_zsplice {A} (block d1 d2 : list A) at_ : 0 <= at_ -> at_ + zlen d1 <= zlen block ->
  zsplice (zsplice block at_ d1) (at_ + zlen d1) d2 = zsplice block at_ (d1 ++ d2).
Proof.
  intros Ha Hb; unfold zsplice; rewrite !app_assoc.
  pose proof (zlen_nonneg d1); pose proof (zlen_nonneg d2).
  assert (zlen (ztake at_ block ++ d1) = at_ + zlen d1) as E by (rewrite zlen_app, zlen_ztake; lia).
  rewrite ztake_app_eq by lia; f_equal.
  rewrite zdrop_app_ge, E, zdrop_zdrop, zlen_app by lia; f_equal; lia.
Qed.

(** A store of one element, read back. *)
Lemma znth_zsplice1 l i v j : 0 <= i < zlen l -> 0 <= j ->
  znth (zsplice l i [v]) j = if j =? i then v else znth l j.
Proof.
  intros Hi Hj; unfold zsplice; change (zlen [v]) with 1.
  destruct (Z.lt_ge_cases j i) as [Hlt|Hge].
  - rewrite (proj2 (Z.eqb_neq j i)), znth_app1, znth_ztake by (rewrite ?zlen_ztake; lia); reflexivity.
  - rewrite znth_app2, zlen_ztake by (rewrite ?zlen_ztake; lia).
    destruct (Z.eqb_spec j i) as [-> |]; [now rewrite Z.sub_diag|].
    cbn [app]; replace (j - i) with (j - i - 1 + 1) by lia; rewrite znth_cons, znth_zdrop by lia; f_equal; lia.
Qed.

#[export] Hint Rewrite @zlen_nil @zlen_cons @zlen_app @zlen_map : zlist.
#[export] Hint Resolve zlen_nonneg : zlist.

(** Normalises lengths of list expressions in the goal and the context, adding
    that each is nonnegative, and calls [lia]. *)
Ltac zl_pose :=
  repeat match goal with
  | |- context [zlen ?l] => lazymatch goal with
      | _ : 0 <= zlen l |- _ => fail
      | _ => pose proof (zlen_nonneg l) end
  | _ : context [zlen ?l] |- _ => lazymatch goal with
      | _ : 0 <= zlen l |- _ => fail
      | _ => pose proof (zlen_nonneg l) end
  end.
Ltac zl := autorewrite with zlist in *; zl_pose; lia.

Lemma bytes_app (l k : list Z) : bytes (l ++ k) <-> bytes l /\ bytes k.
Proof. apply Forall_app. Qed.

Lemma bytes_cons b (l : list Z) : bytes (b :: l) <-> byte b /\ bytes l.
Proof. apply Forall_cons. Qed.

Lemma bytes_ztake n l : bytes l -> bytes (ztake n l).
Proof. apply Forall_take. Qed.

Lemma bytes_zdrop n l : bytes l -> bytes (zdrop n l).
Proof. apply Forall_drop. Qed.

Lemma bytes_znth l i : bytes l -> byte (znth l i).
Proof.
  intros H; unfold znth; destruct (nth_in_or_default (Z.to_nat i) l 0) as [Hi| ->].
  - now apply (proj1 (List.Forall_forall _ _) H).
  - unfold byte; lia.
Qed.

Lemma bytes_zrep n b : byte b -> bytes (zrep n b).
Proof. intros; unfold zrep; now apply Forall_replicate. Qed.

Lemma u8_byte (x : Z) : byte (u8 x).
Proof. apply (uw_bound 8); lia. Qed.

Lemma u8_id (x : Z) : byte x -> u8 x = x.
Proof. intros; now apply uw_small. Qed.

#[export] Hint Resolve u8_byte bytes_ztake bytes_zdrop : zlist.

(** Checks the elements of a literal list one by one. *)
Ltac each_literal :=
  repeat first [apply Forall_nil_2 | apply Forall_cons_2; [first [unfold byte; lia | vm_compute; congruence | now vm_compute]|]].

(** * Bit operations as arithmetic *)

Lemma lor_disjoint a b n :
  0 <= n -> 0 <= b < 2 ^ n -> Z.lor (a * 2 ^ n) b = a * 2 ^ n + b.
Proof.
  intros Hn Hb.
  rewrite <- Z.lxor_lor, <- Z.add_nocarry_lxor; try reflexivity.
  all: apply Z.bits_inj'; intros i Hi;
    rewrite Z.land_spec, Z.bits_0, <- Z.shiftl_mul_pow2, Z.shiftl_spec by lia;
    destruct (Z.lt_ge_cases i n) as [Hlt|Hge];
    [ now rewrite Z.testbit_neg_r by lia
    | rewrite <- (Z.mod_small b (2 ^ n)) by lia;
      now rewrite Z.mod_pow2_bits_high, andb_false_r by lia ].
Qed.

Lemma shiftl_lor_disjoint a b n :
  0 <= n -> 0 <= b < 2 ^ n -> Z.lor (Z.shiftl a n) b = a * 2 ^ n + b.
Proof. intros; rewrite Z.shiftl_mul_pow2 by lia; now apply lor_disjoint. Qed.

Lemma testbit_high x k i : 0 <= x < 2 ^ k -> 0 <= k <= i -> Z.testbit x i = false.
Proof.
  intros Hx Hi; destruct (Z.eq_dec x 0) as [-> |]; [apply Z.bits_0|].
  apply Z.bits_above_log2; [lia|]; apply Z.lt_le_trans with k; [apply Z.log2_lt_pow2; lia|lia].
Qed.

Lemma land_small x y k : 0 <= k -> 0 <= y < 2 ^ k -> 0 <= Z.land x y < 2 ^ k.
Proof.
  intros Hk Hy; replace (Z.land x y) with (Z.land x y mod 2 ^ k);
    [apply Z.mod_pos_bound, Z.pow_pos_nonneg; lia|].
  rewrite <- Z.land_ones, <- Z.land_assoc, (Z.land_ones y), (Z.mod_small y) by lia; reflexivity.
Qed.

Lemma lor_small x y k : 0 <= k -> 0 <= x < 2 ^ k -> 0 <= y < 2 ^ k -> 0 <= Z.lor x y < 2 ^ k.
Proof.
  intros Hk Hx Hy; replace (Z.lor x y) with (Z.lor x y mod 2 ^ k);
    [apply Z.mod_pos_bound, Z.pow_pos_nonneg; lia|].
  rewrite <- Z.land_ones, Z.land_lor_distr_l, !Z.land_ones, !Z.mod_small by lia; reflexivity.
Qed.

Lemma lxor_small x y k : 0 <= k -> 0 <= x < 2 ^ k -> 0 <= y < 2 ^ k -> 0 <= Z.lxor x y < 2 ^ k.
Proof.
  intros Hk Hx Hy; replace (Z.lxor x y) with (Z.lxor x y mod 2 ^ k);
    [apply Z.mod_pos_bound, Z.pow_pos_nonneg; lia|].
  rewrite <- Z.land_ones by lia; apply Z.bits_inj'; intros n Hn.
  rewrite Z.land_spec, Z.lxor_spec, Z.testbit_ones_nonneg by lia.
  destruct (Z.ltb_spec n k); [now rewrite andb_true_r|].
  now rewrite (testbit_high x k), (testbit_high y k) by lia.
Qed.

(** Bitwise operations act on the high and the low part of a word separately. *)
Lemma land_split a b m n k : 0 <= k -> 0 <= b < 2 ^ k -> 0 <= n < 2 ^ k ->
  Z.land (a * 2 ^ k + b) (m * 2 ^ k + n) = Z.land a m * 2 ^ k + Z.land b n.
Proof.
  intros Hk Hb Hn; pose proof (land_small b n k Hk Hn).
  rewrite <- !lor_disjoint by auto; rewrite <- !Z.shiftl_mul_pow2 by lia.
  apply Z.bits_inj'; intros i Hi; rewrite !Z.land_spec, !Z.lor_spec, Z.land_spec.
  destruct (Z.lt_ge_cases i k); [now rewrite !Z.shiftl_spec_low by auto|].
  rewrite !Z.shiftl_spec, Z.land_spec, (testbit_high b k), (testbit_high n k), !orb_false_r by lia.
  reflexivity.
Qed.

Lemma lxor_split a b m n k : 0 <= k -> 0 <= b < 2 ^ k -> 0 <= n < 2 ^ k ->
  Z.lxor (a * 2 ^ k + b) (m * 2 ^ k + n) = Z.lxor a m * 2 ^ k + Z.lxor b n.
Proof.
  intros Hk Hb Hn; pose proof (lxor_small b n k Hk Hb Hn).
  rewrite <- !lor_disjoint by auto; rewrite <- !Z.shiftl_mul_pow2 by lia.
  apply Z.bits_inj'; intros i Hi; rewrite !Z.lxor_spec, !Z.lor_spec, Z.lxor_spec.
  destruct (Z.lt_ge_cases i k); [now rewrite !Z.shiftl_spec_low by auto|].
  rewrite !Z.shiftl_spec, Z.lxor_spec, (testbit_high b k), (testbit_high n k), !orb_false_r by lia.
  now destruct (Z.testbit a (i - k)), (Z.testbit m (i - k)).
Qed.

Lemma lor_split a b m n k : 0 <= k -> 0 <= b < 2 ^ k -> 0 <= n < 2 ^ k ->
  Z.lor (a * 2 ^ k + b) (m * 2 ^ k + n) = Z.lor a m * 2 ^ k + Z.lor b n.
Proof.
  intros Hk Hb Hn; pose proof (lor_small b n k Hk Hb Hn).
  rewrite <- !lor_disjoint by auto; rewrite <- !Z.shiftl_mul_pow2 by lia.
  apply Z.bits_inj'; intros i Hi; rewrite !Z.lor_spec.
  destruct (Z.lt_ge_cases i k); [now rewrite !Z.shiftl_spec_low by auto|].
  rewrite !Z.shiftl_spec, Z.lor_spec, (testbit_high b k), (testbit_high n k), !orb_false_r by lia.
  reflexivity.
Qed.

Lemma land_low (a n : Z) : 0 <= n -> Z.land a (2 ^ n - 1) = a mod 2 ^ n.
Proof. intros; rewrite <- Z.land_ones by lia; f_equal; rewrite Z.ones_equiv; lia. Qed.

(** * Big-endian integers *)

(** The value of a big-endian byte string, and the [n]-byte big-endian encoding
    of an integer. *)
Definition be_val (l : list Z) : Z := fold_left (fun acc b => acc * 256 + b) l 0.

Fixpoint be_enc (n : nat) (v : Z) : list Z :=
  match n with
  | O => []
  | S n => be_enc n (v / 256) ++ [v mod 256]
  end.

Lemma be_val_snoc l b : be_val (l ++ [b]) = be_val l * 256 + b.
Proof. unfold be_val; now rewrite fold_left_app. Qed.

Lemma length_be_enc n v : length (be_enc n v) = n.
Proof. revert v; induction n; intros; simpl; [easy|rewrite length_app, IHn; simpl; lia]. Qed.

Lemma zlen_be_enc n v : zlen (be_enc n v) = Z.of_nat n.
Proof. unfold zlen; now rewrite length_be_enc. Qed.

Lemma bytes_be_enc n v : bytes (be_enc n v).
Proof.
  revert v; induction n; intros; simpl; [constructor|].
  apply Forall_app; split; [auto|repeat constructor; apply Z.mod_pos_bound; lia].
Qed.

Lemma be_val_nonneg l : bytes l -> 0 <= be_val l.
Proof.
  induction l as [|b l IH] using rev_ind; intros H; [easy|].
  apply Forall_app in H as [Hl Hb]; inversion_clear Hb; unfold byte in *.
  rewrite be_val_snoc; specialize (IH Hl); lia.
Qed.

Lemma be_val_bound l : bytes l -> be_val l < 256 ^ zlen l.
Proof.
  induction l as [|b l IH] using rev_ind; intros H; [reflexivity|].
  apply Forall_app in H as [Hl Hb]; inversion_clear Hb; unfold byte in *.
  rewrite be_val_snoc, zlen_app; specialize (IH Hl).
  change (zlen [b]) with 1; rewrite Z.pow_add_r by (pose proof (zlen_nonneg l); lia); lia.
Qed.

Lemma be_val_be_enc n v : be_val (be_enc n v) = v mod 256 ^ Z.of_nat n.
Proof.
  revert v; induction n as [|n IH]; intros v.
  - simpl; unfold be_val; simpl; now rewrite Z.mod_1_r.
  - cbn [be_enc]; rewrite be_val_snoc, IH.
    rewrite Nat2Z.inj_succ, Z.pow_succ_r by lia.
    rewrite (Z.rem_mul_r v 256 (256 ^ Z.of_nat n)) by (try apply Z.pow_nonzero; lia); lia.
Qed.

Lemma be_enc_be_val l : bytes l -> be_enc (length l) (be_val l) = l.
Proof.
  induction l as [|b l IH] using rev_ind; intros H; [easy|].
  apply Forall_app in H as [Hl Hb]; inversion_clear Hb; unfold byte in *.
  rewrite length_app, be_val_snoc, Nat.add_comm; cbn [be_enc length Nat.add].
  rewrite div_mul_add, mod_mul_add by lia; now rewrite IH.
Qed.

Lemma be_val_app l k : be_val (l ++ k) = be_val l * 256 ^ zlen k + be_val k.
Proof.
  induction k as [|b k IH] using rev_ind; [rewrite app_nil_r; unfold be_val, zlen; simpl; lia|].
  rewrite app_assoc, !be_val_snoc, IH, zlen_app; change (zlen [b]) with 1.
  rewrite Z.pow_add_r by (pose proof (zlen_nonneg k); lia); lia.
Qed.

Lemma be_val_cons b l : be_val (b :: l) = b * 256 ^ zlen l + be_val l.
Proof. change (b :: l) with ([b] ++ l); rewrite be_val_app; f_equal. Qed.

(** A finite check over an interval, for the tables and calendars that are
    verified by evaluation. *)
Fixpoint zall_from (f : Z -> bool) (lo : Z) (n : nat) : bool :=
  match n with
  | O => true
  | S n => if f lo then zall_from f (lo + 1) n else false
  end.

Definition zall (f : Z -> bool) (lo hi : Z) : bool := zall_from f lo (Z.to_nat (hi - lo)).

Lemma zall_from_spec f lo n :
  zall_from f lo n = true -> forall x, lo <= x < lo + Z.of_nat n -> f x = true.
Proof.
  revert lo; induction n as [|n IH]; simpl; intros lo H x Hx; [lia|].
  destruct (f lo) eqn:E; [|discriminate].
  destruct (Z.eq_dec x lo) as [->|]; [assumption|].
  apply (IH (lo + 1)); [assumption|lia].
Qed.

Lemma zall_spec f lo hi :
  zall f lo hi = true -> forall x, lo <= x < hi -> f x = true.
Proof. intros H x Hx; apply (zall_from_spec f lo _ H); lia. Qed.

(** * The allocator

    [malloc] belongs to the C library and the embedder, so it is a parameter:
    [malloc_ok n] says whether a request for [n] bytes succeeds and
    [uninit_byte] is what fresh memory holds. Theorems that do not mention
    [AllocUpTo] hold whichever allocations fail. *)
Class Allocator : Type := {
  malloc_ok : Z -> bool;
  uninit_byte : Z
}.

(** Allocations of at most [lim] bytes succeed. *)
Definition AllocUpTo `{Allocator} (lim : Z) : Prop :=
  forall n, 0 <= n <= lim -> malloc_ok n = true.

(** An allocator that never fails and hands out zeroed memory, for examples. *)
Definition allocator_total : Allocator := {| malloc_ok := fun _ => true; uninit_byte := 0 |}.

(** * State and failure

    [ST S A] is the type of a C function that mutates a state of type [S] and
    returns one together with an [A], or zero. The state is threaded through
    failing calls as well: a C parser that returns zero has already advanced
    its argument. *)

Definition ST (S A : Type) : Type := S -> option A * S.

Definition st_ret {S A} (a : A) : ST S A := fun s => (Some a, s).
Definition st_fail {S A} : ST S A := fun s => (None, s).
Definition st_bind {S A B} (m : ST S A) (k : A -> ST S B) : ST S B := fun s =>
  match m s with
  | (Some a, s') => k a s'
  | (None, s') => (None, s')
  end.
Definition st_guard {S} (b : bool) : ST S unit := if b then st_ret tt else st_fail.
Definition st_get {S} : ST S S := fun s => (Some s, s).

Declare Scope st_scope.
Delimit Scope st_scope with st.
Notation "'let!' x ':=' m 'in' k" := (st_bind m (fun x => k))
  (at level 10, x pattern, m at level 100, k at level 200) : st_scope.
Notation "m ';;;' k" := (st_bind m (fun _ => k))
  (at level 199, right associativity) : st_scope.
Global Open Scope st_scope.

Lemma st_bind_some {S A B} (m : ST S A) (k : A -> ST S B) s a s' :
  m s = (Some a, s') -> st_bind m k s = k a s'.
Proof. intros H; unfold st_bind; now rewrite H. Qed.

Lemma st_bind_none {S A B} (m : ST S A) (k : A -> ST S B) s s' :
  m s = (None, s') -> st_bind m k s = (None, s').
Proof. intros H; unfold st_bind; now rewrite H. Qed.

Lemma st_bind_inv {S A B} (m : ST S A) (k : A -> ST S B) s b s'' :
  st_bind m k s = (Some b, s'') ->
  exists a s', m s = (Some a, s') /\ k a s' = (Some b, s'').
Proof. unfold st_bind; destruct (m s) as [[a|] s']; [eauto|discriminate]. Qed.

Lemma st_guard_inv {S} (b : bool) (s s' : S) x :
  st_guard b s = (Some x, s') -> b = true /\ s' = s.
Proof. destruct b; simpl; [intros [= <- <-]; auto|discriminate]. Qed.

Lemma st_guard_true {S B} (b : bool) (k : unit -> ST S B) s :
  b = true -> st_bind (st_guard b) k s = k tt s.
Proof. now intros ->. Qed.

(** Inverts one successful step of a monadic computation. *)
Ltac st_inv H :=
  repeat first
    [ let a := fresh "a" in let s := fresh "s" in
      let H1 := fresh "Hm" in let H2 := fresh "Hk" in
      apply st_bind_inv in H as (a & s & H1 & H2); rename H2 into H; st_inv_leaf H1
    | progress st_inv_leaf H ]
with st_inv_leaf H :=
  try match type of H with
  | st_guard _ _ = (Some _, _) => apply st_guard_inv in H as [H ->]
  | st_ret _ _ = (Some _, _) => injection H as <- <-
  | st_fail _ = (Some _, _) => discriminate H
  | st_get _ = (Some _, _) => injection H as <- <-
  end.
