(* ===== verification/Mem.v ===== *)
(** Memory blocks and C strings: the helpers of crypto/mem.c.

    A block is the list of its bytes. A C string is the list of its characters
    before the terminating NUL; reading one at its length gives the NUL, as
    [znth] does past the end of a list. Whether [OPENSSL_malloc] succeeds
    depends on the embedder's hooks and the C library and is a parameter. *)

From S2P Require Import Prelude.

Section Blocks.
  Context `{Allocator}.

(** Fresh memory of [n] bytes. *)
Definition fresh (n : Z) : list Z := zrep n uninit_byte.

Definition OPENSSL_malloc (size : Z) : option (list Z) :=
  if malloc_ok size then Some (fresh size) else None.

Definition OPENSSL_zalloc (size : Z) : option (list Z) :=
  match OPENSSL_malloc size with
  | Some ret => Some (zsplice ret 0 (zrep size 0))
  | None => None
  end.

Definition OPENSSL_calloc (num size : Z) : option (list Z) :=
  if negb (size =? 0) && (SIZE_MAX / size <? num) then None
  else OPENSSL_zalloc (u64 (num * size)).

(** The reallocation of a block; an absent block is the empty list. *)
Definition OPENSSL_realloc (block : list Z) (new_size : Z) : option (list Z) :=
  match OPENSSL_malloc new_size with
  | None => None
  | Some ret =>
      let to_copy := if zlen block <? new_size then zlen block else new_size in
      Some (zsplice ret 0 (ztake to_copy block))
  end.

Definition OPENSSL_memdup (data : list Z) (size : Z) : option (list Z) :=
  if size =? 0 then None
  else match OPENSSL_malloc size with
       | None => None
       | Some ret => Some (zsplice ret 0 (ztake size data))
       end.

Definition OPENSSL_strdup (s : list Z) : option (list Z) :=
  let n := u64 (zlen s + 1) in
  match OPENSSL_malloc n with
  | None => None
  | Some ret => Some (zsplice ret 0 (s ++ [0]))
  end.

(** ** Lookup and comparison *)

Definition CRYPTO_memcmp (a b : list Z) (n : Z) : Z :=
  fold_left (fun x i => u8 (Z.lor x (Z.lxor (znth a (Z.of_nat i)) (znth b (Z.of_nat i))))) (seq 0 (Z.to_nat n)) 0.

(** The position of the first [c] in a block (internal.h); [memchr] is the
    loop. *)
Fixpoint memchr_from (i : Z) (l : list Z) (c : Z) : option Z :=
  match l with
  | [] => None
  | x :: l => if x =? c then Some i else memchr_from (i + 1) l c
  end.

Definition OPENSSL_memchr (l : list Z) (c : Z) : option Z := memchr_from 0 l c.

Definition OPENSSL_hash32 (data : list Z) : Z :=
  fold_left (fun h b => u32 (Z.lxor h b * 16777619)) data 2166136261.

Definition OPENSSL_strhash (s : list Z) : Z := OPENSSL_hash32 s.

(** The search of [OPENSSL_strnlen] from index [i]. *)
Fixpoint strnlen_from (fuel : nat) (s : list Z) (i : Z) : Z :=
  match fuel with
  | O => i
  | S fuel => if znth s i =? 0 then i else strnlen_from fuel s (i + 1)
  end.

Definition OPENSSL_strnlen (s : list Z) (n : Z) : Z := strnlen_from (Z.to_nat n) s 0.

Definition OPENSSL_strndup (str : list Z) (size : Z) : option (list Z) :=
  let size := OPENSSL_strnlen str size in
  let alloc_size := u64 (size + 1) in
  if alloc_size <? size then None
  else match OPENSSL_malloc alloc_size with
       | None => None
       | Some ret => Some (zsplice (zsplice ret 0 (ztake size str)) size [0])
       end.
End Blocks.

(** ** Character classes *)

Definition in_range (lo c hi : Z) : bool := (lo <=? c) && (c <=? hi).

Definition OPENSSL_isalpha (c : Z) : bool := in_range 97 c 122 || in_range 65 c 90.
Definition OPENSSL_isdigit (c : Z) : bool := in_range 48 c 57.
Definition OPENSSL_isxdigit (c : Z) : bool := OPENSSL_isdigit c || in_range 97 c 102 || in_range 65 c 70.
Definition OPENSSL_fromxdigit (c : Z) : option Z :=
  if OPENSSL_isdigit c then Some (u8 (c - 48))
  else if in_range 97 c 102 then Some (u8 (c - 97 + 10))
  else if in_range 65 c 70 then Some (u8 (c - 65 + 10))
  else None.
Definition OPENSSL_isalnum (c : Z) : bool := OPENSSL_isalpha c || OPENSSL_isdigit c.
Definition OPENSSL_tolower (c : Z) : Z := if in_range 65 c 90 then c + (97 - 65) else c.
Definition OPENSSL_isspace (c : Z) : bool :=
  (c =? 9) || (c =? 10) || (c =? 11) || (c =? 12) || (c =? 13) || (c =? 32).

(** The decimal digits of a number, as [snprintf] prints them; [fuel] bounds
    their number. *)
Fixpoint dec_digits (fuel : nat) (n : Z) : list Z :=
  match fuel with
  | O => []
  | S fuel => if n <? 10 then [48 + n] else dec_digits fuel (n / 10) ++ [48 + n mod 10]
  end.

(** ** String comparison *)

Fixpoint casecmp_from (fuel : nat) (a b : list Z) (i : Z) : Z :=
  match fuel with
  | O => 0
  | S fuel =>
      let aa := OPENSSL_tolower (znth a i) in
      let bb := OPENSSL_tolower (znth b i) in
      if aa <? bb then -1 else if bb <? aa then 1 else if aa =? 0 then 0
      else casecmp_from fuel a b (i + 1)
  end.

(** The loop ends at the first NUL of [a] at the latest. *)
Definition OPENSSL_strcasecmp (a b : list Z) : Z := casecmp_from (S (length a)) a b 0.
Definition OPENSSL_strncasecmp (a b : list Z) (n : Z) : Z := casecmp_from (Z.to_nat n) a b 0.

(** ** Bounded copy and concatenation *)

(** The copying loop of [OPENSSL_strlcpy], with [dst] at offset [at_] of its
    block; the state is the block, the offset, the space and the characters
    left, and the count of characters copied. *)
Fixpoint strlcpy_loop (src block : list Z) (at_ dst_size l : Z) : list Z * Z * Z * Z * list Z :=
  match src with
  | [] => (block, at_, dst_size, l, [])
  | c :: src' =>
      if 1 <? dst_size then strlcpy_loop src' (zsplice block at_ [c]) (at_ + 1) (dst_size - 1) (l + 1)
      else (block, at_, dst_size, l, src)
  end.

Definition OPENSSL_strlcpy (block : list Z) (at_ : Z) (src : list Z) (dst_size : Z) : Z * list Z :=
  let '(block, at_, dst_size, l, src) := strlcpy_loop src block at_ dst_size 0 in
  (u64 (l + zlen src), if negb (dst_size =? 0) then zsplice block at_ [0] else block).

(** The search for the end of the string in the block. *)
Fixpoint strlcat_loop (fuel : nat) (block : list Z) (at_ dst_size l : Z) : Z * Z * Z :=
  match fuel with
  | O => (at_, dst_size, l)
  | S fuel =>
      if (0 <? dst_size) && negb (znth block at_ =? 0)
      then strlcat_loop fuel block (at_ + 1) (dst_size - 1) (l + 1)
      else (at_, dst_size, l)
  end.

Definition OPENSSL_strlcat (block src : list Z) (dst_size : Z) : Z * list Z :=
  let '(at_, dst_size, l) := strlcat_loop (Z.to_nat dst_size) block 0 dst_size 0 in
  let '(r, block) := OPENSSL_strlcpy block at_ src dst_size in
  (u64 (l + r), block).

(** * Blocks *)

Section BlockLemmas.
  Context `{Allocator}.

Lemma zlen_fresh n : 0 <= n -> zlen (fresh n) = n.
Proof. apply zlen_zrep. Qed.

(** A block keeps its bytes when it is reallocated, as far as they fit. *)
Lemma realloc_eq m n m' : OPENSSL_realloc m n = Some m' -> 0 <= n ->
  m' = ztake n m ++ fresh (n - zlen m).
Proof.
  unfold OPENSSL_realloc, OPENSSL_malloc, fresh; case_if; [|discriminate]; intros [= <-] Hn.
  rewrite zsplice_0; pose proof (zlen_nonneg m); case_if; bool_facts.
  - rewrite !ztake_all, zdrop_zrep by lia; reflexivity.
  - rewrite zlen_ztake, zdrop_zrep by lia; f_equal; unfold zrep; rewrite !Z2Nat.nonpos by lia; reflexivity.
Qed.

Lemma realloc_wf m n m' : OPENSSL_realloc m n = Some m' -> 0 <= n -> zlen m' = n.
Proof.
  intros E Hn; rewrite (realloc_eq _ _ _ E Hn), zlen_app; pose proof (zlen_nonneg m).
  destruct (Z.le_gt_cases n (zlen m)).
  - rewrite zlen_ztake by lia; unfold fresh, zrep; rewrite (Z2Nat.nonpos (n - zlen m)) by lia.
    simpl replicate; change (zlen []) with 0; lia.
  - rewrite ztake_all, zlen_fresh by lia; lia.
Qed.

Lemma realloc_ok m n : malloc_ok n = true -> exists m', OPENSSL_realloc m n = Some m'.
Proof. intros E; unfold OPENSSL_realloc, OPENSSL_malloc; rewrite E; eauto. Qed.

Lemma calloc_spec num size : 0 <= num -> 0 <= size ->
  (forall block, OPENSSL_calloc num size = Some block -> block = zrep (num * size) 0) /\
  (SIZE_MAX < num * size -> OPENSSL_calloc num size = None).
Proof.
  intros Hn Hs; unfold OPENSSL_calloc, OPENSSL_zalloc, OPENSSL_malloc.
  destruct (negb (size =? 0) && (SIZE_MAX / size <? num)) eqn:E; [easy|].
  assert (num * size <= SIZE_MAX) as Hb.
  { destruct (Z.eq_dec size 0) as [-> |]; [unfold SIZE_MAX; lia|].
    rewrite (proj2 (Z.eqb_neq _ _)) in E by lia; cbn in E; bool_facts.
    pose proof (Z.mul_div_le SIZE_MAX size ltac:(lia)); nia. }
  split; [|lia]; rewrite uw_small by (unfold SIZE_MAX in Hb; pow2; nia).
  case_if; [|discriminate]; intros block [= <-].
  rewrite zsplice_0, zlen_zrep, zdrop_all, app_nil_r by (rewrite ?zlen_fresh; nia); reflexivity.
Qed.
End BlockLemmas.

(** * Comparison *)

Lemma lor_eq_0 x y : Z.lor x y = 0 <-> x = 0 /\ y = 0.
Proof. apply Z.lor_eq_0_iff. Qed.

Lemma memcmp_fold a b l x : bytes a -> bytes b -> byte x ->
  fold_left (fun x i => u8 (Z.lor x (Z.lxor (znth a (Z.of_nat i)) (znth b (Z.of_nat i))))) l x = 0 <->
  x = 0 /\ Forall (fun i => znth a (Z.of_nat i) = znth b (Z.of_nat i)) l.
Proof.
  intros Ha Hb; revert x; induction l as [|i l IH]; intros x Hx; cbn [fold_left].
  { split; [intros ->; auto|now intros []]. }
  assert (byte (Z.lor x (Z.lxor (znth a (Z.of_nat i)) (znth b (Z.of_nat i))))) as Hl.
  { pose proof (bytes_znth a (Z.of_nat i) Ha) as Ba; pose proof (bytes_znth b (Z.of_nat i) Hb) as Bb.
    unfold byte in *; apply (lor_small _ _ 8); [lia..|apply lxor_small; lia]. }
  rewrite u8_id by auto; rewrite IH by auto; rewrite lor_eq_0, Forall_cons, Z.lxor_eq_0_iff; tauto.
Qed.

Lemma znth_ztake_ext (a b : list Z) n : 0 <= n <= zlen a -> n <= zlen b ->
  (forall i, 0 <= i < n -> znth a i = znth b i) -> ztake n a = ztake n b.
Proof.
  intros Hn Hb Hi; apply list_eq; intros i; unfold ztake, zlen in *.
  destruct (decide (i < Z.to_nat n)%nat) as [Hlt|]; [|now rewrite !lookup_take_ge by lia].
  rewrite !lookup_take_lt by lia; specialize (Hi (Z.of_nat i) ltac:(lia)); unfold znth in Hi.
  rewrite Nat2Z.id in Hi; destruct (lookup_lt_is_Some_2 a i) as [x Hx]; [lia|].
  destruct (lookup_lt_is_Some_2 b i) as [y Hy]; [lia|].
  rewrite (nth_lookup_Some _ _ _ _ Hx), (nth_lookup_Some _ _ _ _ Hy) in Hi; congruence.
Qed.

(** [CRYPTO_memcmp] is a comparison of [n] bytes for equality: it
    returns zero exactly when the two blocks agree on them, although it never
    branches on their values. *)
Theorem memcmp_equality a b n : bytes a -> bytes b -> 0 <= n <= zlen a -> n <= zlen b ->
  CRYPTO_memcmp a b n = 0 <-> ztake n a = ztake n b.
Proof.
  intros Ha Hb Hn Hm; unfold CRYPTO_memcmp; rewrite memcmp_fold by (auto; unfold byte; lia).
  rewrite Forall_seq; split.
  - intros [_ Hi]; apply znth_ztake_ext; [lia..|]; intros i Hlt.
    specialize (Hi (Z.to_nat i) ltac:(lia)); now rewrite Z2Nat.id in Hi by lia.
  - intros E; split; [reflexivity|]; intros i Hi.
    rewrite <- (znth_ztake a n), <- (znth_ztake b n) by lia; now rewrite E.
Qed.

Lemma memcmp_equality_witness :
  CRYPTO_memcmp [1; 2; 3] [1; 2; 7] 2 = 0 /\ CRYPTO_memcmp [1; 2; 3] [1; 2; 7] 3 <> 0.
Proof.
  split.
  - refine (proj2 (memcmp_equality [1; 2; 3] [1; 2; 7] 2 _ _ _ _) _);
      [each_literal|each_literal|zl|zl|reflexivity].
  - intros E; refine (_ (proj1 (memcmp_equality [1; 2; 3] [1; 2; 7] 3 _ _ _ _) E));
      [discriminate|each_literal|each_literal|zl|zl].
Defined.

(** ** Case-insensitive comparison *)

Definition nul_free (s : list Z) : Prop := Forall (fun c => c <> 0) s.

Lemma tolower_0 c : OPENSSL_tolower c = 0 <-> c = 0.
Proof. unfold OPENSSL_tolower, in_range; case_if; bool_facts; lia. Qed.

Lemma casecmp_cons fuel c a d b i : 0 <= i ->
  casecmp_from fuel (c :: a) (d :: b) (i + 1) = casecmp_from fuel a b i.
Proof.
  revert i; induction fuel as [|fuel IH]; intros i Hi; cbn [casecmp_from]; [reflexivity|].
  rewrite !znth_cons, IH by lia; reflexivity.
Qed.

Lemma casecmp_first fuel c a d b :
  casecmp_from (S fuel) (c :: a) (d :: b) 0 =
  if OPENSSL_tolower c <? OPENSSL_tolower d then -1
  else if OPENSSL_tolower d <? OPENSSL_tolower c then 1
  else if OPENSSL_tolower c =? 0 then 0 else casecmp_from fuel a b 0.
Proof. cbn [casecmp_from]; rewrite <- (casecmp_cons fuel c a d b 0) by lia; reflexivity. Qed.

(** The reference order: lexicographic on the lower-case characters, a proper
    prefix before its extensions. *)
Fixpoint lex_cmp (a b : list Z) : Z :=
  match a, b with
  | [], [] => 0
  | [], d :: _ => if 0 <? d then -1 else 1
  | c :: _, [] => if c <? 0 then -1 else 1
  | c :: a, d :: b => if c <? d then -1 else if d <? c then 1 else lex_cmp a b
  end.

Lemma casecmp_lex fuel a b : nul_free a -> nul_free b -> (length a < fuel)%nat ->
  casecmp_from fuel a b 0 = lex_cmp (map OPENSSL_tolower a) (map OPENSSL_tolower b).
Proof.
  intros Ha; revert fuel b; induction Ha as [|c a Hc Ha IH]; intros fuel b Hb Hf;
    (destruct fuel as [|fuel]; [cbn in Hf; lia|]).
  - cbn [casecmp_from]; change (OPENSSL_tolower (znth [] 0)) with 0.
    destruct b as [|d b]; [reflexivity|]; inversion_clear Hb as [|? ? Hd _]; cbn [map lex_cmp].
    change (znth (d :: b) 0) with d; pose proof (tolower_0 d); repeat case_if; bool_facts; lia.
  - destruct b as [|d b]; cbn [map lex_cmp].
    + cbn [casecmp_from]; change (OPENSSL_tolower (znth [] 0)) with 0; change (znth (c :: a) 0) with c.
      pose proof (tolower_0 c); repeat case_if; bool_facts; lia.
    + inversion_clear Hb; rewrite casecmp_first, IH by (auto; cbn in Hf; lia).
      pose proof (tolower_0 c); repeat case_if; bool_facts; auto; lia.
Qed.

Lemma lex_cmp_0 a b : nul_free a -> nul_free b -> lex_cmp a b = 0 <-> a = b.
Proof.
  intros Ha; revert b; induction Ha as [|c a Hc Ha IH]; intros b Hb; destruct b as [|d b]; cbn [lex_cmp].
  1-3: split; try easy; case_if; easy.
  inversion_clear Hb as [|? ? Hd Hb']; specialize (IH b Hb'); repeat case_if; bool_facts;
    split; intros E; try discriminate E; try (injection E as -> ->); try lia; [f_equal; [lia|]; tauto|tauto].
Qed.

Lemma lex_cmp_sym a b : nul_free a -> nul_free b -> lex_cmp b a = - lex_cmp a b.
Proof.
  intros Ha; revert b; induction Ha as [|c a Hc Ha IH]; intros b Hb; destruct b as [|d b]; cbn [lex_cmp];
    [reflexivity|inversion_clear Hb..|].
  1,2: repeat case_if; bool_facts; lia.
  inversion_clear Hb as [|? ? Hd Hb']; rewrite (IH b Hb'); repeat case_if; bool_facts; lia.
Qed.

Lemma nul_free_lower a : nul_free a -> nul_free (map OPENSSL_tolower a).
Proof. intros Ha; apply Forall_map; eapply Forall_impl; [apply Ha|]; intros c Hc; cbn; now rewrite tolower_0. Qed.

(** [OPENSSL_strcasecmp] on two C strings ends, is the lexicographic
    order of their lower-case forms, is antisymmetric, and is zero exactly when
    the strings agree up to case. *)
Theorem strcasecmp_order a b : nul_free a -> nul_free b ->
  OPENSSL_strcasecmp a b = lex_cmp (map OPENSSL_tolower a) (map OPENSSL_tolower b) /\
  OPENSSL_strcasecmp b a = - OPENSSL_strcasecmp a b /\
  (OPENSSL_strcasecmp a b = 0 <-> map OPENSSL_tolower a = map OPENSSL_tolower b).
Proof.
  intros Ha Hb; unfold OPENSSL_strcasecmp; rewrite !casecmp_lex by (auto; lia).
  pose proof (nul_free_lower a Ha); pose proof (nul_free_lower b Hb).
  split; [reflexivity|]; split; [now apply lex_cmp_sym|now apply lex_cmp_0].
Qed.

Lemma strcasecmp_order_witness : OPENSSL_strcasecmp [104; 73] [72; 105] = 0.
Proof. apply (strcasecmp_order [104; 73] [72; 105]); [each_literal..|reflexivity]. Defined.

(** * Bounded copies *)

(** The part of [src] that fits in [room] bytes with its terminator. *)
Definition fitting (room : Z) (src : list Z) : list Z := ztake (room - 1) src ++ [0].

Lemma strlcpy_loop_spec src block at_ dst_size l : 0 <= at_ -> 0 < dst_size -> at_ + dst_size <= zlen block ->
  strlcpy_loop src block at_ dst_size l =
  (zsplice block at_ (ztake (dst_size - 1) src), at_ + zlen (ztake (dst_size - 1) src),
   dst_size - zlen (ztake (dst_size - 1) src), l + zlen (ztake (dst_size - 1) src), zdrop (dst_size - 1) src).
Proof.
  revert block at_ dst_size l; induction src as [|c src IH]; intros block at_ dst_size l Ha Hd Hb; cbn [strlcpy_loop].
  - rewrite (ztake_all (dst_size - 1)), (zdrop_all (dst_size - 1)) by (change (zlen []) with 0; lia).
    unfold zsplice; change (zlen []) with 0; rewrite Z.add_0_r; cbn [app]; rewrite ztake_zdrop.
    now rewrite !Z.add_0_r, Z.sub_0_r.
  - case_if; bool_facts.
    + rewrite IH by (rewrite ?zlen_zsplice by (zl); zl).
      rewrite ztake_cons, zdrop_cons, zlen_cons by lia.
      replace (at_ + 1) with (at_ + zlen [c]) at 1 by reflexivity.
      rewrite zsplice_zsplice by zl; cbn [app]; change (zlen [c]) with 1.
      repeat (apply pair_equal_spec; split); first [reflexivity|lia].
    + replace (dst_size - 1) with 0 by lia; rewrite ztake_0, zdrop_0; unfold zsplice.
      change (zlen []) with 0; rewrite !Z.add_0_r, Z.sub_0_r; cbn [app]; now rewrite ztake_zdrop.
Qed.

Lemma strlcpy_spec block at_ src dst_size : 0 <= at_ -> 0 <= dst_size -> at_ + dst_size <= zlen block ->
  zlen src < 2 ^ 64 ->
  OPENSSL_strlcpy block at_ src dst_size =
  (zlen src, if dst_size =? 0 then block else zsplice block at_ (fitting dst_size src)).
Proof.
  intros Ha Hd Hb Hs; unfold OPENSSL_strlcpy; case_if; bool_facts.
  - subst dst_size; destruct src; cbn; [reflexivity|]; now rewrite uw_small by zl.
  - rewrite strlcpy_loop_spec by lia; set (t := ztake (dst_size - 1) src).
    assert (zlen t <= dst_size - 1) as Ht.
    { unfold t, ztake, zlen; rewrite length_take; lia. }
    rewrite (proj2 (Z.eqb_neq _ _)) by lia; cbn [negb].
    rewrite zsplice_zsplice by lia; fold t; unfold fitting; fold t; f_equal.
    rewrite Z.add_0_l, <- zlen_app; unfold t; rewrite ztake_zdrop; apply uw_small; pose proof (zlen_nonneg src); lia.
Qed.

Lemma strlcat_loop_end pre s rest fuel dst_size l : nul_free s -> (length s <= fuel)%nat -> zlen s <= dst_size ->
  (dst_size = zlen s \/ exists r, rest = 0 :: r) ->
  strlcat_loop fuel (pre ++ s ++ rest) (zlen pre) dst_size l = (zlen pre + zlen s, dst_size - zlen s, l + zlen s).
Proof.
  intros Hs; revert pre fuel dst_size l; induction Hs as [|c s Hc Hs IH]; intros pre fuel dst_size l Hf Hd Hr.
  - change (zlen []) with 0 in *; rewrite !Z.add_0_r, Z.sub_0_r; destruct fuel as [|fuel]; [reflexivity|].
    cbn [strlcat_loop app]; rewrite znth_app2, Z.sub_diag by lia.
    destruct Hr as [-> | [r ->] ]; [reflexivity|]; cbn; now rewrite andb_false_r.
  - destruct fuel as [|fuel]; [cbn in Hf; lia|]; rewrite zlen_cons in *; pose proof (zlen_nonneg s).
    cbn [strlcat_loop app]; rewrite znth_app2, Z.sub_diag by lia; change (znth (c :: s ++ rest) 0) with c.
    rewrite (proj2 (Z.ltb_lt 0 dst_size)), (proj2 (Z.eqb_neq c 0)) by lia; cbn [andb negb].
    replace (pre ++ c :: s ++ rest) with ((pre ++ [c]) ++ s ++ rest) by now rewrite <- app_assoc.
    replace (zlen pre + 1) with (zlen (pre ++ [c])) by zl.
    rewrite IH; [rewrite zlen_app; change (zlen [c]) with 1;
      repeat (apply pair_equal_spec; split); lia|cbn in Hf; lia|lia|].
    destruct Hr; [left; lia|now right].
Qed.

(** [OPENSSL_strlcat] on a buffer of [dst_size] bytes that holds the
    string [s]: the buffer then holds [s] and as much of [src] as fits with a
    terminator, nothing past the terminator changes, the store stays in the
    buffer, and the length that was wanted is returned. A buffer with no
    terminator is left alone. *)
Theorem strlcat_correct s rest src : nul_free s -> zlen s + zlen src + zlen rest < 2 ^ 64 ->
  OPENSSL_strlcat (s ++ 0 :: rest) src (zlen (s ++ 0 :: rest)) =
    (zlen s + zlen src, zsplice (s ++ 0 :: rest) (zlen s) (fitting (1 + zlen rest) src)) /\
  zlen (zsplice (s ++ 0 :: rest) (zlen s) (fitting (1 + zlen rest) src)) = zlen (s ++ 0 :: rest) /\
  OPENSSL_strlcat s src (zlen s) = (zlen s + zlen src, s).
Proof.
  intros Hs Hb; unfold OPENSSL_strlcat.
  assert (zlen (fitting (1 + zlen rest) src) <= 1 + zlen rest) as Hf.
  { unfold fitting; rewrite zlen_app; unfold ztake, zlen; rewrite length_take; cbn; lia. }
  split; [|split].
  - rewrite (strlcat_loop_end [] s (0 :: rest)); [|auto|unfold zlen; rewrite length_app; lia|zl|eauto].
    change (zlen []) with 0; rewrite !Z.add_0_l; rewrite zlen_app, zlen_cons.
    rewrite strlcpy_spec by zl; replace (zlen s + (1 + zlen rest) - zlen s) with (1 + zlen rest) by lia.
    rewrite (proj2 (Z.eqb_neq _ _)) by zl; now rewrite uw_small by zl.
  - apply zlen_zsplice; zl.
  - pose proof (strlcat_loop_end [] s [] (Z.to_nat (zlen s)) (zlen s) 0 Hs) as E; cbn [app] in E.
    rewrite app_nil_r in E; change (zlen []) with 0 in E; rewrite E by (auto; unfold zlen; lia).
    rewrite strlcpy_spec by zl; rewrite Z.sub_diag, Z.eqb_refl; f_equal; apply uw_small; zl.
Qed.

Lemma strlcat_correct_witness :
  OPENSSL_strlcat [97; 98; 0; 9; 9] [99; 100; 101] 5 = (5, [97; 98; 99; 100; 0]).
Proof. exact (proj1 (strlcat_correct [97; 98] [9; 9] [99; 100; 101] ltac:(each_literal) ltac:(vm_compute; reflexivity))). Defined.
