(* ===== verification/Cbs.v ===== *)
(** CBS: the byte-string reader of crypto/bytestring/cbs.c (lines 29-279).

    A [CBS] is the window of bytes [data[0..len)] that the C struct points at.
    Every reader is an [ST CBS] computation: it returns what the C function
    stores in its out-parameter when it returns one, and the window that is
    left, also when it returns zero. *)

From S2P Require Import Prelude Mem.

Definition CBS : Type := list Z.

Definition CBS_init (data : list Z) (len : Z) : CBS := ztake len data.

Definition CBS_len (cbs : CBS) : Z := zlen cbs.
Definition CBS_data (cbs : CBS) : list Z := cbs.

Definition cbs_get (n : Z) : ST CBS (list Z) := fun cbs =>
  if CBS_len cbs <? n then (None, cbs) else (Some (ztake n cbs), zdrop n cbs).

Definition CBS_skip (len : Z) : ST CBS unit := let! _ := cbs_get len in st_ret tt.

(** [CBS_stow] copies the window to the heap; [None] is an allocation failure. *)
Definition CBS_stow `{Allocator} (cbs : CBS) : option (list Z) :=
  if CBS_len cbs =? 0 then Some [] else OPENSSL_memdup cbs (CBS_len cbs).

Definition CBS_strdup `{Allocator} (cbs : CBS) : option (list Z) := OPENSSL_strndup cbs (CBS_len cbs).

Definition CBS_contains_zero_byte (cbs : CBS) : bool :=
  match OPENSSL_memchr cbs 0 with Some _ => true | None => false end.

Definition CBS_mem_equal (cbs data : list Z) : bool :=
  if negb (zlen data =? CBS_len cbs) then false
  else CRYPTO_memcmp cbs data (CBS_len cbs) =? 0.

(** The loop of [cbs_get_u]: shift in one byte at a time, in a [uint64_t]. *)
Definition shift_in (result b : Z) : Z := Z.lor (u64 (Z.shiftl result 8)) b.

Definition cbs_get_u (len : Z) : ST CBS Z :=
  let! data := cbs_get len in
  st_ret (fold_left shift_in data 0).

Definition CBS_get_u8 : ST CBS Z := let! v := cbs_get 1 in st_ret (znth v 0).

Definition CBS_get_u16 : ST CBS Z := let! v := cbs_get_u 2 in st_ret (u16 v).

Definition CRYPTO_bswap2 (x : Z) : Z := u16 (Z.lor (Z.shiftr x 8) (Z.shiftl x 8)).

Definition CRYPTO_bswap4 (x : Z) : Z :=
  let x := u32 (Z.lor (Z.shiftr x 16) (Z.shiftl x 16)) in
  u32 (Z.lor (Z.shiftr (Z.land x 0xff00ff00) 8) (Z.shiftl (Z.land x 0x00ff00ff) 8)).

Definition CRYPTO_bswap8 (x : Z) : Z :=
  Z.lor (CRYPTO_bswap4 (u32 (Z.shiftr x 32))) (Z.shiftl (CRYPTO_bswap4 (u32 x)) 32).

Definition CBS_get_u16le : ST CBS Z := let! v := CBS_get_u16 in st_ret (CRYPTO_bswap2 v).
Definition CBS_get_u24 : ST CBS Z := let! v := cbs_get_u 3 in st_ret (u32 v).
Definition CBS_get_u32 : ST CBS Z := let! v := cbs_get_u 4 in st_ret (u32 v).
Definition CBS_get_u32le : ST CBS Z := let! v := CBS_get_u32 in st_ret (CRYPTO_bswap4 v).
Definition CBS_get_u64 : ST CBS Z := cbs_get_u 8.
Definition CBS_get_u64le : ST CBS Z := let! v := cbs_get_u 8 in st_ret (CRYPTO_bswap8 v).

Definition CBS_get_last_u8 : ST CBS Z := fun cbs =>
  if CBS_len cbs =? 0 then (None, cbs)
  else (Some (znth cbs (CBS_len cbs - 1)), ztake (CBS_len cbs - 1) cbs).

Definition CBS_get_bytes (len : Z) : ST CBS CBS :=
  let! v := cbs_get len in st_ret (CBS_init v len).

Definition CBS_copy_bytes (len : Z) : ST CBS (list Z) := cbs_get len.

Definition cbs_get_length_prefixed (len_len : Z) : ST CBS CBS :=
  let! len := cbs_get_u len_len in
  CBS_get_bytes len.

Definition CBS_get_u8_length_prefixed : ST CBS CBS := cbs_get_length_prefixed 1.
Definition CBS_get_u16_length_prefixed : ST CBS CBS := cbs_get_length_prefixed 2.
Definition CBS_get_u24_length_prefixed : ST CBS CBS := cbs_get_length_prefixed 3.

Definition CBS_get_until_first (c : Z) : ST CBS CBS := fun cbs =>
  match OPENSSL_memchr (CBS_data cbs) c with
  | None => (None, cbs)
  | Some split => CBS_get_bytes split cbs
  end.


(** The digit loop of [CBS_get_u64_decimal]; it ends at the first byte that is
    not a digit, which is not consumed. *)
Fixpoint u64_decimal_loop (v : Z) (seen_digit : bool) (cbs : CBS) : option Z * CBS :=
  match cbs with
  | [] => (if seen_digit then Some v else None, [])
  | c :: cbs' =>
      if negb (OPENSSL_isdigit c) then (if seen_digit then Some v else None, cbs)
      else if ((v =? 0) && seen_digit)
              || (UINT64_MAX / 10 <? v)
              || (UINT64_MAX - (c - 48) <? u64 (v * 10))
      then (None, cbs')
      else u64_decimal_loop (u64 (v * 10 + (c - 48))) true cbs'
  end.

Definition CBS_get_u64_decimal : ST CBS Z := u64_decimal_loop 0 false.

(** One byte per iteration of [parse_base128_integer]'s do-while loop. *)
Fixpoint base128_loop (v : Z) (cbs : CBS) : option Z * CBS :=
  match cbs with
  | [] => (None, [])
  | b :: cbs' =>
      if negb (Z.shiftr v (64 - 7) =? 0) then (None, cbs')
      else if (v =? 0) && (b =? 0x80) then (None, cbs')
      else
        let v := Z.lor (u64 (Z.shiftl v 7)) (Z.land b 0x7f) in
        if Z.land b 0x80 =? 0 then (Some v, cbs') else base128_loop v cbs'
  end.

Definition parse_base128_integer : ST CBS Z := base128_loop 0.

(** * Lemmas about the readers *)

Section Readers.
Implicit Types cbs out rest data : list Z.

Lemma cbs_get_app out rest n : n = zlen out -> cbs_get n (out ++ rest) = (Some out, rest).
Proof.
  intros ->; unfold cbs_get, CBS_len.
  destruct (Z.ltb_spec (zlen (out ++ rest)) (zlen out)); [zl|].
  now rewrite ztake_app, zdrop_app.
Qed.

Lemma cbs_get_inv n cbs out rest :
  0 <= n -> cbs_get n cbs = (Some out, rest) -> cbs = out ++ rest /\ zlen out = n.
Proof.
  unfold cbs_get, CBS_len; intros Hn.
  destruct (Z.ltb_spec (zlen cbs) n); [discriminate|intros [= <- <-]].
  split; [now rewrite ztake_zdrop|rewrite zlen_ztake; lia].
Qed.

Lemma cbs_get_none n cbs rest :
  cbs_get n cbs = (None, rest) -> rest = cbs /\ zlen cbs < n.
Proof.
  unfold cbs_get, CBS_len; destruct (Z.ltb_spec (zlen cbs) n); [intros [= <-]; auto|discriminate].
Qed.

Lemma CBS_get_bytes_app out rest n :
  n = zlen out -> CBS_get_bytes n (out ++ rest) = (Some out, rest).
Proof.
  intros E; unfold CBS_get_bytes; erewrite st_bind_some by (now apply cbs_get_app).
  unfold st_ret, CBS_init; now rewrite ztake_all by lia.
Qed.

Lemma CBS_get_bytes_inv n cbs out rest :
  0 <= n -> CBS_get_bytes n cbs = (Some out, rest) -> cbs = out ++ rest /\ zlen out = n.
Proof.
  unfold CBS_get_bytes; intros Hn H; st_inv H.
  apply cbs_get_inv in Hm as [-> E]; [|lia].
  unfold CBS_init; rewrite ztake_all by lia; auto.
Qed.

Lemma CBS_get_u8_cons b rest : CBS_get_u8 (b :: rest) = (Some b, rest).
Proof.
  unfold CBS_get_u8; change (b :: rest) with ([b] ++ rest).
  now erewrite st_bind_some by (now apply cbs_get_app).
Qed.

Lemma CBS_get_u8_nil : CBS_get_u8 [] = (None, []).
Proof. reflexivity. Qed.

Lemma CBS_get_u8_inv cbs b rest : CBS_get_u8 cbs = (Some b, rest) -> cbs = b :: rest.
Proof.
  destruct cbs; [discriminate|rewrite CBS_get_u8_cons; now intros [= -> ->]].
Qed.

Lemma shift_in_small r b : 0 <= r < 2 ^ 56 -> byte b -> shift_in r b = r * 256 + b.
Proof.
  intros Hr Hb; unfold shift_in, byte in *.
  rewrite Z.shiftl_mul_pow2, uw_small by (pow2; lia).
  rewrite (lor_disjoint r b 8); pow2; lia.
Qed.

(** Up to eight bytes the shift loop computes the big-endian value. *)
Lemma fold_shift_in data : bytes data -> zlen data <= 8 -> fold_left shift_in data 0 = be_val data.
Proof.
  induction data as [|b l IH] using rev_ind; intros Hb Hl; [reflexivity|].
  apply Forall_app in Hb as [Hb1 Hb2]; inversion_clear Hb2.
  rewrite zlen_app in Hl; change (zlen [b]) with 1 in Hl.
  rewrite fold_left_app; simpl; rewrite IH, be_val_snoc by (auto; lia).
  apply shift_in_small; [|assumption].
  pose proof (be_val_nonneg l Hb1); pose proof (be_val_bound l Hb1); split; [lia|].
  apply Z.lt_le_trans with (256 ^ zlen l); [lia|].
  change 256 with (2 ^ 8); rewrite <- Z.pow_mul_r by zl.
  apply Z.pow_le_mono_r; lia.
Qed.

Lemma cbs_get_u_app n data rest :
  n = zlen data -> bytes data -> n <= 8 ->
  cbs_get_u n (data ++ rest) = (Some (be_val data), rest).
Proof.
  intros; unfold cbs_get_u; erewrite st_bind_some by (now apply cbs_get_app).
  now rewrite fold_shift_in by (auto; lia).
Qed.

Lemma cbs_get_u_inv n cbs v rest :
  0 <= n <= 8 -> bytes cbs -> cbs_get_u n cbs = (Some v, rest) ->
  exists data, cbs = data ++ rest /\ zlen data = n /\ v = be_val data.
Proof.
  intros Hn Hb H; unfold cbs_get_u in H; st_inv H.
  apply cbs_get_inv in Hm as [-> E]; [|lia].
  apply bytes_app in Hb as [Hb _].
  exists a; rewrite fold_shift_in by (auto; lia); auto.
Qed.

(** Reading what a big-endian writer wrote. *)
Lemma cbs_get_u_be n v rest : (n <= 8)%nat -> 0 <= v < 256 ^ Z.of_nat n ->
  cbs_get_u (Z.of_nat n) (be_enc n v ++ rest) = (Some v, rest).
Proof.
  intros Hn Hv; rewrite cbs_get_u_app by (rewrite ?zlen_be_enc; auto using bytes_be_enc; lia).
  rewrite be_val_be_enc, Z.mod_small by lia; reflexivity.
Qed.

Lemma CBS_get_u16_be v rest : 0 <= v < 2 ^ 16 -> CBS_get_u16 (be_enc 2 v ++ rest) = (Some v, rest).
Proof.
  intros Hv; unfold CBS_get_u16; erewrite st_bind_some by (apply (cbs_get_u_be 2); [lia|exact Hv]).
  unfold st_ret; now rewrite uw_small.
Qed.

Lemma CBS_get_u24_be v rest : 0 <= v < 2 ^ 24 -> CBS_get_u24 (be_enc 3 v ++ rest) = (Some v, rest).
Proof.
  intros Hv; unfold CBS_get_u24; erewrite st_bind_some by (apply (cbs_get_u_be 3); [lia|exact Hv]).
  unfold st_ret; rewrite uw_small; [reflexivity|pow2; lia].
Qed.

Lemma get_length_prefixed_be n data rest : (n <= 8)%nat -> zlen data < 256 ^ Z.of_nat n ->
  cbs_get_length_prefixed (Z.of_nat n) (be_enc n (zlen data) ++ data ++ rest) = (Some data, rest).
Proof.
  intros Hn Hv; unfold cbs_get_length_prefixed.
  erewrite st_bind_some by (apply cbs_get_u_be; [lia|pose proof (zlen_nonneg data); lia]).
  now apply CBS_get_bytes_app.
Qed.

Lemma memchr_from_spec i c cbs :
  match memchr_from i cbs c with
  | Some k => exists pre post, cbs = pre ++ c :: post /\ k = i + zlen pre /\ c ∉ pre
  | None => c ∉ cbs
  end.
Proof.
  revert i; induction cbs as [|x l IH]; intros i; simpl; [set_solver|].
  destruct (Z.eqb_spec x c) as [->|Hx].
  - exists [], l; split; [reflexivity|]; split; [rewrite zlen_nil; lia|set_solver].
  - specialize (IH (i + 1)); destruct (memchr_from (i + 1) l c) as [k|].
    + destruct IH as (pre & post & -> & -> & Hn).
      exists (x :: pre), post; split; [reflexivity|]; rewrite zlen_cons; split; [lia|set_solver].
    + set_solver.
Qed.
End Readers.

(** * Byte swaps *)

Lemma bswap2_spec a b : byte a -> byte b -> CRYPTO_bswap2 (a * 2 ^ 8 + b) = b * 2 ^ 8 + a.
Proof.
  unfold byte, CRYPTO_bswap2; intros Ha Hb.
  rewrite Z.shiftr_div_pow2, Z.shiftl_mul_pow2, div_mul_add by (pow2; lia).
  rewrite Z.lor_comm, lor_disjoint by (pow2; lia); unfold uw; pow2.
  replace ((a * 256 + b) * 256 + a) with (a * 65536 + (b * 256 + a)) by lia.
  apply mod_mul_add; lia.
Qed.

Lemma bswap4_spec a b c d : byte a -> byte b -> byte c -> byte d ->
  CRYPTO_bswap4 (((a * 2 ^ 8 + b) * 2 ^ 8 + c) * 2 ^ 8 + d) = ((d * 2 ^ 8 + c) * 2 ^ 8 + b) * 2 ^ 8 + a.
Proof.
  unfold byte; intros Ha Hb Hc Hd; unfold CRYPTO_bswap4.
  set (h := a * 2 ^ 8 + b); set (l := c * 2 ^ 8 + d).
  replace ((h * 2 ^ 8 + c) * 2 ^ 8 + d) with (h * 2 ^ 16 + l) by (unfold l; lia).
  assert (0 <= h < 2 ^ 16 /\ 0 <= l < 2 ^ 16) as [Hh Hl] by (unfold h, l; pow2; lia).
  assert (u32 (Z.lor (Z.shiftr (h * 2 ^ 16 + l) 16) (Z.shiftl (h * 2 ^ 16 + l) 16)) = l * 2 ^ 16 + h) as ->.
  { rewrite Z.shiftr_div_pow2, Z.shiftl_mul_pow2, div_mul_add by lia.
    rewrite Z.lor_comm, lor_disjoint by lia; unfold uw.
    replace ((h * 2 ^ 16 + l) * 2 ^ 16 + h) with (h * 2 ^ 32 + (l * 2 ^ 16 + h)) by (pow2; lia).
    apply mod_mul_add; pow2; lia. }
  cbv zeta; replace (l * 2 ^ 16 + h) with (((c * 2 ^ 8 + d) * 2 ^ 8 + a) * 2 ^ 8 + b) by (unfold h, l; pow2; lia).
  assert (forall x, 0 <= x < 256 -> Z.land x 0xff = x) as Hff by
    (intros x Hx; change 0xff with (2 ^ 8 - 1); rewrite land_low, Z.mod_small by (pow2; lia); reflexivity).
  change 0xff00ff00 with (((0xff * 2 ^ 8 + 0) * 2 ^ 8 + 0xff) * 2 ^ 8 + 0).
  change 0x00ff00ff with (((0 * 2 ^ 8 + 0xff) * 2 ^ 8 + 0) * 2 ^ 8 + 0xff).
  rewrite !land_split, !Z.land_0_r, !Hff by (pow2; lia).
  rewrite Z.shiftr_div_pow2, Z.shiftl_mul_pow2, Z.mul_0_l, Z.add_0_l, Z.add_0_r by lia.
  rewrite Z.div_mul, Z.lor_comm by lia.
  replace (Z.lor _ _) with (Z.lor (((d * 2 ^ 8 + 0) * 2 ^ 8 + b) * 2 ^ 8 + 0) (((0 * 2 ^ 8 + c) * 2 ^ 8 + 0) * 2 ^ 8 + a)).
  - rewrite !lor_split, !Z.lor_0_l, !Z.lor_0_r by (pow2; lia); apply Z.mod_small; pow2; lia.
  - f_equal; lia.
Qed.

Lemma bswap8_spec h l : 0 <= h < 2 ^ 32 -> 0 <= l < 2 ^ 32 -> 0 <= CRYPTO_bswap4 h < 2 ^ 32 ->
  CRYPTO_bswap8 (h * 2 ^ 32 + l) = CRYPTO_bswap4 l * 2 ^ 32 + CRYPTO_bswap4 h.
Proof.
  intros Hh Hl Hs; unfold CRYPTO_bswap8.
  rewrite Z.shiftr_div_pow2, div_mul_add, uw_small by lia; unfold uw; rewrite mod_mul_add by lia.
  rewrite Z.shiftl_mul_pow2, Z.lor_comm, lor_disjoint by lia; reflexivity.
Qed.

(** A byte swap reverses the octets of a word. *)
Lemma bswap2_rev l : bytes l -> length l = 2%nat -> CRYPTO_bswap2 (be_val l) = be_val (rev l).
Proof.
  intros Hb Hl; destruct l as [|a [|b [|]]]; try discriminate.
  inversion_clear Hb as [|? ? Ha Hb1]; inversion_clear Hb1.
  apply bswap2_spec; auto.
Qed.

Lemma bswap4_rev l : bytes l -> length l = 4%nat -> CRYPTO_bswap4 (be_val l) = be_val (rev l).
Proof.
  intros Hb Hl; destruct l as [|a [|b [|c [|d [|]]]]]; try discriminate.
  rewrite !bytes_cons in Hb; destruct Hb as (? & ? & ? & ? & _); apply bswap4_spec; auto.
Qed.

Lemma bswap8_rev l : bytes l -> length l = 8%nat -> CRYPTO_bswap8 (be_val l) = be_val (rev l).
Proof.
  intros Hb Hl; rewrite <- (take_drop 4 l) in Hb |- *; apply bytes_app in Hb as [Hb1 Hb2].
  assert (length (take 4 l) = 4%nat /\ length (drop 4 l) = 4%nat) as [H1 H2] by
    (rewrite length_take, length_drop; lia).
  set (h := take 4 l) in *; set (k := drop 4 l) in *.
  assert (forall x, bytes x -> length x = 4%nat -> 0 <= be_val x < 2 ^ 32) as Hr.
  { intros x Hx Hx4; pose proof (be_val_nonneg x Hx); pose proof (be_val_bound x Hx) as Hu.
    unfold zlen in Hu; rewrite Hx4 in Hu; change (256 ^ Z.of_nat 4) with (2 ^ 32) in Hu; lia. }
  assert (forall x : list Z, length x = 4%nat -> 256 ^ zlen x = 2 ^ 32) as Hp by (intros x Hx; unfold zlen; now rewrite Hx).
  rewrite rev_app_distr, !be_val_app, !Hp by now rewrite ?length_rev.
  rewrite bswap8_spec, !bswap4_rev; auto.
  rewrite bswap4_rev by auto; apply Hr; [now apply Forall_rev|now rewrite length_rev].
Qed.
