(* ===== verification/Asn1.v ===== *)
(** The octets that X.690 (DER) prescribes for base-128 integers, identifiers
    and lengths. These are specifications: the reader (Der.v) is proved to
    accept exactly these octets and the writer (Cbb.v) to produce them. *)

From S2P Require Import Prelude Cbs.

(** * Base-128 integers (X.690, 8.1.2.4.2 and 8.19.2) *)

(** The non-final groups of [v], each with its high bit set. *)
Fixpoint base128_hi (fuel : nat) (v : Z) : list Z :=
  match fuel with
  | O => []
  | S fuel => if v =? 0 then [] else base128_hi fuel (v / 128) ++ [128 + v mod 128]
  end.

(** Ten groups of seven bits hold every [uint64_t]. *)
Definition base128_octets (v : Z) : list Z := base128_hi 9 (v / 128) ++ [v mod 128].

Lemma base128_hi_fuel f g v :
  0 <= v < 128 ^ Z.of_nat f -> 0 <= v < 128 ^ Z.of_nat g -> base128_hi f v = base128_hi g v.
Proof.
  revert g v; induction f as [|f IH]; intros g v Hf Hg.
  - assert (v = 0) as -> by lia; now destruct g.
  - destruct g as [|g]; [assert (v = 0) as -> by lia; reflexivity|].
    rewrite Nat2Z.inj_succ, Z.pow_succ_r in Hf, Hg by lia.
    cbn [base128_hi]; destruct (v =? 0); [reflexivity|]; f_equal; apply IH.
    all: split; [apply Z.div_pos; lia|apply Z.div_lt_upper_bound; lia].
Qed.

Lemma bytes_base128_hi f v : bytes (base128_hi f v).
Proof.
  revert v; induction f as [|f IH]; intros v; cbn [base128_hi]; [constructor|].
  destruct (v =? 0); [constructor|apply Forall_app; split; [auto|]].
  repeat constructor; pose proof (Z.mod_pos_bound v 128); lia.
Qed.

Lemma bytes_base128_octets v : bytes (base128_octets v).
Proof.
  apply Forall_app; split; [apply bytes_base128_hi|].
  repeat constructor; pose proof (Z.mod_pos_bound v 128); lia.
Qed.

(** What one octet contributes to the loop of [parse_base128_integer]. *)
Lemma base128_accum v b :
  0 <= v < 2 ^ 57 -> byte b ->
  Z.lor (u64 (Z.shiftl v 7)) (Z.land b 0x7f) = v * 128 + b mod 128.
Proof.
  intros Hv Hb; change 0x7f with (2 ^ 7 - 1); rewrite land_low by lia.
  rewrite Z.shiftl_mul_pow2, uw_small by (pow2; lia).
  apply lor_disjoint; [lia|apply Z.mod_pos_bound; lia].
Qed.

Lemma shiftr57_zero v : 0 <= v < 2 ^ 57 -> Z.shiftr v (64 - 7) = 0.
Proof. intros; rewrite Z.shiftr_div_pow2 by lia; apply Z.div_small; lia. Qed.

Lemma shiftr57_zero_inv v : 0 <= v -> Z.shiftr v (64 - 7) = 0 -> v < 2 ^ 57.
Proof.
  intros Hv; rewrite Z.shiftr_div_pow2 by lia; intros H.
  apply Z.div_small_iff in H; [lia|]. apply Z.pow_nonzero; lia.
Qed.

Lemma land_high_bit b : byte b -> (Z.land b 0x80 =? 0) = (b <? 128).
Proof.
  intros H; apply Bool.eqb_prop.
  apply (zall_spec (fun b => Bool.eqb (Z.land b 0x80 =? 0) (b <? 128)) 0 256); [reflexivity|exact H].
Qed.

Lemma base128_loop_hi f w tl :
  0 <= w < 128 ^ Z.of_nat f -> w < 2 ^ 57 ->
  base128_loop 0 (base128_hi f w ++ tl) = base128_loop w tl.
Proof.
  revert w tl; induction f as [|f IH]; intros w tl Hw H57.
  - assert (w = 0) as -> by lia; reflexivity.
  - rewrite Nat2Z.inj_succ, Z.pow_succ_r in Hw by lia.
    cbn [base128_hi]; destruct (Z.eqb_spec w 0) as [->|Hnz]; [reflexivity|].
    assert (0 <= w / 128 < 2 ^ 57) by (split; [apply Z.div_pos|apply Z.div_lt_upper_bound]; lia).
    pose proof (Z.mod_pos_bound w 128).
    pose proof (Z.div_mod w 128).
    rewrite <- app_assoc, IH by (try split; try apply Z.div_pos; try apply Z.div_lt_upper_bound; lia).
    simpl app; cbn [base128_loop]; rewrite shiftr57_zero by lia; simpl negb; cbn iota.
    replace ((w / 128 =? 0) && (128 + w mod 128 =? 128)) with false by
      (symmetry; apply andb_false_iff; rewrite !Z.eqb_neq; lia).
    rewrite base128_accum by (unfold byte; lia).
    rewrite land_high_bit by (unfold byte; lia).
    replace (128 + w mod 128 <? 128) with false by (symmetry; apply Z.ltb_ge; lia).
    f_equal. rewrite <- Z.add_mod_idemp_l, Z.mod_same, Z.add_0_l, Z.mod_mod by lia; lia.
Qed.

Lemma base128_roundtrip v rest :
  0 <= v < 2 ^ 64 -> parse_base128_integer (base128_octets v ++ rest) = (Some v, rest).
Proof.
  intros Hv; unfold parse_base128_integer, base128_octets.
  assert (0 <= v / 128 < 2 ^ 57) by (split; [apply Z.div_pos|apply Z.div_lt_upper_bound]; lia).
  pose proof (Z.mod_pos_bound v 128); pose proof (Z.div_mod v 128).
  rewrite <- app_assoc, base128_loop_hi by (pow2; change (128 ^ Z.of_nat 9) with (2 ^ 63); lia).
  simpl app; cbn [base128_loop]; rewrite shiftr57_zero by lia; simpl negb; cbn iota.
  replace ((v / 128 =? 0) && (v mod 128 =? 128)) with false by
    (symmetry; apply andb_false_iff; rewrite !Z.eqb_neq; lia).
  rewrite base128_accum, land_high_bit by (unfold byte; lia).
  replace (v mod 128 <? 128) with true by (symmetry; apply Z.ltb_lt; lia).
  do 2 f_equal; rewrite Z.mod_mod by lia; lia.
Qed.

Lemma base128_hi_step v b :
  0 <= v < 2 ^ 57 -> 128 <= b < 256 -> ~ (v = 0 /\ b = 128) ->
  base128_hi 10 (v * 128 + b mod 128) = base128_hi 10 v ++ [b].
Proof.
  intros Hv Hb Hnz; pose proof (Z.mod_pos_bound b 128).
  assert (b mod 128 = b - 128) as E by
    (rewrite <- (Z_mod_plus_full b (-1) 128), Z.mod_small by lia; lia).
  rewrite E; rewrite (base128_hi_fuel 10 9 v) by (change (Z.of_nat 9) with 9; change (Z.of_nat 10) with 10; pow2; lia).
  cbn [base128_hi]; destruct (Z.eqb_spec (v * 128 + (b - 128)) 0); [lia|].
  rewrite div_mul_add, mod_mul_add by lia.
  cbn [base128_hi]; repeat f_equal; lia.
Qed.

Lemma base128_loop_inv v0 cbs v rest :
  bytes cbs -> 0 <= v0 < 2 ^ 64 -> base128_loop v0 cbs = (Some v, rest) ->
  0 <= v < 2 ^ 64 /\
  exists cs, cbs = cs ++ rest /\ base128_hi 10 v0 ++ cs = base128_octets v /\ cs <> [].
Proof.
  revert v0; induction cbs as [|b cbs IH]; intros v0 Hb Hv H; [discriminate|].
  inversion_clear Hb as [|? ? Hb1 Hb2]; cbn [base128_loop] in H.
  case_if; [discriminate|]; case_if; [discriminate|]; bool_facts.
  apply shiftr57_zero_inv in Heqb0; [|lia].
  rewrite base128_accum, land_high_bit in H by (auto; lia).
  pose proof (Z.mod_pos_bound b 128); unfold byte in *.
  destruct (Z.ltb_spec b 128) as [Hlt|Hge].
  - injection H as <- <-; rewrite (Z.mod_small b 128) by lia; split; [lia|].
    exists [b]; split; [reflexivity|split; [|discriminate]].
    unfold base128_octets.
    rewrite div_mul_add, mod_mul_add by lia; f_equal.
    apply base128_hi_fuel; change (Z.of_nat 9) with 9; change (Z.of_nat 10) with 10; pow2; lia.
  - apply IH in H as [Hv' (cs & -> & E & _)]; [|assumption|lia].
    split; [assumption|]; exists (b :: cs); split; [reflexivity|split; [|discriminate]].
    rewrite base128_hi_step in E by (try lia; intros [-> ->]; now simpl in *).
    now rewrite <- E, <- app_assoc.
Qed.

Lemma base128_canonical cbs v rest :
  bytes cbs -> parse_base128_integer cbs = (Some v, rest) ->
  0 <= v < 2 ^ 64 /\ cbs = base128_octets v ++ rest.
Proof.
  intros Hb H; apply base128_loop_inv in H as [Hv (cs & -> & E & _)]; [|assumption|lia].
  simpl in E; now rewrite <- E.
Qed.

(** * Identifier octets (X.690, 8.1.2)

    A tag is a [uint32_t] with the class and the constructed bit in its top
    three bits and the tag number in the other 29. *)

Definition CBS_ASN1_TAG_SHIFT : Z := 24.
Definition CBS_ASN1_CONSTRUCTED : Z := Z.shiftl 0x20 CBS_ASN1_TAG_SHIFT.
Definition CBS_ASN1_TAG_NUMBER_MASK : Z := Z.shiftl 1 (5 + CBS_ASN1_TAG_SHIFT) - 1.

(** [~CBS_ASN1_CONSTRUCTED], a [uint32_t]. *)
Definition not_constructed : Z := 2 ^ 32 - 1 - CBS_ASN1_CONSTRUCTED.

Definition tag_class (tag : Z) : Z := tag / 2 ^ 29.
Definition tag_number (tag : Z) : Z := tag mod 2 ^ 29.

(** A [uint32_t] tag other than [UNIVERSAL 0], which the encoding reserves. *)
Definition valid_tag (tag : Z) : Prop :=
  0 <= tag < 2 ^ 32 /\ Z.land tag not_constructed <> 0.

Definition asn1_tag_octets (tag : Z) : list Z :=
  let bits := 32 * tag_class tag in
  if tag_number tag <? 31 then [bits + tag_number tag]
  else (bits + 31) :: base128_octets (tag_number tag).

Lemma tag_split tag : 0 <= tag < 2 ^ 32 ->
  tag = tag_class tag * 2 ^ 29 + tag_number tag /\
  0 <= tag_class tag < 8 /\ 0 <= tag_number tag < 2 ^ 29.
Proof.
  intros H; unfold tag_class, tag_number.
  pose proof (Z.div_mod tag (2 ^ 29)); pose proof (Z.mod_pos_bound tag (2 ^ 29)).
  pow2; split; [lia|split; [|lia]].
  split; [apply Z.div_pos; lia|apply Z.div_lt_upper_bound; lia].
Qed.

Lemma land_tag_bits b : byte b -> Z.land b 0xe0 = b / 32 * 32.
Proof.
  intros H; apply Z.eqb_eq.
  apply (zall_spec (fun b => Z.land b 0xe0 =? b / 32 * 32) 0 256); [reflexivity|exact H].
Qed.

Lemma land_tag_low b : Z.land b 0x1f = b mod 32.
Proof. change 0x1f with (2 ^ 5 - 1); now rewrite land_low. Qed.

Lemma bytes_asn1_tag_octets tag : 0 <= tag < 2 ^ 32 -> bytes (asn1_tag_octets tag).
Proof.
  intros H; apply tag_split in H as (_ & Hc & Hn); unfold asn1_tag_octets.
  destruct (Z.ltb_spec (tag_number tag) 31); repeat constructor; try lia.
  apply bytes_base128_octets.
Qed.

Lemma asn1_tag_octets_nonempty tag : 1 <= zlen (asn1_tag_octets tag).
Proof. unfold asn1_tag_octets; case_if; zl. Qed.

(** * Length octets (X.690, 8.1.3 and 10.1) *)

Definition length_size (n : Z) : nat :=
  if n <? 2 ^ 8 then 1 else if n <? 2 ^ 16 then 2 else if n <? 2 ^ 24 then 3 else 4.

Definition asn1_length_octets (n : Z) : list Z :=
  if n <? 128 then [n]
  else (128 + Z.of_nat (length_size n)) :: be_enc (length_size n) n.

Lemma length_size_bounds n : (1 <= length_size n <= 4)%nat.
Proof. unfold length_size; repeat case_if; lia. Qed.

Lemma length_size_upper n : n < 2 ^ 32 -> n < 256 ^ Z.of_nat (length_size n).
Proof. unfold length_size; intros; repeat case_if; bool_facts; simpl; lia. Qed.

Lemma length_size_lower n : 128 <= n -> 256 ^ (Z.of_nat (length_size n) - 1) <= n.
Proof. unfold length_size; intros; repeat case_if; bool_facts; simpl; lia. Qed.

Lemma length_size_unique n k :
  128 <= n -> (1 <= k <= 4)%nat ->
  256 ^ (Z.of_nat k - 1) <= n < 256 ^ Z.of_nat k -> k = length_size n.
Proof.
  intros Hn Hk Hb; unfold length_size.
  assert (k = 1 \/ k = 2 \/ k = 3 \/ k = 4)%nat as [->|[->|[->| ->]]] by lia;
    simpl in Hb; repeat case_if; bool_facts; lia.
Qed.

Lemma zlen_asn1_length_octets n :
  zlen (asn1_length_octets n) = if n <? 128 then 1 else 1 + Z.of_nat (length_size n).
Proof.
  unfold asn1_length_octets; case_if; rewrite zlen_cons; [reflexivity|now rewrite zlen_be_enc].
Qed.

Lemma bytes_asn1_length_octets n : 0 <= n -> bytes (asn1_length_octets n).
Proof.
  intros; unfold asn1_length_octets; case_if; bool_facts; constructor; unfold byte; try constructor;
    pose proof (length_size_bounds n); try lia; apply bytes_be_enc.
Qed.

(** The DER encoding of an element: identifier, length and contents octets. *)
Definition asn1_tlv (tag : Z) (body : list Z) : list Z :=
  asn1_tag_octets tag ++ asn1_length_octets (zlen body) ++ body.

Lemma bytes_asn1_tlv tag body : 0 <= tag < 2 ^ 32 -> bytes body -> bytes (asn1_tlv tag body).
Proof.
  intros; apply Forall_app; split; [now apply bytes_asn1_tag_octets|].
  apply Forall_app; split; [apply bytes_asn1_length_octets; zl|assumption].
Qed.

(** * INTEGER contents (X.690, 8.3): minimal two's complement *)

Definition tc_fits (n : nat) (v : Z) : bool :=
  (- 2 ^ (8 * Z.of_nat n - 1) <=? v) && (v <? 2 ^ (8 * Z.of_nat n - 1)).

(** The value of a two's complement byte string. *)
Definition tc_val (l : list Z) : Z :=
  be_val l - (if znth l 0 <? 128 then 0 else 256 ^ zlen l).

Fixpoint int_size_from (n fuel : nat) (v : Z) : nat :=
  match fuel with
  | O => n
  | S fuel => if tc_fits n v then n else int_size_from (S n) fuel v
  end.

(** Nine octets hold every [int64_t] and every [uint64_t]. *)
Definition int_size (v : Z) : nat := int_size_from 1 8 v.
Definition int_octets (v : Z) : list Z := be_enc (int_size v) (v mod 256 ^ Z.of_nat (int_size v)).

(** The minimality test of [CBS_is_valid_asn1_integer]: the first nine bits are
    not all equal. *)
Definition int_minimal (l : list Z) : Prop :=
  match l with
  | [] => False
  | [_] => True
  | a :: b :: _ => ~ (a = 0 /\ b < 128) /\ ~ (a = 255 /\ 128 <= b)
  end.

Lemma pow256_2 k : 0 <= k -> 256 ^ k = 2 ^ (8 * k).
Proof. intros; now rewrite Z.pow_mul_r by lia. Qed.

(** [2^(8n-1)] for [n >= 1] as a multiple of a power of 256. *)
Lemma tc_half (n : nat) : 2 ^ (8 * Z.of_nat (S n) - 1) = 128 * 256 ^ Z.of_nat n.
Proof.
  rewrite pow256_2 by lia; change 128 with (2 ^ 7); rewrite <- Z.pow_add_r by lia.
  f_equal; lia.
Qed.

Lemma tc_fits_spec n v :
  tc_fits (S n) v = true <-> - 128 * 256 ^ Z.of_nat n <= v < 128 * 256 ^ Z.of_nat n.
Proof. unfold tc_fits; rewrite andb_true_iff, Z.leb_le, Z.ltb_lt, tc_half; lia. Qed.

Lemma tc_fits_mono n m v : (n <= m)%nat -> tc_fits (S n) v = true -> tc_fits (S m) v = true.
Proof.
  rewrite !tc_fits_spec; intros.
  assert (256 ^ Z.of_nat n <= 256 ^ Z.of_nat m) by (apply Z.pow_le_mono_r; lia); lia.
Qed.

Lemma tc_val_cons a l : bytes (a :: l) ->
  tc_val (a :: l) = (if a <? 128 then a else a - 256) * 256 ^ zlen l + be_val l.
Proof.
  intros _; unfold tc_val; rewrite be_val_cons, zlen_cons.
  change (znth (a :: l) 0) with a; rewrite Z.pow_add_r by zl; case_if; lia.
Qed.

Lemma tc_val_fits a l : bytes (a :: l) -> tc_fits (S (length l)) (tc_val (a :: l)) = true.
Proof.
  intros Hb; apply tc_fits_spec; rewrite tc_val_cons by auto; fold (zlen l).
  inversion_clear Hb as [|? ? Ha Hl]; unfold byte in Ha.
  pose proof (be_val_nonneg l Hl); pose proof (be_val_bound l Hl).
  case_if; bool_facts; nia.
Qed.

Lemma int_minimal_spec a b l : bytes (a :: b :: l) ->
  int_minimal (a :: b :: l) <-> tc_fits (S (length l)) (tc_val (a :: b :: l)) = false.
Proof.
  intros Hb; rewrite <- not_true_iff_false, tc_fits_spec; fold (zlen l).
  rewrite tc_val_cons, be_val_cons, zlen_cons, Z.pow_add_r by (auto; zl).
  inversion_clear Hb as [|? ? Ha Hb']; inversion_clear Hb' as [|? ? Hb Hl]; unfold byte in *.
  pose proof (be_val_nonneg l Hl); pose proof (be_val_bound l Hl); simpl int_minimal.
  set (P := 256 ^ zlen l) in *; set (R := be_val l) in *; change (256 ^ 1) with 256.
  destruct (Z.ltb_spec a 128).
  - assert (a = 0 \/ 1 <= a) as [->|] by lia; [split; intros; nia|].
    split; intros; [nia|split; lia].
  - assert (a = 255 \/ a < 255) as [->|] by lia; [split; intros; nia|].
    split; intros; [nia|split; lia].
Qed.

Lemma tc_val_be_enc n v : tc_fits (S n) v = true ->
  tc_val (be_enc (S n) (v mod 256 ^ Z.of_nat (S n))) = v.
Proof.
  rewrite tc_fits_spec; intros Hv.
  assert (0 < 256 ^ Z.of_nat n) by (apply Z.pow_pos_nonneg; lia).
  assert (256 ^ Z.of_nat (S n) = 256 * 256 ^ Z.of_nat n) as Ep by
    (rewrite Nat2Z.inj_succ, Z.pow_succ_r; lia).
  set (u := v mod 256 ^ Z.of_nat (S n)).
  assert (u = v \/ u = v + 256 ^ Z.of_nat (S n)) as Hu.
  { unfold u; destruct (Z.le_gt_cases 0 v); [left; apply Z.mod_small; lia|right].
    rewrite <- (Z_mod_plus_full v 1), Z.mod_small; lia. }
  pose proof (be_val_be_enc (S n) u) as Hval; pose proof (bytes_be_enc (S n) u) as Hby.
  pose proof (length_be_enc (S n) u) as Hlen.
  rewrite Z.mod_small in Hval by (unfold u; apply Z.mod_pos_bound; lia).
  destruct (be_enc (S n) u) as [|a l]; [discriminate|].
  rewrite tc_val_cons by auto; rewrite be_val_cons in Hval.
  injection Hlen as Hlen; assert (zlen l = Z.of_nat n) as El by (unfold zlen; lia).
  inversion_clear Hby as [|? ? Ha Hl]; pose proof (be_val_nonneg l Hl); pose proof (be_val_bound l Hl).
  rewrite El in *; unfold byte in *; set (P := 256 ^ Z.of_nat n) in *; set (R := be_val l) in *.
  destruct (Z.ltb_spec a 128); destruct Hu; nia.
Qed.

Lemma int_size_from_spec n fuel v :
  (1 <= n)%nat -> tc_fits (n + fuel) v = true -> (n = 1%nat \/ tc_fits (n - 1) v = false) ->
  let k := int_size_from n fuel v in
  (n <= k <= n + fuel)%nat /\ tc_fits k v = true /\ (k = 1%nat \/ tc_fits (k - 1) v = false).
Proof.
  revert n; induction fuel as [|fuel IH]; intros n Hn Hf Hm; simpl.
  - rewrite Nat.add_0_r in Hf; repeat split; auto; lia.
  - destruct (tc_fits n v) eqn:E; [repeat split; auto; lia|].
    destruct (IH (S n)) as (? & ? & ?); [lia|now rewrite <- plus_n_Sm in Hf| |repeat split; auto; lia].
    right; now replace (S n - 1)%nat with n by lia.
Qed.

Lemma int_size_spec v : tc_fits 9 v = true ->
  (1 <= int_size v <= 9)%nat /\ tc_fits (int_size v) v = true /\
  (int_size v = 1%nat \/ tc_fits (int_size v - 1) v = false).
Proof. intros; apply (int_size_from_spec 1 8); auto. Qed.

Lemma int_size_unique n v : tc_fits (S n) v = true -> (n <= 8)%nat ->
  (n = 0%nat \/ tc_fits n v = false) -> int_size v = S n.
Proof.
  intros Hf Hn Hm; destruct (int_size_spec v) as (Hb & Hk & Hkm);
    [apply (tc_fits_mono n 8); auto|].
  destruct (int_size v) as [|k]; [lia|]; replace (S k - 1)%nat with k in Hkm by lia.
  destruct (lt_eq_lt_dec k n) as [[Hlt| ->]|Hgt]; [|reflexivity|].
  - destruct n as [|n]; [lia|]; destruct Hm as [|Hm]; [lia|].
    rewrite (tc_fits_mono k n) in Hm by (auto; lia); discriminate.
  - destruct k as [|k]; [lia|]; destruct Hkm as [|Hkm]; [lia|].
    rewrite (tc_fits_mono n k) in Hkm by (auto; lia); discriminate.
Qed.

Lemma tc_val_int_octets v : tc_fits 9 v = true -> tc_val (int_octets v) = v.
Proof.
  intros H; destruct (int_size_spec v H) as (Hb & Hk & _); unfold int_octets.
  destruct (int_size v) as [|k]; [lia|now apply tc_val_be_enc].
Qed.

Lemma bytes_int_octets v : bytes (int_octets v).
Proof. apply bytes_be_enc. Qed.

Lemma zlen_int_octets v : zlen (int_octets v) = Z.of_nat (int_size v).
Proof. apply zlen_be_enc. Qed.

Lemma int_octets_minimal v : tc_fits 9 v = true -> int_minimal (int_octets v).
Proof.
  intros H; destruct (int_size_spec v H) as (Hb & _ & Hm).
  pose proof (bytes_int_octets v) as Hby; pose proof (zlen_int_octets v) as Hl.
  pose proof (tc_val_int_octets v H) as Hv.
  destruct (int_octets v) as [|a [|b l]]; [rewrite zlen_nil in Hl; lia|exact I|].
  apply int_minimal_spec; [auto|]; rewrite Hv, !zlen_cons in *; unfold zlen in Hl.
  destruct Hm; [lia|]; now replace (S (length l)) with (int_size v - 1)%nat by lia.
Qed.

(** A minimal byte string is the encoding of its value. *)
Lemma int_octets_tc_val l : bytes l -> int_minimal l -> zlen l <= 9 -> int_octets (tc_val l) = l.
Proof.
  intros Hb Hm Hl; destruct l as [|a l]; [easy|].
  assert (int_size (tc_val (a :: l)) = length (a :: l)) as Es.
  { change (length (a :: l)) with (S (length l)); apply int_size_unique; [now apply tc_val_fits|rewrite zlen_cons in Hl; unfold zlen in Hl; lia|].
    destruct l as [|b l]; [auto|right; now apply int_minimal_spec]. }
  unfold int_octets; rewrite Es; fold (zlen (a :: l)).
  replace (tc_val (a :: l) mod 256 ^ zlen (a :: l)) with (be_val (a :: l)); [now apply be_enc_be_val|].
  unfold tc_val; pose proof (be_val_nonneg _ Hb); pose proof (be_val_bound _ Hb).
  case_if; [rewrite Z.sub_0_r; symmetry; apply Z.mod_small; lia|].
  rewrite <- (Z_mod_plus_full _ 1), Z.mod_small; lia.
Qed.
