(* ===== verification/Der.v ===== *)
(** The ASN.1 reader of crypto/bytestring/cbs.c (lines 281-693): identifiers
    and lengths, elements, INTEGER, BOOLEAN, OPTIONAL and BIT STRING readers. *)

From S2P Require Import Prelude Cbs Asn1.

Definition CBS_ASN1_BOOLEAN : Z := 0x1.
Definition CBS_ASN1_INTEGER : Z := 0x2.
Definition CBS_ASN1_OCTETSTRING : Z := 0x4.

Definition parse_asn1_tag : ST CBS Z :=
  let! tag_byte := CBS_get_u8 in
  let tag := u32 (Z.shiftl (Z.land tag_byte 0xe0) CBS_ASN1_TAG_SHIFT) in
  let tag_number := Z.land tag_byte 0x1f in
  let! tag_number :=
    (if tag_number =? 0x1f then
       let! v := parse_base128_integer in
       st_guard (negb ((CBS_ASN1_TAG_NUMBER_MASK <? v) || (v <? 0x1f))) ;;;
       st_ret (u32 v)
     else st_ret tag_number) in
  let tag := Z.lor tag tag_number in
  st_guard (negb (Z.land tag not_constructed =? 0)) ;;;
  st_ret tag.

(** What [cbs_get_any_asn1_element] reads from its copy [header] of the input:
    the tag, the total length of the element, the length of its header and the
    two BER indicators. *)
Record asn1_hdr : Type := {
  h_tag : Z;
  h_len : Z;
  h_header_len : Z;
  h_ber_found : bool;
  h_indefinite : bool
}.

Definition asn1_header (ber_ok : bool) (cbs_len : Z) : ST CBS asn1_hdr :=
  let! tag := parse_asn1_tag in
  let! length_byte := CBS_get_u8 in
  let! header := st_get in
  let header_len := cbs_len - CBS_len header in
  if Z.land length_byte 0x80 =? 0 then
    (* Short form length. *)
    st_ret {| h_tag := tag; h_len := u64 (length_byte + header_len);
              h_header_len := header_len; h_ber_found := false; h_indefinite := false |}
  else
    let num_bytes := Z.land length_byte 0x7f in
    if ber_ok && negb (Z.land tag CBS_ASN1_CONSTRUCTED =? 0) && (num_bytes =? 0) then
      (* Indefinite length. *)
      st_ret {| h_tag := tag; h_len := header_len; h_header_len := header_len;
                h_ber_found := true; h_indefinite := true |}
    else
      st_guard (negb ((num_bytes =? 0) || (4 <? num_bytes))) ;;;
      let! len64 := cbs_get_u num_bytes in
      let too_small := len64 <? 128 in
      let not_minimal := Z.shiftr len64 ((num_bytes - 1) * 8) =? 0 in
      st_guard (ber_ok || negb (too_small || not_minimal)) ;;;
      st_guard (negb (u64 (len64 + header_len + num_bytes) <? len64)) ;;;
      st_ret {| h_tag := tag; h_len := u64 (len64 + header_len + num_bytes);
                h_header_len := header_len + num_bytes;
                h_ber_found := too_small || not_minimal; h_indefinite := false |}.

Record asn1_element : Type := {
  el_out : CBS;
  el_tag : Z;
  el_header_len : Z;
  el_ber_found : bool;
  el_indefinite : bool
}.

(** The input is only advanced by the final [CBS_get_bytes]. *)
Definition cbs_get_any_asn1_element (ber_ok : bool) : ST CBS asn1_element := fun cbs =>
  match asn1_header ber_ok (CBS_len cbs) cbs with
  | (None, _) => (None, cbs)
  | (Some h, _) =>
      (let! out := CBS_get_bytes (h_len h) in
       st_ret {| el_out := out; el_tag := h_tag h; el_header_len := h_header_len h;
                 el_ber_found := h_ber_found h; el_indefinite := h_indefinite h |}) cbs
  end.

Definition CBS_get_any_asn1_element : ST CBS asn1_element := cbs_get_any_asn1_element false.
Definition CBS_get_any_ber_asn1_element : ST CBS asn1_element := cbs_get_any_asn1_element true.

(** [CBS_skip] applied to the contents [out] of a parsed element. *)
Definition skip_out (n : Z) (out : CBS) : ST CBS CBS := fun cbs =>
  match CBS_skip n out with
  | (Some _, out') => (Some out', cbs)
  | (None, _) => (None, cbs)
  end.

Definition CBS_get_any_asn1 : ST CBS (CBS * Z) :=
  let! e := CBS_get_any_asn1_element in
  let! out := skip_out (el_header_len e) (el_out e) in
  st_ret (out, el_tag e).

Definition cbs_get_asn1 (tag_value : Z) (skip_header : bool) : ST CBS CBS :=
  let! e := CBS_get_any_asn1_element in
  st_guard (el_tag e =? tag_value) ;;;
  if skip_header then skip_out (el_header_len e) (el_out e) else st_ret (el_out e).

Definition CBS_get_asn1 (tag_value : Z) : ST CBS CBS := cbs_get_asn1 tag_value true.
Definition CBS_get_asn1_element (tag_value : Z) : ST CBS CBS := cbs_get_asn1 tag_value false.

Definition CBS_peek_asn1_tag (cbs : CBS) (tag_value : Z) : bool :=
  match parse_asn1_tag cbs with
  | (Some actual_tag, _) => tag_value =? actual_tag
  | (None, _) => false
  end.

(** [CBS_is_valid_asn1_integer]: [Some is_negative] when it returns one. *)
Definition CBS_is_valid_asn1_integer (cbs : CBS) : option bool :=
  match CBS_get_u8 cbs with
  | (None, _) => None
  | (Some first_byte, copy) =>
      let is_negative := negb (Z.land first_byte 0x80 =? 0) in
      match CBS_get_u8 copy with
      | (None, _) => Some is_negative
      | (Some second_byte, _) =>
          if ((first_byte =? 0) && (Z.land second_byte 0x80 =? 0))
             || ((first_byte =? 0xff) && negb (Z.land second_byte 0x80 =? 0))
          then None else Some is_negative
      end
  end.

Definition CBS_is_unsigned_asn1_integer (cbs : CBS) : bool :=
  match CBS_is_valid_asn1_integer cbs with
  | Some is_negative => negb is_negative
  | None => false
  end.

Fixpoint asn1_uint64_loop (out : Z) (data : list Z) : option Z :=
  match data with
  | [] => Some out
  | b :: data =>
      if negb (Z.shiftr out 56 =? 0) then None else asn1_uint64_loop (shift_in out b) data
  end.

Definition st_opt {S A} (o : option A) : ST S A := fun s => (o, s).

Definition CBS_get_asn1_uint64 : ST CBS Z :=
  let! bs := CBS_get_asn1 CBS_ASN1_INTEGER in
  st_guard (CBS_is_unsigned_asn1_integer bs) ;;;
  st_opt (asn1_uint64_loop 0 bs).

(** The [int64_t] whose little-endian representation is [l]. *)
Definition int64_of_le (l : list Z) : Z :=
  let v := be_val (rev l) in if v <? 2 ^ 63 then v else v - 2 ^ 64.

Definition CBS_get_asn1_int64 : ST CBS Z :=
  let! bs := CBS_get_asn1 CBS_ASN1_INTEGER in
  let! is_negative := st_opt (CBS_is_valid_asn1_integer bs) in
  let len := CBS_len bs in
  st_guard (negb (8 <? len)) ;;;
  let sign_extend := rev bs ++ zrep (8 - len) (if is_negative then 0xff else 0) in
  st_ret (int64_of_le sign_extend).

Definition CBS_get_asn1_bool : ST CBS Z :=
  let! bs := CBS_get_asn1 CBS_ASN1_BOOLEAN in
  st_guard (CBS_len bs =? 1) ;;;
  let value := znth (CBS_data bs) 0 in
  st_guard (negb (negb (value =? 0) && negb (value =? 0xff))) ;;;
  st_ret (if value =? 0 then 0 else 1).

(** [Some contents] when the element is present, [None] when it is not. *)
Definition CBS_get_optional_asn1 (tag : Z) : ST CBS (option CBS) := fun cbs =>
  if CBS_peek_asn1_tag cbs tag
  then (let! out := CBS_get_asn1 tag in st_ret (Some out)) cbs
  else (Some None, cbs).

(** Runs a reader on a child and requires that it consumes all of it. *)
Definition on_child {A} (m : ST CBS A) (child : CBS) : ST CBS A := fun cbs =>
  match m child with
  | (Some a, child') => if CBS_len child' =? 0 then (Some a, cbs) else (None, cbs)
  | (None, _) => (None, cbs)
  end.

(** The pair is ([*out], [*out_present]). *)
Definition CBS_get_optional_asn1_octet_string (tag : Z) : ST CBS (CBS * bool) :=
  let! child := CBS_get_optional_asn1 tag in
  match child with
  | Some child => let! out := on_child (CBS_get_asn1 CBS_ASN1_OCTETSTRING) child in
                  st_ret (out, true)
  | None => st_ret ([], false)
  end.

Definition CBS_get_optional_asn1_uint64 (tag default_value : Z) : ST CBS Z :=
  let! child := CBS_get_optional_asn1 tag in
  match child with
  | Some child => on_child CBS_get_asn1_uint64 child
  | None => st_ret default_value
  end.

Definition CBS_get_optional_asn1_bool (tag default_value : Z) : ST CBS Z :=
  let! child := CBS_get_optional_asn1 tag in
  match child with
  | Some child =>
      let! boolean := on_child
        (let! child2 := CBS_get_asn1 CBS_ASN1_BOOLEAN in
         st_guard (CBS_len child2 =? 1) ;;; st_ret (znth (CBS_data child2) 0)) child in
      if boolean =? 0 then st_ret 0
      else if boolean =? 0xff then st_ret 1
      else st_fail
  | None => st_ret default_value
  end.

Definition CBS_is_valid_asn1_bitstring (cbs : CBS) : bool :=
  match CBS_get_u8 cbs with
  | (None, _) => false
  | (Some num_unused_bits, cin) =>
      if 7 <? num_unused_bits then false
      else if num_unused_bits =? 0 then true
      else match CBS_get_last_u8 cin with
           | (None, _) => false
           | (Some last, _) => Z.land last (Z.shiftl 1 num_unused_bits - 1) =? 0
           end
  end.

Definition CBS_asn1_bitstring_has_bit (cbs : CBS) (bit : Z) : bool :=
  if negb (CBS_is_valid_asn1_bitstring cbs) then false
  else
    let byte_num := u32 (Z.shiftr bit 3 + 1) in
    let bit_num := 7 - Z.land bit 7 in
    (byte_num <? CBS_len cbs) && negb (Z.land (znth (CBS_data cbs) byte_num) (Z.shiftl 1 bit_num) =? 0).

(** * Identifiers *)

Lemma parse_asn1_tag_octets tag rest :
  valid_tag tag -> parse_asn1_tag (asn1_tag_octets tag ++ rest) = (Some tag, rest).
Proof.
  intros [Hr Hnz]; destruct (tag_split tag Hr) as (E & Hc & Hn).
  unfold parse_asn1_tag, asn1_tag_octets.
  assert (forall k, 0 <= k < 32 -> (32 * tag_class tag + k) / 32 = tag_class tag /\
                                   (32 * tag_class tag + k) mod 32 = k) as Hk by
    (intros k ?; rewrite (Z.mul_comm 32); now rewrite div_mul_add, mod_mul_add by lia).
  assert (Hlor : Z.lor (u32 (Z.shiftl (tag_class tag * 32) CBS_ASN1_TAG_SHIFT)) (tag_number tag) = tag).
  { unfold CBS_ASN1_TAG_SHIFT; rewrite Z.shiftl_mul_pow2, uw_small by (pow2; lia).
    replace (tag_class tag * 32 * 2 ^ 24) with (tag_class tag * 2 ^ 29) by (pow2; lia).
    rewrite lor_disjoint by lia; congruence. }
  destruct (Z.ltb_spec (tag_number tag) 31) as [Hlow|Hhigh]; simpl app;
    erewrite st_bind_some by apply CBS_get_u8_cons;
    rewrite land_tag_bits, land_tag_low by (unfold byte; lia).
  - destruct (Hk (tag_number tag)) as [-> ->]; [lia|].
    replace (tag_number tag =? 31) with false by (symmetry; apply Z.eqb_neq; lia).
    erewrite st_bind_some by reflexivity; cbv beta; rewrite Hlor, st_guard_true;
      [reflexivity|apply negb_true_iff, Z.eqb_neq; assumption].
  - destruct (Hk 31) as [-> ->]; [lia|]; simpl (31 =? 31); cbn iota.
    erewrite st_bind_some; cycle 1.
    { erewrite st_bind_some by (apply base128_roundtrip; pow2; lia); cbv beta.
      rewrite st_guard_true; [reflexivity|].
      apply negb_true_iff, orb_false_iff; unfold CBS_ASN1_TAG_NUMBER_MASK, CBS_ASN1_TAG_SHIFT.
      change (Z.shiftl 1 (5 + 24) - 1) with (2 ^ 29 - 1); rewrite !Z.ltb_ge; lia. }
    cbv beta; rewrite (uw_small 32 (tag_number tag)) by (pow2; lia); rewrite Hlor, st_guard_true;
      [reflexivity|apply negb_true_iff, Z.eqb_neq; assumption].
Qed.

Lemma tag_of_parts c n : 0 <= c < 8 -> 0 <= n < 2 ^ 29 ->
  tag_class (c * 2 ^ 29 + n) = c /\ tag_number (c * 2 ^ 29 + n) = n.
Proof. intros; unfold tag_class, tag_number; now rewrite div_mul_add, mod_mul_add by lia. Qed.

Lemma parse_asn1_tag_inv cbs tag rest :
  bytes cbs -> parse_asn1_tag cbs = (Some tag, rest) ->
  valid_tag tag /\ cbs = asn1_tag_octets tag ++ rest.
Proof.
  intros Hb H; unfold parse_asn1_tag in H.
  apply st_bind_inv in H as (b & s & H0 & H); apply CBS_get_u8_inv in H0 as ->.
  inversion_clear Hb as [|? ? Hb0 Hb'].
  rewrite land_tag_bits, land_tag_low in H by assumption.
  apply st_bind_inv in H as (n & s' & Hnum & H); st_inv H; bool_facts.
  assert (0 <= b / 32 < 8) by (unfold byte in *; split; [apply Z.div_pos|apply Z.div_lt_upper_bound]; lia).
  pose proof (Z.mod_pos_bound b 32); pose proof (Z.div_mod b 32).
  assert (Hlor : forall n, 0 <= n < 2 ^ 29 ->
    Z.lor (u32 (Z.shiftl (b / 32 * 32) CBS_ASN1_TAG_SHIFT)) n = b / 32 * 2 ^ 29 + n).
  { intros k Hk; unfold CBS_ASN1_TAG_SHIFT; rewrite Z.shiftl_mul_pow2, uw_small by (pow2; lia).
    replace (b / 32 * 32 * 2 ^ 24) with (b / 32 * 2 ^ 29) by (pow2; lia); now apply lor_disjoint. }
  destruct (Z.eqb_spec (b mod 32) 0x1f) as [E|E].
  - st_inv Hnum; apply base128_canonical in Hm0 as [Hv ->]; [|assumption].
    bool_facts; unfold CBS_ASN1_TAG_NUMBER_MASK, CBS_ASN1_TAG_SHIFT in *.
    change (Z.shiftl 1 (5 + 24) - 1) with (2 ^ 29 - 1) in *.
    rewrite (uw_small 32 a0) in * by (pow2; lia); rewrite Hlor in * by lia.
    destruct (tag_of_parts (b / 32) a0) as [Ec En]; [lia|lia|].
    split; [split; [pow2; lia|assumption]|].
    unfold asn1_tag_octets; rewrite Ec, En.
    replace (a0 <? 31) with false by (symmetry; apply Z.ltb_ge; lia); simpl; f_equal; lia.
  - injection Hnum as <- <-; rewrite Hlor in * by (pow2; lia).
    destruct (tag_of_parts (b / 32) (b mod 32)) as [Ec En]; [lia|pow2; lia|].
    split; [split; [pow2; lia|assumption]|].
    unfold asn1_tag_octets; rewrite Ec, En.
    replace (b mod 32 <? 31) with true by (symmetry; apply Z.ltb_lt; lia); simpl; f_equal; lia.
Qed.

Lemma zlen_asn1_tag_octets tag : 1 <= zlen (asn1_tag_octets tag) <= 11.
Proof.
  assert (forall f v, zlen (base128_hi f v) <= Z.of_nat f) as Hhi.
  { induction f as [|f IH]; intros v; cbn [base128_hi]; [reflexivity|].
    case_if; [rewrite zlen_nil; lia|]. specialize (IH (v / 128)); zl. }
  unfold asn1_tag_octets; case_if; [zl|].
  unfold base128_octets; specialize (Hhi 9%nat (tag_number tag / 128)); zl.
Qed.

(** * Elements *)

(** The number of header octets of the DER encoding of an element. *)
Definition tlv_header_len (tag len : Z) : Z :=
  zlen (asn1_tag_octets tag) + zlen (asn1_length_octets len).

Lemma zlen_asn1_tlv tag body :
  zlen (asn1_tlv tag body) = tlv_header_len tag (zlen body) + zlen body.
Proof. unfold asn1_tlv, tlv_header_len; rewrite !zlen_app; lia. Qed.

Lemma tlv_header_len_bounds tag len : 2 <= tlv_header_len tag len <= 16.
Proof.
  unfold tlv_header_len; rewrite zlen_asn1_length_octets.
  pose proof (zlen_asn1_tag_octets tag); pose proof (length_size_bounds len); case_if; lia.
Qed.

(** The long form of a length that needs it passes both minimality checks. *)
Lemma long_length_minimal n : 128 <= n ->
  (n <? 128) || (Z.shiftr n ((Z.of_nat (length_size n) - 1) * 8) =? 0) = false.
Proof.
  intros Hn; pose proof (length_size_bounds n); pose proof (length_size_lower n Hn) as Hlo.
  apply orb_false_iff; rewrite Z.ltb_ge, Z.eqb_neq; split; [assumption|].
  rewrite Z.shiftr_div_pow2, Z.mul_comm, Z.pow_mul_r by lia; change (2 ^ 8) with 256.
  pose proof (Z.pow_pos_nonneg 256 (Z.of_nat (length_size n) - 1)).
  assert (1 <= n / 256 ^ (Z.of_nat (length_size n) - 1)); [|lia].
  apply Z.div_le_lower_bound; lia.
Qed.

Lemma asn1_header_der ber_ok tag n rest total :
  valid_tag tag -> 0 <= n < 2 ^ 32 -> total = tlv_header_len tag n + zlen rest ->
  asn1_header ber_ok total (asn1_tag_octets tag ++ asn1_length_octets n ++ rest) =
    (Some {| h_tag := tag; h_len := tlv_header_len tag n + n;
             h_header_len := tlv_header_len tag n;
             h_ber_found := false; h_indefinite := false |}, rest).
Proof.
  intros Ht Hn ->; unfold asn1_header.
  pose proof (zlen_asn1_tag_octets tag) as Htl.
  erewrite st_bind_some by (now apply parse_asn1_tag_octets).
  unfold tlv_header_len; rewrite zlen_asn1_length_octets; unfold asn1_length_octets.
  destruct (Z.ltb_spec n 128) as [Hs|Hl]; simpl app; erewrite st_bind_some by apply CBS_get_u8_cons;
    erewrite st_bind_some by reflexivity; cbv beta; unfold CBS_len.
  - rewrite land_high_bit by (unfold byte; lia); rewrite (proj2 (Z.ltb_lt n 128)) by lia.
    rewrite uw_small by (pow2; lia); unfold st_ret; f_equal; f_equal; f_equal; lia.
  - pose proof (length_size_bounds n); pose proof (length_size_upper n ltac:(lia)).
    set (k := length_size n) in *.
    rewrite land_high_bit by (unfold byte; lia).
    replace (128 + Z.of_nat k <? 128) with false by (symmetry; apply Z.ltb_ge; lia).
    replace (Z.land (128 + Z.of_nat k) 0x7f) with (Z.of_nat k).
    2: { change 0x7f with (2 ^ 7 - 1); rewrite land_low by lia.
         change 128 with (1 * 2 ^ 7); rewrite mod_mul_add; lia. }
    rewrite (proj2 (Z.eqb_neq (Z.of_nat k) 0)), andb_false_r by lia; cbn iota.
    rewrite st_guard_true by (apply negb_true_iff, Z.ltb_ge; lia).
    erewrite st_bind_some by (apply cbs_get_u_app; [now rewrite zlen_be_enc|apply bytes_be_enc|lia]).
    cbv beta; rewrite be_val_be_enc, Z.mod_small by lia.
    rewrite long_length_minimal by lia; rewrite st_guard_true by apply orb_true_r.
    rewrite zlen_app, zlen_be_enc, uw_small by (pow2; lia).
    rewrite st_guard_true by (apply negb_true_iff, Z.ltb_ge; lia).
    unfold st_ret; f_equal; f_equal; f_equal; lia.
Qed.

Lemma asn1_header_inv cbs h rest :
  bytes cbs -> asn1_header false (zlen cbs) cbs = (Some h, rest) ->
  exists n, valid_tag (h_tag h) /\ 0 <= n < 2 ^ 32 /\
    cbs = asn1_tag_octets (h_tag h) ++ asn1_length_octets n ++ rest /\
    h = {| h_tag := h_tag h; h_len := tlv_header_len (h_tag h) n + n;
           h_header_len := tlv_header_len (h_tag h) n;
           h_ber_found := false; h_indefinite := false |}.
Proof.
  intros Hb H.
  assert (forall n, valid_tag (h_tag h) -> 0 <= n < 2 ^ 32 ->
    cbs = asn1_tag_octets (h_tag h) ++ asn1_length_octets n ++ rest ->
    exists n, valid_tag (h_tag h) /\ 0 <= n < 2 ^ 32 /\
    cbs = asn1_tag_octets (h_tag h) ++ asn1_length_octets n ++ rest /\
    h = {| h_tag := h_tag h; h_len := tlv_header_len (h_tag h) n + n;
           h_header_len := tlv_header_len (h_tag h) n;
           h_ber_found := false; h_indefinite := false |}) as Hdone.
  { intros n Hv Hn Hc; exists n; split; [auto|]; split; [auto|]; split; [auto|].
    rewrite Hc, (asn1_header_der false (h_tag h) n rest) in H by
      (auto; unfold tlv_header_len; rewrite !zlen_app; lia).
    now injection H. }
  unfold asn1_header in H.
  apply st_bind_inv in H as (tag & s & Ht & H); apply parse_asn1_tag_inv in Ht as [Hv Ec]; [|auto].
  apply st_bind_inv in H as (lb & s' & Hlb & H); apply CBS_get_u8_inv in Hlb as ->.
  assert (bytes (lb :: s')) as Hb' by (rewrite Ec, bytes_app in Hb; tauto).
  inversion_clear Hb' as [|? ? Hlb Hs'].
  erewrite st_bind_some in H by reflexivity; cbv beta in H; rewrite land_high_bit in H by auto.
  unfold byte in Hlb; destruct (Z.ltb_spec lb 128) as [Hs|Hl].
  - injection H as <- <-; apply (Hdone lb); cbn [h_tag]; [auto|pow2; lia|].
    unfold asn1_length_octets; now rewrite (proj2 (Z.ltb_lt lb 128)) by lia.
  - change 0x7f with (2 ^ 7 - 1) in H; rewrite land_low in H by lia; simpl andb in H; cbn iota in H.
    assert (lb mod 2 ^ 7 = lb - 128) as E by
      (replace lb with (1 * 2 ^ 7 + (lb - 128)) at 1 by lia; apply mod_mul_add; lia).
    rewrite E in H; st_inv H; bool_facts; simpl in *.
    apply cbs_get_u_inv in Hm0 as (data & -> & Hd & ->); [|lia|auto].
    bool_facts; apply (Hdone (be_val data)); cbn [h_tag]; [auto| |].
    + pose proof (be_val_nonneg data); pose proof (be_val_bound data).
      apply bytes_app in Hs' as [? _]; split; [auto|].
      apply Z.lt_le_trans with (256 ^ zlen data); [auto|].
      change (2 ^ 32) with (256 ^ 4); apply Z.pow_le_mono_r; lia.
    + apply bytes_app in Hs' as [Hd' _].
      unfold asn1_length_octets; rewrite (proj2 (Z.ltb_ge (be_val data) 128)) by lia.
      assert (length data = length_size (be_val data)) as Elen.
      { apply length_size_unique; [lia|unfold zlen in *; lia|].
        split; [|apply (be_val_bound data Hd')].
        match goal with Hs : Z.shiftr _ _ <> 0 |- _ =>
          rewrite Z.shiftr_div_pow2, Z.mul_comm, Z.pow_mul_r in Hs by lia end.
        change (2 ^ 8) with 256 in *; rewrite <- Hd in *; fold (zlen data).
        destruct (Z.le_gt_cases (256 ^ (zlen data - 1)) (be_val data)); [auto|].
        exfalso; rewrite Z.div_small in * by (split; [now apply be_val_nonneg|lia]); lia. }
      rewrite Ec, <- Elen; simpl; unfold zlen in Hd; do 2 f_equal; [lia|].
      now rewrite be_enc_be_val.
Qed.

Lemma CBS_get_bytes_none n cbs rest : CBS_get_bytes n cbs = (None, rest) -> rest = cbs.
Proof.
  unfold CBS_get_bytes, st_bind; destruct (cbs_get n cbs) as [[a|] s] eqn:E; [discriminate|].
  intros [= <-]; apply cbs_get_none in E; tauto.
Qed.

(** DER and BER element parsing is transactional: when no element can be
    read, the input is left where it was. *)
Theorem element_failure_keeps_input (ber_ok : bool) (cbs rest : CBS) :
  cbs_get_any_asn1_element ber_ok cbs = (None, rest) -> rest = cbs.
Proof.
  unfold cbs_get_any_asn1_element.
  destruct (asn1_header ber_ok (CBS_len cbs) cbs) as [[h|] s]; [|now intros [= ->]].
  unfold st_bind; destruct (CBS_get_bytes (h_len h) cbs) as [[o|] s'] eqn:E; [discriminate|].
  intros [= <-]; now apply CBS_get_bytes_none in E.
Qed.

Lemma element_failure_keeps_input_witness :
  cbs_get_any_asn1_element true [0x30; 0x85; 1; 2; 3; 4; 5] = (None, [0x30; 0x85; 1; 2; 3; 4; 5]) /\
  [0x30; 0x85; 1; 2; 3; 4; 5] = [0x30; 0x85; 1; 2; 3; 4; 5].
Proof.
  split; [vm_compute; reflexivity|].
  apply (element_failure_keeps_input true); vm_compute; reflexivity.
Defined.

Lemma element_of_tlv ber_ok tag body rest :
  valid_tag tag -> zlen body < 2 ^ 32 ->
  cbs_get_any_asn1_element ber_ok (asn1_tlv tag body ++ rest) =
    (Some {| el_out := asn1_tlv tag body; el_tag := tag;
             el_header_len := tlv_header_len tag (zlen body);
             el_ber_found := false; el_indefinite := false |}, rest).
Proof.
  intros Ht Hl; pose proof (zlen_nonneg body).
  unfold cbs_get_any_asn1_element.
  replace (asn1_header _ _ _) with
    (asn1_header ber_ok (CBS_len (asn1_tlv tag body ++ rest))
       (asn1_tag_octets tag ++ asn1_length_octets (zlen body) ++ body ++ rest)) by
    (unfold asn1_tlv; now rewrite !app_assoc).
  rewrite (asn1_header_der ber_ok tag (zlen body)) by
    (auto; try lia; unfold CBS_len; rewrite zlen_app, zlen_asn1_tlv, !zlen_app; lia).
  erewrite st_bind_some by (apply CBS_get_bytes_app; now rewrite zlen_asn1_tlv); reflexivity.
Qed.

Lemma element_inv cbs e rest :
  bytes cbs -> CBS_get_any_asn1_element cbs = (Some e, rest) ->
  exists body, valid_tag (el_tag e) /\ zlen body < 2 ^ 32 /\
    cbs = asn1_tlv (el_tag e) body ++ rest /\
    e = {| el_out := asn1_tlv (el_tag e) body; el_tag := el_tag e;
           el_header_len := tlv_header_len (el_tag e) (zlen body);
           el_ber_found := false; el_indefinite := false |}.
Proof.
  intros Hb H; unfold CBS_get_any_asn1_element, cbs_get_any_asn1_element in H.
  destruct (asn1_header false (CBS_len cbs) cbs) as [[h|] s] eqn:Eh; [|discriminate].
  apply asn1_header_inv in Eh as (n & Hv & Hn & Ec & Eh); [|auto].
  st_inv H; pose proof (tlv_header_len_bounds (h_tag h) n).
  rewrite Eh in Hm; cbn [h_len] in Hm.
  apply CBS_get_bytes_inv in Hm as [Eo Hlo]; [|lia]; cbn [el_tag].
  assert (exists body, a = asn1_tag_octets (h_tag h) ++ asn1_length_octets n ++ body /\ zlen body = n)
    as (body & Ea & Hbody).
  { exists (zdrop (tlv_header_len (h_tag h) n) a).
    assert (ztake (tlv_header_len (h_tag h) n) a = asn1_tag_octets (h_tag h) ++ asn1_length_octets n) as Et.
    { rewrite <- (ztake_app_eq (tlv_header_len (h_tag h) n)
        (asn1_tag_octets (h_tag h) ++ asn1_length_octets n) s) by (now rewrite zlen_app).
      rewrite <- app_assoc, <- Ec, Eo; unfold ztake; rewrite take_app_le; [auto|].
      unfold zlen in Hlo; lia. }
    rewrite app_assoc, <- Et, ztake_zdrop, zlen_zdrop by lia; split; [auto|lia]. }
  exists body; subst n; split; [auto|split; [lia|split]].
  - rewrite Eo, Ea; unfold asn1_tlv; now rewrite !app_assoc.
  - rewrite Ea; rewrite Eh at 3 4 5; cbn; reflexivity.
Qed.

Lemma get_asn1_spec (tag : Z) (cbs body rest : CBS) :
  bytes cbs ->
  CBS_get_asn1 tag cbs = (Some body, rest) <->
  valid_tag tag /\ zlen body < 2 ^ 32 /\ cbs = asn1_tlv tag body ++ rest.
Proof.
  assert (forall t b, skip_out (tlv_header_len t (zlen b)) (asn1_tlv t b) = fun s => (Some b, s)) as Hskip.
  { intros t b; unfold skip_out, CBS_skip, asn1_tlv; rewrite app_assoc.
    now erewrite st_bind_some by (apply cbs_get_app; now rewrite zlen_app). }
  intros Hb; unfold CBS_get_asn1, cbs_get_asn1; split.
  - intros H; apply st_bind_inv in H as (e & s & He & H).
    apply element_inv in He as (b & Hv & Hl & -> & Ee); [|auto].
    rewrite Ee in H; cbn [el_tag el_header_len el_out] in H.
    apply st_bind_inv in H as (u & s' & Hg & H); apply st_guard_inv in Hg as [Hg ->]; bool_facts.
    rewrite Hskip in H; injection H as -> ->; now rewrite <- Hg.
  - intros (Hv & Hl & ->); unfold CBS_get_any_asn1_element.
    erewrite st_bind_some by (now apply element_of_tlv).
    cbn [el_tag el_header_len el_out]; rewrite st_guard_true by apply Z.eqb_refl.
    now rewrite Hskip.
Qed.

(** C3. The DER reader accepts exactly the canonical encodings: reading an
    element with tag [tag] succeeds with contents [body] and remainder [rest]
    if and only if the input is the X.690 identifier, the minimal length and
    the body, followed by [rest]. *)
Theorem CBS_get_asn1_iff (tag : Z) (cbs body rest : CBS) :
  bytes cbs ->
  CBS_get_asn1 tag cbs = (Some body, rest) <->
  valid_tag tag /\ zlen body < 2 ^ 32 /\ cbs = asn1_tlv tag body ++ rest.
Proof. apply get_asn1_spec. Qed.

Lemma CBS_get_asn1_iff_witness :
  CBS_get_asn1 0x20000010 [0x30; 3; 2; 1; 5; 9] = (Some [2; 1; 5], [9]) /\
  (valid_tag 0x20000010 /\ zlen [2; 1; 5] < 2 ^ 32 /\
   [0x30; 3; 2; 1; 5; 9] = asn1_tlv 0x20000010 [2; 1; 5] ++ [9]).
Proof.
  assert (H : CBS_get_asn1 0x20000010 [0x30; 3; 2; 1; 5; 9] = (Some [2; 1; 5], [9])) by
    (vm_compute; reflexivity).
  split; [exact H|]; apply (CBS_get_asn1_iff 0x20000010 [0x30; 3; 2; 1; 5; 9]); [|exact H].
  repeat constructor; unfold byte; lia.
Defined.

Lemma get_asn1_tlv tag body rest :
  valid_tag tag -> zlen body < 2 ^ 32 -> bytes body -> bytes rest ->
  CBS_get_asn1 tag (asn1_tlv tag body ++ rest) = (Some body, rest).
Proof.
  intros Hv ? ? ?; apply get_asn1_spec; [|auto].
  apply bytes_app; split; [apply bytes_asn1_tlv; [apply Hv|]|]; auto.
Qed.

(** * INTEGER *)

Lemma is_valid_asn1_integer_spec l neg : bytes l ->
  CBS_is_valid_asn1_integer l = Some neg <-> int_minimal l /\ neg = negb (znth l 0 <? 128).
Proof.
  intros Hb; unfold CBS_is_valid_asn1_integer.
  destruct l as [|a l]; [rewrite CBS_get_u8_nil; simpl; intuition congruence|].
  inversion_clear Hb as [|? ? Ha Hl]; rewrite CBS_get_u8_cons, land_high_bit by auto.
  change (znth (a :: l) 0) with a.
  destruct l as [|b l]; [rewrite CBS_get_u8_nil; simpl; intuition congruence|].
  inversion_clear Hl as [|? ? Hb Hl']; rewrite CBS_get_u8_cons, land_high_bit by auto; simpl int_minimal.
  destruct (Z.eqb_spec a 0), (Z.eqb_spec a 0xff), (Z.ltb_spec b 128); simpl;
    intuition (try congruence; try lia).
Qed.

Lemma int_minimal_nonneg l : bytes l -> int_minimal l ->
  (znth l 0 <? 128) = true -> tc_val l = be_val l.
Proof. intros _ _ E; unfold tc_val; rewrite E; lia. Qed.

Lemma asn1_uint64_loop_spec data out :
  bytes data -> 0 <= out < 2 ^ 64 ->
  asn1_uint64_loop out data =
    let v := out * 256 ^ zlen data + be_val data in if v <? 2 ^ 64 then Some v else None.
Proof.
  revert out; induction data as [|b data IH]; intros out Hb Ho.
  - cbn [asn1_uint64_loop]; change (256 ^ zlen []) with 1; change (be_val []) with 0; cbv zeta.
    replace (out * 1 + 0) with out by lia; now rewrite (proj2 (Z.ltb_lt out (2 ^ 64))) by lia.
  - inversion_clear Hb as [|? ? Hb0 Hd]; cbn [asn1_uint64_loop]; cbv zeta.
    pose proof (be_val_nonneg data Hd); unfold byte in *.
    assert (0 < 256 ^ zlen data) by (apply Z.pow_pos_nonneg; zl).
    rewrite be_val_cons, zlen_cons, Z.pow_add_r by zl; change (256 ^ 1) with 256.
    rewrite Z.shiftr_div_pow2 by lia.
    destruct (Z.eqb_spec (out / 2 ^ 56) 0) as [E|E]; simpl negb; cbn iota.
    + apply Z.div_small_iff in E; [|lia]; assert (0 <= out < 2 ^ 56) by lia.
      rewrite shift_in_small, IH by (auto; pow2; lia); cbv zeta.
      now replace ((out * 256 + b) * 256 ^ zlen data + be_val data) with
        (out * (256 * 256 ^ zlen data) + (b * 256 ^ zlen data + be_val data)) by lia.
    + assert (2 ^ 56 <= out) by
        (destruct (Z.le_gt_cases (2 ^ 56) out); [auto|exfalso; apply E, Z.div_small; lia]).
      rewrite (proj2 (Z.ltb_ge _ _)); [auto|pow2; nia].
Qed.

(** A minimal nonnegative INTEGER below 2^64 has at most nine octets. *)
Lemma int_minimal_short l : bytes l -> int_minimal l -> -2 ^ 63 <= tc_val l < 2 ^ 64 -> zlen l <= 9.
Proof.
  intros Hb Hm Hv; destruct l as [|a [|b l]]; [rewrite zlen_nil; lia|rewrite !zlen_cons, zlen_nil; lia|].
  apply int_minimal_spec in Hm; [|auto]; rewrite <- not_true_iff_false, tc_fits_spec in Hm.
  destruct (Z.le_gt_cases (zlen (a :: b :: l)) 9) as [|Hgt]; [auto|exfalso; apply Hm].
  rewrite !zlen_cons in Hgt.
  assert (256 ^ 8 <= 256 ^ Z.of_nat (length l)) by (apply Z.pow_le_mono_r; unfold zlen in *; lia).
  pow2; change (256 ^ 8) with 18446744073709551616 in *; lia.
Qed.

Lemma tc_fits_9 v : -2 ^ 63 <= v < 2 ^ 64 -> tc_fits 9 v = true.
Proof. intros; unfold tc_fits; rewrite andb_true_iff, Z.leb_le, Z.ltb_lt; simpl; lia. Qed.

Lemma valid_tag_integer : valid_tag CBS_ASN1_INTEGER.
Proof. split; [pow2; unfold CBS_ASN1_INTEGER; lia|vm_compute; discriminate]. Qed.

Lemma znth_nonneg_tc l : bytes l -> l <> [] -> (znth l 0 <? 128) = (0 <=? tc_val l).
Proof.
  intros Hb Hn; destruct l as [|a l]; [easy|]; rewrite tc_val_cons by auto.
  change (znth (a :: l) 0) with a; inversion_clear Hb as [|? ? Ha Hl]; unfold byte in *.
  pose proof (be_val_nonneg l Hl); pose proof (be_val_bound l Hl).
  destruct (Z.ltb_spec a 128); symmetry; [apply Z.leb_le|apply Z.leb_gt]; nia.
Qed.

Lemma int_minimal_nonempty l : int_minimal l -> l <> [].
Proof. now destruct l. Qed.

Lemma get_asn1_uint64_spec (cbs rest : CBS) (v : Z) :
  bytes cbs ->
  CBS_get_asn1_uint64 cbs = (Some v, rest) <->
  0 <= v < 2 ^ 64 /\ cbs = asn1_tlv CBS_ASN1_INTEGER (int_octets v) ++ rest.
Proof.
  intros Hb; unfold CBS_get_asn1_uint64; split.
  - intros H; apply st_bind_inv in H as (bs & s & Hg & H).
    apply get_asn1_spec in Hg as (_ & Hl & ->); [|auto].
    apply bytes_app in Hb as [Hb _]; unfold asn1_tlv in Hb; rewrite !bytes_app in Hb.
    destruct Hb as (_ & _ & Hbs).
    apply st_bind_inv in H as (u & s' & Hu & H); apply st_guard_inv in Hu as [Hu ->].
    unfold CBS_is_unsigned_asn1_integer in Hu.
    destruct (CBS_is_valid_asn1_integer bs) as [neg|] eqn:Ev; [|discriminate].
    apply is_valid_asn1_integer_spec in Ev as [Hm ->]; [|auto].
    rewrite negb_involutive in Hu; pose proof (int_minimal_nonneg bs Hbs Hm Hu) as Etc.
    unfold st_opt in H; rewrite asn1_uint64_loop_spec in H by (auto; lia); cbv zeta in H.
    rewrite Z.mul_0_l, Z.add_0_l in H.
    destruct (Z.ltb_spec (be_val bs) (2 ^ 64)); [|discriminate]; injection H as <- <-.
    pose proof (be_val_nonneg bs Hbs); split; [lia|].
    rewrite <- Etc, int_octets_tc_val; [auto|auto|auto|].
    apply int_minimal_short; [auto|auto|lia].
  - intros [Hv ->]; pose proof (tc_fits_9 v ltac:(lia)) as Hf.
    destruct (int_size_spec v Hf) as (Hsz & _).
    pose proof (tc_val_int_octets v Hf) as Etc; pose proof (bytes_int_octets v) as Hby.
    pose proof (int_octets_minimal v Hf) as Hm; pose proof (int_minimal_nonempty _ Hm).
    erewrite st_bind_some by (apply (get_asn1_spec _ _ (int_octets v) rest); [auto|];
      split; [apply valid_tag_integer|split; [rewrite zlen_int_octets; pow2; lia|reflexivity]]).
    assert ((znth (int_octets v) 0 <? 128) = true) as Hnn by
      (rewrite znth_nonneg_tc, Etc by auto; apply Z.leb_le; lia).
    rewrite st_guard_true by
      (unfold CBS_is_unsigned_asn1_integer;
       rewrite (proj2 (is_valid_asn1_integer_spec (int_octets v) _ Hby) (conj Hm eq_refl));
       now rewrite Hnn).
    unfold st_opt; rewrite asn1_uint64_loop_spec by (auto; lia); cbv zeta.
    rewrite <- int_minimal_nonneg, Etc, Z.mul_0_l, Z.add_0_l by auto.
    now rewrite (proj2 (Z.ltb_lt v (2 ^ 64))) by lia.
Qed.

(** [CBS_get_asn1_uint64] accepts exactly the DER encodings of the
    integers of a [uint64_t], and returns their value. *)
Theorem CBS_get_asn1_uint64_iff (cbs rest : CBS) (v : Z) :
  bytes cbs ->
  CBS_get_asn1_uint64 cbs = (Some v, rest) <->
  0 <= v < 2 ^ 64 /\ cbs = asn1_tlv CBS_ASN1_INTEGER (int_octets v) ++ rest.
Proof. apply get_asn1_uint64_spec. Qed.

Lemma CBS_get_asn1_uint64_iff_witness :
  CBS_get_asn1_uint64 [2; 2; 0; 200; 7] = (Some 200, [7]) /\
  (0 <= 200 < 2 ^ 64 /\ [2; 2; 0; 200; 7] = asn1_tlv CBS_ASN1_INTEGER (int_octets 200) ++ [7]).
Proof.
  assert (H : CBS_get_asn1_uint64 [2; 2; 0; 200; 7] = (Some 200, [7])) by (vm_compute; reflexivity).
  split; [exact H|]; apply (CBS_get_asn1_uint64_iff [2; 2; 0; 200; 7]); [|exact H].
  repeat constructor; unfold byte; lia.
Defined.

Lemma be_val_zrep n b l : 0 <= n ->
  be_val (zrep n b ++ l) = be_val (zrep n b) * 256 ^ zlen l + be_val l.
Proof. intros; apply be_val_app. Qed.

(** Sign extension to eight octets keeps the two's complement value. *)
Lemma sign_extend_val l : bytes l -> l <> [] -> zlen l <= 8 ->
  int64_of_le (rev l ++ zrep (8 - zlen l) (if negb (znth l 0 <? 128) then 0xff else 0)) = tc_val l.
Proof.
  intros Hb Hn Hl; unfold int64_of_le; rewrite rev_app_distr, rev_involutive.
  pose proof (be_val_nonneg l Hb); pose proof (be_val_bound l Hb); pose proof (zlen_nonneg l).
  assert (forall n (b : Z), rev (zrep n b) = zrep n b) as Hrev.
  { intros n b; unfold zrep; induction (Z.to_nat n) as [|k IH]; [reflexivity|].
    simpl; rewrite IH; now rewrite <- replicate_cons_app. }
  assert (forall n, 0 <= n -> be_val (zrep n 0) = 0 /\ be_val (zrep n 0xff) = 256 ^ n - 1) as Hrep.
  { intros n Hn0; rewrite <- (Z2Nat.id n) by lia; unfold zrep; rewrite Nat2Z.id.
    induction (Z.to_nat n) as [|k [IH0 IH1]]; [split; reflexivity|].
    rewrite Nat2Z.inj_succ, Z.pow_succ_r, !replicate_S_end, !be_val_snoc by lia; lia. }
  rewrite Hrev, be_val_app; destruct (Hrep (8 - zlen l)) as [E0 E1]; [lia|].
  assert (256 ^ (8 - zlen l) * 256 ^ zlen l = 2 ^ 64) as Ep by
    (rewrite <- Z.pow_add_r by lia; replace (8 - zlen l + zlen l) with 8 by lia; reflexivity).
  pose proof (znth_nonneg_tc l Hb Hn) as Hs; unfold tc_val in *.
  destruct (znth l 0 <? 128) eqn:E; simpl negb; cbn iota; [rewrite E0|rewrite E1].
  all: destruct l as [|a l]; [easy|]; pose proof (tc_val_fits a l Hb) as Hf;
    apply tc_fits_spec in Hf; unfold tc_val in Hf; rewrite E in Hf;
    assert (256 ^ Z.of_nat (length l) <= 2 ^ 56) by
      (change (2 ^ 56) with (256 ^ 7); apply Z.pow_le_mono_r; rewrite zlen_cons in Hl; unfold zlen in Hl; lia).
  - rewrite (proj2 (Z.ltb_lt _ _)); [lia|pow2; lia].
  - symmetry in Hs; apply Z.leb_gt in Hs; rewrite (proj2 (Z.ltb_ge _ _)); [lia|pow2; lia].
Qed.

Lemma get_asn1_int64_spec (cbs rest : CBS) (v : Z) :
  bytes cbs ->
  CBS_get_asn1_int64 cbs = (Some v, rest) <->
  -2 ^ 63 <= v < 2 ^ 63 /\ cbs = asn1_tlv CBS_ASN1_INTEGER (int_octets v) ++ rest.
Proof.
  intros Hb; unfold CBS_get_asn1_int64; split.
  - intros H; apply st_bind_inv in H as (bs & s & Hg & H).
    apply get_asn1_spec in Hg as (_ & Hl & ->); [|auto].
    apply bytes_app in Hb as [Hb _]; unfold asn1_tlv in Hb; rewrite !bytes_app in Hb.
    destruct Hb as (_ & _ & Hbs).
    apply st_bind_inv in H as (neg & s' & Ho & H); injection Ho as Ho <-.
    apply is_valid_asn1_integer_spec in Ho as [Hm ->]; [|auto].
    pose proof (int_minimal_nonempty bs Hm) as Hne; unfold CBS_len in H; st_inv H; bool_facts.
    rewrite sign_extend_val by auto; rewrite int_octets_tc_val by (auto; lia); split; [|auto].
    destruct bs as [|b l]; [easy|]; pose proof (tc_val_fits b l Hbs) as Hf; apply tc_fits_spec in Hf.
    assert (256 ^ Z.of_nat (length l) <= 2 ^ 56) by
      (change (2 ^ 56) with (256 ^ 7); apply Z.pow_le_mono_r; rewrite zlen_cons in *; unfold zlen in *; lia).
    pow2; lia.
  - intros [Hv ->]; pose proof (tc_fits_9 v ltac:(lia)) as Hf.
    destruct (int_size_spec v Hf) as (Hsz & _ & Hmin).
    pose proof (tc_val_int_octets v Hf) as Etc; pose proof (bytes_int_octets v) as Hby.
    pose proof (int_octets_minimal v Hf) as Hm; pose proof (int_minimal_nonempty _ Hm).
    assert (zlen (int_octets v) <= 8) as H8.
    { rewrite zlen_int_octets; assert (int_size v <> 9%nat); [intros E|lia].
      rewrite E in Hmin; destruct Hmin as [|Hmin]; [lia|].
      rewrite <- not_true_iff_false in Hmin; apply Hmin, tc_fits_spec; simpl; lia. }
    erewrite st_bind_some by (apply (get_asn1_spec _ _ (int_octets v) rest); [auto|];
      split; [apply valid_tag_integer|split; [pow2; lia|reflexivity]]).
    erewrite st_bind_some by
      (unfold st_opt; now rewrite (proj2 (is_valid_asn1_integer_spec (int_octets v) _ Hby) (conj Hm eq_refl))).
    unfold CBS_len; rewrite st_guard_true by (apply negb_true_iff, Z.ltb_ge; lia).
    rewrite sign_extend_val, Etc by auto; reflexivity.
Qed.

(** [CBS_get_asn1_int64] accepts exactly the DER encodings of the
    integers of an [int64_t], negative ones included, and returns their value. *)
Theorem CBS_get_asn1_int64_iff (cbs rest : CBS) (v : Z) :
  bytes cbs ->
  CBS_get_asn1_int64 cbs = (Some v, rest) <->
  -2 ^ 63 <= v < 2 ^ 63 /\ cbs = asn1_tlv CBS_ASN1_INTEGER (int_octets v) ++ rest.
Proof. apply get_asn1_int64_spec. Qed.

Lemma CBS_get_asn1_int64_iff_witness :
  CBS_get_asn1_int64 [2; 2; 0xff; 0x7f; 7] = (Some (-129), [7]) /\
  (-2 ^ 63 <= -129 < 2 ^ 63 /\
   [2; 2; 0xff; 0x7f; 7] = asn1_tlv CBS_ASN1_INTEGER (int_octets (-129)) ++ [7]).
Proof.
  assert (H : CBS_get_asn1_int64 [2; 2; 0xff; 0x7f; 7] = (Some (-129), [7])) by (vm_compute; reflexivity).
  split; [exact H|]; apply (CBS_get_asn1_int64_iff [2; 2; 0xff; 0x7f; 7]); [|exact H].
  repeat constructor; unfold byte; lia.
Defined.

(** * BER elements: what the reader consumes *)

Lemma cbs_get_u_suffix n cbs v rest :
  0 <= n -> cbs_get_u n cbs = (Some v, rest) -> zlen rest = zlen cbs - n.
Proof.
  intros Hn H; unfold cbs_get_u in H; st_inv H; apply cbs_get_inv in Hm as [-> <-]; [|lia].
  rewrite zlen_app; lia.
Qed.

Lemma asn1_header_bounds ber_ok cbs h rest :
  bytes cbs -> asn1_header ber_ok (zlen cbs) cbs = (Some h, rest) ->
  valid_tag (h_tag h) /\ 2 <= h_header_len h <= h_len h /\
  (h_indefinite h = true -> h_len h = h_header_len h /\ Z.land (h_tag h) CBS_ASN1_CONSTRUCTED <> 0).
Proof.
  intros Hb H; unfold asn1_header in H.
  apply st_bind_inv in H as (tag & s & Ht & H); apply parse_asn1_tag_inv in Ht as [Hv Ec]; [|auto].
  apply st_bind_inv in H as (lb & s' & Hlb & H); apply CBS_get_u8_inv in Hlb as ->.
  assert (bytes (lb :: s')) as Hb' by (rewrite Ec, bytes_app in Hb; tauto).
  inversion_clear Hb' as [|? ? Hlb Hs'].
  erewrite st_bind_some in H by reflexivity; cbv beta in H; rewrite land_high_bit in H by auto.
  pose proof (zlen_asn1_tag_octets tag) as Htl; unfold byte, CBS_len in *.
  assert (zlen cbs - zlen s' = zlen (asn1_tag_octets tag) + 1) as Eh by
    (rewrite Ec, zlen_app, zlen_cons; lia).
  rewrite Eh in H; destruct (Z.ltb_spec lb 128) as [Hs|Hl].
  - injection H as <- <-; cbn; rewrite uw_small by (pow2; lia); split; [auto|split; [lia|discriminate]].
  - change 0x7f with (2 ^ 7 - 1) in H; rewrite land_low in H by lia.
    pose proof (Z.mod_pos_bound lb (2 ^ 7)); case_if.
    + injection H as <- <-; cbn; bool_facts; split; [auto|split; [lia|auto]].
    + st_inv H; bool_facts; simpl in *.
      apply cbs_get_u_inv in Hm0 as (data & -> & Hd & ->); [|lia|auto].
      apply bytes_app in Hs' as [Hd' _].
      pose proof (be_val_nonneg data Hd'); pose proof (be_val_bound data Hd').
      assert (be_val data < 2 ^ 32) by
        (apply Z.lt_le_trans with (256 ^ zlen data); [auto|];
         change (2 ^ 32) with (256 ^ 4); apply Z.pow_le_mono_r; lia).
      rewrite uw_small in * by (pow2; lia); split; [auto|split; [lia|discriminate]].
Qed.

Lemma ber_element_inv ber_ok cbs e rest :
  bytes cbs -> cbs_get_any_asn1_element ber_ok cbs = (Some e, rest) ->
  cbs = el_out e ++ rest /\ valid_tag (el_tag e) /\ 2 <= el_header_len e <= zlen (el_out e) /\
  (el_indefinite e = true ->
     zlen (el_out e) = el_header_len e /\ Z.land (el_tag e) CBS_ASN1_CONSTRUCTED <> 0).
Proof.
  intros Hb H; unfold cbs_get_any_asn1_element in H.
  destruct (asn1_header ber_ok (CBS_len cbs) cbs) as [[h|] s] eqn:Eh; [|discriminate].
  apply asn1_header_bounds in Eh as (Hv & Hl & Hi); [|auto].
  st_inv H; apply CBS_get_bytes_inv in Hm as [-> E]; [|lia]; cbn.
  split; [auto|split; [auto|rewrite E; auto]].
Qed.
