(* ===== verification/Cbb.v ===== *)
(** CBB: the byte-string builder of crypto/bytestring/cbb.c (lines 27-595).

    The C program links a chain of [CBB] structs, each pointing at its open
    child, and all of them write to the [cbb_buffer_st] of the top-level one.
    The model keeps that buffer and the chain of open children, outermost
    first; a [CBB] of the program is a depth in the chain: 0 is the top-level
    [CBB], [S d] the child opened on depth [d]. A depth beyond the chain is a
    child that has been flushed (its [base] is NULL), on which [CBB_flush], and
    so every call that starts with it, returns zero. The writers that end in
    [cbb_on_error] would dereference that NULL; the theorems are about depths
    that are open.

    [buf] is the memory block of [cap] bytes; [len] of them are in use. *)

From S2P Require Import Prelude Mem Cbs Asn1 Der.

Record cbb_buffer : Type := {
  buf : list Z;
  len : Z;
  cap : Z;
  can_resize : bool;
  error : bool
}.

Record cbb_child : Type := {
  offset : Z;
  pending_len_len : Z;
  pending_is_asn1 : bool
}.

Record CBB : Type := {
  cbb_base : cbb_buffer;
  cbb_children : list cbb_child
}.

Definition set_error (b : cbb_buffer) : cbb_buffer :=
  {| buf := buf b; len := len b; cap := cap b; can_resize := can_resize b; error := true |}.
Definition set_len (b : cbb_buffer) (n : Z) : cbb_buffer :=
  {| buf := buf b; len := n; cap := cap b; can_resize := can_resize b; error := error b |}.
Definition set_buf (b : cbb_buffer) (m : list Z) : cbb_buffer :=
  {| buf := m; len := len b; cap := cap b; can_resize := can_resize b; error := error b |}.

Section Builder.
  Context `{Allocator}.

Definition cbb_init (b : list Z) (capacity : Z) (resize : bool) : CBB :=
  {| cbb_base := {| buf := b; len := 0; cap := capacity; can_resize := resize; error := false |};
     cbb_children := [] |}.

Definition CBB_init (initial_capacity : Z) : option CBB :=
  let b := OPENSSL_malloc initial_capacity in
  if (0 <? initial_capacity) && bool_decide (b = None) then None
  else Some (cbb_init (default [] b) initial_capacity true).

Definition CBB_init_fixed (b : list Z) (n : Z) : CBB := cbb_init b n false.

Definition cbb_buffer_reserve (n : Z) : ST cbb_buffer Z := fun base =>
  let newlen := u64 (len base + n) in
  if newlen <? len base then (None, set_error base)
  else if cap base <? newlen then
    if negb (can_resize base) then (None, set_error base)
    else
      let newcap := u64 (cap base * 2) in
      let newcap := if (newcap <? cap base) || (newcap <? newlen) then newlen else newcap in
      match OPENSSL_realloc (buf base) newcap with
      | None => (None, set_error base)
      | Some newbuf =>
          (Some (len base), {| buf := newbuf; len := len base; cap := newcap;
                               can_resize := can_resize base; error := error base |})
      end
  else (Some (len base), base).

(** Returns the offset of the reserved space. *)
Definition cbb_buffer_add (n : Z) : ST cbb_buffer Z := fun base =>
  match cbb_buffer_reserve n base with
  | (None, base) => (None, base)
  | (Some out, base) => (Some out, set_len base (u64 (len base + n)))
  end.

(** The loop that stores [v] big-endian in [i] bytes at [off]; it returns what
    is left of [v]. *)
Fixpoint store_be (i : nat) (off v : Z) (m : list Z) : list Z * Z :=
  match i with
  | O => (m, v)
  | S i => store_be i off (Z.shiftr v 8) (zsplice m (off + Z.of_nat i) [u8 v])
  end.

(** The final loop of [CBB_flush]: store [n] in the [pending] bytes at [off]
    and check that nothing is left of it. *)
Definition flush_prefix (off pending n : Z) (base : cbb_buffer) : bool * cbb_buffer :=
  let '(m, rem) := store_be (Z.to_nat pending) off n (buf base) in
  (rem =? 0, set_buf base m).

(** The part of [CBB_flush] after the child itself has been flushed. *)
Definition flush_one (child : cbb_child) (base : cbb_buffer) : bool * cbb_buffer :=
  let child_start := u64 (offset child + pending_len_len child) in
  let n := len base - child_start in
  if pending_is_asn1 child then
    if 0xfffffffe <? n then (false, base)
    else
      let '(len_len, initial_length_byte, n') :=
        if 0xffffff <? n then (5, Z.lor 0x80 4, n)
        else if 0xffff <? n then (4, Z.lor 0x80 3, n)
        else if 0xff <? n then (3, Z.lor 0x80 2, n)
        else if 0x7f <? n then (2, Z.lor 0x80 1, n)
        else (1, n, 0) in
      let moved :=
        if negb (len_len =? 1) then
          let extra_bytes := len_len - 1 in
          match cbb_buffer_add extra_bytes base with
          | (None, base) => (false, base)
          | (Some _, base) =>
              (true, set_buf base
                 (zsplice (buf base) (child_start + extra_bytes)
                          (ztake n' (zdrop child_start (buf base)))))
          end
        else (true, base) in
      match moved with
      | (false, base) => (false, base)
      | (true, base) =>
          let base := set_buf base (zsplice (buf base) (offset child) [initial_length_byte]) in
          flush_prefix (offset child + 1) (len_len - 1) n' base
      end
  else flush_prefix (offset child) (pending_len_len child) n base.

(** [CBB_flush] on a [CBB] whose chain of open children is [chain]. *)
Fixpoint flush_children (chain : list cbb_child) (base : cbb_buffer) : bool * cbb_buffer :=
  if error base then (false, base)
  else match chain with
  | [] => (true, base)
  | child :: rest =>
      let child_start := u64 (offset child + pending_len_len child) in
      let '(ok, base) := flush_children rest base in
      if negb ok || (child_start <? offset child) || (len base <? child_start)
      then (false, set_error base)
      else match flush_one child base with
           | (true, base) => (true, base)
           | (false, base) => (false, set_error base)
           end
  end.

Definition detached (d : nat) (cbb : CBB) : bool := (length (cbb_children cbb) <? d)%nat.

Definition CBB_flush (d : nat) : ST CBB unit := fun cbb =>
  if detached d cbb then (None, cbb)
  else if error (cbb_base cbb) then (None, cbb)
  else match flush_children (drop d (cbb_children cbb)) (cbb_base cbb) with
       | (true, base) => (Some tt, {| cbb_base := base; cbb_children := take d (cbb_children cbb) |})
       | (false, base) => (None, {| cbb_base := base; cbb_children := take d (cbb_children cbb) |})
       end.

Definition cbb_on_error (d : nat) (cbb : CBB) : CBB :=
  {| cbb_base := set_error (cbb_base cbb); cbb_children := take d (cbb_children cbb) |}.

(** Runs an operation on the underlying buffer. *)
Definition on_base {A} (m : ST cbb_buffer A) : ST CBB A := fun cbb =>
  let '(r, base) := m (cbb_base cbb) in
  (r, {| cbb_base := base; cbb_children := cbb_children cbb |}).

(** [memcpy] of [data] into the buffer at offset [out]. *)
Definition poke (out : Z) (data : list Z) : ST CBB unit :=
  on_base (fun base => (Some tt, set_buf base (zsplice (buf base) out data))).

Definition CBB_finish : ST CBB (list Z) :=
  CBB_flush 0 ;;;
  fun cbb =>
    let base := cbb_base cbb in
    (Some (ztake (len base) (buf base)), {| cbb_base := set_buf base []; cbb_children := cbb_children cbb |}).

(** Returns the depth of the new child. *)
Definition cbb_add_child (d : nat) (len_len : Z) (is_asn1 : bool) : ST CBB nat :=
  let! prefix_bytes := on_base (cbb_buffer_add len_len) in
  poke prefix_bytes (zrep len_len 0) ;;;
  fun cbb =>
    (Some (S d), {| cbb_base := cbb_base cbb;
                    cbb_children := cbb_children cbb ++
                      [{| offset := prefix_bytes; pending_len_len := len_len;
                          pending_is_asn1 := is_asn1 |}] |}).

Definition cbb_add_length_prefixed (d : nat) (len_len : Z) : ST CBB nat :=
  CBB_flush d ;;; cbb_add_child d len_len false.

Definition CBB_add_u8_length_prefixed (d : nat) : ST CBB nat := cbb_add_length_prefixed d 1.
Definition CBB_add_u16_length_prefixed (d : nat) : ST CBB nat := cbb_add_length_prefixed d 2.
Definition CBB_add_u24_length_prefixed (d : nat) : ST CBB nat := cbb_add_length_prefixed d 3.

Definition CBB_add_space (d : nat) (n : Z) : ST CBB Z :=
  CBB_flush d ;;; on_base (cbb_buffer_add n).

Definition CBB_reserve (d : nat) (n : Z) : ST CBB Z :=
  CBB_flush d ;;; on_base (cbb_buffer_reserve n).

Definition CBB_add_bytes (d : nat) (data : list Z) : ST CBB unit :=
  let! out := CBB_add_space d (zlen data) in poke out data.

Definition CBB_add_zeros (d : nat) (n : Z) : ST CBB unit :=
  let! out := CBB_add_space d n in poke out (zrep n 0).

Definition CBB_did_write (d : nat) (n : Z) : ST CBB unit := fun cbb =>
  let base := cbb_base cbb in
  let newlen := u64 (len base + n) in
  if negb (length (cbb_children cbb) =? d)%nat || (newlen <? len base) || (cap base <? newlen)
  then (None, cbb)
  else (Some tt, {| cbb_base := set_len base newlen; cbb_children := cbb_children cbb |}).

Definition cbb_add_u (d : nat) (v len_len : Z) : ST CBB unit :=
  let! out := CBB_add_space d len_len in
  fun cbb =>
    let base := cbb_base cbb in
    let '(m, v) := store_be (Z.to_nat len_len) out v (buf base) in
    let cbb := {| cbb_base := set_buf base m; cbb_children := cbb_children cbb |} in
    if negb (v =? 0) then (None, cbb_on_error d cbb) else (Some tt, cbb).

Definition CBB_add_u8 (d : nat) (value : Z) : ST CBB unit := cbb_add_u d value 1.
Definition CBB_add_u16 (d : nat) (value : Z) : ST CBB unit := cbb_add_u d value 2.
Definition CBB_add_u16le (d : nat) (value : Z) : ST CBB unit := CBB_add_u16 d (CRYPTO_bswap2 value).
Definition CBB_add_u24 (d : nat) (value : Z) : ST CBB unit := cbb_add_u d value 3.
Definition CBB_add_u32 (d : nat) (value : Z) : ST CBB unit := cbb_add_u d value 4.
Definition CBB_add_u32le (d : nat) (value : Z) : ST CBB unit := CBB_add_u32 d (CRYPTO_bswap4 value).
Definition CBB_add_u64 (d : nat) (value : Z) : ST CBB unit := cbb_add_u d value 8.
Definition CBB_add_u64le (d : nat) (value : Z) : ST CBB unit := CBB_add_u64 d (CRYPTO_bswap8 value).

(** The number of base-128 groups of a [uint64_t], at least one. *)
Fixpoint base128_count (fuel : nat) (copy : Z) : nat :=
  match fuel with
  | O => 0
  | S fuel => if 0 <? copy then S (base128_count fuel (Z.shiftr copy 7)) else 0
  end.

Fixpoint add_base128_loop (d : nat) (v : Z) (i : nat) : ST CBB unit :=
  match i with
  | O => st_ret tt
  | S i =>
      let byte := Z.land (Z.shiftr v (7 * Z.of_nat i)) 0x7f in
      let byte := if negb (i =? 0)%nat then Z.lor byte 0x80 else byte in
      CBB_add_u8 d byte ;;; add_base128_loop d v i
  end.

Definition add_base128_integer (d : nat) (v : Z) : ST CBB unit :=
  let len_len := base128_count 10 v in
  let len_len := if (len_len =? 0)%nat then 1%nat else len_len in
  add_base128_loop d v len_len.

Definition CBB_add_asn1 (d : nat) (tag : Z) : ST CBB nat :=
  CBB_flush d ;;;
  let tag_bits := Z.land (Z.shiftr tag CBS_ASN1_TAG_SHIFT) 0xe0 in
  let tag_number := Z.land tag CBS_ASN1_TAG_NUMBER_MASK in
  (if 0x1f <=? tag_number then
     CBB_add_u8 d (Z.lor tag_bits 0x1f) ;;; add_base128_integer d tag_number
   else CBB_add_u8 d (Z.lor tag_bits tag_number)) ;;;
  cbb_add_child d 1 true.

Definition CBB_discard_child (d : nat) (cbb : CBB) : CBB :=
  match nth_error (cbb_children cbb) d with
  | None => cbb
  | Some child => {| cbb_base := set_len (cbb_base cbb) (offset child);
                     cbb_children := take d (cbb_children cbb) |}
  end.

(** [goto err], which locks the [CBB] into its error state. *)
Definition or_error {A} (d : nat) (m : ST CBB A) : ST CBB A := fun cbb =>
  match m cbb with
  | (None, cbb) => (None, cbb_on_error d cbb)
  | r => r
  end.

(** The byte loop of [CBB_add_asn1_uint64_with_tag]; [i] counts what remains. *)
Fixpoint add_uint64_loop (child : nat) (value : Z) (started : bool) (i : nat) : ST CBB bool :=
  match i with
  | O => st_ret started
  | S i =>
      let byte := Z.land (Z.shiftr value (8 * Z.of_nat i)) 0xff in
      if negb started && (byte =? 0) then add_uint64_loop child value started i
      else
        (if negb started && negb (Z.land byte 0x80 =? 0) then CBB_add_u8 child 0 else st_ret tt) ;;;
        CBB_add_u8 child byte ;;;
        add_uint64_loop child value true i
  end.

Definition CBB_add_asn1_uint64_with_tag (d : nat) (value tag : Z) : ST CBB unit :=
  or_error d
    (let! child := CBB_add_asn1 d tag in
     let! started := add_uint64_loop child value false 8 in
     if started then st_ret tt else CBB_add_u8 child 0) ;;;
  CBB_flush d.

Definition CBB_add_asn1_uint64 (d : nat) (value : Z) : ST CBB unit :=
  CBB_add_asn1_uint64_with_tag d value CBS_ASN1_INTEGER.

(** The bytes of an [int64_t] in memory, least significant first. *)
Definition le_bytes64 (value : Z) : list Z := rev (be_enc 8 (u64 value)).

(** Skips the sign-extension bytes that are not needed. *)
Fixpoint int64_start (bs : list Z) (start : nat) : nat :=
  match start with
  | O => O
  | S n => if (znth bs (Z.of_nat start) =? 0xff) && negb (Z.land (znth bs (Z.of_nat n)) 0x80 =? 0)
           then int64_start bs n else start
  end.

Fixpoint add_bytes_down (child : nat) (bs : list Z) (i : nat) : ST CBB unit :=
  CBB_add_u8 child (znth bs (Z.of_nat i)) ;;;
  match i with
  | O => st_ret tt
  | S i => add_bytes_down child bs i
  end.

Definition CBB_add_asn1_int64_with_tag (d : nat) (value tag : Z) : ST CBB unit :=
  if 0 <=? value then CBB_add_asn1_uint64_with_tag d value tag
  else
    let bs := le_bytes64 value in
    let start := int64_start bs 7 in
    or_error d
      (let! child := CBB_add_asn1 d tag in add_bytes_down child bs start) ;;;
    CBB_flush d.

Definition CBB_add_asn1_int64 (d : nat) (value : Z) : ST CBB unit :=
  CBB_add_asn1_int64_with_tag d value CBS_ASN1_INTEGER.

Definition CBB_add_asn1_octet_string (d : nat) (data : list Z) : ST CBB unit :=
  or_error d
    (let! child := CBB_add_asn1 d CBS_ASN1_OCTETSTRING in
     CBB_add_bytes child data ;;; CBB_flush d).

Definition CBB_add_asn1_bool (d : nat) (value : Z) : ST CBB unit :=
  or_error d
    (let! child := CBB_add_asn1 d CBS_ASN1_BOOLEAN in
     CBB_add_u8 child (if negb (value =? 0) then 0xff else 0) ;;; CBB_flush d).

(** [CBB_len] and [CBB_data] of a [CBB] without an open child. *)
Definition CBB_len (d : nat) (cbb : CBB) : Z :=
  match d with
  | O => len (cbb_base cbb)
  | S d => match nth_error (cbb_children cbb) d with
           | Some c => len (cbb_base cbb) - offset c - pending_len_len c
           | None => 0
           end
  end.

Definition CBB_start (d : nat) (cbb : CBB) : Z :=
  match d with
  | O => 0
  | S d => match nth_error (cbb_children cbb) d with
           | Some c => offset c + pending_len_len c
           | None => 0
           end
  end.
Definition CBB_data (d : nat) (cbb : CBB) : list Z :=
  ztake (CBB_len d cbb) (zdrop (CBB_start d cbb) (buf (cbb_base cbb))).

End Builder.

(** A SEQUENCE of an INTEGER and a BOOLEAN, built and closed. *)
Example build_sequence :
  let m := let! seq := @CBB_add_asn1 allocator_total 0 0x20000010 in
           CBB_add_asn1_uint64 (H:=allocator_total) seq 200 ;;;
           CBB_add_asn1_bool (H:=allocator_total) seq 1 ;;;
           CBB_finish (H:=allocator_total) in
  match CBB_init (H:=allocator_total) 0 with
  | Some cbb => fst (m cbb) = Some [0x30; 7; 2; 2; 0; 200; 1; 1; 255]
  | None => False
  end.
Proof. vm_compute. reflexivity. Qed.
