(* ===== verification/CbbSpec.v ===== *)
(** What a CBB promises: a builder of nested, length-prefixed byte strings.

    The abstract state is the finished bytes of the top-level [CBB] and, for
    each open child, the kind of its length prefix and the bytes written to it.
    Flushing closes children from the inside out, writing each prefix. The
    theorems show that the operations of Cbb.v implement these transitions on
    the shared buffer, that no store leaves the buffer, and that the error
    state is absorbing. *)

From S2P Require Import Prelude Mem Cbs Asn1 Der Cbb.

(** * The abstract builder *)

Inductive prefix : Type :=
  | PLen (n : nat)   (* an [n]-byte big-endian length *)
  | PAsn1.           (* a DER length *)

#[global] Instance prefix_eq_dec : EqDecision prefix.
Proof. solve_decision. Defined.

Record builder : Type := {
  b_root : list Z;
  b_open : list (prefix * list Z)
}.

Definition prefix_width (p : prefix) : nat := match p with PLen n => n | PAsn1 => 1 end.
Definition prefix_is_asn1 (p : prefix) : bool := match p with PLen _ => false | PAsn1 => true end.

Definition prefix_octets (p : prefix) (n : Z) : option (list Z) :=
  match p with
  | PLen k => if n <? 256 ^ Z.of_nat k then Some (be_enc k n) else None
  | PAsn1 => if n <=? 0xfffffffe then Some (asn1_length_octets n) else None
  end.

(** The bytes a chain of open children turns into when it is closed. *)
Fixpoint collapse (open : list (prefix * list Z)) : option (list Z) :=
  match open with
  | [] => Some []
  | (p, bs) :: open =>
      match collapse open with
      | None => None
      | Some inner =>
          match prefix_octets p (zlen (bs ++ inner)) with
          | None => None
          | Some pre => Some (pre ++ bs ++ inner)
          end
      end
  end.

(** Appends to the innermost of the [CBB]s that are left open. *)
Fixpoint append_last (open : list (prefix * list Z)) (data : list Z) : list (prefix * list Z) :=
  match open with
  | [] => []
  | [(p, bs)] => [(p, bs ++ data)]
  | f :: open => f :: append_last open data
  end.

Definition b_append (B : builder) (data : list Z) : builder :=
  match b_open B with
  | [] => {| b_root := b_root B ++ data; b_open := [] |}
  | open => {| b_root := b_root B; b_open := append_last open data |}
  end.

Definition b_flush (d : nat) (B : builder) : option builder :=
  match collapse (drop d (b_open B)) with
  | None => None
  | Some out => Some (b_append {| b_root := b_root B; b_open := take d (b_open B) |} out)
  end.

Definition b_add (d : nat) (data : list Z) (B : builder) : option builder :=
  B ← b_flush d B; Some (b_append B data).

Definition b_child (p : prefix) (B : builder) : builder :=
  {| b_root := b_root B; b_open := b_open B ++ [(p, [])] |}.

(** * The representation of an abstract builder by a buffer *)

(** The bytes in the buffer: each pending prefix is zeros. *)
Fixpoint flat (open : list (prefix * list Z)) : list Z :=
  match open with
  | [] => []
  | (p, bs) :: open => zrep (Z.of_nat (prefix_width p)) 0 ++ bs ++ flat open
  end.

Fixpoint children_match (off : Z) (open : list (prefix * list Z)) (chain : list cbb_child) : Prop :=
  match open, chain with
  | [], [] => True
  | (p, bs) :: open, c :: chain =>
      c = {| offset := off; pending_len_len := Z.of_nat (prefix_width p);
             pending_is_asn1 := prefix_is_asn1 p |} /\
      children_match (off + Z.of_nat (prefix_width p) + zlen bs) open chain
  | _, _ => False
  end.

(** The block has the size the buffer records and the bytes in use fit in it. *)
Definition buf_wf (b : cbb_buffer) : Prop :=
  zlen (buf b) = cap b /\ 0 <= len b <= cap b /\ cap b < 2 ^ 64.

(** The bytes in use are [content], and there has been no error. *)
Definition buf_holds (b : cbb_buffer) (content : list Z) : Prop :=
  buf_wf b /\ error b = false /\ zlen content = len b /\ exists junk, buf b = content ++ junk.

Definition represents (cbb : CBB) (B : builder) : Prop :=
  buf_holds (cbb_base cbb) (b_root B ++ flat (b_open B)) /\
  children_match (zlen (b_root B)) (b_open B) (cbb_children cbb).

(** A [CBB] that has failed: its memory is intact and it stays failed. *)
Definition failed (cbb : CBB) : Prop :=
  buf_wf (cbb_base cbb) /\ error (cbb_base cbb) = true.

(** * Stores *)

Lemma store_be_spec n off v pre old post :
  0 <= v -> off = zlen pre -> length old = n ->
  store_be n off v (pre ++ old ++ post) = (pre ++ be_enc n v ++ post, v / 256 ^ Z.of_nat n).
Proof.
  intros Hv Hoff; revert v old post Hv; induction n as [|n IH]; intros v old post Hv Hold.
  - destruct old; [|discriminate]; simpl; now rewrite Z.div_1_r.
  - destruct old as [|x old _] using rev_ind; [discriminate|].
    rewrite length_app, Nat.add_comm in Hold; injection Hold as Hold; cbn [store_be].
    replace (pre ++ (old ++ [x]) ++ post) with ((pre ++ old) ++ [x] ++ post) by now rewrite !app_assoc.
    rewrite (zsplice_mid (pre ++ old) [x] [u8 v]) by
      (auto; rewrite zlen_app; unfold zlen at 2; lia).
    rewrite <- app_assoc, Z.shiftr_div_pow2 by lia; change (2 ^ 8) with 256.
    rewrite IH by (auto; apply Z.div_pos; lia).
    f_equal; [cbn [be_enc]; rewrite <- app_assoc; reflexivity|].
    rewrite Nat2Z.inj_succ, Z.pow_succ_r, Z.div_div by (try apply Z.pow_pos_nonneg; lia); reflexivity.
Qed.

Lemma zsplice_app_mid {A} (pre old data post : list A) (m : list A) off :
  m = pre ++ old ++ post -> off = zlen pre -> zlen old = zlen data ->
  zsplice m off data = pre ++ data ++ post.
Proof. intros ->; apply zsplice_mid. Qed.

Section Refinement.
Context `{Allocator}.
Implicit Types (b : cbb_buffer) (content : list Z) (cbb : CBB) (B : builder).

Lemma wf_set_error b : buf_wf b -> buf_wf (set_error b).
Proof. auto. Qed.

(** The buffer may grow and no allocation fails. *)
Definition growable b : Prop := can_resize b = true /\ forall n, malloc_ok n = true.

(** Reserving space keeps what the buffer holds; it can only fail by setting
    the error flag. *)
Lemma reserve_spec n b content :
  0 <= n < 2 ^ 64 -> buf_holds b content ->
  match cbb_buffer_reserve n b with
  | (Some out, b') => out = len b /\ buf_holds b' content /\ len b + n <= cap b' /\
                      can_resize b' = can_resize b
  | (None, b') => buf_wf b' /\ error b' = true /\ (growable b -> 2 ^ 64 <= len b + n)
  end.
Proof.
  intros Hn (Hwf & He & Hlen & junk & Hbuf); pose proof Hwf as (Hz & Hl & Hc).
  assert (buf_wf (set_error b) /\ error (set_error b) = true) as [Herr1 Herr2] by (split; auto).
  unfold cbb_buffer_reserve; destruct (Z.ltb_spec (u64 (len b + n)) (len b)) as [Hov|].
  { split; [auto|split; [auto|intros _]].
    destruct (Z.le_gt_cases (2 ^ 64) (len b + n)); [auto|rewrite uw_small in Hov; lia]. }
  assert (len b + n < 2 ^ 64) as Hno.
  { destruct (Z.lt_ge_cases (len b + n) (2 ^ 64)); [auto|exfalso].
    unfold uw in *; rewrite <- (Z_mod_plus_full (len b + n) (-1)), Z.mod_small in * by lia; lia. }
  rewrite uw_small in * by lia.
  destruct (Z.ltb_spec (cap b) (len b + n)).
  - destruct (can_resize b) eqn:Ecr; cbn [negb]; [|split; [auto|split; [auto|intros [Hg _]; congruence]]].
    destruct (OPENSSL_realloc _ _) as [m|] eqn:Em.
    2: { split; [auto|split; [auto|intros [_ Hg]]].
         unfold OPENSSL_realloc, OPENSSL_malloc in Em; rewrite Hg in Em; discriminate. }
    set (newcap := if (u64 (cap b * 2) <? cap b) || (u64 (cap b * 2) <? len b + n)
                   then len b + n else u64 (cap b * 2)) in *.
    pose proof (uw_bound 64 (cap b * 2) ltac:(lia)).
    assert (len b + n <= newcap /\ cap b <= newcap < 2 ^ 64) as [Hnc1 Hnc2] by
      (unfold newcap; case_if; bool_facts; lia).
    split; [reflexivity|split; [|cbn; split; [assumption|reflexivity]]].
    pose proof (realloc_wf _ _ _ Em ltac:(lia)) as Hm.
    pose proof (realloc_eq _ _ _ Em ltac:(lia)) as Ee.
    split; [repeat split; cbn; lia|]; split; [assumption|]; split; [assumption|].
    exists (junk ++ fresh (newcap - zlen (buf b))); cbn.
    now rewrite Ee, ztake_all, Hbuf, app_assoc by lia.
  - split; [reflexivity|split; [repeat split; eauto; lia|split; [lia|reflexivity]]].
Qed.

(** Adding space makes room for [n] more bytes after the contents. *)
Lemma add_spec n b content :
  0 <= n < 2 ^ 64 -> buf_holds b content ->
  match cbb_buffer_add n b with
  | (Some out, b') => out = zlen content /\ can_resize b' = can_resize b /\
      exists extra, zlen extra = n /\ buf_holds b' (content ++ extra)
  | (None, b') => buf_wf b' /\ error b' = true /\ (growable b -> 2 ^ 64 <= len b + n)
  end.
Proof.
  intros Hn Hb; pose proof (reserve_spec n b content Hn Hb) as Hr; unfold cbb_buffer_add.
  destruct (cbb_buffer_reserve n b) as [[out|] b'] eqn:E; [|assumption].
  destruct Hr as (-> & ((Hz & Hl & Hc) & He & Hlen & junk & Hbuf) & Hcap & Hres).
  assert (len b' = len b) as El by (destruct Hb as (_ & _ & <- & _); lia).
  rewrite uw_small by lia; split; [lia|split; [assumption|]].
  exists (ztake n junk).
  assert (n <= zlen junk) by (rewrite Hbuf, zlen_app in Hz; lia).
  rewrite zlen_ztake by lia; split; [reflexivity|].
  repeat split; cbn; rewrite ?zlen_app, ?zlen_ztake; try lia; auto.
  exists (zdrop n junk); now rewrite <- app_assoc, ztake_zdrop.
Qed.

(** Replacing bytes in use by as many others. *)
Lemma holds_set_buf b content content' junk :
  buf_holds b content -> buf b = content ++ junk -> zlen content' = zlen content ->
  buf_holds (set_buf b (content' ++ junk)) content'.
Proof.
  intros ((Hz & Hl & Hc) & He & Hlen & _) Hbuf Hc'.
  repeat split; cbn; auto; try lia; [|eauto].
  rewrite zlen_app, Hc', <- zlen_app, <- Hbuf; assumption.
Qed.

Lemma flush_prefix_spec b pre old rest n :
  buf_holds b (pre ++ old ++ rest) -> 0 <= n ->
  let '(ok, b') := flush_prefix (zlen pre) (zlen old) n b in
  can_resize b' = can_resize b /\ ok = (n <? 256 ^ zlen old) /\
  buf_holds b' (pre ++ be_enc (length old) n ++ rest).
Proof.
  intros Hb Hn; pose proof Hb as (_ & _ & _ & junk & Hbuf).
  unfold flush_prefix; replace (Z.to_nat (zlen old)) with (length old) by (unfold zlen; lia).
  rewrite Hbuf, <- !app_assoc, (store_be_spec (length old) (zlen pre) n pre old) by auto.
  cbn; split; [reflexivity|split].
  - fold (zlen old); assert (0 < 256 ^ zlen old) by (apply Z.pow_pos_nonneg; zl).
    destruct (Z.ltb_spec n (256 ^ zlen old)); [apply Z.eqb_eq, Z.div_small; lia|].
    apply Z.eqb_neq; assert (1 <= n / 256 ^ zlen old); [apply Z.div_le_lower_bound; lia|lia].
  - replace (pre ++ be_enc (length old) n ++ rest ++ junk) with
      ((pre ++ be_enc (length old) n ++ rest) ++ junk) by now rewrite <- !app_assoc.
    apply (holds_set_buf b (pre ++ old ++ rest)); auto.
    rewrite !zlen_app, zlen_be_enc; unfold zlen; lia.
Qed.

(** The DER length written by [CBB_flush] is the minimal one. *)
Lemma asn1_length_cases n : 0 <= n <= 0xfffffffe ->
  (if 0xffffff <? n then (5, Z.lor 0x80 4, n)
   else if 0xffff <? n then (4, Z.lor 0x80 3, n)
   else if 0xff <? n then (3, Z.lor 0x80 2, n)
   else if 0x7f <? n then (2, Z.lor 0x80 1, n)
   else (1, n, 0)) =
  if n <? 128 then (1, n, 0)
  else (1 + Z.of_nat (length_size n), 128 + Z.of_nat (length_size n), n).
Proof.
  intros Hn; unfold length_size; pow2.
  destruct (Z.ltb_spec n 128), (Z.ltb_spec 0xffffff n), (Z.ltb_spec 0xffff n),
    (Z.ltb_spec 0xff n), (Z.ltb_spec 0x7f n), (Z.ltb_spec n 256), (Z.ltb_spec n 65536),
    (Z.ltb_spec n 16777216); try lia; reflexivity.
Qed.

(** [memmove] of the contents of a child to make room for [k] length bytes. *)
Lemma make_room b pre body extra x :
  buf_holds b ((pre ++ [x]) ++ body ++ extra) ->
  exists gap : list Z, length gap = length extra /\ buf_holds (set_buf b (zsplice (buf b) (zlen (pre ++ [x]) + zlen extra)
                            (ztake (zlen body) (zdrop (zlen (pre ++ [x])) (buf b)))))
              (pre ++ [x] ++ gap ++ body).
Proof.
  intros Hb; pose proof Hb as (_ & _ & _ & junk & Hbuf).
  set (X := body ++ extra) in *; exists (ztake (zlen extra) X).
  assert (zlen X = zlen body + zlen extra) as HX by apply zlen_app.
  split; [unfold ztake, zlen, X; rewrite length_take, length_app; lia|].
  rewrite Hbuf, <- app_assoc, zdrop_app; unfold X at 2; rewrite <- !app_assoc, ztake_app.
  rewrite (zsplice_app_mid ((pre ++ [x]) ++ ztake (zlen extra) X) (zdrop (zlen extra) X) body junk).
  - replace (((pre ++ [x]) ++ ztake (zlen extra) X) ++ body ++ junk) with
      ((pre ++ [x] ++ ztake (zlen extra) X ++ body) ++ junk) by now rewrite <- !app_assoc.
    apply (holds_set_buf b ((pre ++ [x]) ++ X)); [auto|now rewrite Hbuf|].
    rewrite !zlen_app, zlen_ztake by zl; lia.
  - transitivity ((pre ++ [x]) ++ X ++ junk); [unfold X; now rewrite <- !app_assoc|].
    rewrite <- (ztake_zdrop (zlen extra) X) at 1; now rewrite <- !app_assoc.
  - rewrite !zlen_app, zlen_ztake by zl; lia.
  - rewrite zlen_zdrop by zl; lia.
Qed.

Lemma set_byte_holds b pre x y rest :
  buf_holds b (pre ++ [x] ++ rest) ->
  buf_holds (set_buf b (zsplice (buf b) (zlen pre) [y])) (pre ++ [y] ++ rest).
Proof.
  intros Hb; pose proof Hb as (_ & _ & _ & junk & Hbuf).
  rewrite (zsplice_app_mid pre [x] [y] (rest ++ junk)); auto.
  - replace (pre ++ [y] ++ rest ++ junk) with ((pre ++ [y] ++ rest) ++ junk) by now rewrite <- !app_assoc.
    apply (holds_set_buf b (pre ++ [x] ++ rest)); auto. rewrite !zlen_app; reflexivity.
  - rewrite Hbuf, <- !app_assoc; reflexivity.
Qed.

Definition child_of (p : prefix) (off : Z) : cbb_child :=
  {| offset := off; pending_len_len := Z.of_nat (prefix_width p);
     pending_is_asn1 := prefix_is_asn1 p |}.

(** Finishing one child writes its length prefix in front of its contents. *)
Lemma flush_one_spec p b pre body :
  buf_holds b (pre ++ zrep (Z.of_nat (prefix_width p)) 0 ++ body) ->
  match flush_one (child_of p (zlen pre)) b with
  | (true, b') => can_resize b' = can_resize b /\
      exists o, prefix_octets p (zlen body) = Some o /\ buf_holds b' (pre ++ o ++ body)
  | (false, b') => buf_wf b' /\
      (prefix_octets p (zlen body) = None \/ (growable b -> 2 ^ 64 <= len b + 4))
  end.
Proof.
  intros Hb; pose proof Hb as ((Hz & Hl & Hc) & _ & Hlen & _); pose proof (zlen_nonneg body).
  pose proof (zlen_nonneg pre); rewrite !zlen_app, zlen_zrep in Hlen by lia.
  unfold flush_one, child_of; cbn [offset pending_len_len pending_is_asn1].
  rewrite uw_small by lia.
  replace (len b - (zlen pre + Z.of_nat (prefix_width p))) with (zlen body) by lia.
  destruct p as [k|]; cbn [prefix_is_asn1 prefix_width prefix_octets] in *.
  - pose proof (flush_prefix_spec b pre (zrep (Z.of_nat k) 0) body (zlen body) Hb ltac:(lia)) as Hf.
    rewrite zlen_zrep in Hf by lia.
    destruct (flush_prefix _ _ _ _) as [ok b'], Hf as (Hres & -> & Hf).
    unfold zrep in Hf; rewrite length_replicate, Nat2Z.id in Hf.
    destruct (zlen body <? 256 ^ Z.of_nat k); [eauto|split; [apply Hf|auto]].
  - destruct (Z.ltb_spec 0xfffffffe (zlen body)) as [Hbig|Hsm].
    { rewrite (proj2 (Z.leb_gt _ _)) by lia; split; [apply Hb|auto]. }
    rewrite (proj2 (Z.leb_le _ _)) by lia; rewrite asn1_length_cases by lia.
    change (zrep (Z.of_nat 1) 0) with [0] in Hb; unfold asn1_length_octets.
    destruct (Z.ltb_spec (zlen body) 128) as [Hs|Hlong].
    + rewrite Z.eqb_refl; cbn [negb]; change (1 - 1) with (zlen (@nil Z)).
      pose proof (set_byte_holds b pre 0 (zlen body) body Hb) as Hb'.
      rewrite app_assoc in Hb'.
      pose proof (flush_prefix_spec _ (pre ++ [zlen body]) [] body 0 Hb' ltac:(lia)) as Hf.
      rewrite zlen_app in Hf; change (zlen [zlen body]) with 1 in Hf.
      destruct (flush_prefix _ _ _ _) as [ok b''], Hf as (Hres & -> & Hf).
      change (0 <? 256 ^ zlen []) with true; cbn iota; split; [now rewrite Hres|].
      eexists; split; [reflexivity|]; now rewrite <- app_assoc in Hf.
    + pose proof (length_size_bounds (zlen body)); set (k := length_size (zlen body)) in *.
      rewrite (proj2 (Z.eqb_neq (1 + Z.of_nat k) 1)) by lia; cbn [negb].
      replace (1 + Z.of_nat k - 1) with (Z.of_nat k) by lia.
      pose proof (add_spec (Z.of_nat k) b _ ltac:(lia) Hb) as Ha.
      destruct (cbb_buffer_add (Z.of_nat k) b) as [[out|] b1].
      2: { destruct Ha as (? & _ & Hg); split; [auto|right; intros ?; specialize (Hg ltac:(auto)); lia]. }
      destruct Ha as (_ & Hres1 & extra & Hex & Hb1).
      replace ((pre ++ [0] ++ body) ++ extra) with ((pre ++ [0]) ++ body ++ extra) in Hb1 by
        now rewrite <- !app_assoc.
      apply make_room in Hb1 as (gap & Hgap & Hb2).
      rewrite zlen_app in Hb2; change (zlen [0]) with 1 in Hb2; rewrite Hex in Hb2.
      change (Z.of_nat 1) with 1.
      apply (set_byte_holds _ pre 0 (128 + Z.of_nat k)) in Hb2; rewrite app_assoc in Hb2.
      pose proof (flush_prefix_spec _ _ _ _ (zlen body) Hb2 ltac:(lia)) as Hf.
      rewrite zlen_app in Hf; change (zlen [_]) with 1 in Hf.
      assert (zlen gap = Z.of_nat k) as Hgl by (unfold zlen in *; lia); rewrite Hgl in Hf.
      destruct (flush_prefix _ _ _ _) as [ok b''], Hf as (Hres & -> & Hf).
      pose proof (length_size_upper (zlen body) ltac:(lia)); fold k in H0.
      rewrite (proj2 (Z.ltb_lt _ _)) by assumption; split; [now rewrite Hres|].
      eexists; split; [reflexivity|].
      replace (length gap) with k in Hf by (unfold zlen in *; lia).
      rewrite <- !app_assoc in Hf; exact Hf.
Qed.

Lemma prefix_octets_len p n o : 0 <= n -> prefix_octets p n = Some o ->
  zlen o <= Z.of_nat (prefix_width p) + 4.
Proof.
  destruct p; cbn; intros Hn; case_if; try discriminate; intros [= <-].
  - rewrite zlen_be_enc; lia.
  - rewrite zlen_asn1_length_octets; pose proof (length_size_bounds n); case_if; lia.
Qed.

Lemma collapse_len open out : collapse open = Some out ->
  zlen out <= zlen (flat open) + 4 * zlen open.
Proof.
  revert out; induction open as [|[p bs] open IH]; intros out; cbn [collapse flat].
  - intros [= <-]; vm_compute; discriminate.
  - destruct (collapse open) as [inner|]; [|discriminate].
    destruct (prefix_octets p (zlen (bs ++ inner))) as [o|] eqn:Eo; [|discriminate].
    intros [= <-]; specialize (IH _ eq_refl); apply prefix_octets_len in Eo; [|zl].
    rewrite !zlen_app, zlen_zrep, zlen_cons by lia; lia.
Qed.

Lemma flush_children_spec open : forall pre b chain,
  buf_holds b (pre ++ flat open) -> children_match (zlen pre) open chain ->
  match flush_children chain b with
  | (true, b') => can_resize b' = can_resize b /\
      exists out, collapse open = Some out /\ buf_holds b' (pre ++ out)
  | (false, b') => buf_wf b' /\ error b' = true /\
      (collapse open = None \/ (growable b -> 2 ^ 64 <= len b + 4 * zlen open))
  end.
Proof.
  induction open as [|[p bs] open IH]; intros pre b chain Hb Hm.
  - destruct chain; [|easy]; pose proof Hb as (_ & He & _); cbn; rewrite He; eauto.
  - destruct chain as [|c chain]; [easy|]; destruct Hm as [-> Hm].
    pose proof Hb as (Hwf & He & Hlen & _); pose proof Hwf as (_ & Hl & Hc).
    cbn [flush_children]; rewrite He.
    set (w := zrep (Z.of_nat (prefix_width p)) 0).
    assert (zlen w = Z.of_nat (prefix_width p)) as Hw by (apply zlen_zrep; lia).
    specialize (IH (pre ++ w ++ bs) b chain).
    replace (pre ++ flat ((p, bs) :: open)) with ((pre ++ w ++ bs) ++ flat open) in Hb by
      (cbn [flat]; now rewrite <- !app_assoc).
    rewrite !zlen_app, Hw, Z.add_assoc in IH; specialize (IH Hb Hm).
    destruct (flush_children chain b) as [[] b1]; cbn [negb orb].
    + destruct IH as (Hres & inner & Ei & Hb1); pose proof (collapse_len open inner Ei) as Hil.
      cbn [collapse]; rewrite Ei; pose proof Hb1 as ((_ & Hl1 & Hc1) & _ & Hlen1 & _).
      replace ((pre ++ w ++ bs) ++ inner) with (pre ++ w ++ bs ++ inner) in Hb1 by now rewrite <- !app_assoc.
      apply flush_one_spec in Hb1; unfold child_of in Hb1.
      rewrite !zlen_app, Hw in Hlen1; zl_pose; cbn [offset pending_len_len].
      rewrite uw_small, (proj2 (Z.ltb_ge _ _)), (proj2 (Z.ltb_ge _ _)) by lia; cbn [orb].
      destruct (flush_one _ b1) as [[] b2].
      * destruct Hb1 as (Hres2 & o & -> & Hb2); split; [congruence|eauto].
      * destruct Hb1 as (Hwf2 & Hwhy); split; [now apply wf_set_error|split; [reflexivity|]].
        destruct Hwhy as [-> |Hg]; [auto|right; intros [Hr Ha]].
        assert (growable b1) as Hgb by (split; congruence); specialize (Hg Hgb).
        cbn [flat] in Hlen; rewrite !zlen_app in Hlen; fold w in Hlen.
        rewrite Hw in Hlen; rewrite zlen_cons; lia.
    + destruct IH as (Hwf1 & _ & Hwhy); split; [now apply wf_set_error|split; [reflexivity|]].
      cbn [collapse]; destruct Hwhy as [-> |Hg]; [auto|right; intros Hgr; specialize (Hg Hgr)].
      rewrite zlen_cons; lia.
Qed.

(** ** Lemmas about the abstract builder *)

Definition b_content B : list Z := b_root B ++ flat (b_open B).

Lemma flat_app o1 o2 : flat (o1 ++ o2) = flat o1 ++ flat o2.
Proof. induction o1 as [|[p bs] o1 IH]; cbn; [auto|]. now rewrite IH, <- !app_assoc. Qed.

Lemma children_match_app o1 o2 off chain :
  children_match off (o1 ++ o2) chain <->
  children_match off o1 (take (length o1) chain) /\
  children_match (off + zlen (flat o1)) o2 (drop (length o1) chain).
Proof.
  revert off chain; induction o1 as [|[p bs] o1 IH]; intros off chain; cbn [app length flat].
  - rewrite take_0, drop_0, zlen_nil, Z.add_0_r; cbn; tauto.
  - destruct chain as [|c chain]; [cbn; tauto|].
    rewrite firstn_cons, skipn_cons; cbn [children_match]; rewrite IH.
    rewrite !zlen_app, zlen_zrep by lia.
    now replace (off + (Z.of_nat (prefix_width p) + (zlen bs + zlen (flat o1)))) with
      (off + Z.of_nat (prefix_width p) + zlen bs + zlen (flat o1)) by lia.
Qed.

Lemma children_match_length off open chain :
  children_match off open chain -> length chain = length open.
Proof.
  revert off chain; induction open as [|[p bs] open IH]; intros off [|c chain]; cbn; try tauto.
  intros [_ Hm]; f_equal; eauto.
Qed.

Lemma append_last_cons2 f g open x : append_last (f :: g :: open) x = f :: append_last (g :: open) x.
Proof. now destruct f. Qed.

Lemma append_last_nil open : append_last open [] = open.
Proof.
  induction open as [|[p bs] [|f open] IH]; [auto|cbn; now rewrite app_nil_r|].
  now rewrite append_last_cons2, IH.
Qed.

Lemma append_last_app open x y : append_last (append_last open x) y = append_last open (x ++ y).
Proof.
  induction open as [|[p bs] [|f open] IH]; [auto|cbn; now rewrite app_assoc|].
  rewrite !append_last_cons2, <- IH.
  destruct (append_last (f :: open) x) eqn:E; [destruct f, open; discriminate|].
  now rewrite append_last_cons2.
Qed.

Lemma length_append_last open x : length (append_last open x) = length open.
Proof.
  induction open as [|[p bs] [|f open] IH]; [auto|auto|].
  rewrite append_last_cons2; cbn [length] in *; now rewrite IH.
Qed.

Lemma append_last_snoc o p bs data : append_last (o ++ [(p, bs)]) data = o ++ [(p, bs ++ data)].
Proof.
  induction o as [|f [|g o] IH]; [reflexivity|now destruct f|].
  cbn [app] in *; now rewrite append_last_cons2, IH.
Qed.

Lemma flat_append_last open x : open <> [] -> flat (append_last open x) = flat open ++ x.
Proof.
  induction open as [|[p bs] [|f open] IH]; intros Hn; [easy| |].
  - cbn; now rewrite !app_nil_r, app_assoc.
  - specialize (IH ltac:(discriminate)); rewrite append_last_cons2.
    assert (forall o, flat ((p, bs) :: o) = zrep (Z.of_nat (prefix_width p)) 0 ++ bs ++ flat o) as Hf
      by reflexivity.
    rewrite !Hf, IH.
    now rewrite <- !app_assoc.
Qed.

Lemma children_match_cons off p bs open c chain :
  children_match off ((p, bs) :: open) (c :: chain) <->
  c = child_of p off /\ children_match (off + Z.of_nat (prefix_width p) + zlen bs) open chain.
Proof. reflexivity. Qed.

Lemma children_match_append_last off open x chain :
  children_match off (append_last open x) chain <-> children_match off open chain.
Proof.
  revert off chain; induction open as [|[p bs] [|f open] IH]; intros off chain; [tauto| |].
  - destruct chain as [|c [|c2 chain]]; cbn; tauto.
  - rewrite append_last_cons2; destruct chain as [|c chain]; [cbn; tauto|].
    rewrite !children_match_cons; now rewrite <- IH.
Qed.

Lemma b_append_content B x : b_content (b_append B x) = b_content B ++ x.
Proof.
  unfold b_content, b_append; destruct (b_open B) eqn:E; cbn [b_root b_open].
  - now rewrite !app_nil_r.
  - rewrite flat_append_last by discriminate; now rewrite app_assoc.
Qed.

Lemma b_append_open B x : length (b_open (b_append B x)) = length (b_open B).
Proof. unfold b_append; destruct (b_open B) eqn:E; [auto|]; cbn [b_open]; apply length_append_last. Qed.

Lemma b_append_app B x y : b_append (b_append B x) y = b_append B (x ++ y).
Proof.
  unfold b_append; destruct (b_open B) as [|f open] eqn:E; cbn [b_open b_root].
  - now rewrite app_assoc.
  - destruct (append_last (f :: open) x) as [|g o] eqn:E2.
    { apply (f_equal length) in E2; rewrite length_append_last in E2; discriminate. }
    now rewrite <- E2, append_last_app.
Qed.

Lemma b_append_nil B : b_append B [] = B.
Proof.
  unfold b_append; destruct B as [r [|f o]]; cbn [b_open b_root]; [now rewrite app_nil_r|].
  now rewrite append_last_nil.
Qed.

(** Nothing to flush below the innermost open [CBB]. *)
Lemma b_flush_top d B : length (b_open B) = d -> b_flush d B = Some B.
Proof.
  intros <-; unfold b_flush; rewrite drop_all, take_ge by lia; cbn [collapse].
  rewrite b_append_nil; now destruct B.
Qed.

Lemma b_flush_open d B B' :
  b_flush d B = Some B' -> (d <= length (b_open B))%nat -> length (b_open B') = d.
Proof.
  unfold b_flush; destruct (collapse _); [intros [= <-] Hd|discriminate].
  rewrite b_append_open; cbn; rewrite length_take; lia.
Qed.

Lemma b_add_open d data B B' :
  b_add d data B = Some B' -> (d <= length (b_open B))%nat -> length (b_open B') = d.
Proof.
  unfold b_add; destruct (b_flush d B) as [B1|] eqn:E; cbn; [intros [= <-] Hd|discriminate].
  rewrite b_append_open; eauto using b_flush_open.
Qed.

Lemma b_add_add d x y B : (d <= length (b_open B))%nat ->
  (B' ← b_add d x B; b_add d y B') = b_add d (x ++ y) B.
Proof.
  intros Hd; unfold b_add; destruct (b_flush d B) as [B1|] eqn:E; cbn; [|reflexivity].
  pose proof (b_flush_open d B B1 E Hd) as Ho.
  rewrite b_flush_top by (now rewrite b_append_open); cbn; now rewrite b_append_app.
Qed.

(** Closing a DER child that holds [body]. *)
Lemma b_close_child d p body pre B :
  length (b_open B) = d -> prefix_octets p (zlen body) = Some pre ->
  b_flush d (b_append (b_child p B) body) = Some (b_append B (pre ++ body)).
Proof.
  intros Ho Hp; unfold b_child, b_append at 1; cbn [b_open b_root].
  destruct (b_open B ++ [(p, [])]) as [|f o] eqn:E; [now destruct (b_open B)|rewrite <- E].
  rewrite append_last_snoc; unfold b_flush; cbn [b_open b_root].
  rewrite drop_app_ge, take_app_le, take_ge by lia; rewrite Ho, Nat.sub_diag, drop_0; cbn.
  rewrite app_nil_r, Hp; now destruct B.
Qed.

Lemma b_close_child_none d p body B :
  length (b_open B) = d -> prefix_octets p (zlen body) = None ->
  b_flush d (b_append (b_child p B) body) = None.
Proof.
  intros Ho Hp; unfold b_child, b_append at 1; cbn [b_open b_root].
  destruct (b_open B ++ [(p, [])]) as [|f o] eqn:E; [now destruct (b_open B)|rewrite <- E].
  rewrite append_last_snoc; unfold b_flush; cbn [b_open b_root].
  rewrite drop_app_ge by lia; rewrite Ho, Nat.sub_diag, drop_0; cbn.
  now rewrite app_nil_r, Hp.
Qed.

(** ** Refinement of the operations *)

Definition phi cbb B : Z := len (cbb_base cbb) + 4 * zlen (b_open B).

(** The call [r], made on [cbb] representing [B], implements the transition
    [spec]: if it returns one, [spec] is defined, the new state represents
    its result and the value returned is [val]; if it returns zero, the
    buffer is intact and locked into the error state, and either [spec] is
    undefined or memory ran out ([cost] bounds how much it asked for). *)
Definition refines {A} (cost : Z) (val : A) (spec : option builder) cbb B (r : option A * CBB) : Prop :=
  match r with
  | (Some a, cbb') => a = val /\ can_resize (cbb_base cbb') = can_resize (cbb_base cbb) /\
      exists B', spec = Some B' /\ represents cbb' B' /\ phi cbb' B' <= phi cbb B + cost
  | (None, cbb') => failed cbb' /\
      (spec = None \/ (growable (cbb_base cbb) -> 2 ^ 64 <= phi cbb B + cost))
  end.

Lemma refines_bind {A C} (c1 c2 : Z) (v1 : A) (v2 : C) s1 s2 cbb B (m : ST CBB A) (k : A -> ST CBB C) :
  0 <= c2 -> refines c1 v1 s1 cbb B (m cbb) ->
  (forall cbb' B', s1 = Some B' -> represents cbb' B' -> refines c2 v2 (s2 B') cbb' B' (k v1 cbb')) ->
  refines (c1 + c2) v2 (s1 ≫= s2) cbb B (st_bind m k cbb).
Proof.
  intros Hc Hm Hk; unfold st_bind; destruct (m cbb) as [[a|] cbb1]; cbn in Hm.
  - destruct Hm as (-> & Hr & B1 & Es & HR & Hphi); specialize (Hk cbb1 B1 Es HR); rewrite Es; cbn.
    destruct (k v1 cbb1) as [[v|] cbb2]; cbn in *.
    + destruct Hk as (-> & Hr2 & B2 & E2 & HR2 & Hphi2).
      split; [auto|split; [congruence|exists B2; split; [auto|split; [auto|lia]]]].
    + destruct Hk as (Hf & [Hk|Hk]); split; auto; right; intros [Hg1 Hg2].
      assert (growable (cbb_base cbb1)) by (split; congruence); specialize (Hk ltac:(auto)); lia.
  - destruct Hm as (Hf & Hm); split; [auto|]; destruct Hm as [-> |Hm]; [auto|].
    right; intros Hg; specialize (Hm Hg); lia.
Qed.

Lemma st_ret_refines {A} d (v : A) cbb B :
  represents cbb B -> length (b_open B) = d ->
  refines 0 v (b_add d [] B) cbb B (st_ret v cbb).
Proof.
  intros HR Ho; unfold b_add; rewrite b_flush_top by auto; cbn.
  split; [auto|split; [auto|eexists; split; [reflexivity|]]]; rewrite b_append_nil; split; [auto|lia].
Qed.

Lemma refines_ext {A} c1 c2 (v : A) s1 s2 cbb B r :
  c1 <= c2 -> s1 = s2 -> refines c1 v s1 cbb B r -> refines c2 v s2 cbb B r.
Proof.
  intros Hc <-; unfold refines; destruct r as [[a|] cbb'].
  - intros (? & ? & B' & ? & ? & ?); split; [auto|split; [auto|exists B'; repeat split; auto; try lia; apply H3]].
  - intros (? & [?|Hg]); split; auto; right; intros G; specialize (Hg G); lia.
Qed.

Lemma refines_cost {A} c1 c2 (v : A) s cbb B r :
  c1 <= c2 -> refines c1 v s cbb B r -> refines c2 v s cbb B r.
Proof. intros Hc; now apply refines_ext. Qed.

Lemma represents_length cbb B : represents cbb B -> length (cbb_children cbb) = length (b_open B).
Proof. intros [_ Hm]; eapply children_match_length; eauto. Qed.

Lemma represents_append chain B b' data :
  children_match (zlen (b_root B)) (b_open B) chain -> buf_holds b' (b_content B ++ data) ->
  represents {| cbb_base := b'; cbb_children := chain |} (b_append B data).
Proof.
  intros Hm Hb; split; cbn [cbb_base cbb_children].
  - fold (b_content (b_append B data)); now rewrite b_append_content.
  - unfold b_append; destruct (b_open B) as [|f o] eqn:E; cbn [b_root b_open].
    + now destruct chain.
    + now apply children_match_append_last.
Qed.

Lemma CBB_flush_spec d cbb B : represents cbb B -> (d <= length (b_open B))%nat ->
  refines 0 tt (b_flush d B) cbb B (CBB_flush d cbb).
Proof.
  intros HR Hd; pose proof (represents_length cbb B HR) as Hlen; destruct HR as [Hb Hm].
  unfold CBB_flush, detached; rewrite (proj2 (Nat.ltb_ge _ _)) by lia.
  pose proof Hb as (_ & He & _); rewrite He.
  set (o1 := take d (b_open B)); set (o2 := drop d (b_open B)).
  assert (b_open B = o1 ++ o2) as Eo by (unfold o1, o2; now rewrite take_drop).
  assert (length o1 = d) as Ho1 by (unfold o1; rewrite length_take; lia).
  rewrite Eo in Hb, Hm; rewrite flat_app, app_assoc in Hb.
  apply children_match_app in Hm as [Hm1 Hm2]; rewrite Ho1 in *.
  rewrite <- zlen_app in Hm2.
  pose proof (flush_children_spec o2 _ _ _ Hb Hm2) as Hf.
  assert (zlen (b_open B) = zlen o1 + zlen o2) as Ez by (rewrite Eo; apply zlen_app).
  unfold b_flush; fold o1 o2; destruct (flush_children _ _) as [[] b'].
  - destruct Hf as (Hres & out & Ec & Hb'); rewrite Ec; split; [auto|split; [auto|]].
    eexists; split; [reflexivity|split].
    + apply represents_append; [exact Hm1|exact Hb'].
    + unfold phi; cbn [cbb_base]; pose proof (collapse_len o2 out Ec) as Hcl.
      unfold zlen at 1; rewrite b_append_open; fold (zlen o1).
      destruct Hb as (_ & _ & Hl & _), Hb' as (_ & _ & Hl' & _); cbn [b_open].
      rewrite Ez; rewrite !zlen_app in *; fold (zlen o1); zl_pose; lia.
  - destruct Hf as (Hwf & Herr & Hwhy); split; [split; auto|].
    destruct Hwhy as [-> |Hg]; [auto|right; intros G; specialize (Hg G); unfold phi; zl_pose; lia].
Qed.

(** Space is added after everything written so far. *)
Lemma add_space_spec n cbb B : represents cbb B -> 0 <= n < 2 ^ 64 ->
  match on_base (cbb_buffer_add n) cbb with
  | (Some out, cbb') => out = zlen (b_content B) /\
      can_resize (cbb_base cbb') = can_resize (cbb_base cbb) /\
      cbb_children cbb' = cbb_children cbb /\
      exists extra, zlen extra = n /\ buf_holds (cbb_base cbb') (b_content B ++ extra)
  | (None, cbb') => failed cbb' /\
      (growable (cbb_base cbb) -> 2 ^ 64 <= len (cbb_base cbb) + n)
  end.
Proof.
  intros [Hb _] Hn; pose proof (add_spec n _ _ Hn Hb) as Ha; unfold on_base.
  destruct (cbb_buffer_add n (cbb_base cbb)) as [[out|] b']; cbn [cbb_base cbb_children].
  - destruct Ha as (? & ? & ?); auto.
  - destruct Ha as (? & ? & ?); split; [split; auto|auto].
Qed.

Lemma phi_append cbb B b' data chain :
  represents cbb B -> buf_holds b' (b_content B ++ data) ->
  phi {| cbb_base := b'; cbb_children := chain |} (b_append B data) <= phi cbb B + zlen data.
Proof.
  intros [(_ & _ & Hl & _) _] (_ & _ & Hl' & _); unfold phi; cbn [cbb_base].
  fold (b_content B) in Hl; rewrite zlen_app in Hl'.
  unfold zlen at 1; rewrite b_append_open; fold (zlen (b_open B)); lia.
Qed.

(** Adding space and storing [data] in it appends [data]; [store] is how the
    caller fills the space. *)
Lemma append_spec n data cbb B (store : Z -> ST CBB unit) :
  represents cbb B -> 0 <= n < 2 ^ 64 -> zlen data = n ->
  (forall cbb' pre extra, cbb_children cbb' = cbb_children cbb -> zlen extra = n ->
     buf_holds (cbb_base cbb') (pre ++ extra) ->
     exists b', store (zlen pre) cbb' = (Some tt, {| cbb_base := b'; cbb_children := cbb_children cbb' |})
       /\ can_resize b' = can_resize (cbb_base cbb') /\ buf_holds b' (pre ++ data)) ->
  refines n tt (Some (b_append B data)) cbb B (st_bind (on_base (cbb_buffer_add n)) store cbb).
Proof.
  intros HR Hn Hd Hst; pose proof (add_space_spec n cbb B HR Hn) as Ha; unfold st_bind.
  destruct (on_base (cbb_buffer_add n) cbb) as [[out|] cbb1].
  - destruct Ha as (-> & Hr & Hch & extra & Hex & Hb).
    destruct (Hst cbb1 (b_content B) extra Hch Hex Hb) as (b' & -> & Hr' & Hb'); cbn.
    split; [auto|split; [congruence|]]; eexists; split; [reflexivity|split].
    + rewrite Hch; apply represents_append; [apply HR|exact Hb'].
    + rewrite <- Hd; now apply phi_append.
  - destruct Ha as (Hf & Hg); split; [auto|right; intros G; specialize (Hg G)]; unfold phi; zl_pose; lia.
Qed.

Lemma poke_store data cbb' pre extra :
  zlen extra = zlen data -> buf_holds (cbb_base cbb') (pre ++ extra) ->
  exists b', poke (zlen pre) data cbb' = (Some tt, {| cbb_base := b'; cbb_children := cbb_children cbb' |})
    /\ can_resize b' = can_resize (cbb_base cbb') /\ buf_holds b' (pre ++ data).
Proof.
  intros Hex Hb; pose proof Hb as (_ & _ & _ & junk & Hbuf).
  unfold poke, on_base; eexists; split; [reflexivity|split; [reflexivity|]].
  rewrite (zsplice_app_mid pre extra data junk) by (auto; now rewrite Hbuf, <- app_assoc).
  rewrite app_assoc; apply (holds_set_buf _ (pre ++ extra)); auto.
  rewrite !zlen_app; lia.
Qed.

Lemma CBB_add_bytes_spec d data cbb B :
  represents cbb B -> (d <= length (b_open B))%nat -> zlen data < 2 ^ 64 ->
  refines (zlen data) tt (b_add d data B) cbb B (CBB_add_bytes d data cbb).
Proof.
  intros HR Hd Hz; unfold CBB_add_bytes, CBB_add_space.
  replace (st_bind _ _ cbb) with
    (st_bind (CBB_flush d) (fun _ => st_bind (on_base (cbb_buffer_add (zlen data))) (fun out => poke out data)) cbb)
    by (unfold st_bind; destruct (CBB_flush d cbb) as [[?|] ?]; auto).
  apply (refines_ext (0 + zlen data) _ _ (b_flush d B ≫= fun B => Some (b_append B data))); [lia|reflexivity|].
  eapply refines_bind; [zl|now apply CBB_flush_spec|]; intros cbb' B' EB HR'; cbv beta.
  apply append_spec; auto; [zl|].
  intros cbb'' pre extra _ Hex Hb; now apply (poke_store data cbb'' pre extra).
Qed.

(** An integer that fits is appended big-endian. *)
Lemma cbb_add_u_spec d v n cbb B :
  represents cbb B -> (d <= length (b_open B))%nat -> 0 <= n < 2 ^ 64 -> 0 <= v < 256 ^ n ->
  refines n tt (b_add d (be_enc (Z.to_nat n) v) B) cbb B (cbb_add_u d v n cbb).
Proof.
  intros HR Hd Hn Hv; unfold cbb_add_u, CBB_add_space.
  set (store := fun out : Z => _).
  replace (st_bind _ _ cbb) with
    (st_bind (CBB_flush d) (fun _ => st_bind (on_base (cbb_buffer_add n)) store) cbb)
    by (unfold st_bind; destruct (CBB_flush d cbb) as [[?|] ?]; auto).
  apply (refines_ext (0 + n) _ _ (b_flush d B ≫= fun B => Some (b_append B (be_enc (Z.to_nat n) v))));
    [lia|reflexivity|].
  eapply refines_bind; [lia|now apply CBB_flush_spec|]; intros cbb' B' EB HR'; cbv beta.
  apply append_spec; auto; [rewrite zlen_be_enc; lia|].
  intros cbb2 pre extra _ Hex Hb; pose proof Hb as (_ & _ & _ & junk & Hbuf); unfold store.
  rewrite Hbuf, <- app_assoc.
  rewrite (store_be_spec (Z.to_nat n) (zlen pre) v pre extra junk) by (auto; unfold zlen in *; lia).
  rewrite Z2Nat.id, Z.div_small by lia; cbn [negb Z.eqb].
  eexists; split; [reflexivity|split; [reflexivity|]].
  rewrite app_assoc; apply (holds_set_buf _ (pre ++ extra)); auto.
  rewrite !zlen_app, zlen_be_enc; lia.
Qed.

(** One that does not fit locks the [CBB] into its error state. *)
Lemma cbb_add_u_overflow d v n cbb B :
  represents cbb B -> (d <= length (b_open B))%nat -> 0 <= n < 2 ^ 64 -> 256 ^ n <= v ->
  fst (cbb_add_u d v n cbb) = None /\ failed (snd (cbb_add_u d v n cbb)).
Proof.
  intros HR Hd Hn Hv; unfold cbb_add_u, CBB_add_space, st_bind.
  pose proof (CBB_flush_spec d cbb B HR Hd) as Hf.
  destruct (CBB_flush d cbb) as [[[]|] cbb1]; [|now destruct Hf].
  destruct Hf as (_ & _ & B1 & _ & HR1 & _).
  pose proof (add_space_spec n cbb1 B1 HR1 Hn) as Ha.
  destruct (on_base (cbb_buffer_add n) cbb1) as [[out|] cbb2]; [|now destruct Ha].
  destruct Ha as (-> & _ & _ & extra & Hex & Hb); pose proof Hb as (_ & _ & _ & junk & Hbuf).
  assert (0 < 256 ^ n) by (apply Z.pow_pos_nonneg; lia).
  rewrite Hbuf, <- app_assoc.
  rewrite (store_be_spec (Z.to_nat n) _ v (b_content B1) extra junk) by (auto; unfold zlen in *; lia).
  rewrite Z2Nat.id by lia.
  assert (1 <= v / 256 ^ n) by (apply Z.div_le_lower_bound; lia).
  rewrite (proj2 (Z.eqb_neq _ 0)) by lia; cbn; split; [auto|split; [|reflexivity]].
  rewrite app_assoc; apply wf_set_error.
  apply (holds_set_buf _ (b_content B1 ++ extra)); auto.
  rewrite !zlen_app, zlen_be_enc; lia.
Qed.

Lemma CBB_add_u8_spec d v cbb B :
  represents cbb B -> (d <= length (b_open B))%nat -> byte v ->
  refines 1 tt (b_add d [v] B) cbb B (CBB_add_u8 d v cbb).
Proof.
  intros HR Hd Hv; unfold CBB_add_u8, byte in *.
  replace [v] with (be_enc (Z.to_nat 1) v) by
    (change (Z.to_nat 1) with 1%nat; unfold be_enc; rewrite app_nil_l, Z.mod_small by lia; reflexivity).
  apply cbb_add_u_spec; auto; lia.
Qed.

(** Opening a child reserves its length prefix. *)
Lemma cbb_add_child_spec d p cbb B :
  represents cbb B -> length (b_open B) = d -> (prefix_width p <= 8)%nat ->
  refines (Z.of_nat (prefix_width p) + 4) (S d) (Some (b_child p B)) cbb B
    (cbb_add_child d (Z.of_nat (prefix_width p)) (prefix_is_asn1 p) cbb).
Proof.
  intros HR Ho Hp; set (w := Z.of_nat (prefix_width p)); unfold cbb_add_child.
  pose proof (add_space_spec w cbb B HR ltac:(lia)) as Ha; unfold st_bind at 1.
  destruct (on_base (cbb_buffer_add w) cbb) as [[out|] cbb1].
  - destruct Ha as (-> & Hr & Hch & extra & Hex & Hb).
    destruct (poke_store (zrep w 0) cbb1 (b_content B) extra) as (b' & Epoke & Hr' & Hb');
      [rewrite zlen_zrep; lia|auto|].
    unfold st_bind; rewrite Epoke; cbn; split; [auto|split; [congruence|]].
    eexists; split; [reflexivity|split].
    + split; cbn [cbb_base cbb_children b_child b_root b_open].
      * rewrite flat_app, app_assoc; cbn [flat]; now rewrite !app_nil_r.
      * apply children_match_app; rewrite Hch; destruct HR as [HRb HRm].
        pose proof (children_match_length _ _ _ HRm) as Hl.
        rewrite take_app_le, drop_app_ge, take_ge by lia; split; [auto|].
        rewrite Hl, Nat.sub_diag, drop_0; cbn; split; [|auto].
        unfold b_content; now rewrite zlen_app.
    + unfold phi; cbn [cbb_base b_open b_child]; destruct Hb' as (_ & _ & Hl' & _).
      destruct HR as [(_ & _ & Hl & _) _]; fold (b_content B) in Hl.
      rewrite zlen_app, zlen_zrep in Hl' by lia; rewrite zlen_app.
      change (zlen [(p, [])]) with 1; lia.
  - destruct Ha as (Hf & Hg); split; [auto|right; intros G; specialize (Hg G)]; unfold phi; zl_pose; lia.
Qed.

Lemma cbb_add_length_prefixed_spec d n cbb B :
  represents cbb B -> (d <= length (b_open B))%nat -> (n <= 8)%nat ->
  refines (Z.of_nat n + 4) (S d) (b_flush d B ≫= fun B => Some (b_child (PLen n) B)) cbb B
    (cbb_add_length_prefixed d (Z.of_nat n) cbb).
Proof.
  intros HR Hd Hn; unfold cbb_add_length_prefixed.
  apply (refines_cost (0 + (Z.of_nat n + 4))); [lia|].
  eapply refines_bind; [lia|now apply CBB_flush_spec|]; intros cbb' B' EB HR'.
  apply (cbb_add_child_spec d (PLen n)); auto; eauto using b_flush_open.
Qed.

(** ** Base-128 integers and identifiers *)

(** The octets [add_base128_loop] writes. *)
Fixpoint base128_groups (v : Z) (i : nat) : list Z :=
  match i with
  | O => []
  | S i => (if (i =? 0)%nat then 0 else 128) + (v / 128 ^ Z.of_nat i) mod 128 :: base128_groups v i
  end.

Lemma base128_group_byte v i : 0 <= v ->
  (let byte := Z.land (Z.shiftr v (7 * Z.of_nat i)) 0x7f in
   if negb (i =? 0)%nat then Z.lor byte 0x80 else byte) =
  (if (i =? 0)%nat then 0 else 128) + (v / 128 ^ Z.of_nat i) mod 128.
Proof.
  intros Hv; cbv zeta; change 0x7f with (2 ^ 7 - 1); rewrite land_low by lia.
  rewrite Z.shiftr_div_pow2, Z.pow_mul_r by lia; change (2 ^ 7) with 128.
  pose proof (Z.mod_pos_bound (v / 128 ^ Z.of_nat i) 128).
  destruct (i =? 0)%nat; cbn [negb]; [reflexivity|].
  rewrite Z.lor_comm; apply (lor_disjoint 1 _ 7); [lia|]; change (2 ^ 7) with 128; lia.
Qed.

Lemma add_base128_loop_spec d v i cbb B :
  represents cbb B -> length (b_open B) = d -> 0 <= v ->
  refines (Z.of_nat i) tt (b_add d (base128_groups v i) B) cbb B (add_base128_loop d v i cbb).
Proof.
  revert cbb B; induction i as [|i IH]; intros cbb B HR Ho Hv.
  - apply (st_ret_refines d); auto.
  - cbn [add_base128_loop base128_groups]; cbv zeta; rewrite base128_group_byte by auto.
    set (x := _ + _ mod 128).
    assert (byte x) by (unfold x, byte; pose proof (Z.mod_pos_bound (v / 128 ^ Z.of_nat i) 128); case_if; lia).
    apply (refines_ext (1 + Z.of_nat i) _ _ (b_add d [x] B ≫= b_add d (base128_groups v i)));
      [lia|apply (b_add_add d [x]); lia|].
    eapply refines_bind; [lia|apply CBB_add_u8_spec; auto; lia|].
    intros cbb' B' EB HR'; apply IH; auto; eapply b_add_open; eauto; lia.
Qed.

Lemma base128_groups_hi v i : 0 <= v ->
  base128_groups v (S i) = map (fun x => 128 + x mod 128) (base128_groups (v / 128) i) ++ [v mod 128].
Proof.
  intros Hv; induction i as [|i IH]; [cbn; now rewrite Z.div_1_r|].
  cbn [base128_groups] in *; rewrite IH; cbn [map app]; f_equal.
  rewrite Nat2Z.inj_succ, Z.pow_succ_r, <- Z.div_div by (try apply Z.pow_pos_nonneg; lia).
  cbn [Nat.eqb]; pose proof (Z.mod_pos_bound (v / 128 / 128 ^ Z.of_nat i) 128).
  destruct (i =? 0)%nat; rewrite ?Z.add_0_l; [now rewrite Z.mod_mod by lia|].
  f_equal; rewrite <- Z.add_mod_idemp_l, Z.mod_same, Z.add_0_l, Z.mod_mod by lia; reflexivity.
Qed.

Lemma base128_hi_groups f w : 0 <= w < 128 ^ Z.of_nat f ->
  base128_hi f w = map (fun x => 128 + x mod 128) (base128_groups w (base128_count f w)).
Proof.
  revert w; induction f as [|f IH]; intros w Hw; [reflexivity|].
  rewrite Nat2Z.inj_succ, Z.pow_succ_r in Hw by lia.
  cbn [base128_hi base128_count]; destruct (Z.eqb_spec w 0) as [-> |Hnz]; [reflexivity|].
  rewrite (proj2 (Z.ltb_lt 0 w)), base128_groups_hi, map_app by lia.
  rewrite Z.shiftr_div_pow2 by lia; change (2 ^ 7) with 128.
  rewrite IH by (split; [apply Z.div_pos|apply Z.div_lt_upper_bound]; lia).
  rewrite map_map; cbn [map]; rewrite Z.mod_mod by lia; f_equal.
  apply map_ext; intros x; rewrite <- (Z.add_mod_idemp_l 128), Z.mod_same, Z.add_0_l, Z.mod_mod by lia.
  reflexivity.
Qed.

Lemma base128_groups_octets v : 0 <= v < 2 ^ 64 ->
  base128_groups v (if (base128_count 10 v =? 0)%nat then 1 else base128_count 10 v) = base128_octets v.
Proof.
  intros Hv; cbn [base128_count]; destruct (Z.ltb_spec 0 v) as [Hp|Hz]; cbn [Nat.eqb].
  - rewrite base128_groups_hi, Z.shiftr_div_pow2 by lia; change (2 ^ 7) with 128.
    unfold base128_octets; rewrite (base128_hi_groups 9); [reflexivity|].
    split; [apply Z.div_pos; lia|apply Z.div_lt_upper_bound; [lia|]].
    change (Z.of_nat 9) with 9; pow2; lia.
  - assert (v = 0) as -> by lia; reflexivity.
Qed.

Lemma base128_count_le f v : (base128_count f v <= f)%nat.
Proof. revert v; induction f; intros v; cbn; [lia|]. case_if; [specialize (IHf (Z.shiftr v 7)); lia|lia]. Qed.

Lemma add_base128_integer_spec d v cbb B :
  represents cbb B -> length (b_open B) = d -> 0 <= v < 2 ^ 64 ->
  refines 10 tt (b_add d (base128_octets v) B) cbb B (add_base128_integer d v cbb).
Proof.
  intros HR Ho Hv; unfold add_base128_integer; rewrite <- base128_groups_octets by auto.
  pose proof (base128_count_le 10 v); set (n := if (base128_count 10 v =? 0)%nat then 1%nat else base128_count 10 v).
  apply (refines_cost (Z.of_nat n)); [unfold n; case_if; lia|].
  apply add_base128_loop_spec; auto; lia.
Qed.

(** Opening an ASN.1 element writes its identifier octets. *)
Lemma CBB_add_asn1_spec d tag cbb B :
  represents cbb B -> (d <= length (b_open B))%nat -> 0 <= tag < 2 ^ 32 ->
  refines 16 (S d) (b_add d (asn1_tag_octets tag) B ≫= fun B => Some (b_child PAsn1 B)) cbb B
    (CBB_add_asn1 d tag cbb).
Proof.
  intros HR Hd Ht; destruct (tag_split tag Ht) as (Et & Hc & Hn); unfold CBB_add_asn1.
  assert (Z.land (Z.shiftr tag CBS_ASN1_TAG_SHIFT) 0xe0 = tag_class tag * 32) as Ebits.
  { unfold CBS_ASN1_TAG_SHIFT; rewrite Z.shiftr_div_pow2 by lia.
    rewrite land_tag_bits by (unfold byte; split; [apply Z.div_pos|apply Z.div_lt_upper_bound]; lia).
    rewrite Z.div_div by lia; reflexivity. }
  assert (Z.land tag CBS_ASN1_TAG_NUMBER_MASK = tag_number tag) as Enum by
    (change CBS_ASN1_TAG_NUMBER_MASK with (2 ^ 29 - 1); now rewrite land_low).
  assert (forall k, 0 <= k < 32 -> Z.lor (tag_class tag * 32) k = 32 * tag_class tag + k) as Hlor by
    (intros k Hk; change 32 with (2 ^ 5) at 1; rewrite lor_disjoint by lia; pow2; lia).
  rewrite Ebits, Enum.
  apply (refines_ext (0 + (11 + 5)) _ _
    (b_flush d B ≫= fun B => b_add d (asn1_tag_octets tag) B ≫= fun B => Some (b_child PAsn1 B)));
    [lia| |].
  { unfold b_add at 2; destruct (b_flush d B) as [B1|] eqn:E; cbn; [|reflexivity].
    unfold b_add; rewrite b_flush_top by eauto using b_flush_open; reflexivity. }
  eapply refines_bind; [lia|now apply CBB_flush_spec|]; intros cbb1 B1 EB1 HR1.
  pose proof (b_flush_open d B B1 EB1 Hd) as Ho1.
  eapply refines_bind; [lia| |].
  - unfold asn1_tag_octets; destruct (Z.leb_spec 0x1f (tag_number tag)).
    + rewrite (proj2 (Z.ltb_ge (tag_number tag) 31)) by lia.
      apply (refines_ext (1 + 10) _ _
        (b_add d [32 * tag_class tag + 31] B1 ≫= b_add d (base128_octets (tag_number tag))));
        [lia|apply (b_add_add d [_]); lia|].
      eapply refines_bind; [lia| |].
      * rewrite Hlor by lia; apply CBB_add_u8_spec; auto; [lia|unfold byte; lia].
      * intros cbb2 B2 EB2 HR2; apply add_base128_integer_spec; auto; [|lia].
        eapply b_add_open; eauto; lia.
    + rewrite (proj2 (Z.ltb_lt (tag_number tag) 31)), Hlor by lia.
      apply (refines_cost 1); [lia|].
      apply CBB_add_u8_spec; auto; [lia|unfold byte; lia].
  - intros cbb2 B2 EB2 HR2; apply (cbb_add_child_spec d PAsn1); auto; [|cbn; lia].
    eapply b_add_open; eauto; lia.
Qed.
End Refinement.
