(* ===== verification/CbbDer.v ===== *)
(** The typed writers of cbb.c (DER integers, octet strings and booleans) and
    programs of CBB calls.

    Every call, on every argument, is one transition of the abstract builder of
    CbbSpec.v; the readers of Der.v take apart what the writers produce. *)

From S2P Require Import Prelude Mem Cbs Asn1 Der Cbb CbbSpec.

(** * Octets of the integer writers *)

Lemma be_enc_cons n v : be_enc (S n) v = (v / 256 ^ Z.of_nat n) mod 256 :: be_enc n v.
Proof.
  revert v; induction n as [|n IH]; intros v; [cbn; now rewrite Z.div_1_r|].
  change (be_enc (S (S n)) v) with (be_enc (S n) (v / 256) ++ [v mod 256]).
  rewrite IH, Z.div_div, <- Z.pow_succ_r, <- Nat2Z.inj_succ by (try apply Z.pow_pos_nonneg; lia).
  reflexivity.
Qed.

Lemma land_ff v i : 0 <= v -> Z.land (Z.shiftr v (8 * Z.of_nat i)) 0xff = (v / 256 ^ Z.of_nat i) mod 256.
Proof.
  intros Hv; change 0xff with (2 ^ 8 - 1); rewrite land_low, Z.shiftr_div_pow2 by lia.
  now rewrite pow256_2 by lia.
Qed.

Lemma byte_sign x : byte x -> negb (Z.land x 0x80 =? 0) = (128 <=? x).
Proof.
  intros Hx; apply eqb_true_iff.
  apply (zall_spec (fun x => Bool.eqb (negb (Z.land x 0x80 =? 0)) (128 <=? x)) 0 256 eq_refl);
    unfold byte in Hx; lia.
Qed.

(** The octets of a non-zero value, a zero octet in front of a high bit. *)
Lemma int_octets_unsigned n v :
  256 ^ Z.of_nat n <= v < 256 ^ Z.of_nat (S n) -> (n <= 7)%nat ->
  int_octets v = (if 128 <=? v / 256 ^ Z.of_nat n then [0] else []) ++ be_enc (S n) v.
Proof.
  intros Hv Hn; set (P := 256 ^ Z.of_nat n) in *.
  assert (0 < P) by (apply Z.pow_pos_nonneg; lia).
  rewrite Nat2Z.inj_succ, Z.pow_succ_r in Hv by lia; fold P in Hv.
  assert (1 <= v / P < 256) by (split; [apply Z.div_le_lower_bound|apply Z.div_lt_upper_bound]; lia).
  assert (zlen (be_enc n v) = Z.of_nat n) as Hl by apply zlen_be_enc.
  pose proof (bytes_be_enc n v) as Hby; pose proof (Z.div_mod v P ltac:(lia)).
  rewrite be_enc_cons; fold P; rewrite (Z.mod_small (v / P)) by lia.
  assert (bytes (v / P :: be_enc n v)) as Hb1 by (constructor; [unfold byte; lia|auto]).
  assert (be_val (v / P :: be_enc n v) = v) as Hv1 by
    (rewrite be_val_cons, be_val_be_enc, Hl; fold P; lia).
  destruct (Z.leb_spec 128 (v / P)) as [Hh|Hs]; cbn [app].
  - rewrite <- (int_octets_tc_val (0 :: v / P :: be_enc n v)).
    + f_equal; rewrite tc_val_cons, Hv1 by (constructor; [unfold byte; lia|auto]); cbn; lia.
    + constructor; [unfold byte; lia|auto].
    + cbn; split; [lia|intros [? ?]; lia].
    + rewrite !zlen_cons; lia.
  - rewrite <- (int_octets_tc_val (v / P :: be_enc n v)).
    + f_equal; rewrite tc_val_cons by auto; rewrite be_val_cons in Hv1.
      rewrite (proj2 (Z.ltb_lt _ _)) by lia; lia.
    + auto.
    + destruct (be_enc n v); cbn; [auto|split; intros [? ?]; lia].
    + rewrite zlen_cons; lia.
Qed.

(** Skipping a redundant sign octet keeps the value. *)
Lemma tc_val_skip_ff a l : bytes (a :: l) -> 128 <= a -> tc_val (255 :: a :: l) = tc_val (a :: l).
Proof.
  intros Hb Ha; assert (byte 255) by (unfold byte; lia).
  rewrite !tc_val_cons, be_val_cons, zlen_cons, Z.pow_add_r by (auto; zl || constructor; auto).
  rewrite (proj2 (Z.ltb_ge a 128)) by lia; change (255 <? 128) with false; cbn iota; change (256 ^ 1) with 256; lia.
Qed.

Section Int64.
  Variable bs : list Z.
  Hypothesis Hbs : bytes bs.

(** The octets written from position [i] down. *)
Fixpoint down (i : nat) : list Z :=
  znth bs (Z.of_nat i) :: match i with O => [] | S i => down i end.

Lemma down_cons i : exists l, down i = znth bs (Z.of_nat i) :: l.
Proof. destruct i; cbn; eauto. Qed.

Lemma zlen_down i : zlen (down i) = Z.of_nat i + 1.
Proof. induction i; cbn [down]; rewrite zlen_cons; [reflexivity|lia]. Qed.

Lemma bytes_down i : (i < length bs)%nat -> bytes (down i).
Proof.
  induction i as [|i IH]; intros Hi; cbn [down]; constructor; try (now apply bytes_znth).
  - constructor.
  - apply IH; lia.
Qed.

(** The sign octets that [int64_start] skips are redundant, and what is left of
    a negative value is minimal. *)
Lemma int64_start_spec i : (i < length bs)%nat -> tc_val (down i) < 0 ->
  tc_val (down (int64_start bs i)) = tc_val (down i) /\
  int_minimal (down (int64_start bs i)) /\ (int64_start bs i <= i)%nat.
Proof.
  induction i as [|i IH]; intros Hi Hneg; [cbn; auto|].
  pose proof (bytes_down i ltac:(lia)) as Hb; pose proof (bytes_down (S i) Hi) as Hb'.
  cbn [int64_start]; cbn [down] in Hb', Hneg |- *; destruct (down_cons i) as [l El]; rewrite El in *.
  set (x := znth bs (Z.of_nat (S i))) in *; set (y := znth bs (Z.of_nat i)) in *.
  assert (byte x /\ byte y) as [Hx Hy] by (split; inversion Hb' as [|? ? ? Hb2]; [auto|now inversion Hb2]).
  rewrite byte_sign by auto; destruct ((x =? 255) && (128 <=? y)) eqn:E.
  - apply andb_true_iff in E as [E%Z.eqb_eq E'%Z.leb_le]; rewrite E in Hneg |- *.
    rewrite tc_val_skip_ff in Hneg |- * by auto; destruct (IH ltac:(lia) Hneg) as (? & ? & ?); auto with lia.
  - cbn [down]; fold x; rewrite El; split; [auto|split; [|auto]].
    rewrite tc_val_cons in Hneg by auto.
    pose proof (be_val_nonneg (y :: l) Hb); apply andb_false_iff in E; rewrite Z.eqb_neq, Z.leb_gt in E.
    assert (0 < 256 ^ zlen (y :: l)) by (apply Z.pow_pos_nonneg; zl).
    split; intros [Ex ?]; [|destruct E; lia].
    rewrite Ex in Hneg; change (0 <? 128) with true in Hneg; cbn iota in Hneg; lia.
Qed.
End Int64.

(** * The typed writers *)

Section Writers.
  Context `{Allocator}.
  Implicit Types (cbb : CBB) (B : builder).

Lemma or_error_refines {A} d c (v : A) s cbb B m :
  refines c v s cbb B (m cbb) -> refines c v s cbb B (or_error d m cbb).
Proof.
  unfold or_error; destruct (m cbb) as [[a|] cbb']; [auto|].
  intros [[Hwf _] Hwhy]; split; [split; [now apply wf_set_error|reflexivity]|auto].
Qed.

(** Writing one element: open it, write its body, close it. *)
Lemma b_tlv d tag body B : (d <= length (b_open B))%nat ->
  (((b_add d (asn1_tag_octets tag) B ≫= fun B => Some (b_child PAsn1 B)) ≫= b_add (S d) body) ≫= b_flush d) =
  if zlen body <=? 0xfffffffe then b_add d (asn1_tlv tag body) B else None.
Proof.
  intros Hd; unfold b_add at 2; destruct (b_flush d B) as [B1|] eqn:E1; cbn.
  2: { unfold b_add; rewrite E1; cbn; now case_if. }
  pose proof (b_flush_open d B B1 E1 Hd) as Ho.
  assert (length (b_open (b_child PAsn1 (b_append B1 (asn1_tag_octets tag)))) = S d) as Hc by
    (unfold b_child; cbn; rewrite length_app, b_append_open, Ho; cbn; lia).
  unfold b_add at 1; rewrite b_flush_top by auto; cbn.
  destruct (zlen body <=? 0xfffffffe) eqn:El.
  - rewrite (b_close_child d PAsn1 body (asn1_length_octets (zlen body))) by
      (rewrite ?b_append_open; auto; cbn; now rewrite El).
    unfold b_add; rewrite E1; cbn; now rewrite b_append_app.
  - apply b_close_child_none; [now rewrite b_append_open|cbn; now rewrite El].
Qed.

Lemma tlv_open d tag body B B' : (d <= length (b_open B))%nat ->
  (b_add d (asn1_tag_octets tag) B ≫= fun B => Some (b_child PAsn1 B)) ≫= b_add (S d) body = Some B' ->
  length (b_open B') = S d.
Proof.
  intros Hd; destruct (b_add d _ B) as [B0|] eqn:E0; [|discriminate]; cbn [mbind option_bind].
  intros E; apply b_add_open in E; [auto|]; cbn.
  rewrite length_app, (b_add_open _ _ _ _ E0) by auto; cbn; lia.
Qed.

Lemma tlv_refines d tag body c m cbb B :
  represents cbb B -> (d <= length (b_open B))%nat -> 0 <= tag < 2 ^ 32 -> 0 <= c ->
  (forall cbb' B', represents cbb' B' -> length (b_open B') = S d ->
     refines c tt (b_add (S d) body B') cbb' B' (m (S d) cbb')) ->
  refines (16 + c) tt ((b_add d (asn1_tag_octets tag) B ≫= fun B => Some (b_child PAsn1 B)) ≫= b_add (S d) body)
    cbb B (st_bind (CBB_add_asn1 d tag) m cbb).
Proof.
  intros HR Hd Ht Hc Hm; eapply refines_bind; [auto|now apply CBB_add_asn1_spec|].
  intros cbb' B' E HR'; apply Hm; auto.
  destruct (b_add d (asn1_tag_octets tag) B) as [B1|] eqn:E1; [|discriminate]; injection E as <-.
  cbn; rewrite length_app, (b_add_open _ _ _ _ E1) by auto; cbn; lia.
Qed.

(** The two shapes of the typed writers: the final flush outside or inside of
    the part whose failure locks the [CBB]. *)
Lemma tlv_then_flush d tag body c m cbb B :
  represents cbb B -> (d <= length (b_open B))%nat -> 0 <= tag < 2 ^ 32 -> 0 <= c ->
  (forall cbb' B', represents cbb' B' -> length (b_open B') = S d ->
     refines c tt (b_add (S d) body B') cbb' B' (m (S d) cbb')) ->
  refines (16 + c) tt (if zlen body <=? 0xfffffffe then b_add d (asn1_tlv tag body) B else None) cbb B
    (st_bind (or_error d (st_bind (CBB_add_asn1 d tag) m)) (fun _ => CBB_flush d) cbb).
Proof.
  intros HR Hd Ht Hc Hm; rewrite <- b_tlv by auto.
  apply (refines_cost (16 + c + 0)); [lia|].
  eapply refines_bind; [lia|apply or_error_refines; now apply tlv_refines|].
  intros cbb' B' E HR'; apply CBB_flush_spec; auto.
  apply tlv_open in E; auto; lia.
Qed.

Lemma tlv_with_flush d tag body c (m : nat -> ST CBB unit) cbb B :
  represents cbb B -> (d <= length (b_open B))%nat -> 0 <= tag < 2 ^ 32 -> 0 <= c ->
  (forall cbb' B', represents cbb' B' -> length (b_open B') = S d ->
     refines c tt (b_add (S d) body B') cbb' B' (m (S d) cbb')) ->
  refines (16 + c) tt (if zlen body <=? 0xfffffffe then b_add d (asn1_tlv tag body) B else None) cbb B
    (or_error d (let! child := CBB_add_asn1 d tag in m child ;;; CBB_flush d) cbb).
Proof.
  intros HR Hd Ht Hc Hm; apply or_error_refines.
  rewrite <- b_tlv by auto.
  replace (st_bind _ _ cbb) with (st_bind (st_bind (CBB_add_asn1 d tag) m) (fun _ => CBB_flush d) cbb)
    by (unfold st_bind; destruct (CBB_add_asn1 d tag cbb) as [[?|] ?]; auto).
  apply (refines_cost (16 + c + 0)); [lia|].
  eapply refines_bind; [lia|now apply tlv_refines|].
  intros cbb' B' E HR'; apply CBB_flush_spec; auto.
  apply tlv_open in E; auto; lia.
Qed.

(** *** The integers *)

Lemma add_uint64_started d v i cbb B :
  represents cbb B -> length (b_open B) = d -> 0 <= v ->
  refines (Z.of_nat i) true (b_add d (be_enc i v) B) cbb B (add_uint64_loop d v true i cbb).
Proof.
  revert cbb B; induction i as [|i IH]; intros cbb B HR Ho Hv.
  - apply (st_ret_refines d); auto.
  - cbn [add_uint64_loop negb andb]; rewrite be_enc_cons, land_ff by auto.
    set (x := _ mod 256); assert (byte x) by (apply Z.mod_pos_bound; lia).
    apply (refines_ext (1 + Z.of_nat i) _ _ (b_add d [x] B ≫= b_add d (be_enc i v)));
      [lia|apply (b_add_add d [x]); lia|].
    change (st_bind (st_ret tt) ?k cbb) with (k tt cbb); cbv beta.
    eapply refines_bind; [lia|apply CBB_add_u8_spec; auto; lia|].
    intros cbb' B' EB HR'; apply IH; auto; eapply b_add_open; eauto; lia.
Qed.

(** The loop writes the minimal octets of a non-zero value and nothing for zero. *)
Lemma add_uint64_loop_spec d v i cbb B :
  represents cbb B -> length (b_open B) = d -> 0 <= v < 256 ^ Z.of_nat i -> (i <= 8)%nat ->
  refines (Z.of_nat i + 1) (negb (v =? 0)) (b_add d (if v =? 0 then [] else int_octets v) B) cbb B
    (add_uint64_loop d v false i cbb).
Proof.
  revert cbb B; induction i as [|i IH]; intros cbb B HR Ho Hv Hi.
  - assert (v = 0) as -> by (cbn in Hv; lia); apply (refines_cost 0); [lia|]; apply (st_ret_refines d); auto.
  - cbn [add_uint64_loop negb andb]; rewrite land_ff by lia.
    assert (0 < 256 ^ Z.of_nat i) by (apply Z.pow_pos_nonneg; lia).
    pose proof Hv as Hv'; rewrite Nat2Z.inj_succ, Z.pow_succ_r in Hv' by lia.
    assert (0 <= v / 256 ^ Z.of_nat i < 256) as Hq by
      (split; [apply Z.div_pos|apply Z.div_lt_upper_bound]; lia).
    rewrite (Z.mod_small (v / _)) by auto.
    destruct (Z.eqb_spec (v / 256 ^ Z.of_nat i) 0) as [Hz|Hnz].
    + apply Z.div_small_iff in Hz; [|lia].
      apply (refines_cost (Z.of_nat i + 1)); [lia|]; apply IH; auto; lia.
    + assert (256 ^ Z.of_nat i <= v) by
        (destruct (Z.le_gt_cases (256 ^ Z.of_nat i) v); [auto|rewrite Z.div_small in Hnz; lia]).
      rewrite (proj2 (Z.eqb_neq v 0)), (int_octets_unsigned i), byte_sign by (auto; lia).
      set (x := v / 256 ^ Z.of_nat i) in *; set (pad := if 128 <=? x then [0] else []).
      assert (be_enc (S i) v = x :: be_enc i v) as -> by
        (rewrite be_enc_cons; fold x; now rewrite Z.mod_small by lia).
      apply (refines_ext (1 + (1 + Z.of_nat i)) _ _
        (b_add d pad B ≫= fun B => b_add d [x] B ≫= b_add d (be_enc i v))); [lia| |].
      { rewrite <- b_add_add by lia; destruct (b_add d pad B) as [B1|] eqn:E1; [cbn|reflexivity].
        apply (b_add_add d [x]); rewrite (b_add_open _ _ _ _ E1); lia. }
      eapply refines_bind; [lia| |].
      * unfold pad; destruct (128 <=? x).
        -- apply CBB_add_u8_spec; auto; [lia|unfold byte; lia].
        -- apply (refines_cost 0); [lia|]; apply (st_ret_refines d); auto.
      * intros cbb1 B1 E1 HR1; apply b_add_open in E1; [|lia].
        eapply refines_bind; [lia|apply CBB_add_u8_spec; auto; lia|].
        intros cbb2 B2 E2 HR2; apply b_add_open in E2; [|lia].
        apply add_uint64_started; auto; lia.
Qed.

Lemma CBB_add_asn1_uint64_spec d v tag cbb B :
  represents cbb B -> (d <= length (b_open B))%nat -> 0 <= v < 2 ^ 64 -> 0 <= tag < 2 ^ 32 ->
  refines 32 tt (b_add d (asn1_tlv tag (int_octets v)) B) cbb B (CBB_add_asn1_uint64_with_tag d v tag cbb).
Proof.
  intros HR Hd Hv Ht; unfold CBB_add_asn1_uint64_with_tag.
  assert ((zlen (int_octets v) <=? 0xfffffffe) = true) as Hl.
  { rewrite zlen_int_octets; apply Z.leb_le; destruct (int_size_spec v); [|lia].
    apply tc_fits_spec; change (Z.of_nat 8) with 8; pow2; lia. }
  apply (refines_ext (16 + 10) _ _ (if zlen (int_octets v) <=? 0xfffffffe
    then b_add d (asn1_tlv tag (int_octets v)) B else None)); [lia|now rewrite Hl|].
  apply tlv_then_flush; auto; [lia|]; intros cbb' B' HR' Ho'.
  apply (refines_ext (9 + 1) _ _ (b_add (S d) (if v =? 0 then [] else int_octets v) B' ≫=
    fun B => b_add (S d) (if v =? 0 then [0] else []) B)); [lia| |].
  { rewrite b_add_add by lia; destruct (Z.eqb_spec v 0) as [-> |]; [reflexivity|now rewrite app_nil_r]. }
  eapply refines_bind; [lia|apply (add_uint64_loop_spec (S d) v 8); auto; change (Z.of_nat 8) with 8; pow2; lia|].
  intros cbb2 B2 E2 HR2; apply b_add_open in E2; [|lia].
  destruct (v =? 0); cbn [negb].
  - apply CBB_add_u8_spec; auto; [lia|unfold byte; lia].
  - apply (refines_cost 0); [lia|]; apply (st_ret_refines (S d)); auto.
Qed.

Lemma add_bytes_down_spec d bs i cbb B :
  represents cbb B -> length (b_open B) = d -> bytes bs ->
  refines (Z.of_nat i + 1) tt (b_add d (down bs i) B) cbb B (add_bytes_down d bs i cbb).
Proof.
  intros HR Ho Hb; revert cbb B HR Ho; induction i as [|i IH]; intros cbb B HR Ho.
  - cbn [add_bytes_down down]; apply (refines_ext (1 + 0) _ _ (b_add d [znth bs 0] B ≫= b_add d []));
      [lia|apply (b_add_add d [_]); lia|].
    eapply refines_bind; [lia|apply CBB_add_u8_spec; auto; [lia|now apply bytes_znth]|].
    intros cbb1 B1 E1 HR1; apply st_ret_refines; auto; eapply b_add_open; eauto; lia.
  - cbn [add_bytes_down down].
    apply (refines_ext (1 + (Z.of_nat i + 1)) _ _
      (b_add d [znth bs (Z.of_nat (S i))] B ≫= b_add d (down bs i))); [lia|apply (b_add_add d [_]); lia|].
    eapply refines_bind; [lia|apply CBB_add_u8_spec; auto; [lia|now apply bytes_znth]|].
    intros cbb1 B1 E1 HR1; apply IH; auto; eapply b_add_open; eauto; lia.
Qed.

Lemma down_rev l : down (rev l) (length l - 1) = if (length l =? 0)%nat then [0] else l.
Proof.
  induction l as [|a l IH]; [reflexivity|].
  replace (length (a :: l) - 1)%nat with (length l) by (cbn; lia); cbn [length Nat.eqb].
  assert (znth (rev (a :: l)) (Z.of_nat (length l)) = a) as Ha.
  { unfold znth; rewrite Nat2Z.id; cbn [rev]; rewrite app_nth2, length_rev, Nat.sub_diag by
      (rewrite length_rev; lia); reflexivity. }
  destruct l as [|b l]; [cbn in *; now rewrite Ha|].
  cbn [length] in *; cbn [down]; rewrite Ha; f_equal.
  replace (S (length l) - 1)%nat with (length l) in IH by lia; cbn [Nat.eqb] in IH.
  transitivity (down (rev (b :: l)) (length l)); [clear|exact IH].
  set (k := rev (b :: l)).
  assert (forall i, (i < length k)%nat -> down (k ++ [a]) i = down k i) as Hd.
  { intros i; induction i as [|i IHi]; intros Hi; cbn [down]; unfold znth;
      rewrite app_nth1 by lia; [reflexivity|]; now rewrite IHi by lia. }
  exact (Hd (length l) ltac:(unfold k; rewrite length_rev; cbn; lia)).
Qed.

(** The octets of a negative value, cut at [int64_start], are the minimal ones. *)
Lemma int64_octets v : - 2 ^ 63 <= v < 0 ->
  let bs := le_bytes64 v in down bs (int64_start bs 7) = int_octets v.
Proof.
  intros Hv bs.
  assert (bytes bs) as Hb by (apply Forall_rev, bytes_be_enc).
  assert (length bs = 8%nat) as Hl by (unfold bs, le_bytes64; now rewrite length_rev, length_be_enc).
  assert (down bs 7 = be_enc 8 (u64 v)) as Hd.
  { unfold bs, le_bytes64; pose proof (down_rev (be_enc 8 (u64 v))) as E.
    rewrite length_be_enc in E; exact E. }
  assert (tc_val (down bs 7) = v) as Hv7.
  { rewrite Hd; unfold uw; change (2 ^ 64) with (256 ^ Z.of_nat 8); apply (tc_val_be_enc 7).
    apply tc_fits_spec; change (Z.of_nat 7) with 7; pow2; lia. }
  destruct (int64_start_spec bs Hb 7) as (Ht & Hm & Hi); [lia|lia|].
  rewrite Hv7 in Ht; transitivity (int_octets (tc_val (down bs (int64_start bs 7)))); [|now rewrite Ht].
  symmetry; apply int_octets_tc_val; auto.
  - apply bytes_down; auto; lia.
  - rewrite zlen_down; lia.
Qed.

Lemma CBB_add_asn1_int64_spec d v tag cbb B :
  represents cbb B -> (d <= length (b_open B))%nat -> - 2 ^ 63 <= v < 2 ^ 63 -> 0 <= tag < 2 ^ 32 ->
  refines 32 tt (b_add d (asn1_tlv tag (int_octets v)) B) cbb B (CBB_add_asn1_int64_with_tag d v tag cbb).
Proof.
  intros HR Hd Hv Ht; unfold CBB_add_asn1_int64_with_tag; destruct (Z.leb_spec 0 v).
  { apply CBB_add_asn1_uint64_spec; auto; lia. }
  assert ((zlen (int_octets v) <=? 0xfffffffe) = true) as Hl.
  { rewrite zlen_int_octets; apply Z.leb_le; destruct (int_size_spec v); [|lia].
    apply tc_fits_spec; change (Z.of_nat 8) with 8; pow2; lia. }
  apply (refines_ext (16 + 8) _ _ (if zlen (int_octets v) <=? 0xfffffffe
    then b_add d (asn1_tlv tag (int_octets v)) B else None)); [lia|now rewrite Hl|].
  apply (tlv_then_flush d tag _ _ (fun child => add_bytes_down child (le_bytes64 v) (int64_start (le_bytes64 v) 7)));
    auto; [lia|]; intros cbb' B' HR' Ho'.
  rewrite <- int64_octets by lia; set (bs := le_bytes64 v).
  assert (bytes bs) by (apply Forall_rev, bytes_be_enc).
  apply (refines_cost (Z.of_nat (int64_start bs 7) + 1)).
  { assert (forall i, (int64_start bs i <= i)%nat) as Hs.
    { intros i; induction i; cbn [int64_start]; [lia|case_if; lia]. }
    specialize (Hs 7%nat); lia. }
  now apply add_bytes_down_spec.
Qed.

(** *** Octet strings, booleans and zeros *)

Lemma CBB_add_asn1_octet_string_spec d data cbb B :
  represents cbb B -> (d <= length (b_open B))%nat -> zlen data < 2 ^ 64 ->
  refines (16 + zlen data) tt (if zlen data <=? 0xfffffffe
    then b_add d (asn1_tlv CBS_ASN1_OCTETSTRING data) B else None) cbb B (CBB_add_asn1_octet_string d data cbb).
Proof.
  intros HR Hd Hz; apply (tlv_with_flush d CBS_ASN1_OCTETSTRING data _ (fun child => CBB_add_bytes child data));
    auto; [vm_compute; split; congruence|zl|].
  intros cbb' B' HR' Ho'; apply CBB_add_bytes_spec; auto; lia.
Qed.

Lemma CBB_add_asn1_bool_spec d v cbb B :
  represents cbb B -> (d <= length (b_open B))%nat ->
  refines 17 tt (b_add d (asn1_tlv CBS_ASN1_BOOLEAN [if v =? 0 then 0 else 0xff]) B) cbb B
    (CBB_add_asn1_bool d v cbb).
Proof.
  intros HR Hd; set (x := if v =? 0 then 0 else 0xff).
  unfold CBB_add_asn1_bool; replace (if negb (v =? 0) then 0xff else 0) with x by
    (unfold x; now destruct (v =? 0)).
  apply (tlv_with_flush d CBS_ASN1_BOOLEAN [x] 1 (fun child => CBB_add_u8 child x));
    auto; [vm_compute; split; congruence|lia|].
  intros cbb' B' HR' Ho'; apply CBB_add_u8_spec; auto; [lia|unfold x, byte; case_if; lia].
Qed.

Lemma CBB_add_zeros_spec d n cbb B :
  represents cbb B -> (d <= length (b_open B))%nat -> 0 <= n < 2 ^ 64 ->
  refines n tt (b_add d (zrep n 0) B) cbb B (CBB_add_zeros d n cbb).
Proof.
  intros HR Hd Hn; pose proof (CBB_add_bytes_spec d (zrep n 0) cbb B HR Hd) as Hs.
  unfold CBB_add_bytes in Hs; rewrite zlen_zrep in Hs by lia; apply Hs; lia.
Qed.
End Writers.
