(* ===== verification/CbbProgram.v ===== *)
(** Programs of CBB calls (crypto/bytestring/cbb.c).

    A caller of a CBB is a sequence of calls, each on one of the [CBB]s of the
    open chain. The transition of each call on the abstract builder is
    [op_spec]; [exec] is the C function. *)

From S2P Require Import Prelude Mem Cbs Asn1 Der Cbb CbbSpec CbbDer.

(** The integer writers. *)
Inductive uwidth : Type := W8 | W16 | W24 | W32 | W64.
Inductive lewidth : Type := LE16 | LE32 | LE64.

Inductive cbb_op : Type :=
  | AddBytes (d : nat) (data : list Z)
  | AddZeros (d : nat) (n : Z)
  | AddU (d : nat) (w : uwidth) (v : Z)
  | AddULe (d : nat) (w : lewidth) (v : Z)
  | AddPrefixed (d : nat) (n : nat)
  | AddAsn1 (d : nat) (tag : Z)
  | AddUint64 (d : nat) (v tag : Z)
  | AddInt64 (d : nat) (v tag : Z)
  | AddOctetString (d : nat) (data : list Z)
  | AddBool (d : nat) (v : Z)
  | Flush (d : nat).

Definition op_depth (op : cbb_op) : nat :=
  match op with
  | AddBytes d _ | AddZeros d _ | AddU d _ _ | AddULe d _ _ | AddPrefixed d _ | AddAsn1 d _
  | AddUint64 d _ _ | AddInt64 d _ _ | AddOctetString d _ | AddBool d _ | Flush d => d
  end.

Definition uwidth_bytes (w : uwidth) : nat :=
  match w with W8 => 1 | W16 => 2 | W24 => 3 | W32 => 4 | W64 => 8 end.
Definition lewidth_bytes (w : lewidth) : nat := match w with LE16 => 2 | LE32 => 4 | LE64 => 8 end.

(** The C type of each argument: [CBB_add_u24] takes a [uint32_t]. *)
Definition uwidth_max (w : uwidth) : Z :=
  match w with W24 => 2 ^ 32 | _ => 256 ^ Z.of_nat (uwidth_bytes w) end.

Definition op_args_ok (op : cbb_op) : Prop :=
  match op with
  | AddBytes _ data | AddOctetString _ data => zlen data < 2 ^ 64
  | AddZeros _ n => 0 <= n < 2 ^ 64
  | AddU _ w v => 0 <= v < uwidth_max w
  | AddULe _ w v => 0 <= v < 256 ^ Z.of_nat (lewidth_bytes w)
  | AddPrefixed _ n => (1 <= n <= 3)%nat
  | AddAsn1 _ tag => 0 <= tag < 2 ^ 32
  | AddUint64 _ v tag => 0 <= v < 2 ^ 64 /\ 0 <= tag < 2 ^ 32
  | AddInt64 _ v tag => - 2 ^ 63 <= v < 2 ^ 63 /\ 0 <= tag < 2 ^ 32
  | AddBool _ _ | Flush _ => True
  end.

Definition op_spec (op : cbb_op) (B : builder) : option builder :=
  match op with
  | AddBytes d data => b_add d data B
  | AddZeros d n => b_add d (zrep n 0) B
  | AddU d w v => if v <? 256 ^ Z.of_nat (uwidth_bytes w) then b_add d (be_enc (uwidth_bytes w) v) B else None
  | AddULe d w v => b_add d (rev (be_enc (lewidth_bytes w) v)) B
  | AddPrefixed d n => B ← b_flush d B; Some (b_child (PLen n) B)
  | AddAsn1 d tag => B ← b_add d (asn1_tag_octets tag) B; Some (b_child PAsn1 B)
  | AddUint64 d v tag | AddInt64 d v tag => b_add d (asn1_tlv tag (int_octets v)) B
  | AddOctetString d data =>
      if zlen data <=? 0xfffffffe then b_add d (asn1_tlv CBS_ASN1_OCTETSTRING data) B else None
  | AddBool d v => b_add d (asn1_tlv CBS_ASN1_BOOLEAN [if v =? 0 then 0 else 0xff]) B
  | Flush d => b_flush d B
  end.

(** An upper bound on what a call adds to the buffer. *)
Definition op_cost (op : cbb_op) : Z :=
  match op with
  | AddBytes _ data | AddOctetString _ data => 16 + zlen data
  | AddZeros _ n => n
  | AddU _ w _ => Z.of_nat (uwidth_bytes w)
  | AddULe _ w _ => Z.of_nat (lewidth_bytes w)
  | AddPrefixed _ n => Z.of_nat n + 4
  | Flush _ => 0
  | _ => 32
  end.

Section Programs.
  Context `{Allocator}.

Definition forget {A} (m : ST CBB A) : ST CBB unit := m ;;; st_ret tt.

Definition exec (op : cbb_op) : ST CBB unit :=
  match op with
  | AddBytes d data => CBB_add_bytes d data
  | AddZeros d n => CBB_add_zeros d n
  | AddU d W8 v => CBB_add_u8 d v
  | AddU d W16 v => CBB_add_u16 d v
  | AddU d W24 v => CBB_add_u24 d v
  | AddU d W32 v => CBB_add_u32 d v
  | AddU d W64 v => CBB_add_u64 d v
  | AddULe d LE16 v => CBB_add_u16le d v
  | AddULe d LE32 v => CBB_add_u32le d v
  | AddULe d LE64 v => CBB_add_u64le d v
  | AddPrefixed d 1 => forget (CBB_add_u8_length_prefixed d)
  | AddPrefixed d 2 => forget (CBB_add_u16_length_prefixed d)
  | AddPrefixed d _ => forget (CBB_add_u24_length_prefixed d)
  | AddAsn1 d tag => forget (CBB_add_asn1 d tag)
  | AddUint64 d v tag => CBB_add_asn1_uint64_with_tag d v tag
  | AddInt64 d v tag => CBB_add_asn1_int64_with_tag d v tag
  | AddOctetString d data => CBB_add_asn1_octet_string d data
  | AddBool d v => CBB_add_asn1_bool d v
  | Flush d => CBB_flush d
  end.

Fixpoint run (ops : list cbb_op) : ST CBB unit :=
  match ops with
  | [] => st_ret tt
  | op :: ops => exec op ;;; run ops
  end.

Fixpoint run_spec (ops : list cbb_op) (B : builder) : option builder :=
  match ops with
  | [] => Some B
  | op :: ops => B ← op_spec op B; run_spec ops B
  end.

(** Every call is on a [CBB] that is open when it is made. *)
Fixpoint run_ok (ops : list cbb_op) (B : builder) : Prop :=
  match ops with
  | [] => True
  | op :: ops => (op_depth op <= length (b_open B))%nat /\ op_args_ok op /\
      match op_spec op B with Some B => run_ok ops B | None => True end
  end.

Definition run_cost (ops : list cbb_op) : Z := fold_right (fun op c => op_cost op + c) 0 ops.

(** What [CBB_finish] returns. *)
Definition finished (B : builder) : option (list Z) := B ← b_flush 0 B; Some (b_root B).

Lemma forget_refines {A} c (v : A) s cbb B m :
  refines c v s cbb B (m cbb) -> refines c tt s cbb B (forget m cbb).
Proof.
  unfold forget, st_bind; destruct (m cbb) as [[a|] cbb']; [|auto].
  intros (_ & Hr & Hs); split; auto.
Qed.

Lemma AddU_refines d n v cbb B :
  represents cbb B -> (d <= length (b_open B))%nat -> (n <= 8)%nat -> 0 <= v ->
  refines (Z.of_nat n) tt (if v <? 256 ^ Z.of_nat n then b_add d (be_enc n v) B else None) cbb B
    (cbb_add_u d v (Z.of_nat n) cbb).
Proof.
  intros HR Hd Hn Hv; destruct (Z.ltb_spec v (256 ^ Z.of_nat n)).
  - rewrite <- (Nat2Z.id n) at 2; apply cbb_add_u_spec; auto; lia.
  - destruct (cbb_add_u_overflow d v (Z.of_nat n) cbb B) as [Hr Hf]; auto; [lia|].
    destruct (cbb_add_u d v (Z.of_nat n) cbb) as [r cbb']; cbn in Hr, Hf; subst r.
    split; auto.
Qed.

Lemma swap_refines d n v v' cbb B :
  represents cbb B -> (d <= length (b_open B))%nat -> (n <= 8)%nat -> 0 <= v < 256 ^ Z.of_nat n ->
  v' = be_val (rev (be_enc n v)) ->
  refines (Z.of_nat n) tt (b_add d (rev (be_enc n v)) B) cbb B (cbb_add_u d v' (Z.of_nat n) cbb).
Proof.
  intros HR Hd Hn Hv ->; set (l := rev (be_enc n v)).
  assert (bytes l) as Hb by apply Forall_rev, bytes_be_enc.
  assert (length l = n) as Hl by (unfold l; now rewrite length_rev, length_be_enc).
  pose proof (AddU_refines d n (be_val l) cbb B HR Hd Hn (be_val_nonneg l Hb)) as Hs.
  pose proof (be_val_bound l Hb) as Hu; unfold zlen in Hu; rewrite Hl in Hu.
  rewrite (proj2 (Z.ltb_lt _ _)) in Hs by auto.
  replace (be_enc n (be_val l)) with l in Hs; [exact Hs|].
  rewrite <- Hl at 1; symmetry; now apply be_enc_be_val.
Qed.

(** Each call implements its transition. *)
Lemma exec_refines op cbb B :
  represents cbb B -> (op_depth op <= length (b_open B))%nat -> op_args_ok op ->
  refines (op_cost op) tt (op_spec op B) cbb B (exec op cbb).
Proof.
  intros HR Hd Ha; destruct op as [d data|d n|d w v|d w v|d n|d tag|d v tag|d v tag|d data|d v|d];
    cbn [op_depth op_args_ok op_spec op_cost] in *.
  - apply (refines_cost (zlen data)); [lia|]; now apply CBB_add_bytes_spec.
  - now apply CBB_add_zeros_spec.
  - pose proof (AddU_refines d (uwidth_bytes w) v cbb B HR Hd) as Hs.
    destruct w; apply Hs; cbn; lia.
  - assert (be_val (be_enc (lewidth_bytes w) v) = v) as Ev by (rewrite be_val_be_enc; now apply Z.mod_small).
    pose proof (fun v' => swap_refines d (lewidth_bytes w) v v' cbb B HR Hd) as Hs.
    destruct w; apply Hs; auto; try (cbn; lia); rewrite <- Ev at 1.
    + apply bswap2_rev; [apply bytes_be_enc|apply length_be_enc].
    + apply bswap4_rev; [apply bytes_be_enc|apply length_be_enc].
    + apply bswap8_rev; [apply bytes_be_enc|apply length_be_enc].
  - pose proof (cbb_add_length_prefixed_spec d n cbb B HR Hd ltac:(lia)) as Hs.
    destruct n as [|[|[|[|n]]]]; try lia; apply (forget_refines _ (S d)), Hs.
  - apply (refines_cost 16); [lia|]; apply (forget_refines _ (S d)); now apply CBB_add_asn1_spec.
  - now apply CBB_add_asn1_uint64_spec.
  - now apply CBB_add_asn1_int64_spec.
  - now apply CBB_add_asn1_octet_string_spec.
  - apply (refines_cost 17); [lia|]; now apply CBB_add_asn1_bool_spec.
  - now apply CBB_flush_spec.
Qed.

Lemma op_cost_nonneg op : op_args_ok op -> 0 <= op_cost op.
Proof. destruct op; cbn; intros; zl_pose; try lia. Qed.

(** A program implements the composition of its transitions. *)
Lemma run_refines ops cbb B :
  represents cbb B -> run_ok ops B -> Forall op_args_ok ops ->
  refines (run_cost ops) tt (run_spec ops B) cbb B (run ops cbb).
Proof.
  revert cbb B; induction ops as [|op ops IH]; intros cbb B HR Hok Hargs.
  - cbn; split; [auto|split; [auto|exists B; repeat split; auto; lia || apply HR]].
  - inversion_clear Hargs as [|? ? Ha Hargs']; destruct Hok as (Hd & _ & Hok).
    cbn [run run_spec run_cost fold_right]; eapply refines_bind; [|now apply exec_refines|].
    + clear -Hargs'; induction Hargs' as [|op ops Ho _ IH]; cbn; [lia|].
      pose proof (op_cost_nonneg op Ho); unfold run_cost in IH; lia.
    + intros cbb' B' E HR'; rewrite E in Hok; now apply IH.
Qed.

Lemma finish_spec cbb B : represents cbb B ->
  match CBB_finish cbb with
  | (Some out, _) => finished B = Some out
  | (None, cbb') => failed cbb' /\
      (finished B = None \/ (growable (cbb_base cbb) -> 2 ^ 64 <= phi cbb B))
  end.
Proof.
  intros HR; unfold CBB_finish, st_bind; pose proof (CBB_flush_spec 0 cbb B HR ltac:(lia)) as Hf.
  unfold finished; destruct (CBB_flush 0 cbb) as [[[]|] cbb1]; cbn in Hf |- *.
  - destruct Hf as (_ & _ & B1 & E & [(_ & _ & Hl & junk & Hb) _] & _); rewrite E; cbn.
    assert (b_open B1 = []) as Eo.
    { apply b_flush_open in E; [|lia]; now destruct (b_open B1). }
    rewrite Eo, app_nil_r in Hl, Hb; now rewrite Hb, <- Hl, ztake_app.
  - destruct Hf as (Hx & [-> |Hg]); split; auto; right; intros G; specialize (Hg G); lia.
Qed.

(** A new [CBB] is an empty builder. *)
Definition empty_builder : builder := {| b_root := []; b_open := [] |}.

Lemma init_represents b n r : zlen b = n -> n < 2 ^ 64 -> represents (cbb_init b n r) empty_builder.
Proof.
  intros Hb Hn; pose proof (zlen_nonneg b); split; [|exact I].
  repeat split; cbn; try lia; eauto.
Qed.

Lemma CBB_init_represents n cbb : 0 <= n < 2 ^ 64 -> CBB_init n = Some cbb ->
  represents cbb empty_builder /\ phi cbb empty_builder = 0 /\ can_resize (cbb_base cbb) = true.
Proof.
  intros Hn; unfold CBB_init, OPENSSL_malloc; destruct (malloc_ok n) eqn:Em.
  - rewrite bool_decide_eq_false_2, andb_false_r by discriminate; intros [= <-]; cbn [default].
    split; [|auto]; apply init_represents; [apply zlen_fresh|]; lia.
  - case_if; [discriminate|]; intros [= <-]; rewrite bool_decide_eq_true_2, andb_true_r in * by auto.
    bool_facts; assert (n = 0) as -> by lia; split; [|auto]; now apply init_represents.
Qed.

Lemma CBB_init_ok n : malloc_ok n = true -> exists cbb, CBB_init n = Some cbb.
Proof. intros E; unfold CBB_init, OPENSSL_malloc; rewrite E, andb_false_r; eauto. Qed.

(** Finishing a computation that implements a transition of the empty builder:
    what it returns is right, and it returns when memory does not run out. *)
Lemma refines_finish (m : ST CBB unit) cost spec cbb :
  represents cbb empty_builder -> phi cbb empty_builder = 0 -> refines cost tt spec cbb empty_builder (m cbb) ->
  (forall out, fst ((m ;;; CBB_finish) cbb) = Some out -> (spec ≫= finished) = Some out) /\
  (forall out, growable (cbb_base cbb) -> cost < 2 ^ 64 -> (spec ≫= finished) = Some out ->
     fst ((m ;;; CBB_finish) cbb) = Some out).
Proof.
  intros HR Hphi Hrun; unfold st_bind; destruct (m cbb) as [[[]|] cbb1].
  - destruct Hrun as (_ & Hres & B1 & -> & HR1 & Hphi1); cbn [mbind option_bind].
    pose proof (finish_spec cbb1 B1 HR1) as Hfin; destruct (CBB_finish cbb1) as [[o|] cbb2]; cbn [fst].
    + rewrite Hfin; split; auto.
    + split; [discriminate|]; intros out Hg Hc E; destruct Hfin as (_ & [?|Hbig]); [congruence|].
      assert (growable (cbb_base cbb1)) as Hg1 by (destruct Hg; split; congruence).
      specialize (Hbig Hg1); lia.
  - cbn [fst]; split; [discriminate|]; intros out Hg Hc E.
    destruct Hrun as (_ & [-> |Hbig]); [discriminate|specialize (Hbig Hg); lia].
Qed.

Lemma run_finish ops B out c : (forall n, malloc_ok n = true) -> 0 <= c < 2 ^ 64 ->
  Forall op_args_ok ops -> run_ok ops empty_builder -> run_cost ops < 2 ^ 64 ->
  run_spec ops empty_builder = Some B -> finished B = Some out ->
  fst ((run ops ;;; CBB_finish) (cbb_init (fresh c) c true)) = Some out.
Proof.
  intros Hm Hc Ha Hok Hcost Hr Hf.
  assert (represents (cbb_init (fresh c) c true) empty_builder) as HR by
    (apply init_represents; [apply zlen_fresh; lia|lia]).
  apply (refines_finish _ _ _ _ HR eq_refl (run_refines ops _ _ HR Hok Ha)); [split; auto|exact Hcost|].
  rewrite Hr; exact Hf.
Qed.

(** Calls on a failed [CBB]: nothing is written and nothing succeeds. *)
Lemma flush_failed d cbb : failed cbb -> CBB_flush d cbb = (None, cbb).
Proof. intros [_ He]; unfold CBB_flush; rewrite He; now case_if. Qed.

Lemma after_flush_failed {A} d (k : unit -> ST CBB A) cbb : failed cbb ->
  st_bind (CBB_flush d) k cbb = (None, cbb).
Proof. intros; unfold st_bind; now rewrite flush_failed. Qed.

Lemma add_space_failed {A} d n (k : Z -> ST CBB A) cbb : failed cbb ->
  st_bind (CBB_add_space d n) k cbb = (None, cbb).
Proof. intros; unfold CBB_add_space, st_bind; now rewrite flush_failed. Qed.

Lemma or_error_failed {A} d (m : ST CBB A) cbb : m cbb = (None, cbb) ->
  or_error d m cbb = (None, cbb_on_error d cbb).
Proof. intros Hm; unfold or_error; now rewrite Hm. Qed.

Lemma bind_or_error_failed {A C} d (m : ST CBB A) (k : A -> ST CBB C) cbb : m cbb = (None, cbb) ->
  st_bind (or_error d m) k cbb = (None, cbb_on_error d cbb).
Proof. intros Hm; unfold st_bind; now rewrite or_error_failed. Qed.

Lemma exec_failed op cbb : failed cbb ->
  fst (exec op cbb) = None /\ failed (snd (exec op cbb)).
Proof.
  intros Hf.
  assert (forall d tag A (k : nat -> ST CBB A), st_bind (CBB_add_asn1 d tag) k cbb = (None, cbb)) as Ha.
  { intros; unfold st_bind, CBB_add_asn1; now rewrite after_flush_failed. }
  destruct op as [d data|d n|d [] v|d [] v|d [|[|[|n]]]|d tag|d v tag|d v tag|d data|d v|d]; cbn [exec];
    unfold forget, CBB_add_u8_length_prefixed, CBB_add_u16_length_prefixed, CBB_add_u24_length_prefixed,
      CBB_add_u8, CBB_add_u16le, CBB_add_u16, CBB_add_u24, CBB_add_u32le, CBB_add_u32, CBB_add_u64le,
      CBB_add_u64, cbb_add_u, CBB_add_bytes, CBB_add_zeros;
    rewrite ?Ha, ?add_space_failed, ?flush_failed by auto; try (cbn; auto; fail);
    try (unfold st_bind, cbb_add_length_prefixed; rewrite after_flush_failed by auto; cbn; auto; fail).
  all: unfold CBB_add_asn1_int64_with_tag, CBB_add_asn1_uint64_with_tag, CBB_add_asn1_octet_string,
    CBB_add_asn1_bool; try destruct (0 <=? v); cbv zeta;
    rewrite ?bind_or_error_failed, ?or_error_failed by apply Ha;
    cbn; (split; [auto|split; [apply Hf|auto]]).
Qed.

Fixpoint exec_all (ops : list cbb_op) (cbb : CBB) : CBB :=
  match ops with
  | [] => cbb
  | op :: ops => exec_all ops (snd (exec op cbb))
  end.

Lemma exec_all_failed ops cbb : failed cbb -> failed (exec_all ops cbb).
Proof. revert cbb; induction ops; intros cbb Hf; cbn; [auto|]. apply IHops, exec_failed, Hf. Qed.


(** C10. When memory does not run out, a sequence of CBB calls whose lengths
    fit their prefixes succeeds, and [CBB_finish] returns the bytes of the
    abstract builder with all children closed. *)
Theorem CBB_program_complete (c : Z) (ops : list cbb_op) (B : builder) (out : list Z) :
  (forall n, malloc_ok n = true) -> 0 <= c < 2 ^ 64 -> Forall op_args_ok ops ->
  run_ok ops empty_builder -> run_cost ops < 2 ^ 64 ->
  run_spec ops empty_builder = Some B -> finished B = Some out ->
  exists cbb, CBB_init c = Some cbb /\ fst ((run ops ;;; CBB_finish) cbb) = Some out.
Proof.
  intros Hm Hc Ha Hok Hcost Hr Hf; unfold CBB_init, OPENSSL_malloc; rewrite Hm, andb_false_r.
  eexists; split; [reflexivity|]; now apply (run_finish ops B out).
Qed.

(** A failed CBB call is never lost: whatever calls follow it, and even
    if their results are ignored, [CBB_finish] returns zero. *)
Theorem CBB_error_latch (op : cbb_op) (ops : list cbb_op) (cbb : CBB) (B : builder) :
  represents cbb B -> (op_depth op <= length (b_open B))%nat -> op_args_ok op ->
  fst (exec op cbb) = None ->
  fst (CBB_finish (exec_all ops (snd (exec op cbb)))) = None.
Proof.
  intros HR Hd Ha Hf; pose proof (exec_refines op cbb B HR Hd Ha) as Hr.
  destruct (exec op cbb) as [r cbb']; cbn in Hf; subst r; destruct Hr as [Hx _]; cbn [snd].
  apply (exec_all_failed ops) in Hx; unfold CBB_finish; now rewrite after_flush_failed.
Qed.
End Programs.


Lemma CBB_program_complete_witness :
  let ops := [AddAsn1 0 0x20000010; AddUint64 1 200 CBS_ASN1_INTEGER] in
  exists cbb, CBB_init (H:=allocator_total) 0 = Some cbb /\
    fst ((run (H:=allocator_total) ops ;;; CBB_finish (H:=allocator_total)) cbb) = Some [0x30; 4; 2; 2; 0; 200].
Proof.
  cbv zeta; set (ops := [_; _]).
  apply (CBB_program_complete (H:=allocator_total) 0 ops
    {| b_root := [0x30]; b_open := [(PAsn1, [2; 2; 0; 200])] |} [0x30; 4; 2; 2; 0; 200]).
  - reflexivity.
  - lia.
  - repeat constructor; vm_compute; congruence.
  - vm_compute; repeat split; auto; congruence.
  - vm_compute; reflexivity.
  - vm_compute; reflexivity.
  - vm_compute; reflexivity.
Defined.

Lemma CBB_error_latch_witness :
  let cbb := cbb_init (zrep 2 0) 2 false in
  fst (exec (H:=allocator_total) (AddU 0 W24 5) cbb) = None /\
  fst (CBB_finish (H:=allocator_total)
    (exec_all (H:=allocator_total) [AddU 0 W8 1] (snd (exec (H:=allocator_total) (AddU 0 W24 5) cbb)))) = None.
Proof.
  assert (fst (exec (H:=allocator_total) (AddU 0 W24 5) (cbb_init (zrep 2 0) 2 false)) = None) as Hf by
    (vm_compute; reflexivity).
  split; [exact Hf|].
  apply (CBB_error_latch (H:=allocator_total) _ _ _ empty_builder).
  - apply init_represents; [reflexivity|lia].
  - cbn; lia.
  - cbn; lia.
  - exact Hf.
Defined.

(** * Written by a CBB, read by a CBS *)

(** The DER values with a writer and a reader. *)
Inductive der_val : Type :=
  | DUint (v : Z)
  | DInt (v : Z)
  | DOctets (bs : list Z)
  | DBool (b : bool).

Definition der_ok (x : der_val) : Prop :=
  match x with
  | DUint v => 0 <= v < 2 ^ 64
  | DInt v => - 2 ^ 63 <= v < 2 ^ 63
  | DOctets bs => bytes bs /\ zlen bs <= 0xfffffffe
  | DBool _ => True
  end.

Definition der_write (d : nat) (x : der_val) : cbb_op :=
  match x with
  | DUint v => AddUint64 d v CBS_ASN1_INTEGER
  | DInt v => AddInt64 d v CBS_ASN1_INTEGER
  | DOctets bs => AddOctetString d bs
  | DBool b => AddBool d (if b then 1 else 0)
  end.

(** Reads a value of the same kind as [x]. *)
Definition der_read (x : der_val) : ST CBS der_val :=
  match x with
  | DUint _ => let! v := CBS_get_asn1_uint64 in st_ret (DUint v)
  | DInt _ => let! v := CBS_get_asn1_int64 in st_ret (DInt v)
  | DOctets _ => let! bs := CBS_get_asn1 CBS_ASN1_OCTETSTRING in st_ret (DOctets bs)
  | DBool _ => let! v := CBS_get_asn1_bool in st_ret (DBool (negb (v =? 0)))
  end.

Fixpoint der_read_all (xs : list der_val) : ST CBS (list der_val) :=
  match xs with
  | [] => st_ret []
  | x :: xs => let! y := der_read x in let! ys := der_read_all xs in st_ret (y :: ys)
  end.

Definition der_bytes (x : der_val) : list Z :=
  match x with
  | DUint v | DInt v => asn1_tlv CBS_ASN1_INTEGER (int_octets v)
  | DOctets bs => asn1_tlv CBS_ASN1_OCTETSTRING bs
  | DBool b => asn1_tlv CBS_ASN1_BOOLEAN [if b then 0xff else 0]
  end.

Lemma bytes_der x : der_ok x -> bytes (der_bytes x).
Proof.
  assert (0 <= CBS_ASN1_INTEGER < 2 ^ 32 /\ 0 <= CBS_ASN1_OCTETSTRING < 2 ^ 32 /\
          0 <= CBS_ASN1_BOOLEAN < 2 ^ 32) as (? & ? & ?) by (vm_compute; intuition congruence).
  destruct x as [v|v|bs|b]; cbn [der_ok der_bytes]; intros Hx; apply bytes_asn1_tlv; auto.
  - apply bytes_int_octets.
  - apply bytes_int_octets.
  - apply Hx.
  - destruct b; repeat constructor; unfold byte; lia.
Qed.

Lemma der_read_bytes x rest : der_ok x -> bytes rest ->
  der_read x (der_bytes x ++ rest) = (Some x, rest).
Proof.
  intros Hx Hr; pose proof (bytes_der x Hx) as Hb.
  assert (bytes (der_bytes x ++ rest)) as Hb' by now apply bytes_app.
  destruct x as [v|v|bs|b]; cbn [der_read der_bytes der_ok] in *; unfold st_bind.
  - now rewrite (proj2 (get_asn1_uint64_spec _ rest v Hb')) by auto.
  - now rewrite (proj2 (get_asn1_int64_spec _ rest v Hb')) by auto.
  - rewrite get_asn1_tlv; [reflexivity| | |apply Hx|auto]; [|lia].
    repeat split; try (vm_compute; congruence).
  - unfold CBS_get_asn1_bool, st_bind.
    rewrite get_asn1_tlv; [|repeat split; vm_compute; congruence|reflexivity| |auto].
    + now destruct b.
    + destruct b; repeat constructor; unfold byte; lia.
Qed.

Lemma der_read_all_bytes xs : Forall der_ok xs ->
  der_read_all xs (concat (map der_bytes xs)) = (Some xs, []).
Proof.
  induction 1 as [|x xs Hx Hxs IH]; cbn [der_read_all map concat]; [reflexivity|].
  assert (bytes (concat (map der_bytes xs))).
  { clear -Hxs; induction Hxs; cbn; [constructor|]; apply bytes_app; split; auto using bytes_der. }
  unfold st_bind; now rewrite der_read_bytes, IH by auto.
Qed.

Section RoundTrip.
  Context `{Allocator}.

Lemma write_spec d x B : der_ok x -> op_spec (der_write d x) B = b_add d (der_bytes x) B.
Proof.
  destruct x as [v|v|bs|[]]; cbn; intros Hx; auto.
  now rewrite (proj2 (Z.leb_le _ _)) by apply Hx.
Qed.

Lemma run_spec_writes d xs B : Forall der_ok xs -> length (b_open B) = d ->
  run_spec (map (der_write d) xs) B = Some (b_append B (concat (map der_bytes xs))).
Proof.
  intros Hxs; revert B; induction Hxs as [|x xs Hx Hxs IH]; intros B Ho.
  - cbn; now rewrite b_append_nil.
  - cbn [map run_spec concat]; rewrite write_spec by auto; unfold b_add.
    rewrite b_flush_top by auto; cbn.
    rewrite IH by now rewrite b_append_open.
    now rewrite b_append_app.
Qed.

Lemma args_ok_writes d xs : Forall der_ok xs -> Forall op_args_ok (map (der_write d) xs).
Proof.
  induction 1 as [|x xs Hx _ IH]; cbn; constructor; auto.
  destruct x as [v|v|bs|[]]; cbn in *; auto; unfold CBS_ASN1_INTEGER; lia.
Qed.

Lemma run_ok_writes d xs B : Forall der_ok xs -> length (b_open B) = d -> run_ok (map (der_write d) xs) B.
Proof.
  intros Hxs; revert B; induction Hxs as [|x xs Hx Hxs IH]; intros B Ho; cbn [map run_ok]; [exact I|].
  split; [destruct x; cbn; lia|split].
  - pose proof (args_ok_writes d [x] (Forall_cons_2 _ _ _ Hx (Forall_nil_2 _))) as Ha.
    now inversion Ha.
  - rewrite write_spec by auto; destruct (b_add d (der_bytes x) B) as [B'|] eqn:E; [|exact I].
    apply IH; eapply b_add_open; eauto; lia.
Qed.

Definition CBS_ASN1_SEQUENCE : Z := 0x20000010.

(** C1. Values written into a SEQUENCE by the CBB writers and finished are
    read back, value by value and with nothing left over, by the CBS readers. *)
Theorem DER_write_read_roundtrip (xs : list der_val) :
  (forall n, malloc_ok n = true) -> Forall der_ok xs ->
  zlen (concat (map der_bytes xs)) <= 0xfffffffe ->
  run_cost (AddAsn1 0 CBS_ASN1_SEQUENCE :: map (der_write 1) xs) < 2 ^ 64 ->
  exists cbb out body,
    CBB_init 0 = Some cbb /\
    fst ((run (AddAsn1 0 CBS_ASN1_SEQUENCE :: map (der_write 1) xs) ;;; CBB_finish) cbb) = Some out /\
    CBS_get_asn1 CBS_ASN1_SEQUENCE out = (Some body, []) /\
    der_read_all xs body = (Some xs, []).
Proof.
  intros Hm Hxs Hlen Hcost; set (body := concat (map der_bytes xs)) in *.
  assert (bytes body) as Hbb.
  { unfold body; clear -Hxs; induction Hxs; cbn; [constructor|]; apply bytes_app; split; auto using bytes_der. }
  exists (cbb_init (fresh 0) 0 true), (asn1_tlv CBS_ASN1_SEQUENCE body), body.
  split; [unfold CBB_init, OPENSSL_malloc; now rewrite Hm|split; [|split; [|now apply der_read_all_bytes]]].
  - apply (run_finish _ {| b_root := asn1_tag_octets CBS_ASN1_SEQUENCE; b_open := [(PAsn1, body)] |}); auto.
    + lia.
    + constructor; [vm_compute; split; congruence|now apply args_ok_writes].
    + cbn [run_ok]; split; [cbn; lia|split; [vm_compute; split; congruence|]].
      apply run_ok_writes; auto.
    + cbn [run_spec]; exact (run_spec_writes 1 xs (b_child PAsn1 (b_append empty_builder _)) Hxs eq_refl).
    + unfold finished, b_flush; cbn [b_open drop collapse b_root take].
      rewrite app_nil_r; cbn [prefix_octets]; now rewrite (proj2 (Z.leb_le _ _)) by auto.
  - rewrite <- (app_nil_r (asn1_tlv _ _)); apply get_asn1_tlv; [|lia|auto|constructor].
    repeat split; vm_compute; congruence.
Qed.
End RoundTrip.

Lemma DER_write_read_roundtrip_witness :
  let xs := [DInt (-129); DUint 255; DOctets [1; 2]; DBool true] in
  exists cbb out body,
    CBB_init (H:=allocator_total) 0 = Some cbb /\
    fst ((run (H:=allocator_total) (AddAsn1 0 CBS_ASN1_SEQUENCE :: map (der_write 1) xs) ;;;
          CBB_finish (H:=allocator_total)) cbb) = Some out /\
    CBS_get_asn1 CBS_ASN1_SEQUENCE out = (Some body, []) /\
    der_read_all xs body = (Some xs, []).
Proof.
  apply (DER_write_read_roundtrip (H:=allocator_total)).
  - reflexivity.
  - repeat constructor; cbn; unfold byte; try lia; vm_compute; congruence.
  - vm_compute; congruence.
  - vm_compute; reflexivity.
Defined.
