(* ===== verification/CbbSetOf.v ===== *)
(** The DER order of a SET OF (CBB_flush_asn1_set_of of crypto/bytestring/cbb.c):
    the elements that were written are parsed back, sorted by their octets and
    stored in the new order.

    [qsort] is that of the C library. Two elements for which the comparison is zero
    are equal, so the algorithm does not matter; it is an insertion sort here. *)

From Stdlib Require Import Sorted.
From S2P Require Import Prelude Mem Cbs Asn1 Der Cbb CbbSpec.

(** [OPENSSL_memcmp] on ranges of the same length. *)
Fixpoint memcmp (a b : list Z) : Z :=
  match a, b with
  | c :: a, d :: b => if c <? d then -1 else if d <? c then 1 else memcmp a b
  | _, _ => 0
  end.

Definition compare_set_of_element (a b : CBS) : Z :=
  let a_len := CBS_len a in
  let b_len := CBS_len b in
  let min_len := if a_len <? b_len then a_len else b_len in
  let ret := memcmp (ztake min_len a) (ztake min_len b) in
  if negb (ret =? 0) then ret else if a_len =? b_len then 0 else if a_len <? b_len then -1 else 1.

Fixpoint sort_in {A} (cmp : A -> A -> Z) (x : A) (l : list A) : list A :=
  match l with [] => [x] | y :: l' => if cmp x y <=? 0 then x :: l else y :: sort_in cmp x l' end.
Fixpoint qsort {A} (cmp : A -> A -> Z) (l : list A) : list A := match l with [] => [] | x :: l => sort_in cmp x (qsort cmp l) end.

Definition sizeof_CBS : Z := 16.

(** The first loop, with its count of children. *)
Fixpoint count_children (fuel : nat) (num_children : Z) (cbs : CBS) : option Z :=
  if CBS_len cbs =? 0 then Some num_children
  else
    match fuel with
    | O => None
    | S fuel => match CBS_get_any_asn1_element cbs with (None, _) => None | (Some _, cbs) => count_children fuel (num_children + 1) cbs end
    end.

Fixpoint get_children (n : nat) (cbs : CBS) : option (list CBS) :=
  match n with
  | O => Some []
  | S n => match CBS_get_any_asn1_element cbs with (None, _) => None | (Some e, cbs) => l ← get_children n cbs; Some (el_out e :: l) end
  end.

(** The last loop: a store for each child. *)
Fixpoint put_children (offset : Z) (children : list CBS) (out : list Z) : list Z :=
  match children with [] => out | c :: children => put_children (offset + CBS_len c) children (zsplice out offset c) end.

Section SetOf.
  Context `{Allocator}.

Definition CBB_flush_asn1_set_of (d : nat) : ST CBB unit := fun cbb =>
  match CBB_flush d cbb with
  | (None, cbb) => (None, cbb)
  | (Some _, cbb) =>
      match count_children (length (CBB_data d cbb)) 0 (CBB_data d cbb) with
      | None => (None, cbb)
      | Some num_children =>
          if num_children <? 2 then (Some tt, cbb)
          else
            match OPENSSL_memdup (CBB_data d cbb) (CBB_len d cbb), OPENSSL_calloc num_children sizeof_CBS with
            | Some buf_, Some _ =>
                match get_children (Z.to_nat num_children) buf_ with
                | None => (None, cbb)
                | Some children =>
                    let children := qsort compare_set_of_element children in
                    (Some tt, {| cbb_base := set_buf (cbb_base cbb) (put_children (CBB_start d cbb) children (buf (cbb_base cbb))); cbb_children := cbb_children cbb |})
                end
            | _, _ => (None, cbb)
            end
      end
  end.
End SetOf.

(** * The order *)

Lemma memcmp_sym a : forall b, memcmp b a = - memcmp a b.
Proof. induction a as [|c a IH]; intros [|d b]; cbn [memcmp]; try reflexivity; rewrite IH; repeat case_if; bool_facts; lia. Qed.

Lemma compare_sym a b : compare_set_of_element b a = - compare_set_of_element a b.
Proof.
  unfold compare_set_of_element; set (n := if CBS_len a <? CBS_len b then _ else _).
  assert ((if CBS_len b <? CBS_len a then CBS_len b else CBS_len a) = n) as -> by (unfold n; repeat case_if; bool_facts; lia).
  rewrite (memcmp_sym (ztake n a)); destruct (Z.eqb_spec (memcmp (ztake n a) (ztake n b)) 0) as [->|Hne]; cbn [Z.opp Z.eqb negb].
  - repeat case_if; bool_facts; lia.
  - rewrite (proj2 (Z.eqb_neq _ _)) by lia; reflexivity.
Qed.

Lemma memcmp_eq a : forall b, length a = length b -> memcmp a b = 0 -> a = b.
Proof. induction a as [|c a IH]; intros [|d b] Hl; cbn [memcmp length] in *; try discriminate; [reflexivity|]; repeat case_if; try discriminate; bool_facts; intros E; f_equal; [lia|apply IH; lia]. Qed.

(** Elements that compare as equal are equal. *)
Lemma compare_eq a b : compare_set_of_element a b = 0 -> a = b.
Proof.
  unfold compare_set_of_element, CBS_len; set (n := if zlen a <? zlen b then _ else _).
  destruct (Z.eqb_spec (memcmp (ztake n a) (ztake n b)) 0) as [E|Hne]; cbn [negb]; [|intros E; lia].
  destruct (Z.eqb_spec (zlen a) (zlen b)) as [El|_]; [|case_if; discriminate]; intros _; unfold n in E; rewrite El, Z.ltb_irrefl, !ztake_all in E by lia.
  apply memcmp_eq; [unfold zlen in El; lia|exact E].
Qed.

Lemma sort_in_perm {A} cmp (x : A) l : Permutation (sort_in cmp x l) (x :: l).
Proof. induction l as [|y l IH]; cbn [sort_in]; [reflexivity|]; case_if; [reflexivity|]; rewrite IH; apply Permutation_swap. Qed.

Lemma qsort_perm {A} cmp (l : list A) : Permutation (qsort cmp l) l.
Proof. induction l as [|x l IH]; cbn [qsort]; [reflexivity|]; rewrite sort_in_perm; now constructor. Qed.

(** * Parsing back and storing *)

(** One DER element. *)
Definition der_element (e : list Z) : Prop := exists tag body, valid_tag tag /\ zlen body < 2 ^ 32 /\ e = asn1_tlv tag body.

Lemma der_element_read e rest : der_element e -> exists x, CBS_get_any_asn1_element (e ++ rest) = (Some x, rest) /\ el_out x = e /\ 0 < zlen e.
Proof.
  intros (tag & body & Ht & Hb & ->); unfold CBS_get_any_asn1_element; rewrite element_of_tlv by assumption; eexists; split; [reflexivity|]; split; [reflexivity|].
  rewrite zlen_asn1_tlv; pose proof (zlen_nonneg body); pose proof (tlv_header_len_bounds tag (zlen body)); lia.
Qed.

(** No DER element continues another. *)
Lemma der_element_prefix a b rest : der_element a -> der_element b -> b = a ++ rest -> a = b.
Proof.
  intros Ha Hb ->; destruct (der_element_read a rest Ha) as (x & E & _); destruct (der_element_read (a ++ rest) [] Hb) as (y & E' & _).
  rewrite app_nil_r, E in E'; injection E' as _ ->; symmetry; apply app_nil_r.
Qed.

(** * The order of X.690 *)

(** The octet at a place of an encoding; section 11.6 has the shorter encoding
    padded at its end with zero octets. *)
Definition octet (e : list Z) (i : nat) : Z := nth i e 0.

(** [a] may stand before [b]: at the first place where the padded encodings
    differ, if there is one, the octet of [a] is the smaller. *)
Definition x690_before (a b : list Z) : Prop :=
  forall i, (forall j, (j < i)%nat -> octet a j = octet b j) -> octet a i <= octet b i.

Lemma x690_before_trans a b c : x690_before a b -> x690_before b c -> x690_before a c.
Proof.
  intros Hab Hbc i Hi.
  assert (forall n, (n <= i)%nat -> forall j, (j < n)%nat -> octet a j = octet b j /\ octet b j = octet c j) as Heq.
  { induction n as [|n IH]; intros Hn j Hj; [lia|]; destruct (Nat.eq_dec j n) as [->|]; [|apply IH; lia].
    pose proof (Hab n (fun j Hj => proj1 (IH ltac:(lia) j Hj))); pose proof (Hbc n (fun j Hj => proj2 (IH ltac:(lia) j Hj))); pose proof (Hi n ltac:(lia)); lia. }
  pose proof (Hab i (fun j Hj => proj1 (Heq i (le_n i) j Hj))); pose proof (Hbc i (fun j Hj => proj2 (Heq i (le_n i) j Hj))); lia.
Qed.

Lemma x690_before_refl a : x690_before a a.
Proof. intros i _; reflexivity. Qed.

Lemma x690_before_cons c d a b : c < d \/ c = d /\ x690_before a b -> x690_before (c :: a) (d :: b).
Proof.
  intros H [|i] Hi; [cbn; lia|]; pose proof (Hi 0%nat ltac:(lia)) as E; cbn in E; destruct H as [|[_ H]]; [lia|].
  apply (H i); intros j Hj; apply (Hi (S j)); lia.
Qed.

(** What the comparison says of two strings neither of which continues the
    other. *)
Lemma memcmp_before a : forall b n, (n <= length a)%nat -> (n <= length b)%nat -> memcmp (take n a) (take n b) < 0 -> x690_before a b.
Proof.
  induction a as [|c a IH]; intros [|d b] [|n] Ha Hb; cbn [take memcmp length] in *; try lia; intros H; apply x690_before_cons.
  destruct (Z.ltb_spec c d); [now left|]; destruct (Z.ltb_spec d c); [lia|]; right; split; [lia|]; apply (IH b n); [lia|lia|exact H].
Qed.

Lemma compare_before a b : der_element a -> der_element b -> compare_set_of_element a b <= 0 -> x690_before a b.
Proof.
  intros Ha Hb; unfold compare_set_of_element, CBS_len; set (n := if zlen a <? zlen b then _ else _).
  assert (0 <= n <= zlen a /\ n <= zlen b) as [Hn1 Hn2] by (unfold n; pose proof (zlen_nonneg a); pose proof (zlen_nonneg b); case_if; bool_facts; lia).
  destruct (Z.eqb_spec (memcmp (ztake n a) (ztake n b)) 0) as [E|Hne]; cbn [negb].
  - intros Hle; enough (a = b) as -> by apply x690_before_refl; apply memcmp_eq in E.
    2: { pose proof (zlen_ztake n a ltac:(lia)); pose proof (zlen_ztake n b ltac:(lia)); unfold zlen in *; lia. }
    apply (der_element_prefix a b (zdrop n b)); auto; rewrite <- (ztake_zdrop n b) at 1; f_equal; rewrite <- E; apply ztake_all.
    revert Hle; unfold n; repeat case_if; bool_facts; lia.
  - intros Hle; apply (memcmp_before a b (Z.to_nat n)); unfold zlen in *; [lia|lia|]; unfold ztake in *; lia.
Qed.

Lemma sort_in_der x l : der_element x -> Forall der_element l -> Sorted x690_before l -> Sorted x690_before (sort_in compare_set_of_element x l).
Proof.
  intros Hx Hl; induction 1 as [|y l Hs IH Hh]; cbn [sort_in]; [repeat constructor|]; apply Forall_cons_1 in Hl as [Hy Hl].
  destruct (Z.leb_spec (compare_set_of_element x y) 0) as [Hle|Hgt]; [repeat constructor; auto using compare_before|].
  pose proof (compare_sym x y); assert (x690_before y x) by (apply compare_before; auto; lia); specialize (IH Hl).
  constructor; [exact IH|]; destruct l as [|z l]; cbn [sort_in]; [now constructor|]; case_if; constructor; [assumption|now inversion Hh].
Qed.

Lemma qsort_der l : Forall der_element l -> StronglySorted x690_before (qsort compare_set_of_element l).
Proof.
  intros Hl; apply Sorted_StronglySorted; [intros a b c; apply x690_before_trans|]; induction Hl as [|x l Hx Hl IH]; cbn [qsort]; [constructor|].
  apply sort_in_der; [exact Hx| |exact IH]; now rewrite qsort_perm.
Qed.

Lemma count_children_spec els : Forall der_element els -> forall fuel n, (length (concat els) <= fuel)%nat -> count_children fuel n (concat els) = Some (n + zlen els).
Proof.
  induction 1 as [|e els He _ IH]; intros fuel n Hf; cbn [concat] in *; [destruct fuel; cbn; f_equal; change (zlen (@nil (list Z))) with 0; lia|].
  destruct (der_element_read e (concat els) He) as (x & E & _ & Hpos); rewrite length_app in Hf; destruct fuel as [|fuel]; [unfold zlen in Hpos; lia|].
  cbn [count_children]; unfold CBS_len; rewrite (proj2 (Z.eqb_neq _ _)) by (rewrite zlen_app; pose proof (zlen_nonneg (concat els)); lia).
  rewrite E, IH by (unfold zlen in Hpos; lia); f_equal; rewrite zlen_cons; lia.
Qed.

Lemma get_children_spec els : Forall der_element els -> get_children (length els) (concat els) = Some els.
Proof.
  induction 1 as [|e els He _ IH]; cbn [concat length get_children]; [reflexivity|]; destruct (der_element_read e (concat els) He) as (x & -> & Eo & _).
  rewrite IH; cbn [mbind option_bind]; now rewrite Eo.
Qed.

Lemma put_children_spec l : forall at_ out, 0 <= at_ -> at_ + zlen (concat l) <= zlen out -> put_children at_ l out = zsplice out at_ (concat l).
Proof.
  induction l as [|c l IH]; intros at_ out Ha Hl; cbn [put_children concat] in *.
  - unfold zsplice; change (zlen (@nil Z)) with 0; rewrite Z.add_0_r; cbn [app]; symmetry; apply ztake_zdrop.
  - rewrite zlen_app in Hl; pose proof (zlen_nonneg c); pose proof (zlen_nonneg (concat l)); unfold CBS_len; rewrite IH by (rewrite ?zlen_zsplice; lia).
    apply zsplice_zsplice; lia.
Qed.

Section Flush.
  Context `{Allocator}.

(** The builder with a child that holds [data]. *)
Definition with_child (p : prefix) (B : builder) (data : list Z) : builder := {| b_root := b_root B; b_open := b_open B ++ [(p, data)] |}.

Lemma with_child_append p B data : b_append (b_child p B) data = with_child p B data.
Proof.
  unfold b_append, b_child, with_child; cbn [b_root b_open]; destruct (b_open B ++ [(p, [])]) eqn:E; [now destruct (b_open B)|rewrite <- E, append_last_snoc; reflexivity].
Qed.

(** What comes before the data in the buffer. *)
Definition before (p : prefix) (B : builder) : list Z := b_content B ++ zrep (Z.of_nat (prefix_width p)) 0.

Lemma with_child_content p B data : b_root B ++ flat (b_open (with_child p B data)) = before p B ++ data.
Proof. cbn [with_child b_open]; rewrite flat_app; cbn [flat]; unfold before, b_content; now rewrite app_nil_r, !app_assoc. Qed.

Lemma last_child cbb p B data : represents cbb (with_child p B data) ->
  let d := S (length (b_open B)) in
  CBB_start d cbb = zlen (before p B) /\ CBB_len d cbb = zlen data /\ CBB_data d cbb = data /\
  exists junk, buf (cbb_base cbb) = (before p B ++ data) ++ junk.
Proof.
  intros [Hb Hm] d; cbn [with_child b_root] in Hb; rewrite with_child_content in Hb; pose proof Hb as (_ & _ & Hl & junk & Ej).
  cbn [with_child b_root b_open] in Hm; apply children_match_app in Hm as [_ Hm]; cbn [children_match] in Hm.
  destruct (drop (length (b_open B)) (cbb_children cbb)) as [|c l] eqn:Ed; [easy|]; destruct Hm as [Ec _].
  assert (nth_error (cbb_children cbb) (length (b_open B)) = Some c) as En.
  { pose proof (nth_error_skipn (length (b_open B)) (cbb_children cbb) 0) as X; rewrite Nat.add_0_r in X; rewrite <- X, Ed; reflexivity. }
  assert (CBB_start d cbb = zlen (before p B) /\ CBB_len d cbb = zlen data) as [E1 E2].
  { unfold d; cbn [CBB_start CBB_len]; rewrite En, <- Hl, Ec; cbn [offset pending_len_len]; unfold before, b_content; rewrite !zlen_app, zlen_zrep by lia; lia. }
  split; [exact E1|]; split; [exact E2|]; split; [|eauto]; unfold CBB_data; rewrite E1, E2, Ej, <- app_assoc, zdrop_app_eq by reflexivity; now apply ztake_app_eq.
Qed.

(** Storing as many bytes in place of the data. *)
Lemma replace_child cbb p B data data' : represents cbb (with_child p B data) -> zlen data' = zlen data ->
  represents {| cbb_base := set_buf (cbb_base cbb) (zsplice (buf (cbb_base cbb)) (zlen (before p B)) data'); cbb_children := cbb_children cbb |} (with_child p B data').
Proof.
  intros HR Hl; destruct (last_child cbb p B data HR) as (_ & _ & _ & junk & Ej); destruct HR as [Hb Hm]; split; cbn [cbb_base cbb_children].
  - cbn [with_child b_root] in *; rewrite with_child_content in *; rewrite Ej, <- app_assoc, zsplice_mid, app_assoc by lia.
    apply (holds_set_buf _ (before p B ++ data)); [exact Hb|exact Ej|rewrite !zlen_app; lia].
  - cbn [with_child b_root b_open] in *; apply children_match_app in Hm as [Hm1 Hm2]; apply children_match_app; split; [exact Hm1|].
    destruct (drop _ _) as [|c l]; [easy|]; cbn [children_match] in *; destruct Hm2 as [-> Hm2]; split; [reflexivity|]; now destruct l.
Qed.

Lemma zlen_concat_perm (a b : list (list Z)) : Permutation a b -> zlen (concat a) = zlen (concat b).
Proof. induction 1; cbn [concat]; rewrite ?zlen_app; lia. Qed.

Lemma elements_length els : Forall der_element els -> zlen els <= zlen (concat els).
Proof.
  induction 1 as [|e els He _ IH]; cbn [concat]; [reflexivity|]; destruct (der_element_read e [] He) as (_ & _ & _ & Hpos); rewrite zlen_app, zlen_cons; lia.
Qed.

(** The copy has the bytes. *)
Lemma memdup_all data block : OPENSSL_memdup data (zlen data) = Some block -> block = data.
Proof.
  unfold OPENSSL_memdup, OPENSSL_malloc; destruct (_ =? 0); [discriminate|]; destruct (malloc_ok _); [|discriminate]; intros [= <-].
  rewrite ztake_all by lia; unfold zsplice; rewrite ztake_0, zdrop_all by (rewrite zlen_fresh; pose proof (zlen_nonneg data); lia); apply app_nil_r.
Qed.

(** C30. A SET OF is sorted. When the elements written into a child are DER elements,
    [CBB_flush_asn1_set_of] leaves the same elements in the order of X.690, section
    11.6: of any two, the one that comes first is the smaller at the first octet
    where they differ, the shorter padded with zeros. Nothing else of the builder
    changes; the call fails only for lack of memory, and then changes nothing. *)
Theorem set_of_sorted (cbb : CBB) (p : prefix) (B : builder) (els : list (list Z)) :
  represents cbb (with_child p B (concat els)) -> Forall der_element els -> zlen els < 2 ^ 32 ->
  exists ok cbb' els', CBB_flush_asn1_set_of (S (length (b_open B))) cbb = (ok, cbb') /\ represents cbb' (with_child p B (concat els')) /\
    Permutation els' els /\ (ok <> None -> StronglySorted x690_before els') /\ (ok = None -> els' = els) /\ ((forall n, malloc_ok n = true) -> ok = Some tt).
Proof.
  intros HR He Hn; set (d := S (length (b_open B))); pose proof (represents_length _ _ HR) as Hlen; cbn [with_child b_open] in Hlen; rewrite length_app in Hlen; cbn [length] in Hlen.
  assert (CBB_flush d cbb = (Some tt, cbb)) as Ef.
  { unfold CBB_flush, detached; rewrite (proj2 (Nat.ltb_ge _ _)) by lia; destruct HR as [(_ & Er & _) _]; rewrite Er, drop_ge, take_ge by lia; cbn [flush_children]; rewrite Er; now destruct cbb. }
  destruct (last_child cbb p B (concat els) HR) as (Es & El & Ed & _); fold d in Es, El, Ed.
  unfold CBB_flush_asn1_set_of; rewrite Ef, Ed, El, Es, (count_children_spec els He _ 0 (le_n _)), Z.add_0_l.
  destruct (Z.ltb_spec (zlen els) 2) as [Hlt|Hge].
  { exists (Some tt), cbb, els; repeat (split; [easy|]); split; [intros _|easy]; destruct els as [|x [|y els]]; [constructor|repeat constructor|].
    rewrite !zlen_cons in Hlt; pose proof (zlen_nonneg els); lia. }
  destruct (OPENSSL_memdup (concat els) (zlen (concat els))) as [block|] eqn:Em; [apply memdup_all in Em as ->|].
  2: { exists None, cbb, els; repeat (split; [easy|]); intros Hm; exfalso; revert Em; unfold OPENSSL_memdup, OPENSSL_malloc; rewrite Hm.
       pose proof (elements_length els He); rewrite (proj2 (Z.eqb_neq _ _)) by lia; discriminate. }
  destruct (OPENSSL_calloc (zlen els) sizeof_CBS) as [arr|] eqn:Ecal.
  2: { exists None, cbb, els; repeat (split; [easy|]); intros Hm; exfalso; revert Ecal; unfold OPENSSL_calloc, OPENSSL_zalloc, OPENSSL_malloc; rewrite Hm.
       change (SIZE_MAX / sizeof_CBS) with (2 ^ 60 - 1); rewrite (proj2 (Z.ltb_ge _ _)) by lia; rewrite andb_false_r; discriminate. }
  unfold zlen at 1; rewrite Nat2Z.id, (get_children_spec els He); set (els' := qsort compare_set_of_element els).
  pose proof (qsort_perm compare_set_of_element els : Permutation els' els) as Hp; pose proof (zlen_concat_perm _ _ Hp) as Hz.
  destruct (last_child cbb p B (concat els) HR) as (_ & _ & _ & junk & Ej).
  rewrite put_children_spec by (rewrite ?Ej, ?zlen_app; pose proof (zlen_nonneg (before p B)); pose proof (zlen_nonneg junk); lia).
  eexists (Some tt), _, els'; split; [reflexivity|]; split; [now apply (replace_child cbb p B (concat els))|]; split; [exact Hp|].
  split; [intros _; now apply qsort_der|easy].
Qed.
End Flush.

(** Three INTEGERs in a SET. *)
Definition sample_set : list (list Z) := [[2; 1; 9]; [2; 1; 3]; [2; 2; 1; 0]].
Definition sample_set_cbb : CBB :=
  match (let! set := CBB_add_asn1 (H := allocator_total) 0 0x20000011 in CBB_add_bytes (H := allocator_total) set (concat sample_set)) (cbb_init [] 0 true) with (_, cbb) => cbb end.
Definition sample_set_builder : builder := {| b_root := [0x31]; b_open := [] |}.

Lemma set_of_sorted_witness :
  exists cbb' els', CBB_flush_asn1_set_of (H := allocator_total) 1 sample_set_cbb = (Some tt, cbb') /\ represents cbb' (with_child PAsn1 sample_set_builder (concat els')) /\
    Permutation els' sample_set /\ StronglySorted x690_before els'.
Proof.
  destruct (set_of_sorted (H := allocator_total) sample_set_cbb PAsn1 sample_set_builder sample_set) as (ok & cbb' & els' & E & HR & Hp & Hs & _ & Hok).
  - split; [|vm_compute; auto]; repeat split; try (vm_compute; congruence); exists (zdrop 12 (buf (cbb_base sample_set_cbb))); vm_compute; reflexivity.
  - assert (forall e, valid_tag 2 /\ zlen (zdrop 2 e) < 2 ^ 32 /\ e = asn1_tlv 2 (zdrop 2 e) -> der_element e) as Hel by (intros e He; exists 2, (zdrop 2 e); exact He).
    repeat apply List.Forall_cons; try apply List.Forall_nil; apply Hel; repeat split; vm_compute; congruence.
  - reflexivity.
  - rewrite (Hok ltac:(reflexivity)) in *; exists cbb', els'; split; [exact E|]; split; [exact HR|]; split; [exact Hp|apply Hs; discriminate].
Defined.
