(* ===== verification/Unicode.v ===== *)
(** Character encodings: crypto/bytestring/unicode.c (lines 20-158), the
    readers and writers of UTF-8, Latin-1, UCS-2 and UTF-32 code points. *)

From S2P Require Import Prelude Mem Cbs Asn1 Der Cbb CbbSpec CbbDer CbbProgram.

Definition is_valid_code_point (v : Z) : bool :=
  negb ((0x10ffff <? v) || (Z.land v 0xfffe =? 0xfffe) || ((0xfdd0 <=? v) && (v <=? 0xfdef)) ||
        ((0xd800 <=? v) && (v <=? 0xdfff))).

Definition BOTTOM_BITS (n : Z) : Z := u8 (Z.shiftl 1 n - 1).
Definition TOP_BITS (n : Z) : Z := u8 (Z.lnot (BOTTOM_BITS (8 - n))).

(** The loop over the continuation bytes. *)
Fixpoint utf8_loop (i : nat) (v : Z) : ST CBS Z :=
  match i with
  | O => st_ret v
  | S i =>
      let! c := CBS_get_u8 in
      st_guard (Z.land c (TOP_BITS 2) =? TOP_BITS 1) ;;;
      utf8_loop i (Z.lor (u32 (Z.shiftl v 6)) (Z.land c (BOTTOM_BITS 6)))
  end.

Definition CBS_get_utf8 : ST CBS Z :=
  let! c := CBS_get_u8 in
  if c <=? 0x7f then st_ret c
  else
    let! (v, i, lower_bound) :=
      if Z.land c (TOP_BITS 3) =? TOP_BITS 2 then st_ret (Z.land c (BOTTOM_BITS 5), 1%nat, 0x80)
      else if Z.land c (TOP_BITS 4) =? TOP_BITS 3 then st_ret (Z.land c (BOTTOM_BITS 4), 2%nat, 0x800)
      else if Z.land c (TOP_BITS 5) =? TOP_BITS 4 then st_ret (Z.land c (BOTTOM_BITS 3), 3%nat, 0x10000)
      else st_fail in
    let! v := utf8_loop i v in
    st_guard (is_valid_code_point v && negb (v <? lower_bound)) ;;;
    st_ret v.

Definition CBS_get_latin1 : ST CBS Z := CBS_get_u8.

Definition CBS_get_ucs2_be : ST CBS Z :=
  let! c := CBS_get_u16 in st_guard (is_valid_code_point c) ;;; st_ret c.

Definition CBS_get_utf32_be : ST CBS Z :=
  let! c := CBS_get_u32 in st_guard (is_valid_code_point c) ;;; st_ret c.

Definition CBB_get_utf8_len (u : Z) : Z :=
  if u <=? 0x7f then 1 else if u <=? 0x7ff then 2 else if u <=? 0xffff then 3 else 4.

Section Writers.
  Context `{Allocator}.

Definition CBB_add_utf8 (d : nat) (u : Z) : ST CBB unit :=
  st_guard (is_valid_code_point u) ;;;
  if u <=? 0x7f then CBB_add_u8 d (u8 u)
  else if u <=? 0x7ff then
    CBB_add_u8 d (u8 (Z.lor (TOP_BITS 2) (Z.shiftr u 6))) ;;;
    CBB_add_u8 d (u8 (Z.lor (TOP_BITS 1) (Z.land u (BOTTOM_BITS 6))))
  else if u <=? 0xffff then
    CBB_add_u8 d (u8 (Z.lor (TOP_BITS 3) (Z.shiftr u 12))) ;;;
    CBB_add_u8 d (u8 (Z.lor (TOP_BITS 1) (Z.land (Z.shiftr u 6) (BOTTOM_BITS 6)))) ;;;
    CBB_add_u8 d (u8 (Z.lor (TOP_BITS 1) (Z.land u (BOTTOM_BITS 6))))
  else if u <=? 0x10ffff then
    CBB_add_u8 d (u8 (Z.lor (TOP_BITS 4) (Z.shiftr u 18))) ;;;
    CBB_add_u8 d (u8 (Z.lor (TOP_BITS 1) (Z.land (Z.shiftr u 12) (BOTTOM_BITS 6)))) ;;;
    CBB_add_u8 d (u8 (Z.lor (TOP_BITS 1) (Z.land (Z.shiftr u 6) (BOTTOM_BITS 6)))) ;;;
    CBB_add_u8 d (u8 (Z.lor (TOP_BITS 1) (Z.land u (BOTTOM_BITS 6))))
  else st_fail.

Definition CBB_add_latin1 (d : nat) (u : Z) : ST CBB unit := st_guard (u <=? 0xff) ;;; CBB_add_u8 d (u8 u).

Definition CBB_add_ucs2_be (d : nat) (u : Z) : ST CBB unit :=
  st_guard ((u <=? 0xffff) && is_valid_code_point u) ;;; CBB_add_u16 d (u16 u).

Definition CBB_add_utf32_be (d : nat) (u : Z) : ST CBB unit :=
  st_guard (is_valid_code_point u) ;;; CBB_add_u32 d u.
End Writers.

#[local] Ltac Zify.zify_post_hook ::= Z.to_euclidean_division_equations.

(** * The UTF-8 form of a code point *)

Definition utf8_octets (u : Z) : list Z :=
  if u <=? 0x7f then [u]
  else if u <=? 0x7ff then [192 + u / 64; 128 + u mod 64]
  else if u <=? 0xffff then [224 + u / 4096; 128 + u / 64 mod 64; 128 + u mod 64]
  else [240 + u / 262144; 128 + u / 4096 mod 64; 128 + u / 64 mod 64; 128 + u mod 64].

Lemma valid_range v : is_valid_code_point v = true -> v <= 0x10ffff.
Proof. unfold is_valid_code_point; rewrite negb_true_iff, !orb_false_iff, Z.ltb_ge; tauto. Qed.

(** The tests on the leading bits of a byte are intervals. *)
Lemma lead_bits c : byte c ->
  (Z.land c (TOP_BITS 2) =? TOP_BITS 1) = (128 <=? c) && (c <? 192) /\
  (Z.land c (TOP_BITS 3) =? TOP_BITS 2) = (192 <=? c) && (c <? 224) /\
  (Z.land c (TOP_BITS 4) =? TOP_BITS 3) = (224 <=? c) && (c <? 240) /\
  (Z.land c (TOP_BITS 5) =? TOP_BITS 4) = (240 <=? c) && (c <? 248).
Proof.
  assert (zall (fun c =>
    eqb (Z.land c (TOP_BITS 2) =? TOP_BITS 1) ((128 <=? c) && (c <? 192)) &&
    eqb (Z.land c (TOP_BITS 3) =? TOP_BITS 2) ((192 <=? c) && (c <? 224)) &&
    eqb (Z.land c (TOP_BITS 4) =? TOP_BITS 3) ((224 <=? c) && (c <? 240)) &&
    eqb (Z.land c (TOP_BITS 5) =? TOP_BITS 4) ((240 <=? c) && (c <? 248))) 0 256 = true) as H by (vm_compute; reflexivity).
  intros Hc; pose proof (zall_spec _ _ _ H c Hc) as E; cbn beta in E; rewrite !andb_true_iff, !eqb_true_iff in E; tauto.
Qed.

Lemma bottom_bits c n : 0 <= n <= 8 -> Z.land c (BOTTOM_BITS n) = c mod 2 ^ n.
Proof.
  intros Hn; rewrite <- land_low by lia; f_equal; unfold BOTTOM_BITS.
  rewrite Z.shiftl_1_l; apply uw_small; pose proof (Z.pow_le_mono_r 2 n 8 ltac:(lia) ltac:(lia)).
  pose proof (Z.pow_pos_nonneg 2 n ltac:(lia) ltac:(lia)); lia.
Qed.

(** One continuation byte shifts six bits in. *)
Lemma utf8_shift v c : 0 <= v < 2 ^ 26 -> 128 <= c < 192 ->
  Z.lor (u32 (Z.shiftl v 6)) (Z.land c (BOTTOM_BITS 6)) = v * 64 + (c - 128).
Proof.
  intros Hv Hc; rewrite bottom_bits, Z.shiftl_mul_pow2, uw_small by (pow2; lia).
  rewrite lor_disjoint by (pow2; lia); change (2 ^ 6) with 64; lia.
Qed.

Lemma utf8_loop_step i v c rest : byte c -> 0 <= v < 2 ^ 26 ->
  utf8_loop (S i) v (c :: rest) =
  if (128 <=? c) && (c <? 192) then utf8_loop i (v * 64 + (c - 128)) rest else (None, rest).
Proof.
  intros Hc Hv; cbn [utf8_loop]; rewrite (st_bind_some _ _ _ _ _ (CBS_get_u8_cons c rest)).
  destruct (lead_bits c Hc) as (-> & _); case_if; [|reflexivity]; bool_facts.
  rewrite st_guard_true by reflexivity; now rewrite utf8_shift by lia.
Qed.

Lemma utf8_loop_nil i v : utf8_loop (S i) v [] = (None, []).
Proof. cbn [utf8_loop]; now rewrite (st_bind_none _ _ _ _ CBS_get_u8_nil). Qed.

(** The continuation bytes that the loop takes. *)
Lemma utf8_loop_inv i v cbs w rest : bytes cbs -> 0 <= v < 2 ^ 26 / 64 ^ Z.of_nat i ->
  utf8_loop i v cbs = (Some w, rest) ->
  exists cs, cbs = cs ++ rest /\ length cs = i /\ Forall (fun c => 128 <= c < 192) cs /\
    w = fold_left (fun v c => v * 64 + (c - 128)) cs v.
Proof.
  revert v cbs; induction i as [|i IH]; intros v cbs Hb Hv.
  { intros [= <- <-]; exists []; auto. }
  assert (0 < 64 ^ Z.of_nat i) by (apply Z.pow_pos_nonneg; lia).
  assert (0 <= v * 64 + 63 < 2 ^ 26 / 64 ^ Z.of_nat i /\ v < 2 ^ 26) as [Hn Hv'].
  { rewrite Nat2Z.inj_succ, Z.pow_succ_r in Hv by lia.
    rewrite (Z.mul_comm 64), <- Z.div_div in Hv by lia.
    assert (2 ^ 26 / 64 ^ Z.of_nat i <= 2 ^ 26) by (apply Z.div_le_upper_bound; nia).
    clear -Hv H0; lia. }
  destruct cbs as [|c cbs]; [rewrite utf8_loop_nil; discriminate|].
  apply bytes_cons in Hb as [Hc Hb]; rewrite utf8_loop_step by (auto; lia).
  case_if; [|discriminate]; bool_facts; intros E.
  apply IH in E as (cs & -> & Hl & Hcs & ->); [|auto|lia].
  exists (c :: cs); split; [reflexivity|]; split; [cbn; lia|]; split; [constructor; [lia|auto]|reflexivity].
Qed.

Lemma utf8_loop_app cs v rest : Forall (fun c => 128 <= c < 192) cs -> 0 <= v < 2 ^ 26 / 64 ^ Z.of_nat (length cs) ->
  utf8_loop (length cs) v (cs ++ rest) = (Some (fold_left (fun v c => v * 64 + (c - 128)) cs v), rest).
Proof.
  intros Hcs; revert v; induction Hcs as [|c cs Hc Hcs IH]; intros v Hv; [reflexivity|].
  cbn [length app fold_left] in *; assert (0 < 64 ^ Z.of_nat (length cs)) by (apply Z.pow_pos_nonneg; lia).
  assert (0 <= v * 64 + 63 < 2 ^ 26 / 64 ^ Z.of_nat (length cs) /\ v < 2 ^ 26) as [Hn Hv'].
  { rewrite Nat2Z.inj_succ, Z.pow_succ_r in Hv by lia.
    rewrite (Z.mul_comm 64), <- Z.div_div in Hv by lia.
    assert (2 ^ 26 / 64 ^ Z.of_nat (length cs) <= 2 ^ 26) by (apply Z.div_le_upper_bound; nia).
    clear -Hv H0; lia. }
  rewrite utf8_loop_step by (unfold byte; lia); rewrite (proj2 (Z.leb_le _ _)), (proj2 (Z.ltb_lt _ _)) by lia.
  apply IH; lia.
Qed.

(** What the first byte decides. *)
Definition utf8_lead (c : Z) : option (Z * nat * Z) :=
  if (192 <=? c) && (c <? 224) then Some (c - 192, 1%nat, 0x80)
  else if (224 <=? c) && (c <? 240) then Some (c - 224, 2%nat, 0x800)
  else if (240 <=? c) && (c <? 248) then Some (c - 240, 3%nat, 0x10000)
  else None.

Lemma get_utf8_eq c rest : byte c ->
  CBS_get_utf8 (c :: rest) =
  if c <=? 0x7f then (Some c, rest)
  else match utf8_lead c with
       | None => (None, rest)
       | Some (v, i, lower_bound) =>
           (let! v := utf8_loop i v in st_guard (is_valid_code_point v && negb (v <? lower_bound)) ;;; st_ret v) rest
       end.
Proof.
  intros Hc; unfold CBS_get_utf8; rewrite (st_bind_some _ _ _ _ _ (CBS_get_u8_cons c rest)).
  destruct (c <=? 127) eqn:E; [reflexivity|]; bool_facts; unfold byte in Hc.
  destruct (lead_bits c Hc) as (_ & -> & -> & ->); unfold utf8_lead; rewrite !bottom_bits by lia.
  repeat case_if; bool_facts; try reflexivity; unfold st_bind at 1; cbn [st_ret]; repeat f_equal; pow2; lia.
Qed.

Lemma utf8_octets_lead u : 0x80 <= u <= 0x10ffff ->
  exists c cs v i lb, utf8_octets u = c :: cs /\ byte c /\ 0x7f < c /\ utf8_lead c = Some (v, i, lb) /\
    length cs = i /\ Forall (fun c => 128 <= c < 192) cs /\ lb <= u /\ 0 <= v < 2 ^ 26 / 64 ^ Z.of_nat i /\
    u = fold_left (fun v c => v * 64 + (c - 128)) cs v.
Proof.
  intros Hu; unfold utf8_octets, utf8_lead.
  rewrite (proj2 (Z.leb_gt u 127)) by lia; destruct (u <=? 2047) eqn:E1; [|destruct (u <=? 65535) eqn:E2]; bool_facts.
  - exists (192 + u / 64), [128 + u mod 64], (u / 64), 1%nat, 0x80; unfold byte.
    rewrite (proj2 (Z.leb_le 192 _)), (proj2 (Z.ltb_lt _ 224)) by lia; cbn [andb fold_left length].
    change (2 ^ 26 / 64 ^ Z.of_nat 1) with 1048576; repeat split; try lia; [repeat f_equal; lia|repeat constructor; lia].
  - exists (224 + u / 4096), [128 + u / 64 mod 64; 128 + u mod 64], (u / 4096), 2%nat, 0x800; unfold byte.
    rewrite (proj2 (Z.ltb_ge _ 224)), (proj2 (Z.leb_le 224 _)), (proj2 (Z.ltb_lt _ 240)) by lia; rewrite andb_false_r; cbn [andb fold_left length].
    change (2 ^ 26 / 64 ^ Z.of_nat 2) with 16384; repeat split; try lia; [repeat f_equal; lia|repeat constructor; lia].
  - exists (240 + u / 262144), [128 + u / 4096 mod 64; 128 + u / 64 mod 64; 128 + u mod 64], (u / 262144), 3%nat, 0x10000; unfold byte.
    rewrite (proj2 (Z.ltb_ge _ 224)), (proj2 (Z.ltb_ge _ 240)), (proj2 (Z.leb_le 240 _)), (proj2 (Z.ltb_lt _ 248)) by lia.
    rewrite !andb_false_r; cbn [andb fold_left length].
    change (2 ^ 26 / 64 ^ Z.of_nat 3) with 256; repeat split; try lia; [repeat f_equal; lia|repeat constructor; lia].
Qed.

(** The octets are determined by the lead byte and the continuation bytes. *)
Lemma utf8_octets_unique c v i lb cs : byte c -> utf8_lead c = Some (v, i, lb) -> length cs = i ->
  Forall (fun c => 128 <= c < 192) cs ->
  let u := fold_left (fun v c => v * 64 + (c - 128)) cs v in
  lb <= u -> u <= 0x10ffff -> utf8_octets u = c :: cs.
Proof.
  intros Hc Hl Hi Hcs u Hlb Hu; unfold utf8_lead in Hl; unfold utf8_octets.
  repeat case_if; bool_facts; try discriminate; injection Hl as <- <- <-;
    (destruct cs as [|c1 [|c2 [|c3 [|]]]]; try discriminate Hi);
    repeat match goal with H : Forall _ (_ :: _) |- _ => inversion_clear H end;
    cbn [fold_left] in u; unfold u in *; repeat f_equal; lia.
Qed.

Lemma valid_low c : 0 <= c <= 0x7f -> is_valid_code_point c = true.
Proof.
  assert (zall is_valid_code_point 0 128 = true) as H by (vm_compute; reflexivity).
  intros; apply (zall_spec _ _ _ H); lia.
Qed.

Lemma get_utf8_iff cbs u rest : bytes cbs ->
  CBS_get_utf8 cbs = (Some u, rest) <-> 0 <= u /\ is_valid_code_point u = true /\ cbs = utf8_octets u ++ rest.
Proof.
  intros Hb; split.
  - destruct cbs as [|c cbs]; [discriminate|]; apply bytes_cons in Hb as [Hc Hb]; rewrite get_utf8_eq by auto.
    unfold byte in Hc; destruct (c <=? 127) eqn:E; bool_facts.
    { intros [= -> ->]; split; [lia|]; split; [now apply valid_low|]; unfold utf8_octets; now rewrite (proj2 (Z.leb_le _ _)) by lia. }
    destruct (utf8_lead c) as [[[v i] lb]|] eqn:El; [|discriminate]; intros Hr; st_inv Hr.
    bool_facts.
    assert (0 <= v < 2 ^ 26 / 64 ^ Z.of_nat i) as Hv.
    { unfold utf8_lead in El; repeat case_if; try discriminate; bool_facts; injection El as <- <- <-; cbn; lia. }
    apply utf8_loop_inv in Hm as (cs & -> & Hi & Hcs & E2); [|auto|exact Hv].
    assert (0 <= a) as Ha.
    { unfold utf8_lead in El; repeat case_if; try discriminate; bool_facts; injection El as <- <- <-; lia. }
    split; [exact Ha|split; [assumption|]].
    rewrite E2 in *; rewrite (utf8_octets_unique c v i lb cs) by (auto using valid_range; lia); reflexivity.
  - intros (H0 & Hv & ->); pose proof (valid_range u Hv); destruct (Z.le_gt_cases u 127).
    { unfold utf8_octets; rewrite (proj2 (Z.leb_le u 127)) by lia; cbn [app].
      rewrite get_utf8_eq by (unfold byte; lia); now rewrite (proj2 (Z.leb_le u 127)) by lia. }
    destruct (utf8_octets_lead u ltac:(lia)) as (c & cs & v & i & lb & -> & Hc & Hc7 & El & <- & Hcs & Hlb & Hvr & Eu).
    cbn [app]; rewrite get_utf8_eq, (proj2 (Z.leb_gt c 127)), El by (auto; lia).
    rewrite (st_bind_some _ _ _ _ _ (utf8_loop_app cs v rest Hcs Hvr)), <- Eu.
    rewrite st_guard_true; [reflexivity|]; rewrite Hv, (proj2 (Z.ltb_ge _ _)) by lia; reflexivity.
Qed.

(** [CBS_get_utf8] accepts exactly the well-formed, shortest-form UTF-8
    sequences of code points that are not reserved, surrogate or out of range:
    it returns [u] and the rest of the input when the input starts with the
    UTF-8 form of a valid [u], and fails on everything else. *)
Theorem CBS_get_utf8_exact cbs u rest : bytes cbs ->
  CBS_get_utf8 cbs = (Some u, rest) <-> 0 <= u /\ is_valid_code_point u = true /\ cbs = utf8_octets u ++ rest.
Proof. exact (get_utf8_iff cbs u rest). Qed.

Lemma CBS_get_utf8_exact_witness : CBS_get_utf8 [0xe2; 0x82; 0xac; 0x41] = (Some 0x20ac, [0x41]).
Proof. apply (CBS_get_utf8_exact [0xe2; 0x82; 0xac; 0x41] 0x20ac [0x41]); [each_literal|repeat split; vm_compute; congruence]. Defined.

(** * Writing *)

Lemma utf8_len u : zlen (utf8_octets u) = CBB_get_utf8_len u.
Proof. unfold utf8_octets, CBB_get_utf8_len; repeat case_if; reflexivity. Qed.

Lemma lead_or k x b : 0 <= k <= 7 -> 0 <= x < 2 ^ (7 - k) -> b = TOP_BITS k + x -> u8 (Z.lor (TOP_BITS k) x) = b.
Proof.
  intros Hk Hx ->.
  assert (k = 0 \/ k = 1 \/ k = 2 \/ k = 3 \/ k = 4 \/ k = 5 \/ k = 6 \/ k = 7) as Hc by lia.
  destruct Hc as [->|[->|[->|[->|[->|[->|[->| ->]]]]]]];
    match goal with |- u8 (Z.lor ?t x) = _ + x => let v := eval vm_compute in t in change t with v end; pow2;
    match type of Hx with _ <= _ < ?n =>
      match goal with |- u8 (Z.lor ?t x) = _ =>
        let q := eval vm_compute in (t / n) in let e := eval vm_compute in (Z.log2 n) in
        change t with (q * 2 ^ e); rewrite lor_disjoint by (pow2; lia); pow2; apply uw_small; pow2; lia end end.
Qed.

Lemma cont_byte x : 0 <= x -> u8 (Z.lor (TOP_BITS 1) (Z.land x (BOTTOM_BITS 6))) = 128 + x mod 64.
Proof. intros; rewrite bottom_bits by lia; apply lead_or; [lia|pow2; lia|reflexivity]. Qed.

Section WriterSpecs.
  Context `{Allocator}.

(** Two appends in a row. *)
Lemma add_u8_then d v data c cbb B (k : ST CBB unit) :
  represents cbb B -> (d <= length (b_open B))%nat -> byte v -> 0 <= c ->
  (forall cbb' B', represents cbb' B' -> (d <= length (b_open B'))%nat -> refines c tt (b_add d data B') cbb' B' (k cbb')) ->
  refines (1 + c) tt (b_add d (v :: data) B) cbb B ((CBB_add_u8 d v ;;; k) cbb).
Proof.
  intros HR Hd Hv Hc Hk.
  apply (refines_ext (1 + c) _ _ (b_add d [v] B ≫= b_add d data)); [lia|now apply (b_add_add d [v])|].
  eapply refines_bind; [lia|now apply CBB_add_u8_spec|].
  intros cbb' B' EB HR'; apply Hk; auto; rewrite (b_add_open _ _ _ _ EB Hd); lia.
Qed.

(** [CBB_add_utf8] appends the UTF-8 form of a valid code point to the
    builder, as many bytes as [CBB_get_utf8_len] says, and refuses any other
    code point without touching the builder; what it appends is read back by
    [CBS_get_utf8]. *)
Theorem CBB_add_utf8_correct d u cbb B : represents cbb B -> (d <= length (b_open B))%nat -> 0 <= u ->
  (is_valid_code_point u = true ->
     refines (CBB_get_utf8_len u) tt (b_add d (utf8_octets u) B) cbb B (CBB_add_utf8 d u cbb) /\
     zlen (utf8_octets u) = CBB_get_utf8_len u /\
     forall rest, bytes rest -> CBS_get_utf8 (utf8_octets u ++ rest) = (Some u, rest)) /\
  (is_valid_code_point u = false -> CBB_add_utf8 d u cbb = (None, cbb)).
Proof.
  intros HR Hd Hu; split; [|intros E; unfold CBB_add_utf8; rewrite E; reflexivity].
  intros Hv; pose proof (valid_range u Hv) as Hmax; split; [|split; [apply utf8_len|]].
  - unfold CBB_add_utf8; rewrite st_guard_true by exact Hv; unfold utf8_octets, CBB_get_utf8_len.
    rewrite (proj2 (Z.leb_le u 0x10ffff)), !cont_byte by (rewrite ?Z.shiftr_div_pow2; lia).
    rewrite !Z.shiftr_div_pow2 by lia; pow2.
    repeat case_if; bool_facts.
    + rewrite uw_small by (pow2; lia); apply CBB_add_u8_spec; auto; unfold byte; lia.
    + rewrite (lead_or 2 (u / 64) (192 + u / 64)) by (pow2; first [reflexivity|lia]).
      apply (add_u8_then d _ [_] 1); auto; [unfold byte; lia|lia|]; intros; apply CBB_add_u8_spec; auto; unfold byte; lia.
    + rewrite (lead_or 3 (u / 4096) (224 + u / 4096)) by (pow2; first [reflexivity|lia]).
      apply (add_u8_then d _ [_; _] (1 + 1)); auto; [unfold byte; lia|lia|]; intros.
      apply (add_u8_then d _ [_] 1); auto; [unfold byte; lia|lia|]; intros; apply CBB_add_u8_spec; auto; unfold byte; lia.
    + rewrite (lead_or 4 (u / 262144) (240 + u / 262144)) by (pow2; first [reflexivity|lia]).
      apply (add_u8_then d _ [_; _; _] (1 + (1 + 1))); auto; [unfold byte; lia|lia|]; intros.
      apply (add_u8_then d _ [_; _] (1 + 1)); auto; [unfold byte; lia|lia|]; intros.
      apply (add_u8_then d _ [_] 1); auto; [unfold byte; lia|lia|]; intros; apply CBB_add_u8_spec; auto; unfold byte; lia.
  - intros rest Hrest; apply get_utf8_iff; [|auto].
    apply bytes_app; split; [|exact Hrest]; unfold utf8_octets; repeat case_if; bool_facts;
      repeat (apply Forall_cons_2; [unfold byte; lia|]); apply Forall_nil_2.
Qed.
End WriterSpecs.

Lemma CBB_add_utf8_correct_witness :
  CBS_get_utf8 (utf8_octets 0x20ac ++ [65]) = (Some 0x20ac, [65]).
Proof.
  apply (CBB_add_utf8_correct (H := allocator_total) 0 0x20ac (cbb_init [] 0 true) empty_builder);
    [apply init_represents; [reflexivity|lia]|cbn; lia|lia|reflexivity|each_literal].
Defined.
