(* ===== verification/Oid.v ===== *)
(** Object identifiers: [CBS_is_valid_asn1_oid] and [CBS_asn1_oid_to_text] of
    crypto/bytestring/cbs.c (lines 695-768) and [CBB_add_asn1_oid_from_text] of
    cbb.c (lines 597-646), between DER octets and dotted decimal text. *)

From S2P Require Import Prelude Mem Cbs Asn1 Der Cbb CbbSpec CbbDer CbbProgram.

Definition chr_dot : Z := 46.

(** The loop over the octets, with the octet before. *)
Fixpoint valid_oid_loop (prev : Z) (copy : CBS) : bool :=
  match copy with
  | [] => Z.land prev 0x80 =? 0
  | v :: copy => if (Z.land prev 0x80 =? 0) && (v =? 0x80) then false else valid_oid_loop v copy
  end.

Definition CBS_is_valid_asn1_oid (cbs : CBS) : bool :=
  if CBS_len cbs =? 0 then false else valid_oid_loop 0 cbs.

Section Text.
  Context `{Allocator}.

Definition add_decimal (d : nat) (v : Z) : ST CBB unit := CBB_add_bytes d (dec_digits 20 v).

(** The loop over the components after the first two. Each takes an octet, so
    the length of the input is fuel enough. *)
Fixpoint oid_text_loop (fuel : nat) (copy : CBS) : ST CBB unit :=
  if negb (CBS_len copy =? 0) then
    match fuel with
    | O => st_fail
    | S fuel =>
        match parse_base128_integer copy with
        | (None, _) => st_fail
        | (Some v, copy) => CBB_add_u8 0 chr_dot ;;; add_decimal 0 v ;;; oid_text_loop fuel copy
        end
    end
  else st_ret tt.

Definition oid_to_text (cbs : CBS) : ST CBB unit :=
  match parse_base128_integer cbs with
  | (None, _) => st_fail
  | (Some v, copy) =>
      (if 80 <=? v then CBB_add_bytes 0 [50; chr_dot] ;;; add_decimal 0 (v - 80)
       else add_decimal 0 (v / 40) ;;; CBB_add_u8 0 chr_dot ;;; add_decimal 0 (v mod 40)) ;;;
      oid_text_loop (length copy) copy ;;;
      CBB_add_u8 0 0
  end.

Definition CBS_asn1_oid_to_text (cbs : CBS) : option (list Z) :=
  match CBB_init 32 with
  | None => None
  | Some cbb => fst ((oid_to_text cbs ;;; CBB_finish) cbb)
  end.

Definition parse_dotted_decimal : ST CBS Z :=
  let! out := CBS_get_u64_decimal in
  fun cbs =>
    match CBS_get_u8 cbs with
    | (None, cbs) => (Some out, cbs)
    | (Some dot, cbs) => (if (dot =? chr_dot) && (0 <? CBS_len cbs) then Some out else None, cbs)
    end.

Fixpoint oid_from_text_loop (fuel : nat) (d : nat) (cbs : CBS) : ST CBB unit :=
  if 0 <? CBS_len cbs then
    match fuel with
    | O => st_fail
    | S fuel =>
        match parse_dotted_decimal cbs with
        | (None, _) => st_fail
        | (Some a, cbs) => add_base128_integer d a ;;; oid_from_text_loop fuel d cbs
        end
    end
  else st_ret tt.

Definition CBB_add_asn1_oid_from_text (d : nat) (text : list Z) : ST CBB unit :=
  CBB_flush d ;;;
  match parse_dotted_decimal (CBS_init text (zlen text)) with
  | (None, _) => st_fail
  | (Some a, cbs) =>
      match parse_dotted_decimal cbs with
      | (None, _) => st_fail
      | (Some b, cbs) =>
          if (2 <? a) || ((a <? 2) && (39 <? b)) || (UINT64_MAX - 80 <? b) then st_fail
          else add_base128_integer d (u64 (40 * a + b)) ;;; oid_from_text_loop (length cbs) d cbs
      end
  end.
End Text.

#[local] Ltac Zify.zify_post_hook ::= Z.to_euclidean_division_equations.

(** * Decimal numbers *)

Definition decimal (v : Z) : list Z := dec_digits 20 v.
Definition digit (c : Z) : Prop := 48 <= c <= 57.

Lemma isdigit_iff c : OPENSSL_isdigit c = true <-> digit c.
Proof. unfold OPENSSL_isdigit, in_range, digit; rewrite andb_true_iff, !Z.leb_le; lia. Qed.

Lemma dec_digits_fuel f g v : 0 <= v < 10 ^ Z.of_nat (S f) -> 0 <= v < 10 ^ Z.of_nat (S g) ->
  dec_digits (S f) v = dec_digits (S g) v.
Proof.
  revert g v; induction f as [|f IH]; intros g v Hf Hg; cbn [dec_digits]; case_if; bool_facts; try reflexivity; [cbn in Hf; lia|].
  destruct g as [|g]; [cbn in Hg; lia|]; f_equal; apply IH.
  all: rewrite Nat2Z.inj_succ, Z.pow_succ_r in Hf, Hg by lia; lia.
Qed.

Lemma decimal_step v c : 0 < v -> 0 <= c < 10 -> v * 10 + c <= UINT64_MAX -> decimal (v * 10 + c) = decimal v ++ [48 + c].
Proof.
  intros Hv Hc Hmax; unfold_max; unfold decimal; rewrite (dec_digits_fuel 19 18 v) by (cbn; lia).
  change (dec_digits 20 (v * 10 + c)) with
    (if v * 10 + c <? 10 then [48 + (v * 10 + c)] else dec_digits 19 ((v * 10 + c) / 10) ++ [48 + (v * 10 + c) mod 10]).
  rewrite (proj2 (Z.ltb_ge _ _)) by lia; do 2 f_equal; lia || (repeat f_equal; lia).
Qed.

Lemma decimal_digit c : 0 <= c < 10 -> decimal c = [48 + c].
Proof. intros; unfold decimal; cbn [dec_digits]; now rewrite (proj2 (Z.ltb_lt _ _)) by lia. Qed.

(** No digit follows. *)
Definition digits_end (rest : list Z) : Prop := match rest with c :: _ => ~ digit c | [] => True end.

Lemma decimal_loop_end v rest : digits_end rest -> u64_decimal_loop v true rest = (Some v, rest).
Proof.
  intros Hr; destruct rest as [|c rest]; [reflexivity|]; cbn in *.
  destruct (OPENSSL_isdigit c) eqn:E; [apply isdigit_iff in E; contradiction|reflexivity].
Qed.

Lemma decimal_loop_step v seen c rest : 0 <= v -> digit c -> (v = 0 -> seen = false) -> v * 10 + (c - 48) <= UINT64_MAX ->
  u64_decimal_loop v seen (c :: rest) = u64_decimal_loop (v * 10 + (c - 48)) true rest.
Proof.
  intros Hv Hc Hs Hm; cbn [u64_decimal_loop]; rewrite (proj2 (isdigit_iff c) Hc); cbn [negb]; unfold digit in Hc; unfold_max.
  rewrite !(uw_small 64) by (pow2; lia).
  assert (((v =? 0) && seen) || (18446744073709551615 / 10 <? v) || (18446744073709551615 - (c - 48) <? v * 10) = false) as E.
  { rewrite !orb_false_iff, !Z.ltb_ge; repeat split; [|lia|lia].
    destruct (v =? 0) eqn:E0; [bool_facts; now rewrite Hs|reflexivity]. }
  change (2 ^ 64 - 1) with 18446744073709551615; now rewrite E.
Qed.

Lemma decimal_loop_digits f v rest : 0 <= v <= UINT64_MAX -> v < 10 ^ Z.of_nat (S f) ->
  u64_decimal_loop 0 false (dec_digits (S f) v ++ rest) = u64_decimal_loop v true rest.
Proof.
  revert v rest; induction f as [|f IH]; intros v rest Hv Hf; cbn [dec_digits]; destruct (v <? 10) eqn:E; bool_facts.
  1,3: cbn [app]; rewrite decimal_loop_step by (unfold digit; try lia; auto); f_equal; lia.
  - cbn in Hf; lia.
  - rewrite <- app_assoc; fold dec_digits; change (dec_digits (S f) (v / 10)) with (dec_digits (S f) (v / 10)).
    rewrite (IH (v / 10)) by (rewrite Nat2Z.inj_succ, Z.pow_succ_r in Hf by lia; lia).
    cbn [app]; rewrite decimal_loop_step by (unfold digit; lia); f_equal; lia.
Qed.

Lemma decimal_loop_inv v cbs w rest : 0 <= v <= UINT64_MAX -> u64_decimal_loop v true cbs = (Some w, rest) ->
  0 <= w <= UINT64_MAX /\ digits_end rest /\ exists l, cbs = l ++ rest /\ decimal w = decimal v ++ l.
Proof.
  revert v; induction cbs as [|c cbs IH]; intros v Hv E.
  { injection E as <- <-; split; [auto|split; [exact I|]]; exists []; split; [reflexivity|now rewrite app_nil_r]. }
  destruct (OPENSSL_isdigit c) eqn:Ed; cbn [u64_decimal_loop] in E; rewrite Ed in E; cbn [negb] in E.
  - revert E; case_if; [discriminate|]; intros E; apply isdigit_iff in Ed as Hc; unfold digit in Hc.
    rewrite !orb_false_iff, !Z.ltb_ge in Heqb; destruct Heqb as [[H0 H1] H2]; rewrite andb_true_r, Z.eqb_neq in H0; unfold_max.
    rewrite (uw_small 64 (v * 10)) in H2 by (pow2; lia); rewrite (uw_small 64 (v * 10 + (c - 48))) in E by (pow2; lia).
    apply IH in E as (Hw & Hr & l & -> & E); [|lia]; split; [auto|split; [auto|]]; exists (c :: l); split; [reflexivity|].
    rewrite decimal_step in E by (unfold_max; lia); rewrite E, <- app_assoc; cbn [app]; do 2 f_equal; lia.
  - injection E as <- <-; split; [auto|]; split; [cbn; intros Hd; apply isdigit_iff in Hd; congruence|].
    exists []; split; [reflexivity|now rewrite app_nil_r].
Qed.

(** [CBS_get_u64_decimal] reads exactly the canonical decimal numbers that fit
    in 64 bits, up to the first byte that is not a digit. *)
Lemma get_u64_decimal_iff cbs v rest :
  CBS_get_u64_decimal cbs = (Some v, rest) <->
  0 <= v <= UINT64_MAX /\ cbs = decimal v ++ rest /\ digits_end rest.
Proof.
  unfold CBS_get_u64_decimal; split.
  - destruct cbs as [|c cbs]; [discriminate|]; cbn [u64_decimal_loop].
    destruct (OPENSSL_isdigit c) eqn:Ed; cbn [negb]; [|discriminate].
    apply isdigit_iff in Ed; unfold digit in Ed; case_if; [discriminate|]; intros E; clear Heqb.
    rewrite (uw_small 64) in E by (pow2; lia).
    apply decimal_loop_inv in E as (Hw & Hr & l & -> & E); [|unfold_max; lia].
    rewrite (decimal_digit (0 * 10 + (c - 48))) in E by lia; split; [auto|split; [|auto]]; rewrite E; cbn [app]; f_equal; lia.
  - intros (Hv & -> & Hr); unfold decimal; rewrite (decimal_loop_digits 19) by (auto; unfold_max; cbn; lia).
    now apply decimal_loop_end.
Qed.

(** * Dotted text and octets of an identifier *)

Definition arc_ok (a : Z) : Prop := 0 <= a <= UINT64_MAX.

Fixpoint oid_text (arcs : list Z) : list Z :=
  match arcs with
  | [] => []
  | [a] => decimal a
  | a :: arcs => decimal a ++ chr_dot :: oid_text arcs
  end.

(** The first two components share one integer. *)
Definition oid_octets (arcs : list Z) : list Z :=
  match arcs with
  | a :: b :: arcs => base128_octets (40 * a + b) ++ concat (map base128_octets arcs)
  | _ => []
  end.

Definition valid_arcs (arcs : list Z) : Prop :=
  match arcs with
  | a :: b :: arcs => 0 <= a <= 2 /\ 0 <= b <= UINT64_MAX - 80 /\ (a < 2 -> b <= 39) /\ Forall arc_ok arcs
  | _ => False
  end.

Lemma dec_digits_nonempty f v : dec_digits (S f) v <> [].
Proof. cbn [dec_digits]; case_if; [discriminate|]; intros E; now apply app_eq_nil in E as [_ E]. Qed.

Lemma decimal_nonempty v : decimal v <> [].
Proof. apply dec_digits_nonempty. Qed.

Lemma oid_text_nonempty a arcs : oid_text (a :: arcs) <> [].
Proof.
  destruct arcs; cbn; [apply decimal_nonempty|]; intros E; apply app_eq_nil in E as [E _]; now apply decimal_nonempty in E.
Qed.

Lemma dotted_iff cbs v rest :
  parse_dotted_decimal cbs = (Some v, rest) <->
  arc_ok v /\ (rest = [] /\ cbs = decimal v \/ rest <> [] /\ cbs = decimal v ++ chr_dot :: rest).
Proof.
  unfold parse_dotted_decimal; split.
  - intros E; apply st_bind_inv in E as (w & r1 & E1 & E2); apply get_u64_decimal_iff in E1 as (Hw & -> & Hr).
    destruct r1 as [|c r1].
    + rewrite CBS_get_u8_nil in E2; injection E2 as <- <-; split; [exact Hw|]; left; now rewrite app_nil_r.
    + rewrite CBS_get_u8_cons in E2; revert E2; case_if; [|discriminate]; bool_facts; intros [= <- <-]; subst c.
      split; [exact Hw|right]; split; [|reflexivity]; unfold CBS_len in *; intros ->; change (zlen []) with 0 in *; lia.
  - intros (Hv & [(-> & ->)|(Hr & ->)]).
    + rewrite (st_bind_some (S:=CBS) _ _ _ v []); [now rewrite CBS_get_u8_nil|]; apply get_u64_decimal_iff; rewrite app_nil_r; split; [exact Hv|split; [auto|exact I]].
    + rewrite (st_bind_some (S:=CBS) _ _ _ v (chr_dot :: rest)); [|apply get_u64_decimal_iff; split; [exact Hv|split; [auto|cbn; unfold digit, chr_dot; lia]]].
      rewrite CBS_get_u8_cons, Z.eqb_refl; cbn [andb]; unfold CBS_len.
      rewrite (proj2 (Z.ltb_lt _ _)); [reflexivity|]; destruct rest; [congruence|zl].
Qed.

Lemma dotted_text a arcs : arc_ok a -> parse_dotted_decimal (oid_text (a :: arcs)) = (Some a, oid_text arcs).
Proof.
  intros Ha; apply dotted_iff; split; [exact Ha|]; destruct arcs as [|b arcs]; [left; auto|right].
  split; [apply oid_text_nonempty|reflexivity].
Qed.

(** ** Octets to text *)

Lemma len_nonempty (l : list Z) : l <> [] -> (CBS_len l =? 0) = false /\ (0 <? CBS_len l) = true.
Proof. unfold CBS_len; destruct l; [easy|]; intros _; rewrite Z.eqb_neq, Z.ltb_lt; zl. Qed.

Lemma base128_octets_nonempty v : base128_octets v <> [].
Proof. unfold base128_octets; intros E; now apply app_eq_nil in E as [_ E]. Qed.

Lemma arc_range v : arc_ok v <-> 0 <= v < 2 ^ 64.
Proof. unfold arc_ok; unfold_max; lia. Qed.

(** The text of the further components. *)
Definition dotted (arcs : list Z) : list Z := concat (map (fun a => chr_dot :: decimal a) arcs).

Lemma oid_text_dotted a arcs : oid_text (a :: arcs) = decimal a ++ dotted arcs.
Proof.
  revert a; induction arcs as [|b arcs IH]; intros a; [cbn; now rewrite app_nil_r|].
  change (oid_text (a :: b :: arcs)) with (decimal a ++ chr_dot :: oid_text (b :: arcs)); now rewrite IH.
Qed.

Section Specs.
  Context `{Allocator}.

(** Appending in two steps, each with its own computation. *)
Lemma append_then d x y c1 c2 cbb B (m k : ST CBB unit) :
  (d <= length (b_open B))%nat -> 0 <= c2 ->
  refines c1 tt (b_add d x B) cbb B (m cbb) ->
  (forall cbb' B', represents cbb' B' -> length (b_open B') = d -> refines c2 tt (b_add d y B') cbb' B' (k cbb')) ->
  refines (c1 + c2) tt (b_add d (x ++ y) B) cbb B ((m ;;; k) cbb).
Proof.
  intros Hd Hc Hm Hk; apply (refines_ext (c1 + c2) _ _ (b_add d x B ≫= b_add d y)); [lia|now apply b_add_add|].
  eapply refines_bind; [exact Hc|exact Hm|]; intros cbb' B' EB HR'; apply Hk; auto; eapply b_add_open; eauto.
Qed.

Lemma zlen_dec_digits f v : zlen (dec_digits f v) <= Z.of_nat f.
Proof.
  revert v; induction f as [|f IH]; intros v; cbn [dec_digits]; [reflexivity|].
  case_if; [change (zlen [48 + v]) with 1; lia|]; rewrite zlen_app; specialize (IH (v / 10)); change (zlen [48 + v mod 10]) with 1; lia.
Qed.

Lemma add_decimal_spec d v cbb B : represents cbb B -> (d <= length (b_open B))%nat ->
  refines (zlen (decimal v)) tt (b_add d (decimal v) B) cbb B (add_decimal d v cbb).
Proof. intros; apply CBB_add_bytes_spec; auto; pose proof (zlen_dec_digits 20 v); unfold decimal in *; lia. Qed.

Lemma dot_spec d cbb B : represents cbb B -> (d <= length (b_open B))%nat ->
  refines 1 tt (b_add d [chr_dot] B) cbb B (CBB_add_u8 d chr_dot cbb).
Proof. intros; apply CBB_add_u8_spec; auto; unfold byte, chr_dot; lia. Qed.

Lemma oid_text_loop_spec arcs fuel cbb B : Forall arc_ok arcs -> (length arcs <= fuel)%nat ->
  represents cbb B -> b_open B = [] ->
  refines (zlen (dotted arcs)) tt (b_add 0 (dotted arcs) B) cbb B (oid_text_loop fuel (concat (map base128_octets arcs)) cbb).
Proof.
  intros Ha; revert fuel cbb B; induction Ha as [|a arcs Ha Has IH]; intros fuel cbb B Hf HR Ho.
  { destruct fuel; apply (st_ret_refines 0); auto; now rewrite Ho. }
  destruct fuel as [|fuel]; [cbn in Hf; lia|]; cbn [map concat oid_text_loop].
  destruct (len_nonempty (base128_octets a ++ concat (map base128_octets arcs))) as [-> _].
  { intros E; apply app_eq_nil in E as [E _]; now apply base128_octets_nonempty in E. }
  cbn [negb]; rewrite base128_roundtrip by now apply arc_range.
  change (dotted (a :: arcs)) with ([chr_dot] ++ decimal a ++ dotted arcs); rewrite !zlen_app.
  apply append_then; [lia|zl|apply dot_spec; auto; lia|]; intros cbb1 B1 HR1 Ho1.
  apply append_then; [lia|zl|apply add_decimal_spec; auto; lia|]; intros cbb2 B2 HR2 Ho2.
  apply IH; auto; [cbn in Hf; lia|now destruct (b_open B2)].
Qed.

Lemma oid_to_text_spec arcs cbb B : valid_arcs arcs -> represents cbb B -> b_open B = [] ->
  refines (zlen (oid_text arcs) + 1) tt (b_add 0 (oid_text arcs ++ [0]) B) cbb B (oid_to_text (oid_octets arcs) cbb).
Proof.
  intros Hv HR Ho; destruct arcs as [|a [|b arcs]]; try contradiction; destruct Hv as (Ha & Hb & Hab & Harcs).
  unfold oid_to_text; cbn [oid_octets]; unfold_max; rewrite base128_roundtrip by (pow2; lia).
  rewrite !oid_text_dotted; change (dotted (b :: arcs)) with ([chr_dot] ++ decimal b ++ dotted arcs).
  assert (forall cbb' B', represents cbb' B' -> length (b_open B') = 0%nat ->
    refines (zlen (dotted arcs) + 1) tt (b_add 0 (dotted arcs ++ [0]) B') cbb' B'
      ((oid_text_loop (length (concat (map base128_octets arcs))) (concat (map base128_octets arcs)) ;;; CBB_add_u8 0 0) cbb')) as Htail.
  { intros cbb' B' HR' Ho'; apply append_then; [lia|lia|apply oid_text_loop_spec; auto|].
    - clear; induction arcs as [|x arcs IH]; cbn [map concat length]; [lia|]; rewrite length_app.
      pose proof (base128_octets_nonempty x); destruct (base128_octets x); [easy|cbn [length]; lia].
    - now destruct (b_open B').
    - intros; apply CBB_add_u8_spec; auto; [lia|unfold byte; lia]. }
  replace ((decimal a ++ [chr_dot] ++ decimal b ++ dotted arcs) ++ [0]) with
    ((decimal a ++ [chr_dot] ++ decimal b) ++ (dotted arcs ++ [0])) by (rewrite <- !app_assoc; reflexivity).
  replace (zlen (decimal a ++ [chr_dot] ++ decimal b ++ dotted arcs) + 1) with
    (zlen (decimal a ++ [chr_dot] ++ decimal b) + (zlen (dotted arcs) + 1)) by zl.
  apply append_then; [lia|zl| |exact Htail]; destruct (80 <=? 40 * a + b) eqn:E80; bool_facts.
  - assert (a = 2) as -> by lia; replace (40 * 2 + b - 80) with b by lia; change (decimal 2) with [50].
    rewrite app_assoc, zlen_app; apply append_then; [lia|zl|apply CBB_add_bytes_spec; auto; [lia|zl]|].
    intros; apply add_decimal_spec; auto; lia.
  - replace ((40 * a + b) / 40) with a by lia; replace ((40 * a + b) mod 40) with b by lia; rewrite !zlen_app.
    apply append_then; [lia|zl|apply add_decimal_spec; auto; lia|]; intros.
    apply append_then; [lia|zl|apply dot_spec; auto; lia|]; intros; apply add_decimal_spec; auto; lia.
Qed.

Lemma oid_text_loop_inv fuel cbs cbb cbb' : bytes cbs -> oid_text_loop fuel cbs cbb = (Some tt, cbb') ->
  exists arcs, Forall arc_ok arcs /\ cbs = concat (map base128_octets arcs).
Proof.
  revert cbs cbb; induction fuel as [|fuel IH]; intros cbs cbb Hb E; cbn [oid_text_loop] in E;
    (destruct (CBS_len cbs =? 0) eqn:El; cbn [negb] in E;
      [bool_facts; exists []; split; [constructor|now apply zlen_0_nil]|]); [discriminate|].
  destruct (parse_base128_integer cbs) as [[v|] copy] eqn:Ep; [|discriminate].
  apply base128_canonical in Ep as [Hv ->]; [|exact Hb].
  apply bytes_app in Hb as [_ Hb]; st_inv E.
  apply IH in E as (arcs & Ha & ->); [|exact Hb]; exists (v :: arcs); split; [constructor; [now apply arc_range|auto]|reflexivity].
Qed.

Lemma oid_to_text_inv cbs cbb cbb' : bytes cbs -> oid_to_text cbs cbb = (Some tt, cbb') ->
  exists arcs, valid_arcs arcs /\ cbs = oid_octets arcs.
Proof.
  unfold oid_to_text; intros Hb E; destruct (parse_base128_integer cbs) as [[v|] copy] eqn:Ep; [|discriminate].
  apply base128_canonical in Ep as [Hv ->]; [|exact Hb]; apply bytes_app in Hb as [_ Hb].
  apply st_bind_inv in E as ([] & c1 & _ & E); apply st_bind_inv in E as ([] & c2 & E & _).
  apply oid_text_loop_inv in E as (arcs & Ha & ->); [|exact Hb].
  set (a := if 80 <=? v then 2 else v / 40); set (b := if 80 <=? v then v - 80 else v mod 40).
  exists (a :: b :: arcs); cbn [valid_arcs oid_octets].
  assert (40 * a + b = v) as -> by (unfold a, b; case_if; lia).
  split; [|reflexivity]; unfold a, b; unfold_max; pow2; case_if; bool_facts; repeat split; auto; lia.
Qed.

(** ** Text to octets *)

Lemma oid_from_text_loop_spec d arcs fuel cbb B : Forall arc_ok arcs -> (length arcs <= fuel)%nat ->
  represents cbb B -> length (b_open B) = d ->
  refines (10 * zlen arcs) tt (b_add d (concat (map base128_octets arcs)) B) cbb B (oid_from_text_loop fuel d (oid_text arcs) cbb).
Proof.
  intros Ha; revert fuel cbb B; induction Ha as [|a arcs Ha Has IH]; intros fuel cbb B Hf HR Ho.
  { destruct fuel; apply (st_ret_refines d); auto. }
  destruct fuel as [|fuel]; [cbn in Hf; lia|]; cbn [oid_from_text_loop].
  destruct (len_nonempty (oid_text (a :: arcs)) (oid_text_nonempty a arcs)) as [_ ->].
  rewrite dotted_text by exact Ha; cbn [map concat]; apply (refines_cost (10 + 10 * zlen arcs)); [zl|].
  apply append_then; [lia|zl|apply add_base128_integer_spec; auto; now apply arc_range|].
  intros; apply IH; auto; cbn in Hf; lia.
Qed.

Lemma length_arcs_text arcs : (length arcs <= length (oid_text arcs))%nat.
Proof.
  destruct arcs as [|a arcs]; [cbn; lia|]; rewrite oid_text_dotted, length_app.
  pose proof (decimal_nonempty a); destruct (decimal a); [easy|]; cbn [length].
  assert (length arcs <= length (dotted arcs))%nat; [|lia].
  unfold dotted; clear; induction arcs as [|x arcs IH]; cbn [map concat length app] in *; [lia|]; rewrite length_app; lia.
Qed.

Lemma oid_from_text_spec d arcs cbb B : valid_arcs arcs -> represents cbb B -> (d <= length (b_open B))%nat ->
  refines (10 * zlen arcs) tt (b_add d (oid_octets arcs) B) cbb B (CBB_add_asn1_oid_from_text d (oid_text arcs) cbb).
Proof.
  intros Hv HR Hd; destruct arcs as [|a [|b arcs]]; try contradiction; destruct Hv as (Ha & Hb & Hab & Harcs).
  unfold CBB_add_asn1_oid_from_text; unfold CBS_init; rewrite ztake_all by lia.
  rewrite !dotted_text by (unfold arc_ok; unfold_max; lia).
  assert ((2 <? a) || ((a <? 2) && (39 <? b)) || (UINT64_MAX - 80 <? b) = false) as ->.
  { rewrite !orb_false_iff, andb_false_iff, !Z.ltb_ge; repeat split; lia. }
  apply (refines_cost (0 + (10 + 10 * zlen arcs))); [zl|].
  apply (refines_ext (0 + (10 + 10 * zlen arcs)) _ _ (b_flush d B ≫= b_add d (oid_octets (a :: b :: arcs)))); [lia| |].
  { unfold b_add; destruct (b_flush d B) as [B1|] eqn:E; cbn; [|reflexivity].
    rewrite b_flush_top; [reflexivity|]; eapply b_flush_open; eauto. }
  eapply refines_bind; [zl|now apply CBB_flush_spec|]; intros cbb1 B1 EB HR1.
  pose proof (b_flush_open d B B1 EB Hd) as Ho; cbn [oid_octets].
  apply append_then; [lia|zl| |].
  - unfold_max; rewrite uw_small by (pow2; lia); apply add_base128_integer_spec; auto; pow2; lia.
  - intros; apply oid_from_text_loop_spec; auto; apply length_arcs_text.
Qed.

Lemma oid_from_text_loop_inv fuel d cbs cbb cbb' : oid_from_text_loop fuel d cbs cbb = (Some tt, cbb') ->
  exists arcs, Forall arc_ok arcs /\ cbs = oid_text arcs.
Proof.
  revert cbs cbb; induction fuel as [|fuel IH]; intros cbs cbb E; cbn [oid_from_text_loop] in E;
    (destruct (0 <? CBS_len cbs) eqn:El;
      [|bool_facts; exists []; split; [constructor|]; apply zlen_0_nil; unfold CBS_len in El; pose proof (zlen_nonneg cbs); lia]); [discriminate|].
  destruct (parse_dotted_decimal cbs) as [[v|] rest] eqn:Ep; [|discriminate].
  apply dotted_iff in Ep as (Hv & Hc); st_inv E; apply IH in E as (arcs & Ha & ->).
  exists (v :: arcs); split; [constructor; auto|].
  destruct Hc as [(En & ->)|(En & ->)]; destruct arcs as [|x arcs]; auto; [now apply oid_text_nonempty in En|now destruct En].
Qed.

Lemma oid_from_text_inv d text cbb cbb' : CBB_add_asn1_oid_from_text d text cbb = (Some tt, cbb') ->
  exists arcs, valid_arcs arcs /\ text = oid_text arcs.
Proof.
  unfold CBB_add_asn1_oid_from_text; intros E; apply st_bind_inv in E as ([] & c1 & _ & E).
  unfold CBS_init in E; rewrite ztake_all in E by lia.
  destruct (parse_dotted_decimal text) as [[a|] cbs] eqn:Ea; [|discriminate].
  destruct (parse_dotted_decimal cbs) as [[b|] cbs2] eqn:Eb; [|discriminate].
  revert E; case_if; [discriminate|]; intros E; rewrite !orb_false_iff, andb_false_iff, !Z.ltb_ge in Heqb0.
  apply st_bind_inv in E as ([] & c2 & _ & E); apply oid_from_text_loop_inv in E as (arcs & Ha & ->).
  apply dotted_iff in Ea as (Hva & Hca), Eb as (Hvb & Hcb); unfold arc_ok in Hva, Hvb.
  exists (a :: b :: arcs); split; [repeat split; auto; lia|].
  assert (cbs = oid_text (b :: arcs)) as Eb.
  { destruct Hcb as [(En & ->)|(En & ->)]; destruct arcs as [|x arcs]; auto; [now apply oid_text_nonempty in En|now destruct En]. }
  destruct Hca as [(En & ->)|(En & ->)]; [rewrite Eb in En; now apply oid_text_nonempty in En|now rewrite Eb].
Qed.

Lemma add_finished data : (b_add 0 data empty_builder ≫= finished) = Some data.
Proof. unfold finished, b_add; cbn; now rewrite !app_nil_r. Qed.

(** Dotted text and DER octets of an object identifier convert into each
    other: for every identifier with components of up to 64 bits,
    [CBS_asn1_oid_to_text] gives its dotted form with a terminating NUL and
    [CBB_add_asn1_oid_from_text] its octets, memory permitting. *)
Theorem oid_text_roundtrip arcs : (forall n, malloc_ok n = true) -> valid_arcs arcs -> 10 * zlen (oid_text arcs) + 10 < 2 ^ 64 ->
  CBS_asn1_oid_to_text (oid_octets arcs) = Some (oid_text arcs ++ [0]) /\
  exists cbb, CBB_init 0 = Some cbb /\
    fst ((CBB_add_asn1_oid_from_text 0 (oid_text arcs) ;;; CBB_finish) cbb) = Some (oid_octets arcs).
Proof.
  intros Hm Hv Hl; pose proof (length_arcs_text arcs) as Hlen; pose proof (zlen_nonneg (oid_text arcs)).
  assert (forall c, 0 <= c < 2 ^ 64 -> CBB_init c = Some (cbb_init (fresh c) c true) /\ represents (cbb_init (fresh c) c true) empty_builder) as Hinit.
  { intros c Hc; split; [unfold CBB_init, OPENSSL_malloc; now rewrite Hm, andb_false_r|].
    apply init_represents; [apply zlen_fresh; lia|lia]. }
  split.
  - unfold CBS_asn1_oid_to_text; destruct (Hinit 32 ltac:(pow2; lia)) as [-> HR].
    apply (refines_finish _ _ _ _ HR eq_refl (oid_to_text_spec arcs _ _ Hv HR eq_refl)); [split; auto|lia|apply add_finished].
  - destruct (Hinit 0 ltac:(pow2; lia)) as [-> HR]; eexists; split; [reflexivity|].
    apply (refines_finish _ _ _ _ HR eq_refl (oid_from_text_spec 0 arcs _ _ Hv HR ltac:(cbn; lia))); [split; auto| |apply add_finished].
    unfold zlen in *; lia.
Qed.

(** The conversions of object identifiers accept nothing else: whatever
    allocations fail, when [CBS_asn1_oid_to_text] gives a text its input was
    the octets of an identifier and the text its dotted form; when
    [CBB_add_asn1_oid_from_text] succeeds its input was the dotted form of an
    identifier (at least two components, no leading zeros, no stray dots, no
    overflow) and its octets were appended. *)
Theorem oid_text_exact :
  (forall cbs txt, bytes cbs -> CBS_asn1_oid_to_text cbs = Some txt ->
     exists arcs, valid_arcs arcs /\ cbs = oid_octets arcs /\ txt = oid_text arcs ++ [0]) /\
  (forall d text cbb cbb' B, represents cbb B -> (d <= length (b_open B))%nat ->
     CBB_add_asn1_oid_from_text d text cbb = (Some tt, cbb') ->
     exists arcs B', valid_arcs arcs /\ text = oid_text arcs /\ b_add d (oid_octets arcs) B = Some B' /\ represents cbb' B').
Proof.
  split.
  - intros cbs txt Hb E; unfold CBS_asn1_oid_to_text in E; destruct (CBB_init 32) as [cbb|] eqn:Ei; [|discriminate].
    assert (represents cbb empty_builder /\ phi cbb empty_builder = 0) as [HR Hphi].
    { unfold CBB_init, OPENSSL_malloc in Ei; destruct (malloc_ok 32); [|discriminate]; injection Ei as <-.
      split; [apply init_represents; [apply zlen_fresh; lia|pow2; lia]|reflexivity]. }
    assert (exists arcs, valid_arcs arcs /\ cbs = oid_octets arcs) as (arcs & Hv & ->).
    { unfold st_bind in E; destruct (oid_to_text cbs cbb) as [[[]|] cbb1] eqn:Et; [|discriminate].
      now apply oid_to_text_inv in Et. }
    exists arcs; split; [exact Hv|split; [reflexivity|]].
    apply (refines_finish _ _ _ _ HR Hphi (oid_to_text_spec arcs _ _ Hv HR eq_refl)) in E.
    rewrite add_finished in E; congruence.
  - intros d text cbb cbb' B HR Hd E; destruct (oid_from_text_inv _ _ _ _ E) as (arcs & Hv & ->).
    pose proof (oid_from_text_spec d arcs cbb B Hv HR Hd) as Hr; rewrite E in Hr.
    destruct Hr as (_ & _ & B' & EB & HR' & _); eauto 6.
Qed.
End Specs.

Lemma oid_text_roundtrip_witness :
  CBS_asn1_oid_to_text (H := allocator_total) (oid_octets [1; 2; 840]) = Some ([49; 46; 50; 46; 56; 52; 48] ++ [0]).
Proof.
  apply (oid_text_roundtrip (H := allocator_total) [1; 2; 840]); [reflexivity| |vm_compute; reflexivity].
  repeat split; try (unfold_max; lia); each_literal.
Defined.

(** ** Validity *)

(** The octets of one integer: all but the last have the high bit, and the
    first is not a padding [0x80]. *)
Definition oid_group (g : list Z) : Prop :=
  exists hi last, g = hi ++ [last] /\ Forall (fun c => 128 <= c < 256) hi /\ 0 <= last < 128 /\ head hi <> Some 128.

Lemma high_bit c : byte c -> (Z.land c 0x80 =? 0) = (c <? 128).
Proof.
  assert (zall (fun c => eqb (Z.land c 0x80 =? 0) (c <? 128)) 0 256 = true) as H by (vm_compute; reflexivity).
  intros Hc; pose proof (zall_spec _ _ _ H c Hc) as E; cbn beta in E; rewrite eqb_true_iff in E; exact E.
Qed.

(** In the middle of an integer ([prev] has the high bit) or between two. *)
Lemma valid_oid_loop_iff prev cbs : byte prev -> bytes cbs ->
  valid_oid_loop prev cbs = true <->
  (if prev <? 128 then exists gs, cbs = concat gs /\ Forall oid_group gs
   else exists hi last gs, cbs = hi ++ [last] ++ concat gs /\ Forall (fun c => 128 <= c < 256) hi /\ 0 <= last < 128 /\ Forall oid_group gs).
Proof.
  intros Hp Hb; revert prev Hp; induction Hb as [|c cbs Hc Hb IH]; intros prev Hp; cbn [valid_oid_loop]; rewrite high_bit by auto.
  - case_if; bool_facts; split; [intros _; exists []; auto|auto|discriminate|intros (hi & last & gs & E & _); now destruct hi].
  - unfold byte in Hc, Hp; destruct (prev <? 128) eqn:Ep; cbn [andb].
    + destruct (c =? 128) eqn:E8; bool_facts.
      * subst c; split; [discriminate|]; intros (gs & E & Hg); exfalso.
        revert E; induction Hg as [|g gs (hi & last & -> & Hhi & Hl & Hh) Hg IHg]; [discriminate|].
        destruct hi as [|x hi]; cbn; intros E; injection E as E1 _; subst; [lia|cbn in Hh; congruence].
      * rewrite IH by auto; destruct (c <? 128) eqn:Ec; bool_facts; split.
        -- intros (gs & -> & Hg); exists ([c] :: gs); split; [reflexivity|]; constructor; [|auto].
           exists [], c; repeat split; auto; try lia; discriminate.
        -- intros (gs & E & Hg); destruct Hg as [|g gs (hi & last & -> & Hhi & Hl & Hh) Hg]; [discriminate|].
           destruct hi as [|x hi]; cbn in E; injection E as -> ->; [eauto|inversion_clear Hhi; lia].
        -- intros (hi & last & gs & -> & Hhi & Hl & Hg); exists ((c :: hi ++ [last]) :: gs).
           split; [cbn; now rewrite <- app_assoc|]; constructor; [|auto].
           exists (c :: hi), last; repeat split; auto; try lia; [constructor; auto; lia|cbn; congruence].
        -- intros (gs & E & Hg); destruct Hg as [|g gs (hi & last & -> & Hhi & Hl & Hh) Hg]; [discriminate|].
           destruct hi as [|x hi]; cbn in E; injection E as -> ->; [lia|]; inversion_clear Hhi.
           exists hi, last, gs; rewrite <- app_assoc; auto.
    + bool_facts; rewrite IH by auto; destruct (c <? 128) eqn:Ec; bool_facts; split.
      * intros (gs & -> & Hg); exists [], c, gs; repeat split; auto; lia.
      * intros (hi & last & gs & E & Hhi & Hl & Hg); destruct hi as [|x hi]; cbn in E; injection E as -> ->; [eauto|inversion_clear Hhi; lia].
      * intros (hi & last & gs & -> & Hhi & Hl & Hg); exists (c :: hi), last, gs; repeat split; auto; try lia; constructor; auto; lia.
      * intros (hi & last & gs & E & Hhi & Hl & Hg); destruct hi as [|x hi]; cbn in E; injection E as -> ->; [lia|].
        inversion_clear Hhi; exists hi, last, gs; auto.
Qed.

(** [CBS_is_valid_asn1_oid] holds exactly for the non-empty sequences of
    minimally encoded base-128 integers, of any size. *)
Theorem valid_oid_exact cbs : bytes cbs ->
  CBS_is_valid_asn1_oid cbs = true <-> exists gs, gs <> [] /\ cbs = concat gs /\ Forall oid_group gs.
Proof.
  intros Hb; unfold CBS_is_valid_asn1_oid; destruct (CBS_len cbs =? 0) eqn:E; bool_facts.
  - apply zlen_0_nil in E as ->; split; [discriminate|]; intros (gs & Hne & E & Hg).
    destruct Hg as [|g gs (hi & last & -> & _) _]; [congruence|]; cbn in E; destruct hi; discriminate.
  - rewrite (valid_oid_loop_iff 0 cbs) by (auto; unfold byte; lia); cbn; split.
    + intros (gs & -> & Hg); exists gs; split; [|auto]; intros ->; now apply E.
    + intros (gs & _ & ? & ?); eauto.
Qed.

Lemma valid_oid_exact_witness : exists gs, gs <> [] /\ [0x2a; 0x86; 0x48] = concat gs /\ Forall oid_group gs.
Proof. apply (valid_oid_exact [0x2a; 0x86; 0x48]); [each_literal|reflexivity]. Defined.
