(* ===== verification/ConstTime.v ===== *)
(** The constant-time primitives of crypto/internal.h (lines 364-500).

    A [crypto_word_t] is a 64-bit word. Each primitive is branch-free bit
    arithmetic; the theorems say which comparison it computes. *)

From S2P Require Import Prelude.

Definition CONSTTIME_TRUE_W : Z := 2 ^ 64 - 1.
Definition CONSTTIME_FALSE_W : Z := 0.

(** The complement of a word. *)
Definition not_w (a : Z) : Z := u64 (Z.lnot a).

Definition constant_time_msb_w (a : Z) : Z := u64 (0 - Z.shiftr a 63).

Definition constant_time_lt_w (a b : Z) : Z :=
  constant_time_msb_w (Z.lxor a (Z.lor (Z.lxor a b) (Z.lxor (u64 (a - b)) a))).

Definition constant_time_lt_8 (a b : Z) : Z := u8 (constant_time_lt_w a b).
Definition constant_time_ge_w (a b : Z) : Z := not_w (constant_time_lt_w a b).
Definition constant_time_ge_8 (a b : Z) : Z := u8 (constant_time_ge_w a b).

Definition constant_time_is_zero_w (a : Z) : Z :=
  constant_time_msb_w (Z.land (not_w a) (u64 (a - 1))).
Definition constant_time_is_zero_8 (a : Z) : Z := u8 (constant_time_is_zero_w a).
Definition constant_time_eq_w (a b : Z) : Z := constant_time_is_zero_w (Z.lxor a b).
Definition constant_time_eq_8 (a b : Z) : Z := u8 (constant_time_eq_w a b).

(** The [int] arguments are converted to words. *)
Definition constant_time_eq_int (a b : Z) : Z := constant_time_eq_w (u64 a) (u64 b).
Definition constant_time_eq_int_8 (a b : Z) : Z := constant_time_eq_8 (u64 a) (u64 b).

Definition constant_time_select_w (mask a b : Z) : Z :=
  Z.lor (Z.land mask a) (Z.land (not_w mask) b).
Definition constant_time_select_8 (mask a b : Z) : Z :=
  let m := u8 mask in Z.lor (Z.land m a) (Z.land (u8 (Z.lnot m)) b).

(** * Words *)

Definition word (a : Z) : Prop := 0 <= a < 2 ^ 64.

Definition mask_w (b : bool) : Z := if b then CONSTTIME_TRUE_W else CONSTTIME_FALSE_W.
Definition mask_8 (b : bool) : Z := if b then 0xff else 0.

Lemma u8_mask b : u8 (mask_w b) = mask_8 b.
Proof. now destruct b. Qed.

Lemma not_mask b : not_w (mask_w b) = mask_w (negb b).
Proof. now destruct b. Qed.

Lemma word_msb a : word a -> Z.testbit a 63 = (2 ^ 63 <=? a).
Proof.
  intros Ha; unfold word in Ha; rewrite Z.testbit_odd, Z.shiftr_div_pow2 by lia.
  destruct (Z.leb_spec (2 ^ 63) a).
  - replace (a / 2 ^ 63) with 1; [reflexivity|]; apply Z.div_unique with (a - 2 ^ 63); lia.
  - rewrite Z.div_small by lia; reflexivity.
Qed.

(** [constant_time_msb_w] spreads the top bit. *)
Lemma msb_spec a : word a -> constant_time_msb_w a = mask_w (Z.testbit a 63).
Proof.
  intros Ha; rewrite word_msb by auto; unfold constant_time_msb_w, word in *.
  rewrite Z.shiftr_div_pow2 by lia; destruct (Z.leb_spec (2 ^ 63) a).
  - replace (a / 2 ^ 63) with 1; [reflexivity|]; apply Z.div_unique with (a - 2 ^ 63); lia.
  - rewrite Z.div_small by lia; reflexivity.
Qed.

Lemma word_lxor a b : word a -> word b -> word (Z.lxor a b).
Proof. intros; now apply lxor_small. Qed.

Lemma word_lor a b : word a -> word b -> word (Z.lor a b).
Proof. intros; now apply lor_small. Qed.

Lemma word_u64 a : word (u64 a).
Proof. apply uw_bound; lia. Qed.

Lemma lt_w_spec a b : word a -> word b -> constant_time_lt_w a b = mask_w (a <? b).
Proof.
  intros Ha Hb; unfold constant_time_lt_w; pose proof (word_u64 (a - b)) as Hd.
  rewrite msb_spec by auto using word_lxor, word_lor; f_equal.
  rewrite !Z.lxor_spec, Z.lor_spec, !Z.lxor_spec, !word_msb by auto.
  unfold word in *; assert (u64 (a - b) = if a <? b then a - b + 2 ^ 64 else a - b) as ->.
  { unfold uw; destruct (Z.ltb_spec a b); [|apply Z.mod_small; lia].
    symmetry; apply Z.mod_unique with (-1); lia. }
  destruct (Z.ltb_spec a b), (Z.leb_spec (2 ^ 63) a), (Z.leb_spec (2 ^ 63) b); cbn [xorb orb];
    destruct (Z.leb_spec (2 ^ 63) (a - b)), (Z.leb_spec (2 ^ 63) (a - b + 2 ^ 64)); cbn; try lia; auto.
Qed.

Lemma is_zero_w_spec a : word a -> constant_time_is_zero_w a = mask_w (a =? 0).
Proof.
  intros Ha; unfold constant_time_is_zero_w, not_w.
  rewrite msb_spec by (apply land_small; [lia|apply word_u64]); f_equal.
  rewrite Z.land_spec, !word_msb by apply word_u64; unfold word in Ha.
  assert (u64 (Z.lnot a) = 2 ^ 64 - 1 - a) as ->.
  { unfold uw, Z.lnot; symmetry; apply Z.mod_unique with (-1); lia. }
  destruct (Z.eqb_spec a 0) as [-> |Hz]; [reflexivity|].
  rewrite uw_small by lia; destruct (Z.leb_spec (2 ^ 63) (2 ^ 64 - 1 - a)), (Z.leb_spec (2 ^ 63) (a - 1));
    cbn; lia || auto.
Qed.

Lemma eq_w_spec a b : word a -> word b -> constant_time_eq_w a b = mask_w (a =? b).
Proof.
  intros Ha Hb; unfold constant_time_eq_w; rewrite is_zero_w_spec by now apply word_lxor.
  f_equal; destruct (Z.eqb_spec (Z.lxor a b) 0) as [E|E], (Z.eqb_spec a b) as [E'|E']; auto; exfalso.
  - now apply E', Z.lxor_eq.
  - subst; now rewrite Z.lxor_nilpotent in E.
Qed.

Lemma eq_8_spec a b : word a -> word b -> constant_time_eq_8 a b = mask_8 (a =? b).
Proof. intros; unfold constant_time_eq_8; now rewrite eq_w_spec, u8_mask. Qed.

Lemma select_8_spec (c : bool) a b : byte a -> byte b ->
  constant_time_select_8 (mask_8 c) a b = if c then a else b.
Proof.
  intros Ha Hb; unfold byte in *; destruct c; unfold constant_time_select_8; cbn [mask_8].
  - change (u8 0xff) with (2 ^ 8 - 1); change (u8 (Z.lnot (2 ^ 8 - 1))) with 0.
    rewrite Z.land_comm, land_low, Z.land_0_l, Z.lor_0_r by lia; apply Z.mod_small; pow2; lia.
  - change (u8 0) with 0; change (u8 (Z.lnot 0)) with (2 ^ 8 - 1).
    rewrite Z.land_0_l, Z.lor_0_l, Z.land_comm, land_low by lia; apply Z.mod_small; pow2; lia.
Qed.

(** The branch-free comparisons compute [<], [>=], [= 0] and [=] of
    64-bit words, as all-ones and all-zeros masks, and the selection picks the
    first word under the former and the second under the latter. *)
Theorem constant_time_comparisons (a b : Z) :
  word a -> word b ->
  constant_time_lt_w a b = mask_w (a <? b) /\ constant_time_ge_w a b = mask_w (b <=? a) /\
  constant_time_is_zero_w a = mask_w (a =? 0) /\ constant_time_eq_w a b = mask_w (a =? b) /\
  (forall c, constant_time_select_w (mask_w c) a b = if c then a else b).
Proof.
  intros Ha Hb; unfold constant_time_ge_w.
  rewrite lt_w_spec, is_zero_w_spec, eq_w_spec, not_mask, Z.leb_antisym by auto.
  repeat split; auto; intros c; unfold constant_time_select_w; rewrite not_mask; unfold word in *.
  assert (forall x, 0 <= x < 2 ^ 64 -> Z.land (2 ^ 64 - 1) x = x) as Hl by
    (intros; rewrite Z.land_comm, land_low by lia; now apply Z.mod_small).
  destruct c; cbn [negb mask_w]; unfold CONSTTIME_TRUE_W, CONSTTIME_FALSE_W.
  - now rewrite Hl, Z.land_0_l, Z.lor_0_r by auto.
  - now rewrite Hl, Z.land_0_l, Z.lor_0_l by auto.
Qed.

Lemma constant_time_comparisons_witness :
  constant_time_lt_w 5 (2 ^ 63) = mask_w (5 <? 2 ^ 63) /\
  constant_time_ge_w 5 (2 ^ 63) = mask_w (2 ^ 63 <=? 5) /\
  constant_time_is_zero_w 5 = mask_w (5 =? 0) /\ constant_time_eq_w 5 (2 ^ 63) = mask_w (5 =? 2 ^ 63) /\
  (forall c, constant_time_select_w (mask_w c) 5 (2 ^ 63) = if c then 5 else 2 ^ 63).
Proof. apply constant_time_comparisons; unfold word; lia. Defined.
