(* ===== verification/Base64.v ===== *)
(** Base64 (crypto/base64/base64.c, lines 66-475): the constant-time character
    tables, the block coder and decoder, and the streaming ones.

    A function that stores through [out] returns the list of the bytes it
    stored there; [out_len] is returned beside it where the C code computes it
    separately. *)

From S2P Require Import Prelude ConstTime.

(** * Characters *)

Definition constant_time_lt_args_8 (a b : Z) : Z := u8 (constant_time_msb_w (u64 (a - b))).

Definition constant_time_in_range_8 (a min max : Z) : Z :=
  constant_time_lt_args_8 (u8 (a - min)) (u8 (max - min + 1)).

Definition chr_A : Z := 65.
Definition chr_Z : Z := 90.
Definition chr_a : Z := 97.
Definition chr_z : Z := 122.
Definition chr_0 : Z := 48.
Definition chr_9 : Z := 57.
Definition chr_plus : Z := 43.
Definition chr_slash : Z := 47.
Definition chr_eq : Z := 61.
Definition chr_nl : Z := 10.

Definition conv_bin2ascii (a : Z) : Z :=
  let a := Z.land (u8 a) 0x3f in
  let ret := constant_time_select_8 (constant_time_eq_8 a 62) chr_plus chr_slash in
  let ret := constant_time_select_8 (constant_time_lt_args_8 a 62) (u8 (a - 52 + chr_0)) ret in
  let ret := constant_time_select_8 (constant_time_lt_args_8 a 52) (u8 (a - 26 + chr_a)) ret in
  constant_time_select_8 (constant_time_lt_args_8 a 26) (u8 (a + chr_A)) ret.

Definition base64_ascii_to_bin (a : Z) : Z :=
  let is_upper := constant_time_in_range_8 a chr_A chr_Z in
  let is_lower := constant_time_in_range_8 a chr_a chr_z in
  let is_digit := constant_time_in_range_8 a chr_0 chr_9 in
  let is_plus := constant_time_eq_8 a chr_plus in
  let is_slash := constant_time_eq_8 a chr_slash in
  let is_equals := constant_time_eq_8 a chr_eq in
  let ret := Z.land is_upper (u8 (a - chr_A)) in
  let ret := Z.lor ret (Z.land is_lower (u8 (a - chr_a + 26))) in
  let ret := Z.lor ret (Z.land is_digit (u8 (a - chr_0 + 52))) in
  let ret := Z.lor ret (Z.land is_plus 62) in
  let ret := Z.lor ret (Z.land is_slash 63) in
  let is_valid := Z.lor (Z.lor (Z.lor (Z.lor (Z.lor is_upper is_lower) is_digit) is_plus) is_slash) is_equals in
  Z.lor ret (u8 (Z.lnot is_valid)).

(** * Block coding *)

Definition EVP_EncodedLength (len : Z) : option Z :=
  if u64 (len + 2) <? len then None
  else
    let len := u64 (len + 2) / 3 in
    if negb (Z.shiftr (u64 (Z.shiftl len 2)) 2 =? len) then None
    else
      let len := u64 (Z.shiftl len 2) in
      if u64 (len + 1) <? len then None else Some (u64 (len + 1)).

(** The characters stored, without the NUL that follows them. *)
Fixpoint EVP_EncodeBlock (src : list Z) : list Z :=
  match src with
  | [] => []
  | [a] =>
      let l := Z.shiftl a 16 in
      [conv_bin2ascii (Z.shiftr l 18); conv_bin2ascii (Z.shiftr l 12); chr_eq; chr_eq]
  | [a; b] =>
      let l := Z.lor (Z.shiftl a 16) (Z.shiftl b 8) in
      [conv_bin2ascii (Z.shiftr l 18); conv_bin2ascii (Z.shiftr l 12);
       conv_bin2ascii (Z.shiftr l 6); chr_eq]
  | a :: b :: c :: src =>
      let l := Z.lor (Z.lor (Z.shiftl a 16) (Z.shiftl b 8)) c in
      conv_bin2ascii (Z.shiftr l 18) :: conv_bin2ascii (Z.shiftr l 12) ::
      conv_bin2ascii (Z.shiftr l 6) :: conv_bin2ascii l :: EVP_EncodeBlock src
  end.

Definition EVP_DecodedLength (len : Z) : option Z :=
  if negb (len mod 4 =? 0) then None else Some (len / 4 * 3).

(** The bytes of one quad, or [None] when it is not valid. *)
Definition base64_decode_quad (i0 i1 i2 i3 : Z) : option (list Z) :=
  let a := base64_ascii_to_bin i0 in
  let b := base64_ascii_to_bin i1 in
  let c := base64_ascii_to_bin i2 in
  let d := base64_ascii_to_bin i3 in
  if (a =? 0xff) || (b =? 0xff) || (c =? 0xff) || (d =? 0xff) then None
  else
    let v := Z.lor (Z.lor (Z.lor (Z.shiftl a 18) (Z.shiftl b 12)) (Z.shiftl c 6)) d in
    let bit (x : Z) (n : Z) := Z.shiftl (Z.b2z (x =? chr_eq)) n in
    let padding_pattern := Z.lor (Z.lor (Z.lor (bit i0 3) (bit i1 2)) (bit i2 1)) (bit i3 0) in
    if padding_pattern =? 0 then Some [u8 (Z.shiftr v 16); u8 (Z.shiftr v 8); u8 v]
    else if padding_pattern =? 1 then Some [u8 (Z.shiftr v 16); u8 (Z.shiftr v 8)]
    else if padding_pattern =? 3 then Some [u8 (Z.shiftr v 16)]
    else None.

(** The loop of [EVP_DecodeBase64]; the input is a whole number of quads. *)
Fixpoint decode_quads (input : list Z) : option (list Z) :=
  match input with
  | i0 :: i1 :: i2 :: i3 :: rest =>
      match base64_decode_quad i0 i1 i2 i3 with
      | None => None
      | Some o =>
          if negb (zlen o =? 3) && negb (zlen rest =? 0) then None
          else match decode_quads rest with
               | None => None
               | Some os => Some (o ++ os)
               end
      end
  | _ => Some []
  end.

Definition EVP_DecodeBase64 (max_out : Z) (input : list Z) : option (list Z) :=
  if negb (zlen input mod 4 =? 0) then None
  else match EVP_DecodedLength (zlen input) with
       | None => None
       | Some max_len => if max_out <? max_len then None else decode_quads input
       end.

Definition is_blank (c : Z) : bool := (c =? 32) || (c =? 9).
Definition is_space (c : Z) : bool := is_blank c || (c =? 13) || (c =? 10).

Fixpoint trim_front (src : list Z) : list Z :=
  match src with
  | c :: src' => if negb (c =? 32) && negb (c =? 9) then src else trim_front src'
  | [] => []
  end.

(** Drops the trailing white space of [rev src]. *)
Fixpoint trim_back (rsrc : list Z) : list Z :=
  match rsrc with
  | c :: r => if is_space c then trim_back r else rsrc
  | [] => []
  end.

(** [-1] is [None]; the result is what [dst] holds, NULs included. *)
Definition EVP_DecodeBlock (src : list Z) : option (list Z) :=
  let src := rev (trim_back (rev (trim_front src))) in
  match EVP_DecodedLength (zlen src) with
  | None => None
  | Some dst_len =>
      if INT_MAX <? dst_len then None
      else match EVP_DecodeBase64 dst_len src with
           | None => None
           | Some dst => Some (dst ++ zrep ((3 - zlen dst mod 3) mod 3) 0)
           end
  end.

(** * Streaming *)

Record EVP_ENCODE_CTX : Type := {
  data_used : Z;
  data : list Z;         (* 48 bytes *)
  eof_seen : bool;
  error_encountered : bool
}.

Definition data_size : Z := 48.

Definition EVP_EncodeInit : EVP_ENCODE_CTX :=
  {| data_used := 0; data := zrep data_size 0; eof_seen := false; error_encountered := false |}.
Definition EVP_DecodeInit : EVP_ENCODE_CTX := EVP_EncodeInit.

Definition set_data (ctx : EVP_ENCODE_CTX) (used : Z) (d : list Z) : EVP_ENCODE_CTX :=
  {| data_used := used; data := d; eof_seen := eof_seen ctx; error_encountered := error_encountered ctx |}.

(** The loop over whole blocks: what is left of the input, the characters
    stored and the running total, [None] when that overflows. *)
Fixpoint encode_blocks (fuel : nat) (input : list Z) (out : list Z) (total : Z) : list Z * list Z * option Z :=
  match fuel with
  | O => (input, out, Some total)
  | S fuel =>
      if data_size <=? zlen input then
        let block := EVP_EncodeBlock (ztake data_size input) in
        let encoded := zlen block in
        let out := out ++ block ++ [chr_nl] in
        if u64 (total + encoded + 1) <? total then (zdrop data_size input, out, None)
        else encode_blocks fuel (zdrop data_size input) out (u64 (total + encoded + 1))
      else (input, out, Some total)
  end.

(** Returns the context, the text stored at [out] and [*out_len]. *)
Definition EVP_EncodeUpdate (ctx : EVP_ENCODE_CTX) (input : list Z) : EVP_ENCODE_CTX * list Z * Z :=
  if zlen input =? 0 then (ctx, [], 0)
  else if zlen input <? data_size - data_used ctx then
    (set_data ctx (u32 (data_used ctx + zlen input)) (zsplice (data ctx) (data_used ctx) input), [], 0)
  else
    let '(ctx, input, out, total) :=
      if negb (data_used ctx =? 0) then
        let todo := data_size - data_used ctx in
        let d := zsplice (data ctx) (data_used ctx) (ztake todo input) in
        let block := EVP_EncodeBlock d in
        (set_data ctx 0 d, zdrop todo input, block ++ [chr_nl], zlen block + 1)
      else (ctx, input, [], 0) in
    let '(input, out, total) := encode_blocks (length input) input out total in
    match total with
    | None => (ctx, out, 0)
    | Some total =>
        let ctx := set_data ctx (zlen input) (zsplice (data ctx) 0 input) in
        (ctx, out, if INT_MAX <? total then 0 else total)
    end.

Definition EVP_EncodeFinal (ctx : EVP_ENCODE_CTX) : EVP_ENCODE_CTX * list Z * Z :=
  if data_used ctx =? 0 then (ctx, [], 0)
  else
    let block := EVP_EncodeBlock (ztake (data_used ctx) (data ctx)) in
    (set_data ctx 0 (data ctx), block ++ [chr_nl], zlen block + 1).

Definition set_decode_error (ctx : EVP_ENCODE_CTX) : EVP_ENCODE_CTX :=
  {| data_used := data_used ctx; data := data ctx; eof_seen := eof_seen ctx; error_encountered := true |}.

(** The loop of [EVP_DecodeUpdate]: [false] when it returns -1. *)
Fixpoint decode_loop (ctx : EVP_ENCODE_CTX) (input : list Z) (out : list Z) : bool * EVP_ENCODE_CTX * list Z :=
  match input with
  | [] => (true, ctx, out)
  | c :: input =>
      if is_space c then decode_loop ctx input out
      else if eof_seen ctx then (false, set_decode_error ctx, out)
      else
        let ctx := set_data ctx (data_used ctx + 1) (zsplice (data ctx) (data_used ctx) [c]) in
        if data_used ctx =? 4 then
          match base64_decode_quad (znth (data ctx) 0) (znth (data ctx) 1) (znth (data ctx) 2) (znth (data ctx) 3) with
          | None => (false, set_decode_error ctx, out)
          | Some o =>
              let ctx := {| data_used := 0; data := data ctx;
                            eof_seen := if zlen o <? 3 then true else eof_seen ctx;
                            error_encountered := error_encountered ctx |} in
              decode_loop ctx input (out ++ o)
          end
        else decode_loop ctx input out
  end.

(** Returns the result of the call, the context and the bytes stored. *)
Definition EVP_DecodeUpdate (ctx : EVP_ENCODE_CTX) (input : list Z) : Z * EVP_ENCODE_CTX * list Z :=
  if error_encountered ctx then (-1, ctx, [])
  else
    let '(ok, ctx, out) := decode_loop ctx input [] in
    if negb ok then (-1, ctx, [])
    else if INT_MAX <? zlen out then (-1, set_decode_error ctx, [])
    else (if eof_seen ctx then 0 else 1, ctx, out).

Definition EVP_DecodeFinal (ctx : EVP_ENCODE_CTX) : Z :=
  if error_encountered ctx || negb (data_used ctx =? 0) then -1 else 1.

Example encode_hello : EVP_EncodeBlock [104; 101; 108; 108; 111] = [97; 71; 86; 115; 98; 71; 56; 61].
Proof. reflexivity. Qed.

Example decode_hello : EVP_DecodeBlock [32; 97; 71; 86; 115; 98; 71; 56; 61; 10] = Some [104; 101; 108; 108; 111; 0].
Proof. reflexivity. Qed.

(** * The alphabet *)

(** The value of a character of the alphabet of RFC 4648. *)
Definition b64_value (c : Z) : option Z :=
  if (chr_A <=? c) && (c <=? chr_Z) then Some (c - chr_A)
  else if (chr_a <=? c) && (c <=? chr_z) then Some (c - chr_a + 26)
  else if (chr_0 <=? c) && (c <=? chr_9) then Some (c - chr_0 + 52)
  else if c =? chr_plus then Some 62
  else if c =? chr_slash then Some 63
  else None.

Lemma conv_table x : 0 <= x < 64 ->
  b64_value (conv_bin2ascii x) = Some x /\ byte (conv_bin2ascii x) /\
  is_space (conv_bin2ascii x) = false /\ conv_bin2ascii x <> chr_eq.
Proof.
  intros Hx.
  pose proof (zall_spec (fun x => (match b64_value (conv_bin2ascii x) with Some y => y =? x | None => false end)
    && (0 <=? conv_bin2ascii x) && (conv_bin2ascii x <? 256) && negb (is_space (conv_bin2ascii x))
    && negb (conv_bin2ascii x =? chr_eq)) 0 64 ltac:(vm_compute; reflexivity) x Hx) as H; cbv beta in H.
  destruct (b64_value _) as [y|]; [|discriminate]; bool_facts; subst y; unfold byte; auto.
Qed.

Lemma bin_table c : byte c ->
  base64_ascii_to_bin c =
  match b64_value c with Some x => x | None => if c =? chr_eq then 0 else 0xff end.
Proof.
  intros Hc; apply Z.eqb_eq.
  apply (zall_spec (fun c => base64_ascii_to_bin c =?
    match b64_value c with Some x => x | None => if c =? chr_eq then 0 else 0xff end) 0 256
    ltac:(vm_compute; reflexivity) c); unfold byte in Hc; lia.
Qed.

Lemma b64_value_range c x : b64_value c = Some x -> 0 <= x < 64.
Proof.
  unfold b64_value, chr_A, chr_Z, chr_a, chr_z, chr_0, chr_9; repeat case_if; intros [= <-]; bool_facts; lia.
Qed.

(** The encoder uses the six low bits only. *)
Lemma conv_low x : 0 <= x -> conv_bin2ascii x = conv_bin2ascii (x mod 64).
Proof.
  intros Hx; unfold conv_bin2ascii.
  replace (Z.land (u8 x) 0x3f) with (Z.land (u8 (x mod 64)) 0x3f); [reflexivity|].
  change 0x3f with (2 ^ 6 - 1); rewrite !land_low by lia; unfold uw; pow2.
  rewrite (Z.mod_mod_divide x 256), (Z.mod_mod_divide (x mod 64) 256) by now exists 4.
  now rewrite Z.mod_mod by lia.
Qed.

Lemma conv_digit x : 0 <= x ->
  base64_ascii_to_bin (conv_bin2ascii x) = x mod 64 /\ is_space (conv_bin2ascii x) = false /\
  conv_bin2ascii x <> chr_eq /\ byte (conv_bin2ascii x).
Proof.
  intros Hx; rewrite conv_low by auto.
  destruct (conv_table (x mod 64)) as (Hv & Hb & Hs & He); [apply Z.mod_pos_bound; lia|].
  rewrite bin_table, Hv by auto; auto.
Qed.

(** * Quads *)

(** The 24-bit value of four digits. *)
Lemma quad_value a b c d : 0 <= a < 64 -> 0 <= b < 64 -> 0 <= c < 64 -> 0 <= d < 64 ->
  Z.lor (Z.lor (Z.lor (Z.shiftl a 18) (Z.shiftl b 12)) (Z.shiftl c 6)) d =
  a * 2 ^ 18 + b * 2 ^ 12 + c * 2 ^ 6 + d.
Proof.
  intros; rewrite shiftl_lor_disjoint by (rewrite ?Z.shiftl_mul_pow2; pow2; lia).
  rewrite (Z.shiftl_mul_pow2 b) by lia.
  replace (a * 2 ^ 18 + b * 2 ^ 12) with ((a * 2 ^ 6 + b) * 2 ^ 12) by (pow2; lia).
  rewrite lor_disjoint by (rewrite ?Z.shiftl_mul_pow2; pow2; lia); rewrite Z.shiftl_mul_pow2 by lia.
  replace ((a * 2 ^ 6 + b) * 2 ^ 12 + c * 2 ^ 6) with (((a * 2 ^ 6 + b) * 2 ^ 6 + c) * 2 ^ 6) by (pow2; lia).
  rewrite lor_disjoint by (pow2; lia); pow2; lia.
Qed.

(** A quad of digits decodes to the bytes of its 24-bit value. *)
Lemma decode_digits i0 i1 i2 i3 a b c d :
  base64_ascii_to_bin i0 = a -> base64_ascii_to_bin i1 = b ->
  base64_ascii_to_bin i2 = c -> base64_ascii_to_bin i3 = d ->
  0 <= a < 64 -> 0 <= b < 64 -> 0 <= c < 64 -> 0 <= d < 64 -> i0 <> chr_eq -> i1 <> chr_eq ->
  let v := a * 2 ^ 18 + b * 2 ^ 12 + c * 2 ^ 6 + d in
  base64_decode_quad i0 i1 i2 i3 =
    if i2 =? chr_eq then (if i3 =? chr_eq then Some [u8 (v / 2 ^ 16)] else None)
    else if i3 =? chr_eq then Some [u8 (v / 2 ^ 16); u8 (v / 2 ^ 8)]
    else Some [u8 (v / 2 ^ 16); u8 (v / 2 ^ 8); u8 v].
Proof.
  intros Ea Eb Ec Ed Ha Hb Hc Hd H0 H1 v; unfold base64_decode_quad; rewrite Ea, Eb, Ec, Ed.
  rewrite !(proj2 (Z.eqb_neq _ 0xff)) by lia; cbn [orb].
  rewrite quad_value, !Z.shiftr_div_pow2 by lia; fold v.
  rewrite (proj2 (Z.eqb_neq i0 _)), (proj2 (Z.eqb_neq i1 _)) by auto.
  now destruct (i2 =? chr_eq), (i3 =? chr_eq).
Qed.

Lemma byte_u8_div a r n : byte a -> 0 <= r < 2 ^ n -> u8 ((a * 2 ^ n + r) / 2 ^ n) = a.
Proof. intros Ha Hr; rewrite div_mul_add by auto; now apply u8_id. Qed.

Lemma eq_is_zero_digit : base64_ascii_to_bin chr_eq = 0.
Proof. reflexivity. Qed.

(** The value of a group of octets, as the encoder builds it. *)
Lemma octets_value a b c : byte a -> byte b -> byte c ->
  Z.lor (Z.lor (Z.shiftl a 16) (Z.shiftl b 8)) c = a * 2 ^ 16 + b * 2 ^ 8 + c.
Proof.
  unfold byte; intros; rewrite shiftl_lor_disjoint by (rewrite ?Z.shiftl_mul_pow2; pow2; lia).
  rewrite (Z.shiftl_mul_pow2 b) by lia.
  replace (a * 2 ^ 16 + b * 2 ^ 8) with ((a * 2 ^ 8 + b) * 2 ^ 8) by (pow2; lia).
  rewrite lor_disjoint by (pow2; lia); pow2; lia.
Qed.

Lemma digits_of v : 0 <= v < 2 ^ 24 ->
  v = (v / 2 ^ 18) mod 64 * 2 ^ 18 + (v / 2 ^ 12) mod 64 * 2 ^ 12 + (v / 2 ^ 6) mod 64 * 2 ^ 6 + v mod 64.
Proof. pow2; intros; Z.to_euclidean_division_equations; lia. Qed.

Definition enc3 (a b c : Z) : list Z := EVP_EncodeBlock [a; b; c].

Lemma encode_cons3 a b c src : EVP_EncodeBlock (a :: b :: c :: src) = enc3 a b c ++ EVP_EncodeBlock src.
Proof. reflexivity. Qed.

(** The quads the encoder writes decode to what it read. *)
Lemma quad3 a b c : byte a -> byte b -> byte c ->
  exists c0 c1 c2 c3, enc3 a b c = [c0; c1; c2; c3] /\ base64_decode_quad c0 c1 c2 c3 = Some [a; b; c] /\
    forall x, In x [c0; c1; c2; c3] -> is_space x = false.
Proof.
  intros Ha Hb Hc; pose proof (octets_value a b c Ha Hb Hc) as Ev.
  set (l := Z.lor (Z.lor (Z.shiftl a 16) (Z.shiftl b 8)) c) in *.
  assert (0 <= l < 2 ^ 24) as Hl by (rewrite Ev; unfold byte in *; pow2; lia).
  assert (forall n, 0 <= Z.shiftr l n) as Hs by (intros; apply Z.shiftr_nonneg; lia).
  destruct (conv_digit (Z.shiftr l 18)) as (E0 & S0 & N0 & B0); [auto|].
  destruct (conv_digit (Z.shiftr l 12)) as (E1 & S1 & N1 & B1); [auto|].
  destruct (conv_digit (Z.shiftr l 6)) as (E2 & S2 & N2 & B2); [auto|].
  destruct (conv_digit l) as (E3 & S3 & N3 & B3); [lia|].
  do 4 eexists; split; [reflexivity|]; fold l; split.
  - erewrite decode_digits; eauto using Z.mod_pos_bound with lia; try (apply Z.mod_pos_bound; lia).
    rewrite (proj2 (Z.eqb_neq _ _) N2), (proj2 (Z.eqb_neq _ _) N3).
    rewrite !Z.shiftr_div_pow2, <- digits_of, Ev by lia; unfold byte in *.
    rewrite <- !Z.add_assoc, (byte_u8_div a) by (auto; pow2; lia).
    replace (a * 2 ^ 16 + (b * 2 ^ 8 + c)) with ((a * 2 ^ 8 + b) * 2 ^ 8 + c) by (pow2; lia).
    rewrite div_mul_add by (pow2; lia); unfold uw; rewrite !mod_mul_add by (pow2; lia); reflexivity.
  - cbn; intros x [<-|[<-|[<-|[<-|[]]]]]; auto.
Qed.

Lemma quad2 a b : byte a -> byte b ->
  exists c0 c1 c2 c3, EVP_EncodeBlock [a; b] = [c0; c1; c2; c3] /\
    base64_decode_quad c0 c1 c2 c3 = Some [a; b] /\ forall x, In x [c0; c1; c2; c3] -> is_space x = false.
Proof.
  intros Ha Hb; pose proof (octets_value a b 0 Ha Hb ltac:(unfold byte; lia)) as Ev.
  rewrite Z.lor_0_r, Z.add_0_r in Ev; set (l := Z.lor (Z.shiftl a 16) (Z.shiftl b 8)) in *.
  assert (0 <= l < 2 ^ 24) as Hl by (rewrite Ev; unfold byte in *; pow2; lia).
  assert (forall n, 0 <= Z.shiftr l n) as Hs by (intros; apply Z.shiftr_nonneg; lia).
  destruct (conv_digit (Z.shiftr l 18)) as (E0 & S0 & N0 & B0); [auto|].
  destruct (conv_digit (Z.shiftr l 12)) as (E1 & S1 & N1 & B1); [auto|].
  destruct (conv_digit (Z.shiftr l 6)) as (E2 & S2 & N2 & B2); [auto|].
  do 4 eexists; split; [reflexivity|]; fold l; split.
  - erewrite decode_digits; eauto using eq_is_zero_digit; try (apply Z.mod_pos_bound; lia); [|lia].
    rewrite (proj2 (Z.eqb_neq _ _) N2), Z.eqb_refl, !Z.shiftr_div_pow2 by lia.
    assert (l mod 64 = 0) as Hz by (rewrite Ev; pow2; Z.to_euclidean_division_equations; lia).
    pose proof (digits_of l Hl) as Hd; rewrite Hz in Hd; rewrite <- Hd, Ev; unfold byte in *.
    rewrite (byte_u8_div a) by (auto; pow2; lia).
    replace (a * 2 ^ 16 + b * 2 ^ 8) with ((a * 2 ^ 8 + b) * 2 ^ 8 + 0) by (pow2; lia).
    rewrite div_mul_add by (pow2; lia); unfold uw; rewrite !mod_mul_add by (pow2; lia); reflexivity.
  - cbn; intros x [<-|[<-|[<-|[<-|[]]]]]; auto.
Qed.

Lemma quad1 a : byte a ->
  exists c0 c1 c2 c3, EVP_EncodeBlock [a] = [c0; c1; c2; c3] /\
    base64_decode_quad c0 c1 c2 c3 = Some [a] /\ forall x, In x [c0; c1; c2; c3] -> is_space x = false.
Proof.
  intros Ha; set (l := Z.shiftl a 16).
  assert (l = a * 2 ^ 16) as Ev by (apply Z.shiftl_mul_pow2; lia).
  assert (0 <= l < 2 ^ 24) as Hl by (rewrite Ev; unfold byte in *; pow2; lia).
  assert (forall n, 0 <= Z.shiftr l n) as Hs by (intros; apply Z.shiftr_nonneg; lia).
  destruct (conv_digit (Z.shiftr l 18)) as (E0 & S0 & N0 & B0); [auto|].
  destruct (conv_digit (Z.shiftr l 12)) as (E1 & S1 & N1 & B1); [auto|].
  do 4 eexists; split; [reflexivity|]; fold l; split.
  - erewrite decode_digits; eauto using eq_is_zero_digit; try (apply Z.mod_pos_bound; lia); try lia.
    rewrite Z.eqb_refl, !Z.shiftr_div_pow2 by lia.
    pose proof (digits_of l Hl) as Hd.
    assert (l mod 64 = 0 /\ (l / 2 ^ 6) mod 64 = 0) as [Hz Hz'] by
      (rewrite Ev; pow2; Z.to_euclidean_division_equations; lia).
    rewrite Hz, Hz' in Hd; rewrite <- Hd, Ev; unfold byte in *.
    rewrite <- (Z.add_0_r (a * 2 ^ 16)), (byte_u8_div a) by (auto; pow2; lia); reflexivity.
  - cbn; intros x [<-|[<-|[<-|[<-|[]]]]]; auto.
Qed.

(** Induction on the groups of three octets the encoder works on. *)
Lemma triple_ind (P : list Z -> Prop) :
  P [] -> (forall a, P [a]) -> (forall a b, P [a; b]) ->
  (forall a b c l, P l -> P (a :: b :: c :: l)) -> forall l, P l.
Proof.
  intros H0 H1 H2 H3 l; remember (length l) as n eqn:En; revert l En.
  induction n as [n IH] using lt_wf_ind; intros [|a [|b [|c l]]] En; auto.
  apply H3, (IH (length l)); cbn in En; lia.
Qed.

Lemma decode_encode src : bytes src -> decode_quads (EVP_EncodeBlock src) = Some src.
Proof.
  induction src as [|a|a b|a b c src IH] using triple_ind; intros Hb; rewrite ?bytes_cons in Hb.
  - reflexivity.
  - destruct (quad1 a) as (c0 & c1 & c2 & c3 & -> & Hq & _); [tauto|]; cbn; now rewrite Hq.
  - destruct (quad2 a b) as (c0 & c1 & c2 & c3 & -> & Hq & _); [tauto..|]; cbn; now rewrite Hq.
  - rewrite encode_cons3.
    destruct (quad3 a b c) as (c0 & c1 & c2 & c3 & -> & Hq & _); [tauto..|].
    cbn [app decode_quads]; rewrite Hq; change (zlen [a; b; c] =? 3) with true; cbn [negb andb].
    now rewrite IH by tauto.
Qed.

Lemma zlen_encode src : zlen (EVP_EncodeBlock src) = (zlen src + 2) / 3 * 4.
Proof.
  induction src as [|a|a b|a b c src IH] using triple_ind; try reflexivity.
  rewrite encode_cons3, zlen_app, IH, !zlen_cons.
  change (zlen (enc3 a b c)) with 4.
  replace (1 + (1 + (1 + zlen src)) + 2) with (zlen src + 2 + 1 * 3) by lia.
  rewrite Z.div_add by lia; lia.
Qed.

(** What [EVP_EncodeBlock] writes is read back by [EVP_DecodeBase64]
    into a buffer of the size [EVP_DecodedLength] asks for. *)
Theorem base64_roundtrip (src : list Z) (max_out : Z) :
  bytes src -> (zlen src + 2) / 3 * 3 <= max_out ->
  EVP_DecodeBase64 max_out (EVP_EncodeBlock src) = Some src.
Proof.
  intros Hb Hm; unfold EVP_DecodeBase64, EVP_DecodedLength; rewrite zlen_encode, Z.mod_mul, Z.div_mul by lia.
  cbn [negb Z.eqb]; rewrite (proj2 (Z.ltb_ge _ _)) by lia; now apply decode_encode.
Qed.

Lemma base64_roundtrip_witness :
  EVP_DecodeBase64 6 (EVP_EncodeBlock [0; 255; 16; 7]) = Some [0; 255; 16; 7].
Proof. apply base64_roundtrip; [repeat constructor; lia|vm_compute; congruence]. Defined.

(** [EVP_EncodedLength] is exactly the size of the text
    [EVP_EncodeBlock] writes and its NUL, and fails exactly when that size does
    not fit a [size_t]. *)
Theorem encoded_length_exact (src : list Z) :
  zlen src < 2 ^ 64 ->
  EVP_EncodedLength (zlen src) =
  if zlen (EVP_EncodeBlock src) + 1 <? 2 ^ 64 then Some (zlen (EVP_EncodeBlock src) + 1) else None.
Proof.
  intros Hl; rewrite zlen_encode; unfold EVP_EncodedLength; pose proof (zlen_nonneg src).
  set (n := zlen src) in *; clearbody n.
  destruct (Z.lt_ge_cases (n + 2) (2 ^ 64)) as [Hs|Hs].
  2: { assert (u64 (n + 2) = n + 2 - 2 ^ 64) as -> by
         (unfold uw; symmetry; apply Z.mod_unique with 1; lia).
       rewrite (proj2 (Z.ltb_lt _ n)), (proj2 (Z.ltb_ge _ _)) by (pow2; Z.to_euclidean_division_equations; lia).
       reflexivity. }
  rewrite uw_small by lia; rewrite (proj2 (Z.ltb_ge _ n)) by lia.
  set (q := (n + 2) / 3); assert (0 <= q /\ 3 * q <= n + 2) by (unfold q; Z.to_euclidean_division_equations; lia).
  rewrite Z.shiftl_mul_pow2, Z.shiftr_div_pow2 by lia; change (2 ^ 2) with 4.
  destruct (Z.lt_ge_cases (q * 4) (2 ^ 64)) as [Hq|Hq].
  - rewrite uw_small, Z.div_mul, Z.eqb_refl by lia; cbn [negb].
    rewrite (uw_small 64 (q * 4 + 1)) by (pow2; lia).
    now rewrite (proj2 (Z.ltb_ge (q * 4 + 1) _)), (proj2 (Z.ltb_lt (q * 4 + 1) _)) by (pow2; lia).
  - rewrite (proj2 (Z.ltb_ge (q * 4 + 1) _)) by lia.
    pose proof (uw_bound 64 (q * 4) ltac:(lia)).
    rewrite (proj2 (Z.eqb_neq _ q)); [reflexivity|].
    pow2; Z.to_euclidean_division_equations; lia.
Qed.

Lemma encoded_length_exact_witness :
  EVP_EncodedLength (zlen [1; 2; 3; 4]) =
  if zlen (EVP_EncodeBlock [1; 2; 3; 4]) + 1 <? 2 ^ 64
  then Some (zlen (EVP_EncodeBlock [1; 2; 3; 4]) + 1) else None.
Proof. apply encoded_length_exact; vm_compute; reflexivity. Defined.

(** * The streaming encoder *)

(** The text of the whole lines of [l] and what is left. *)
Fixpoint lines_from (fuel : nat) (l : list Z) : list Z * list Z :=
  match fuel with
  | O => ([], l)
  | S fuel =>
      if data_size <=? zlen l then
        let '(t, r) := lines_from fuel (zdrop data_size l) in
        (EVP_EncodeBlock (ztake data_size l) ++ [chr_nl] ++ t, r)
      else ([], l)
  end.

Definition encode_lines (l : list Z) : list Z * list Z := lines_from (length l) l.

Definition last_line (l : list Z) : list Z :=
  match l with [] => [] | _ => EVP_EncodeBlock l ++ [chr_nl] end.

(** The PEM-style text of [l]: a line for every 48 octets, and a shorter last
    one. *)
Definition encode_text (l : list Z) : list Z :=
  let '(t, r) := encode_lines l in t ++ last_line r.

Lemma zlen_zdrop_le {A} n (l : list A) : 0 <= n <= zlen l -> length (zdrop n l) = (length l - Z.to_nat n)%nat.
Proof. intros; unfold zdrop; apply length_drop. Qed.

Lemma lines_fuel fuel l : (length l <= fuel)%nat -> lines_from fuel l = encode_lines l.
Proof.
  unfold encode_lines; remember (length l) as n eqn:En; revert fuel l En.
  induction n as [n IH] using lt_wf_ind; intros fuel l En Hf.
  destruct fuel as [|fuel], n as [|n]; try lia; cbn [lines_from]; auto.
  - rewrite (proj2 (Z.leb_gt _ _)); [reflexivity|]; unfold data_size, zlen; lia.
  - destruct (Z.leb_spec data_size (zlen l)) as [Hl|]; [|reflexivity].
    assert (length (zdrop data_size l) = (S n - 48)%nat) as Ed by
      (rewrite zlen_zdrop_le by (unfold data_size in *; lia); rewrite <- En; reflexivity).
    rewrite (IH (S n - 48)%nat ltac:(lia) fuel), (IH (S n - 48)%nat ltac:(lia) n) by (auto; lia); reflexivity.
Qed.

Lemma lines_short l : zlen l < data_size -> encode_lines l = ([], l).
Proof.
  intros Hl; unfold encode_lines; destruct (length l); [reflexivity|]; cbn [lines_from].
  now rewrite (proj2 (Z.leb_gt _ _)).
Qed.

Lemma lines_block b l : zlen b = data_size ->
  encode_lines (b ++ l) = (EVP_EncodeBlock b ++ [chr_nl] ++ (encode_lines l).1, (encode_lines l).2).
Proof.
  intros Hb; rewrite <- (lines_fuel (S (length (b ++ l)))) by lia; cbn [lines_from].
  rewrite (proj2 (Z.leb_le _ _)) by (rewrite zlen_app; zl_pose; lia).
  rewrite ztake_app_eq, zdrop_app_eq, lines_fuel by (auto; rewrite length_app; lia).
  now destruct (encode_lines l).
Qed.

Lemma block_ind (P : list Z -> Prop) :
  (forall l, zlen l < data_size -> P l) ->
  (forall b l, zlen b = data_size -> P l -> P (b ++ l)) -> forall l, P l.
Proof.
  intros Hs Hb l; remember (length l) as n eqn:En; revert l En.
  induction n as [n IH] using lt_wf_ind; intros l En.
  destruct (Z.lt_ge_cases (zlen l) data_size); [auto|].
  rewrite <- (ztake_zdrop data_size l); unfold data_size in *.
  apply Hb; [apply zlen_ztake; lia|]; apply (IH (length (zdrop 48 l))); auto.
  rewrite zlen_zdrop_le by lia; unfold zlen in *; lia.
Qed.

(** Encoding a string in two pieces. *)
Lemma lines_app a b :
  encode_lines (a ++ b) =
  ((encode_lines a).1 ++ (encode_lines ((encode_lines a).2 ++ b)).1,
   (encode_lines ((encode_lines a).2 ++ b)).2).
Proof.
  induction a as [a Ha|c a Hc IH] using block_ind.
  - rewrite (lines_short a) by auto; cbn [fst snd app]; now destruct (encode_lines (a ++ b)).
  - rewrite <- app_assoc, (lines_block c a), (lines_block c (a ++ b)) by auto; cbn [fst snd].
    rewrite IH; cbn [fst snd]; now rewrite <- !app_assoc.
Qed.

Lemma lines_rest l : zlen (encode_lines l).2 < data_size.
Proof.
  induction l as [l Hl|b l Hb IH] using block_ind; [now rewrite lines_short|].
  now rewrite lines_block.
Qed.

Lemma lines_len l : zlen (encode_lines l).1 * 48 <= zlen l * 65.
Proof.
  induction l as [l Hl|b l Hb IH] using block_ind; [rewrite lines_short by auto; cbn; zl|].
  rewrite lines_block by auto; cbn [fst]; rewrite !zlen_app, zlen_encode, Hb.
  change ((data_size + 2) / 3 * 4) with 64; change (zlen [chr_nl]) with 1; unfold data_size in *; lia.
Qed.

Lemma encode_blocks_spec fuel input out total :
  (length input <= fuel)%nat -> 0 <= total -> total + zlen (encode_lines input).1 < 2 ^ 64 ->
  encode_blocks fuel input out total =
  ((encode_lines input).2, out ++ (encode_lines input).1, Some (total + zlen (encode_lines input).1)).
Proof.
  revert fuel out total; induction input as [l Hl|b l Hb IH] using block_ind; intros fuel out total Hf Ht Hov.
  - rewrite lines_short by auto; destruct fuel; cbn [encode_blocks fst snd];
      rewrite ?(proj2 (Z.leb_gt _ _)), app_nil_r, zlen_nil, Z.add_0_r by auto; reflexivity.
  - rewrite lines_block in * by auto; cbn [fst snd] in *; rewrite !zlen_app, zlen_encode, Hb in *.
    change ((data_size + 2) / 3 * 4) with 64 in *; change (zlen [chr_nl]) with 1 in *.
    destruct fuel as [|fuel]; [rewrite length_app in Hf; unfold zlen, data_size in Hb; lia|].
    cbn [encode_blocks]; pose proof (zlen_nonneg l).
    pose proof (zlen_nonneg (encode_lines l).1).
    rewrite (proj2 (Z.leb_le _ _)), ztake_app_eq, zdrop_app_eq by (auto; rewrite ?zlen_app; lia).
    rewrite zlen_encode, Hb; change ((data_size + 2) / 3 * 4) with 64.
    rewrite uw_small, (proj2 (Z.ltb_ge _ _)) by lia.
    rewrite IH by (try lia; rewrite length_app in Hf; unfold zlen, data_size in *; lia).
    f_equal; [f_equal; now rewrite <- !app_assoc|f_equal; lia].
Qed.

(** The context holds the octets of the line in progress. *)
Definition pending (ctx : EVP_ENCODE_CTX) : list Z := ztake (data_used ctx) (data ctx).
Definition encode_ctx_ok (ctx : EVP_ENCODE_CTX) : Prop :=
  zlen (data ctx) = data_size /\ 0 <= data_used ctx < data_size.

Lemma zlen_pending ctx : encode_ctx_ok ctx -> zlen (pending ctx) = data_used ctx.
Proof. intros [Hd Hu]; apply zlen_ztake; lia. Qed.

(** [EVP_EncodeUpdate] adds to the pending octets and writes the lines that
    are complete. *)
Lemma encode_update_spec ctx input :
  encode_ctx_ok ctx -> zlen input <= 2 ^ 30 ->
  let '(ctx', out, n) := EVP_EncodeUpdate ctx input in
  encode_ctx_ok ctx' /\ n = zlen out /\ encode_lines (pending ctx ++ input) = (out, pending ctx').
Proof.
  intros Hok Hin; pose proof (zlen_pending ctx Hok) as Hp; pose proof Hok as [Hd Hu].
  unfold EVP_EncodeUpdate; destruct (Z.eqb_spec (zlen input) 0) as [Hz|Hz].
  { apply zlen_0_nil in Hz as ->; rewrite app_nil_r, lines_short by lia; auto. }
  pose proof (zlen_nonneg input).
  destruct (Z.ltb_spec (zlen input) (data_size - data_used ctx)) as [Hs|Hs].
  { rewrite lines_short by (rewrite zlen_app; lia).
    rewrite uw_small by (unfold data_size in *; pow2; lia).
    split; [split; cbn; [rewrite zlen_zsplice; lia|lia]|split; [reflexivity|]].
    unfold pending; cbn; now rewrite ztake_zsplice by lia. }
  assert (forall ctx1 l out, zlen (data ctx1) = data_size -> zlen out <= 65 -> zlen l <= 2 ^ 30 ->
    let '(ctx', out', n) := (let '(input, out, total) := encode_blocks (length l) l out (zlen out) in
      match total with
      | None => (ctx1, out, 0)
      | Some total => (set_data ctx1 (zlen input) (zsplice (data ctx1) 0 input), out,
                       if INT_MAX <? total then 0 else total)
      end) in
    encode_ctx_ok ctx' /\ n = zlen out' /\ (out ++ (encode_lines l).1, (encode_lines l).2) = (out', pending ctx'))
    as Hblocks.
  { clear; intros ctx1 l out Hd Ho Hl; pose proof (lines_len l); pose proof (lines_rest l).
    pose proof (zlen_nonneg (encode_lines l).2); pose proof (zlen_nonneg out).
    rewrite encode_blocks_spec by (try lia; pow2; lia).
    rewrite (proj2 (Z.ltb_ge INT_MAX _)) by (unfold INT_MAX; pow2; lia).
    split; [split; cbn; [rewrite zlen_zsplice; lia|lia]|split; [now rewrite zlen_app|]].
    unfold pending; cbn; f_equal.
    pose proof (ztake_zsplice (data ctx1) (encode_lines l).2 0) as Ht; rewrite ztake_0, Z.add_0_l in Ht.
    now rewrite Ht by lia. }
  destruct (Z.eqb_spec (data_used ctx) 0) as [E0|E0]; cbn [negb].
  - specialize (Hblocks ctx input [] Hd ltac:(vm_compute; congruence) Hin).
    unfold pending at 1; rewrite E0, ztake_0; cbn [app] in *.
    change (zlen []) with 0 in Hblocks; destruct (let '(_, _, _) := encode_blocks _ _ _ _ in _) as [[? ?] ?].
    destruct Hblocks as (? & ? & E); repeat split; auto; try apply H0; rewrite <- E; now destruct (encode_lines input).
  - set (todo := data_size - data_used ctx) in *.
    assert (zsplice (data ctx) (data_used ctx) (ztake todo input) = pending ctx ++ ztake todo input) as Eb.
    { unfold zsplice, pending; rewrite zlen_ztake, zdrop_all by lia; now rewrite app_nil_r. }
    rewrite Eb; set (blk := pending ctx ++ ztake todo input).
    assert (zlen blk = data_size) as Hblk by (unfold blk; rewrite zlen_app, zlen_ztake; lia).
    assert (zlen (EVP_EncodeBlock blk ++ [chr_nl]) = 65) as H65 by
      (rewrite zlen_app, zlen_encode, Hblk; reflexivity).
    specialize (Hblocks (set_data ctx 0 blk) (zdrop todo input) (EVP_EncodeBlock blk ++ [chr_nl])).
    replace (pending ctx ++ input) with (blk ++ zdrop todo input) by
      (unfold blk; now rewrite <- app_assoc, ztake_zdrop).
    rewrite lines_block by auto; rewrite zlen_app in Hblocks at 2; rewrite zlen_app in H65.
    rewrite zlen_app in Hblocks; change (zlen [chr_nl]) with 1 in *.
    specialize (Hblocks Hblk ltac:(lia) ltac:(rewrite zlen_zdrop; lia)).
    destruct (let '(_, _, _) := encode_blocks _ _ _ _ in _) as [[? ?] ?].
    destruct Hblocks as (? & ? & E); rewrite <- app_assoc in E; auto.
Qed.

(** A whole encoding: the characters the caller collects from [*out_len] of
    each call. *)
Fixpoint encode_updates (ctx : EVP_ENCODE_CTX) (chunks : list (list Z)) : EVP_ENCODE_CTX * list Z :=
  match chunks with
  | [] => (ctx, [])
  | c :: chunks =>
      let '(ctx, out, n) := EVP_EncodeUpdate ctx c in
      let '(ctx, rest) := encode_updates ctx chunks in
      (ctx, ztake n out ++ rest)
  end.

Definition encode_stream (chunks : list (list Z)) : list Z :=
  let '(ctx, text) := encode_updates EVP_EncodeInit chunks in
  let '(_, out, n) := EVP_EncodeFinal ctx in
  text ++ ztake n out.

Lemma encode_updates_spec chunks ctx :
  encode_ctx_ok ctx -> Forall (fun c => zlen c <= 2 ^ 30) chunks ->
  let '(ctx', text) := encode_updates ctx chunks in
  encode_ctx_ok ctx' /\ encode_lines (pending ctx ++ concat chunks) = (text, pending ctx').
Proof.
  intros Hok Hc; revert ctx Hok; induction Hc as [|c chunks Hc _ IH]; intros ctx Hok; cbn [encode_updates concat].
  - split; [auto|]; rewrite app_nil_r, lines_short; [auto|].
    rewrite zlen_pending by auto; apply Hok.
  - pose proof (encode_update_spec ctx c Hok Hc) as Hu.
    destruct (EVP_EncodeUpdate ctx c) as [[ctx1 out] n], Hu as (Hok1 & -> & E1).
    specialize (IH ctx1 Hok1); destruct (encode_updates ctx1 chunks) as [ctx2 rest], IH as [Hok2 E2].
    split; [auto|]; rewrite app_assoc, lines_app, E1; cbn [fst snd]; rewrite E2; cbn [fst snd].
    now rewrite ztake_all by lia.
Qed.

Lemma encode_init_ok : encode_ctx_ok EVP_EncodeInit.
Proof. split; [reflexivity|vm_compute; split; congruence]. Qed.

Lemma encode_stream_text chunks :
  Forall (fun c => zlen c <= 2 ^ 30) chunks -> encode_stream chunks = encode_text (concat chunks).
Proof.
  intros Hc; pose proof (encode_updates_spec chunks _ encode_init_ok Hc) as Hu.
  unfold encode_stream, encode_text; destruct (encode_updates _ _) as [ctx text], Hu as [Hok E].
  change (pending EVP_EncodeInit) with (@nil Z) in E; cbn [app] in E; rewrite E.
  pose proof (zlen_pending ctx Hok) as Hp; unfold EVP_EncodeFinal; destruct (Z.eqb_spec (data_used ctx) 0) as [E0|E0].
  - rewrite E0 in Hp; apply zlen_0_nil in Hp; now rewrite Hp.
  - fold (pending ctx).
    replace (zlen (EVP_EncodeBlock (pending ctx)) + 1) with (zlen (EVP_EncodeBlock (pending ctx) ++ [chr_nl])) by
      (rewrite zlen_app; reflexivity).
    rewrite ztake_all by lia; destruct (pending ctx); [rewrite zlen_nil in Hp; lia|reflexivity].
Qed.

(** The streaming encoder writes the same text however the input is cut
    into calls of [EVP_EncodeUpdate]: a line of 64 characters for every 48
    octets of the whole input, and a shorter last line. *)
Theorem encode_chunk_invariance (chunks : list (list Z)) :
  Forall (fun c => zlen c <= 2 ^ 30) chunks ->
  encode_stream chunks = encode_text (concat chunks).
Proof. apply encode_stream_text. Qed.

Lemma encode_chunk_invariance_witness :
  encode_stream [[1; 2]; []; zrep 50 7; [3]] = encode_text (concat [[1; 2]; []; zrep 50 7; [3]]).
Proof. apply encode_chunk_invariance; repeat constructor; vm_compute; congruence. Defined.

(** * The streaming decoder *)

Lemma decode_loop_app ctx a b out :
  decode_loop ctx (a ++ b) out =
  match decode_loop ctx a out with
  | (true, ctx, out) => decode_loop ctx b out
  | r => r
  end.
Proof.
  revert ctx out; induction a as [|c a IH]; intros ctx out; cbn [app decode_loop]; [reflexivity|].
  destruct (is_space c); [apply IH|]; destruct (eof_seen ctx); [reflexivity|]; cbv zeta.
  destruct (data_used (set_data _ _ _) =? 4); [|apply IH].
  destruct (base64_decode_quad _ _ _ _); [apply IH|reflexivity].
Qed.

Lemma decode_loop_out ctx input out :
  decode_loop ctx input out =
  let '(ok, ctx', out') := decode_loop ctx input [] in (ok, ctx', out ++ out').
Proof.
  revert ctx out; induction input as [|c input IH]; intros ctx out; cbn [decode_loop].
  - now rewrite app_nil_r.
  - destruct (is_space c); [apply IH|]; destruct (eof_seen ctx); [now rewrite app_nil_r|]; cbv zeta.
    destruct (data_used (set_data _ _ _) =? 4); [|apply IH].
    destruct (base64_decode_quad _ _ _ _) as [o|]; [|now rewrite app_nil_r].
    rewrite IH, (IH _ ([] ++ o)); destruct (decode_loop _ input []) as [[? ?] ?].
    cbn [app]; now rewrite app_assoc.
Qed.

(** Between quads, with no padding seen. *)
Definition decode_ready (ctx : EVP_ENCODE_CTX) : Prop :=
  zlen (data ctx) = data_size /\ data_used ctx = 0 /\ eof_seen ctx = false /\ error_encountered ctx = false.

Lemma decode_store u d err c input out :
  is_space c = false -> (u + 1 =? 4) = false ->
  decode_loop {| data_used := u; data := d; eof_seen := false; error_encountered := err |} (c :: input) out =
  decode_loop {| data_used := u + 1; data := zsplice d u [c]; eof_seen := false; error_encountered := err |} input out.
Proof.
  intros Hs Hu; cbn [decode_loop]; rewrite Hs; cbn [eof_seen set_data data_used error_encountered].
  rewrite Hu; reflexivity.
Qed.

Lemma decode_quad_step ctx c0 c1 c2 c3 o input out :
  decode_ready ctx -> (forall x, In x [c0; c1; c2; c3] -> is_space x = false) ->
  base64_decode_quad c0 c1 c2 c3 = Some o ->
  exists ctx', decode_loop ctx (c0 :: c1 :: c2 :: c3 :: input) out = decode_loop ctx' input (out ++ o) /\
    data_used ctx' = 0 /\ error_encountered ctx' = false /\ (zlen o = 3 -> decode_ready ctx').
Proof.
  intros (Hd & Hu & Heof & Herr) Hs Hq; destruct ctx as [u d eof err]; cbn [data_used data eof_seen error_encountered] in *.
  subst u eof err.
  destruct d as [|d0 [|d1 [|d2 [|d3 d]]]]; try (vm_compute in Hd; discriminate).
  cbn [In] in Hs; do 3 (rewrite decode_store by (auto; apply Hs; tauto)).
  set (d' := zsplice (zsplice (zsplice _ _ _) _ _) _ _).
  change d' with (c0 :: c1 :: c2 :: d3 :: d); clear d'.
  cbn [decode_loop]; rewrite (Hs c3) by tauto; cbn [eof_seen]; cbv zeta.
  change (set_data _ _ _) with {| data_used := 4; data := c0 :: c1 :: c2 :: c3 :: d;
                                  eof_seen := false; error_encountered := false |}.
  cbn [data_used data]; change (4 =? 4) with true; cbn iota.
  change (znth (c0 :: c1 :: c2 :: c3 :: d) 0) with c0; change (znth (c0 :: c1 :: c2 :: c3 :: d) 1) with c1.
  change (znth (c0 :: c1 :: c2 :: c3 :: d) 2) with c2; change (znth (c0 :: c1 :: c2 :: c3 :: d) 3) with c3.
  rewrite Hq; eexists; split; [reflexivity|]; cbn [data_used error_encountered]; split; [auto|split; [auto|]].
  intros E3; rewrite E3; split; [cbn [data]; rewrite !zlen_cons in *; exact Hd|repeat split].
Qed.

(** The decoder takes back what the block encoder writes; a following newline
    is skipped. *)
Lemma decode_block ctx src out input :
  decode_ready ctx -> bytes src ->
  exists ctx', decode_loop ctx (EVP_EncodeBlock src ++ [chr_nl] ++ input) out = decode_loop ctx' input (out ++ src) /\
    data_used ctx' = 0 /\ error_encountered ctx' = false /\ (zlen src mod 3 = 0 -> decode_ready ctx').
Proof.
  revert ctx out; induction src as [|a|a b|a b c src IH] using triple_ind; intros ctx out Hr Hb.
  - exists ctx; cbn; rewrite app_nil_r; repeat split; auto; apply Hr.
  - rewrite !bytes_cons in Hb; destruct (quad1 a) as (c0 & c1 & c2 & c3 & -> & Hq & Hs); [tauto|].
    destruct (decode_quad_step ctx c0 c1 c2 c3 [a] ([chr_nl] ++ input) out Hr Hs Hq) as (ctx' & E & H1 & H2 & _).
    exists ctx'; cbn [app] in *; rewrite E; repeat split; auto; discriminate.
  - rewrite !bytes_cons in Hb; destruct (quad2 a b) as (c0 & c1 & c2 & c3 & -> & Hq & Hs); [tauto..|].
    destruct (decode_quad_step ctx c0 c1 c2 c3 [a; b] ([chr_nl] ++ input) out Hr Hs Hq) as (ctx' & E & H1 & H2 & _).
    exists ctx'; cbn [app] in *; rewrite E; repeat split; auto; discriminate.
  - rewrite !bytes_cons in Hb; rewrite encode_cons3.
    destruct (quad3 a b c) as (c0 & c1 & c2 & c3 & -> & Hq & Hs); [tauto..|]; cbn [app].
    destruct (decode_quad_step ctx c0 c1 c2 c3 [a; b; c] (EVP_EncodeBlock src ++ [chr_nl] ++ input) out Hr Hs Hq)
      as (ctx1 & E & _ & _ & Hr1).
    destruct (IH ctx1 (out ++ [a; b; c]) (Hr1 eq_refl) ltac:(tauto)) as (ctx2 & E2 & H1 & H2 & Hr2).
    exists ctx2; cbn [app] in *; rewrite E, E2, <- app_assoc; split; [auto|split; [auto|split; [auto|]]].
    intros Hm; apply Hr2; rewrite !zlen_cons in Hm; revert Hm; clear; Z.to_euclidean_division_equations; lia.
Qed.

Lemma decode_lines ctx l out input :
  decode_ready ctx -> bytes l ->
  exists ctx' pre, decode_loop ctx ((encode_lines l).1 ++ input) out = decode_loop ctx' input (out ++ pre) /\
    decode_ready ctx' /\ l = pre ++ (encode_lines l).2.
Proof.
  revert ctx out; induction l as [l Hl|b l Hb IH] using block_ind; intros ctx out Hr Hby.
  - rewrite lines_short by auto; exists ctx, []; cbn; now rewrite app_nil_r.
  - apply bytes_app in Hby as [Hbb Hbl]; rewrite lines_block by auto; cbn [fst snd].
    rewrite <- !app_assoc.
    destruct (decode_block ctx b out ((encode_lines l).1 ++ input) Hr Hbb) as (ctx1 & E1 & _ & _ & Hr1).
    destruct (IH ctx1 (out ++ b) ltac:(apply Hr1; now rewrite Hb) Hbl) as (ctx2 & pre & E2 & Hr2 & El).
    exists ctx2, (b ++ pre); rewrite E1, E2, <- !app_assoc; repeat split; try apply Hr2; congruence.
Qed.

Lemma decode_text ctx l out :
  decode_ready ctx -> bytes l ->
  exists ctx', decode_loop ctx (encode_text l) out = (true, ctx', out ++ l) /\
    data_used ctx' = 0 /\ error_encountered ctx' = false.
Proof.
  intros Hr Hb; unfold encode_text.
  destruct (decode_lines ctx l out (last_line (encode_lines l).2) Hr Hb) as (ctx1 & pre & E & Hr1 & El).
  destruct (encode_lines l) as [t r]; cbn [fst snd] in *; rewrite E.
  destruct r as [|x r]; cbn [last_line].
  - rewrite app_nil_r in El; subst; exists ctx1; cbn; repeat split; apply Hr1.
  - rewrite El in Hb; apply bytes_app in Hb as [_ Hb].
    destruct (decode_block ctx1 (x :: r) (out ++ pre) [] Hr1 Hb) as (ctx2 & E2 & H1 & H2 & _).
    rewrite app_nil_r in E2; exists ctx2; rewrite E2; cbn [decode_loop]; rewrite El, app_assoc; auto.
Qed.

(** A whole decoding: [None] when any call reports an error. *)
Fixpoint decode_updates (ctx : EVP_ENCODE_CTX) (chunks : list (list Z)) : option (EVP_ENCODE_CTX * list Z) :=
  match chunks with
  | [] => Some (ctx, [])
  | c :: chunks =>
      let '(r, ctx, out) := EVP_DecodeUpdate ctx c in
      if r =? -1 then None
      else match decode_updates ctx chunks with
           | None => None
           | Some (ctx, rest) => Some (ctx, out ++ rest)
           end
  end.

Definition decode_stream (chunks : list (list Z)) : option (list Z) :=
  match decode_updates EVP_DecodeInit chunks with
  | None => None
  | Some (ctx, out) => if EVP_DecodeFinal ctx =? -1 then None else Some out
  end.

(** The errors of the loop are its only ones, but for the size of the output. *)
Lemma decode_update_loop ctx input ok ctx' out :
  error_encountered ctx = false -> decode_loop ctx input [] = (ok, ctx', out) -> zlen out <= INT_MAX ->
  EVP_DecodeUpdate ctx input = if ok then (if eof_seen ctx' then 0 else 1, ctx', out) else (-1, ctx', []).
Proof.
  intros He El Ho; unfold EVP_DecodeUpdate; rewrite He, El; destruct ok; cbn [negb]; [|reflexivity].
  now rewrite (proj2 (Z.ltb_ge _ _)).
Qed.

Lemma decode_loop_error ctx input out ctx' out' :
  decode_loop ctx input out = (true, ctx', out') -> error_encountered ctx' = error_encountered ctx.
Proof.
  revert ctx out; induction input as [|c input IH]; intros ctx out; cbn [decode_loop]; [now intros [= <- <-]|].
  destruct (is_space c); [apply IH|]; destruct (eof_seen ctx); [discriminate|]; cbv zeta.
  destruct (data_used (set_data _ _ _) =? 4); [|intros E; now apply IH in E].
  destruct (base64_decode_quad _ _ _ _); [intros E; now apply IH in E|discriminate].
Qed.

(** Decoding in pieces is decoding the whole, as long as the output of the
    whole fits an [int]. *)
Lemma decode_updates_whole chunks ctx ctx' out :
  error_encountered ctx = false -> decode_loop ctx (concat chunks) [] = (true, ctx', out) ->
  zlen out <= INT_MAX -> decode_updates ctx chunks = Some (ctx', out).
Proof.
  revert ctx out; induction chunks as [|c chunks IH]; intros ctx out He; cbn [concat decode_updates].
  - now intros [= <- <-].
  - rewrite decode_loop_app; destruct (decode_loop ctx c []) as [[[] ctx1] o1] eqn:E1; [|discriminate].
    rewrite decode_loop_out; destruct (decode_loop ctx1 (concat chunks) []) as [[ok ctx2] o2] eqn:E2.
    intros [= -> -> <-] Ho; rewrite zlen_app in Ho; zl_pose.
    rewrite (decode_update_loop ctx c true ctx1 o1) by (auto; lia).
    apply decode_loop_error in E1.
    rewrite (IH ctx1 o2) by (auto; try congruence; lia); now destruct (eof_seen ctx1).
Qed.

(** C6. What the streaming encoder writes, the streaming decoder reads
    back, however the two sides cut their input into calls; line breaks are
    skipped and the padding ends the data. *)
Theorem base64_stream_roundtrip (chunks text_chunks : list (list Z)) :
  Forall bytes chunks -> Forall (fun c => zlen c <= 2 ^ 30) chunks -> zlen (concat chunks) <= INT_MAX ->
  concat text_chunks = encode_stream chunks ->
  decode_stream text_chunks = Some (concat chunks).
Proof.
  intros Hb Hc Hl Ht; rewrite encode_stream_text in Ht by auto.
  assert (bytes (concat chunks)) as Hbc by now apply Forall_concat.
  assert (decode_ready EVP_DecodeInit) as Hr by (repeat split).
  destruct (decode_text EVP_DecodeInit (concat chunks) [] Hr Hbc) as (ctx' & E & Hu & He).
  rewrite <- Ht in E; cbn [app] in E; unfold decode_stream.
  rewrite (decode_updates_whole text_chunks _ ctx' (concat chunks)) by auto.
  unfold EVP_DecodeFinal; now rewrite He, Hu.
Qed.

Lemma base64_stream_roundtrip_witness :
  decode_stream [[65; 81]; [73; 61; 10]] = Some (concat [[1]; [2]]).
Proof.
  apply base64_stream_roundtrip.
  - repeat constructor; unfold byte; lia.
  - repeat constructor; vm_compute; congruence.
  - vm_compute; congruence.
  - vm_compute; reflexivity.
Defined.

(** Cutting the input of the decoder differently does not change what
    it accepts or returns: on any pieces of an input the decoder accepts in
    one call, it accepts and returns the same bytes. *)
Theorem decode_chunk_invariance (chunks : list (list Z)) (ctx : EVP_ENCODE_CTX) (r : Z) (ctx' : EVP_ENCODE_CTX) (out : list Z) :
  error_encountered ctx = false -> EVP_DecodeUpdate ctx (concat chunks) = (r, ctx', out) -> r <> -1 ->
  decode_updates ctx chunks = Some (ctx', out).
Proof.
  intros He; unfold EVP_DecodeUpdate; rewrite He.
  destruct (decode_loop ctx (concat chunks) []) as [[[] ctx1] o1] eqn:E; cbn [negb]; [|intros [= <- <- <-]; lia].
  destruct (Z.ltb_spec INT_MAX (zlen o1)); [intros [= <- <- <-]; lia|intros [= <- <- <-] _].
  now apply decode_updates_whole.
Qed.

Lemma decode_chunk_invariance_witness :
  decode_updates EVP_DecodeInit [[65; 81]; [32; 73; 61; 10]] =
  Some ({| data_used := 0; data := [65; 81; 73; 61] ++ zrep 44 0; eof_seen := true; error_encountered := false |}, [1; 2]).
Proof.
  apply (decode_chunk_invariance _ _ 0); [reflexivity|vm_compute; reflexivity|lia].
Defined.

(** The branch-free character conversions are the alphabet of RFC 4648:
    the encoder's table and the decoder's are inverse to each other, and the
    decoder marks exactly the characters outside the alphabet and the padding
    character with 0xff. *)
Theorem base64_tables :
  (forall x, 0 <= x < 64 -> b64_value (conv_bin2ascii x) = Some x) /\
  (forall c x, byte c -> b64_value c = Some x -> conv_bin2ascii x = c) /\
  (forall c, byte c -> base64_ascii_to_bin c =
     match b64_value c with Some x => x | None => if c =? chr_eq then 0 else 0xff end).
Proof.
  split; [intros x Hx; apply (conv_table x Hx)|split; [|apply bin_table]].
  intros c x Hc E; pose proof (zall_spec (fun c => match b64_value c with
    Some x => conv_bin2ascii x =? c | None => true end) 0 256 ltac:(vm_compute; reflexivity) c Hc) as H.
  cbv beta in H; rewrite E in H; now apply Z.eqb_eq.
Qed.
