(* ===== verification/Stack.v ===== *)
(** STACK_OF (crypto/stack/stack.c, lines 68-534): a growable array of
    pointers, sorted by heap sort and searched by binary search.

    A pointer is a [Z], 0 being NULL; [None] is a NULL [OPENSSL_STACK]. The
    comparison functions are named by function pointers and called through
    [call_cmp_func], a parameter of the model. [data] is the whole array of
    [num_alloc] pointers. *)

From S2P Require Import Prelude.

Record stack : Type := {
  num : Z;
  data : list Z;
  sorted : bool;
  num_alloc : Z;
  comp : Z
}.

Definition STACK : Type := option stack.

Definition kMinSize : Z := 4.
Definition ptr_size : Z := 8.

(** The element at an index of the array, and the store to it. *)
Definition zset (l : list Z) (i v : Z) : list Z := <[Z.to_nat i := v]> l.

Definition set_num (sk : stack) (n : Z) : stack :=
  {| num := n; data := data sk; sorted := sorted sk; num_alloc := num_alloc sk; comp := comp sk |}.
Definition set_data (sk : stack) (d : list Z) : stack :=
  {| num := num sk; data := d; sorted := sorted sk; num_alloc := num_alloc sk; comp := comp sk |}.
Definition set_sorted (sk : stack) (b : bool) : stack :=
  {| num := num sk; data := data sk; sorted := b; num_alloc := num_alloc sk; comp := comp sk |}.

Section Operations.
  Context `{Allocator}.
  Variable call_cmp_func : Z -> Z -> Z -> Z.

Definition OPENSSL_sk_new (c : Z) : STACK :=
  if malloc_ok 40 && malloc_ok (kMinSize * ptr_size)
  then Some {| num := 0; data := zrep kMinSize 0; sorted := false; num_alloc := kMinSize; comp := c |}
  else None.

Definition OPENSSL_sk_new_null : STACK := OPENSSL_sk_new 0.

Definition OPENSSL_sk_num (sk : STACK) : Z :=
  match sk with None => 0 | Some sk => num sk end.

Definition OPENSSL_sk_zero (sk : STACK) : STACK :=
  match sk with
  | None => None
  | Some sk =>
      if num sk =? 0 then Some sk
      else Some {| num := 0; data := zsplice (data sk) 0 (zrep (num sk) 0); sorted := false;
                   num_alloc := num_alloc sk; comp := comp sk |}
  end.

Definition OPENSSL_sk_value (sk : STACK) (i : Z) : Z :=
  match sk with
  | None => 0
  | Some sk => if num sk <=? i then 0 else znth (data sk) i
  end.

Definition OPENSSL_sk_set (sk : STACK) (i value : Z) : Z * STACK :=
  match sk with
  | None => (0, None)
  | Some sk => if num sk <=? i then (0, Some sk) else (value, Some (set_data sk (zset (data sk) i value)))
  end.

(** The pointers passed to the free function, in order. *)
Definition OPENSSL_sk_pop_free_ex (sk : STACK) : list Z :=
  match sk with
  | None => []
  | Some sk => filter (fun p => p <> 0) (ztake (num sk) (data sk))
  end.

(** The array of pointers after a reallocation. *)
Definition realloc_ptrs (d : list Z) (n : Z) : list Z := ztake n d ++ zrep (n - zlen d) uninit_byte.

(** The new number of pointers: twice the old one, or one more when doubling
    overflows; [None] when that overflows too. *)
Definition grow_overflows (alloc n : Z) : bool :=
  (n <? alloc) || negb (u64 (n * ptr_size) / ptr_size =? n).

Definition grow_size (alloc : Z) : option Z :=
  let new_alloc := u64 (Z.shiftl alloc 1) in
  let new_alloc := if grow_overflows alloc new_alloc then u64 (alloc + 1) else new_alloc in
  if grow_overflows alloc new_alloc then None else Some new_alloc.

(** [None] is the failure to grow. *)
Definition sk_grow (sk : stack) : option stack :=
  if num_alloc sk <=? num sk + 1 then
    match grow_size (num_alloc sk) with
    | None => None
    | Some new_alloc =>
        if malloc_ok (u64 (new_alloc * ptr_size)) then
          Some {| num := num sk; data := realloc_ptrs (data sk) new_alloc; sorted := sorted sk;
                  num_alloc := new_alloc; comp := comp sk |}
        else None
    end
  else Some sk.

Definition OPENSSL_sk_insert (sk : STACK) (p whr : Z) : Z * STACK :=
  match sk with
  | None => (0, None)
  | Some sk =>
      if INT_MAX <=? num sk then (0, Some sk)
      else match sk_grow sk with
           | None => (0, Some sk)
           | Some sk =>
               let d :=
                 if num sk <=? whr then zset (data sk) (num sk) p
                 else zset (zsplice (data sk) (whr + 1) (ztake (num sk - whr) (zdrop whr (data sk)))) whr p in
               (num sk + 1, Some {| num := num sk + 1; data := d; sorted := false;
                                    num_alloc := num_alloc sk; comp := comp sk |})
           end
  end.

Definition OPENSSL_sk_delete (sk : STACK) (whr : Z) : Z * STACK :=
  match sk with
  | None => (0, None)
  | Some sk =>
      if num sk <=? whr then (0, Some sk)
      else
        let ret := znth (data sk) whr in
        let d :=
          if negb (whr =? num sk - 1)
          then zsplice (data sk) whr (ztake (num sk - whr - 1) (zdrop (whr + 1) (data sk)))
          else data sk in
        (ret, Some (set_num (set_data sk d) (num sk - 1)))
  end.

(** The first index at or after [i] whose element satisfies [f]. *)
Fixpoint find_from (f : Z -> bool) (i : Z) (l : list Z) : option Z :=
  match l with
  | [] => None
  | x :: l => if f x then Some i else find_from f (i + 1) l
  end.

Definition OPENSSL_sk_delete_ptr (sk : STACK) (p : Z) : Z * STACK :=
  match sk with
  | None => (0, None)
  | Some s =>
      match find_from (fun x => x =? p) 0 (ztake (num s) (data s)) with
      | Some i => OPENSSL_sk_delete sk i
      | None => (0, sk)
      end
  end.

(** The compaction loop: [n] elements remain to be examined from [i]. *)
Fixpoint delete_if_loop (func : Z -> bool) (n : nat) (i new_num : Z) (d : list Z) : Z * list Z :=
  match n with
  | O => (new_num, d)
  | S n =>
      if negb (func (znth d i))
      then delete_if_loop func n (i + 1) (new_num + 1) (zset d new_num (znth d i))
      else delete_if_loop func n (i + 1) new_num d
  end.

Definition OPENSSL_sk_delete_if (func : Z -> bool) (sk : STACK) : STACK :=
  match sk with
  | None => None
  | Some sk =>
      let '(new_num, d) := delete_if_loop func (Z.to_nat (num sk)) 0 0 (data sk) in
      Some (set_num (set_data sk d) new_num)
  end.

Definition OPENSSL_sk_is_sorted (sk : STACK) : bool :=
  match sk with
  | None => true
  | Some sk => sorted sk || (negb (comp sk =? 0) && (num sk <? 2))
  end.

(** The binary search between [lo] and [hi]. *)
Fixpoint bsearch (fuel : nat) (sk : stack) (p lo hi : Z) : option Z :=
  match fuel with
  | O => None
  | S fuel =>
      if lo <? hi then
        let mid := lo + (hi - lo - 1) / 2 in
        let r := call_cmp_func (comp sk) p (znth (data sk) mid) in
        if 0 <? r then bsearch fuel sk p (mid + 1) hi
        else if r <? 0 then bsearch fuel sk p lo mid
        else if hi - lo =? 1 then Some mid
        else bsearch fuel sk p lo (mid + 1)
      else None
  end.

(** [Some i] when it returns one with [*out_index = i]. *)
Definition OPENSSL_sk_find (sk : STACK) (p : Z) : option Z :=
  match sk with
  | None => None
  | Some s =>
      if comp s =? 0 then find_from (fun x => x =? p) 0 (ztake (num s) (data s))
      else if p =? 0 then None
      else if negb (OPENSSL_sk_is_sorted sk)
      then find_from (fun x => call_cmp_func (comp s) p x =? 0) 0 (ztake (num s) (data s))
      else bsearch (Z.to_nat (2 * num s + 1)) s p 0 (num s)
  end.

Definition OPENSSL_sk_shift (sk : STACK) : Z * STACK :=
  match sk with
  | None => (0, None)
  | Some s => if num s =? 0 then (0, sk) else OPENSSL_sk_delete sk 0
  end.

Definition OPENSSL_sk_push (sk : stack) (p : Z) : Z * STACK := OPENSSL_sk_insert (Some sk) p (num sk).

Definition OPENSSL_sk_pop (sk : STACK) : Z * STACK :=
  match sk with
  | None => (0, None)
  | Some s => if num s =? 0 then (0, sk) else OPENSSL_sk_delete sk (num s - 1)
  end.

Definition OPENSSL_sk_dup (sk : STACK) : STACK :=
  match sk with
  | None => None
  | Some sk =>
      if malloc_ok 40 && malloc_ok (ptr_size * num_alloc sk)
      then Some {| num := num sk; data := data sk; sorted := sorted sk;
                   num_alloc := num_alloc sk; comp := comp sk |}
      else None
  end.

Definition parent_idx (idx : Z) : Z := (idx - 1) / 2.
Definition left_idx (idx : Z) : Z := 2 * idx + 1.

Definition swap (d : list Z) (i j : Z) : list Z :=
  let tmp := znth d i in zset (zset d i (znth d j)) j tmp.

(** [down_heap] on the array [d]; [c] is [sk->comp]. *)
Fixpoint down_heap (fuel : nat) (c : Z) (d : list Z) (i n : Z) : list Z :=
  match fuel with
  | O => d
  | S fuel =>
      let left := left_idx i in
      if n <=? left then d
      else
        let next := if call_cmp_func c (znth d i) (znth d left) <? 0 then left else i in
        let right := left + 1 in
        let next := if (right <? n) && (call_cmp_func c (znth d next) (znth d right) <? 0)
                    then right else next in
        if i =? next then d
        else down_heap fuel c (swap d i next) next n
  end.

(** The loop that builds the heap, from index [i] down to 0. *)
Fixpoint build_heap (i : nat) (c : Z) (d : list Z) (n : Z) : list Z :=
  let d := down_heap (Z.to_nat n) c d (Z.of_nat i) n in
  match i with O => d | S i => build_heap i c d n end.

(** The loop that moves the maximum of the first [i + 1] elements to the end. *)
Fixpoint extract_heap (i : nat) (c : Z) (d : list Z) : list Z :=
  match i with
  | O => d
  | S k => extract_heap k c (down_heap i c (swap d 0 (Z.of_nat i)) 0 (Z.of_nat i))
  end.

Definition heap_sort (c : Z) (d : list Z) (n : Z) : list Z :=
  extract_heap (Z.to_nat (n - 1)) c (build_heap (Z.to_nat (parent_idx (n - 1))) c d n).

Definition OPENSSL_sk_sort (sk : STACK) : STACK :=
  match sk with
  | None => None
  | Some s =>
      if (comp s =? 0) || sorted s then sk
      else
        let d := if 2 <=? num s then heap_sort (comp s) (data s) (num s) else data s in
        Some (set_sorted (set_data s d) true)
  end.

(** Returns the old comparison function. *)
Definition OPENSSL_sk_set_cmp_func (sk : stack) (c : Z) : Z * stack :=
  (comp sk, {| num := num sk; data := data sk;
               sorted := if negb (comp sk =? c) then false else sorted sk;
               num_alloc := num_alloc sk; comp := c |}).

(** The copying loop over the elements left: the copies made so far, and
    [inr] of the pointers freed when a copy fails. *)
Fixpoint deep_copy_loop (copy_func : Z -> Z) (l done : list Z) : list Z + list Z :=
  match l with
  | [] => inl done
  | x :: l =>
      if x =? 0 then deep_copy_loop copy_func l (done ++ [x])
      else if copy_func x =? 0 then inr (filter (fun p => p <> 0) done)
      else deep_copy_loop copy_func l (done ++ [copy_func x])
  end.

Definition OPENSSL_sk_deep_copy (copy_func : Z -> Z) (sk : STACK) : STACK + list Z :=
  match OPENSSL_sk_dup sk with
  | None => inl None
  | Some ret =>
      match deep_copy_loop copy_func (ztake (num ret) (data ret)) [] with
      | inl l => inl (Some (set_data ret (l ++ zdrop (num ret) (data ret))))
      | inr freed => inr freed
      end
  end.
End Operations.

Example sort_example :
  OPENSSL_sk_sort (fun _ a b => a - b)
    (Some {| num := 5; data := [5; 1; 4; 1; 3; 0]; sorted := false; num_alloc := 6; comp := 1 |}) =
  Some {| num := 5; data := [1; 1; 3; 4; 5; 0]; sorted := true; num_alloc := 6; comp := 1 |}.
Proof. reflexivity. Qed.
