(* ===== verification/StackSpec.v ===== *)
(** What a STACK_OF promises: the list operations, a sort, and a search that
    finds the earliest match whether or not the stack has been sorted. *)

From S2P Require Import Prelude Stack.
From Stdlib Require Import Permutation.

(** What the comparison functions of the callers promise. *)
Class CmpOrder (cmp : Z -> Z -> Z) : Prop := {
  cmp_antisym : forall a b, Z.sgn (cmp a b) = - Z.sgn (cmp b a);
  cmp_trans : forall a b c, cmp a b <= 0 -> cmp b c <= 0 -> cmp a c <= 0
}.

#[global] Instance CmpOrder_sub : CmpOrder (fun a b => a - b).
Proof. split; intros; [rewrite <- Z.sgn_opp; f_equal; lia|lia]. Qed.

(** * Arrays *)

Lemma length_zset l i v : length (zset l i v) = length l.
Proof. apply length_insert. Qed.

Lemma zlen_zset l i v : zlen (zset l i v) = zlen l.
Proof. unfold zlen; now rewrite length_zset. Qed.

Lemma znth_zset_eq l i v : 0 <= i < zlen l -> znth (zset l i v) i = v.
Proof.
  intros Hi; rewrite znth_lookup; unfold zset; rewrite list_lookup_insert_eq; [reflexivity|].
  unfold zlen in Hi; lia.
Qed.

Lemma znth_zset_ne l i j v : 0 <= i -> 0 <= j -> i <> j -> znth (zset l i v) j = znth l j.
Proof. intros; rewrite !znth_lookup; unfold zset; now rewrite list_lookup_insert_ne by lia. Qed.

Lemma znth_swap l i j k : 0 <= i < zlen l -> 0 <= j < zlen l -> 0 <= k ->
  znth (swap l i j) k = if k =? j then znth l i else if k =? i then znth l j else znth l k.
Proof.
  intros Hi Hj Hk; unfold swap; destruct (Z.eqb_spec k j) as [-> |].
  - now rewrite znth_zset_eq by (rewrite zlen_zset; lia).
  - rewrite znth_zset_ne by lia; destruct (Z.eqb_spec k i) as [-> |].
    + now rewrite znth_zset_eq.
    + now rewrite znth_zset_ne by lia.
Qed.

Lemma zlen_swap l i j : zlen (swap l i j) = zlen l.
Proof. unfold swap; now rewrite !zlen_zset. Qed.

Lemma lookup_znth l i : 0 <= i < zlen l -> l !! Z.to_nat i = Some (znth l i).
Proof.
  intros Hi; rewrite znth_lookup.
  destruct (lookup_lt_is_Some_2 l (Z.to_nat i)) as [x ->]; [unfold zlen in Hi; lia|reflexivity].
Qed.

Lemma znth_split l i : 0 <= i < zlen l -> ztake i l ++ znth l i :: zdrop (i + 1) l = l.
Proof.
  intros Hi; unfold ztake, zdrop; rewrite Z2Nat.inj_add, Nat.add_comm by lia.
  now apply take_drop_middle, lookup_znth.
Qed.

Lemma swap_perm l i j : 0 <= i < zlen l -> 0 <= j < zlen l -> Permutation (swap l i j) l.
Proof. intros Hi Hj; apply Permutation_insert_swap; now apply lookup_znth. Qed.

(** * The heap sort *)

Section Sort.
  Variable call_cmp_func : Z -> Z -> Z -> Z.
  Variable c : Z.
  Context `{Hcmp : !CmpOrder (call_cmp_func c)}.

Abbreviation cmp := (call_cmp_func c).
Definition le (a b : Z) : Prop := cmp a b <= 0.

Lemma le_refl a : le a a.
Proof. pose proof (cmp_antisym a a); unfold le; lia. Qed.

Lemma le_trans a b d : le a b -> le b d -> le a d.
Proof. apply cmp_trans. Qed.

Lemma cmp_lt_le a b : cmp a b < 0 -> le a b.
Proof. unfold le; lia. Qed.

Lemma cmp_nlt_le a b : ~ cmp a b < 0 -> le b a.
Proof. pose proof (cmp_antisym a b); unfold le; lia. Qed.

Lemma le_total a b : le a b \/ le b a.
Proof. destruct (Z.lt_ge_cases (cmp a b) 0); [left; apply cmp_lt_le; lia|right; apply cmp_nlt_le; lia]. Qed.

(** Every element with a parent in the subtree region is at most its parent. *)
Definition heap_from (lo n : Z) (d : list Z) : Prop :=
  forall j, 0 < j < n -> lo <= parent_idx j -> le (znth d j) (znth d (parent_idx j)).

(** The heap property but for the children of [i], which are still below the
    parent of [i]. *)
Definition heap_hole (lo n : Z) (d : list Z) (i : Z) : Prop :=
  (forall j, 0 < j < n -> lo <= parent_idx j -> parent_idx j <> i -> le (znth d j) (znth d (parent_idx j))) /\
  (forall j, 0 < j < n -> parent_idx j = i -> 0 < i -> lo <= parent_idx i ->
     le (znth d j) (znth d (parent_idx i))).

Lemma parent_child j i : 0 < j -> parent_idx j = i -> j = left_idx i \/ j = left_idx i + 1.
Proof. unfold parent_idx, left_idx; intros Hj <-; Z.to_euclidean_division_equations; lia. Qed.

Lemma parent_left i : parent_idx (left_idx i) = i /\ parent_idx (left_idx i + 1) = i.
Proof. unfold parent_idx, left_idx; split; Z.to_euclidean_division_equations; lia. Qed.

Lemma parent_lt j : 0 < j -> 0 <= parent_idx j < j.
Proof. unfold parent_idx; intros; Z.to_euclidean_division_equations; lia. Qed.

(** What [down_heap] leaves alone. *)
Definition rearranges (n : Z) (d d' : list Z) : Prop :=
  Permutation d' d /\ zlen d' = zlen d /\ (forall k, n <= k -> znth d' k = znth d k) /\
  (forall P : Z -> Prop, (forall k, 0 <= k < n -> P (znth d k)) -> forall k, 0 <= k < n -> P (znth d' k)).

Lemma rearranges_refl n d : rearranges n d d.
Proof. repeat split; auto. Qed.

Lemma rearranges_trans n d1 d2 d3 : rearranges n d1 d2 -> rearranges n d2 d3 -> rearranges n d1 d3.
Proof.
  intros (P1 & L1 & T1 & A1) (P2 & L2 & T2 & A2); split; [etransitivity; eauto|].
  split; [congruence|split; [intros; rewrite T2, T1; auto|intros P HP; apply A2, A1, HP]].
Qed.

Lemma rearranges_mono n m d d' : m <= n -> rearranges m d d' -> rearranges n d d'.
Proof.
  intros Hm (P1 & L1 & T1 & A1); split; [auto|split; [auto|split; [intros; apply T1; lia|]]].
  intros P HP k Hk; destruct (Z.lt_ge_cases k m); [apply A1; auto with lia|rewrite T1 by lia; auto].
Qed.

Lemma rearranges_swap n d i j : 0 <= i < n -> 0 <= j < n -> n <= zlen d -> rearranges n d (swap d i j).
Proof.
  intros Hi Hj Hn; split; [apply swap_perm; lia|split; [apply zlen_swap|split]].
  - intros k Hk; rewrite znth_swap by lia; rewrite !(proj2 (Z.eqb_neq _ _)) by lia; reflexivity.
  - intros P HP k Hk; rewrite znth_swap by lia; repeat case_if; auto.
Qed.

(** One round of [down_heap] moves the hole to the largest child. *)
Lemma hole_step lo n d i next : 0 <= lo <= i -> left_idx i < n -> n <= zlen d ->
  parent_idx next = i -> 0 < next < n -> le (znth d i) (znth d next) ->
  (forall j, 0 < j < n -> parent_idx j = i -> le (znth d j) (znth d next)) ->
  heap_hole lo n d i -> heap_hole lo n (swap d i next) next.
Proof.
  intros Hlo Hleft Hn Hp Hnext Hle Hmax [H1 H2]; pose proof (parent_lt next ltac:(lia)).
  split; intros j Hj Hpj.
  - intros Hne; pose proof (parent_lt j ltac:(lia)).
    rewrite !znth_swap by lia; rewrite (proj2 (Z.eqb_neq (parent_idx j) next)) by lia.
    destruct (Z.eqb_spec j next) as [-> |].
    { rewrite Hp, Z.eqb_refl; auto. }
    destruct (Z.eqb_spec (parent_idx j) i) as [Hpi|Hpi].
    { rewrite (proj2 (Z.eqb_neq j i)) by lia; auto. }
    destruct (Z.eqb_spec j i) as [-> |]; auto.
    apply H2; auto; lia.
  - intros _ _; rewrite Hp, !znth_swap by lia; pose proof (parent_lt j ltac:(lia)).
    rewrite (proj2 (Z.eqb_neq j next)), (proj2 (Z.eqb_neq j i)), (proj2 (Z.eqb_neq i next)), Z.eqb_refl by lia.
    rewrite <- Hpj; apply H1; lia.
Qed.

Lemma down_heap_spec fuel lo n d i : 0 <= lo <= i -> i < n -> n <= zlen d -> n - i <= Z.of_nat fuel ->
  heap_hole lo n d i ->
  heap_from lo n (down_heap call_cmp_func fuel c d i n) /\
  rearranges n d (down_heap call_cmp_func fuel c d i n).
Proof.
  revert d i; induction fuel as [|fuel IH]; intros d i Hlo Hi Hn Hf Hh; [lia|]; cbn [down_heap].
  destruct (Z.leb_spec n (left_idx i)) as [Hleaf|Hleft].
  { split; [|apply rearranges_refl]; intros j Hj Hpj; apply Hh; auto; intros E.
    apply parent_child in E; lia. }
  destruct (parent_left i) as [Pl Pr].
  set (next1 := if cmp (znth d i) (znth d (left_idx i)) <? 0 then left_idx i else i).
  assert (le (znth d i) (znth d next1) /\ le (znth d (left_idx i)) (znth d next1)) as [Ha Hb].
  { unfold next1; destruct (Z.ltb_spec (cmp (znth d i) (znth d (left_idx i))) 0);
      split; auto using le_refl, cmp_lt_le; apply cmp_nlt_le; lia. }
  set (next := if _ && _ then left_idx i + 1 else next1).
  assert (le (znth d i) (znth d next) /\ le (znth d (left_idx i)) (znth d next) /\
          (left_idx i + 1 < n -> le (znth d (left_idx i + 1)) (znth d next)) /\
          (next = i \/ parent_idx next = i /\ 0 < next < n)) as (Hi' & Hl & Hr & Hnext).
  { assert (0 < left_idx i) by (unfold left_idx; lia).
    unfold next; destruct (Z.ltb_spec (left_idx i + 1) n); cbn [andb].
    - destruct (Z.ltb_spec (cmp (znth d next1) (znth d (left_idx i + 1))) 0) as [Hc|Hc].
      + apply cmp_lt_le in Hc; repeat split; eauto using le_refl, le_trans; right; auto with lia.
      + repeat split; auto; [intros _; apply cmp_nlt_le; lia|].
        unfold next1; case_if; auto; right; split; auto; lia.
    - repeat split; auto; [lia|]; unfold next1; case_if; auto; right; split; auto; lia. }
  assert (forall j, 0 < j < n -> parent_idx j = i -> le (znth d j) (znth d next)) as Hmax.
  { intros j Hj Hp; destruct (parent_child j i ltac:(lia) Hp) as [-> | ->]; auto; apply Hr; lia. }
  destruct (Z.eqb_spec i next) as [Ei|Ei].
  - split; [|apply rearranges_refl]; intros j Hj Hpj.
    destruct (Z.eq_dec (parent_idx j) i) as [E|E]; [rewrite E; specialize (Hmax j Hj E); now rewrite <- Ei in Hmax|now apply Hh].
  - destruct Hnext as [?|[Hp Hb']]; [congruence|].
    pose proof (parent_lt next ltac:(lia)).
    destruct (IH (swap d i next) next) as [Hheap Hre]; try lia.
    + rewrite zlen_swap; lia.
    + now apply hole_step.
    + split; [auto|]; eapply rearranges_trans; [|exact Hre]; apply rearranges_swap; lia.
Qed.

Lemma build_heap_spec i n d : 0 < n <= zlen d -> Z.of_nat i < n ->
  heap_from (Z.of_nat i + 1) n d ->
  heap_from 0 n (build_heap call_cmp_func i c d n) /\ rearranges n d (build_heap call_cmp_func i c d n).
Proof.
  revert d; induction i as [|i IH]; intros d Hn Hi Hh; cbn [build_heap].
  - apply (down_heap_spec _ 0); auto; try lia; split; intros j Hj Hp; [intros Hne|lia].
    apply Hh; auto; pose proof (parent_lt j ltac:(lia)); lia.
  - destruct (down_heap_spec (Z.to_nat n) (Z.of_nat (S i)) n d (Z.of_nat (S i))) as [Hh1 Hr1]; try lia.
    { split; intros j Hj Hp.
      - intros Hne; apply Hh; auto; pose proof (parent_lt j ltac:(lia)); lia.
      - intros Hpos Hlo; pose proof (parent_lt (Z.of_nat (S i)) ltac:(lia)); lia. }
    set (d1 := down_heap _ _ _ _ _ _) in *; pose proof Hr1 as (_ & L1 & _).
    destruct (IH d1) as [Hh2 Hr2]; [lia|lia|now replace (Z.of_nat i + 1) with (Z.of_nat (S i)) by lia|].
    split; [auto|eapply rearranges_trans; eauto].
Qed.

(** The root of a heap is its maximum. *)
Lemma heap_max n d k : heap_from 0 n d -> 0 <= k < n -> le (znth d k) (znth d 0).
Proof.
  intros Hh; remember (Z.to_nat k) as m eqn:Em; revert k Em.
  induction m as [m IH] using lt_wf_ind; intros k Em Hk.
  destruct (Z.eq_dec k 0) as [-> |]; [apply le_refl|].
  pose proof (parent_lt k ltac:(lia)); eapply le_trans; [apply Hh; lia|].
  apply (IH (Z.to_nat (parent_idx k))); lia.
Qed.

(** The elements from [i] on are in order and above those before [i]. *)
Definition sorted_from (i n : Z) (d : list Z) : Prop :=
  forall a b, 0 <= a <= b -> b < n -> i <= b -> le (znth d a) (znth d b).

Lemma extract_heap_spec i n d : 0 <= Z.of_nat i < n -> n <= zlen d ->
  heap_from 0 (Z.of_nat i + 1) d -> sorted_from (Z.of_nat i + 1) n d ->
  sorted_from 0 n (extract_heap call_cmp_func i c d) /\ rearranges n d (extract_heap call_cmp_func i c d).
Proof.
  revert d; induction i as [|k IH]; intros d Hi Hn Hh Hs; cbn [extract_heap].
  - split; [|apply rearranges_refl]; intros a b Hab Hb _.
    destruct (Z.eq_dec b 0) as [-> |]; [replace a with 0 by lia; apply le_refl|apply Hs; lia].
  - set (i := Z.of_nat (S k)) in *; set (d1 := swap d 0 i).
    assert (rearranges (i + 1) d d1) as Hr1 by (apply rearranges_swap; lia).
    assert (zlen d1 = zlen d) as L1 by apply zlen_swap.
    assert (forall j, 0 <= j -> znth d1 j = if j =? i then znth d 0 else if j =? 0 then znth d i else znth d j) as Hd1
      by (intros; apply znth_swap; lia).
    destruct (down_heap_spec (S k) 0 i d1 0) as [Hh2 Hr2]; try lia.
    { split; intros j Hj Hp; [intros Hne|lia]; pose proof (parent_lt j ltac:(lia)).
      rewrite !Hd1, !(proj2 (Z.eqb_neq _ i)), !(proj2 (Z.eqb_neq _ 0)) by lia; apply Hh; lia. }
    set (d2 := down_heap _ _ _ _ _ _) in *; pose proof Hr2 as (P2 & L2 & T2 & A2).
    replace i with (Z.of_nat k + 1) in Hh2 by (unfold i; lia).
    assert (forall m, 0 <= m <= i -> le (znth d2 m) (znth d 0)) as Htop.
    { intros m Hm; destruct (Z.eq_dec m i) as [-> |].
      - rewrite T2, Hd1, Z.eqb_refl by lia; apply le_refl.
      - apply (A2 (fun x => le x (znth d 0))); [|lia]; intros q Hq; cbv beta.
        rewrite Hd1 by lia; repeat case_if; bool_facts; try lia; apply (heap_max (i + 1)); auto; lia. }
    assert (forall m b, 0 <= m <= i -> i < b < n -> le (znth d2 m) (znth d2 b)) as Hbelow.
    { intros m b Hm Hb; rewrite (T2 b), (Hd1 b), !(proj2 (Z.eqb_neq b _)) by lia.
      eapply le_trans; [apply Htop; lia|]; apply Hs; lia. }
    destruct (IH d2) as [Hs3 Hr3]; [lia|lia|auto| |].
    + intros a b Hab Hb Hib; destruct (Z.eq_dec b i) as [-> |].
      * rewrite (T2 i), Hd1, Z.eqb_refl by lia; apply Htop; lia.
      * destruct (Z.le_gt_cases a i); [apply Hbelow; lia|].
        rewrite !T2, !Hd1, !(proj2 (Z.eqb_neq _ i)), !(proj2 (Z.eqb_neq _ 0)) by lia; apply Hs; lia.
    + split; [auto|]; eapply rearranges_trans; [|exact Hr3].
      eapply rearranges_trans; [|eapply rearranges_mono; [|exact Hr2]; lia].
      eapply rearranges_mono; [|exact Hr1]; lia.
Qed.

Lemma heap_sort_spec n d : 2 <= n <= zlen d ->
  sorted_from 0 n (heap_sort call_cmp_func c d n) /\ rearranges n d (heap_sort call_cmp_func c d n).
Proof.
  intros Hn; unfold heap_sort; pose proof (parent_lt (n - 1) ltac:(lia)).
  destruct (build_heap_spec (Z.to_nat (parent_idx (n - 1))) n d) as [Hh Hr]; [lia|lia| |].
  { intros j Hj Hp; exfalso; unfold parent_idx in *; Z.to_euclidean_division_equations; lia. }
  set (d1 := build_heap _ _ _ _ _) in *; pose proof Hr as (_ & L1 & _).
  destruct (extract_heap_spec (Z.to_nat (n - 1)) n d1) as [Hs Hr2]; [lia|lia| | |].
  - now replace (Z.of_nat (Z.to_nat (n - 1)) + 1) with n by lia.
  - intros a b Hab Hb Hi; lia.
  - split; [auto|eapply rearranges_trans; eauto].
Qed.
End Sort.

(** * The contents of a stack *)

Definition contents (sk : stack) : list Z := ztake (num sk) (data sk).

Definition stack_wf (sk : stack) : Prop :=
  zlen (data sk) = num_alloc sk /\ 0 <= num sk <= num_alloc sk /\ 1 <= num_alloc sk < 2 ^ 64.

(** The flag is set only on a stack whose elements are in order. *)
Definition flag_ok (call_cmp_func : Z -> Z -> Z -> Z) (sk : stack) : Prop :=
  sorted sk = true -> sorted_from call_cmp_func (comp sk) 0 (num sk) (data sk).

Lemma zlen_contents sk : stack_wf sk -> zlen (contents sk) = num sk.
Proof. intros (Hl & Hn & _); apply zlen_ztake; lia. Qed.

Lemma rearranges_contents n d d' : 0 <= n <= zlen d -> rearranges n d d' ->
  Permutation (ztake n d') (ztake n d) /\ zdrop n d' = zdrop n d.
Proof.
  intros Hn (P & L & T & _).
  assert (zdrop n d' = zdrop n d) as E.
  { apply znth_ext; [rewrite !zlen_zdrop; lia|]; intros i Hi; rewrite !znth_zdrop by lia; apply T; lia. }
  split; [|auto]; rewrite <- (ztake_zdrop n d), <- (ztake_zdrop n d'), E in P.
  now apply Permutation_app_inv_r in P.
Qed.

Section Specs.
  Context `{Allocator}.
  Variable call_cmp_func : Z -> Z -> Z -> Z.

(** ** Insertion and deletion *)

Lemma grow_size_spec a n : 1 <= a < 2 ^ 64 -> grow_size a = Some n -> a < n < 2 ^ 64.
Proof.
  intros Ha; unfold grow_size; rewrite Z.shiftl_mul_pow2 by lia; change (2 ^ 1) with 2.
  cbv zeta; set (n' := if grow_overflows a (u64 (a * 2)) then u64 (a + 1) else u64 (a * 2)).
  destruct (grow_overflows a n') eqn:Eb; [discriminate|intros [= <-]].
  assert (a <= n') by (unfold grow_overflows in Eb; bool_facts; lia).
  assert (n' < 2 ^ 64) by (unfold n'; case_if; apply uw_bound; lia).
  destruct (Z.eq_dec n' a) as [E|]; [exfalso|lia].
  unfold n' in E; destruct (grow_overflows a (u64 (a * 2))) eqn:Ed.
  - destruct (Z.eq_dec a (2 ^ 64 - 1)) as [-> |]; [vm_compute in E; discriminate|].
    rewrite uw_small in E; lia.
  - destruct (Z.lt_ge_cases (a * 2) (2 ^ 64)); [rewrite uw_small in E; lia|].
    unfold uw in E; rewrite <- (Z.mod_add _ (-1)), Z.mod_small in E by lia; lia.
Qed.

Lemma sk_grow_spec sk sk' : stack_wf sk -> sk_grow sk = Some sk' ->
  stack_wf sk' /\ num sk' = num sk /\ contents sk' = contents sk /\ comp sk' = comp sk /\ num sk < num_alloc sk'.
Proof.
  intros (Hl & Hn & Ha); unfold sk_grow; destruct (Z.leb_spec (num_alloc sk) (num sk + 1)).
  2: { intros [= <-]; repeat split; auto; lia. }
  destruct (grow_size (num_alloc sk)) as [n'|] eqn:Eg; [|discriminate].
  apply grow_size_spec in Eg; [|auto]; case_if; [|discriminate]; intros [= <-].
  unfold stack_wf, contents; cbn [num data num_alloc comp].
  assert (zlen (realloc_ptrs (data sk) n') = n') as Hz.
  { unfold realloc_ptrs; rewrite zlen_app, ztake_all, zlen_zrep by lia; lia. }
  repeat split; auto; try lia.
  unfold realloc_ptrs; rewrite (ztake_all n') by lia.
  rewrite <- (ztake_zdrop (num sk) (data sk)) at 1; rewrite <- app_assoc.
  apply ztake_app_eq; now rewrite zlen_ztake by lia.
Qed.

Lemma insert_end (d : list Z) n p : 0 <= n < zlen d -> ztake (n + 1) (zset d n p) = ztake n d ++ [p].
Proof.
  intros Hn; apply znth_ext.
  - rewrite zlen_app, !zlen_ztake by (rewrite ?zlen_zset; lia); reflexivity.
  - intros i Hi; rewrite zlen_ztake in Hi by (rewrite zlen_zset; lia); rewrite znth_ztake by lia.
    destruct (Z.eq_dec i n) as [-> |].
    + rewrite znth_zset_eq, znth_app2, zlen_ztake, Z.sub_diag by (rewrite ?zlen_ztake; lia); reflexivity.
    + rewrite znth_zset_ne, znth_app1, znth_ztake by (rewrite ?zlen_ztake; lia); reflexivity.
Qed.

Lemma insert_mid (d : list Z) n w p : 0 <= w < n -> n < zlen d ->
  ztake (n + 1) (zset (zsplice d (w + 1) (ztake (n - w) (zdrop w d))) w p) = ztake w d ++ p :: ztake (n - w) (zdrop w d).
Proof.
  intros Hw Hn; set (m := ztake (n - w) (zdrop w d)).
  assert (zlen m = n - w) as Hm by (unfold m; rewrite zlen_ztake by (rewrite zlen_zdrop; lia); lia).
  replace (zsplice d (w + 1) m) with (ztake w d ++ znth d w :: m ++ zdrop (n + 1) d).
  - assert (zlen (ztake w d) = w) as Hw' by (apply zlen_ztake; lia).
    replace (zset _ w p) with (ztake w d ++ p :: m ++ zdrop (n + 1) d).
    + rewrite app_comm_cons, app_assoc; apply ztake_app_eq; rewrite zlen_app, zlen_cons; lia.
    + unfold zset; replace (Z.to_nat w) with (length (ztake w d)) by (unfold zlen in Hw'; lia).
      now rewrite insert_app_r_alt, Nat.sub_diag by lia.
  - unfold zsplice; rewrite Hm; replace (w + 1 + (n - w)) with (n + 1) by lia.
    rewrite <- (znth_split d w) at 4 by lia.
    assert (zlen (ztake w d ++ [znth d w]) = w + 1) by (rewrite zlen_app, zlen_ztake by lia; reflexivity).
    replace (ztake w d ++ znth d w :: zdrop (w + 1) d) with ((ztake w d ++ [znth d w]) ++ zdrop (w + 1) d)
      by now rewrite <- app_assoc.
    rewrite ztake_app_eq by auto; now rewrite <- app_assoc.
Qed.

(** Insertion at [whr], or at the end when [whr] is out of range. *)
Lemma sk_insert_spec sk p whr n sk' :
  stack_wf sk -> 0 <= whr -> OPENSSL_sk_insert (Some sk) p whr = (n, sk') -> n <> 0 ->
  exists s', sk' = Some s' /\ stack_wf s' /\ n = num sk + 1 /\ num s' = n /\ sorted s' = false /\ comp s' = comp sk /\
    contents s' = ztake whr (contents sk) ++ p :: zdrop whr (contents sk).
Proof.
  intros Hwf Hw; cbn [OPENSSL_sk_insert]; case_if; [intros [= <- <-]; lia|].
  destruct (sk_grow sk) as [s1|] eqn:Eg; [|intros [= <- <-]; lia].
  destruct (sk_grow_spec sk s1 Hwf Eg) as ((Hl & Hn & Ha) & En & Ec & Ecmp & Hroom).
  intros [= <- <-] Hnz; eexists; split; [reflexivity|]; rewrite En in *; rewrite <- Ec.
  unfold stack_wf; cbn [num data num_alloc comp sorted].
  assert (zlen (contents s1) = num sk) as Hz by (unfold contents; rewrite En; apply zlen_ztake; lia).
  destruct (Z.leb_spec (num sk) whr).
  - rewrite zlen_zset, (ztake_all whr), (zdrop_all whr) by lia; repeat split; auto; try lia.
    unfold contents; cbn; rewrite En; apply insert_end; lia.
  - assert (zlen (zset (zsplice (data s1) (whr + 1) (ztake (num sk - whr) (zdrop whr (data s1)))) whr p) = num_alloc s1).
    { rewrite zlen_zset, zlen_zsplice; [auto|lia|].
      rewrite zlen_ztake by (rewrite zlen_zdrop; lia); lia. }
    repeat split; auto; try lia; unfold contents; cbn; rewrite En, insert_mid by lia.
    rewrite <- (ztake_zdrop whr (data s1)) at 3 4.
    assert (zlen (ztake whr (data s1)) = whr) by (apply zlen_ztake; lia).
    rewrite (ztake_app_ge (num sk)), ztake_app_eq, zdrop_app_eq by lia; congruence.
Qed.

Lemma sk_delete_spec sk whr :
  stack_wf sk -> 0 <= whr < num sk ->
  exists s', OPENSSL_sk_delete (Some sk) whr = (znth (contents sk) whr, Some s') /\ stack_wf s' /\
    num s' = num sk - 1 /\ sorted s' = sorted sk /\ comp s' = comp sk /\
    contents s' = ztake whr (contents sk) ++ zdrop (whr + 1) (contents sk).
Proof.
  intros (Hl & Hn & Ha) Hw; cbn [OPENSSL_sk_delete]; rewrite (proj2 (Z.leb_gt _ _)) by lia.
  unfold contents at 1; rewrite znth_ztake by lia; eexists; split; [reflexivity|].
  set (d := if negb (whr =? num sk - 1)
            then zsplice (data sk) whr (ztake (num sk - whr - 1) (zdrop (whr + 1) (data sk))) else data sk).
  assert (zlen d = num_alloc sk /\ ztake (num sk - 1) d = ztake whr (contents sk) ++ zdrop (whr + 1) (contents sk))
    as [Hd Hc].
  { unfold d, contents; destruct (Z.eqb_spec whr (num sk - 1)) as [E|E]; cbn [negb].
    - split; [auto|]; rewrite (zdrop_all (whr + 1)) by (rewrite zlen_ztake; lia).
      rewrite app_nil_r, <- E; unfold ztake; rewrite take_take; f_equal; lia.
    - set (m := ztake (num sk - whr - 1) (zdrop (whr + 1) (data sk))).
      assert (zlen m = num sk - whr - 1) as Hm by (unfold m; rewrite zlen_ztake by (rewrite zlen_zdrop; lia); lia).
      split; [rewrite zlen_zsplice; lia|]; unfold zsplice; rewrite app_assoc, ztake_app_eq
        by (rewrite zlen_app, zlen_ztake; lia).
      f_equal; [unfold ztake; rewrite take_take; f_equal; lia|].
      unfold m, ztake, zdrop; rewrite skipn_firstn_comm; f_equal; lia. }
  unfold stack_wf; cbn [num data num_alloc comp sorted set_num set_data]; unfold contents at 1; cbn.
  repeat split; auto; lia.
Qed.

(** The first match in a list. *)
Lemma find_from_spec f i l :
  match find_from f i l with
  | Some k => i <= k < i + zlen l /\ f (znth l (k - i)) = true /\
              forall j, 0 <= j < k - i -> f (znth l j) = false
  | None => forall j, 0 <= j < zlen l -> f (znth l j) = false
  end.
Proof.
  revert i; induction l as [|x l IH]; intros i; cbn [find_from]; [intros j Hj; change (zlen []) with 0 in Hj; lia|].
  rewrite zlen_cons; assert (forall j, 0 < j -> znth (x :: l) j = znth l (j - 1)) as Hs.
  { intros j Hj; apply (znth_app2 [x] l j); change (zlen [x]) with 1; lia. }
  pose proof (zlen_nonneg l); destruct (f x) eqn:Ex.
  - rewrite Z.sub_diag; split; [lia|split; [auto|lia]].
  - specialize (IH (i + 1)); destruct (find_from f (i + 1) l) as [k|].
    + destruct IH as (Hk & Hf & Hb); split; [lia|split; [rewrite Hs by lia; replace (k - i - 1) with (k - (i + 1)) by lia; auto|]].
      intros j Hj; destruct (Z.eq_dec j 0) as [-> |]; [auto|rewrite Hs by lia; apply Hb; lia].
    + intros j Hj; destruct (Z.eq_dec j 0) as [-> |]; [auto|rewrite Hs by lia; apply IH; lia].
Qed.

(** The compaction keeps the elements for which [func] is false, in order. *)
Lemma delete_if_loop_spec func n i m d :
  0 <= m <= i -> i + Z.of_nat n <= zlen d ->
  let '(m', d') := delete_if_loop func n i m d in
  zlen d' = zlen d /\ m <= m' <= i + Z.of_nat n /\
  ztake m' d' = ztake m d ++ List.filter (fun x => negb (func x)) (ztake (Z.of_nat n) (zdrop i d)).
Proof.
  revert i m d; induction n as [|n IH]; intros i m d Hm Hi; cbn [delete_if_loop].
  - split; [auto|split; [lia|]]; now rewrite ztake_0, app_nil_r.
  - assert (ztake (Z.of_nat (S n)) (zdrop i d) = znth d i :: ztake (Z.of_nat n) (zdrop (i + 1) d)) as Es.
    { rewrite <- (znth_split d i) at 1 by lia; rewrite zdrop_app_eq by (rewrite zlen_ztake; lia).
      unfold ztake at 1; rewrite Nat2Z.id; cbn [take]; unfold ztake; now rewrite Nat2Z.id. }
    rewrite Es; cbn [List.filter]; destruct (func (znth d i)); cbn [negb].
    + specialize (IH (i + 1) m d ltac:(lia) ltac:(lia)); destruct (delete_if_loop _ _ _ _ _) as [m' d'].
      destruct IH as (? & ? & ?); repeat split; auto; lia.
    + specialize (IH (i + 1) (m + 1) (zset d m (znth d i)) ltac:(lia) ltac:(rewrite zlen_zset; lia)).
      destruct (delete_if_loop _ _ _ _ _) as [m' d'], IH as (L & B & E).
      rewrite zlen_zset in L; split; [auto|split; [lia|]]; rewrite E, insert_end by lia.
      rewrite <- app_assoc; cbn [app]; do 4 f_equal.
      apply znth_ext; [rewrite !zlen_zdrop by (rewrite ?zlen_zset; lia); now rewrite zlen_zset|].
      intros j Hj; rewrite zlen_zdrop, zlen_zset in Hj by (rewrite ?zlen_zset; lia).
      rewrite !znth_zdrop by lia; apply znth_zset_ne; lia.
Qed.

(** ** The binary search *)

Section Search.
  Variable s : stack.
  Variable p : Z.
  Context `{Hcmp : !CmpOrder (call_cmp_func (comp s))}.
  Hypothesis Hsorted : sorted_from call_cmp_func (comp s) 0 (num s) (data s).

Abbreviation cp k := (call_cmp_func (comp s) p (znth (data s) k)).

(** The comparisons of [p] with the elements go down along the array. *)
Lemma search_mono a b : 0 <= a <= b -> b < num s -> (cp a < 0 -> cp b < 0) /\ (0 < cp b -> 0 < cp a).
Proof.
  intros Hab Hb; pose proof (Hsorted a b Hab Hb ltac:(lia)) as Hle; unfold le in Hle.
  pose proof (cmp_antisym p (znth (data s) a)); pose proof (cmp_antisym p (znth (data s) b)).
  pose proof (cmp_trans (znth (data s) a) (znth (data s) b) p Hle).
  pose proof (fun E => cmp_trans p (znth (data s) a) (znth (data s) b) E Hle).
  split; intros; [destruct (Z.lt_ge_cases (cp b) 0)|destruct (Z.lt_ge_cases 0 (cp a))]; auto; exfalso; lia.
Qed.

Definition earliest (r : option Z) : Prop :=
  match r with
  | Some k => 0 <= k < num s /\ cp k = 0 /\ forall j, 0 <= j < k -> cp j <> 0
  | None => forall j, 0 <= j < num s -> cp j <> 0
  end.

Lemma bsearch_spec fuel lo hi :
  0 <= lo <= hi -> hi <= num s -> 2 * (hi - lo) < Z.of_nat fuel ->
  (forall j, 0 <= j < lo -> 0 < cp j) ->
  ((forall j, hi <= j < num s -> cp j < 0) \/ (lo < hi /\ cp (hi - 1) = 0)) ->
  earliest (bsearch call_cmp_func fuel s p lo hi).
Proof.
  revert lo hi; induction fuel as [|fuel IH]; intros lo hi Hlo Hhi Hf Hl Hr; [lia|]; cbn [bsearch].
  destruct (Z.ltb_spec lo hi) as [Hlt|Hge].
  2: { assert (lo = hi) as -> by lia; destruct Hr as [Hr|]; [|lia].
       intros j Hj; destruct (Z.lt_ge_cases j hi); [specialize (Hl j)|specialize (Hr j)]; lia. }
  cbv zeta; set (mid := lo + (hi - lo - 1) / 2).
  assert (lo <= mid < hi /\ (hi - lo <> 1 -> mid + 1 < hi)) as [Hmid Hprog] by
    (unfold mid; Z.to_euclidean_division_equations; lia).
  destruct (Z.ltb_spec 0 (cp mid)) as [Hpos|Hnpos].
  - apply IH; try lia.
    + intros j Hj; destruct (Z.eq_dec j mid) as [-> |]; [auto|].
      apply (search_mono j mid); auto; lia.
    + destruct Hr as [Hr|[_ Hr]]; [auto|].
      destruct (Z.eq_dec mid (hi - 1)) as [E|]; [rewrite E in Hpos; lia|right; split; [lia|auto]].
  - destruct (Z.ltb_spec (cp mid) 0) as [Hneg|Hnneg].
    + apply IH; try lia; auto; left; intros j Hj; apply (search_mono mid j); auto; lia.
    + assert (cp mid = 0) as Hz by lia; destruct (Z.eqb_spec (hi - lo) 1) as [E1|E1].
      * split; [lia|split; [auto|]]; intros j Hj; specialize (Hl j); lia.
      * apply IH; try lia; auto.
        right; split; [lia|]; now replace (mid + 1 - 1) with mid by lia.
Qed.
End Search.
End Specs.

(** * The theorems *)

Section Claims.
  Context `{Allocator}.
  Variable call_cmp_func : Z -> Z -> Z -> Z.

(** C7. [OPENSSL_sk_sort], an in-place heap sort, leaves the elements in
    ascending order of the comparison function, as a permutation of what they
    were, and touches nothing beyond them. *)
Theorem sk_sort_correct (sk : stack) :
  stack_wf sk -> flag_ok call_cmp_func sk -> CmpOrder (call_cmp_func (comp sk)) -> comp sk <> 0 ->
  exists s', OPENSSL_sk_sort call_cmp_func (Some sk) = Some s' /\ stack_wf s' /\ sorted s' = true /\
    num s' = num sk /\ comp s' = comp sk /\ Permutation (contents s') (contents sk) /\
    zdrop (num sk) (data s') = zdrop (num sk) (data sk) /\
    forall a b, 0 <= a <= b -> b < num sk ->
      call_cmp_func (comp sk) (znth (contents s') a) (znth (contents s') b) <= 0.
Proof.
  intros Hwf Hflag Hc Hcomp; pose proof Hwf as (Hl & Hn & Ha); cbn [OPENSSL_sk_sort].
  rewrite (proj2 (Z.eqb_neq (comp sk) 0)) by auto; cbn [orb].
  assert (forall s', num s' = num sk -> sorted_from call_cmp_func (comp sk) 0 (num sk) (data s') ->
    forall a b, 0 <= a <= b -> b < num sk ->
      call_cmp_func (comp sk) (znth (contents s') a) (znth (contents s') b) <= 0) as Hso.
  { intros s' En Hs a b Hab Hb; unfold contents; rewrite En, !znth_ztake by lia; apply Hs; lia. }
  destruct (sorted sk) eqn:Es.
  { exists sk; do 5 (split; [now auto|]); do 2 (split; [now auto|]); auto. }
  eexists; split; [reflexivity|]; cbn [set_sorted set_data num comp sorted data num_alloc].
  destruct (Z.leb_spec 2 (num sk)) as [H2|H2].
  - destruct (heap_sort_spec call_cmp_func (comp sk) (num sk) (data sk)) as [Hs Hr]; [lia|].
    pose proof Hr as (_ & L & _).
    destruct (rearranges_contents (num sk) (data sk) _ ltac:(lia) Hr) as [Hp Hd].
    repeat split; auto; cbn; lia.
  - assert (sorted_from call_cmp_func (comp sk) 0 (num sk) (data sk)) by
      (intros a b Hab Hb _; replace a with b by lia; now apply le_refl).
    repeat split; auto; cbn; lia.
Qed.

(** [OPENSSL_sk_find] returns the earliest element that compares equal,
    by binary search on a sorted stack and by a scan otherwise, and fails only
    when there is none. *)
Theorem sk_find_earliest (sk : stack) (p : Z) :
  stack_wf sk -> flag_ok call_cmp_func sk -> CmpOrder (call_cmp_func (comp sk)) -> comp sk <> 0 -> p <> 0 ->
  match OPENSSL_sk_find call_cmp_func (Some sk) p with
  | Some k => 0 <= k < num sk /\ call_cmp_func (comp sk) p (znth (contents sk) k) = 0 /\
              forall j, 0 <= j < k -> call_cmp_func (comp sk) p (znth (contents sk) j) <> 0
  | None => forall j, 0 <= j < num sk -> call_cmp_func (comp sk) p (znth (contents sk) j) <> 0
  end.
Proof.
  intros Hwf Hflag Hc Hcomp Hp; pose proof Hwf as (Hl & Hn & Ha); cbn [OPENSSL_sk_find].
  rewrite (proj2 (Z.eqb_neq (comp sk) 0)), (proj2 (Z.eqb_neq p 0)) by auto; cbn [OPENSSL_sk_is_sorted].
  rewrite (proj2 (Z.eqb_neq (comp sk) 0)) by auto; cbn [negb andb].
  destruct (sorted sk || (num sk <? 2)) eqn:Es; cbn [negb].
  - assert (sorted_from call_cmp_func (comp sk) 0 (num sk) (data sk)) as Hs.
    { apply orb_true_iff in Es as [Es|Es]; [now apply Hflag|bool_facts].
      intros a b Hab Hb _; replace a with b by lia; now apply le_refl. }
    pose proof (bsearch_spec call_cmp_func sk p Hs (Z.to_nat (2 * num sk + 1)) 0 (num sk)) as Hb.
    unfold earliest in Hb; specialize (Hb ltac:(lia) ltac:(lia) ltac:(lia) ltac:(lia) ltac:(left; lia)).
    destruct (bsearch _ _ _ _ _ _) as [k|].
    + destruct Hb as (Hk & Hz & Hj); unfold contents; rewrite znth_ztake by lia.
      split; [auto|split; [auto|]]; intros j Hj'; rewrite znth_ztake by lia; auto.
    + intros j Hj; unfold contents; rewrite znth_ztake by lia; auto.
  - fold (contents sk).
    pose proof (find_from_spec (fun x => call_cmp_func (comp sk) p x =? 0) 0 (contents sk)) as Hf.
    rewrite zlen_contents, Z.add_0_l in Hf by auto; destruct (find_from _ 0 _) as [k|].
    + rewrite Z.sub_0_r in Hf; destruct Hf as (Hk & Hz & Hj); split; [auto|split; [now apply Z.eqb_eq|]].
      intros j Hj'; now apply Z.eqb_neq, Hj.
    + intros j Hj; now apply Z.eqb_neq, Hf.
Qed.

(** Insertion and deletion are those of a list: a successful
    [OPENSSL_sk_insert] puts the pointer at its place (at the end when the place
    is out of range) and clears the sorted flag, a failed one changes nothing,
    and [OPENSSL_sk_delete] removes and returns the element, keeping the rest
    in order. *)
Theorem sk_insert_delete (sk : stack) (p whr : Z) :
  stack_wf sk -> 0 <= whr ->
  (let '(n, sk') := OPENSSL_sk_insert (Some sk) p whr in
   (n = 0 /\ sk' = Some sk) \/
   (n = num sk + 1 /\ exists s', sk' = Some s' /\ stack_wf s' /\ sorted s' = false /\
      contents s' = ztake whr (contents sk) ++ p :: zdrop whr (contents sk))) /\
  (let '(q, sk') := OPENSSL_sk_delete (Some sk) whr in
   if whr <? num sk then
     q = znth (contents sk) whr /\ exists s', sk' = Some s' /\ stack_wf s' /\
       contents s' = ztake whr (contents sk) ++ zdrop (whr + 1) (contents sk)
   else q = 0 /\ sk' = Some sk).
Proof.
  intros Hwf Hw; split.
  - destruct (OPENSSL_sk_insert (Some sk) p whr) as [n sk'] eqn:E.
    destruct (Z.eq_dec n 0) as [-> |Hnz].
    + left; split; [reflexivity|]; cbn in E; case_if; [congruence|].
      destruct (sk_grow sk) as [s1|] eqn:Eg; [|congruence].
      destruct (sk_grow_spec sk s1 Hwf Eg) as ((_ & ? & _) & _); injection E as E _; lia.
    + right; destruct (sk_insert_spec sk p whr n sk' Hwf Hw E Hnz) as (s' & -> & ? & -> & _ & ? & _ & ?); eauto 10.
  - destruct (Z.ltb_spec whr (num sk)).
    + destruct (sk_delete_spec sk whr Hwf ltac:(lia)) as (s' & -> & ? & _ & _ & _ & ?); eauto.
    + cbn; now rewrite (proj2 (Z.leb_le _ _)).
Qed.

(** [OPENSSL_sk_delete_if] keeps exactly the elements for which the
    callback returns zero, in their order. *)
Theorem sk_delete_if_filters (sk : stack) (func : Z -> bool) :
  stack_wf sk ->
  exists s', OPENSSL_sk_delete_if func (Some sk) = Some s' /\ stack_wf s' /\
    contents s' = List.filter (fun x => negb (func x)) (contents sk).
Proof.
  intros (Hl & Hn & Ha); cbn [OPENSSL_sk_delete_if].
  pose proof (delete_if_loop_spec func (Z.to_nat (num sk)) 0 0 (data sk) ltac:(lia) ltac:(lia)) as Hd.
  destruct (delete_if_loop _ _ _ _ _) as [m d], Hd as (L & B & E).
  eexists; split; [reflexivity|]; unfold stack_wf, contents; cbn [num data num_alloc set_num set_data].
  rewrite ztake_0, zdrop_0, Z2Nat.id in E by lia; repeat split; auto; lia.
Qed.

(** The comparison functions of the caller are all orders. *)
Definition orders_ok : Prop := forall c, CmpOrder (call_cmp_func c).

Lemma sorted_sublist c n d d' n' (f : Z -> Z) :
  sorted_from call_cmp_func c 0 n d ->
  (forall a, 0 <= a < n' -> 0 <= f a < n /\ znth d' a = znth d (f a)) ->
  (forall a b, 0 <= a <= b -> b < n' -> f a <= f b) -> sorted_from call_cmp_func c 0 n' d'.
Proof.
  intros Hs Hf Hm a b Hab Hb _; destruct (Hf a ltac:(lia)) as [Ha ->], (Hf b ltac:(lia)) as [Hb' ->].
  apply Hs; try lia; split; [lia|auto].
Qed.

Lemma delete_keeps_order sk whr : stack_wf sk -> 0 <= whr < num sk -> flag_ok call_cmp_func sk ->
  forall s', OPENSSL_sk_delete (Some sk) whr = (znth (contents sk) whr, Some s') -> flag_ok call_cmp_func s'.
Proof.
  intros Hwf Hw Hflag s' E; destruct (sk_delete_spec sk whr Hwf Hw) as (s1 & E1 & Hwf1 & En & Es & Ec & Hc).
  rewrite E in E1; injection E1 as <-; intros Hs'; rewrite Es in Hs'; rewrite Ec.
  apply (sorted_sublist _ (num sk) (data sk) (data s') (num s') (fun a => if a <? whr then a else a + 1)); auto.
  - intros a Ha; assert (znth (data s') a = znth (contents s') a) as -> by (unfold contents; now rewrite znth_ztake).
    pose proof (zlen_contents sk Hwf) as Hz; rewrite Hc; destruct (Z.ltb_spec a whr).
    + rewrite znth_app1 by (rewrite zlen_ztake; lia); unfold contents; rewrite !znth_ztake by lia; split; [lia|auto].
    + rewrite znth_app2, zlen_ztake, znth_zdrop by (rewrite ?zlen_ztake; lia).
      unfold contents; rewrite znth_ztake by lia; split; [lia|f_equal; lia].
  - intros a b Hab Hb; destruct (Z.ltb_spec a whr), (Z.ltb_spec b whr); lia.
Qed.

(** The sorted flag is never set on a stack out of order: it is false
    in a new stack, cleared by insertion and by a change of comparison function,
    kept by deletion only over elements that stay in order, and set by the sort. *)
Theorem sk_sorted_flag_invariant (sk : stack) (p whr c : Z) :
  stack_wf sk -> flag_ok call_cmp_func sk -> orders_ok -> 0 <= whr ->
  (forall s', OPENSSL_sk_new c = Some s' -> flag_ok call_cmp_func s') /\
  (forall n s', OPENSSL_sk_insert (Some sk) p whr = (n, Some s') -> flag_ok call_cmp_func s') /\
  (forall q s', OPENSSL_sk_delete (Some sk) whr = (q, Some s') -> flag_ok call_cmp_func s') /\
  (forall s', OPENSSL_sk_zero (Some sk) = Some s' -> flag_ok call_cmp_func s') /\
  flag_ok call_cmp_func (snd (OPENSSL_sk_set_cmp_func sk c)) /\
  (forall s', OPENSSL_sk_sort call_cmp_func (Some sk) = Some s' -> flag_ok call_cmp_func s').
Proof.
  intros Hwf Hflag Hord Hw; repeat split.
  - unfold OPENSSL_sk_new; case_if; [intros s' [= <-]; discriminate|discriminate].
  - intros n s' E; destruct (Z.eq_dec n 0) as [-> |Hnz].
    + cbn in E; case_if; [injection E as <-; auto|].
      destruct (sk_grow sk) as [s1|] eqn:Eg; injection E as E; subst; auto; discriminate.
    + destruct (sk_insert_spec sk p whr n _ Hwf Hw E Hnz) as (s1 & [= <-] & _ & _ & _ & Hs & _).
      intros Hs'; congruence.
  - intros q s' E; destruct (Z.lt_ge_cases whr (num sk)).
    + destruct (sk_delete_spec sk whr Hwf ltac:(lia)) as (s1 & E1 & _).
      rewrite E in E1; injection E1 as -> <-; eapply delete_keeps_order; eauto.
    + cbn in E; rewrite (proj2 (Z.leb_le _ _)) in E by lia; injection E as _ <-; auto.
  - cbn; case_if; intros s' [= <-]; [auto|discriminate].
  - cbn; destruct (Z.eqb_spec (comp sk) c) as [<-|]; [auto|discriminate].
  - cbn [OPENSSL_sk_sort]; destruct ((comp sk =? 0) || sorted sk) eqn:Ec; intros s' [= <-]; [auto|].
    intros _; cbn [set_sorted set_data num comp data].
    pose proof (Hord (comp sk)); destruct Hwf as (? & ? & ?); destruct (Z.leb_spec 2 (num sk)).
    + apply heap_sort_spec; auto; lia.
    + intros a b Hab Hb _; replace a with b by lia; now apply le_refl.
Qed.

(** ** Storing into a sorted stack *)

(** What the search returns lies where it looks and compares equal, whether or not
    the elements are in order. *)
Lemma bsearch_within s p fuel : forall lo hi k, 0 <= lo -> bsearch call_cmp_func fuel s p lo hi = Some k ->
  lo <= k < hi /\ call_cmp_func (comp s) p (znth (data s) k) = 0.
Proof.
  induction fuel as [|fuel IH]; intros lo hi k Hlo; cbn [bsearch]; [discriminate|]; destruct (Z.ltb_spec lo hi); [|discriminate].
  cbv zeta; set (mid := lo + _); assert (lo <= mid < hi) as Hmid by (unfold mid; Z.to_euclidean_division_equations; lia); set (r := call_cmp_func _ _ _).
  destruct (Z.ltb_spec 0 r); [intros E; apply IH in E; lia|]; destruct (Z.ltb_spec r 0); [intros E; apply IH in E; lia|].
  destruct (hi - lo =? 1); [intros [= <-]; split; [lia|unfold r in *; lia]|intros E; apply IH in E; lia].
Qed.

(** An element of a sorted array is replaced: the array stays sorted just when the
    element fits between its neighbours. *)
Lemma sorted_zset c n d i v : CmpOrder (call_cmp_func c) -> 0 <= i < n -> n <= zlen d -> sorted_from call_cmp_func c 0 n d ->
  (sorted_from call_cmp_func c 0 n (zset d i v) <->
   (0 < i -> call_cmp_func c (znth d (i - 1)) v <= 0) /\ (i + 1 < n -> call_cmp_func c v (znth d (i + 1)) <= 0)).
Proof.
  intros Hc Hi Hn Hs; unfold sorted_from, le in *; split.
  - intros H'; split; intros Hb; [pose proof (H' (i - 1) i ltac:(lia) ltac:(lia) ltac:(lia)) as E|pose proof (H' i (i + 1) ltac:(lia) ltac:(lia) ltac:(lia)) as E].
    all: rewrite znth_zset_eq, znth_zset_ne in E by lia; exact E.
  - intros [H1 H2] a b Hab Hb _; destruct (Z.eq_dec a i) as [->|Ha], (Z.eq_dec b i) as [->|Hbi]; rewrite ?znth_zset_eq, ?znth_zset_ne by lia.
    + now apply le_refl.
    + apply (cmp_trans _ (znth d (i + 1))); [apply H2; lia|apply Hs; lia].
    + apply (cmp_trans _ (znth d (i - 1))); [apply Hs; lia|apply H1; lia].
    + apply Hs; lia.
Qed.

Lemma contents_zset sk i v : stack_wf sk -> 0 <= i < num sk -> ztake (num sk) (zset (data sk) i v) = zset (contents sk) i v.
Proof.
  intros (Hl & Hn & _) Hi; apply znth_ext; [rewrite zlen_zset; unfold contents; rewrite !zlen_ztake; rewrite ?zlen_zset; lia|].
  rewrite zlen_ztake by (rewrite zlen_zset; lia); intros j Hj; rewrite znth_ztake by lia; unfold contents.
  destruct (Z.eq_dec j i) as [->|]; [rewrite !znth_zset_eq by (rewrite ?zlen_ztake; lia); reflexivity|].
  rewrite !znth_zset_ne, znth_ztake by lia; reflexivity.
Qed.

(** C40. [OPENSSL_sk_set] on a sorted stack replaces one element and keeps the sorted
    flag, whatever is stored. The flag is still true of the stack just when the
    element fits between its neighbours. When it does not, a search can miss it:
    an element stored below the middle that belongs behind it, with no equal one
    there, is not found although it is in the stack. *)
Theorem sk_set_keeps_flag (sk : stack) (i value : Z) :
  let cmp := call_cmp_func (comp sk) in
  let mid := (num sk - 1) / 2 in
  stack_wf sk -> CmpOrder cmp -> comp sk <> 0 -> sorted sk = true -> flag_ok call_cmp_func sk -> 0 <= i < num sk ->
  exists s', OPENSSL_sk_set (Some sk) i value = (value, Some s') /\ stack_wf s' /\ sorted s' = true /\ contents s' = zset (contents sk) i value /\
    (flag_ok call_cmp_func s' <-> (0 < i -> cmp (znth (contents sk) (i - 1)) value <= 0) /\ (i + 1 < num sk -> cmp value (znth (contents sk) (i + 1)) <= 0)) /\
    (i < mid -> 0 < cmp value (znth (contents sk) mid) -> (forall j, mid < j < num sk -> cmp value (znth (contents sk) j) <> 0) ->
     OPENSSL_sk_find call_cmp_func (Some s') value = None).
Proof.
  intros cmp mid Hwf Hc Hcomp Hs Hflag Hi; pose proof Hwf as (Hl & Hn & Ha); cbn [OPENSSL_sk_set]; rewrite (proj2 (Z.leb_gt _ _)) by lia.
  exists (set_data sk (zset (data sk) i value)); split; [reflexivity|]; split; [repeat split; cbn; rewrite ?zlen_zset; lia|]; split; [exact Hs|].
  split; [exact (contents_zset sk i value Hwf Hi)|]; split.
  - unfold flag_ok; cbn [set_data sorted comp num data]; rewrite Hs; pose proof (sorted_zset (comp sk) (num sk) (data sk) i value Hc Hi ltac:(lia) (Hflag Hs)) as Hz.
    assert ((0 < i -> znth (contents sk) (i - 1) = znth (data sk) (i - 1)) /\ (i + 1 < num sk -> znth (contents sk) (i + 1) = znth (data sk) (i + 1))) as [E1 E2]
      by (unfold contents; split; intros; now rewrite znth_ztake by lia).
    split; [intros H'; apply Hz in H' as [H1 H2]; [|reflexivity]; split; intros Hb; rewrite ?E1, ?E2 by lia; auto|].
    intros [H1 H2] _; apply Hz; split; intros Hb; [rewrite <- E1 by lia|rewrite <- E2 by lia]; auto.
  - intros Him Hmid Hno; assert (0 <= mid < num sk) as Hm by (unfold mid in *; Z.to_euclidean_division_equations; lia).
    cbn [OPENSSL_sk_find set_data comp]; rewrite (proj2 (Z.eqb_neq _ _) Hcomp); destruct (value =? 0); [reflexivity|].
    cbn [OPENSSL_sk_is_sorted set_data sorted num comp]; rewrite Hs; cbn [orb negb]; replace (Z.to_nat (2 * num sk + 1)) with (S (Z.to_nat (2 * num sk))) by lia.
    cbn [bsearch set_data comp data]; rewrite (proj2 (Z.ltb_lt 0 (num sk))), Z.sub_0_r, Z.add_0_l by lia; fold mid; cbv zeta.
    unfold contents in *; rewrite znth_ztake in Hmid by lia; rewrite znth_zset_ne by lia; fold cmp; rewrite (proj2 (Z.ltb_lt 0 _) Hmid).
    destruct (bsearch _ _ _ _ _ _) as [k|] eqn:E; [|reflexivity]; apply bsearch_within in E as [Hk E0]; [|lia]; cbn [set_data comp data] in E0.
    destruct (Hno k ltac:(lia)); rewrite znth_zset_ne in E0 by lia; now rewrite znth_ztake by lia.
Qed.
End Claims.

(** A stack of three elements, not sorted. *)
Definition sample_stack : stack :=
  {| num := 3; data := [5; 1; 4; 0]; sorted := false; num_alloc := 4; comp := 1 |}.
Definition sample_cmp (_ a b : Z) : Z := a - b.

Lemma sample_ok : stack_wf sample_stack /\ flag_ok sample_cmp sample_stack /\
  CmpOrder (sample_cmp (comp sample_stack)) /\ comp sample_stack <> 0.
Proof.
  split; [repeat split; vm_compute; congruence|split; [discriminate|split; [apply CmpOrder_sub|vm_compute; congruence]]].
Qed.

Lemma sk_sort_correct_witness :
  exists s', OPENSSL_sk_sort sample_cmp (Some sample_stack) = Some s' /\ stack_wf s' /\ sorted s' = true /\
    num s' = 3 /\ comp s' = 1 /\ Permutation (contents s') [5; 1; 4] /\ zdrop 3 (data s') = [0] /\
    forall a b, 0 <= a <= b -> b < 3 -> sample_cmp 1 (znth (contents s') a) (znth (contents s') b) <= 0.
Proof. destruct sample_ok as (? & ? & ? & ?); now apply (sk_sort_correct sample_cmp sample_stack). Defined.

(** Seven is stored before five and nine, and not found. *)
Lemma sk_set_keeps_flag_witness :
  let sk := {| num := 3; data := [1; 5; 9; 0]; sorted := true; num_alloc := 4; comp := 1 |} in
  exists s', OPENSSL_sk_set (Some sk) 0 7 = (7, Some s') /\ sorted s' = true /\ contents s' = [7; 5; 9] /\ ~ flag_ok sample_cmp s' /\
    OPENSSL_sk_find sample_cmp (Some s') 7 = None.
Proof.
  intros sk; destruct (sk_set_keeps_flag sample_cmp sk 0 7) as (s' & E & _ & Hs & Hc & Hf & Hm).
  - repeat split; vm_compute; congruence.
  - apply CmpOrder_sub.
  - discriminate.
  - reflexivity.
  - intros _ a b Hab Hb _; cbn in Hb; unfold le; cbn [comp data sk].
    assert (a = 0 \/ a = 1 \/ a = 2) as [-> |[-> | ->]] by lia; assert (b = 0 \/ b = 1 \/ b = 2) as [-> |[-> | ->]] by lia; vm_compute; congruence || lia.
  - cbn; lia.
  - exists s'; split; [exact E|]; split; [exact Hs|]; split; [exact Hc|]; split.
    + intros [_ H]%Hf; specialize (H ltac:(vm_compute; reflexivity)); revert H; vm_compute; congruence.
    + apply Hm; [reflexivity..|]; intros j Hj; change ((num sk - 1) / 2) with 1 in Hj; cbn [num sk] in Hj; replace j with 2 by lia; vm_compute; discriminate.
Defined.

Lemma sk_find_earliest_witness :
  match OPENSSL_sk_find sample_cmp (Some sample_stack) 4 with
  | Some k => 0 <= k < 3 /\ sample_cmp 1 4 (znth (contents sample_stack) k) = 0 /\
              forall j, 0 <= j < k -> sample_cmp 1 4 (znth (contents sample_stack) j) <> 0
  | None => forall j, 0 <= j < 3 -> sample_cmp 1 4 (znth (contents sample_stack) j) <> 0
  end.
Proof. destruct sample_ok as (? & ? & ? & ?); now apply (sk_find_earliest sample_cmp sample_stack 4). Defined.

Lemma sk_insert_delete_witness :
  (let '(n, sk') := OPENSSL_sk_insert (H:=allocator_total) (Some sample_stack) 7 1 in
   (n = 0 /\ sk' = Some sample_stack) \/
   (n = 4 /\ exists s', sk' = Some s' /\ stack_wf s' /\ sorted s' = false /\ contents s' = [5; 7; 1; 4])) /\
  (let '(q, sk') := OPENSSL_sk_delete (Some sample_stack) 1 in
   q = 1 /\ exists s', sk' = Some s' /\ stack_wf s' /\ contents s' = [5; 4]).
Proof.
  destruct sample_ok as (Hwf & _).
  exact (sk_insert_delete (H:=allocator_total) sample_stack 7 1 Hwf ltac:(lia)).
Defined.

Lemma sk_delete_if_filters_witness :
  exists s', OPENSSL_sk_delete_if (fun x => x =? 1) (Some sample_stack) = Some s' /\ stack_wf s' /\
    contents s' = [5; 4].
Proof. exact (sk_delete_if_filters sample_stack (fun x => x =? 1) (proj1 sample_ok)). Defined.

Lemma sk_sorted_flag_invariant_witness :
  flag_ok sample_cmp (snd (OPENSSL_sk_set_cmp_func sample_stack 2)) /\
  (forall s', OPENSSL_sk_sort sample_cmp (Some sample_stack) = Some s' -> flag_ok sample_cmp s').
Proof.
  destruct sample_ok as (Hwf & Hf & _).
  assert (orders_ok sample_cmp) as Ho by (intros c; apply CmpOrder_sub).
  destruct (sk_sorted_flag_invariant (H:=allocator_total) sample_cmp sample_stack 7 1 2 Hwf Hf Ho ltac:(lia))
    as (_ & _ & _ & _ & H5 & H6); auto.
Defined.
