(* ===== verification/Lhash.v ===== *)
(** The hash table (crypto/lhash/lhash.c, lines 69-350): chained buckets with
    cached hash values, resized to keep the chains short.

    A chain is the list of its items; the pointer to a [next] field that the C
    code walks with is the split of the chain at that place. The hash and the
    comparison function of the caller are parameters. *)

From S2P Require Import Prelude.
From stdpp Require Import gmap.
Local Open Scope Z_scope.

Definition kMinNumBuckets : Z := 16.
Definition kMaxAverageChainLength : Z := 2.
Definition kMinAverageChainLength : Z := 1.

Record LHASH_ITEM : Type := { item_data : Z; item_hash : Z }.

Record LHASH : Type := {
  num_items : Z;
  buckets : list (list LHASH_ITEM);
  num_buckets : Z;
  callback_depth : Z
}.

Definition set_buckets (lh : LHASH) (b : list (list LHASH_ITEM)) : LHASH :=
  {| num_items := num_items lh; buckets := b; num_buckets := num_buckets lh; callback_depth := callback_depth lh |}.
Definition set_num_items (lh : LHASH) (n : Z) : LHASH :=
  {| num_items := n; buckets := buckets lh; num_buckets := num_buckets lh; callback_depth := callback_depth lh |}.
Definition set_depth (lh : LHASH) (n : Z) : LHASH :=
  {| num_items := num_items lh; buckets := buckets lh; num_buckets := num_buckets lh; callback_depth := n |}.

Definition sizeof_item : Z := 24.
Definition sizeof_lhash : Z := 48.
Definition ptr_size : Z := 8.

Section Table.
  Context `{Allocator}.
  Variable call_hash_func : Z -> Z.
  Variable call_cmp_func : Z -> Z -> Z.

Definition OPENSSL_lh_new : option LHASH :=
  if malloc_ok sizeof_lhash && malloc_ok (kMinNumBuckets * ptr_size)
  then Some {| num_items := 0; buckets := replicate (Z.to_nat kMinNumBuckets) [];
               num_buckets := kMinNumBuckets; callback_depth := 0 |}
  else None.

Definition OPENSSL_lh_num_items (lh : LHASH) : Z := num_items lh.

(** Walks a chain to the first item that satisfies [same]; what precedes it,
    and the chain from it on (empty when there is none). *)
Fixpoint walk_chain (same : Z -> bool) (chain : list LHASH_ITEM) : list LHASH_ITEM * list LHASH_ITEM :=
  match chain with
  | [] => ([], [])
  | cur :: next =>
      if same (item_data cur) then ([], chain)
      else let '(pre, rest) := walk_chain same next in (cur :: pre, rest)
  end.

Definition bucket_of (lh : LHASH) (hash : Z) : nat := Z.to_nat (hash mod num_buckets lh).
Definition chain_at (lh : LHASH) (i : nat) : list LHASH_ITEM := default [] (buckets lh !! i).

(** The bucket, the chain split at the item equal to [data], and the hash. *)
Definition get_next_ptr_and_hash (lh : LHASH) (data : Z) : nat * (list LHASH_ITEM * list LHASH_ITEM) * Z :=
  let hash := call_hash_func data in
  let i := bucket_of lh hash in
  (i, walk_chain (fun x => call_cmp_func x data =? 0) (chain_at lh i), hash).

Definition get_next_ptr_by_key (lh : LHASH) (key_hash : Z) (cmp_key : Z -> Z) : list LHASH_ITEM * list LHASH_ITEM :=
  walk_chain (fun x => cmp_key x =? 0) (chain_at lh (bucket_of lh key_hash)).

Definition data_of (rest : list LHASH_ITEM) : Z :=
  match rest with [] => 0 | cur :: _ => item_data cur end.

Definition OPENSSL_lh_retrieve (lh : LHASH) (data : Z) : Z :=
  let '(_, (_, rest), _) := get_next_ptr_and_hash lh data in data_of rest.

Definition OPENSSL_lh_retrieve_key (lh : LHASH) (key_hash : Z) (cmp_key : Z -> Z) : Z :=
  data_of (snd (get_next_ptr_by_key lh key_hash cmp_key)).

(** Pushes an item on its new bucket. *)
Definition push_bucket (n : Z) (new : list (list LHASH_ITEM)) (cur : LHASH_ITEM) : list (list LHASH_ITEM) :=
  let b := Z.to_nat (item_hash cur mod n) in
  <[b := cur :: default [] (new !! b)]> new.

Definition lh_rebucket (lh : LHASH) (new_num_buckets : Z) : LHASH :=
  let alloc_size := u64 (ptr_size * new_num_buckets) in
  if negb (alloc_size / ptr_size =? new_num_buckets) then lh
  else if negb (malloc_ok alloc_size) then lh
  else {| num_items := num_items lh;
          buckets := fold_left (push_bucket new_num_buckets) (concat (buckets lh))
                       (replicate (Z.to_nat new_num_buckets) []);
          num_buckets := new_num_buckets;
          callback_depth := callback_depth lh |}.

Definition lh_maybe_resize (lh : LHASH) : LHASH :=
  if 0 <? callback_depth lh then lh
  else
    let avg_chain_length := num_items lh / num_buckets lh in
    if kMaxAverageChainLength <? avg_chain_length then
      let new_num_buckets := u64 (num_buckets lh * 2) in
      if num_buckets lh <? new_num_buckets then lh_rebucket lh new_num_buckets else lh
    else if (avg_chain_length <? kMinAverageChainLength) && (kMinNumBuckets <? num_buckets lh) then
      let new_num_buckets := num_buckets lh / 2 in
      let new_num_buckets := if new_num_buckets <? kMinNumBuckets then kMinNumBuckets else new_num_buckets in
      lh_rebucket lh new_num_buckets
    else lh.

(** Returns one or zero, [*old_data] and the table. *)
Definition OPENSSL_lh_insert (lh : LHASH) (data : Z) : bool * Z * LHASH :=
  let '(i, (pre, rest), hash) := get_next_ptr_and_hash lh data in
  match rest with
  | cur :: next =>
      let cur' := {| item_data := data; item_hash := item_hash cur |} in
      (true, item_data cur, set_buckets lh (<[i := pre ++ cur' :: next]> (buckets lh)))
  | [] =>
      if negb (malloc_ok sizeof_item) then (false, 0, lh)
      else
        let item := {| item_data := data; item_hash := hash |} in
        let lh := set_buckets lh (<[i := pre ++ [item]]> (buckets lh)) in
        (true, 0, lh_maybe_resize (set_num_items lh (num_items lh + 1)))
  end.

Definition OPENSSL_lh_delete (lh : LHASH) (data : Z) : Z * LHASH :=
  let '(i, (pre, rest), _) := get_next_ptr_and_hash lh data in
  match rest with
  | [] => (0, lh)
  | cur :: next =>
      let lh := set_buckets lh (<[i := pre ++ next]> (buckets lh)) in
      (item_data cur, lh_maybe_resize (set_num_items lh (num_items lh - 1)))
  end.

(** The iteration with a callback that does not change the table; [arg] is the
    state it works on. *)
Definition OPENSSL_lh_doall_arg {A} (lh : LHASH) (func : Z -> A -> A) (arg : A) : A * LHASH :=
  let lh := if callback_depth lh <? UINT_MAX then set_depth lh (callback_depth lh + 1) else lh in
  let arg := fold_left (fun a chain => fold_left (fun a cur => func (item_data cur) a) chain a) (buckets lh) arg in
  let lh := if callback_depth lh <? UINT_MAX then set_depth lh (callback_depth lh - 1) else lh in
  (arg, lh_maybe_resize lh).
End Table.
