(* ===== verification/LhashSpec.v ===== *)
(** What the hash table promises: it is a finite map from keys to the pointers
    inserted last under them, whatever its buckets look like. *)

From S2P Require Import Prelude Lhash.
From stdpp Require Import gmap.
Local Open Scope Z_scope.

(** What the callbacks of the caller promise: [key] names the classes of the
    pointers that compare equal, and the hash depends on the class only. *)
Class HashFuncs (key : Z -> Z) (call_hash_func : Z -> Z) (call_cmp_func : Z -> Z -> Z) : Prop := {
  cmp_key : forall a b, call_cmp_func a b = 0 <-> key a = key b;
  hash_key : forall a b, key a = key b -> call_hash_func a = call_hash_func b;
  hash_range : forall a, 0 <= call_hash_func a < 2 ^ 32
}.

Lemma elem_of_concat {A} (x : A) (ls : list (list A)) : x ∈ concat ls <-> exists l, x ∈ l /\ l ∈ ls.
Proof.
  induction ls as [|l ls IH]; cbn; [split; [intros []%not_elem_of_nil|intros (? & _ & []%not_elem_of_nil)]|].
  rewrite elem_of_app, IH; split; [intros [|(k & ? & ?)]; eauto using list_elem_of_here, list_elem_of_further|].
  intros (k & Hx & [-> |]%elem_of_cons); eauto.
Qed.

Section Spec.
  Context `{Allocator}.
  Context {key : Z -> Z} {hash : Z -> Z} {cmp : Z -> Z -> Z} `{HF : !HashFuncs key hash cmp}.

Definition items (lh : LHASH) : list LHASH_ITEM := concat (buckets lh).
Definition item_key (it : LHASH_ITEM) : Z := key (item_data it).

(** The map a list of items stands for. *)
Definition items_map (l : list LHASH_ITEM) : gmap Z Z := list_to_map (map (fun it => (item_key it, item_data it)) l).
Definition table_map (lh : LHASH) : gmap Z Z := items_map (items lh).

(** Items are cached with their hash and sit in the bucket it selects. *)
Definition item_ok (it : LHASH_ITEM) : Prop := item_hash it = hash (item_data it) /\ item_data it <> 0.
Definition placed (n : Z) (bs : list (list LHASH_ITEM)) : Prop :=
  forall i b it, bs !! i = Some b -> it ∈ b -> Z.to_nat (item_hash it mod n) = i.

Definition lhash_ok (lh : LHASH) : Prop :=
  zlen (buckets lh) = num_buckets lh /\ kMinNumBuckets <= num_buckets lh < 2 ^ 64 /\
  num_items lh = zlen (items lh) /\ placed (num_buckets lh) (buckets lh) /\
  Forall item_ok (items lh) /\ NoDup (map item_key (items lh)).

(** ** Lists of items *)

Lemma fst_pairs l : (map (fun it => (item_key it, item_data it)) l).*1 = map item_key l.
Proof. induction l; cbn; [reflexivity|]. now rewrite <- IHl. Qed.

Lemma items_map_perm l k : l ≡ₚ k -> NoDup (map item_key l) -> items_map l = items_map k.
Proof.
  intros Hp Hn; apply list_to_map_proper; [now rewrite fst_pairs|]; now apply Permutation_map.
Qed.

Lemma items_map_cons it l : items_map (it :: l) = <[item_key it := item_data it]> (items_map l).
Proof. reflexivity. Qed.

Lemma items_map_none l k : (forall it, it ∈ l -> item_key it <> k) -> items_map l !! k = None.
Proof.
  intros Hn; apply not_elem_of_list_to_map_1; rewrite fst_pairs.
  intros Hin; apply list_elem_of_fmap in Hin as (it & -> & Hit); now apply (Hn it).
Qed.

Lemma items_map_fresh it l : NoDup (map item_key (it :: l)) -> items_map l !! item_key it = None.
Proof.
  intros Hn; apply items_map_none; intros it' Hin E; inversion_clear Hn as [|? ? Hx _]; apply Hx.
  rewrite <- E; now apply list_elem_of_fmap_2.
Qed.

Lemma items_map_size l : NoDup (map item_key l) -> size (items_map l) = length l.
Proof.
  induction l as [|it l IH]; intros Hn; [reflexivity|].
  rewrite items_map_cons, map_size_insert_None by now apply items_map_fresh.
  inversion_clear Hn; cbn; now rewrite IH.
Qed.

(** ** Chains *)

Lemma walk_chain_spec same chain pre rest : walk_chain same chain = (pre, rest) ->
  chain = pre ++ rest /\ (forall it, it ∈ pre -> same (item_data it) = false) /\
  match rest with [] => True | cur :: _ => same (item_data cur) = true end.
Proof.
  revert pre; induction chain as [|cur next IH]; intros pre; cbn [walk_chain].
  - intros [= <- <-]; repeat split; set_solver.
  - destruct (same (item_data cur)) eqn:E.
    + intros [= <- <-]; repeat split; auto; set_solver.
    + destruct (walk_chain same next) as [p r]; intros [= <- <-].
      destruct (IH p eq_refl) as (-> & Hp & Hr); repeat split; auto.
      intros it Hin; apply elem_of_cons in Hin as [-> |]; auto.
Qed.

(** The bucket of a pointer, in its place in the table. *)
Lemma bucket_split lh h : lhash_ok lh ->
  exists B1 b B2, buckets lh = B1 ++ b :: B2 /\ length B1 = bucket_of lh h /\ chain_at lh (bucket_of lh h) = b /\
    items lh = concat B1 ++ b ++ concat B2.
Proof.
  intros (Hl & Hn & _); unfold chain_at.
  assert (0 <= h mod num_buckets lh < num_buckets lh) by (apply Z.mod_pos_bound; unfold kMinNumBuckets in Hn; lia).
  destruct (lookup_lt_is_Some_2 (buckets lh) (bucket_of lh h)) as [b Eb];
    [unfold bucket_of, zlen in *; lia|].
  exists (take (bucket_of lh h) (buckets lh)), b, (drop (S (bucket_of lh h)) (buckets lh)).
  rewrite Eb; assert (take (bucket_of lh h) (buckets lh) ++ b :: drop (S (bucket_of lh h)) (buckets lh) = buckets lh)
    as Es by now apply take_drop_middle.
  repeat split; auto.
  - rewrite length_take; apply lookup_lt_Some in Eb; lia.
  - unfold items; rewrite <- Es at 1; now rewrite concat_app.
Qed.

(** An item with the key of [d] sits in the bucket [d] hashes to. *)
Lemma same_key_bucket lh d B1 b B2 it : lhash_ok lh ->
  buckets lh = B1 ++ b :: B2 -> length B1 = bucket_of lh (hash d) ->
  it ∈ items lh -> item_key it = key d -> it ∈ b.
Proof.
  intros (_ & _ & _ & Hpl & Hok & _) Eb Hl Hin Hk; unfold items in Hin.
  apply elem_of_concat in Hin as (b' & Hit & Hb'); apply list_elem_of_lookup in Hb' as [i Hi].
  pose proof (Hpl i b' it Hi Hit) as Hidx.
  assert (item_ok it) as [Hh _].
  { rewrite Forall_forall in Hok; apply Hok, elem_of_concat; eauto using list_elem_of_lookup_2. }
  rewrite Hh, (hash_key (item_data it) d Hk) in Hidx; fold (bucket_of lh (hash d)) in Hidx.
  rewrite Eb, <- Hidx, <- Hl, list_lookup_middle in Hi by reflexivity; congruence.
Qed.

(** ** Resizing *)

Lemma push_bucket_spec n bs it : (length bs = Z.to_nat n) -> 0 < n -> placed n bs ->
  placed n (push_bucket n bs it) /\ length (push_bucket n bs it) = Z.to_nat n /\
  concat (push_bucket n bs it) ≡ₚ it :: concat bs.
Proof.
  intros Hl Hn Hp; unfold push_bucket; set (b := Z.to_nat (item_hash it mod n)).
  assert (b < length bs)%nat as Hb by
    (pose proof (Z.mod_pos_bound (item_hash it) n Hn); unfold b; rewrite Hl; lia).
  destruct (lookup_lt_is_Some_2 bs b Hb) as [c Ec]; rewrite Ec; cbn [default].
  split; [|split; [now rewrite length_insert|]].
  - intros i b' it' Hi Hin; destruct (decide (i = b)) as [-> |].
    + rewrite list_lookup_insert_eq in Hi by auto; injection Hi as <-.
      apply elem_of_cons in Hin as [-> |Hin]; [reflexivity|eapply Hp; eauto].
    + rewrite list_lookup_insert_ne in Hi by auto; eapply Hp; eauto.
  - rewrite <- (take_drop_middle bs b c Ec) at 2.
    rewrite insert_take_drop by auto; rewrite !concat_app; cbn [concat app].
    symmetry; apply Permutation_middle.
Qed.

Lemma rebucket_spec n l bs : length bs = Z.to_nat n -> 0 < n -> placed n bs ->
  placed n (fold_left (push_bucket n) l bs) /\ length (fold_left (push_bucket n) l bs) = Z.to_nat n /\
  concat (fold_left (push_bucket n) l bs) ≡ₚ l ++ concat bs.
Proof.
  revert bs; induction l as [|it l IH]; intros bs Hl Hn Hp; cbn [fold_left app]; [auto|].
  destruct (push_bucket_spec n bs it Hl Hn Hp) as (Hp1 & Hl1 & Hc1).
  destruct (IH _ Hl1 Hn Hp1) as (? & ? & Hc); repeat split; auto.
  rewrite Hc, Hc1; symmetry; apply Permutation_middle.
Qed.

(** [lh'] holds the same items as [lh], in a table that may be laid out anew. *)
Definition same_table (lh lh' : LHASH) : Prop :=
  items lh' ≡ₚ items lh /\ num_items lh' = num_items lh.

Lemma lh_rebucket_spec lh n : lhash_ok lh -> kMinNumBuckets <= n < 2 ^ 64 ->
  lhash_ok (lh_rebucket lh n) /\ same_table lh (lh_rebucket lh n).
Proof.
  intros Hok Hn; unfold lh_rebucket; repeat case_if; try (split; [auto|split; auto]; fail).
  pose proof Hok as (_ & _ & Hi & _ & Hall & Hnd); unfold kMinNumBuckets in *.
  assert (concat (replicate (Z.to_nat n) (@nil LHASH_ITEM)) = []) as Er by
    (induction (Z.to_nat n); cbn; auto).
  destruct (rebucket_spec n (concat (buckets lh)) (replicate (Z.to_nat n) [])) as (Hp & Hl & Hc).
  { apply length_replicate. } { lia. }
  { intros i b it Hb Hin; apply lookup_replicate in Hb as [-> _]; set_solver. }
  rewrite Er, app_nil_r in Hc; fold (items lh) in Hc.
  split; [|split; [exact Hc|reflexivity]].
  repeat split; cbn [num_items buckets num_buckets]; auto; try (unfold kMinNumBuckets; lia).
  - unfold zlen; rewrite Hl; lia.
  - rewrite Hi; unfold zlen; f_equal; symmetry; now apply Permutation_length.
  - unfold items at 1; cbn [buckets]; now rewrite Hc.
  - unfold items at 1; cbn [buckets]; now rewrite Hc.
Qed.

Lemma lh_maybe_resize_spec lh : lhash_ok lh ->
  lhash_ok (lh_maybe_resize lh) /\ same_table lh (lh_maybe_resize lh).
Proof.
  intros Hok; pose proof Hok as (_ & Hn & _); unfold kMinNumBuckets in Hn.
  assert (lhash_ok lh /\ same_table lh lh) by (split; [auto|split; auto]).
  unfold lh_maybe_resize; case_if; [auto|]; cbv zeta; case_if.
  - destruct (Z.ltb_spec (num_buckets lh) (u64 (num_buckets lh * 2))); [|auto].
    apply lh_rebucket_spec; auto; pose proof (uw_bound 64 (num_buckets lh * 2)); unfold kMinNumBuckets; lia.
  - destruct (_ && _); [|auto]; apply lh_rebucket_spec; auto.
    destruct (Z.ltb_spec (num_buckets lh / 2) kMinNumBuckets); unfold kMinNumBuckets in *; [lia|].
    split; [auto|]; apply Z.div_lt_upper_bound; lia.
Qed.

Lemma same_table_map lh lh' : lhash_ok lh -> same_table lh lh' -> table_map lh' = table_map lh.
Proof.
  intros (_ & _ & _ & _ & _ & Hn) [Hp _]; symmetry; apply items_map_perm; [now symmetry|auto].
Qed.

(** ** One bucket changed *)

(** Replacing a bucket by one whose items belong to it. *)
Lemma bucket_update lh h B1 b B2 b' n : lhash_ok lh ->
  buckets lh = B1 ++ b :: B2 -> length B1 = bucket_of lh h ->
  (forall it, it ∈ b' -> bucket_of lh (item_hash it) = bucket_of lh h) ->
  Forall item_ok b' -> NoDup (map item_key (concat B1 ++ b' ++ concat B2)) ->
  n = zlen (concat B1 ++ b' ++ concat B2) ->
  let lh' := set_num_items (set_buckets lh (<[bucket_of lh h := b']> (buckets lh))) n in
  lhash_ok lh' /\ items lh' = concat B1 ++ b' ++ concat B2.
Proof.
  intros (Hl & Hn & _ & Hpl & Hok & _) Eb Hlen Hb' Hok' Hnd -> lh'.
  assert (<[bucket_of lh h := b']> (buckets lh) = B1 ++ b' :: B2) as Ei by
    (rewrite Eb, <- Hlen; rewrite insert_app_r_alt, Nat.sub_diag by lia; reflexivity).
  assert (items lh' = concat B1 ++ b' ++ concat B2) as Eit by
    (unfold items; cbn [lh' buckets set_num_items set_buckets]; now rewrite Ei, concat_app).
  split; [|auto]; repeat split; cbn [num_items buckets num_buckets lh' set_num_items set_buckets]; try lia.
  - unfold zlen in *; now rewrite length_insert.
  - now rewrite Eit.
  - intros i c it Hi Hin; destruct (decide (i = bucket_of lh h)) as [-> |].
    + rewrite list_lookup_insert_eq in Hi by (rewrite Eb, <- Hlen, length_app; cbn; lia).
      injection Hi as <-; now apply Hb'.
    + rewrite list_lookup_insert_ne in Hi by auto; eapply Hpl; eauto.
  - rewrite Eit; unfold items in Hok; rewrite Eb, concat_app in Hok; cbn [concat] in Hok.
    rewrite !Forall_app in Hok |- *; tauto.
  - now rewrite Eit.
Qed.

(** ** Lookup *)

Lemma get_next_ptr_spec lh d : lhash_ok lh ->
  exists B1 B2 pre rest,
    get_next_ptr_and_hash hash cmp lh d = (bucket_of lh (hash d), (pre, rest), hash d) /\
    buckets lh = B1 ++ (pre ++ rest) :: B2 /\ length B1 = bucket_of lh (hash d) /\
    items lh = concat B1 ++ (pre ++ rest) ++ concat B2 /\
    match rest with
    | [] => forall it, it ∈ items lh -> item_key it <> key d
    | cur :: _ => item_key cur = key d
    end.
Proof.
  intros Hok; destruct (bucket_split lh (hash d) Hok) as (B1 & b & B2 & Eb & Hl & Ec & Eit).
  unfold get_next_ptr_and_hash; rewrite Ec.
  destruct (walk_chain _ b) as [pre rest] eqn:Ew; apply walk_chain_spec in Ew as (-> & Hpre & Hrest).
  exists B1, B2, pre, rest; repeat split; auto.
  assert (forall it, (cmp (item_data it) d =? 0) = true <-> item_key it = key d) as Hc by
    (intros; rewrite Z.eqb_eq; unfold item_key; apply cmp_key).
  destruct rest as [|cur next]; [|now apply Hc].
  intros it Hin Hk; rewrite app_nil_r in *.
  pose proof (same_key_bucket lh d B1 pre B2 it Hok Eb Hl Hin Hk) as Hb.
  specialize (Hpre it Hb); apply Hc in Hk; congruence.
Qed.

(** An item in the middle of the list comes first in the map. *)
Lemma items_map_middle l1 cur l2 : NoDup (map item_key (l1 ++ cur :: l2)) ->
  items_map (l1 ++ cur :: l2) = <[item_key cur := item_data cur]> (items_map (l1 ++ l2)) /\
  items_map (l1 ++ l2) !! item_key cur = None.
Proof.
  intros Hn; pose proof (Permutation_middle l1 l2 cur) as Hp; symmetry in Hp.
  split; [rewrite <- items_map_cons; now apply items_map_perm|].
  apply items_map_fresh; now rewrite <- Hp.
Qed.

(** The place of the current item in the list of all items. *)
Lemma items_at (B1 B2 : list (list LHASH_ITEM)) pre cur next :
  concat B1 ++ (pre ++ cur :: next) ++ concat B2 = (concat B1 ++ pre) ++ cur :: (next ++ concat B2).
Proof. now rewrite <- !app_assoc. Qed.

Lemma retrieve_spec lh d : lhash_ok lh ->
  OPENSSL_lh_retrieve hash cmp lh d = default 0 (table_map lh !! key d).
Proof.
  intros Hok; destruct (get_next_ptr_spec lh d Hok) as (B1 & B2 & pre & rest & Eg & _ & _ & Eit & Hr).
  pose proof Hok as (_ & _ & _ & _ & _ & Hnd).
  unfold OPENSSL_lh_retrieve, table_map; rewrite Eg; destruct rest as [|cur next]; cbn [data_of].
  - now rewrite items_map_none.
  - rewrite Eit, items_at in *; rewrite (proj1 (items_map_middle _ _ _ Hnd)), <- Hr.
    now rewrite lookup_insert_eq.
Qed.

Lemma items_ok_bucket lh B1 b B2 : lhash_ok lh -> buckets lh = B1 ++ b :: B2 -> Forall item_ok b.
Proof.
  intros (_ & _ & _ & _ & Hok & _) Eb; unfold items in Hok; rewrite Eb, concat_app in Hok.
  cbn [concat] in Hok; rewrite !Forall_app in Hok; tauto.
Qed.

Lemma placed_bucket lh B1 b B2 it : lhash_ok lh -> buckets lh = B1 ++ b :: B2 -> it ∈ b ->
  bucket_of lh (item_hash it) = length B1.
Proof.
  intros (_ & _ & _ & Hp & _) Eb Hin; apply (Hp _ b it); [|auto].
  now rewrite Eb, list_lookup_middle.
Qed.

(** Insertion: replaces what is stored under the key, or adds it. *)
Lemma insert_spec lh d : lhash_ok lh -> d <> 0 ->
  let '(ok, old, lh') := OPENSSL_lh_insert hash cmp lh d in
  if ok then lhash_ok lh' /\ old = default 0 (table_map lh !! key d) /\
    table_map lh' = <[key d := d]> (table_map lh)
  else old = 0 /\ lh' = lh /\ table_map lh !! key d = None /\ malloc_ok sizeof_item = false.
Proof.
  intros Hok Hd; destruct (get_next_ptr_spec lh d Hok) as (B1 & B2 & pre & rest & Eg & Eb & Hl & Eit & Hr).
  pose proof Hok as (_ & _ & Hi & _ & _ & Hnd); pose proof (items_ok_bucket _ _ _ _ Hok Eb) as Hib.
  unfold OPENSSL_lh_insert; rewrite Eg; destruct rest as [|cur next].
  - assert (table_map lh !! key d = None) as Em by now apply items_map_none.
    rewrite Em; destruct (malloc_ok sizeof_item); cbn [negb]; [|auto].
    set (it := {| item_data := d; item_hash := hash d |}); rewrite !app_nil_r in *.
    assert (concat B1 ++ (pre ++ [it]) ++ concat B2 ≡ₚ it :: items lh) as Hp by
      (rewrite Eit, <- !app_assoc; cbn [app]; rewrite !app_assoc; symmetry; apply Permutation_middle).
    assert (NoDup (map item_key (it :: items lh))) as Hnd'.
    { constructor; [|auto]; intros Hin; apply list_elem_of_fmap in Hin as (x & Hx & Hin).
      symmetry in Hx; now apply (Hr x Hin). }
    destruct (bucket_update lh (hash d) B1 pre B2 (pre ++ [it]) (num_items lh + 1)) as [Hok' Eit']; auto.
    + intros x [Hx| ->%list_elem_of_singleton]%elem_of_app; [|reflexivity].
      rewrite <- Hl; eapply placed_bucket; eauto.
    + apply Forall_app; split; [auto|repeat constructor; auto].
    + now rewrite Hp.
    + rewrite Hi; unfold zlen; rewrite (Permutation_length Hp); cbn; lia.
    + set (lh1 := set_num_items _ _) in *; destruct (lh_maybe_resize_spec lh1 Hok') as [Hok2 Hs].
      split; [auto|split; [auto|]]; rewrite (same_table_map _ _ Hok' Hs); unfold table_map; rewrite Eit'.
      rewrite (items_map_perm _ (it :: items lh)); [reflexivity|auto|now rewrite Hp].
  - set (cur' := {| item_data := d; item_hash := item_hash cur |}).
    assert (item_key cur' = item_key cur) as Ek by (now rewrite Hr).
    assert (item_ok cur) as [Hh _] by (rewrite Forall_forall in Hib; apply Hib; set_solver).
    assert (forall l1 l2, map item_key (l1 ++ cur' :: l2) = map item_key (l1 ++ cur :: l2)) as Em by
      (intros; rewrite !map_app; cbn; now rewrite Ek).
    destruct (bucket_update lh (hash d) B1 (pre ++ cur :: next) B2 (pre ++ cur' :: next) (num_items lh))
      as [Hok' Eit']; auto.
    + intros x Hx; rewrite <- Hl.
      assert (forall y, y ∈ pre ++ cur :: next -> bucket_of lh (item_hash y) = length B1) as Hpl by
        (intros; eapply placed_bucket; eauto).
      apply elem_of_app in Hx as [Hx|[-> |Hx]%elem_of_cons]; [apply Hpl; set_solver| |apply Hpl; set_solver].
      apply (Hpl cur); set_solver.
    + apply Forall_app in Hib as [? Hib]; inversion_clear Hib; apply Forall_app; split; [auto|].
      constructor; [|auto]; split; [|auto]; cbn; rewrite Hh; now apply hash_key.
    + rewrite items_at, Em, <- items_at, <- Eit; auto.
    + rewrite Hi, Eit; unfold zlen; rewrite !length_app; reflexivity.
    + set (lh1 := set_buckets _ _) in *; change (set_num_items lh1 (num_items lh)) with lh1 in *.
      rewrite Eit, items_at in Hnd; pose proof Hnd as Hnd2; rewrite <- Em in Hnd2.
      split; [exact Hok'|]; unfold table_map; rewrite Eit', Eit, !items_at.
      destruct (items_map_middle _ _ _ Hnd2) as [-> _], (items_map_middle _ _ _ Hnd) as [-> _].
      rewrite Ek, Hr, lookup_insert_eq, insert_insert_eq; auto.
Qed.

Lemma delete_spec lh d : lhash_ok lh ->
  let '(ret, lh') := OPENSSL_lh_delete hash cmp lh d in
  lhash_ok lh' /\ ret = default 0 (table_map lh !! key d) /\ table_map lh' = delete (key d) (table_map lh).
Proof.
  intros Hok; destruct (get_next_ptr_spec lh d Hok) as (B1 & B2 & pre & rest & Eg & Eb & Hl & Eit & Hr).
  pose proof Hok as (_ & _ & Hi & _ & _ & Hnd); pose proof (items_ok_bucket _ _ _ _ Hok Eb) as Hib.
  unfold OPENSSL_lh_delete; rewrite Eg; destruct rest as [|cur next].
  - assert (table_map lh !! key d = None) as Em by now apply items_map_none.
    rewrite Em, delete_id by auto; auto.
  - rewrite items_at in Eit.
    assert (concat B1 ++ (pre ++ next) ++ concat B2 = (concat B1 ++ pre) ++ (next ++ concat B2)) as Ed by
      now rewrite <- !app_assoc.
    rewrite Eit in Hnd; destruct (items_map_middle _ _ _ Hnd) as [Em Ef].
    destruct (bucket_update lh (hash d) B1 (pre ++ cur :: next) B2 (pre ++ next) (num_items lh - 1))
      as [Hok' Eit']; auto.
    + intros x Hx; rewrite <- Hl; eapply placed_bucket; eauto; set_solver.
    + apply Forall_app in Hib as [? Hib]; inversion_clear Hib; now apply Forall_app.
    + rewrite Ed; rewrite map_app in Hnd |- *; cbn [map] in Hnd.
      rewrite <- Permutation_middle in Hnd; now inversion_clear Hnd.
    + rewrite Hi, Eit, Ed; unfold zlen; rewrite !length_app; cbn; rewrite !length_app; lia.
    + set (lh1 := set_num_items _ _) in *; destruct (lh_maybe_resize_spec lh1 Hok') as [Hok2 Hs].
      split; [auto|]; rewrite (same_table_map _ _ Hok' Hs); unfold table_map; rewrite Eit', Eit, Ed, Em.
      rewrite <- Hr, lookup_insert_eq, delete_insert_id by auto; auto.
Qed.

Lemma resize_depth lh : callback_depth (lh_maybe_resize lh) = callback_depth lh.
Proof. unfold lh_maybe_resize, lh_rebucket; repeat case_if; reflexivity. Qed.

Lemma fold_concat {A B} (f : A -> B -> A) (ls : list (list B)) a :
  fold_left (fun a l => fold_left f l a) ls a = fold_left f (concat ls) a.
Proof. revert a; induction ls; intros; cbn; [auto|]. now rewrite fold_left_app, IHls. Qed.

Lemma fold_map {A B C} (f : A -> C -> A) (g : B -> C) l a :
  fold_left (fun a x => f a (g x)) l a = fold_left f (map g l) a.
Proof. revert a; induction l; intros; cbn; auto. Qed.

Lemma doall_arg_spec {A} lh (func : Z -> A -> A) arg : lhash_ok lh -> 0 <= callback_depth lh < UINT_MAX - 1 ->
  let '(arg', lh') := OPENSSL_lh_doall_arg lh func arg in
  lhash_ok lh' /\ table_map lh' = table_map lh /\ callback_depth lh' = callback_depth lh /\
  exists l, l ≡ₚ (map_to_list (table_map lh)).*2 /\ arg' = fold_left (fun a x => func x a) l arg.
Proof.
  intros Hok Hd; unfold OPENSSL_lh_doall_arg; rewrite (proj2 (Z.ltb_lt (callback_depth lh) _)) by lia.
  cbn [callback_depth set_depth buckets]; rewrite (proj2 (Z.ltb_lt _ _)) by lia.
  replace (set_depth (set_depth lh (callback_depth lh + 1)) (callback_depth lh + 1 - 1)) with lh
    by (destruct lh; unfold set_depth; cbn; f_equal; lia).
  destruct (lh_maybe_resize_spec lh Hok) as [Hok' Hs].
  split; [auto|split; [now apply same_table_map|split; [apply resize_depth|]]].
  exists (map item_data (items lh)); split.
  - destruct Hok as (_ & _ & _ & _ & _ & Hn); unfold table_map, items_map.
    rewrite map_to_list_to_map by now rewrite fst_pairs.
    clear; induction (items lh); cbn; [reflexivity|now f_equiv].
  - rewrite fold_concat; apply (fold_map (fun a x => func x a) item_data).
Qed.

(** A new table is empty. *)
Lemma new_spec lh : OPENSSL_lh_new = Some lh -> lhash_ok lh /\ table_map lh = ∅.
Proof.
  unfold OPENSSL_lh_new; case_if; [|discriminate]; intros [= <-].
  split; [|reflexivity]; repeat split; try (vm_compute; congruence); try constructor.
  intros i b it Hb Hin; apply (lookup_replicate 16) in Hb as [-> _]; set_solver.
Qed.

(** * Histories of calls *)

(** A call on the table and what it returns. *)
Inductive lh_call : Type :=
  | Insert (d : Z)
  | Delete (d : Z)
  | Retrieve (d : Z).

Definition run_call (c : lh_call) (lh : LHASH) : option Z * LHASH :=
  match c with
  | Insert d => let '(ok, old, lh) := OPENSSL_lh_insert hash cmp lh d in (if ok then Some old else None, lh)
  | Delete d => let '(ret, lh) := OPENSSL_lh_delete hash cmp lh d in (Some ret, lh)
  | Retrieve d => (Some (OPENSSL_lh_retrieve hash cmp lh d), lh)
  end.

(** The same call on a finite map. *)
Definition map_call (c : lh_call) (m : gmap Z Z) : option Z * gmap Z Z :=
  match c with
  | Insert d => (Some (default 0 (m !! key d)), <[key d := d]> m)
  | Delete d => (Some (default 0 (m !! key d)), delete (key d) m)
  | Retrieve d => (Some (default 0 (m !! key d)), m)
  end.

Definition call_ok (c : lh_call) : Prop := match c with Insert d => d <> 0 | _ => True end.

Lemma run_call_spec c lh : lhash_ok lh -> call_ok c ->
  let '(r, lh') := run_call c lh in
  lhash_ok lh' /\
  ((r, table_map lh') = map_call c (table_map lh) \/
   r = None /\ lh' = lh /\ malloc_ok sizeof_item = false).
Proof.
  intros Hok Hc; destruct c as [d|d|d]; cbn [run_call map_call].
  - pose proof (insert_spec lh d Hok Hc) as Hs; destruct (OPENSSL_lh_insert hash cmp lh d) as [[[] old] lh'].
    + destruct Hs as (? & -> & ->); auto.
    + destruct Hs as (_ & -> & _ & ?); auto.
  - pose proof (delete_spec lh d Hok) as Hs; destruct (OPENSSL_lh_delete hash cmp lh d) as [r lh'].
    destruct Hs as (? & -> & ->); auto.
  - rewrite retrieve_spec by auto; auto.
Qed.

Fixpoint run_calls (cs : list lh_call) (lh : LHASH) : list (option Z) * LHASH :=
  match cs with
  | [] => ([], lh)
  | c :: cs => let '(r, lh) := run_call c lh in let '(rs, lh) := run_calls cs lh in (r :: rs, lh)
  end.

Fixpoint map_calls (cs : list lh_call) (m : gmap Z Z) : list (option Z) * gmap Z Z :=
  match cs with
  | [] => ([], m)
  | c :: cs => let '(r, m) := map_call c m in let '(rs, m) := map_calls cs m in (r :: rs, m)
  end.

(** C4. Through any history of insertions, deletions and lookups on a new
    table, and the resizes they cause, the hash table returns what a finite map
    from keys to pointers returns, ends in the state of that map, and counts
    its elements. *)
Theorem lhash_refines_map (cs : list lh_call) (lh : LHASH) :
  (forall n, malloc_ok n = true) -> Forall call_ok cs -> OPENSSL_lh_new = Some lh ->
  let '(rs, lh') := run_calls cs lh in
  (rs, table_map lh') = map_calls cs ∅ /\ lhash_ok lh' /\
  OPENSSL_lh_num_items lh' = Z.of_nat (size (table_map lh')).
Proof.
  intros Hm Hcs Hnew; destruct (new_spec lh Hnew) as [Hok Hmap]; clear Hnew; rewrite <- Hmap; clear Hmap.
  revert lh Hok; induction Hcs as [|c cs Hc _ IH]; intros lh Hok; cbn [run_calls map_calls].
  - split; [auto|split; [auto|]]; destruct Hok as (_ & _ & Hi & _ & _ & Hn).
    unfold OPENSSL_lh_num_items, table_map; now rewrite items_map_size.
  - pose proof (run_call_spec c lh Hok Hc) as Hs; destruct (run_call c lh) as [r lh1].
    destruct Hs as (Hok1 & [Hs|(_ & _ & Hs)]); [|now rewrite Hm in Hs]; rewrite <- Hs.
    specialize (IH lh1 Hok1); destruct (run_calls cs lh1) as [rs lh2], IH as (IH & ? & ?).
    rewrite <- IH; auto.
Qed.

(** With any allocator, every operation keeps the invariant of the
    table (each item cached with its hash, in the bucket the hash selects, once
    per key, and counted), and a failed insertion or resize changes nothing
    that a lookup can see. *)
Theorem lhash_invariant (c : lh_call) (lh lh' : LHASH) (r : option Z) :
  lhash_ok lh -> call_ok c -> run_call c lh = (r, lh') ->
  lhash_ok lh' /\
  forall d, OPENSSL_lh_retrieve hash cmp lh' d =
    match r with
    | None => OPENSSL_lh_retrieve hash cmp lh d
    | Some _ => default 0 (snd (map_call c (table_map lh)) !! key d)
    end.
Proof.
  intros Hok Hc E; pose proof (run_call_spec c lh Hok Hc) as Hs; rewrite E in Hs; destruct Hs as [Hok' Hs].
  split; [auto|]; intros d; rewrite !retrieve_spec by auto.
  destruct Hs as [Hs|(-> & -> & _)]; [|reflexivity].
  rewrite <- Hs; cbn [snd]; destruct r; [reflexivity|].
  destruct c; cbn in Hs; discriminate.
Qed.

(** [OPENSSL_lh_doall_arg] calls the callback once on every element and
    on nothing else, and leaves the elements and the callback depth as they
    were. *)
Theorem lhash_doall_visits_all {A} (lh : LHASH) (func : Z -> A -> A) (arg : A) :
  lhash_ok lh -> 0 <= callback_depth lh < UINT_MAX - 1 ->
  let '(arg', lh') := OPENSSL_lh_doall_arg lh func arg in
  table_map lh' = table_map lh /\ callback_depth lh' = callback_depth lh /\
  exists l, l ≡ₚ (map_to_list (table_map lh)).*2 /\ arg' = fold_left (fun a x => func x a) l arg.
Proof.
  intros Hok Hd; pose proof (doall_arg_spec lh func arg Hok Hd) as Hs.
  destruct (OPENSSL_lh_doall_arg lh func arg); tauto.
Qed.
End Spec.

#[global] Instance HashFuncs_mod : HashFuncs (fun p => p / 10) (fun p => u32 (p / 10)) (fun a b => a / 10 - b / 10).
Proof.
  split; intros; [lia| |apply uw_bound; lia].
  cbv beta in *; congruence.
Qed.

(** A table with two pointers under different keys. *)
Definition sample_lhash : LHASH :=
  match OPENSSL_lh_new (H:=allocator_total) with
  | Some lh => snd (run_calls (H:=allocator_total) (hash:=fun p => u32 (p / 10)) (cmp:=fun a b => a / 10 - b / 10)
                      [Insert 15; Insert 27; Insert 18] lh)
  | None => {| num_items := 0; buckets := []; num_buckets := 0; callback_depth := 0 |}
  end.

Lemma lhash_refines_map_witness :
  exists lh, OPENSSL_lh_new (H:=allocator_total) = Some lh /\
  let '(rs, lh') := run_calls (H:=allocator_total) (hash:=fun p => u32 (p / 10)) (cmp:=fun a b => a / 10 - b / 10)
                      [Insert 15; Insert 27; Insert 18; Retrieve 11; Delete 20] lh in
  (rs, table_map (key:=fun p => p / 10) lh') =
    map_calls (key:=fun p => p / 10) [Insert 15; Insert 27; Insert 18; Retrieve 11; Delete 20] ∅ /\
  lhash_ok (key:=fun p => p / 10) (hash:=fun p => u32 (p / 10)) lh' /\
  OPENSSL_lh_num_items lh' = Z.of_nat (size (table_map (key:=fun p => p / 10) lh')).
Proof.
  eexists; split; [vm_compute; reflexivity|].
  apply (lhash_refines_map (H:=allocator_total) (key:=fun p => p / 10) (HF:=HashFuncs_mod)).
  - reflexivity.
  - repeat constructor; discriminate.
  - reflexivity.
Defined.

Lemma sample_lhash_ok : lhash_ok (key:=fun p => p / 10) (hash:=fun p => u32 (p / 10)) sample_lhash.
Proof.
  split; [reflexivity|split; [vm_compute; split; congruence|split; [reflexivity|split; [|split]]]].
  - intros i b it Hb Hin; change (buckets sample_lhash) with
      ([[]; [{| item_data := 18; item_hash := 1 |}]; [{| item_data := 27; item_hash := 2 |}]] ++ replicate 13 []) in Hb.
    change (num_buckets sample_lhash) with 16.
    destruct i as [|[|[|i]]]; cbn in Hb.
    + injection Hb as <-; set_solver.
    + injection Hb as <-; apply list_elem_of_singleton in Hin as ->; reflexivity.
    + injection Hb as <-; apply list_elem_of_singleton in Hin as ->; reflexivity.
    + apply (lookup_replicate 13) in Hb as [-> _]; set_solver.
  - change (items sample_lhash) with [{| item_data := 18; item_hash := 1 |}; {| item_data := 27; item_hash := 2 |}].
    repeat constructor; vm_compute; congruence.
  - change (map _ _) with [1; 2]; repeat constructor; set_solver.
Qed.

Lemma lhash_invariant_witness :
  exists r lh', run_call (H:=allocator_total) (hash:=fun p => u32 (p / 10)) (cmp:=fun a b => a / 10 - b / 10)
    (Delete 12) sample_lhash = (r, lh') /\
  lhash_ok (key:=fun p => p / 10) (hash:=fun p => u32 (p / 10)) lh'.
Proof.
  eexists _, _; split; [reflexivity|].
  exact (proj1 (lhash_invariant (H:=allocator_total) (key:=fun p => p / 10) (HF:=HashFuncs_mod)
    (Delete 12) sample_lhash _ _ sample_lhash_ok I eq_refl)).
Defined.

Lemma lhash_doall_visits_all_witness :
  let '(arg', lh') := OPENSSL_lh_doall_arg (H:=allocator_total) sample_lhash (fun x a => x + a) 0 in
  table_map (key:=fun p => p / 10) lh' = table_map (key:=fun p => p / 10) sample_lhash /\
  callback_depth lh' = callback_depth sample_lhash /\
  exists l, l ≡ₚ (map_to_list (table_map (key:=fun p => p / 10) sample_lhash)).*2 /\
    arg' = fold_left (fun a x => x + a) l 0.
Proof.
  apply (lhash_doall_visits_all (H:=allocator_total) (key:=fun p => p / 10) (hash:=fun p => u32 (p / 10))).
  - exact sample_lhash_ok.
  - vm_compute; split; congruence.
Defined.
