(* ===== verification/Err.v ===== *)
(** The error queue (crypto/err/err.c, lines 133-390 and 624-882): a ring of
    sixteen slots per thread, with marks, and its saved copies.

    Strings are lists of characters. [None] is the NULL [ERR_STATE] of a thread
    whose state could not be allocated, on which every function returns at
    once. Ownership of the strings ([free]) is not modelled, but for the string
    [to_free] keeps alive. *)

From S2P Require Import Prelude.

Definition ERR_NUM_ERRORS : Z := 16.
Definition ERR_LIB_SYS : Z := 2.
Definition ERR_FLAG_STRING : Z := 1.
Definition ERR_FLAG_MALLOCED : Z := 2.

Record err_error : Type := {
  file : option (list Z);
  data : option (list Z);
  packed : Z;
  line : Z;
  mark : bool
}.

Record ERR_STATE : Type := {
  errors : list err_error;   (* ERR_NUM_ERRORS of them *)
  top : Z;
  bottom : Z;
  to_free : option (list Z)
}.

Definition ERR_PACK (lib reason : Z) : Z :=
  Z.lor (u32 (Z.shiftl (Z.land (u32 lib) 0xff) 24)) (Z.land (u32 reason) 0xfff).
Definition ERR_GET_LIB (packed_error : Z) : Z := Z.land (Z.shiftr packed_error 24) 0xff.
Definition ERR_GET_REASON (packed_error : Z) : Z := Z.land packed_error 0xfff.

(** A zeroed slot. *)
Definition err_zero : err_error := {| file := None; data := None; packed := 0; line := 0; mark := false |}.

Definition set_errors (s : ERR_STATE) (e : list err_error) : ERR_STATE :=
  {| errors := e; top := top s; bottom := bottom s; to_free := to_free s |}.
Definition set_top (s : ERR_STATE) (i : Z) : ERR_STATE :=
  {| errors := errors s; top := i; bottom := bottom s; to_free := to_free s |}.
Definition set_bottom (s : ERR_STATE) (i : Z) : ERR_STATE :=
  {| errors := errors s; top := top s; bottom := i; to_free := to_free s |}.
Definition set_to_free (s : ERR_STATE) (p : option (list Z)) : ERR_STATE :=
  {| errors := errors s; top := top s; bottom := bottom s; to_free := p |}.
Definition set_data (e : err_error) (d : option (list Z)) : err_error :=
  {| file := file e; data := d; packed := packed e; line := line e; mark := mark e |}.
Definition set_mark (e : err_error) (m : bool) : err_error :=
  {| file := file e; data := data e; packed := packed e; line := line e; mark := m |}.

(** A slot of the ring, and the store to it. *)
Definition slot (s : ERR_STATE) (i : Z) : err_error := default err_zero (errors s !! Z.to_nat i).
Definition put_slot (s : ERR_STATE) (i : Z) (e : err_error) : ERR_STATE :=
  set_errors s (<[Z.to_nat i := e]> (errors s)).

Definition err_clear (_ : err_error) : err_error := err_zero.

(** [strdup] may fail: then the copy has no data. *)
Definition err_copy `{Allocator} (src : err_error) : err_error :=
  {| file := file src;
     data := match data src with
             | None => None
             | Some d => if malloc_ok (zlen d + 1) then Some d else None
             end;
     packed := packed src; line := line src; mark := false |}.

Definition with_state {A} (dflt : A) (f : ERR_STATE -> A * ERR_STATE) (st : option ERR_STATE) : A * option ERR_STATE :=
  match st with
  | None => (dflt, None)
  | Some s => let '(a, s) := f s in (a, Some s)
  end.

(** What a call hands back: the packed error, [*file] and [*line] when asked
    for, [*data] and [*flags] when asked for. *)
Record err_values : Type := {
  v_packed : Z;
  v_file_line : option (list Z * Z);
  v_data_flags : option (list Z * Z)
}.

Definition no_values : err_values := {| v_packed := 0; v_file_line := None; v_data_flags := None |}.
Definition str_NA : list Z := [78; 65].

Definition file_line_of (want : bool) (e : err_error) : option (list Z * Z) :=
  if want then Some (match file e with None => (str_NA, 0) | Some f => (f, line e) end) else None.

Definition get_error_values (inc from_top want_file want_data : bool) : option ERR_STATE -> err_values * option ERR_STATE :=
  with_state no_values (fun s =>
    if bottom s =? top s then (no_values, s)
    else
      let i := if from_top then top s else (bottom s + 1) mod ERR_NUM_ERRORS in
      let error := slot s i in
      let '(data_flags, s) :=
        if want_data then
          match data error with
          | None => (Some ([], 0), s)
          | Some d =>
              (Some (d, Z.lor ERR_FLAG_STRING ERR_FLAG_MALLOCED),
               if inc then set_to_free (put_slot s i (set_data error None)) (Some d) else s)
          end
        else (None, s) in
      let s := if inc then set_bottom (put_slot s i (err_clear (slot s i))) i else s in
      ({| v_packed := packed error; v_file_line := file_line_of want_file error; v_data_flags := data_flags |}, s)).

Definition ERR_get_error := get_error_values true false false false.
Definition ERR_get_error_line := get_error_values true false true false.
Definition ERR_get_error_line_data := get_error_values true false true true.
Definition ERR_peek_error := get_error_values false false false false.
Definition ERR_peek_error_line := get_error_values false false true false.
Definition ERR_peek_error_line_data := get_error_values false false true true.
Definition ERR_peek_last_error := get_error_values false true false false.
Definition ERR_peek_last_error_line := get_error_values false true true false.
Definition ERR_peek_last_error_line_data := get_error_values false true true true.

Definition ERR_clear_error : option ERR_STATE -> unit * option ERR_STATE :=
  with_state tt (fun s =>
    (tt, {| errors := map err_clear (errors s); top := 0; bottom := 0; to_free := None |})).

Definition err_set_error_data (d : list Z) : option ERR_STATE -> unit * option ERR_STATE :=
  with_state tt (fun s =>
    if top s =? bottom s then (tt, s)
    else (tt, put_slot s (top s) (set_data (slot s (top s)) (Some d)))).

(** [errno] is the value of the variable at the call. *)
Definition ERR_put_error (library reason : Z) (f : option (list Z)) (l errno : Z) : option ERR_STATE -> unit * option ERR_STATE :=
  with_state tt (fun s =>
    let reason := if (library =? ERR_LIB_SYS) && (reason =? 0) then errno else reason in
    let s := set_top s ((top s + 1) mod ERR_NUM_ERRORS) in
    let s := if top s =? bottom s then set_bottom s ((bottom s + 1) mod ERR_NUM_ERRORS) else s in
    (tt, put_slot s (top s) {| file := f; data := None; packed := ERR_PACK library reason; line := u16 l; mark := false |})).

(** The concatenation of the strings, NULLs skipped; [None] when its size does
    not fit. *)
Fixpoint vdata_size (args : list (option (list Z))) (total_size : Z) : option Z :=
  match args with
  | [] => if total_size =? SIZE_MAX then None else Some (total_size + 1)
  | None :: args => vdata_size args total_size
  | Some substr :: args =>
      if SIZE_MAX - total_size <? zlen substr then None else vdata_size args (total_size + zlen substr)
  end.

Section Data.
  Context `{Allocator}.

Definition err_add_error_vdata (args : list (option (list Z))) (st : option ERR_STATE) : unit * option ERR_STATE :=
  match vdata_size args 0 with
  | None => (tt, st)
  | Some n =>
      if malloc_ok n then err_set_error_data (concat (map (default []) args)) st else (tt, st)
  end.

Definition ERR_add_error_data (args : list (option (list Z))) := err_add_error_vdata args.

Definition ERR_set_error_data (d : list Z) (flags : Z) (st : option ERR_STATE) : unit * option ERR_STATE :=
  if Z.land flags ERR_FLAG_STRING =? 0 then (tt, st)
  else if malloc_ok (zlen d + 1) then err_set_error_data d st else (tt, st).
End Data.

Definition ERR_set_mark : option ERR_STATE -> Z * option ERR_STATE :=
  with_state 0 (fun s =>
    if bottom s =? top s then (0, s)
    else (1, put_slot s (top s) (set_mark (slot s (top s)) true))).

(** The loop of [ERR_pop_to_mark]; the ring has at most fifteen errors. *)
Fixpoint pop_to_mark_loop (fuel : nat) (s : ERR_STATE) : Z * ERR_STATE :=
  match fuel with
  | O => (0, s)
  | S fuel =>
      if negb (bottom s =? top s) then
        let error := slot s (top s) in
        if mark error then (1, put_slot s (top s) (set_mark error false))
        else
          let s := put_slot s (top s) (err_clear error) in
          pop_to_mark_loop fuel (set_top s (if top s =? 0 then ERR_NUM_ERRORS - 1 else top s - 1))
      else (0, s)
  end.

Definition ERR_pop_to_mark : option ERR_STATE -> Z * option ERR_STATE :=
  with_state 0 (pop_to_mark_loop (Z.to_nat ERR_NUM_ERRORS)).

(** A saved state is the list of its errors. *)
Definition num_saved (s : ERR_STATE) : Z :=
  if bottom s <=? top s then top s - bottom s else ERR_NUM_ERRORS + top s - bottom s.

Section Save.
  Context `{Allocator}.

Definition sizeof_err_error : Z := 24.

Definition ERR_save_state (st : option ERR_STATE) : option (list err_error) :=
  match st with
  | None => None
  | Some s =>
      if top s =? bottom s then None
      else if malloc_ok 16 && malloc_ok (num_saved s * sizeof_err_error) then
        Some (map (fun i => err_copy (slot s ((bottom s + Z.of_nat i + 1) mod ERR_NUM_ERRORS)))
                (seq 0 (Z.to_nat (num_saved s))))
      else None
  end.

(** [None] is the call to [abort]. *)
Definition ERR_restore_state (saved : option (list err_error)) (st : option ERR_STATE) : option (option ERR_STATE) :=
  match saved with
  | None | Some [] => Some (snd (ERR_clear_error st))
  | Some l =>
      if ERR_NUM_ERRORS <=? zlen l then None
      else match st with
           | None => Some None
           | Some dst =>
               Some (Some {| errors := map err_copy l ++ zdrop (zlen l) (errors dst);
                             top := zlen l - 1; bottom := ERR_NUM_ERRORS - 1; to_free := to_free dst |})
           end
  end.
End Save.
