(* ===== verification/ErrSpec.v ===== *)
(** What the error queue promises: a queue of the fifteen most recent errors,
    with marks to roll back to. *)

From S2P Require Import Prelude Err.

(** The ring holds the errors of the slots after [bottom] up to [top]. *)
Definition err_state_ok (s : ERR_STATE) : Prop :=
  zlen (errors s) = ERR_NUM_ERRORS /\ 0 <= top s < ERR_NUM_ERRORS /\ 0 <= bottom s < ERR_NUM_ERRORS.

Definition queue_len (s : ERR_STATE) : nat := Z.to_nat ((top s - bottom s) mod ERR_NUM_ERRORS).

(** The [n] errors after slot [b]. *)
Definition errors_from (s : ERR_STATE) (b : Z) (n : nat) : list err_error :=
  map (fun i => slot s ((b + Z.of_nat i + 1) mod ERR_NUM_ERRORS)) (seq 0 n).

(** The queue, oldest error first. *)
Definition err_queue (s : ERR_STATE) : list err_error := errors_from s (bottom s) (queue_len s).

Definition newest (n : nat) {A} (l : list A) : list A := drop (length l - n) l.

(** * The ring *)

Ltac ring_arith := unfold ERR_NUM_ERRORS in *; Z.to_euclidean_division_equations; lia.

Lemma errors_from_cons s b n :
  errors_from s b (S n) = slot s ((b + 1) mod ERR_NUM_ERRORS) :: errors_from s ((b + 1) mod ERR_NUM_ERRORS) n.
Proof.
  unfold errors_from; cbn [seq map]; f_equal; [do 2 f_equal; lia|].
  rewrite <- seq_shift, map_map; apply map_ext; intros i; f_equal; ring_arith.
Qed.

Lemma errors_from_snoc s b n :
  errors_from s b (S n) = errors_from s b n ++ [slot s ((b + Z.of_nat n + 1) mod ERR_NUM_ERRORS)].
Proof. unfold errors_from; rewrite seq_S, map_app; reflexivity. Qed.

Lemma errors_from_ext s s' b n :
  (forall i, 0 <= i < Z.of_nat n -> slot s' ((b + i + 1) mod ERR_NUM_ERRORS) = slot s ((b + i + 1) mod ERR_NUM_ERRORS)) ->
  errors_from s' b n = errors_from s b n.
Proof. intros He; apply map_ext_in; intros i Hi; apply in_seq in Hi; apply He; lia. Qed.

Lemma slot_put_eq s i e : zlen (errors s) = ERR_NUM_ERRORS -> 0 <= i < ERR_NUM_ERRORS -> slot (put_slot s i e) i = e.
Proof.
  intros Hl Hi; unfold slot, put_slot; cbn; rewrite list_lookup_insert_eq; [reflexivity|]; unfold zlen in Hl; lia.
Qed.

Lemma slot_put_ne s i j e : 0 <= i -> 0 <= j -> i <> j -> slot (put_slot s i e) j = slot s j.
Proof. intros; unfold slot, put_slot; cbn; now rewrite list_lookup_insert_ne by lia. Qed.

(** A store to the slot after the errors does not change them. *)
Lemma errors_from_put s b n i e : 0 <= i < ERR_NUM_ERRORS ->
  (forall k, 0 <= k < Z.of_nat n -> (b + k + 1) mod ERR_NUM_ERRORS <> i) ->
  errors_from (put_slot s i e) b n = errors_from s b n.
Proof.
  intros Hi Hne; apply errors_from_ext; intros k Hk; apply slot_put_ne; [lia| |specialize (Hne k); lia].
  apply Z.mod_pos_bound; unfold ERR_NUM_ERRORS; lia.
Qed.

Lemma length_err_queue s : length (err_queue s) = queue_len s.
Proof. unfold err_queue, errors_from; now rewrite length_map, length_seq. Qed.

(** The ring as a length: [top] is [n] slots after [bottom]. *)
Lemma queue_len_spec s n : err_state_ok s -> 0 <= n < ERR_NUM_ERRORS ->
  (bottom s + n) mod ERR_NUM_ERRORS = top s -> queue_len s = Z.to_nat n.
Proof. intros (_ & Ht & Hb) Hn E; unfold queue_len; f_equal; ring_arith. Qed.

Lemma queue_len_bound s : err_state_ok s ->
  Z.of_nat (queue_len s) < ERR_NUM_ERRORS /\ (bottom s + Z.of_nat (queue_len s)) mod ERR_NUM_ERRORS = top s.
Proof.
  intros (_ & Ht & Hb); unfold queue_len.
  rewrite Z2Nat.id by (apply Z.mod_pos_bound; unfold ERR_NUM_ERRORS; lia); split; ring_arith.
Qed.

Lemma empty_iff s : err_state_ok s -> (bottom s =? top s) = match err_queue s with [] => true | _ => false end.
Proof.
  intros Hok; pose proof (length_err_queue s) as Hl; pose proof (queue_len_bound s Hok) as [Hb E].
  destruct Hok as (_ & Ht & Hbo), (err_queue s); cbn in Hl; rewrite <- Hl in E.
  - apply Z.eqb_eq; ring_arith.
  - apply Z.eqb_neq; ring_arith.
Qed.

(** ** Adding an error *)

Lemma put_error_spec lib reason f l errno s : err_state_ok s ->
  let reason' := if (lib =? ERR_LIB_SYS) && (reason =? 0) then errno else reason in
  let e := {| file := f; data := None; packed := ERR_PACK lib reason'; line := u16 l; mark := false |} in
  exists s', ERR_put_error lib reason f l errno (Some s) = (tt, Some s') /\ err_state_ok s' /\
    err_queue s' = newest 15 (err_queue s ++ [e]).
Proof.
  intros Hok reason' e; pose proof Hok as (Hl & Ht & Hb); destruct (queue_len_bound s Hok) as [Hn En].
  set (n := queue_len s) in *.
  cbn [ERR_put_error with_state]; fold reason'; fold e; cbn [top bottom set_top].
  eexists; split; [reflexivity|].
  assert (forall s1, zlen (errors s1) = ERR_NUM_ERRORS -> 0 <= top s1 < ERR_NUM_ERRORS -> 0 <= bottom s1 < ERR_NUM_ERRORS ->
    forall m, 0 <= Z.of_nat m < 15 -> (bottom s1 + Z.of_nat m + 1) mod ERR_NUM_ERRORS = top s1 ->
    err_state_ok (put_slot s1 (top s1) e) /\
    err_queue (put_slot s1 (top s1) e) = errors_from s1 (bottom s1) m ++ [e]) as Hput.
  { clear; intros s1 Hl Ht Hb m Hm Et.
    assert (err_state_ok (put_slot s1 (top s1) e)) as Hok.
    { repeat split; cbn; try lia; unfold zlen in *; now rewrite length_insert. }
    split; [auto|]; unfold err_queue.
    rewrite (queue_len_spec _ (Z.of_nat (S m)) Hok) by (cbn; ring_arith).
    rewrite Nat2Z.id, errors_from_snoc; cbn [bottom put_slot set_errors]; rewrite Et.
    fold (put_slot s1 (top s1) e); rewrite slot_put_eq, errors_from_put by (auto; intros; ring_arith).
    reflexivity. }
  unfold newest; rewrite length_app, length_err_queue; fold n; cbn [length].
  destruct (Z.eqb_spec ((top s + 1) mod ERR_NUM_ERRORS) (bottom s)) as [Eq|Ne].
  - assert (n = 15%nat) as En15 by ring_arith.
    destruct (Hput (set_bottom (set_top s ((top s + 1) mod ERR_NUM_ERRORS)) ((bottom s + 1) mod ERR_NUM_ERRORS))
      ltac:(auto) ltac:(cbn; ring_arith) ltac:(cbn; ring_arith) 14%nat ltac:(lia) ltac:(cbn; ring_arith)) as [Hok' Hq].
    split; [exact Hok'|]; etransitivity; [exact Hq|].
    cbn [bottom set_bottom]; unfold err_queue; fold n; rewrite En15, (errors_from_cons s); reflexivity.
  - assert (Z.of_nat n < 15) by ring_arith.
    destruct (Hput (set_top s ((top s + 1) mod ERR_NUM_ERRORS)) Hl ltac:(cbn; ring_arith) Hb n ltac:(lia)
      ltac:(cbn; ring_arith)) as [Hok' Hq].
    split; [exact Hok'|]; etransitivity; [exact Hq|].
    replace (n + 1 - 15)%nat with 0%nat by lia; reflexivity.
Qed.

(** ** Taking errors *)

Definition values_of (want_file want_data : bool) (e : err_error) : err_values :=
  {| v_packed := packed e; v_file_line := file_line_of want_file e;
     v_data_flags := if want_data
       then Some (match data e with None => ([], 0) | Some d => (d, 3) end) else None |}.

(** What the caller of a get or a peek receives. *)
Definition first_values (wf wd : bool) (q : list err_error) : err_values :=
  match q with [] => no_values | e :: _ => values_of wf wd e end.
Definition last_values (wf wd : bool) (q : list err_error) : err_values :=
  match last q with None => no_values | Some e => values_of wf wd e end.

Lemma queue_nonempty s : err_state_ok s -> bottom s <> top s ->
  exists n, queue_len s = S n /\
    err_queue s = slot s ((bottom s + 1) mod ERR_NUM_ERRORS) :: errors_from s ((bottom s + 1) mod ERR_NUM_ERRORS) n /\
    err_queue s = errors_from s (bottom s) n ++ [slot s (top s)].
Proof.
  intros Hok Hne; pose proof (queue_len_bound s Hok) as [Hb E]; pose proof Hok as (_ & Ht & Hbo); unfold err_queue.
  destruct (queue_len s) as [|n] eqn:En; [exfalso; ring_arith|exists n; split; [reflexivity|]].
  split; [apply errors_from_cons|]; rewrite errors_from_snoc; do 3 f_equal; ring_arith.
Qed.

(** Removing the oldest error. *)
Lemma pop_front s n e : err_state_ok s -> queue_len s = S n ->
  let i := (bottom s + 1) mod ERR_NUM_ERRORS in
  err_state_ok (set_bottom (put_slot s i e) i) /\
  err_queue (set_bottom (put_slot s i e) i) = errors_from s i n.
Proof.
  intros Hok En i; pose proof (queue_len_bound s Hok) as [Hb E]; pose proof Hok as (Hl & Ht & Hbo).
  assert (0 <= i < ERR_NUM_ERRORS) by (apply Z.mod_pos_bound; unfold ERR_NUM_ERRORS; lia).
  assert (err_state_ok (set_bottom (put_slot s i e) i)) as Hok'.
  { repeat split; cbn; try lia; unfold zlen in *; now rewrite length_insert. }
  split; [auto|]; unfold err_queue; rewrite (queue_len_spec _ (Z.of_nat n) Hok') by (cbn; unfold i; ring_arith).
  rewrite Nat2Z.id; cbn [bottom set_bottom]; rewrite <- (errors_from_put s i n i e); [reflexivity|auto|].
  intros k Hk; unfold i; ring_arith.
Qed.

Lemma get_values_spec wf wd s : err_state_ok s ->
  exists s', get_error_values true false wf wd (Some s) = (first_values wf wd (err_queue s), Some s') /\
    err_state_ok s' /\ err_queue s' = tail (err_queue s).
Proof.
  intros Hok; cbn [get_error_values with_state]; destruct (Z.eqb_spec (bottom s) (top s)) as [E|Hne].
  { exists s; pose proof (empty_iff s Hok) as Hq; rewrite E, Z.eqb_refl in Hq.
    destruct (err_queue s); [auto|discriminate]. }
  destruct (queue_nonempty s Hok Hne) as (n & En & -> & _); cbn [first_values tail].
  set (i := (bottom s + 1) mod ERR_NUM_ERRORS).
  destruct (pop_front s n err_zero Hok En) as [Hok1 Hq1]; fold i in Hok1, Hq1.
  assert (0 <= i < ERR_NUM_ERRORS) as Hi by (apply Z.mod_pos_bound; unfold ERR_NUM_ERRORS; lia).
  assert (forall e p, put_slot (set_to_free (put_slot s i e) p) i err_zero = set_to_free (put_slot s i err_zero) p) as Hpp.
  { intros; unfold put_slot, set_errors, set_to_free; cbn; f_equal; apply list_insert_insert_eq. }
  unfold values_of; destruct wd; [|eexists; split; [reflexivity|auto]].
  destruct (data (slot s i)) as [d|]; cbn iota; [|eexists; split; [reflexivity|auto]].
  eexists; split; [reflexivity|]; unfold err_clear; rewrite Hpp; split; [exact Hok1|exact Hq1].
Qed.

Lemma peek_values_spec from_top wf wd s : err_state_ok s ->
  get_error_values false from_top wf wd (Some s) =
  ((if from_top then last_values else first_values) wf wd (err_queue s), Some s).
Proof.
  intros Hok; cbn [get_error_values with_state]; destruct (Z.eqb_spec (bottom s) (top s)) as [E|Hne].
  { pose proof (empty_iff s Hok) as Hq; rewrite E, Z.eqb_refl in Hq.
    destruct (err_queue s); [now destruct from_top|discriminate]. }
  destruct (queue_nonempty s Hok Hne) as (n & _ & Hf & Hl); destruct from_top.
  - rewrite Hl; unfold last_values, values_of; rewrite last_snoc.
    destruct wd; [destruct (data (slot s (top s)))|]; reflexivity.
  - rewrite Hf; unfold first_values, values_of.
    destruct wd; [destruct (data (slot s _))|]; reflexivity.
Qed.

(** Changing the most recent error. *)
Lemma put_top s n e : err_state_ok s -> queue_len s = S n ->
  err_state_ok (put_slot s (top s) e) /\ err_queue (put_slot s (top s) e) = errors_from s (bottom s) n ++ [e].
Proof.
  intros Hok En; pose proof (queue_len_bound s Hok) as [Hb E]; pose proof Hok as (Hl & Ht & Hbo).
  assert (err_state_ok (put_slot s (top s) e)) as Hok'.
  { repeat split; cbn; try lia; unfold zlen in *; now rewrite length_insert. }
  split; [auto|]; unfold err_queue; rewrite (queue_len_spec _ (Z.of_nat (S n)) Hok') by (cbn; ring_arith).
  rewrite Nat2Z.id, errors_from_snoc; cbn [bottom put_slot set_errors].
  replace ((bottom s + Z.of_nat n + 1) mod ERR_NUM_ERRORS) with (top s) by ring_arith.
  fold (put_slot s (top s) e); rewrite slot_put_eq, errors_from_put; auto; intros; ring_arith.
Qed.

(** Removing the most recent error. *)
Lemma pop_back s n e : err_state_ok s -> queue_len s = S n ->
  let s' := set_top (put_slot s (top s) e) (if top s =? 0 then ERR_NUM_ERRORS - 1 else top s - 1) in
  err_state_ok s' /\ err_queue s' = errors_from s (bottom s) n /\ queue_len s' = n.
Proof.
  intros Hok En s'; pose proof (queue_len_bound s Hok) as [Hb E]; pose proof Hok as (Hl & Ht & Hbo).
  assert (err_state_ok s') as Hok'.
  { repeat split; cbn; try lia; [unfold zlen in *; now rewrite length_insert| |];
      destruct (Z.eqb_spec (top s) 0); unfold ERR_NUM_ERRORS in *; lia. }
  assert (queue_len s' = n) as En'.
  { rewrite (queue_len_spec _ (Z.of_nat n) Hok'); [lia| |]; cbn;
      [ring_arith|destruct (Z.eqb_spec (top s) 0); ring_arith]. }
  split; [auto|split; [|auto]]; unfold err_queue; rewrite En'; cbn [bottom s' set_top put_slot set_errors].
  rewrite <- (errors_from_put s (bottom s) n (top s) e); [reflexivity|auto|]; intros; ring_arith.
Qed.

(** The queue rolled back to the last mark, which is removed. *)
Fixpoint roll_back (q : list err_error) : Z * list err_error :=
  match q with
  | [] => (0, [])
  | e :: q =>
      match roll_back q with
      | (1, q) => (1, e :: q)
      | _ => if mark e then (1, [set_mark e false]) else (0, [])
      end
  end.

Lemma roll_back_cases q : fst (roll_back q) = 0 \/ fst (roll_back q) = 1.
Proof.
  induction q as [|e q [IH|IH]]; cbn; auto; destruct (roll_back q) as [r q']; cbn in IH; subst r;
    [destruct (mark e)|]; cbn; auto.
Qed.

Lemma roll_back_snoc q e :
  roll_back (q ++ [e]) = if mark e then (1, q ++ [set_mark e false]) else roll_back q.
Proof.
  induction q as [|x q IH]; cbn [app roll_back]; [now destruct (mark e)|].
  rewrite IH; destruct (mark e); reflexivity.
Qed.

Lemma pop_to_mark_loop_spec fuel s : err_state_ok s -> (queue_len s < fuel)%nat ->
  let '(r, s') := pop_to_mark_loop fuel s in
  err_state_ok s' /\ (r, err_queue s') = roll_back (err_queue s).
Proof.
  revert s; induction fuel as [|fuel IH]; intros s Hok Hf; [lia|]; cbn [pop_to_mark_loop].
  destruct (Z.eqb_spec (bottom s) (top s)) as [E|Hne]; cbn [negb].
  { split; [auto|]; pose proof (empty_iff s Hok) as Hq; rewrite E, Z.eqb_refl in Hq.
    now destruct (err_queue s). }
  destruct (queue_nonempty s Hok Hne) as (n & En & _ & Hq); rewrite Hq, roll_back_snoc; cbv zeta.
  destruct (mark (slot s (top s))).
  - destruct (put_top s n (set_mark (slot s (top s)) false) Hok En) as [? ->]; auto.
  - destruct (pop_back s n (err_clear (slot s (top s))) Hok En) as (Hok' & Hq' & En').
    specialize (IH _ Hok' ltac:(lia)).
    cbn [top put_slot set_errors]; destruct (pop_to_mark_loop fuel _) as [r s'], IH as [? IH].
    split; [auto|]; rewrite IH, Hq'; reflexivity.
Qed.

(** ** Saved states *)

Lemma num_saved_len s : err_state_ok s -> num_saved s = Z.of_nat (queue_len s).
Proof.
  intros (_ & Ht & Hb); unfold num_saved, queue_len; rewrite Z2Nat.id by (apply Z.mod_pos_bound; unfold ERR_NUM_ERRORS; lia).
  destruct (Z.leb_spec (bottom s) (top s)); ring_arith.
Qed.

Lemma save_state_spec `{Allocator} s : err_state_ok s ->
  match ERR_save_state (Some s) with
  | None => err_queue s = [] \/ ~ forall n, malloc_ok n = true
  | Some l => l = map err_copy (err_queue s) /\ l <> []
  end.
Proof.
  intros Hok; cbn [ERR_save_state]; rewrite Z.eqb_sym, empty_iff by auto.
  destruct (err_queue s) as [|e q] eqn:Eq; [auto|].
  destruct (malloc_ok 16 && _) eqn:Em.
  - rewrite num_saved_len, Nat2Z.id by auto; rewrite <- Eq; unfold err_queue, errors_from; rewrite map_map.
    split; [reflexivity|]; intros E; apply (f_equal length) in E.
    rewrite length_map, length_seq, <- length_err_queue, Eq in E; discriminate.
  - right; intros Hm; rewrite !Hm in Em; discriminate.
Qed.

Lemma restore_state_spec `{Allocator} l s : err_state_ok s -> l <> [] -> zlen l < ERR_NUM_ERRORS ->
  exists s', ERR_restore_state (Some l) (Some s) = Some (Some s') /\ err_state_ok s' /\
    err_queue s' = map err_copy l.
Proof.
  intros (Hl & _ & _) Hn Hz; destruct l as [|e l]; [congruence|]; set (q := e :: l) in *.
  unfold ERR_restore_state; rewrite (proj2 (Z.leb_gt _ _)) by auto.
  assert (1 <= zlen q) by (unfold q; rewrite zlen_cons; zl_pose; lia).
  eexists; split; [reflexivity|]; set (s' := {| errors := _ |}).
  assert (err_state_ok s') as Hok.
  { split; [cbn [errors s']; rewrite zlen_app, zlen_map, zlen_zdrop by lia; lia|].
    cbn [top bottom s']; unfold ERR_NUM_ERRORS in *; lia. }
  split; [auto|]; unfold err_queue; rewrite (queue_len_spec s' (zlen q) Hok) by (cbn [top bottom s']; ring_arith).
  apply nth_ext with (d := err_zero) (d' := err_zero);
    [unfold errors_from; rewrite !length_map, length_seq; unfold zlen; lia|].
  unfold errors_from; rewrite length_map, length_seq; intros i Hi.
  rewrite (nth_indep _ _ (slot s' ((bottom s' + Z.of_nat 0 + 1) mod ERR_NUM_ERRORS))) by now rewrite length_map, length_seq.
  rewrite (map_nth (fun i => slot s' ((bottom s' + Z.of_nat i + 1) mod ERR_NUM_ERRORS))), seq_nth by auto.
  cbn [bottom s']; replace ((ERR_NUM_ERRORS - 1 + Z.of_nat (0 + i) + 1) mod ERR_NUM_ERRORS) with (Z.of_nat i) by ring_arith.
  unfold slot; cbn [errors s']; rewrite Nat2Z.id, lookup_app_l by (rewrite length_map; unfold zlen in Hi; lia).
  now rewrite nth_lookup.
Qed.

(** * Histories of calls *)

Inductive err_call : Type :=
  | Put (lib reason : Z) (f : option (list Z)) (l errno : Z)
  | Get (want_file want_data : bool)
  | Peek (from_top want_file want_data : bool)
  | SetData (d : list Z)
  | Mark
  | PopToMark
  | Clear.

(** What a call returns: the values of an error, or the result of a mark. *)
Definition run_err (c : err_call) (st : option ERR_STATE) : (err_values + Z) * option ERR_STATE :=
  match c with
  | Put lib reason f l errno => let '(_, st) := ERR_put_error lib reason f l errno st in (inr 0, st)
  | Get wf wd => let '(v, st) := get_error_values true false wf wd st in (inl v, st)
  | Peek t wf wd => let '(v, st) := get_error_values false t wf wd st in (inl v, st)
  | SetData d => let '(_, st) := err_set_error_data d st in (inr 0, st)
  | Mark => let '(r, st) := ERR_set_mark st in (inr r, st)
  | PopToMark => let '(r, st) := ERR_pop_to_mark st in (inr r, st)
  | Clear => let '(_, st) := ERR_clear_error st in (inr 0, st)
  end.

(** Changes the most recent error. *)
Definition change_last (f : err_error -> err_error) (q : list err_error) : list err_error :=
  match last q with None => [] | Some e => take (length q - 1) q ++ [f e] end.

(** The same call on a list of errors, oldest first. *)
Definition queue_call (c : err_call) (q : list err_error) : (err_values + Z) * list err_error :=
  match c with
  | Put lib reason f l errno =>
      let reason := if (lib =? ERR_LIB_SYS) && (reason =? 0) then errno else reason in
      (inr 0, newest 15 (q ++ [{| file := f; data := None; packed := ERR_PACK lib reason; line := u16 l; mark := false |}]))
  | Get wf wd => (inl (first_values wf wd q), tail q)
  | Peek t wf wd => (inl ((if t then last_values else first_values) wf wd q), q)
  | SetData d => (inr 0, change_last (fun e => set_data e (Some d)) q)
  | Mark => (inr (match q with [] => 0 | _ => 1 end), change_last (fun e => set_mark e true) q)
  | PopToMark => let '(r, q) := roll_back q in (inr r, q)
  | Clear => (inr 0, [])
  end.

Lemma change_top s f : err_state_ok s -> bottom s <> top s ->
  err_state_ok (put_slot s (top s) (f (slot s (top s)))) /\
  err_queue (put_slot s (top s) (f (slot s (top s)))) = change_last f (err_queue s).
Proof.
  intros Hok Hne; destruct (queue_nonempty s Hok Hne) as (n & En & _ & Hq).
  destruct (put_top s n (f (slot s (top s))) Hok En) as [? ->]; split; [auto|].
  rewrite Hq; unfold change_last; rewrite last_snoc, length_app; cbn [length].
  rewrite take_app_length' by lia; reflexivity.
Qed.

Lemma empty_queue s : err_state_ok s -> bottom s = top s -> err_queue s = [].
Proof.
  intros Hok E; pose proof (empty_iff s Hok) as Hq; rewrite E, Z.eqb_refl in Hq; now destruct (err_queue s).
Qed.

Lemma run_err_spec c s : err_state_ok s ->
  exists r s', run_err c (Some s) = (r, Some s') /\ err_state_ok s' /\ (r, err_queue s') = queue_call c (err_queue s).
Proof.
  intros Hok; destruct c as [lib reason f l errno|wf wd|t wf wd|d| | |]; cbn [run_err queue_call].
  - destruct (put_error_spec lib reason f l errno s Hok) as (s' & -> & ? & Hq); eexists _, _;
      split; [reflexivity|split; [auto|now rewrite Hq]].
  - destruct (get_values_spec wf wd s Hok) as (s' & -> & ? & <-); eauto.
  - rewrite peek_values_spec by auto; eauto.
  - unfold err_set_error_data, with_state; destruct (Z.eqb_spec (top s) (bottom s)) as [E|E].
    + eexists _, _; split; [reflexivity|split; [auto|]]; now rewrite empty_queue by auto.
    + destruct (change_top s (fun e => set_data e (Some d)) Hok ltac:(auto)) as [? Hq].
      eexists _, _; split; [reflexivity|split; [auto|now rewrite <- Hq]].
  - unfold ERR_set_mark, with_state; destruct (Z.eqb_spec (bottom s) (top s)) as [E|E].
    + eexists _, _; split; [reflexivity|split; [auto|]]; now rewrite empty_queue by auto.
    + destruct (change_top s (fun e => set_mark e true) Hok E) as [? Hq].
      eexists _, _; split; [reflexivity|split; [auto|rewrite <- Hq]].
      destruct (queue_nonempty s Hok E) as (n & _ & -> & _); reflexivity.
  - cbn [ERR_pop_to_mark with_state].
    pose proof (pop_to_mark_loop_spec (Z.to_nat ERR_NUM_ERRORS) s Hok) as Hp.
    destruct (queue_len_bound s Hok) as [Hb _].
    destruct (pop_to_mark_loop _ s) as [r s'], Hp as [? <-]; [lia|]; eauto.
  - cbn [ERR_clear_error with_state]; eexists _, _; split; [reflexivity|].
    destruct Hok as (Hl & _ & _); split; [|reflexivity].
    repeat split; cbn; try (unfold ERR_NUM_ERRORS; lia); now rewrite zlen_map.
Qed.

Fixpoint run_errs (cs : list err_call) (st : option ERR_STATE) : list (err_values + Z) * option ERR_STATE :=
  match cs with
  | [] => ([], st)
  | c :: cs => let '(r, st) := run_err c st in let '(rs, st) := run_errs cs st in (r :: rs, st)
  end.

Fixpoint queue_calls (cs : list err_call) (q : list err_error) : list (err_values + Z) * list err_error :=
  match cs with
  | [] => ([], q)
  | c :: cs => let '(r, q) := queue_call c q in let '(rs, q) := queue_calls cs q in (r :: rs, q)
  end.

(** The state of a thread that has not used the queue. *)
Definition err_state_new : ERR_STATE :=
  {| errors := replicate 16 err_zero; top := 0; bottom := 0; to_free := None |}.

(** C9. Through any history of calls on a thread's error queue, the ring
    of sixteen slots returns what a queue of the fifteen most recent errors
    returns: gets take the oldest, peeks show the oldest or the newest, and
    marks roll the newest ones back. *)
Theorem err_queue_refines (cs : list err_call) :
  exists rs s, run_errs cs (Some err_state_new) = (rs, Some s) /\ err_state_ok s /\
    (rs, err_queue s) = queue_calls cs [] /\ (length (err_queue s) <= 15)%nat.
Proof.
  assert (err_state_ok err_state_new) as Hok by (repeat split; vm_compute; congruence).
  change (@nil err_error) with (err_queue err_state_new); revert Hok; generalize err_state_new.
  induction cs as [|c cs IH]; intros s Hok; cbn [run_errs queue_calls].
  - exists [], s; repeat split; auto; try apply Hok.
    rewrite length_err_queue; pose proof (queue_len_bound s Hok); unfold ERR_NUM_ERRORS in *; lia.
  - destruct (run_err_spec c s Hok) as (r & s1 & -> & Hok1 & <-).
    destruct (IH s1 Hok1) as (rs & s2 & -> & Hok2 & <- & ?); eauto 10.
Qed.

Lemma run_errs_spec cs s : err_state_ok s ->
  exists rs s', run_errs cs (Some s) = (rs, Some s') /\ err_state_ok s' /\ (rs, err_queue s') = queue_calls cs (err_queue s).
Proof.
  revert s; induction cs as [|c cs IH]; intros s Hok; cbn [run_errs queue_calls]; [eauto|].
  destruct (run_err_spec c s Hok) as (r & s1 & -> & Hok1 & <-).
  destruct (IH s1 Hok1) as (rs & s2 & -> & Hok2 & <-); eauto.
Qed.

(** Rolling back over unmarked errors to a marked one. *)
Lemma roll_back_marked q e new : mark e = false -> Forall (fun e => mark e = false) new ->
  roll_back ((q ++ [set_mark e true]) ++ new) = (1, q ++ [e]).
Proof.
  intros He; induction new as [|x new IH] using rev_ind; intros Hnew.
  - rewrite app_nil_r, roll_back_snoc; cbn; do 3 f_equal; destruct e; cbn in *; now subst.
  - apply Forall_app in Hnew as [Hnew Hx]; inversion_clear Hx as [|? ? Hm _].
    rewrite app_assoc, roll_back_snoc, Hm; auto.
Qed.

Definition put_calls (es : list (Z * Z * option (list Z) * Z * Z)) : list err_call :=
  map (fun '(lib, reason, f, l, errno) => Put lib reason f l errno) es.

Lemma puts_then_pop es q e new : mark e = false -> Forall (fun e => mark e = false) new ->
  (length (q ++ [e]) + length new + length es <= 15)%nat ->
  exists rs, queue_calls (put_calls es ++ [PopToMark]) ((q ++ [set_mark e true]) ++ new) = (rs, q ++ [e]) /\
    last rs = Some (inr 1).
Proof.
  intros He; revert new; induction es as [|[[[[lib reason] f] l] errno] es IH]; intros new Hnew Hlen.
  - cbn [put_calls map app queue_calls queue_call]; rewrite roll_back_marked by auto.
    eexists; split; reflexivity.
  - cbn [put_calls map app queue_calls queue_call]; fold (put_calls es); set (x := {| file := f |}).
    unfold newest; replace (length _ - 15)%nat with 0%nat by (rewrite !length_app in *; cbn [length] in *; lia).
    rewrite drop_0, <- (app_assoc (q ++ _)).
    destruct (IH (new ++ [x])) as (rs & -> & Hl);
      [apply Forall_app; auto|rewrite !length_app in *; cbn [length] in *; lia|].
    eexists; split; [reflexivity|]; destruct rs; [discriminate|exact Hl].
Qed.

(** [ERR_pop_to_mark] undoes what was added since the last mark: after
    a mark and any errors that do not overflow the ring, it returns one and
    leaves the queue as it was before the mark. *)
Theorem err_pop_to_mark_undoes (s : ERR_STATE) (es : list (Z * Z * option (list Z) * Z * Z)) :
  err_state_ok s -> err_queue s <> [] -> (forall e, last (err_queue s) = Some e -> mark e = false) ->
  (length (err_queue s) + length es <= 15)%nat ->
  exists rs s', run_errs (Mark :: put_calls es ++ [PopToMark]) (Some s) = (rs, Some s') /\
    last rs = Some (inr 1) /\ err_queue s' = err_queue s.
Proof.
  intros Hok Hne Hm Hlen.
  destruct (run_errs_spec (Mark :: put_calls es ++ [PopToMark]) s Hok) as (rs & s' & -> & _ & Hq).
  exists rs, s'; split; [reflexivity|]; revert Hq Hm Hne Hlen; generalize (err_queue s); clear -es.
  intros q Hq Hm Hne Hlen; cbn [queue_calls queue_call] in Hq.
  destruct q as [|e q _] using rev_ind; [congruence|]; specialize (Hm e ltac:(apply last_snoc)).
  unfold change_last in Hq; rewrite last_snoc, length_app in Hq; cbn [length] in Hq.
  rewrite take_app_length' in Hq by lia; rewrite <- (app_nil_r (q ++ [set_mark e true])) in Hq.
  destruct (puts_then_pop es q e [] Hm) as (rs' & E & Hl); [constructor|cbn [length]; lia|].
  rewrite E in Hq; injection Hq as -> ->; split; [destruct rs'; [discriminate|exact Hl]|reflexivity].
Qed.

Lemma err_pop_to_mark_undoes_witness :
  exists s, err_queue s <> [] /\ exists rs s',
    run_errs [Mark; Put 14 5 None 7 0; PopToMark] (Some s) = (rs, Some s') /\
    last rs = Some (inr 1) /\ err_queue s' = err_queue s.
Proof.
  exists {| errors := <[1%nat := {| file := None; data := None; packed := 9; line := 1; mark := false |}]> (replicate 16 err_zero);
            top := 1; bottom := 0; to_free := None |}.
  split; [vm_compute; discriminate|].
  apply (err_pop_to_mark_undoes _ [(14, 5, None, 7, 0)]).
  - repeat split; vm_compute; congruence.
  - vm_compute; discriminate.
  - intros e He; vm_compute in He; now injection He as <-.
  - vm_compute; lia.
Defined.

Section SaveRestore.
  Context `{Allocator}.

(** Restoring a saved queue brings back the errors that were in it,
    whatever happened to the thread's queue in between; only the marks are
    lost. *)
Theorem err_save_restore (s1 s2 : ERR_STATE) (l : list err_error) :
  (forall n, malloc_ok n = true) -> err_state_ok s1 -> err_state_ok s2 ->
  ERR_save_state (Some s1) = Some l ->
  exists s3, ERR_restore_state (Some l) (Some s2) = Some (Some s3) /\ err_state_ok s3 /\
    err_queue s3 = map (fun e => set_mark e false) (err_queue s1).
Proof.
  intros Hm Hok1 Hok2 Es; pose proof (save_state_spec s1 Hok1) as Hs; rewrite Es in Hs; destruct Hs as [-> Hne].
  destruct (restore_state_spec (map err_copy (err_queue s1)) s2 Hok2 Hne) as (s3 & -> & Hok3 & Hq).
  { rewrite zlen_map; unfold zlen; rewrite length_err_queue; apply queue_len_bound; auto. }
  exists s3; split; [auto|split; [auto|]]; rewrite Hq, map_map; apply map_ext; intros e.
  unfold err_copy, set_mark; cbn; f_equal; destruct (data e); [now rewrite !Hm|reflexivity].
Qed.
End SaveRestore.

Lemma err_save_restore_witness :
  let e := {| file := None; data := Some [104; 105]; packed := 9; line := 1; mark := true |} in
  let s1 := {| errors := <[1%nat := e]> (replicate 16 err_zero); top := 1; bottom := 0; to_free := None |} in
  exists s3, ERR_restore_state (H:=allocator_total) (Some [set_mark e false]) (Some err_state_new) = Some (Some s3) /\
    err_state_ok s3 /\ err_queue s3 = map (fun e => set_mark e false) (err_queue s1).
Proof.
  apply (err_save_restore (H:=allocator_total)).
  - reflexivity.
  - repeat split; vm_compute; congruence.
  - repeat split; vm_compute; congruence.
  - vm_compute; reflexivity.
Defined.
