(* ===== verification/ErrString.v ===== *)
(** The text of an error (crypto/err/err.c, lines 367-644): the names of
    libraries and reasons, [ERR_error_string_n] and [ERR_print_errors_cb].

    Strings are lists of characters without their NUL. The table of reasons is
    generated data and a parameter, as is [strerror]. *)

From S2P Require Import Prelude Mem Err ErrSpec.
From Stdlib Require Import Strings.String Strings.Ascii.
Local Open Scope string_scope.
Local Open Scope list_scope.
Local Open Scope Z_scope.

Definition str (s : string) : list Z := map (fun c => Z.of_N (N_of_ascii c)) (list_ascii_of_string s).

Definition ERR_NUM_LIBS : Z := 34.
Definition ERR_R_FATAL : Z := 64.
Definition ERR_ERROR_STRING_BUF_LEN : Z := 120.

Definition kLibraryNames : list (list Z) := map str
  ["invalid library (0)"; "unknown library"; "system library"; "bignum routines"; "RSA routines";
   "Diffie-Hellman routines"; "public key routines"; "memory buffer routines";
   "object identifier routines"; "PEM routines"; "DSA routines"; "X.509 certificate routines";
   "ASN.1 encoding routines"; "configuration file routines"; "common libcrypto routines";
   "elliptic curve routines"; "SSL routines"; "BIO routines"; "PKCS7 routines"; "PKCS8 routines";
   "X509 V3 routines"; "random number generator"; "ENGINE routines"; "OCSP routines"; "UI routines";
   "COMP routines"; "ECDSA routines"; "ECDH routines"; "HMAC routines"; "Digest functions";
   "Cipher functions"; "HKDF functions"; "Trust Token functions"; "User defined functions"].

(** Reads a string up to its NUL. *)
Fixpoint c_string (l : list Z) : list Z :=
  match l with
  | [] => []
  | c :: l => if c =? 0 then [] else c :: c_string l
  end.

Definition err_string_cmp (a b : Z) : Z :=
  let a_key := Z.shiftr a 15 in
  let b_key := Z.shiftr b 15 in
  if a_key <? b_key then -1 else if b_key <? a_key then 1 else 0.

(** [bsearch] finds a value with the key; the keys of the table are distinct. *)
Definition err_string_lookup (lib key : Z) (values : list Z) (string_data : list Z) : option (list Z) :=
  if (Z.shiftl 1 6 <=? lib) || (Z.shiftl 1 11 <=? key) then None
  else
    let search_key := Z.lor (u32 (Z.shiftl lib 26)) (u32 (Z.shiftl key 15)) in
    match List.find (fun v => err_string_cmp search_key v =? 0) values with
    | None => None
    | Some result => Some (c_string (zdrop (Z.land result 0x7fff) string_data))
    end.

Definition err_lib_error_string (packed_error : Z) : option (list Z) :=
  let lib := ERR_GET_LIB packed_error in
  if ERR_NUM_LIBS <=? lib then None else kLibraryNames !! Z.to_nat lib.

Definition ERR_lib_error_string (packed_error : Z) : list Z :=
  default (str "unknown library") (err_lib_error_string packed_error).

Definition ERR_func_error_string (_ : Z) : list Z := str "OPENSSL_internal".

(** The formats of [snprintf] that are used. *)
Definition fmt_u (n : Z) : list Z := dec_digits 10 n.
Definition hex_digit (n : Z) : Z := if n <? 10 then 48 + n else 87 + n.
Definition fmt_08x (n : Z) : list Z :=
  map (fun i => hex_digit (Z.land (Z.shiftr n (4 * i)) 15)) [7; 6; 5; 4; 3; 2; 1; 0].

Section Strings.
  Variable strerror : Z -> list Z.
  Variable kOpenSSLReasonValues : list Z.
  Variable kOpenSSLReasonStringData : list Z.

Definition err_reason_error_string (packed_error : Z) : option (list Z) :=
  let lib := ERR_GET_LIB packed_error in
  let reason := ERR_GET_REASON packed_error in
  if lib =? ERR_LIB_SYS then (if reason <? 127 then Some (strerror reason) else None)
  else if reason <? ERR_NUM_LIBS then kLibraryNames !! Z.to_nat reason
  else if reason <? 100 then
    if reason =? Z.lor 1 ERR_R_FATAL then Some (str "malloc failure")
    else if reason =? Z.lor 2 ERR_R_FATAL then Some (str "function should not have been called")
    else if reason =? Z.lor 3 ERR_R_FATAL then Some (str "passed a null parameter")
    else if reason =? Z.lor 4 ERR_R_FATAL then Some (str "internal error")
    else if reason =? Z.lor 5 ERR_R_FATAL then Some (str "overflow")
    else None
  else err_string_lookup lib reason kOpenSSLReasonValues kOpenSSLReasonStringData.

Definition ERR_reason_error_string (packed_error : Z) : list Z :=
  default (str "unknown error") (err_reason_error_string packed_error).

Definition chr_colon : Z := 58.
Definition num_colons : Z := 4.

(** [strchr] of a colon from an offset of the text. *)
Fixpoint colon_from (i : Z) (l : list Z) : option Z :=
  match l with
  | [] => None
  | c :: l => if c =? chr_colon then Some i else colon_from (i + 1) l
  end.

(** The loop that makes sure of the colons; [left] are still to be found. *)
Fixpoint fix_colons (left : nat) (s : Z) (buf : list Z) : list Z :=
  match left with
  | O => buf
  | S k =>
      let last_pos := zlen buf - Z.of_nat left in
      match colon_from s (zdrop s buf) with
      | Some colon =>
          if last_pos <? colon then zsplice buf last_pos (zrep (Z.of_nat left) chr_colon)
          else fix_colons k (colon + 1) buf
      | None => zsplice buf last_pos (zrep (Z.of_nat left) chr_colon)
      end
  end.

(** The text without truncation. *)
Definition error_text (packed_error : Z) : list Z :=
  let lib_str := match err_lib_error_string packed_error with
                 | None => str "lib(" ++ fmt_u (ERR_GET_LIB packed_error) ++ str ")"
                 | Some s => s
                 end in
  let reason_str := match err_reason_error_string packed_error with
                    | None => str "reason(" ++ fmt_u (ERR_GET_REASON packed_error) ++ str ")"
                    | Some s => s
                    end in
  str "error:" ++ fmt_08x packed_error ++ str ":" ++ lib_str ++ str ":OPENSSL_internal:" ++ reason_str.

(** The text in a buffer of [len] characters; [None] is a NULL result. *)
Definition ERR_error_string_n (packed_error len : Z) : option (list Z) :=
  if len =? 0 then None
  else
    let text := error_text packed_error in
    let buf := ztake (len - 1) text in
    if len <=? zlen text then
      if len <=? num_colons then Some buf else Some (fix_colons 4 0 buf)
    else Some buf.

(** The message of one error; [thread_hash] is printed in decimal, [line] is
    the [int] given by the queue. *)
Definition error_message (thread_hash : Z) (v : err_values) : list Z :=
  let '(file, line) := default ([], 0) (v_file_line v) in
  let '(data, flags) := default ([], 0) (v_data_flags v) in
  let buf := default [] (ERR_error_string_n (v_packed v) ERR_ERROR_STRING_BUF_LEN) in
  ztake 1023 (dec_digits 20 thread_hash ++ str ":" ++ buf ++ str ":" ++ file ++ str ":" ++ fmt_u line ++ str ":" ++
    (if negb (Z.land flags ERR_FLAG_STRING =? 0) then data else []) ++ [10]).

(** The callback takes a message and its context; it is called until it
    returns a value that is not positive or the queue is empty. *)
Fixpoint print_errors_loop {C} (fuel : nat) (thread_hash : Z) (callback : list Z -> C -> Z * C) (ctx : C)
    (st : option ERR_STATE) : C * option ERR_STATE :=
  match fuel with
  | O => (ctx, st)
  | S fuel =>
      let '(v, st) := ERR_get_error_line_data st in
      if v_packed v =? 0 then (ctx, st)
      else
        let '(r, ctx) := callback (error_message thread_hash v) ctx in
        if r <=? 0 then (ctx, st) else print_errors_loop fuel thread_hash callback ctx st
  end.

Definition ERR_print_errors_cb {C} (thread_hash : Z) (callback : list Z -> C -> Z * C) (ctx : C)
    (st : option ERR_STATE) : C * option ERR_STATE :=
  print_errors_loop (Z.to_nat ERR_NUM_ERRORS) thread_hash callback ctx st.

(** ** Properties *)

Definition colons (l : list Z) : Z := zlen (List.filter (fun c => c =? chr_colon) l).

Lemma colons_app l k : colons (l ++ k) = colons l + colons k.
Proof. unfold colons; now rewrite List.filter_app, zlen_app. Qed.

Lemma colons_nonneg l : 0 <= colons l.
Proof. apply zlen_nonneg. Qed.

Lemma colons_zrep n : 0 <= n -> colons (zrep n chr_colon) = n.
Proof.
  intros Hn; unfold zrep, colons; rewrite <- (Z2Nat.id n) at 2 by auto.
  induction (Z.to_nat n) as [|k IH]; [reflexivity|]; cbn [replicate List.filter].
  rewrite Z.eqb_refl, zlen_cons, IH; lia.
Qed.

Lemma colon_from_spec i l :
  match colon_from i l with
  | Some k => i <= k < i + zlen l /\ 1 <= colons (ztake (k - i + 1) l)
  | None => True
  end.
Proof.
  revert i; induction l as [|c l IH]; intros i; cbn [colon_from]; [exact I|].
  pose proof (zlen_nonneg l); rewrite zlen_cons; destruct (Z.eqb_spec c chr_colon) as [-> |].
  - split; [lia|]; rewrite Z.sub_diag; vm_compute; congruence.
  - specialize (IH (i + 1)); destruct (colon_from (i + 1) l) as [k|]; [|exact I].
    destruct IH as [Hk Hc]; split; [lia|].
    replace (k - i + 1) with (1 + (k - (i + 1) + 1)) by lia.
    unfold ztake at 1; rewrite Z2Nat.inj_add by lia; change (Z.to_nat 1) with 1%nat; cbn [Nat.add firstn].
    change (c :: take (Z.to_nat (k - (i + 1) + 1)) l) with ([c] ++ ztake (k - (i + 1) + 1) l).
    rewrite colons_app; pose proof (colons_nonneg [c]); lia.
Qed.

Lemma fix_colons_spec left s buf : 0 <= s -> s + Z.of_nat left <= zlen buf ->
  zlen (fix_colons left s buf) = zlen buf /\
  colons (ztake s buf) + Z.of_nat left <= colons (fix_colons left s buf).
Proof.
  revert s; induction left as [|k IH]; intros s Hs Hl; cbn [fix_colons].
  { split; [auto|]; rewrite <- (ztake_zdrop s buf) at 2; rewrite colons_app.
    pose proof (colons_nonneg (zdrop s buf)); lia. }
  set (last_pos := zlen buf - Z.of_nat (S k)).
  assert (zlen (zsplice buf last_pos (zrep (Z.of_nat (S k)) chr_colon)) = zlen buf /\
    colons (ztake s buf) + Z.of_nat (S k) <= colons (zsplice buf last_pos (zrep (Z.of_nat (S k)) chr_colon))) as Hfill.
  { split; [apply zlen_zsplice; [unfold last_pos; lia|rewrite zlen_zrep; unfold last_pos; lia]|].
    unfold zsplice; rewrite !colons_app, colons_zrep by lia.
    rewrite <- (ztake_zdrop s (ztake last_pos buf)), colons_app.
    replace (ztake s (ztake last_pos buf)) with (ztake s buf) by
      (unfold ztake; rewrite take_take; f_equal; unfold last_pos; lia).
    pose proof (colons_nonneg (zdrop s (ztake last_pos buf))).
    pose proof (colons_nonneg (zdrop (last_pos + zlen (zrep (Z.of_nat (S k)) chr_colon)) buf)); lia. }
  pose proof (colon_from_spec s (zdrop s buf)) as Hc.
  destruct (colon_from s (zdrop s buf)) as [colon|]; [|exact Hfill].
  destruct (Z.ltb_spec last_pos colon); [exact Hfill|].
  rewrite zlen_zdrop in Hc by lia; destruct Hc as [Hk Hc].
  destruct (IH (colon + 1)) as [Hlen Hcol]; [lia|unfold last_pos in *; lia|]; split; [auto|].
  assert (ztake (colon + 1) buf = ztake s buf ++ ztake (colon - s + 1) (zdrop s buf)) as E.
  { rewrite <- (ztake_zdrop s buf) at 1; unfold ztake at 1.
    assert (zlen (ztake s buf) = s) as Hz by (apply zlen_ztake; lia).
    rewrite take_app_ge by (unfold zlen in Hz; lia); f_equal; unfold ztake at 2; f_equal; unfold zlen in Hz; lia. }
  rewrite E, colons_app in Hcol; lia.
Qed.

(** The text of an error always has the five colon-separated fields
    that readers of error logs rely on, and never leaves its buffer: in any
    buffer of more than four characters [ERR_error_string_n] writes at least
    four colons, whatever the names of library and reason and wherever the text
    is cut. *)
Theorem error_string_fields (packed_error len : Z) :
  4 < len ->
  exists text, ERR_error_string_n packed_error len = Some text /\ zlen text < len /\ 4 <= colons text.
Proof.
  intros Hlen; unfold ERR_error_string_n; rewrite (proj2 (Z.eqb_neq len 0)) by lia.
  set (t := error_text packed_error).
  destruct (Z.leb_spec len (zlen t)) as [Htr|Hfit].
  - rewrite (proj2 (Z.leb_gt len num_colons)) by (unfold num_colons; lia).
    assert (zlen (ztake (len - 1) t) = len - 1) as Hz by (apply zlen_ztake; lia).
    destruct (fix_colons_spec 4 0 (ztake (len - 1) t)) as [Hl Hc]; [lia|lia|].
    rewrite ztake_0 in Hc; change (colons []) with 0 in Hc.
    eexists; split; [reflexivity|]; rewrite Hl; split; lia.
  - eexists; split; [reflexivity|]; rewrite ztake_all by lia; split; [lia|].
    unfold t, error_text; cbv zeta; rewrite !colons_app.
    change (colons (str "error:")) with 1; change (colons (str ":")) with 1.
    change (colons (str ":OPENSSL_internal:")) with 2.
    repeat match goal with |- context [colons ?l] => lazymatch goal with
      | _ : 0 <= colons l |- _ => fail | _ => pose proof (colons_nonneg l) end end; lia.
Qed.

(** [ERR_print_errors_cb] reports every error of the queue once, oldest
    first, and leaves the queue empty, when the callback keeps accepting. *)
Theorem print_errors_drains {C} (thread_hash : Z) (log : list Z -> C -> C) (ctx : C) (s : ERR_STATE) :
  err_state_ok s -> Forall (fun e => packed e <> 0) (err_queue s) ->
  exists s', ERR_print_errors_cb thread_hash (fun m c => (1, log m c)) ctx (Some s) =
    (fold_left (fun c e => log (error_message thread_hash (values_of true true e)) c) (err_queue s) ctx, Some s') /\
    err_state_ok s' /\ err_queue s' = [].
Proof.
  intros Hok Hp; unfold ERR_print_errors_cb; pose proof (queue_len_bound s Hok) as [Hb _].
  assert (Datatypes.length (err_queue s) < Z.to_nat ERR_NUM_ERRORS)%nat as Hf by (rewrite length_err_queue; lia).
  revert Hf Hp; generalize (Z.to_nat ERR_NUM_ERRORS); clear Hb; intros fuel.
  revert s Hok ctx; induction fuel as [|fuel IH]; intros s Hok ctx Hf Hp; [lia|]; cbn [print_errors_loop].
  destruct (get_values_spec true true s Hok) as (s1 & E & Hok1 & Hq).
  unfold ERR_get_error_line_data; rewrite E; destruct (err_queue s) as [|e q]; cbn [first_values tail] in *.
  - exists s1; auto.
  - inversion_clear Hp as [|? ? He Hp']; cbn [v_packed values_of]; rewrite (proj2 (Z.eqb_neq _ 0)) by auto.
    cbn [Z.leb Z.compare fold_left]; change (1 <=? 0) with false; cbn iota.
    destruct (IH s1 Hok1 (log (error_message thread_hash (values_of true true e)) ctx)) as (s2 & E2 & Hok2 & Hq2);
      [rewrite Hq; cbn in Hf; lia|now rewrite Hq|].
    exists s2; rewrite Hq in E2; auto.
Qed.
End Strings.

Lemma error_string_fields_witness :
  exists text, ERR_error_string_n (fun _ => []) [] [] 0xff000fff 9 = Some text /\ zlen text < 9 /\ 4 <= colons text.
Proof. apply error_string_fields; lia. Defined.

Lemma print_errors_drains_witness :
  let s := {| errors := <[1%nat := {| file := None; data := None; packed := 9; line := 1; mark := false |}]> (replicate 16 err_zero);
              top := 1; bottom := 0; to_free := None |} in
  exists s', ERR_print_errors_cb (fun _ => []) [] [] 77 (fun m c => (1, m :: c)) [] (Some s) =
    (fold_left (fun c e => error_message (fun _ => []) [] [] 77 (values_of true true e) :: c) (err_queue s) [], Some s') /\
    err_state_ok s' /\ err_queue s' = [].
Proof.
  apply (print_errors_drains (fun _ => []) [] [] 77 (fun m c => m :: c)).
  - repeat split; vm_compute; congruence.
  - vm_compute; repeat constructor; discriminate.
Defined.
