(* ===== verification/BufMem.v ===== *)
(** BUF_MEM: the growable buffer of crypto/buf/buf.c (lines 67-158).

    [data] is a block of [max] bytes, of which [length] are in use. *)

From S2P Require Import Prelude Mem.

Record BUF_MEM : Type := {
  bm_length : Z;
  bm_data : list Z;
  bm_max : Z
}.

Definition BUF_MEM_new : BUF_MEM := {| bm_length := 0; bm_data := []; bm_max := 0 |}.

Section Operations.
  Context `{Allocator}.

Definition BUF_MEM_reserve (buf : BUF_MEM) (cap : Z) : bool * BUF_MEM :=
  if cap <=? bm_max buf then (true, buf)
  else
    let n := u64 (cap + 3) in
    if n <? cap then (false, buf)
    else
      let n := n / 3 in
      let alloc_size := u64 (n * 4) in
      if negb (alloc_size / 4 =? n) then (false, buf)
      else match OPENSSL_realloc (bm_data buf) alloc_size with
           | None => (false, buf)
           | Some new_buf => (true, {| bm_length := bm_length buf; bm_data := new_buf; bm_max := alloc_size |})
           end.

Definition BUF_MEM_grow (buf : BUF_MEM) (len : Z) : Z * BUF_MEM :=
  let '(ok, buf) := BUF_MEM_reserve buf len in
  if negb ok then (0, buf)
  else
    let data := if bm_length buf <? len
                then zsplice (bm_data buf) (bm_length buf) (zrep (len - bm_length buf) 0) else bm_data buf in
    (len, {| bm_length := len; bm_data := data; bm_max := bm_max buf |}).

Definition BUF_MEM_grow_clean (buf : BUF_MEM) (len : Z) : Z * BUF_MEM := BUF_MEM_grow buf len.

Definition BUF_MEM_append (buf : BUF_MEM) (src : list Z) : bool * BUF_MEM :=
  let len := zlen src in
  if len =? 0 then (true, buf)
  else
    let new_len := u64 (bm_length buf + len) in
    if new_len <? len then (false, buf)
    else
      let '(ok, buf) := BUF_MEM_reserve buf new_len in
      if negb ok then (false, buf)
      else (true, {| bm_length := new_len; bm_data := zsplice (bm_data buf) (bm_length buf) src; bm_max := bm_max buf |}).

(** * Invariant and contents *)

Definition bm_ok (b : BUF_MEM) : Prop :=
  0 <= bm_length b <= bm_max b /\ bm_max b < 2 ^ 64 /\ zlen (bm_data b) = bm_max b.

Definition bm_contents (b : BUF_MEM) : list Z := ztake (bm_length b) (bm_data b).

Lemma bm_new_ok : bm_ok BUF_MEM_new.
Proof. repeat split; cbn; lia. Qed.

Lemma zlen_bm_contents b : bm_ok b -> zlen (bm_contents b) = bm_length b.
Proof. intros (? & ? & ?); apply zlen_ztake; lia. Qed.

(** The size of a new allocation: room for [cap] bytes, no wrap-around. *)
Lemma reserve_size cap : 0 <= cap < 2 ^ 64 -> (u64 (cap + 3) <? cap) = false ->
  u64 (u64 (cap + 3) / 3 * 4) / 4 = u64 (cap + 3) / 3 ->
  u64 (u64 (cap + 3) / 3 * 4) = (cap + 3) / 3 * 4 /\ cap <= (cap + 3) / 3 * 4 < 2 ^ 64.
Proof.
  intros Hc E1 E2; bool_facts.
  assert (u64 (cap + 3) = cap + 3) as E.
  { destruct (Z.lt_ge_cases (cap + 3) (2 ^ 64)); [apply uw_small; lia|].
    unfold uw in *; rewrite <- (Z.mod_add (cap + 3) (-1) (2 ^ 64)) in E1 by lia.
    rewrite Z.mod_small in E1 by lia; lia. }
  rewrite E in *; pose proof (uw_bound 64 ((cap + 3) / 3 * 4)) as Hb; unfold uw in *.
  pose proof (Z.div_mod (((cap + 3) / 3 * 4) mod 2 ^ 64) 4); pose proof (Z.mod_pos_bound (((cap + 3) / 3 * 4) mod 2 ^ 64) 4).
  pose proof (Z.div_mod ((cap + 3) / 3 * 4) (2 ^ 64)); pose proof (Z.div_mod (cap + 3) 3); pose proof (Z.mod_pos_bound (cap + 3) 3).
  pow2; lia.
Qed.

Lemma bm_reserve_spec b cap : bm_ok b -> 0 <= cap < 2 ^ 64 ->
  match BUF_MEM_reserve b cap with
  | (true, b') => bm_ok b' /\ cap <= bm_max b' /\ bm_length b' = bm_length b /\ bm_contents b' = bm_contents b
  | (false, b') => b' = b
  end.
Proof.
  intros (Hl & Hm & Hd) Hc; unfold BUF_MEM_reserve; case_if; bool_facts; [repeat split; auto; lia|].
  destruct (u64 (cap + 3) <? cap) eqn:E1; [reflexivity|]; case_if; bool_facts; [reflexivity|].
  destruct (reserve_size cap Hc) as [-> Hs]; [now apply Z.ltb_ge|assumption|].
  destruct (OPENSSL_realloc _ _) as [m|] eqn:E; [|reflexivity].
  pose proof (realloc_wf _ _ _ E ltac:(lia)); unfold bm_ok, bm_contents; cbn; repeat split; try lia.
  rewrite (realloc_eq _ _ _ E) by lia; rewrite (ztake_all ((cap + 3) / 3 * 4)) by lia; unfold ztake.
  rewrite take_app_le; [reflexivity|unfold zlen in *; lia].
Qed.

Lemma reserve_succeeds b cap b' : 0 <= cap < 2 ^ 63 -> AllocUpTo (2 ^ 64) -> BUF_MEM_reserve b cap = (false, b') -> False.
Proof.
  intros Hc Ha; unfold BUF_MEM_reserve; case_if; [discriminate|].
  rewrite (uw_small 64 (cap + 3)) by lia; case_if; bool_facts; [lia|].
  rewrite (uw_small 64 (_ * 4)) by (pose proof (Z.div_mod (cap + 3) 3); pose proof (Z.mod_pos_bound (cap + 3) 3); pow2; lia).
  rewrite Z.div_mul, Z.eqb_refl by lia; cbn [negb].
  destruct (realloc_ok (bm_data b) ((cap + 3) / 3 * 4)) as [m ->]; [|discriminate].
  apply Ha; pose proof (Z.div_mod (cap + 3) 3); pose proof (Z.mod_pos_bound (cap + 3) 3); pow2; lia.
Qed.

Lemma bm_append_spec b src : bm_ok b -> zlen src < 2 ^ 64 ->
  let '(ok, b') := BUF_MEM_append b src in
  bm_ok b' /\ (ok = true -> bm_contents b' = bm_contents b ++ src) /\ (ok = false -> b' = b).
Proof.
  intros Hok Hs; unfold BUF_MEM_append; pose proof (zlen_nonneg src); case_if; bool_facts.
  { rewrite (zlen_0_nil src) by auto; rewrite app_nil_r; split; [auto|split; [auto|discriminate]]. }
  pose proof Hok as (Hl & Hm & Hd).
  case_if; bool_facts.
  { split; [auto|split; [discriminate|auto]]. }
  assert (u64 (bm_length b + zlen src) = bm_length b + zlen src) as E.
  { destruct (Z.lt_ge_cases (bm_length b + zlen src) (2 ^ 64)); [apply uw_small; lia|].
    unfold uw in *; rewrite <- (Z.mod_add _ (-1) (2 ^ 64)), Z.mod_small in * by lia; lia. }
  rewrite E in *; pose proof (bm_reserve_spec b (bm_length b + zlen src) Hok ltac:(pose proof (uw_bound 64 (bm_length b + zlen src)); lia)) as Hr.
  destruct (BUF_MEM_reserve _ _) as [ok b'] eqn:Er; destruct ok; cbn [negb].
  - destruct Hr as ((Hl' & Hm' & Hd') & Hc & El & Ec); unfold bm_ok, bm_contents in *; cbn [bm_length bm_data bm_max].
    rewrite El in *; split; [rewrite zlen_zsplice by lia; lia|].
    split; [|discriminate]; intros _; rewrite ztake_zsplice, Ec by lia; reflexivity.
  - subst b'; split; [auto|split; [discriminate|auto]].
Qed.

(** [BUF_MEM_append]: on success the buffer holds its contents followed
    by the new bytes, within its allocation; on failure (size overflow or no
    memory) it is unchanged; and it succeeds whenever the sizes can be
    represented and the allocation is granted. *)
Theorem BUF_MEM_append_correct b src : bm_ok b -> zlen src < 2 ^ 64 ->
  let '(ok, b') := BUF_MEM_append b src in
  bm_ok b' /\
  (ok = true -> bm_contents b' = bm_contents b ++ src) /\
  (ok = false -> b' = b) /\
  (bm_length b + zlen src < 2 ^ 63 -> AllocUpTo (2 ^ 64) -> ok = true).
Proof.
  intros Hok Hs; pose proof (bm_append_spec b src Hok Hs) as Ha; destruct (BUF_MEM_append b src) as [ok b'] eqn:E.
  destruct Ha as (H1 & H2 & H3); split; [auto|split; [auto|split; [auto|]]]; intros Hb Hall.
  destruct ok; [reflexivity|exfalso]; revert E; unfold BUF_MEM_append.
  pose proof (zlen_nonneg src); destruct Hok as ((? & ?) & ? & ?); case_if; [discriminate|].
  rewrite uw_small by lia; case_if; bool_facts; [lia|].
  destruct (BUF_MEM_reserve _ _) as [[] b''] eqn:Er; [discriminate|].
  intros _; apply reserve_succeeds in Er; auto; lia.
Qed.

Lemma bm_grow_spec b len : bm_ok b -> 0 <= len < 2 ^ 64 ->
  let '(n, b') := BUF_MEM_grow b len in
  (n = len /\ bm_ok b' /\ bm_contents b' = ztake len (bm_contents b ++ zrep (len - bm_length b) 0)) \/
  (n = 0 /\ bm_max b < len /\ b' = b).
Proof.
  intros Hok Hlen; unfold BUF_MEM_grow; pose proof (bm_reserve_spec b len Hok Hlen) as Hr.
  destruct (BUF_MEM_reserve b len) as [ok b'] eqn:E; destruct ok; cbn [negb].
  - left; split; [reflexivity|]; destruct Hr as (Hok' & Hc & El & <-); pose proof Hok' as (Hl & Hm & Hd).
    unfold bm_ok, bm_contents in *; cbn [bm_length bm_data bm_max]; rewrite <- El; case_if; bool_facts.
    + rewrite zlen_zsplice by (rewrite ?zlen_zrep; lia); split; [lia|].
      rewrite (ztake_all len (_ ++ _)) by (rewrite zlen_app, zlen_ztake, zlen_zrep; lia).
      replace len with (bm_length b' + zlen (zrep (len - bm_length b') 0)) at 1 by (rewrite zlen_zrep; lia).
      apply ztake_zsplice; lia.
    + split; [lia|]; unfold ztake, zrep; rewrite (Z2Nat.nonpos (len - _)), app_nil_r, take_take by lia.
      f_equal; lia.
  - right; subst b'; split; [reflexivity|split; [|reflexivity]].
    unfold BUF_MEM_reserve in E; destruct (len <=? bm_max b) eqn:E1; [discriminate|bool_facts; lia].
Qed.

(** [BUF_MEM_grow] to [len] bytes: on success the contents are cut to
    [len] bytes or extended with zeros to it, so no byte of the allocation is
    exposed that was not written; a shrinking or same-size call never fails;
    on failure the buffer is unchanged. *)
Theorem BUF_MEM_grow_correct b len : bm_ok b -> 0 <= len < 2 ^ 64 ->
  let '(n, b') := BUF_MEM_grow b len in
  bm_ok b' /\
  (b' = b /\ n = 0 /\ bm_length b < len \/
   n = len /\ bm_contents b' = ztake len (bm_contents b ++ zrep (len - bm_length b) 0)).
Proof.
  intros Hok Hlen; pose proof (bm_grow_spec b len Hok Hlen) as Hg; destruct (BUF_MEM_grow b len) as [n b'].
  destruct Hg as [(-> & ? & ?)|(-> & ? & ->)]; [auto|].
  split; [assumption|]; left; destruct Hok as (? & _); repeat split; lia.
Qed.
End Operations.

Lemma BUF_MEM_append_correct_witness :
  let b := {| bm_length := 2; bm_data := [1; 2; 9]; bm_max := 3 |} in
  bm_contents (snd (BUF_MEM_append (H := allocator_total) b [5; 6])) = [1; 2] ++ [5; 6].
Proof.
  intros b; refine (proj1 (proj2 (BUF_MEM_append_correct (H := allocator_total) b [5; 6] _ _)) _);
    [repeat split; vm_compute; congruence|vm_compute; congruence|vm_compute; reflexivity].
Defined.

Lemma BUF_MEM_grow_correct_witness :
  let b := {| bm_length := 2; bm_data := [1; 2; 9]; bm_max := 3 |} in
  bm_ok (snd (BUF_MEM_grow (H := allocator_total) b 3)).
Proof.
  intros b; refine (proj1 (BUF_MEM_grow_correct (H := allocator_total) b 3 _ _));
    [repeat split; vm_compute; congruence|lia].
Defined.
