(* ===== verification/Bio.v ===== *)
(** BIO: the stream abstraction of crypto/bio/bio.c (lines 72-330), and what a
    byte stream promises its callers.

    A BIO is a record over the type of its private state [ptr]; a BIO_METHOD is
    the class [BioMethod], in which a NULL function is [None]. The bytes a call
    stores through [buf] are returned as a list. *)

From S2P Require Import Prelude.

Definition BIO_FLAGS_READ : Z := 0x01.
Definition BIO_FLAGS_WRITE : Z := 0x02.
Definition BIO_FLAGS_IO_SPECIAL : Z := 0x04.
Definition BIO_FLAGS_RWS : Z := Z.lor (Z.lor BIO_FLAGS_READ BIO_FLAGS_WRITE) BIO_FLAGS_IO_SPECIAL.
Definition BIO_FLAGS_SHOULD_RETRY : Z := 0x08.
Definition BIO_FLAGS_MEM_RDONLY : Z := 0x200.
Definition kRetryFlags : Z := Z.lor BIO_FLAGS_RWS BIO_FLAGS_SHOULD_RETRY.

Definition BIO_CTRL_RESET : Z := 1.
Definition BIO_CTRL_EOF : Z := 2.
Definition BIO_CTRL_INFO : Z := 3.
Definition BIO_CTRL_GET_CLOSE : Z := 8.
Definition BIO_CTRL_SET_CLOSE : Z := 9.
Definition BIO_CTRL_PENDING : Z := 10.
Definition BIO_CTRL_FLUSH : Z := 11.
Definition BIO_CTRL_WPENDING : Z := 13.

Record BIO (S : Type) : Type := {
  init : bool;
  shutdown : Z;
  flags : Z;
  retry_reason : Z;
  num : Z;
  num_read : Z;
  num_write : Z;
  ptr : S
}.
Arguments init {S}. Arguments shutdown {S}. Arguments flags {S}. Arguments retry_reason {S}.
Arguments num {S}. Arguments num_read {S}. Arguments num_write {S}. Arguments ptr {S}.

(** The same BIO with another private state. *)
Definition with_ptr {S T} (b : BIO S) (p : T) : BIO T :=
  {| init := init b; shutdown := shutdown b; flags := flags b; retry_reason := retry_reason b; num := num b;
     num_read := num_read b; num_write := num_write b; ptr := p |}.

(** The sizes of the structs that are allocated, which the compiler decides. *)
Class Layout : Type := {
  sizeof_BIO : Z;
  sizeof_BUF_MEM : Z;
  sizeof_bio_bio_st : Z
}.

(** A new BIO: all fields zero but [shutdown], then the method's [create];
    [null] is the private state before that. *)
Definition BIO_new `{Allocator, Layout} {S} (null : S) (create : BIO S -> bool * BIO S) : option (BIO S) :=
  if malloc_ok sizeof_BIO then
    let ret := {| init := false; shutdown := 1; flags := 0; retry_reason := 0; num := 0;
                  num_read := 0; num_write := 0; ptr := null |} in
    let '(ok, ret) := create ret in
    if negb ok then None else Some ret
  else None.

Section Fields.
  Context {S : Type}.

Definition set_init (b : BIO S) (i : bool) : BIO S :=
  {| init := i; shutdown := shutdown b; flags := flags b; retry_reason := retry_reason b; num := num b;
     num_read := num_read b; num_write := num_write b; ptr := ptr b |}.
Definition set_shutdown (b : BIO S) (x : Z) : BIO S :=
  {| init := init b; shutdown := x; flags := flags b; retry_reason := retry_reason b; num := num b;
     num_read := num_read b; num_write := num_write b; ptr := ptr b |}.
Definition set_flags (b : BIO S) (f r : Z) : BIO S :=
  {| init := init b; shutdown := shutdown b; flags := f; retry_reason := r; num := num b;
     num_read := num_read b; num_write := num_write b; ptr := ptr b |}.
Definition set_num (b : BIO S) (n : Z) : BIO S :=
  {| init := init b; shutdown := shutdown b; flags := flags b; retry_reason := retry_reason b; num := n;
     num_read := num_read b; num_write := num_write b; ptr := ptr b |}.
Definition set_counts (b : BIO S) (r w : Z) : BIO S :=
  {| init := init b; shutdown := shutdown b; flags := flags b; retry_reason := retry_reason b; num := num b;
     num_read := r; num_write := w; ptr := ptr b |}.
Definition set_ptr (b : BIO S) (p : S) : BIO S :=
  {| init := init b; shutdown := shutdown b; flags := flags b; retry_reason := retry_reason b; num := num b;
     num_read := num_read b; num_write := num_write b; ptr := p |}.

(** ** Flags *)

Definition BIO_set_flags (b : BIO S) (f : Z) : BIO S := set_flags b (Z.lor (flags b) f) (retry_reason b).
Definition BIO_test_flags (b : BIO S) (f : Z) : Z := Z.land (flags b) f.
Definition BIO_should_read (b : BIO S) : Z := BIO_test_flags b BIO_FLAGS_READ.
Definition BIO_should_write (b : BIO S) : Z := BIO_test_flags b BIO_FLAGS_WRITE.
Definition BIO_should_retry (b : BIO S) : Z := BIO_test_flags b BIO_FLAGS_SHOULD_RETRY.
Definition BIO_should_io_special (b : BIO S) : Z := BIO_test_flags b BIO_FLAGS_IO_SPECIAL.
Definition BIO_get_retry_reason (b : BIO S) : Z := retry_reason b.
Definition BIO_set_retry_reason (b : BIO S) (r : Z) : BIO S := set_flags b (flags b) r.
Definition BIO_clear_flags (b : BIO S) (f : Z) : BIO S := set_flags b (Z.land (flags b) (Z.lnot f)) (retry_reason b).
Definition BIO_set_retry_read (b : BIO S) : BIO S :=
  set_flags b (Z.lor (flags b) (Z.lor BIO_FLAGS_READ BIO_FLAGS_SHOULD_RETRY)) (retry_reason b).
Definition BIO_set_retry_write (b : BIO S) : BIO S :=
  set_flags b (Z.lor (flags b) (Z.lor BIO_FLAGS_WRITE BIO_FLAGS_SHOULD_RETRY)) (retry_reason b).
Definition BIO_get_retry_flags (b : BIO S) : Z := Z.land (flags b) kRetryFlags.
Definition BIO_clear_retry_flags (b : BIO S) : BIO S := set_flags b (Z.land (flags b) (Z.lnot kRetryFlags)) 0.
End Fields.

(** The functions of a method that the generic calls use. *)
Class BioMethod (S : Type) : Type := {
  bread : option (BIO S -> Z -> Z * list Z * BIO S);
  bwrite : option (BIO S -> list Z -> Z * BIO S);
  bgets : option (BIO S -> Z -> Z * list Z * BIO S)
}.

Section Calls.
  Context {S : Type} `{BioMethod S}.

Definition BIO_read (b : BIO S) (len : Z) : Z * list Z * BIO S :=
  match bread with
  | None => (-2, [], b)
  | Some f =>
      if negb (init b) then (-2, [], b)
      else if len <=? 0 then (0, [], b)
      else
        let '(ret, out, b) := f b len in
        (ret, out, if 0 <? ret then set_counts b (u64 (num_read b + ret)) (num_write b) else b)
  end.

Definition BIO_gets (b : BIO S) (len : Z) : Z * list Z * BIO S :=
  match bgets with
  | None => (-2, [], b)
  | Some f =>
      if negb (init b) then (-2, [], b)
      else if len <=? 0 then (0, [], b)
      else
        let '(ret, out, b) := f b len in
        (ret, out, if 0 <? ret then set_counts b (u64 (num_read b + ret)) (num_write b) else b)
  end.

Definition BIO_write (b : BIO S) (data : list Z) : Z * BIO S :=
  match bwrite with
  | None => (-2, b)
  | Some f =>
      if negb (init b) then (-2, b)
      else if zlen data <=? 0 then (0, b)
      else
        let '(ret, b) := f b data in
        (ret, if 0 <? ret then set_counts b (num_read b) (u64 (num_write b + ret)) else b)
  end.

(** The loop of [BIO_write_all]; every successful call takes a byte or more. *)
Fixpoint write_all_loop (fuel : nat) (b : BIO S) (data : list Z) : Z * BIO S :=
  match fuel with
  | O => (1, b)
  | Datatypes.S fuel =>
      if 0 <? zlen data then
        let '(ret, b) := BIO_write b (if INT_MAX <? zlen data then ztake INT_MAX data else data) in
        if ret <=? 0 then (0, b) else write_all_loop fuel b (zdrop ret data)
      else (1, b)
  end.

Definition BIO_write_all (b : BIO S) (data : list Z) : Z * BIO S := write_all_loop (length data) b data.

Definition BIO_puts (b : BIO S) (str : list Z) : Z * BIO S :=
  if INT_MAX <? zlen str then (-1, b) else BIO_write b str.
End Calls.

(** * Byte streams *)

(** What a byte stream promises: a channel [C] holds bytes that were written
    and not yet read; a write that succeeds adds a prefix of its data, a read
    takes bytes from the front, a call that fails changes nothing. *)
Class ByteStream (C : Type) : Type := {
  stream_ok : C -> Prop;
  contents : C -> list Z;
  stream_write : C -> list Z -> Z * C;
  stream_read : C -> Z -> Z * list Z * C;
  stream_write_spec : forall c data, stream_ok c -> 0 < zlen data <= INT_MAX ->
    let '(n, c') := stream_write c data in
    stream_ok c' /\ n <= zlen data /\ contents c' = contents c ++ ztake n data;
  stream_read_spec : forall c len, stream_ok c -> 0 < len <= INT_MAX ->
    let '(n, out, c') := stream_read c len in
    stream_ok c' /\ n <= len /\ (0 < n -> zlen out = n) /\ (n <= 0 -> out = []) /\ contents c = out ++ contents c'
}.

Lemma not_empty_eqb (l : list Z) : l <> [] -> (zlen l =? 0) = false.
Proof. intros H; apply Z.eqb_neq; intros E; now apply H, zlen_0_nil. Qed.

Lemma ztake_pos n (l : list Z) : 0 < n -> l <> [] -> 0 < zlen (ztake n l).
Proof. intros Hn Hl; destruct l as [|x l]; [easy|]; unfold ztake, zlen; rewrite length_take; cbn [length]; lia. Qed.

(** A stream in which a read finds the bytes that are there. *)
Class PromptStream (C : Type) {CS : ByteStream C} : Prop :=
  read_prompt : forall c len, stream_ok c -> 0 < len <= INT_MAX -> contents c <> [] -> 0 < fst (fst (stream_read c len)).

Section Streams.
  Context {C : Type} `{ByteStream C}.

Inductive stream_op : Type :=
  | SWrite (data : list Z)
  | SRead (len : Z).

Definition stream_op_ok (op : stream_op) : Prop :=
  match op with SWrite d => 0 < zlen d <= INT_MAX | SRead n => 0 < n <= INT_MAX end.

(** Runs the operations: the bytes taken by the writes, the bytes given by the
    reads, and the channel. *)
Fixpoint run_stream (ops : list stream_op) (c : C) : list Z * list Z * C :=
  match ops with
  | [] => ([], [], c)
  | SWrite d :: ops =>
      let '(n, c) := stream_write c d in
      let '(w, r, c) := run_stream ops c in (ztake n d ++ w, r, c)
  | SRead len :: ops =>
      let '(_, out, c) := stream_read c len in
      let '(w, r, c) := run_stream ops c in (w, out ++ r, c)
  end.

(** What is read is what was written, in order: nothing is lost, repeated or
    reordered, whatever the sequence of reads and writes. *)
Lemma run_stream_spec ops c : stream_ok c -> Forall stream_op_ok ops ->
  let '(written, got, c') := run_stream ops c in
  stream_ok c' /\ contents c ++ written = got ++ contents c'.
Proof.
  intros Hok Hops; revert c Hok; induction Hops as [|op ops Hop _ IH]; intros c Hok; cbn [run_stream].
  { now rewrite app_nil_r. }
  destruct op as [d|len]; cbn [stream_op_ok] in Hop.
  - pose proof (stream_write_spec c d Hok Hop) as Hw; destruct (stream_write c d) as [n c1].
    destruct Hw as (Hok1 & _ & Hc); specialize (IH c1 Hok1); destruct (run_stream ops c1) as [[w r] c2].
    destruct IH as [? IH]; split; [auto|]; now rewrite <- IH, Hc, <- app_assoc.
  - pose proof (stream_read_spec c len Hok Hop) as Hr; destruct (stream_read c len) as [[n out] c1].
    destruct Hr as (Hok1 & _ & _ & _ & Hc); specialize (IH c1 Hok1); destruct (run_stream ops c1) as [[w r] c2].
    destruct IH as [? IH]; split; [auto|]; now rewrite Hc, <- !app_assoc, <- IH.
Qed.
End Streams.

Lemma retry_flag_facts {S} (b : BIO S) :
  BIO_get_retry_flags (BIO_clear_retry_flags b) = 0 /\
  BIO_get_retry_flags (BIO_set_retry_read (BIO_clear_retry_flags b)) = Z.lor BIO_FLAGS_READ BIO_FLAGS_SHOULD_RETRY /\
  BIO_get_retry_flags (BIO_set_retry_write (BIO_clear_retry_flags b)) = Z.lor BIO_FLAGS_WRITE BIO_FLAGS_SHOULD_RETRY.
Proof.
  unfold BIO_get_retry_flags, BIO_clear_retry_flags, BIO_set_retry_read, BIO_set_retry_write; cbn [flags set_flags].
  rewrite !Z.land_lor_distr_l, <- !Z.land_assoc; change (Z.land (Z.lnot kRetryFlags) kRetryFlags) with 0.
  now rewrite !Z.land_0_r.
Qed.
