(* ===== verification/BioMem.v ===== *)
(** Memory BIOs: crypto/bio/bio_mem.c (lines 69-309).

    [ptr] is the BUF_MEM of the BIO, or [None] for NULL. A read-only BIO points
    into the caller's buffer and advances [data] as it is read, so the model
    keeps the bytes that lie before [data] as well. *)

From S2P Require Import Prelude Mem BufMem Bio.

Record mem_ptr : Type := {
  mem : BUF_MEM;
  behind : list Z
}.

Abbreviation MemBIO := (BIO (option mem_ptr)).

Definition BIO_C_SET_BUF_MEM : Z := 114.
Definition BIO_C_GET_BUF_MEM_PTR : Z := 115.
Definition BIO_C_SET_BUF_MEM_EOF_RETURN : Z := 130.

Definition read_only (bio : MemBIO) : bool := negb (BIO_test_flags bio BIO_FLAGS_MEM_RDONLY =? 0).

Section Method.
  Context `{Allocator} `{Layout}.

Definition mem_new (bio : MemBIO) : bool * MemBIO :=
  if malloc_ok sizeof_BUF_MEM
  then (true, set_ptr (set_num (set_init (set_shutdown bio 1) true) (-1)) (Some {| mem := BUF_MEM_new; behind := [] |}))
  else (false, bio).

(** [buf] is the caller's memory from its pointer on, [None] for NULL. The
    outer [None] of the result is the undefined behaviour of [strlen(NULL)],
    which is evaluated before [buf] is tested. *)
Definition BIO_new_mem_buf (buf : option (list Z)) (len : Z) : option (option MemBIO) :=
  match (if len <? 0 then match buf with Some s => Some (OPENSSL_strnlen s (zlen s)) | None => None end else Some len) with
  | None => None
  | Some size =>
      if bool_decide (buf = None) && negb (len =? 0) then Some None
      else match BIO_new None mem_new with
           | None => Some None
           | Some ret =>
               let b := {| bm_length := size; bm_data := ztake size (default [] buf); bm_max := size |} in
               let ret := set_ptr ret (Some {| mem := b; behind := [] |}) in
               Some (Some (set_num (BIO_set_flags ret BIO_FLAGS_MEM_RDONLY) 0))
           end
  end.

(** Frees the BUF_MEM when the BIO owns it. *)
Definition mem_free (bio : MemBIO) : MemBIO :=
  if (shutdown bio =? 0) || negb (init bio) || bool_decide (ptr bio = None) then bio else set_ptr bio None.

(** A call on a BIO without a BUF_MEM would dereference NULL; [mem_read] and
    the others are only defined when there is one. *)
Definition mem_read (bio : MemBIO) (outl : Z) : Z * list Z * MemBIO :=
  let bio := BIO_clear_retry_flags bio in
  if outl <=? 0 then (0, [], bio)
  else match ptr bio with
  | None => (0, [], bio)
  | Some p =>
      let b := mem p in
      let ret := if bm_length b <? outl then bm_length b else outl in
      if 0 <? ret then
        let out := ztake ret (bm_data b) in
        let length := bm_length b - ret in
        let p :=
          if read_only bio then
            {| mem := {| bm_length := length; bm_data := zdrop ret (bm_data b); bm_max := bm_max b |};
               behind := behind p ++ out |}
          else
            {| mem := {| bm_length := length;
                         bm_data := zsplice (bm_data b) 0 (ztake length (zdrop ret (bm_data b)));
                         bm_max := bm_max b |};
               behind := behind p |} in
        (ret, out, set_ptr bio (Some p))
      else if bm_length b =? 0 then
        let ret := num bio in
        (ret, [], if negb (ret =? 0) then BIO_set_retry_read bio else bio)
      else (ret, [], bio)
  end.

Definition mem_write (bio : MemBIO) (data : list Z) : Z * MemBIO :=
  let bio := BIO_clear_retry_flags bio in
  if zlen data <=? 0 then (0, bio)
  else if read_only bio then (-1, bio)
  else match ptr bio with
  | None => (-1, bio)
  | Some p =>
      let '(ok, b) := BUF_MEM_append (mem p) data in
      let bio := set_ptr bio (Some {| mem := b; behind := behind p |}) in
      (if negb ok then -1 else zlen data, bio)
  end.

Definition mem_gets (bio : MemBIO) (size : Z) : Z * list Z * MemBIO :=
  let bio := BIO_clear_retry_flags bio in
  if size <=? 0 then (0, [], bio)
  else match ptr bio with
  | None => (0, [], bio)
  | Some p =>
      let b := mem p in
      let ret := size - 1 in
      let ret := if bm_length b <? ret then bm_length b else ret in
      let ret := match OPENSSL_memchr (ztake ret (bm_data b)) 10 with Some newline => newline + 1 | None => ret end in
      let '(ret, out, bio) := mem_read bio ret in
      (ret, if 0 <=? ret then out ++ [0] else out, bio)
  end.

(** The result of a control call: the value returned and what is stored
    through its pointer argument. *)
Inductive mem_out : Type :=
  | NoOut
  | OutData (data : list Z)
  | OutBuf (b : BUF_MEM).

(** [BIO_CTRL_RESET] on a BIO whose [data] is NULL changes nothing; such a
    buffer has [max] and [length] 0, so the general case gives the same. *)
Definition mem_reset (bio : MemBIO) (p : mem_ptr) : mem_ptr :=
  let b := mem p in
  if read_only bio then
    let back := bm_max b - bm_length b in
    {| mem := {| bm_length := bm_max b; bm_data := zdrop (zlen (behind p) - back) (behind p) ++ bm_data b; bm_max := bm_max b |};
       behind := ztake (zlen (behind p) - back) (behind p) |}
  else {| mem := {| bm_length := 0; bm_data := zsplice (bm_data b) 0 (zrep (bm_max b) 0); bm_max := bm_max b |};
          behind := behind p |}.

Definition mem_ctrl (bio : MemBIO) (cmd larg : Z) (parg : option BUF_MEM) : Z * mem_out * MemBIO :=
  match ptr bio with
  | None => (0, NoOut, bio)
  | Some p =>
      let b := mem p in
      if cmd =? BIO_CTRL_RESET then (1, NoOut, set_ptr bio (Some (mem_reset bio p)))
      else if cmd =? BIO_CTRL_EOF then (Z.b2z (bm_length b =? 0), NoOut, bio)
      else if cmd =? BIO_C_SET_BUF_MEM_EOF_RETURN then (1, NoOut, set_num bio larg)
      else if cmd =? BIO_CTRL_INFO then (bm_length b, OutData (bm_data b), bio)
      else if cmd =? BIO_C_SET_BUF_MEM then
        let bio := set_shutdown (mem_free bio) larg in
        (1, NoOut, set_ptr bio (match parg with Some b => Some {| mem := b; behind := [] |} | None => None end))
      else if cmd =? BIO_C_GET_BUF_MEM_PTR then (1, OutBuf b, bio)
      else if cmd =? BIO_CTRL_GET_CLOSE then (shutdown bio, NoOut, bio)
      else if cmd =? BIO_CTRL_SET_CLOSE then (1, NoOut, set_shutdown bio larg)
      else if cmd =? BIO_CTRL_WPENDING then (0, NoOut, bio)
      else if cmd =? BIO_CTRL_PENDING then (bm_length b, NoOut, bio)
      else if cmd =? BIO_CTRL_FLUSH then (1, NoOut, bio)
      else (0, NoOut, bio)
  end.

#[global] Instance mem_method : BioMethod (option mem_ptr) :=
  {| bread := Some mem_read; bwrite := Some mem_write; bgets := Some mem_gets |}.

Definition BIO_mem_contents (bio : MemBIO) : option (list Z) :=
  match ptr bio with Some p => Some (ztake (bm_length (mem p)) (bm_data (mem p))) | None => None end.

Definition BIO_get_mem_data (bio : MemBIO) : Z * mem_out * MemBIO := mem_ctrl bio BIO_CTRL_INFO 0 None.
Definition BIO_get_mem_ptr (bio : MemBIO) : Z * mem_out * MemBIO := mem_ctrl bio BIO_C_GET_BUF_MEM_PTR 0 None.
Definition BIO_set_mem_buf (bio : MemBIO) (b : BUF_MEM) (take_ownership : Z) : Z * mem_out * MemBIO :=
  mem_ctrl bio BIO_C_SET_BUF_MEM take_ownership (Some b).
Definition BIO_set_mem_eof_return (bio : MemBIO) (eof_value : Z) : Z * mem_out * MemBIO :=
  mem_ctrl bio BIO_C_SET_BUF_MEM_EOF_RETURN eof_value None.
End Method.

(** * The byte stream of a memory BIO *)

Section Stream.
  Context `{Allocator}.

(** A BIO with a well-formed buffer; one that is read-only has its data behind
    the pointer. *)
Definition mem_ok (bio : MemBIO) : Prop :=
  init bio = true /\ num bio <= 0 /\
  exists p, ptr bio = Some p /\
    (if read_only bio
     then 0 <= bm_length (mem p) /\ zlen (bm_data (mem p)) = bm_length (mem p) /\
          zlen (behind p) = bm_max (mem p) - bm_length (mem p)
     else bm_ok (mem p)).

Definition mem_contents (bio : MemBIO) : list Z := default [] (BIO_mem_contents bio).

(** Whether the BIO is read-only is not changed by the calls. *)
Lemma read_only_clear (bio : MemBIO) : read_only (BIO_clear_retry_flags bio) = read_only bio.
Proof.
  unfold read_only, BIO_test_flags, BIO_clear_retry_flags; cbn [flags set_flags].
  rewrite <- Z.land_assoc; now change (Z.land (Z.lnot kRetryFlags) BIO_FLAGS_MEM_RDONLY) with BIO_FLAGS_MEM_RDONLY.
Qed.

Lemma read_only_retry (bio : MemBIO) : read_only (BIO_set_retry_read bio) = read_only bio.
Proof.
  unfold read_only, BIO_test_flags, BIO_set_retry_read; cbn [flags set_flags].
  rewrite Z.land_lor_distr_l; change (Z.land (Z.lor BIO_FLAGS_READ BIO_FLAGS_SHOULD_RETRY) BIO_FLAGS_MEM_RDONLY) with 0.
  now rewrite Z.lor_0_r.
Qed.

Lemma mem_ok_counts bio r w : mem_ok bio -> mem_ok (set_counts bio r w).
Proof. intros (? & ? & p & ? & ?); repeat split; auto; exists p; auto. Qed.

(** The caller's whole buffer, behind and ahead of the pointer. *)
Definition mem_whole (bio : MemBIO) : list Z :=
  match ptr bio with Some p => behind p ++ bm_data (mem p) | None => [] end.

(** What a read leaves behind the pointer of a read-only BIO and moves down in
    a writable one. *)
Lemma take_bytes_spec bio p n : mem_ok bio -> ptr bio = Some p -> 0 < n <= bm_length (mem p) ->
  let bio' := set_ptr bio (Some (if read_only bio then
      {| mem := {| bm_length := bm_length (mem p) - n; bm_data := zdrop n (bm_data (mem p)); bm_max := bm_max (mem p) |};
         behind := behind p ++ ztake n (bm_data (mem p)) |}
    else
      {| mem := {| bm_length := bm_length (mem p) - n;
                   bm_data := zsplice (bm_data (mem p)) 0 (ztake (bm_length (mem p) - n) (zdrop n (bm_data (mem p))));
                   bm_max := bm_max (mem p) |};
         behind := behind p |})) in
  mem_ok bio' /\ mem_contents bio' = zdrop n (mem_contents bio) /\ ztake n (bm_data (mem p)) = ztake n (mem_contents bio) /\
  (read_only bio = true -> mem_whole bio' = mem_whole bio).
Proof.
  intros (Hi & Hnum & p' & Ep & Hp) Ep' Hn bio'; rewrite Ep in Ep'; injection Ep' as ->.
  unfold mem_ok; change (read_only bio') with (read_only bio).
  unfold bio', mem_contents, BIO_mem_contents, mem_whole; rewrite Ep.
  cbn [ptr set_ptr init num default]; set (b := mem p) in *.
  assert (ztake n (bm_data b) = ztake n (ztake (bm_length b) (bm_data b))) as Et
    by (unfold ztake; rewrite take_take; f_equal; lia).
  assert (ztake (bm_length b - n) (zdrop n (bm_data b)) = zdrop n (ztake (bm_length b) (bm_data b))) as Ed
    by (unfold ztake, zdrop; rewrite skipn_firstn_comm; f_equal; lia).
  destruct (read_only bio); cbn [mem behind bm_length bm_data bm_max].
  - destruct Hp as (Hl & Hd & Hb); repeat split; auto.
    + eexists; split; [reflexivity|]; cbn; rewrite zlen_app, zlen_zdrop, zlen_ztake by lia; lia.
    + intros _; now rewrite <- app_assoc, ztake_zdrop.
  - destruct Hp as (Hl & Hm & Hd); repeat split; auto; [| |discriminate].
    + eexists; split; [reflexivity|]; unfold bm_ok; cbn.
      rewrite zlen_zsplice by (rewrite ?zlen_ztake; rewrite ?zlen_zdrop; lia); lia.
    + rewrite zsplice_0, ztake_app_eq; [assumption|]; rewrite zlen_ztake; rewrite ?zlen_zdrop; lia.
Qed.

Lemma mem_ok_clear bio : mem_ok bio -> mem_ok (BIO_clear_retry_flags bio).
Proof. intros (? & ? & p & ? & ?); repeat split; auto; exists p; now rewrite read_only_clear. Qed.

Lemma mem_ok_retry bio : mem_ok bio -> mem_ok (BIO_set_retry_read bio).
Proof. intros (? & ? & p & ? & ?); repeat split; auto; exists p; now rewrite read_only_retry. Qed.

Lemma mem_length bio p : mem_ok bio -> ptr bio = Some p -> zlen (mem_contents bio) = bm_length (mem p) /\ 0 <= bm_length (mem p).
Proof.
  intros (_ & _ & p' & Ep & Hp) Ep'; rewrite Ep in Ep'; injection Ep' as ->.
  unfold mem_contents, BIO_mem_contents; rewrite Ep; cbn; destruct (read_only bio).
  - destruct Hp as (? & ? & ?); rewrite zlen_ztake; lia.
  - destruct Hp as (? & ? & ?); rewrite zlen_ztake; lia.
Qed.

(** Reads take from the front; at the end they return [num], with the retry
    flags unless it is zero. *)
Lemma mem_read_spec bio outl : mem_ok bio -> 0 < outl ->
  let '(n, out, bio') := mem_read bio outl in
  mem_ok bio' /\ read_only bio' = read_only bio /\
  out = ztake outl (mem_contents bio) /\ mem_contents bio' = zdrop outl (mem_contents bio) /\
  n = (if zlen (mem_contents bio) =? 0 then num bio else zlen out) /\
  BIO_get_retry_flags bio' = (if (zlen (mem_contents bio) =? 0) && negb (num bio =? 0)
                              then Z.lor BIO_FLAGS_READ BIO_FLAGS_SHOULD_RETRY else 0) /\
  (read_only bio = true -> mem_whole bio' = mem_whole bio).
Proof.
  intros Hok Ho; pose proof Hok as (Hi & Hnum & p & Ep & Hp); destruct (mem_length bio p Hok Ep) as [El Hl].
  unfold mem_read; rewrite (proj2 (Z.leb_gt _ _)) by lia; cbn [ptr BIO_clear_retry_flags set_flags].
  rewrite Ep, El; destruct (Z.eq_dec (bm_length (mem p)) 0) as [E0|E0].
  - rewrite E0, (proj2 (Z.ltb_lt 0 outl)) by lia; cbn [Z.ltb Z.compare Z.eqb negb].
    assert (mem_contents bio = []) as Ec by (apply zlen_0_nil; lia); rewrite Ec.
    rewrite (ztake_all outl), (zdrop_all outl) by (change (zlen []) with 0; lia).
    change (num (BIO_clear_retry_flags bio)) with (num bio); destruct (negb (num bio =? 0)) eqn:En; cbn [andb].
    + split; [now apply mem_ok_retry, mem_ok_clear|]; split; [now rewrite read_only_retry, read_only_clear|].
      repeat split; auto; apply retry_flag_facts.
    + split; [now apply mem_ok_clear|]; split; [apply read_only_clear|]; repeat split; auto; apply retry_flag_facts.
  - rewrite (proj2 (Z.eqb_neq (bm_length (mem p)) 0)) by lia; cbn [andb].
    set (n := if bm_length (mem p) <? outl then bm_length (mem p) else outl).
    assert (0 < n <= bm_length (mem p)) as Hn by (unfold n; case_if; bool_facts; lia).
    rewrite (proj2 (Z.ltb_lt 0 n)) by lia.
    pose proof (take_bytes_spec (BIO_clear_retry_flags bio) p n (mem_ok_clear bio Hok) Ep Hn) as (H1 & H2 & H3 & H4).
    assert (ztake n (mem_contents bio) = ztake outl (mem_contents bio) /\ zdrop n (mem_contents bio) = zdrop outl (mem_contents bio)) as [Et Ed].
    { unfold n; case_if; bool_facts; [|auto]; rewrite !ztake_all, !zdrop_all by lia; auto. }
    change (mem_contents (BIO_clear_retry_flags bio)) with (mem_contents bio) in *.
    split; [exact H1|split; [apply read_only_clear|]]; split; [congruence|]; split; [exact (eq_trans H2 Ed)|].
    split; [|split; [apply retry_flag_facts|]].
    + rewrite H3, zlen_ztake; lia.
    + intros Hr; rewrite H4; [reflexivity|now rewrite read_only_clear].
Qed.

Lemma mem_write_spec bio data : mem_ok bio -> 0 < zlen data <= INT_MAX ->
  let '(n, bio') := mem_write bio data in
  mem_ok bio' /\ (n = -1 \/ n = zlen data) /\ mem_contents bio' = mem_contents bio ++ ztake n data /\
  (read_only bio = true -> n = -1).
Proof.
  intros Hok Hd; pose proof Hok as (Hi & Hnum & p & Ep & Hp).
  unfold mem_write; rewrite (proj2 (Z.leb_gt _ _)), read_only_clear by lia.
  destruct (read_only bio) eqn:Er.
  { split; [now apply mem_ok_clear|]; split; [auto|]; split; [now rewrite app_nil_r|auto]. }
  cbn [ptr BIO_clear_retry_flags set_flags]; rewrite Ep.
  pose proof (bm_append_spec (mem p) data Hp ltac:(unfold INT_MAX in *; lia)) as Ha.
  destruct (BUF_MEM_append (mem p) data) as [ok b'].
  assert (mem_ok (set_ptr (BIO_clear_retry_flags bio) (Some {| mem := b'; behind := behind p |}))) as Hok'.
  { repeat split; auto; eexists; split; [reflexivity|].
    change (read_only _) with (read_only (BIO_clear_retry_flags bio)); rewrite read_only_clear, Er; apply Ha. }
  split; [exact Hok'|]; unfold mem_contents, BIO_mem_contents; cbn [ptr set_ptr]; rewrite Ep; cbn [default mem].
  destruct Ha as (_ & Ht & Hf); destruct ok; cbn [negb].
  - split; [auto|split; [rewrite (ztake_all (zlen data)) by lia; now apply Ht|discriminate]].
  - split; [auto|]; rewrite Hf by auto; split; [now rewrite app_nil_r|discriminate].
Qed.

(** A memory BIO is a byte stream. *)
#[global] Instance mem_stream : ByteStream MemBIO.
Proof.
  refine {| stream_ok := mem_ok; contents := mem_contents; stream_write := BIO_write; stream_read := BIO_read |}.
  - intros bio data Hok Hd; unfold BIO_write; cbn [bwrite mem_method].
    rewrite (proj1 Hok), (proj2 (Z.leb_gt _ _)) by lia; cbn [negb].
    pose proof (mem_write_spec bio data Hok Hd) as Hw; destruct (mem_write bio data) as [n bio'].
    destruct Hw as (Hok' & Hn & Hc & _); case_if; (split; [auto using mem_ok_counts|split; [zl|exact Hc]]).
  - intros bio n Hok Hn; unfold BIO_read; cbn [bread mem_method].
    rewrite (proj1 Hok), (proj2 (Z.leb_gt _ _)) by lia; cbn [negb].
    pose proof (mem_read_spec bio n Hok ltac:(lia)) as Hr; destruct (mem_read bio n) as [[ret out] bio'].
    destruct Hr as (Hok' & _ & Ho & Hc & Hret & _); split; [case_if; auto using mem_ok_counts|].
    assert (contents_eq : mem_contents (if 0 <? ret then set_counts bio' (u64 (num_read bio' + ret)) (num_write bio') else bio') = mem_contents bio')
      by (case_if; reflexivity); rewrite contents_eq.
    assert (zlen out <= n) by (rewrite Ho; unfold ztake, zlen; rewrite length_take; lia).
    pose proof (proj1 (proj2 Hok)); revert Hret; case_if; bool_facts; intros Hret.
    + assert (out = []) as -> by (rewrite Ho, (zlen_0_nil (mem_contents bio)) by auto; apply ztake_all; change (zlen []) with 0; lia).
      repeat split; [lia|lia|]; rewrite Hc, (zlen_0_nil (mem_contents bio)) by auto; symmetry; apply zdrop_all; change (zlen []) with 0; lia.
    + repeat split; [lia|lia| |now rewrite Ho, Hc, ztake_zdrop]; intros Hz; apply zlen_0_nil; pose proof (zlen_nonneg out); lia.
Defined.

#[global] Instance mem_prompt : PromptStream MemBIO.
Proof.
  intros bio n Hok Hn Hne; cbn [stream_ok contents stream_read mem_stream] in *; unfold BIO_read; cbn [bread mem_method].
  rewrite (proj1 Hok), (proj2 (Z.leb_gt _ _)) by lia; cbn [negb].
  pose proof (mem_read_spec bio n Hok ltac:(lia)) as Hr; destruct (mem_read bio n) as [[ret out] bio']; destruct Hr as (_ & _ & Ho & _ & Hret & _).
  rewrite (not_empty_eqb _ Hne) in Hret; cbn [fst]; rewrite Hret, Ho; apply ztake_pos; [lia|exact Hne].
Qed.
End Stream.

(** ** Lines *)

(** The bytes of a list up to its first newline, included. *)
Fixpoint first_line (l : list Z) : list Z :=
  match l with
  | [] => []
  | c :: l => if c =? 10 then [c] else c :: first_line l
  end.

Lemma memchr_line l i :
  match memchr_from i l 10 with
  | Some k => first_line l = ztake (k - i + 1) l /\ i <= k < i + zlen l
  | None => first_line l = l
  end.
Proof.
  revert i; induction l as [|c l IH]; intros i; cbn [memchr_from first_line]; [reflexivity|].
  destruct (c =? 10); [split; [rewrite Z.sub_diag; reflexivity|zl]|].
  specialize (IH (i + 1)); destruct (memchr_from (i + 1) l 10) as [k|]; [|now rewrite IH].
  destruct IH as [-> Hk]; rewrite zlen_cons; split; [|lia].
  rewrite ztake_cons by lia; do 2 f_equal; lia.
Qed.

Lemma zlen_first_line l : zlen (first_line l) <= zlen l.
Proof. induction l as [|c l IH]; cbn [first_line]; [lia|]; case_if; zl. Qed.

Lemma first_line_nil l : first_line l = [] -> l = [].
Proof. destruct l; cbn; [easy|case_if; discriminate]. Qed.

Lemma first_line_prefix l : ztake (zlen (first_line l)) l = first_line l.
Proof.
  induction l as [|c l IH]; cbn [first_line]; [reflexivity|]; case_if; [reflexivity|].
  rewrite zlen_cons, ztake_cons by (pose proof (zlen_nonneg (first_line l)); lia).
  f_equal; replace (1 + zlen (first_line l) - 1) with (zlen (first_line l)) by lia; exact IH.
Qed.

Section Claims.
  Context `{Allocator}.

(** A memory BIO is a FIFO of bytes: for every sequence of [BIO_write]
    and [BIO_read] calls, also ones that fail for lack of memory or data, what
    was written is what was read followed by what is left in the buffer. *)
Theorem mem_bio_fifo (bio : MemBIO) ops : mem_ok bio -> Forall stream_op_ok ops ->
  let '(written, got, bio') := run_stream ops bio in
  mem_ok bio' /\ mem_contents bio ++ written = got ++ mem_contents bio'.
Proof. exact (run_stream_spec ops bio). Qed.

(** The number of bytes [mem_gets] asks [mem_read] for. *)
Lemma gets_request data n size : 0 < size -> 0 <= n <= zlen data ->
  let ret := if n <? size - 1 then n else size - 1 in
  match OPENSSL_memchr (ztake ret data) 10 with Some newline => newline + 1 | None => ret end =
  zlen (first_line (ztake (size - 1) (ztake n data))).
Proof.
  intros Hs Hn ret.
  assert (ztake (size - 1) (ztake n data) = ztake ret data) as ->.
  { unfold ret, ztake; rewrite take_take; f_equal; case_if; bool_facts; lia. }
  assert (zlen (ztake ret data) = ret) as Hr by (apply zlen_ztake; unfold ret; case_if; bool_facts; lia).
  pose proof (memchr_line (ztake ret data) 0) as Hm; fold (OPENSSL_memchr (ztake ret data) 10) in Hm; destruct (OPENSSL_memchr _ _) as [k|]; [|congruence].
  destruct Hm as [-> Hk]; rewrite zlen_ztake; lia.
Qed.

Lemma mem_gets_spec (bio : MemBIO) size : mem_ok bio -> 0 < size ->
  let line := first_line (ztake (size - 1) (mem_contents bio)) in
  let '(n, out, bio') := mem_gets bio size in
  n = zlen line /\ out = line ++ [0] /\ mem_ok bio' /\
  mem_contents bio = line ++ mem_contents bio' /\ BIO_get_retry_flags bio' = 0.
Proof.
  intros Hok Hs line; pose proof Hok as (_ & _ & p & Ep & _); unfold mem_gets.
  rewrite (proj2 (Z.leb_gt _ _)) by lia; cbn [ptr BIO_clear_retry_flags set_flags]; rewrite Ep.
  destruct (mem_length bio p Hok Ep) as [El Hl].
  assert (mem_contents bio = ztake (bm_length (mem p)) (bm_data (mem p))) as Ec
    by (unfold mem_contents, BIO_mem_contents; now rewrite Ep).
  rewrite gets_request; [|lia|rewrite Ec in El; unfold ztake, zlen in El |- *; rewrite length_take in El; lia].
  rewrite <- Ec; fold line; destruct (Z.eq_dec (zlen line) 0) as [E0|E0].
  - rewrite E0; cbn; apply zlen_0_nil in E0; rewrite E0; cbn.
    split; [reflexivity|split; [reflexivity|]]; split; [exact (mem_ok_clear _ (mem_ok_clear bio Hok))|].
    split; [reflexivity|apply retry_flag_facts].
  - pose proof (mem_read_spec _ (zlen line) (mem_ok_clear bio Hok) ltac:(pose proof (zlen_nonneg line); lia)) as Hr.
    change (mem_contents (BIO_clear_retry_flags bio)) with (mem_contents bio) in Hr.
    destruct (mem_read _ _) as [[n out] bio']; destruct Hr as (Hok' & _ & Ho & Hc & Hn & Hf & _).
    assert (ztake (zlen line) (mem_contents bio) = line) as Et.
    { rewrite <- (ztake_zdrop (size - 1) (mem_contents bio)); unfold ztake at 1; rewrite take_app_le;
        [apply first_line_prefix|pose proof (zlen_first_line (ztake (size - 1) (mem_contents bio))); fold line in H0; unfold zlen in *; lia]. }
    rewrite Et in Ho; subst out; assert (zlen (mem_contents bio) <> 0) as Hnz.
    { intros E; apply zlen_0_nil in E; apply E0; unfold line; rewrite E; now rewrite ztake_all by (change (zlen []) with 0; lia). }
    rewrite (proj2 (Z.eqb_neq _ _)) in Hn, Hf by auto; subst n.
    rewrite (proj2 (Z.leb_le _ _)) by apply zlen_nonneg; split; [auto|split; [auto|split; [auto|split; [|auto]]]].
    now rewrite <- Et at 1; rewrite Hc, ztake_zdrop.
Qed.

(** [BIO_gets] on a memory BIO takes the bytes up to and including the
    first newline, at most [size - 1] of them, stores them with a terminating
    NUL, returns their number and leaves the rest of the data in order. *)
Theorem mem_gets_line (bio : MemBIO) size : mem_ok bio -> 0 < size ->
  let line := first_line (ztake (size - 1) (mem_contents bio)) in
  let '(n, out, bio') := BIO_gets bio size in
  n = zlen line /\ out = line ++ [0] /\ mem_ok bio' /\ mem_contents bio = line ++ mem_contents bio'.
Proof.
  intros Hok Hs line; unfold BIO_gets; cbn [bgets mem_method].
  rewrite (proj1 Hok), (proj2 (Z.leb_gt _ _)) by lia; cbn [negb].
  pose proof (mem_gets_spec bio size Hok Hs) as Hg; destruct (mem_gets bio size) as [[n out] bio'].
  destruct Hg as (-> & -> & Hok' & Hc & _); split; [reflexivity|split; [reflexivity|]].
  case_if; split; auto using mem_ok_counts.
Qed.

(** An empty memory BIO: [BIO_read] returns the end-of-data value that
    was set and asks for a retry unless it is zero, while [BIO_gets] returns
    zero and never asks for a retry. *)
Theorem mem_empty_read_gets (bio : MemBIO) n : mem_ok bio -> mem_contents bio = [] -> 0 < n ->
  (let '(r, out, bio') := mem_read bio n in
   r = num bio /\ out = [] /\
   BIO_get_retry_flags bio' = (if num bio =? 0 then 0 else Z.lor BIO_FLAGS_READ BIO_FLAGS_SHOULD_RETRY)) /\
  (let '(r, out, bio') := mem_gets bio n in r = 0 /\ out = [0] /\ BIO_get_retry_flags bio' = 0).
Proof.
  intros Hok He Hn; split.
  - pose proof (mem_read_spec bio n Hok Hn) as Hr; destruct (mem_read bio n) as [[r out] bio'].
    rewrite He in Hr; destruct Hr as (_ & _ & -> & _ & -> & -> & _); cbn.
    repeat split; [apply ztake_all; change (zlen []) with 0; lia|]; now destruct (num bio =? 0).
  - pose proof (mem_gets_spec bio n Hok Hn) as Hg; destruct (mem_gets bio n) as [[r out] bio'].
    rewrite He, (ztake_all (n - 1)) in Hg by (change (zlen []) with 0; lia); destruct Hg as (-> & -> & _ & _ & ->); auto.
Qed.

(** Reading from a read-only BIO moves the pointer over a fixed buffer. *)
Lemma reads_keep_whole (bio : MemBIO) (sizes : list Z) : mem_ok bio -> read_only bio = true -> Forall (fun n => 0 < n) sizes ->
  let bio' := fold_left (fun b n => snd (mem_read b n)) sizes bio in
  mem_ok bio' /\ read_only bio' = true /\ mem_whole bio' = mem_whole bio.
Proof.
  intros Hok Hr Hs; revert bio Hok Hr; induction Hs as [|n sizes Hn Hs IH]; intros bio Hok Hr; cbn [fold_left]; [auto|].
  pose proof (mem_read_spec bio n Hok Hn) as Hm; destruct (mem_read bio n) as [[ret out] bio']; cbn [snd].
  destruct Hm as (Hok' & Er & _ & _ & _ & _ & Hw); specialize (IH bio' Hok' ltac:(congruence)).
  destruct IH as (? & ? & ?); rewrite <- (Hw Hr); auto.
Qed.

(** [BIO_CTRL_RESET] rewinds a read-only memory BIO: after any sequence
    of reads it makes the caller's whole buffer readable again. *)
Theorem mem_reset_rewinds `{Layout} buf sizes bio : Forall (fun n => 0 < n) sizes ->
  BIO_new_mem_buf (Some buf) (zlen buf) = Some (Some bio) ->
  let bio' := fold_left (fun b n => snd (mem_read b n)) sizes bio in
  mem_contents bio = buf /\ mem_contents (snd (mem_ctrl bio' BIO_CTRL_RESET 0 None)) = buf.
Proof.
  intros Hs E; assert (mem_contents bio = buf /\ mem_whole bio = buf /\ mem_ok bio /\ read_only bio = true) as (Ec & Ew & Hok & Hr).
  { revert E; unfold BIO_new_mem_buf; pose proof (zlen_nonneg buf).
    rewrite (proj2 (Z.ltb_ge _ _)) by lia; rewrite bool_decide_false by discriminate; cbn [andb default].
    unfold BIO_new, mem_new; repeat case_if; cbn [negb]; try discriminate; intros E; injection E as <-.
    rewrite (ztake_all (zlen buf)) by lia; split; [cbn; apply ztake_all; lia|split; [reflexivity|split; [|reflexivity]]].
    repeat split; cbn; [lia|]; eexists; split; [reflexivity|]; cbn; change (zlen []) with 0.
    match goal with |- context [read_only ?x] => change (read_only x) with true end; cbv iota; lia. }
  destruct (reads_keep_whole bio sizes Hok Hr Hs) as ((_ & _ & p & Ep & Hp) & Er & Hw); rewrite Ew in Hw.
  intros bio'; fold bio' in Ep, Er, Hw, Hp; rewrite Er in Hp; destruct Hp as (Hl & Hd & Hb).
  split; [exact Ec|]; unfold mem_ctrl; rewrite Ep; cbn [Z.eqb BIO_CTRL_RESET Pos.eqb].
  unfold mem_contents, BIO_mem_contents, mem_reset; rewrite Er; cbn [snd ptr set_ptr default mem bm_length bm_data].
  rewrite Hb, Z.sub_diag, zdrop_0; unfold mem_whole in Hw; rewrite Ep in Hw; rewrite Hw.
  apply ztake_all; apply (f_equal zlen) in Hw; rewrite zlen_app in Hw; lia.
Qed.

(** With a NULL buffer and a negative length, [strlen] runs before the test. *)
Lemma new_mem_buf_null `{Layout} len : len < 0 -> BIO_new_mem_buf None len = None.
Proof. intros; unfold BIO_new_mem_buf; now rewrite (proj2 (Z.ltb_lt _ _)) by lia. Qed.
End Claims.

(** A writable BIO with the bytes "ab\ncd" in a block of eight. *)
Definition sample_mem : MemBIO :=
  {| init := true; shutdown := 1; flags := 0; retry_reason := 0; num := -1; num_read := 0; num_write := 0;
     ptr := Some {| mem := {| bm_length := 5; bm_data := [97; 98; 10; 99; 100; 0; 0; 0]; bm_max := 8 |}; behind := [] |} |}.

Lemma sample_mem_ok : mem_ok sample_mem.
Proof. repeat split; cbn; [lia|]; eexists; split; [reflexivity|]; repeat split; cbn; lia. Qed.

Lemma mem_bio_fifo_witness :
  let '(written, got, bio') := run_stream (H := mem_stream (H := allocator_total)) [SWrite [1; 2]; SRead 4; SRead 9; SRead 1] sample_mem in
  mem_ok bio' /\ mem_contents sample_mem ++ written = got ++ mem_contents bio'.
Proof.
  apply (mem_bio_fifo (H := allocator_total) sample_mem); [exact sample_mem_ok|each_literal].
Defined.

Lemma mem_gets_line_witness :
  let '(n, out, bio') := BIO_gets (H := mem_method (H := allocator_total)) sample_mem 10 in
  n = 3 /\ out = [97; 98; 10; 0] /\ mem_ok bio' /\ mem_contents sample_mem = [97; 98; 10] ++ mem_contents bio'.
Proof. exact (mem_gets_line (H := allocator_total) sample_mem 10 sample_mem_ok eq_refl). Defined.

Lemma mem_empty_read_gets_witness :
  let bio := set_ptr sample_mem (Some {| mem := BUF_MEM_new; behind := [] |}) in
  (let '(r, out, bio') := mem_read bio 4 in
   r = -1 /\ out = [] /\ BIO_get_retry_flags bio' = Z.lor BIO_FLAGS_READ BIO_FLAGS_SHOULD_RETRY) /\
  (let '(r, out, bio') := mem_gets bio 4 in r = 0 /\ out = [0] /\ BIO_get_retry_flags bio' = 0).
Proof.
  intros bio; apply (mem_empty_read_gets bio 4); [|reflexivity|lia].
  repeat split; cbn; [lia|]; eexists; split; [reflexivity|]; repeat split; cbn; lia.
Defined.

Lemma mem_reset_rewinds_witness :
  let L := {| sizeof_BIO := 80; sizeof_BUF_MEM := 24; sizeof_bio_bio_st := 64 |} in
  exists bio, mem_contents bio = [1; 2; 3] /\
    mem_contents (snd (mem_ctrl (fold_left (fun b n => snd (mem_read b n)) [2; 5] bio) BIO_CTRL_RESET 0 None)) = [1; 2; 3].
Proof.
  intros L; eexists.
  apply (mem_reset_rewinds (H := allocator_total) (H0 := L) [1; 2; 3] [2; 5]); [each_literal|reflexivity].
Defined.
