(* ===== verification/BioPair.v ===== *)
(** BIO pairs: crypto/bio/pair.c (lines 64-483).

    Two BIOs are joined: what one writes goes into its ring buffer and the
    other reads it from there. The two point at each other, so a call on one
    changes the state of both. The model sees the pair from one end: the
    private state of a BIO is its own [bio_bio_st] and the whole peer BIO, and
    [other_end] turns the pair round. *)

From S2P Require Import Prelude Mem Bio.

Record bio_bio_st : Type := {
  peer : bool;          (* [peer != NULL]; it is then the other BIO of the pair *)
  closed : bool;
  len : Z;
  offset : Z;
  size : Z;
  buf : option (list Z);
  request : Z
}.

Definition BIO_C_GET_WRITE_BUF_SIZE : Z := 137.
Definition BIO_C_GET_WRITE_GUARANTEE : Z := 140.
Definition BIO_C_GET_READ_REQUEST : Z := 141.
Definition BIO_C_SHUTDOWN_WR : Z := 142.
Definition BIO_C_RESET_READ_REQUEST : Z := 147.

Definition set_request (b : bio_bio_st) (r : Z) : bio_bio_st :=
  {| peer := peer b; closed := closed b; len := len b; offset := offset b; size := size b; buf := buf b; request := r |}.
Definition set_closed (b : bio_bio_st) : bio_bio_st :=
  {| peer := peer b; closed := true; len := len b; offset := offset b; size := size b; buf := buf b; request := request b |}.
Definition set_ring (b : bio_bio_st) (l o : Z) (m : list Z) : bio_bio_st :=
  {| peer := peer b; closed := closed b; len := l; offset := o; size := size b; buf := Some m; request := request b |}.
Definition unpair (b : bio_bio_st) : bio_bio_st :=
  {| peer := false; closed := closed b; len := 0; offset := 0; size := size b; buf := buf b; request := request b |}.

Record half : Type := {
  own : bio_bio_st;
  peer_bio : BIO bio_bio_st
}.

Abbreviation Pair := (BIO half).

Definition other_end (p : Pair) : Pair :=
  with_ptr (peer_bio (ptr p)) {| own := ptr (peer_bio (ptr p)); peer_bio := with_ptr p (own (ptr p)) |}.

Definition set_own (p : Pair) (b : bio_bio_st) : Pair := set_ptr p {| own := b; peer_bio := peer_bio (ptr p) |}.
Definition set_peer_st (p : Pair) (b : bio_bio_st) : Pair :=
  set_ptr p {| own := own (ptr p); peer_bio := set_ptr (peer_bio (ptr p)) b |}.

Section Pairs.
  Context `{Allocator} `{Layout}.

Definition bio_bio_zero : bio_bio_st :=
  {| peer := false; closed := false; len := 0; offset := 0; size := 0; buf := None; request := 0 |}.

Definition bio_new (bio : BIO bio_bio_st) : bool * BIO bio_bio_st :=
  if malloc_ok sizeof_bio_bio_st
  then (true, set_ptr bio {| peer := false; closed := false; len := 0; offset := 0; size := 17 * 1024; buf := None; request := 0 |})
  else (false, bio).

Definition bio_destroy_pair (p : Pair) : Pair :=
  if negb (peer (own (ptr p))) then p
  else
    let peer_bio := set_init (set_ptr (peer_bio (ptr p)) (unpair (ptr (peer_bio (ptr p))))) false in
    set_init (set_ptr p {| own := unpair (own (ptr p)); peer_bio := peer_bio |}) false.

(** Frees one end; the other is left alone. *)
Definition bio_free (p : Pair) : BIO bio_bio_st :=
  let p := if peer (own (ptr p)) then bio_destroy_pair p else p in
  peer_bio (ptr p).

(** The copying loop of [bio_read] on the ring [m]: "one or two iterations". *)
Fixpoint read_loop (fuel : nat) (b : bio_bio_st) (m : list Z) (rest : Z) (out : list Z) : option (bio_bio_st * list Z) :=
  match fuel with
  | O => None
  | S fuel =>
      let chunk := if u64 (offset b + rest) <=? size b then rest else size b - offset b in
      let out := out ++ ztake chunk (zdrop (offset b) m) in
      let l := len b - chunk in
      let o := if negb (l =? 0) then let o := offset b + chunk in if o =? size b then 0 else o else 0 in
      let b := set_ring b l o m in
      let rest := rest - chunk in
      if negb (rest =? 0) then read_loop fuel b m rest out else Some (b, out)
  end.

(** [None] stands for a loop that did not end or a missing buffer. *)
Definition read_ring (b : bio_bio_st) (n : Z) : option (bio_bio_st * list Z) :=
  match buf b with None => None | Some m => read_loop 2 b m n [] end.

Definition bio_read (bio : Pair) (n : Z) : Z * list Z * Pair :=
  let bio := BIO_clear_retry_flags bio in
  if negb (init bio) then (0, [], bio)
  else
    let peer_b := set_request (ptr (peer_bio (ptr bio))) 0 in
    let bio := set_peer_st bio peer_b in
    if n =? 0 then (0, [], bio)
    else if len peer_b =? 0 then
      if closed peer_b then (0, [], bio)
      else (-1, [], set_peer_st (BIO_set_retry_read bio) (set_request peer_b (if n <=? size peer_b then n else size peer_b)))
    else
      let n := if len peer_b <? n then len peer_b else n in
      match read_ring peer_b n with
      | None => (0, [], bio)
      | Some (peer_b, out) => (n, out, set_peer_st bio peer_b)
      end.

(** The copying loop of [bio_write]. *)
Fixpoint write_loop (fuel : nat) (b : bio_bio_st) (m data : list Z) (rest : Z) : option bio_bio_st :=
  match fuel with
  | O => None
  | S fuel =>
      let write_offset := u64 (offset b + len b) in
      let write_offset := if size b <=? write_offset then write_offset - size b else write_offset in
      let chunk := if u64 (write_offset + rest) <=? size b then rest else size b - write_offset in
      let m := zsplice m write_offset (ztake chunk data) in
      let b := set_ring b (len b + chunk) (offset b) m in
      let rest := rest - chunk in
      if negb (rest =? 0) then write_loop fuel b m (zdrop chunk data) rest else Some b
  end.

Definition write_ring (b : bio_bio_st) (data : list Z) (n : Z) : option bio_bio_st :=
  match buf b with None => None | Some m => write_loop 2 b m data n end.

Definition bio_write (bio : Pair) (data : list Z) : Z * Pair :=
  let n := zlen data in
  let bio := BIO_clear_retry_flags bio in
  if negb (init bio) || (n =? 0) then (0, bio)
  else
    let b := set_request (own (ptr bio)) 0 in
    let bio := set_own bio b in
    if closed b then (-1, bio)
    else if len b =? size b then (-1, BIO_set_retry_write bio)
    else
      let n := if size b - len b <? n then size b - len b else n in
      match write_ring b data n with
      | None => (0, bio)
      | Some b => (n, set_own bio b)
      end.

(** The buffer a BIO gets when it is paired. *)
Definition pair_buffer (b : bio_bio_st) (writebuf_len : Z) : option bio_bio_st :=
  match buf b with
  | Some _ => Some b
  | None =>
      let n := if negb (writebuf_len =? 0) then writebuf_len else size b in
      match OPENSSL_malloc n with
      | None => None
      | Some m => Some {| peer := peer b; closed := closed b; len := 0; offset := 0; size := n; buf := Some m; request := request b |}
      end
  end.

Definition joined (b : bio_bio_st) : bio_bio_st :=
  {| peer := true; closed := false; len := len b; offset := offset b; size := size b; buf := buf b; request := 0 |}.

(** [None] is the error return; the caller then frees both BIOs. *)
Definition bio_make_pair (bio1 bio2 : BIO bio_bio_st) (writebuf1_len writebuf2_len : Z) : option Pair :=
  if peer (ptr bio1) || peer (ptr bio2) then None
  else match pair_buffer (ptr bio1) writebuf1_len with
  | None => None
  | Some b1 =>
      match pair_buffer (ptr bio2) writebuf2_len with
      | None => None
      | Some b2 =>
          let bio1 := set_init (with_ptr bio1 (joined b1)) true in
          let bio2 := set_init (with_ptr bio2 (joined b2)) true in
          Some (with_ptr bio1 {| own := ptr bio1; peer_bio := bio2 |})
      end
  end.

Definition BIO_new_bio_pair (writebuf1_len writebuf2_len : Z) : option Pair :=
  match BIO_new bio_bio_zero bio_new, BIO_new bio_bio_zero bio_new with
  | Some bio1, Some bio2 => bio_make_pair bio1 bio2 writebuf1_len writebuf2_len
  | _, _ => None
  end.

(** [other] is the BIO passed to [BIO_CTRL_EOF]. *)
Definition bio_ctrl (bio : Pair) (cmd larg : Z) (other : option bio_bio_st) : Z * Pair :=
  let b := own (ptr bio) in
  if cmd =? BIO_C_GET_WRITE_BUF_SIZE then (size b, bio)
  else if cmd =? BIO_C_GET_WRITE_GUARANTEE then (if negb (peer b) || closed b then 0 else size b - len b, bio)
  else if cmd =? BIO_C_GET_READ_REQUEST then (request b, bio)
  else if cmd =? BIO_C_RESET_READ_REQUEST then (1, set_own bio (set_request b 0))
  else if cmd =? BIO_C_SHUTDOWN_WR then (1, set_own bio (set_closed b))
  else if cmd =? BIO_CTRL_GET_CLOSE then (shutdown bio, bio)
  else if cmd =? BIO_CTRL_SET_CLOSE then (1, set_shutdown bio larg)
  else if cmd =? BIO_CTRL_PENDING then (if peer b then len (ptr (peer_bio (ptr bio))) else 0, bio)
  else if cmd =? BIO_CTRL_WPENDING then (if bool_decide (buf b = None) then 0 else len b, bio)
  else if cmd =? BIO_CTRL_FLUSH then (1, bio)
  else if cmd =? BIO_CTRL_EOF then
    (match other with Some other_b => Z.b2z ((len other_b =? 0) && closed other_b) | None => 1 end, bio)
  else (0, bio).

#[global] Instance methods_biop : BioMethod half :=
  {| bread := Some bio_read; bwrite := Some bio_write; bgets := None |}.

Definition BIO_ctrl_get_read_request (bio : Pair) : Z := fst (bio_ctrl bio BIO_C_GET_READ_REQUEST 0 None).
Definition BIO_ctrl_get_write_guarantee (bio : Pair) : Z := fst (bio_ctrl bio BIO_C_GET_WRITE_GUARANTEE 0 None).
Definition BIO_shutdown_wr (bio : Pair) : Z * Pair := bio_ctrl bio BIO_C_SHUTDOWN_WR 0 None.
End Pairs.

(** * The ring buffer *)

Definition rot (o : Z) (m : list Z) : list Z := zdrop o m ++ ztake o m.

(** The bytes that were written and not yet read. *)
Definition ring (b : bio_bio_st) : list Z :=
  match buf b with Some m => ztake (len b) (rot (offset b) m) | None => [] end.

Definition ring_ok (b : bio_bio_st) : Prop :=
  0 <= offset b < size b /\ 0 <= len b <= size b /\ size b < 2 ^ 63 /\
  exists m, buf b = Some m /\ zlen m = size b.

Lemma zlen_rot o m : 0 <= o <= zlen m -> zlen (rot o m) = zlen m.
Proof. intros; unfold rot; rewrite zlen_app, zlen_zdrop, zlen_ztake by lia; lia. Qed.

Lemma zlen_ring b : ring_ok b -> zlen (ring b) = len b.
Proof. intros (? & ? & ? & m & E & ?); unfold ring; rewrite E, zlen_ztake; rewrite ?zlen_rot; lia. Qed.

(** Moving the start of the ring on. *)
Lemma rot_add o c m : 0 <= o -> 0 <= c -> o + c <= zlen m -> rot (o + c) m = zdrop c (rot o m) ++ ztake c (rot o m).
Proof.
  intros; unfold rot; rewrite (ztake_app_le c) by (rewrite zlen_zdrop; lia).
  rewrite <- (zdrop_zdrop c o m), ztake_add by lia; rewrite app_assoc; f_equal.
  symmetry; apply zdrop_app_le; rewrite zlen_zdrop; lia.
Qed.

Lemma rot_wrap m : rot (zlen m) m = rot 0 m.
Proof. unfold rot; rewrite zdrop_all, ztake_all, zdrop_0, ztake_0 by lia; now rewrite app_nil_r. Qed.

(** One chunk of a read. *)
Lemma read_step b m c : ring_ok b -> buf b = Some m -> 0 < c <= len b -> offset b + c <= size b ->
  let l := len b - c in
  let o := if negb (l =? 0) then let o := offset b + c in if o =? size b then 0 else o else 0 in
  let b' := set_ring b l o m in
  ring_ok b' /\ ztake c (zdrop (offset b) m) = ztake c (ring b) /\ ring b' = zdrop c (ring b).
Proof.
  intros Hok Em Hc Ho l o b'; pose proof Hok as (Hoff & Hl & Hs & m' & Em' & Hm).
  rewrite Em in Em'; injection Em' as <-.
  assert (ring b = ztake (len b) (rot (offset b) m)) as Er by (unfold ring; now rewrite Em).
  assert (0 <= o < size b) by (unfold o; repeat case_if; bool_facts; cbn; lia).
  split; [repeat split; cbn; try lia; exists m; auto|]; split.
  - rewrite Er, ztake_ztake by lia; unfold rot; now rewrite ztake_app_le by (rewrite zlen_zdrop; lia).
  - rewrite Er; replace (len b) with (c + l) by (unfold l; lia); rewrite zdrop_ztake by (unfold l; lia).
    unfold ring; cbn [b' set_ring buf len offset].
    destruct (Z.eq_dec l 0) as [E0|E0]; [now rewrite E0|].
    assert (rot o m = rot (offset b + c) m) as ->.
    { unfold o; rewrite (proj2 (Z.eqb_neq l 0)) by auto; cbn; case_if; bool_facts; [|reflexivity].
      rewrite Heqb0, <- Hm; symmetry; apply rot_wrap. }
    rewrite rot_add by lia; apply ztake_app_le; rewrite zlen_zdrop; rewrite zlen_rot; unfold l; lia.
Qed.

Lemma read_ring_spec b n : ring_ok b -> 0 < n <= len b ->
  exists b', read_ring b n = Some (b', ztake n (ring b)) /\ ring_ok b' /\ ring b' = zdrop n (ring b) /\
    peer b' = peer b /\ closed b' = closed b /\ size b' = size b /\ request b' = request b.
Proof.
  intros Hok Hn; pose proof Hok as (Hoff & Hl & Hs & m & Em & Hm); pow2.
  unfold read_ring; rewrite Em; cbn [read_loop]; rewrite (uw_small 64 (offset b + n)) by (pow2; lia).
  destruct (offset b + n <=? size b) eqn:E; bool_facts.
  - rewrite Z.sub_diag; cbn [Z.eqb negb].
    destruct (read_step b m n Hok Em) as (H1 & H2 & H3); [lia..|].
    cbn [app]; rewrite H2; eexists; split; [reflexivity|]; repeat split; [apply H1..|exact H3].
  - set (c := size b - offset b); assert (0 < c < n) as Hc by (unfold c; lia).
    rewrite (proj2 (Z.eqb_neq (n - c) 0)) by lia; cbn [negb].
    destruct (read_step b m c Hok Em) as (H1 & H2 & H3); [lia|unfold c; lia|].
    set (b1 := set_ring b _ _ m) in *; cbn [b1 set_ring offset size len].
    rewrite (proj2 (Z.eqb_neq (len b - c) 0)) by lia; cbn [negb].
    replace (offset b + c) with (size b) by (unfold c; lia); rewrite Z.eqb_refl, Z.add_0_l.
    rewrite (uw_small 64) by (pow2; lia); rewrite (proj2 (Z.leb_le (n - c) (size b))), Z.sub_diag by lia; cbn [Z.eqb negb].
    assert (offset b1 = 0) as Eo.
    { cbn; rewrite (proj2 (Z.eqb_neq (len b - c) 0)) by lia; cbn; replace (offset b + c) with (size b) by (unfold c; lia).
      now rewrite Z.eqb_refl. }
    destruct (read_step b1 m (n - c) H1 eq_refl) as (H4 & H5 & H6); [cbn; lia|rewrite Eo; cbn; lia|].
    rewrite Eo, H3 in H5; cbn [app]; rewrite H2, H5, <- ztake_add by lia; replace (c + (n - c)) with n by lia.
    eexists; split; [reflexivity|].
    rewrite Eo in H4, H6; cbn [b1 set_ring len size offset buf closed peer request] in H4, H6.
    split; [exact H4|]; split; [|repeat split].
    rewrite H3, zdrop_zdrop in H6 by lia; replace (c + (n - c)) with n in H6 by lia; exact H6.
Qed.

(** One chunk of a write. *)
Lemma write_step b m d w : ring_ok b -> buf b = Some m -> len b + zlen d <= size b ->
  w = (if size b <=? offset b + len b then offset b + len b - size b else offset b + len b) -> w + zlen d <= size b ->
  let b' := set_ring b (len b + zlen d) (offset b) (zsplice m w d) in
  ring_ok b' /\ ring b' = ring b ++ d.
Proof.
  intros Hok Em Hfit Hw Hc b'; pose proof Hok as (Hoff & Hl & Hs & m' & Em' & Hm).
  rewrite Em in Em'; injection Em' as <-; pose proof (zlen_nonneg d).
  assert (0 <= w) by (subst w; case_if; bool_facts; lia).
  split; [repeat split; cbn; try lia; eexists; split; [reflexivity|]; rewrite zlen_zsplice; lia|].
  unfold ring; rewrite Em; cbn [b' set_ring buf len offset]; unfold rot, zsplice; revert Hw; case_if; bool_facts; intros Hw.
  - rewrite (zdrop_app_ge (offset b) (ztake w m)) by (rewrite zlen_ztake; lia).
    rewrite zdrop_app_ge by (rewrite zlen_ztake; lia); rewrite zlen_ztake, zdrop_zdrop by lia.
    replace (w + zlen d + (offset b - w - zlen d)) with (offset b) by lia.
    rewrite !(ztake_app_ge _ (zdrop _ m)) by (rewrite zlen_zdrop; lia); rewrite <- app_assoc; f_equal.
    rewrite zlen_zdrop, Hm, !ztake_ztake by lia.
    replace (len b - (size b - offset b)) with w by lia.
    rewrite app_assoc; apply ztake_app_eq; rewrite zlen_app, zlen_ztake; lia.
  - rewrite zdrop_app_le by (rewrite zlen_ztake; lia).
    rewrite (ztake_app_le (len b)) by (rewrite zlen_zdrop; lia); subst w; rewrite zdrop_ztake by lia.
    rewrite app_assoc, <- (app_assoc (_ ++ _) _ (ztake _ (_ ++ _))); apply ztake_app_eq; rewrite zlen_app, zlen_ztake; rewrite ?zlen_zdrop; lia.
Qed.

Lemma write_ring_spec b data n : ring_ok b -> 0 < n <= size b - len b -> n <= zlen data ->
  exists b', write_ring b data n = Some b' /\ ring_ok b' /\ ring b' = ring b ++ ztake n data /\
    peer b' = peer b /\ closed b' = closed b /\ size b' = size b /\ request b' = request b.
Proof.
  intros Hok Hn Hd; pose proof Hok as (Hoff & Hl & Hs & m & Em & Hm); pow2.
  unfold write_ring; rewrite Em; cbn [write_loop]; rewrite (uw_small 64 (offset b + len b)) by (pow2; lia).
  set (w := if size b <=? offset b + len b then offset b + len b - size b else offset b + len b).
  assert (0 <= w < size b) as Hw by (unfold w; case_if; bool_facts; lia).
  rewrite (uw_small 64 (w + n)) by (pow2; lia); destruct (w + n <=? size b) eqn:E; bool_facts.
  - rewrite Z.sub_diag; cbn [Z.eqb negb].
    assert (zlen (ztake n data) = n) as En by (apply zlen_ztake; lia).
    destruct (write_step b m (ztake n data) w Hok Em) as (H1 & H2); [lia|reflexivity|lia|]; rewrite En in *.
    eexists; split; [reflexivity|]; split; [exact H1|split; [exact H2|repeat split]].
  - set (c := size b - w); assert (0 < c < n) as Hc by (unfold c; lia).
    rewrite (proj2 (Z.eqb_neq (n - c) 0)) by lia; cbn [negb].
    assert (zlen (ztake c data) = c) as Ec by (apply zlen_ztake; lia).
    destruct (write_step b m (ztake c data) w Hok Em) as (H1 & H2); [lia|reflexivity|unfold c in *; lia|].
    rewrite Ec in *; set (b1 := set_ring b _ _ _) in *; cbn [b1 set_ring offset size len].
    assert (offset b + len b = w) as Ew by (unfold w in *; case_if; bool_facts; lia).
    replace (offset b + (len b + c)) with (size b) by (unfold c; lia); rewrite (uw_small 64 (size b)) by (pow2; lia).
    rewrite Z.leb_refl, Z.sub_diag, Z.add_0_l, (uw_small 64 (n - c)) by (pow2; lia).
    rewrite (proj2 (Z.leb_le (n - c) (size b))), Z.sub_diag by lia; cbn [Z.eqb negb].
    set (d2 := ztake (n - c) (zdrop c data)).
    assert (zlen d2 = n - c) as E2 by (apply zlen_ztake; rewrite zlen_zdrop; lia).
    destruct (write_step b1 (zsplice m w (ztake c data)) d2 0 H1 eq_refl) as (H3 & H4);
      [cbn; lia|cbn; replace (offset b + (len b + c)) with (size b) by (unfold c; lia); rewrite Z.leb_refl; lia|cbn; lia|].
    rewrite E2 in *; eexists; split; [reflexivity|]; split; [exact H3|split; [|repeat split]].
    refine (eq_trans H4 _); rewrite H2, <- app_assoc; f_equal; unfold d2; rewrite <- ztake_add by lia; f_equal; lia.
Qed.

(** * The pair *)

Definition pair_ok (p : Pair) : Prop :=
  init p = true /\ init (peer_bio (ptr p)) = true /\
  peer (own (ptr p)) = true /\ peer (ptr (peer_bio (ptr p))) = true /\
  ring_ok (own (ptr p)) /\ ring_ok (ptr (peer_bio (ptr p))).

(** The bytes on their way from this end, and to it. *)
Definition outgoing (p : Pair) : list Z := ring (own (ptr p)).
Definition incoming (p : Pair) : list Z := ring (ptr (peer_bio (ptr p))).

Lemma other_end_invol p : other_end (other_end p) = p.
Proof. destruct p as [? ? ? ? ? ? ? [? []]]; reflexivity. Qed.

Lemma other_end_ok p : pair_ok p -> pair_ok (other_end p).
Proof. intros (? & ? & ? & ? & ? & ?); unfold pair_ok; cbn; tauto. Qed.

Lemma other_end_io p : outgoing (other_end p) = incoming p /\ incoming (other_end p) = outgoing p.
Proof. split; reflexivity. Qed.

Lemma pair_ok_counts p r w : pair_ok p -> pair_ok (set_counts p r w).
Proof. auto. Qed.

Definition clamp (n m : Z) : Z := if m <? n then m else n.

Lemma ring_ok_request b r : ring_ok b -> ring_ok (set_request b r).
Proof. auto. Qed.

Lemma clamp_min n m : clamp n m = Z.min n m.
Proof. unfold clamp; case_if; bool_facts; lia. Qed.

(** What [bio_write] does on every branch, on this end and on the other. *)
Lemma bio_write_spec p data : pair_ok p -> 0 < zlen data ->
  let b := own (ptr p) in
  let '(n, p') := bio_write p data in
  pair_ok p' /\ outgoing p' = outgoing p ++ ztake n data /\ peer_bio (ptr p') = peer_bio (ptr p) /\
  closed (own (ptr p')) = closed b /\ size (own (ptr p')) = size b /\ request (own (ptr p')) = 0 /\
  n = (if closed b || (len b =? size b) then -1 else clamp (zlen data) (size b - len b)) /\
  BIO_get_retry_flags p' = (if negb (closed b) && (len b =? size b) then Z.lor BIO_FLAGS_WRITE BIO_FLAGS_SHOULD_RETRY else 0).
Proof.
  intros (Hi & Hi' & Hp & Hp' & Hr & Hr') Hd b; unfold bio_write.
  change (init (BIO_clear_retry_flags p)) with (init p); rewrite Hi, (proj2 (Z.eqb_neq (zlen data) 0)) by lia.
  cbn [negb orb]; change (own (ptr (BIO_clear_retry_flags p))) with b; set (b0 := set_request b 0).
  change (closed b0) with (closed b); change (len b0) with (len b); change (size b0) with (size b).
  destruct (closed b) eqn:Ec; cbn [orb andb negb].
  { split; [unfold pair_ok; cbn; auto 6|]; split; [now rewrite app_nil_r|]; cbn; rewrite Ec.
    repeat split; apply (retry_flag_facts p). }
  destruct (len b =? size b) eqn:Ef.
  { split; [unfold pair_ok; cbn; auto 6|]; split; [now rewrite app_nil_r|]; cbn; rewrite Ec.
    repeat split; apply (retry_flag_facts p). }
  pose proof Hr as (_ & Hl & _); fold b in Hl; bool_facts; fold (clamp (zlen data) (size b - len b)).
  set (n := clamp _ _); assert (0 < n <= size b - len b /\ n <= zlen data) as [Hn Hn'] by (unfold n, clamp; case_if; bool_facts; lia).
  destruct (write_ring_spec b0 data n (ring_ok_request b 0 Hr) Hn Hn') as (b' & -> & Hok & Hring & E1 & E2 & E3 & E4).
  split; [unfold pair_ok; cbn; rewrite E1; auto 6|]; split; [exact Hring|]; cbn; rewrite E2, E3, E4.
  repeat split; auto; apply (retry_flag_facts p).
Qed.

(** What [bio_read] does on every branch. *)
Lemma bio_read_spec p n : pair_ok p -> 0 < n ->
  let b := ptr (peer_bio (ptr p)) in
  let '(ret, out, p') := bio_read p n in
  pair_ok p' /\ out = ztake n (incoming p) /\ incoming p' = zdrop n (incoming p) /\ own (ptr p') = own (ptr p) /\
  closed (ptr (peer_bio (ptr p'))) = closed b /\ size (ptr (peer_bio (ptr p'))) = size b /\
  ret = (if zlen (incoming p) =? 0 then (if closed b then 0 else -1) else zlen out) /\
  BIO_get_retry_flags p' = (if (zlen (incoming p) =? 0) && negb (closed b) then Z.lor BIO_FLAGS_READ BIO_FLAGS_SHOULD_RETRY else 0) /\
  request (ptr (peer_bio (ptr p'))) = (if (zlen (incoming p) =? 0) && negb (closed b) then clamp n (size b) else 0).
Proof.
  intros (Hi & Hi' & Hp & Hp' & Hr & Hr') Hn b; unfold bio_read.
  change (init (BIO_clear_retry_flags p)) with (init p); rewrite Hi, (proj2 (Z.eqb_neq n 0)) by lia; cbn [negb].
  change (ptr (peer_bio (ptr (BIO_clear_retry_flags p)))) with b; set (b0 := set_request b 0).
  change (closed b0) with (closed b); change (len b0) with (len b); change (size b0) with (size b).
  change (incoming p) with (ring b); pose proof (zlen_ring b Hr') as El; rewrite El.
  destruct (len b =? 0) eqn:E0; bool_facts; cbn [andb].
  - assert (ring b = []) as Er by (apply zlen_0_nil; lia); rewrite Er.
    rewrite (ztake_all n), (zdrop_all n) by (change (zlen []) with 0; lia).
    destruct (closed b) eqn:Ec; cbn [negb].
    + split; [unfold pair_ok; cbn; auto 6|]; split; [reflexivity|]; split; [exact Er|]; cbn; rewrite Ec.
      repeat split; apply (retry_flag_facts p).
    + split; [unfold pair_ok; cbn; auto 6|]; split; [reflexivity|]; split; [exact Er|]; cbn; rewrite Ec.
      repeat split; [apply (retry_flag_facts p)|]; unfold clamp; repeat case_if; bool_facts; lia.
  - pose proof Hr' as (_ & Hl & _); fold b in Hl; fold (clamp n (len b)); set (k := clamp n (len b)).
    assert (0 < k <= len b) as Hk by (unfold k, clamp; case_if; bool_facts; lia).
    assert (ztake k (ring b) = ztake n (ring b) /\ zdrop k (ring b) = zdrop n (ring b)) as [Et Ed].
    { unfold k, clamp; case_if; bool_facts; [|auto]; rewrite !ztake_all, !zdrop_all by lia; auto. }
    destruct (read_ring_spec b0 k (ring_ok_request b 0 Hr') Hk) as (b' & -> & Hok & Hring & E1 & E2 & E3 & E4).
    change (ring b0) with (ring b) in *; split; [unfold pair_ok; cbn; rewrite E1; auto 6|]; split; [exact Et|].
    split; [exact (eq_trans Hring Ed)|]; cbn; rewrite E2, E3, E4.
    repeat split; auto; [rewrite zlen_ztake; lia|apply (retry_flag_facts p)].
Qed.

(** The direction from this end to the other is a byte stream. *)
#[global] Instance pair_stream : ByteStream Pair.
Proof.
  refine {| stream_ok := pair_ok; contents := outgoing; stream_write := BIO_write;
            stream_read := fun p n => let '(r, out, p') := BIO_read (other_end p) n in (r, out, other_end p') |}.
  - intros p data Hok Hd; unfold BIO_write; cbn [bwrite methods_biop].
    rewrite (proj1 Hok), (proj2 (Z.leb_gt _ _)) by lia; cbn [negb].
    pose proof (bio_write_spec p data Hok ltac:(lia)) as Hw; destruct (bio_write p data) as [n p'].
    destruct Hw as (Hok' & Ho & _ & _ & _ & _ & Hn & _).
    assert (n <= zlen data) by (subst n; unfold clamp; repeat case_if; bool_facts; lia).
    case_if; (split; [auto using pair_ok_counts|split; [assumption|exact Ho]]).
  - intros p n Hok Hn; unfold BIO_read; cbn [bread methods_biop].
    pose proof (other_end_ok p Hok) as Hoe.
    rewrite (proj1 Hoe), (proj2 (Z.leb_gt _ _)) by lia; cbn [negb].
    pose proof (bio_read_spec (other_end p) n Hoe ltac:(lia)) as Hr; destruct (bio_read (other_end p) n) as [[r out] p'].
    rewrite (proj2 (other_end_io p)) in Hr; destruct Hr as (Hok' & Ho & Hi & _ & _ & _ & Hret & _).
    match goal with |- pair_ok (other_end ?q) /\ _ => assert (pair_ok q /\ incoming q = incoming p') as [Hq Eq] end.
    { case_if; auto using pair_ok_counts. }
    split; [now apply other_end_ok|]; rewrite (proj1 (other_end_io _)), Eq, Hi, Ho, ztake_zdrop.
    assert (zlen out <= n) by (rewrite Ho; unfold ztake, zlen; rewrite length_take; lia).
    rewrite <- Ho; clear Hi Eq Hq Hok' Hoe; pose proof (zlen_nonneg out).
    destruct (zlen (outgoing p) =? 0) eqn:E; bool_facts.
    + assert (out = []) as Eo.
      { rewrite Ho, (zlen_0_nil (outgoing p)) by assumption; apply ztake_all; change (zlen []) with 0; lia. }
      destruct (closed _); subst r; repeat split; auto; lia.
    + subst r; repeat split; auto; intros; apply zlen_0_nil; lia.
Defined.

#[global] Instance pair_prompt : PromptStream Pair.
Proof.
  intros p n Hok Hn Hne; cbn [stream_ok contents stream_read pair_stream] in *; unfold BIO_read; cbn [bread methods_biop].
  pose proof (other_end_ok p Hok) as Hoe; rewrite (proj1 Hoe), (proj2 (Z.leb_gt _ _)) by lia; cbn [negb].
  pose proof (bio_read_spec (other_end p) n Hoe ltac:(lia)) as Hr; destruct (bio_read (other_end p) n) as [[r out] p'].
  rewrite (proj2 (other_end_io p)) in Hr; destruct Hr as (_ & Ho & _ & _ & _ & _ & Hret & _).
  rewrite (not_empty_eqb _ Hne) in Hret; cbn [fst]; rewrite Hret, Ho; apply ztake_pos; [lia|exact Hne].
Qed.

(** ** Calls on both ends *)

Inductive pair_op : Type :=
  | PWrite (data : list Z)
  | PRead (n : Z)
  | PShutdown.

(** A call on this end ([false]) or on the other ([true]): the bytes sent, the
    bytes received, and the pair. *)
Definition pair_step (p : Pair) (op : pair_op) : list Z * list Z * Pair :=
  match op with
  | PWrite d => let '(n, p) := BIO_write p d in (ztake n d, [], p)
  | PRead n => let '(_, out, p) := BIO_read p n in ([], out, p)
  | PShutdown => ([], [], snd (BIO_shutdown_wr p))
  end.

Fixpoint run_pair (ops : list (bool * pair_op)) (p : Pair) : (list Z * list Z) * (list Z * list Z) * Pair :=
  match ops with
  | [] => (([], []), ([], []), p)
  | (false, op) :: ops =>
      let '(s, r, p) := pair_step p op in
      let '((s1, r1), e2, p) := run_pair ops p in ((s ++ s1, r ++ r1), e2, p)
  | (true, op) :: ops =>
      let '(s, r, p) := pair_step (other_end p) op in
      let '(e1, (s2, r2), p) := run_pair ops (other_end p) in (e1, (s ++ s2, r ++ r2), p)
  end.

Lemma pair_step_spec p op : pair_ok p ->
  let '(s, r, p') := pair_step p op in
  pair_ok p' /\ outgoing p' = outgoing p ++ s /\ incoming p = r ++ incoming p'.
Proof.
  intros Hok; destruct op as [d|n|]; unfold pair_step.
  - unfold BIO_write; cbn [bwrite methods_biop]; rewrite (proj1 Hok); cbn [negb]; case_if; bool_facts.
    { split; [auto|split; [now rewrite app_nil_r|reflexivity]]. }
    pose proof (bio_write_spec p d Hok ltac:(lia)) as Hw; destruct (bio_write p d) as [n p'].
    destruct Hw as (Hok' & Ho & Hp & _); case_if; (split; [auto using pair_ok_counts|split; [exact Ho|]]);
      unfold incoming; cbn [set_counts ptr]; rewrite Hp; reflexivity.
  - unfold BIO_read; cbn [bread methods_biop]; rewrite (proj1 Hok); cbn [negb]; case_if; bool_facts.
    { split; [auto|split; [now rewrite app_nil_r|reflexivity]]. }
    pose proof (bio_read_spec p n Hok ltac:(lia)) as Hr; destruct (bio_read p n) as [[ret out] p'].
    destruct Hr as (Hok' & Ho & Hi & Hp & _).
    assert (incoming p = out ++ incoming p') as E by (rewrite Ho, Hi; symmetry; apply ztake_zdrop).
    case_if; (split; [auto using pair_ok_counts|split; [|exact E]]);
      unfold outgoing; cbn [set_counts ptr]; rewrite Hp, app_nil_r; reflexivity.
  - destruct Hok as (? & ? & ? & ? & ? & ?); split; [unfold pair_ok; cbn; auto 6|].
    split; [now rewrite app_nil_r|reflexivity].
Qed.

Lemma run_pair_spec ops p : pair_ok p ->
  let '((s1, r1), (s2, r2), p') := run_pair ops p in
  pair_ok p' /\ outgoing p ++ s1 = r2 ++ outgoing p' /\ incoming p ++ s2 = r1 ++ incoming p'.
Proof.
  revert p; induction ops as [|[[] op] ops IH]; intros p Hok; cbn [run_pair].
  - now rewrite !app_nil_r.
  - pose proof (pair_step_spec (other_end p) op (other_end_ok p Hok)) as Hs.
    destruct (pair_step (other_end p) op) as [[s r] q]; destruct Hs as (Hq & Ho & Hi).
    specialize (IH (other_end q) (other_end_ok q Hq)); destruct (run_pair ops (other_end q)) as [[[s1 r1] [s2 r2]] p'].
    destruct (other_end_io p) as [E1 E2]; destruct (other_end_io q) as [E3 E4]; rewrite E1, E2, E3, E4 in *.
    destruct IH as (? & I1 & I2); split; [auto|]; split.
    + rewrite Hi, <- !app_assoc; f_equal; exact I1.
    + rewrite app_assoc, <- Ho; exact I2.
  - pose proof (pair_step_spec p op Hok) as Hs; destruct (pair_step p op) as [[s r] q]; destruct Hs as (Hq & Ho & Hi).
    specialize (IH q Hq); destruct (run_pair ops q) as [[[s1 r1] [s2 r2]] p']; destruct IH as (? & I1 & I2).
    split; [auto|]; split; [rewrite app_assoc, <- Ho; exact I1|rewrite Hi, <- !app_assoc; f_equal; exact I2].
Qed.

Lemma new_pair_spec `{Allocator} `{Layout} n1 n2 p : 0 <= n1 < 2 ^ 63 -> 0 <= n2 < 2 ^ 63 ->
  BIO_new_bio_pair n1 n2 = Some p ->
  pair_ok p /\ outgoing p = [] /\ incoming p = [] /\
  closed (own (ptr p)) = false /\ closed (ptr (peer_bio (ptr p))) = false /\
  size (own (ptr p)) = (if n1 =? 0 then 17 * 1024 else n1) /\ size (ptr (peer_bio (ptr p))) = (if n2 =? 0 then 17 * 1024 else n2).
Proof.
  intros H1 H2; unfold BIO_new_bio_pair, BIO_new, bio_new, OPENSSL_malloc.
  destruct (malloc_ok sizeof_BIO), (malloc_ok sizeof_bio_bio_st); cbn [negb]; try discriminate.
  unfold bio_make_pair, pair_buffer, OPENSSL_malloc; cbn [ptr set_ptr peer buf size orb].
  assert (forall n, 0 <= n < 2 ^ 63 -> 0 < (if negb (n =? 0) then n else 17 * 1024) < 2 ^ 63 /\
            (if negb (n =? 0) then n else 17 * 1024) = (if n =? 0 then 17 * 1024 else n)) as Hs
    by (intros n Hn; destruct (n =? 0) eqn:E; bool_facts; cbn; pow2; lia).
  destruct (Hs n1 H1) as [Hs1 E1]; destruct (Hs n2 H2) as [Hs2 E2].
  rewrite <- E1, <- E2; clear Hs E1 E2.
  set (k1 := if negb (n1 =? 0) then n1 else _) in *; set (k2 := if negb (n2 =? 0) then n2 else _) in *; clearbody k1 k2.
  destruct (malloc_ok k1), (malloc_ok k2); try discriminate; intros [= <-].
  split; [|repeat split].
  unfold pair_ok, ring_ok; cbn; repeat split; try lia; eexists; (split; [reflexivity|apply zlen_fresh; lia]).
Qed.

(** C5. A BIO pair carries two independent FIFO byte streams: for every
    interleaving of writes, reads and shutdowns on its two ends, what each end
    has received is a prefix of what the other has sent, and the bytes in
    between are in the ring buffer: none is lost, repeated or reordered where
    the ring wraps around, and no store leaves it. *)
Theorem bio_pair_fifo `{Allocator} `{Layout} n1 n2 p ops : 0 <= n1 < 2 ^ 63 -> 0 <= n2 < 2 ^ 63 ->
  BIO_new_bio_pair n1 n2 = Some p ->
  let '((sent1, got1), (sent2, got2), p') := run_pair ops p in
  sent1 = got2 ++ outgoing p' /\ sent2 = got1 ++ incoming p' /\ pair_ok p'.
Proof.
  intros H1 H2 E; destruct (new_pair_spec n1 n2 p H1 H2 E) as (Hok & Eo & Ei & _).
  pose proof (run_pair_spec ops p Hok) as Hr; rewrite Eo, Ei in Hr.
  destruct (run_pair ops p) as [[[s1 r1] [s2 r2]] p']; tauto.
Qed.

(** [bio_write] on an open pair accepts exactly what fits, its result
    being the number of bytes taken; it fails with the retry-write flags when
    the ring is full and without them after a shutdown; and it withdraws the
    read request. *)
Theorem bio_write_result p data : pair_ok p -> 0 < zlen data ->
  let b := own (ptr p) in
  let '(n, p') := bio_write p data in
  n = (if closed b || (len b =? size b) then -1 else Z.min (zlen data) (size b - len b)) /\
  outgoing p' = outgoing p ++ ztake n data /\ incoming p' = incoming p /\
  (BIO_should_retry p' <> 0 <-> closed b = false /\ len b = size b) /\
  BIO_ctrl_get_read_request p' = 0 /\
  BIO_ctrl_get_write_guarantee p' = (if closed b then 0 else size b - zlen (outgoing p')).
Proof.
  intros Hok Hd b; pose proof (bio_write_spec p data Hok Hd) as Hw; destruct (bio_write p data) as [n p'].
  destruct Hw as (Hok' & Ho & Hp & Hc & Hs & Hr & Hn & Hf); fold b in Hn, Hf, Hc, Hs.
  split; [rewrite Hn, clamp_min; reflexivity|]; split; [exact Ho|].
  split; [unfold incoming; now rewrite Hp|]; split.
  - assert (BIO_should_retry p' = Z.land (BIO_get_retry_flags p') BIO_FLAGS_SHOULD_RETRY) as ->
      by (unfold BIO_should_retry, BIO_get_retry_flags, BIO_test_flags; now rewrite <- Z.land_assoc).
    rewrite Hf; destruct (closed b), (len b =? size b) eqn:E; bool_facts; cbn; split; try easy; try (intros []; congruence); auto.
  - split; [exact Hr|]; unfold BIO_ctrl_get_write_guarantee, bio_ctrl; cbn [Z.eqb Pos.eqb BIO_C_GET_WRITE_BUF_SIZE BIO_C_GET_WRITE_GUARANTEE fst].
    destruct Hok' as (_ & _ & -> & _ & Hring & _); rewrite Hc, Hs; cbn [negb orb].
    unfold outgoing; now rewrite zlen_ring.
Qed.

(** [bio_read] returns as many bytes as are asked for and available. On
    an empty ring it fails with the retry-read flags and registers its request,
    bounded by the buffer; once the writer has shut down it reports the end of
    the data, and only when every byte has been read. *)
Theorem bio_read_result p n : pair_ok p -> 0 < n ->
  let b := ptr (peer_bio (ptr p)) in
  let '(ret, out, p') := bio_read p n in
  out = ztake n (incoming p) /\ incoming p' = zdrop n (incoming p) /\ outgoing p' = outgoing p /\
  (ret = 0 <-> incoming p = [] /\ closed b = true) /\
  (ret = -1 <-> incoming p = [] /\ closed b = false) /\
  (0 < ret -> ret = Z.min n (zlen (incoming p))) /\
  (BIO_should_retry p' <> 0 <-> ret = -1) /\
  BIO_ctrl_get_read_request (other_end p') = (if ret =? -1 then Z.min n (size b) else 0).
Proof.
  intros Hok Hn b; pose proof (bio_read_spec p n Hok Hn) as Hr; destruct (bio_read p n) as [[ret out] p'].
  destruct Hr as (Hok' & Ho & Hi & Hp & Hc & Hs & Hret & Hf & Hq); fold b in Hc, Hs, Hret, Hf, Hq.
  split; [exact Ho|split; [exact Hi|]]; split; [unfold outgoing; now rewrite Hp|].
  assert (BIO_should_retry p' = Z.land (BIO_get_retry_flags p') BIO_FLAGS_SHOULD_RETRY) as ->
    by (unfold BIO_should_retry, BIO_get_retry_flags, BIO_test_flags; now rewrite <- Z.land_assoc).
  change (BIO_ctrl_get_read_request (other_end p')) with (request (ptr (peer_bio (ptr p')))); rewrite Hf, Hq.
  destruct (incoming p) as [|x l] eqn:El; cbn [zlen length Z.of_nat Z.eqb andb] in Hret |- *.
  - rewrite clamp_min; destruct (closed b); subst ret; cbn; repeat split; try easy; lia.
  - assert (zlen out = Z.min n (zlen (x :: l))) as Ez.
    { rewrite Ho; unfold ztake, zlen; rewrite length_take; lia. }
    rewrite zlen_cons in Ez; pose proof (zlen_nonneg l); subst ret; change (zlen (x :: l) =? 0) with false; cbn [andb].
    rewrite (proj2 (Z.eqb_neq (zlen out) (-1))) by lia; rewrite zlen_cons.
    repeat split; try easy; try lia.
Qed.

(** [BIO_new_bio_pair] gives two open, empty ends with ring buffers of
    the sizes asked for, or of 17 KiB for a size of zero; freeing one end
    disconnects the other, which then refuses every read and write. *)
Theorem bio_pair_lifecycle `{Allocator} `{Layout} n1 n2 p : 0 <= n1 < 2 ^ 63 -> 0 <= n2 < 2 ^ 63 ->
  BIO_new_bio_pair n1 n2 = Some p ->
  pair_ok p /\ outgoing p = [] /\ incoming p = [] /\
  BIO_ctrl_get_write_guarantee p = (if n1 =? 0 then 17 * 1024 else n1) /\
  BIO_ctrl_get_write_guarantee (other_end p) = (if n2 =? 0 then 17 * 1024 else n2) /\
  (forall q, pair_ok q -> let survivor := bio_free q in
     init survivor = false /\ peer (ptr survivor) = false /\ ring (ptr survivor) = []).
Proof.
  intros H1 H2 E; destruct (new_pair_spec n1 n2 p H1 H2 E) as (Hok & Eo & Ei & Ec & Ec' & Es & Es').
  split; [auto|split; [auto|split; [auto|]]].
  pose proof Hok as (_ & _ & Hp & Hp' & Hr & Hr').
  apply (f_equal zlen) in Eo, Ei; unfold outgoing, incoming in Eo, Ei; rewrite zlen_ring in Eo, Ei by assumption.
  change (zlen []) with 0 in *; unfold BIO_ctrl_get_write_guarantee, bio_ctrl.
  cbn [Z.eqb Pos.eqb BIO_C_GET_WRITE_BUF_SIZE BIO_C_GET_WRITE_GUARANTEE fst other_end with_ptr ptr own].
  rewrite Hp, Hp', Ec, Ec', Eo, Ei, <- Es, <- Es'; cbn [negb orb]; split; [lia|split; [lia|]].
  intros q (_ & _ & Hq & _ & _ & _); unfold bio_free, bio_destroy_pair; rewrite Hq; cbn [negb].
  repeat split; unfold ring; cbn; destruct (buf _); reflexivity.
Qed.

Definition sample_layout : Layout := {| sizeof_BIO := 80; sizeof_BUF_MEM := 24; sizeof_bio_bio_st := 64 |}.

(** A pair whose rings have three and two bytes. *)
Definition sample_pair : Pair :=
  let b n := {| peer := true; closed := false; len := 0; offset := 0; size := n; buf := Some (zrep n 0); request := 0 |} in
  let bio {S} (s : S) := {| init := true; shutdown := 1; flags := 0; retry_reason := 0; num := 0; num_read := 0; num_write := 0; ptr := s |} in
  bio {| own := b 3; peer_bio := bio (b 2) |}.

Lemma sample_pair_new : BIO_new_bio_pair (H := allocator_total) (H0 := sample_layout) 3 2 = Some sample_pair.
Proof. reflexivity. Qed.

Lemma sample_pair_ok : pair_ok sample_pair.
Proof. unfold pair_ok, ring_ok; cbn; repeat split; try lia; eexists; (split; [reflexivity|reflexivity]). Qed.

Lemma bio_pair_fifo_witness :
  let '((sent1, got1), (sent2, got2), p') :=
    run_pair [(false, PWrite [1; 2]); (true, PRead 1); (false, PWrite [3; 4; 5]); (true, PWrite [9]); (true, PRead 7); (false, PRead 1)] sample_pair in
  sent1 = got2 ++ outgoing p' /\ sent2 = got1 ++ incoming p' /\ pair_ok p'.
Proof.
  apply (bio_pair_fifo (H := allocator_total) (H0 := sample_layout) 3 2 sample_pair); [lia..|reflexivity].
Defined.

Lemma bio_write_result_witness :
  let '(n, p') := bio_write sample_pair [1; 2; 3; 4; 5] in n = 3 /\ outgoing p' = [1; 2; 3].
Proof.
  pose proof (bio_write_result sample_pair [1; 2; 3; 4; 5] sample_pair_ok ltac:(vm_compute; reflexivity)) as Hw.
  destruct (bio_write sample_pair [1; 2; 3; 4; 5]) as [n p']; destruct Hw as (-> & -> & _); split; reflexivity.
Defined.

Lemma bio_read_result_witness :
  let '(ret, out, p') := bio_read sample_pair 7 in out = [] /\ BIO_ctrl_get_read_request (other_end p') = (if ret =? -1 then 2 else 0).
Proof.
  pose proof (bio_read_result sample_pair 7 sample_pair_ok ltac:(vm_compute; reflexivity)) as Hr.
  destruct (bio_read sample_pair 7) as [[ret out] p']; destruct Hr as (-> & _ & _ & _ & _ & _ & _ & ->); split; reflexivity.
Defined.

Lemma bio_pair_lifecycle_witness :
  BIO_ctrl_get_write_guarantee sample_pair = 3 /\ BIO_ctrl_get_write_guarantee (other_end sample_pair) = 2.
Proof.
  destruct (bio_pair_lifecycle (H := allocator_total) (H0 := sample_layout) 3 2 sample_pair) as (_ & _ & _ & H1 & H2 & _);
    [lia..|reflexivity|split; [exact H1|exact H2]].
Defined.
