(* ===== verification/PosixTime.v ===== *)
(** Calendar time: crypto/asn1/posix_time.c (lines 28-236), the conversions
    between POSIX seconds and UTC dates that certificate validity rests on.

    C integer division truncates, so it is [Z.quot] and [Z.rem]. The [int] and
    [int64_t] arithmetic stays far inside its range except in
    [OPENSSL_gmtime_adj], where the sum may overflow. *)

From S2P Require Import Prelude.

Definition SECS_PER_HOUR : Z := 60 * 60.
Definition SECS_PER_DAY : Z := 24 * SECS_PER_HOUR.

Definition is_leap (year : Z) : bool :=
  ((Z.rem year 4 =? 0) && negb (Z.rem year 100 =? 0)) || (Z.rem year 400 =? 0).

Definition is_valid_date (year month day : Z) : bool :=
  if (day <? 1) || (month <? 1) || (year <? 0) || (9999 <? year) then false
  else if (month =? 1) || (month =? 3) || (month =? 5) || (month =? 7) || (month =? 8) || (month =? 10) || (month =? 12)
  then (0 <? day) && (day <=? 31)
  else if (month =? 4) || (month =? 6) || (month =? 9) || (month =? 11) then (0 <? day) && (day <=? 30)
  else if month =? 2 then
    if is_leap year then (0 <? day) && (day <=? 29) else (0 <? day) && (day <=? 28)
  else false.

Definition is_valid_time (hours minutes seconds : Z) : bool :=
  negb ((hours <? 0) || (minutes <? 0) || (seconds <? 0) || (23 <? hours) || (59 <? minutes) || (59 <? seconds)).

Definition is_valid_epoch_time (time : Z) : bool := (-62167219200 <=? time) && (time <=? 253402300799).

(** The broken-down time: the fields of [struct tm] that are used. *)
Record utc : Type := { year : Z; month : Z; day : Z; hours : Z; minutes : Z; seconds : Z }.

#[global] Instance utc_eq_dec : EqDecision utc.
Proof. solve_decision. Defined.

Definition posix_time_from_utc (u : utc) : option Z :=
  if negb (is_valid_date (year u) (month u) (day u)) || negb (is_valid_time (hours u) (minutes u) (seconds u)) then None
  else
    let year := if month u <=? 2 then year u - 1 else year u in
    let era := Z.quot (if 0 <=? year then year else year - 399) 400 in
    let year_of_era := year - era * 400 in
    let day_of_year := Z.quot (153 * (if 2 <? month u then month u - 3 else month u + 9) + 2) 5 + day u - 1 in
    let day_of_era := year_of_era * 365 + Z.quot year_of_era 4 - Z.quot year_of_era 100 + day_of_year in
    let posix_days := era * 146097 + day_of_era - 719468 in
    Some (posix_days * SECS_PER_DAY + hours u * SECS_PER_HOUR + minutes u * 60 + seconds u).

Definition utc_from_posix_time (time : Z) : option utc :=
  if negb (is_valid_epoch_time time) then None
  else
    let days := Z.quot time SECS_PER_DAY in
    let leftover_seconds := Z.rem time SECS_PER_DAY in
    let '(days, leftover_seconds) :=
      if leftover_seconds <? 0 then (days - 1, leftover_seconds + SECS_PER_DAY) else (days, leftover_seconds) in
    let days := days + 719468 in
    let era := Z.quot (if 0 <? days then days else days - 146096) 146097 in
    let day_of_era := days - era * 146097 in
    let year_of_era :=
      Z.quot (day_of_era - Z.quot day_of_era 1460 + Z.quot day_of_era 36524 - Z.quot day_of_era 146096) 365 in
    let out_year := year_of_era + era * 400 in
    let day_of_year := day_of_era - (365 * year_of_era + Z.quot year_of_era 4 - Z.quot year_of_era 100) in
    let month_of_year := Z.quot (5 * day_of_year + 2) 153 in
    let out_month := if month_of_year <? 10 then month_of_year + 3 else month_of_year - 9 in
    let out_year := if out_month <=? 2 then out_year + 1 else out_year in
    let out_day := day_of_year - Z.quot (153 * month_of_year + 2) 5 + 1 in
    let out_hours := Z.quot leftover_seconds SECS_PER_HOUR in
    let leftover_seconds := Z.rem leftover_seconds SECS_PER_HOUR in
    Some {| year := out_year; month := out_month; day := out_day; hours := out_hours;
            minutes := Z.quot leftover_seconds 60; seconds := Z.rem leftover_seconds 60 |}.

(** [struct tm] counts years from 1900 and months from 0. *)
Definition tm_of_utc (u : utc) : utc :=
  {| year := year u - 1900; month := month u - 1; day := day u; hours := hours u; minutes := minutes u; seconds := seconds u |}.
Definition utc_of_tm (tm : utc) : utc :=
  {| year := year tm + 1900; month := month tm + 1; day := day tm; hours := hours tm; minutes := minutes tm; seconds := seconds tm |}.

Definition OPENSSL_tm_to_posix (tm : utc) : option Z := posix_time_from_utc (utc_of_tm tm).

Definition OPENSSL_posix_to_tm (time : Z) : option utc :=
  match utc_from_posix_time time with Some u => Some (tm_of_utc u) | None => None end.

(** [bits] is the width of [time_t], 32 or 64. *)
Definition OPENSSL_timegm (bits : Z) (tm : utc) : option Z :=
  match OPENSSL_tm_to_posix tm with
  | None => None
  | Some posix_time =>
      if (bits =? 32) && ((INT_MAX <? posix_time) || (posix_time <? INT_MIN)) then None else Some posix_time
  end.

Definition OPENSSL_gmtime (time : Z) : option utc := OPENSSL_posix_to_tm time.

Definition in_int64 (x : Z) : bool := (- 2 ^ 63 <=? x) && (x <? 2 ^ 63).

(** The outer [None] is a signed overflow, which C leaves undefined. *)
Definition OPENSSL_gmtime_adj (tm : utc) (off_day offset_sec : Z) : option (option utc) :=
  match posix_time_from_utc (utc_of_tm tm) with
  | None => Some None
  | Some posix_time =>
      let t := posix_time + off_day * SECS_PER_DAY in
      if in_int64 t && in_int64 (t + offset_sec) then
        match utc_from_posix_time (t + offset_sec) with
        | None => Some None
        | Some u => Some (Some (tm_of_utc u))
        end
      else None
  end.

Definition OPENSSL_gmtime_diff (from to : utc) : option (Z * Z) :=
  match posix_time_from_utc (utc_of_tm to) with
  | None => None
  | Some time_to =>
      match posix_time_from_utc (utc_of_tm from) with
      | None => None
      | Some time_from =>
          let timediff := time_to - time_from in
          let daydiff := Z.quot timediff SECS_PER_DAY in
          let timediff := Z.rem timediff SECS_PER_DAY in
          if (INT_MAX <? daydiff) || (daydiff <? INT_MIN) then None else Some (daydiff, timediff)
      end
  end.

(** [lia] with division by constants. *)
#[local] Ltac Zify.zify_post_hook ::= Z.to_euclidean_division_equations.

(** * One era of 400 years

    The Gregorian calendar repeats every 400 years of 146097 days. Years are
    counted in the era and start on March 1; months are counted from March and
    days of the year from 0. *)

Definition days_less_leaps (d : Z) : Z := d - d / 1460 + d / 36524 - d / 146096.
Definition year_of_day (d : Z) : Z := days_less_leaps d / 365.
Definition first_day (y : Z) : Z := 365 * y + y / 4 - y / 100.
Definition last_day (y : Z) : Z := if y =? 399 then 146096 else first_day (y + 1) - 1.
Definition month_of_day (n : Z) : Z := (5 * n + 2) / 153.
Definition first_of_month (m : Z) : Z := (153 * m + 2) / 5.

Definition leap (y : Z) : bool := (y mod 4 =? 0) && (negb (y mod 100 =? 0) || (y mod 400 =? 0)).

Definition month_length (y m : Z) : Z :=
  if m =? 11 then 28 + Z.b2z (leap (y + 1))
  else if (m =? 1) || (m =? 3) || (m =? 6) || (m =? 8) then 30 else 31.

Lemma days_less_leaps_mono a b : 0 <= a <= b -> days_less_leaps a <= days_less_leaps b.
Proof.
  intros Hab; unfold days_less_leaps.
  assert (a - a / 1460 <= b - b / 1460) by lia.
  assert (forall d, d / 146096 = d / 36524 / 4) as Hq by (intros; rewrite Z.div_div by lia; reflexivity).
  rewrite !Hq; pose proof (Z.div_le_mono a b 36524 ltac:(lia) ltac:(lia)).
  generalize dependent (a / 36524); generalize dependent (b / 36524); intros; lia.
Qed.

(** The first and the last day of each year of the era, and its length. *)
Lemma year_ends y : 0 <= y < 400 ->
  365 * y <= days_less_leaps (first_day y) /\ days_less_leaps (last_day y) < 365 * (y + 1) /\
  last_day y - first_day y = 364 + Z.b2z (leap (y + 1)).
Proof.
  assert (zall (fun y => (365 * y <=? days_less_leaps (first_day y)) && (days_less_leaps (last_day y) <? 365 * (y + 1)) &&
                         (last_day y - first_day y =? 364 + Z.b2z (leap (y + 1)))) 0 400 = true) as H by (vm_compute; reflexivity).
  intros Hy; pose proof (zall_spec _ _ _ H y Hy); cbn beta in *; bool_facts; auto.
Qed.

Lemma first_day_bounds y : 0 <= y < 400 -> 0 <= first_day y /\ first_day y <= last_day y <= 146096 /\
  (y < 399 -> last_day y + 1 = first_day (y + 1)).
Proof.
  intros; unfold last_day, first_day; case_if; bool_facts; lia.
Qed.

Lemma year_of_day_spec d y : 0 <= y < 400 -> first_day y <= d <= last_day y -> year_of_day d = y.
Proof.
  intros Hy Hd; destruct (year_ends y Hy) as (H1 & H2 & _); destruct (first_day_bounds y Hy) as (H3 & H4 & _).
  pose proof (days_less_leaps_mono (first_day y) d ltac:(lia)); pose proof (days_less_leaps_mono d (last_day y) ltac:(lia)).
  unfold year_of_day; lia.
Qed.

(** Every day of the era is in its year. *)
Lemma year_of_day_inv d : 0 <= d < 146097 ->
  let y := year_of_day d in 0 <= y < 400 /\ first_day y <= d <= last_day y.
Proof.
  intros Hd y.
  assert (0 <= y < 400) as Hy.
  { pose proof (days_less_leaps_mono 0 d ltac:(lia)) as L; pose proof (days_less_leaps_mono d 146096 ltac:(lia)) as U.
    change (days_less_leaps 0) with 0 in L; change (days_less_leaps 146096) with 145999 in U.
    unfold y, year_of_day; lia. }
  split; [exact Hy|]; assert (365 * y <= days_less_leaps d < 365 * (y + 1)) as Hg by (unfold y, year_of_day; lia).
  destruct (first_day_bounds y Hy) as (Hb1 & Hb2 & Hb3); split.
  - destruct (Z.le_gt_cases (first_day y) d); [assumption|exfalso].
    assert (1 <= y) by (destruct (Z.eq_dec y 0) as [E|]; [rewrite E in *; change (first_day 0) with 0 in *; lia|lia]).
    destruct (year_ends (y - 1) ltac:(lia)) as (_ & H2 & _); destruct (first_day_bounds (y - 1) ltac:(lia)) as (_ & _ & H3).
    replace (y - 1 + 1) with y in * by lia.
    pose proof (days_less_leaps_mono d (last_day (y - 1)) ltac:(lia)); lia.
  - destruct (Z.le_gt_cases d (last_day y)); [assumption|exfalso].
    destruct (Z.eq_dec y 399) as [E|]; [rewrite E in *; change (last_day 399) with 146096 in *; lia|].
    destruct (year_ends (y + 1) ltac:(lia)) as (H1 & _ & _).
    pose proof (days_less_leaps_mono (first_day (y + 1)) d ltac:(lia)); lia.
Qed.

(** Months of a year. *)
Lemma month_cases m : 0 <= m < 12 -> m = 0 \/ m = 1 \/ m = 2 \/ m = 3 \/ m = 4 \/ m = 5 \/ m = 6 \/ m = 7 \/ m = 8 \/ m = 9 \/ m = 10 \/ m = 11.
Proof. lia. Qed.

Lemma month_length_next y m : 0 <= m < 12 ->
  first_of_month m + month_length y m = (if m =? 11 then 365 + Z.b2z (leap (y + 1)) else first_of_month (m + 1)).
Proof.
  intros Hm; destruct (month_cases m Hm) as [->|[->|[->|[->|[->|[->|[->|[->|[->|[->|[->| ->]]]]]]]]]]]; try reflexivity.
  unfold month_length; cbn [Z.eqb Pos.eqb]; change (first_of_month 11) with 337; lia.
Qed.

Lemma month_of_day_spec y m k : 0 <= m < 12 -> 1 <= k <= month_length y m -> month_of_day (first_of_month m + k - 1) = m.
Proof.
  intros Hm Hk; pose proof (month_length_next y m Hm) as Hl; revert Hl; case_if; bool_facts; intros Hl.
  - subst m; change (first_of_month 11) with 337 in *; assert (Z.b2z (leap (y + 1)) <= 1) by (destruct (leap _); cbn; lia).
    unfold month_of_day; lia.
  - unfold month_of_day, first_of_month in *; lia.
Qed.

Lemma month_of_day_inv y n : 0 <= n <= 364 + Z.b2z (leap (y + 1)) ->
  let m := month_of_day n in 0 <= m < 12 /\ 1 <= n - first_of_month m + 1 <= month_length y m.
Proof.
  intros Hn m; assert (Z.b2z (leap (y + 1)) <= 1) by (destruct (leap _); cbn; lia).
  assert (0 <= m < 12) as Hm by (unfold m, month_of_day; lia); split; [exact Hm|].
  pose proof (month_length_next y m Hm) as Hl; revert Hl; case_if; bool_facts; intros Hl;
    unfold m, month_of_day, first_of_month in *; lia.
Qed.

(** * Dates in calendar coordinates *)

(** A time of day on day [k] of month [m] of year [y] of an era. *)
Record civil : Type := { c_era : Z; c_year : Z; c_month : Z; c_day : Z; c_sec : Z }.

Definition civil_ok (c : civil) : Prop :=
  0 <= c_year c < 400 /\ 0 <= c_month c < 12 /\ 1 <= c_day c <= month_length (c_year c) (c_month c) /\ 0 <= c_sec c < 86400.

(** Its day number from March 1 of year 0, and the seconds since 1970. *)
Definition civil_days (c : civil) : Z :=
  c_era c * 146097 + first_day (c_year c) + first_of_month (c_month c) + c_day c - 1.
Definition civil_time (c : civil) : Z := (civil_days c - 719468) * 86400 + c_sec c.

Definition civil_utc (c : civil) : utc :=
  {| year := c_year c + c_era c * 400 + (if c_month c <? 10 then 0 else 1);
     month := if c_month c <? 10 then c_month c + 3 else c_month c - 9;
     day := c_day c;
     hours := c_sec c / 3600; minutes := c_sec c mod 3600 / 60; seconds := c_sec c mod 60 |}.

Lemma civil_day_bounds c : civil_ok c ->
  0 <= first_of_month (c_month c) + c_day c - 1 <= last_day (c_year c) - first_day (c_year c) /\
  (10 <= c_month c <-> 306 <= first_of_month (c_month c) + c_day c - 1).
Proof.
  intros (Hy & Hm & Hk & _); pose proof (month_length_next (c_year c) (c_month c) Hm) as Hl.
  destruct (year_ends _ Hy) as (_ & _ & ->); assert (0 <= Z.b2z (leap (c_year c + 1)) <= 1) by (destruct (leap _); cbn; lia).
  revert Hl; case_if; bool_facts; intros Hl; unfold first_of_month in *; lia.
Qed.

(** The valid range of times is the range of years 0 to 9999. *)
Lemma civil_range c : civil_ok c ->
  is_valid_epoch_time (civil_time c) = (0 <=? year (civil_utc c)) && (year (civil_utc c) <=? 9999).
Proof.
  intros Hc; pose proof Hc as (Hy & Hm & Hk & Hs); destruct (civil_day_bounds c Hc) as [Hn H10].
  destruct (first_day_bounds _ Hy) as (Hb1 & Hb2 & Hb3).
  assert (c_year c < 399 -> last_day (c_year c) < 145731) as H399.
  { intros; unfold last_day; rewrite (proj2 (Z.eqb_neq _ _)) by lia; unfold first_day; lia. }
  assert (c_year c = 399 -> first_day (c_year c) = 145731) as H398 by (intros ->; reflexivity).
  apply eq_true_iff_eq; unfold is_valid_epoch_time, civil_time, civil_days; cbn [year civil_utc].
  rewrite !andb_true_iff, !Z.leb_le.
  destruct (c_month c <? 10) eqn:E; bool_facts; lia.
Qed.

(** Every time has calendar coordinates. *)
Lemma civil_exists t : exists c, civil_ok c /\ civil_time c = t.
Proof.
  set (D := t / 86400 + 719468); set (d := D mod 146097).
  assert (0 <= d < 146097) as Hd by (apply Z.mod_pos_bound; lia).
  destruct (year_of_day_inv d Hd) as [Hy Hin]; set (y := year_of_day d) in *.
  destruct (year_ends y Hy) as (_ & _ & Hlen).
  destruct (month_of_day_inv y (d - first_day y) ltac:(lia)) as [Hm Hk]; set (m := month_of_day (d - first_day y)) in *.
  exists {| c_era := D / 146097; c_year := y; c_month := m; c_day := d - first_day y - first_of_month m + 1; c_sec := t mod 86400 |}.
  split; [repeat split; cbn; try lia|].
  unfold civil_time, civil_days; cbn [c_era c_year c_month c_day c_sec].
  pose proof (Z.div_mod D 146097); pose proof (Z.div_mod t 86400); unfold d, D in *; lia.
Qed.

(** Decoding the coordinates of a time. *)
Lemma utc_from_civil c : civil_ok c -> is_valid_epoch_time (civil_time c) = true ->
  utc_from_posix_time (civil_time c) = Some (civil_utc c).
Proof.
  intros Hc Hv; pose proof Hc as (Hy & Hm & Hk & Hs); destruct (civil_day_bounds c Hc) as [Hn _].
  destruct (first_day_bounds _ Hy) as (Hb1 & Hb2 & _).
  unfold utc_from_posix_time; rewrite Hv; cbn [negb].
  set (n := first_of_month (c_month c) + c_day c - 1) in *; set (d := first_day (c_year c) + n).
  assert (civil_days c = c_era c * 146097 + d) as Ed by (unfold civil_days, d, n; lia).
  change SECS_PER_DAY with 86400; change SECS_PER_HOUR with 3600.
  assert ((if Z.rem (civil_time c) 86400 <? 0 then (Z.quot (civil_time c) 86400 - 1, Z.rem (civil_time c) 86400 + 86400)
           else (Z.quot (civil_time c) 86400, Z.rem (civil_time c) 86400)) = (civil_days c - 719468, c_sec c)) as ->.
  { unfold civil_time; case_if; bool_facts; f_equal; lia. }
  replace (civil_days c - 719468 + 719468) with (civil_days c) by lia.
  assert (Z.quot (if 0 <? civil_days c then civil_days c else civil_days c - 146096) 146097 = c_era c) as ->.
  { rewrite Ed; case_if; bool_facts; unfold d in *; lia. }
  replace (civil_days c - c_era c * 146097) with d by lia.
  assert (Z.quot (d - Z.quot d 1460 + Z.quot d 36524 - Z.quot d 146096) 365 = c_year c) as ->.
  { rewrite <- (year_of_day_spec d (c_year c) Hy) at 1 by (unfold d; lia); unfold year_of_day, days_less_leaps.
    rewrite (Z.quot_div_nonneg d 1460), (Z.quot_div_nonneg d 36524), (Z.quot_div_nonneg d 146096) by (unfold d; lia).
    apply Z.quot_div_nonneg; [|lia].
    exact (days_less_leaps_mono 0 d ltac:(unfold d; lia)). }
  assert (d - (365 * c_year c + Z.quot (c_year c) 4 - Z.quot (c_year c) 100) = n) as ->.
  { unfold d, first_day; rewrite !Z.quot_div_nonneg by lia; lia. }
  assert (Z.quot (5 * n + 2) 153 = c_month c) as ->.
  { rewrite Z.quot_div_nonneg by lia; exact (month_of_day_spec _ _ _ Hm Hk). }
  unfold civil_utc; f_equal; f_equal.
  - repeat case_if; bool_facts; lia.
  - unfold n, first_of_month; rewrite Z.quot_div_nonneg by lia; lia.
  - apply Z.quot_div_nonneg; lia.
  - rewrite Z.rem_mod_nonneg, Z.quot_div_nonneg by lia; reflexivity.
  - rewrite !Z.rem_mod_nonneg by lia; lia.
Qed.

Lemma is_leap_leap Y y e : 0 <= Y -> Y = y + 400 * e -> is_leap Y = leap y.
Proof.
  intros HY ->; unfold is_leap, leap; rewrite !Z.rem_mod_nonneg by lia.
  replace ((y + 400 * e) mod 4) with (y mod 4) by lia; replace ((y + 400 * e) mod 100) with (y mod 100) by lia.
  replace ((y + 400 * e) mod 400) with (y mod 400) by lia.
  destruct (y mod 4 =? 0) eqn:E4, (y mod 100 =? 0) eqn:E100, (y mod 400 =? 0) eqn:E400; bool_facts; cbn; auto; lia.
Qed.

(** The number of days of a month of a year. *)
Definition days_in_month (Y M : Z) : Z :=
  if M =? 2 then 28 + Z.b2z (is_leap Y)
  else if (M =? 4) || (M =? 6) || (M =? 9) || (M =? 11) then 30 else 31.

Lemma valid_date_iff Y M D :
  is_valid_date Y M D = true <-> 0 <= Y <= 9999 /\ 1 <= M <= 12 /\ 1 <= D <= days_in_month Y M.
Proof.
  unfold is_valid_date, days_in_month; split.
  - case_if; [discriminate|]; intros Hd; bool_facts; split; [lia|].
    assert (1 <= M <= 12) as HM.
    { split; [lia|]; revert Hd; repeat (case_if; bool_facts; try lia; try discriminate);
        repeat match goal with H : (_ || _) = true |- _ => apply orb_true_iff in H as [H|H]; bool_facts end; lia. }
    split; [exact HM|].
    assert (M = 1 \/ M = 2 \/ M = 3 \/ M = 4 \/ M = 5 \/ M = 6 \/ M = 7 \/ M = 8 \/ M = 9 \/ M = 10 \/ M = 11 \/ M = 12) as Hcases by lia.
    destruct Hcases as [->|[->|[->|[->|[->|[->|[->|[->|[->|[->|[->| ->]]]]]]]]]]]; cbn in *; try (bool_facts; lia).
    destruct (is_leap Y); bool_facts; cbn; lia.
  - intros (HY & HM & HD).
    assert ((D <? 1) || (M <? 1) || (Y <? 0) || (9999 <? Y) = false) as ->.
    { rewrite !orb_false_iff, !Z.ltb_ge; lia. }
    assert (M = 1 \/ M = 2 \/ M = 3 \/ M = 4 \/ M = 5 \/ M = 6 \/ M = 7 \/ M = 8 \/ M = 9 \/ M = 10 \/ M = 11 \/ M = 12) as Hcases by lia.
    destruct Hcases as [->|[->|[->|[->|[->|[->|[->|[->|[->|[->|[->| ->]]]]]]]]]]]; cbn in *;
      try (rewrite andb_true_iff, Z.ltb_lt, Z.leb_le; lia).
    destruct (is_leap Y); cbn in *; rewrite andb_true_iff, Z.ltb_lt, Z.leb_le; lia.
Qed.

Lemma month_length_utc c : 0 <= c_month c < 12 -> 0 <= year (civil_utc c) ->
  days_in_month (year (civil_utc c)) (month (civil_utc c)) = month_length (c_year c) (c_month c).
Proof.
  intros Hm HY; cbn [year month civil_utc] in *; unfold days_in_month, month_length.
  destruct (Z.eq_dec (c_month c) 11) as [E|E].
  - rewrite E in *; cbn [Z.ltb Z.compare Pos.compare Pos.compare_cont Z.sub Z.add Z.opp Pos.eqb Z.eqb Z.pos_sub] in *.
    change (11 <? 10) with false in *; cbv iota in *; change (11 - 9 =? 2) with true; cbv iota.
    rewrite (is_leap_leap _ (c_year c + 1) (c_era c)); lia.
  - destruct (month_cases _ Hm) as [->|[->|[->|[->|[->|[->|[->|[->|[->|[->|[->| Em]]]]]]]]]]]; [reflexivity..|congruence].
Qed.

Lemma valid_time_iff h mi s : is_valid_time h mi s = true <-> 0 <= h < 24 /\ 0 <= mi < 60 /\ 0 <= s < 60.
Proof.
  unfold is_valid_time; rewrite negb_true_iff, !orb_false_iff, !Z.ltb_ge; lia.
Qed.

Lemma time_of_day_ok n : 0 <= n < 86400 -> is_valid_time (n / 3600) (n mod 3600 / 60) (n mod 60) = true.
Proof. intros; apply valid_time_iff; lia. Qed.

(** Encoding a date. *)
Lemma posix_from_civil c : civil_ok c -> 0 <= year (civil_utc c) <= 9999 ->
  posix_time_from_utc (civil_utc c) = Some (civil_time c).
Proof.
  intros Hc HY; pose proof Hc as (Hy & Hm & Hk & Hs).
  assert (is_valid_date (year (civil_utc c)) (month (civil_utc c)) (day (civil_utc c)) = true) as Hd.
  { apply valid_date_iff; split; [exact HY|]; split; [cbn; case_if; bool_facts; lia|].
    rewrite (month_length_utc c Hm) by lia; exact Hk. }
  unfold posix_time_from_utc; rewrite Hd; cbn [hours minutes seconds civil_utc]; rewrite time_of_day_ok by lia; cbn [negb orb].
  f_equal; cbn [year month day civil_utc]; unfold civil_time, civil_days.
  change SECS_PER_DAY with 86400; change SECS_PER_HOUR with 3600.
  assert ((if (if c_month c <? 10 then c_month c + 3 else c_month c - 9) <=? 2
           then c_year c + c_era c * 400 + (if c_month c <? 10 then 0 else 1) - 1
           else c_year c + c_era c * 400 + (if c_month c <? 10 then 0 else 1)) = c_year c + c_era c * 400) as ->.
  { repeat case_if; bool_facts; lia. }
  assert (Z.quot (if 0 <=? c_year c + c_era c * 400 then c_year c + c_era c * 400 else c_year c + c_era c * 400 - 399) 400 = c_era c) as ->.
  { case_if; bool_facts; lia. }
  replace (c_year c + c_era c * 400 - c_era c * 400) with (c_year c) by lia.
  assert ((if 2 <? (if c_month c <? 10 then c_month c + 3 else c_month c - 9)
           then (if c_month c <? 10 then c_month c + 3 else c_month c - 9) - 3
           else (if c_month c <? 10 then c_month c + 3 else c_month c - 9) + 9) = c_month c) as ->.
  { repeat case_if; bool_facts; lia. }
  rewrite !Z.quot_div_nonneg by lia; unfold first_day, first_of_month; lia.
Qed.

Lemma posix_from_utc_inv u t : posix_time_from_utc u = Some t ->
  exists c, civil_ok c /\ 0 <= year (civil_utc c) <= 9999 /\ u = civil_utc c /\ t = civil_time c.
Proof.
  intros E; assert (is_valid_date (year u) (month u) (day u) = true /\ is_valid_time (hours u) (minutes u) (seconds u) = true) as [Hd Ht].
  { revert E; unfold posix_time_from_utc; destruct (is_valid_date _ _ _), (is_valid_time _ _ _); easy. }
  apply valid_date_iff in Hd as (HY & HM & HD); apply valid_time_iff in Ht as (Hh & Hmi & Hs).
  set (Y := if month u <=? 2 then year u - 1 else year u).
  set (c := {| c_era := Y / 400; c_year := Y mod 400; c_month := if 2 <? month u then month u - 3 else month u + 9;
               c_day := day u; c_sec := hours u * 3600 + minutes u * 60 + seconds u |}).
  assert (u = civil_utc c) as Eu.
  { destruct u as [yy mm dd hh mi ss]; unfold civil_utc, c, Y; cbn in *; f_equal; try lia;
      repeat case_if; bool_facts; lia. }
  assert (civil_ok c) as Hc.
  { assert (0 <= c_year c < 400 /\ 0 <= c_month c < 12) as [Hy Hm].
    { cbn; split; [apply Z.mod_pos_bound; lia|case_if; bool_facts; lia]. }
    split; [exact Hy|split; [exact Hm|split; [|cbn; lia]]].
    rewrite <- (month_length_utc c Hm), <- Eu by (rewrite <- Eu; lia); exact HD. }
  exists c; rewrite <- Eu; split; [exact Hc|split; [exact HY|split; [reflexivity|]]].
  rewrite Eu in E, HY; rewrite (posix_from_civil c Hc HY) in E; congruence.
Qed.

(** * Round trips *)

(** Coordinates are unique. *)
Lemma civil_time_inj c1 c2 : civil_ok c1 -> civil_ok c2 -> is_valid_epoch_time (civil_time c1) = true ->
  civil_time c1 = civil_time c2 -> civil_utc c1 = civil_utc c2.
Proof.
  intros H1 H2 Hv E; pose proof (utc_from_civil c1 H1 Hv) as E1; rewrite E in Hv; pose proof (utc_from_civil c2 H2 Hv) as E2; congruence.
Qed.

Lemma utc_posix_iff t u : utc_from_posix_time t = Some u <-> posix_time_from_utc u = Some t.
Proof.
  split.
  - destruct (civil_exists t) as (c & Hc & <-); destruct (is_valid_epoch_time (civil_time c)) eqn:Hv.
    + rewrite (utc_from_civil c Hc Hv); intros [= <-]; apply posix_from_civil; [exact Hc|].
      rewrite (civil_range c Hc) in Hv; bool_facts; lia.
    + unfold utc_from_posix_time; rewrite Hv; discriminate.
  - intros (c & Hc & HY & -> & ->)%posix_from_utc_inv; apply utc_from_civil; [exact Hc|].
    rewrite (civil_range c Hc), andb_true_iff, !Z.leb_le; lia.
Qed.

(** C8. The two conversions are inverse to each other: a time converts to a
    date exactly when that date converts to the time. Every time from year 0 to
    year 9999 has a date, and every valid date and time of day has a time in
    that range. *)
Theorem posix_utc_inverse t u :
  (utc_from_posix_time t = Some u <-> posix_time_from_utc u = Some t) /\
  (is_valid_epoch_time t = true <-> utc_from_posix_time t <> None) /\
  (is_valid_date (year u) (month u) (day u) && is_valid_time (hours u) (minutes u) (seconds u) = true <->
   posix_time_from_utc u <> None).
Proof.
  split; [apply utc_posix_iff|]; split.
  - unfold utc_from_posix_time; destruct (is_valid_epoch_time t); cbn [negb]; [|easy].
    split; [|easy]; intros _; case_if; discriminate.
  - unfold posix_time_from_utc; destruct (is_valid_date _ _ _), (is_valid_time _ _ _); cbn; easy.
Qed.

(** The day after a date. *)
Definition next_day (u : utc) : utc :=
  if day u <? days_in_month (year u) (month u)
  then {| year := year u; month := month u; day := day u + 1; hours := hours u; minutes := minutes u; seconds := seconds u |}
  else if month u <? 12
  then {| year := year u; month := month u + 1; day := 1; hours := hours u; minutes := minutes u; seconds := seconds u |}
  else {| year := year u + 1; month := 1; day := 1; hours := hours u; minutes := minutes u; seconds := seconds u |}.

Definition next_civil (c : civil) : civil :=
  let mk e y m k := {| c_era := e; c_year := y; c_month := m; c_day := k; c_sec := c_sec c |} in
  if c_day c <? month_length (c_year c) (c_month c) then mk (c_era c) (c_year c) (c_month c) (c_day c + 1)
  else if c_month c <? 11 then mk (c_era c) (c_year c) (c_month c + 1) 1
  else if c_year c <? 399 then mk (c_era c) (c_year c + 1) 0 1
  else mk (c_era c + 1) 0 0 1.

Lemma month_length_pos y m : 28 <= month_length y m.
Proof. unfold month_length; destruct (leap _); repeat case_if; cbn; lia. Qed.

Lemma next_civil_time c : civil_ok c -> civil_ok (next_civil c) /\ civil_time (next_civil c) = civil_time c + 86400.
Proof.
  intros (Hy & Hm & Hk & Hs); unfold next_civil; destruct (c_day c <? _) eqn:E1; bool_facts.
  { split; [repeat split; cbn; lia|unfold civil_time, civil_days; cbn; lia]. }
  pose proof (month_length_next (c_year c) (c_month c) Hm) as Hl.
  destruct (first_day_bounds _ Hy) as (_ & _ & Hn); destruct (year_ends _ Hy) as (_ & _ & He).
  destruct (c_month c <? 11) eqn:E2; bool_facts.
  { rewrite (proj2 (Z.eqb_neq _ _)) in Hl by lia; pose proof (month_length_pos (c_year c) (c_month c + 1)).
    split; [repeat split; cbn; lia|unfold civil_time, civil_days; cbn; lia]. }
  rewrite (proj2 (Z.eqb_eq (c_month c) 11)) in Hl by lia.
  destruct (c_year c <? 399) eqn:E3; bool_facts.
  - split; [repeat split; cbn; lia|]; unfold civil_time, civil_days; cbn [c_era c_year c_month c_day c_sec].
    change (first_of_month 0) with 0; lia.
  - assert (c_year c = 399) as Ey by lia; rewrite Ey in *; change (first_day 399) with 145731 in *; change (last_day 399) with 146096 in *.
    split; [repeat split; cbn; lia|]; unfold civil_time, civil_days; cbn [c_era c_year c_month c_day c_sec].
    rewrite Ey; change (first_day 399) with 145731; change (first_day 0) with 0; change (first_of_month 0) with 0; lia.
Qed.

Lemma next_civil_utc c : civil_ok c -> 0 <= year (civil_utc c) -> civil_utc (next_civil c) = next_day (civil_utc c).
Proof.
  intros Hc HY; pose proof Hc as (Hy & Hm & Hk & _); unfold next_day; rewrite (month_length_utc c Hm HY).
  change (day (civil_utc c)) with (c_day c); unfold next_civil; destruct (c_day c <? _) eqn:E1; [reflexivity|].
  unfold civil_utc; cbn [year month c_era c_year c_month c_day c_sec].
  destruct (c_month c <? 11) eqn:E2; [|destruct (c_year c <? 399) eqn:E3];
    cbn [c_era c_year c_month c_day c_sec hours minutes seconds]; repeat case_if; bool_facts; f_equal; lia.
Qed.

(** The conversion follows the Gregorian calendar: 1970-01-01 00:00:00
    is time 0, the next day of the calendar is 86400 seconds later, and within
    a day the time grows by the seconds of the clock. This fixes the time of
    every date. *)
Theorem posix_time_calendar u t : posix_time_from_utc u = Some t ->
  posix_time_from_utc {| year := 1970; month := 1; day := 1; hours := 0; minutes := 0; seconds := 0 |} = Some 0 /\
  (year (next_day u) <= 9999 -> posix_time_from_utc (next_day u) = Some (t + 86400)) /\
  posix_time_from_utc {| year := year u; month := month u; day := day u; hours := 0; minutes := 0; seconds := 0 |} =
    Some (t - (hours u * 3600 + minutes u * 60 + seconds u)).
Proof.
  intros E; split; [reflexivity|]; destruct (posix_from_utc_inv u t E) as (c & Hc & HY & -> & ->); split.
  - rewrite <- next_civil_utc by (auto; lia); intros HY'; destruct (next_civil_time c Hc) as [Hc' <-].
    apply posix_from_civil; [exact Hc'|]; split; [|exact HY'].
    rewrite next_civil_utc by (auto; lia); unfold next_day; repeat case_if; cbn [year]; lia.
  - set (c0 := {| c_era := c_era c; c_year := c_year c; c_month := c_month c; c_day := c_day c; c_sec := 0 |}).
    assert (civil_ok c0) as H0 by (destruct Hc as (? & ? & ? & ?); repeat split; cbn; lia).
    refine (eq_trans (posix_from_civil c0 H0 HY) _); f_equal; cbn [hours minutes seconds civil_utc].
    unfold civil_time, civil_days; cbn [c0 c_era c_year c_month c_day c_sec]; destruct Hc as (_ & _ & _ & ?); lia.
Qed.

Lemma posix_time_calendar_witness :
  posix_time_from_utc {| year := 2000; month := 3; day := 1; hours := 1; minutes := 2; seconds := 3 |} = Some (951786123 + 86400).
Proof.
  exact (proj1 (proj2 (posix_time_calendar {| year := 2000; month := 2; day := 29; hours := 1; minutes := 2; seconds := 3 |}
    951786123 eq_refl)) ltac:(vm_compute; congruence)).
Defined.

Lemma utc_of_tm_of_utc u : utc_of_tm (tm_of_utc u) = u.
Proof. destruct u; unfold utc_of_tm, tm_of_utc; cbn; f_equal; lia. Qed.

Lemma tm_of_utc_of_tm u : tm_of_utc (utc_of_tm u) = u.
Proof. destruct u; unfold utc_of_tm, tm_of_utc; cbn; f_equal; lia. Qed.

Lemma posix_time_range u t : posix_time_from_utc u = Some t -> -62167219200 <= t <= 253402300799.
Proof.
  intros E; apply utc_posix_iff in E; revert E; unfold utc_from_posix_time, is_valid_epoch_time.
  destruct (_ && _) eqn:E; [|discriminate]; bool_facts; lia.
Qed.

(** [OPENSSL_gmtime_diff] of two valid times always succeeds with a
    number of days and of seconds of the same sign, less than a day of the
    latter; and [OPENSSL_gmtime_adj] by them takes the first time to the
    second, without overflow. *)
Theorem gmtime_diff_adj from to t1 t2 : OPENSSL_tm_to_posix from = Some t1 -> OPENSSL_tm_to_posix to = Some t2 ->
  exists days secs, OPENSSL_gmtime_diff from to = Some (days, secs) /\
    t2 - t1 = days * SECS_PER_DAY + secs /\ Z.abs secs < SECS_PER_DAY /\ 0 <= days * secs /\
    OPENSSL_gmtime_adj from days secs = Some (Some to).
Proof.
  unfold OPENSSL_tm_to_posix; intros E1 E2; pose proof (posix_time_range _ _ E1); pose proof (posix_time_range _ _ E2).
  change SECS_PER_DAY with 86400; exists (Z.quot (t2 - t1) 86400), (Z.rem (t2 - t1) 86400).
  assert (t2 - t1 = Z.quot (t2 - t1) 86400 * 86400 + Z.rem (t2 - t1) 86400) as Eq by lia.
  split.
  { unfold OPENSSL_gmtime_diff; rewrite E1, E2; change SECS_PER_DAY with 86400.
    rewrite (proj2 (Z.ltb_ge _ _)), (proj2 (Z.ltb_ge _ _)) by (unfold_max; lia); reflexivity. }
  split; [exact Eq|]; split; [lia|]; split.
  { destruct (Z.le_gt_cases 0 (t2 - t1)); [apply Z.mul_nonneg_nonneg; lia|apply Z.mul_nonpos_nonpos; lia]. }
  unfold OPENSSL_gmtime_adj; rewrite E1; change SECS_PER_DAY with 86400; unfold in_int64.
  replace (t1 + Z.quot (t2 - t1) 86400 * 86400 + Z.rem (t2 - t1) 86400) with t2 by lia.
  rewrite !(proj2 (Z.leb_le _ _)), !(proj2 (Z.ltb_lt _ _)) by (pow2; lia); cbn [andb].
  apply utc_posix_iff in E2; rewrite E2; now rewrite tm_of_utc_of_tm.
Qed.

Lemma gmtime_diff_adj_witness :
  exists days secs,
    OPENSSL_gmtime_diff {| year := 70; month := 0; day := 2; hours := 0; minutes := 0; seconds := 0 |}
                        {| year := 70; month := 0; day := 1; hours := 1; minutes := 0; seconds := 0 |} = Some (days, secs) /\
    3600 - 86400 = days * SECS_PER_DAY + secs.
Proof.
  destruct (gmtime_diff_adj {| year := 70; month := 0; day := 2; hours := 0; minutes := 0; seconds := 0 |}
                            {| year := 70; month := 0; day := 1; hours := 1; minutes := 0; seconds := 0 |}
                            86400 3600 eq_refl eq_refl) as (days & secs & H1 & H2 & _).
  exists days, secs; auto.
Defined.

(** A seconds offset near the end of the range of [long] overflows. *)
Lemma gmtime_adj_overflow :
  OPENSSL_gmtime_adj {| year := 70; month := 0; day := 2; hours := 0; minutes := 0; seconds := 0 |} 0 (2 ^ 63 - 1) = None.
Proof. vm_compute; reflexivity. Qed.
