(* ===== verification/Asn1Time.v ===== *)
(** The times of certificates: CBS_parse_generalized_time and CBS_parse_utc_time
    of crypto/bytestring/cbs.c, over the calendar of PosixTime.v.

    The text of a time is the concatenation of its two-digit fields, and the
    readers accept exactly those texts. *)

From S2P Require Import Prelude Mem Cbs PosixTime.

Definition chr_Z_zone : Z := 90.
Definition chr_plus_zone : Z := 43.
Definition chr_minus_zone : Z := 45.

Definition cbs_get_two_digits : ST CBS Z :=
  let! first_digit := CBS_get_u8 in
  st_guard (OPENSSL_isdigit first_digit) ;;;
  let! second_digit := CBS_get_u8 in
  st_guard (OPENSSL_isdigit second_digit) ;;;
  st_ret ((first_digit - 48) * 10 + (second_digit - 48)).

Definition is_valid_day (year month day : Z) : bool :=
  if day <? 1 then false
  else if (month =? 1) || (month =? 3) || (month =? 5) || (month =? 7) || (month =? 8) || (month =? 10) || (month =? 12) then day <=? 31
  else if (month =? 4) || (month =? 6) || (month =? 9) || (month =? 11) then day <=? 30
  else if month =? 2 then
    if ((Z.rem year 4 =? 0) && negb (Z.rem year 100 =? 0)) || (Z.rem year 400 =? 0) then day <=? 29 else day <=? 28
  else false.

(** The year. *)
Definition get_year (is_gentime : bool) : ST CBS Z :=
  if is_gentime then
    let! century := cbs_get_two_digits in
    let! tmp := cbs_get_two_digits in
    st_ret (century * 100 + tmp)
  else
    let! tmp := cbs_get_two_digits in
    let year := if 1900 + tmp <? 1950 then 1900 + tmp + 100 else 1900 + tmp in
    st_guard (negb (2050 <=? year)) ;;;
    st_ret year.

(** The letter Z or, if it is allowed, an offset in seconds. *)
Definition get_zone (allow_timezone_offset : bool) : ST CBS Z :=
  let! tz := CBS_get_u8 in
  st_guard ((tz =? chr_Z_zone) || (tz =? chr_plus_zone) || (tz =? chr_minus_zone)) ;;;
  let offset_sign := if tz =? chr_Z_zone then 0 else if tz =? chr_plus_zone then 1 else -1 in
  if offset_sign =? 0 then st_ret 0
  else
    st_guard allow_timezone_offset ;;;
    let! offset_hours := cbs_get_two_digits in
    st_guard (negb (23 <? offset_hours)) ;;;
    let! offset_minutes := cbs_get_two_digits in
    st_guard (negb (59 <? offset_minutes)) ;;;
    st_ret (offset_sign * (offset_hours * 3600 + offset_minutes * 60)).

(** The fields as they are written, and the offset. *)
Definition get_time (is_gentime allow_timezone_offset : bool) : ST CBS (utc * Z) :=
  let! year := get_year is_gentime in
  let! month := cbs_get_two_digits in
  st_guard (negb (month <? 1) && negb (12 <? month)) ;;;
  let! day := cbs_get_two_digits in
  st_guard (is_valid_day year month day) ;;;
  let! hour := cbs_get_two_digits in
  st_guard (negb (23 <? hour)) ;;;
  let! min := cbs_get_two_digits in
  st_guard (negb (59 <? min)) ;;;
  let! sec := cbs_get_two_digits in
  st_guard (negb (59 <? sec)) ;;;
  let! offset_seconds := get_zone allow_timezone_offset in
  let! copy := st_get in
  st_guard (CBS_len copy =? 0) ;;;
  st_ret ({| year := year; month := month; day := day; hours := hour; minutes := min; seconds := sec |}, offset_seconds).

(** The return value and [*out_tm]; a [None] for [out_tm] is a NULL pointer, and an
    outer [None] is a signed overflow. *)
Definition CBS_parse_rfc5280_time_internal (cbs : CBS) (is_gentime allow_timezone_offset : bool) (out_tm : option utc) : option (bool * option utc) :=
  match fst (get_time is_gentime allow_timezone_offset cbs) with
  | None => Some (false, out_tm)
  | Some (u, offset_seconds) =>
      match out_tm with
      | None => Some (true, None)
      | Some _ =>
          let tm := tm_of_utc u in
          if offset_seconds =? 0 then Some (true, Some tm)
          else
            r ← OPENSSL_gmtime_adj tm 0 offset_seconds;
            match r with None => Some (false, Some tm) | Some tm => Some (true, Some tm) end
      end
  end.

Definition CBS_parse_generalized_time (cbs : CBS) (out_tm : option utc) (allow_timezone_offset : bool) : option (bool * option utc) :=
  CBS_parse_rfc5280_time_internal cbs true allow_timezone_offset out_tm.

Definition CBS_parse_utc_time (cbs : CBS) (out_tm : option utc) (allow_timezone_offset : bool) : option (bool * option utc) :=
  CBS_parse_rfc5280_time_internal cbs false allow_timezone_offset out_tm.

(** * The text of a time *)

Definition two_digits (n : Z) : list Z := [48 + n / 10; 48 + n mod 10].

Inductive time_zone : Type := Zulu | Offset (plus : bool) (hh mm : Z).

Definition zone_text (z : time_zone) : list Z :=
  match z with Zulu => [chr_Z_zone] | Offset plus hh mm => (if plus then chr_plus_zone else chr_minus_zone) :: two_digits hh ++ two_digits mm end.
Definition zone_seconds (z : time_zone) : Z :=
  match z with Zulu => 0 | Offset plus hh mm => (if plus then 1 else -1) * (hh * 3600 + mm * 60) end.
Definition zone_ok (allow : bool) (z : time_zone) : Prop :=
  match z with Zulu => True | Offset _ hh mm => allow = true /\ 0 <= hh < 24 /\ 0 <= mm < 60 end.

Definition year_text (is_gentime : bool) (y : Z) : list Z :=
  if is_gentime then two_digits (y / 100) ++ two_digits (y mod 100) else two_digits (y mod 100).
Definition time_text (is_gentime : bool) (u : utc) : list Z :=
  year_text is_gentime (year u) ++ two_digits (month u) ++ two_digits (day u) ++ two_digits (hours u) ++ two_digits (minutes u) ++ two_digits (seconds u).

(** A time that has a text: UTCTime has the years from 1950 to 2049. *)
Definition time_ok (is_gentime : bool) (u : utc) : Prop :=
  is_valid_date (year u) (month u) (day u) = true /\ is_valid_time (hours u) (minutes u) (seconds u) = true /\ (is_gentime = false -> 1950 <= year u < 2050).

(** * Reading it *)

Lemma digit_range c : OPENSSL_isdigit c = true <-> 48 <= c <= 57.
Proof. unfold OPENSSL_isdigit, in_range; rewrite andb_true_iff, !Z.leb_le; lia. Qed.

Lemma two_digits_read n rest : 0 <= n < 100 -> cbs_get_two_digits (two_digits n ++ rest) = (Some n, rest).
Proof.
  intros Hn; assert (0 <= n / 10 < 10) by (split; [apply Z.div_pos|apply Z.div_lt_upper_bound]; lia); pose proof (Z.mod_pos_bound n 10 ltac:(lia)).
  unfold cbs_get_two_digits, two_digits; cbn [app]; erewrite st_bind_some by apply CBS_get_u8_cons; rewrite st_guard_true by (apply digit_range; lia).
  erewrite st_bind_some by apply CBS_get_u8_cons; rewrite st_guard_true by (apply digit_range; lia).
  unfold st_ret; do 2 f_equal; rewrite (Z.div_mod n 10) at 3 by lia; lia.
Qed.

Lemma two_digits_inv cbs n rest : cbs_get_two_digits cbs = (Some n, rest) -> 0 <= n < 100 /\ cbs = two_digits n ++ rest.
Proof.
  unfold cbs_get_two_digits; intros H; apply st_bind_inv in H as (a & s1 & Ha & H); apply CBS_get_u8_inv in Ha as ->.
  apply st_bind_inv in H as ([] & s2 & Hg & H); apply st_guard_inv in Hg as [Ha%digit_range ->].
  apply st_bind_inv in H as (b & s3 & Hb & H); apply CBS_get_u8_inv in Hb as ->.
  apply st_bind_inv in H as ([] & s4 & Hg & H); apply st_guard_inv in Hg as [Hb%digit_range ->]; injection H as <- <-; split; [lia|].
  unfold two_digits; rewrite div_mul_add, mod_mul_add by lia; cbn [app]; do 2 f_equal; [lia|f_equal; lia].
Qed.

(** A call that reads a field [x] of two digits and the check [Hg] on it. *)
Ltac take_field H x Hx Hg :=
  let s := fresh "s" in let s' := fresh "s" in
  apply st_bind_inv in H as (x & s & Hx & H); apply two_digits_inv in Hx as [Hx ->];
  apply st_bind_inv in H as ([] & s' & Hg & H); apply st_guard_inv in Hg as [Hg ->].

Definition year_ok (is_gentime : bool) (y : Z) : Prop := if is_gentime then 0 <= y <= 9999 else 1950 <= y < 2050.

Lemma year_read g y rest : year_ok g y -> get_year g (year_text g y ++ rest) = (Some y, rest).
Proof.
  unfold year_ok, year_text, get_year; destruct g; intros Hy.
  - assert (0 <= y / 100 < 100) by (split; [apply Z.div_pos|apply Z.div_lt_upper_bound]; lia); pose proof (Z.mod_pos_bound y 100 ltac:(lia)).
    rewrite <- app_assoc; erewrite st_bind_some by (now apply two_digits_read); erewrite st_bind_some by (now apply two_digits_read).
    unfold st_ret; do 2 f_equal; rewrite (Z.div_mod y 100) at 3 by lia; lia.
  - pose proof (Z.mod_pos_bound y 100 ltac:(lia)); erewrite st_bind_some by (now apply two_digits_read).
    assert ((if 1900 + y mod 100 <? 1950 then 1900 + y mod 100 + 100 else 1900 + y mod 100) = y) as ->.
    { destruct (Z.lt_ge_cases y 2000); [assert (y mod 100 = y - 1900) as -> by (symmetry; apply (Z.mod_unique _ _ 19); lia)|
        assert (y mod 100 = y - 2000) as -> by (symmetry; apply (Z.mod_unique _ _ 20); lia)]; case_if; bool_facts; lia. }
    rewrite (proj2 (Z.leb_gt 2050 y)) by lia; now rewrite st_guard_true.
Qed.

Lemma year_inv g cbs y rest : get_year g cbs = (Some y, rest) -> year_ok g y /\ cbs = year_text g y ++ rest.
Proof.
  unfold get_year, year_ok, year_text; destruct g; intros H.
  - apply st_bind_inv in H as (a & s1 & Ha & H); apply two_digits_inv in Ha as [Ha ->]; apply st_bind_inv in H as (b & s2 & Hb & H); apply two_digits_inv in Hb as [Hb ->].
    injection H as <- <-; rewrite div_mul_add, mod_mul_add, <- app_assoc by lia; split; [lia|reflexivity].
  - apply st_bind_inv in H as (a & s1 & Ha & H); apply two_digits_inv in Ha as [Ha ->]; apply st_bind_inv in H as ([] & s2 & Hg & H); apply st_guard_inv in Hg as [Hg ->].
    injection H as <- <-; apply negb_true_iff, Z.leb_gt in Hg; revert Hg; case_if; bool_facts; intros Hg; (split; [lia|]); do 2 f_equal; [apply (Z.mod_unique _ _ 20)|apply (Z.mod_unique _ _ 19)]; lia.
Qed.

Lemma zone_read allow z : zone_ok allow z -> get_zone allow (zone_text z) = (Some (zone_seconds z), []).
Proof.
  destruct z as [|plus hh mm]; cbn [zone_ok zone_text zone_seconds]; [intros _; reflexivity|]; intros (-> & Hh & Hm); unfold get_zone.
  erewrite st_bind_some by apply CBS_get_u8_cons; rewrite st_guard_true by now destruct plus.
  assert ((if (if plus then chr_plus_zone else chr_minus_zone) =? chr_Z_zone then 0
    else if (if plus then chr_plus_zone else chr_minus_zone) =? chr_plus_zone then 1 else -1) = (if plus then 1 else -1)) as -> by now destruct plus.
  assert (((if plus then 1 else -1) =? 0) = false) as -> by now destruct plus.
  rewrite st_guard_true by reflexivity; erewrite st_bind_some by (apply two_digits_read; lia); rewrite st_guard_true by (rewrite (proj2 (Z.ltb_ge 23 hh)) by lia; reflexivity).
  rewrite <- (app_nil_r (two_digits mm)); erewrite st_bind_some by (apply two_digits_read; lia); now rewrite st_guard_true by (rewrite (proj2 (Z.ltb_ge 59 mm)) by lia; reflexivity).
Qed.

Lemma zone_inv allow cbs off rest : get_zone allow cbs = (Some off, rest) ->
  exists z, zone_ok allow z /\ off = zone_seconds z /\ cbs = zone_text z ++ rest.
Proof.
  unfold get_zone; intros H; apply st_bind_inv in H as (tz & s1 & Ha & H); apply CBS_get_u8_inv in Ha as ->.
  apply st_bind_inv in H as ([] & s2 & Hg & H); apply st_guard_inv in Hg as [Hg ->]; destruct (Z.eqb_spec tz chr_Z_zone) as [->|Hz].
  { injection H as <- <-; exists Zulu; easy. }
  assert (exists plus : bool, tz = (if plus then chr_plus_zone else chr_minus_zone) /\ (if tz =? chr_plus_zone then 1 else -1) = (if plus then 1 else -1)) as (plus & -> & Es).
  { destruct (Z.eqb_spec tz chr_plus_zone) as [->|Hp]; [exists true; easy|]; exists false; cbn [orb] in Hg; now apply Z.eqb_eq in Hg. }
  rewrite Es in H; assert (((if plus then 1 else -1) =? 0) = false) as E0 by (now destruct plus); rewrite E0 in H.
  apply st_bind_inv in H as ([] & s3 & Hal & H); apply st_guard_inv in Hal as [-> ->]; take_field H hh Hh Hg1; take_field H mm Hm Hg2; injection H as <- <-; bool_facts.
  exists (Offset plus hh mm); cbn [zone_ok zone_seconds zone_text app]; rewrite <- app_assoc; repeat split; lia.
Qed.

Lemma valid_day_date y m d : 0 <= y <= 9999 -> 1 <= m <= 12 -> is_valid_day y m d = is_valid_date y m d.
Proof.
  intros Hy Hm; unfold is_valid_day, is_valid_date, is_leap; rewrite (proj2 (Z.ltb_ge m 1)), (proj2 (Z.ltb_ge y 0)), (proj2 (Z.ltb_ge 9999 y)), !orb_false_r by lia.
  destruct (Z.ltb_spec d 1); [reflexivity|]; rewrite (proj2 (Z.ltb_lt 0 d)) by lia; reflexivity.
Qed.

Lemma time_read g allow u z : time_ok g u -> zone_ok allow z -> fst (get_time g allow (time_text g u ++ zone_text z)) = Some (u, zone_seconds z).
Proof.
  intros (Hd & Ht & Hg) Hz; pose proof Hd as (Hy & Hmo & Hday)%valid_date_iff; pose proof Ht as (Hh & Hmi & Hs)%valid_time_iff.
  assert (day u < 100) as Hday' by (unfold days_in_month in Hday; destruct (is_leap (year u)); cbn [Z.b2z] in Hday; repeat case_if; lia).
  assert (year_ok g (year u)) as Hyear by (unfold year_ok; destruct g; auto); unfold get_time, time_text; rewrite <- !app_assoc.
  erewrite st_bind_some by (now apply year_read); erewrite st_bind_some by (apply two_digits_read; lia).
  rewrite st_guard_true by (rewrite (proj2 (Z.ltb_ge (month u) 1)), (proj2 (Z.ltb_ge 12 (month u))) by lia; reflexivity).
  erewrite st_bind_some by (apply two_digits_read; lia); rewrite st_guard_true by (rewrite valid_day_date by lia; exact Hd).
  erewrite st_bind_some by (apply two_digits_read; lia); rewrite st_guard_true by (rewrite (proj2 (Z.ltb_ge 23 (hours u))) by lia; reflexivity).
  erewrite st_bind_some by (apply two_digits_read; lia); rewrite st_guard_true by (rewrite (proj2 (Z.ltb_ge 59 (minutes u))) by lia; reflexivity).
  erewrite st_bind_some by (apply two_digits_read; lia); rewrite st_guard_true by (rewrite (proj2 (Z.ltb_ge 59 (seconds u))) by lia; reflexivity).
  erewrite st_bind_some by (now apply zone_read); now destruct u.
Qed.

Lemma time_inv g allow cbs u off : fst (get_time g allow cbs) = Some (u, off) ->
  exists z, time_ok g u /\ zone_ok allow z /\ off = zone_seconds z /\ cbs = time_text g u ++ zone_text z.
Proof.
  destruct (get_time g allow cbs) as [r s'] eqn:H; cbn [fst]; intros ->; unfold get_time in H.
  apply st_bind_inv in H as (y & s1 & Hy & H); apply year_inv in Hy as [Hy ->].
  take_field H mo Hmo Hg1.  take_field H d Hd Hg2.  take_field H h Hh Hg3.  take_field H mi Hmi Hg4.  take_field H se Hse Hg5.
  apply st_bind_inv in H as (o & s7 & Ho & H); apply zone_inv in Ho as (z & Hz & -> & ->); apply st_bind_inv in H as (copy & s8 & [= <- <-] & H).
  apply st_bind_inv in H as ([] & s & Hg & H); apply st_guard_inv in Hg as [Hg%Z.eqb_eq ->]; injection H as <- <- <-; bool_facts.
  rewrite (zlen_0_nil _ Hg), app_nil_r; assert (0 <= y <= 9999) by (unfold year_ok in Hy; destruct g; lia); exists z; unfold time_ok, time_text; cbn [year month day hours minutes seconds].
  rewrite valid_day_date in Hg2 by lia; split; [|split; [exact Hz|split; [reflexivity|now rewrite <- !app_assoc]]].
  split; [exact Hg2|]; split; [apply valid_time_iff; lia|]; intros ->; exact Hy.
Qed.

(** The two readers. *)
Definition parse_time (is_gentime allow : bool) (cbs : CBS) (out_tm : option utc) : option (bool * option utc) :=
  if is_gentime then CBS_parse_generalized_time cbs out_tm allow else CBS_parse_utc_time cbs out_tm allow.

Lemma parse_time_unfold g allow cbs out : parse_time g allow cbs out = CBS_parse_rfc5280_time_internal cbs g allow out.
Proof. now destruct g. Qed.

Lemma adjusted u t off : posix_time_from_utc u = Some t -> -86400 <= off <= 86400 ->
  OPENSSL_gmtime_adj (tm_of_utc u) 0 off = Some (option_map tm_of_utc (utc_from_posix_time (t + off))).
Proof.
  intros Et Ho; pose proof (posix_time_range u t Et); unfold OPENSSL_gmtime_adj; rewrite utc_of_tm_of_utc, Et.
  replace (t + 0 * SECS_PER_DAY) with t by lia; unfold in_int64.
  rewrite !(proj2 (Z.leb_le _ _)), !(proj2 (Z.ltb_lt _ _)) by (pow2; lia); now destruct (utc_from_posix_time (t + off)).
Qed.

Lemma zone_bound allow z : zone_ok allow z -> -86400 <= zone_seconds z <= 86400.
Proof. destruct z as [|[] hh mm]; cbn [zone_ok zone_seconds]; lia. Qed.

(** C29. The times of certificates. A string is accepted exactly when it is the text of
    a date of the calendar and a time of day, with the letter Z or, where this
    is allowed, an offset of hours and minutes (UTCTime for the years from 1950
    to 2049, GeneralizedTime for those from 0 to 9999). The broken-down time that
    is returned is that of the text with the offset added, and the call fails
    when this leaves the years from 0 to 9999. *)
Theorem asn1_time_exact (is_gentime allow : bool) (cbs : CBS) :
  (parse_time is_gentime allow cbs None = Some (true, None) <->
   exists u z, time_ok is_gentime u /\ zone_ok allow z /\ cbs = time_text is_gentime u ++ zone_text z) /\
  (forall u z old, time_ok is_gentime u -> zone_ok allow z -> cbs = time_text is_gentime u ++ zone_text z ->
   exists t b tm, posix_time_from_utc u = Some t /\ parse_time is_gentime allow cbs (Some old) = Some (b, Some tm) /\
     (b = true <-> is_valid_epoch_time (t + zone_seconds z) = true) /\ (b = true -> OPENSSL_timegm 64 tm = Some (t + zone_seconds z))) /\
  (forall old, parse_time is_gentime allow cbs None = Some (false, None) -> parse_time is_gentime allow cbs (Some old) = Some (false, Some old)).
Proof.
  split; [|split].
  - rewrite parse_time_unfold; unfold CBS_parse_rfc5280_time_internal; destruct (fst (get_time is_gentime allow cbs)) as [[u off]|] eqn:E; split; try discriminate.
    + intros _; destruct (time_inv _ _ _ _ _ E) as (z & Hu & Hz & _ & Hc); eauto.
    + reflexivity.
    + intros (u & z & Hu & Hz & ->); rewrite time_read in E by assumption; discriminate.
  - intros u z old Hu Hz ->; rewrite parse_time_unfold; unfold CBS_parse_rfc5280_time_internal; rewrite time_read by assumption.
    assert (exists t, posix_time_from_utc u = Some t) as [t Et] by (destruct Hu as (Hd & Ht & _); unfold posix_time_from_utc; rewrite Hd, Ht; cbn [negb orb]; eauto).
    pose proof (posix_time_range u t Et) as Hr; exists t; unfold OPENSSL_timegm, OPENSSL_tm_to_posix; change (64 =? 32) with false; cbn [andb].
    destruct (Z.eqb_spec (zone_seconds z) 0) as [->|Hne].
    + rewrite Z.add_0_r; exists true, (tm_of_utc u); rewrite utc_of_tm_of_utc, Et; unfold is_valid_epoch_time; rewrite !(proj2 (Z.leb_le _ _)) by lia; easy.
    + rewrite (adjusted u t _ Et (zone_bound allow z Hz)); cbn [mbind option_bind]; destruct (utc_from_posix_time (t + zone_seconds z)) as [u'|] eqn:Eu; cbn [option_map].
      * exists true, (tm_of_utc u'); rewrite utc_of_tm_of_utc; apply utc_posix_iff in Eu as Ep; rewrite Ep; repeat (split; [easy|]); split; [|easy]; split; [|easy]; intros _.
        revert Eu; unfold utc_from_posix_time; now destruct (is_valid_epoch_time _).
      * exists false, (tm_of_utc u); repeat (split; [easy|]); split; [|discriminate]; split; [discriminate|]; intros Hv.
        revert Eu; unfold utc_from_posix_time; rewrite Hv; cbn [negb]; now case_if.
  - intros old; rewrite !parse_time_unfold; unfold CBS_parse_rfc5280_time_internal; now destruct (fst (get_time is_gentime allow cbs)) as [[u off]|].
Qed.

(** An offset counts in the wrong direction. For the local time 07:00 with the
    offset -0500, the example of X.680 for noon UTC, the reader returns 02:00. *)
Lemma time_offset_backwards :
  let noon := time_text false {| year := 1982; month := 1; day := 2; hours := 12; minutes := 0; seconds := 0 |} ++ zone_text Zulu in
  let local := time_text false {| year := 1982; month := 1; day := 2; hours := 7; minutes := 0; seconds := 0 |} ++ zone_text (Offset false 5 0) in
  let zero := {| year := 0; month := 0; day := 0; hours := 0; minutes := 0; seconds := 0 |} in
  CBS_parse_utc_time noon (Some zero) true = Some (true, Some {| year := 82; month := 0; day := 2; hours := 12; minutes := 0; seconds := 0 |}) /\
  CBS_parse_utc_time local (Some zero) true = Some (true, Some {| year := 82; month := 0; day := 2; hours := 2; minutes := 0; seconds := 0 |}).
Proof. split; vm_compute; reflexivity. Qed.
