(* ===== verification/Ber.v ===== *)
(** BER to DER conversion: crypto/bytestring/ber.c.

    The two recursive functions are loops that call themselves on the contents
    of an element. Both take fuel; an outer [None] says that it ran out, and
    the theorems show that one unit per byte of input (and one more) never
    does. The [CBB] that is written to is the shared chain of Cbb.v, [d] being
    the depth in it of the parameter [out]. *)

From S2P Require Import Prelude Mem Cbs Asn1 Der Cbb CbbSpec CbbDer CbbProgram.

Definition kMaxDepth : Z := 2048.

Definition CBS_ASN1_UTF8STRING : Z := 0xc.
Definition CBS_ASN1_NUMERICSTRING : Z := 0x12.
Definition CBS_ASN1_PRINTABLESTRING : Z := 0x13.
Definition CBS_ASN1_T61STRING : Z := 0x14.
Definition CBS_ASN1_VIDEOTEXSTRING : Z := 0x15.
Definition CBS_ASN1_IA5STRING : Z := 0x16.
Definition CBS_ASN1_GRAPHICSTRING : Z := 0x19.
Definition CBS_ASN1_VISIBLESTRING : Z := 0x1a.
Definition CBS_ASN1_GENERALSTRING : Z := 0x1b.
Definition CBS_ASN1_UNIVERSALSTRING : Z := 0x1c.
Definition CBS_ASN1_BMPSTRING : Z := 0x1e.

Definition is_string_type (tag : Z) : bool :=
  existsb (Z.eqb (Z.land tag not_constructed))
    [CBS_ASN1_OCTETSTRING; CBS_ASN1_UTF8STRING; CBS_ASN1_NUMERICSTRING;
     CBS_ASN1_PRINTABLESTRING; CBS_ASN1_T61STRING; CBS_ASN1_VIDEOTEXSTRING;
     CBS_ASN1_IA5STRING; CBS_ASN1_GRAPHICSTRING; CBS_ASN1_VISIBLESTRING;
     CBS_ASN1_GENERALSTRING; CBS_ASN1_UNIVERSALSTRING; CBS_ASN1_BMPSTRING].

(** [tag & CBS_ASN1_CONSTRUCTED]. *)
Definition is_constructed (tag : Z) : bool := negb (Z.land tag CBS_ASN1_CONSTRUCTED =? 0).

(** [Some (Some found)] when the function returns one with [*ber_found] set to
    [found], [Some None] when it returns zero. The argument [found] is the
    value of [*ber_found] when the loop comes round; the test of [depth],
    which the code makes on entry, has the same outcome each time. *)
Fixpoint cbs_find_ber (fuel : nat) (found : bool) (depth : Z) (inp : CBS) : option (option bool) :=
  match fuel with
  | O => None
  | S fuel =>
      if kMaxDepth <? depth then Some None
      else if CBS_len inp =? 0 then Some (Some found)
      else match CBS_get_any_ber_asn1_element inp with
      | (None, _) => Some None
      | (Some e, inp) =>
          if el_ber_found e then Some (Some true)
          else if is_constructed (el_tag e) then
            if is_string_type (el_tag e) then Some (Some true)
            else match CBS_skip (el_header_len e) (el_out e) with
                 | (None, _) => Some None
                 | (Some _, contents) =>
                     match cbs_find_ber fuel false (depth + 1) contents with
                     | Some (Some found) => cbs_find_ber fuel found depth inp
                     | r => r
                     end
                 end
          else cbs_find_ber fuel false depth inp
      end
  end.

Definition cbs_get_eoc (cbs : CBS) : option CBS :=
  if (2 <=? CBS_len cbs) && (znth cbs 0 =? 0) && (znth cbs 1 =? 0)
  then Some (snd (CBS_skip 2 cbs)) else None.

Section Convert.
  Context `{Allocator}.

(** Chooses where the contents of an element with tag [tag] go: to [out]
    itself inside a constructed string, otherwise to a new child of [out]. The
    result is the depth of [out_contents] and [child_string_tag]. *)
Definition convert_open (d : nat) (string_tag tag : Z) : ST CBB (nat * Z) :=
  if negb (string_tag =? 0) then
    st_guard (Z.land tag not_constructed =? string_tag) ;;; st_ret (d, string_tag)
  else
    let constructed_string := is_constructed tag && is_string_type tag in
    let out_tag := if constructed_string then Z.land tag not_constructed else tag in
    let child_string_tag := if constructed_string then out_tag else string_tag in
    let! child := CBB_add_asn1 d out_tag in
    st_ret (child, child_string_tag).

(** [Some (ok, in, out)]: the result and the two arguments afterwards. *)
Fixpoint cbs_convert_ber (fuel : nat) (d : nat) (string_tag : Z) (looking_for_eoc : bool)
    (depth : Z) (inp : CBS) (out : CBB) : option (bool * CBS * CBB) :=
  match fuel with
  | O => None
  | S fuel =>
      if kMaxDepth <? depth then Some (false, inp, out)
      else if CBS_len inp =? 0 then Some (negb looking_for_eoc, inp, out)
      else match (if looking_for_eoc then cbs_get_eoc inp else None) with
      | Some inp => Some (true, inp, out)
      | None =>
          match CBS_get_any_ber_asn1_element inp with
          | (None, inp) => Some (false, inp, out)
          | (Some e, inp) =>
              match convert_open d string_tag (el_tag e) out with
              | (None, out) => Some (false, inp, out)
              | (Some (out_contents, child_string_tag), out) =>
                  let converted :=
                    if el_indefinite e then
                      cbs_convert_ber fuel out_contents child_string_tag true (depth + 1) inp out
                    else match CBS_skip (el_header_len e) (el_out e) with
                    | (None, _) => Some (false, inp, out)
                    | (Some _, contents) =>
                        if is_constructed (el_tag e) then
                          match cbs_convert_ber fuel out_contents child_string_tag false
                                  (depth + 1) contents out with
                          | Some (ok, _, out) => Some (ok, inp, out)
                          | None => None
                          end
                        else
                          match CBB_add_bytes out_contents contents out with
                          | (r, out) => Some (bool_decide (r = Some tt), inp, out)
                          end
                    end in
                  match converted with
                  | Some (true, inp, out) =>
                      match CBB_flush d out with
                      | (None, out) => Some (false, inp, out)
                      | (Some _, out) =>
                          cbs_convert_ber fuel d string_tag looking_for_eoc depth inp out
                      end
                  | r => r
                  end
              end
          end
      end
  end.

(** One unit of fuel per byte, and one to see that nothing is left. *)
Definition ber_fuel (inp : CBS) : nat := S (length inp).

(** [Some (r, in)]: [r] is [Some (out, out_storage)] when the function returns
    one. *)
Definition CBS_asn1_ber_to_der (inp : CBS) : option (option (CBS * option (list Z)) * CBS) :=
  match cbs_find_ber (ber_fuel inp) false 0 inp with
  | None => None
  | Some None => Some (None, inp)
  | Some (Some false) =>
      match CBS_get_any_asn1_element inp with
      | (None, inp) => Some (None, inp)
      | (Some e, inp) => Some (Some (el_out e, None), inp)
      end
  | Some (Some true) =>
      match CBB_init (CBS_len inp) with
      | None => Some (None, inp)
      | Some cbb =>
          match cbs_convert_ber (ber_fuel inp) 0 0 false 0 inp cbb with
          | None => None
          | Some (false, inp, _) => Some (None, inp)
          | Some (true, inp, cbb) =>
              match CBB_finish cbb with
              | (None, _) => Some (None, inp)
              | (Some storage, _) => Some (Some (CBS_init storage (zlen storage), Some storage), inp)
              end
          end
      end
  end.

(** The loop of [CBS_get_asn1_implicit_string] over the chunks of a
    constructed string. *)
Fixpoint implicit_string_loop (fuel : nat) (inner_tag : Z) (child : CBS) : ST CBB unit := fun result =>
  match fuel with
  | O => (None, result)
  | S fuel =>
      if CBS_len child =? 0 then (Some tt, result)
      else match CBS_get_asn1 inner_tag child with
           | (None, _) => (None, result)
           | (Some chunk, child) =>
               (CBB_add_bytes 0 chunk ;;; implicit_string_loop fuel inner_tag child) result
           end
  end.

(** The result is ([*out], [*out_storage]). *)
Definition CBS_get_asn1_implicit_string (outer_tag inner_tag : Z) : ST CBS (CBS * option (list Z)) := fun inp =>
  if CBS_peek_asn1_tag inp outer_tag then
    (let! out := CBS_get_asn1 outer_tag in st_ret (out, None)) inp
  else
    match CBB_init (CBS_len inp) with
    | None => (None, inp)
    | Some result =>
        match CBS_get_asn1 (Z.lor outer_tag CBS_ASN1_CONSTRUCTED) inp with
        | (None, inp) => (None, inp)
        | (Some child, inp) =>
            match (implicit_string_loop (ber_fuel child) inner_tag child ;;; CBB_finish) result with
            | (None, _) => (None, inp)
            | (Some data, _) => (Some (CBS_init data (zlen data), Some data), inp)
            end
        end
    end.
End Convert.
