(* ===== verification/BerSpec.v ===== *)
(** What the conversion of ber.c promises: it always ends, what it writes is
    DER, DER is left alone, and the DER of a tree of elements is what becomes
    of any mixture of definite and indefinite encodings of it. *)

From S2P Require Import Prelude Mem Cbs Asn1 Der Cbb CbbSpec CbbDer CbbProgram Ber.

(** * BER elements *)

(** A header takes two octets or more, all of them inside the element. *)
Lemma ber_header_facts (cbs rest : CBS) h :
  bytes cbs -> asn1_header true (CBS_len cbs) cbs = (Some h, rest) ->
  valid_tag (h_tag h) /\ 2 <= h_header_len h <= h_len h /\ h_len h < 2 ^ 64 /\
  (h_indefinite h = true -> h_len h = h_header_len h /\ is_constructed (h_tag h) = true).
Proof.
  intros Hb H; unfold asn1_header in H.
  apply st_bind_inv in H as (tag & s & Ht & H); apply parse_asn1_tag_inv in Ht as [Hv Ec]; [|auto].
  apply st_bind_inv in H as (lb & s' & Hlb & H); apply CBS_get_u8_inv in Hlb as ->.
  assert (bytes (lb :: s')) as Hb' by (rewrite Ec, bytes_app in Hb; tauto).
  inversion_clear Hb' as [|? ? Hlb Hs'].
  erewrite st_bind_some in H by reflexivity; cbv beta in H; rewrite land_high_bit in H by auto.
  pose proof (zlen_asn1_tag_octets tag) as Htl; unfold byte in Hlb.
  assert (CBS_len cbs - CBS_len s' = zlen (asn1_tag_octets tag) + 1) as El by
    (unfold CBS_len; rewrite Ec, zlen_app, zlen_cons; lia).
  rewrite El in H; destruct (Z.ltb_spec lb 128) as [Hs|Hl].
  - injection H as <- <-; cbn [h_tag h_len h_header_len h_indefinite].
    rewrite uw_small by (pow2; lia); split; [auto|split; [lia|split; [pow2; lia|discriminate]]].
  - change 0x7f with (2 ^ 7 - 1) in H; rewrite land_low in H by lia.
    assert (lb mod 2 ^ 7 = lb - 128) as E by
      (replace lb with (1 * 2 ^ 7 + (lb - 128)) at 1 by lia; apply mod_mul_add; lia).
    rewrite E in H; case_if.
    + injection H as <- <-; cbn [h_tag h_len h_header_len h_indefinite]; bool_facts.
      unfold is_constructed; split; [auto|split; [lia|split; [pow2; lia|]]].
      intros _; split; [auto|]; now apply negb_true_iff, Z.eqb_neq.
    + st_inv H; bool_facts; cbn [h_tag h_len h_header_len h_indefinite].
      apply cbs_get_u_inv in Hm0 as (data & -> & Hd & ->); [|lia|auto].
      apply bytes_app in Hs' as [Hdata _].
      pose proof (be_val_nonneg data Hdata); pose proof (be_val_bound data Hdata).
      assert (256 ^ zlen data <= 256 ^ 4) by (apply Z.pow_le_mono_r; lia).
      change (256 ^ 4) with (2 ^ 32) in *.
      rewrite uw_small by (pow2; lia); split; [auto|split; [lia|split; [pow2; lia|discriminate]]].
Qed.

(** An element of BER data: its header, its contents (empty when its length is
    indefinite) and what follows. *)
Lemma any_ber_element_inv (inp rest : CBS) e :
  bytes inp -> CBS_get_any_ber_asn1_element inp = (Some e, rest) ->
  valid_tag (el_tag e) /\
  exists hdr contents, inp = hdr ++ contents ++ rest /\ 2 <= zlen hdr /\
    CBS_skip (el_header_len e) (el_out e) = (Some tt, contents) /\
    (el_indefinite e = true -> contents = [] /\ is_constructed (el_tag e) = true).
Proof.
  intros Hb H; unfold CBS_get_any_ber_asn1_element, cbs_get_any_asn1_element in H.
  destruct (asn1_header true (CBS_len inp) inp) as [[h|] s] eqn:Eh; [|discriminate].
  apply ber_header_facts in Eh as (Hv & Hl & Hmax & Hi); [|auto].
  st_inv H; apply CBS_get_bytes_inv in Hm as [-> Ho]; [|lia].
  cbn [el_tag el_header_len el_out el_indefinite]; split; [auto|].
  exists (ztake (h_header_len h) a), (zdrop (h_header_len h) a).
  rewrite app_assoc, ztake_zdrop, zlen_ztake by lia.
  split; [auto|split; [lia|split]].
  - unfold CBS_skip; rewrite <- (ztake_zdrop (h_header_len h) a) at 1.
    now erewrite st_bind_some by (apply cbs_get_app; rewrite zlen_ztake; lia).
  - intros Hind; destruct (Hi Hind) as [E ?]; split; [|auto]; apply zdrop_all; lia.
Qed.

Lemma clear_constructed_valid tag : valid_tag tag -> valid_tag (Z.land tag not_constructed).
Proof.
  intros [Hr Hnz]; split.
  - apply (land_small tag not_constructed 32); vm_compute; easy.
  - now rewrite <- Z.land_assoc, Z.land_diag.
Qed.


Lemma cbs_get_eoc_inv (inp rest : CBS) : cbs_get_eoc inp = Some rest -> inp = [0; 0] ++ rest.
Proof.
  unfold cbs_get_eoc; case_if; [|discriminate]; intros [= <-]; bool_facts.
  destruct inp as [|a [|b l]]; [vm_compute in H; congruence|vm_compute in H; congruence|].
  change (znth (a :: b :: l) 0) with a in *; change (znth (a :: b :: l) 1) with b in *; subst a b.
  pose proof (cbs_get_app [0; 0] l 2 eq_refl) as E.
  cbn [app] in *; unfold CBS_skip, st_bind; now rewrite E.
Qed.

(** * The conversion as a function on byte strings *)

(** Where the contents of an element go: the tag of the element they are
    wrapped in, if any, and the string tag their elements must have. *)
Definition element_plan (string_tag tag : Z) : option (option Z * Z) :=
  if negb (string_tag =? 0) then
    if Z.land tag not_constructed =? string_tag then Some (None, string_tag) else None
  else if is_constructed tag && is_string_type tag
  then Some (Some (Z.land tag not_constructed), Z.land tag not_constructed)
  else Some (Some tag, string_tag).

Definition wrap (header : option Z) (body : list Z) : option (list Z) :=
  match header with
  | None => Some body
  | Some tag => if zlen body <=? 0xfffffffe then Some (asn1_tlv tag body) else None
  end.

(** The contents of an element, converted by [conv] if it has parts: those of
    an element of indefinite length are what follows up to its end marker. *)
Definition convert_contents (conv : bool -> CBS -> option (option (list Z * CBS)))
    (indefinite constructed : bool) (contents rest : CBS) : option (option (list Z * CBS)) :=
  if indefinite then conv true rest
  else if constructed then
    match conv false contents with
    | Some (Some (body, _)) => Some (Some (body, rest))
    | r => r
    end
  else Some (Some (contents, rest)).

(** [Some (Some (bytes, rest))]: the DER bytes written and the input left. *)
Fixpoint convert_bytes (fuel : nat) (string_tag : Z) (eoc : bool) (depth : Z) (inp : CBS) :
    option (option (list Z * CBS)) :=
  match fuel with
  | O => None
  | S fuel =>
      if kMaxDepth <? depth then Some None
      else if CBS_len inp =? 0 then Some (if eoc then None else Some ([], inp))
      else match (if eoc then cbs_get_eoc inp else None) with
      | Some inp => Some (Some ([], inp))
      | None =>
          match CBS_get_any_ber_asn1_element inp with
          | (None, _) => Some None
          | (Some e, inp) =>
              match element_plan string_tag (el_tag e) with
              | None => Some None
              | Some (header, child_string_tag) =>
                  let converted :=
                    match CBS_skip (el_header_len e) (el_out e) with
                    | (None, _) => Some None
                    | (Some _, contents) =>
                        convert_contents
                          (fun eoc => convert_bytes fuel child_string_tag eoc (depth + 1))
                          (el_indefinite e) (is_constructed (el_tag e)) contents inp
                    end in
                  match converted with
                  | Some (Some (body, inp)) =>
                      match wrap header body with
                      | None => Some None
                      | Some out =>
                          match convert_bytes fuel string_tag eoc depth inp with
                          | Some (Some (outs, rest)) => Some (Some (out ++ outs, rest))
                          | r => r
                          end
                      end
                  | r => r
                  end
              end
          end
      end
  end.

(** A conversion of [inp] ends, and what it leaves is a suffix of [inp]. *)
Definition leaves_suffix (inp : CBS) (b : option (option (list Z * CBS))) : Prop :=
  exists r, b = Some r /\ forall out rest, r = Some (out, rest) -> exists used, inp = used ++ rest.

Lemma leaves_none inp : leaves_suffix inp (Some None).
Proof. eexists; split; [reflexivity|discriminate]. Qed.

Lemma leaves_some inp used out rest : inp = used ++ rest -> leaves_suffix inp (Some (Some (out, rest))).
Proof. intros ->; eexists; split; [reflexivity|]; intros ? ? [= <- <-]; eauto. Qed.

Lemma leaves_shorter inp b : leaves_suffix inp b ->
  forall out rest, b = Some (Some (out, rest)) -> zlen rest <= zlen inp.
Proof. intros (r & -> & Hr) out rest [= ->]; destruct (Hr out rest eq_refl) as (used & ->); zl. Qed.

Lemma contents_suffix conv indefinite constructed contents rest :
  leaves_suffix rest (conv true rest) -> leaves_suffix contents (conv false contents) ->
  leaves_suffix rest (convert_contents conv indefinite constructed contents rest).
Proof.
  intros Hr Hc; unfold convert_contents; destruct indefinite; [auto|].
  destruct constructed; [|now apply (leaves_some _ [])].
  destruct Hc as ([[body ?]|] & -> & _); [now apply (leaves_some _ [])|apply leaves_none].
Qed.

(** Fuel above the length of the input is enough. *)
Lemma convert_bytes_total fuel : forall string_tag eoc depth inp,
  bytes inp -> (length inp < fuel)%nat ->
  leaves_suffix inp (convert_bytes fuel string_tag eoc depth inp).
Proof.
  induction fuel as [|fuel IH]; intros st eoc depth inp Hb Hf; [lia|]; cbn [convert_bytes].
  case_if; [apply leaves_none|].
  case_if; [destruct eoc; [apply leaves_none|now apply (leaves_some _ [])]|].
  destruct (if eoc then cbs_get_eoc inp else None) as [inp'|] eqn:Ee.
  { destruct eoc; [apply cbs_get_eoc_inv in Ee as ->|discriminate]; now apply (leaves_some _ [0; 0]). }
  destruct (CBS_get_any_ber_asn1_element inp) as [[e|] rest] eqn:Eel; [|apply leaves_none].
  apply any_ber_element_inv in Eel as (_ & hdr & contents & -> & Hh & Hskip & _); [|auto].
  apply bytes_app in Hb as [_ Hb]; apply bytes_app in Hb as [Hbc Hbr].
  assert (length contents + length rest + 2 < S fuel)%nat as Hlen by
    (rewrite !length_app in Hf; unfold zlen in Hh; lia).
  destruct (element_plan st (el_tag e)) as [[header child]|]; [|apply leaves_none].
  rewrite Hskip; destruct (contents_suffix (fun eoc => convert_bytes fuel child eoc (depth + 1))
    (el_indefinite e) (is_constructed (el_tag e)) contents rest) as (r & -> & Hr); [apply IH; auto; lia..|].
  destruct r as [[body inp1]|]; [|apply leaves_none].
  destruct (Hr body inp1 eq_refl) as (used & ->); destruct (wrap header body); [|apply leaves_none].
  apply bytes_app in Hbr as [_ Hbr]; rewrite length_app in Hlen.
  destruct (IH st eoc depth inp1 Hbr ltac:(lia)) as ([[outs rest1]|] & -> & Hrest); [|apply leaves_none].
  destruct (Hrest outs rest1 eq_refl) as (used1 & ->).
  apply (leaves_some _ (hdr ++ contents ++ used ++ used1)); now rewrite <- !app_assoc.
Qed.

(** * The code writes what the function says *)

Section Refinement.
  Context `{Allocator}.
  Implicit Types (cbb : CBB) (B : builder).

(** The call that ended with [ok] and [cbb'] implements [spec]; a call that
    fails may have stopped before it wrote anything. *)
Definition writes (cost : Z) (spec : option builder) cbb B (ok : bool) cbb' : Prop :=
  if ok then refines cost tt spec cbb B (Some tt, cbb')
  else spec = None \/ (growable (cbb_base cbb) -> 2 ^ 64 <= phi cbb B + cost).

(** Two steps of which the first has succeeded, and of which it has failed. *)
Lemma writes_trans {A} c1 c2 (v1 : A) s1 s2 cbb B cbb1 ok cbb2 :
  0 <= c2 -> refines c1 v1 s1 cbb B (Some v1, cbb1) ->
  (forall B1, s1 = Some B1 -> represents cbb1 B1 -> writes c2 (s2 B1) cbb1 B1 ok cbb2) ->
  writes (c1 + c2) (s1 ≫= s2) cbb B ok cbb2.
Proof.
  intros Hc (_ & Hr & B1 & Es & HR & Hphi) Hk; specialize (Hk B1 Es HR); rewrite Es; cbn.
  destruct ok; cbn in *.
  - destruct Hk as (_ & Hr2 & B2 & E2 & HR2 & Hphi2).
    split; [auto|split; [congruence|exists B2; split; [auto|split; [auto|lia]]]].
  - destruct Hk as [Hk|Hk]; auto; right; intros [Hg1 Hg2].
    assert (growable (cbb_base cbb1)) by (split; congruence); specialize (Hk ltac:(auto)); lia.
Qed.

Lemma writes_stop {A} c1 c2 (v1 : A) s1 s2 cbb B cbb1 cbb2 :
  0 <= c2 -> refines c1 v1 s1 cbb B (None, cbb1) -> writes (c1 + c2) (s1 ≫= s2) cbb B false cbb2.
Proof.
  intros Hc (_ & Hm); cbn; destruct Hm as [-> |Hm]; [auto|].
  right; intros Hg; specialize (Hm Hg); lia.
Qed.

Lemma writes_of_refines c (r : option unit * CBB) s cbb B :
  refines c tt s cbb B r -> writes c s cbb B (bool_decide (fst r = Some tt)) (snd r).
Proof.
  destruct r as [[[]|] cbb']; cbn [fst snd].
  - now rewrite bool_decide_eq_true_2.
  - rewrite bool_decide_eq_false_2 by discriminate; now intros [_ ?].
Qed.

Lemma writes_ext c1 c2 s1 s2 cbb B ok cbb' :
  c1 <= c2 -> s1 = s2 -> writes c1 s1 cbb B ok cbb' -> writes c2 s2 cbb B ok cbb'.
Proof.
  intros Hc <-; destruct ok; cbn [writes]; [now apply refines_ext|].
  intros [?|Hg]; auto; right; intros G; specialize (Hg G); lia.
Qed.

Definition opened d (header : option Z) B : option builder :=
  match header with
  | None => b_add d [] B
  | Some tag => b_add d (asn1_tag_octets tag) B ≫= fun B => Some (b_child PAsn1 B)
  end.

Definition depth_in (d : nat) (header : option Z) : nat := match header with None => d | Some _ => S d end.

Lemma opened_open d header B B1 : length (b_open B) = d -> opened d header B = Some B1 ->
  length (b_open B1) = depth_in d header.
Proof.
  intros Ho; destruct header as [tag|]; cbn [opened depth_in].
  - destruct (b_add d (asn1_tag_octets tag) B) as [B0|] eqn:E0; [|discriminate]; cbn; intros [= <-]; cbn.
    rewrite length_app, (b_add_open _ _ _ _ E0) by lia; cbn; lia.
  - intros E; apply b_add_open in E; lia.
Qed.

(** The element written is the wrapped body. *)
Lemma wrap_spec d header body B : length (b_open B) = d ->
  ((opened d header B ≫= b_add (depth_in d header) body) ≫= b_flush d) =
  match wrap header body with Some out => b_add d out B | None => None end.
Proof.
  intros Ho; destruct header as [tag|]; cbn [opened depth_in wrap].
  - rewrite b_tlv by lia; now case_if.
  - rewrite b_add_add by lia; cbn [app].
    destruct (b_add d body B) as [B1|] eqn:E; cbn; [|reflexivity].
    apply b_flush_top; apply b_add_open in E; lia.
Qed.

Lemma convert_open_spec d string_tag tag header child cbb B :
  represents cbb B -> length (b_open B) = d -> valid_tag tag ->
  element_plan string_tag tag = Some (header, child) ->
  refines 16 (depth_in d header, child) (opened d header B) cbb B (convert_open d string_tag tag cbb).
Proof.
  intros HR Ho Hv; unfold element_plan, convert_open; destruct (negb (string_tag =? 0)).
  - destruct (Z.land tag not_constructed =? string_tag); [|discriminate]; intros [= <- <-].
    rewrite st_guard_true by auto; apply (refines_cost 0); [lia|]; now apply st_ret_refines.
  - assert (forall t, 0 <= t < 2 ^ 32 -> refines 16 (S d, child) (opened d (Some t) B) cbb B
      ((let! c := CBB_add_asn1 d t in st_ret (c, child)) cbb)) as Hc.
    { intros t Ht; pose proof (CBB_add_asn1_spec d t cbb B HR ltac:(lia) Ht) as Hs.
      unfold st_bind; destruct (CBB_add_asn1 d t cbb) as [[c|] cbb1]; [|exact Hs].
      destruct Hs as (-> & Hs); split; auto. }
    pose proof (clear_constructed_valid tag Hv) as [Hcv _].
    destruct (is_constructed tag && is_string_type tag); intros [= <- <-]; apply Hc; auto; apply Hv.
Qed.

Lemma convert_open_none d string_tag tag cbb :
  element_plan string_tag tag = None -> convert_open d string_tag tag cbb = (None, cbb).
Proof.
  unfold element_plan, convert_open; destruct (negb (string_tag =? 0)); [|now case_if].
  destruct (Z.land tag not_constructed =? string_tag); [discriminate|reflexivity].
Qed.

(** What one call of [cbs_convert_ber] does, given the outcome of
    [convert_bytes] on the same input. *)
Definition call_spec (d : nat) (inp : CBS) cbb B
    (r : option (bool * CBS * CBB)) (b : option (option (list Z * CBS))) : Prop :=
  exists ok inp' cbb' out, r = Some (ok, inp', cbb') /\ b = Some out /\
    match out with
    | Some (bs, rest) => writes (16 * (zlen inp - zlen rest)) (b_add d bs B) cbb B ok cbb' /\
                         (ok = true -> inp' = rest)
    | None => ok = false
    end.

Lemma call_fail d inp inp' cbb cbb' B : call_spec d inp cbb B (Some (false, inp', cbb')) (Some None).
Proof. exists false, inp', cbb', None; split; [auto|split; auto]. Qed.

Lemma call_done d inp inp' cbb B : represents cbb B -> length (b_open B) = d -> zlen inp' <= zlen inp ->
  call_spec d inp cbb B (Some (true, inp', cbb)) (Some (Some ([], inp'))).
Proof.
  intros HR Ho Hl; exists true, inp', cbb, (Some ([], inp')); split; [auto|split; [auto|split; [|auto]]].
  apply (refines_cost 0); [lia|]; now apply st_ret_refines.
Qed.

(** A failure after the steps [s1], where [s2] is what would have followed. *)
Lemma call_stop d inp inp' cbb cbb' cbb1 B c1 s1 out :
  writes c1 s1 cbb B false cbb1 ->
  (forall bs rest, out = Some (bs, rest) -> c1 <= 16 * (zlen inp - zlen rest) /\
     exists s2, b_add d bs B = s1 ≫= s2) ->
  call_spec d inp cbb B (Some (false, inp', cbb')) (Some out).
Proof.
  intros Hw Hs; exists false, inp', cbb', out; split; [auto|split; [auto|]].
  destruct out as [[bs rest]|]; [|auto]; destruct (Hs bs rest eq_refl) as (Hc & s2 & E).
  split; [|discriminate]; cbn in *; rewrite E; destruct Hw as [-> |Hw]; [now left|].
  right; intros G; specialize (Hw G); lia.
Qed.

(** The part of an iteration that follows the opening of an element: [r1] and
    [b1] are the outcomes for its contents, [loop] and [bloop] what the rest
    of the loop does. *)
Lemma convert_element_spec d header inp body_in cbb B cbb1 r1 b1 (v : nat * Z)
    (loop : CBS -> CBB -> option (bool * CBS * CBB)) (bloop : CBS -> option (option (list Z * CBS))) :
  length (b_open B) = d -> 1 + zlen body_in <= zlen inp ->
  refines 16 v (opened d header B) cbb B (Some v, cbb1) ->
  (forall B1, represents cbb1 B1 -> length (b_open B1) = depth_in d header ->
     call_spec (depth_in d header) body_in cbb1 B1 r1 b1) ->
  (forall body rest1, b1 = Some (Some (body, rest1)) -> zlen rest1 <= zlen body_in /\
     leaves_suffix rest1 (bloop rest1) /\
     forall cbb2 B2, represents cbb2 B2 -> length (b_open B2) = d ->
       call_spec d rest1 cbb2 B2 (loop rest1 cbb2) (bloop rest1)) ->
  call_spec d inp cbb B
    (match r1 with
     | Some (true, inp1, out) =>
         match CBB_flush d out with
         | (None, out) => Some (false, inp1, out)
         | (Some _, out) => loop inp1 out
         end
     | r => r
     end)
    (match b1 with
     | Some (Some (body, inp1)) =>
         match wrap header body with
         | None => Some None
         | Some out =>
             match bloop inp1 with
             | Some (Some (outs, rest)) => Some (Some (out ++ outs, rest))
             | r => r
             end
         end
     | r => r
     end).
Proof.
  intros Ho Hlen Hopen Hbody Hloop.
  pose proof Hopen as (_ & _ & B1 & EB1 & HR1 & _).
  pose proof (opened_open d header B B1 Ho EB1) as Ho1.
  destruct (Hbody B1 HR1 Ho1) as (ok1 & inp1 & cbb2 & out1 & -> & -> & Hcall).
  destruct out1 as [[body rest1]|]; [|subst ok1; apply call_fail].
  destruct Hcall as [Hw1 Hin1]; destruct (Hloop body rest1 eq_refl) as (Hr1 & Hsuf & Hnext).
  pose proof (leaves_shorter _ _ Hsuf) as Hr2; destruct Hsuf as (r & Er & _).
  set (s1 := opened d header B ≫= b_add (depth_in d header) body).
  pose proof (wrap_spec d header body B Ho) as Hwrap; fold s1 in Hwrap.
  assert (writes (16 + 16 * (zlen body_in - zlen rest1)) s1 cbb B ok1 cbb2) as Hw2.
  { eapply writes_trans; [lia|exact Hopen|]; intros B1' E1' _; rewrite EB1 in E1'; now injection E1' as <-. }
  assert (forall o outs, wrap header body = Some o ->
    b_add d (o ++ outs) B = (s1 ≫= b_flush d) ≫= b_add d outs) as Hsplit.
  { intros o outs Eo; rewrite Hwrap, Eo; symmetry; apply b_add_add; lia. }
  destruct ok1; [rewrite (Hin1 eq_refl)|].
  - pose proof Hw2 as (_ & _ & B2 & EB2 & HR2 & _).
    assert (d <= length (b_open B2))%nat as Ho2.
    { unfold s1 in EB2; rewrite EB1 in EB2; cbn in EB2; apply b_add_open in EB2; [|lia].
      rewrite EB2; unfold depth_in; destruct header; lia. }
    pose proof (CBB_flush_spec d cbb2 B2 HR2 Ho2) as Hf; destruct (CBB_flush d cbb2) as [[[]|] cbb3].
    + assert (writes (16 + 16 * (zlen body_in - zlen rest1) + 0) (s1 ≫= b_flush d) cbb B true cbb3) as Hw3.
      { eapply writes_trans; [lia|exact Hw2|]; intros B2' E2' _; rewrite EB2 in E2'; now injection E2' as <-. }
      pose proof Hw3 as (_ & _ & B3 & EB3 & HR3 & _).
      destruct (wrap header body) as [o|]; [|rewrite EB3 in Hwrap; discriminate].
      assert (length (b_open B3) = d) as Ho3 by (rewrite EB3 in Hwrap; symmetry in Hwrap; apply b_add_open in Hwrap; lia).
      destruct (Hnext cbb3 B3 HR3 Ho3) as (ok4 & inp4 & cbb4 & out4 & -> & E4 & Hcall4).
      rewrite E4 in *; destruct out4 as [[outs rest2]|]; [|subst ok4; apply call_fail].
      destruct Hcall4 as [Hw4 Hin4]; specialize (Hr2 outs rest2 eq_refl).
      exists ok4, inp4, cbb4, (Some (o ++ outs, rest2)); split; [auto|split; [auto|split; [|auto]]].
      eapply writes_ext; [|symmetry; apply (Hsplit o outs eq_refl)|].
      2: eapply writes_trans; [|exact Hw3|intros B3' E3' _; rewrite EB3 in E3'; injection E3' as <-; exact Hw4].
      all: lia.
    + assert (writes (16 + 16 * (zlen body_in - zlen rest1) + 0) (s1 ≫= b_flush d) cbb B false cbb3) as Hw3.
      { eapply writes_trans; [lia|exact Hw2|]; intros B2' E2' _; rewrite EB2 in E2'; injection E2' as <-.
        now destruct Hf as [_ ?]. }
      destruct (wrap header body) as [o|]; [|apply call_fail].
      destruct r as [[outs rest2]|]; rewrite Er; [|apply call_fail]; specialize (Hr2 outs rest2 Er).
      eapply call_stop; [exact Hw3|]; intros ? ? [= <- <-]; split; [lia|eauto].
  - destruct (wrap header body) as [o|]; [|apply call_fail].
    destruct r as [[outs rest2]|]; rewrite Er; [|apply call_fail]; specialize (Hr2 outs rest2 Er).
    eapply call_stop; [exact Hw2|]; intros ? ? [= <- <-]; split; [lia|].
    exists (fun B => b_flush d B ≫= b_add d outs); rewrite (Hsplit o outs eq_refl).
    now destruct s1.
Qed.

Lemma convert_open_stop {A} d header inp inp' cbb cbb1 B (v : A) b1
    (bloop : CBS -> option (option (list Z * CBS))) :
  length (b_open B) = d -> refines 16 v (opened d header B) cbb B (None, cbb1) ->
  (exists r, b1 = Some r) ->
  (forall body rest1, b1 = Some (Some (body, rest1)) -> 1 + zlen rest1 <= zlen inp /\
     leaves_suffix rest1 (bloop rest1)) ->
  call_spec d inp cbb B (Some (false, inp', cbb1))
    (match b1 with
     | Some (Some (body, inp1)) =>
         match wrap header body with
         | None => Some None
         | Some out =>
             match bloop inp1 with
             | Some (Some (outs, rest)) => Some (Some (out ++ outs, rest))
             | r => r
             end
         end
     | r => r
     end).
Proof.
  intros Ho Hopen [r ->] Hloop; destruct r as [[body rest1]|]; [|apply call_fail].
  destruct (Hloop body rest1 eq_refl) as (Hl & Hsuf).
  pose proof (leaves_shorter _ _ Hsuf) as Hr2; destruct Hsuf as (r & Er & _).
  destruct (wrap header body) as [o|] eqn:Ew; [|apply call_fail].
  rewrite Er; destruct r as [[outs rest2]|]; [|apply call_fail]; specialize (Hr2 outs rest2 Er).
  destruct Hopen as [_ Hw].
  eapply (call_stop _ _ _ _ _ cbb1 _ 16 (opened d header B)); [exact Hw|].
  intros ? ? [= <- <-]; split; [lia|].
  exists (fun B => (b_add (depth_in d header) body B ≫= b_flush d) ≫= b_add d outs).
  rewrite <- b_add_add by lia; pose proof (wrap_spec d header body B Ho) as E; rewrite Ew in E.
  rewrite <- E; now destruct (opened d header B).
Qed.

(** The contents of an element, whichever way they are given. *)
Lemma convert_contents_spec dc (indefinite constructed : bool) (contents rest : CBS) cbb B conv
    (conc : bool -> CBS -> option (bool * CBS * CBB)) :
  represents cbb B -> length (b_open B) = dc -> zlen contents < 2 ^ 64 ->
  (indefinite = true -> contents = []) ->
  leaves_suffix contents (conv false contents) ->
  call_spec dc rest cbb B (conc true rest) (conv true rest) ->
  call_spec dc contents cbb B (conc false contents) (conv false contents) ->
  call_spec dc (contents ++ rest) cbb B
    (if indefinite then conc true rest
     else if constructed then
       match conc false contents with
       | Some (ok, _, out) => Some (ok, rest, out)
       | None => None
       end
     else match CBB_add_bytes dc contents cbb with
          | (r, out) => Some (bool_decide (r = Some tt), rest, out)
          end)
    (convert_contents conv indefinite constructed contents rest).
Proof.
  intros HR Ho Hlen Hind Hsuf Hr Hc; unfold convert_contents.
  destruct indefinite; [now rewrite (Hind eq_refl)|]; destruct constructed.
  - destruct Hc as (ok & inp' & cbb' & out & -> & E & Hw); rewrite E in *.
    exists ok, rest, cbb'; destruct out as [[bs rest']|]; eexists; (split; [reflexivity|split; [reflexivity|]]); [|auto].
    destruct Hw as [Hw _]; split; [|auto]; eapply writes_ext; [|reflexivity|exact Hw].
    pose proof (leaves_shorter _ _ Hsuf bs rest' eq_refl); zl.
  - pose proof (CBB_add_bytes_spec dc contents cbb B HR ltac:(lia) ltac:(lia)) as Hs.
    apply writes_of_refines in Hs; destruct (CBB_add_bytes dc contents cbb) as [r cbb'].
    eexists; exists rest, cbb'; eexists; split; [reflexivity|split; [reflexivity|split; [|auto]]].
    eapply writes_ext; [|reflexivity|exact Hs]; zl.
Qed.

Lemma convert_refines fuel : forall d string_tag eoc depth inp cbb B,
  bytes inp -> zlen inp < 2 ^ 64 -> (length inp < fuel)%nat -> represents cbb B -> length (b_open B) = d ->
  call_spec d inp cbb B (cbs_convert_ber fuel d string_tag eoc depth inp cbb)
    (convert_bytes fuel string_tag eoc depth inp).
Proof.
  induction fuel as [|fuel IH]; intros d st eoc depth inp cbb B Hb Hz Hf HR Ho; [lia|].
  cbn [cbs_convert_ber convert_bytes]; case_if; [apply call_fail|].
  case_if; [destruct eoc; [apply call_fail|now apply call_done]|].
  destruct (if eoc then cbs_get_eoc inp else None) as [inp'|] eqn:Ee.
  { destruct eoc; [apply cbs_get_eoc_inv in Ee as ->|discriminate]; apply call_done; auto; zl. }
  destruct (CBS_get_any_ber_asn1_element inp) as [[e|] rest] eqn:Eel; [|apply call_fail].
  apply any_ber_element_inv in Eel as (Hv & hdr & contents & -> & Hh & Hskip & Hind); [|auto].
  apply bytes_app in Hb as [_ Hb]; pose proof Hb as Hb'; apply bytes_app in Hb' as [Hbc Hbr].
  assert (length contents + length rest + 2 < S fuel)%nat as Hlen by
    (rewrite !length_app in Hf; unfold zlen in Hh; lia).
  destruct (element_plan st (el_tag e)) as [[header child]|] eqn:Ep;
    [|rewrite (convert_open_none d st) by auto; apply call_fail].
  pose proof (convert_open_spec d st (el_tag e) header child cbb B HR Ho Hv Ep) as Hopen.
  rewrite Hskip; set (conv := fun eoc => convert_bytes fuel child eoc (depth + 1)).
  assert (leaves_suffix rest (convert_contents conv (el_indefinite e) (is_constructed (el_tag e)) contents rest))
    as Hsuf by (apply contents_suffix; apply convert_bytes_total; auto; lia).
  assert (forall body rest1,
    convert_contents conv (el_indefinite e) (is_constructed (el_tag e)) contents rest = Some (Some (body, rest1)) ->
    1 + zlen rest1 <= zlen (hdr ++ contents ++ rest) /\ zlen rest1 <= zlen (contents ++ rest) /\
    bytes rest1 /\ (length rest1 < fuel)%nat) as Hrest1.
  { intros body rest1 E; destruct Hsuf as (r & Er & Hr); rewrite Er in E; injection E as ->.
    destruct (Hr body rest1 eq_refl) as (used & ->); apply bytes_app in Hbr as [_ Hbr].
    rewrite length_app in Hlen; split; [zl|split; [zl|split; [auto|lia]]]. }
  destruct (convert_open d st (el_tag e) cbb) as [[[dc ch]|] cbb1]; cycle 1.
  - eapply (convert_open_stop d header); [auto|exact Hopen|destruct Hsuf as (r & -> & _); eauto|].
    intros body rest1 E; destruct (Hrest1 body rest1 E) as (? & ? & ? & ?).
    split; [auto|]; now apply convert_bytes_total.
  - pose proof Hopen as (Hval & _); injection Hval as -> ->.
    eapply (convert_element_spec d header (hdr ++ contents ++ rest) (contents ++ rest)); eauto; [zl| |].
    + rewrite !zlen_app in Hz.
      intros B1 HR1 Ho1; apply (convert_contents_spec _ _ _ _ _ _ _ conv
        (fun eoc inp => cbs_convert_ber fuel (depth_in d header) child eoc (depth + 1) inp cbb1)); auto.
      all: first [ zl | now intros; apply Hind | apply convert_bytes_total; auto; lia | apply IH; auto; first [lia | zl] ].
    + intros body rest1 E; destruct (Hrest1 body rest1 E) as (? & ? & ? & ?).
      split; [auto|split; [now apply convert_bytes_total|]]; intros; apply IH; auto; zl.
Qed.
End Refinement.

(** * DER *)

(** Concatenations of DER elements nested at most [n] deep: minimal lengths,
    no indefinite lengths, no constructed strings. *)
Inductive der : nat -> list Z -> Prop :=
  | der_nil n : der n []
  | der_prim n tag body rest :
      valid_tag tag -> is_constructed tag = false -> zlen body < 2 ^ 32 -> der n rest ->
      der n (asn1_tlv tag body ++ rest)
  | der_cons n tag body rest :
      valid_tag tag -> is_constructed tag = true -> is_string_type tag = false -> zlen body < 2 ^ 32 ->
      der n body -> der (S n) rest -> der (S n) (asn1_tlv tag body ++ rest).




(** ** The search for BER *)

Lemma find_ber_total fuel : forall found depth inp,
  bytes inp -> (length inp < fuel)%nat -> exists r, cbs_find_ber fuel found depth inp = Some r.
Proof.
  induction fuel as [|fuel IH]; intros found depth inp Hb Hf; [lia|]; cbn [cbs_find_ber].
  case_if; [eauto|]; case_if; [eauto|].
  destruct (CBS_get_any_ber_asn1_element inp) as [[e|] rest] eqn:Eel; [|eauto].
  apply any_ber_element_inv in Eel as (_ & hdr & contents & -> & Hh & Hskip & _); [|auto].
  apply bytes_app in Hb as [_ Hb]; apply bytes_app in Hb as [Hbc Hbr].
  assert (length contents + length rest + 2 < S fuel)%nat as Hlen by
    (rewrite !length_app in Hf; unfold zlen in Hh; lia).
  case_if; [eauto|]; case_if; [|apply IH; auto; lia].
  case_if; [eauto|]; rewrite Hskip.
  destruct (IH false (depth + 1) contents Hbc ltac:(lia)) as ([f|] & ->); [apply IH; auto; lia|eauto].
Qed.

Lemma skip_tlv_header tag body :
  CBS_skip (tlv_header_len tag (zlen body)) (asn1_tlv tag body) = (Some tt, body).
Proof.
  unfold CBS_skip, asn1_tlv; rewrite app_assoc.
  now erewrite st_bind_some by (apply cbs_get_app; now rewrite zlen_app).
Qed.

(** DER passes the search: nothing is found in it. *)
Lemma find_ber_der n inp : der n inp -> forall fuel depth,
  (length inp < fuel)%nat -> depth + Z.of_nat n <= kMaxDepth ->
  cbs_find_ber fuel false depth inp = Some (Some false).
Proof.
  assert (forall tag body rest, (CBS_len (asn1_tlv tag body ++ rest) =? 0) = false) as Hne.
  { intros; unfold CBS_len; rewrite zlen_app, zlen_asn1_tlv; apply Z.eqb_neq.
    pose proof (tlv_header_len_bounds tag (zlen body)); zl. }
  assert (forall tag body, (2 + length body <= length (asn1_tlv tag body))%nat) as Hlen.
  { intros; pose proof (zlen_asn1_tlv tag body); pose proof (tlv_header_len_bounds tag (zlen body)).
    unfold zlen in *; lia. }
  induction 1 as [n|n tag body rest Hv Hc Hl Hr IHr|n tag body rest Hv Hc Hs Hl Hbd IHb Hr IHr];
    intros [|fuel] depth Hf Hd; try lia; cbn [cbs_find_ber];
    rewrite (proj2 (Z.ltb_ge kMaxDepth depth)) by lia; [reflexivity|..];
    rewrite Hne; unfold CBS_get_any_ber_asn1_element; rewrite element_of_tlv by auto;
    cbn [el_ber_found el_tag el_header_len el_out]; rewrite Hc;
    rewrite length_app in Hf; specialize (Hlen tag body).
  - apply IHr; lia.
  - rewrite Hs, skip_tlv_header, IHb by lia; apply IHr; lia.
Qed.

(** * The whole function *)

Section Function_.
  Context `{Allocator}.

Lemma empty_add bs : b_add 0 bs empty_builder = Some {| b_root := bs; b_open := [] |}.
Proof. reflexivity. Qed.

(** Converting and finishing: what comes out is what [convert_bytes] says, and
    it does come out when memory does not run out. *)
Lemma convert_finish inp cbb :
  bytes inp -> zlen inp < 2 ^ 64 -> CBB_init (CBS_len inp) = Some cbb ->
  exists ok inp' cbb' out,
    cbs_convert_ber (ber_fuel inp) 0 0 false 0 inp cbb = Some (ok, inp', cbb') /\
    convert_bytes (ber_fuel inp) 0 false 0 inp = Some out /\
    (forall storage s, ok = true -> CBB_finish cbb' = (Some storage, s) -> out = Some (storage, inp')) /\
    (forall bs rest, out = Some (bs, rest) -> (forall n, malloc_ok n = true) -> 16 * zlen inp < 2 ^ 64 ->
       ok = true /\ inp' = rest /\ exists s, CBB_finish cbb' = (Some bs, s)).
Proof.
  intros Hb Hz Hi; apply CBB_init_represents in Hi as (HR & Hphi & Hres); [|unfold CBS_len; zl].
  destruct (convert_refines (ber_fuel inp) 0 0 false 0 inp cbb empty_builder) as
    (ok & inp' & cbb' & out & Er & Eb & Hw); try (unfold ber_fuel; lia); auto.
  exists ok, inp', cbb', out; split; [auto|split; [auto|]].
  destruct out as [[bs rest]|]; [destruct Hw as [Hw Hin]|subst ok; split; discriminate].
  destruct ok; cbn in Hw.
  - rewrite (Hin eq_refl); destruct Hw as (_ & Hres' & B' & [= <-] & HR' & Hphi').
    pose proof (finish_spec cbb' _ HR') as Hfin; cbn in Hfin; rewrite app_nil_r in Hfin.
    destruct (CBB_finish cbb') as [[o|] s]; [injection Hfin as ->|destruct Hfin as (_ & [?|Hbig]); [discriminate|]]; split.
    + intros ? ? _ [= <- <-]; auto.
    + intros ? ? [= <- <-] _ _; split; [auto|split; [auto|eauto]].
    + discriminate.
    + intros ? ? [= <- <-] Hm Hc; exfalso.
      assert (growable (cbb_base cbb')) as Hg by (split; [congruence|auto]); specialize (Hbig Hg).
      pose proof (zlen_nonneg rest); lia.
  - split; [discriminate|]; intros ? ? [= <- <-] Hm Hc; exfalso; destruct Hw as [Hw|Hw]; [discriminate|].
    assert (growable (cbb_base cbb)) as Hg by (split; auto); specialize (Hw Hg).
    pose proof (zlen_nonneg rest); lia.
Qed.
End Function_.

(** Termination of the BER conversion: on every input, with every
    allocator, [CBS_asn1_ber_to_der] ends (with success or failure) within one
    step of its two recursive loops per byte of input. *)
Theorem ber_to_der_terminates `{Allocator} (inp : CBS) :
  bytes inp -> zlen inp < 2 ^ 64 -> exists r rest, CBS_asn1_ber_to_der inp = Some (r, rest).
Proof.
  intros Hb Hz; unfold CBS_asn1_ber_to_der.
  destruct (find_ber_total (ber_fuel inp) false 0 inp Hb) as ([[]|] & ->); [unfold ber_fuel; lia|..].
  - destruct (CBB_init (CBS_len inp)) as [cbb|] eqn:Ei; [|eauto].
    destruct (convert_finish inp cbb Hb Hz Ei) as ([] & inp' & cbb' & out & -> & _); [|eauto].
    destruct (CBB_finish cbb') as [[?|] ?]; eauto.
  - destruct (CBS_get_any_asn1_element inp) as [[?|] ?]; eauto.
  - eauto.
Qed.


(** DER is handed back as it is: an element of DER is returned unchanged,
    without a copy, and the input is advanced past it. *)
Theorem ber_to_der_keeps_der `{Allocator} (tag : Z) (body rest : CBS) :
  valid_tag tag -> zlen body < 2 ^ 32 -> der 2048 (asn1_tlv tag body ++ rest) ->
  CBS_asn1_ber_to_der (asn1_tlv tag body ++ rest) = Some (Some (asn1_tlv tag body, None), rest).
Proof.
  intros Hv Hl Hd; unfold CBS_asn1_ber_to_der.
  rewrite (find_ber_der 2048 _ Hd) by (unfold ber_fuel, kMaxDepth; lia).
  unfold CBS_get_any_asn1_element; now rewrite element_of_tlv by auto.
Qed.

(** * Reading DER back *)

Lemma der_inv n l : der n l -> l <> [] ->
  exists tag body rest, CBS_get_any_asn1 l = (Some (body, tag), rest) /\ der n rest /\
    (is_constructed tag = true -> is_string_type tag = false /\ exists m, der m body).
Proof.
  assert (forall tag body rest, valid_tag tag -> zlen body < 2 ^ 32 ->
    CBS_get_any_asn1 (asn1_tlv tag body ++ rest) = (Some (body, tag), rest)) as Hget.
  { intros; unfold CBS_get_any_asn1, CBS_get_any_asn1_element.
    erewrite st_bind_some by (now apply element_of_tlv); cbn [el_header_len el_out el_tag].
    unfold skip_out; erewrite st_bind_some by (now rewrite skip_tlv_header); reflexivity. }
  intros H Hl; destruct H as [n|n tag body rest Hv Hc Hz Hr|n tag body rest Hv Hc Hs Hz Hb Hr]; [easy|..];
    exists tag, body, rest; (split; [now apply Hget|split; [auto|]]); [congruence|eauto].
Qed.

(** * Trees of elements *)

(** A sequence of elements; a constructed one says whether its length is
    written in the indefinite form. *)
Inductive forest : Type :=
  | FNil
  | FPrim (tag : Z) (body : list Z) (rest : forest)
  | FCons (tag : Z) (indefinite : bool) (kids rest : forest).

Fixpoint ber_octets (f : forest) : list Z :=
  match f with
  | FNil => []
  | FPrim tag body rest => asn1_tlv tag body ++ ber_octets rest
  | FCons tag false kids rest => asn1_tlv tag (ber_octets kids) ++ ber_octets rest
  | FCons tag true kids rest =>
      asn1_tag_octets tag ++ [0x80] ++ ber_octets kids ++ [0; 0] ++ ber_octets rest
  end.

(** The DER of the same elements; [string_tag] is that of the constructed
    string they are parts of, or zero. *)
Fixpoint der_octets (string_tag : Z) (f : forest) : list Z :=
  match f with
  | FNil => []
  | FPrim tag body rest =>
      (if string_tag =? 0 then asn1_tlv tag body else body) ++ der_octets string_tag rest
  | FCons tag _ kids rest =>
      (if negb (string_tag =? 0) then der_octets string_tag kids
       else if is_string_type tag
       then asn1_tlv (Z.land tag not_constructed) (der_octets (Z.land tag not_constructed) kids)
       else asn1_tlv tag (der_octets 0 kids)) ++ der_octets string_tag rest
  end.

Definition kids_tag (string_tag tag : Z) : Z :=
  if negb (string_tag =? 0) then string_tag
  else if is_string_type tag then Z.land tag not_constructed else 0.

(** Tags are valid, lengths fit, strings are made of strings of the same type
    and the nesting stays within the limit. *)
Fixpoint forest_ok (depth string_tag : Z) (f : forest) : Prop :=
  depth <= kMaxDepth /\
  match f with
  | FNil => True
  | FPrim tag body rest =>
      (valid_tag tag /\ is_constructed tag = false /\ zlen body <= 0xfffffffe /\
       (string_tag = 0 \/ Z.land tag not_constructed = string_tag)) /\
      forest_ok depth string_tag rest
  | FCons tag _ kids rest =>
      (valid_tag tag /\ is_constructed tag = true /\
       zlen (ber_octets kids) < 2 ^ 32 /\ zlen (der_octets (kids_tag string_tag tag) kids) <= 0xfffffffe /\
       (string_tag = 0 \/ Z.land tag not_constructed = string_tag)) /\
      forest_ok (depth + 1) (kids_tag string_tag tag) kids /\
      forest_ok depth string_tag rest
  end.

Lemma element_indefinite tag rest : valid_tag tag -> is_constructed tag = true ->
  CBS_get_any_ber_asn1_element (asn1_tag_octets tag ++ [0x80] ++ rest) =
  (Some {| el_out := asn1_tag_octets tag ++ [0x80]; el_tag := tag;
           el_header_len := zlen (asn1_tag_octets tag) + 1;
           el_ber_found := true; el_indefinite := true |}, rest).
Proof.
  intros Hv Hc; unfold CBS_get_any_ber_asn1_element, cbs_get_any_asn1_element, asn1_header.
  erewrite st_bind_some by (now apply parse_asn1_tag_octets); cbn [app].
  erewrite st_bind_some by apply CBS_get_u8_cons; erewrite st_bind_some by reflexivity; cbv beta.
  change (Z.land 128 0x80 =? 0) with false; change (Z.land 128 0x7f =? 0) with true.
  unfold is_constructed in Hc; rewrite Hc; cbn [andb].
  unfold st_ret at 1; cbn [h_len h_tag h_header_len h_ber_found h_indefinite].
  replace (CBS_len (asn1_tag_octets tag ++ 128 :: rest) - CBS_len rest) with (zlen (asn1_tag_octets tag) + 1) by
    (unfold CBS_len; zl).
  change (128 :: rest) with ([128] ++ rest); rewrite app_assoc.
  now erewrite st_bind_some by (apply CBS_get_bytes_app; zl).
Qed.

Lemma tag_octets_not_eoc tag rest : valid_tag tag -> cbs_get_eoc (asn1_tag_octets tag ++ rest) = None.
Proof.
  intros [Hr Hnz]; destruct (tag_split tag Hr) as (E & Hc & Hn); unfold cbs_get_eoc.
  enough ((znth (asn1_tag_octets tag ++ rest) 0 =? 0) = false) as -> by now rewrite andb_false_r.
  assert (forall x l, znth ((x :: l) ++ rest) 0 = x) as Hz by reflexivity.
  apply Z.eqb_neq; unfold asn1_tag_octets; case_if; rewrite Hz; [|lia].
  intros E0; apply Hnz; rewrite E; replace (tag_class tag) with 0 by lia; replace (tag_number tag) with 0 by lia.
  reflexivity.
Qed.






Lemma tlv_not_eoc tag body rest : valid_tag tag ->
  CBS_len (asn1_tlv tag body ++ rest) <> 0 /\ cbs_get_eoc (asn1_tlv tag body ++ rest) = None /\
  (2 + length body <= length (asn1_tlv tag body))%nat.
Proof.
  intros Hv; pose proof (tlv_header_len_bounds tag (zlen body)); pose proof (zlen_asn1_tlv tag body).
  split; [unfold CBS_len; zl|split; [|unfold zlen in *; lia]].
  unfold asn1_tlv; rewrite <- app_assoc; now apply tag_octets_not_eoc.
Qed.


(** ** The search *)

(** What the search for BER sees of a tree: the elements of a level that need
    conversion themselves, and the contents of the last element of the level. *)
Fixpoint shows_ber (f : forest) : bool :=
  match f with
  | FNil => false
  | FPrim _ _ rest => shows_ber rest
  | FCons tag indefinite kids rest =>
      indefinite || is_string_type tag || match rest with FNil => shows_ber kids | _ => shows_ber rest end
  end.

(** BER anywhere in a tree. *)
Fixpoint has_ber (f : forest) : bool :=
  match f with
  | FNil => false
  | FPrim _ _ rest => has_ber rest
  | FCons tag indefinite kids rest => indefinite || is_string_type tag || has_ber kids || has_ber rest
  end.

Lemma find_ber_forest f : forall fuel found depth, forest_ok depth 0 f -> (length (ber_octets f) < fuel)%nat ->
  cbs_find_ber fuel found depth (ber_octets f) = Some (Some (match f with FNil => found | _ => shows_ber f end)).
Proof.
  induction f as [|tag body rest IHr|tag ind kids IHk rest IHr]; intros [|fuel] found depth Hok Hf; try lia; cbn [forest_ok] in Hok; destruct Hok as [Hd Hok];
    cbn [cbs_find_ber]; rewrite (proj2 (Z.ltb_ge kMaxDepth depth)) by lia; [reflexivity|..].
  - destruct Hok as [(Hv & Hc & Hl & _) Hr]; cbn [ber_octets] in *; destruct (tlv_not_eoc tag body (ber_octets rest) Hv) as (Hn & _ & Hlen); rewrite length_app in Hf.
    rewrite (proj2 (Z.eqb_neq _ _) Hn); unfold CBS_get_any_ber_asn1_element; rewrite element_of_tlv by (auto; pow2; lia).
    cbn [el_ber_found el_tag]; rewrite Hc, IHr by (auto; lia); cbn [shows_ber]; now destruct rest.
  - destruct Hok as [(Hv & Hc & Hl & _ & _) [Hk Hr]]; destruct ind; cbn [ber_octets shows_ber] in *.
    { rewrite element_indefinite by auto; cbn [el_ber_found orb]; rewrite (proj2 (Z.eqb_neq _ 0)); [reflexivity|]; unfold CBS_len; zl. }
    destruct (tlv_not_eoc tag (ber_octets kids) (ber_octets rest) Hv) as (Hn & _ & Hlen); rewrite length_app in Hf.
    rewrite (proj2 (Z.eqb_neq _ _) Hn); unfold CBS_get_any_ber_asn1_element; rewrite element_of_tlv by auto; cbn [el_ber_found el_tag el_header_len el_out orb]; rewrite Hc.
    unfold kids_tag in Hk; cbn [Z.eqb negb] in Hk; destruct (is_string_type tag); [reflexivity|].
    rewrite skip_tlv_header, IHk, IHr by (auto; lia); cbn [orb]; destruct rest; [|reflexivity..]; now destruct kids.
Qed.

(** An indefinite length is not DER. *)
Lemma indefinite_not_der tag rest : valid_tag tag -> fst (CBS_get_any_asn1 (asn1_tag_octets tag ++ [0x80] ++ rest)) = None.
Proof.
  intros Hv; unfold CBS_get_any_asn1, CBS_get_any_asn1_element, cbs_get_any_asn1_element, asn1_header, st_bind.
  rewrite parse_asn1_tag_octets by auto; cbn [app]; rewrite CBS_get_u8_cons; reflexivity.
Qed.

Lemma has_ber_not_der f : forall depth string_tag n, forest_ok depth string_tag f -> has_ber f = true -> ~ der n (ber_octets f).
Proof.
  assert (forall tag body rest n, valid_tag tag -> zlen body < 2 ^ 32 -> der n (asn1_tlv tag body ++ rest) ->
    der n rest /\ (is_constructed tag = true -> is_string_type tag = false /\ exists m, der m body)) as Hinv.
  { intros tag body rest n Hv Hl Hd; destruct (tlv_not_eoc tag body rest Hv) as (Hn & _); apply der_inv in Hd as (tag' & body' & rest' & E & Hr & Hb).
    - unfold CBS_get_any_asn1, CBS_get_any_asn1_element in E; erewrite st_bind_some in E by (now apply element_of_tlv); cbn [el_header_len el_out el_tag] in E.
      unfold skip_out in E; erewrite st_bind_some in E by (now rewrite skip_tlv_header); injection E as -> -> ->; auto.
    - intros E; rewrite E in Hn; now apply Hn. }
  induction f as [|tag body rest IHr|tag ind kids IHk rest IHr]; intros depth st n Hok Hb Hd; cbn [has_ber forest_ok] in *; [discriminate|..]; destruct Hok as [_ Hok].
  - destruct Hok as [(Hv & _ & Hl & _) Hr]; cbn [ber_octets] in Hd; apply Hinv in Hd as [Hd _]; [|auto|pow2; lia]; eapply IHr; eauto.
  - destruct Hok as [(Hv & Hc & Hl & _ & _) [Hk Hr]]; destruct ind; cbn [ber_octets orb] in *.
    + apply der_inv in Hd as (tag' & body' & rest' & E & _); [|pose proof (zlen_asn1_tag_octets tag); intros E; apply (f_equal zlen) in E; revert E; zl].
      pose proof (indefinite_not_der tag (ber_octets kids ++ [0; 0] ++ ber_octets rest) Hv) as E'; rewrite E in E'; discriminate.
    + apply Hinv in Hd as [Hd Hk']; auto; destruct (Hk' Hc) as (Hs & m & Hm); rewrite Hs in Hb; cbn [orb] in Hb; apply orb_prop in Hb as [Hb|Hb]; [eapply IHk|eapply IHr]; eauto.
Qed.

(** What is handed back when the search sees no BER: the first element as it is. *)
Definition first_element (f : forest) : option (CBS * option (list Z)) * CBS :=
  match f with
  | FNil => (None, [])
  | FPrim tag body rest => (Some (asn1_tlv tag body, None), ber_octets rest)
  | FCons tag _ kids rest => (Some (asn1_tlv tag (ber_octets kids), None), ber_octets rest)
  end.

Lemma ber_not_shown `{Allocator} f : forest_ok 0 0 f -> shows_ber f = false -> CBS_asn1_ber_to_der (ber_octets f) = Some (first_element f).
Proof.
  intros Hok Hs; unfold CBS_asn1_ber_to_der; rewrite find_ber_forest by (auto; unfold ber_fuel; lia); destruct f as [|tag body rest|tag ind kids rest]; [reflexivity|..].
  all: rewrite Hs; cbn [forest_ok shows_ber] in *; unfold CBS_get_any_asn1_element; try (destruct ind; [discriminate|]); cbn [ber_octets first_element].
  all: destruct Hok as [_ [Hok _]]; destruct_and! Hok; rewrite element_of_tlv by (auto; pow2; lia); reflexivity.
Qed.


(** A level that ends in a primitive element and none of whose elements needs
    conversion itself; what the constructed ones hold is not looked at. *)
Fixpoint quiet_level (f : forest) : bool :=
  match f with
  | FNil => false
  | FPrim _ _ rest => match rest with FNil => true | _ => quiet_level rest end
  | FCons tag indefinite _ rest => negb indefinite && negb (is_string_type tag) && quiet_level rest
  end.

Lemma quiet_level_shows f : quiet_level f = true -> shows_ber f = false.
Proof.
  induction f as [|tag body rest IH|tag ind kids _ rest IH]; cbn [quiet_level shows_ber]; [discriminate|destruct rest; [reflexivity|exact IH..]|].
  intros H; apply andb_prop in H as [H1 H2]; apply andb_prop in H1 as [->%negb_true_iff ->%negb_true_iff]; cbn [orb]; destruct rest; [discriminate|apply IH, H2..].
Qed.

(** C37. The search for BER forgets what it has found: in any element of definite
    length that is not a string, whose contents end in a primitive element and
    have no member that needs conversion itself, the recursion into the earlier
    members may find any BER, but the members after them reset [*ber_found]. The
    element is handed back unconverted; with BER anywhere in it, it is not DER. *)
Theorem ber_found_is_lost `{Allocator} (tag : Z) (f : forest) :
  let inp := ber_octets (FCons tag false f FNil) in
  forest_ok 0 0 (FCons tag false f FNil) -> is_string_type tag = false -> quiet_level f = true ->
  CBS_asn1_ber_to_der inp = Some (Some (inp, None), []) /\ (has_ber f = true -> forall n, ~ der n inp).
Proof.
  intros inp Hok Hs Hq; split.
  - unfold inp; rewrite ber_not_shown by (auto; cbn [shows_ber orb]; rewrite Hs; now apply quiet_level_shows); cbn [ber_octets first_element]; now rewrite app_nil_r.
  - intros Hb n; apply (has_ber_not_der _ 0 0); [exact Hok|]; cbn [has_ber orb]; now rewrite Hs, Hb.
Qed.


Ltac forest_literal := cbn [forest_ok]; unfold valid_tag, kMaxDepth; repeat match goal with |- _ /\ _ => split end;
  try (vm_compute; congruence); try lia; try (now left); try (now right); exact I.


(** [SEQUENCE { SEQUENCE { SEQUENCE (indefinite) {} }, NULL }]. *)
Lemma ber_found_is_lost_witness :
  let inp := [0x30; 8; 0x30; 4; 0x30; 0x80; 0; 0; 5; 0] in
  CBS_asn1_ber_to_der (H := allocator_total) inp = Some (Some (inp, None), []) /\ forall n, ~ der n inp.
Proof.
  destruct (ber_found_is_lost (H := allocator_total) 0x20000010 (FCons 0x20000010 false (FCons 0x20000010 true FNil FNil) (FPrim 5 [] FNil))) as [E Hn].
  - forest_literal.
  - reflexivity.
  - reflexivity.
  - split; [exact E|exact (Hn eq_refl)].
Defined.

Lemma ber_to_der_terminates_witness :
  exists r rest, CBS_asn1_ber_to_der (H := allocator_total) [0x30; 0x80; 4; 1; 7; 0; 0] = Some (r, rest).
Proof. apply (ber_to_der_terminates (H := allocator_total)); [each_literal|reflexivity]. Defined.


Lemma ber_to_der_keeps_der_witness :
  CBS_asn1_ber_to_der (H := allocator_total) [0x30; 3; 4; 1; 7; 5; 0] =
  Some (Some ([0x30; 3; 4; 1; 7], None), [5; 0]).
Proof.
  assert (forall t, 0 < t < 32 -> Z.land t not_constructed = t -> valid_tag t) as Hv by
    (intros t Ht E; unfold valid_tag; rewrite E; pow2; lia).
  refine (ber_to_der_keeps_der (H := allocator_total) 0x20000010 [4; 1; 7] [5; 0] _ _ _).
  - split; [pow2; lia|discriminate].
  - reflexivity.
  - apply (der_cons 2047 0x20000010 [4; 1; 7] [5; 0]); try reflexivity.
    + split; [pow2; lia|discriminate].
    + apply (der_prim 2047 4 [7] []); [apply Hv; [lia|reflexivity]|reflexivity..|constructor].
    + apply (der_prim 2048 5 [] []); [apply Hv; [lia|reflexivity]|reflexivity..|constructor].
Defined.

(** * Implicitly tagged strings *)

Section ImplicitString.
  Context `{Allocator}.

Lemma implicit_loop_spec inner_tag chunks : forall fuel cbb B,
  valid_tag inner_tag -> Forall (fun c => bytes c /\ zlen c < 2 ^ 32) chunks ->
  represents cbb B -> length (b_open B) = 0%nat ->
  (length (concat (map (asn1_tlv inner_tag) chunks)) < fuel)%nat ->
  refines (zlen (concat chunks)) tt (b_add 0 (concat chunks) B) cbb B
    (implicit_string_loop fuel inner_tag (concat (map (asn1_tlv inner_tag) chunks)) cbb).
Proof.
  induction chunks as [|c chunks IH]; intros [|fuel] cbb B Hv Hc HR Ho Hf; try lia;
    cbn [implicit_string_loop concat map] in *; [now apply st_ret_refines|].
  inversion_clear Hc as [|? ? [Hb Hl] Hcs].
  assert (bytes (concat (map (asn1_tlv inner_tag) chunks))) as Hbs.
  { clear -Hcs Hv; induction Hcs as [|c cs [? ?] _ IH]; cbn; [constructor|].
    apply bytes_app; split; [apply bytes_asn1_tlv; [apply Hv|]|]; auto. }
  destruct (tlv_not_eoc inner_tag c (concat (map (asn1_tlv inner_tag) chunks)) Hv) as (Hn & _ & Hlen).
  rewrite (proj2 (Z.eqb_neq _ _) Hn), get_asn1_tlv by auto.
  rewrite zlen_app; apply (refines_ext (zlen c + zlen (concat chunks)) _ _ (b_add 0 c B ≫= b_add 0 (concat chunks)));
    [lia|apply b_add_add; lia|].
  eapply refines_bind; [zl|apply CBB_add_bytes_spec; auto; lia|].
  intros cbb' B' EB HR'; apply IH; auto; [apply b_add_open in EB; lia|rewrite length_app in Hf; lia].
Qed.

Lemma zlen_parts inner_tag chunks : zlen (concat chunks) <= zlen (concat (map (asn1_tlv inner_tag) chunks)).
Proof.
  induction chunks as [|c cs IH]; cbn; [lia|]; rewrite !zlen_app, zlen_asn1_tlv.
  pose proof (tlv_header_len_bounds inner_tag (zlen c)); lia.
Qed.

Lemma peek_tlv tag outer_tag body rest : valid_tag tag ->
  CBS_peek_asn1_tag (asn1_tlv tag body ++ rest) outer_tag = (outer_tag =? tag).
Proof.
  intros; unfold CBS_peek_asn1_tag, asn1_tlv; rewrite <- app_assoc; now rewrite parse_asn1_tag_octets.
Qed.

Lemma set_constructed_valid tag : valid_tag tag -> valid_tag (Z.lor tag CBS_ASN1_CONSTRUCTED).
Proof.
  intros [Hr Hnz]; split; [apply lor_small; auto; vm_compute; easy|].
  rewrite Z.land_lor_distr_l; change (Z.land CBS_ASN1_CONSTRUCTED not_constructed) with 0; now rewrite Z.lor_0_r.
Qed.

Lemma set_constructed_neq tag : is_constructed tag = false -> (tag =? Z.lor tag CBS_ASN1_CONSTRUCTED) = false.
Proof.
  unfold is_constructed; intros Hc; bool_facts; apply Z.eqb_neq; intros E.
  assert (Z.land (Z.lor tag CBS_ASN1_CONSTRUCTED) CBS_ASN1_CONSTRUCTED = CBS_ASN1_CONSTRUCTED) as E' by
    (now rewrite Z.land_lor_distr_l, Hc).
  rewrite <- E, Hc in E'; discriminate.
Qed.
End ImplicitString.

(** An implicitly tagged string is read whether it is primitive or cut
    into parts: the primitive form gives its contents without a copy, the
    constructed form the concatenation of its parts in a new buffer. *)
Theorem implicit_string_correct `{Allocator} (outer_tag inner_tag : Z) (chunks : list (list Z)) (rest : CBS) :
  valid_tag outer_tag -> is_constructed outer_tag = false -> valid_tag inner_tag -> bytes rest -> zlen rest < 2 ^ 63 ->
  Forall (fun c => bytes c /\ zlen c < 2 ^ 32) chunks ->
  let parts := concat (map (asn1_tlv inner_tag) chunks) in
  let constructed := asn1_tlv (Z.lor outer_tag CBS_ASN1_CONSTRUCTED) parts in
  zlen parts < 2 ^ 32 -> (forall n, malloc_ok n = true) ->
  CBS_get_asn1_implicit_string outer_tag inner_tag (constructed ++ rest) =
    (Some (concat chunks, Some (concat chunks)), rest) /\
  forall body, bytes body -> zlen body < 2 ^ 32 ->
    CBS_get_asn1_implicit_string outer_tag inner_tag (asn1_tlv outer_tag body ++ rest) = (Some (body, None), rest).
Proof.
  intros Hv Hc Hi Hr Hrl Hcs parts constructed Hl Hm; split.
  - pose proof (set_constructed_valid outer_tag Hv) as Hv'.
    assert (bytes parts) as Hb.
    { unfold parts; clear -Hcs Hi; induction Hcs as [|c cs [? ?] _ IH]; cbn; [constructor|].
      apply bytes_app; split; [apply bytes_asn1_tlv; [apply Hi|]|]; auto. }
    unfold CBS_get_asn1_implicit_string, constructed; rewrite peek_tlv, set_constructed_neq by auto.
    destruct (CBB_init _) as [cbb|] eqn:Ei; cycle 1.
    { match type of Ei with CBB_init ?n = _ => destruct (CBB_init_ok n (Hm n)); congruence end. }
    rewrite get_asn1_tlv by auto.
    apply CBB_init_represents in Ei as (HR & Hphi & Hres).
    2: { pose proof (tlv_header_len_bounds (Z.lor outer_tag CBS_ASN1_CONSTRUCTED) (zlen parts)).
         unfold CBS_len; rewrite zlen_app, zlen_asn1_tlv; pow2; zl. }
    destruct (refines_finish (implicit_string_loop (ber_fuel parts) inner_tag parts) _ _ cbb HR Hphi
      (implicit_loop_spec inner_tag chunks (ber_fuel parts) cbb empty_builder Hi Hcs HR eq_refl
        ltac:(unfold ber_fuel, parts; lia))) as [_ Hfin].
    specialize (Hfin (concat chunks) ltac:(split; auto)); pose proof (zlen_parts inner_tag chunks); fold parts in H0.
    destruct ((implicit_string_loop _ _ _ ;;; CBB_finish) cbb) as [o s]; cbn [fst] in Hfin.
    rewrite Hfin; [unfold CBS_init; now rewrite ztake_all by lia|pow2; lia|].
    rewrite empty_add; cbn; now rewrite app_nil_r.
  - intros body Hb Hbl; unfold CBS_get_asn1_implicit_string; rewrite peek_tlv, Z.eqb_refl by auto.
    erewrite st_bind_some by (now apply get_asn1_tlv); reflexivity.
Qed.

Lemma implicit_string_correct_witness :
  CBS_get_asn1_implicit_string (H := allocator_total) 0x80000000 4 [0xa0; 7; 4; 2; 1; 2; 4; 1; 3; 9] =
    (Some ([1; 2; 3], Some [1; 2; 3]), [9]).
Proof.
  refine (proj1 (implicit_string_correct (H := allocator_total) 0x80000000 4 [[1; 2]; [3]] [9] _ _ _ _ _ _ _ _)).
  - split; [pow2; lia|vm_compute; discriminate].
  - reflexivity.
  - split; [pow2; lia|vm_compute; discriminate].
  - each_literal.
  - reflexivity.
  - repeat constructor; unfold byte; lia.
  - reflexivity.
  - reflexivity.
Defined.
