(* ===== verification/Words.v ===== *)
(** Loads, stores and rotations of machine words: crypto/internal.h, lines
    1033-1140. A word in memory is little-endian, as on the platforms the
    library supports. *)

From S2P Require Import Prelude Cbs.

(** * Words in memory *)

(** The value of a little-endian byte string, and the [n]-byte little-endian
    encoding of an integer: what [memcpy] between a word and memory does. *)
Definition le_val (l : list Z) : Z := be_val (rev l).
Definition le_enc (n : nat) (v : Z) : list Z := rev (be_enc n v).

Definition CRYPTO_load_u32_le (inp : list Z) : Z := le_val (ztake 4 inp).
Definition CRYPTO_store_u32_le (v : Z) : list Z := le_enc 4 v.
Definition CRYPTO_load_u32_be (inp : list Z) : Z := CRYPTO_bswap4 (le_val (ztake 4 inp)).
Definition CRYPTO_store_u32_be (v : Z) : list Z := le_enc 4 (CRYPTO_bswap4 v).
Definition CRYPTO_load_u64_le (inp : list Z) : Z := le_val (ztake 8 inp).
Definition CRYPTO_store_u64_le (v : Z) : list Z := le_enc 8 v.
Definition CRYPTO_load_u64_be (inp : list Z) : Z := CRYPTO_bswap8 (le_val (ztake 8 inp)).
Definition CRYPTO_store_u64_be (v : Z) : list Z := le_enc 8 (CRYPTO_bswap8 v).
Definition CRYPTO_load_word_le (inp : list Z) : Z := le_val (ztake 8 inp).
Definition CRYPTO_store_word_le (v : Z) : list Z := le_enc 8 v.
Definition CRYPTO_load_word_be (inp : list Z) : Z := CRYPTO_bswap8 (le_val (ztake 8 inp)).

Definition CRYPTO_rotl_u32 (value shift : Z) : Z :=
  Z.lor (u32 (Z.shiftl value shift)) (Z.shiftr value (Z.land (- shift) 31)).
Definition CRYPTO_rotr_u32 (value shift : Z) : Z :=
  Z.lor (Z.shiftr value shift) (u32 (Z.shiftl value (Z.land (- shift) 31))).
Definition CRYPTO_rotl_u64 (value shift : Z) : Z :=
  Z.lor (u64 (Z.shiftl value shift)) (Z.shiftr value (Z.land (- shift) 63)).
Definition CRYPTO_rotr_u64 (value shift : Z) : Z :=
  Z.lor (Z.shiftr value shift) (u64 (Z.shiftl value (Z.land (- shift) 63))).

(** * Facts *)

Lemma le_enc_le_val l : bytes l -> le_enc (length l) (le_val l) = l.
Proof.
  intros Hb; unfold le_enc, le_val; rewrite <- (length_rev l), be_enc_be_val; [apply rev_involutive|].
  now apply Forall_rev.
Qed.

Lemma le_val_le_enc n v : le_val (le_enc n v) = v mod 256 ^ Z.of_nat n.
Proof. unfold le_val, le_enc; rewrite rev_involutive; apply be_val_be_enc. Qed.

Lemma zlen_le_enc n v : zlen (le_enc n v) = Z.of_nat n.
Proof. unfold le_enc, zlen; rewrite length_rev, length_be_enc; reflexivity. Qed.

Lemma bytes_le_enc n v : bytes (le_enc n v).
Proof. apply Forall_rev, bytes_be_enc. Qed.

Lemma le_val_bounds l : bytes l -> 0 <= le_val l < 256 ^ zlen l.
Proof.
  intros Hb; unfold le_val; assert (bytes (rev l)) as Hr by now apply Forall_rev.
  pose proof (be_val_nonneg _ Hr); pose proof (be_val_bound _ Hr).
  unfold zlen in *; rewrite length_rev in *; lia.
Qed.

Lemma le_val_cons x l : le_val (x :: l) = le_val l * 256 + x.
Proof. unfold le_val; cbn [rev]; apply be_val_snoc. Qed.

Lemma le_enc_S n v : le_enc (S n) v = v mod 256 :: le_enc n (v / 256).
Proof. unfold le_enc; cbn [be_enc]; now rewrite rev_app_distr. Qed.

(** The exclusive or of two words is that of their bytes. *)
Lemma le_lxor n : forall a b, length a = n -> length b = n -> bytes a -> bytes b ->
  le_enc n (Z.lxor (le_val a) (le_val b)) = zip_with Z.lxor a b.
Proof.
  induction n as [|n IH]; intros [|x a] [|y b] Ha Hb Hba Hbb; try discriminate; [reflexivity|].
  apply bytes_cons in Hba as [Hx Hba], Hbb as [Hy Hbb]; injection Ha as Ha; injection Hb as Hb.
  pose proof (lxor_small x y 8 ltac:(lia) Hx Hy) as Hxy; pose proof (lxor_split (le_val a) x (le_val b) y 8 ltac:(lia) Hx Hy) as E.
  change (2 ^ 8) with 256 in *; rewrite !le_val_cons, E, le_enc_S, mod_mul_add, div_mul_add by lia; cbn [zip_with].
  now rewrite IH.
Qed.

Lemma load_u32_be_spec l rest : bytes l -> zlen l = 4 -> CRYPTO_load_u32_be (l ++ rest) = be_val l.
Proof.
  intros Hb Hl; unfold CRYPTO_load_u32_be, le_val; rewrite ztake_app_eq by auto.
  rewrite bswap4_rev; [now rewrite rev_involutive|now apply Forall_rev|].
  rewrite length_rev; unfold zlen in Hl; lia.
Qed.

Lemma load_u64_be_spec l rest : bytes l -> zlen l = 8 -> CRYPTO_load_u64_be (l ++ rest) = be_val l.
Proof.
  intros Hb Hl; unfold CRYPTO_load_u64_be, le_val; rewrite ztake_app_eq by auto.
  rewrite bswap8_rev; [now rewrite rev_involutive|now apply Forall_rev|].
  rewrite length_rev; unfold zlen in Hl; lia.
Qed.

Lemma be_val_of_word n v : 0 <= v < 256 ^ Z.of_nat n -> be_val (be_enc n v) = v.
Proof. intros; rewrite be_val_be_enc; now apply Z.mod_small. Qed.

Lemma store_u32_be_spec v : 0 <= v < 2 ^ 32 -> CRYPTO_store_u32_be v = be_enc 4 v.
Proof.
  intros Hv; unfold CRYPTO_store_u32_be, le_enc.
  rewrite <- (be_val_of_word 4 v) at 1 by (change (256 ^ Z.of_nat 4) with (2 ^ 32); lia).
  pose proof (bytes_be_enc 4 v) as Hb; pose proof (length_be_enc 4 v) as Hl.
  rewrite bswap4_rev by auto; rewrite <- (length_rev (be_enc 4 v)) in Hl.
  rewrite <- Hl at 1; rewrite be_enc_be_val by now apply Forall_rev.
  apply rev_involutive.
Qed.

Lemma store_u64_be_spec v : 0 <= v < 2 ^ 64 -> CRYPTO_store_u64_be v = be_enc 8 v.
Proof.
  intros Hv; unfold CRYPTO_store_u64_be, le_enc.
  rewrite <- (be_val_of_word 8 v) at 1 by (change (256 ^ Z.of_nat 8) with (2 ^ 64); lia).
  pose proof (bytes_be_enc 8 v) as Hb; pose proof (length_be_enc 8 v) as Hl.
  rewrite bswap8_rev by auto; rewrite <- (length_rev (be_enc 8 v)) in Hl.
  rewrite <- Hl at 1; rewrite be_enc_be_val by now apply Forall_rev.
  apply rev_involutive.
Qed.

(** The encoding of a word made of two parts. *)
Lemma be_enc_app n m a b : 0 <= b < 256 ^ Z.of_nat m ->
  be_enc (n + m) (a * 256 ^ Z.of_nat m + b) = be_enc n a ++ be_enc m b.
Proof.
  revert b; induction m as [|m IH]; intros b Hb.
  - rewrite Nat.add_0_r; cbn [be_enc]; rewrite app_nil_r; f_equal; cbn in *; lia.
  - rewrite <- plus_n_Sm; cbn [be_enc]; rewrite Nat2Z.inj_succ, Z.pow_succ_r in * by lia.
    pose proof (Z.div_mod b 256 ltac:(lia)); pose proof (Z.mod_pos_bound b 256 ltac:(lia)).
    replace (a * (256 * 256 ^ Z.of_nat m) + b) with ((a * 256 ^ Z.of_nat m + b / 256) * 256 + b mod 256) by lia.
    assert (0 <= b / 256 < 256 ^ Z.of_nat m) by (split; [apply Z.div_pos|apply Z.div_lt_upper_bound]; lia).
    rewrite div_mul_add, mod_mul_add, IH by lia.
    now rewrite <- app_assoc.
Qed.

(** ** Rotations *)

(** The rotation of a [w]-bit word to the left by [s] bits. *)
Definition rotl (w x s : Z) : Z := Z.lor (uw w (Z.shiftl x s)) (Z.shiftr x (w - s)).

Lemma rotl_bits w x s i : 0 <= x < 2 ^ w -> 0 < s < w -> 0 <= i < w ->
  Z.testbit (rotl w x s) i = Z.testbit x ((i - s) mod w).
Proof.
  intros Hx Hs Hi; unfold rotl, uw; rewrite Z.lor_spec, Z.mod_pow2_bits_low, Z.shiftl_spec, Z.shiftr_spec by lia.
  destruct (Z.lt_ge_cases i s).
  - rewrite (Z.testbit_neg_r x (i - s)) by lia; cbn [orb]; f_equal.
    rewrite <- (Z_mod_plus_full (i - s) 1 w), Z.mod_small by lia; lia.
  - rewrite (testbit_high x w (i + (w - s))) by lia; rewrite orb_false_r, Z.mod_small by lia; reflexivity.
Qed.

Lemma rotl_bound w x s : 0 <= x < 2 ^ w -> 0 <= s <= w -> 0 <= rotl w x s < 2 ^ w.
Proof.
  intros Hx Hs; apply lor_small; [lia|apply uw_bound; lia|].
  rewrite Z.shiftr_div_pow2 by lia; split; [apply Z.div_pos; lia|].
  apply Z.div_lt_upper_bound; [apply Z.pow_pos_nonneg; lia|].
  assert (1 <= 2 ^ (w - s)) by (change 1 with (2 ^ 0); apply Z.pow_le_mono_r; lia); nia.
Qed.

(** [(-s) & 31] is [32 - s]. *)
Lemma neg_mask k s : 0 < s < 2 ^ k -> 0 <= k -> Z.land (- s) (2 ^ k - 1) = 2 ^ k - s.
Proof.
  intros Hs Hk; rewrite land_low by lia.
  rewrite <- (Z_mod_plus_full (- s) 1), Z.mod_small; lia.
Qed.

Lemma rotl_u32_spec x s : 0 < s < 32 -> CRYPTO_rotl_u32 x s = rotl 32 x s.
Proof. intros; unfold CRYPTO_rotl_u32, rotl; change 31 with (2 ^ 5 - 1); now rewrite neg_mask by (pow2; lia). Qed.

Lemma rotr_u32_spec x s : 0 < s < 32 -> CRYPTO_rotr_u32 x s = rotl 32 x (32 - s).
Proof.
  intros; unfold CRYPTO_rotr_u32, rotl; change 31 with (2 ^ 5 - 1); rewrite neg_mask by (pow2; lia).
  rewrite Z.lor_comm; do 2 f_equal; lia.
Qed.

Lemma rotl_u64_spec x s : 0 < s < 64 -> CRYPTO_rotl_u64 x s = rotl 64 x s.
Proof. intros; unfold CRYPTO_rotl_u64, rotl; change 63 with (2 ^ 6 - 1); now rewrite neg_mask by (pow2; lia). Qed.

Lemma rotr_u64_spec x s : 0 < s < 64 -> CRYPTO_rotr_u64 x s = rotl 64 x (64 - s).
Proof.
  intros; unfold CRYPTO_rotr_u64, rotl; change 63 with (2 ^ 6 - 1); rewrite neg_mask by (pow2; lia).
  rewrite Z.lor_comm; do 2 f_equal; lia.
Qed.

(** Rotating back: a rotation to the left undoes one to the right. *)
Lemma rotl_rotl w x s : 0 <= x < 2 ^ w -> 0 < s < w -> rotl w (rotl w x s) (w - s) = x.
Proof.
  intros Hx Hs; pose proof (rotl_bound w x s Hx ltac:(lia)) as Hr.
  apply Z.bits_inj'; intros i Hi; destruct (Z.lt_ge_cases i w).
  - pose proof (Z.mod_pos_bound (i - (w - s)) w ltac:(lia)).
    rewrite !rotl_bits by lia; f_equal.
    rewrite Zminus_mod_idemp_l; replace (i - (w - s) - s) with (i + (-1) * w) by lia.
    rewrite Z_mod_plus_full; apply Z.mod_small; lia.
  - rewrite !(testbit_high _ w) by (try apply rotl_bound; lia); reflexivity.
Qed.
