(* ===== verification/Md32.v ===== *)
(** The collector of the Merkle-Damgard hash functions:
    crypto/fipsmodule/digest/md32_common.h.

    A context holds the chaining value [h], the partial block [data] of which
    [num] bytes are in use, and the number of message bits as two 32-bit words.
    The compression function is a parameter; what the collector needs of it is
    the class [BlockFunc]: it takes the blocks one after the other. *)

From S2P Require Import Prelude Cbs Words.

Record md_state : Type := {
  h : list Z;
  data : list Z;
  num : Z;
  Nh : Z;
  Nl : Z
}.

(** A [crypto_md32_block_func]: chaining value, input, number of blocks. *)
Definition block_fn : Type := list Z -> list Z -> Z -> list Z.

Section Collector.
  Variables (block_func : block_fn) (block_size : Z).

(** The part of [crypto_md32_update] after the partial block has been dealt
    with: full blocks straight from the input, the rest kept in [data]. *)
Definition md32_update_tail (c : md_state) (inp : list Z) : md_state :=
  let n := zlen inp / block_size in
  let h' := if 0 <? n then block_func (h c) inp n else h c in
  let inp := if 0 <? n then zdrop (n * block_size) inp else inp in
  if negb (zlen inp =? 0) then
    {| h := h'; data := zsplice (data c) 0 inp; num := u32 (zlen inp); Nh := Nh c; Nl := Nl c |}
  else {| h := h'; data := data c; num := num c; Nh := Nh c; Nl := Nl c |}.

Definition crypto_md32_update (c : md_state) (inp : list Z) : md_state :=
  let len := zlen inp in
  if len =? 0 then c
  else
    let l := u32 (Nl c + u32 (Z.shiftl (u32 len) 3)) in
    let nh := if l <? Nl c then u32 (Nh c + 1) else Nh c in
    let nh := u32 (nh + u32 (Z.shiftr len 29)) in
    let n := num c in
    if negb (n =? 0) then
      if (block_size <=? len) || (block_size <=? u64 (len + n)) then
        let block := zsplice (data c) n (ztake (block_size - n) inp) in
        md32_update_tail
          {| h := block_func (h c) block 1; data := zsplice block 0 (zrep block_size 0);
             num := 0; Nh := nh; Nl := l |}
          (zdrop (block_size - n) inp)
      else
        {| h := h c; data := zsplice (data c) n inp; num := u32 (n + u32 len); Nh := nh; Nl := l |}
    else md32_update_tail {| h := h c; data := data c; num := num c; Nh := nh; Nl := l |} inp.

Definition crypto_md32_final (is_big_endian : bool) (c : md_state) : md_state :=
  let n := num c in
  let block := zsplice (data c) n [0x80] in
  let n := n + 1 in
  let '(h', block, n) :=
    if block_size - 8 <? n then
      let block := zsplice block n (zrep (block_size - n) 0) in
      (block_func (h c) block 1, block, 0)
    else (h c, block, n) in
  let block := zsplice block n (zrep (block_size - 8 - n) 0) in
  let block :=
    if is_big_endian then
      zsplice (zsplice block (block_size - 8) (CRYPTO_store_u32_be (Nh c)))
        (block_size - 4) (CRYPTO_store_u32_be (Nl c))
    else
      zsplice (zsplice block (block_size - 8) (CRYPTO_store_u32_le (Nl c)))
        (block_size - 4) (CRYPTO_store_u32_le (Nh c)) in
  {| h := block_func h' block 1; data := zsplice block 0 (zrep block_size 0); num := 0;
     Nh := Nh c; Nl := Nl c |}.
End Collector.

(** A context after the [memset] of an [Init] function and the stores of the
    initial chaining value. *)
Definition md_init (iv : list Z) (block_size : Z) : md_state :=
  {| h := iv; data := zrep block_size 0; num := 0; Nh := 0; Nl := 0 |}.

(** The loop of a block function around one iteration [one]: the C code of
    every hash function here is of this shape. *)
Fixpoint block_loop (one : list Z -> list Z -> list Z) (block_size : Z) (n : nat) (state d : list Z) : list Z :=
  match n with
  | O => state
  | S n => block_loop one block_size n (one state d) (zdrop block_size d)
  end.

(** * What the collector promises *)

(** A block function reads the blocks of its input one after the other. It is
    never called with no blocks. *)
Class BlockFunc (block_func : block_fn) (block_size : Z) : Prop := {
  block_func_prefix : forall h b d, zlen b = block_size -> block_func h (b ++ d) 1 = block_func h b 1;
  block_func_loop : forall h d n, 1 <= n < 2 ^ 64 ->
    block_func h d n = block_loop (fun h b => block_func h b 1) block_size (Z.to_nat n) h d;
  block_size_range : 16 <= block_size < 2 ^ 31
}.

Section Correctness.
  Context {block_func : block_fn} {block_size : Z} `{!BlockFunc block_func block_size}.

(** The chaining value after [n] blocks of [d]. *)
Definition absorb (h0 d : list Z) (n : Z) : list Z :=
  block_loop (fun h b => block_func h b 1) block_size (Z.to_nat n) h0 d.

Lemma absorb_0 h0 d : absorb h0 d 0 = h0.
Proof. reflexivity. Qed.

Lemma absorb_1 h0 d : absorb h0 d 1 = block_func h0 d 1.
Proof. reflexivity. Qed.

Lemma absorb_S h0 b d n : zlen b = block_size -> 0 <= n ->
  absorb h0 (b ++ d) (n + 1) = absorb (absorb h0 b 1) d n.
Proof.
  intros Hb Hn; unfold absorb; replace (Z.to_nat (n + 1)) with (S (Z.to_nat n)) by lia.
  change (Z.to_nat 1) with 1%nat; cbn [block_loop].
  rewrite block_func_prefix, zdrop_app_eq by auto; reflexivity.
Qed.

(** Blocks can be given in two parts, and bytes after the last are ignored. *)
Lemma absorb_app n : forall h0 d1 d2 m, zlen d1 = Z.of_nat n * block_size -> 0 <= m ->
  absorb h0 (d1 ++ d2) (Z.of_nat n + m) = absorb (absorb h0 d1 (Z.of_nat n)) d2 m.
Proof.
  pose proof block_size_range as Hbs.
  induction n as [|n IH]; intros h0 d1 d2 m Hd Hm.
  - rewrite absorb_0; replace (Z.of_nat 0 + m) with m by lia.
    now rewrite (zlen_0_nil d1) by (rewrite Hd; lia).
  - assert (0 <= Z.of_nat n * block_size) by (apply Z.mul_nonneg_nonneg; lia).
    replace (Z.of_nat (S n)) with (1 + Z.of_nat n) in Hd by lia; rewrite Z.mul_add_distr_r in Hd.
    rewrite <- (ztake_zdrop block_size d1), <- app_assoc.
    assert (zlen (ztake block_size d1) = block_size) as Hb by (apply zlen_ztake; lia).
    replace (Z.of_nat (S n) + m) with (Z.of_nat n + m + 1) by lia.
    replace (Z.of_nat (S n)) with (Z.of_nat n + 1) by lia.
    rewrite !absorb_S by (auto; lia); apply IH; auto.
    rewrite zlen_zdrop by lia; lia.
Qed.

Lemma absorb_split h0 d1 d2 n m : zlen d1 = n * block_size -> 0 <= n -> 0 <= m ->
  absorb h0 (d1 ++ d2) (n + m) = absorb (absorb h0 d1 n) d2 m.
Proof. intros; replace n with (Z.of_nat (Z.to_nat n)) in * by lia; now apply absorb_app. Qed.

Lemma absorb_extra h0 d1 d2 n : zlen d1 = n * block_size -> 0 <= n ->
  absorb h0 (d1 ++ d2) n = absorb h0 d1 n.
Proof.
  intros; replace n with (n + 0) at 1 by lia; rewrite absorb_split by lia; apply absorb_0.
Qed.

(** ** The invariant *)

(** The chaining value [hh] and the buffer [dd] with [nn] bytes in use have
    taken in [msg]: all full blocks are absorbed and the rest of it is at the
    start of the buffer. *)
Definition holds (iv hh dd : list Z) (nn : Z) (msg : list Z) : Prop :=
  zlen dd = block_size /\
  exists blocks part n, msg = blocks ++ part /\ 0 <= n /\ zlen blocks = n * block_size /\
    zlen part < block_size /\ hh = absorb iv blocks n /\ nn = zlen part /\ ztake (zlen part) dd = part.

Lemma holds_init iv dd : zlen dd = block_size -> holds iv iv dd 0 [].
Proof.
  pose proof block_size_range; intros Hd; split; [auto|]; exists [], [], 0.
  rewrite absorb_0; cbn; repeat split; try lia; zl.
Qed.

(** Completing the partial block. *)
Lemma holds_fill iv hh dd nn msg inp dd' : holds iv hh dd nn msg -> block_size - nn <= zlen inp -> zlen dd' = block_size ->
  holds iv (block_func hh (zsplice dd nn (ztake (block_size - nn) inp)) 1) dd' 0 (msg ++ ztake (block_size - nn) inp).
Proof.
  pose proof block_size_range as Hbs.
  intros (Hd & blocks & part & n & -> & Hn & Hb & Hp & -> & -> & Hpart) Hl Hd'.
  pose proof (zlen_nonneg part); set (k := block_size - zlen part) in *.
  assert (zsplice dd (zlen part) (ztake k inp) = part ++ ztake k inp) as ->.
  { unfold zsplice; rewrite Hpart, zlen_ztake, zdrop_all, app_nil_r by (unfold k; lia); reflexivity. }
  assert (zlen (part ++ ztake k inp) = block_size) as Hblk by (rewrite zlen_app, zlen_ztake; unfold k; lia).
  split; [auto|]; exists (blocks ++ part ++ ztake k inp), [], (n + 1).
  rewrite app_nil_r, <- absorb_1, <- absorb_split by lia; rewrite zlen_app, Hblk, Hb, <- app_assoc.
  change (zlen (@nil Z)) with 0; repeat split; lia.
Qed.

(** Input that does not complete it. *)
Lemma holds_keep iv hh dd nn msg inp : holds iv hh dd nn msg -> zlen inp + nn < block_size ->
  holds iv hh (zsplice dd nn inp) (nn + zlen inp) (msg ++ inp).
Proof.
  intros (Hd & blocks & part & n & -> & Hn & Hb & Hp & -> & -> & Hpart) Hl.
  pose proof (zlen_nonneg part); pose proof (zlen_nonneg inp).
  split; [rewrite zlen_zsplice; lia|]; exists blocks, (part ++ inp), n.
  rewrite <- app_assoc, zlen_app; repeat split; auto; try lia.
  rewrite ztake_zsplice by lia; now rewrite Hpart.
Qed.

(** Input on top of an empty buffer: full blocks are absorbed directly. *)
Lemma holds_tail iv c msg inp : holds iv (h c) (data c) 0 msg -> num c = 0 -> zlen inp < 2 ^ 64 ->
  let c' := md32_update_tail block_func block_size c inp in
  holds iv (h c') (data c') (num c') (msg ++ inp) /\ Nh c' = Nh c /\ Nl c' = Nl c.
Proof.
  pose proof block_size_range as Hbs.
  intros (Hd & blocks & part0 & n & -> & Hn & Hb & _ & Hh & Hp0 & _) Hnum Hinp; cbv zeta.
  rewrite (zlen_0_nil part0 (eq_sym Hp0)), app_nil_r; clear part0 Hp0.
  pose proof (zlen_nonneg inp); set (q := zlen inp / block_size).
  pose proof (Z.div_mod (zlen inp) block_size ltac:(lia)) as Hdm; fold q in Hdm.
  pose proof (Z.mod_pos_bound (zlen inp) block_size ltac:(lia)) as Hr.
  assert (0 <= q) as Hq by (apply Z.div_pos; lia).
  unfold md32_update_tail; fold q.
  assert ((if 0 <? q then zdrop (q * block_size) inp else inp) = zdrop (q * block_size) inp) as ->.
  { destruct (Z.ltb_spec 0 q); [auto|]; now replace q with 0 by lia. }
  set (part := zdrop (q * block_size) inp).
  assert (zlen part = zlen inp mod block_size) as Hp by (unfold part; rewrite zlen_zdrop; lia).
  assert (inp = ztake (q * block_size) inp ++ part) as Ei by (symmetry; apply ztake_zdrop).
  assert (zlen (ztake (q * block_size) inp) = q * block_size) as Ht by (apply zlen_ztake; lia).
  assert ((if 0 <? q then block_func (h c) inp q else h c) = absorb iv (blocks ++ ztake (q * block_size) inp) (n + q)) as ->.
  { rewrite absorb_split, <- Hh by lia; destruct (Z.ltb_spec 0 q).
    - rewrite block_func_loop by (assert (q <= zlen inp) by nia; lia).
      change (absorb (h c) inp q = absorb (h c) (ztake (q * block_size) inp) q); rewrite Ei at 1; now apply absorb_extra.
    - replace q with 0 by lia; now rewrite absorb_0. }
  assert (blocks ++ inp = (blocks ++ ztake (q * block_size) inp) ++ part) as Eb by (now rewrite <- app_assoc, <- Ei).
  destruct (Z.eqb_spec (zlen part) 0) as [E0|E0]; cbn [negb h data num Nh Nl]; (split; [|auto]).
  - split; [auto|]; exists (blocks ++ ztake (q * block_size) inp), part, (n + q).
    rewrite E0, zlen_app, Hb, Ht, (zlen_0_nil part E0) in *; repeat split; auto; lia.
  - split; [apply eq_trans with (zlen (data c)); [apply zlen_zsplice|]; lia|].
    exists (blocks ++ ztake (q * block_size) inp), part, (n + q).
    rewrite zlen_app, Hb, Ht, uw_small by (pow2; lia); repeat split; auto; try lia.
    rewrite zsplice_0; now apply ztake_app.
Qed.

Lemma holds_num iv hh dd nn msg : holds iv hh dd nn msg -> 0 <= nn < block_size.
Proof. intros (_ & blocks & part & n & _ & _ & _ & Hp & _ & -> & _); zl. Qed.

(** The context has taken in [msg], and the two words count its bits. *)
Record absorbs (iv : list Z) (c : md_state) (msg : list Z) : Prop := {
  abs_holds : holds iv (h c) (data c) (num c) msg;
  abs_words : 0 <= Nl c < 2 ^ 32 /\ 0 <= Nh c < 2 ^ 32;
  abs_bits : Nh c * 2 ^ 32 + Nl c = (8 * zlen msg) mod 2 ^ 64
}.

Lemma md_init_absorbs iv : absorbs iv (md_init iv block_size) [].
Proof.
  pose proof block_size_range; split; cbn [md_init h data num Nh Nl]; [|lia|reflexivity].
  apply holds_init, zlen_zrep; lia.
Qed.

(** Adding a number of two words to the two counter words, with the carry
    detected by comparison. *)
Lemma counter_carry w nl nh lo hi : 0 < w -> 0 <= nl < 2 ^ w -> 0 <= lo < 2 ^ w ->
  let l := uw w (nl + lo) in
  let nh1 := if l <? nl then uw w (nh + 1) else nh in
  uw w (nh1 + hi) * 2 ^ w + l = ((nh * 2 ^ w + nl) + (hi * 2 ^ w + lo)) mod 2 ^ (2 * w).
Proof.
  intros Hw Hl Hlo; cbv zeta; unfold uw; assert (0 < 2 ^ w) as Hp by (apply Z.pow_pos_nonneg; lia).
  assert (2 ^ (2 * w) = 2 ^ w * 2 ^ w) as E2 by (rewrite <- Z.pow_add_r by lia; f_equal; lia).
  rewrite E2; set (B := 2 ^ w) in *; clearbody B; clear E2.
  assert (forall x y, 0 <= y < B -> (x * B + y) mod (B * B) = x mod B * B + y) as Hm.
  { intros x y Hy; pose proof (Z.div_mod x B ltac:(lia)); pose proof (Z.mod_pos_bound x B ltac:(lia)).
    replace (x * B + y) with (x / B * (B * B) + (x mod B * B + y)) by nia.
    apply mod_mul_add; nia. }
  replace (nh * B + nl + (hi * B + lo)) with ((nh + hi) * B + (nl + lo)) by lia.
  destruct (Z.lt_ge_cases (nl + lo) B).
  - rewrite (Z.mod_small (nl + lo)) by lia; rewrite (proj2 (Z.ltb_ge _ _)) by lia.
    rewrite Hm by lia; reflexivity.
  - assert ((nl + lo) mod B = nl + lo - B) as E by (rewrite <- (Z_mod_plus_full _ (-1)), Z.mod_small; lia).
    rewrite E, (proj2 (Z.ltb_lt _ _)), Z.add_mod_idemp_l by lia.
    replace ((nh + hi) * B + (nl + lo)) with ((nh + 1 + hi) * B + (nl + lo - B)) by lia.
    now rewrite Hm by lia.
Qed.

(** The two counter words after [len] more bytes. *)
Lemma counter_step nl nh len total : 0 <= nl < 2 ^ 32 -> 0 <= len < 2 ^ 64 ->
  nh * 2 ^ 32 + nl = (8 * total) mod 2 ^ 64 ->
  let l := u32 (nl + u32 (Z.shiftl (u32 len) 3)) in
  let nh1 := if l <? nl then u32 (nh + 1) else nh in
  let nh2 := u32 (nh1 + u32 (Z.shiftr len 29)) in
  nh2 * 2 ^ 32 + l = (8 * (total + len)) mod 2 ^ 64.
Proof.
  intros Hl Hn Ht; pose proof (uw_bound 32 (Z.shiftl (u32 len) 3) ltac:(lia)) as Hlo.
  pose proof (counter_carry 32 nl nh (u32 (Z.shiftl (u32 len) 3)) (u32 (Z.shiftr len 29)) ltac:(lia) Hl Hlo) as E.
  cbv zeta in *; rewrite E, Ht; change (2 * 32) with 64; rewrite Z.add_mod_idemp_l by lia; clear.
  rewrite Z.shiftl_mul_pow2, Z.shiftr_div_pow2, Z.mul_add_distr_l by lia; unfold uw; change (2 ^ 3) with 8.
  rewrite Z.mul_mod_idemp_l by lia.
  pose proof (Z.div_mod (len / 2 ^ 29) (2 ^ 32)); pose proof (Z.div_mod len (2 ^ 29)).
  assert ((len * 8) mod 2 ^ 32 = len mod 2 ^ 29 * 8) as -> by
    (change (2 ^ 32) with (2 ^ 29 * 8); now rewrite Z.mul_mod_distr_r by lia).
  rewrite <- (Z_mod_plus_full _ (len / 2 ^ 29 / 2 ^ 32) (2 ^ 64)); f_equal; pow2; lia.
Qed.

Lemma update_absorbs iv c msg inp : absorbs iv c msg -> zlen inp < 2 ^ 63 ->
  absorbs iv (crypto_md32_update block_func block_size c inp) (msg ++ inp).
Proof.
  pose proof block_size_range as Hbs; intros [Hh [Hnl Hnh] Hbits] Hinp.
  unfold crypto_md32_update; pose proof (zlen_nonneg inp); pose proof (holds_num _ _ _ _ _ Hh) as Hnum.
  destruct (Z.eqb_spec (zlen inp) 0) as [E0|E0]; [rewrite (zlen_0_nil inp E0), app_nil_r; now split|].
  pose proof (counter_step (Nl c) (Nh c) (zlen inp) (zlen msg) Hnl ltac:(lia) Hbits) as Hc.
  rewrite <- zlen_app in Hc; cbv zeta in Hc.
  set (l := u32 (Nl c + _)) in *; set (nh := u32 (_ + u32 (Z.shiftr _ 29))) in *.
  assert (0 <= l < 2 ^ 32 /\ 0 <= nh < 2 ^ 32) as Hw by (split; apply uw_bound; lia).
  assert (forall c' msg', holds iv (h c') (data c') (num c') (msg ++ inp) /\ Nh c' = nh /\ Nl c' = l ->
    msg' = msg ++ inp -> absorbs iv c' msg') as Hdone.
  { intros c' msg' (Hc' & E1 & E2) ->; split; rewrite ?E1, ?E2; auto. }
  destruct (Z.eqb_spec (num c) 0) as [Ep|Ep]; cbn [negb].
  - eapply Hdone; [|reflexivity].
    apply (holds_tail iv {| h := h c; data := data c; num := num c; Nh := nh; Nl := l |}); cbn [h data num]; auto; [|lia].
    now rewrite <- Ep.
  - rewrite uw_small by (pow2; lia).
    destruct (Z.leb_spec block_size (zlen inp + num c)) as [Hfull|Hnot].
    + rewrite orb_true_r; eapply Hdone; [|reflexivity].
      assert (msg ++ inp = (msg ++ ztake (block_size - num c) inp) ++ zdrop (block_size - num c) inp) as -> by
        (rewrite <- app_assoc, ztake_zdrop; reflexivity).
      apply holds_tail; cbn [h data num]; auto; [|rewrite zlen_zdrop; lia].
      apply holds_fill; auto; [lia|]; destruct Hh as [Hd _].
      assert (zlen (zsplice (data c) (num c) (ztake (block_size - num c) inp)) = block_size) as Hz by
        (rewrite zlen_zsplice; rewrite ?zlen_ztake; lia).
      rewrite zlen_zsplice; rewrite ?zlen_zrep; lia.
    + rewrite (proj2 (Z.leb_gt block_size (zlen inp))), orb_false_l by lia.
      eapply Hdone; [|reflexivity]; cbn [h data num Nh Nl]; split; [|auto].
      rewrite (uw_small 32 (zlen inp)), uw_small by (pow2; lia); now apply holds_keep.
Qed.

(** ** The padding *)

(** A message, a one bit, zeros up to a whole number of blocks, and a
    trailer. *)
Definition pad_with (trailer msg : list Z) : list Z :=
  msg ++ [0x80] ++ zrep ((block_size - 1 - zlen trailer - zlen msg) mod block_size) 0 ++ trailer.

Lemma hash_of_blocks iv blocks n blks m padded :
  0 <= n -> 0 <= m -> zlen blocks = n * block_size -> zlen blks = m * block_size -> padded = blocks ++ blks ->
  absorb (absorb iv blocks n) blks m = absorb iv padded (zlen padded / block_size).
Proof.
  pose proof block_size_range as Hbs; intros Hn Hm Hb Hk ->.
  rewrite <- absorb_split by auto; f_equal.
  rewrite zlen_app, Hb, Hk, <- Z.mul_add_distr_r, Z.div_mul by lia; reflexivity.
Qed.

Lemma zrep_app {A} (x y : Z) (a : A) : 0 <= x -> 0 <= y -> zrep x a ++ zrep y a = zrep (x + y) a.
Proof. intros; unfold zrep; rewrite Z2Nat.inj_add, replicate_add by lia; reflexivity. Qed.

(** Overwriting the end of a block. *)
Lemma zsplice_end (pre old new : list Z) off : off = zlen pre -> zlen old = zlen new ->
  zsplice (pre ++ old) off new = pre ++ new.
Proof. intros -> E; rewrite <- (app_nil_r old), zsplice_mid, app_nil_r by auto; reflexivity. Qed.

(** The end of every hash function here: the one bit, an extra block if the
    trailer of length [L] does not fit, zeros, and the last block, in which
    [finish] has stored the trailer. *)
Lemma final_holds iv hh dd nn msg trailer (finish : list Z -> list Z) :
  holds iv hh dd nn msg -> 0 < zlen trailer < block_size ->
  (forall pre junk, zlen pre + zlen trailer = block_size -> zlen junk = zlen trailer ->
     finish (pre ++ junk) = pre ++ trailer) ->
  let L := zlen trailer in
  let block := zsplice dd nn [0x80] in
  let '(h', block, n) :=
    if block_size - L <? nn + 1 then
      let block := zsplice block (nn + 1) (zrep (block_size - (nn + 1)) 0) in
      (block_func hh block 1, block, 0)
    else (hh, block, nn + 1) in
  let last := finish (zsplice block n (zrep (block_size - L - n) 0)) in
  block_func h' last 1 = absorb iv (pad_with trailer msg) (zlen (pad_with trailer msg) / block_size) /\
  zlen last = block_size.
Proof.
  pose proof block_size_range as Hbs.
  intros (Hd & blocks & part & n & -> & Hn & Hb & Hp & -> & -> & Hpart) HL Hfin; cbv zeta.
  pose proof (zlen_nonneg part) as Hp0; set (L := zlen trailer) in *.
  assert (zlen (part ++ [0x80]) = zlen part + 1) as Hpl by zl.
  assert (zsplice dd (zlen part) [0x80] = (part ++ [0x80]) ++ zdrop (zlen part + 1) dd) as ->.
  { unfold zsplice; rewrite Hpart, <- app_assoc; reflexivity. }
  assert ((block_size - 1 - L - zlen (blocks ++ part)) mod block_size = (block_size - 1 - L - zlen part) mod block_size) as Hmod.
  { rewrite zlen_app, Hb, <- (Z_mod_plus_full (block_size - 1 - L - zlen part) (- n)); f_equal; lia. }
  destruct (Z.ltb_spec (block_size - L) (zlen part + 1)) as [Hlong|Hshort].
  - rewrite zsplice_end by (rewrite ?zlen_zdrop, ?zlen_zrep; lia).
    set (blk1 := (part ++ [128]) ++ zrep (block_size - (zlen part + 1)) 0).
    assert (zlen blk1 = block_size) as Hb1 by (unfold blk1; rewrite zlen_app, zlen_zrep; lia).
    assert (finish (zsplice blk1 0 (zrep (block_size - L - 0) 0)) = zrep (block_size - L) 0 ++ trailer) as ->.
    { rewrite zsplice_0, Z.sub_0_r, zlen_zrep by lia; apply Hfin; rewrite ?zlen_zrep, ?zlen_zdrop; lia. }
    split; [|rewrite zlen_app, zlen_zrep; lia].
    rewrite <- !absorb_1, <- (absorb_S _ blk1 _ 1) by (rewrite ?zlen_app, ?zlen_zrep; lia).
    apply hash_of_blocks; try (rewrite ?zlen_app, ?zlen_zrep; lia).
    unfold pad_with; fold L; rewrite Hmod, <- app_assoc; f_equal; unfold blk1; rewrite <- !app_assoc; do 2 f_equal.
    rewrite app_assoc, zrep_app by lia; do 2 f_equal.
    rewrite <- (Z_mod_plus_full _ 1), Z.mod_small; lia.
  - set (zs := zrep (block_size - L - (zlen part + 1)) 0).
    assert (zlen zs = block_size - L - (zlen part + 1)) as Hz by (apply zlen_zrep; lia).
    assert (finish (zsplice ((part ++ [128]) ++ zdrop (zlen part + 1) dd) (zlen part + 1) zs) =
            ((part ++ [128]) ++ zs) ++ trailer) as ->.
    { rewrite <- (ztake_zdrop (zlen zs) (zdrop (zlen part + 1) dd)), zsplice_mid by
        (rewrite ?zlen_ztake; try lia; rewrite zlen_zdrop; lia).
      rewrite app_assoc; apply Hfin; [rewrite zlen_app; lia|].
      rewrite !zlen_zdrop; rewrite ?zlen_zdrop; lia. }
    split; [|rewrite !zlen_app in *; lia].
    rewrite <- absorb_1; apply hash_of_blocks; try (rewrite ?zlen_app in *; lia).
    unfold pad_with; fold L; rewrite Hmod, <- !app_assoc; do 3 f_equal.
    unfold zs; rewrite Z.mod_small by lia; do 2 f_equal; lia.
Qed.

(** The trailer of the 32-bit hash functions: the length of the message in
    bits. *)
Definition md_trailer (big_endian : bool) (msg : list Z) : list Z :=
  let bits := (8 * zlen msg) mod 2 ^ 64 in
  if big_endian then be_enc 8 bits else le_enc 8 bits.

Definition md_pad (big_endian : bool) (msg : list Z) : list Z := pad_with (md_trailer big_endian msg) msg.

Lemma zlen_md_trailer (be : bool) msg : zlen (md_trailer be msg) = 8.
Proof. unfold md_trailer; destruct be; [apply zlen_be_enc|apply zlen_le_enc]. Qed.

(** The hash function that the code computes, before its output is encoded. *)
Definition md_hash (big_endian : bool) (iv msg : list Z) : list Z :=
  let padded := md_pad big_endian msg in absorb iv padded (zlen padded / block_size).

(** The two stores of [crypto_md32_final]. *)
Lemma length_words (be : bool) nh nl : 0 <= nl < 2 ^ 32 -> 0 <= nh < 2 ^ 32 ->
  (if be then CRYPTO_store_u32_be nh ++ CRYPTO_store_u32_be nl
   else CRYPTO_store_u32_le nl ++ CRYPTO_store_u32_le nh) =
  (if be then be_enc 8 (nh * 2 ^ 32 + nl) else le_enc 8 (nh * 2 ^ 32 + nl)).
Proof.
  intros Hl Hh; pose proof (be_enc_app 4 4 nh nl Hl) as E; change (256 ^ Z.of_nat 4) with (2 ^ 32) in E.
  change (4 + 4)%nat with 8%nat in E.
  destruct be; [now rewrite !store_u32_be_spec, E by auto|].
  unfold CRYPTO_store_u32_le, le_enc; now rewrite E, rev_app_distr.
Qed.

(** Two stores of [k] bytes that fill the end of a block. *)
Lemma two_stores (pre junk w1 w2 : list Z) k : zlen pre + 2 * k = block_size -> zlen junk = 2 * k ->
  zlen w1 = k -> zlen w2 = k ->
  zsplice (zsplice (pre ++ junk) (block_size - 2 * k) w1) (block_size - k) w2 = pre ++ w1 ++ w2.
Proof.
  intros Hp Hj H1 H2; pose proof (zlen_nonneg w1); rewrite <- (ztake_zdrop k junk).
  rewrite zsplice_mid by (rewrite ?zlen_ztake; lia).
  rewrite app_assoc, zsplice_end, <- app_assoc by (rewrite ?zlen_app, ?zlen_zdrop; lia); reflexivity.
Qed.

(** The digest of everything that has been taken in, and a context that is
    clean again. *)
Lemma final_absorbs (be : bool) iv c msg : absorbs iv c msg ->
  let c' := crypto_md32_final block_func block_size be c in
  h c' = md_hash be iv msg /\ num c' = 0 /\ data c' = zrep block_size 0.
Proof.
  pose proof block_size_range as Hbs; intros [Hh [Hnl Hnh] Hbits]; cbv zeta.
  set (finish := fun block => if be then
      zsplice (zsplice block (block_size - 8) (CRYPTO_store_u32_be (Nh c))) (block_size - 4) (CRYPTO_store_u32_be (Nl c))
    else
      zsplice (zsplice block (block_size - 8) (CRYPTO_store_u32_le (Nl c))) (block_size - 4) (CRYPTO_store_u32_le (Nh c))).
  pose proof (final_holds iv (h c) (data c) (num c) msg (md_trailer be msg) finish Hh) as Hf.
  rewrite (zlen_md_trailer be msg) in Hf; cbv zeta in Hf; specialize (Hf ltac:(lia)).
  assert (forall pre junk : list Z, zlen pre + 8 = block_size -> zlen junk = 8 -> finish (pre ++ junk) = pre ++ md_trailer be msg) as Hfin.
  { intros pre junk Hp Hj; unfold finish, md_trailer; rewrite <- Hbits, <- (length_words be) by auto.
    destruct be; apply (two_stores pre junk _ _ 4); try lia;
      rewrite ?store_u32_be_spec, ?zlen_be_enc by auto; try reflexivity; apply zlen_le_enc. }
  specialize (Hf Hfin); unfold crypto_md32_final.
  destruct (if block_size - 8 <? num c + 1 then _ else _) as [[h' block] n]; destruct Hf as [Hf Hl].
  cbn [h data num]; split; [exact Hf|split; [auto|]].
  change (if be then _ else _) with (finish (zsplice block n (zrep (block_size - 8 - n) 0))).
  rewrite zsplice_0, zdrop_all, app_nil_r by (rewrite zlen_zrep; lia); reflexivity.
Qed.

Lemma updates_absorb iv chunks : forall c msg, absorbs iv c msg -> Forall (fun x => zlen x < 2 ^ 63) chunks ->
  absorbs iv (fold_left (crypto_md32_update block_func block_size) chunks c) (msg ++ concat chunks).
Proof.
  induction chunks as [|x chunks IH]; intros c msg Hc Hz; cbn [fold_left concat]; [now rewrite app_nil_r|].
  inversion_clear Hz; rewrite app_assoc; apply IH; auto; now apply update_absorbs.
Qed.

Lemma zlen_pad_with trailer msg : zlen trailer < block_size ->
  exists n, 0 < n /\ zlen (pad_with trailer msg) = n * block_size.
Proof.
  pose proof block_size_range as Hbs; intros Ht; unfold pad_with; pose proof (zlen_nonneg msg).
  pose proof (zlen_nonneg trailer).
  set (x := block_size - 1 - zlen trailer - zlen msg); pose proof (Z.mod_pos_bound x block_size ltac:(lia)).
  pose proof (Z.div_mod x block_size ltac:(lia)).
  exists (1 - x / block_size); rewrite !zlen_app, zlen_zrep by lia; change (zlen [128]) with 1.
  assert (x / block_size < 1) by (apply Z.div_lt_upper_bound; unfold x; lia).
  unfold x in *; lia.
Qed.

Lemma bytes_pad_with trailer msg : bytes trailer -> bytes msg -> bytes (pad_with trailer msg).
Proof.
  intros Ht Hb; unfold pad_with; repeat (apply bytes_app; split); auto.
  - repeat constructor; unfold byte; lia.
  - unfold zrep; apply Forall_replicate; unfold byte; lia.
Qed.

Lemma bytes_md_trailer (be : bool) msg : bytes (md_trailer be msg).
Proof. unfold md_trailer; destruct be; [apply bytes_be_enc|apply bytes_le_enc]. Qed.
End Correctness.

(** The first [n] blocks of a byte string. *)
Fixpoint split_blocks (block_size : Z) (n : nat) (l : list Z) : list (list Z) :=
  match n with
  | O => []
  | S n => ztake block_size l :: split_blocks block_size n (zdrop block_size l)
  end.

(** The Merkle-Damgard construction: the compression function folded over the
    blocks of the padded message. *)
Definition merkle_damgard (compress : list Z -> list Z -> list Z) (block_size : Z) (trailer iv msg : list Z) : list Z :=
  let padded := pad_with (block_size := block_size) trailer msg in
  fold_left compress (split_blocks block_size (Z.to_nat (zlen padded / block_size)) padded) iv.

Lemma block_loop_fold one compress block_size n : forall state d,
  (forall state d, bytes d -> block_size <= zlen d -> one state d = compress state (ztake block_size d)) ->
  0 <= block_size -> bytes d -> block_size * Z.of_nat n <= zlen d ->
  block_loop one block_size n state d = fold_left compress (split_blocks block_size n d) state.
Proof.
  induction n as [|n IH]; intros state d Ho Hs Hb Hl; [reflexivity|]; cbn [block_loop split_blocks fold_left].
  rewrite Ho by (auto; nia); apply IH; auto with zlist; rewrite zlen_zdrop by nia; lia.
Qed.

Lemma block_loop_ext one one' block_size n : forall state d,
  (forall state d, one state d = one' state d) -> block_loop one block_size n state d = block_loop one' block_size n state d.
Proof. induction n as [|n IH]; intros state d H; cbn [block_loop]; [auto|]; now rewrite H, IH. Qed.

(** The hash computed with a block function whose blocks go through
    [compress] is the Merkle-Damgard hash of [compress]. *)
Lemma absorb_spec block_func block_size compress trailer iv msg `{!BlockFunc block_func block_size} :
  (forall state d, bytes d -> block_size <= zlen d -> block_func state d 1 = compress state (ztake block_size d)) ->
  zlen trailer < block_size -> bytes trailer -> bytes msg ->
  let padded := pad_with (block_size := block_size) trailer msg in
  absorb (block_func := block_func) (block_size := block_size) iv padded (zlen padded / block_size) =
  merkle_damgard compress block_size trailer iv msg.
Proof.
  intros Hc Hl Ht Hb; pose proof block_size_range as Hbs; unfold merkle_damgard, absorb; cbv zeta.
  destruct (zlen_pad_with (block_func := block_func) trailer msg Hl) as (n & Hn & E).
  apply block_loop_fold; auto; [lia|now apply bytes_pad_with|].
  rewrite E, Z.div_mul by lia; lia.
Qed.

Lemma md_hash_spec block_func block_size compress (be : bool) iv msg `{!BlockFunc block_func block_size} :
  (forall state d, bytes d -> block_size <= zlen d -> block_func state d 1 = compress state (ztake block_size d)) ->
  bytes msg ->
  md_hash (block_func := block_func) (block_size := block_size) be iv msg =
  merkle_damgard compress block_size (md_trailer be msg) iv msg.
Proof.
  intros Hc Hb; pose proof block_size_range as Hbs; apply absorb_spec; auto using bytes_md_trailer.
  rewrite zlen_md_trailer; lia.
Qed.

(** A [while (num--)] loop is a block function. *)
Lemma while_block_func one block_size :
  (forall state b d, zlen b = block_size -> one state (b ++ d) = one state b) -> 16 <= block_size < 2 ^ 31 ->
  BlockFunc (fun state d num => block_loop one block_size (Z.to_nat num) state d) block_size.
Proof.
  intros Hp Hs; split; [intros; cbn; now apply Hp|intros; apply block_loop_ext; reflexivity|exact Hs].
Qed.

(** So is a loop that ends with [if (--num == 0) break]. *)
Lemma dowhile_block_func one block_size :
  (forall state b d, zlen b = block_size -> one state (b ++ d) = one state b) -> 16 <= block_size < 2 ^ 31 ->
  BlockFunc (fun state d num => block_loop one block_size (S (Z.to_nat (u64 (num - 1)))) state d) block_size.
Proof.
  intros Hp Hs; split; [intros; cbn; now apply Hp| |exact Hs].
  intros state d n Hn; unfold u64, uw; rewrite (Z.mod_small (n - 1)) by lia.
  replace (S (Z.to_nat (n - 1))) with (Z.to_nat n) by lia; apply block_loop_ext; reflexivity.
Qed.

(** What a finished hash hands out: the words of its chaining value are
    machine words if the compression function produces such. *)
Lemma merkle_damgard_inv (P : list Z -> Prop) compress block_size trailer iv msg :
  16 <= block_size < 2 ^ 31 -> zlen trailer < block_size -> (forall state block, P (compress state block)) ->
  P (merkle_damgard compress block_size trailer iv msg).
Proof.
  intros Hs Ht HP; unfold merkle_damgard.
  assert (BlockFunc (fun state d num => block_loop (fun s _ => s) block_size (Z.to_nat num) state d) block_size) as HB
    by (apply while_block_func; auto).
  destruct (zlen_pad_with (block_size := block_size) trailer msg Ht) as (n & Hn & E).
  rewrite E, Z.div_mul by lia; destruct (Z.to_nat n) as [|k] eqn:Ek; [lia|].
  assert (forall l s, P s -> P (fold_left compress l s)) as Hf by (induction l; cbn; auto).
  cbn [split_blocks fold_left]; auto.
Qed.
