(* ===== verification/Sha2.v ===== *)
(** The structure that SHA-256 and SHA-512 share (the macros of
    crypto/fipsmodule/sha/sha256.c, lines 199-226, and sha512.c), and the
    compression function of FIPS 180-4 that both implement.

    The code keeps eight working variables whose roles rotate: instead of
    moving every variable one place on, each round is written with the names
    rotated, so that only two variables change. The message schedule lives in
    sixteen words that are overwritten in a circle. *)

From S2P Require Import Prelude Cbs Words.

(** Equality of two words bit by bit. *)
Ltac bitwise_eq i := apply Z.bits_inj'; intros i ?; rewrite ?Z.lxor_spec, ?Z.lor_spec, ?Z.land_spec, ?Z.lor_spec, ?Z.land_spec.

(** The eight working variables. *)
Definition regs : Type := (Z * Z * Z * Z * Z * Z * Z * Z)%type.

Section Sha2.
  Variables (w : Z) (Sigma0 Sigma1 sigma0 sigma1 : Z -> Z) (K : list Z).

(** * The code *)

Definition Ch (x y z : Z) : Z := Z.lxor (Z.land x y) (Z.land (uw w (Z.lnot x)) z).
Definition Maj (x y z : Z) : Z := Z.lxor (Z.lxor (Z.land x y) (Z.land x z)) (Z.land y z).

(** The new values of [d] and [h]. *)
Definition ROUND_00_15 (i T1 a b c d e f g h : Z) : Z * Z :=
  let T1 := uw w (T1 + (h + Sigma1 e + Ch e f g + znth K i)) in
  let h := uw w (Sigma0 a + Maj a b c) in
  let d := uw w (d + T1) in
  let h := uw w (h + T1) in
  (d, h).

(** The schedule part of [ROUND_16_63]: the value of [T1] and the array [X]
    after it has been updated. *)
Definition schedule_T1 (j : Z) (X : list Z) : Z * list Z :=
  let s0 := sigma0 (znth X (Z.land (j + 1) 0x0f)) in
  let s1 := sigma1 (znth X (Z.land (j + 14) 0x0f)) in
  let T1 := uw w (znth X (Z.land j 0x0f) + (s0 + s1 + znth X (Z.land (j + 9) 0x0f))) in
  (T1, zsplice X (Z.land j 0x0f) [T1]).

(** Eight rounds, written with rotated names: round [j + r] takes its schedule
    word from [next (j + r)] and its constant from [K[i + j + r]]. *)
Definition rounds8 (next : Z -> list Z -> Z * list Z) (i j : Z) (st : list Z * regs) : list Z * regs :=
  let '(X, (a, b, c, d, e, f, g, h)) := st in
  let '(T1, X) := next (j + 0) X in let '(d, h) := ROUND_00_15 (i + j + 0) T1 a b c d e f g h in
  let '(T1, X) := next (j + 1) X in let '(c, g) := ROUND_00_15 (i + j + 1) T1 h a b c d e f g in
  let '(T1, X) := next (j + 2) X in let '(b, f) := ROUND_00_15 (i + j + 2) T1 g h a b c d e f in
  let '(T1, X) := next (j + 3) X in let '(a, e) := ROUND_00_15 (i + j + 3) T1 f g h a b c d e in
  let '(T1, X) := next (j + 4) X in let '(h, d) := ROUND_00_15 (i + j + 4) T1 e f g h a b c d in
  let '(T1, X) := next (j + 5) X in let '(g, c) := ROUND_00_15 (i + j + 5) T1 d e f g h a b c in
  let '(T1, X) := next (j + 6) X in let '(f, b) := ROUND_00_15 (i + j + 6) T1 c d e f g h a b in
  let '(T1, X) := next (j + 7) X in let '(e, a) := ROUND_00_15 (i + j + 7) T1 b c d e f g h a in
  (X, (a, b, c, d, e, f, g, h)).

Definition load_regs (state : list Z) : regs :=
  (znth state 0, znth state 1, znth state 2, znth state 3,
   znth state 4, znth state 5, znth state 6, znth state 7).

(** [state[0] += a; ...; state[7] += h]. *)
Definition add_regs (state : list Z) (r : regs) : list Z :=
  let '(a, b, c, d, e, f, g, h) := r in
  [uw w (znth state 0 + a); uw w (znth state 1 + b); uw w (znth state 2 + c); uw w (znth state 3 + d);
   uw w (znth state 4 + e); uw w (znth state 5 + f); uw w (znth state 6 + g); uw w (znth state 7 + h)].

(** * FIPS 180-4, sections 6.2.2 and 6.4.2 *)

(** The choice and the majority of section 4.1, bit by bit: where [x] has a one the
    bit of [y], elsewhere that of [z]; and a one where two of the three have it. *)
Definition fips_Ch (x y z : Z) : Z := Z.lor (Z.land x y) (uw w (Z.ldiff z x)).
Definition fips_Maj (x y z : Z) : Z := Z.lor (Z.land x (Z.lor y z)) (Z.land y z).

Definition fips_round (k wt : Z) (r : regs) : regs :=
  let '(a, b, c, d, e, f, g, h) := r in
  let T1 := uw w (h + Sigma1 e + fips_Ch e f g + k + wt) in
  let T2 := uw w (Sigma0 a + fips_Maj a b c) in
  (uw w (T1 + T2), a, b, c, uw w (d + T1), e, f, g).

(** Rounds [t], ..., [t + n - 1]. *)
Fixpoint fips_rounds (W : Z -> Z) (t : Z) (n : nat) (r : regs) : regs :=
  match n with
  | O => r
  | S n => fips_rounds W (t + 1) n (fips_round (znth K t) (W t) r)
  end.

(** The first [16 + n] words of the message schedule. *)
Fixpoint fips_schedule (M : list Z) (n : nat) : list Z :=
  match n with
  | O => M
  | S n =>
      let W := fips_schedule M n in
      let t := 16 + Z.of_nat n in
      W ++ [uw w (sigma1 (znth W (t - 2)) + znth W (t - 7) + sigma0 (znth W (t - 15)) + znth W (t - 16))]
  end.

Definition fips_compress (rounds : nat) (state M : list Z) : list Z :=
  add_regs state (fips_rounds (znth (fips_schedule M (rounds - 16))) 0 rounds (load_regs state)).

(** * The code computes it *)

Lemma fips_rounds_app W n : forall t m r,
  fips_rounds W t (n + m) r = fips_rounds W (t + Z.of_nat n) m (fips_rounds W t n r).
Proof.
  induction n as [|n IH]; intros t m r; cbn [fips_rounds Nat.add]; [now rewrite Z.add_0_r|].
  rewrite IH; f_equal; lia.
Qed.

Lemma Ch_fips x y z : Ch x y z = fips_Ch x y z.
Proof.
  unfold Ch, fips_Ch; assert (Z.land (uw w (Z.lnot x)) z = uw w (Z.ldiff z x)) as ->.
  { unfold uw; destruct (Z.lt_ge_cases w 0) as [Hw|Hw]; [rewrite Z.pow_neg_r, !Z.mod_0_r, Z.land_comm by lia; symmetry; apply Z.ldiff_land|].
    bitwise_eq i; destruct (Z.lt_ge_cases i w); [rewrite !Z.mod_pow2_bits_low by lia|rewrite !Z.mod_pow2_bits_high by lia; reflexivity].
    rewrite Z.lnot_spec, Z.ldiff_spec by lia; apply andb_comm. }
  bitwise_eq i; unfold uw; destruct (Z.lt_ge_cases w 0) as [Hw|Hw]; [rewrite Z.pow_neg_r, !Z.mod_0_r, Z.ldiff_spec by lia|].
  2: destruct (Z.lt_ge_cases i w); [rewrite Z.mod_pow2_bits_low, Z.ldiff_spec by lia|rewrite Z.mod_pow2_bits_high by lia].
  all: destruct (Z.testbit x i), (Z.testbit y i), (Z.testbit z i); reflexivity.
Qed.

Lemma Maj_fips x y z : Maj x y z = fips_Maj x y z.
Proof. unfold Maj, fips_Maj; bitwise_eq i; destruct (Z.testbit x i), (Z.testbit y i), (Z.testbit z i); reflexivity. Qed.

Lemma ROUND_spec k wt a b c d e f g h :
  let '(d', h') := ROUND_00_15 k wt a b c d e f g h in
  fips_round (znth K k) wt (a, b, c, d, e, f, g, h) = (h', a, b, c, d', e, f, g).
Proof.
  unfold ROUND_00_15, fips_round; rewrite <- Ch_fips, <- Maj_fips.
  replace (wt + (h + Sigma1 e + Ch e f g + znth K k)) with (h + Sigma1 e + Ch e f g + znth K k + wt) by lia.
  now rewrite (Z.add_comm (uw w (Sigma0 a + Maj a b c))).
Qed.

(** [next] yields the words [W t], [W (t + 1)], ... in turn, keeping [Inv]. *)
Definition yields (next : Z -> list Z -> Z * list Z) (W : Z -> Z) (Inv : Z -> list Z -> Prop) (j t : Z) : Prop :=
  forall r X, 0 <= r < 8 -> Inv (t + r) X -> exists X', next (j + r) X = (W (t + r), X') /\ Inv (t + r + 1) X'.

Lemma fips_rounds8 W t r :
  let rd k r := fips_round (znth K (t + k)) (W (t + k)) r in
  fips_rounds W t 8 r = rd 7 (rd 6 (rd 5 (rd 4 (rd 3 (rd 2 (rd 1 (rd 0 r))))))).
Proof.
  cbv zeta; cbn [fips_rounds]; rewrite Z.add_0_r.
  repeat (rewrite <- !(Z.add_assoc t); cbn [Z.add Pos.add]); reflexivity.
Qed.

Lemma rounds8_spec next W Inv i j t X r : i + j = t -> yields next W Inv j t -> Inv t X ->
  exists X', rounds8 next i j (X, r) = (X', fips_rounds W t 8 r) /\ Inv (t + 8) X'.
Proof.
  intros Et Hy HI; rewrite fips_rounds8; cbv zeta; unfold rounds8; rewrite Et.
  destruct r as [[[[[[[a b] c] d] e] f] g] h].
  replace t with (t + 0) in HI by lia.
  do 8 match goal with
  | |- context [next (j + ?k) X] =>
      let E := fresh "E" in let HI' := fresh "HI" in
      destruct (Hy k X ltac:(lia) HI) as (? & E & HI'); rewrite E; clear E HI X; rename HI' into HI;
      match type of HI with Inv _ ?Y => rename Y into X end;
      match goal with |- context [ROUND_00_15 (t + k) ?wt ?a ?b ?c ?d ?e ?f ?g ?h] =>
        pose proof (ROUND_spec (t + k) wt a b c d e f g h) as P;
        destruct (ROUND_00_15 (t + k) wt a b c d e f g h) as [? ?]; rewrite P; clear P
      end;
      rewrite <- Z.add_assoc in HI; cbn [Z.add Pos.add Pos.succ] in HI
  end.
  eauto.
Qed.

(** Only the words that the rounds ask for matter. *)
Lemma rounds8_ext next next' i j st : (forall r X, 0 <= r < 8 -> next (j + r) X = next' (j + r) X) ->
  rounds8 next i j st = rounds8 next' i j st.
Proof.
  intros HE; unfold rounds8; destruct st as [X [[[[[[[a b] c] d] e] f] g] h]].
  do 8 match goal with
  | |- context [next (j + ?k) X] =>
      rewrite (HE k X) by lia; destruct (next' (j + k) X) as [? Y]; clear X; rename Y into X;
      match goal with |- context [ROUND_00_15 ?n ?wt ?a ?b ?c ?d ?e ?f ?g ?h] =>
        destruct (ROUND_00_15 n wt a b c d e f g h) as [? ?] end
  end.
  reflexivity.
Qed.

(** ** The circular schedule *)

(** The sixteen words are the last sixteen of the schedule before [t]. *)
Definition window (W : Z -> Z) (t : Z) (X : list Z) : Prop :=
  zlen X = 16 /\ forall k, 0 <= k -> t - 16 <= k < t -> znth X (k mod 16) = W k.

Lemma land_15 x : Z.land x 0x0f = x mod 16.
Proof. change 0x0f with (2 ^ 4 - 1); now rewrite land_low. Qed.

Lemma window_store W t X : 0 <= t -> window W t X -> window W (t + 1) (zsplice X (t mod 16) [W t]).
Proof.
  intros Ht [Hl HX]; pose proof (Z.mod_pos_bound t 16 ltac:(lia)).
  split; [rewrite zlen_zsplice; auto; change (zlen [W t]) with 1; lia|]; intros k Hk0 Hk.
  pose proof (Z.mod_pos_bound k 16 ltac:(lia)); rewrite znth_zsplice1 by lia.
  destruct (Z.eqb_spec (k mod 16) (t mod 16)) as [E|E].
  - replace k with t; [reflexivity|].
    pose proof (Z.div_mod k 16 ltac:(lia)); pose proof (Z.div_mod t 16 ltac:(lia)); lia.
  - apply HX; [lia|]; assert (k <> t) by (intros ->; now apply E); lia.
Qed.

(** The sixteen words of the block, loaded one by one. *)
Lemma load_yields (load : Z -> Z) W t : 0 <= t -> t + 8 <= 16 -> (forall k, 0 <= k < 16 -> load k = W k) ->
  yields (fun j X => (load j, zsplice X j [load j])) W (window W) t t.
Proof.
  intros H0 Ht HW r X Hr HX; rewrite HW by lia; eexists; split; [reflexivity|].
  apply window_store in HX; [|lia]; now rewrite Z.mod_small in HX by lia.
Qed.

Lemma schedule_yields W i j t : i + j = t -> i mod 16 = 0 -> 16 <= t ->
  (forall k, t <= k < t + 8 -> W k = uw w (sigma1 (W (k - 2)) + W (k - 7) + sigma0 (W (k - 15)) + W (k - 16))) ->
  yields schedule_T1 W (window W) j t.
Proof.
  intros <- Hi Ht HW r X Hr HX; unfold schedule_T1; rewrite !land_15; rewrite !Z.add_assoc in *.
  set (k := i + j + r) in *.
  assert (forall x y, x - y = - i -> (x mod 16) = (y mod 16)) as Hm.
  { intros x y E; replace x with (y + (- i / 16) * 16); [apply Z_mod_plus_full|].
    pose proof (Z.div_mod i 16 ltac:(lia)); pose proof (Z_div_exact_full_2 (- i) 16 ltac:(lia)) as Hd.
    rewrite Z.mod_opp_l_z in Hd by lia; specialize (Hd eq_refl); lia. }
  assert (forall d, 0 <= d < 16 -> znth X ((j + r + d) mod 16) = W (k - 16 + d)) as HX'.
  { intros d Hd; rewrite <- (proj2 HX) by (unfold k; lia); f_equal.
    transitivity ((k + d) mod 16); [apply Hm; unfold k; lia|].
    rewrite <- (Z_mod_plus_full (k - 16 + d) 1); f_equal; lia. }
  rewrite (HX' 1), (HX' 14), (HX' 9) by lia.
  pose proof (HX' 0 ltac:(lia)) as H0; rewrite Z.add_0_r in H0; rewrite H0.
  eexists; split.
  - f_equal; rewrite (HW k) by (unfold k; lia); f_equal.
    replace (k - 16 + 0) with (k - 16) by lia; replace (k - 16 + 1) with (k - 15) by lia.
    replace (k - 16 + 14) with (k - 2) by lia; replace (k - 16 + 9) with (k - 7) by lia; lia.
  - apply window_store in HX; [|unfold k; lia].
    rewrite (Hm (j + r) k) by (unfold k; lia).
    replace (uw w _) with (W k); [exact HX|].
    rewrite (HW k) by (unfold k; lia); f_equal.
    replace (k - 16 + 0) with (k - 16) by lia; replace (k - 16 + 1) with (k - 15) by lia.
    replace (k - 16 + 14) with (k - 2) by lia; replace (k - 16 + 9) with (k - 7) by lia; lia.
Qed.

(** ** The schedule of the standard *)

Lemma zlen_fips_schedule M n : zlen M = 16 -> zlen (fips_schedule M n) = 16 + Z.of_nat n.
Proof. intros HM; induction n as [|n IH]; cbn [fips_schedule]; [lia|]; rewrite zlen_app; change (zlen [_]) with 1; lia. Qed.

Lemma fips_schedule_prefix M n m t : zlen M = 16 -> (n <= m)%nat -> 0 <= t < 16 + Z.of_nat n ->
  znth (fips_schedule M m) t = znth (fips_schedule M n) t.
Proof.
  intros HM Hnm Ht; induction Hnm as [|m Hm IH]; [reflexivity|].
  cbn [fips_schedule]; rewrite znth_app1; [exact IH|]; rewrite zlen_fips_schedule by auto; lia.
Qed.

Lemma fips_schedule_rec M n t : zlen M = 16 -> 16 <= t < 16 + Z.of_nat n ->
  let W := znth (fips_schedule M n) in
  W t = uw w (sigma1 (W (t - 2)) + W (t - 7) + sigma0 (W (t - 15)) + W (t - 16)).
Proof.
  intros HM Ht; cbv zeta; set (m := Z.to_nat (t - 16)).
  assert (t = 16 + Z.of_nat m) as Em by (unfold m; lia).
  rewrite (fips_schedule_prefix M (S m) n t) by (auto; lia).
  cbn [fips_schedule]; rewrite znth_app2 by (rewrite zlen_fips_schedule by auto; lia).
  rewrite zlen_fips_schedule, <- Em, Z.sub_diag by auto.
  change (znth [?x] 0) with x.
  rewrite !(fips_schedule_prefix M m n) by (auto; lia); reflexivity.
Qed.

(** The rounds that follow the first sixteen, in groups of eight: [steps] are
    the arguments [i] and [j] of the groups. *)
Lemma schedule_groups M rounds (steps : list (Z * Z)) : forall t X r,
  zlen M = 16 -> 16 <= t -> Forall (fun s => fst s mod 16 = 0) steps ->
  map (fun s => fst s + snd s) steps = map (fun k => t + 8 * Z.of_nat k) (seq 0 (length steps)) ->
  t + 8 * Z.of_nat (length steps) <= 16 + Z.of_nat rounds ->
  let W := znth (fips_schedule M rounds) in
  window W t X ->
  snd (fold_left (fun st s => rounds8 schedule_T1 (fst s) (snd s) st) steps (X, r)) =
    fips_rounds W t (8 * length steps) r.
Proof.
  induction steps as [|[i j] steps IH]; intros t X r HM Ht Hi Es Hr W HX; [reflexivity|].
  inversion_clear Hi as [|? ? Hi0 Hi']; cbn [fst snd] in *.
  cbn [length seq map fst snd] in Es; injection Es as Es0 Es; cbn [length] in Hr |- *.
  replace (t + 8 * Z.of_nat 0) with t in Es0 by lia; cbn [fold_left fst snd].
  destruct (rounds8_spec schedule_T1 W (window W) i j t X r Es0) as (X' & E & HX').
  - apply (schedule_yields W i j t); auto; intros k Hk; apply fips_schedule_rec; auto; lia.
  - exact HX.
  - rewrite E, IH with (t := t + 8); auto; [|lia| |lia].
    + replace (8 * S (length steps))%nat with (8 + 8 * length steps)%nat by lia.
      rewrite fips_rounds_app; reflexivity.
    + rewrite Es, <- seq_shift, map_map; apply map_ext; intros; lia.
Qed.

(** The two ways in which the code makes the groups. *)
Lemma groups_of_8 next steps : forall st,
  fold_left (fun st i => rounds8 next 0 i st) steps st =
  fold_left (fun st s => rounds8 next (fst s) (snd s) st) (map (pair 0) steps) st.
Proof. induction steps as [|s steps IH]; intros st; cbn [fold_left map fst snd]; [reflexivity|apply IH]. Qed.

Lemma groups_of_16 next steps : forall st,
  fold_left (fun st i => rounds8 next i 8 (rounds8 next i 0 st)) steps st =
  fold_left (fun st s => rounds8 next (fst s) (snd s) st) (flat_map (fun i => [(i, 0); (i, 8)]) steps) st.
Proof. induction steps as [|s steps IH]; intros st; cbn [fold_left flat_map app fst snd]; [reflexivity|apply IH]. Qed.

(** The first sixteen rounds, which load the words of the block. *)
Lemma load_groups M rounds (load : Z -> Z) X r :
  zlen M = 16 -> zlen X = 16 -> (forall k, 0 <= k < 16 -> load k = znth M k) ->
  let W := znth (fips_schedule M rounds) in
  let next := fun j X => (load j, zsplice X j [load j]) in
  exists X', rounds8 next 0 8 (rounds8 next 0 0 (X, r)) = (X', fips_rounds W 0 16 r) /\ window W 16 X'.
Proof.
  intros HM HX Hl W next.
  assert (forall k, 0 <= k < 16 -> load k = W k) as HW.
  { intros k Hk; unfold W; rewrite (fips_schedule_prefix M 0 rounds k) by (auto; lia); cbn [fips_schedule]; auto. }
  destruct (rounds8_spec next W (window W) 0 0 0 X r eq_refl) as (X1 & E1 & H1).
  - apply load_yields; auto; lia.
  - split; [auto|lia].
  - destruct (rounds8_spec next W (window W) 0 8 8 X1 (fips_rounds W 0 8 r) eq_refl) as (X2 & E2 & H2).
    + apply load_yields; auto; lia.
    + exact H1.
    + exists X2; rewrite E1, E2; split; [|exact H2].
      change 16%nat with (8 + 8)%nat; now rewrite (fips_rounds_app W 8 0 8 r).
Qed.
End Sha2.

(** The compression function depends only on the values of its functions. *)
Lemma fips_compress_ext w S0 S1 s0 s1 S0' S1' s0' s1' K rounds state M :
  (forall x, S0 x = S0' x) -> (forall x, S1 x = S1' x) -> (forall x, s0 x = s0' x) -> (forall x, s1 x = s1' x) ->
  fips_compress w S0 S1 s0 s1 K rounds state M = fips_compress w S0' S1' s0' s1' K rounds state M.
Proof.
  intros HS0 HS1 Hs0 Hs1; unfold fips_compress; f_equal.
  assert (forall n, fips_schedule w s0 s1 M n = fips_schedule w s0' s1' M n) as -> by
    (induction n as [|n IH]; cbn; [auto|now rewrite IH, Hs0, Hs1]).
  generalize (znth (fips_schedule w s0' s1' M (rounds - 16))) as W; intros W.
  generalize 0 as t, (load_regs state) as r; induction rounds as [|n IH]; intros t r; cbn; [auto|].
  rewrite IH; f_equal; destruct r as [[[[[[[a b] c] d] e] f] g] h]; cbn; now rewrite HS0, HS1.
Qed.

(** * The constants of FIPS 180-4, sections 4.2 and 5.3

    The first [w] bits of the fractional parts of the [k]-th roots of the first
    primes. *)

Definition is_prime (n : nat) : bool :=
  forallb (fun d => negb (Nat.eqb (n mod d) 0)) (seq 2 (n - 2)).

Definition first_primes (n : nat) : list Z := map Z.of_nat (take n (List.filter is_prime (seq 2 500))).

(** The largest [x] below [2 ^ n] with [x ^ k <= y], found bit by bit. *)
Fixpoint root_bits (k y : Z) (n : nat) (x : Z) : Z :=
  match n with
  | O => x
  | S n => let x' := x + 2 ^ Z.of_nat n in root_bits k y n (if x' ^ k <=? y then x' else x)
  end.

Definition root_frac (k w p : Z) : Z := uw w (root_bits k (p * 2 ^ (k * w)) (Z.to_nat w + 5) 0).

Lemma root_bits_spec k y : 0 < k -> forall n x, 0 <= x -> x ^ k <= y < (x + 2 ^ Z.of_nat n) ^ k ->
  let r := root_bits k y n x in r ^ k <= y < (r + 1) ^ k.
Proof.
  intros Hk; induction n as [|n IH]; intros x Hx Hy; cbn [root_bits]; [exact Hy|].
  pose proof (Z.pow_pos_nonneg 2 (Z.of_nat n) ltac:(lia) ltac:(lia)).
  destruct (Z.leb_spec ((x + 2 ^ Z.of_nat n) ^ k) y) as [Hle|Hlt]; apply IH; try lia.
  split; [exact Hle|]; rewrite Nat2Z.inj_succ, Z.pow_succ_r in Hy by lia.
  now replace (x + 2 ^ Z.of_nat n + 2 ^ Z.of_nat n) with (x + 2 * 2 ^ Z.of_nat n) by lia.
Qed.

(** The digits are those of the root: the integer with them after the binary
    point is at most the root and less than one unit in the last place below. *)
Lemma root_frac_spec k w p : 0 < k -> 0 <= w -> 0 <= p < 32 ^ k ->
  exists r, root_frac k w p = uw w r /\ r ^ k <= p * 2 ^ (k * w) < (r + 1) ^ k.
Proof.
  intros Hk Hw Hp; eexists; split; [reflexivity|].
  apply root_bits_spec; [lia|lia|]; rewrite Z.pow_0_l by lia; split.
  - pose proof (Z.pow_pos_nonneg 2 (k * w) ltac:(lia) ltac:(lia)); nia.
  - rewrite Z.add_0_l, Nat2Z.inj_add, Z2Nat.id, Z.pow_add_r by lia.
    rewrite Z.pow_mul_l, <- (Z.pow_mul_r 2 w k), (Z.mul_comm w k) by lia.
    pose proof (Z.pow_pos_nonneg 2 (k * w) ltac:(lia) ltac:(lia)).
    change (2 ^ Z.of_nat 5) with 32; nia.
Qed.
