(* ===== verification/Sha256.v ===== *)
(** SHA-224 and SHA-256: crypto/fipsmodule/sha/sha256.c. The C block function
    is modelled (the assembly that replaces it on some platforms is not), and
    shown to be the compression function of FIPS 180-4; the streaming interface
    is shown to compute the hash of the standard however the message is cut. *)

From S2P Require Import Prelude Cbs Words Md32 Sha2.

Definition SHA256_CBLOCK : Z := 64.
Definition SHA224_DIGEST_LENGTH : Z := 28.
Definition SHA256_DIGEST_LENGTH : Z := 32.

(** Row by row as in the source. *)
Definition K256 : list Z := concat
  [[0x428a2f98; 0x71374491; 0xb5c0fbcf; 0xe9b5dba5; 0x3956c25b];
   [0x59f111f1; 0x923f82a4; 0xab1c5ed5; 0xd807aa98; 0x12835b01];
   [0x243185be; 0x550c7dc3; 0x72be5d74; 0x80deb1fe; 0x9bdc06a7];
   [0xc19bf174; 0xe49b69c1; 0xefbe4786; 0x0fc19dc6; 0x240ca1cc];
   [0x2de92c6f; 0x4a7484aa; 0x5cb0a9dc; 0x76f988da; 0x983e5152];
   [0xa831c66d; 0xb00327c8; 0xbf597fc7; 0xc6e00bf3; 0xd5a79147];
   [0x06ca6351; 0x14292967; 0x27b70a85; 0x2e1b2138; 0x4d2c6dfc];
   [0x53380d13; 0x650a7354; 0x766a0abb; 0x81c2c92e; 0x92722c85];
   [0xa2bfe8a1; 0xa81a664b; 0xc24b8b70; 0xc76c51a3; 0xd192e819];
   [0xd6990624; 0xf40e3585; 0x106aa070; 0x19a4c116; 0x1e376c08];
   [0x2748774c; 0x34b0bcb5; 0x391c0cb3; 0x4ed8aa4a; 0x5b9cca4f];
   [0x682e6ff3; 0x748f82ee; 0x78a5636f; 0x84c87814; 0x8cc70208];
   [0x90befffa; 0xa4506ceb; 0xbef9a3f7; 0xc67178f2]].

Definition Sigma0 (x : Z) : Z :=
  Z.lxor (Z.lxor (CRYPTO_rotr_u32 x 2) (CRYPTO_rotr_u32 x 13)) (CRYPTO_rotr_u32 x 22).
Definition Sigma1 (x : Z) : Z :=
  Z.lxor (Z.lxor (CRYPTO_rotr_u32 x 6) (CRYPTO_rotr_u32 x 11)) (CRYPTO_rotr_u32 x 25).
Definition sigma0 (x : Z) : Z :=
  Z.lxor (Z.lxor (CRYPTO_rotr_u32 x 7) (CRYPTO_rotr_u32 x 18)) (Z.shiftr x 3).
Definition sigma1 (x : Z) : Z :=
  Z.lxor (Z.lxor (CRYPTO_rotr_u32 x 17) (CRYPTO_rotr_u32 x 19)) (Z.shiftr x 10).

(** [T1 = X[j] = CRYPTO_load_u32_be(data + 4 * j)]. *)
Definition sha256_load (data : list Z) (j : Z) (X : list Z) : Z * list Z :=
  (CRYPTO_load_u32_be (zdrop (4 * j) data), zsplice X j [CRYPTO_load_u32_be (zdrop (4 * j) data)]).

(** One iteration of the loop of [sha256_block_data_order]; the array [X] is
    uninitialised before its sixteen words are loaded. *)
Definition sha256_block (state data : list Z) : list Z :=
  let rounds8 := rounds8 32 Sigma0 Sigma1 K256 in
  let schedule := schedule_T1 32 sigma0 sigma1 in
  let st := (zrep 16 0, load_regs state) in
  let st := rounds8 (sha256_load data) 0 0 st in
  let st := rounds8 (sha256_load data) 0 8 st in
  let st := fold_left (fun st i => rounds8 schedule 0 i st) [16; 24; 32; 40; 48; 56] st in
  add_regs 32 state (snd st).

Definition sha256_block_data_order (state data : list Z) (num : Z) : list Z :=
  block_loop sha256_block 64 (Z.to_nat num) state data.

Definition SHA256_TransformBlocks (state data : list Z) (num_blocks : Z) : list Z :=
  sha256_block_data_order state data num_blocks.

(** * The context *)

Record SHA256_CTX : Type := { sha_md : md_state; md_len : Z }.

Definition sha224_iv : list Z :=
  [0xc1059ed8; 0x367cd507; 0x3070dd17; 0xf70e5939;
   0xffc00b31; 0x68581511; 0x64f98fa7; 0xbefa4fa4].
Definition sha256_iv : list Z :=
  [0x6a09e667; 0xbb67ae85; 0x3c6ef372; 0xa54ff53a;
   0x510e527f; 0x9b05688c; 0x1f83d9ab; 0x5be0cd19].

Definition SHA224_Init : SHA256_CTX :=
  {| sha_md := md_init sha224_iv SHA256_CBLOCK; md_len := SHA224_DIGEST_LENGTH |}.
Definition SHA256_Init : SHA256_CTX :=
  {| sha_md := md_init sha256_iv SHA256_CBLOCK; md_len := SHA256_DIGEST_LENGTH |}.

Definition SHA256_Transform (c : SHA256_CTX) (block : list Z) : SHA256_CTX :=
  let m := sha_md c in
  {| sha_md := {| h := sha256_block_data_order (h m) block 1; data := data m; num := num m;
                  Nh := Nh m; Nl := Nl m |};
     md_len := md_len c |}.

Definition SHA256_Update (c : SHA256_CTX) (inp : list Z) : SHA256_CTX :=
  {| sha_md := crypto_md32_update sha256_block_data_order SHA256_CBLOCK (sha_md c) inp; md_len := md_len c |}.
Definition SHA224_Update (ctx : SHA256_CTX) (inp : list Z) : SHA256_CTX := SHA256_Update ctx inp.

(** The output bytes, or [None] when the function returns zero, and the
    context afterwards. *)
Definition sha256_final_impl (len : Z) (c : SHA256_CTX) : option (list Z) * SHA256_CTX :=
  let m := crypto_md32_final sha256_block_data_order SHA256_CBLOCK true (sha_md c) in
  let c := {| sha_md := m; md_len := md_len c |} in
  if SHA256_DIGEST_LENGTH <? len then (None, c)
  else
    let out_words := len / 4 in
    (Some (concat (map (fun i => CRYPTO_store_u32_be (znth (h m) (Z.of_nat i))) (seq 0 (Z.to_nat out_words)))), c).

Definition SHA256_Final (c : SHA256_CTX) : option (list Z) * SHA256_CTX := sha256_final_impl (md_len c) c.
Definition SHA224_Final (ctx : SHA256_CTX) : option (list Z) * SHA256_CTX :=
  sha256_final_impl SHA224_DIGEST_LENGTH ctx.

Definition SHA224 (data : list Z) : option (list Z) := fst (SHA224_Final (SHA224_Update SHA224_Init data)).
Definition SHA256 (data : list Z) : option (list Z) := fst (SHA256_Final (SHA256_Update SHA256_Init data)).

(** * The compression function is that of FIPS 180-4 *)

(** The functions of section 4.1.2, with [rotl 32 x (32 - n)] for ROTR. *)
Definition fips_Sigma0 (x : Z) : Z := Z.lxor (Z.lxor (rotl 32 x 30) (rotl 32 x 19)) (rotl 32 x 10).
Definition fips_Sigma1 (x : Z) : Z := Z.lxor (Z.lxor (rotl 32 x 26) (rotl 32 x 21)) (rotl 32 x 7).
Definition fips_sigma0 (x : Z) : Z := Z.lxor (Z.lxor (rotl 32 x 25) (rotl 32 x 14)) (Z.shiftr x 3).
Definition fips_sigma1 (x : Z) : Z := Z.lxor (Z.lxor (rotl 32 x 15) (rotl 32 x 13)) (Z.shiftr x 10).

Lemma Sigma_spec x : Sigma0 x = fips_Sigma0 x /\ Sigma1 x = fips_Sigma1 x /\
  sigma0 x = fips_sigma0 x /\ sigma1 x = fips_sigma1 x.
Proof.
  unfold Sigma0, Sigma1, sigma0, sigma1; rewrite !rotr_u32_spec by lia; now repeat split.
Qed.

(** The big-endian words of [k] bytes that make up a block. *)
Definition be_words (k : nat) (block : list Z) : list Z :=
  map (fun i => be_val (ztake (Z.of_nat k) (zdrop (Z.of_nat k * Z.of_nat i) block))) (seq 0 16).

Lemma znth_be_words k block i : 0 <= i < 16 ->
  znth (be_words k block) i = be_val (ztake (Z.of_nat k) (zdrop (Z.of_nat k * i) block)).
Proof.
  intros Hi; unfold be_words, znth.
  set (f := fun i => be_val _); rewrite (nth_indep _ 0 (f 0%nat)) by (rewrite length_map, length_seq; lia).
  rewrite map_nth, seq_nth by lia; unfold f; cbn [Nat.add]; now rewrite Z2Nat.id by lia.
Qed.

Definition sha256_compress : list Z -> list Z -> list Z :=
  fips_compress 32 fips_Sigma0 fips_Sigma1 fips_sigma0 fips_sigma1 K256 64.

Lemma sha256_block_spec state data : bytes data -> 64 <= zlen data ->
  sha256_block state data = sha256_compress state (be_words 4 data).
Proof.
  intros Hb Hl; unfold sha256_block, sha256_compress.
  assert (zlen (be_words 4 data) = 16) as HM by reflexivity.
  set (load := fun j => CRYPTO_load_u32_be (zdrop (4 * j) data)).
  destruct (load_groups 32 Sigma0 Sigma1 sigma0 sigma1 K256 (be_words 4 data) 48 load (zrep 16 0) (load_regs state))
    as (X & E & HX); auto.
  { intros k Hk; rewrite znth_be_words by auto; change (Z.of_nat 4) with 4.
    unfold load; rewrite <- (ztake_zdrop 4 (zdrop (4 * k) data)) at 1.
    apply load_u32_be_spec; auto with zlist; rewrite zlen_ztake; [lia|].
    rewrite zlen_zdrop; lia. }
  change (sha256_load data) with (fun j X => (load j, zsplice X j [load j])); rewrite E.
  rewrite groups_of_8.
  rewrite (schedule_groups 32 Sigma0 Sigma1 sigma0 sigma1 K256 (be_words 4 data) 48) with (t := 16);
    [|exact HM|lia|now repeat constructor|reflexivity|vm_compute; discriminate|exact HX].
  rewrite <- (fips_compress_ext 32 Sigma0 Sigma1 sigma0 sigma1) by apply Sigma_spec.
  unfold fips_compress; change (64 - 16)%nat with 48%nat; apply f_equal; clear E HX.
  generalize (znth (fips_schedule 32 sigma0 sigma1 (be_words 4 data) 48)) as W; intros W.
  symmetry; exact (fips_rounds_app 32 Sigma0 Sigma1 K256 W 16 0 48 (load_regs state)).
Qed.

(** * The streaming interface *)

Lemma sha256_block_prefix state b d : zlen b = 64 -> sha256_block state (b ++ d) = sha256_block state b.
Proof.
  intros Hb; assert (forall j r X, 0 <= j -> j + 8 <= 16 -> 0 <= r < 8 ->
    sha256_load (b ++ d) (j + r) X = sha256_load b (j + r) X) as Hl.
  { intros j r X Hj Hj' Hr; unfold sha256_load, CRYPTO_load_u32_be.
    rewrite zdrop_app_le, ztake_app_le by (rewrite ?zlen_zdrop; lia); reflexivity. }
  unfold sha256_block.
  rewrite (rounds8_ext _ _ _ _ (sha256_load (b ++ d)) (sha256_load b) 0 0) by (intros; apply Hl; lia).
  rewrite (rounds8_ext _ _ _ _ (sha256_load (b ++ d)) (sha256_load b) 0 8) by (intros; apply Hl; lia).
  reflexivity.
Qed.

#[export] Instance sha256_block_func : BlockFunc sha256_block_data_order SHA256_CBLOCK.
Proof. apply (while_block_func sha256_block 64); [apply sha256_block_prefix|pow2; lia]. Qed.

(** ** The hash of the standard *)

Definition sha256_spec (iv : list Z) (len : Z) (msg : list Z) : list Z :=
  let H := merkle_damgard (fun state block => sha256_compress state (be_words 4 block)) 64
    (md_trailer true msg) iv msg in
  concat (map (be_enc 4) (ztake (len / 4) H)).

Lemma sha256_one state d : bytes d -> SHA256_CBLOCK <= zlen d ->
  sha256_block_data_order state d 1 = sha256_compress state (be_words 4 (ztake SHA256_CBLOCK d)).
Proof.
  unfold SHA256_CBLOCK; intros Hb Hl; unfold sha256_block_data_order.
  change (block_loop sha256_block 64 (Z.to_nat 1) state d) with (sha256_block state d).
  rewrite <- (ztake_zdrop 64 d) at 1.
  rewrite sha256_block_prefix, sha256_block_spec by (auto with zlist; rewrite zlen_ztake; lia); reflexivity.
Qed.

(** A chaining value of eight [w]-bit words. *)
Definition words8 (w : Z) (state : list Z) : Prop := length state = 8%nat /\ Forall (fun x => 0 <= x < 2 ^ w) state.

Lemma add_regs_words w state r : 0 <= w -> words8 w (add_regs w state r).
Proof.
  intros Hw; destruct r as [[[[[[[a b] c] d] e] f] g] k]; split; [reflexivity|].
  cbn [add_regs]; repeat (apply Forall_cons_2; [now apply uw_bound|]); apply Forall_nil_2.
Qed.

(** The output loop. *)
Lemma output_words (store : Z -> list Z) k w state n :
  words8 w state -> (forall x, 0 <= x < 2 ^ w -> store x = be_enc k x) -> (n <= 8)%nat ->
  concat (map (fun i => store (znth state (Z.of_nat i))) (seq 0 n)) = concat (map (be_enc k) (take n state)).
Proof.
  intros [Hl Hw] Hs Hn; f_equal; apply nth_ext with (d := []) (d' := []).
  - rewrite !length_map, length_seq, length_take; lia.
  - rewrite length_map, length_seq; intros i Hi.
    rewrite (nth_indep _ [] (store (znth state (Z.of_nat 0)))) by (rewrite length_map, length_seq; lia).
    rewrite (map_nth (fun i => store (znth state (Z.of_nat i)))), seq_nth by lia; cbn [Nat.add].
    rewrite (nth_indep (map _ (take n state)) [] (be_enc k 0)) by (rewrite length_map, length_take; lia).
    rewrite map_nth, Hs; [f_equal|].
    + unfold znth; rewrite Nat2Z.id, !nth_lookup, lookup_take_lt by lia; reflexivity.
    + rewrite Forall_lookup in Hw; unfold znth; rewrite Nat2Z.id, nth_lookup.
      destruct (state !! i) as [x|] eqn:E; [eapply Hw; eauto|].
      apply lookup_ge_None in E; lia.
Qed.

Abbreviation absorbs256 := (absorbs (block_func := sha256_block_data_order) (block_size := SHA256_CBLOCK)).

Lemma sha256_final_spec iv len c msg : absorbs256 iv (sha_md c) msg -> bytes msg -> 0 <= len <= 32 ->
  fst (sha256_final_impl len c) = Some (sha256_spec iv len msg).
Proof.
  intros Ha Hb Hl; unfold sha256_final_impl, SHA256_DIGEST_LENGTH.
  rewrite (proj2 (Z.ltb_ge 32 len)) by lia; cbn [fst]; apply f_equal.
  rewrite (proj1 (final_absorbs true iv (sha_md c) msg Ha)).
  rewrite (md_hash_spec _ _ (fun state block => sha256_compress state (be_words 4 block)) true iv _ sha256_one Hb).
  apply output_words with (w := 32).
  - apply merkle_damgard_inv; [unfold SHA256_CBLOCK; pow2; lia|now rewrite zlen_md_trailer|].
    intros; apply add_regs_words; lia.
  - intros; now apply store_u32_be_spec.
  - pose proof (Z.div_le_upper_bound len 4 8); lia.
Qed.

Lemma sha256_updates iv chunks : forall c msg,
  Forall (fun x => bytes x /\ zlen x < 2 ^ 63) chunks -> absorbs256 iv (sha_md c) msg ->
  absorbs256 iv (sha_md (fold_left SHA256_Update chunks c)) (msg ++ concat chunks) /\
  md_len (fold_left SHA256_Update chunks c) = md_len c.
Proof.
  induction chunks as [|x chunks IH]; intros c msg Hc Ha; cbn [fold_left concat]; [now rewrite app_nil_r|].
  inversion_clear Hc as [|? ? [? ?] Hcs]; rewrite app_assoc.
  apply (IH (SHA256_Update c x)); auto; now apply update_absorbs.
Qed.

(** C35. SHA-256 and SHA-224 are the functions of FIPS 180-4, however the
    message is cut into calls of [Update]: padding to 64-byte blocks with the
    bit length modulo 2^64, the compression function of section 6.2.2 folded
    over the blocks, and the first 32 or 28 bytes of the big-endian chaining
    value. The table and the initial values are the digits of the cube and
    square roots of the primes that sections 4.2.2 and 5.3 prescribe. *)
Theorem sha256_streaming (chunks : list (list Z)) :
  Forall (fun x => bytes x /\ zlen x < 2 ^ 63) chunks ->
  fst (SHA256_Final (fold_left SHA256_Update chunks SHA256_Init)) = Some (sha256_spec sha256_iv 32 (concat chunks)) /\
  fst (SHA224_Final (fold_left SHA224_Update chunks SHA224_Init)) = Some (sha256_spec sha224_iv 28 (concat chunks)) /\
  K256 = map (root_frac 3 32) (first_primes 64) /\ sha256_iv = map (root_frac 2 32) (first_primes 8) /\
  sha224_iv = map (fun p => u32 (root_frac 2 64 p)) (drop 8 (first_primes 16)).
Proof.
  intros Hc.
  assert (bytes (concat chunks)) as Hb by
    (apply Forall_concat; eapply Forall_impl; [exact Hc|]; now intros ? [? ?]).
  split; [|split; [|split; [|split]; vm_compute; reflexivity]].
  - destruct (sha256_updates sha256_iv chunks SHA256_Init [] Hc (md_init_absorbs _)) as [Ha El].
    unfold SHA256_Final; rewrite El; apply sha256_final_spec; [exact Ha|exact Hb|vm_compute; split; discriminate].
  - apply sha256_final_spec; [|exact Hb|vm_compute; split; discriminate].
    apply (sha256_updates sha224_iv chunks SHA224_Init [] Hc (md_init_absorbs _)).
Qed.

(** The test vector of the standard for the message "abc", hashed in two
    pieces. *)
Lemma sha256_streaming_witness :
  fst (SHA256_Final (fold_left SHA256_Update [[97]; [98; 99]] SHA256_Init)) =
    Some (be_enc 32 0xba7816bf8f01cfea414140de5dae2223b00361a396177a9cb410ff61f20015ad) /\
  fst (SHA256_Final (fold_left SHA256_Update [[97]; [98; 99]] SHA256_Init)) =
    Some (sha256_spec sha256_iv 32 [97; 98; 99]).
Proof.
  split; [vm_compute; reflexivity|].
  refine (proj1 (sha256_streaming [[97]; [98; 99]] _)); repeat constructor; unfold byte; lia.
Defined.
