(* ===== verification/Sha512.v ===== *)
(** SHA-384, SHA-512 and SHA-512/256: crypto/fipsmodule/sha/sha512.c, with the
    block function of the 64-bit platforms (the variants for 32-bit x86 and in
    assembly are not modelled). The file has its own collector, with a 128-bit
    message length. *)

From S2P Require Import Prelude Cbs Words Md32 Sha2 Sha256.

Definition SHA512_CBLOCK : Z := 128.
Definition SHA384_DIGEST_LENGTH : Z := 48.
Definition SHA512_DIGEST_LENGTH : Z := 64.
Definition SHA512_256_DIGEST_LENGTH : Z := 32.

Definition K512 : list Z :=
  [0x428a2f98d728ae22; 0x7137449123ef65cd; 0xb5c0fbcfec4d3b2f;
   0xe9b5dba58189dbbc; 0x3956c25bf348b538; 0x59f111f1b605d019;
   0x923f82a4af194f9b; 0xab1c5ed5da6d8118; 0xd807aa98a3030242;
   0x12835b0145706fbe; 0x243185be4ee4b28c; 0x550c7dc3d5ffb4e2;
   0x72be5d74f27b896f; 0x80deb1fe3b1696b1; 0x9bdc06a725c71235;
   0xc19bf174cf692694; 0xe49b69c19ef14ad2; 0xefbe4786384f25e3;
   0x0fc19dc68b8cd5b5; 0x240ca1cc77ac9c65; 0x2de92c6f592b0275;
   0x4a7484aa6ea6e483; 0x5cb0a9dcbd41fbd4; 0x76f988da831153b5;
   0x983e5152ee66dfab; 0xa831c66d2db43210; 0xb00327c898fb213f;
   0xbf597fc7beef0ee4; 0xc6e00bf33da88fc2; 0xd5a79147930aa725;
   0x06ca6351e003826f; 0x142929670a0e6e70; 0x27b70a8546d22ffc;
   0x2e1b21385c26c926; 0x4d2c6dfc5ac42aed; 0x53380d139d95b3df;
   0x650a73548baf63de; 0x766a0abb3c77b2a8; 0x81c2c92e47edaee6;
   0x92722c851482353b; 0xa2bfe8a14cf10364; 0xa81a664bbc423001;
   0xc24b8b70d0f89791; 0xc76c51a30654be30; 0xd192e819d6ef5218;
   0xd69906245565a910; 0xf40e35855771202a; 0x106aa07032bbd1b8;
   0x19a4c116b8d2d0c8; 0x1e376c085141ab53; 0x2748774cdf8eeb99;
   0x34b0bcb5e19b48a8; 0x391c0cb3c5c95a63; 0x4ed8aa4ae3418acb;
   0x5b9cca4f7763e373; 0x682e6ff3d6b2b8a3; 0x748f82ee5defb2fc;
   0x78a5636f43172f60; 0x84c87814a1f0ab72; 0x8cc702081a6439ec;
   0x90befffa23631e28; 0xa4506cebde82bde9; 0xbef9a3f7b2c67915;
   0xc67178f2e372532b; 0xca273eceea26619c; 0xd186b8c721c0c207;
   0xeada7dd6cde0eb1e; 0xf57d4f7fee6ed178; 0x06f067aa72176fba;
   0x0a637dc5a2c898a6; 0x113f9804bef90dae; 0x1b710b35131c471b;
   0x28db77f523047d84; 0x32caab7b40c72493; 0x3c9ebe0a15c9bebc;
   0x431d67c49c100d4c; 0x4cc5d4becb3e42b6; 0x597f299cfc657e2a;
   0x5fcb6fab3ad6faec; 0x6c44198c4a475817].

Definition Sigma0_512 (x : Z) : Z :=
  Z.lxor (Z.lxor (CRYPTO_rotr_u64 x 28) (CRYPTO_rotr_u64 x 34)) (CRYPTO_rotr_u64 x 39).
Definition Sigma1_512 (x : Z) : Z :=
  Z.lxor (Z.lxor (CRYPTO_rotr_u64 x 14) (CRYPTO_rotr_u64 x 18)) (CRYPTO_rotr_u64 x 41).
Definition sigma0_512 (x : Z) : Z :=
  Z.lxor (Z.lxor (CRYPTO_rotr_u64 x 1) (CRYPTO_rotr_u64 x 8)) (Z.shiftr x 7).
Definition sigma1_512 (x : Z) : Z :=
  Z.lxor (Z.lxor (CRYPTO_rotr_u64 x 19) (CRYPTO_rotr_u64 x 61)) (Z.shiftr x 6).

(** [T1 = X[j] = CRYPTO_load_u64_be(in + 8 * j)]. *)
Definition sha512_load (inp : list Z) (j : Z) (X : list Z) : Z * list Z :=
  (CRYPTO_load_u64_be (zdrop (8 * j) inp), zsplice X j [CRYPTO_load_u64_be (zdrop (8 * j) inp)]).

(** One iteration of the loop of [sha512_block_data_order]. The inner loop
    makes sixteen rounds at a time, [j] running from 0 to 15. *)
Definition sha512_block (state inp : list Z) : list Z :=
  let rounds8 := rounds8 64 Sigma0_512 Sigma1_512 K512 in
  let schedule := schedule_T1 64 sigma0_512 sigma1_512 in
  let st := (zrep 16 0, load_regs state) in
  let st := rounds8 (sha512_load inp) 0 0 st in
  let st := rounds8 (sha512_load inp) 0 8 st in
  let st := fold_left (fun st i => rounds8 schedule i 8 (rounds8 schedule i 0 st)) [16; 32; 48; 64] st in
  add_regs 64 state (snd st).

Definition sha512_block_data_order (state inp : list Z) (num : Z) : list Z :=
  block_loop sha512_block 128 (Z.to_nat num) state inp.

(** * The context

    Its fields are those of the 32-bit functions: [data] is the array [p], and
    [Nl] and [Nh] are 64-bit words. An [Init] function leaves [p] as it is. *)

Record SHA512_CTX : Type := { sha512_md : md_state; md_len512 : Z }.

Definition sha384_iv : list Z :=
  [0xcbbb9d5dc1059ed8; 0x629a292a367cd507; 0x9159015a3070dd17;
   0x152fecd8f70e5939; 0x67332667ffc00b31; 0x8eb44a8768581511;
   0xdb0c2e0d64f98fa7; 0x47b5481dbefa4fa4].
Definition sha512_iv : list Z :=
  [0x6a09e667f3bcc908; 0xbb67ae8584caa73b; 0x3c6ef372fe94f82b;
   0xa54ff53a5f1d36f1; 0x510e527fade682d1; 0x9b05688c2b3e6c1f;
   0x1f83d9abfb41bd6b; 0x5be0cd19137e2179].
Definition sha512_256_iv : list Z :=
  [0x22312194fc2bf72c; 0x9f555fa3c84c64c2; 0x2393b86b6f53b151;
   0x963877195940eabd; 0x96283ee2a88effe3; 0xbe5e1e2553863992;
   0x2b0199fc2c85b8aa; 0x0eb72ddc81c52ca2].

Definition SHA384_Init (p : list Z) : SHA512_CTX :=
  {| sha512_md := {| h := sha384_iv; data := p; num := 0; Nh := 0; Nl := 0 |}; md_len512 := SHA384_DIGEST_LENGTH |}.
Definition SHA512_Init (p : list Z) : SHA512_CTX :=
  {| sha512_md := {| h := sha512_iv; data := p; num := 0; Nh := 0; Nl := 0 |}; md_len512 := SHA512_DIGEST_LENGTH |}.
Definition SHA512_256_Init (p : list Z) : SHA512_CTX :=
  {| sha512_md := {| h := sha512_256_iv; data := p; num := 0; Nh := 0; Nl := 0 |};
     md_len512 := SHA512_256_DIGEST_LENGTH |}.

Definition SHA512_Transform (c : SHA512_CTX) (block : list Z) : SHA512_CTX :=
  let m := sha512_md c in
  {| sha512_md := {| h := sha512_block_data_order (h m) block 1; data := data m; num := num m;
                     Nh := Nh m; Nl := Nl m |};
     md_len512 := md_len512 c |}.

(** The end of [SHA512_Update]: full blocks from the input, the rest kept. *)
Definition sha512_update_tail (c : md_state) (inp : list Z) : md_state :=
  let full := 128 <=? zlen inp in
  let h' := if full then sha512_block_data_order (h c) inp (zlen inp / 128) else h c in
  let inp := if full then zdrop (zlen inp - zlen inp mod 128) inp else inp in
  if negb (zlen inp =? 0) then
    {| h := h'; data := zsplice (data c) 0 inp; num := zlen inp; Nh := Nh c; Nl := Nl c |}
  else {| h := h'; data := data c; num := num c; Nh := Nh c; Nl := Nl c |}.

Definition sha512_update (c : md_state) (inp : list Z) : md_state :=
  let len := zlen inp in
  if len =? 0 then c
  else
    let l := Z.land (u64 (Nl c + u64 (Z.shiftl len 3))) 0xffffffffffffffff in
    let nh := if l <? Nl c then u64 (Nh c + 1) else Nh c in
    let nh := u64 (nh + Z.shiftr len 61) in
    if negb (num c =? 0) then
      let n := 128 - num c in
      if len <? n then
        {| h := h c; data := zsplice (data c) (num c) inp; num := u32 (num c + u32 len); Nh := nh; Nl := l |}
      else
        let block := zsplice (data c) (num c) (ztake n inp) in
        sha512_update_tail
          {| h := sha512_block_data_order (h c) block 1; data := block; num := 0; Nh := nh; Nl := l |}
          (zdrop n inp)
    else sha512_update_tail {| h := h c; data := data c; num := num c; Nh := nh; Nl := l |} inp.

Definition SHA512_Update (c : SHA512_CTX) (inp : list Z) : SHA512_CTX :=
  {| sha512_md := sha512_update (sha512_md c) inp; md_len512 := md_len512 c |}.
Definition SHA384_Update (sha : SHA512_CTX) (inp : list Z) : SHA512_CTX := SHA512_Update sha inp.
Definition SHA512_256_Update (sha : SHA512_CTX) (inp : list Z) : SHA512_CTX := SHA512_Update sha inp.

(** [out_null] says that [out] is NULL: the context is finished, but zero is
    returned. *)
Definition sha512_final_impl (out_null : bool) (md_len : Z) (sha : SHA512_CTX) : option (list Z) * SHA512_CTX :=
  let c := sha512_md sha in
  let n := num c in
  let p := zsplice (data c) n [0x80] in
  let n := n + 1 in
  let '(h', p, n) :=
    if 128 - 16 <? n then
      let p := zsplice p n (zrep (128 - n) 0) in
      (sha512_block_data_order (h c) p 1, p, 0)
    else (h c, p, n) in
  let p := zsplice p n (zrep (128 - 16 - n) 0) in
  let p := zsplice p (128 - 16) (CRYPTO_store_u64_be (Nh c)) in
  let p := zsplice p (128 - 8) (CRYPTO_store_u64_be (Nl c)) in
  let h' := sha512_block_data_order h' p 1 in
  let sha := {| sha512_md := {| h := h'; data := p; num := num c; Nh := Nh c; Nl := Nl c |};
                md_len512 := md_len512 sha |} in
  if out_null then (None, sha)
  else
    let out_words := md_len / 8 in
    (Some (concat (map (fun i => CRYPTO_store_u64_be (znth h' (Z.of_nat i))) (seq 0 (Z.to_nat out_words)))), sha).

Definition SHA512_Final (out_null : bool) (sha : SHA512_CTX) : option (list Z) * SHA512_CTX :=
  sha512_final_impl out_null (md_len512 sha) sha.
Definition SHA384_Final (out_null : bool) (sha : SHA512_CTX) : option (list Z) * SHA512_CTX :=
  sha512_final_impl out_null SHA384_DIGEST_LENGTH sha.
Definition SHA512_256_Final (out_null : bool) (sha : SHA512_CTX) : option (list Z) * SHA512_CTX :=
  sha512_final_impl out_null SHA512_256_DIGEST_LENGTH sha.

(** The one-shot functions; [p] is what the uninitialised array of their local
    context holds. *)
Definition SHA384 (p data : list Z) : option (list Z) :=
  fst (SHA384_Final false (SHA384_Update (SHA384_Init p) data)).
Definition SHA512 (p data : list Z) : option (list Z) :=
  fst (SHA512_Final false (SHA512_Update (SHA512_Init p) data)).
Definition SHA512_256 (p data : list Z) : option (list Z) :=
  fst (SHA512_256_Final false (SHA512_256_Update (SHA512_256_Init p) data)).

(** * The compression function is that of FIPS 180-4 *)

Definition fips_Sigma0_512 (x : Z) : Z := Z.lxor (Z.lxor (rotl 64 x 36) (rotl 64 x 30)) (rotl 64 x 25).
Definition fips_Sigma1_512 (x : Z) : Z := Z.lxor (Z.lxor (rotl 64 x 50) (rotl 64 x 46)) (rotl 64 x 23).
Definition fips_sigma0_512 (x : Z) : Z := Z.lxor (Z.lxor (rotl 64 x 63) (rotl 64 x 56)) (Z.shiftr x 7).
Definition fips_sigma1_512 (x : Z) : Z := Z.lxor (Z.lxor (rotl 64 x 45) (rotl 64 x 3)) (Z.shiftr x 6).

Lemma Sigma_512_spec x : Sigma0_512 x = fips_Sigma0_512 x /\ Sigma1_512 x = fips_Sigma1_512 x /\
  sigma0_512 x = fips_sigma0_512 x /\ sigma1_512 x = fips_sigma1_512 x.
Proof.
  unfold Sigma0_512, Sigma1_512, sigma0_512, sigma1_512; rewrite !rotr_u64_spec by lia; now repeat split.
Qed.

Definition sha512_compress : list Z -> list Z -> list Z :=
  fips_compress 64 fips_Sigma0_512 fips_Sigma1_512 fips_sigma0_512 fips_sigma1_512 K512 80.

Lemma sha512_block_spec state inp : bytes inp -> 128 <= zlen inp ->
  sha512_block state inp = sha512_compress state (be_words 8 inp).
Proof.
  intros Hb Hl; unfold sha512_block, sha512_compress.
  assert (zlen (be_words 8 inp) = 16) as HM by reflexivity.
  set (load := fun j => CRYPTO_load_u64_be (zdrop (8 * j) inp)).
  destruct (load_groups 64 Sigma0_512 Sigma1_512 sigma0_512 sigma1_512 K512 (be_words 8 inp) 64 load
    (zrep 16 0) (load_regs state)) as (X & E & HX); auto.
  { intros k Hk; rewrite znth_be_words by auto; change (Z.of_nat 8) with 8.
    unfold load; rewrite <- (ztake_zdrop 8 (zdrop (8 * k) inp)) at 1.
    apply load_u64_be_spec; auto with zlist; rewrite zlen_ztake; [lia|].
    rewrite zlen_zdrop; lia. }
  change (sha512_load inp) with (fun j X => (load j, zsplice X j [load j])); rewrite E, groups_of_16.
  rewrite (schedule_groups 64 Sigma0_512 Sigma1_512 sigma0_512 sigma1_512 K512 (be_words 8 inp) 64) with (t := 16);
    [|exact HM|lia|now repeat constructor|reflexivity|vm_compute; discriminate|exact HX].
  rewrite <- (fips_compress_ext 64 Sigma0_512 Sigma1_512 sigma0_512 sigma1_512) by apply Sigma_512_spec.
  unfold fips_compress; change (80 - 16)%nat with 64%nat; apply f_equal; clear E HX.
  generalize (znth (fips_schedule 64 sigma0_512 sigma1_512 (be_words 8 inp) 64)) as W; intros W.
  symmetry; exact (fips_rounds_app 64 Sigma0_512 Sigma1_512 K512 W 16 0 64 (load_regs state)).
Qed.

Lemma sha512_block_prefix state b d : zlen b = 128 -> sha512_block state (b ++ d) = sha512_block state b.
Proof.
  intros Hb; assert (forall j r X, 0 <= j -> j + 8 <= 16 -> 0 <= r < 8 ->
    sha512_load (b ++ d) (j + r) X = sha512_load b (j + r) X) as Hl.
  { intros j r X Hj Hj' Hr; unfold sha512_load, CRYPTO_load_u64_be.
    rewrite zdrop_app_le, ztake_app_le by (rewrite ?zlen_zdrop; lia); reflexivity. }
  unfold sha512_block.
  rewrite (rounds8_ext _ _ _ _ (sha512_load (b ++ d)) (sha512_load b) 0 0) by (intros; apply Hl; lia).
  rewrite (rounds8_ext _ _ _ _ (sha512_load (b ++ d)) (sha512_load b) 0 8) by (intros; apply Hl; lia).
  reflexivity.
Qed.

#[export] Instance sha512_block_func : BlockFunc sha512_block_data_order 128.
Proof. apply (while_block_func sha512_block 128); [apply sha512_block_prefix|pow2; lia]. Qed.

Lemma sha512_one state d : bytes d -> 128 <= zlen d ->
  sha512_block_data_order state d 1 = sha512_compress state (be_words 8 (ztake 128 d)).
Proof.
  intros Hb Hl; unfold sha512_block_data_order.
  change (block_loop sha512_block 128 (Z.to_nat 1) state d) with (sha512_block state d).
  rewrite <- (ztake_zdrop 128 d) at 1.
  rewrite sha512_block_prefix, sha512_block_spec by (auto with zlist; rewrite zlen_ztake; lia); reflexivity.
Qed.

(** * The collector *)

Abbreviation holds512 := (holds (block_func := sha512_block_data_order) (block_size := 128)).

(** The context has taken in [msg]; its two words count the bits. *)
Record absorbs512 (iv : list Z) (c : md_state) (msg : list Z) : Prop := {
  abs512_holds : holds512 iv (h c) (data c) (num c) msg;
  abs512_words : 0 <= Nl c < 2 ^ 64 /\ 0 <= Nh c < 2 ^ 64;
  abs512_bits : Nh c * 2 ^ 64 + Nl c = (8 * zlen msg) mod 2 ^ 128
}.

Lemma counter_step512 nl nh len total : 0 <= nl < 2 ^ 64 -> 0 <= len < 2 ^ 64 ->
  nh * 2 ^ 64 + nl = (8 * total) mod 2 ^ 128 ->
  let l := Z.land (u64 (nl + u64 (Z.shiftl len 3))) 0xffffffffffffffff in
  let nh1 := if l <? nl then u64 (nh + 1) else nh in
  let nh2 := u64 (nh1 + Z.shiftr len 61) in
  nh2 * 2 ^ 64 + l = (8 * (total + len)) mod 2 ^ 128 /\ 0 <= l < 2 ^ 64 /\ 0 <= nh2 < 2 ^ 64.
Proof.
  intros Hl Hn Ht; change 0xffffffffffffffff with (2 ^ 64 - 1); rewrite land_low by lia.
  rewrite (uw_idemp 64 : forall x, (u64 x) mod 2 ^ 64 = u64 x).
  split; [|cbv zeta; split; apply uw_bound; lia].
  pose proof (uw_bound 64 (Z.shiftl len 3) ltac:(lia)) as Hlo.
  pose proof (counter_carry 64 nl nh (u64 (Z.shiftl len 3)) (Z.shiftr len 61) ltac:(lia) Hl Hlo) as E.
  cbv zeta in *; rewrite E, Ht; change (2 * 64) with 128; rewrite Z.add_mod_idemp_l by lia; clear -Hn.
  rewrite Z.shiftl_mul_pow2, Z.shiftr_div_pow2, Z.mul_add_distr_l by lia; unfold uw; change (2 ^ 3) with 8.
  pose proof (Z.div_mod len (2 ^ 61)); f_equal.
  assert ((len * 8) mod 2 ^ 64 = len mod 2 ^ 61 * 8) as -> by
    (change (2 ^ 64) with (2 ^ 61 * 8); now rewrite Z.mul_mod_distr_r by lia).
  pow2; lia.
Qed.

(** The tail is that of the 32-bit collector. *)
Lemma sha512_tail_spec c inp : zlen inp < 2 ^ 63 ->
  sha512_update_tail c inp = md32_update_tail sha512_block_data_order 128 c inp.
Proof.
  intros Hz; unfold sha512_update_tail, md32_update_tail; pose proof (zlen_nonneg inp).
  pose proof (Z.div_mod (zlen inp) 128 ltac:(lia)); pose proof (Z.mod_pos_bound (zlen inp) 128 ltac:(lia)).
  assert ((128 <=? zlen inp) = (0 <? zlen inp / 128)) as ->.
  { destruct (Z.leb_spec 128 (zlen inp)), (Z.ltb_spec 0 (zlen inp / 128)); lia. }
  replace (zlen inp - zlen inp mod 128) with (zlen inp / 128 * 128) by lia.
  destruct (negb (zlen _ =? 0)) eqn:E; [|reflexivity]; f_equal.
  assert (zlen (if 0 <? zlen inp / 128 then zdrop (zlen inp / 128 * 128) inp else inp) < 128); [|symmetry; apply uw_small; pow2; zl_pose; lia].
  destruct (Z.ltb_spec 0 (zlen inp / 128)); [rewrite zlen_zdrop by lia|]; lia.
Qed.

Lemma sha512_update_absorbs iv c msg inp : absorbs512 iv c msg -> zlen inp < 2 ^ 63 ->
  absorbs512 iv (sha512_update c inp) (msg ++ inp).
Proof.
  intros [Hh [Hnl Hnh] Hbits] Hinp; unfold sha512_update.
  pose proof (zlen_nonneg inp); pose proof (holds_num _ _ _ _ _ Hh) as Hnum.
  destruct (Z.eqb_spec (zlen inp) 0) as [E0|E0]; [rewrite (zlen_0_nil inp E0), app_nil_r; now split|].
  pose proof (counter_step512 (Nl c) (Nh c) (zlen inp) (zlen msg) Hnl ltac:(pow2; lia) Hbits) as Hc.
  rewrite <- zlen_app in Hc; cbv zeta in Hc |- *.
  set (l := Z.land _ 0xffffffffffffffff) in *; set (nh := u64 (_ + Z.shiftr _ 61)) in *; destruct Hc as [Hc Hw].
  assert (forall c', holds512 iv (h c') (data c') (num c') (msg ++ inp) /\ Nh c' = nh /\ Nl c' = l ->
    absorbs512 iv c' (msg ++ inp)) as Hdone.
  { intros c' (Hc' & E1 & E2); split; rewrite ?E1, ?E2; auto. }
  destruct (Z.eqb_spec (num c) 0) as [Ep|Ep]; cbn [negb].
  - rewrite sha512_tail_spec by auto; apply Hdone.
    apply (holds_tail iv {| h := h c; data := data c; num := num c; Nh := nh; Nl := l |}); cbn [h data num]; auto; [|lia].
    now rewrite <- Ep.
  - destruct (Z.ltb_spec (zlen inp) (128 - num c)) as [Hnot|Hfull].
    + apply Hdone; cbn [h data num Nh Nl]; split; [|auto].
      rewrite (uw_small 32 (zlen inp)), uw_small by (pow2; lia); apply holds_keep; auto; lia.
    + rewrite sha512_tail_spec by (rewrite zlen_zdrop; lia); apply Hdone.
      assert (msg ++ inp = (msg ++ ztake (128 - num c) inp) ++ zdrop (128 - num c) inp) as -> by
        (rewrite <- app_assoc, ztake_zdrop; reflexivity).
      apply holds_tail; cbn [h data num]; auto; [|rewrite zlen_zdrop; lia].
      apply holds_fill; auto; destruct Hh as [Hd _]; rewrite zlen_zsplice; rewrite ?zlen_ztake; lia.
Qed.

(** * The hash of the standard *)

Definition sha512_trailer (msg : list Z) : list Z := be_enc 16 ((8 * zlen msg) mod 2 ^ 128).

Definition sha512_spec (iv : list Z) (len : Z) (msg : list Z) : list Z :=
  let H := merkle_damgard (fun state block => sha512_compress state (be_words 8 block)) 128
    (sha512_trailer msg) iv msg in
  concat (map (be_enc 8) (ztake (len / 8) H)).

Lemma sha512_final_spec iv len sha msg : absorbs512 iv (sha512_md sha) msg -> bytes msg -> 0 <= len <= 64 ->
  fst (sha512_final_impl false len sha) = Some (sha512_spec iv len msg).
Proof.
  intros [Hh [Hnl Hnh] Hbits] Hb Hl; set (c := sha512_md sha) in *.
  set (finish := fun block => zsplice (zsplice block (128 - 16) (CRYPTO_store_u64_be (Nh c))) (128 - 8)
    (CRYPTO_store_u64_be (Nl c))).
  pose proof (final_holds iv (h c) (data c) (num c) msg (sha512_trailer msg) finish Hh) as Hf.
  assert (zlen (sha512_trailer msg) = 16) as Ht by apply zlen_be_enc.
  rewrite Ht in Hf; cbv zeta in Hf; specialize (Hf ltac:(lia)).
  assert (forall pre junk : list Z, zlen pre + 16 = 128 -> zlen junk = 16 -> finish (pre ++ junk) = pre ++ sha512_trailer msg) as Hfin.
  { intros pre junk Hp Hj; unfold finish, sha512_trailer; rewrite <- Hbits.
    pose proof (be_enc_app 8 8 (Nh c) (Nl c) Hnl) as E; change (256 ^ Z.of_nat 8) with (2 ^ 64) in E.
    change 16%nat with (8 + 8)%nat; rewrite E, !store_u64_be_spec by auto.
    apply (two_stores (block_size := 128) pre junk _ _ 8); rewrite ?zlen_be_enc; lia. }
  specialize (Hf Hfin); unfold sha512_final_impl; fold c.
  destruct (if 128 - 16 <? num c + 1 then _ else _) as [[h' p] n]; destruct Hf as [Hf _].
  cbv zeta; cbn [fst]; change (zsplice (zsplice _ (128 - 16) _) (128 - 8) _) with (finish (zsplice p n (zrep (128 - 16 - n) 0))).
  pose proof (absorb_spec _ 128 (fun state block => sha512_compress state (be_words 8 block)) (sha512_trailer msg) iv msg
    sha512_one ltac:(lia) (bytes_be_enc _ _) Hb) as Ha; cbv zeta in Ha; rewrite Hf, Ha; clear Ha Hf.
  apply f_equal, output_words with (w := 64).
  - apply merkle_damgard_inv; [pow2; lia|lia|]; intros; apply add_regs_words; lia.
  - intros; now apply store_u64_be_spec.
  - pose proof (Z.div_le_upper_bound len 8 8); lia.
Qed.

Lemma sha512_updates iv chunks : forall sha msg,
  Forall (fun x => bytes x /\ zlen x < 2 ^ 63) chunks -> absorbs512 iv (sha512_md sha) msg ->
  absorbs512 iv (sha512_md (fold_left SHA512_Update chunks sha)) (msg ++ concat chunks) /\
  md_len512 (fold_left SHA512_Update chunks sha) = md_len512 sha.
Proof.
  induction chunks as [|x chunks IH]; intros sha msg Hc Ha; cbn [fold_left concat]; [now rewrite app_nil_r|].
  inversion_clear Hc as [|? ? [? ?] Hcs]; rewrite app_assoc.
  apply (IH (SHA512_Update sha x)); auto; now apply sha512_update_absorbs.
Qed.

(** SHA-512, SHA-384 and SHA-512/256 are the functions of FIPS 180-4,
    however the message is cut into calls of [Update] and whatever the buffer
    held before: padding to 128-byte blocks with the bit length modulo 2^128,
    the compression function of section 6.4.2, and the first 64, 48 or 32
    bytes of the chaining value. The table and the initial values are the
    digits of the roots of the primes, the initial value of SHA-512/256 is the
    hash that section 5.3.6 prescribes. *)
Theorem sha512_streaming (p : list Z) (chunks : list (list Z)) :
  zlen p = 128 -> Forall (fun x => bytes x /\ zlen x < 2 ^ 63) chunks ->
  fst (SHA512_Final false (fold_left SHA512_Update chunks (SHA512_Init p))) =
    Some (sha512_spec sha512_iv 64 (concat chunks)) /\
  fst (SHA384_Final false (fold_left SHA384_Update chunks (SHA384_Init p))) =
    Some (sha512_spec sha384_iv 48 (concat chunks)) /\
  fst (SHA512_256_Final false (fold_left SHA512_256_Update chunks (SHA512_256_Init p))) =
    Some (sha512_spec sha512_256_iv 32 (concat chunks)) /\
  K512 = map (root_frac 3 64) (first_primes 80) /\
  sha512_iv = map (root_frac 2 64) (first_primes 8) /\
  sha384_iv = map (root_frac 2 64) (drop 8 (first_primes 16)) /\
  concat (map (be_enc 8) sha512_256_iv) = sha512_spec (map (Z.lxor 0xa5a5a5a5a5a5a5a5) sha512_iv) 64
    [83; 72; 65; 45; 53; 49; 50; 47; 50; 53; 54].
Proof.
  intros Hp Hc.
  assert (bytes (concat chunks)) as Hb by
    (apply Forall_concat; eapply Forall_impl; [exact Hc|]; now intros ? [? ?]).
  assert (forall iv len, absorbs512 iv (sha512_md {| sha512_md := {| h := iv; data := p; num := 0; Nh := 0; Nl := 0 |};
    md_len512 := len |}) []) as Hi.
  { intros iv len; split; cbn [sha512_md h data num Nh Nl]; [now apply holds_init|lia|reflexivity]. }
  split; [|split; [|split; [|split; [|split; [|split]]; vm_compute; reflexivity]]].
  - destruct (sha512_updates sha512_iv chunks (SHA512_Init p) [] Hc (Hi _ _)) as [Ha El].
    unfold SHA512_Final; rewrite El; apply sha512_final_spec; [exact Ha|exact Hb|vm_compute; split; discriminate].
  - apply sha512_final_spec; [|exact Hb|vm_compute; split; discriminate].
    apply (sha512_updates sha384_iv chunks (SHA384_Init p) [] Hc (Hi _ _)).
  - apply sha512_final_spec; [|exact Hb|vm_compute; split; discriminate].
    apply (sha512_updates sha512_256_iv chunks (SHA512_256_Init p) [] Hc (Hi _ _)).
Qed.

(** The test vector for "abc" of the standard, with a buffer full of sevens. *)
Lemma sha512_streaming_witness :
  fst (SHA384_Final false (fold_left SHA384_Update [[97; 98]; []; [99]] (SHA384_Init (zrep 128 7)))) =
    Some (be_enc 48 0xcb00753f45a35e8bb5a03d699ac65007272c32ab0eded1631a8b605a43ff5bed8086072ba1e7cc2358baeca134c825a7) /\
  fst (SHA384_Final false (fold_left SHA384_Update [[97; 98]; []; [99]] (SHA384_Init (zrep 128 7)))) =
    Some (sha512_spec sha384_iv 48 [97; 98; 99]).
Proof.
  split; [vm_compute; reflexivity|].
  refine (proj1 (proj2 (sha512_streaming (zrep 128 7) [[97; 98]; []; [99]] eq_refl _))).
  repeat constructor; unfold byte; lia.
Defined.
