(* ===== verification/Sha1.v ===== *)
(** SHA-1: crypto/fipsmodule/sha/sha1.c, with the C block function.

    The code keeps six variables [A], [B], [C], [D], [E], [T] and writes each of
    its eighty rounds with the names rotated once more, so that a round stores
    to two of them only. The model keeps them in a list and computes the
    rotation; the sixteen variables [XX0], ..., [XX15] are a list as well. *)

From S2P Require Import Prelude Cbs Words Md32 Sha2 Sha256.

Definition SHA_CBLOCK : Z := 64.
Definition SHA_DIGEST_LENGTH : Z := 20.

Definition K_00_19 : Z := 0x5a827999.
Definition K_20_39 : Z := 0x6ed9eba1.
Definition K_40_59 : Z := 0x8f1bbcdc.
Definition K_60_79 : Z := 0xca62c1d6.

Definition F_00_19 (b c d : Z) : Z := Z.lxor (Z.land (Z.lxor c d) b) d.
Definition F_20_39 (b c d : Z) : Z := Z.lxor (Z.lxor b c) d.
Definition F_40_59 (b c d : Z) : Z := Z.lor (Z.land b c) (Z.land (Z.lor b c) d).
Definition F_60_79 (b c d : Z) : Z := F_20_39 b c d.

(** The variable that is the [k]-th argument of round [i], as an index into
    [A; B; C; D; E; T]. *)
Definition sha1_arg (i k : Z) : Z := (k - i) mod 6.

(** What the [BODY] macros have in common: [x] is the word of the schedule that
    is added in. *)
Definition sha1_body (F : Z -> Z -> Z -> Z) (K i x : Z) (R : list Z) : list Z :=
  let v k := znth R (sha1_arg i k) in
  let f := u32 (x + v 4 + K + CRYPTO_rotl_u32 (v 0) 5 + F (v 1) (v 2) (v 3)) in
  let b := CRYPTO_rotl_u32 (v 1) 30 in
  zsplice (zsplice R (sha1_arg i 5) [f]) (sha1_arg i 1) [b].

(** The new word, and the array in which it replaces [X(i mod 16)]. *)
Definition Xupdate (i : Z) (X : list Z) : Z * list Z :=
  let ix := i mod 16 in
  let a := Z.lxor (Z.lxor (Z.lxor (znth X ix) (znth X ((i + 2) mod 16))) (znth X ((i + 8) mod 16)))
             (znth X ((i + 13) mod 16)) in
  let a := CRYPTO_rotl_u32 a 1 in
  (a, zsplice X ix [a]).

Definition BODY_00_15 (i : Z) (st : list Z * list Z) : list Z * list Z :=
  let '(X, R) := st in (X, sha1_body F_00_19 K_00_19 i (znth X i) R).
Definition BODY_16_19 (i : Z) (st : list Z * list Z) : list Z * list Z :=
  let '(X, R) := st in let '(x, X) := Xupdate i X in (X, sha1_body F_00_19 K_00_19 i x R).
Definition BODY_20_31 (i : Z) (st : list Z * list Z) : list Z * list Z :=
  let '(X, R) := st in let '(x, X) := Xupdate i X in (X, sha1_body F_20_39 K_20_39 i x R).
Definition BODY_32_39 (i : Z) (st : list Z * list Z) : list Z * list Z :=
  let '(X, R) := st in let '(x, X) := Xupdate i X in (X, sha1_body F_20_39 K_20_39 i x R).
Definition BODY_40_59 (i : Z) (st : list Z * list Z) : list Z * list Z :=
  let '(X, R) := st in let '(x, X) := Xupdate i X in (X, sha1_body F_40_59 K_40_59 i x R).
Definition BODY_60_79 (i : Z) (st : list Z * list Z) : list Z * list Z :=
  let '(X, R) := st in let '(x, X) := Xupdate i X in (X, sha1_body F_60_79 K_60_79 i x R).

(** Rounds [i], ..., [i + n - 1]. *)
Fixpoint sha1_rounds (body : Z -> list Z * list Z -> list Z * list Z) (i : Z) (n : nat)
    (st : list Z * list Z) : list Z * list Z :=
  match n with
  | O => st
  | S n => sha1_rounds body (i + 1) n (body i st)
  end.

(** One iteration of the loop of [sha1_block_data_order]; [T] is not
    initialised. *)
Definition sha1_block (state data : list Z) : list Z :=
  let X := map (fun i => CRYPTO_load_u32_be (zdrop (4 * Z.of_nat i) data)) (seq 0 16) in
  let R := [znth state 0; znth state 1; znth state 2; znth state 3; znth state 4; 0] in
  let st := sha1_rounds BODY_00_15 0 16 (X, R) in
  let st := sha1_rounds BODY_16_19 16 4 st in
  let st := sha1_rounds BODY_20_31 20 12 st in
  let st := sha1_rounds BODY_32_39 32 8 st in
  let st := sha1_rounds BODY_40_59 40 20 st in
  let '(_, R) := sha1_rounds BODY_60_79 60 20 st in
  [Z.land (znth state 0 + znth R 4) 0xffffffff; Z.land (znth state 1 + znth R 5) 0xffffffff;
   Z.land (znth state 2 + znth R 0) 0xffffffff; Z.land (znth state 3 + znth R 1) 0xffffffff;
   Z.land (znth state 4 + znth R 2) 0xffffffff].

(** The loop ends when [--num] is zero, so it runs at least once. *)
Definition sha1_block_data_order (state data : list Z) (num : Z) : list Z :=
  block_loop sha1_block 64 (S (Z.to_nat (u64 (num - 1)))) state data.

Definition sha1_iv : list Z := [0x67452301; 0xefcdab89; 0x98badcfe; 0x10325476; 0xc3d2e1f0].

Definition SHA1_Init : md_state := md_init sha1_iv SHA_CBLOCK.
Definition SHA1_Transform (c : md_state) (block : list Z) : md_state :=
  {| h := sha1_block_data_order (h c) block 1; data := data c; num := num c; Nh := Nh c; Nl := Nl c |}.
Definition SHA1_Update (c : md_state) (inp : list Z) : md_state :=
  crypto_md32_update sha1_block_data_order SHA_CBLOCK c inp.
Definition SHA1_Final (c : md_state) : list Z * md_state :=
  let c := crypto_md32_final sha1_block_data_order SHA_CBLOCK true c in
  (CRYPTO_store_u32_be (znth (h c) 0) ++ CRYPTO_store_u32_be (znth (h c) 1) ++
   CRYPTO_store_u32_be (znth (h c) 2) ++ CRYPTO_store_u32_be (znth (h c) 3) ++
   CRYPTO_store_u32_be (znth (h c) 4), c).
Definition SHA1 (data : list Z) : list Z := fst (SHA1_Final (SHA1_Update SHA1_Init data)).

(** * FIPS 180-4, section 6.1 *)

Definition fips_Ch (x y z : Z) : Z := Z.lxor (Z.land x y) (Z.land (Z.lnot x) z).
Definition fips_Parity (x y z : Z) : Z := Z.lxor (Z.lxor x y) z.
Definition fips_Maj (x y z : Z) : Z := Z.lxor (Z.lxor (Z.land x y) (Z.land x z)) (Z.land y z).

Definition fips_f (t : Z) : Z -> Z -> Z -> Z :=
  if t <? 20 then fips_Ch else if t <? 40 then fips_Parity else if t <? 60 then fips_Maj else fips_Parity.
Definition fips_K (t : Z) : Z :=
  if t <? 20 then 0x5a827999 else if t <? 40 then 0x6ed9eba1 else if t <? 60 then 0x8f1bbcdc else 0xca62c1d6.

Definition regs5 : Type := (Z * Z * Z * Z * Z)%type.

Definition fips1_round (t wt : Z) (r : regs5) : regs5 :=
  let '(a, b, c, d, e) := r in
  (u32 (rotl 32 a 5 + fips_f t b c d + e + fips_K t + wt), a, rotl 32 b 30, c, d).

Fixpoint fips1_rounds (W : Z -> Z) (t : Z) (n : nat) (r : regs5) : regs5 :=
  match n with
  | O => r
  | S n => fips1_rounds W (t + 1) n (fips1_round t (W t) r)
  end.

Fixpoint fips1_schedule (M : list Z) (n : nat) : list Z :=
  match n with
  | O => M
  | S n =>
      let W := fips1_schedule M n in
      let t := 16 + Z.of_nat n in
      W ++ [rotl 32 (Z.lxor (Z.lxor (Z.lxor (znth W (t - 3)) (znth W (t - 8))) (znth W (t - 14))) (znth W (t - 16))) 1]
  end.

Definition sha1_compress (state M : list Z) : list Z :=
  let '(a, b, c, d, e) := fips1_rounds (znth (fips1_schedule M 64)) 0 80
    (znth state 0, znth state 1, znth state 2, znth state 3, znth state 4) in
  [u32 (znth state 0 + a); u32 (znth state 1 + b); u32 (znth state 2 + c);
   u32 (znth state 3 + d); u32 (znth state 4 + e)].

(** ** The simplified Boolean functions are those of the standard *)

Ltac bitwise :=
  apply Z.bits_inj'; intros n Hn;
  rewrite ?Z.lxor_spec, ?Z.land_spec, ?Z.lor_spec, ?Z.lxor_spec, ?Z.land_spec, ?Z.lor_spec, ?Z.lnot_spec by exact Hn.

Lemma F_00_19_spec b c d : F_00_19 b c d = fips_Ch b c d.
Proof.
  unfold F_00_19, fips_Ch; bitwise.
  destruct (Z.testbit b n), (Z.testbit c n), (Z.testbit d n); reflexivity.
Qed.

Lemma F_40_59_spec b c d : F_40_59 b c d = fips_Maj b c d.
Proof.
  unfold F_40_59, fips_Maj; bitwise.
  destruct (Z.testbit b n), (Z.testbit c n), (Z.testbit d n); reflexivity.
Qed.

(** ** The rotating variables *)

Lemma sha1_arg_bound i k : 0 <= sha1_arg i k < 6.
Proof. apply Z.mod_pos_bound; lia. Qed.

Lemma sha1_arg_next i k : sha1_arg (i + 1) (k + 1) = sha1_arg i k.
Proof. unfold sha1_arg; f_equal; lia. Qed.

Lemma sha1_arg_inj i k l : 0 <= k < 6 -> 0 <= l < 6 -> sha1_arg i k = sha1_arg i l -> k = l.
Proof.
  unfold sha1_arg; intros Hk Hl E.
  pose proof (Z.div_mod (k - i) 6 ltac:(lia)); pose proof (Z.div_mod (l - i) 6 ltac:(lia)); lia.
Qed.

(** The roles of the six variables before round [i]. *)
Definition roles (i : Z) (R : list Z) : regs5 :=
  (znth R (sha1_arg i 0), znth R (sha1_arg i 1), znth R (sha1_arg i 2), znth R (sha1_arg i 3), znth R (sha1_arg i 4)).

Lemma sha1_body_spec F K i x R : zlen R = 6 ->
  (forall b c d, F b c d = fips_f i b c d) -> K = fips_K i ->
  zlen (sha1_body F K i x R) = 6 /\ roles (i + 1) (sha1_body F K i x R) = fips1_round i x (roles i R).
Proof.
  intros HR HF ->; pose proof (sha1_arg_bound i 1); pose proof (sha1_arg_bound i 5).
  unfold sha1_body; set (f := u32 _); set (b := CRYPTO_rotl_u32 _ 30).
  assert (zlen (zsplice R (sha1_arg i 5) [f]) = 6) as H1 by (rewrite zlen_zsplice; auto; change (zlen [f]) with 1; lia).
  split; [rewrite zlen_zsplice; auto; change (zlen [b]) with 1; lia|].
  assert (forall k, 0 <= k < 6 -> znth (zsplice (zsplice R (sha1_arg i 5) [f]) (sha1_arg i 1) [b]) (sha1_arg i k) =
    if k =? 1 then b else if k =? 5 then f else znth R (sha1_arg i k)) as Hg.
  { intros k Hk; pose proof (sha1_arg_bound i k); rewrite !znth_zsplice1 by lia.
    assert (forall l, 0 <= l < 6 -> (sha1_arg i k =? sha1_arg i l) = (k =? l)) as He.
    { intros l Hl; destruct (Z.eqb_spec k l) as [-> |Hne]; [apply Z.eqb_refl|].
      apply Z.eqb_neq; intros E; now apply sha1_arg_inj in E. }
    now rewrite !He by lia. }
  assert (sha1_arg (i + 1) 0 = sha1_arg i 5) as E0 by
    (unfold sha1_arg; rewrite <- (Z_mod_plus_full (0 - (i + 1)) 1 6); f_equal; lia).
  unfold roles; rewrite E0, (sha1_arg_next i 0 : sha1_arg (i + 1) 1 = _), (sha1_arg_next i 1 : sha1_arg (i + 1) 2 = _),
    (sha1_arg_next i 2 : sha1_arg (i + 1) 3 = _), (sha1_arg_next i 3 : sha1_arg (i + 1) 4 = _), !Hg by lia.
  cbn [Z.eqb Pos.eqb fips1_round]; unfold f, b; rewrite HF, !rotl_u32_spec by lia.
  do 4 (apply pair_equal_spec; split; auto); f_equal; lia.
Qed.

(** ** Sequences of rounds *)

Section Rounds.
  Variables (W : Z -> Z) (Inv : Z -> list Z -> Prop).

(** A round that implements round [t] of the standard and keeps [Inv]. *)
Definition round_ok (body : Z -> list Z * list Z -> list Z * list Z) (t : Z) : Prop :=
  forall X R, Inv t X -> zlen R = 6 -> exists X' R', body t (X, R) = (X', R') /\ Inv (t + 1) X' /\ zlen R' = 6 /\
    roles (t + 1) R' = fips1_round t (W t) (roles t R).

Lemma sha1_rounds_spec body n : forall i X R,
  (forall t, i <= t < i + Z.of_nat n -> round_ok body t) -> Inv i X -> zlen R = 6 ->
  exists X' R', sha1_rounds body i n (X, R) = (X', R') /\ Inv (i + Z.of_nat n) X' /\ zlen R' = 6 /\
    roles (i + Z.of_nat n) R' = fips1_rounds W i n (roles i R).
Proof.
  induction n as [|n IH]; intros i X R Hb HI HR; cbn [sha1_rounds fips1_rounds].
  - exists X, R; rewrite Z.add_0_r; auto.
  - destruct (Hb i ltac:(lia) X R HI HR) as (X1 & R1 & -> & HI1 & HR1 & E1); rewrite <- E1.
    replace (i + Z.of_nat (S n)) with (i + 1 + Z.of_nat n) by lia.
    apply IH; auto; intros t Ht; apply Hb; lia.
Qed.
End Rounds.

Lemma fips1_rounds_app W n : forall t m r,
  fips1_rounds W t (n + m) r = fips1_rounds W (t + Z.of_nat n) m (fips1_rounds W t n r).
Proof.
  induction n as [|n IH]; intros t m r; cbn [fips1_rounds Nat.add]; [now rewrite Z.add_0_r|].
  rewrite IH; f_equal; lia.
Qed.

(** ** The schedule *)

Lemma zlen_fips1_schedule M n : zlen M = 16 -> zlen (fips1_schedule M n) = 16 + Z.of_nat n.
Proof. intros HM; induction n as [|n IH]; cbn [fips1_schedule]; [lia|]; rewrite zlen_app; change (zlen [_]) with 1; lia. Qed.

Lemma fips1_schedule_prefix M n m t : zlen M = 16 -> (n <= m)%nat -> 0 <= t < 16 + Z.of_nat n ->
  znth (fips1_schedule M m) t = znth (fips1_schedule M n) t.
Proof.
  intros HM Hnm Ht; induction Hnm as [|m Hm IH]; [reflexivity|].
  cbn [fips1_schedule]; rewrite znth_app1; [exact IH|]; rewrite zlen_fips1_schedule by auto; lia.
Qed.

Lemma fips1_schedule_rec M n t : zlen M = 16 -> 16 <= t < 16 + Z.of_nat n ->
  let W := znth (fips1_schedule M n) in
  W t = rotl 32 (Z.lxor (Z.lxor (Z.lxor (W (t - 3)) (W (t - 8))) (W (t - 14))) (W (t - 16))) 1.
Proof.
  intros HM Ht; cbv zeta; set (m := Z.to_nat (t - 16)).
  assert (t = 16 + Z.of_nat m) as Em by (unfold m; lia).
  rewrite (fips1_schedule_prefix M (S m) n t) by (auto; lia).
  cbn [fips1_schedule]; rewrite znth_app2 by (rewrite zlen_fips1_schedule by auto; lia).
  rewrite zlen_fips1_schedule, <- Em, Z.sub_diag by auto.
  change (znth [?x] 0) with x.
  rewrite !(fips1_schedule_prefix M m n) by (auto; lia); reflexivity.
Qed.

Lemma xor_swap a b c d : Z.lxor (Z.lxor (Z.lxor a b) c) d = Z.lxor (Z.lxor (Z.lxor d c) b) a.
Proof. rewrite (Z.lxor_comm a b), (Z.lxor_comm _ c), (Z.lxor_comm _ d), <- !Z.lxor_assoc; reflexivity. Qed.

(** The word that replaces the oldest of the last sixteen, in a sequence that
    satisfies the recurrence. *)
Lemma Xupdate_spec W t X : 16 <= t ->
  W t = rotl 32 (Z.lxor (Z.lxor (Z.lxor (W (t - 3)) (W (t - 8))) (W (t - 14))) (W (t - 16))) 1 ->
  window W t X -> exists X', Xupdate t X = (W t, X') /\ window W (t + 1) X'.
Proof.
  intros Ht Hr HX.
  assert (forall d, 0 <= d < 16 -> znth X ((t + d) mod 16) = W (t - (16 - d))) as HX'.
  { intros d Hd; rewrite <- (proj2 HX) by lia; f_equal.
    rewrite <- (Z_mod_plus_full (t - (16 - d)) 1); f_equal; lia. }
  unfold Xupdate; pose proof (HX' 0 ltac:(lia)) as E0; rewrite Z.add_0_r in E0.
  rewrite E0, (HX' 2), (HX' 8), (HX' 13), rotl_u32_spec by lia; change (16 - 0) with 16.
  change (16 - 2) with 14; change (16 - 8) with 8; change (16 - 13) with 3.
  rewrite xor_swap, <- Hr; eexists; split; [reflexivity|]; apply window_store; auto; lia.
Qed.

(** ** The block function *)

Section Block.
  Variables (W : Z -> Z).
  Hypothesis W_rec : forall t, 16 <= t < 80 ->
    W t = rotl 32 (Z.lxor (Z.lxor (Z.lxor (W (t - 3)) (W (t - 8))) (W (t - 14))) (W (t - 16))) 1.

(** The array before round [t]: the first sixteen rounds leave it alone. *)
Definition sha1_window (t : Z) (X : list Z) : Prop := window W (Z.max 16 t) X.

Lemma BODY_00_15_ok t : 0 <= t < 16 -> round_ok W sha1_window BODY_00_15 t.
Proof.
  intros Ht X R HX HR; unfold sha1_window in *.
  destruct (sha1_body_spec F_00_19 K_00_19 t (W t) R HR) as [Hl Hr].
  { intros; rewrite F_00_19_spec; unfold fips_f; now rewrite (proj2 (Z.ltb_lt t 20)) by lia. }
  { unfold fips_K; now rewrite (proj2 (Z.ltb_lt t 20)) by lia. }
  exists X, (sha1_body F_00_19 K_00_19 t (W t) R); repeat split; auto; try apply HX; try lia.
  - unfold BODY_00_15; do 2 f_equal; rewrite <- (proj2 HX t), Z.mod_small by lia; reflexivity.
  - intros k Hk Hk'; apply HX; lia.
Qed.

Lemma scheduled_ok F K t : 16 <= t < 80 ->
  (forall b c d, F b c d = fips_f t b c d) -> K = fips_K t ->
  round_ok W sha1_window (fun i st => let '(X, R) := st in let '(x, X) := Xupdate i X in (X, sha1_body F K i x R)) t.
Proof.
  intros Ht HF HK X R HX HR; unfold sha1_window in *; rewrite !Z.max_r in * by lia.
  destruct (Xupdate_spec W t X) as (X' & -> & HX'); [lia|auto|exact HX|].
  destruct (sha1_body_spec F K t (W t) R HR HF HK) as [Hl Hr].
  exists X', (sha1_body F K t (W t) R); auto.
Qed.

(** [F] and [K] are those of the rounds [lo], ..., [hi - 1]. *)
Definition phase (F : Z -> Z -> Z -> Z) (K lo hi : Z) : Prop :=
  forall t, lo <= t < hi -> (forall b c d, F b c d = fips_f t b c d) /\ K = fips_K t.

Lemma scheduled_rounds body F K t n X R :
  (forall i st, body i st = let '(X, R) := st in let '(x, X) := Xupdate i X in (X, sha1_body F K i x R)) ->
  16 <= t -> t + Z.of_nat n <= 80 -> phase F K t (t + Z.of_nat n) -> sha1_window t X -> zlen R = 6 ->
  exists X' R', sha1_rounds body t n (X, R) = (X', R') /\ sha1_window (t + Z.of_nat n) X' /\ zlen R' = 6 /\
    roles (t + Z.of_nat n) R' = fips1_rounds W t n (roles t R).
Proof.
  intros Hb Ht Hn Hf; apply sha1_rounds_spec; intros i Hi X1 R1; rewrite Hb.
  apply (scheduled_ok F K i); [lia| |]; apply Hf; auto.
Qed.

Ltac phases := intros t Ht; unfold fips_f, fips_K; repeat match goal with
  |- context [?x <? ?y] => destruct (Z.ltb_spec x y); try lia end; split; auto using F_00_19_spec, F_40_59_spec.

Lemma phase_1 : phase F_00_19 K_00_19 16 (16 + Z.of_nat 4).
Proof. phases. Qed.
Lemma phase_2a : phase F_20_39 K_20_39 20 (20 + Z.of_nat 12).
Proof. phases. Qed.
Lemma phase_2b : phase F_20_39 K_20_39 32 (32 + Z.of_nat 8).
Proof. phases. Qed.
Lemma phase_3 : phase F_40_59 K_40_59 40 (40 + Z.of_nat 20).
Proof. phases. Qed.
Lemma phase_4 : phase F_60_79 K_60_79 60 (60 + Z.of_nat 20).
Proof. phases. Qed.

(** Eighty rounds in a row. *)
Lemma sha1_rounds_all X R : window W 16 X -> zlen R = 6 ->
  exists X' R', sha1_rounds BODY_60_79 60 20 (sha1_rounds BODY_40_59 40 20 (sha1_rounds BODY_32_39 32 8
      (sha1_rounds BODY_20_31 20 12 (sha1_rounds BODY_16_19 16 4 (sha1_rounds BODY_00_15 0 16 (X, R)))))) = (X', R') /\
    roles 80 R' = fips1_rounds W 0 80 (roles 0 R).
Proof.
  intros HX HR.
  destruct (sha1_rounds_spec W sha1_window BODY_00_15 16 0 X R) as (X1 & R1 & -> & H1 & L1 & E1);
    [intros; apply BODY_00_15_ok; lia|exact HX|exact HR|].
  destruct (scheduled_rounds BODY_16_19 _ _ 16 4 X1 R1 ltac:(reflexivity) ltac:(lia) ltac:(lia) phase_1 H1 L1)
    as (X2 & R2 & -> & H2 & L2 & E2).
  destruct (scheduled_rounds BODY_20_31 _ _ 20 12 X2 R2 ltac:(reflexivity) ltac:(lia) ltac:(lia) phase_2a H2 L2)
    as (X3 & R3 & -> & H3 & L3 & E3).
  destruct (scheduled_rounds BODY_32_39 _ _ 32 8 X3 R3 ltac:(reflexivity) ltac:(lia) ltac:(lia) phase_2b H3 L3)
    as (X4 & R4 & -> & H4 & L4 & E4).
  destruct (scheduled_rounds BODY_40_59 _ _ 40 20 X4 R4 ltac:(reflexivity) ltac:(lia) ltac:(lia) phase_3 H4 L4)
    as (X5 & R5 & -> & H5 & L5 & E5).
  destruct (scheduled_rounds BODY_60_79 _ _ 60 20 X5 R5 ltac:(reflexivity) ltac:(lia) ltac:(lia) phase_4 H5 L5)
    as (X6 & R6 & -> & H6 & L6 & E6).
  exists X6, R6; split; [reflexivity|].
  change 80%nat with (16 + (4 + (12 + (8 + (20 + 20)))))%nat; rewrite !fips1_rounds_app.
  change (Z.of_nat 16) with 16 in *; change (Z.of_nat 4) with 4 in *; change (Z.of_nat 12) with 12 in *.
  change (Z.of_nat 8) with 8 in *; change (Z.of_nat 20) with 20 in *.
  change (0 + 16) with 16 in *; change (16 + 4) with 20 in *; change (20 + 12) with 32 in *.
  change (32 + 8) with 40 in *; change (40 + 20) with 60 in *; change (60 + 20) with 80 in *.
  now rewrite <- E1, <- E2, <- E3, <- E4, <- E5, <- E6.
Qed.
End Block.

Lemma land_u32 x : Z.land x 0xffffffff = u32 x.
Proof. change 0xffffffff with (2 ^ 32 - 1); now rewrite land_low. Qed.

Lemma sha1_loads data : bytes data -> 64 <= zlen data ->
  map (fun i => CRYPTO_load_u32_be (zdrop (4 * Z.of_nat i) data)) (seq 0 16) = be_words 4 data.
Proof.
  intros Hb Hl; unfold be_words; apply map_ext_in; intros i Hi%in_seq.
  change (Z.of_nat 4) with 4; rewrite <- (ztake_zdrop 4 (zdrop (4 * Z.of_nat i) data)) at 1.
  apply load_u32_be_spec; auto with zlist; rewrite zlen_ztake; [lia|]; rewrite zlen_zdrop; lia.
Qed.

Lemma sha1_block_spec state data : bytes data -> 64 <= zlen data ->
  sha1_block state data = sha1_compress state (be_words 4 data).
Proof.
  intros Hb Hl; unfold sha1_block, sha1_compress; rewrite sha1_loads by auto.
  set (M := be_words 4 data); set (R := [_; _; _; _; _; 0]); assert (zlen M = 16) as HM by reflexivity.
  pose proof (fun t Ht => fips1_schedule_rec M 64 t HM Ht) as Hr; cbv zeta in Hr.
  assert (window (znth (fips1_schedule M 64)) 16 M) as HW.
  { split; [exact HM|]; intros k H0 Hk; rewrite Z.mod_small by lia.
    symmetry; apply (fips1_schedule_prefix M 0); [exact HM|lia|lia]. }
  revert Hr HW; generalize (znth (fips1_schedule M 64)) as W; intros W Hr HW.
  destruct (sha1_rounds_all W ltac:(intros; apply Hr; lia) M R HW eq_refl) as (X' & R' & -> & E).
  change (znth state 0, znth state 1, znth state 2, znth state 3, znth state 4) with (roles 0 R).
  rewrite <- E, !land_u32; reflexivity.
Qed.

Lemma sha1_block_prefix state b d : zlen b = 64 -> sha1_block state (b ++ d) = sha1_block state b.
Proof.
  intros Hb; unfold sha1_block.
  replace (map (fun i => CRYPTO_load_u32_be (zdrop (4 * Z.of_nat i) (b ++ d))) (seq 0 16))
    with (map (fun i => CRYPTO_load_u32_be (zdrop (4 * Z.of_nat i) b)) (seq 0 16)); [reflexivity|].
  apply map_ext_in; intros i Hi%in_seq; unfold CRYPTO_load_u32_be.
  rewrite zdrop_app_le, ztake_app_le by (rewrite ?zlen_zdrop; lia); reflexivity.
Qed.

#[export] Instance sha1_block_func : BlockFunc sha1_block_data_order SHA_CBLOCK.
Proof. apply (dowhile_block_func sha1_block 64); [apply sha1_block_prefix|pow2; lia]. Qed.

Lemma sha1_one state d : bytes d -> SHA_CBLOCK <= zlen d ->
  sha1_block_data_order state d 1 = sha1_compress state (be_words 4 (ztake SHA_CBLOCK d)).
Proof.
  unfold SHA_CBLOCK; intros Hb Hl; unfold sha1_block_data_order.
  change (block_loop sha1_block 64 (S (Z.to_nat (u64 (1 - 1)))) state d) with (sha1_block state d).
  rewrite <- (ztake_zdrop 64 d) at 1.
  rewrite sha1_block_prefix, sha1_block_spec by (auto with zlist; rewrite zlen_ztake; lia); reflexivity.
Qed.

(** * The hash of the standard *)

Definition sha1_spec (msg : list Z) : list Z :=
  concat (map (be_enc 4) (merkle_damgard (fun state block => sha1_compress state (be_words 4 block)) 64
    (md_trailer true msg) sha1_iv msg)).

Definition words5 (state : list Z) : Prop :=
  exists a b c d e, state = [a; b; c; d; e] /\ Forall (fun x => 0 <= x < 2 ^ 32) state.

Lemma sha1_compress_words state M : words5 (sha1_compress state M).
Proof.
  unfold sha1_compress; destruct (fips1_rounds _ 0 80 _) as [[[[a b] c] d] e].
  do 5 eexists; split; [reflexivity|]; repeat (apply Forall_cons_2; [apply (uw_bound 32); lia|]); apply Forall_nil_2.
Qed.

Abbreviation absorbs1 := (absorbs (block_func := sha1_block_data_order) (block_size := SHA_CBLOCK)).

Lemma sha1_final_spec c msg : absorbs1 sha1_iv c msg -> bytes msg -> fst (SHA1_Final c) = sha1_spec msg.
Proof.
  intros Ha Hb; unfold SHA1_Final, sha1_spec; cbn [fst].
  rewrite (proj1 (final_absorbs true sha1_iv c msg Ha)).
  rewrite (md_hash_spec _ _ (fun state block => sha1_compress state (be_words 4 block)) true sha1_iv _ sha1_one Hb).
  assert (words5 (merkle_damgard (fun state block => sha1_compress state (be_words 4 block)) SHA_CBLOCK
    (md_trailer true msg) sha1_iv msg)) as (a & b & x & d & e & E & Hw).
  { apply merkle_damgard_inv; [unfold SHA_CBLOCK; pow2; lia|now rewrite zlen_md_trailer|].
    intros; apply sha1_compress_words. }
  change SHA_CBLOCK with 64 in *; rewrite E in Hw |- *; change (znth [a; b; x; d; e] 0) with a.
  rewrite !Forall_cons in Hw; destruct Hw as (? & ? & ? & ? & ? & _).
  change (znth [a; b; x; d; e] 1) with b; change (znth [a; b; x; d; e] 2) with x;
    change (znth [a; b; x; d; e] 3) with d; change (znth [a; b; x; d; e] 4) with e.
  rewrite !store_u32_be_spec by auto; cbn [map concat]; now rewrite app_nil_r.
Qed.

(** SHA-1 is the function of FIPS 180-4, however the message is cut into
    calls of [SHA1_Update]: the rotated variables and the circular array of the
    C code compute the eighty rounds and the schedule of section 6.1.2. *)
Theorem sha1_streaming (chunks : list (list Z)) :
  Forall (fun x => bytes x /\ zlen x < 2 ^ 63) chunks ->
  fst (SHA1_Final (fold_left SHA1_Update chunks SHA1_Init)) = sha1_spec (concat chunks).
Proof.
  intros Hc; apply sha1_final_spec.
  - apply (updates_absorb sha1_iv chunks _ []); [apply md_init_absorbs|].
    eapply Forall_impl; [exact Hc|]; now intros ? [? ?].
  - apply Forall_concat; eapply Forall_impl; [exact Hc|]; now intros ? [? ?].
Qed.

(** The test vector of the standard for "abc", in two pieces. *)
Lemma sha1_streaming_witness :
  fst (SHA1_Final (fold_left SHA1_Update [[97]; [98; 99]] SHA1_Init)) =
    be_enc 20 0xa9993e364706816aba3e25717850c26c9cd0d89d /\
  fst (SHA1_Final (fold_left SHA1_Update [[97]; [98; 99]] SHA1_Init)) = sha1_spec [97; 98; 99].
Proof.
  split; [vm_compute; reflexivity|].
  refine (sha1_streaming [[97]; [98; 99]] _); repeat constructor; unfold byte; lia.
Defined.
