(* ===== verification/Md5.v ===== *)
(** MD4 and MD5: crypto/fipsmodule/md4/md4.c and crypto/fipsmodule/md5/md5.c,
    with their C block functions, on the collector of Md32.v.

    Each block function is a straight line of macro calls [Rj(a, b, c, d, X(k),
    s, t)] in which the names of the four variables rotate; the model keeps the
    rows [(k, s, t)] of those calls, in their order, as tables, and computes the
    rotation. *)

From S2P Require Import Prelude Cbs Words Md32 Sha2 Sha256.

(** * What the two block functions share *)

(** The variable that is the [j]-th argument of call [i], as an index into
    [A; B; C; D]. *)
Definition md_arg (i j : Z) : Z := (j - i) mod 4.

(** A macro [R] computes the new value of its first argument. *)
Definition md_macro : Type := Z -> Z -> Z -> Z -> Z -> Z -> Z -> Z.

Definition md_call (R : md_macro) (X : list Z) (i : Z) (row : Z * Z * Z) (V : list Z) : list Z :=
  let '(k, s, t) := row in
  let v j := znth V (md_arg i j) in
  zsplice V (md_arg i 0) [R (v 0) (v 1) (v 2) (v 3) (znth X k) s t].

Fixpoint md_calls (R : md_macro) (X : list Z) (i : Z) (rows : list (Z * Z * Z)) (V : list Z) : list Z :=
  match rows with
  | [] => V
  | row :: rows => md_calls R X (i + 1) rows (md_call R X i row V)
  end.

(** The sixteen words of the block. *)
Definition load_X (data : list Z) : list Z :=
  map (fun i => CRYPTO_load_u32_le (zdrop (4 * Z.of_nat i) data)) (seq 0 16).

Definition state4 (state : list Z) : list Z := [znth state 0; znth state 1; znth state 2; znth state 3].

(** [A = state[0] += A], and so on. *)
Definition add_state4 (state V : list Z) : list Z :=
  [u32 (znth state 0 + znth V 0); u32 (znth state 1 + znth V 1);
   u32 (znth state 2 + znth V 2); u32 (znth state 3 + znth V 3)].

Definition md_iv : list Z := [0x67452301; 0xefcdab89; 0x98badcfe; 0x10325476].

Definition store4 (c : md_state) : list Z :=
  CRYPTO_store_u32_le (znth (h c) 0) ++ CRYPTO_store_u32_le (znth (h c) 1) ++
  CRYPTO_store_u32_le (znth (h c) 2) ++ CRYPTO_store_u32_le (znth (h c) 3).

(** * MD5 *)

Definition MD5_CBLOCK : Z := 64.
Definition MD5_DIGEST_LENGTH : Z := 16.

Definition md5_F (b c d : Z) : Z := Z.lxor (Z.land (Z.lxor c d) b) d.
Definition md5_G (b c d : Z) : Z := Z.lxor (Z.land (Z.lxor b c) d) c.
Definition md5_H (b c d : Z) : Z := Z.lxor (Z.lxor b c) d.
Definition md5_I (b c d : Z) : Z := Z.lxor (Z.lor (u32 (Z.lnot d)) b) c.

Definition md5_R (f : Z -> Z -> Z -> Z) : md_macro := fun a b c d k s t =>
  let a := u32 (a + (k + t + f b c d)) in
  let a := CRYPTO_rotl_u32 a s in
  u32 (a + b).
Definition md5_R0 : md_macro := md5_R md5_F.
Definition md5_R1 : md_macro := md5_R md5_G.
Definition md5_R2 : md_macro := md5_R md5_H.
Definition md5_R3 : md_macro := md5_R md5_I.

Definition md5_round0 : list (Z * Z * Z) :=
  [(0, 7, 0xd76aa478); (1, 12, 0xe8c7b756); (2, 17, 0x242070db); (3, 22, 0xc1bdceee);
   (4, 7, 0xf57c0faf); (5, 12, 0x4787c62a); (6, 17, 0xa8304613); (7, 22, 0xfd469501);
   (8, 7, 0x698098d8); (9, 12, 0x8b44f7af); (10, 17, 0xffff5bb1); (11, 22, 0x895cd7be);
   (12, 7, 0x6b901122); (13, 12, 0xfd987193); (14, 17, 0xa679438e); (15, 22, 0x49b40821)].
Definition md5_round1 : list (Z * Z * Z) :=
  [(1, 5, 0xf61e2562); (6, 9, 0xc040b340); (11, 14, 0x265e5a51); (0, 20, 0xe9b6c7aa);
   (5, 5, 0xd62f105d); (10, 9, 0x02441453); (15, 14, 0xd8a1e681); (4, 20, 0xe7d3fbc8);
   (9, 5, 0x21e1cde6); (14, 9, 0xc33707d6); (3, 14, 0xf4d50d87); (8, 20, 0x455a14ed);
   (13, 5, 0xa9e3e905); (2, 9, 0xfcefa3f8); (7, 14, 0x676f02d9); (12, 20, 0x8d2a4c8a)].
Definition md5_round2 : list (Z * Z * Z) :=
  [(5, 4, 0xfffa3942); (8, 11, 0x8771f681); (11, 16, 0x6d9d6122); (14, 23, 0xfde5380c);
   (1, 4, 0xa4beea44); (4, 11, 0x4bdecfa9); (7, 16, 0xf6bb4b60); (10, 23, 0xbebfbc70);
   (13, 4, 0x289b7ec6); (0, 11, 0xeaa127fa); (3, 16, 0xd4ef3085); (6, 23, 0x04881d05);
   (9, 4, 0xd9d4d039); (12, 11, 0xe6db99e5); (15, 16, 0x1fa27cf8); (2, 23, 0xc4ac5665)].
Definition md5_round3 : list (Z * Z * Z) :=
  [(0, 6, 0xf4292244); (7, 10, 0x432aff97); (14, 15, 0xab9423a7); (5, 21, 0xfc93a039);
   (12, 6, 0x655b59c3); (3, 10, 0x8f0ccc92); (10, 15, 0xffeff47d); (1, 21, 0x85845dd1);
   (8, 6, 0x6fa87e4f); (15, 10, 0xfe2ce6e0); (6, 15, 0xa3014314); (13, 21, 0x4e0811a1);
   (4, 6, 0xf7537e82); (11, 10, 0xbd3af235); (2, 15, 0x2ad7d2bb); (9, 21, 0xeb86d391)].

Definition md5_block (state data : list Z) : list Z :=
  let X := load_X data in
  let V := md_calls md5_R0 X 0 md5_round0 (state4 state) in
  let V := md_calls md5_R1 X 16 md5_round1 V in
  let V := md_calls md5_R2 X 32 md5_round2 V in
  let V := md_calls md5_R3 X 48 md5_round3 V in
  add_state4 state V.

Definition md5_block_data_order (state data : list Z) (num : Z) : list Z :=
  block_loop md5_block 64 (Z.to_nat num) state data.

Definition MD5_Init : md_state := md_init md_iv MD5_CBLOCK.
Definition MD5_Transform (c : md_state) (data : list Z) : md_state :=
  {| h := md5_block_data_order (h c) data 1; data := Md32.data c; num := num c; Nh := Nh c; Nl := Nl c |}.
Definition MD5_Update (c : md_state) (data : list Z) : md_state :=
  crypto_md32_update md5_block_data_order MD5_CBLOCK c data.
Definition MD5_Final (c : md_state) : list Z * md_state :=
  let c := crypto_md32_final md5_block_data_order MD5_CBLOCK false c in (store4 c, c).
Definition MD5 (data : list Z) : list Z := fst (MD5_Final (MD5_Update MD5_Init data)).

(** * MD4 *)

Definition MD4_CBLOCK : Z := 64.
Definition MD4_DIGEST_LENGTH : Z := 16.

Definition md4_F (b c d : Z) : Z := Z.lxor (Z.land (Z.lxor c d) b) d.
Definition md4_G (b c d : Z) : Z := Z.lor (Z.lor (Z.land b c) (Z.land b d)) (Z.land c d).
Definition md4_H (b c d : Z) : Z := Z.lxor (Z.lxor b c) d.

Definition md4_R (f : Z -> Z -> Z -> Z) : md_macro := fun a b c d k s t =>
  let a := u32 (a + (k + t + f b c d)) in
  CRYPTO_rotl_u32 a s.
Definition md4_R0 : md_macro := md4_R md4_F.
Definition md4_R1 : md_macro := md4_R md4_G.
Definition md4_R2 : md_macro := md4_R md4_H.

Definition md4_round0 : list (Z * Z * Z) :=
  [(0, 3, 0); (1, 7, 0); (2, 11, 0); (3, 19, 0);
   (4, 3, 0); (5, 7, 0); (6, 11, 0); (7, 19, 0);
   (8, 3, 0); (9, 7, 0); (10, 11, 0); (11, 19, 0);
   (12, 3, 0); (13, 7, 0); (14, 11, 0); (15, 19, 0)].
Definition md4_round1 : list (Z * Z * Z) :=
  [(0, 3, 0x5a827999); (4, 5, 0x5a827999); (8, 9, 0x5a827999); (12, 13, 0x5a827999);
   (1, 3, 0x5a827999); (5, 5, 0x5a827999); (9, 9, 0x5a827999); (13, 13, 0x5a827999);
   (2, 3, 0x5a827999); (6, 5, 0x5a827999); (10, 9, 0x5a827999); (14, 13, 0x5a827999);
   (3, 3, 0x5a827999); (7, 5, 0x5a827999); (11, 9, 0x5a827999); (15, 13, 0x5a827999)].
Definition md4_round2 : list (Z * Z * Z) :=
  [(0, 3, 0x6ed9eba1); (8, 9, 0x6ed9eba1); (4, 11, 0x6ed9eba1); (12, 15, 0x6ed9eba1);
   (2, 3, 0x6ed9eba1); (10, 9, 0x6ed9eba1); (6, 11, 0x6ed9eba1); (14, 15, 0x6ed9eba1);
   (1, 3, 0x6ed9eba1); (9, 9, 0x6ed9eba1); (5, 11, 0x6ed9eba1); (13, 15, 0x6ed9eba1);
   (3, 3, 0x6ed9eba1); (11, 9, 0x6ed9eba1); (7, 11, 0x6ed9eba1); (15, 15, 0x6ed9eba1)].

Definition md4_block (state data : list Z) : list Z :=
  let X := load_X data in
  let V := md_calls md4_R0 X 0 md4_round0 (state4 state) in
  let V := md_calls md4_R1 X 16 md4_round1 V in
  let V := md_calls md4_R2 X 32 md4_round2 V in
  add_state4 state V.

Definition md4_block_data_order (state data : list Z) (num : Z) : list Z :=
  block_loop md4_block 64 (Z.to_nat num) state data.

Definition MD4_Init : md_state := md_init md_iv MD4_CBLOCK.
Definition MD4_Transform (c : md_state) (data : list Z) : md_state :=
  {| h := md4_block_data_order (h c) data 1; data := Md32.data c; num := num c; Nh := Nh c; Nl := Nl c |}.
Definition MD4_Update (c : md_state) (data : list Z) : md_state :=
  crypto_md32_update md4_block_data_order MD4_CBLOCK c data.
Definition MD4_Final (c : md_state) : list Z * md_state :=
  let c := crypto_md32_final md4_block_data_order MD4_CBLOCK false c in (store4 c, c).
Definition MD4 (data : list Z) : list Z := fst (MD4_Final (MD4_Update MD4_Init data)).

(** * RFC 1320 and RFC 1321 *)

(** The auxiliary functions of RFC 1321, section 3.4, by number of the round. *)
Definition rfc1321_f (round : Z) (x y z : Z) : Z :=
  if round =? 0 then Z.lor (Z.land x y) (Z.land (Z.lnot x) z)
  else if round =? 1 then Z.lor (Z.land x z) (Z.land y (Z.lnot z))
  else if round =? 2 then Z.lxor (Z.lxor x y) z
  else Z.lxor y (Z.lor x (u32 (Z.lnot z))).

(** The word, shift and round of operation [i], counted from 0. *)
Definition rfc1321_k (i : Z) : Z :=
  if i <? 16 then i else if i <? 32 then (5 * i + 1) mod 16 else if i <? 48 then (3 * i + 5) mod 16 else (7 * i) mod 16.
Definition rfc1321_s (i : Z) : Z :=
  znth (nth (Z.to_nat (i / 16)) [[7; 12; 17; 22]; [5; 9; 14; 20]; [4; 11; 16; 23]; [6; 10; 15; 21]] []) (i mod 4).

(** [2^p * sin x] for an integer [x], by the first [n] terms of the power
    series; [term] is the term of degree [2 k + 1]. *)
Fixpoint sin_series (x : Z) (n : nat) (k term : Z) : Z :=
  match n with
  | O => 0
  | S n => term + sin_series x n (k + 1) (- (term * x * x) / ((2 * k + 2) * (2 * k + 3)))
  end.

(** The constant [T[i + 1]], the integer part of 4294967296 times the absolute
    value of the sine of [i + 1] radians; the series is summed with 128 bits
    beyond those of the result, and its terms are below the last of them after
    128 terms. *)
Definition rfc1321_T (i : Z) : Z :=
  Z.abs (sin_series (i + 1) 128 0 ((i + 1) * 2 ^ 160)) / 2 ^ 128.

Definition rfc1320_f (round : Z) (x y z : Z) : Z :=
  if round =? 0 then Z.lor (Z.land x y) (Z.land (Z.lnot x) z)
  else if round =? 1 then Z.lor (Z.lor (Z.land x y) (Z.land x z)) (Z.land y z)
  else Z.lxor (Z.lxor x y) z.
Definition bitrev4 (i : Z) : Z := 8 * (i mod 2) + 4 * (i / 2 mod 2) + 2 * (i / 4 mod 2) + i / 8.
Definition rfc1320_k (i : Z) : Z :=
  if i <? 16 then i else if i <? 32 then 4 * (i mod 4) + i mod 16 / 4 else bitrev4 (i mod 16).
Definition rfc1320_s (i : Z) : Z :=
  znth (nth (Z.to_nat (i / 16)) [[3; 7; 11; 19]; [3; 5; 9; 13]; [3; 9; 11; 15]] []) (i mod 4).

(** One operation: [a] becomes [b + ((a + f(b,c,d) + X[k] + t) <<< s)] in MD5,
    the rotation alone in MD4, and the names move one place on. *)
Definition rfc_op (add_b : bool) (f : Z -> Z -> Z -> Z -> Z) (M : list Z) (r : Z * Z * Z * Z) (row : Z * (Z * Z * Z)) :
    Z * Z * Z * Z :=
  let '(a, b, c, d) := r in
  let '(round, (k, s, t)) := row in
  let x := rotl 32 (u32 (a + f round b c d + znth M k + t)) s in
  (d, if add_b then u32 (b + x) else x, b, c).

Definition md5_rows : list (Z * (Z * Z * Z)) :=
  map (fun i => (i / 16, (rfc1321_k i, rfc1321_s i, rfc1321_T i))) (map Z.of_nat (seq 0 64)).
Definition md4_rows : list (Z * (Z * Z * Z)) :=
  map (fun i => (i / 16, (rfc1320_k i, rfc1320_s i, if i <? 16 then 0 else if i <? 32 then 0x5a827999 else 0x6ed9eba1)))
    (map Z.of_nat (seq 0 48)).

Definition md_compress (add_b : bool) (f : Z -> Z -> Z -> Z -> Z) (rows : list (Z * (Z * Z * Z))) (state M : list Z) : list Z :=
  let '(a, b, c, d) := fold_left (rfc_op add_b f M) rows (znth state 0, znth state 1, znth state 2, znth state 3) in
  [u32 (znth state 0 + a); u32 (znth state 1 + b); u32 (znth state 2 + c); u32 (znth state 3 + d)].

(** The little-endian words of a block. *)
Definition le_words (block : list Z) : list Z :=
  map (fun i => le_val (ztake 4 (zdrop (4 * Z.of_nat i) block))) (seq 0 16).

Definition md5_compress (state block : list Z) : list Z := md_compress true rfc1321_f md5_rows state (le_words block).
Definition md4_compress (state block : list Z) : list Z := md_compress false rfc1320_f md4_rows state (le_words block).

(** ** The tables are those of the standards *)

Definition tag_rows (round : Z) (rows : list (Z * Z * Z)) : list (Z * (Z * Z * Z)) := map (pair round) rows.

Lemma md5_rows_spec :
  md5_rows = tag_rows 0 md5_round0 ++ tag_rows 1 md5_round1 ++ tag_rows 2 md5_round2 ++ tag_rows 3 md5_round3.
Proof. vm_compute; reflexivity. Qed.

Lemma md4_rows_spec : md4_rows = tag_rows 0 md4_round0 ++ tag_rows 1 md4_round1 ++ tag_rows 2 md4_round2.
Proof. vm_compute; reflexivity. Qed.

(** ** The simplified Boolean functions *)

Ltac bits := apply Z.bits_inj'; intros ? ?; rewrite ?Z.lxor_spec, ?Z.lor_spec, ?Z.land_spec, ?Z.lor_spec, ?Z.lxor_spec,
  ?Z.lnot_spec by assumption.
Ltac bools := repeat match goal with |- context [Z.testbit ?x ?n] => destruct (Z.testbit x n) end; reflexivity.

Lemma md5_F_spec b c d : md5_F b c d = rfc1321_f 0 b c d.
Proof. unfold md5_F, rfc1321_f; cbn [Z.eqb]; bits; bools. Qed.
Lemma md5_G_spec b c d : md5_G b c d = rfc1321_f 1 b c d.
Proof. unfold md5_G, rfc1321_f; cbn [Z.eqb Pos.eqb]; bits; bools. Qed.
Lemma md5_I_spec b c d : md5_I b c d = rfc1321_f 3 b c d.
Proof. unfold md5_I, rfc1321_f; cbn [Z.eqb Pos.eqb]; generalize (u32 (Z.lnot d)); intros; bits; bools. Qed.
Lemma md4_F_spec b c d : md4_F b c d = rfc1320_f 0 b c d.
Proof. exact (md5_F_spec b c d). Qed.

(** ** The rotation of the variables *)

Definition roles4 (i : Z) (V : list Z) : Z * Z * Z * Z :=
  (znth V (md_arg i 0), znth V (md_arg i 1), znth V (md_arg i 2), znth V (md_arg i 3)).

(** The macro [R] computes the operation of round [round]. *)
Definition macro_ok (add_b : bool) (f : Z -> Z -> Z -> Z -> Z) (R : md_macro) (round : Z) : Prop :=
  forall a b c d x s t, 0 < s < 32 -> R a b c d x s t =
    let y := rotl 32 (u32 (a + f round b c d + x + t)) s in if add_b then u32 (b + y) else y.

Lemma md5_R_ok f round : (forall b c d, f b c d = rfc1321_f round b c d) -> macro_ok true rfc1321_f (md5_R f) round.
Proof.
  intros Hf a b c d x s t Hs; unfold md5_R; rewrite rotl_u32_spec, Hf by lia.
  rewrite Z.add_comm; do 4 f_equal; lia.
Qed.

Lemma md4_R_ok f round : (forall b c d, f b c d = rfc1320_f round b c d) -> macro_ok false rfc1320_f (md4_R f) round.
Proof. intros Hf a b c d x s t Hs; unfold md4_R; rewrite rotl_u32_spec, Hf by lia; do 2 f_equal; lia. Qed.

Lemma md_arg_next i j : md_arg (i + 1) (j + 1) = md_arg i j.
Proof. unfold md_arg; f_equal; lia. Qed.

Lemma md_arg_inj i k l : 0 <= k < 4 -> 0 <= l < 4 -> (md_arg i k =? md_arg i l) = (k =? l).
Proof.
  intros Hk Hl; destruct (Z.eqb_spec k l) as [-> |Hne]; [apply Z.eqb_refl|].
  apply Z.eqb_neq; unfold md_arg; intros E.
  pose proof (Z.div_mod (k - i) 4 ltac:(lia)); pose proof (Z.div_mod (l - i) 4 ltac:(lia)); lia.
Qed.

Section Calls.
  Variables (add_b : bool) (f : Z -> Z -> Z -> Z -> Z) (R : md_macro) (round : Z) (X : list Z).
  Hypothesis R_ok : macro_ok add_b f R round.

Lemma md_call_spec i k s t V : zlen V = 4 -> 0 < s < 32 ->
  zlen (md_call R X i (k, s, t) V) = 4 /\
  roles4 (i + 1) (md_call R X i (k, s, t) V) = rfc_op add_b f X (roles4 i V) (round, (k, s, t)).
Proof.
  intros HV Hs; assert (forall j, 0 <= md_arg i j < 4) as Hb by (intros; apply Z.mod_pos_bound; lia).
  pose proof (Hb 0); unfold md_call; rewrite R_ok by exact Hs; set (y := if add_b then _ else _).
  split; [rewrite zlen_zsplice; auto; change (zlen [y]) with 1; lia|].
  assert (forall j, 0 <= j < 4 -> znth (zsplice V (md_arg i 0) [y]) (md_arg i j) =
    if j =? 0 then y else znth V (md_arg i j)) as Hg.
  { intros j Hj; pose proof (Hb j); rewrite znth_zsplice1, md_arg_inj by lia; reflexivity. }
  assert (md_arg (i + 1) 0 = md_arg i 3) as E0 by
    (unfold md_arg; rewrite <- (Z_mod_plus_full (0 - (i + 1)) 1 4); f_equal; lia).
  unfold roles4; rewrite E0, (md_arg_next i 0 : md_arg (i + 1) 1 = _), (md_arg_next i 1 : md_arg (i + 1) 2 = _),
    (md_arg_next i 2 : md_arg (i + 1) 3 = _), !Hg by lia; reflexivity.
Qed.

Lemma md_calls_spec rows : forall i V, zlen V = 4 -> forallb (fun row => (0 <? snd (fst row)) && (snd (fst row) <? 32)) rows = true ->
  zlen (md_calls R X i rows V) = 4 /\
  roles4 (i + zlen rows) (md_calls R X i rows V) = fold_left (rfc_op add_b f X) (tag_rows round rows) (roles4 i V).
Proof.
  induction rows as [|[[k s] t] rows IH]; intros i V HV Hr.
  - cbn [md_calls tag_rows map fold_left]; change (zlen (@nil (Z * Z * Z))) with 0; rewrite Z.add_0_r; auto.
  - cbn [forallb fst snd] in Hr; apply andb_prop in Hr as [Hs Hr]; apply andb_prop in Hs as [Hs1 Hs2].
    apply Z.ltb_lt in Hs1, Hs2; destruct (md_call_spec i k s t V HV (conj Hs1 Hs2)) as [Hl E].
    cbn [md_calls tag_rows map fold_left]; rewrite <- E.
    replace (i + zlen ((k, s, t) :: rows)) with (i + 1 + zlen rows) by (unfold zlen; cbn [length]; lia).
    now apply IH.
Qed.
End Calls.

(** The calls of one round, as a step of the proof of a block function. *)
Lemma md_round add_b f R round X i rows V st : macro_ok add_b f R round ->
  forallb (fun row => (0 <? snd (fst row)) && (snd (fst row) <? 32)) rows = true -> zlen rows = 16 ->
  zlen V = 4 -> roles4 i V = st ->
  zlen (md_calls R X i rows V) = 4 /\
  roles4 (i + 16) (md_calls R X i rows V) = fold_left (rfc_op add_b f X) (tag_rows round rows) st.
Proof. intros HR Hr Hl HV <-; rewrite <- Hl; now apply md_calls_spec. Qed.

Lemma add_state4_spec add_b f rows state M V :
  roles4 0 V = fold_left (rfc_op add_b f M) rows (roles4 0 (state4 state)) ->
  add_state4 state V = md_compress add_b f rows state M.
Proof.
  unfold md_compress, roles4; change (znth (state4 state) (md_arg 0 0)) with (znth state 0).
  change (znth (state4 state) (md_arg 0 1)) with (znth state 1); change (znth (state4 state) (md_arg 0 2)) with (znth state 2).
  change (znth (state4 state) (md_arg 0 3)) with (znth state 3); intros <-; reflexivity.
Qed.

Lemma md5_block_spec state data : md5_block state data = md5_compress state data.
Proof.
  unfold md5_block, md5_compress; change (le_words data) with (load_X data); generalize (load_X data) as X; intros X.
  apply add_state4_spec; rewrite md5_rows_spec, !fold_left_app.
  destruct (md_round true rfc1321_f md5_R0 0 X 0 md5_round0 (state4 state) _ (md5_R_ok _ 0 md5_F_spec) eq_refl eq_refl
    eq_refl eq_refl) as [L0 E0].
  destruct (md_round true rfc1321_f md5_R1 1 X 16 md5_round1 _ _ (md5_R_ok _ 1 md5_G_spec) eq_refl eq_refl L0 E0) as [L1 E1].
  destruct (md_round true rfc1321_f md5_R2 2 X 32 md5_round2 _ _ (md5_R_ok md5_H 2 ltac:(reflexivity)) eq_refl eq_refl L1 E1)
    as [L2 E2].
  exact (proj2 (md_round true rfc1321_f md5_R3 3 X 48 md5_round3 _ _ (md5_R_ok _ 3 md5_I_spec) eq_refl eq_refl L2 E2)).
Qed.

Lemma md4_block_spec state data : md4_block state data = md4_compress state data.
Proof.
  unfold md4_block, md4_compress; change (le_words data) with (load_X data); generalize (load_X data) as X; intros X.
  apply add_state4_spec; rewrite md4_rows_spec, !fold_left_app.
  destruct (md_round false rfc1320_f md4_R0 0 X 0 md4_round0 (state4 state) _ (md4_R_ok _ 0 md4_F_spec) eq_refl eq_refl
    eq_refl eq_refl) as [L0 E0].
  destruct (md_round false rfc1320_f md4_R1 1 X 16 md4_round1 _ _ (md4_R_ok md4_G 1 ltac:(reflexivity)) eq_refl eq_refl L0 E0)
    as [L1 E1].
  exact (proj2 (md_round false rfc1320_f md4_R2 2 X 32 md4_round2 _ _ (md4_R_ok md4_H 2 ltac:(reflexivity)) eq_refl eq_refl
    L1 E1)).
Qed.

(** * The streaming interface *)

Lemma load_X_prefix b d : zlen b = 64 -> load_X (b ++ d) = load_X b.
Proof.
  intros Hb; apply map_ext_in; intros i Hi%in_seq; unfold CRYPTO_load_u32_le.
  rewrite zdrop_app_le, ztake_app_le by (rewrite ?zlen_zdrop; lia); reflexivity.
Qed.

Lemma md5_block_prefix state b d : zlen b = 64 -> md5_block state (b ++ d) = md5_block state b.
Proof. intros Hb; unfold md5_block; now rewrite load_X_prefix. Qed.

Lemma md4_block_prefix state b d : zlen b = 64 -> md4_block state (b ++ d) = md4_block state b.
Proof. intros Hb; unfold md4_block; now rewrite load_X_prefix. Qed.

#[export] Instance md5_block_func : BlockFunc md5_block_data_order MD5_CBLOCK.
Proof. apply (while_block_func md5_block 64); [apply md5_block_prefix|pow2; lia]. Qed.

#[export] Instance md4_block_func : BlockFunc md4_block_data_order MD4_CBLOCK.
Proof. apply (while_block_func md4_block 64); [apply md4_block_prefix|pow2; lia]. Qed.

(** The digest of the standards: padding with the bit length little-endian, the
    compression function folded over the blocks, the words little-endian. *)
Definition md_spec (compress : list Z -> list Z -> list Z) (msg : list Z) : list Z :=
  concat (map (le_enc 4) (merkle_damgard compress 64 (md_trailer false msg) md_iv msg)).
Definition md5_spec : list Z -> list Z := md_spec md5_compress.
Definition md4_spec : list Z -> list Z := md_spec md4_compress.

Lemma block_one (block compress : list Z -> list Z -> list Z) state d :
  (forall state data, block state data = compress state data) ->
  (forall state b d, zlen b = 64 -> block state (b ++ d) = block state b) ->
  64 <= zlen d -> block_loop block 64 (Z.to_nat 1) state d = compress state (ztake 64 d).
Proof.
  intros Hc Hp Hl; cbn [Z.to_nat Pos.to_nat Pos.iter_op block_loop].
  rewrite <- Hc, <- (ztake_zdrop 64 d) at 1; apply Hp; rewrite zlen_ztake; lia.
Qed.

Lemma md_compress_length add_b f rows state M : length (md_compress add_b f rows state M) = 4%nat.
Proof. unfold md_compress; destruct (fold_left _ rows _) as [[[a b] c] d]; reflexivity. Qed.

Lemma md5_compress_length state d : length (md5_compress state d) = 4%nat.
Proof. exact (md_compress_length true rfc1321_f md5_rows state (le_words d)). Qed.

Lemma md4_compress_length state d : length (md4_compress state d) = 4%nat.
Proof. exact (md_compress_length false rfc1320_f md4_rows state (le_words d)). Qed.

Lemma store4_spec st : length st = 4%nat ->
  CRYPTO_store_u32_le (znth st 0) ++ CRYPTO_store_u32_le (znth st 1) ++
  CRYPTO_store_u32_le (znth st 2) ++ CRYPTO_store_u32_le (znth st 3) = concat (map (le_enc 4) st).
Proof.
  destruct st as [|a [|b [|c [|d [|]]]]]; try discriminate; intros _; cbn [map concat]; now rewrite app_nil_r.
Qed.

(** What both digests hand out, from their block functions. *)
Lemma md_le_final block compress c msg
    {HB : BlockFunc (fun state data num => block_loop block 64 (Z.to_nat num) state data) 64} :
  (forall state data, block state data = compress state data) ->
  (forall state b d, zlen b = 64 -> block state (b ++ d) = block state b) ->
  (forall state d, length (compress state d) = 4%nat) ->
  absorbs (block_func := fun state data num => block_loop block 64 (Z.to_nat num) state data) (block_size := 64) md_iv c msg ->
  bytes msg ->
  store4 (crypto_md32_final (fun state data num => block_loop block 64 (Z.to_nat num) state data) 64 false c) =
    md_spec compress msg.
Proof.
  intros Hc Hp Hl Ha Hb; unfold store4, md_spec.
  rewrite (proj1 (final_absorbs false md_iv c msg Ha)).
  rewrite (md_hash_spec _ _ compress false md_iv _); [|intros; now apply block_one|exact Hb].
  apply store4_spec, (merkle_damgard_inv (fun st => length st = 4%nat)); [pow2; lia|now rewrite zlen_md_trailer|auto].
Qed.

Abbreviation absorbs_md5 := (absorbs (block_func := md5_block_data_order) (block_size := MD5_CBLOCK)).
Abbreviation absorbs_md4 := (absorbs (block_func := md4_block_data_order) (block_size := MD4_CBLOCK)).

Lemma md5_final_spec c msg : absorbs_md5 md_iv c msg -> bytes msg -> fst (MD5_Final c) = md5_spec msg.
Proof.
  exact (md_le_final md5_block md5_compress c msg (HB := md5_block_func) md5_block_spec md5_block_prefix
    md5_compress_length).
Qed.

Lemma md4_final_spec c msg : absorbs_md4 md_iv c msg -> bytes msg -> fst (MD4_Final c) = md4_spec msg.
Proof.
  exact (md_le_final md4_block md4_compress c msg (HB := md4_block_func) md4_block_spec md4_block_prefix
    md4_compress_length).
Qed.

(** MD5 is the function of RFC 1321 and MD4 that of RFC 1320, however the
    message is cut into calls of [Update]; the constants of MD5 are the sines
    the RFC defines them by. *)
Theorem md5_md4_streaming (chunks : list (list Z)) :
  Forall (fun x => bytes x /\ zlen x < 2 ^ 63) chunks ->
  fst (MD5_Final (fold_left MD5_Update chunks MD5_Init)) = md5_spec (concat chunks) /\
  fst (MD4_Final (fold_left MD4_Update chunks MD4_Init)) = md4_spec (concat chunks).
Proof.
  intros Hc.
  assert (bytes (concat chunks)) as Hb by
    (apply Forall_concat; eapply Forall_impl; [exact Hc|]; now intros ? [? ?]).
  assert (Forall (fun x => zlen x < 2 ^ 63) chunks) as Hz by (eapply Forall_impl; [exact Hc|]; now intros ? [? ?]).
  split; [apply md5_final_spec|apply md4_final_spec]; auto; apply (updates_absorb md_iv chunks _ []); auto;
    apply md_init_absorbs.
Qed.

(** The test vectors of the RFCs for "abc", hashed in two pieces. *)
Lemma md5_md4_streaming_witness :
  fst (MD5_Final (fold_left MD5_Update [[97]; [98; 99]] MD5_Init)) = be_enc 16 0x900150983cd24fb0d6963f7d28e17f72 /\
  fst (MD4_Final (fold_left MD4_Update [[97]; [98; 99]] MD4_Init)) = be_enc 16 0xa448017aaf21d8525fc10ae87aa6729d /\
  fst (MD5_Final (fold_left MD5_Update [[97]; [98; 99]] MD5_Init)) = md5_spec [97; 98; 99].
Proof.
  split; [vm_compute; reflexivity|]; split; [vm_compute; reflexivity|].
  refine (proj1 (md5_md4_streaming [[97]; [98; 99]] _)); repeat constructor; unfold byte; lia.
Defined.
