(* ===== verification/Digest.v ===== *)
(** Digests behind one interface: crypto/fipsmodule/digest/digest.c (the
    [EVP_MD_CTX] operations) and digests.c (the table of methods).

    The state a context points to ([void *md_data]) is the union [md_data]. A
    block whose bytes are all equal (fresh or cleansed memory) is a case of its
    own; the functions that read it as a struct say what they find there. The
    fields [pctx] and [pctx_ops], which only the signing functions of crypto/evp
    set, are not modelled: they are NULL here. A NULL dereference is [None]. *)

From S2P Require Import Prelude Cbs Words Md32 Sha2 Sha256 Sha512 Sha1 Md5.

(** * The methods *)

Inductive md_data : Type :=
  | MD_filled (b : Z)
  | MD_md32 (c : md_state)
  | MD_sha256 (c : SHA256_CTX)
  | MD_sha512 (c : SHA512_CTX)
  | MD_md5_sha1 (md5 sha1 : md_state).

(** [struct env_md_st]. A method is a static object: [type] identifies it. *)
Record EVP_MD : Type := {
  type : Z;
  md_size : Z;
  flags : Z;
  init : md_data -> md_data;
  update : md_data -> list Z -> md_data;
  final : md_data -> list Z * md_data;
  block_size : Z;
  ctx_size : Z
}.

(** What a block of [b]s contains when it is read as a struct: [words] words of
    [k] bytes, a buffer of [size] bytes, and counters. *)
Definition filled_word (k : nat) (b : Z) : Z := be_val (replicate k b).
Definition filled_md32 (words size b : Z) : md_state :=
  {| h := zrep words (filled_word 4 b); data := zrep size b; num := filled_word 4 b;
     Nh := filled_word 4 b; Nl := filled_word 4 b |}.
Definition filled_sha256 (b : Z) : SHA256_CTX := {| sha_md := filled_md32 8 64 b; md_len := filled_word 4 b |}.
Definition filled_sha512 (b : Z) : SHA512_CTX :=
  {| sha512_md := {| h := zrep 8 (filled_word 8 b); data := zrep 128 b; num := filled_word 4 b;
                     Nh := filled_word 8 b; Nl := filled_word 8 b |};
     md_len512 := filled_word 4 b |}.

(** The struct that [ctx->md_data] points to. A pointer to a struct of another
    digest never occurs: a change of digest comes with a new block. *)
Definition as_md32 (words : Z) (d : md_data) : md_state :=
  match d with MD_md32 c => c | MD_filled b => filled_md32 words 64 b | _ => filled_md32 words 64 0 end.
Definition as_sha256 (d : md_data) : SHA256_CTX :=
  match d with MD_sha256 c => c | MD_filled b => filled_sha256 b | _ => filled_sha256 0 end.
Definition as_sha512 (d : md_data) : SHA512_CTX :=
  match d with MD_sha512 c => c | MD_filled b => filled_sha512 b | _ => filled_sha512 0 end.
Definition as_md5_sha1 (d : md_data) : md_state * md_state :=
  match d with
  | MD_md5_sha1 c1 c2 => (c1, c2)
  | MD_filled b => (filled_md32 4 64 b, filled_md32 5 64 b)
  | _ => (filled_md32 4 64 0, filled_md32 5 64 0)
  end.

(** The bytes that are written to the output: none when the function fails. *)
Definition written (r : option (list Z)) : list Z := match r with Some l => l | None => [] end.

Definition md4_init (_ : md_data) : md_data := MD_md32 MD4_Init.
Definition md4_update (d : md_data) (x : list Z) : md_data := MD_md32 (MD4_Update (as_md32 4 d) x).
Definition md4_final (d : md_data) : list Z * md_data :=
  let '(out, c) := MD4_Final (as_md32 4 d) in (out, MD_md32 c).

Definition md5_init (_ : md_data) : md_data := MD_md32 MD5_Init.
Definition md5_update (d : md_data) (x : list Z) : md_data := MD_md32 (MD5_Update (as_md32 4 d) x).
Definition md5_final (d : md_data) : list Z * md_data :=
  let '(out, c) := MD5_Final (as_md32 4 d) in (out, MD_md32 c).

Definition sha1_init (_ : md_data) : md_data := MD_md32 SHA1_Init.
Definition sha1_update (d : md_data) (x : list Z) : md_data := MD_md32 (SHA1_Update (as_md32 5 d) x).
Definition sha1_final (d : md_data) : list Z * md_data :=
  let '(out, c) := SHA1_Final (as_md32 5 d) in (out, MD_md32 c).

Definition sha224_init (_ : md_data) : md_data := MD_sha256 SHA224_Init.
Definition sha224_update (d : md_data) (x : list Z) : md_data := MD_sha256 (SHA224_Update (as_sha256 d) x).
Definition sha224_final (d : md_data) : list Z * md_data :=
  let '(out, c) := SHA224_Final (as_sha256 d) in (written out, MD_sha256 c).

Definition sha256_init (_ : md_data) : md_data := MD_sha256 SHA256_Init.
Definition sha256_update (d : md_data) (x : list Z) : md_data := MD_sha256 (SHA256_Update (as_sha256 d) x).
Definition sha256_final (d : md_data) : list Z * md_data :=
  let '(out, c) := SHA256_Final (as_sha256 d) in (written out, MD_sha256 c).

(** These do not clear the buffer of the context. *)
Definition buffer512 (d : md_data) : list Z := data (sha512_md (as_sha512 d)).

Definition sha384_init (d : md_data) : md_data := MD_sha512 (SHA384_Init (buffer512 d)).
Definition sha384_update (d : md_data) (x : list Z) : md_data := MD_sha512 (SHA384_Update (as_sha512 d) x).
Definition sha384_final (d : md_data) : list Z * md_data :=
  let '(out, c) := SHA384_Final false (as_sha512 d) in (written out, MD_sha512 c).

Definition sha512_init (d : md_data) : md_data := MD_sha512 (SHA512_Init (buffer512 d)).
Definition sha512_md_update (d : md_data) (x : list Z) : md_data := MD_sha512 (SHA512_Update (as_sha512 d) x).
Definition sha512_final (d : md_data) : list Z * md_data :=
  let '(out, c) := SHA512_Final false (as_sha512 d) in (written out, MD_sha512 c).

Definition sha512_256_init (d : md_data) : md_data := MD_sha512 (SHA512_256_Init (buffer512 d)).
Definition sha512_256_update (d : md_data) (x : list Z) : md_data := MD_sha512 (SHA512_256_Update (as_sha512 d) x).
Definition sha512_256_final (d : md_data) : list Z * md_data :=
  let '(out, c) := SHA512_256_Final false (as_sha512 d) in (written out, MD_sha512 c).

Definition md5_sha1_init (_ : md_data) : md_data := MD_md5_sha1 MD5_Init SHA1_Init.
Definition md5_sha1_update (d : md_data) (x : list Z) : md_data :=
  let '(md5, sha1) := as_md5_sha1 d in MD_md5_sha1 (MD5_Update md5 x) (SHA1_Update sha1 x).
Definition md5_sha1_final (d : md_data) : list Z * md_data :=
  let '(md5, sha1) := as_md5_sha1 d in
  let '(out1, md5) := MD5_Final md5 in
  let '(out2, sha1) := SHA1_Final sha1 in
  (out1 ++ out2, MD_md5_sha1 md5 sha1).

(** The sizes of the contexts are those of the structs of md4.h, md5.h and
    sha.h: words, counters, buffer and the final [unsigned]s. *)
Definition EVP_md4 : EVP_MD :=
  {| type := 257; md_size := MD4_DIGEST_LENGTH; flags := 0; init := md4_init; update := md4_update;
     final := md4_final; block_size := 64; ctx_size := 92 |}.
Definition EVP_md5 : EVP_MD :=
  {| type := 4; md_size := MD5_DIGEST_LENGTH; flags := 0; init := md5_init; update := md5_update;
     final := md5_final; block_size := 64; ctx_size := 92 |}.
Definition EVP_sha1 : EVP_MD :=
  {| type := 64; md_size := SHA_DIGEST_LENGTH; flags := 0; init := sha1_init; update := sha1_update;
     final := sha1_final; block_size := 64; ctx_size := 96 |}.
Definition EVP_sha224 : EVP_MD :=
  {| type := 675; md_size := SHA224_DIGEST_LENGTH; flags := 0; init := sha224_init; update := sha224_update;
     final := sha224_final; block_size := 64; ctx_size := 112 |}.
Definition EVP_sha256 : EVP_MD :=
  {| type := 672; md_size := SHA256_DIGEST_LENGTH; flags := 0; init := sha256_init; update := sha256_update;
     final := sha256_final; block_size := 64; ctx_size := 112 |}.
Definition EVP_sha384 : EVP_MD :=
  {| type := 673; md_size := SHA384_DIGEST_LENGTH; flags := 0; init := sha384_init; update := sha384_update;
     final := sha384_final; block_size := 128; ctx_size := 216 |}.
Definition EVP_sha512 : EVP_MD :=
  {| type := 674; md_size := SHA512_DIGEST_LENGTH; flags := 0; init := sha512_init; update := sha512_md_update;
     final := sha512_final; block_size := 128; ctx_size := 216 |}.
Definition EVP_sha512_256 : EVP_MD :=
  {| type := 962; md_size := SHA512_256_DIGEST_LENGTH; flags := 0; init := sha512_256_init;
     update := sha512_256_update; final := sha512_256_final; block_size := 128; ctx_size := 216 |}.
Definition EVP_md5_sha1 : EVP_MD :=
  {| type := 114; md_size := MD5_DIGEST_LENGTH + SHA_DIGEST_LENGTH; flags := 0; init := md5_sha1_init;
     update := md5_sha1_update; final := md5_sha1_final; block_size := 64; ctx_size := 188 |}.

(** * Contexts *)

Record EVP_MD_CTX : Type := { digest : option EVP_MD; md_block : option md_data }.

(** Equality of pointers to methods. *)
Definition same_md (a b : option EVP_MD) : bool :=
  match a, b with
  | None, None => true
  | Some a, Some b => type a =? type b
  | _, _ => false
  end.

Section Context.
  Context `{Allocator}.

Definition EVP_MD_CTX_init : EVP_MD_CTX := {| digest := None; md_block := None |}.

Definition EVP_MD_CTX_cleanup (_ : EVP_MD_CTX) : EVP_MD_CTX := EVP_MD_CTX_init.

(** The result and the destination. *)
Definition EVP_MD_CTX_copy_ex (out inp : EVP_MD_CTX) : bool * EVP_MD_CTX :=
  match digest inp with
  | None => (false, out)
  | Some md =>
      if negb (same_md (digest out) (digest inp)) && negb (malloc_ok (ctx_size md)) then (false, out)
      else (true, {| digest := digest inp; md_block := md_block inp |})
  end.

Definition EVP_MD_CTX_copy (inp : EVP_MD_CTX) : bool * EVP_MD_CTX := EVP_MD_CTX_copy_ex EVP_MD_CTX_init inp.

(** The destination and the source. *)
Definition EVP_MD_CTX_move (_ inp : EVP_MD_CTX) : EVP_MD_CTX * EVP_MD_CTX := (inp, EVP_MD_CTX_init).

Definition EVP_MD_CTX_reset (_ : EVP_MD_CTX) : EVP_MD_CTX := EVP_MD_CTX_init.

Definition EVP_DigestInit_ex (ctx : EVP_MD_CTX) (ty : EVP_MD) : option (bool * EVP_MD_CTX) :=
  if negb (same_md (digest ctx) (Some ty)) then
    if malloc_ok (ctx_size ty) then
      Some (true, {| digest := Some ty; md_block := Some (init ty (MD_filled uninit_byte)) |})
    else Some (false, ctx)
  else
    match digest ctx, md_block ctx with
    | Some md, Some d => Some (true, {| digest := Some md; md_block := Some (init md d) |})
    | _, _ => None
    end.

Definition EVP_DigestInit (ty : EVP_MD) : option (bool * EVP_MD_CTX) := EVP_DigestInit_ex EVP_MD_CTX_init ty.

Definition EVP_DigestUpdate (ctx : EVP_MD_CTX) (x : list Z) : option EVP_MD_CTX :=
  match digest ctx, md_block ctx with
  | Some md, Some d => Some {| digest := Some md; md_block := Some (update md d x) |}
  | _, _ => None
  end.

(** The bytes written, the size reported, and the context, whose state is
    cleansed. *)
Definition EVP_DigestFinal_ex (ctx : EVP_MD_CTX) : option (list Z * Z * EVP_MD_CTX) :=
  match digest ctx, md_block ctx with
  | Some md, Some d => Some (fst (final md d), md_size md, {| digest := Some md; md_block := Some (MD_filled 0) |})
  | _, _ => None
  end.

Definition EVP_DigestFinal (ctx : EVP_MD_CTX) : option (list Z * Z * EVP_MD_CTX) :=
  match EVP_DigestFinal_ex ctx with
  | Some (md, size, ctx) => Some (md, size, EVP_MD_CTX_cleanup ctx)
  | None => None
  end.

(** The digest and its size, or [None] in the second place when the call
    returns zero. *)
Definition EVP_Digest (data : list Z) (ty : EVP_MD) : option (option (list Z * Z)) :=
  match EVP_DigestInit_ex EVP_MD_CTX_init ty with
  | Some (true, ctx) =>
      match EVP_DigestUpdate ctx data with
      | Some ctx =>
          match EVP_DigestFinal_ex ctx with
          | Some (out, size, _) => Some (Some (out, size))
          | None => None
          end
      | None => None
      end
  | Some (false, _) => Some None
  | None => None
  end.
End Context.

(** * What a digest promises *)

(** [md] computes the function [H]: [digest_holds d msg] says that the state [d]
    has taken in [msg]. A state of [md] can be initialised again whatever it
    holds, fresh memory too. *)
Class Digest (md : EVP_MD) (H : list Z -> list Z) : Type := {
  digest_holds : md_data -> list Z -> Prop;
  digest_ready : md_data -> Prop;
  digest_fresh : forall b, digest_ready (MD_filled b);
  digest_again : forall d msg, digest_holds d msg -> digest_ready d;
  digest_init : forall d, digest_ready d -> digest_holds (init md d) [];
  digest_update : forall d msg x, digest_holds d msg -> bytes x -> zlen x < 2 ^ 63 ->
    digest_holds (update md d x) (msg ++ x);
  digest_final : forall d msg, digest_holds d msg -> fst (final md d) = H msg;
  digest_output : forall msg, bytes (H msg) /\ zlen (H msg) = md_size md;
  digest_sizes : 0 < md_size md <= block_size md /\ block_size md <= 128
}.

(** ** The lengths of the digests *)

Lemma concat_words (enc : Z -> list Z) k l : (forall x, zlen (enc x) = k) -> (forall x, bytes (enc x)) ->
  bytes (concat (map enc l)) /\ zlen (concat (map enc l)) = k * zlen l.
Proof.
  intros Hk Hb; split; [now apply Forall_concat, Forall_map, Forall_true|].
  induction l as [|x l IH]; cbn [map concat]; [change (zlen (@nil Z)) with 0; lia|].
  rewrite zlen_app, Hk, IH, zlen_cons; lia.
Qed.

Lemma md_spec_output compress msg : (forall state block, length (compress state block) = 4%nat) ->
  bytes (md_spec compress msg) /\ zlen (md_spec compress msg) = 16.
Proof.
  intros Hc; unfold md_spec; destruct (concat_words (le_enc 4) 4
    (merkle_damgard compress 64 (md_trailer false msg) md_iv msg)) as [Hb Hl]; [apply zlen_le_enc|apply bytes_le_enc|].
  split; [exact Hb|]; rewrite Hl; unfold zlen.
  rewrite (merkle_damgard_inv (fun st => length st = 4%nat)); auto; [pow2; lia|now rewrite zlen_md_trailer].
Qed.

Lemma sha1_spec_output msg : bytes (sha1_spec msg) /\ zlen (sha1_spec msg) = 20.
Proof.
  unfold sha1_spec; destruct (concat_words (be_enc 4) 4 (merkle_damgard (fun state block =>
    sha1_compress state (be_words 4 block)) 64 (md_trailer true msg) sha1_iv msg)) as [Hb Hl];
    [apply zlen_be_enc|apply bytes_be_enc|].
  split; [exact Hb|]; rewrite Hl; unfold zlen.
  rewrite (merkle_damgard_inv (fun st => length st = 5%nat)); [reflexivity|pow2; lia|now rewrite zlen_md_trailer|].
  intros state block; destruct (sha1_compress_words state (be_words 4 block)) as (? & ? & ? & ? & ? & -> & _); reflexivity.
Qed.

Lemma sha256_spec_output iv len msg : 0 <= len <= 32 -> len mod 4 = 0 ->
  bytes (sha256_spec iv len msg) /\ zlen (sha256_spec iv len msg) = len.
Proof.
  intros Hlen Hm; unfold sha256_spec; cbv zeta; set (H := merkle_damgard _ _ _ _ _).
  assert (words8 32 H) as [HH _] by (apply merkle_damgard_inv; [pow2; lia|now rewrite zlen_md_trailer|];
    intros; apply add_regs_words; lia).
  destruct (concat_words (be_enc 4) 4 (ztake (len / 4) H)) as [Hb Hl]; [apply zlen_be_enc|apply bytes_be_enc|].
  split; [exact Hb|]; rewrite Hl, zlen_ztake; pose proof (Z.div_mod len 4); unfold zlen; lia.
Qed.

Lemma sha512_spec_output iv len msg : 0 <= len <= 64 -> len mod 8 = 0 ->
  bytes (sha512_spec iv len msg) /\ zlen (sha512_spec iv len msg) = len.
Proof.
  intros Hlen Hm; unfold sha512_spec; cbv zeta; set (H := merkle_damgard _ _ _ _ _).
  assert (words8 64 H) as [HH _] by (apply merkle_damgard_inv; [pow2; lia|unfold sha512_trailer; rewrite zlen_be_enc; lia|];
    intros; apply add_regs_words; lia).
  destruct (concat_words (be_enc 8) 8 (ztake (len / 8) H)) as [Hb Hl]; [apply zlen_be_enc|apply bytes_be_enc|].
  split; [exact Hb|]; rewrite Hl, zlen_ztake; pose proof (Z.div_mod len 8); unfold zlen; lia.
Qed.

(** ** The instances *)

(** Digests on the collector of Md32.v. *)
Definition md32_digest (md : EVP_MD) (bf : block_fn) (iv : list Z) (words : Z) (H : list Z -> list Z) (HB : BlockFunc bf 64) :
  (forall d, init md d = MD_md32 (md_init iv 64)) ->
  (forall d x, update md d x = MD_md32 (crypto_md32_update bf 64 (as_md32 words d) x)) ->
  (forall c msg, absorbs (block_func := bf) (block_size := 64) iv c msg -> bytes msg -> fst (final md (MD_md32 c)) = H msg) ->
  (forall msg, bytes (H msg) /\ zlen (H msg) = md_size md) ->
  0 < md_size md <= block_size md /\ block_size md <= 128 -> Digest md H.
Proof.
  intros Ei Eu Ef Ho Hs.
  refine {| digest_holds := fun d msg => bytes msg /\ exists c, d = MD_md32 c /\
              absorbs (block_func := bf) (block_size := 64) iv c msg;
            digest_ready := fun _ => True |}; auto.
  - intros d _; rewrite Ei; split; [constructor|]; eexists; split; [reflexivity|apply md_init_absorbs].
  - intros d msg x (Hb & c & -> & Ha) Hx Hz; rewrite Eu; split; [now apply Forall_app|].
    eexists; split; [reflexivity|]; now apply update_absorbs.
  - intros d msg (Hb & c & -> & Ha); auto.
Defined.

(** SHA-256 and SHA-224, which keep the length of the digest in the context. *)
Definition sha256_digest_of (md : EVP_MD) (iv : list Z) (len : Z) :
  (forall d, init md d = MD_sha256 {| sha_md := md_init iv 64; md_len := len |}) ->
  (forall d x, update md d x = MD_sha256 (SHA256_Update (as_sha256 d) x)) ->
  (forall c, md_len c = len -> fst (final md (MD_sha256 c)) = written (fst (sha256_final_impl len c))) ->
  0 < len <= 32 -> len mod 4 = 0 -> md_size md = len -> block_size md = 64 -> Digest md (sha256_spec iv len).
Proof.
  intros Ei Eu Ef Hl Hm Es Eb.
  refine {| digest_holds := fun d msg => bytes msg /\ exists c, d = MD_sha256 c /\ absorbs256 iv (sha_md c) msg /\ md_len c = len;
            digest_ready := fun _ => True |}; auto.
  - intros d _; rewrite Ei; split; [constructor|]; eexists; split; [reflexivity|]; split; [apply md_init_absorbs|reflexivity].
  - intros d msg x (Hb & c & -> & Ha & El) Hx Hz; rewrite Eu; split; [now apply Forall_app|].
    eexists; split; [reflexivity|]; split; [now apply update_absorbs|exact El].
  - intros d msg (Hb & c & -> & Ha & El); rewrite Ef, (sha256_final_spec iv len c msg Ha Hb) by (auto; lia); reflexivity.
  - intros msg; rewrite Es; apply sha256_spec_output; auto; lia.
  - rewrite Es, Eb; lia.
Defined.

(** The SHA-512 family, which does not clear the buffer of the context. *)
Definition sha512_digest_of (md : EVP_MD) (iv : list Z) (len : Z) :
  (forall d, init md d = MD_sha512 {| sha512_md := {| h := iv; data := buffer512 d; num := 0; Nh := 0; Nl := 0 |};
                                     md_len512 := len |}) ->
  (forall d x, update md d x = MD_sha512 (SHA512_Update (as_sha512 d) x)) ->
  (forall c, md_len512 c = len -> fst (final md (MD_sha512 c)) = written (fst (sha512_final_impl false len c))) ->
  0 < len <= 64 -> len mod 8 = 0 -> md_size md = len -> block_size md = 128 -> Digest md (sha512_spec iv len).
Proof.
  intros Ei Eu Ef Hl Hm Es Eb.
  refine {| digest_holds := fun d msg => bytes msg /\ exists c, d = MD_sha512 c /\ absorbs512 iv (sha512_md c) msg /\ md_len512 c = len;
            digest_ready := fun d => zlen (buffer512 d) = 128 |}.
  - reflexivity.
  - intros d msg (Hb & c & -> & Ha & El); apply (abs512_holds _ _ _ Ha).
  - intros d Hd; rewrite Ei; split; [constructor|]; eexists; split; [reflexivity|]; split; [|reflexivity].
    split; cbn [sha512_md h data num Nh Nl]; [now apply holds_init|lia|reflexivity].
  - intros d msg x (Hb & c & -> & Ha & El) Hx Hz; rewrite Eu; split; [now apply Forall_app|].
    eexists; split; [reflexivity|]; split; [now apply sha512_update_absorbs|exact El].
  - intros d msg (Hb & c & -> & Ha & El); rewrite Ef, (sha512_final_spec iv len c msg Ha Hb) by (auto; lia); reflexivity.
  - intros msg; rewrite Es; apply sha512_spec_output; auto; lia.
  - rewrite Es, Eb; lia.
Defined.

Ltac sizes := vm_compute; repeat split; discriminate.

#[export] Instance md4_digest : Digest EVP_md4 md4_spec :=
  md32_digest EVP_md4 md4_block_data_order md_iv 4 md4_spec md4_block_func ltac:(reflexivity) ltac:(reflexivity)
    md4_final_spec (fun msg => md_spec_output md4_compress msg md4_compress_length) ltac:(sizes).

#[export] Instance md5_digest : Digest EVP_md5 md5_spec :=
  md32_digest EVP_md5 md5_block_data_order md_iv 4 md5_spec md5_block_func ltac:(reflexivity) ltac:(reflexivity)
    md5_final_spec (fun msg => md_spec_output md5_compress msg md5_compress_length) ltac:(sizes).

#[export] Instance sha1_digest : Digest EVP_sha1 sha1_spec :=
  md32_digest EVP_sha1 sha1_block_data_order sha1_iv 5 sha1_spec sha1_block_func ltac:(reflexivity) ltac:(reflexivity)
    sha1_final_spec sha1_spec_output ltac:(sizes).

#[export] Instance sha224_digest : Digest EVP_sha224 (sha256_spec sha224_iv 28) :=
  sha256_digest_of EVP_sha224 sha224_iv 28 ltac:(reflexivity) ltac:(reflexivity) ltac:(reflexivity) ltac:(lia) eq_refl
    eq_refl eq_refl.

#[export] Instance sha256_digest : Digest EVP_sha256 (sha256_spec sha256_iv 32).
Proof.
  apply (sha256_digest_of EVP_sha256 sha256_iv 32 ltac:(reflexivity) ltac:(reflexivity)); auto; [|lia].
  intros c El; cbn [EVP_sha256 final]; unfold sha256_final, SHA256_Final; cbn [as_sha256]; rewrite El.
  destruct (sha256_final_impl 32 c); reflexivity.
Defined.

#[export] Instance sha384_digest : Digest EVP_sha384 (sha512_spec sha384_iv 48).
Proof.
  apply (sha512_digest_of EVP_sha384 sha384_iv 48 ltac:(reflexivity) ltac:(reflexivity)); auto; [|lia].
  intros c _; cbn [EVP_sha384 final]; unfold sha384_final, SHA384_Final, SHA384_DIGEST_LENGTH; cbn [as_sha512].
  destruct (sha512_final_impl false 48 c); reflexivity.
Defined.

#[export] Instance sha512_digest : Digest EVP_sha512 (sha512_spec sha512_iv 64).
Proof.
  apply (sha512_digest_of EVP_sha512 sha512_iv 64 ltac:(reflexivity) ltac:(reflexivity)); auto; [|lia].
  intros c El; cbn [EVP_sha512 final]; unfold sha512_final, SHA512_Final; cbn [as_sha512]; rewrite El.
  destruct (sha512_final_impl false 64 c); reflexivity.
Defined.

#[export] Instance sha512_256_digest : Digest EVP_sha512_256 (sha512_spec sha512_256_iv 32).
Proof.
  apply (sha512_digest_of EVP_sha512_256 sha512_256_iv 32 ltac:(reflexivity) ltac:(reflexivity)); auto; [|lia].
  intros c _; cbn [EVP_sha512_256 final]; unfold sha512_256_final, SHA512_256_Final, SHA512_256_DIGEST_LENGTH.
  cbn [as_sha512]; destruct (sha512_final_impl false 32 c); reflexivity.
Defined.

Definition md5_sha1_spec (msg : list Z) : list Z := md5_spec msg ++ sha1_spec msg.

#[export] Instance md5_sha1_digest : Digest EVP_md5_sha1 md5_sha1_spec.
Proof.
  refine {| digest_holds := fun d msg => bytes msg /\ exists c1 c2, d = MD_md5_sha1 c1 c2 /\
              absorbs_md5 md_iv c1 msg /\ absorbs1 sha1_iv c2 msg;
            digest_ready := fun _ => True |}; auto.
  - intros d _; split; [constructor|]; do 2 eexists; split; [reflexivity|]; split; apply md_init_absorbs.
  - intros d msg x (Hb & c1 & c2 & -> & H1 & H2) Hx Hz; split; [now apply Forall_app|].
    do 2 eexists; split; [reflexivity|]; split; now apply update_absorbs.
  - intros d msg (Hb & c1 & c2 & -> & H1 & H2); unfold md5_sha1_spec.
    rewrite <- (md5_final_spec c1 msg H1 Hb), <- (sha1_final_spec c2 msg H2 Hb).
    cbn [EVP_md5_sha1 final]; unfold md5_sha1_final; cbn [as_md5_sha1].
    destruct (MD5_Final c1), (SHA1_Final c2); reflexivity.
  - intros msg; destruct (md_spec_output md5_compress msg md5_compress_length) as [B1 L1].
    destruct (sha1_spec_output msg) as [B2 L2]; fold (md5_spec msg) in B1, L1; unfold md5_sha1_spec.
    split; [now apply Forall_app|]; rewrite zlen_app, L1, L2; reflexivity.
  - sizes.
Defined.

(** * Contexts of a digest *)

Section Streams.
  Context {HA : Allocator} {md : EVP_MD} {H : list Z -> list Z} {D : Digest md H}.

(** The context hashes with [md] and has taken in [msg]. *)
Definition ctx_holds (ctx : EVP_MD_CTX) (msg : list Z) : Prop :=
  digest ctx = Some md /\ exists d, md_block ctx = Some d /\ digest_holds d msg.

(** The context can be initialised for [md]: it has no digest, another one, or
    a state of [md]. *)
Definition ctx_ready (ctx : EVP_MD_CTX) : Prop :=
  same_md (digest ctx) (Some md) = true -> digest ctx = Some md /\ exists d, md_block ctx = Some d /\ digest_ready d.

Lemma ctx_init_ready : ctx_ready EVP_MD_CTX_init.
Proof. intros E; discriminate E. Qed.

Lemma ctx_holds_ready ctx msg : ctx_holds ctx msg -> ctx_ready ctx.
Proof. intros (E & d & Ed & Hd) _; split; [exact E|]; exists d; split; [exact Ed|]; now apply digest_again in Hd. Qed.

Lemma same_md_refl ty : same_md (Some ty) (Some ty) = true.
Proof. apply Z.eqb_refl. Qed.

(** Initialisation fails only for lack of memory, and then changes nothing. *)
Lemma DigestInit_holds ctx : ctx_ready ctx ->
  (exists ctx', EVP_DigestInit_ex ctx md = Some (true, ctx') /\ ctx_holds ctx' []) \/
  (EVP_DigestInit_ex ctx md = Some (false, ctx) /\ same_md (digest ctx) (Some md) = false /\ malloc_ok (ctx_size md) = false).
Proof.
  intros Hr; unfold EVP_DigestInit_ex; destruct (same_md (digest ctx) (Some md)) eqn:E; cbn [negb].
  - destruct (Hr E) as (-> & d & -> & Hd); left; eexists; split; [reflexivity|].
    split; [reflexivity|]; eexists; split; [reflexivity|]; now apply digest_init.
  - destruct (malloc_ok (ctx_size md)) eqn:Em; [left|now right].
    eexists; split; [reflexivity|]; split; [reflexivity|]; eexists; split; [reflexivity|].
    apply digest_init, digest_fresh.
Qed.

Lemma DigestUpdate_holds ctx msg x : ctx_holds ctx msg -> bytes x -> zlen x < 2 ^ 63 ->
  exists ctx', EVP_DigestUpdate ctx x = Some ctx' /\ ctx_holds ctx' (msg ++ x).
Proof.
  intros (E & d & Ed & Hd) Hx Hz; unfold EVP_DigestUpdate; rewrite E, Ed.
  eexists; split; [reflexivity|]; split; [reflexivity|]; eexists; split; [reflexivity|]; now apply digest_update.
Qed.

(** The digest of what was taken in; the context keeps its digest and can be
    initialised again. *)
Lemma DigestFinal_holds ctx msg : ctx_holds ctx msg ->
  exists ctx', EVP_DigestFinal_ex ctx = Some (H msg, md_size md, ctx') /\ ctx_ready ctx' /\ digest ctx' = Some md.
Proof.
  intros (E & d & Ed & Hd); unfold EVP_DigestFinal_ex; rewrite E, Ed, (digest_final d msg Hd).
  eexists; split; [reflexivity|]; split; [|reflexivity].
  intros _; split; [reflexivity|]; eexists; split; [reflexivity|apply digest_fresh].
Qed.

(** Copying a context; no memory is needed when the destination has the
    digest already. *)
Lemma ctx_copy_holds out inp msg : ctx_holds inp msg ->
  (exists out', EVP_MD_CTX_copy_ex out inp = (true, out') /\ ctx_holds out' msg) \/
  (EVP_MD_CTX_copy_ex out inp = (false, out) /\ same_md (digest out) (Some md) = false /\ malloc_ok (ctx_size md) = false).
Proof.
  intros (E & d & Ed & Hd); unfold EVP_MD_CTX_copy_ex; rewrite E.
  destruct (negb (same_md (digest out) (Some md)) && negb (malloc_ok (ctx_size md))) eqn:B.
  - apply andb_prop in B as [B1%negb_true_iff B2%negb_true_iff]; right; auto.
  - left; eexists; split; [reflexivity|]; split; [reflexivity|]; eauto.
Qed.
End Streams.

(** A context fed piece by piece. *)
Definition EVP_DigestUpdates (ctx : EVP_MD_CTX) (chunks : list (list Z)) : option EVP_MD_CTX :=
  fold_left (fun o x => match o with Some ctx => EVP_DigestUpdate ctx x | None => None end) chunks (Some ctx).

Lemma DigestUpdates_holds {md H} {D : Digest md H} chunks : forall ctx msg, ctx_holds ctx msg ->
  Forall (fun x => bytes x /\ zlen x < 2 ^ 63) chunks ->
  exists ctx', EVP_DigestUpdates ctx chunks = Some ctx' /\ ctx_holds ctx' (msg ++ concat chunks).
Proof.
  unfold EVP_DigestUpdates; induction chunks as [|x chunks IH]; intros ctx msg Hc Hx; cbn [fold_left concat].
  - rewrite app_nil_r; eauto.
  - inversion_clear Hx as [|? ? [Hb Hz] Hx']; destruct (DigestUpdate_holds ctx msg x Hc Hb Hz) as (ctx1 & -> & H1).
    rewrite app_assoc; now apply IH.
Qed.
