(* ===== verification/Hmac.v ===== *)
(** HMAC (crypto/fipsmodule/hmac/hmac.c) and the key derivation functions on top
    of it: HKDF (crypto/fipsmodule/hkdf/hkdf.c) and PBKDF2 (crypto/evp/pbkdf.c).

    The functions work on any digest of the class [Digest]; a NULL dereference is
    an outer [None]. The FIPS service indicator is not modelled. *)

From S2P Require Import Prelude Cbs Words Md32 Sha256 Sha512 Sha1 Md5 Digest.

Definition EVP_MAX_MD_SIZE : Z := 64.
Definition EVP_MAX_MD_BLOCK_SIZE : Z := 128.

Record HMAC_CTX : Type := {
  hmac_md : option EVP_MD;
  md_ctx : EVP_MD_CTX;
  i_ctx : EVP_MD_CTX;
  o_ctx : EVP_MD_CTX
}.

Section Hmac.
  Context {HA : Allocator}.

Definition HMAC_CTX_init : HMAC_CTX :=
  {| hmac_md := None; md_ctx := EVP_MD_CTX_init; i_ctx := EVP_MD_CTX_init; o_ctx := EVP_MD_CTX_init |}.

Definition with_md_ctx (ctx : HMAC_CTX) (c : EVP_MD_CTX) : HMAC_CTX :=
  {| hmac_md := hmac_md ctx; md_ctx := c; i_ctx := i_ctx ctx; o_ctx := o_ctx ctx |}.
Definition with_i_ctx (ctx : HMAC_CTX) (c : EVP_MD_CTX) : HMAC_CTX :=
  {| hmac_md := hmac_md ctx; md_ctx := md_ctx ctx; i_ctx := c; o_ctx := o_ctx ctx |}.
Definition with_o_ctx (ctx : HMAC_CTX) (c : EVP_MD_CTX) : HMAC_CTX :=
  {| hmac_md := hmac_md ctx; md_ctx := md_ctx ctx; i_ctx := i_ctx ctx; o_ctx := c |}.
Definition with_md (ctx : HMAC_CTX) (md : EVP_MD) : HMAC_CTX :=
  {| hmac_md := Some md; md_ctx := md_ctx ctx; i_ctx := i_ctx ctx; o_ctx := o_ctx ctx |}.

(** Initialise a digest and hash [x]. *)
Definition init_and_update (c : EVP_MD_CTX) (md : EVP_MD) (x : list Z) : option (bool * EVP_MD_CTX) :=
  match EVP_DigestInit_ex c md with
  | Some (true, c) => match EVP_DigestUpdate c x with Some c => Some (true, c) | None => None end
  | r => r
  end.

(** The key block before it is padded and how much of it is used; long keys are
    hashed. [None] in the second place is a failed digest. *)
Definition hmac_key_block (ctx : HMAC_CTX) (md : EVP_MD) (key : list Z) : option (option (list Z * Z) * HMAC_CTX) :=
  let key_block := zrep EVP_MAX_MD_BLOCK_SIZE uninit_byte in
  if block_size md <? zlen key then
    match init_and_update (md_ctx ctx) md key with
    | Some (true, c) =>
        match EVP_DigestFinal_ex c with
        | Some (out, size, c) => Some (Some (zsplice key_block 0 out, size), with_md_ctx ctx c)
        | None => None
        end
    | Some (false, c) => Some (None, with_md_ctx ctx c)
    | None => None
    end
  else Some (Some (zsplice key_block 0 key, u32 (zlen key)), ctx).

(** The part of [HMAC_Init_ex] that sets up a new key. *)
Definition hmac_set_key (ctx : HMAC_CTX) (md : EVP_MD) (key : list Z) : option (bool * HMAC_CTX) :=
  match hmac_key_block ctx md key with
  | None => None
  | Some (None, ctx) => Some (false, ctx)
  | Some (Some (key_block, key_block_len), ctx) =>
      let bs := block_size md in
      let key_block := zsplice key_block key_block_len (zrep (bs - key_block_len) 0) in
      let pad := map (Z.lxor 0x36) (ztake bs key_block) in
      match init_and_update (i_ctx ctx) md pad with
      | Some (true, c) =>
          let ctx := with_i_ctx ctx c in
          let pad := map (Z.lxor 0x5c) (ztake bs key_block) in
          match init_and_update (o_ctx ctx) md pad with
          | Some (true, c) => Some (true, with_md (with_o_ctx ctx c) md)
          | Some (false, c) => Some (false, with_o_ctx ctx c)
          | None => None
          end
      | Some (false, c) => Some (false, with_i_ctx ctx c)
      | None => None
      end
  end.

(** [key] is [None] for a NULL key, whose length is zero. *)
Definition HMAC_Init_ex (ctx : HMAC_CTX) (key : option (list Z)) (md : option EVP_MD) : option (bool * HMAC_CTX) :=
  let md := match md with Some _ => md | None => hmac_md ctx end in
  let r :=
    if negb (same_md md (hmac_md ctx)) || match key with Some _ => true | None => false end then
      match md with
      | Some md => hmac_set_key ctx md (match key with Some k => k | None => [] end)
      | None => None
      end
    else Some (true, ctx) in
  match r with
  | Some (true, ctx) => let '(ok, c) := EVP_MD_CTX_copy_ex (md_ctx ctx) (i_ctx ctx) in Some (ok, with_md_ctx ctx c)
  | r => r
  end.

Definition HMAC_Update (ctx : HMAC_CTX) (data : list Z) : option HMAC_CTX :=
  match EVP_DigestUpdate (md_ctx ctx) data with Some c => Some (with_md_ctx ctx c) | None => None end.

(** [out_len_null] says that the caller passes NULL for [out_len], which a
    failure would dereference. *)
Definition HMAC_Final (out_len_null : bool) (ctx : HMAC_CTX) : option (option (list Z * Z) * HMAC_CTX) :=
  match EVP_DigestFinal_ex (md_ctx ctx) with
  | None => None
  | Some (out, i, c) =>
      let buf := zsplice (zrep EVP_MAX_MD_SIZE uninit_byte) 0 out in
      match EVP_MD_CTX_copy_ex c (o_ctx ctx) with
      | (false, c) => if out_len_null then None else Some (None, with_md_ctx ctx c)
      | (true, c) =>
          match EVP_DigestUpdate c (ztake i buf) with
          | None => None
          | Some c =>
              match EVP_DigestFinal_ex c with
              | None => None
              | Some (out, size, c) => Some (Some (out, size), with_md_ctx ctx c)
              end
          end
      end
  end.

(** The code in [out] and its length, or NULL. *)
Definition HMAC (md : EVP_MD) (key : option (list Z)) (data : list Z) : option (option (list Z * Z)) :=
  match HMAC_Init_ex HMAC_CTX_init key (Some md) with
  | Some (true, ctx) =>
      match HMAC_Update ctx data with
      | Some ctx => match HMAC_Final false ctx with Some (r, _) => Some r | None => None end
      | None => None
      end
  | Some (false, _) => Some None
  | None => None
  end.

Definition HMAC_size (ctx : HMAC_CTX) : option Z := match hmac_md ctx with Some md => Some (md_size md) | None => None end.
Definition HMAC_CTX_get_md (ctx : HMAC_CTX) : option EVP_MD := hmac_md ctx.

Definition HMAC_CTX_copy_ex (dest src : HMAC_CTX) : bool * HMAC_CTX :=
  let '(ok, c) := EVP_MD_CTX_copy_ex (i_ctx dest) (i_ctx src) in
  let dest := with_i_ctx dest c in
  if negb ok then (false, dest) else
  let '(ok, c) := EVP_MD_CTX_copy_ex (o_ctx dest) (o_ctx src) in
  let dest := with_o_ctx dest c in
  if negb ok then (false, dest) else
  let '(ok, c) := EVP_MD_CTX_copy_ex (md_ctx dest) (md_ctx src) in
  let dest := with_md_ctx dest c in
  if negb ok then (false, dest) else
  (true, {| hmac_md := hmac_md src; md_ctx := md_ctx dest; i_ctx := i_ctx dest; o_ctx := o_ctx dest |}).

Definition HMAC_CTX_copy (src : HMAC_CTX) : bool * HMAC_CTX := HMAC_CTX_copy_ex HMAC_CTX_init src.

Definition HMAC_CTX_cleanup (_ : HMAC_CTX) : HMAC_CTX := HMAC_CTX_init.
Definition HMAC_CTX_reset (ctx : HMAC_CTX) : HMAC_CTX := let _ := HMAC_CTX_cleanup ctx in HMAC_CTX_init.

Definition HMAC_Init (ctx : HMAC_CTX) (key : option (list Z)) (md : option EVP_MD) : option (bool * HMAC_CTX) :=
  let ctx := match key, md with Some _, Some _ => HMAC_CTX_init | _, _ => ctx end in
  HMAC_Init_ex ctx key md.
(** * Sequences of calls that the clients make *)

(** Several calls of [HMAC_Update], and [HMAC_Final] with a NULL length. *)
Definition hmac_finish (ctx : HMAC_CTX) (pieces : list (list Z)) : option (option (list Z) * HMAC_CTX) :=
  match fold_left (fun o x => match o with Some c => HMAC_Update c x | None => None end) pieces (Some ctx) with
  | Some ctx =>
      match HMAC_Final true ctx with
      | Some (Some (out, _), ctx) => Some (Some out, ctx)
      | Some (None, ctx) => Some (None, ctx)
      | None => None
      end
  | None => None
  end.

(** Rewind to the key, then as above. *)
Definition hmac_rewind (ctx : HMAC_CTX) (pieces : list (list Z)) : option (option (list Z) * HMAC_CTX) :=
  match HMAC_Init_ex ctx None None with
  | Some (true, ctx) => hmac_finish ctx pieces
  | Some (false, ctx) => Some (None, ctx)
  | None => None
  end.

(** A context that is keyed once and used for several messages, each given in
    pieces: the codes, or [None] in the second place when a call returns zero. *)
Fixpoint hmac_messages (ctx : HMAC_CTX) (msgs : list (list (list Z))) : option (option (list (list Z))) :=
  match msgs with
  | [] => Some (Some [])
  | pieces :: msgs =>
      match hmac_rewind ctx pieces with
      | Some (Some out, ctx) =>
          match hmac_messages ctx msgs with Some (Some outs) => Some (Some (out :: outs)) | r => r end
      | Some (None, _) => Some None
      | None => None
      end
  end.

Definition hmac_session (md : EVP_MD) (key : list Z) (msgs : list (list (list Z))) : option (option (list (list Z))) :=
  match HMAC_Init_ex HMAC_CTX_init (Some key) (Some md) with
  | Some (true, ctx) => hmac_messages ctx msgs
  | Some (false, _) => Some None
  | None => None
  end.
End Hmac.

(** * RFC 2104 *)

Definition hmac_key (H : list Z -> list Z) (bs : Z) (key : list Z) : list Z :=
  let k := if bs <? zlen key then H key else key in k ++ zrep (bs - zlen k) 0.

Definition ipad (K : list Z) : list Z := map (Z.lxor 0x36) K.
Definition opad (K : list Z) : list Z := map (Z.lxor 0x5c) K.

Definition hmac_spec (H : list Z -> list Z) (bs : Z) (key msg : list Z) : list Z :=
  let K := hmac_key H bs key in H (opad K ++ H (ipad K ++ msg)).

(** * The context *)

Section Correct.
  Context {HA : Allocator} {md : EVP_MD} {H : list Z -> list Z} {D : Digest md H}.

Lemma hmac_key_length key : zlen (hmac_key H (block_size md) key) = block_size md.
Proof.
  unfold hmac_key; pose proof digest_sizes as Hs; pose proof (proj2 (digest_output key)) as Ho.
  destruct (Z.ltb_spec (block_size md) (zlen key)); rewrite zlen_app, zlen_zrep; lia.
Qed.

Lemma hmac_key_bytes key : bytes key -> bytes (hmac_key H (block_size md) key).
Proof.
  intros Hk; unfold hmac_key; apply Forall_app; split; [|apply bytes_zrep; unfold byte; lia].
  destruct (_ <? _); [apply digest_output|exact Hk].
Qed.

Lemma bytes_xor c l : byte c -> bytes l -> bytes (map (Z.lxor c) l).
Proof.
  intros Hc Hl; apply Forall_map; eapply Forall_impl; [exact Hl|]; intros x Hx; unfold byte in *; cbn.
  apply (lxor_small c x 8); auto; lia.
Qed.

(** The digest contexts can be initialised for [md]. *)
Definition hmac_ready (ctx : HMAC_CTX) : Prop :=
  ctx_ready (md := md) (md_ctx ctx) /\ ctx_ready (md := md) (i_ctx ctx) /\ ctx_ready (md := md) (o_ctx ctx).

(** The context has the key. *)
Definition hmac_keyed (ctx : HMAC_CTX) (key : list Z) : Prop :=
  let K := hmac_key H (block_size md) key in
  hmac_md ctx = Some md /\ ctx_holds (md := md) (i_ctx ctx) (ipad K) /\ ctx_holds (md := md) (o_ctx ctx) (opad K) /\
  digest (md_ctx ctx) = Some md.

(** The context has the key and has taken in [msg]. *)
Definition hmac_holds (ctx : HMAC_CTX) (key msg : list Z) : Prop :=
  hmac_keyed ctx key /\ ctx_holds (md := md) (md_ctx ctx) (ipad (hmac_key H (block_size md) key) ++ msg).

Lemma hmac_keyed_with ctx key c : let K := hmac_key H (block_size md) key in
  hmac_md ctx = Some md -> ctx_holds (md := md) (i_ctx ctx) (ipad K) -> ctx_holds (md := md) (o_ctx ctx) (opad K) ->
  digest c = Some md -> hmac_keyed (with_md_ctx ctx c) key.
Proof. intros K Em Hi Ho Ed; split; [exact Em|split; [exact Hi|split; [exact Ho|exact Ed]]]. Qed.

Lemma init_and_update_holds c x : ctx_ready (md := md) c -> bytes x -> zlen x < 2 ^ 63 ->
  (exists c', init_and_update c md x = Some (true, c') /\ ctx_holds (md := md) c' x) \/
  (init_and_update c md x = Some (false, c) /\ malloc_ok (ctx_size md) = false).
Proof.
  intros Hc Hx Hz; unfold init_and_update.
  destruct (DigestInit_holds c Hc) as [(c' & -> & Hc')|(-> & _ & Em)]; [left|now right].
  destruct (DigestUpdate_holds c' [] x Hc' Hx Hz) as (c2 & -> & H2); eauto.
Qed.

(** The padded key block is the key of the RFC. *)
Lemma padded_key k : zlen k <= block_size md ->
  ztake (block_size md) (zsplice (zsplice (zrep EVP_MAX_MD_BLOCK_SIZE uninit_byte) 0 k) (zlen k)
    (zrep (block_size md - zlen k) 0)) = k ++ zrep (block_size md - zlen k) 0.
Proof.
  intros Hk; pose proof digest_sizes as Hs; pose proof (zlen_nonneg k); unfold EVP_MAX_MD_BLOCK_SIZE.
  rewrite zsplice_0, zdrop_zrep by lia.
  replace (128 - zlen k) with (block_size md - zlen k + (128 - block_size md)) by lia.
  rewrite <- zrep_app, zsplice_mid by (rewrite ?zlen_zrep; lia).
  rewrite app_assoc, ztake_app_eq; [reflexivity|]; rewrite zlen_app, zlen_zrep; lia.
Qed.

Lemma hmac_key_block_spec ctx key : hmac_ready ctx -> bytes key -> zlen key < 2 ^ 63 ->
  (exists kb ctx', hmac_key_block ctx md key = Some (Some kb, ctx') /\ hmac_ready ctx' /\
     ztake (block_size md) (zsplice (fst kb) (snd kb) (zrep (block_size md - snd kb) 0)) = hmac_key H (block_size md) key) \/
  (exists ctx', hmac_key_block ctx md key = Some (None, ctx') /\ malloc_ok (ctx_size md) = false).
Proof.
  intros (Hm & Hi & Ho) Hk Hz; unfold hmac_key_block, hmac_key; pose proof digest_sizes as Hs.
  destruct (Z.ltb_spec (block_size md) (zlen key)) as [Hlong|Hshort].
  - destruct (init_and_update_holds (md_ctx ctx) key Hm Hk Hz) as [(c & -> & Hc)|(-> & Em)]; [left|right; eauto].
    destruct (DigestFinal_holds c key Hc) as (c' & -> & Hr & _); do 2 eexists; split; [reflexivity|].
    split; [split; auto|]; cbn [fst snd]; rewrite <- (proj2 (digest_output key)); apply padded_key.
    rewrite (proj2 (digest_output key)); lia.
  - left; do 2 eexists; split; [reflexivity|]; split; [split; auto|]; cbn [fst snd].
    pose proof (zlen_nonneg key); rewrite uw_small by (pow2; lia); now apply padded_key.
Qed.

Lemma hmac_set_key_spec ctx key : hmac_ready ctx -> bytes key -> zlen key < 2 ^ 63 ->
  let K := hmac_key H (block_size md) key in
  (exists ctx', hmac_set_key ctx md key = Some (true, ctx') /\ hmac_md ctx' = Some md /\
     ctx_holds (md := md) (i_ctx ctx') (ipad K) /\ ctx_holds (md := md) (o_ctx ctx') (opad K)) \/
  (exists ctx', hmac_set_key ctx md key = Some (false, ctx') /\ malloc_ok (ctx_size md) = false).
Proof.
  intros Hr Hk Hz K; unfold hmac_set_key.
  destruct (hmac_key_block_spec ctx key Hr Hk Hz) as [([kb kl] & ctx' & -> & Hr' & E)|(ctx' & -> & Em)]; [|right; eauto].
  cbn [fst snd] in E; cbv zeta; rewrite E; fold K; fold (ipad K); fold (opad K); destruct Hr' as (Hm & Hi & Ho).
  assert (zlen K = block_size md) as HK by apply hmac_key_length.
  assert (bytes K) as HKb by (now apply hmac_key_bytes); pose proof (digest_sizes (md := md)) as Hs.
  assert (forall c, zlen (map (Z.lxor c) K) < 2 ^ 63) as Hl by (intros; unfold zlen in *; rewrite length_map; pow2; lia).
  destruct (init_and_update_holds (i_ctx ctx') (ipad K) Hi) as [(c1 & -> & Hc1)|(-> & Em)];
    [apply bytes_xor; unfold byte; auto; lia|apply Hl| |right; eauto].
  destruct (init_and_update_holds (o_ctx ctx') (opad K) Ho) as [(c2 & E2 & Hc2)|(E2 & Em)];
    [apply bytes_xor; unfold byte; auto; lia|apply Hl| |right]; cbn [with_i_ctx o_ctx]; rewrite E2; eauto.
  left; eexists; split; [reflexivity|]; auto.
Qed.

(** A new key. *)
Lemma HMAC_Init_new ctx key : hmac_ready ctx -> (forall k, key = Some k -> bytes k /\ zlen k < 2 ^ 63) ->
  key <> None \/ same_md (Some md) (hmac_md ctx) = false ->
  (exists ctx', HMAC_Init_ex ctx key (Some md) = Some (true, ctx') /\
     hmac_holds ctx' (match key with Some k => k | None => [] end) []) \/
  (exists ctx', HMAC_Init_ex ctx key (Some md) = Some (false, ctx') /\ malloc_ok (ctx_size md) = false).
Proof.
  intros Hr Hk Hn; unfold HMAC_Init_ex; set (k := match key with Some k => k | None => [] end).
  replace (negb (same_md (Some md) (hmac_md ctx)) || _) with true by
    (destruct key, Hn as [Hn|Hn]; rewrite ?Hn; auto using orb_true_r; congruence).
  assert (bytes k /\ zlen k < 2 ^ 63) as [Hkb Hkz].
  { destruct key as [k'|]; [now apply Hk|]; split; [constructor|]; change (zlen k) with 0; pow2; lia. }
  destruct (hmac_set_key_spec ctx k Hr Hkb Hkz) as [(ctx1 & -> & Em & Hi & Ho)|(ctx1 & -> & Em)]; [|right; eauto].
  destruct (ctx_copy_holds (md_ctx ctx1) (i_ctx ctx1) _ Hi) as [(c & -> & Hc)|(-> & _ & Ea)]; [left|right; eauto].
  eexists; split; [reflexivity|]; split; [|now rewrite app_nil_r].
  apply hmac_keyed_with; auto; apply Hc.
Qed.

(** The same key again: no memory is needed. *)
Lemma HMAC_Init_again ctx key : hmac_keyed ctx key ->
  exists ctx', HMAC_Init_ex ctx None None = Some (true, ctx') /\ hmac_holds ctx' key [].
Proof.
  intros (Em & Hi & Ho & Ed); unfold HMAC_Init_ex; rewrite Em, same_md_refl; cbn [negb orb].
  destruct (ctx_copy_holds (md_ctx ctx) (i_ctx ctx) _ Hi) as [(c & -> & Hc)|(_ & Es & _)];
    [|now rewrite Ed, same_md_refl in Es].
  eexists; split; [reflexivity|]; split; [|now rewrite app_nil_r].
  apply hmac_keyed_with; auto; apply Hc.
Qed.

Lemma HMAC_Update_holds ctx key msg x : hmac_holds ctx key msg -> bytes x -> zlen x < 2 ^ 63 ->
  exists ctx', HMAC_Update ctx x = Some ctx' /\ hmac_holds ctx' key (msg ++ x).
Proof.
  intros ((Em & Hi & Ho & Ed) & Hm) Hx Hz; unfold HMAC_Update.
  destruct (DigestUpdate_holds (md_ctx ctx) _ x Hm Hx Hz) as (c & -> & Hc); eexists; split; [reflexivity|].
  rewrite <- app_assoc in Hc; split; [|exact Hc]; apply hmac_keyed_with; auto; apply Hc.
Qed.

(** The code, whether or not the caller wants its length and whatever the
    allocator does. *)
Lemma HMAC_Final_holds b ctx key msg : hmac_holds ctx key msg ->
  exists ctx', HMAC_Final b ctx = Some (Some (hmac_spec H (block_size md) key msg, md_size md), ctx') /\ hmac_keyed ctx' key.
Proof.
  intros ((Em & Hi & Ho & Ed) & Hm); unfold HMAC_Final.
  destruct (DigestFinal_holds (md_ctx ctx) _ Hm) as (c & -> & _ & Ec).
  destruct (ctx_copy_holds c (o_ctx ctx) _ Ho) as [(c1 & -> & Hc1)|(_ & Es & _)]; [|now rewrite Ec, same_md_refl in Es].
  set (inner := H _); pose proof (digest_output (ipad (hmac_key H (block_size md) key) ++ msg)) as [Hb Hl]; fold inner in Hb, Hl.
  pose proof (digest_sizes (md := md)) as Hs.
  rewrite zsplice_0, <- Hl, ztake_app_eq by auto.
  destruct (DigestUpdate_holds c1 _ inner Hc1 Hb) as (c2 & -> & Hc2); [pow2; lia|].
  destruct (DigestFinal_holds c2 _ Hc2) as (c3 & -> & _ & Ec3); eexists; split; [now rewrite Hl|].
  now apply hmac_keyed_with.
Qed.

(** A copy holds what the original holds. *)
Lemma HMAC_CTX_copy_holds dest src key msg : malloc_ok (ctx_size md) = true -> hmac_holds src key msg ->
  exists dest', HMAC_CTX_copy_ex dest src = (true, dest') /\ hmac_holds dest' key msg.
Proof.
  intros Hok ((Em & Hi & Ho & Ed) & Hm); unfold HMAC_CTX_copy_ex.
  destruct (ctx_copy_holds (i_ctx dest) (i_ctx src) _ Hi) as [(c1 & -> & H1)|(_ & _ & E)]; [|congruence].
  destruct (ctx_copy_holds (o_ctx dest) (o_ctx src) _ Ho) as [(c2 & E2 & H2)|(_ & _ & E)]; [|congruence].
  destruct (ctx_copy_holds (md_ctx dest) (md_ctx src) _ Hm) as [(c3 & E3 & H3)|(_ & _ & E)]; [|congruence].
  cbn [negb with_i_ctx with_o_ctx o_ctx md_ctx]; rewrite E2; cbn [negb with_i_ctx with_o_ctx o_ctx md_ctx]; rewrite E3.
  eexists; split; [reflexivity|]; split; [|exact H3]; cbn.
  split; [exact Em|split; [exact H1|split; [exact H2|apply H3]]].
Qed.

Lemma hmac_finish_spec pieces : forall ctx key msg, hmac_holds ctx key msg ->
  Forall (fun x => bytes x /\ zlen x < 2 ^ 63) pieces ->
  exists ctx', hmac_finish ctx pieces = Some (Some (hmac_spec H (block_size md) key (msg ++ concat pieces)), ctx') /\ hmac_keyed ctx' key.
Proof.
  unfold hmac_finish; induction pieces as [|x pieces IH]; intros ctx key msg Hc Hp; cbn [fold_left concat].
  - rewrite app_nil_r; destruct (HMAC_Final_holds true ctx key msg Hc) as (ctx' & -> & Hk); eauto.
  - inversion_clear Hp as [|? ? [Hb Hz] Hp']; destruct (HMAC_Update_holds ctx key msg x Hc Hb Hz) as (ctx1 & -> & H1).
    rewrite app_assoc; now apply IH.
Qed.

Lemma hmac_rewind_spec ctx key pieces : hmac_keyed ctx key -> Forall (fun x => bytes x /\ zlen x < 2 ^ 63) pieces ->
  exists ctx', hmac_rewind ctx pieces = Some (Some (hmac_spec H (block_size md) key (concat pieces)), ctx') /\ hmac_keyed ctx' key.
Proof.
  intros Hk Hp; unfold hmac_rewind; destruct (HMAC_Init_again ctx key Hk) as (ctx1 & -> & H1).
  now apply (hmac_finish_spec pieces ctx1 key []).
Qed.

Lemma hmac_messages_spec msgs : forall ctx key, hmac_keyed ctx key ->
  Forall (Forall (fun x => bytes x /\ zlen x < 2 ^ 63)) msgs ->
  hmac_messages ctx msgs = Some (Some (map (fun m => hmac_spec H (block_size md) key (concat m)) msgs)).
Proof.
  induction msgs as [|m msgs IH]; intros ctx key Hk Hm; cbn [hmac_messages map]; [reflexivity|].
  inversion_clear Hm as [|? ? Hm0 Hm']; destruct (hmac_rewind_spec ctx key m Hk Hm0) as (ctx' & -> & Hk').
  now rewrite (IH ctx' key).
Qed.

(** A first key fails without memory and only then. *)
Lemma HMAC_Init_first key : (forall k, key = Some k -> bytes k /\ zlen k < 2 ^ 63) ->
  if malloc_ok (ctx_size md) then
    exists ctx', HMAC_Init_ex HMAC_CTX_init key (Some md) = Some (true, ctx') /\
      hmac_holds ctx' (match key with Some k => k | None => [] end) []
  else exists ctx', HMAC_Init_ex HMAC_CTX_init key (Some md) = Some (false, ctx').
Proof.
  intros Hk; destruct (malloc_ok (ctx_size md)) eqn:Em.
  - destruct (HMAC_Init_new HMAC_CTX_init key) as [Hs|(_ & _ & E)]; auto; [|congruence].
    split; [|split]; apply ctx_init_ready.
  - unfold HMAC_Init_ex; cbn [HMAC_CTX_init hmac_md same_md negb orb]; unfold hmac_set_key, hmac_key_block, init_and_update.
    unfold EVP_DigestInit_ex; cbn [HMAC_CTX_init md_ctx i_ctx EVP_MD_CTX_init digest same_md negb]; rewrite Em.
    destruct (block_size md <? _); cbn [with_md_ctx i_ctx HMAC_CTX_init EVP_MD_CTX_init digest same_md negb]; eauto.
Qed.

Lemma HMAC_value key data : (forall k, key = Some k -> bytes k /\ zlen k < 2 ^ 63) -> bytes data -> zlen data < 2 ^ 63 ->
  HMAC md key data = Some (if malloc_ok (ctx_size md)
    then Some (hmac_spec H (block_size md) (match key with Some k => k | None => [] end) data, md_size md) else None).
Proof.
  intros Hk Hd Hdz; pose proof (HMAC_Init_first key Hk) as Hi; unfold HMAC.
  destruct (malloc_ok (ctx_size md)); destruct Hi as (ctx & Hi); [|now rewrite Hi].
  destruct Hi as [-> Hh]; destruct (HMAC_Update_holds ctx _ [] data Hh Hd Hdz) as (ctx1 & -> & H1).
  destruct (HMAC_Final_holds false ctx1 _ _ H1) as (ctx2 & -> & _); reflexivity.
Qed.
End Correct.

(** C32. HMAC is the function of RFC 2104 over any digest of the library: keys
    longer than a block are hashed, shorter ones padded, and the code is
    H((K ^ opad) || H((K ^ ipad) || text)). It fails only when memory runs out.
    A context that was keyed once gives the right code for each of a sequence of
    messages, however they are cut into updates, with no further allocation. *)
Theorem hmac_correct {HA : Allocator} {md : EVP_MD} {H : list Z -> list Z} {D : Digest md H}
    (key : option (list Z)) (data : list Z) (msgs : list (list (list Z))) :
  let k := match key with Some k => k | None => [] end in
  bytes k -> zlen k < 2 ^ 63 -> bytes data -> zlen data < 2 ^ 63 ->
  Forall (Forall (fun x => bytes x /\ zlen x < 2 ^ 63)) msgs ->
  HMAC md key data =
    Some (if malloc_ok (ctx_size md) then Some (hmac_spec H (block_size md) k data, md_size md) else None) /\
  hmac_session md k msgs =
    Some (if malloc_ok (ctx_size md) then Some (map (fun m => hmac_spec H (block_size md) k (concat m)) msgs) else None).
Proof.
  intros k Hkb Hkz Hd Hdz Hm; split.
  - apply HMAC_value; auto; intros k' E; unfold k in *; now rewrite E in *.
  - assert (forall k', Some k = Some k' -> bytes k' /\ zlen k' < 2 ^ 63) as Hk by (intros k' [= <-]; auto).
    pose proof (HMAC_Init_first (Some k) Hk) as Hi; unfold hmac_session; destruct (malloc_ok (ctx_size md));
      destruct Hi as (ctx & Hi); [|now rewrite Hi].
    destruct Hi as [-> [Hh _]]; now apply hmac_messages_spec.
Qed.

(** The first test case of RFC 4231: the key is twenty bytes 0x0b and the text
    "Hi There". *)
Lemma hmac_correct_witness :
  let A := allocator_total in
  HMAC EVP_sha256 (Some (zrep 20 11)) [72; 105; 32; 84; 104; 101; 114; 101] =
    Some (Some (be_enc 32 0xb0344c61d8db38535ca8afceaf0bf12b881dc200c9833da726e9376c2e32cff7, 32)) /\
  HMAC EVP_sha256 (Some (zrep 20 11)) [72; 105; 32; 84; 104; 101; 114; 101] =
    Some (Some (hmac_spec (sha256_spec sha256_iv 32) 64 (zrep 20 11) [72; 105; 32; 84; 104; 101; 114; 101], 32)).
Proof.
  intros A; split; [vm_compute; reflexivity|].
  apply (hmac_correct (HA := A) (md := EVP_sha256) (H := sha256_spec sha256_iv 32) (D := sha256_digest)
    (Some (zrep 20 11)) [72; 105; 32; 84; 104; 101; 114; 101] []); [| | | |constructor];
    first [each_literal; fail | reflexivity].
Defined.
