(* ===== verification/Kdf.v ===== *)
(** Key derivation from HMAC: HKDF (crypto/fipsmodule/hkdf/hkdf.c, RFC 5869) and
    PBKDF2 (crypto/evp/pbkdf.c, RFC 8018). An outer [None] is a NULL
    dereference; [HMAC_Final] is called with a NULL length, so that a failure of
    it would be one. *)

From S2P Require Import Prelude Cbs Words Md32 Sha256 Sha512 Sha1 Md5 Digest Hmac.

Section Kdf.
  Context {HA : Allocator}.

(** * The code *)

(** A NULL salt is the empty key of HMAC. *)
Definition HKDF_extract (md : EVP_MD) (secret : list Z) (salt : option (list Z)) : option (option (list Z * Z)) :=
  HMAC md salt secret.

(** The loop of [HKDF_expand]: [n] iterations are left, [i] were made, and
    [done] bytes of [out] are written. *)
Fixpoint expand_loop (n : nat) (digest_len out_len : Z) (info : list Z) (i : Z) (hmac : HMAC_CTX)
    (previous out : list Z) (done : Z) : option (bool * list Z) :=
  match n with
  | O => Some (true, out)
  | S n =>
      let ctr := u8 (i + 1) in
      let r := if negb (i =? 0) then hmac_rewind hmac [ztake digest_len previous; info; [ctr]]
               else hmac_finish hmac [info; [ctr]] in
      match r with
      | None => None
      | Some (None, _) => Some (false, out)
      | Some (Some code, hmac) =>
          let previous := zsplice previous 0 code in
          let todo := if out_len - done <? digest_len then out_len - done else digest_len in
          let out := zsplice out done (ztake todo previous) in
          expand_loop n digest_len out_len info (i + 1) hmac previous out (done + todo)
      end
  end.

(** The result and the output buffer, which is [out_key] before the call. *)
Definition HKDF_expand (out_key : list Z) (md : EVP_MD) (prk info : list Z) : option (bool * list Z) :=
  let out_len := zlen out_key in
  let digest_len := md_size md in
  let n := u64 (u64 (out_len + digest_len) - 1) / digest_len in
  if (u64 (out_len + digest_len) <? out_len) || (255 <? n) then Some (false, out_key)
  else
    match HMAC_Init_ex HMAC_CTX_init (Some prk) (Some md) with
    | Some (true, hmac) =>
        expand_loop (Z.to_nat n) digest_len out_len info 0 hmac (zrep EVP_MAX_MD_SIZE uninit_byte) out_key 0
    | Some (false, _) => Some (false, out_key)
    | None => None
    end.

Definition HKDF (out_key : list Z) (md : EVP_MD) (secret : list Z) (salt : option (list Z)) (info : list Z) :
    option (bool * list Z) :=
  match HKDF_extract md secret salt with
  | Some (Some (prk, prk_len)) => HKDF_expand out_key md (ztake prk_len prk) info
  | Some None => Some (false, out_key)
  | None => None
  end.

(** [out_key[k] ^= digest_tmp[k]] for [k < todo], [out_key] being [off] bytes
    into the buffer. *)
Definition xor_into (out : list Z) (off todo : Z) (digest_tmp : list Z) : list Z :=
  zsplice out off (zip_with Z.lxor (ztake todo (zdrop off out)) (ztake todo digest_tmp)).

(** The inner loop of PBKDF2, with [n] iterations left. *)
Fixpoint pbkdf2_rounds (n : nat) (md_len : Z) (off todo : Z) (hctx : HMAC_CTX) (digest_tmp out : list Z) :
    option (bool * HMAC_CTX * list Z) :=
  match n with
  | O => Some (true, hctx, out)
  | S n =>
      match hmac_rewind hctx [ztake md_len digest_tmp] with
      | None => None
      | Some (None, hctx) => Some (false, hctx, out)
      | Some (Some code, hctx) =>
          let digest_tmp := zsplice digest_tmp 0 code in
          pbkdf2_rounds n md_len off todo hctx digest_tmp (xor_into out off todo digest_tmp)
      end
  end.

(** One iteration of the outer loop: the block [i], written at [off]. *)
Definition pbkdf2_iteration (md_len : Z) (salt : list Z) (iterations i : Z) (hctx : HMAC_CTX) (off todo : Z) (out : list Z) :
    option (bool * HMAC_CTX * list Z) :=
  let i_buf := [u8 (Z.land (Z.shiftr i 24) 0xff); u8 (Z.land (Z.shiftr i 16) 0xff);
                u8 (Z.land (Z.shiftr i 8) 0xff); u8 (Z.land i 0xff)] in
  match hmac_rewind hctx [salt; i_buf] with
  | None => None
  | Some (None, hctx) => Some (false, hctx, out)
  | Some (Some code, hctx) =>
      let digest_tmp := zsplice (zrep EVP_MAX_MD_SIZE uninit_byte) 0 code in
      let out := zsplice out off (ztake todo digest_tmp) in
      pbkdf2_rounds (Z.to_nat (iterations - 1)) md_len off todo hctx digest_tmp out
  end.

(** The outer loop: [key_len] bytes are wanted, [off] are written. *)
Fixpoint pbkdf2_loop (fuel : nat) (md_len : Z) (salt : list Z) (iterations : Z) (i : Z) (hctx : HMAC_CTX)
    (key_len off : Z) (out : list Z) : option (bool * list Z) :=
  if 0 <? key_len then
    match fuel with
    | O => None
    | S fuel =>
        let todo := if key_len <? md_len then key_len else md_len in
        match pbkdf2_iteration md_len salt iterations i hctx off todo out with
        | None => None
        | Some (false, _, out) => Some (false, out)
        | Some (true, hctx, out) =>
            pbkdf2_loop fuel md_len salt iterations (u32 (i + 1)) hctx (key_len - todo) (off + todo) out
        end
    end
  else Some (true, out).

(** The result and the buffer [out_key], whose length is [key_len]. Each
    iteration of the outer loop writes a byte or more. *)
Definition PKCS5_PBKDF2_HMAC (password salt : list Z) (iterations : Z) (md : EVP_MD) (out_key : list Z) :
    option (bool * list Z) :=
  match HMAC_Init_ex HMAC_CTX_init (Some password) (Some md) with
  | Some (true, hctx) =>
      match pbkdf2_loop (length out_key) (md_size md) salt iterations 1 hctx (zlen out_key) 0 out_key with
      | Some (true, out) => Some (negb (iterations =? 0), out)
      | r => r
      end
  | Some (false, _) => Some (false, out_key)
  | None => None
  end.

Definition PKCS5_PBKDF2_HMAC_SHA1 (password salt : list Z) (iterations : Z) (out_key : list Z) : option (bool * list Z) :=
  PKCS5_PBKDF2_HMAC password salt iterations EVP_sha1 out_key.
End Kdf.

(** * The standards *)

(** RFC 5869: the blocks T(i + 1), ..., T(i + n) from T(i). *)
Fixpoint hkdf_blocks (mac : list Z -> list Z) (info : list Z) (n : nat) (i : Z) (prev : list Z) : list (list Z) :=
  match n with
  | O => []
  | S n => let t := mac (prev ++ info ++ [i + 1]) in t :: hkdf_blocks mac info n (i + 1) t
  end.

Definition hkdf_expand_spec (mac : list Z -> list Z) (hash_len : Z) (info : list Z) (len : Z) : list Z :=
  ztake len (concat (hkdf_blocks mac info (Z.to_nat ((len + hash_len - 1) / hash_len)) 0 [])).

(** RFC 8018: U_1 xor ... xor U_{n+1}, from U_1. *)
Fixpoint pbkdf2_sum (mac : list Z -> list Z) (n : nat) (u acc : list Z) : list Z :=
  match n with
  | O => acc
  | S n => let u := mac u in pbkdf2_sum mac n u (zip_with Z.lxor acc u)
  end.

(** The block T_i, for [c] iterations. *)
Definition pbkdf2_block (mac : list Z -> list Z) (salt : list Z) (c i : Z) : list Z :=
  let u := mac (salt ++ be_enc 4 i) in pbkdf2_sum mac (Z.to_nat (c - 1)) u u.

Definition pbkdf2_spec (mac : list Z -> list Z) (hash_len : Z) (salt : list Z) (c len : Z) : list Z :=
  ztake len (concat (map (fun i => pbkdf2_block mac salt c (1 + Z.of_nat i))
    (seq 0 (Z.to_nat ((len + hash_len - 1) / hash_len))))).

(** * Correctness *)

Section Correct.
  Context {HA : Allocator} {md : EVP_MD} {H : list Z -> list Z} {D : Digest md H}.
  Variable key : list Z.

Abbreviation mac := (hmac_spec H (block_size md) key).
Abbreviation keyed ctx := (hmac_keyed (md := md) (H := H) ctx key).
Abbreviation chunk x := (bytes x /\ zlen x < 2 ^ 63).

Lemma mac_output msg : bytes (mac msg) /\ zlen (mac msg) = md_size md.
Proof. unfold hmac_spec; apply digest_output. Qed.

Lemma mac_chunk msg : chunk (mac msg).
Proof. destruct (mac_output msg) as [Hb ->]; pose proof (digest_sizes (md := md)); split; [exact Hb|pow2; lia]. Qed.

(** The digest is the front of the buffer it was copied to. *)
Lemma front_of_buffer n (buf code : list Z) : n <= zlen code -> ztake n (zsplice buf 0 code) = ztake n code.
Proof. intros Hn; now rewrite zsplice_0, ztake_app_le. Qed.

(** Writing the next block at the end of what is written. *)
Lemma next_block (pre rest code : list Z) todo : 0 <= todo <= zlen rest -> todo <= zlen code ->
  zsplice (pre ++ rest) (zlen pre) (ztake todo code) = (pre ++ ztake todo code) ++ zdrop todo rest.
Proof.
  intros Ht Hc; rewrite <- (ztake_zdrop todo rest) at 1; rewrite zsplice_mid by (rewrite ?zlen_ztake; lia).
  now rewrite <- app_assoc.
Qed.

Lemma take_blocks (pre code more : list Z) n : 0 <= n ->
  let todo := if n <? zlen code then n else zlen code in
  (pre ++ ztake todo code) ++ ztake (n - todo) more = pre ++ ztake n (code ++ more).
Proof.
  intros Hn todo; unfold todo; rewrite <- app_assoc; f_equal; destruct (Z.ltb_spec n (zlen code)).
  - rewrite Z.sub_diag, ztake_0, app_nil_r, ztake_app_le by lia; reflexivity.
  - rewrite ztake_all by lia; now rewrite ztake_app_ge by lia.
Qed.

(** The number of blocks that [len] bytes need. *)
Lemma ceil_step len : 0 < len ->
  let todo := if len <? md_size md then len else md_size md in
  Z.to_nat ((len + md_size md - 1) / md_size md) = S (Z.to_nat ((len - todo + md_size md - 1) / md_size md)).
Proof.
  intros Hl todo; pose proof (digest_sizes (md := md)) as Hsz; unfold todo; destruct (Z.ltb_spec len (md_size md)).
  - rewrite Z.sub_diag, (Z.div_small (0 + _ - 1)) by lia.
    replace ((len + md_size md - 1) / md_size md) with 1; [reflexivity|]; apply Z.div_unique with (len - 1); lia.
  - replace (len + md_size md - 1) with (len - md_size md + md_size md - 1 + 1 * md_size md) by lia.
    rewrite Z.div_add by lia; pose proof (Z.div_pos (len - md_size md + md_size md - 1) (md_size md)); lia.
Qed.

Section Expand.
  Variable info : list Z.
  Hypothesis info_ok : chunk info.

(** One block of HKDF: the first without, the others with the previous one. *)
Lemma expand_block i hmac previous prev : 0 <= i < 255 ->
  (if i =? 0 then prev = [] /\ hmac_holds (md := md) hmac key []
   else keyed hmac /\ ztake (md_size md) previous = prev /\ chunk prev) ->
  exists hmac', (if negb (i =? 0) then hmac_rewind hmac [ztake (md_size md) previous; info; [u8 (i + 1)]]
                 else hmac_finish hmac [info; [u8 (i + 1)]]) = Some (Some (mac (prev ++ info ++ [i + 1])), hmac') /\ keyed hmac'.
Proof.
  intros Hi Hs; assert (chunk [u8 (i + 1)]) as Hc by (split; [constructor; [apply u8_byte|constructor]|reflexivity]).
  assert (u8 (i + 1) = i + 1) as E by (apply uw_small; pow2; lia).
  destruct (i =? 0) eqn:E0; cbn [negb].
  - destruct Hs as [-> Hh]; destruct (hmac_finish_spec [info; [u8 (i + 1)]] hmac key [] Hh) as (h' & -> & Hk); [auto|].
    exists h'; cbn [concat app]; now rewrite E.
  - destruct Hs as (Hh & -> & Hp).
    destruct (hmac_rewind_spec hmac key [prev; info; [u8 (i + 1)]] Hh) as (h' & -> & Hk); [auto|].
    exists h'; cbn [concat app]; now rewrite E.
Qed.

Lemma expand_loop_spec n : forall i hmac previous prev pre rest,
  0 <= i -> i + Z.of_nat n <= 255 -> zlen rest <= Z.of_nat n * md_size md ->
  (if i =? 0 then prev = [] /\ hmac_holds (md := md) hmac key []
   else keyed hmac /\ ztake (md_size md) previous = prev /\ chunk prev) ->
  expand_loop n (md_size md) (zlen pre + zlen rest) info i hmac previous (pre ++ rest) (zlen pre) =
    Some (true, pre ++ ztake (zlen rest) (concat (hkdf_blocks mac info n i prev))).
Proof.
  pose proof (digest_sizes (md := md)) as Hsz.
  induction n as [|n IH]; intros i hmac previous prev pre rest Hi Hn Hr Hs; pose proof (zlen_nonneg rest).
  - rewrite (zlen_0_nil rest) by lia; reflexivity.
  - cbn [expand_loop hkdf_blocks concat].
    destruct (expand_block i hmac previous prev ltac:(lia) Hs) as (hmac' & E & Hk); rewrite E.
    set (code := mac _) in *; replace (zlen pre + zlen rest - zlen pre) with (zlen rest) by lia.
    assert (zlen code = md_size md) as Hl by apply mac_output.
    set (todo := if zlen rest <? md_size md then zlen rest else md_size md).
    assert (0 <= todo <= md_size md /\ todo <= zlen rest) as [Ht1 Ht2] by
      (unfold todo; destruct (Z.ltb_spec (zlen rest) (md_size md)); lia).
    rewrite front_of_buffer, next_block by lia.
    replace (zlen pre + zlen rest) with (zlen (pre ++ ztake todo code) + zlen (zdrop todo rest)) by
      (rewrite zlen_app, zlen_ztake, zlen_zdrop; lia).
    replace (zlen pre + todo) with (zlen (pre ++ ztake todo code)) by (rewrite zlen_app, zlen_ztake; lia).
    rewrite (IH (i + 1) hmac' _ code).
    + rewrite zlen_zdrop by lia; pose proof (take_blocks pre code (concat (hkdf_blocks mac info n (i + 1) code)) (zlen rest)) as Hb.
      rewrite Hl in Hb; cbv zeta in Hb; fold todo in Hb; now rewrite Hb by lia.
    + lia.
    + lia.
    + rewrite zlen_zdrop by lia; unfold todo; destruct (Z.ltb_spec (zlen rest) (md_size md)); lia.
    + rewrite (proj2 (Z.eqb_neq (i + 1) 0)) by lia; split; [exact Hk|split; [|apply mac_chunk]].
      rewrite zsplice_0, <- Hl; apply ztake_app.
Qed.

Lemma HKDF_expand_spec out_key : chunk key -> zlen out_key < 2 ^ 64 ->
  HKDF_expand out_key md key info =
    Some (if malloc_ok (ctx_size md) && (zlen out_key <=? 255 * md_size md)
          then (true, hkdf_expand_spec mac (md_size md) info (zlen out_key)) else (false, out_key)).
Proof.
  intros Hkey Ho; unfold HKDF_expand, hkdf_expand_spec; pose proof (digest_sizes (md := md)) as Hs.
  pose proof (zlen_nonneg out_key) as H0; set (len := zlen out_key) in *; set (dl := md_size md) in *.
  destruct (Z.leb_spec len (255 * dl)) as [Hle|Hgt].
  - rewrite (uw_small 64 (len + dl)), (uw_small 64 (len + dl - 1)) by (pow2; lia).
    pose proof (Z.div_lt_upper_bound (len + dl - 1) dl 256 ltac:(lia) ltac:(lia)) as Hn.
    rewrite (proj2 (Z.ltb_ge (len + dl) len)), (proj2 (Z.ltb_ge 255 _)) by lia; cbn [orb].
    pose proof (HMAC_Init_first (md := md) (Some key) ltac:(intros ? [= <-]; exact Hkey)) as Hi.
    destruct (malloc_ok (ctx_size md)); destruct Hi as (ctx & Hi); [|now rewrite Hi].
    destruct Hi as [-> Hh]; cbn [andb].
    pose proof (Z.div_pos (len + dl - 1) dl ltac:(lia) ltac:(lia)) as Hq.
    pose proof (Z.div_mod (len + dl - 1) dl ltac:(lia)) as Hdm; pose proof (Z.mod_pos_bound (len + dl - 1) dl ltac:(lia)).
    apply (expand_loop_spec (Z.to_nat ((len + dl - 1) / dl)) 0 ctx _ [] [] out_key); fold dl len;
      [lia|lia|rewrite Z2Nat.id by exact Hq; lia|now split].
  - rewrite andb_false_r; replace ((u64 (len + dl) <? len) || _) with true; [reflexivity|symmetry].
    destruct (Z.ltb_spec (u64 (len + dl)) len) as [|Hw]; [reflexivity|]; cbn [orb]; apply Z.ltb_lt.
    assert (u64 (len + dl) = len + dl) as E.
    { destruct (decide (len + dl < 2 ^ 64)); [apply uw_small; lia|].
      assert (u64 (len + dl) = len + dl - 2 ^ 64); [|pow2; lia].
      unfold uw; symmetry; apply Z.mod_unique with 1; pow2; lia. }
    rewrite E, uw_small by (pose proof (uw_bound 64 (len + dl)); lia).
    apply (Z.lt_le_trans _ 256); [lia|]; apply Z.div_le_lower_bound; lia.
Qed.
End Expand.

Section Pbkdf2.
  Variables (salt : list Z) (iterations : Z).
  Hypothesis salt_ok : chunk salt.

Lemma pbkdf2_sum_length n : forall u acc, zlen acc = md_size md -> zlen (pbkdf2_sum mac n u acc) = md_size md.
Proof.
  induction n as [|n IH]; intros u acc Ha; cbn [pbkdf2_sum]; [exact Ha|]; apply IH.
  pose proof (proj2 (mac_output u)); unfold zlen in *; rewrite length_zip_with; lia.
Qed.

Lemma pbkdf2_rounds_spec todo n : forall hctx tmp u acc pre post, keyed hctx ->
  ztake (md_size md) tmp = u -> chunk u -> zlen acc = md_size md -> 0 <= todo <= md_size md ->
  exists hctx', pbkdf2_rounds n (md_size md) (zlen pre) todo hctx tmp (pre ++ ztake todo acc ++ post) =
    Some (true, hctx', pre ++ ztake todo (pbkdf2_sum mac n u acc) ++ post) /\ keyed hctx'.
Proof.
  induction n as [|n IH]; intros hctx tmp u acc pre post Hk Eu Hu Ha Ht; cbn [pbkdf2_rounds pbkdf2_sum]; [eauto|].
  rewrite Eu; destruct (hmac_rewind_spec hctx key [u] Hk) as (h1 & -> & Hk1); [auto|].
  cbn [concat]; rewrite app_nil_r; set (code := mac u); destruct (mac_output u) as [Hcb Hcl]; fold code in Hcb, Hcl.
  unfold xor_into; rewrite front_of_buffer, zdrop_app_eq by lia.
  rewrite (ztake_app_eq todo (ztake todo acc)) by (now rewrite zlen_ztake by lia).
  assert (zip_with Z.lxor (ztake todo acc) (ztake todo code) = ztake todo (zip_with Z.lxor acc code)) as -> by
    (unfold ztake; now rewrite zip_with_take).
  assert (zlen (zip_with Z.lxor acc code) = md_size md) as Hz by (unfold zlen in *; rewrite length_zip_with; lia).
  rewrite zsplice_mid by (rewrite ?zlen_ztake; lia).
  apply IH; auto; [|apply mac_chunk].
  rewrite zsplice_0, <- Hcl; apply ztake_app.
Qed.

Lemma counter_bytes i : 0 <= i < 2 ^ 32 ->
  [u8 (Z.land (Z.shiftr i 24) 0xff); u8 (Z.land (Z.shiftr i 16) 0xff); u8 (Z.land (Z.shiftr i 8) 0xff); u8 (Z.land i 0xff)] =
  be_enc 4 i.
Proof.
  intros Hi; cbn [be_enc]; change 0xff with (2 ^ 8 - 1); rewrite !land_low, !Z.shiftr_div_pow2 by lia.
  rewrite !(uw_idemp 8 : forall x, u8 (x mod 2 ^ 8) = x mod 2 ^ 8); cbn [app]; unfold uw.
  rewrite ?Z.div_div by lia; repeat f_equal.
Qed.

Lemma pbkdf2_iteration_spec i hctx pre rest todo : keyed hctx -> 0 <= i < 2 ^ 32 ->
  0 <= todo <= md_size md -> todo <= zlen rest ->
  exists hctx', pbkdf2_iteration (md_size md) salt iterations i hctx (zlen pre) todo (pre ++ rest) =
    Some (true, hctx', (pre ++ ztake todo (pbkdf2_block mac salt iterations i)) ++ zdrop todo rest) /\ keyed hctx'.
Proof.
  intros Hk Hi Ht Htr; unfold pbkdf2_iteration; rewrite counter_bytes by lia.
  destruct (hmac_rewind_spec hctx key [salt; be_enc 4 i] Hk) as (h1 & -> & Hk1).
  { constructor; [exact salt_ok|]; constructor; [|constructor]; split; [apply bytes_be_enc|now rewrite zlen_be_enc]. }
  cbn [concat]; rewrite app_nil_r; unfold pbkdf2_block; cbv zeta; set (code := mac _).
  destruct (mac_output (salt ++ be_enc 4 i)) as [Hcb Hcl]; fold code in Hcb, Hcl.
  rewrite front_of_buffer, next_block, <- app_assoc by lia.
  destruct (pbkdf2_rounds_spec todo (Z.to_nat (iterations - 1)) h1 (zsplice (zrep EVP_MAX_MD_SIZE uninit_byte) 0 code)
    code code pre (zdrop todo rest) Hk1) as (h2 & -> & Hk2); auto; [|apply mac_chunk|].
  - rewrite zsplice_0, <- Hcl; apply ztake_app.
  - exists h2; now rewrite app_assoc.
Qed.

(** The blocks T_i, ..., as many as [len] bytes need. *)
Definition pbkdf2_blocks (i len : Z) : list (list Z) :=
  map (fun k => pbkdf2_block mac salt iterations (i + Z.of_nat k)) (seq 0 (Z.to_nat ((len + md_size md - 1) / md_size md))).

Lemma pbkdf2_blocks_step i len : 0 < len ->
  let todo := if len <? md_size md then len else md_size md in
  pbkdf2_blocks i len = pbkdf2_block mac salt iterations i :: pbkdf2_blocks (i + 1) (len - todo).
Proof.
  intros Hl todo; unfold pbkdf2_blocks; rewrite (ceil_step len Hl); fold todo; cbn [seq map].
  rewrite Z.add_0_r, <- seq_shift, map_map; f_equal; apply map_ext; intros k; f_equal; lia.
Qed.

Lemma pbkdf2_loop_spec fuel : forall i hctx pre rest, keyed hctx ->
  0 <= i -> rest = [] \/ zlen rest <= (2 ^ 32 - i) * md_size md -> (length rest <= fuel)%nat ->
  pbkdf2_loop fuel (md_size md) salt iterations i hctx (zlen rest) (zlen pre) (pre ++ rest) =
    Some (true, pre ++ ztake (zlen rest) (concat (pbkdf2_blocks i (zlen rest)))).
Proof.
  pose proof (digest_sizes (md := md)) as Hsz.
  induction fuel as [|fuel IH]; intros i hctx pre rest Hk Hi Hlim Hf; pose proof (zlen_nonneg rest) as Hr0;
    unfold pbkdf2_loop; fold pbkdf2_loop; destruct (Z.ltb_spec 0 (zlen rest)) as [Hr|Hr]; try (unfold zlen in *; lia);
    try (rewrite (zlen_0_nil rest) by lia; now rewrite ztake_0).
  destruct Hlim as [-> |Hlim]; [discriminate Hr|].
  set (todo := if zlen rest <? md_size md then zlen rest else md_size md).
  assert (0 < todo <= md_size md /\ todo <= zlen rest) as [Ht1 Ht2] by
    (unfold todo; destruct (Z.ltb_spec (zlen rest) (md_size md)); lia).
  destruct (pbkdf2_iteration_spec i hctx pre rest todo Hk ltac:(nia) ltac:(lia) ltac:(lia)) as (h2 & -> & Hk2).
  rewrite pbkdf2_blocks_step by exact Hr; cbv zeta; fold todo; cbn [concat]; set (block := pbkdf2_block _ _ _ _).
  assert (zlen block = md_size md) as Hbl by (apply pbkdf2_sum_length, mac_output).
  replace (zlen pre + todo) with (zlen (pre ++ ztake todo block)) by (rewrite zlen_app, zlen_ztake; lia).
  assert (zlen rest - todo = zlen (zdrop todo rest)) as El by (rewrite zlen_zdrop; lia).
  assert (u32 (i + 1) = i + 1 \/ zdrop todo rest = []) as Hwrap.
  { destruct (decide (i + 1 < 2 ^ 32)); [left; apply uw_small; lia|right; apply zlen_0_nil].
    rewrite <- El; unfold todo; destruct (Z.ltb_spec (zlen rest) (md_size md)); nia. }
  rewrite El, IH; auto.
  - rewrite <- El; pose proof (take_blocks pre block (concat (pbkdf2_blocks (i + 1) (zlen rest - todo))) (zlen rest)) as Hb.
    rewrite Hbl in Hb; cbv zeta in Hb; fold todo in Hb; rewrite <- Hb by lia.
    destruct Hwrap as [-> |E]; [reflexivity|]; rewrite E in El; rewrite El; change (zlen (@nil Z)) with 0; now rewrite !ztake_0.
  - apply (uw_bound 32); lia.
  - pose proof (uw_bound 32 (i + 1) ltac:(lia)) as Hu; destruct Hwrap as [E|E]; [right|now left].
    rewrite E, <- El in *; unfold todo; destruct (Z.ltb_spec (zlen rest) (md_size md)); nia.
  - unfold zdrop; rewrite length_drop; unfold zlen in *; lia.
Qed.
End Pbkdf2.
End Correct.

(** HKDF is the function of RFC 5869 over any digest: extraction with HMAC
    under the salt, and the first [out_len] bytes of the chain of blocks T(1),
    T(2), .... More than 255 blocks are refused, also when the length
    computation of the code would wrap around; a refusal, and a failed
    allocation, leaves the output untouched. *)
Theorem hkdf_correct {HA : Allocator} {md : EVP_MD} {H : list Z -> list Z} {D : Digest md H}
    (out_key secret : list Z) (salt : option (list Z)) (info : list Z) :
  let s := match salt with Some s => s | None => [] end in
  bytes s -> zlen s < 2 ^ 63 -> bytes secret -> zlen secret < 2 ^ 63 -> bytes info -> zlen info < 2 ^ 63 ->
  zlen out_key < 2 ^ 64 ->
  let prk := hmac_spec H (block_size md) s secret in
  HKDF out_key md secret salt info =
    Some (if malloc_ok (ctx_size md) && (zlen out_key <=? 255 * md_size md)
          then (true, hkdf_expand_spec (hmac_spec H (block_size md) prk) (md_size md) info (zlen out_key))
          else (false, out_key)).
Proof.
  intros s Hs Hsz Hsec Hsecz Hi Hiz Ho prk; unfold HKDF, HKDF_extract.
  assert (forall k', salt = Some k' -> bytes k' /\ zlen k' < 2 ^ 63) as Hk by (intros k' E; unfold s in *; now rewrite E in *).
  rewrite (HMAC_value salt secret Hk Hsec Hsecz); fold s; fold prk.
  destruct (malloc_ok (ctx_size md)) eqn:Em; [|reflexivity].
  destruct (mac_output (md := md) (H := H) s secret) as [Hpb Hpl]; fold prk in Hpb, Hpl.
  pose proof (mac_chunk (md := md) (H := H) s secret) as Hpc; fold prk in Hpc.
  rewrite ztake_all by lia; rewrite (HKDF_expand_spec prk info) by auto; now rewrite Em.
Qed.

(** The first test case of RFC 5869, and a request for 255 blocks and a byte. *)
Lemma hkdf_correct_witness :
  let A := allocator_total in
  let salt := be_enc 13 0x000102030405060708090a0b0c in
  let info := be_enc 10 0xf0f1f2f3f4f5f6f7f8f9 in
  HKDF (zrep 42 0) EVP_sha256 (zrep 22 11) (Some salt) info = Some (true,
    be_enc 42 0x3cb25f25faacd57a90434f64d0362f2a2d2d0a90cf1a5a4c5db02d56ecc4c5bf34007208d5b887185865) /\
  HKDF (zrep 8161 0) EVP_sha256 (zrep 22 11) (Some salt) info = Some (false, zrep 8161 0).
Proof.
  intros A salt info; split; [vm_compute; reflexivity|].
  rewrite (hkdf_correct (HA := A) (md := EVP_sha256) (H := sha256_spec sha256_iv 32) (D := sha256_digest)
    (zrep 8161 0) (zrep 22 11) (Some salt) info);
    [|apply bytes_be_enc|reflexivity|apply bytes_zrep; unfold byte; lia|reflexivity|apply bytes_be_enc|reflexivity|reflexivity].
  replace (_ <=? _) with false; reflexivity.
Defined.

(** PBKDF2 is the function of RFC 8018 over any digest, up to the
    2^32 - 1 blocks that the standard allows. An iteration count of zero is
    treated as one but reported as an error. *)
Theorem pbkdf2_correct {HA : Allocator} {md : EVP_MD} {H : list Z -> list Z} {D : Digest md H}
    (password salt : list Z) (iterations : Z) (out_key : list Z) :
  bytes password -> zlen password < 2 ^ 63 -> bytes salt -> zlen salt < 2 ^ 63 -> 0 <= iterations < 2 ^ 32 ->
  zlen out_key <= (2 ^ 32 - 1) * md_size md ->
  PKCS5_PBKDF2_HMAC password salt iterations md out_key =
    Some (if malloc_ok (ctx_size md)
          then (0 <? iterations, pbkdf2_spec (hmac_spec H (block_size md) password) (md_size md) salt
                                   (Z.max 1 iterations) (zlen out_key))
          else (false, out_key)).
Proof.
  intros Hp Hpz Hs Hsz Hi Ho; unfold PKCS5_PBKDF2_HMAC.
  pose proof (HMAC_Init_first (md := md) (Some password) ltac:(intros ? [= <-]; auto)) as Hf.
  destruct (malloc_ok (ctx_size md)); destruct Hf as (ctx & Hf); [|now rewrite Hf].
  destruct Hf as [-> [Hk _]].
  pose proof (pbkdf2_loop_spec (md := md) (H := H) password salt iterations (conj Hs Hsz) (length out_key) 1 ctx [] out_key Hk
    ltac:(lia) ltac:(right; exact Ho) ltac:(lia)) as E.
  cbn [app] in E; change (zlen (@nil Z)) with 0 in E; rewrite E; unfold pbkdf2_spec, pbkdf2_blocks, pbkdf2_block.
  replace (Z.to_nat (Z.max 1 iterations - 1)) with (Z.to_nat (iterations - 1)) by lia.
  replace (negb (iterations =? 0)) with (0 <? iterations); [reflexivity|].
  destruct (Z.eqb_spec iterations 0), (Z.ltb_spec 0 iterations); lia || reflexivity.
Qed.

(** The second test case of RFC 6070, with two iterations. *)
Lemma pbkdf2_correct_witness :
  let A := allocator_total in
  let password := [112; 97; 115; 115; 119; 111; 114; 100] in
  let salt := [115; 97; 108; 116] in
  PKCS5_PBKDF2_HMAC password salt 2 EVP_sha1 (zrep 20 0) = Some (true, be_enc 20 0xea6c014dc72d6f8ccd1ed92ace1d41f0d8de8957) /\
  PKCS5_PBKDF2_HMAC password salt 0 EVP_sha1 (zrep 20 0) =
    Some (false, pbkdf2_spec (hmac_spec sha1_spec 64 password) 20 salt 1 20).
Proof.
  intros A password salt; split; [vm_compute; reflexivity|].
  apply (pbkdf2_correct (HA := A) (md := EVP_sha1) (H := sha1_spec) (D := sha1_digest) password salt 0 (zrep 20 0));
    try (vm_compute; reflexivity || (split; discriminate || reflexivity) || discriminate); each_literal.
Defined.
