(* ===== verification/TlsKdf.v ===== *)
(** The key derivations of TLS (crypto/fipsmodule/tls/kdf.c): the pseudorandom
    function of TLS 1.2 and earlier (RFC 5246 section 5, RFC 2246 section 5) and
    HKDF-Expand-Label of TLS 1.3 (RFC 8446 section 7.1).

    As in Kdf.v an outer [None] is a NULL dereference, or a loop that has run
    out of fuel; the theorems show that neither happens. *)

From S2P Require Import Prelude Mem Cbs Asn1 Der Cbb CbbSpec CbbDer CbbProgram.
From S2P Require Import Words Md32 Sha256 Sha512 Sha1 Md5 Digest Hmac Kdf.

Section TlsKdf.
  Context {HA : Allocator}.

(** * The code *)

(** Several calls of [HMAC_Update]. *)
Definition hmac_updates (ctx : HMAC_CTX) (pieces : list (list Z)) : option HMAC_CTX :=
  fold_left (fun o x => match o with Some c => HMAC_Update c x | None => None end) pieces (Some ctx).

(** The loop of [tls1_P_hash]: [out_len] bytes are wanted from [off] on. *)
Fixpoint p_hash_loop (fuel : nat) (chunk : Z) (seed : list (list Z)) (ctx_init ctx ctx_tmp : HMAC_CTX)
    (A1 : list Z) (A1_len : Z) (out : list Z) (off out_len : Z) : option (bool * list Z) :=
  match fuel with
  | O => None
  | S fuel =>
      let '(ok, ctx) := HMAC_CTX_copy_ex ctx ctx_init in
      if negb ok then Some (false, out) else
      match HMAC_Update ctx (ztake A1_len A1) with
      | None => None
      | Some ctx =>
          let '(ok, ctx_tmp) := if chunk <? out_len then HMAC_CTX_copy_ex ctx_tmp ctx else (true, ctx_tmp) in
          if negb ok then Some (false, out) else
          match hmac_updates ctx seed with
          | None => None
          | Some ctx =>
              match HMAC_Final false ctx with
              | None => None
              | Some (None, _) => Some (false, out)
              | Some (Some (code, len_u), ctx) =>
                  let hmac := zsplice (zrep EVP_MAX_MD_SIZE uninit_byte) 0 code in
                  let len := if out_len <? len_u then out_len else len_u in
                  let out := xor_into out off len hmac in
                  let off := off + len in
                  let out_len := out_len - len in
                  if out_len =? 0 then Some (true, out) else
                  match HMAC_Final false ctx_tmp with
                  | None => None
                  | Some (None, _) => Some (false, out)
                  | Some (Some (code, A1_len), ctx_tmp) =>
                      p_hash_loop fuel chunk seed ctx_init ctx ctx_tmp (zsplice A1 0 code) A1_len out off out_len
                  end
              end
          end
      end
  end.

(** The result and the buffer [out]. Each iteration but the last writes a byte
    or more. *)
Definition tls1_P_hash (out : list Z) (md : EVP_MD) (secret label seed1 seed2 : list Z) : option (bool * list Z) :=
  match HMAC_Init_ex HMAC_CTX_init (Some secret) (Some md) with
  | None => None
  | Some (false, _) => Some (false, out)
  | Some (true, ctx_init) =>
      let '(ok, ctx) := HMAC_CTX_copy_ex HMAC_CTX_init ctx_init in
      if negb ok then Some (false, out) else
      match hmac_updates ctx [label; seed1; seed2] with
      | None => None
      | Some ctx =>
          match HMAC_Final false ctx with
          | None => None
          | Some (None, _) => Some (false, out)
          | Some (Some (code, A1_len), ctx) =>
              p_hash_loop (S (length out)) (md_size md) [label; seed1; seed2] ctx_init ctx HMAC_CTX_init
                (zsplice (zrep EVP_MAX_MD_SIZE uninit_byte) 0 code) A1_len out 0 (zlen out)
          end
      end
  end.

Definition CRYPTO_tls1_prf (digest : EVP_MD) (out : list Z) (secret label seed1 seed2 : list Z) :
    option (bool * list Z) :=
  if zlen out =? 0 then Some (true, out) else
  let out := zrep (zlen out) 0 in
  if same_md (Some digest) (Some EVP_md5_sha1) then
    let secret_len := zlen secret in
    let secret_half := secret_len - secret_len / 2 in
    match tls1_P_hash out EVP_md5 (ztake secret_half secret) label seed1 seed2 with
    | Some (true, out) =>
        tls1_P_hash out EVP_sha1 (ztake secret_half (zdrop (secret_len - secret_half) secret)) label seed1 seed2
    | r => r
    end
  else tls1_P_hash out digest secret label seed1 seed2.

(** "tls13 " *)
Definition kProtocolLabel : list Z := [116; 108; 115; 49; 51; 32].

(** [out_len] is converted to [uint16_t] at the call of [CBB_add_u16]. *)
Definition hkdf_label_calls (out_len : Z) (label hash : list Z) : ST CBB unit :=
  CBB_add_u16 0 (u16 out_len) ;;;
  let! child := CBB_add_u8_length_prefixed 0 in
  CBB_add_bytes child kProtocolLabel ;;;
  CBB_add_bytes child label ;;;
  let! child := CBB_add_u8_length_prefixed 0 in
  CBB_add_bytes child hash.

Definition CRYPTO_tls13_hkdf_expand_label (out : list Z) (digest : EVP_MD) (secret label hash : list Z) :
    option (bool * list Z) :=
  match CBB_init (u64 (2 + 1 + zlen kProtocolLabel + zlen label + 1 + zlen hash)) with
  | None => Some (false, out)
  | Some cbb =>
      match (hkdf_label_calls (zlen out) label hash ;;; CBB_finish) cbb with
      | (None, _) => Some (false, out)
      | (Some hkdf_label, _) => HKDF_expand out digest secret hkdf_label
      end
  end.
End TlsKdf.

(** * The standards *)

(** RFC 5246, section 5: HMAC(secret, A(i) + seed), HMAC(secret, A(i+1) + seed), ... *)
Fixpoint p_hash_blocks (mac : list Z -> list Z) (seed : list Z) (n : nat) (a : list Z) : list (list Z) :=
  match n with
  | O => []
  | S n => mac (a ++ seed) :: p_hash_blocks mac seed n (mac a)
  end.

Definition p_hash_spec (mac : list Z -> list Z) (hash_len : Z) (seed : list Z) (len : Z) : list Z :=
  ztake len (concat (p_hash_blocks mac seed (Z.to_nat ((len + hash_len - 1) / hash_len)) (mac seed))).

(** RFC 2246, section 5: the halves of the secret, which share a byte when its
    length is odd. *)
Definition prf_tls10_spec (secret seed : list Z) (len : Z) : list Z :=
  let half := (zlen secret + 1) / 2 in
  let S1 := ztake half secret in
  let S2 := zdrop (zlen secret - half) secret in
  zip_with Z.lxor (p_hash_spec (hmac_spec md5_spec 64 S1) 16 seed len) (p_hash_spec (hmac_spec sha1_spec 64 S2) 20 seed len).

(** RFC 8446, section 7.1: the HkdfLabel structure. *)
Definition hkdf_label_spec (len : Z) (label hash : list Z) : list Z :=
  be_enc 2 len ++ [zlen kProtocolLabel + zlen label] ++ kProtocolLabel ++ label ++ [zlen hash] ++ hash.

(** * The pseudorandom function *)

Section Correct.
  Context {HA : Allocator} {md : EVP_MD} {H : list Z -> list Z} {D : Digest md H}.
  Variables (key : list Z) (seed : list (list Z)).
  Hypothesis seed_ok : Forall (fun x => bytes x /\ zlen x < 2 ^ 63) seed.
  Hypothesis mem_ok : malloc_ok (ctx_size md) = true.

Abbreviation mac := (hmac_spec H (block_size md) key).

Lemma hmac_updates_spec pieces : forall ctx msg, Forall (fun x => bytes x /\ zlen x < 2 ^ 63) pieces ->
  hmac_holds (md := md) ctx key msg ->
  exists ctx', hmac_updates ctx pieces = Some ctx' /\ hmac_holds (md := md) ctx' key (msg ++ concat pieces).
Proof.
  unfold hmac_updates; induction pieces as [|x pieces IH]; intros ctx msg Hp Hc; cbn [fold_left concat].
  - rewrite app_nil_r; eauto.
  - inversion_clear Hp as [|? ? [Hb Hz] Hp']; destruct (HMAC_Update_holds ctx key msg x Hc Hb Hz) as (ctx1 & -> & H1).
    rewrite app_assoc; now apply IH.
Qed.

(** The exclusive or of the next block. *)
Lemma xor_into_next (pre rest code buf : list Z) len : 0 <= len <= zlen rest -> len <= zlen code ->
  xor_into (pre ++ rest) (zlen pre) len (zsplice buf 0 code) =
    (pre ++ zip_with Z.lxor (ztake len rest) (ztake len code)) ++ zdrop len rest.
Proof.
  intros Hl Hc; unfold xor_into; rewrite zdrop_app_eq by reflexivity.
  rewrite (front_of_buffer len buf code) by lia; set (x := zip_with _ _ _).
  assert (zlen x = len) as Hx.
  { pose proof (zlen_ztake len rest) as E1; pose proof (zlen_ztake len code) as E2; unfold x, zlen in *.
    rewrite length_zip_with; lia. }
  rewrite <- (ztake_zdrop len rest) at 1; rewrite zsplice_mid by (rewrite ?zlen_ztake; lia); now rewrite <- app_assoc.
Qed.

Lemma zip_xor_take (rest code : list Z) : zip_with Z.lxor rest (ztake (zlen rest) code) = zip_with Z.lxor rest code.
Proof.
  unfold ztake, zlen; rewrite Nat2Z.id; revert code; induction rest as [|x rest IH]; intros [|y code]; auto.
  cbn; now rewrite IH.
Qed.

Lemma zip_xor_next (rest code more : list Z) : zlen code <= zlen rest ->
  zip_with Z.lxor (ztake (zlen code) rest) (ztake (zlen code) code) ++ zip_with Z.lxor (zdrop (zlen code) rest) more =
    zip_with Z.lxor rest (code ++ more).
Proof.
  intros Hl; rewrite <- (ztake_zdrop (zlen code) rest) at 3; rewrite zip_with_app; [now rewrite (ztake_all (zlen code) code) by lia|].
  pose proof (zlen_ztake (zlen code) rest) as E; pose proof (zlen_nonneg code); unfold zlen in *; lia.
Qed.

Lemma p_hash_loop_spec ctx_init : hmac_holds (md := md) ctx_init key [] ->
  forall fuel ctx ctx_tmp A1 a pre rest,
  ztake (md_size md) A1 = a -> bytes a /\ zlen a < 2 ^ 63 -> (length rest < fuel)%nat ->
  p_hash_loop fuel (md_size md) seed ctx_init ctx ctx_tmp A1 (md_size md) (pre ++ rest) (zlen pre) (zlen rest) =
    Some (true, pre ++ zip_with Z.lxor rest
      (concat (p_hash_blocks mac (concat seed) (Z.to_nat ((zlen rest + md_size md - 1) / md_size md)) a))).
Proof.
  intros Hinit; pose proof (digest_sizes (md := md)) as Hsz.
  induction fuel as [|fuel IH]; intros ctx ctx_tmp A1 a pre rest Ea [Hab Haz] Hf; [lia|]; cbn [p_hash_loop].
  destruct (HMAC_CTX_copy_holds ctx ctx_init key [] mem_ok Hinit) as (c1 & -> & H1); cbn [negb].
  rewrite Ea; destruct (HMAC_Update_holds c1 key [] a H1 Hab Haz) as (c2 & -> & H2); cbn [app] in H2.
  set (tmp := if _ <? _ then _ else _).
  assert (exists ctx_tmp', tmp = (true, ctx_tmp') /\
    (md_size md < zlen rest -> hmac_holds (md := md) ctx_tmp' key a)) as (t1 & -> & Ht1).
  { unfold tmp; destruct (Z.ltb_spec (md_size md) (zlen rest)); [|eexists; split; [reflexivity|lia]].
    destruct (HMAC_CTX_copy_holds ctx_tmp c2 key a mem_ok H2) as (t & -> & Ht); eauto. }
  cbn [negb]; destruct (hmac_updates_spec seed c2 a seed_ok H2) as (c3 & -> & H3).
  destruct (HMAC_Final_holds false c3 key _ H3) as (c4 & -> & _).
  set (code := mac (a ++ concat seed)); assert (zlen code = md_size md) as Hcode by apply mac_output.
  set (len := if zlen rest <? md_size md then zlen rest else md_size md).
  assert (0 <= len <= zlen rest /\ len <= md_size md) as [Hl1 Hl2] by
    (pose proof (zlen_nonneg rest); unfold len; destruct (Z.ltb_spec (zlen rest) (md_size md)); lia).
  rewrite xor_into_next by lia.
  destruct (Z.eqb_spec (zlen rest - len) 0) as [E0|E0].
  - assert (len = zlen rest) as El by lia; rewrite El, (zdrop_all (zlen rest) rest), (ztake_all (zlen rest) rest), app_nil_r by lia.
    do 3 f_equal; destruct (Z.ltb_spec 0 (zlen rest)) as [Hp|Hp].
    + rewrite ceil_step by exact Hp; fold len; cbn [p_hash_blocks concat]; fold code.
      rewrite El, Z.sub_diag, (Z.div_small (0 + _ - 1)) by lia; cbn [Z.to_nat p_hash_blocks concat]; rewrite app_nil_r.
      apply zip_xor_take.
    + pose proof (zlen_nonneg rest); now rewrite (zlen_0_nil rest) by lia.
  - assert (len = md_size md /\ md_size md < zlen rest) as [El Hlt] by
      (unfold len in E0 |- *; destruct (Z.ltb_spec (zlen rest) (md_size md)); lia).
    destruct (HMAC_Final_holds false t1 key a (Ht1 Hlt)) as (t2 & -> & _).
    rewrite ceil_step by lia; fold len; cbn [p_hash_blocks concat]; fold code.
    set (x := zip_with _ _ _); assert (zlen x = len) as Hx.
    { pose proof (zlen_ztake len rest) as E1; pose proof (zlen_ztake len code) as E2; unfold x, zlen in *.
      rewrite length_zip_with; lia. }
    replace (zlen pre + len) with (zlen (pre ++ x)) by (rewrite zlen_app; lia).
    replace (zlen rest - len) with (zlen (zdrop len rest)) by (rewrite zlen_zdrop; lia).
    rewrite (IH _ _ _ (mac a)); [| |apply mac_chunk|].
    + rewrite <- app_assoc; unfold x; rewrite El, <- Hcode, zip_xor_next by lia; reflexivity.
    + rewrite (front_of_buffer (md_size md)); [apply ztake_all|]; pose proof (proj2 (mac_output (md := md) (H := H) key a)); lia.
    + unfold zdrop; rewrite length_drop; unfold zlen in *; lia.
Qed.
End Correct.

Lemma tls1_P_hash_spec {HA : Allocator} {md : EVP_MD} {H : list Z -> list Z} {D : Digest md H} out secret label seed1 seed2 :
  Forall (fun x => bytes x /\ zlen x < 2 ^ 63) [secret; label; seed1; seed2] ->
  tls1_P_hash out md secret label seed1 seed2 =
    Some (if malloc_ok (ctx_size md)
          then (true, zip_with Z.lxor out
                  (p_hash_spec (hmac_spec H (block_size md) secret) (md_size md) (label ++ seed1 ++ seed2) (zlen out)))
          else (false, out)).
Proof.
  intros Hc; inversion_clear Hc as [|? ? Hs Hc']; unfold tls1_P_hash, p_hash_spec; rewrite zip_xor_take.
  pose proof (HMAC_Init_first (md := md) (Some secret) ltac:(intros ? [= <-]; exact Hs)) as Hi.
  destruct (malloc_ok (ctx_size md)) eqn:Em; destruct Hi as (ctx & Hi); [|now rewrite Hi].
  destruct Hi as [-> Hh]; destruct (HMAC_CTX_copy_holds HMAC_CTX_init ctx secret [] Em Hh) as (c1 & -> & H1); cbn [negb].
  destruct (hmac_updates_spec secret [label; seed1; seed2] c1 [] Hc' H1) as (c2 & -> & H2); cbn [app concat] in H2.
  rewrite app_nil_r in H2; destruct (HMAC_Final_holds false c2 secret _ H2) as (c3 & -> & _).
  pose proof (mac_output (md := md) (H := H) secret (label ++ seed1 ++ seed2)) as [_ Hl].
  pose proof (p_hash_loop_spec secret [label; seed1; seed2] Hc' Em ctx Hh (S (length out)) c3 HMAC_CTX_init
    (zsplice (zrep EVP_MAX_MD_SIZE uninit_byte) 0 (hmac_spec H (block_size md) secret (label ++ seed1 ++ seed2)))
    (hmac_spec H (block_size md) secret (label ++ seed1 ++ seed2)) [] out) as E.
  cbn [app concat] in E; change (zlen (@nil Z)) with 0 in E; rewrite app_nil_r in E; apply E; [|apply mac_chunk|lia].
  rewrite (front_of_buffer (md_size md)) by lia; apply ztake_all; lia.
Qed.

Lemma xor_with_zeros (l : list Z) : forall n, (length l <= n)%nat -> zip_with Z.lxor (replicate n 0) l = l.
Proof. induction l as [|x l IH]; intros [|n] Hn; cbn in *; auto; [lia|]; rewrite IH; [reflexivity|lia]. Qed.

Lemma p_hash_blocks_length mac seed k n : (forall x, zlen (mac x) = k) -> forall a,
  zlen (concat (p_hash_blocks mac seed n a)) = Z.of_nat n * k.
Proof.
  intros Hk; induction n as [|n IH]; intros a; cbn [p_hash_blocks concat]; [reflexivity|].
  rewrite zlen_app, Hk, IH; lia.
Qed.

Lemma p_hash_spec_length mac k seed len : (forall x, zlen (mac x) = k) -> 0 < k -> 0 <= len ->
  zlen (p_hash_spec mac k seed len) = len.
Proof.
  intros Hm Hk Hl; unfold p_hash_spec; rewrite zlen_ztake; [reflexivity|].
  rewrite (p_hash_blocks_length _ _ k) by auto.
  pose proof (Z.div_mod (len + k - 1) k); pose proof (Z.mod_pos_bound (len + k - 1) k).
  pose proof (Z.div_pos (len + k - 1) k); nia.
Qed.

Lemma p_hash_onto_zeros {md : EVP_MD} {H : list Z -> list Z} {D : Digest md H} secret seed len : 0 <= len ->
  let x := p_hash_spec (hmac_spec H (block_size md) secret) (md_size md) seed len in
  zip_with Z.lxor (zrep len 0) x = x /\ zlen x = len.
Proof.
  intros Hl x; pose proof (digest_sizes (md := md)) as Hs.
  pose proof (p_hash_spec_length (hmac_spec H (block_size md) secret) (md_size md) seed len
    (fun x => proj2 (mac_output (md := md) (H := H) secret x)) ltac:(lia) Hl) as E; fold x in E.
  split; [|exact E]; apply xor_with_zeros; unfold zlen in *; lia.
Qed.

(** The function of TLS 1.0 and 1.1. *)
Lemma prf_tls10 {HA : Allocator} (n : Z) (secret label seed1 seed2 : list Z) : 0 < n ->
  Forall (fun x => bytes x /\ zlen x < 2 ^ 63) [secret; label; seed1; seed2] ->
  let ok := malloc_ok (ctx_size EVP_md5) && malloc_ok (ctx_size EVP_sha1) in
  exists o, CRYPTO_tls1_prf EVP_md5_sha1 (zrep n 0) secret label seed1 seed2 = Some (ok, o) /\
    (ok = true -> o = prf_tls10_spec secret (label ++ seed1 ++ seed2) n).
Proof.
  intros Hn Hc; inversion_clear Hc as [|? ? [Hsb Hsz] Hc']; unfold CRYPTO_tls1_prf, prf_tls10_spec.
  rewrite zlen_zrep, (proj2 (Z.eqb_neq n 0)) by lia; change (same_md _ _) with true; cbv iota zeta.
  pose proof (zlen_nonneg secret); pose proof (Z.div_mod (zlen secret) 2); pose proof (Z.mod_pos_bound (zlen secret) 2).
  assert (zlen secret - zlen secret / 2 = (zlen secret + 1) / 2) as -> by (apply Z.div_unique with (1 - zlen secret mod 2); lia).
  set (half := (zlen secret + 1) / 2).
  assert (0 <= half <= zlen secret) as Hh by (pose proof (Z.div_mod (zlen secret + 1) 2);
    pose proof (Z.mod_pos_bound (zlen secret + 1) 2); lia).
  assert (forall s, bytes s -> zlen s <= half -> Forall (fun x => bytes x /\ zlen x < 2 ^ 63) [s; label; seed1; seed2]) as Hp by
    (intros s Hs Hl; constructor; [split; [exact Hs|lia]|exact Hc']).
  rewrite (tls1_P_hash_spec (md := EVP_md5) (H := md5_spec)) by (apply Hp; auto with zlist; rewrite zlen_ztake; lia).
  rewrite zlen_zrep by lia; destruct (malloc_ok (ctx_size EVP_md5)); cbn [andb]; [|eexists; split; [reflexivity|discriminate]].
  destruct (p_hash_onto_zeros (md := EVP_md5) (H := md5_spec) (ztake half secret) (label ++ seed1 ++ seed2) n) as [-> El]; [lia|].
  rewrite (ztake_all half (zdrop _ _)) by (rewrite zlen_zdrop; lia).
  rewrite (tls1_P_hash_spec (md := EVP_sha1) (H := sha1_spec)) by (apply Hp; auto with zlist; rewrite zlen_zdrop; lia).
  rewrite El; destruct (malloc_ok (ctx_size EVP_sha1)); eexists; split; try reflexivity; discriminate.
Qed.

(** The two functions. *)
Lemma tls1_prf_spec {HA : Allocator} (out secret label seed1 seed2 : list Z) :
  Forall (fun x => bytes x /\ zlen x < 2 ^ 63) [secret; label; seed1; seed2] ->
  let seed := label ++ seed1 ++ seed2 in
  (forall md H (D : Digest md H), same_md (Some md) (Some EVP_md5_sha1) = false ->
     CRYPTO_tls1_prf md out secret label seed1 seed2 =
       Some (if (zlen out =? 0) || malloc_ok (ctx_size md)
             then (true, p_hash_spec (hmac_spec H (block_size md) secret) (md_size md) seed (zlen out))
             else (false, zrep (zlen out) 0))) /\
  (exists o, let ok := (zlen out =? 0) || malloc_ok (ctx_size EVP_md5) && malloc_ok (ctx_size EVP_sha1) in
     CRYPTO_tls1_prf EVP_md5_sha1 out secret label seed1 seed2 = Some (ok, o) /\
     (ok = true -> o = prf_tls10_spec secret seed (zlen out))).
Proof.
  intros Hc seed; pose proof (zlen_nonneg out) as H0.
  destruct (Z.eqb_spec (zlen out) 0) as [E|E]; cbn [orb].
  { unfold CRYPTO_tls1_prf; rewrite E, (zlen_0_nil out E); split; [intros; unfold p_hash_spec; now rewrite ztake_0|].
    exists []; split; [reflexivity|]; intros _; unfold prf_tls10_spec, p_hash_spec; now rewrite !ztake_0. }
  split.
  - intros md H D Hmd; unfold CRYPTO_tls1_prf; rewrite Hmd, (proj2 (Z.eqb_neq _ _) E).
    rewrite (tls1_P_hash_spec (md := md) (H := H)) by exact Hc; rewrite zlen_zrep by exact H0.
    now rewrite (proj1 (p_hash_onto_zeros secret seed (zlen out) H0)).
  - destruct (prf_tls10 (zlen out) secret label seed1 seed2 ltac:(lia) Hc) as (o & Eo & Ho); exists o.
    split; [|exact Ho]; rewrite <- Eo; unfold CRYPTO_tls1_prf; rewrite zlen_zrep by lia; destruct (zlen out =? 0) eqn:Ez; [lia|reflexivity].
Qed.

(** The pseudorandom functions of TLS. For TLS 1.2 it is P_hash of RFC
    5246 over any digest; for the digest MD5-SHA1 it is the function of RFC 2246,
    the exclusive or of P_MD5 and P_SHA1 over the two halves of the secret. It
    fails only when memory runs out and something is to be written, and the
    loop always ends. *)
Theorem tls1_prf_correct {HA : Allocator} (out secret label seed1 seed2 : list Z) :
  Forall (fun x => bytes x /\ zlen x < 2 ^ 63) [secret; label; seed1; seed2] ->
  let seed := label ++ seed1 ++ seed2 in
  (forall md H (D : Digest md H), same_md (Some md) (Some EVP_md5_sha1) = false ->
     CRYPTO_tls1_prf md out secret label seed1 seed2 =
       Some (if (zlen out =? 0) || malloc_ok (ctx_size md)
             then (true, p_hash_spec (hmac_spec H (block_size md) secret) (md_size md) seed (zlen out))
             else (false, zrep (zlen out) 0))) /\
  (exists o, let ok := (zlen out =? 0) || malloc_ok (ctx_size EVP_md5) && malloc_ok (ctx_size EVP_sha1) in
     CRYPTO_tls1_prf EVP_md5_sha1 out secret label seed1 seed2 = Some (ok, o) /\
     (ok = true -> o = prf_tls10_spec secret seed (zlen out))).
Proof. exact (tls1_prf_spec out secret label seed1 seed2). Qed.

(** A test vector for TLS 1.2 with SHA-256 ("test label"), and TLS 1.0 with a
    secret of odd length. *)
Lemma tls1_prf_correct_witness :
  let A := allocator_total in
  let secret := be_enc 16 0x9bbe436ba940f017b17652849a71db35 in
  let seed := be_enc 16 0xa0ba9f936cda311827a6f796ffd5198c in
  let label := [116; 101; 115; 116; 32; 108; 97; 98; 101; 108] in
  CRYPTO_tls1_prf EVP_sha256 (zrep 40 7) secret label seed [] =
    Some (true, be_enc 40 0xe3f229ba727be17b8d122620557cd453c2aab21d07c3d495329b52d4e61edb5a6b301791e90d35c9) /\
  CRYPTO_tls1_prf EVP_md5_sha1 (zrep 25 7) [1; 2; 3] label seed [5] =
    Some (true, prf_tls10_spec [1; 2; 3] (label ++ seed ++ [5]) 25).
Proof.
  intros A secret seed label; split; [vm_compute; reflexivity|].
  destruct (tls1_prf_correct (HA := A) (zrep 25 7) [1; 2; 3] label seed [5]) as (_ & o & E & Eo).
  - assert (bytes [1; 2; 3] /\ bytes label /\ bytes seed /\ bytes [5]) as (B1 & B2 & B3 & B4) by
      (split; [|split; [|split; [apply bytes_be_enc|]]]; repeat constructor; unfold byte; lia).
    constructor; [now split|]; constructor; [now split|]; constructor; [now split|]; constructor; [now split|constructor].
  - rewrite E, (Eo eq_refl); reflexivity.
Defined.

(** * HKDF-Expand-Label *)

(** The calls on the builder as a program. *)
Definition hkdf_label_program (out_len : Z) (label hash : list Z) : list cbb_op :=
  [AddU 0 W16 (u16 out_len); AddPrefixed 0 1; AddBytes 1 kProtocolLabel; AddBytes 1 label; AddPrefixed 0 1; AddBytes 1 hash].

Lemma prefixed_child {HA : Allocator} {A} d (k : nat -> ST CBB A) cbb :
  st_bind (CBB_add_u8_length_prefixed d) k cbb = st_bind (forget (CBB_add_u8_length_prefixed d)) (fun _ => k (S d)) cbb.
Proof.
  unfold forget, CBB_add_u8_length_prefixed, cbb_add_length_prefixed, cbb_add_child, on_base, st_bind, st_ret.
  destruct (CBB_flush d cbb) as [[?|] ?]; [|reflexivity].
  destruct (cbb_buffer_add 1 _) as [[?|] ?]; [|reflexivity].
  destruct (poke _ _ _) as [[?|] ?]; reflexivity.
Qed.

Lemma hkdf_label_run {HA : Allocator} out_len label hash cbb :
  hkdf_label_calls out_len label hash cbb = run (hkdf_label_program out_len label hash) cbb.
Proof.
  unfold hkdf_label_calls; cbn [run hkdf_label_program exec]; unfold st_bind at 1 6.
  destruct (CBB_add_u16 0 (u16 out_len) cbb) as [[?|] c1]; [|reflexivity]; rewrite prefixed_child.
  unfold st_bind at 1 5; destruct (forget _ c1) as [[?|] c2]; [|reflexivity].
  unfold st_bind at 1 4; destruct (CBB_add_bytes 1 _ c2) as [[?|] c3]; [|reflexivity].
  unfold st_bind at 1 3; destruct (CBB_add_bytes 1 _ c3) as [[?|] c4]; [|reflexivity]; rewrite prefixed_child.
  unfold st_bind at 1 2; destruct (forget _ c4) as [[?|] c5]; [|reflexivity].
  unfold st_bind at 1; destruct (CBB_add_bytes 1 _ c5) as [[[]|] c6]; reflexivity.
Qed.

(** Evaluates the builder on the calls of a program. *)
Ltac build :=
  unfold b_add, b_flush, b_child, b_append, finished;
  repeat progress (cbn [b_root b_open drop take collapse mbind option_bind app append_last empty_builder prefix_octets length];
    rewrite ?app_nil_r; try change (256 ^ Z.of_nat 1) with 256).

Lemma hkdf_label_value out_len label hash :
  (run_spec (hkdf_label_program out_len label hash) empty_builder ≫= finished) =
    if (zlen kProtocolLabel + zlen label <? 256) && (zlen hash <? 256)
    then Some (be_enc 2 (u16 out_len) ++ [zlen kProtocolLabel + zlen label] ++ kProtocolLabel ++ label ++ [zlen hash] ++ hash)
    else None.
Proof.
  pose proof (uw_bound 16 out_len ltac:(lia)) as Hu.
  cbn [run_spec hkdf_label_program op_spec uwidth_bytes]; rewrite (proj2 (Z.ltb_lt _ _)) by (cbn; lia).
  assert (forall l : list Z, (zlen l <? 256) = true -> be_enc 1 (zlen l) = [zlen l]) as He.
  { intros l Hl%Z.ltb_lt; pose proof (zlen_nonneg l); cbn; rewrite Z.mod_small by lia; reflexivity. }
  build; rewrite <- zlen_app.
  destruct (zlen (kProtocolLabel ++ label) <? 256) eqn:E1; build; [|reflexivity].
  destruct (zlen hash <? 256) eqn:E2; build; [|reflexivity].
  rewrite !He by auto; now rewrite <- !app_assoc.
Qed.

Lemma hkdf_label_ok out_len label hash : zlen label < 2 ^ 63 -> zlen hash < 2 ^ 63 ->
  let ops := hkdf_label_program out_len label hash in
  Forall op_args_ok ops /\ run_ok ops empty_builder /\ run_cost ops <= 100 + zlen label + zlen hash.
Proof.
  intros Hl Hh ops; pose proof (uw_bound 16 out_len ltac:(lia)) as Hu; split; [|split].
  - unfold ops; repeat (constructor; [cbn; lia || (change (zlen kProtocolLabel) with 6; lia)|]); constructor.
  - unfold ops; cbn [run_ok hkdf_label_program op_depth op_args_ok op_spec uwidth_bytes].
    rewrite (proj2 (Z.ltb_lt (u16 out_len) _)) by (cbn; lia).
    build; change (zlen kProtocolLabel) with 6; change (uwidth_max W16) with (2 ^ 16); pow2.
    repeat (split; [lia|]); destruct (zlen (kProtocolLabel ++ label) <? 256); build; [|exact I].
    split; [lia|]; split; [lia|exact I].
  - unfold ops, run_cost; cbn [hkdf_label_program fold_right op_cost uwidth_bytes]; change (zlen kProtocolLabel) with 6; lia.
Qed.

(** What the builder returns, under any allocator. *)
Lemma hkdf_label_built {HA : Allocator} out_len label hash cbb :
  let fits := (zlen kProtocolLabel + zlen label <? 256) && (zlen hash <? 256) in
  zlen label < 2 ^ 63 -> zlen hash < 2 ^ 63 ->
  CBB_init (u64 (2 + 1 + zlen kProtocolLabel + zlen label + 1 + zlen hash)) = Some cbb ->
  match fst ((hkdf_label_calls out_len label hash ;;; CBB_finish) cbb) with
  | Some l => fits = true /\ l = hkdf_label_spec (u16 out_len) label hash
  | None => (forall n, malloc_ok n = true) -> fits = false
  end.
Proof.
  intros fits Hl Hh Ei; destruct (hkdf_label_ok out_len label hash Hl Hh) as (Ha & Hok & Hcost).
  set (ops := hkdf_label_program out_len label hash) in *.
  apply CBB_init_represents in Ei as (HR & Hphi & Hres); [|apply uw_bound; lia].
  destruct (refines_finish (run ops) _ _ cbb HR Hphi (run_refines ops cbb empty_builder HR Hok Ha)) as [H1 H2].
  assert (forall A (k : unit -> ST CBB A), st_bind (hkdf_label_calls out_len label hash) k cbb = st_bind (run ops) k cbb) as Er
    by (intros; unfold st_bind; now rewrite hkdf_label_run).
  rewrite Er; unfold ops in H1, H2 |- *; rewrite hkdf_label_value in H1, H2; fold fits in H1, H2.
  fold (hkdf_label_spec (u16 out_len) label hash) in H1, H2.
  destruct (fst _) as [l|].
  - specialize (H1 l eq_refl); destruct fits; [split; congruence|discriminate].
  - intros Hm; destruct fits eqn:Ef; [|reflexivity]; exfalso.
    unfold fits in Ef; apply andb_prop in Ef as [Ef1%Z.ltb_lt Ef2%Z.ltb_lt]; change (zlen kProtocolLabel) with 6 in Ef1.
    specialize (H2 _ (conj Hres Hm) ltac:(unfold ops in Hcost; pow2; lia) eq_refl); discriminate.
Qed.

(** The label is expanded, or refused. *)
Lemma tls13_expand_label_spec {HA : Allocator} {md : EVP_MD} {H : list Z -> list Z} {D : Digest md H}
    (out secret label hash : list Z) :
  Forall (fun x => bytes x /\ zlen x < 2 ^ 63) [secret; label; hash] -> zlen out < 2 ^ 64 ->
  let fits := (zlen kProtocolLabel + zlen label <? 256) && (zlen hash <? 256) && (zlen out <=? 255 * md_size md) in
  match CRYPTO_tls13_hkdf_expand_label out md secret label hash with
  | Some (true, o) => fits = true /\
      o = hkdf_expand_spec (hmac_spec H (block_size md) secret) (md_size md) (hkdf_label_spec (zlen out) label hash) (zlen out)
  | Some (false, o) => o = out /\ ((forall n, malloc_ok n = true) -> fits = false)
  | None => False
  end.
Proof.
  intros Hc Ho fits; unfold CRYPTO_tls13_hkdf_expand_label; pose proof (digest_sizes (md := md)) as Hs.
  inversion_clear Hc as [|? ? Hsec Hc1]; inversion_clear Hc1 as [|? ? Hl Hc2]; inversion_clear Hc2 as [|? ? Hh _].
  set (cap := u64 _); destruct (CBB_init cap) as [cbb|] eqn:Ei.
  2: { split; [reflexivity|]; intros Hm; destruct (CBB_init_ok cap (Hm _)); congruence. }
  pose proof (hkdf_label_built (zlen out) label hash cbb (proj2 Hl) (proj2 Hh) Ei) as Hb.
  destruct ((_ ;;; CBB_finish) cbb) as [[l|] cbb']; cbn [fst] in Hb.
  - destruct Hb as [Hf ->]; unfold fits; rewrite Hf; cbn [andb].
    apply andb_prop in Hf as [Hf1%Z.ltb_lt Hf2%Z.ltb_lt]; pose proof (zlen_nonneg label); pose proof (zlen_nonneg hash).
    rewrite HKDF_expand_spec; [|split|exact Hsec|exact Ho].
    + destruct (malloc_ok (ctx_size md)) eqn:Em; cbn [andb]; [|split; [reflexivity|intros Hm; rewrite Hm in Em; discriminate]].
      destruct (Z.leb_spec (zlen out) (255 * md_size md)); split; auto.
      rewrite (uw_small 16) by (pow2; zl_pose; lia); reflexivity.
    + unfold hkdf_label_spec, kProtocolLabel; change (zlen [116; 108; 115; 49; 51; 32]) with 6.
      change (zlen kProtocolLabel) with 6 in Hf1; apply bytes_app; split; [apply bytes_be_enc|].
      apply bytes_app; split; [constructor; [unfold byte; lia|constructor]|].
      apply bytes_app; split; [repeat constructor; unfold byte; lia|].
      apply bytes_app; split; [apply Hl|]; apply bytes_app; split; [constructor; [unfold byte; lia|constructor]|apply Hh].
    + change (zlen kProtocolLabel) with 6 in Hf1; unfold hkdf_label_spec; rewrite !zlen_app, zlen_be_enc.
      change (zlen kProtocolLabel) with 6; rewrite !zlen_cons, !zlen_nil; pow2; lia.
  - split; [reflexivity|]; intros Hm; unfold fits; now rewrite (Hb Hm).
Qed.

(** HKDF-Expand-Label of TLS 1.3 is the function of RFC 8446 over any
    digest: HKDF-Expand with the HkdfLabel structure. A label or a context that
    does not fit its length byte, or more output than 255 blocks, is refused;
    nothing else is, unless memory runs out. A refusal leaves the output
    untouched, so that the truncation of the length to 16 bits never shows. *)
Theorem tls13_expand_label_correct {HA : Allocator} {md : EVP_MD} {H : list Z -> list Z} {D : Digest md H}
    (out secret label hash : list Z) :
  Forall (fun x => bytes x /\ zlen x < 2 ^ 63) [secret; label; hash] -> zlen out < 2 ^ 64 ->
  let fits := (zlen kProtocolLabel + zlen label <? 256) && (zlen hash <? 256) && (zlen out <=? 255 * md_size md) in
  match CRYPTO_tls13_hkdf_expand_label out md secret label hash with
  | Some (true, o) => fits = true /\
      o = hkdf_expand_spec (hmac_spec H (block_size md) secret) (md_size md) (hkdf_label_spec (zlen out) label hash) (zlen out)
  | Some (false, o) => o = out /\ ((forall n, malloc_ok n = true) -> fits = false)
  | None => False
  end.
Proof. exact (tls13_expand_label_spec out secret label hash). Qed.

(** The write key of the handshake of RFC 8448, section 3: label "key", an empty
    context, 16 bytes; and a label that is too long. *)
Lemma tls13_expand_label_correct_witness :
  let A := allocator_total in
  let secret := be_enc 32 0xb67b7d690cc16c4e75e54213cb2d37b4e9c912bcded9105d42befd59d391ad38 in
  CRYPTO_tls13_hkdf_expand_label (zrep 16 0) EVP_sha256 secret [107; 101; 121] [] =
    Some (true, be_enc 16 0x3fce516009c21727d0f2e4e86ee403bc) /\
  exists o, CRYPTO_tls13_hkdf_expand_label (zrep 16 0) EVP_sha256 secret (zrep 250 107) [] = Some (false, o) /\ o = zrep 16 0.
Proof.
  intros A secret; split; [vm_compute; reflexivity|].
  assert (Forall (fun x => bytes x /\ zlen x < 2 ^ 63) [secret; zrep 250 107; []]) as Hc.
  { constructor; [split; [apply bytes_be_enc|reflexivity]|]; constructor; [split; [|reflexivity]|now repeat constructor].
    apply bytes_zrep; unfold byte; lia. }
  pose proof (tls13_expand_label_correct (HA := A) (md := EVP_sha256) (D := sha256_digest) (zrep 16 0) secret (zrep 250 107) []
    Hc eq_refl) as E.
  destruct (CRYPTO_tls13_hkdf_expand_label _ _ _ _ _) as [[[] o]|]; [destruct E as [E _]; discriminate E| |contradiction].
  exists o; split; [reflexivity|apply E].
Defined.
