(* ===== verification/TlsCbc.v ===== *)
(** The constant-time part of CBC records (crypto/cipher_extra/tls_cbc.c):
    removal of the padding, extraction of the MAC from a secret position, and the
    MAC of a record of secret length.

    The lengths [in_len], [orig_len], [max_len] are public, the length of the
    padding is not: the code reads and computes the same whatever it is, and the
    theorems say that the result is nevertheless that of the plain algorithms. *)

From S2P Require Import Prelude Cbs ConstTime Words Md32 Sha2 Sha256 Sha512 Sha1 Md5 Digest Hmac.

(** * The padding *)

(** The loop over [i], with [n] iterations left. *)
Fixpoint check_padding (n : nat) (i padding_length : Z) (inp : list Z) (good : Z) : Z :=
  match n with
  | O => good
  | S n =>
      let mask := constant_time_ge_8 padding_length i in
      let b := znth inp (zlen inp - 1 - i) in
      let good := Z.land good (not_w (Z.land mask (Z.lxor padding_length b))) in
      check_padding n (i + 1) padding_length inp good
  end.

(** The values of [out_padding_ok] and [out_len]; [None] is a return value of zero. *)
Definition EVP_tls_cbc_remove_padding (inp : list Z) (block_size mac_size : Z) : option (Z * Z) :=
  let in_len := zlen inp in
  let overhead := u64 (1 + mac_size) in
  if in_len <? overhead then None
  else
    let padding_length := znth inp (in_len - 1) in
    let good := constant_time_ge_w in_len (u64 (overhead + padding_length)) in
    let to_check := if in_len <? 256 then in_len else 256 in
    let good := check_padding (Z.to_nat to_check) 0 padding_length inp good in
    let good := constant_time_eq_w 0xff (Z.land good 0xff) in
    let padding_length := Z.land good (u64 (padding_length + 1)) in
    Some (good, u64 (in_len - padding_length)).

(** * The MAC *)

(** The state of the scan: [j], [rotate_offset], [mac_started], [rotated_mac]. *)
Definition scan_state : Type := (Z * Z * Z * list Z)%type.

Fixpoint scan_mac (n : nat) (i md_size mac_start mac_end : Z) (inp : list Z) (st : scan_state) : scan_state :=
  match n with
  | O => st
  | S n =>
      let '(j, rotate_offset, mac_started, rotated_mac) := st in
      let j := if md_size <=? j then j - md_size else j in
      let is_mac_start := constant_time_eq_w i mac_start in
      let mac_started := u8 (Z.lor mac_started is_mac_start) in
      let mac_ended := constant_time_ge_8 i mac_end in
      let byte := Z.land (Z.land (znth inp i) mac_started) (u8 (Z.lnot mac_ended)) in
      let rotated_mac := zsplice rotated_mac j [Z.lor (znth rotated_mac j) byte] in
      let rotate_offset := Z.lor rotate_offset (Z.land j is_mac_start) in
      scan_mac n (i + 1) md_size mac_start mac_end inp (j + 1, rotate_offset, mac_started, rotated_mac)
  end.

(** The inner loop of the rotation, which fills [tmp] from [i] on. *)
Fixpoint rotate_step (n : nat) (i j md_size skip_rotate : Z) (mac tmp : list Z) : list Z :=
  match n with
  | O => tmp
  | S n =>
      let j := if md_size <=? j then j - md_size else j in
      let tmp := zsplice tmp i [constant_time_select_8 skip_rotate (znth mac i) (znth mac j)] in
      rotate_step n (i + 1) (j + 1) md_size skip_rotate mac tmp
  end.

(** The loop over [offset], which doubles: [md_size] is enough fuel. *)
Fixpoint rotate_mac (fuel : nat) (offset rotate_offset md_size : Z) (mac tmp : list Z) : list Z :=
  match fuel with
  | O => mac
  | S fuel =>
      if offset <? md_size then
        let skip_rotate := u8 (Z.land rotate_offset 1 - 1) in
        let tmp := rotate_step (Z.to_nat md_size) 0 offset md_size skip_rotate mac tmp in
        rotate_mac fuel (Z.shiftl offset 1) (Z.shiftr rotate_offset 1) md_size tmp mac
      else mac
  end.

(** [inp] has [orig_len] bytes, of which the first [in_len] are left. *)
Definition EVP_tls_cbc_copy_mac `{Allocator} (md_size : Z) (inp : list Z) (in_len : Z) : list Z :=
  let orig_len := zlen inp in
  let mac_end := in_len in
  let mac_start := mac_end - md_size in
  let scan_start := if md_size + 255 + 1 <? orig_len then orig_len - (md_size + 255 + 1) else 0 in
  let rotated_mac1 := zsplice (zrep EVP_MAX_MD_SIZE uninit_byte) 0 (zrep md_size 0) in
  let rotated_mac2 := zrep EVP_MAX_MD_SIZE uninit_byte in
  let '(_, rotate_offset, _, rotated_mac) :=
    scan_mac (Z.to_nat (orig_len - scan_start)) scan_start md_size mac_start mac_end inp (0, 0, 0, rotated_mac1) in
  ztake md_size (rotate_mac (Z.to_nat md_size) 1 rotate_offset md_size rotated_mac rotated_mac2).

(** * Hashing a suffix of secret length *)

(** The inner loop over [j]: bytes past [len] are cleared and the byte 0x80
    is put at [len]. *)
Fixpoint mask_block (n : nat) (j block_start input_idx len : Z) (block : list Z) : list Z :=
  match n with
  | O => block
  | S n =>
      let idx := u64 (u64 (input_idx + j) - block_start) in
      let is_in_bounds := constant_time_lt_8 idx len in
      let is_padding_byte := constant_time_eq_8 idx len in
      let b := Z.lor (Z.land (znth block j) is_in_bounds) (Z.land 0x80 is_padding_byte) in
      mask_block n (j + 1) block_start input_idx len (zsplice block j [b])
  end.

(** One iteration up to the transformation: the contents of [block] and the
    new [input_idx]. *)
Definition fill_block (i : Z) (inp : list Z) (len last_block : Z) (length_bytes : list Z) (ctx : md_state)
    (block : list Z) (input_idx : Z) : list Z * Z :=
  let max_len := zlen inp in
  let '(block, block_start) :=
    if i =? 0 then (zsplice block 0 (ztake (num ctx) (data ctx)), num ctx) else (block, 0) in
  let block :=
    if input_idx <? max_len then
      let to_copy := 64 - block_start in
      let to_copy := if max_len - input_idx <? to_copy then max_len - input_idx else to_copy in
      zsplice block block_start (ztake to_copy (zdrop input_idx inp))
    else block in
  let block := mask_block (Z.to_nat (64 - block_start)) block_start block_start input_idx len block in
  let is_last_block := constant_time_eq_w i last_block in
  (zsplice block 60 (zip_with (fun b l => u8 (Z.lor b (Z.land is_last_block l))) (zdrop 60 block) length_bytes),
   u64 (input_idx + (64 - block_start))).

(** The loop over [i], with [n] blocks left. [transform] absorbs one block into
    the chaining value. *)
Fixpoint suffix_blocks (transform : md_state -> list Z -> md_state) (n : nat) (i : Z) (inp : list Z) (len last_block : Z)
    (length_bytes : list Z) (ctx : md_state) (block : list Z) (input_idx : Z) (result : list Z) : list Z * md_state :=
  match n with
  | O => (result, ctx)
  | S n =>
      let '(block, input_idx) := fill_block i inp len last_block length_bytes ctx block input_idx in
      let is_last_block := constant_time_eq_w i last_block in
      let ctx := transform ctx block in
      let result := zip_with (fun r x => u32 (Z.lor r (Z.land is_last_block x))) result (h ctx) in
      suffix_blocks transform n (i + 1) inp len last_block length_bytes ctx block input_idx result
  end.

(** [EVP_sha1_final_with_secret_suffix] and [EVP_sha256_final_with_secret_suffix]
    are the same but for the transformation and the number of words. [inp] has
    [max_len] bytes, of which the first [len] are hashed. *)
Definition final_with_secret_suffix (transform : md_state -> list Z -> md_state) (words : Z) (ctx : md_state)
    (inp : list Z) (len : Z) : option (list Z) * md_state :=
  let max_len := zlen inp in
  let max_len_bits := u64 (Z.shiftl max_len 3) in
  if negb (Nh ctx =? 0) || negb (Z.shiftr max_len_bits 3 =? max_len) ||
     (u64 (Nl ctx + max_len_bits) <? max_len_bits) || (2 ^ 32 - 1 <? u64 (Nl ctx + max_len_bits))
  then (None, ctx)
  else
    let num_blocks := Z.shiftr (u64 (num ctx + len + 1 + 8 + 64 - 1)) 6 in
    let last_block := u64 (num_blocks - 1) in
    let max_blocks := Z.shiftr (u64 (num ctx + max_len + 1 + 8 + 64 - 1)) 6 in
    let total_bits := u64 (Nl ctx + u64 (Z.shiftl len 3)) in
    let length_bytes := [u8 (Z.shiftr total_bits 24); u8 (Z.shiftr total_bits 16); u8 (Z.shiftr total_bits 8); u8 total_bits] in
    let '(result, ctx) := suffix_blocks transform (Z.to_nat max_blocks) 0 inp len last_block length_bytes ctx
                            (zrep 64 0) 0 (zrep words 0) in
    (Some (concat (map CRYPTO_store_u32_be result)), ctx).

Definition EVP_sha1_final_with_secret_suffix (ctx : md_state) (inp : list Z) (len : Z) : option (list Z) * md_state :=
  final_with_secret_suffix SHA1_Transform 5 ctx inp len.

Definition EVP_sha256_final_with_secret_suffix (ctx : SHA256_CTX) (inp : list Z) (len : Z) : option (list Z) * SHA256_CTX :=
  let '(out, c) := final_with_secret_suffix
    (fun c block => sha_md (SHA256_Transform {| sha_md := c; md_len := md_len ctx |} block)) 8 (sha_md ctx) inp len in
  (out, {| sha_md := c; md_len := md_len ctx |}).

(** * The MAC of a record *)

Definition EVP_tls_cbc_record_digest_supported (md : EVP_MD) : bool := (type md =? 64) || (type md =? 672).

(** The bytes of a record that are hashed in the open. *)
Definition min_data_size (digest_length total : Z) : Z :=
  if digest_length + 256 <? total then total - digest_length - 256 else 0.

(** [data] is the whole plaintext (data, MAC and padding), of which the first
    [data_size] bytes are the data. *)
Definition tls_cbc_digest_record_sha1 (header data : list Z) (data_size : Z) (mac_secret : list Z) : option (list Z * Z) :=
  if SHA_CBLOCK <? zlen mac_secret then None
  else
    let hmac_pad := zsplice (zrep SHA_CBLOCK 0) 0 mac_secret in
    let hmac_pad := map (Z.lxor 0x36) hmac_pad in
    let ctx := SHA1_Update SHA1_Init hmac_pad in
    let ctx := SHA1_Update ctx header in
    let min_data_size := min_data_size SHA_DIGEST_LENGTH (zlen data) in
    let ctx := SHA1_Update ctx (ztake min_data_size data) in
    match EVP_sha1_final_with_secret_suffix ctx (zdrop min_data_size data) (u64 (data_size - min_data_size)) with
    | (None, _) => None
    | (Some mac_out, _) =>
        let hmac_pad := map (Z.lxor 0x6a) hmac_pad in
        let ctx := SHA1_Update SHA1_Init hmac_pad in
        let ctx := SHA1_Update ctx mac_out in
        Some (fst (SHA1_Final ctx), SHA_DIGEST_LENGTH)
    end.

Definition tls_cbc_digest_record_sha256 (header data : list Z) (data_size : Z) (mac_secret : list Z) : option (list Z * Z) :=
  if SHA256_CBLOCK <? zlen mac_secret then None
  else
    let hmac_pad := zsplice (zrep SHA256_CBLOCK 0) 0 mac_secret in
    let hmac_pad := map (Z.lxor 0x36) hmac_pad in
    let ctx := SHA256_Update SHA256_Init hmac_pad in
    let ctx := SHA256_Update ctx header in
    let min_data_size := min_data_size SHA256_DIGEST_LENGTH (zlen data) in
    let ctx := SHA256_Update ctx (ztake min_data_size data) in
    match EVP_sha256_final_with_secret_suffix ctx (zdrop min_data_size data) (u64 (data_size - min_data_size)) with
    | (None, _) => None
    | (Some mac_out, _) =>
        let hmac_pad := map (Z.lxor 0x6a) hmac_pad in
        let ctx := SHA256_Update SHA256_Init hmac_pad in
        let ctx := SHA256_Update ctx mac_out in
        Some (written (fst (SHA256_Final ctx)), SHA256_DIGEST_LENGTH)
    end.

(** The MAC and its size, or [None] for a return value of zero. *)
Definition EVP_tls_cbc_digest_record (md : EVP_MD) (header data : list Z) (data_size : Z) (mac_secret : list Z) :
    option (list Z * Z) :=
  if type md =? 64 then tls_cbc_digest_record_sha1 header data data_size mac_secret
  else if type md =? 672 then tls_cbc_digest_record_sha256 header data data_size mac_secret
  else None.

(** * Removal of the padding *)

(** The record ends in [p + 1] bytes with the value [p], and there is room for
    the MAC before them. *)
Definition tls_padding_ok (inp : list Z) (mac_size : Z) : bool :=
  let p := znth inp (zlen inp - 1) in
  (1 + mac_size + p <=? zlen inp) && bool_decide (zdrop (zlen inp - (p + 1)) inp = zrep (p + 1) p).

Lemma land_ff_eq x : 0 <= x -> Z.land x 0xff = 0xff <-> forall k, 0 <= k < 8 -> Z.testbit x k = true.
Proof.
  intros Hx; split.
  - intros E k Hk; assert (Z.testbit (Z.land x 0xff) k = true) as Ht by
      (rewrite E; change 0xff with (Z.ones 8); apply Z.ones_spec_low; lia).
    rewrite Z.land_spec in Ht; now apply andb_prop in Ht.
  - intros Ht; apply Z.bits_inj'; intros k Hk; rewrite Z.land_spec; change 0xff with (Z.ones 8).
    destruct (decide (k < 8)); [rewrite Ht by lia; now rewrite Z.ones_spec_low by lia|].
    rewrite Z.ones_spec_high by lia; apply andb_false_r.
Qed.

(** One step of the accumulation. *)
Lemma land_not_ff good x : 0 <= good -> 0 <= x < 256 ->
  (Z.land (Z.land good (not_w x)) 0xff = 0xff <-> Z.land good 0xff = 0xff /\ x = 0).
Proof.
  intros Hg Hx; assert (forall k, 0 <= k < 8 -> Z.testbit (not_w x) k = negb (Z.testbit x k)) as Hn.
  { intros k Hk; unfold not_w, uw; rewrite Z.mod_pow2_bits_low by lia; apply Z.lnot_spec; lia. }
  assert (0 <= not_w x) by apply word_u64.
  rewrite !land_ff_eq by (auto; now apply Z.land_nonneg; left); split.
  - intros Ht; split; [intros k Hk; specialize (Ht k Hk); rewrite Z.land_spec in Ht; now apply andb_prop in Ht|].
    apply Z.bits_inj'; intros k Hk; rewrite Z.bits_0; destruct (decide (k < 8)).
    + specialize (Ht k ltac:(lia)); rewrite Z.land_spec, Hn in Ht by lia; apply andb_prop in Ht as [_ Ht].
      now apply negb_true_iff.
    + apply (testbit_high x 8); pow2; lia.
  - intros [Ht ->] k Hk; rewrite Z.land_spec, Ht, Hn, Z.bits_0 by lia; reflexivity.
Qed.

Lemma ge_8_spec a b : word a -> word b -> constant_time_ge_8 a b = mask_8 (b <=? a).
Proof.
  intros Ha Hb; unfold constant_time_ge_8, constant_time_ge_w; rewrite lt_w_spec, not_mask, u8_mask by auto.
  f_equal; now rewrite Z.leb_antisym.
Qed.

Lemma land_mask_8 (c : bool) x : byte x -> Z.land (mask_8 c) x = if c then x else 0.
Proof.
  intros Hx; unfold byte in Hx; destruct c; cbn [mask_8]; [|apply Z.land_0_l].
  rewrite Z.land_comm; change 0xff with (2 ^ 8 - 1); rewrite land_low by lia; apply Z.mod_small; pow2; lia.
Qed.

Lemma check_padding_spec p inp : byte p -> bytes inp -> forall n i good, word good -> 0 <= i -> i + Z.of_nat n <= zlen inp < 2 ^ 63 ->
  let g := check_padding n i p inp good in word g /\
  (Z.land g 0xff = 0xff <-> Z.land good 0xff = 0xff /\
     forall k, i <= k < i + Z.of_nat n -> k <= p -> znth inp (zlen inp - 1 - k) = p).
Proof.
  intros Hp Hb; induction n as [|n IH]; intros i good Hg Hi Hn; cbn [check_padding]; cbv zeta.
  - split; [exact Hg|]; split; [intros; split; auto; intros; lia|tauto].
  - set (b := znth inp (zlen inp - 1 - i)); assert (byte b) as Hbb by (apply bytes_znth; auto; lia).
    assert (byte (Z.lxor p b)) as Hx by (apply (lxor_small p b 8); unfold byte in *; pow2; lia).
    assert (word p /\ word i) as [Hwp Hwi] by (unfold word, byte in *; pow2; lia).
    rewrite ge_8_spec, land_mask_8 by auto; set (x := if i <=? p then Z.lxor p b else 0).
    assert (0 <= x < 256) as Hx' by (unfold x, byte in *; destruct (i <=? p); lia).
    destruct (IH (i + 1) (Z.land good (not_w x))) as [Hw Hi']; [|lia|lia|].
    { apply (land_small good (not_w x) 64); unfold word in *; [lia|apply word_u64]. }
    split; [exact Hw|]; rewrite Hi', (land_not_ff good x) by (unfold word in *; lia).
    assert (x = 0 <-> (i <= p -> b = p)) as ->.
    { unfold x; destruct (Z.leb_spec i p); [|split; [lia|auto]].
      rewrite Z.lxor_eq_0_iff; split; [intros; congruence|intros E; symmetry; now apply E]. }
    split.
    + intros [[H1 H2] H3]; split; [exact H1|]; intros k Hk Hkp; destruct (decide (k = i)) as [-> |]; [now apply H2|apply H3; lia].
    + intros [H1 H2]; split; [split; [exact H1|]|]; [intros; apply H2; lia|intros; apply H2; lia].
Qed.

Lemma all_padding inp p : 0 <= p < zlen inp ->
  zdrop (zlen inp - (p + 1)) inp = zrep (p + 1) p <-> forall k, 0 <= k <= p -> znth inp (zlen inp - 1 - k) = p.
Proof.
  intros Hp; split.
  - intros E k Hk; replace (zlen inp - 1 - k) with (zlen inp - (p + 1) + (p - k)) by lia.
    rewrite <- znth_zdrop by lia; rewrite E; apply znth_zrep; lia.
  - intros E; apply znth_ext; rewrite zlen_zdrop, ?zlen_zrep by lia; [lia|].
    intros i Hi; rewrite znth_zdrop, znth_zrep by lia; replace (zlen inp - (p + 1) + i) with (zlen inp - 1 - (p - i)) by lia; apply E; lia.
Qed.

(** The removal of the padding of a CBC record, in constant time, is the
    plain one: a record too short for its MAC is refused; a record that ends in
    [p + 1] bytes [p] with room for the MAC loses them and is reported as good;
    any other record keeps its length and is reported as bad. *)
Theorem tls_cbc_remove_padding_correct (inp : list Z) (block_size mac_size : Z) :
  bytes inp -> zlen inp < 2 ^ 63 -> 0 <= mac_size < 2 ^ 63 ->
  EVP_tls_cbc_remove_padding inp block_size mac_size =
    if zlen inp <=? mac_size then None
    else if tls_padding_ok inp mac_size then Some (CONSTTIME_TRUE_W, zlen inp - (znth inp (zlen inp - 1) + 1))
    else Some (CONSTTIME_FALSE_W, zlen inp).
Proof.
  intros Hb Hl Hm; unfold EVP_tls_cbc_remove_padding; rewrite (uw_small 64 (1 + mac_size)) by (pow2; lia).
  destruct (Z.ltb_spec (zlen inp) (1 + mac_size)) as [Hs|Hs]; [now rewrite (proj2 (Z.leb_le _ _)) by lia|].
  rewrite (proj2 (Z.leb_gt _ _)) by lia; unfold tls_padding_ok; set (p := znth inp (zlen inp - 1)).
  assert (byte p) as Hp by now apply bytes_znth.
  unfold byte in Hp; rewrite (uw_small 64 (1 + mac_size + p)) by (pow2; lia).
  unfold constant_time_ge_w; rewrite lt_w_spec, not_mask by (unfold word; pow2; lia); rewrite <- Z.leb_antisym.
  set (room := 1 + mac_size + p <=? zlen inp).
  set (to_check := if zlen inp <? 256 then zlen inp else 256).
  assert (0 < to_check <= zlen inp /\ (p < zlen inp -> p < to_check)) as [Ht1 Ht2] by
    (unfold to_check; destruct (Z.ltb_spec (zlen inp) 256); lia).
  destruct (check_padding_spec p inp Hp Hb (Z.to_nat to_check) 0 (mask_w room)) as [Hw Hg];
    [destruct room; unfold word; vm_compute; split; congruence|lia|lia|].
  set (g := check_padding _ _ _ _ _) in *.
  assert (word (Z.land g 0xff)) as Hgw by (apply (land_small g 0xff 64); lia).
  rewrite eq_w_spec by (auto; unfold word; lia).
  assert ((0xff =? Z.land g 0xff) = room && bool_decide (zdrop (zlen inp - (p + 1)) inp = zrep (p + 1) p)) as ->.
  { apply Bool.eq_iff_eq_true; rewrite Z.eqb_eq, andb_true_iff, bool_decide_eq_true, (eq_comm 0xff), Hg.
    assert (Z.land (mask_w room) 0xff = 0xff <-> room = true) as -> by (destruct room; vm_compute; split; congruence).
    split; intros [Hr Ha]; (split; [exact Hr|]); unfold room in Hr; apply Z.leb_le in Hr.
    - apply all_padding; [lia|]; intros k Hk; apply Ha; lia.
    - intros k Hk Hkp; rewrite all_padding in Ha by lia; apply Ha; lia. }
  destruct (room && _) eqn:Eg; cbn [mask_w]; unfold CONSTTIME_TRUE_W, CONSTTIME_FALSE_W.
  - apply andb_prop in Eg as [Er _]; unfold room in Er; apply Z.leb_le in Er.
    rewrite Z.land_comm, land_low, (Z.mod_small (u64 _)) by (lia || apply word_u64).
    rewrite (uw_small 64 (p + 1)), uw_small by (pow2; lia); reflexivity.
  - rewrite Z.land_0_l, Z.sub_0_r, uw_small by (pow2; zl_pose; lia); reflexivity.
Qed.

(** Five bytes of padding after three of data and a MAC of two; the same record
    with a wrong byte of padding. *)
Lemma tls_cbc_remove_padding_correct_witness :
  EVP_tls_cbc_remove_padding [7; 8; 9; 1; 2; 4; 4; 4; 4; 4] 16 2 = Some (CONSTTIME_TRUE_W, 5) /\
  EVP_tls_cbc_remove_padding [7; 8; 9; 1; 2; 4; 4; 5; 4; 4] 16 2 = Some (CONSTTIME_FALSE_W, 10).
Proof.
  split.
  - rewrite (tls_cbc_remove_padding_correct [7; 8; 9; 1; 2; 4; 4; 4; 4; 4] 16 2); [reflexivity| |reflexivity|lia].
    repeat constructor; unfold byte; lia.
  - vm_compute; reflexivity.
Defined.

(** * Extraction of the MAC *)

Lemma u8_lor_masks a b : u8 (Z.lor (mask_8 a) (mask_w b)) = mask_8 (a || b).
Proof. now destruct a, b. Qed.

Lemma u8_lnot_mask b : u8 (Z.lnot (mask_8 b)) = mask_8 (negb b).
Proof. now destruct b. Qed.

Lemma land_mask_w (c : bool) x : word x -> Z.land x (mask_w c) = if c then x else 0.
Proof.
  intros Hx; unfold word in Hx; destruct c; cbn [mask_w]; [|apply Z.land_0_r].
  unfold CONSTTIME_TRUE_W; rewrite land_low by lia; now apply Z.mod_small.
Qed.

(** The next index of a walk around a circle. *)
Lemma next_mod m a : 0 < m -> 0 <= a -> let q := a mod m in (if m <=? q + 1 then q + 1 - m else q + 1) = (a + 1) mod m.
Proof.
  intros Hm Ha q; rewrite Zplus_mod; fold q; assert (0 <= q < m) by (apply Z.mod_pos_bound; lia).
  destruct (decide (m = 1)) as [E1|]; [rewrite !E1, Z.mod_1_r; replace q with 0 by lia; reflexivity|].
  rewrite (Z.mod_small 1) by lia; destruct (Z.leb_spec m (q + 1)); [|now rewrite Z.mod_small by lia].
  replace (q + 1) with m by lia; rewrite Z.mod_same by lia; lia.
Qed.

Section Scan.
  Variables (inp : list Z) (scan_start mac_start m : Z).
  Hypothesis inp_bytes : bytes inp.
  Hypothesis inp_len : mac_start + m <= zlen inp < 2 ^ 63.
  Hypothesis m_range : 0 < m <= EVP_MAX_MD_SIZE.
  Hypothesis start_range : 0 <= scan_start <= mac_start.

(** Where the start of the MAC is mapped to, and the index that slot [k] of the
    rotated MAC gets its byte from. *)
Definition rotation : Z := (mac_start - scan_start) mod m.
Definition slot (k : Z) : Z := mac_start + (k - rotation) mod m.

Lemma slot_bounds k : mac_start <= slot k < mac_start + m.
Proof. unfold slot; pose proof (Z.mod_pos_bound (k - rotation) m); lia. Qed.

(** The slot that byte [i] goes to. *)
Lemma slot_of i : mac_start <= i < mac_start + m -> slot ((i - scan_start) mod m) = i.
Proof.
  intros Hi; unfold slot, rotation; rewrite <- Zminus_mod.
  replace (i - scan_start - (mac_start - scan_start)) with (i - mac_start) by lia; rewrite Z.mod_small; lia.
Qed.

Lemma slot_inj i k : 0 <= k < m -> slot k = i -> k = (i - scan_start) mod m.
Proof.
  intros Hk <-; unfold slot, rotation; set (d := mac_start - scan_start).
  replace (mac_start + (k - d mod m) mod m - scan_start) with (d + (k - d mod m) mod m) by (unfold d; lia).
  rewrite Zplus_mod_idemp_r; pose proof (Z.div_mod d m ltac:(lia)).
  replace (d + (k - d mod m)) with (k + d / m * m) by lia; rewrite Z.mod_add, Z.mod_small; lia.
Qed.

(** The rotated MAC when the bytes before [i] have been seen. *)
Definition scanned (i : Z) (mac : list Z) : Prop :=
  zlen mac = EVP_MAX_MD_SIZE /\ forall k, 0 <= k < m -> znth mac k = if slot k <? i then znth inp (slot k) else 0.

Lemma scanned_next i mac : scan_start <= i -> scanned i mac ->
  let q := (i - scan_start) mod m in
  let inside := (mac_start <? i + 1) && negb (mac_start + m <=? i) in
  scanned (i + 1) (zsplice mac q [Z.lor (znth mac q) (if inside then znth inp i else 0)]).
Proof.
  intros Hi [Hl Hs] q inside; assert (0 <= q < m) as Hq by (apply Z.mod_pos_bound; lia).
  pose proof m_range as Hm; unfold scanned, EVP_MAX_MD_SIZE in Hm, Hl |- *; split.
  - rewrite zlen_zsplice; rewrite ?zlen_cons, ?zlen_nil; lia.
  - intros k Hk; rewrite znth_zsplice1 by lia; destruct (Z.eqb_spec k q) as [-> |Hne].
    + rewrite Hs by lia; unfold inside.
      destruct (Z.ltb_spec mac_start (i + 1)), (Z.leb_spec (mac_start + m) i); cbn [andb negb].
      * rewrite Z.lor_0_r; pose proof (slot_bounds q); rewrite !(proj2 (Z.ltb_lt _ _)) by lia; reflexivity.
      * unfold q; rewrite slot_of, Z.ltb_irrefl, (proj2 (Z.ltb_lt i (i + 1))) by lia; apply Z.lor_0_l.
      * lia.
      * rewrite Z.lor_0_r; pose proof (slot_bounds q); rewrite !(proj2 (Z.ltb_ge _ _)) by lia; reflexivity.
    + rewrite Hs by lia; assert (slot k <> i) by (intros E; now apply slot_inj in E).
      replace (slot k <? i + 1) with (slot k <? i); [reflexivity|].
      destruct (Z.ltb_spec (slot k) i), (Z.ltb_spec (slot k) (i + 1)); lia.
Qed.

Lemma scan_mac_spec n : forall i j mac, scan_start <= i -> i + Z.of_nat n <= zlen inp -> 0 <= j <= m ->
  (if m <=? j then j - m else j) = (i - scan_start) mod m -> scanned i mac ->
  let '(_, ro, _, mac') := scan_mac n i m mac_start (mac_start + m) inp
    (j, if mac_start <? i then rotation else 0, mask_8 (mac_start <? i), mac) in
  ro = (if mac_start <? i + Z.of_nat n then rotation else 0) /\ scanned (i + Z.of_nat n) mac'.
Proof.
  pose proof m_range as Hm; unfold EVP_MAX_MD_SIZE in Hm.
  induction n as [|n IH]; intros i j mac Hi Hn Hj Eq Hs; cbn [scan_mac]; [now rewrite Z.add_0_r|].
  rewrite Eq; set (q := (i - scan_start) mod m); assert (0 <= q < m) as Hq by (apply Z.mod_pos_bound; lia).
  rewrite eq_w_spec, ge_8_spec, u8_lnot_mask, u8_lor_masks by (unfold word; pow2; lia).
  assert ((mac_start <? i) || (i =? mac_start) = (mac_start <? i + 1)) as Es by
    (destruct (Z.ltb_spec mac_start i), (Z.eqb_spec i mac_start), (Z.ltb_spec mac_start (i + 1)); cbn; lia || reflexivity).
  rewrite Es, (land_mask_w _ q) by (unfold word; pow2; lia).
  assert (Z.lor (if mac_start <? i then rotation else 0) (if i =? mac_start then q else 0) =
    if mac_start <? i + 1 then rotation else 0) as ->.
  { unfold q, rotation; destruct (Z.ltb_spec mac_start i), (Z.eqb_spec i mac_start) as [E|],
      (Z.ltb_spec mac_start (i + 1)); try lia; rewrite ?Z.lor_0_r, ?Z.lor_0_l, ?E; reflexivity. }
  rewrite (Z.land_comm (znth inp i)), land_mask_8, Z.land_comm, land_mask_8 by
    (try (destruct (mac_start <? i + 1)); try apply bytes_znth; auto; unfold byte; lia).
  replace (if negb (mac_start + m <=? i) then if mac_start <? i + 1 then znth inp i else 0 else 0) with
    (if (mac_start <? i + 1) && negb (mac_start + m <=? i) then znth inp i else 0) by
    (destruct (mac_start <? i + 1), (negb (mac_start + m <=? i)); reflexivity).
  pose proof (scanned_next i mac Hi Hs) as Hs'; cbv zeta in Hs'; fold q in Hs'.
  set (mac' := zsplice mac q _) in *.
  replace (i + Z.of_nat (S n)) with (i + 1 + Z.of_nat n) by lia; apply (IH (i + 1) (q + 1) mac'); auto; try lia.
  replace (i + 1 - scan_start) with (i - scan_start + 1) by lia; now apply next_mod; lia.
Qed.
End Scan.

Section Rotate.
  Variable m : Z.
  Hypothesis m_range : 0 < m <= EVP_MAX_MD_SIZE.

(** The first [m] bytes of an array are the values of [f]. *)
Definition array_is (l : list Z) (f : Z -> Z) : Prop :=
  zlen l = EVP_MAX_MD_SIZE /\ forall k, 0 <= k < m -> znth l k = f k.

Lemma rotate_step_spec (skip : bool) offset mac f : 0 <= offset -> array_is mac f -> (forall k, 0 <= k < m -> byte (f k)) ->
  let g k := if skip then f k else f ((k + offset) mod m) in
  forall n i j tmp, 0 <= i -> i + Z.of_nat n = m -> (if m <=? j then j - m else j) = (i + offset) mod m ->
  zlen tmp = EVP_MAX_MD_SIZE -> (forall k, 0 <= k < i -> znth tmp k = g k) ->
  array_is (rotate_step n i j m (mask_8 skip) mac tmp) g.
Proof.
  intros Ho [Hl Hf] Hb g; pose proof m_range as Hm; unfold EVP_MAX_MD_SIZE in *.
  induction n as [|n IH]; intros i j tmp Hi Hn Ej Ht Hk; cbn [rotate_step].
  - split; [exact Ht|]; intros k Hk'; apply Hk; lia.
  - assert (0 <= (i + offset) mod m < m) as Hj by (apply Z.mod_pos_bound; lia).
    rewrite Ej, !Hf, select_8_spec by (try apply Hb; lia).
    change (if skip then f i else f ((i + offset) mod m)) with (g i).
    apply IH; [lia|lia| | |].
    + rewrite next_mod by lia; f_equal; lia.
    + rewrite zlen_zsplice; rewrite ?zlen_cons, ?zlen_nil; lia.
    + intros k Hk'; rewrite znth_zsplice1 by lia; destruct (Z.eqb_spec k i) as [-> |]; [reflexivity|apply Hk; lia].
Qed.

Lemma array_ext l f g : array_is l f -> (forall k, 0 <= k < m -> f k = g k) -> array_is l g.
Proof. intros [Hl Hf] E; split; [exact Hl|]; intros; rewrite Hf; auto. Qed.

Lemma rotate_mac_spec (orig : Z -> Z) r : (forall k, 0 <= k < m -> byte (orig k)) -> 0 <= r < m ->
  forall fuel t mac tmp, 0 <= t -> m <= 2 ^ t * 2 ^ Z.of_nat fuel ->
  array_is mac (fun k => orig ((k + r mod 2 ^ t) mod m)) -> zlen tmp = EVP_MAX_MD_SIZE ->
  array_is (rotate_mac fuel (2 ^ t) (r / 2 ^ t) m mac tmp) (fun k => orig ((k + r) mod m)).
Proof.
  intros Hb Hr; pose proof m_range as Hm.
  induction fuel as [|fuel IH]; intros t mac tmp Ht Hf Ha Hz; pose proof (Z.pow_pos_nonneg 2 t ltac:(lia) ltac:(lia)) as Hp;
    cbn [rotate_mac].
  { eapply array_ext; [exact Ha|]; intros k Hk; cbv beta; now rewrite (Z.mod_small r) by (cbn in Hf; lia). }
  destruct (Z.ltb_spec (2 ^ t) m) as [Hlt|Hge];
    [|eapply array_ext; [exact Ha|]; intros k Hk; cbv beta; now rewrite (Z.mod_small r) by lia].
  pose proof (Z.mod_pos_bound (r / 2 ^ t) 2 ltac:(lia)) as Hbit; set (bit := (r / 2 ^ t) mod 2) in *.
  assert (u8 (Z.land (r / 2 ^ t) 1 - 1) = mask_8 (bit =? 0)) as ->.
  { rewrite (land_low (r / 2 ^ t) 1 ltac:(lia) : Z.land (r / 2 ^ t) 1 = bit).
    assert (bit = 0 \/ bit = 1) as [-> | ->] by lia; reflexivity. }
  rewrite Z.shiftl_mul_pow2, Z.shiftr_div_pow2, Z.div_div by lia.
  replace (2 ^ t * 2 ^ 1) with (2 ^ (t + 1)) by (now rewrite Z.pow_add_r by lia).
  assert (r mod 2 ^ (t + 1) = r mod 2 ^ t + 2 ^ t * bit) as Er by
    (rewrite Z.pow_add_r by lia; change (2 ^ 1) with 2; apply Z.rem_mul_r; lia).
  apply IH; [lia| | |apply Ha].
  { rewrite Z.pow_add_r by lia; rewrite Nat2Z.inj_succ, Z.pow_succ_r in Hf by lia; lia. }
  eapply array_ext; [apply (rotate_step_spec (bit =? 0) (2 ^ t) mac _ ltac:(lia) Ha)|]; auto; try lia.
  - intros k Hk; apply Hb, Z.mod_pos_bound; lia.
  - rewrite (proj2 (Z.leb_gt _ _)), Z.add_0_l, Z.mod_small by lia; reflexivity.
  - intros k Hk; cbv beta; rewrite Er; destruct (Z.eqb_spec bit 0) as [-> |E0].
    + f_equal; f_equal; lia.
    + rewrite Zplus_mod_idemp_l; f_equal; f_equal; assert (bit = 1) as -> by lia; lia.
Qed.
End Rotate.

(** The MAC is extracted from its secret position: for every record of
    [orig_len] bytes and every length [in_len] that is at most 256 bytes less,
    the [md_size] bytes before [in_len] are copied out. *)
Theorem tls_cbc_copy_mac_correct `{Allocator} (inp : list Z) (md_size in_len : Z) :
  bytes inp -> 0 < md_size <= EVP_MAX_MD_SIZE -> md_size <= in_len <= zlen inp -> zlen inp <= in_len + 256 ->
  zlen inp < 2 ^ 63 ->
  EVP_tls_cbc_copy_mac md_size inp in_len = ztake md_size (zdrop (in_len - md_size) inp).
Proof.
  intros Hb Hm Hi Hp Hz; pose proof Hm as Hm'; unfold EVP_tls_cbc_copy_mac, EVP_MAX_MD_SIZE in *.
  set (scan := if md_size + 255 + 1 <? zlen inp then zlen inp - (md_size + 255 + 1) else 0).
  assert (0 <= scan <= in_len - md_size) as Hs by (unfold scan; destruct (Z.ltb_spec (md_size + 255 + 1) (zlen inp)); lia).
  set (mac_start := in_len - md_size) in *.
  set (mac1 := zsplice (zrep 64 uninit_byte) 0 (zrep md_size 0)).
  assert (scanned inp scan mac_start md_size scan mac1) as Hsc.
  { split.
    - unfold mac1; rewrite zlen_zsplice; rewrite ?zlen_zrep; unfold EVP_MAX_MD_SIZE; lia.
    - intros k Hk; unfold mac1; rewrite zsplice_0, znth_app1, znth_zrep by (rewrite ?zlen_zrep; lia).
      pose proof (slot_bounds scan mac_start md_size Hm k); now rewrite (proj2 (Z.ltb_ge _ _)) by lia. }
  pose proof (scan_mac_spec inp scan mac_start md_size Hb ltac:(lia) Hm Hs (Z.to_nat (zlen inp - scan)) scan 0 mac1
    ltac:(lia) ltac:(lia) ltac:(lia)) as Hscan.
  rewrite (proj2 (Z.ltb_ge mac_start scan)), Z.sub_diag, Zmod_0_l, (proj2 (Z.leb_gt md_size 0)) in Hscan by lia.
  specialize (Hscan eq_refl Hsc); cbn [mask_8] in Hscan; replace (mac_start + md_size) with in_len in Hscan by (unfold mac_start; lia).
  destruct (scan_mac _ _ _ _ _ _ _) as [[[j ro] started] mac]; destruct Hscan as [-> Hmac].
  rewrite Z2Nat.id in Hmac |- * by lia; rewrite (proj2 (Z.ltb_lt _ _)) by lia.
  replace (scan + (zlen inp - scan)) with (zlen inp) in Hmac by lia.
  set (r := rotation scan mac_start md_size) in *; assert (0 <= r < md_size) as Hr by (apply Z.mod_pos_bound; lia).
  assert (array_is md_size mac (fun k => znth inp (slot scan mac_start md_size k))) as Ha.
  { destruct Hmac as [Hl Hk]; split; [exact Hl|]; intros k Hk'; rewrite Hk by exact Hk'.
    pose proof (slot_bounds scan mac_start md_size Hm k); now rewrite (proj2 (Z.ltb_lt _ _)) by lia. }
  pose proof (rotate_mac_spec md_size Hm (fun k => znth inp (slot scan mac_start md_size k)) r
    ltac:(intros; now apply bytes_znth) Hr (Z.to_nat md_size) 0 mac (zrep 64 uninit_byte) ltac:(lia)) as [Hl Hrot].
  { rewrite Z2Nat.id, Z.mul_1_l by lia; pose proof (Z.pow_gt_lin_r 2 md_size); lia. }
  { eapply array_ext; [exact Ha|]; intros k Hk; cbv beta; change (2 ^ 0) with 1.
    now rewrite Z.mod_1_r, Z.add_0_r, (Z.mod_small k) by lia. }
  { now rewrite zlen_zrep by lia. }
  change (2 ^ 0) with 1 in Hl, Hrot; rewrite Z.div_1_r in Hl, Hrot; set (rot := rotate_mac _ _ _ _ _ _) in *.
  unfold EVP_MAX_MD_SIZE in Hl; apply znth_ext; rewrite !zlen_ztake by (rewrite ?zlen_zdrop; lia); [reflexivity|].
  intros k Hk; rewrite !znth_ztake, znth_zdrop, Hrot by lia; f_equal; unfold slot; fold r.
  rewrite Zminus_mod_idemp_l; replace (k + r - r) with k by lia; now rewrite Z.mod_small.
Qed.

(** A MAC of twenty bytes before five bytes of padding. *)
Lemma tls_cbc_copy_mac_correct_witness :
  let A := allocator_total in
  let mac := map Z.of_nat (seq 100 20) in
  EVP_tls_cbc_copy_mac 20 (zrep 10 65 ++ mac ++ zrep 5 4) 30 = mac /\
  EVP_tls_cbc_copy_mac 20 (zrep 10 65 ++ mac ++ zrep 5 4) 30 =
    ztake 20 (zdrop 10 (zrep 10 65 ++ mac ++ zrep 5 4)).
Proof.
  intros A mac; split; [vm_compute; reflexivity|].
  refine (tls_cbc_copy_mac_correct (H := A) (zrep 10 65 ++ mac ++ zrep 5 4) 20 30 _ _ _ _ _).
  - apply bytes_app; split; [apply bytes_zrep; unfold byte; lia|]; apply bytes_app; split; [|apply bytes_zrep; unfold byte; lia].
    repeat constructor; vm_compute; congruence.
  - vm_compute; split; congruence.
  - vm_compute; split; congruence.
  - vm_compute; congruence.
  - reflexivity.
Defined.
