(* ===== verification/TlsCbcMac.v ===== *)
(** The MAC of a CBC record whose length is secret (crypto/cipher_extra/tls_cbc.c,
    modelled in TlsCbc.v): the constant-time hash of a suffix of secret length is
    the ordinary hash, and the MAC of the record is HMAC. *)

From S2P Require Import Prelude Cbs ConstTime Words Md32 Sha2 Sha256 Sha512 Sha1 Md5 Digest Hmac TlsCbc.

(** * The contents of a block *)

Lemma lt_8_spec a b : word a -> word b -> constant_time_lt_8 a b = mask_8 (a <? b).
Proof. intros; unfold constant_time_lt_8; now rewrite lt_w_spec, u8_mask. Qed.

Lemma masked_byte idx len b : word idx -> word len -> byte b ->
  Z.lor (Z.land b (constant_time_lt_8 idx len)) (Z.land 0x80 (constant_time_eq_8 idx len)) =
    if idx <? len then b else if idx =? len then 0x80 else 0.
Proof.
  intros Hi Hl Hb; rewrite lt_8_spec, eq_8_spec, !(Z.land_comm _ (mask_8 _)), !land_mask_8 by (auto; unfold byte; lia).
  destruct (Z.ltb_spec idx len), (Z.eqb_spec idx len); try lia; auto using Z.lor_0_r, Z.lor_0_l.
Qed.

Lemma mask_block_spec block_start input_idx len : 0 <= block_start -> 0 <= input_idx < 2 ^ 60 -> 0 <= len < 2 ^ 60 ->
  forall n j block, block_start <= j -> j + Z.of_nat n = 64 -> zlen block = 64 -> bytes block ->
  let b := mask_block n j block_start input_idx len block in
  zlen b = 64 /\ bytes b /\ forall k, 0 <= k < 64 -> znth b k =
    if k <? j then znth block k
    else let idx := input_idx + k - block_start in if idx <? len then znth block k else if idx =? len then 0x80 else 0.
Proof.
  intros Hs Hi Hl; induction n as [|n IH]; intros j block Hj Hn Hz Hb; cbn [mask_block]; cbv zeta.
  - split; [exact Hz|split; [exact Hb|]]; intros k Hk; now rewrite (proj2 (Z.ltb_lt _ _)) by lia.
  - rewrite (uw_small 64 (input_idx + j)), uw_small by (pow2; lia).
    assert (byte (znth block j)) as Hbj by now apply bytes_znth.
    rewrite masked_byte by (auto; unfold word; pow2; lia); 
    set (v := if input_idx + j - block_start <? len then znth block j else if input_idx + j - block_start =? len then 0x80 else 0).
    assert (byte v) as Hv by (unfold v; case_if; [|case_if]; auto; unfold byte; lia).
    destruct (IH (j + 1) (zsplice block j [v])) as (H1 & H2 & H3); [lia|lia| | |].
    + rewrite zlen_zsplice; rewrite ?zlen_cons, ?zlen_nil; lia.
    + unfold zsplice; apply bytes_app; split; [now apply bytes_ztake|]; apply bytes_cons; split; [exact Hv|now apply bytes_zdrop].
    + split; [exact H1|split; [exact H2|]]; intros k Hk; rewrite H3, znth_zsplice1 by lia.
      destruct (Z.eqb_spec k j) as [-> |Hne].
      * rewrite Z.ltb_irrefl, (proj2 (Z.ltb_lt j (j + 1))) by lia; reflexivity.
      * replace (k <? j + 1) with (k <? j); [reflexivity|]; destruct (Z.ltb_spec k j), (Z.ltb_spec k (j + 1)); lia.
Qed.

Lemma znth_zip_with f (a b : list Z) i : 0 <= i < zlen a -> i < zlen b -> znth (zip_with f a b) i = f (znth a i) (znth b i).
Proof.
  intros Ha Hb; unfold zlen in *.
  destruct (lookup_lt_is_Some_2 a (Z.to_nat i) ltac:(lia)) as [x Ex], (lookup_lt_is_Some_2 b (Z.to_nat i) ltac:(lia)) as [y Ey].
  rewrite !znth_lookup, lookup_zip_with, Ex, Ey; reflexivity.
Qed.

Lemma bytes_zip_u8 g (a : list Z) : forall b : list Z, bytes (zip_with (fun x y => u8 (g x y)) a b).
Proof. induction a as [|x a IH]; intros [|y b]; cbn; constructor; auto; apply u8_byte. Qed.

(** The bytes [l] followed by zeros without end. *)
Definition zero_ext (l : list Z) (q : Z) : Z := if q <? zlen l then znth l q else 0.

Section Fill.
  Variables (ctx : md_state) (part inp : list Z) (len last bits : Z).
  Hypothesis part_ok : bytes part /\ zlen part < 64 /\ num ctx = zlen part /\ ztake (zlen part) (data ctx) = part.
  Hypothesis inp_ok : bytes inp /\ zlen inp < 2 ^ 40 /\ 0 <= len <= zlen inp.
  Hypothesis last_ok : 0 <= last < 2 ^ 40.

Definition body : list Z := part ++ ztake len inp ++ [0x80].

Lemma zlen_body : zlen body = zlen part + len + 1.
Proof. unfold body; rewrite !zlen_app, zlen_ztake by lia; rewrite zlen_cons, zlen_nil; lia. Qed.

(** The bytes of the suffix, as the masks leave them. *)
Lemma body_suffix idx b : 0 <= idx -> (idx < len -> b = znth inp idx) ->
  (if idx <? len then b else if idx =? len then 0x80 else 0) = zero_ext body (zlen part + idx).
Proof.
  intros Hi Hb; unfold zero_ext; rewrite zlen_body; unfold body.
  assert (zlen (ztake len inp) = len) as Ht by (apply zlen_ztake; lia).
  destruct (Z.ltb_spec idx len).
  - rewrite (proj2 (Z.ltb_lt _ _)), znth_app2, znth_app1, znth_ztake by (rewrite ?Ht; lia).
    rewrite Hb by lia; f_equal; lia.
  - destruct (Z.eqb_spec idx len) as [-> |]; [|now rewrite (proj2 (Z.ltb_ge _ _)) by lia].
    rewrite (proj2 (Z.ltb_lt _ _)), znth_app2, znth_app2 by (rewrite ?Ht; lia).
    rewrite Ht; replace (zlen part + len - zlen part - len) with 0 by lia; reflexivity.
Qed.

(** The index into [inp] at the start of block [i]. *)
Definition idx_at (i : Z) : Z := if i =? 0 then 0 else 64 * i - zlen part.
Definition start_at (i : Z) : Z := if i =? 0 then zlen part else 0.

Lemma idx_start i k : 0 <= i -> idx_at i + k - start_at i = 64 * i + k - zlen part.
Proof. intros Hi; unfold idx_at, start_at; destruct (Z.eqb_spec i 0); lia. Qed.

Lemma bytes_zsplice buf off d : bytes buf -> bytes d -> bytes (zsplice buf off d).
Proof. intros Hb Hd; unfold zsplice; apply bytes_app; split; auto with zlist; apply bytes_app; split; auto with zlist. Qed.

(** The block after the two copies: the part that was kept, then input. *)
Lemma copied_block i block : 0 <= i -> zlen block = 64 -> bytes block ->
  let bs := start_at i in
  let block := if i =? 0 then zsplice block 0 (ztake (num ctx) (data ctx)) else block in
  let to_copy := if zlen inp - idx_at i <? 64 - bs then zlen inp - idx_at i else 64 - bs in
  let b := if idx_at i <? zlen inp then zsplice block bs (ztake to_copy (zdrop (idx_at i) inp)) else block in
  zlen b = 64 /\ bytes b /\ (forall k, 0 <= k < bs -> znth b k = znth part k) /\
  (forall k, bs <= k < 64 -> idx_at i + k - bs < zlen inp -> znth b k = znth inp (idx_at i + k - bs)).
Proof.
  intros Hi Hz Hb; destruct part_ok as (Hp & Hpl & En & Hpd); destruct inp_ok as (Hib & Hil & Hl).
  rewrite En, Hpd; intros bs b0 to_copy b; pose proof (zlen_nonneg part) as Hp0.
  assert (0 <= bs <= 63 /\ 0 <= idx_at i /\ (i = 0 -> idx_at i = 0 /\ bs = zlen part) /\ (i <> 0 -> bs = 0)) as (Hbs & Hidx & Hi0 & Hi1) by
    (unfold bs, start_at, idx_at; destruct (Z.eqb_spec i 0); lia).
  assert (zlen b0 = 64 /\ bytes b0 /\ forall k, 0 <= k < bs -> znth b0 k = znth part k) as (Hz0 & Hb0 & Hk0).
  { unfold b0; destruct (Z.eqb_spec i 0) as [E|E]; [destruct (Hi0 E) as [_ ->]|rewrite (Hi1 E); split; [|split]; auto; lia].
    rewrite zlen_zsplice by lia; split; [exact Hz|split; [now apply bytes_zsplice|]].
    intros k Hk; rewrite zsplice_0, znth_app1 by lia; reflexivity. }
  unfold b; destruct (Z.ltb_spec (idx_at i) (zlen inp)) as [Hlt|Hge]; [|split; [|split; [|split]]; auto; intros; lia].
  assert (0 < to_copy <= 64 - bs /\ to_copy <= zlen inp - idx_at i /\ (to_copy = 64 - bs \/ to_copy = zlen inp - idx_at i)) as (Ht1 & Ht2 & Ht3) by
    (unfold to_copy; destruct (Z.ltb_spec (zlen inp - idx_at i) (64 - bs)); lia).
  assert (zlen (ztake to_copy (zdrop (idx_at i) inp)) = to_copy) as Hzt by (rewrite zlen_ztake; rewrite ?zlen_zdrop; lia).
  split; [rewrite zlen_zsplice; lia|split; [apply bytes_zsplice; auto with zlist|]].
  unfold zsplice; split; intros k Hk.
  - rewrite znth_app1, znth_ztake by (rewrite ?zlen_ztake; lia); now apply Hk0.
  - intros Hk2; assert (zlen (ztake bs b0) = bs) as Hzb by (apply zlen_ztake; lia).
    rewrite znth_app2, znth_app1, znth_ztake, znth_zdrop by lia; f_equal; lia.
Qed.

(** The whole block: the bytes of the body and zeros; in the last block the
    length is put in. *)
Lemma fill_block_spec i block : 0 <= i < 2 ^ 40 -> zlen block = 64 -> bytes block ->
  exists b, fill_block i inp len last (be_enc 4 bits) ctx block (idx_at i) = (b, idx_at (i + 1)) /\
  zlen b = 64 /\ bytes b /\
  forall k, 0 <= k < 64 -> znth b k =
    if 60 <=? k then u8 (Z.lor (zero_ext body (64 * i + k)) (if i =? last then znth (be_enc 4 bits) (k - 60) else 0))
    else zero_ext body (64 * i + k).
Proof.
  intros Hi Hz Hb; destruct (copied_block i block ltac:(lia) Hz Hb) as (Hz1 & Hb1 & Hk1 & Hk2).
  destruct part_ok as (Hp & Hpl & En & Hpd); destruct inp_ok as (Hib & Hil & Hl); pose proof (zlen_nonneg part) as Hp0.
  unfold fill_block.
  replace (if i =? 0 then (zsplice block 0 (ztake (num ctx) (data ctx)), num ctx) else (block, 0)) with
    (if i =? 0 then zsplice block 0 (ztake (num ctx) (data ctx)) else block, start_at i) by
    (unfold start_at; rewrite En; destruct (i =? 0); reflexivity).
  set (b1 := if idx_at i <? zlen inp then _ else _) in *.
  assert (0 <= start_at i <= 63 /\ 0 <= idx_at i < 2 ^ 50) as (Hs & Hidx) by
    (unfold start_at, idx_at; destruct (Z.eqb_spec i 0); pow2; lia).
  destruct (mask_block_spec (start_at i) (idx_at i) len ltac:(lia) ltac:(pow2; lia) ltac:(pow2; lia)
    (Z.to_nat (64 - start_at i)) (start_at i) b1 ltac:(lia) ltac:(lia) Hz1 Hb1) as (Hz2 & Hb2 & Hk3).
  set (b2 := mask_block _ _ _ _ _ _) in *.
  assert (forall k, 0 <= k < 64 -> znth b2 k = zero_ext body (64 * i + k)) as Hbody.
  { intros k Hk; rewrite Hk3 by exact Hk; cbv zeta; destruct (Z.ltb_spec k (start_at i)) as [Hlt|Hge].
    - rewrite Hk1 by lia; unfold start_at in Hlt; destruct (Z.eqb_spec i 0) as [-> |]; [|lia].
      unfold zero_ext; rewrite zlen_body, (proj2 (Z.ltb_lt _ _)) by lia; unfold body; now rewrite Z.add_0_l, znth_app1 by lia.
    - replace (64 * i + k) with (zlen part + (idx_at i + k - start_at i)) by (rewrite idx_start; lia).
      apply body_suffix; [unfold idx_at, start_at in *; destruct (Z.eqb_spec i 0); lia|]; intros; apply Hk2; lia. }
  rewrite eq_w_spec by (unfold word; pow2; lia); set (f := fun b l => u8 _).
  assert (zlen (zip_with f (zdrop 60 b2) (be_enc 4 bits)) = 4) as Hzw.
  { pose proof (zlen_zdrop 60 b2); unfold zlen in *; rewrite length_zip_with, length_be_enc; lia. }
  eexists; split; [apply f_equal; unfold idx_at, start_at; destruct (Z.eqb_spec i 0), (Z.eqb_spec (i + 1) 0);
    try lia; rewrite uw_small by (pow2; lia); lia|].
  split; [rewrite zlen_zsplice; lia|split; [apply bytes_zsplice; auto; apply bytes_zip_u8|]].
  intros k Hk; unfold zsplice; destruct (Z.leb_spec 60 k).
  - rewrite znth_app2, znth_app1 by (rewrite ?zlen_ztake; lia); rewrite zlen_ztake by lia.
    rewrite znth_zip_with by (rewrite ?zlen_zdrop, ?zlen_be_enc; lia); unfold f.
    rewrite znth_zdrop, (Z.land_comm (mask_w _)), land_mask_w by (lia || (pose proof (bytes_znth _ (k - 60) (bytes_be_enc 4 bits)); unfold byte, word in *; pow2; lia)).
    replace (60 + (k - 60)) with k by lia; now rewrite Hbody.
  - rewrite znth_app1, znth_ztake by (rewrite ?zlen_ztake; lia); now apply Hbody.
Qed.
End Fill.

(** * The loop over the blocks *)

Definition words32 (n : Z) (l : list Z) : Prop := zlen l = n /\ Forall (fun x => 0 <= x < 2 ^ 32) l.

(** [result] takes over the chaining value at the last block only. *)
Lemma take_result (last : bool) (result x : list Z) n : words32 n result -> words32 n x ->
  (last = true -> result = zrep n 0) ->
  zip_with (fun r x => u32 (Z.lor r (Z.land (mask_w last) x))) result x = if last then x else result.
Proof.
  intros [Hr1 Hr2] [Hx1 Hx2] Hl; apply znth_ext.
  - destruct last; unfold zlen in *; rewrite length_zip_with; lia.
  - assert (zlen (zip_with (fun r x => u32 (Z.lor r (Z.land (mask_w last) x))) result x) = n) as Hz by
      (unfold zlen in *; rewrite length_zip_with; lia).
    rewrite Hz; intros i Hi; rewrite znth_zip_with, Z.land_comm by lia.
    assert (0 <= znth result i < 2 ^ 32 /\ 0 <= znth x i < 2 ^ 32) as [H1 H2].
    { rewrite Forall_lookup in Hr2, Hx2; rewrite !znth_lookup.
      destruct (lookup_lt_is_Some_2 result (Z.to_nat i)) as [a Ea]; [unfold zlen in *; lia|].
      destruct (lookup_lt_is_Some_2 x (Z.to_nat i)) as [b Eb]; [unfold zlen in *; lia|].
      rewrite Ea, Eb; split; [apply (Hr2 _ _ Ea)|apply (Hx2 _ _ Eb)]. }
    rewrite land_mask_w by (unfold word; pow2; lia); destruct last.
    + rewrite (Hl eq_refl), znth_zrep, Z.lor_0_l by lia; now apply uw_small.
    + rewrite Z.lor_0_r; now apply uw_small.
Qed.

(** The four bytes of the length. *)
Lemma length_bytes v : 0 <= v < 2 ^ 32 -> [u8 (Z.shiftr v 24); u8 (Z.shiftr v 16); u8 (Z.shiftr v 8); u8 v] = be_enc 4 v.
Proof.
  intros Hv; cbn [be_enc app]; rewrite !Z.shiftr_div_pow2 by lia; unfold uw; rewrite ?Z.div_div by lia; reflexivity.
Qed.

Lemma store_words l : Forall (fun x => 0 <= x < 2 ^ 32) l -> map CRYPTO_store_u32_be l = map (be_enc 4) l.
Proof. induction 1 as [|x l Hx _ IH]; cbn [map]; [reflexivity|]; now rewrite store_u32_be_spec, IH. Qed.

Section Suffix.
  Context (bf : block_fn) {HB : BlockFunc bf 64}.
  Variables (transform : md_state -> list Z -> md_state) (words : Z).
  Hypothesis transform_ok : forall c b,
    h (transform c b) = bf (h c) b 1 /\ data (transform c b) = data c /\ num (transform c b) = num c.
  Hypothesis words_ok : forall st b, bytes b -> zlen b = 64 -> words32 words (bf st b 1).
  Hypothesis words_pos : 0 <= words.

Abbreviation absorb64 := (absorb (block_func := bf) (block_size := 64)).

Lemma absorb_next h0 Q i : 0 <= i -> 64 * (i + 1) <= zlen Q ->
  absorb64 h0 Q (i + 1) = bf (absorb64 h0 Q i) (ztake 64 (zdrop (64 * i) Q)) 1.
Proof.
  intros Hi Hl; rewrite <- (ztake_zdrop (64 * i) Q) at 1 2.
  assert (zlen (ztake (64 * i) Q) = i * 64) as Ht by (rewrite zlen_ztake; lia).
  rewrite absorb_split, (absorb_extra h0 (ztake (64 * i) Q)), absorb_1 by lia.
  rewrite <- (ztake_zdrop 64 (zdrop (64 * i) Q)) at 1.
  apply block_func_prefix; apply zlen_ztake; rewrite zlen_zdrop; lia.
Qed.

Section Loop.
  Variables (part inp : list Z) (len last bits z : Z) (h0 dd : list Z).
  Hypothesis part_ok : bytes part /\ zlen part < 64 /\ ztake (zlen part) dd = part.
  Hypothesis inp_ok : bytes inp /\ zlen inp < 2 ^ 40 /\ 0 <= len <= zlen inp.
  Hypothesis last_ok : 0 <= last < 2 ^ 39.
  Hypothesis z_ok : 4 <= z /\ zlen part + len + 1 + z + 4 = 64 * (last + 1).

Definition padded : list Z := body part inp len ++ zrep z 0 ++ be_enc 4 bits.

Lemma zlen_padded : zlen padded = 64 * (last + 1).
Proof.
  unfold padded; rewrite !zlen_app, zlen_be_enc, zlen_zrep by lia.
  rewrite (zlen_body part inp len inp_ok); lia.
Qed.

Lemma padded_nth q : 0 <= q < 64 * (last + 1) ->
  znth padded q = if q <? 64 * (last + 1) - 4 then zero_ext (body part inp len) q else znth (be_enc 4 bits) (q - (64 * (last + 1) - 4)).
Proof.
  intros Hq; unfold padded, zero_ext; pose proof (zlen_body part inp len inp_ok) as Hb.
  destruct (Z.ltb_spec q (zlen (body part inp len))); [now rewrite (proj2 (Z.ltb_lt _ _)), znth_app1 by lia|].
  rewrite znth_app2 by lia; destruct (Z.ltb_spec q (64 * (last + 1) - 4)).
  - rewrite znth_app1, znth_zrep by (rewrite ?zlen_zrep; lia); reflexivity.
  - rewrite znth_app2 by (rewrite zlen_zrep; lia); rewrite zlen_zrep by lia; f_equal; lia.
Qed.

(** Up to the last block, the blocks are those of the padded message. *)
Lemma fill_block_padded ctx i block : num ctx = zlen part -> data ctx = dd -> 0 <= i < 2 ^ 40 -> zlen block = 64 -> bytes block ->
  exists b, fill_block i inp len last (be_enc 4 bits) ctx block (idx_at part i) = (b, idx_at part (i + 1)) /\
  zlen b = 64 /\ bytes b /\ (i <= last -> b = ztake 64 (zdrop (64 * i) padded)).
Proof.
  intros En Ed Hi Hz Hb; destruct part_ok as (Hp1 & Hp2 & Hp3).
  destruct (fill_block_spec ctx part inp len last bits) with (i := i) (block := block) as (b & -> & Hz' & Hb' & Hk); auto.
  - now rewrite Ed.
  - pow2; lia.
  - eexists; split; [reflexivity|split; [exact Hz'|split; [exact Hb'|]]]; intros Hl; pose proof zlen_padded as Hpz.
    assert (zlen (ztake 64 (zdrop (64 * i) padded)) = 64) as Ht by (apply zlen_ztake; rewrite zlen_zdrop; lia).
    apply znth_ext; [lia|]; rewrite Hz'; intros k Hk'; rewrite Hk, znth_ztake, znth_zdrop, padded_nth by lia.
    pose proof (zlen_body part inp len inp_ok) as Hbl.
    assert (forall q, 64 * (last + 1) - 8 <= q -> zero_ext (body part inp len) q = 0) as Hzero by
      (intros; unfold zero_ext; now rewrite (proj2 (Z.ltb_ge _ _)) by lia).
    assert (byte (zero_ext (body part inp len) (64 * i + k))) as Hbyte.
    { unfold zero_ext; case_if; [apply bytes_znth|unfold byte; lia]; unfold body.
      repeat (apply bytes_app; split); auto with zlist; [apply bytes_ztake; apply inp_ok|repeat constructor; unfold byte; lia]. }
    destruct (Z.leb_spec 60 k), (Z.eqb_spec i last), (Z.ltb_spec (64 * i + k) (64 * (last + 1) - 4)); try lia; auto.
    + rewrite Hzero, Z.lor_0_l, u8_id by (lia || apply bytes_znth, bytes_be_enc); f_equal; lia.
    + rewrite Z.lor_0_r; now apply u8_id.
Qed.

Lemma suffix_blocks_spec n : forall i ctx block result, num ctx = zlen part -> data ctx = dd ->
  0 <= i -> i + Z.of_nat n <= 2 ^ 40 -> last < i + Z.of_nat n -> zlen block = 64 -> bytes block -> words32 words result ->
  (i <= last + 1 -> h ctx = absorb64 h0 padded i) -> (if last <? i then result = absorb64 h0 padded (last + 1) else result = zrep words 0) ->
  fst (suffix_blocks transform n i inp len last (be_enc 4 bits) ctx block (idx_at part i) result) = absorb64 h0 padded (last + 1).
Proof.
  induction n as [|n IH]; intros i ctx block result En Ed Hi Hn Hlast Hz Hb Hw Hh Hr; cbn [suffix_blocks].
  { rewrite (proj2 (Z.ltb_lt _ _)) in Hr by lia; exact Hr. }
  destruct (fill_block_padded ctx i block En Ed ltac:(lia) Hz Hb) as (b & -> & Hz' & Hb' & Hpad).
  destruct (transform_ok ctx b) as (Eh & Ed' & En'); rewrite Eh; set (h' := bf (h ctx) b 1) in *.
  assert (words32 words h') as Hw' by (apply words_ok; auto).
  assert (i <= last -> h' = absorb64 h0 padded (i + 1)) as Hh'.
  { intros Hl; unfold h'; rewrite absorb_next by (rewrite ?zlen_padded; lia); now rewrite <- Hpad, Hh by lia. }
  rewrite eq_w_spec by (unfold word; pow2; lia).
  rewrite (take_result _ _ _ words) by
    (auto; intros E%Z.eqb_eq; rewrite (proj2 (Z.ltb_ge _ _)) in Hr by lia; exact Hr).
  apply IH; rewrite ?Ed', ?En', ?Eh; auto; try lia.
  - destruct (i =? last); auto.
  - intros Hl; apply Hh'; lia.
  - destruct (Z.eqb_spec i last) as [E|E], (Z.ltb_spec last i), (Z.ltb_spec last (i + 1)); try lia; auto.
    rewrite <- E; apply Hh'; lia.
Qed.
End Loop.

(** The padding that the masks produce is that of the hash function. *)
Lemma padded_is_pad blocks part inp len n nb : zlen blocks = n * 64 -> 0 <= len <= zlen inp ->
  8 * (zlen blocks + zlen part + len) < 2 ^ 32 ->
  64 * (nb - 1) < zlen part + len + 9 <= 64 * nb ->
  md_pad (block_size := 64) true ((blocks ++ part) ++ ztake len inp) =
    blocks ++ padded part inp len (8 * (zlen blocks + zlen part + len)) (64 * nb - (zlen part + len + 1) - 4).
Proof.
  intros Hb Hl Hs Hnb; unfold md_pad, pad_with, md_trailer, padded, body.
  pose proof (zlen_nonneg blocks); pose proof (zlen_nonneg part).
  rewrite zlen_be_enc, !zlen_app, zlen_ztake by lia; set (bits := 8 * (zlen blocks + zlen part + len)).
  rewrite (Z.mod_small bits) by (unfold bits; pow2; lia).
  replace ((64 - 1 - Z.of_nat 8 - (zlen blocks + zlen part + len)) mod 64) with (64 * nb - (zlen part + len + 1) - 4 - 4) by
    (apply Z.mod_unique with (1 - n - nb); lia).
  pose proof (be_enc_app 4 4 0 bits ltac:(unfold bits; change (256 ^ Z.of_nat 4) with (2 ^ 32); lia)) as E.
  rewrite Z.mul_0_l, Z.add_0_l in E; change (4 + 4)%nat with 8%nat in E; rewrite E; change (be_enc 4 0) with (zrep 4 0).
  rewrite (app_assoc (zrep _ 0) (zrep 4 0)), zrep_app by lia.
  replace (64 * nb - (zlen part + len + 1) - 4 - 4 + 4) with (64 * nb - (zlen part + len + 1) - 4) by lia.
  now rewrite <- !app_assoc.
Qed.

Lemma suffix_hash iv blocks part inp len n nb : zlen blocks = n * 64 -> 0 <= n -> 0 <= len <= zlen inp -> bytes part -> bytes inp ->
  8 * (zlen blocks + zlen part + len) < 2 ^ 32 -> 64 * (nb - 1) < zlen part + len + 9 <= 64 * nb -> 0 < nb ->
  let x := absorb64 (absorb64 iv blocks n)
    (padded part inp len (8 * (zlen blocks + zlen part + len)) (64 * nb - (zlen part + len + 1) - 4)) (nb - 1 + 1) in
  x = md_hash (block_func := bf) (block_size := 64) true iv ((blocks ++ part) ++ ztake len inp) /\ words32 words x.
Proof.
  intros Hb Hn Hl Hbp Hbi Hs Hnb Hnb0 x; pose proof (zlen_nonneg part); unfold x; clear x.
  set (z := 64 * nb - (zlen part + len + 1) - 4); set (bits := 8 * (zlen blocks + zlen part + len)).
  assert (zlen (padded part inp len bits z) = nb * 64) as Hz.
  { unfold padded, body; rewrite !zlen_app, zlen_ztake, zlen_be_enc, zlen_zrep, zlen_cons, zlen_nil by (unfold z; lia); unfold z; lia. }
  split.
  - replace (nb - 1 + 1) with nb by lia; apply hash_of_blocks; auto; [lia|]; now apply (padded_is_pad blocks part inp len n nb).
  - rewrite absorb_next by lia; apply words_ok; [|rewrite zlen_ztake; rewrite ?zlen_zdrop; lia].
    apply bytes_ztake, bytes_zdrop; unfold padded, body; rewrite !bytes_app.
    split; [split; [|split; [now apply bytes_ztake|]]|split; [|apply bytes_be_enc]]; auto;
      [repeat constructor; unfold byte; lia|apply bytes_zrep; unfold byte; lia].
Qed.

(** The whole function: the hash of the message and of the first [len] bytes
    of the suffix, unless the counters could overflow. *)
Lemma final_with_secret_suffix_spec iv ctx msg inp len :
  absorbs (block_func := bf) (block_size := 64) iv ctx msg -> bytes msg -> zlen msg < 2 ^ 60 ->
  bytes inp -> zlen inp < 2 ^ 60 -> 0 <= len <= zlen inp ->
  fst (final_with_secret_suffix transform words ctx inp len) =
    if 8 * (zlen msg + zlen inp) <? 2 ^ 32
    then Some (concat (map (be_enc 4) (md_hash (block_func := bf) (block_size := 64) true iv (msg ++ ztake len inp)))) else None.
Proof.
  intros [Hh [Hnl Hnh] Hbits] Hm Hmz Hi Hiz Hl; unfold final_with_secret_suffix.
  pose proof (zlen_nonneg msg) as Hm0; rewrite (Z.mod_small (8 * _)) in Hbits by (pow2; lia).
  rewrite !Z.shiftl_mul_pow2 by lia; change (2 ^ 3) with 8; rewrite (uw_small 64 (zlen inp * 8)) by (pow2; lia).
  rewrite Z.shiftr_div_pow2 by lia; change (2 ^ 3) with 8; rewrite Z.div_mul, Z.eqb_refl by lia; cbn [negb orb].
  rewrite (uw_small 64 (Nl ctx + zlen inp * 8)) by (pow2; lia).
  rewrite (proj2 (Z.ltb_ge (Nl ctx + zlen inp * 8) _)) by lia; rewrite !orb_false_r.
  replace (negb (Nh ctx =? 0) || (2 ^ 32 - 1 <? Nl ctx + zlen inp * 8)) with (2 ^ 32 <=? 8 * (zlen msg + zlen inp)) by
    (destruct (Z.eqb_spec (Nh ctx) 0) as [E|E], (Z.ltb_spec (2 ^ 32 - 1) (Nl ctx + zlen inp * 8)),
       (Z.leb_spec (2 ^ 32) (8 * (zlen msg + zlen inp))); cbn [negb orb]; auto; rewrite ?E in Hbits; lia).
  rewrite Z.leb_antisym; destruct (Z.ltb_spec (8 * (zlen msg + zlen inp)) (2 ^ 32)) as [Hsmall|Hbig]; cbn [negb]; [|reflexivity].
  assert (Nh ctx = 0) as E0 by (pow2; lia); rewrite E0 in Hbits.
  destruct Hh as (Hd & blocks & part & n & -> & Hn & Hbl & Hpl & Eh & En & Hpart).
  apply bytes_app in Hm as [Hbb Hbp]; rewrite zlen_app in *; pose proof (zlen_nonneg part); pose proof (zlen_nonneg blocks).
  rewrite !(uw_small 64 (num ctx + _ + 1 + 8 + 64 - 1)), !(Z.shiftr_div_pow2 (num ctx + _ + 1 + 8 + 64 - 1) 6) by (pow2; lia); change (2 ^ 6) with 64; rewrite En.
  pose proof (Z.div_mod (zlen part + len + 1 + 8 + 64 - 1) 64 ltac:(lia)).
  pose proof (Z.mod_pos_bound (zlen part + len + 1 + 8 + 64 - 1) 64 ltac:(lia)).
  pose proof (Z.div_mod (zlen part + zlen inp + 1 + 8 + 64 - 1) 64 ltac:(lia)).
  pose proof (Z.mod_pos_bound (zlen part + zlen inp + 1 + 8 + 64 - 1) 64 ltac:(lia)).
  set (nb := (zlen part + len + 1 + 8 + 64 - 1) / 64) in *; set (mb := (zlen part + zlen inp + 1 + 8 + 64 - 1) / 64) in *.
  assert (64 * (nb - 1) < zlen part + len + 9 <= 64 * nb /\ nb <= mb /\ 0 < nb /\ mb < 2 ^ 35) as (Hnb & Hmb & Hnb0 & Hmb1) by (pow2; lia).
  rewrite (uw_small 64 (nb - 1)), (uw_small 64 (len * 8)) by (pow2; lia).
  rewrite (uw_small 64 (Nl ctx + len * 8)) by (pow2; lia).
  replace (Nl ctx + len * 8) with (8 * (zlen blocks + zlen part + len)) by lia; rewrite length_bytes by (pow2; lia).
  set (bits := 8 * (zlen blocks + zlen part + len)); set (z := 64 * nb - (zlen part + len + 1) - 4).
  pose proof (suffix_blocks_spec part inp len (nb - 1) bits z (h ctx) (data ctx) (conj Hbp (conj Hpl Hpart))
    ltac:(split; [auto|split; [pow2; lia|auto]]) ltac:(pow2; lia) ltac:(unfold z; lia) (Z.to_nat mb) 0 ctx (zrep 64 0) (zrep words 0)
    En eq_refl ltac:(lia) ltac:(pow2; lia) ltac:(lia) ltac:(now rewrite zlen_zrep) ltac:(apply bytes_zrep; unfold byte; lia)) as Hrun.
  rewrite (proj2 (Z.ltb_ge (nb - 1) 0)) in Hrun by lia; change (idx_at part 0) with 0 in Hrun.
  specialize (Hrun ltac:(split; [now rewrite zlen_zrep|apply Forall_replicate; pow2; lia]) ltac:(reflexivity) eq_refl).
  destruct (suffix_blocks _ _ _ _ _ _ _ _ _ _ _) as [result ctx']; cbn [fst] in Hrun |- *; apply f_equal.
  destruct (suffix_hash iv blocks part inp len n nb) as [E Hw]; auto; [lia|].
  fold bits z in E, Hw; rewrite <- Eh, <- Hrun in E, Hw; rewrite <- E; now rewrite (store_words result (proj2 Hw)).
Qed.
End Suffix.

(** * The two hash functions *)

Lemma sha1_suffix_spec ctx msg inp len : absorbs1 sha1_iv ctx msg -> bytes msg -> zlen msg < 2 ^ 60 ->
  bytes inp -> zlen inp < 2 ^ 60 -> 0 <= len <= zlen inp ->
  fst (EVP_sha1_final_with_secret_suffix ctx inp len) =
    if 8 * (zlen msg + zlen inp) <? 2 ^ 32 then Some (sha1_spec (msg ++ ztake len inp)) else None.
Proof.
  intros Ha Hm Hmz Hi Hiz Hl; unfold EVP_sha1_final_with_secret_suffix.
  assert (forall st b, bytes b -> zlen b = 64 -> words32 5 (sha1_block_data_order st b 1)) as Hw.
  { intros st b Hb Hz; rewrite sha1_one by (auto; unfold SHA_CBLOCK; lia).
    destruct (sha1_compress_words st (be_words 4 (ztake SHA_CBLOCK b))) as (? & ? & ? & ? & ? & -> & Hf); now split. }
  assert (forall c b, h (SHA1_Transform c b) = sha1_block_data_order (h c) b 1 /\ data (SHA1_Transform c b) = data c /\
    num (SHA1_Transform c b) = num c) as Ht by (intros; unfold SHA1_Transform; cbn [h data num]; auto).
  rewrite (final_with_secret_suffix_spec sha1_block_data_order SHA1_Transform 5 Ht Hw
    ltac:(lia) sha1_iv ctx msg inp len Ha Hm Hmz Hi Hiz Hl).
  destruct (_ <? _); [|reflexivity]; unfold sha1_spec; apply f_equal, f_equal, f_equal.
  refine (md_hash_spec _ _ (fun state block => sha1_compress state (be_words 4 block)) true sha1_iv _ sha1_one _).
  apply bytes_app; split; auto with zlist.
Qed.

Lemma sha256_suffix_spec ctx msg inp len : absorbs256 sha256_iv (sha_md ctx) msg -> bytes msg -> zlen msg < 2 ^ 60 ->
  bytes inp -> zlen inp < 2 ^ 60 -> 0 <= len <= zlen inp ->
  fst (EVP_sha256_final_with_secret_suffix ctx inp len) =
    if 8 * (zlen msg + zlen inp) <? 2 ^ 32 then Some (sha256_spec sha256_iv 32 (msg ++ ztake len inp)) else None.
Proof.
  intros Ha Hm Hmz Hi Hiz Hl; unfold EVP_sha256_final_with_secret_suffix.
  set (transform := fun c block => sha_md (SHA256_Transform {| sha_md := c; md_len := md_len ctx |} block)).
  assert (forall st b, bytes b -> zlen b = 64 -> words32 8 (sha256_block_data_order st b 1)) as Hw.
  { intros st b Hb Hz; rewrite sha256_one by (auto; unfold SHA256_CBLOCK; lia).
    unfold sha256_compress, fips_compress; set (r := fips_rounds _ _ _ _ _ _ _ _).
    destruct (add_regs_words 32 st r ltac:(lia)) as [Hl1 Hf]; split; [unfold zlen; now rewrite Hl1|exact Hf]. }
  assert (forall c b, h (transform c b) = sha256_block_data_order (h c) b 1 /\ data (transform c b) = data c /\
    num (transform c b) = num c) as Ht by
    (intros; unfold transform, SHA256_Transform; cbn [h data num sha_md]; auto).
  pose proof (final_with_secret_suffix_spec sha256_block_data_order transform 8 Ht Hw
    ltac:(lia) sha256_iv (sha_md ctx) msg inp len Ha Hm Hmz Hi Hiz Hl) as E.
  destruct (final_with_secret_suffix transform 8 (sha_md ctx) inp len) as [out c]; cbn [fst] in E |- *; rewrite E; clear E.
  destruct (_ <? _); [|reflexivity]; unfold sha256_spec; cbv zeta; apply f_equal, f_equal, f_equal.
  rewrite (md_hash_spec _ _ (fun state block => sha256_compress state (be_words 4 block)) true sha256_iv _ sha256_one) by
    (apply bytes_app; split; auto with zlist).
  symmetry; apply ztake_all; change (32 / 4) with 8; unfold zlen.
  rewrite (merkle_damgard_inv (fun st => length st = 8%nat)); [lia|unfold SHA256_CBLOCK; pow2; lia|now rewrite zlen_md_trailer|].
  intros; apply add_regs_words with (w := 32); lia.
Qed.

(** * HMAC *)

(** The key block and its two paddings, as the code derives them. *)
Lemma hmac_pads H (key : list Z) : zlen key <= 64 ->
  map (Z.lxor 0x36) (zsplice (zrep 64 0) 0 key) = ipad (hmac_key H 64 key) /\
  map (Z.lxor 0x6a) (map (Z.lxor 0x36) (zsplice (zrep 64 0) 0 key)) = opad (hmac_key H 64 key).
Proof.
  intros Hk; pose proof (zlen_nonneg key).
  assert (zsplice (zrep 64 0) 0 key = hmac_key H 64 key) as ->.
  { unfold hmac_key; rewrite (proj2 (Z.ltb_ge _ _)) by lia; now rewrite zsplice_0, zdrop_zrep by lia. }
  split; [reflexivity|]; unfold opad; rewrite map_map; apply map_ext; intros x.
  now rewrite <- Z.lxor_assoc.
Qed.

Lemma min_data_size_bounds digest_length total data_size : 0 < digest_length -> 0 <= data_size <= total ->
  total <= data_size + digest_length + 256 -> 0 <= min_data_size digest_length total <= data_size.
Proof. intros Hd Hs Ht; unfold min_data_size; destruct (Z.ltb_spec (digest_length + 256) total); lia. Qed.

(** The data that is hashed in the open and the suffix that is not. *)
Lemma split_record (pre data : list Z) k n : 0 <= k <= n -> n <= zlen data ->
  (pre ++ ztake k data) ++ ztake (n - k) (zdrop k data) = pre ++ ztake n data.
Proof.
  intros Hk Hn; rewrite <- app_assoc; f_equal.
  rewrite <- (ztake_zdrop k data) at 3; rewrite ztake_app_ge by (rewrite zlen_ztake; lia); now rewrite zlen_ztake by lia.
Qed.

Section Record.
  Variables (header data secret : list Z) (data_size : Z).
  Hypothesis record_ok : bytes header /\ zlen header = 13 /\ bytes data /\ zlen data < 2 ^ 59 /\ 0 <= data_size <= zlen data.
  Hypothesis secret_ok : bytes secret /\ zlen secret <= 64.

Lemma key_ok H : bytes (hmac_key H 64 secret) /\ zlen (hmac_key H 64 secret) = 64.
Proof.
  destruct secret_ok as [Hb Hl]; pose proof (zlen_nonneg secret); unfold hmac_key.
  rewrite (proj2 (Z.ltb_ge _ _)) by lia; rewrite zlen_app, zlen_zrep by lia; split; [|lia].
  apply bytes_app; split; [exact Hb|apply bytes_zrep; unfold byte; lia].
Qed.

Lemma pad_ok H c : byte c -> bytes (map (Z.lxor c) (hmac_key H 64 secret)) /\ zlen (map (Z.lxor c) (hmac_key H 64 secret)) = 64.
Proof.
  intros Hc; destruct (key_ok H) as [Hb Hl]; split; [now apply bytes_xor|]; unfold zlen in *; now rewrite length_map.
Qed.

(** What the MAC uses of a hash function. *)
Section Hash.
  Variables (C : Type) (init : C) (update : C -> list Z -> C) (suffix : C -> list Z -> Z -> option (list Z) * C)
    (final : C -> list Z) (H : list Z -> list Z) (holds : C -> list Z -> Prop) (dlen : Z).
  Hypothesis init_ok : holds init [].
  Hypothesis update_ok : forall c msg x, holds c msg -> zlen x < 2 ^ 63 -> holds (update c x) (msg ++ x).
  Hypothesis suffix_ok : forall c msg inp len, holds c msg -> bytes msg -> zlen msg < 2 ^ 60 ->
    bytes inp -> zlen inp < 2 ^ 60 -> 0 <= len <= zlen inp ->
    fst (suffix c inp len) = if 8 * (zlen msg + zlen inp) <? 2 ^ 32 then Some (H (msg ++ ztake len inp)) else None.
  Hypothesis final_ok : forall c msg, holds c msg -> bytes msg -> final c = H msg.
  Hypothesis output_ok : forall msg, bytes (H msg) /\ zlen (H msg) = dlen.
  Hypothesis dlen_ok : 0 < dlen <= 64.

(** The common text of the two functions. *)
Definition record_mac : option (list Z * Z) :=
  if 64 <? zlen secret then None
  else
    let hmac_pad := map (Z.lxor 0x36) (zsplice (zrep 64 0) 0 secret) in
    let k := min_data_size dlen (zlen data) in
    match suffix (update (update (update init hmac_pad) header) (ztake k data)) (zdrop k data) (u64 (data_size - k)) with
    | (None, _) => None
    | (Some mac_out, _) => Some (final (update (update init (map (Z.lxor 0x6a) hmac_pad)) mac_out), dlen)
    end.

Lemma record_mac_spec : zlen data <= data_size + dlen + 256 ->
  record_mac = if 8 * (77 + zlen data) <? 2 ^ 32
               then Some (hmac_spec H 64 secret (header ++ ztake data_size data), dlen) else None.
Proof.
  intros Ht; destruct record_ok as (Hh & Hhl & Hd & Hdl & Hs), secret_ok as [Hk Hkl].
  unfold record_mac; rewrite (proj2 (Z.ltb_ge 64 _)) by lia; cbv zeta.
  destruct (hmac_pads H secret Hkl) as [E1 E2]; rewrite E2, E1; clear E1 E2; set (K := hmac_key H 64 secret).
  destruct (pad_ok H 0x36) as [Hib Hil]; [unfold byte; lia|]; fold K in Hib, Hil; fold (ipad K) in Hib, Hil.
  destruct (pad_ok H 0x5c) as [Hob Hol]; [unfold byte; lia|]; fold K in Hob, Hol; fold (opad K) in Hob, Hol.
  pose proof (min_data_size_bounds dlen (zlen data) data_size ltac:(lia) Hs Ht) as Hmin.
  set (k := min_data_size dlen (zlen data)) in *; rewrite (uw_small 64 (data_size - k)) by (pow2; lia).
  assert (zlen (ztake k data) = k) as Hkz by (apply zlen_ztake; lia).
  set (ctx := update (update (update init (ipad K)) header) (ztake k data)).
  assert (holds ctx ((ipad K ++ header) ++ ztake k data)) as Ha.
  { apply update_ok; [|pow2; lia]; apply update_ok; [|pow2; lia]; apply (update_ok init []); [exact init_ok|pow2; lia]. }
  pose proof (suffix_ok ctx _ (zdrop k data) (data_size - k) Ha) as E.
  assert (zlen ((ipad K ++ header) ++ ztake k data) = 77 + k) as Hz by (rewrite !zlen_app; lia).
  rewrite split_record, <- (app_assoc (ipad K) header (ztake data_size data)), Hz, zlen_zdrop in E by lia.
  replace (77 + k + (zlen data - k)) with (77 + zlen data) in E by lia.
  specialize (E ltac:(rewrite !bytes_app; auto with zlist) ltac:(pow2; lia) ltac:(auto with zlist) ltac:(pow2; lia) ltac:(lia)).
  destruct (suffix ctx _ _) as [out c]; cbn [fst] in E; rewrite E; clear E.
  destruct (8 * (77 + zlen data) <? 2 ^ 32); [|reflexivity]; set (inner := H _).
  destruct (output_ok (ipad K ++ header ++ ztake data_size data)) as [Hnb Hnl]; fold inner in Hnb, Hnl.
  rewrite (final_ok _ (opad K ++ inner)); [reflexivity| |now apply bytes_app].
  apply update_ok; [|pow2; lia]; apply (update_ok init []); [exact init_ok|pow2; lia].
Qed.
End Hash.
End Record.

(** C31. The MAC of a CBC record, computed without branching on the length of
    its data, is HMAC-SHA1 or HMAC-SHA256 over the header and the data: for every
    record in which MAC and padding take at most 256 bytes more than the digest.
    Other digests, keys longer than a block and records of 2^29 bytes are
    refused. *)
Theorem tls_cbc_digest_record_correct (header data secret : list Z) (data_size : Z) :
  bytes header /\ zlen header = 13 -> bytes data /\ zlen data < 2 ^ 59 -> bytes secret -> 0 <= data_size <= zlen data ->
  let fits := (zlen secret <=? 64) && (8 * (77 + zlen data) <? 2 ^ 32) in
  let msg := header ++ ztake data_size data in
  (zlen data <= data_size + 20 + 256 -> EVP_tls_cbc_digest_record EVP_sha1 header data data_size secret =
     if fits then Some (hmac_spec sha1_spec 64 secret msg, 20) else None) /\
  (zlen data <= data_size + 32 + 256 -> EVP_tls_cbc_digest_record EVP_sha256 header data data_size secret =
     if fits then Some (hmac_spec (sha256_spec sha256_iv 32) 64 secret msg, 32) else None) /\
  (forall md, EVP_tls_cbc_record_digest_supported md = false ->
     EVP_tls_cbc_digest_record md header data data_size secret = None).
Proof.
  intros [Hh Hhl] [Hd Hdl] Hk Hs fits msg; unfold EVP_tls_cbc_digest_record, fits.
  assert (bytes header /\ zlen header = 13 /\ bytes data /\ zlen data < 2 ^ 59 /\ 0 <= data_size <= zlen data) as Hr by auto.
  change (type EVP_sha1 =? 64) with true; change (type EVP_sha256 =? 64) with false; change (type EVP_sha256 =? 672) with true.
  cbv iota; split; [|split].
  - intros Ht; destruct (Z.leb_spec (zlen secret) 64) as [Hl|Hl]; cbn [andb];
      [|unfold tls_cbc_digest_record_sha1, SHA_CBLOCK; now rewrite (proj2 (Z.ltb_lt _ _))].
    refine (record_mac_spec header data secret data_size Hr (conj Hk Hl) md_state SHA1_Init SHA1_Update
      EVP_sha1_final_with_secret_suffix (fun c => fst (SHA1_Final c)) sha1_spec (absorbs1 sha1_iv) 20
      (md_init_absorbs sha1_iv) (update_absorbs sha1_iv) sha1_suffix_spec sha1_final_spec sha1_spec_output ltac:(lia) Ht).
  - intros Ht; destruct (Z.leb_spec (zlen secret) 64) as [Hl|Hl]; cbn [andb];
      [|unfold tls_cbc_digest_record_sha256, SHA256_CBLOCK; now rewrite (proj2 (Z.ltb_lt _ _))].
    refine (record_mac_spec header data secret data_size Hr (conj Hk Hl) SHA256_CTX SHA256_Init SHA256_Update
      EVP_sha256_final_with_secret_suffix (fun c => written (fst (SHA256_Final c))) (sha256_spec sha256_iv 32)
      (fun c msg => absorbs256 sha256_iv (sha_md c) msg /\ md_len c = 32) 32 _ _ _ _ _ ltac:(lia) Ht).
    + split; [apply md_init_absorbs|reflexivity].
    + intros c m x [Hc Hm] Hx; split; [now apply update_absorbs|exact Hm].
    + intros c m inp len [Hc _]; now apply sha256_suffix_spec.
    + intros c m [Hc Hm] Hb; unfold SHA256_Final; rewrite Hm, (sha256_final_spec sha256_iv 32 c m Hc Hb) by lia; reflexivity.
    + intros m; now apply sha256_spec_output.
  - intros md E; unfold EVP_tls_cbc_record_digest_supported in E; apply orb_false_iff in E as [-> ->]; reflexivity.
Qed.

(** A record of ten bytes with a MAC of twenty and five bytes of padding. *)
Lemma tls_cbc_digest_record_correct_witness :
  let header := zrep 13 9 in
  let data := zrep 10 65 ++ zrep 20 1 ++ zrep 5 4 in
  EVP_tls_cbc_digest_record EVP_sha1 header data 10 [1; 2; 3] =
    Some (hmac_spec sha1_spec 64 [1; 2; 3] (header ++ zrep 10 65), 20) /\
  EVP_tls_cbc_digest_record EVP_sha1 header data 10 [1; 2; 3] =
    Some (be_enc 20 456629598927992860572672423985812939625777448667, 20).
Proof.
  intros header data; split; [|vm_compute; reflexivity].
  refine (proj1 (tls_cbc_digest_record_correct header data [1; 2; 3] 10 _ _ _ _) _).
  - split; [apply bytes_zrep; unfold byte; lia|reflexivity].
  - split; [|reflexivity]; repeat (apply bytes_app; split); apply bytes_zrep; unfold byte; lia.
  - repeat constructor; unfold byte; lia.
  - vm_compute; split; discriminate.
  - vm_compute; discriminate.
Defined.
