(* ===== verification/SslVersions.v ===== *)
(** Protocol versions of TLS and DTLS (ssl/ssl_versions.cc): the configured
    bounds, the range of enabled versions, the supported_versions extension and
    the choice of a version.

    A C++ function that returns false with an error on the queue is a sum whose
    left side is the error; [out_alert] is the alert to send with it. *)

From Stdlib Require Import Sorting.Sorted.
From S2P Require Import Prelude Mem Cbs Asn1 Der Cbb CbbSpec CbbDer CbbProgram.

(** * Constants (ssl.h, ssl3.h, tls1.h) *)

Definition TLS1_VERSION : Z := 0x0301.
Definition TLS1_1_VERSION : Z := 0x0302.
Definition TLS1_2_VERSION : Z := 0x0303.
Definition TLS1_3_VERSION : Z := 0x0304.
Definition DTLS1_VERSION : Z := 0xfeff.
Definition DTLS1_2_VERSION : Z := 0xfefd.

Definition SSL_OP_NO_TLSv1 : Z := 0x04000000.
Definition SSL_OP_NO_TLSv1_2 : Z := 0x08000000.
Definition SSL_OP_NO_TLSv1_1 : Z := 0x10000000.
Definition SSL_OP_NO_TLSv1_3 : Z := 0x20000000.
Definition SSL_OP_NO_DTLSv1 : Z := SSL_OP_NO_TLSv1.

(** Reasons of the error queue. *)
Definition SSL_R_DECODE_ERROR : Z := 137.
Definition SSL_R_UNKNOWN_SSL_VERSION : Z := 234.
Definition SSL_R_UNSUPPORTED_PROTOCOL : Z := 240.
Definition SSL_R_NO_SUPPORTED_VERSIONS_ENABLED : Z := 280.
Definition ERR_R_INTERNAL_ERROR : Z := Z.lor 4 64.

(** Alerts. *)
Definition SSL_AD_DECODE_ERROR : Z := 50.
Definition SSL_AD_PROTOCOL_VERSION : Z := 70.

(** The error that was put on the queue and the alert in [*out_alert]. *)
Record ssl_error : Type := { reason : Z; out_alert : Z }.

(** * State *)

(** Only [is_dtls] of the method table is read here. *)
Record SSL_PROTOCOL_METHOD : Type := { is_dtls : bool }.

Definition tls_method : SSL_PROTOCOL_METHOD := {| is_dtls := false |}.
Definition dtls_method : SSL_PROTOCOL_METHOD := {| is_dtls := true |}.

Record SSL_CONFIG : Type := { conf_min_version : Z; conf_max_version : Z }.

(** The fields of [SSL] and [SSL_HANDSHAKE] that this file reads;
    [quic_method] is whether the pointer is set. *)
Record SSL_HANDSHAKE : Type := {
  method : SSL_PROTOCOL_METHOD;
  options : Z;
  quic_method : bool;
  config : SSL_CONFIG;
  min_version : Z;
  max_version : Z;
  apply_jdk11_workaround : bool
}.

(** * Versions of a method *)

Definition ssl_protocol_version_from_wire (version : Z) : option Z :=
  if (version =? TLS1_VERSION) || (version =? TLS1_1_VERSION) || (version =? TLS1_2_VERSION) || (version =? TLS1_3_VERSION)
  then Some version
  else if version =? DTLS1_VERSION then Some TLS1_1_VERSION
  else if version =? DTLS1_2_VERSION then Some TLS1_2_VERSION
  else None.

Definition kTLSVersions : list Z := [TLS1_3_VERSION; TLS1_2_VERSION; TLS1_1_VERSION; TLS1_VERSION].
Definition kDTLSVersions : list Z := [DTLS1_2_VERSION; DTLS1_VERSION].

Definition get_method_versions (m : SSL_PROTOCOL_METHOD) : list Z :=
  if is_dtls m then kDTLSVersions else kTLSVersions.

Definition ssl_method_supports_version (m : SSL_PROTOCOL_METHOD) (version : Z) : bool :=
  existsb (fun supported => supported =? version) (get_method_versions m).

Definition api_version_to_wire (version : Z) : option Z :=
  match ssl_protocol_version_from_wire version with
  | None => None
  | Some _ => Some version
  end.

(** The setters of the bounds return the new bound, or leave the old one. *)
Definition set_version_bound (m : SSL_PROTOCOL_METHOD) (version : Z) : Z + Z :=
  match api_version_to_wire version with
  | None => inl SSL_R_UNKNOWN_SSL_VERSION
  | Some version => if negb (ssl_method_supports_version m version) then inl SSL_R_UNKNOWN_SSL_VERSION else inr version
  end.

Definition set_min_version (m : SSL_PROTOCOL_METHOD) (version : Z) : Z + Z :=
  if version =? 0 then inr (if is_dtls m then DTLS1_VERSION else TLS1_VERSION)
  else set_version_bound m version.

Definition set_max_version (m : SSL_PROTOCOL_METHOD) (version : Z) : Z + Z :=
  if version =? 0 then inr (if is_dtls m then DTLS1_2_VERSION else TLS1_3_VERSION)
  else set_version_bound m version.

Definition SSL_CTX_set_min_proto_version (m : SSL_PROTOCOL_METHOD) (ctx : SSL_CONFIG) (version : Z) : bool * SSL_CONFIG :=
  match set_min_version m version with
  | inl _ => (false, ctx)
  | inr v => (true, {| conf_min_version := v; conf_max_version := conf_max_version ctx |})
  end.

Definition SSL_CTX_set_max_proto_version (m : SSL_PROTOCOL_METHOD) (ctx : SSL_CONFIG) (version : Z) : bool * SSL_CONFIG :=
  match set_max_version m version with
  | inl _ => (false, ctx)
  | inr v => (true, {| conf_min_version := conf_min_version ctx; conf_max_version := v |})
  end.

(** * The range of enabled versions *)

Definition kProtocolVersions : list (Z * Z) :=
  [(TLS1_VERSION, SSL_OP_NO_TLSv1); (TLS1_1_VERSION, SSL_OP_NO_TLSv1_1);
   (TLS1_2_VERSION, SSL_OP_NO_TLSv1_2); (TLS1_3_VERSION, SSL_OP_NO_TLSv1_3)].

(** The loop at entry [i], with the entries from [i] on. *)
Fixpoint version_loop (i : nat) (entries : list (Z * Z)) (opts : Z) (any_enabled : bool) (lo hi : Z) : bool * Z * Z :=
  match entries with
  | [] => (any_enabled, lo, hi)
  | (version, flag) :: entries =>
      if version <? lo then version_loop (S i) entries opts any_enabled lo hi
      else if hi <? version then (any_enabled, lo, hi)
      else if Z.land opts flag =? 0 then
        version_loop (S i) entries opts true (if any_enabled then lo else version) hi
      else if any_enabled then (any_enabled, lo, fst (nth (i - 1) kProtocolVersions (0, 0)))
      else version_loop (S i) entries opts any_enabled lo hi
  end.

(** [SSL_OP_NO_DTLSv1] aliases the flag of TLS 1.0 but stands for TLS 1.1. *)
Definition version_options (hs : SSL_HANDSHAKE) : Z :=
  if is_dtls (method hs) then
    let opts := Z.land (options hs) (Z.lnot SSL_OP_NO_TLSv1_1) in
    if negb (Z.land opts SSL_OP_NO_DTLSv1 =? 0) then Z.lor opts SSL_OP_NO_TLSv1_1 else opts
  else options hs.

Definition ssl_get_version_range (hs : SSL_HANDSHAKE) : Z + (Z * Z) :=
  let opts := version_options hs in
  match ssl_protocol_version_from_wire (conf_min_version (config hs)),
        ssl_protocol_version_from_wire (conf_max_version (config hs)) with
  | Some lo, Some hi =>
      let lo := if quic_method hs && (lo <? TLS1_3_VERSION) then TLS1_3_VERSION else lo in
      match version_loop 0 kProtocolVersions opts false lo hi with
      | (false, _, _) => inl SSL_R_NO_SUPPORTED_VERSIONS_ENABLED
      | (true, lo, hi) => inr (lo, hi)
      end
  | _, _ => inl ERR_R_INTERNAL_ERROR
  end.

(** * Negotiation *)

Definition ssl_supports_version (hs : SSL_HANDSHAKE) (version : Z) : bool :=
  ssl_method_supports_version (method hs) version &&
  match ssl_protocol_version_from_wire version with
  | None => false
  | Some protocol_version => negb (protocol_version <? min_version hs) && negb (max_version hs <? protocol_version)
  end.

Section Extension.
  Context `{Allocator}.

Fixpoint add_versions (hs : SSL_HANDSHAKE) (d : nat) (extra_min_version : Z) (versions : list Z) : ST CBB unit :=
  match versions with
  | [] => st_ret tt
  | version :: versions =>
      (if ssl_supports_version hs version &&
          match ssl_protocol_version_from_wire version with
          | None => false
          | Some protocol_version => extra_min_version <=? protocol_version
          end
       then CBB_add_u16 d version else st_ret tt) ;;;
      add_versions hs d extra_min_version versions
  end.

Definition ssl_add_supported_versions (hs : SSL_HANDSHAKE) (d : nat) (extra_min_version : Z) : ST CBB unit :=
  add_versions hs d extra_min_version (get_method_versions (method hs)).
End Extension.

(** The inner loop: whether [version] is in the peer's list, or [None] when
    the list ends in the middle of an entry. *)
Fixpoint offered (fuel : nat) (version : Z) (copy : CBS) : option bool :=
  match fuel with
  | O => None
  | S fuel =>
      if CBS_len copy =? 0 then Some false else
      match CBS_get_u16 copy with
      | (None, _) => None
      | (Some peer_version, copy) => if peer_version =? version then Some true else offered fuel version copy
      end
  end.

Fixpoint negotiate_loop (hs : SSL_HANDSHAKE) (peer_versions : CBS) (versions : list Z) : ssl_error + Z :=
  match versions with
  | [] => inl {| reason := SSL_R_UNSUPPORTED_PROTOCOL; out_alert := SSL_AD_PROTOCOL_VERSION |}
  | version :: versions =>
      if negb (ssl_supports_version hs version) then negotiate_loop hs peer_versions versions
      else if (version =? TLS1_3_VERSION) && apply_jdk11_workaround hs then negotiate_loop hs peer_versions versions
      else match offered (S (length peer_versions)) version peer_versions with
           | None => inl {| reason := SSL_R_DECODE_ERROR; out_alert := SSL_AD_DECODE_ERROR |}
           | Some true => inr version
           | Some false => negotiate_loop hs peer_versions versions
           end
  end.

Definition ssl_negotiate_version (hs : SSL_HANDSHAKE) (peer_versions : CBS) : ssl_error + Z :=
  negotiate_loop hs peer_versions (get_method_versions (method hs)).

(** * The range is the lowest contiguous one *)

Lemma land_bit x k : 0 <= k -> (Z.land x (2 ^ k) =? 0) = negb (Z.testbit x k).
Proof.
  intros Hk; destruct (Z.eqb_spec (Z.land x (2 ^ k)) 0) as [E|E].
  - apply (f_equal (fun y => Z.testbit y k)) in E.
    rewrite Z.land_spec, Z.pow2_bits_true, Z.bits_0, andb_true_r in E by lia; now rewrite E.
  - destruct (Z.testbit x k) eqn:Et; [reflexivity|]; destruct E; apply Z.bits_inj'; intros i Hi.
    rewrite Z.land_spec, Z.bits_0, Z.pow2_bits_eqb by lia.
    destruct (Z.eqb_spec k i) as [<-|]; [now rewrite Et|now rewrite andb_false_r].
Qed.

(** The option that switches a protocol version off. *)
Definition disabled (hs : SSL_HANDSHAKE) (v : Z) : bool :=
  if v =? TLS1_VERSION then Z.testbit (options hs) 26
  else if v =? TLS1_1_VERSION then Z.testbit (options hs) (if is_dtls (method hs) then 26 else 28)
  else if v =? TLS1_2_VERSION then Z.testbit (options hs) 27
  else Z.testbit (options hs) 29.

(** The versions that the configuration enables, between the bounds. *)
Definition enabled (hs : SSL_HANDSHAKE) (lo hi v : Z) : Prop :=
  TLS1_VERSION <= v <= TLS1_3_VERSION /\ lo <= v <= hi /\ (quic_method hs = true -> v = TLS1_3_VERSION) /\
  disabled hs v = false.

Lemma version_flag hs v flag : In (v, flag) kProtocolVersions ->
  (Z.land (version_options hs) flag =? 0) = negb (disabled hs v).
Proof.
  assert (forall o k, 0 <= k -> k <> 28 -> Z.testbit (Z.land o (Z.lnot (2 ^ 28))) k = Z.testbit o k) as Hm.
  { intros o k Hk Hn; rewrite Z.land_spec, Z.lnot_spec, Z.pow2_bits_false by lia; now rewrite andb_true_r. }
  assert (Z.testbit (Z.land (options hs) (Z.lnot (2 ^ 28))) 28 = false) as H28.
  { rewrite Z.land_spec, Z.lnot_spec, Z.pow2_bits_true by lia; now rewrite andb_false_r. }
  unfold version_options, disabled; change SSL_OP_NO_DTLSv1 with (2 ^ 26); change SSL_OP_NO_TLSv1_1 with (2 ^ 28).
  rewrite (land_bit (Z.land _ _) 26), Hm, negb_involutive by lia.
  intros [[= <- <-]|[[= <- <-]|[[= <- <-]|[[= <- <-]|[]]]]].
  all: match goal with |- (Z.land _ ?f =? 0) = _ => let k := eval vm_compute in (Z.log2 f) in change f with (2 ^ k) end.
  all: rewrite land_bit by lia; cbn [Z.eqb]; f_equal; destruct (is_dtls (method hs)); [|reflexivity].
  all: destruct (Z.testbit (options hs) 26) eqn:E26; rewrite ?Z.lor_spec, ?Hm, ?H28 by lia; try reflexivity.
  all: rewrite ?Z.pow2_bits_false by lia; now rewrite ?orb_false_r.
Qed.

Lemma protocol_version_range v p : ssl_protocol_version_from_wire v = Some p -> TLS1_VERSION <= p <= TLS1_3_VERSION.
Proof.
  unfold ssl_protocol_version_from_wire; intros H; repeat case_if; try discriminate; injection H as <-;
    unfold TLS1_VERSION, TLS1_1_VERSION, TLS1_2_VERSION, TLS1_3_VERSION in *; try lia.
Qed.

(** The table has the versions in order. *)
Lemma protocol_entry i : (i < 4)%nat -> exists flag,
  drop i kProtocolVersions = (TLS1_VERSION + Z.of_nat i, flag) :: drop (S i) kProtocolVersions /\
  In (TLS1_VERSION + Z.of_nat i, flag) kProtocolVersions /\ fst (nth i kProtocolVersions (0, 0)) = TLS1_VERSION + Z.of_nat i.
Proof.
  intros Hi; destruct i as [|[|[|[|i]]]]; [..|lia]; eexists; (split; [reflexivity|]; split; [|reflexivity]);
    unfold kProtocolVersions; cbn [In Z.add Z.of_nat]; tauto.
Qed.

Section Range.
  Variables (hs : SSL_HANDSHAKE) (lo hi : Z).
  Hypothesis bounds : TLS1_VERSION <= lo <= TLS1_3_VERSION /\ TLS1_VERSION <= hi <= TLS1_3_VERSION.

Definition on (v : Z) : Prop := lo <= v <= hi /\ disabled hs v = false.

Definition range_result (r : bool * Z * Z) : Prop :=
  match r with
  | (false, _, _) => forall v, ~ on v
  | (true, l, h) => l <= h /\ (forall v, on v -> l <= v) /\ (forall v, l <= v <= h -> on v) /\ ~ on (h + 1)
  end.

(** What is known before entry [i]: the versions below it are all off, or the
    first that is on is [l] and so are all after it. *)
Definition range_before (i : nat) (any_enabled : bool) (l : Z) : Prop :=
  let v := TLS1_VERSION + Z.of_nat i in
  if any_enabled then l < v /\ (forall w, on w -> l <= w) /\ forall w, l <= w < v -> on w
  else l = lo /\ forall w, w < v -> ~ on w.

(** The loop ends where all versions that can be on have been seen. *)
Lemma range_done i a l : range_before i a l -> hi < TLS1_VERSION + Z.of_nat i -> range_result (a, l, hi).
Proof.
  unfold range_before; set (v := TLS1_VERSION + Z.of_nat i); destruct a; cbn [range_result].
  - intros (Hl & H1 & H2) Hh; assert (on l) as [Ho _] by (apply H2; lia).
    split; [lia|split; [exact H1|split]]; [intros w Hw; apply H2; lia|unfold on; lia].
  - intros [_ Hb] Hh w Hw; apply (Hb w); [unfold on in Hw; lia|exact Hw].
Qed.

Lemma version_loop_spec n : forall i any_enabled l, (i + n = 4)%nat -> range_before i any_enabled l ->
  range_result (version_loop i (drop i kProtocolVersions) (version_options hs) any_enabled l hi).
Proof.
  assert (TLS1_VERSION + 3 = TLS1_3_VERSION) as E3 by reflexivity.
  induction n as [|n IH]; intros i a l Hi Hb.
  { rewrite Nat.add_0_r in Hi; subst i; cbn [drop kProtocolVersions version_loop]; unfold range_before in Hb.
    apply (range_done 4); [exact Hb|]; lia. }
  destruct (protocol_entry i ltac:(lia)) as (flag & -> & Hin & _); cbn [version_loop].
  rewrite (version_flag hs _ _ Hin); set (v := TLS1_VERSION + Z.of_nat i) in *.
  assert (TLS1_VERSION + Z.of_nat (S i) = v + 1) as Ev by (unfold v; lia).
  unfold range_before in Hb; fold v in Hb.
  destruct (Z.ltb_spec v l) as [Hlt|Hge]; [destruct a; [lia|]|destruct (Z.ltb_spec hi v) as [Hh|Hh]].
  - apply IH; [lia|]; unfold range_before; rewrite Ev; destruct Hb as [-> Hb]; split; [reflexivity|].
    intros w Hw [? ?]; lia.
  - apply (range_done i); [exact Hb|exact Hh].
  - destruct (disabled hs v) eqn:Ed; cbn [negb]; [destruct a|].
    + destruct Hb as (Hl & H1 & H2); assert (on l) as [Ho _] by (apply H2; lia).
      destruct i as [|i]; [unfold v in Hl; lia|]; destruct (protocol_entry i ltac:(lia)) as (? & _ & _ & En).
      cbn [Nat.sub]; rewrite Nat.sub_0_r, En; replace (TLS1_VERSION + Z.of_nat i) with (v - 1) by (unfold v; lia).
      cbn [range_result]; replace (v - 1 + 1) with v by lia; split; [lia|split; [exact H1|split]].
      * intros w Hw; apply H2; lia.
      * intros [_ ?]; congruence.
    + apply IH; [lia|]; unfold range_before; rewrite Ev; destruct Hb as [-> Hb]; split; [reflexivity|].
      intros w Hw; destruct (Z.eq_dec w v) as [-> |]; [intros [_ ?]; congruence|apply Hb; lia].
    + apply IH; [lia|]; unfold range_before; rewrite Ev; destruct a.
      * destruct Hb as (Hl & H1 & H2); assert (on l) as [Ho _] by (apply H2; lia).
        split; [lia|split; [exact H1|]]; intros w Hw; destruct (Z.eq_dec w v) as [-> |]; [split; [lia|exact Ed]|apply H2; lia].
      * destruct Hb as [-> Hb]; split; [lia|split].
        -- intros w Hw; destruct (Z.le_gt_cases v w); [lia|]; destruct (Hb w ltac:(lia) Hw).
        -- intros w Hw; replace w with v by lia; split; [lia|exact Ed].
Qed.
End Range.

(** The range of versions of a handshake is the lowest contiguous range of
    enabled ones: nothing enabled is below it, everything in it is enabled, and
    the version above it is not. Without any enabled version, or with a bound
    that is no version, the function fails. *)
Theorem version_range_correct (hs : SSL_HANDSHAKE) :
  match ssl_protocol_version_from_wire (conf_min_version (config hs)),
        ssl_protocol_version_from_wire (conf_max_version (config hs)) with
  | Some lo, Some hi =>
      match ssl_get_version_range hs with
      | inr (l, h) => l <= h /\ (forall v, enabled hs lo hi v -> l <= v) /\
          (forall v, l <= v <= h -> enabled hs lo hi v) /\ ~ enabled hs lo hi (h + 1)
      | inl r => r = SSL_R_NO_SUPPORTED_VERSIONS_ENABLED /\ forall v, ~ enabled hs lo hi v
      end
  | _, _ => ssl_get_version_range hs = inl ERR_R_INTERNAL_ERROR
  end.
Proof.
  unfold ssl_get_version_range.
  destruct (ssl_protocol_version_from_wire (conf_min_version _)) as [lo|] eqn:El; [|reflexivity].
  destruct (ssl_protocol_version_from_wire (conf_max_version _)) as [hi|] eqn:Eh; [|reflexivity].
  apply protocol_version_range in El, Eh.
  set (lo' := if quic_method hs && (lo <? TLS1_3_VERSION) then TLS1_3_VERSION else lo).
  assert (TLS1_VERSION <= lo' <= TLS1_3_VERSION) as Hl'.
  { unfold lo'; case_if; [unfold TLS1_VERSION, TLS1_3_VERSION; lia|lia]. }
  assert (forall v, enabled hs lo hi v <-> on hs lo' hi v) as He.
  { intros v; unfold enabled, on, lo'; destruct (quic_method hs); cbn [andb]; [|split; [tauto|intros [? ?]; repeat split; auto; lia]].
    destruct (Z.ltb_spec lo TLS1_3_VERSION); (split; [intros (? & ? & Hq & ?); specialize (Hq eq_refl); split; auto; lia|]);
      intros [? ?]; repeat split; auto; lia. }
  pose proof (version_loop_spec hs lo' hi (conj Hl' Eh) 4 0 false lo' eq_refl) as Hr.
  assert (range_before hs lo' hi 0 false lo') as Hb by (split; [reflexivity|]; intros w Hw [? _]; lia).
  specialize (Hr Hb); unfold drop in Hr.
  destruct (version_loop _ _ _ _ _ _) as [[[] l] h]; cbn [range_result] in Hr.
  - destruct Hr as (? & H1 & H2 & H3); split; [auto|split; [|split]]; [intros v Hv; apply H1, He, Hv|intros v Hv; now apply He, H2|now rewrite He].
  - split; [reflexivity|]; intros v; rewrite He; apply Hr.
Qed.

(** * The chosen version *)

(** A list of versions on the wire. *)
Definition wire_versions (ws : list Z) : list Z := concat (map (be_enc 2) ws).

Lemma wire_versions_len ws : zlen (wire_versions ws) = 2 * zlen ws.
Proof.
  induction ws as [|w ws IH]; [reflexivity|]; unfold wire_versions in *; cbn [map concat].
  rewrite zlen_app, IH, zlen_cons, zlen_be_enc; lia.
Qed.

(** A list is searched to the entry, or to its end, which may be half an entry. *)
Lemma offered_spec v ws tail : Forall (fun w => 0 <= w < 2 ^ 16) ws -> zlen tail <= 1 ->
  forall fuel, (length ws < fuel)%nat -> offered fuel v (wire_versions ws ++ tail) =
    if existsb (fun w => w =? v) ws then Some true else if zlen tail =? 0 then Some false else None.
Proof.
  intros Hw Ht; induction Hw as [|w ws Hw1 Hws IH]; intros [|fuel] Hf; cbn [length] in Hf; try lia;
    cbn [offered]; unfold CBS_len.
  - destruct (Z.eqb_spec (zlen tail) 0) as [E|E]; [now rewrite (zlen_0_nil tail E)|].
    change (wire_versions [] ++ tail) with tail; rewrite (proj2 (Z.eqb_neq _ _) E).
    unfold CBS_get_u16, cbs_get_u, st_bind, cbs_get, CBS_len; rewrite (proj2 (Z.ltb_lt _ _)) by lia; reflexivity.
  - rewrite zlen_app, wire_versions_len, zlen_cons, (proj2 (Z.eqb_neq _ _)) by zl.
    unfold wire_versions; cbn [map concat existsb]; rewrite <- app_assoc, CBS_get_u16_be by exact Hw1.
    destruct (w =? v); [reflexivity|]; apply IH; lia.
Qed.

(** The versions this side accepts from the peer. *)
Definition acceptable (hs : SSL_HANDSHAKE) (v : Z) : bool :=
  ssl_supports_version hs v && negb ((v =? TLS1_3_VERSION) && apply_jdk11_workaround hs).

Definition protocol (v : Z) : Z := default 0 (ssl_protocol_version_from_wire v).

Definition unsupported : ssl_error := {| reason := SSL_R_UNSUPPORTED_PROTOCOL; out_alert := SSL_AD_PROTOCOL_VERSION |}.
Definition undecodable : ssl_error := {| reason := SSL_R_DECODE_ERROR; out_alert := SSL_AD_DECODE_ERROR |}.

(** The versions of a method are listed from the highest to the lowest. *)
Lemma versions_descend m : StronglySorted (fun v w => protocol w < protocol v) (get_method_versions m).
Proof. destruct m as [[]]; repeat constructor. Qed.

(** What the search through [versions] has to return. *)
Definition negotiated (hs : SSL_HANDSHAKE) (ws tail versions : list Z) (r : ssl_error + Z) : Prop :=
  match r with
  | inr v => acceptable hs v = true /\ In v ws /\ In v versions /\
      forall w, In w versions -> acceptable hs w = true -> In w ws -> protocol w <= protocol v
  | inl e => (tail = [] -> e = unsupported) /\
      (e = unsupported /\ (forall w, In w versions -> acceptable hs w = true -> ~ In w ws) \/
       e = undecodable /\ exists w, In w versions /\ acceptable hs w = true /\ ~ In w ws)
  end.

Lemma negotiated_skip hs ws tail v versions r : (acceptable hs v = true -> ~ In v ws) ->
  negotiated hs ws tail versions r -> negotiated hs ws tail (v :: versions) r.
Proof.
  intros Hv; destruct r as [e|v']; cbn [negotiated].
  - intros [I1 I2]; split; [exact I1|]; destruct I2 as [[-> I2]|(-> & w & ? & ? & ?)]; [left|right].
    + split; [reflexivity|]; intros w [<-|Hi] Ha; [now apply Hv|now apply I2].
    + split; [reflexivity|]; exists w; cbn [In]; auto.
  - intros (I1 & I2 & I3 & I4); repeat split; auto; [now right|].
    intros w [<-|Hi] Ha Hin; [destruct (Hv Ha Hin)|now apply I4].
Qed.

Lemma negotiate_loop_spec hs ws tail : Forall (fun w => 0 <= w < 2 ^ 16) ws -> zlen tail <= 1 ->
  forall versions, StronglySorted (fun v w => protocol w < protocol v) versions ->
  negotiated hs ws tail versions (negotiate_loop hs (wire_versions ws ++ tail) versions).
Proof.
  intros Hw Ht versions Hs; induction Hs as [|v versions Hs IH Hlt]; cbn [negotiate_loop].
  { split; [auto|]; left; split; [reflexivity|]; intros w []. }
  rewrite List.Forall_forall in Hlt.
  destruct (ssl_supports_version hs v) eqn:Es; cbn [negb];
    [|apply negotiated_skip; [unfold acceptable; rewrite Es; discriminate|exact IH]].
  destruct ((v =? TLS1_3_VERSION) && apply_jdk11_workaround hs) eqn:Ej;
    [apply negotiated_skip; [unfold acceptable; rewrite Es, Ej; discriminate|exact IH]|].
  assert (acceptable hs v = true) as Ha by (unfold acceptable; now rewrite Es, Ej).
  rewrite offered_spec; [|exact Hw|exact Ht|].
  2:{ pose proof (wire_versions_len ws); rewrite length_app; unfold zlen in *; lia. }
  destruct (existsb _ ws) eqn:Ex.
  - apply existsb_exists in Ex as (w & Hin & Heq%Z.eqb_eq); subst w.
    repeat split; auto; [now left|]; intros w [<-|Hi] _ _; [lia|]; specialize (Hlt w Hi); lia.
  - assert (~ In v ws) as Hn.
    { intros Hin; apply not_true_iff_false in Ex; apply Ex, existsb_exists; exists v; split; [exact Hin|apply Z.eqb_refl]. }
    destruct (Z.eqb_spec (zlen tail) 0) as [E0|E0]; [now apply negotiated_skip|].
    split; [intros ->; now destruct E0|right]; split; [reflexivity|]; exists v; repeat split; auto; now left.
Qed.

(** ** The extension that offers versions *)

Definition offers (hs : SSL_HANDSHAKE) (extra v : Z) : bool := ssl_supports_version hs v && (extra <=? protocol v).

Definition offer_program (hs : SSL_HANDSHAKE) (d : nat) (extra : Z) (versions : list Z) : list cbb_op :=
  map (AddU d W16) (List.filter (offers hs extra) versions).

Lemma supports_known hs v : ssl_supports_version hs v = true -> exists p, ssl_protocol_version_from_wire v = Some p.
Proof.
  unfold ssl_supports_version; intros [_ H]%andb_true_iff.
  destruct (ssl_protocol_version_from_wire v); [eauto|discriminate].
Qed.

Lemma supports_listed hs v : ssl_supports_version hs v = true -> In v (get_method_versions (method hs)).
Proof.
  unfold ssl_supports_version, ssl_method_supports_version; intros [H _]%andb_true_iff.
  apply existsb_exists in H as (w & Hw & ->%Z.eqb_eq); exact Hw.
Qed.

Lemma add_versions_run `{Allocator} hs d extra versions : forall cbb,
  add_versions hs d extra versions cbb = run (offer_program hs d extra versions) cbb.
Proof.
  unfold offer_program; induction versions as [|v versions IH]; intros cbb; cbn [add_versions]; [reflexivity|].
  cbn [List.filter]; unfold offers at 1, protocol at 1.
  destruct (ssl_supports_version hs v) eqn:Es; cbn [andb]; [|apply IH].
  destruct (supports_known hs v Es) as [p ->]; change (default 0 (Some p)) with p.
  destruct (extra <=? p); cbn [map run exec]; unfold st_bind, st_ret; [|apply IH].
  destruct (CBB_add_u16 d v cbb) as [[[]|] cbb']; [apply IH|reflexivity].
Qed.

Lemma method_versions_u16 m : Forall (fun w => 0 <= w < 2 ^ 16) (get_method_versions m).
Proof. destruct m as [[]]; repeat constructor; vm_compute; congruence. Qed.

(** Integers appended to the builder itself. *)
Lemma add_u16s_value ws : Forall (fun w => 0 <= w < 2 ^ 16) ws -> forall root,
  run_spec (map (AddU 0 W16) ws) {| b_root := root; b_open := [] |} =
    Some {| b_root := root ++ wire_versions ws; b_open := [] |}.
Proof.
  induction 1 as [|w ws Hw Hws IH]; intros root; cbn [map run_spec op_spec].
  - unfold wire_versions; cbn [map concat]; now rewrite app_nil_r.
  - change (256 ^ Z.of_nat (uwidth_bytes W16)) with (2 ^ 16); rewrite (proj2 (Z.ltb_lt _ _)) by lia.
    unfold b_add, b_flush; cbn [b_open drop collapse mbind option_bind take b_root b_append].
    unfold b_append; cbn [b_open b_root]; rewrite app_nil_r, IH; unfold wire_versions; cbn [map concat uwidth_bytes].
    now rewrite <- app_assoc.
Qed.

Lemma add_u16s_ok ws : Forall (fun w => 0 <= w < 2 ^ 16) ws ->
  Forall op_args_ok (map (AddU 0 W16) ws) /\ (forall root, run_ok (map (AddU 0 W16) ws) {| b_root := root; b_open := [] |}) /\
  run_cost (map (AddU 0 W16) ws) = 2 * zlen ws.
Proof.
  intros Hws; split; [|split].
  - induction Hws; constructor; auto.
  - induction Hws as [|w ws Hw Hws IH]; intros root; cbn [map run_ok]; [exact I|].
    split; [cbn; lia|]; split; [exact Hw|].
    destruct (op_spec _ _) as [B|] eqn:E; [|exact I]; cbn [op_spec] in E.
    change (256 ^ Z.of_nat (uwidth_bytes W16)) with (2 ^ 16) in E; rewrite (proj2 (Z.ltb_lt _ _)) in E by lia.
    unfold b_add, b_flush in E; cbn [b_open drop collapse mbind option_bind take b_root] in E; injection E as <-.
    apply IH.
  - clear Hws; induction ws as [|w ws IH]; [reflexivity|]; unfold run_cost in *; cbn [map fold_right].
    rewrite IH, zlen_cons; cbn [op_cost uwidth_bytes]; lia.
Qed.

Lemma In_filter {A} (f : A -> bool) x l : In x (List.filter f l) <-> In x l /\ f x = true.
Proof. apply List.filter_In. Qed.

(** C20. Version negotiation from end to end. A client writes the versions it
    supports, down to a floor, into its extension; a server that reads the
    extension chooses the highest version that both sides support, and reports
    an unsupported protocol when there is none. On any other list of versions,
    also one cut off in the middle of an entry, the choice is the highest
    version in it that the server accepts, or an error; a list that is not cut
    off is never reported as undecodable. *)
Theorem version_negotiation_correct {HA : Allocator} (client server : SSL_HANDSHAKE) (extra : Z) :
  (forall ws tail, Forall (fun w => 0 <= w < 2 ^ 16) ws -> zlen tail <= 1 ->
     negotiated server ws tail (get_method_versions (method server))
       (ssl_negotiate_version server (wire_versions ws ++ tail))) /\
  (method client = method server -> (forall n, malloc_ok n = true) ->
   exists out, fst ((ssl_add_supported_versions client 0 extra ;;; CBB_finish) (cbb_init (fresh 16) 16 true)) = Some out /\
     let common v := ssl_supports_version client v = true /\ extra <= protocol v /\ acceptable server v = true in
     match ssl_negotiate_version server out with
     | inr v => common v /\ forall w, common w -> protocol w <= protocol v
     | inl e => e = unsupported /\ forall w, ~ common w
     end).
Proof.
  split.
  { intros ws tail Hw Ht; apply negotiate_loop_spec; auto; apply versions_descend. }
  intros Hm Hmem; set (ws := List.filter (offers client extra) (get_method_versions (method client))).
  assert (Forall (fun w => 0 <= w < 2 ^ 16) ws) as Hw.
  { apply List.Forall_forall; intros w [Hin _]%In_filter; revert w Hin; apply List.Forall_forall, method_versions_u16. }
  exists (wire_versions ws); split.
  - unfold ssl_add_supported_versions, st_bind at 1; rewrite add_versions_run; unfold offer_program; fold ws.
    destruct (add_u16s_ok ws Hw) as (Ha & Hok & Hc).
    assert (run_cost (map (AddU 0 W16) ws) < 2 ^ 64) as Hcost.
    { rewrite Hc; unfold ws; destruct (method client) as [[]]; cbn [get_method_versions is_dtls];
        unfold kDTLSVersions, kTLSVersions, zlen; cbn [List.filter]; repeat case_if; cbn [length]; pow2; lia. }
    refine (run_finish _ _ _ 16 Hmem ltac:(lia) Ha (Hok []) Hcost (add_u16s_value ws Hw []) _).
    unfold finished, b_flush, b_append; cbn [b_open drop collapse mbind option_bind take b_root app]; now rewrite app_nil_r.
  - cbv zeta; pose proof (negotiate_loop_spec server ws [] Hw ltac:(rewrite zlen_nil; lia) _ (versions_descend (method server))) as Hn.
    rewrite app_nil_r in Hn; unfold ssl_negotiate_version.
    assert (forall v, ssl_supports_version client v = true /\ extra <= protocol v /\ acceptable server v = true <->
      In v ws /\ In v (get_method_versions (method server)) /\ acceptable server v = true) as Hc.
    { intros v; unfold ws; rewrite In_filter, <- Hm; unfold offers; rewrite andb_true_iff, Z.leb_le.
      split; [|tauto]; intros (Hs & Hp & Ha); repeat split; auto; now apply supports_listed in Hs. }
    destruct (negotiate_loop _ _ _) as [e|v]; cbn [negotiated] in Hn.
    + destruct Hn as [Hu [[-> Hn]|[-> _]]]; [split; [reflexivity|]|discriminate (Hu eq_refl)].
      intros w (Hin & Hm' & Ha)%Hc; now apply (Hn w).
    + destruct Hn as (Ha & Hin & Hv & Hbest); split; [now apply Hc|].
      intros w (Hin' & Hm' & Ha')%Hc; now apply Hbest.
Qed.

(** A client of TLS 1.0 to 1.3 and a server of TLS 1.1 to 1.2. *)
Lemma version_negotiation_correct_witness :
  let hs lo hi := {| method := tls_method; options := 0; quic_method := false;
    config := {| conf_min_version := lo; conf_max_version := hi |}; min_version := lo; max_version := hi;
    apply_jdk11_workaround := false |} in
  let client := hs TLS1_VERSION TLS1_3_VERSION in
  let server := hs TLS1_1_VERSION TLS1_2_VERSION in
  exists out, fst ((ssl_add_supported_versions (H := allocator_total) client 0 0 ;;; CBB_finish (H := allocator_total))
      (cbb_init (fresh (H := allocator_total) 16) 16 true)) = Some out /\
    out = [3; 4; 3; 3; 3; 2; 3; 1] /\ ssl_negotiate_version server out = inr TLS1_2_VERSION.
Proof.
  cbv zeta; pose proof (version_negotiation_correct (HA := allocator_total)
    {| method := tls_method; options := 0; quic_method := false;
       config := {| conf_min_version := TLS1_VERSION; conf_max_version := TLS1_3_VERSION |}; min_version := TLS1_VERSION;
       max_version := TLS1_3_VERSION; apply_jdk11_workaround := false |}
    {| method := tls_method; options := 0; quic_method := false;
       config := {| conf_min_version := TLS1_1_VERSION; conf_max_version := TLS1_2_VERSION |}; min_version := TLS1_1_VERSION;
       max_version := TLS1_2_VERSION; apply_jdk11_workaround := false |} 0) as [_ H].
  destruct (H eq_refl (fun _ => eq_refl)) as (out & E & _); exists out; split; [exact E|].
  vm_compute in E; injection E as <-; split; reflexivity.
Defined.
