(* ===== verification/Aead.v ===== *)
(** Authenticated encryption (crypto/fipsmodule/cipher/aead.c).

    An [EVP_AEAD] is a table of functions over a state of its own, which is the
    type [S] here; a stateful one (a CBC cipher whose vector runs on from record
    to record) changes the state. The functions of aead.c dispatch through the
    table, check how the buffers overlap, and clear the output when an operation
    fails. Buffers are given by their contents and, for the checks, by their
    address. The class [AeadLaws] is what the header promises of a table; the
    clients are proved against it. *)

From S2P Require Import Prelude Mem.

(** * Tables and contexts *)

Inductive evp_aead_direction_t : Type := evp_aead_open | evp_aead_seal.

(** A NULL function pointer is [None]. [seal_scatter] is given the nonce, the
    input, the extra input, the additional data and the room for the tag, and
    returns the ciphertext and the tag; [open] is given the room for the output. *)
Record EVP_AEAD (S : Type) : Type := {
  key_len : Z;
  nonce_len : Z;
  overhead : Z;
  max_tag_len : Z;
  seal_scatter_supports_extra_in : bool;
  init : option (list Z -> Z -> option (S * Z));
  init_with_direction : list Z -> Z -> evp_aead_direction_t -> option (S * Z);
  open : option (S -> Z -> list Z -> list Z -> list Z -> option (list Z) * S);
  seal_scatter : S -> Z -> list Z -> list Z -> list Z -> list Z -> option (list Z * list Z) * S;
  open_gather : option (S -> list Z -> list Z -> list Z -> list Z -> option (list Z) * S);
  tag_len : option (S -> Z -> Z -> Z)
}.
Arguments key_len {S}. Arguments nonce_len {S}. Arguments overhead {S}. Arguments max_tag_len {S}.
Arguments seal_scatter_supports_extra_in {S}. Arguments init {S}. Arguments init_with_direction {S}.
Arguments open {S}. Arguments seal_scatter {S}. Arguments open_gather {S}. Arguments tag_len {S}.

(** A context whose [aead] is not NULL. *)
Record EVP_AEAD_CTX (S : Type) : Type := {
  aead : EVP_AEAD S;
  state : S;
  ctx_tag_len : Z
}.
Arguments aead {S}. Arguments state {S}. Arguments ctx_tag_len {S}.
Arguments Build_EVP_AEAD_CTX {S}.

Definition with_state {S} (ctx : EVP_AEAD_CTX S) (s : S) : EVP_AEAD_CTX S :=
  {| aead := aead ctx; state := s; ctx_tag_len := ctx_tag_len ctx |}.

Definition EVP_AEAD_DEFAULT_TAG_LENGTH : Z := 0.
Definition EVP_AEAD_MAX_KEY_LENGTH : Z := 80.
Definition EVP_AEAD_MAX_NONCE_LENGTH : Z := 24.
Definition EVP_AEAD_MAX_OVERHEAD : Z := 64.

(** A buffer: its address and its contents. *)
Record buffer : Type := { addr : Z; contents : list Z }.

(** Whether two ranges overlap; the sums are those of [uintptr_t]. *)
Definition buffers_alias (a a_bytes b b_bytes : Z) : bool :=
  (b <? u64 (a + a_bytes)) && (a <? u64 (b + b_bytes)).

Section Aead.
  Context {HA : Allocator} {S : Type}.
  Implicit Types (A : EVP_AEAD S) (ctx : EVP_AEAD_CTX S).

Definition EVP_AEAD_key_length A : Z := key_len A.
Definition EVP_AEAD_nonce_length A : Z := nonce_len A.
Definition EVP_AEAD_max_overhead A : Z := overhead A.
Definition EVP_AEAD_max_tag_len A : Z := max_tag_len A.

(** [None]: the call failed and the context has no AEAD. *)
Definition EVP_AEAD_CTX_init_with_direction A (key : list Z) (tag : Z) (dir : evp_aead_direction_t) :
    option (EVP_AEAD_CTX S) :=
  if negb (zlen key =? key_len A) then None else
  match match init A with
        | Some f => f key tag
        | None => init_with_direction A key tag dir
        end with
  | None => None
  | Some (s, t) => Some {| aead := A; state := s; ctx_tag_len := t |}
  end.

Definition EVP_AEAD_CTX_init A (key : list Z) (tag : Z) : option (EVP_AEAD_CTX S) :=
  match init A with
  | None => None
  | Some _ => EVP_AEAD_CTX_init_with_direction A key tag evp_aead_open
  end.

(** sizeof(EVP_AEAD_CTX). *)
Variable sizeof_ctx : Z.

(** The outer [None] is the store through the NULL pointer of a failed
    allocation. *)
Definition EVP_AEAD_CTX_new A (key : list Z) (tag : Z) : option (option (EVP_AEAD_CTX S)) :=
  match OPENSSL_malloc sizeof_ctx with
  | None => None
  | Some _ => Some (EVP_AEAD_CTX_init A key tag)
  end.

Definition check_alias (in_ in_len out out_len : Z) : bool :=
  if negb (buffers_alias in_ in_len out out_len) then true else in_ =? out.

(** The results are the return value, the buffers [out] and [out_tag], and the
    context; failing operations clear the buffers. *)
Definition EVP_AEAD_CTX_seal_scatter ctx (out out_tag max_out_tag_len : Z) (nonce : list Z) (in_ : buffer)
    (extra_in ad : list Z) : bool * (list Z * list Z) * EVP_AEAD_CTX S :=
  let in_len := zlen (contents in_) in
  let cleared := (zrep in_len 0, zrep max_out_tag_len 0) in
  if negb (check_alias (addr in_) in_len out in_len) || buffers_alias out in_len out_tag max_out_tag_len
     || buffers_alias (addr in_) in_len out_tag max_out_tag_len then (false, cleared, ctx)
  else if negb (seal_scatter_supports_extra_in (aead ctx)) && negb (zlen extra_in =? 0) then (false, cleared, ctx)
  else
    match seal_scatter (aead ctx) (state ctx) max_out_tag_len nonce (contents in_) extra_in ad with
    | (Some r, s) => (true, r, with_state ctx s)
    | (None, s) => (false, cleared, with_state ctx s)
    end.

Definition EVP_AEAD_CTX_seal ctx (out max_out_len : Z) (nonce : list Z) (in_ : buffer) (ad : list Z) :
    bool * list Z * EVP_AEAD_CTX S :=
  let in_len := zlen (contents in_) in
  let cleared := zrep max_out_len 0 in
  if u64 (in_len + overhead (aead ctx)) <? in_len then (false, cleared, ctx)
  else if max_out_len <? in_len then (false, cleared, ctx)
  else if negb (check_alias (addr in_) in_len out max_out_len) then (false, cleared, ctx)
  else
    match seal_scatter (aead ctx) (state ctx) (max_out_len - in_len) nonce (contents in_) [] ad with
    | (Some (o, t), s) => (true, o ++ t, with_state ctx s)
    | (None, s) => (false, cleared, with_state ctx s)
    end.

Definition EVP_AEAD_CTX_open_gather ctx (out : Z) (nonce : list Z) (in_ : buffer) (in_tag ad : list Z) :
    bool * list Z * EVP_AEAD_CTX S :=
  let in_len := zlen (contents in_) in
  let cleared := zrep in_len 0 in
  if negb (check_alias (addr in_) in_len out in_len) then (false, cleared, ctx)
  else
    match open_gather (aead ctx) with
    | None => (false, cleared, ctx)
    | Some f =>
        match f (state ctx) nonce (contents in_) in_tag ad with
        | (Some r, s) => (true, r, with_state ctx s)
        | (None, s) => (false, cleared, with_state ctx s)
        end
    end.

Definition EVP_AEAD_CTX_open ctx (out max_out_len : Z) (nonce : list Z) (in_ : buffer) (ad : list Z) :
    bool * list Z * EVP_AEAD_CTX S :=
  let in_len := zlen (contents in_) in
  let cleared := zrep max_out_len 0 in
  if negb (check_alias (addr in_) in_len out max_out_len) then (false, cleared, ctx)
  else
    match open (aead ctx) with
    | Some f =>
        match f (state ctx) max_out_len nonce (contents in_) ad with
        | (Some r, s) => (true, r, with_state ctx s)
        | (None, s) => (false, cleared, with_state ctx s)
        end
    | None =>
        if in_len <? ctx_tag_len ctx then (false, cleared, ctx)
        else
          let plaintext_len := in_len - ctx_tag_len ctx in
          if max_out_len <? plaintext_len then (false, cleared, ctx)
          else
            match EVP_AEAD_CTX_open_gather ctx out nonce
                    {| addr := addr in_; contents := ztake plaintext_len (contents in_) |}
                    (ztake (ctx_tag_len ctx) (zdrop plaintext_len (contents in_))) ad with
            | (true, r, ctx) => (true, r, ctx)
            | (false, _, ctx) => (false, cleared, ctx)
            end
    end.

Definition EVP_AEAD_CTX_tag_len ctx (in_len extra_in_len : Z) : option Z :=
  match tag_len (aead ctx) with
  | Some f => Some (f (state ctx) in_len extra_in_len)
  | None =>
      if u64 (extra_in_len + ctx_tag_len ctx) <? extra_in_len then None
      else Some (u64 (extra_in_len + ctx_tag_len ctx))
  end.
End Aead.

(** * What a table promises *)

(** The length of the tag of a context with this table. *)
Definition method_tag_len {S} (A : EVP_AEAD S) (tag : Z) (s : S) (n x : Z) : Z :=
  match tag_len A with Some f => f s n x | None => x + tag end.

(** [paired s r] relates the state of a sealing context to that of an opening
    context with the same key that has seen the same records. When sealing
    succeeds (a table may refuse a nonce it has seen) it writes as many bytes as
    the tag length says, and what was sealed is opened to the input, after which
    the states are paired again. *)
Class AeadLaws {S : Type} (A : EVP_AEAD S) (tag : Z) (paired : S -> S -> Prop) : Prop := {
  aead_tag_fixed : 0 <= tag < 2 ^ 8;
  aead_overhead_bound : 0 <= overhead A <= EVP_AEAD_MAX_OVERHEAD;
  aead_tag_bound : forall s n x, 0 <= n -> 0 <= x <= 1 -> 0 <= method_tag_len A tag s n x <= x + overhead A;
  aead_sealed_lengths : forall s room nonce in_ extra ad out t s', bytes in_ -> bytes extra ->
    seal_scatter A s room nonce in_ extra ad = (Some (out, t), s') ->
    zlen out = zlen in_ /\ zlen t = method_tag_len A tag s (zlen in_) (zlen extra) /\ bytes out /\ bytes t;
  aead_tag_stable : forall s room nonce in_ extra ad out t s',
    seal_scatter A s room nonce in_ extra ad = (Some (out, t), s') ->
    forall n x, method_tag_len A tag s' n x = method_tag_len A tag s n x;
  aead_open_sealed : forall s r room nonce in_ extra ad out t s', paired s r -> bytes in_ -> bytes extra ->
    seal_scatter A s room nonce in_ extra ad = (Some (out, t), s') ->
    exists r', paired s' r' /\
      match open A, open_gather A with
      | Some f, _ => forall max_out, zlen out + zlen t <= max_out -> f r max_out nonce (out ++ t) ad = (Some (in_ ++ extra), r')
      | None, Some g => tag_len A = None /\
          g r nonce (out ++ ztake (zlen extra) t) (zdrop (zlen extra) t) ad = (Some (in_ ++ extra), r')
      | None, None => False
      end
}.

Section Laws.
  Context {S : Type} {A : EVP_AEAD S} {tag : Z} {paired : S -> S -> Prop} {L : AeadLaws A tag paired}.

(** Two contexts with the same key, one for each direction. *)
Definition ctx_paired (c d : EVP_AEAD_CTX S) : Prop :=
  aead c = A /\ aead d = A /\ ctx_tag_len c = tag /\ ctx_tag_len d = tag /\ paired (state c) (state d).

Lemma check_alias_same a n : check_alias a n a n = true.
Proof. unfold check_alias; rewrite Z.eqb_refl; now destruct (negb _). Qed.

Lemma tag_len_spec c n x : aead c = A -> ctx_tag_len c = tag -> 0 <= x <= 1 ->
  EVP_AEAD_CTX_tag_len c n x = Some (method_tag_len A tag (state c) n x).
Proof.
  intros Ec Et Hx; pose proof aead_tag_fixed as Ht; unfold EVP_AEAD_CTX_tag_len, method_tag_len; rewrite Ec, Et.
  destruct (tag_len A); [reflexivity|]; rewrite uw_small by (pow2; lia); now rewrite (proj2 (Z.ltb_ge _ _)) by lia.
Qed.

(** What a context seals, its partner opens. *)
Lemma ctx_seal_open c d p out out_tag room nonce data extra ad o t c' : ctx_paired c d -> bytes data -> bytes extra ->
  EVP_AEAD_CTX_seal_scatter c out out_tag room nonce {| addr := p; contents := data |} extra ad = (true, (o, t), c') ->
  zlen o = zlen data /\ zlen t = method_tag_len A tag (state c) (zlen data) (zlen extra) /\ bytes o /\ bytes t /\
  exists d', ctx_paired c' d' /\
    forall q, EVP_AEAD_CTX_open d q (zlen (o ++ t)) nonce {| addr := q; contents := o ++ t |} ad = (true, data ++ extra, d').
Proof.
  intros (Ec & Ed & Tc & Td & Hp) Hd He; unfold EVP_AEAD_CTX_seal_scatter; cbn [contents addr]; rewrite Ec.
  case_if; [discriminate|]; case_if; [discriminate|].
  destruct (seal_scatter A _ _ _ _ _ _) as [[r|] s'] eqn:Es; [|discriminate]; intros [= -> <-].
  destruct (aead_sealed_lengths _ _ _ _ _ _ _ _ _ Hd He Es) as (Lo & Lt & Bo & Bt).
  destruct (aead_open_sealed _ _ _ _ _ _ _ _ _ _ Hp Hd He Es) as (r' & Hp' & Ho).
  do 4 (split; [assumption|]); exists (with_state d r'); split; [repeat split; auto|]; intros q.
  unfold EVP_AEAD_CTX_open; cbn [contents addr]; rewrite check_alias_same, Ed; cbn [negb].
  destruct (open A) as [f|]; [rewrite Ho by (rewrite zlen_app; lia); reflexivity|].
  destruct (open_gather A) as [g|] eqn:Eg; [|destruct Ho]; destruct Ho as [Etl Ho].
  unfold method_tag_len in Lt; rewrite Etl in Lt; pose proof aead_tag_fixed as Ht.
  rewrite Td, zlen_app, Lt; rewrite (proj2 (Z.ltb_ge _ _)) by zl; rewrite (proj2 (Z.ltb_ge _ _)) by zl.
  replace (zlen o + (zlen extra + tag) - tag) with (zlen o + zlen extra) by lia.
  assert (ztake (zlen o + zlen extra) (o ++ t) = o ++ ztake (zlen extra) t) as E1.
  { rewrite ztake_app_ge by zl; do 2 f_equal; lia. }
  assert (ztake tag (zdrop (zlen o + zlen extra) (o ++ t)) = zdrop (zlen extra) t) as E2.
  { rewrite zdrop_app_ge by zl; replace (zlen o + zlen extra - zlen o) with (zlen extra) by lia.
    apply ztake_all; rewrite zlen_zdrop; [lia|]; zl. }
  unfold EVP_AEAD_CTX_open_gather; cbn [contents addr]; rewrite check_alias_same, Ed, Eg, E1, E2, Ho; reflexivity.
Qed.

(** Sealing does not change the lengths of tags. *)
Lemma ctx_tag_len_stable c out out_tag room nonce in_ extra ad r c' : aead c = A -> ctx_tag_len c = tag ->
  EVP_AEAD_CTX_seal_scatter c out out_tag room nonce in_ extra ad = (true, r, c') ->
  forall n x, 0 <= x <= 1 -> EVP_AEAD_CTX_tag_len c' n x = EVP_AEAD_CTX_tag_len c n x.
Proof.
  intros Ec Et; unfold EVP_AEAD_CTX_seal_scatter; case_if; [discriminate|]; case_if; [discriminate|]; rewrite Ec.
  destruct (seal_scatter A _ _ _ _ _ _) as [[[o t]|] s'] eqn:Es; [|discriminate]; intros [= _ <-] n x Hx.
  rewrite !tag_len_spec by auto; cbn [state with_state]; f_equal; eapply aead_tag_stable; eauto.
Qed.
End Laws.

(** * A concrete AEAD *)

(** An AEAD of the shape of those of TLS 1.3 (a tag of sixteen bytes, sealing
    with extra input): the key is one byte, which is XORed to the input, and the
    tag repeats a byte made from the key and the nonce. *)
Definition toy_mask (k : Z) : list Z -> list Z := map (fun b => Z.lxor b (u8 k)).
Definition toy_tag (k : Z) (nonce ad : list Z) : list Z := zrep 16 (u8 (k + fold_right Z.add 0 nonce + fold_right Z.add 0 ad)).

Definition toy_aead (keys nonces : Z) : EVP_AEAD Z := {|
  key_len := keys; nonce_len := nonces; overhead := 16; max_tag_len := 16; seal_scatter_supports_extra_in := true;
  init := Some (fun key tag => Some (znth key 0, 16));
  init_with_direction := fun key tag dir => None;
  open := None;
  seal_scatter := fun k room nonce in_ extra ad => (Some (toy_mask k in_, toy_mask k extra ++ toy_tag k nonce ad), k);
  open_gather := Some (fun k nonce in_ tag ad => (if bool_decide (tag = toy_tag k nonce ad) then Some (toy_mask k in_) else None, k));
  tag_len := None |}.

Lemma toy_mask_involutive k l : toy_mask k (toy_mask k l) = l.
Proof.
  unfold toy_mask; rewrite map_map; rewrite <- (map_id l) at 2; apply map_ext; intros b.
  now rewrite Z.lxor_assoc, Z.lxor_nilpotent, Z.lxor_0_r.
Qed.

Lemma toy_mask_app k l m : toy_mask k (l ++ m) = toy_mask k l ++ toy_mask k m.
Proof. apply map_app. Qed.

Lemma bytes_toy_mask k l : bytes l -> bytes (toy_mask k l).
Proof.
  intros H; apply List.Forall_map; refine (Forall_impl _ _ _ H _); intros b Hb; unfold byte in *.
  pose proof (uw_bound 8 k ltac:(lia)); apply (lxor_small _ _ 8); lia.
Qed.

#[export] Instance toy_aead_laws keys nonces : AeadLaws (toy_aead keys nonces) 16 eq.
Proof.
  split; cbn [overhead toy_aead open open_gather seal_scatter tag_len]; unfold EVP_AEAD_MAX_OVERHEAD, method_tag_len; cbn [tag_len toy_aead]; try (intros; lia).
  - intros s room nonce in_ extra ad out t s' Hi He [= <- <- <-]; unfold toy_mask at 1 2; rewrite zlen_app, !zlen_map.
    unfold toy_tag; rewrite zlen_zrep by lia; split; [reflexivity|]; split; [reflexivity|]; split; [now apply bytes_toy_mask|].
    apply bytes_app; split; [now apply bytes_toy_mask|]; apply bytes_zrep, (uw_bound 8); lia.
  - intros s r room nonce in_ extra ad out t s' <- Hi He [= <- <- <-]; exists s; split; [reflexivity|]; split; [reflexivity|].
    assert (zlen extra = zlen (toy_mask s extra)) as E by (unfold toy_mask; now rewrite zlen_map).
    rewrite E, ztake_app, zdrop_app, bool_decide_true by reflexivity; now rewrite <- toy_mask_app, toy_mask_involutive.
Qed.
