(* ===== verification/SslCipher.v ===== *)
(** Cipher suites of TLS (ssl/ssl_cipher.cc, ssl/internal.h): the table of
    suites and what the library derives from an entry: versions, algorithms,
    strength, digests and AEADs. The language in which suites are selected is
    in CipherList.v. *)

From Stdlib Require Import String.
From S2P Require Import Prelude Mem Words Md32 Sha256 Sha512 Sha1 Md5 Digest Aead SslVersions.
Local Open Scope string_scope.
Local Open Scope Z_scope.

(** * The table *)

(** Bits of [algorithm_mkey]. *)
Definition SSL_kRSA : Z := 0x1.
Definition SSL_kECDHE : Z := 0x2.
Definition SSL_kPSK : Z := 0x4.
Definition SSL_kGENERIC : Z := 0x8.

(** Bits of [algorithm_auth]. *)
Definition SSL_aRSA : Z := 0x1.
Definition SSL_aECDSA : Z := 0x2.
Definition SSL_aPSK : Z := 0x4.
Definition SSL_aGENERIC : Z := 0x8.
Definition SSL_aCERT : Z := Z.lor SSL_aRSA SSL_aECDSA.

(** Bits of [algorithm_enc]. *)
Definition SSL_3DES : Z := 0x1.
Definition SSL_AES128 : Z := 0x2.
Definition SSL_AES256 : Z := 0x4.
Definition SSL_AES128GCM : Z := 0x8.
Definition SSL_AES256GCM : Z := 0x10.
Definition SSL_CHACHA20POLY1305 : Z := 0x20.
Definition SSL_AES : Z := Z.lor (Z.lor (Z.lor SSL_AES128 SSL_AES256) SSL_AES128GCM) SSL_AES256GCM.

(** Bits of [algorithm_mac]. *)
Definition SSL_SHA1 : Z := 0x1.
Definition SSL_SHA256 : Z := 0x2.
Definition SSL_AEAD : Z := 0x4.

(** Bits of [algorithm_prf]. *)
Definition SSL_HANDSHAKE_MAC_DEFAULT : Z := 0x1.
Definition SSL_HANDSHAKE_MAC_SHA256 : Z := 0x2.
Definition SSL_HANDSHAKE_MAC_SHA384 : Z := 0x4.

Definition SSL3_VERSION : Z := 0x0300.

Record SSL_CIPHER : Type := cipher {
  name : string;
  standard_name : string;
  id : Z;
  algorithm_mkey : Z;
  algorithm_auth : Z;
  algorithm_enc : Z;
  algorithm_mac : Z;
  algorithm_prf : Z
}.

(** The values of the suites, with the byte that used to tell SSL 3.0 from 2.0. *)
Definition SSL3_CK_RSA_DES_192_CBC3_SHA : Z := 0x0300000A.
Definition TLS1_CK_RSA_WITH_AES_128_SHA : Z := 0x0300002F.
Definition TLS1_CK_RSA_WITH_AES_256_SHA : Z := 0x03000035.
Definition TLS1_CK_PSK_WITH_AES_128_CBC_SHA : Z := 0x0300008C.
Definition TLS1_CK_PSK_WITH_AES_256_CBC_SHA : Z := 0x0300008D.
Definition TLS1_CK_RSA_WITH_AES_128_GCM_SHA256 : Z := 0x0300009C.
Definition TLS1_CK_RSA_WITH_AES_256_GCM_SHA384 : Z := 0x0300009D.
Definition TLS1_3_CK_AES_128_GCM_SHA256 : Z := 0x03001301.
Definition TLS1_3_CK_AES_256_GCM_SHA384 : Z := 0x03001302.
Definition TLS1_3_CK_CHACHA20_POLY1305_SHA256 : Z := 0x03001303.
Definition TLS1_CK_ECDHE_ECDSA_WITH_AES_128_CBC_SHA : Z := 0x0300C009.
Definition TLS1_CK_ECDHE_ECDSA_WITH_AES_256_CBC_SHA : Z := 0x0300C00A.
Definition TLS1_CK_ECDHE_RSA_WITH_AES_128_CBC_SHA : Z := 0x0300C013.
Definition TLS1_CK_ECDHE_RSA_WITH_AES_256_CBC_SHA : Z := 0x0300C014.
Definition TLS1_CK_ECDHE_RSA_WITH_AES_128_CBC_SHA256 : Z := 0x0300C027.
Definition TLS1_CK_ECDHE_ECDSA_WITH_AES_128_GCM_SHA256 : Z := 0x0300C02B.
Definition TLS1_CK_ECDHE_ECDSA_WITH_AES_256_GCM_SHA384 : Z := 0x0300C02C.
Definition TLS1_CK_ECDHE_RSA_WITH_AES_128_GCM_SHA256 : Z := 0x0300C02F.
Definition TLS1_CK_ECDHE_RSA_WITH_AES_256_GCM_SHA384 : Z := 0x0300C030.
Definition TLS1_CK_ECDHE_PSK_WITH_AES_128_CBC_SHA : Z := 0x0300C035.
Definition TLS1_CK_ECDHE_PSK_WITH_AES_256_CBC_SHA : Z := 0x0300C036.
Definition TLS1_CK_ECDHE_RSA_WITH_CHACHA20_POLY1305_SHA256 : Z := 0x0300CCA8.
Definition TLS1_CK_ECDHE_ECDSA_WITH_CHACHA20_POLY1305_SHA256 : Z := 0x0300CCA9.
Definition TLS1_CK_ECDHE_PSK_WITH_CHACHA20_POLY1305_SHA256 : Z := 0x0300CCAC.

Definition kCiphers : list SSL_CIPHER :=
  [cipher "DES-CBC3-SHA" "TLS_RSA_WITH_3DES_EDE_CBC_SHA"
     SSL3_CK_RSA_DES_192_CBC3_SHA SSL_kRSA SSL_aRSA SSL_3DES SSL_SHA1 SSL_HANDSHAKE_MAC_DEFAULT;
   cipher "AES128-SHA" "TLS_RSA_WITH_AES_128_CBC_SHA"
     TLS1_CK_RSA_WITH_AES_128_SHA SSL_kRSA SSL_aRSA SSL_AES128 SSL_SHA1 SSL_HANDSHAKE_MAC_DEFAULT;
   cipher "AES256-SHA" "TLS_RSA_WITH_AES_256_CBC_SHA"
     TLS1_CK_RSA_WITH_AES_256_SHA SSL_kRSA SSL_aRSA SSL_AES256 SSL_SHA1 SSL_HANDSHAKE_MAC_DEFAULT;
   cipher "PSK-AES128-CBC-SHA" "TLS_PSK_WITH_AES_128_CBC_SHA"
     TLS1_CK_PSK_WITH_AES_128_CBC_SHA SSL_kPSK SSL_aPSK SSL_AES128 SSL_SHA1 SSL_HANDSHAKE_MAC_DEFAULT;
   cipher "PSK-AES256-CBC-SHA" "TLS_PSK_WITH_AES_256_CBC_SHA"
     TLS1_CK_PSK_WITH_AES_256_CBC_SHA SSL_kPSK SSL_aPSK SSL_AES256 SSL_SHA1 SSL_HANDSHAKE_MAC_DEFAULT;
   cipher "AES128-GCM-SHA256" "TLS_RSA_WITH_AES_128_GCM_SHA256"
     TLS1_CK_RSA_WITH_AES_128_GCM_SHA256 SSL_kRSA SSL_aRSA SSL_AES128GCM SSL_AEAD SSL_HANDSHAKE_MAC_SHA256;
   cipher "AES256-GCM-SHA384" "TLS_RSA_WITH_AES_256_GCM_SHA384"
     TLS1_CK_RSA_WITH_AES_256_GCM_SHA384 SSL_kRSA SSL_aRSA SSL_AES256GCM SSL_AEAD SSL_HANDSHAKE_MAC_SHA384;
   cipher "TLS_AES_128_GCM_SHA256" "TLS_AES_128_GCM_SHA256"
     TLS1_3_CK_AES_128_GCM_SHA256 SSL_kGENERIC SSL_aGENERIC SSL_AES128GCM SSL_AEAD SSL_HANDSHAKE_MAC_SHA256;
   cipher "TLS_AES_256_GCM_SHA384" "TLS_AES_256_GCM_SHA384"
     TLS1_3_CK_AES_256_GCM_SHA384 SSL_kGENERIC SSL_aGENERIC SSL_AES256GCM SSL_AEAD SSL_HANDSHAKE_MAC_SHA384;
   cipher "TLS_CHACHA20_POLY1305_SHA256" "TLS_CHACHA20_POLY1305_SHA256"
     TLS1_3_CK_CHACHA20_POLY1305_SHA256 SSL_kGENERIC SSL_aGENERIC SSL_CHACHA20POLY1305 SSL_AEAD SSL_HANDSHAKE_MAC_SHA256;
   cipher "ECDHE-ECDSA-AES128-SHA" "TLS_ECDHE_ECDSA_WITH_AES_128_CBC_SHA"
     TLS1_CK_ECDHE_ECDSA_WITH_AES_128_CBC_SHA SSL_kECDHE SSL_aECDSA SSL_AES128 SSL_SHA1 SSL_HANDSHAKE_MAC_DEFAULT;
   cipher "ECDHE-ECDSA-AES256-SHA" "TLS_ECDHE_ECDSA_WITH_AES_256_CBC_SHA"
     TLS1_CK_ECDHE_ECDSA_WITH_AES_256_CBC_SHA SSL_kECDHE SSL_aECDSA SSL_AES256 SSL_SHA1 SSL_HANDSHAKE_MAC_DEFAULT;
   cipher "ECDHE-RSA-AES128-SHA" "TLS_ECDHE_RSA_WITH_AES_128_CBC_SHA"
     TLS1_CK_ECDHE_RSA_WITH_AES_128_CBC_SHA SSL_kECDHE SSL_aRSA SSL_AES128 SSL_SHA1 SSL_HANDSHAKE_MAC_DEFAULT;
   cipher "ECDHE-RSA-AES256-SHA" "TLS_ECDHE_RSA_WITH_AES_256_CBC_SHA"
     TLS1_CK_ECDHE_RSA_WITH_AES_256_CBC_SHA SSL_kECDHE SSL_aRSA SSL_AES256 SSL_SHA1 SSL_HANDSHAKE_MAC_DEFAULT;
   cipher "ECDHE-RSA-AES128-SHA256" "TLS_ECDHE_RSA_WITH_AES_128_CBC_SHA256"
     TLS1_CK_ECDHE_RSA_WITH_AES_128_CBC_SHA256 SSL_kECDHE SSL_aRSA SSL_AES128 SSL_SHA256 SSL_HANDSHAKE_MAC_SHA256;
   cipher "ECDHE-ECDSA-AES128-GCM-SHA256" "TLS_ECDHE_ECDSA_WITH_AES_128_GCM_SHA256"
     TLS1_CK_ECDHE_ECDSA_WITH_AES_128_GCM_SHA256 SSL_kECDHE SSL_aECDSA SSL_AES128GCM SSL_AEAD SSL_HANDSHAKE_MAC_SHA256;
   cipher "ECDHE-ECDSA-AES256-GCM-SHA384" "TLS_ECDHE_ECDSA_WITH_AES_256_GCM_SHA384"
     TLS1_CK_ECDHE_ECDSA_WITH_AES_256_GCM_SHA384 SSL_kECDHE SSL_aECDSA SSL_AES256GCM SSL_AEAD SSL_HANDSHAKE_MAC_SHA384;
   cipher "ECDHE-RSA-AES128-GCM-SHA256" "TLS_ECDHE_RSA_WITH_AES_128_GCM_SHA256"
     TLS1_CK_ECDHE_RSA_WITH_AES_128_GCM_SHA256 SSL_kECDHE SSL_aRSA SSL_AES128GCM SSL_AEAD SSL_HANDSHAKE_MAC_SHA256;
   cipher "ECDHE-RSA-AES256-GCM-SHA384" "TLS_ECDHE_RSA_WITH_AES_256_GCM_SHA384"
     TLS1_CK_ECDHE_RSA_WITH_AES_256_GCM_SHA384 SSL_kECDHE SSL_aRSA SSL_AES256GCM SSL_AEAD SSL_HANDSHAKE_MAC_SHA384;
   cipher "ECDHE-PSK-AES128-CBC-SHA" "TLS_ECDHE_PSK_WITH_AES_128_CBC_SHA"
     TLS1_CK_ECDHE_PSK_WITH_AES_128_CBC_SHA SSL_kECDHE SSL_aPSK SSL_AES128 SSL_SHA1 SSL_HANDSHAKE_MAC_DEFAULT;
   cipher "ECDHE-PSK-AES256-CBC-SHA" "TLS_ECDHE_PSK_WITH_AES_256_CBC_SHA"
     TLS1_CK_ECDHE_PSK_WITH_AES_256_CBC_SHA SSL_kECDHE SSL_aPSK SSL_AES256 SSL_SHA1 SSL_HANDSHAKE_MAC_DEFAULT;
   cipher "ECDHE-RSA-CHACHA20-POLY1305" "TLS_ECDHE_RSA_WITH_CHACHA20_POLY1305_SHA256"
     TLS1_CK_ECDHE_RSA_WITH_CHACHA20_POLY1305_SHA256 SSL_kECDHE SSL_aRSA SSL_CHACHA20POLY1305 SSL_AEAD SSL_HANDSHAKE_MAC_SHA256;
   cipher "ECDHE-ECDSA-CHACHA20-POLY1305" "TLS_ECDHE_ECDSA_WITH_CHACHA20_POLY1305_SHA256"
     TLS1_CK_ECDHE_ECDSA_WITH_CHACHA20_POLY1305_SHA256 SSL_kECDHE SSL_aECDSA SSL_CHACHA20POLY1305 SSL_AEAD SSL_HANDSHAKE_MAC_SHA256;
   cipher "ECDHE-PSK-CHACHA20-POLY1305" "TLS_ECDHE_PSK_WITH_CHACHA20_POLY1305_SHA256"
     TLS1_CK_ECDHE_PSK_WITH_CHACHA20_POLY1305_SHA256 SSL_kECDHE SSL_aPSK SSL_CHACHA20POLY1305 SSL_AEAD SSL_HANDSHAKE_MAC_SHA256].

Definition AllCiphers : list SSL_CIPHER := kCiphers.

Definition NumTLS13Ciphers : nat :=
  fold_left (fun num c => if algorithm_mkey c =? SSL_kGENERIC then S num else num) kCiphers 0%nat.

(** * Lookup *)

Definition ssl_cipher_id_cmp (a b : SSL_CIPHER) : Z :=
  if id b <? id a then 1 else if id a <? id b then -1 else 0.

Fixpoint ssl_ciphers_sorted (ciphers : list SSL_CIPHER) : bool :=
  match ciphers with
  | a :: (b :: _) as rest => if 0 <=? ssl_cipher_id_cmp a b then false else ssl_ciphers_sorted rest
  | _ => true
  end.

(** The [bsearch] of the C library: a midpoint search of the array, which is
    sorted. *)
Fixpoint cipher_bsearch (fuel : nat) (key : Z) (lo hi : nat) : option SSL_CIPHER :=
  match fuel with
  | O => None
  | S fuel =>
      if (hi <=? lo)%nat then None
      else
        let mid := (lo + (hi - lo) / 2)%nat in
        match nth_error kCiphers mid with
        | None => None
        | Some c =>
            if key <? id c then cipher_bsearch fuel key lo mid
            else if id c <? key then cipher_bsearch fuel key (S mid) hi
            else Some c
        end
  end.

Definition SSL_get_cipher_by_value (value : Z) : option SSL_CIPHER :=
  cipher_bsearch (S (length kCiphers)) (Z.lor 0x03000000 value) 0 (length kCiphers).

(** * What an entry says *)

Section Entry.
Implicit Types c : SSL_CIPHER.

Definition SSL_CIPHER_get_id c : Z := id c.
Definition SSL_CIPHER_get_protocol_id c : Z := u16 (id c).
Definition SSL_CIPHER_is_aead c : bool := negb (Z.land (algorithm_mac c) SSL_AEAD =? 0).
Definition SSL_CIPHER_is_block_cipher c : bool := negb (algorithm_mac c =? SSL_AEAD).

Definition SSL_CIPHER_get_cipher_nid c : Z :=
  if algorithm_enc c =? SSL_3DES then 44
  else if algorithm_enc c =? SSL_AES128 then 419
  else if algorithm_enc c =? SSL_AES256 then 427
  else if algorithm_enc c =? SSL_AES128GCM then 895
  else if algorithm_enc c =? SSL_AES256GCM then 901
  else if algorithm_enc c =? SSL_CHACHA20POLY1305 then 950
  else 0.

Definition SSL_CIPHER_get_digest_nid c : Z :=
  if algorithm_mac c =? SSL_AEAD then 0
  else if algorithm_mac c =? SSL_SHA1 then 64
  else if algorithm_mac c =? SSL_SHA256 then 672
  else 0.

Definition SSL_CIPHER_get_kx_nid c : Z :=
  if algorithm_mkey c =? SSL_kRSA then 951
  else if algorithm_mkey c =? SSL_kECDHE then 952
  else if algorithm_mkey c =? SSL_kPSK then 953
  else if algorithm_mkey c =? SSL_kGENERIC then 957
  else 0.

Definition SSL_CIPHER_get_auth_nid c : Z :=
  if algorithm_auth c =? SSL_aRSA then 954
  else if algorithm_auth c =? SSL_aECDSA then 955
  else if algorithm_auth c =? SSL_aPSK then 956
  else if algorithm_auth c =? SSL_aGENERIC then 958
  else 0.

Definition SSL_CIPHER_get_handshake_digest c : option EVP_MD :=
  if algorithm_prf c =? SSL_HANDSHAKE_MAC_DEFAULT then Some EVP_md5_sha1
  else if algorithm_prf c =? SSL_HANDSHAKE_MAC_SHA256 then Some EVP_sha256
  else if algorithm_prf c =? SSL_HANDSHAKE_MAC_SHA384 then Some EVP_sha384
  else None.

Definition SSL_CIPHER_get_min_version c : Z :=
  if (algorithm_mkey c =? SSL_kGENERIC) || (algorithm_auth c =? SSL_aGENERIC) then TLS1_3_VERSION
  else if negb (algorithm_prf c =? SSL_HANDSHAKE_MAC_DEFAULT) then TLS1_2_VERSION
  else SSL3_VERSION.

Definition SSL_CIPHER_get_max_version c : Z :=
  if (algorithm_mkey c =? SSL_kGENERIC) || (algorithm_auth c =? SSL_aGENERIC) then TLS1_3_VERSION
  else TLS1_2_VERSION.

Definition SSL_CIPHER_get_name (c : option SSL_CIPHER) : string :=
  match c with Some c => name c | None => "(NONE)" end.

Definition SSL_CIPHER_get_kx_name (c : option SSL_CIPHER) : string :=
  match c with
  | None => ""
  | Some c =>
      if algorithm_mkey c =? SSL_kRSA then "RSA"
      else if algorithm_mkey c =? SSL_kECDHE then
        if algorithm_auth c =? SSL_aECDSA then "ECDHE_ECDSA"
        else if algorithm_auth c =? SSL_aRSA then "ECDHE_RSA"
        else if algorithm_auth c =? SSL_aPSK then "ECDHE_PSK"
        else "UNKNOWN"
      else if algorithm_mkey c =? SSL_kPSK then "PSK"
      else if algorithm_mkey c =? SSL_kGENERIC then "GENERIC"
      else "UNKNOWN"
  end.

(** The strength and, as the second component, [*out_alg_bits]. *)
Definition SSL_CIPHER_get_bits c : Z * Z :=
  if (algorithm_enc c =? SSL_AES128) || (algorithm_enc c =? SSL_AES128GCM) then (128, 128)
  else if (algorithm_enc c =? SSL_AES256) || (algorithm_enc c =? SSL_AES256GCM) ||
          (algorithm_enc c =? SSL_CHACHA20POLY1305) then (256, 256)
  else if algorithm_enc c =? SSL_3DES then (112, 168)
  else (0, 0).

Definition ssl_cipher_is_deprecated c : bool :=
  (id c =? TLS1_CK_ECDHE_RSA_WITH_AES_128_CBC_SHA256) || (algorithm_enc c =? SSL_3DES).

Definition ssl_cipher_uses_certificate_auth c : bool := negb (Z.land (algorithm_auth c) SSL_aCERT =? 0).

Definition ssl_cipher_requires_server_key_exchange c : bool := negb (Z.land (algorithm_mkey c) SSL_kECDHE =? 0).

Definition ssl_cipher_get_record_split_len c : Z :=
  let split block_size := let ret := 1 + 20 in ret + (block_size - ret mod block_size) in
  if algorithm_enc c =? SSL_3DES then split 8
  else if (algorithm_enc c =? SSL_AES128) || (algorithm_enc c =? SSL_AES256) then split 16
  else 0.

Definition ssl_get_handshake_digest (version : Z) c : option EVP_MD :=
  if algorithm_prf c =? SSL_HANDSHAKE_MAC_DEFAULT then
    Some (if TLS1_2_VERSION <=? version then EVP_sha256 else EVP_md5_sha1)
  else if algorithm_prf c =? SSL_HANDSHAKE_MAC_SHA256 then Some EVP_sha256
  else if algorithm_prf c =? SSL_HANDSHAKE_MAC_SHA384 then Some EVP_sha384
  else None.
End Entry.

(** ** The AEAD of a suite *)

(** The AEADs the function below names; a table gives their methods. *)
Inductive aead_name : Type :=
  | EVP_aead_aes_128_gcm | EVP_aead_aes_128_gcm_tls12 | EVP_aead_aes_128_gcm_tls13
  | EVP_aead_aes_256_gcm | EVP_aead_aes_256_gcm_tls12 | EVP_aead_aes_256_gcm_tls13
  | EVP_aead_chacha20_poly1305
  | EVP_aead_des_ede3_cbc_sha1_tls | EVP_aead_des_ede3_cbc_sha1_tls_implicit_iv
  | EVP_aead_aes_128_cbc_sha1_tls | EVP_aead_aes_128_cbc_sha1_tls_implicit_iv
  | EVP_aead_aes_256_cbc_sha1_tls | EVP_aead_aes_256_cbc_sha1_tls_implicit_iv
  | EVP_aead_aes_128_cbc_sha256_tls.

(** The AEAD, the length of the MAC key and the length of the fixed vector. *)
Definition ssl_cipher_get_evp_aead {S} (aeads : aead_name -> EVP_AEAD S) (c : SSL_CIPHER) (version : Z) (dtls : bool) :
    option (aead_name * Z * Z) :=
  let is_tls12 := (version =? TLS1_2_VERSION) && negb dtls in
  let is_tls13 := (version =? TLS1_3_VERSION) && negb dtls in
  if algorithm_mac c =? SSL_AEAD then
    match
      (if algorithm_enc c =? SSL_AES128GCM then
         Some (if is_tls12 then EVP_aead_aes_128_gcm_tls12 else if is_tls13 then EVP_aead_aes_128_gcm_tls13
               else EVP_aead_aes_128_gcm, 4)
       else if algorithm_enc c =? SSL_AES256GCM then
         Some (if is_tls12 then EVP_aead_aes_256_gcm_tls12 else if is_tls13 then EVP_aead_aes_256_gcm_tls13
               else EVP_aead_aes_256_gcm, 4)
       else if algorithm_enc c =? SSL_CHACHA20POLY1305 then Some (EVP_aead_chacha20_poly1305, 12)
       else None) with
    | None => None
    | Some (out_aead, fixed_iv_len) =>
        Some (out_aead, 0, if TLS1_3_VERSION <=? version then EVP_AEAD_nonce_length (aeads out_aead) else fixed_iv_len)
    end
  else if algorithm_mac c =? SSL_SHA1 then
    if algorithm_enc c =? SSL_3DES then
      Some (if version =? TLS1_VERSION then (EVP_aead_des_ede3_cbc_sha1_tls_implicit_iv, 20, 8)
            else (EVP_aead_des_ede3_cbc_sha1_tls, 20, 0))
    else if algorithm_enc c =? SSL_AES128 then
      Some (if version =? TLS1_VERSION then (EVP_aead_aes_128_cbc_sha1_tls_implicit_iv, 20, 16)
            else (EVP_aead_aes_128_cbc_sha1_tls, 20, 0))
    else if algorithm_enc c =? SSL_AES256 then
      Some (if version =? TLS1_VERSION then (EVP_aead_aes_256_cbc_sha1_tls_implicit_iv, 20, 16)
            else (EVP_aead_aes_256_cbc_sha1_tls, 20, 0))
    else None
  else if algorithm_mac c =? SSL_SHA256 then
    if algorithm_enc c =? SSL_AES128 then Some (EVP_aead_aes_128_cbc_sha256_tls, 32, 0) else None
  else None.

(** * The table is consistent *)

(** A function of the entries checked on each of them. *)
Lemma each_cipher (P : SSL_CIPHER -> bool) : forallb P kCiphers = true -> forall c, In c kCiphers -> P c = true.
Proof. apply List.forallb_forall. Qed.

Lemma bsearch_sound fuel key : forall lo hi c, cipher_bsearch fuel key lo hi = Some c -> In c kCiphers /\ id c = key.
Proof.
  induction fuel as [|fuel IH]; intros lo hi c; cbn [cipher_bsearch]; [discriminate|].
  destruct (hi <=? lo)%nat; [discriminate|]; destruct (nth_error kCiphers _) as [e|] eqn:E; [|discriminate].
  destruct (Z.ltb_spec key (id e)); [apply IH|]; destruct (Z.ltb_spec (id e) key); [apply IH|].
  intros [= <-]; split; [now apply nth_error_In in E|lia].
Qed.

(** The search by value finds exactly the entry with that value. *)
Lemma cipher_lookup_exact (v : Z) (c : SSL_CIPHER) : 0 <= v < 2 ^ 16 ->
  SSL_get_cipher_by_value v = Some c <-> In c kCiphers /\ SSL_CIPHER_get_protocol_id c = v.
Proof.
  intros Hv; unfold SSL_CIPHER_get_protocol_id, SSL_get_cipher_by_value.
  assert (Z.lor 0x03000000 v = 0x0300 * 2 ^ 16 + v) as Ev by (apply (lor_disjoint 0x0300 v 16); lia).
  split.
  - intros H; apply bsearch_sound in H as [Hin Hid]; split; [exact Hin|]; rewrite Hid, Ev.
    unfold uw; rewrite Z.add_comm, Z.mod_add, Z.mod_small by lia; reflexivity.
  - intros [Hin <-]; revert c Hin Hv Ev.
    assert (forall c, In c kCiphers -> cipher_bsearch (S (length kCiphers)) (Z.lor 0x03000000 (u16 (id c))) 0 (length kCiphers) = Some c) as H;
      [|intros c Hin _ _; exact (H c Hin)].
    apply List.Forall_forall; unfold kCiphers at 3; repeat constructor.
Qed.

(** Every suite has an AEAD, with a MAC key exactly when it is not an AEAD suite. *)
Lemma cipher_has_aead {S} (aeads : aead_name -> EVP_AEAD S) (c : SSL_CIPHER) (version : Z) (dtls : bool) :
  In c kCiphers ->
  exists name mac_len iv_len, ssl_cipher_get_evp_aead aeads c version dtls = Some (name, mac_len, iv_len) /\
    (mac_len = 0 <-> SSL_CIPHER_is_aead c = true).
Proof.
  revert c; apply List.Forall_forall; unfold kCiphers; repeat apply List.Forall_cons; try apply List.Forall_nil.
  all: unfold ssl_cipher_get_evp_aead, SSL_CIPHER_is_aead; cbn [algorithm_mac algorithm_enc];
    repeat match goal with |- context [?a =? ?b] => first [change (a =? b) with true | change (a =? b) with false] end; cbv iota.
  all: try (destruct (version =? TLS1_VERSION)); do 3 eexists; (split; [reflexivity|]); vm_compute; split; congruence.
Qed.
