(* ===== verification/SslAead.v ===== *)
(** The encryption layer of TLS records (ssl/ssl_aead_ctx.cc): the class
    [SSLAEADContext], which makes nonce and additional data of a record for an
    [EVP_AEAD] from the version, the suite and the sequence number.

    The randomness of explicit vectors is a parameter, [RAND_bytes seqnum n]:
    what is drawn when the record [seqnum] is sealed. The placeholder for QUIC,
    which has a suite but no key, is not modelled; the fuzzer mode is off. *)

From S2P Require Import Prelude Mem Words Md32 Sha256 Sha512 Sha1 Md5 Digest Aead SslVersions SslCipher.

Class RandomSource : Type := {
  RAND_bytes : Z -> Z -> option (list Z);
  RAND_bytes_ok : forall seqnum n l, RAND_bytes seqnum n = Some l -> zlen l = n /\ bytes l
}.

Definition ERR_R_OVERFLOW : Z := Z.lor 5 64.
Definition SSL_R_BAD_PACKET_LENGTH : Z := 112.

(** * State *)

(** [keyed] is the suite and the AEAD context; [None] is the null cipher. *)
Record SSLAEADContext (S : Type) : Type := {
  keyed : option (SSL_CIPHER * EVP_AEAD_CTX S);
  fixed_nonce_ : list Z;
  fixed_nonce_len_ : Z;
  variable_nonce_len_ : Z;
  version_ : Z;
  is_dtls_ : bool;
  variable_nonce_included_in_record_ : bool;
  random_variable_nonce_ : bool;
  xor_fixed_nonce_ : bool;
  omit_length_in_ad_ : bool;
  ad_is_header_ : bool
}.
Arguments keyed {S}. Arguments fixed_nonce_ {S}. Arguments fixed_nonce_len_ {S}. Arguments variable_nonce_len_ {S}.
Arguments version_ {S}. Arguments is_dtls_ {S}. Arguments variable_nonce_included_in_record_ {S}.
Arguments random_variable_nonce_ {S}. Arguments xor_fixed_nonce_ {S}. Arguments omit_length_in_ad_ {S}.
Arguments ad_is_header_ {S}.

Section SslAead.
  Context {HA : Allocator} {HR : RandomSource} {S : Type}.
  Variable aeads : aead_name -> EVP_AEAD S.
  Implicit Types a : SSLAEADContext S.

(** The constructor, with the fields [Create] sets before it returns. *)
Definition SSLAEADContext_new (version_arg : Z) (is_dtls_arg : bool) : SSLAEADContext S :=
  {| keyed := None; fixed_nonce_ := zrep 12 0; fixed_nonce_len_ := 0; variable_nonce_len_ := 0;
     version_ := version_arg; is_dtls_ := is_dtls_arg; variable_nonce_included_in_record_ := false;
     random_variable_nonce_ := false; xor_fixed_nonce_ := false; omit_length_in_ad_ := false; ad_is_header_ := false |}.

Definition with_ctx a (c : SSL_CIPHER) (ctx : EVP_AEAD_CTX S) : SSLAEADContext S :=
  {| keyed := Some (c, ctx); fixed_nonce_ := fixed_nonce_ a; fixed_nonce_len_ := fixed_nonce_len_ a;
     variable_nonce_len_ := variable_nonce_len_ a; version_ := version_ a; is_dtls_ := is_dtls_ a;
     variable_nonce_included_in_record_ := variable_nonce_included_in_record_ a;
     random_variable_nonce_ := random_variable_nonce_ a; xor_fixed_nonce_ := xor_fixed_nonce_ a;
     omit_length_in_ad_ := omit_length_in_ad_ a; ad_is_header_ := ad_is_header_ a |}.

Definition CreateNullCipher (dtls : bool) : SSLAEADContext S := SSLAEADContext_new 0 dtls.

Definition is_null_cipher a : bool := match keyed a with None => true | Some _ => false end.

Definition SetVersionIfNullCipher a (version : Z) : SSLAEADContext S :=
  match keyed a with
  | Some _ => a
  | None =>
      {| keyed := None; fixed_nonce_ := fixed_nonce_ a; fixed_nonce_len_ := fixed_nonce_len_ a;
         variable_nonce_len_ := variable_nonce_len_ a; version_ := version; is_dtls_ := is_dtls_ a;
         variable_nonce_included_in_record_ := variable_nonce_included_in_record_ a;
         random_variable_nonce_ := random_variable_nonce_ a; xor_fixed_nonce_ := xor_fixed_nonce_ a;
         omit_length_in_ad_ := omit_length_in_ad_ a; ad_is_header_ := ad_is_header_ a |}
  end.

Definition ProtocolVersion a : Z := default 0 (ssl_protocol_version_from_wire (version_ a)).

Definition RecordVersion a : Z :=
  if version_ a =? 0 then if is_dtls_ a then DTLS1_VERSION else TLS1_VERSION
  else if ProtocolVersion a <=? TLS1_2_VERSION then version_ a
  else TLS1_2_VERSION.

(** * Creation *)

(** [sizeof_ctx] is sizeof(SSLAEADContext). *)
Variable sizeof_ctx : Z.

Definition Create (direction : evp_aead_direction_t) (version : Z) (dtls : bool) (c : SSL_CIPHER)
    (enc_key mac_key fixed_iv : list Z) : option (SSLAEADContext S) :=
  match ssl_protocol_version_from_wire version with
  | None => None
  | Some protocol_version =>
      match ssl_cipher_get_evp_aead aeads c protocol_version dtls with
      | None => None
      | Some (aead_id, expected_mac_key_len, expected_fixed_iv_len) =>
          let A := aeads aead_id in
          if negb (expected_fixed_iv_len =? zlen fixed_iv) || negb (expected_mac_key_len =? zlen mac_key) then None
          else if negb (zlen mac_key =? 0) && (EVP_AEAD_MAX_KEY_LENGTH <? zlen mac_key + zlen enc_key + zlen fixed_iv) then None
          else
            let enc_key := if negb (zlen mac_key =? 0) then mac_key ++ enc_key ++ fixed_iv else enc_key in
            if negb (malloc_ok sizeof_ctx) then None
            else
              match EVP_AEAD_CTX_init_with_direction A enc_key EVP_AEAD_DEFAULT_TAG_LENGTH direction with
              | None => None
              | Some ctx =>
                  let nonce_len := u8 (EVP_AEAD_nonce_length A) in
                  if zlen mac_key =? 0 then
                    let chacha := negb (Z.land (algorithm_enc c) SSL_CHACHA20POLY1305 =? 0) in
                    let explicit := negb (Z.land (algorithm_enc c) (Z.lor SSL_AES128GCM SSL_AES256GCM) =? 0) in
                    let tls13 := TLS1_3_VERSION <=? protocol_version in
                    Some {| keyed := Some (c, ctx);
                            fixed_nonce_ := zsplice (zrep 12 0) 0 fixed_iv;
                            fixed_nonce_len_ := u8 (zlen fixed_iv);
                            variable_nonce_len_ := if tls13 || chacha then 8 else u8 (nonce_len - zlen fixed_iv);
                            version_ := version; is_dtls_ := dtls;
                            variable_nonce_included_in_record_ := explicit && negb tls13;
                            random_variable_nonce_ := false;
                            xor_fixed_nonce_ := chacha || tls13;
                            omit_length_in_ad_ := false;
                            ad_is_header_ := tls13 |}
                  else
                    Some {| keyed := Some (c, ctx); fixed_nonce_ := zrep 12 0; fixed_nonce_len_ := 0;
                            variable_nonce_len_ := nonce_len; version_ := version; is_dtls_ := dtls;
                            variable_nonce_included_in_record_ := true; random_variable_nonce_ := true;
                            xor_fixed_nonce_ := false; omit_length_in_ad_ := true; ad_is_header_ := false |}
              end
      end
  end.

(** * Lengths *)

Definition ExplicitNonceLen a : Z :=
  if variable_nonce_included_in_record_ a then variable_nonce_len_ a else 0.

Definition SuffixLen a (in_len extra_in_len : Z) : option Z :=
  match keyed a with
  | None => Some extra_in_len
  | Some (_, ctx) => EVP_AEAD_CTX_tag_len ctx in_len extra_in_len
  end.

(** A failure is [ERR_R_OVERFLOW], or the error of [SuffixLen]. *)
Definition CiphertextLen a (in_len extra_in_len : Z) : option Z :=
  match SuffixLen a in_len extra_in_len with
  | None => None
  | Some len =>
      let len := u64 (len + ExplicitNonceLen a) in
      let len := u64 (len + in_len) in
      if (len <? in_len) || (0xffff <=? len) then None else Some len
  end.

Definition MaxOverhead a : Z :=
  ExplicitNonceLen a + match keyed a with None => 0 | Some (_, ctx) => EVP_AEAD_max_overhead (aead ctx) end.

(** * Nonce and additional data *)

Definition GetAdditionalData a (type record_version seqnum plaintext_len : Z) (header : list Z) : list Z :=
  if ad_is_header_ a then header
  else
    CRYPTO_store_u64_be seqnum ++ [type; u8 (Z.shiftr record_version 8); u8 record_version] ++
    (if omit_length_in_ad_ a then [] else [u8 (Z.shiftr plaintext_len 8); u8 plaintext_len]).

(** What precedes the variable part. *)
Definition nonce_prefix a : list Z :=
  if xor_fixed_nonce_ a then zrep (fixed_nonce_len_ a - variable_nonce_len_ a) 0
  else ztake (fixed_nonce_len_ a) (fixed_nonce_ a).

(** The exclusive or with the fixed nonce. *)
Definition xor_nonce a (nonce : list Z) : list Z :=
  if xor_fixed_nonce_ a then
    zip_with Z.lxor (ztake (fixed_nonce_len_ a) nonce) (ztake (fixed_nonce_len_ a) (fixed_nonce_ a)) ++
    zdrop (fixed_nonce_len_ a) nonce
  else nonce.

(** * Operations *)

(** [in_] is decrypted in place, at address [p]. *)
Definition Open a (type record_version seqnum : Z) (header : list Z) (p : Z) (in_ : list Z) :
    option (list Z) * SSLAEADContext S :=
  match keyed a with
  | None => (Some in_, a)
  | Some (c, ctx) =>
      if negb (omit_length_in_ad_ a) && (zlen in_ <? MaxOverhead a) then (None, a)
      else
        let plaintext_len := if omit_length_in_ad_ a then 0 else zlen in_ - MaxOverhead a in
        let ad := GetAdditionalData a type record_version seqnum plaintext_len header in
        if variable_nonce_included_in_record_ a && (zlen in_ <? variable_nonce_len_ a) then (None, a)
        else
          let '(variable, p, in_) :=
            if variable_nonce_included_in_record_ a
            then (ztake (variable_nonce_len_ a) in_, p + variable_nonce_len_ a, zdrop (variable_nonce_len_ a) in_)
            else (ztake (variable_nonce_len_ a) (CRYPTO_store_u64_be seqnum), p, in_) in
          let nonce := xor_nonce a (nonce_prefix a ++ variable) in
          match EVP_AEAD_CTX_open ctx p (zlen in_) nonce {| addr := p; contents := in_ |} ad with
          | (true, out, ctx) => (Some out, with_ctx a c ctx)
          | (false, _, ctx) => (None, with_ctx a c ctx)
          end
  end.

(** The explicit nonce, the ciphertext and the suffix, which are written to
    [out_prefix], [out] and [out_suffix]. *)
Definition SealScatter a (out_prefix out out_suffix : Z) (type record_version seqnum : Z) (header : list Z)
    (in_ : buffer) (extra_in : list Z) : option (list Z * list Z * list Z) * SSLAEADContext S :=
  let in_len := zlen (contents in_) in
  match SuffixLen a in_len (zlen extra_in) with
  | None => (None, a)
  | Some suffix_len =>
      if negb (addr in_ =? out) && buffers_alias (addr in_) in_len out in_len ||
         buffers_alias (addr in_) in_len out_prefix (ExplicitNonceLen a) ||
         buffers_alias (addr in_) in_len out_suffix suffix_len then (None, a)
      else
        match keyed a with
        | None => (Some ([], contents in_, extra_in), a)
        | Some (c, ctx) =>
            let ad := GetAdditionalData a type record_version seqnum in_len header in
            match (if random_variable_nonce_ a then RAND_bytes seqnum (variable_nonce_len_ a)
                   else Some (ztake (variable_nonce_len_ a) (CRYPTO_store_u64_be seqnum))) with
            | None => (None, a)
            | Some variable =>
                if variable_nonce_included_in_record_ a &&
                   buffers_alias (addr in_) in_len out_prefix (variable_nonce_len_ a) then (None, a)
                else
                  let explicit := if variable_nonce_included_in_record_ a then variable else [] in
                  let nonce := xor_nonce a (nonce_prefix a ++ variable) in
                  match EVP_AEAD_CTX_seal_scatter ctx out out_suffix suffix_len nonce in_ extra_in ad with
                  | (true, (o, t), ctx) => (Some (explicit, o, t), with_ctx a c ctx)
                  | (false, _, ctx) => (None, with_ctx a c ctx)
                  end
            end
        end
  end.

(** The bytes written to [out], of which [max_out_len] are available. *)
Definition Seal a (out max_out_len : Z) (type record_version seqnum : Z) (header : list Z) (in_ : buffer) :
    option (list Z) * SSLAEADContext S :=
  let in_len := zlen (contents in_) in
  let prefix_len := ExplicitNonceLen a in
  match SuffixLen a in_len 0 with
  | None => (None, a)
  | Some suffix_len =>
      if (u64 (in_len + prefix_len) <? in_len) || (u64 (in_len + prefix_len + suffix_len) <? u64 (in_len + prefix_len)) then (None, a)
      else if max_out_len <? u64 (in_len + prefix_len + suffix_len) then (None, a)
      else
        match SealScatter a out (out + prefix_len) (out + prefix_len + in_len) type record_version seqnum header in_ [] with
        | (None, a) => (None, a)
        | (Some (explicit, o, t), a) => (Some (explicit ++ o ++ t), a)
        end
  end.
End SslAead.

(** * What one side seals the other opens *)

Section Pairing.
  Context {HR : RandomSource} {S : Type} {A : EVP_AEAD S} {tag : Z} {paired : S -> S -> Prop} {L : AeadLaws A tag paired}.
  Implicit Types w r : SSLAEADContext S.

Definition same_params w r : Prop :=
  fixed_nonce_ r = fixed_nonce_ w /\ fixed_nonce_len_ r = fixed_nonce_len_ w /\
  variable_nonce_len_ r = variable_nonce_len_ w /\ version_ r = version_ w /\ is_dtls_ r = is_dtls_ w /\
  variable_nonce_included_in_record_ r = variable_nonce_included_in_record_ w /\
  random_variable_nonce_ r = random_variable_nonce_ w /\ xor_fixed_nonce_ r = xor_fixed_nonce_ w /\
  omit_length_in_ad_ r = omit_length_in_ad_ w /\ ad_is_header_ r = ad_is_header_ w.

(** Two contexts with the same parameters and with AEAD contexts that belong
    together. *)
Definition aead_paired w r : Prop :=
  match keyed w, keyed r with
  | None, None => True
  | Some (c, x), Some (d, y) => c = d /\ ctx_paired (A := A) (tag := tag) (paired := paired) x y
  | _, _ => False
  end /\ same_params w r.

(** The parameters fit together: a nonce drawn at random is sent, one that is
    made from the sequence number has at most eight bytes, and an AEAD whose
    additional data needs the length of the plaintext adds a fixed number of
    bytes. *)
Definition params_ok w : Prop :=
  0 <= variable_nonce_len_ w <= EVP_AEAD_MAX_NONCE_LENGTH /\
  (if random_variable_nonce_ w then variable_nonce_included_in_record_ w = true else variable_nonce_len_ w <= 8) /\
  (omit_length_in_ad_ w = false -> 0 <= overhead A /\ forall s n x, method_tag_len A tag s n x = x + overhead A).

Lemma params_ok_with_ctx w c x : params_ok (with_ctx w c x) <-> params_ok w.
Proof. reflexivity. Qed.

Lemma explicit_nonce_bound w : params_ok w -> 0 <= ExplicitNonceLen w <= EVP_AEAD_MAX_NONCE_LENGTH.
Proof. intros [? _]; unfold ExplicitNonceLen, EVP_AEAD_MAX_NONCE_LENGTH in *; case_if; lia. Qed.

Lemma suffix_len_spec w r n x : aead_paired w r -> 0 <= x <= 1 ->
  SuffixLen w n x = Some match keyed w with None => x | Some (_, ctx) => method_tag_len A tag (state ctx) n x end.
Proof.
  intros [Hk _] Hx; unfold SuffixLen; destruct (keyed w) as [[c ctx]|], (keyed r) as [[d ctx']|]; try easy.
  destruct Hk as (_ & Ec & _ & Tc & _); now apply tag_len_spec.
Qed.

(** The variable part of a nonce. *)
Lemma variable_nonce_len w seqnum v : params_ok w ->
  (if random_variable_nonce_ w then RAND_bytes seqnum (variable_nonce_len_ w)
   else Some (ztake (variable_nonce_len_ w) (CRYPTO_store_u64_be seqnum))) = Some v ->
  zlen v = variable_nonce_len_ w /\ bytes v.
Proof.
  intros (H1 & H2 & _); destruct (random_variable_nonce_ w); [intros E; now apply RAND_bytes_ok in E|].
  intros [= <-]; split; [|apply bytes_ztake, bytes_le_enc].
  rewrite zlen_ztake; [reflexivity|]; unfold CRYPTO_store_u64_be; rewrite zlen_le_enc; lia.
Qed.

(** The receiver reconstructs nonce and additional data. *)
Lemma Open_of_ctx w r type version seqnum header q v ot n pt c y y' :
  same_params w r -> params_ok w -> keyed r = Some (c, y) -> aead y = A -> zlen v = variable_nonce_len_ w ->
  (variable_nonce_included_in_record_ w = false -> v = ztake (variable_nonce_len_ w) (CRYPTO_store_u64_be seqnum)) ->
  (omit_length_in_ad_ w = false -> overhead A <= zlen ot /\ (ad_is_header_ w = false -> zlen ot - overhead A = n)) ->
  (forall q, EVP_AEAD_CTX_open y q (zlen ot) (xor_nonce w (nonce_prefix w ++ v)) {| addr := q; contents := ot |}
     (GetAdditionalData w type version seqnum n header) = (true, pt, y')) ->
  Open r type version seqnum header q ((if variable_nonce_included_in_record_ w then v else []) ++ ot) =
    (Some pt, with_ctx r c y').
Proof.
  intros (E1 & E2 & E3 & E4 & E5 & E6 & E7 & E8 & E9 & E10) (Hv1 & _) Kr Ey Lv Hvar Hfix Hopen.
  assert (zlen (if variable_nonce_included_in_record_ w then v else []) = ExplicitNonceLen r) as Le.
  { unfold ExplicitNonceLen; rewrite E6, E3; case_if; [exact Lv|reflexivity]. }
  unfold Open, MaxOverhead, EVP_AEAD_max_overhead; rewrite Kr, Ey, zlen_app, Le, E9.
  assert (negb (omit_length_in_ad_ w) && (ExplicitNonceLen r + zlen ot <? ExplicitNonceLen r + overhead A) = false) as ->.
  { destruct (omit_length_in_ad_ w); [reflexivity|]; destruct (Hfix eq_refl); cbn [negb andb]; apply Z.ltb_ge; lia. }
  assert (forall k, GetAdditionalData r type version seqnum (if omit_length_in_ad_ w then k else ExplicitNonceLen r + zlen ot - (ExplicitNonceLen r + overhead A)) header =
    GetAdditionalData w type version seqnum n header) as Had.
  { intros k; unfold GetAdditionalData; rewrite E9, E10; destruct (ad_is_header_ w) eqn:Eh; [reflexivity|].
    destruct (omit_length_in_ad_ w); [reflexivity|]; destruct (Hfix eq_refl) as [_ Hn].
    replace (ExplicitNonceLen r + zlen ot - (ExplicitNonceLen r + overhead A)) with n by (specialize (Hn eq_refl); lia).
    reflexivity. }
  assert (forall u, xor_nonce r (nonce_prefix r ++ u) = xor_nonce w (nonce_prefix w ++ u)) as Hnon by
    (intros u; unfold xor_nonce, nonce_prefix; now rewrite E1, E2, E3, E8).
  rewrite Had, E6, E3; unfold ExplicitNonceLen in *; rewrite E6, E3 in *.
  destruct (variable_nonce_included_in_record_ w); cbn [andb app].
  - rewrite (proj2 (Z.ltb_ge _ _)) by (pose proof (zlen_nonneg ot); lia).
    rewrite ztake_app_eq, zdrop_app_eq by lia; rewrite Hnon, Hopen; reflexivity.
  - rewrite <- Hvar by reflexivity; rewrite Hnon, Hopen; reflexivity.
Qed.

Lemma SealScatter_Open w r out_prefix out out_suffix type version seqnum header p data extra e c t w' :
  aead_paired w r -> params_ok w -> bytes data -> bytes extra ->
  extra = [] \/ zlen extra = 1 /\ ad_is_header_ w = true /\ variable_nonce_included_in_record_ w = false ->
  SealScatter w out_prefix out out_suffix type version seqnum header {| addr := p; contents := data |} extra =
    (Some (e, c, t), w') ->
  zlen e = ExplicitNonceLen w * (if is_null_cipher w then 0 else 1) /\ zlen c = zlen data /\
  SuffixLen w (zlen data) (zlen extra) = Some (zlen t) /\ bytes (e ++ c ++ t) /\ params_ok w' /\
  exists r', aead_paired w' r' /\
    forall q, Open r type version seqnum header q (e ++ c ++ t) = (Some (data ++ extra), r').
Proof.
  intros Hp Hok Hd He Hx; assert (0 <= zlen extra <= 1) as Hxl by (destruct Hx as [-> |[-> _]]; unfold zlen; cbn [length]; lia).
  pose proof (suffix_len_spec w r (zlen data) (zlen extra) Hp Hxl) as Hsl.
  unfold SealScatter, is_null_cipher; cbn [contents addr]; rewrite Hsl; case_if; [discriminate|].
  destruct Hp as [Hk Hsame].
  destruct (keyed w) as [[cw x]|] eqn:Kw, (keyed r) as [[cr y]|] eqn:Kr; try easy.
  2:{ intros [= <- <- <- <-]; rewrite zlen_nil; cbn [app].
      split; [lia|]; split; [reflexivity|]; split; [reflexivity|]; split; [now apply bytes_app|]; split; [exact Hok|].
      exists r; split; [|intros q; unfold Open; now rewrite Kr]; unfold aead_paired; rewrite Kw, Kr; auto. }
  destruct Hk as [-> Hctx].
  destruct (if random_variable_nonce_ w then _ else _) as [v|] eqn:Ev; [|discriminate].
  destruct (variable_nonce_len w seqnum v Hok Ev) as [Lv Bv]; case_if; [discriminate|].
  destruct (EVP_AEAD_CTX_seal_scatter _ _ _ _ _ _ _ _) as [[[] [o tg]] x'] eqn:Es; [|discriminate].
  intros [= <- <- <- <-].
  destruct (ctx_seal_open _ _ _ _ _ _ _ _ _ _ _ _ _ Hctx Hd He Es) as (Lo & Lt & Bo & Bt & y' & Hy' & Hopen).
  split; [unfold ExplicitNonceLen; case_if; [lia|reflexivity]|]; split; [exact Lo|]; split; [now rewrite Lt|].
  split; [rewrite !bytes_app; split; [case_if; [exact Bv|constructor]|auto]|]; split; [exact Hok|].
  exists (with_ctx r cr y'); split; [split; [exact (conj eq_refl Hy')|exact Hsame]|]; intros q.
  apply (Open_of_ctx w r _ _ _ _ q v (o ++ tg) (zlen data) _ cr y); auto; [apply Hctx|..].
  - intros Ei; destruct Hok as (_ & H2 & _); destruct (random_variable_nonce_ w); [congruence|now injection Ev as <-].
  - intros Eo; destruct Hok as (_ & _ & Hfix); destruct (Hfix Eo) as [? Hf]; rewrite zlen_app, Lo, Lt, Hf.
    pose proof (zlen_nonneg data); split; [lia|]; intros Hh; destruct Hx as [-> |(_ & Hh' & _)]; [unfold zlen; cbn [length]; lia|congruence].
Qed.

Lemma SealScatter_suffix w r out_prefix out out_suffix type version seqnum header in_ extra x w' : aead_paired w r ->
  SealScatter w out_prefix out out_suffix type version seqnum header in_ extra = (Some x, w') ->
  forall n k, 0 <= k <= 1 -> SuffixLen w' n k = SuffixLen w n k.
Proof.
  intros [Hk _]; unfold SealScatter; destruct (SuffixLen w _ _) as [sl|]; [|discriminate]; case_if; [discriminate|].
  unfold SuffixLen; destruct (keyed w) as [[c ctx]|] eqn:K; [|intros [= _ <-]; now rewrite K].
  destruct (keyed r) as [[d ctx']|]; [|easy]; destruct Hk as (_ & Ec & _ & Tc & _).
  destruct (if random_variable_nonce_ w then _ else _); [|discriminate]; case_if; [discriminate|].
  destruct (EVP_AEAD_CTX_seal_scatter _ _ _ _ _ _ _ _) as [[[] [o t]] c'] eqn:Es; [|discriminate].
  intros [= _ <-] n k Hn; cbn [keyed with_ctx]; eapply ctx_tag_len_stable; eauto.
Qed.
End Pairing.

(** * Contexts for the two directions *)

(** The names of AEADs in the strict sense, and the nonce lengths the header
    documents. *)
Definition is_aead_name (n : aead_name) : bool :=
  match n with
  | EVP_aead_aes_128_gcm | EVP_aead_aes_128_gcm_tls12 | EVP_aead_aes_128_gcm_tls13
  | EVP_aead_aes_256_gcm | EVP_aead_aes_256_gcm_tls12 | EVP_aead_aes_256_gcm_tls13 | EVP_aead_chacha20_poly1305 => true
  | _ => false
  end.

Definition documented_nonce_len (n : aead_name) : Z :=
  match n with
  | EVP_aead_des_ede3_cbc_sha1_tls => 8
  | EVP_aead_aes_128_cbc_sha1_tls | EVP_aead_aes_256_cbc_sha1_tls | EVP_aead_aes_128_cbc_sha256_tls => 16
  | EVP_aead_des_ede3_cbc_sha1_tls_implicit_iv | EVP_aead_aes_128_cbc_sha1_tls_implicit_iv
  | EVP_aead_aes_256_cbc_sha1_tls_implicit_iv => 0
  | _ => 12
  end.

(** A table of implementations: each obeys the laws, contexts made from one key
    for the two directions belong together, and the true AEADs append a tag of
    fixed length. *)
Class AeadTable {S : Type} (aeads : aead_name -> EVP_AEAD S) : Type := {
  table_tag : aead_name -> Z;
  table_paired : aead_name -> S -> S -> Prop;
  table_laws : forall n, AeadLaws (aeads n) (table_tag n) (table_paired n);
  table_nonce : forall n, nonce_len (aeads n) = documented_nonce_len n;
  table_overhead : forall n, is_aead_name n = true -> tag_len (aeads n) = None /\ overhead (aeads n) = table_tag n;
  table_init : forall n key c d,
    EVP_AEAD_CTX_init_with_direction (aeads n) key EVP_AEAD_DEFAULT_TAG_LENGTH evp_aead_seal = Some c ->
    EVP_AEAD_CTX_init_with_direction (aeads n) key EVP_AEAD_DEFAULT_TAG_LENGTH evp_aead_open = Some d ->
    ctx_tag_len c = table_tag n /\ ctx_tag_len d = table_tag n /\ table_paired n (state c) (state d)
}.

(** The suites with and without a MAC key. *)
Lemma evp_aead_kinds {S} (aeads : aead_name -> EVP_AEAD S) c version dtls n mac_len iv_len :
  ssl_cipher_get_evp_aead aeads c version dtls = Some (n, mac_len, iv_len) ->
  is_aead_name n = (mac_len =? 0) /\ (mac_len = 0 ->
    documented_nonce_len n = 12 /\
    (version < TLS1_3_VERSION -> iv_len = if Z.land (algorithm_enc c) SSL_CHACHA20POLY1305 =? 0 then 4 else 12)).
Proof.
  unfold ssl_cipher_get_evp_aead; intros H; repeat case_if; try discriminate; injection H as <- <- <-; bool_facts.
  all: split; [reflexivity|]; intros Hz; first [discriminate Hz|split; [reflexivity|]; intros Hv]; try lia.
  all: repeat match goal with E : algorithm_enc ?c = _, H : context [algorithm_enc ?c] |- _ => rewrite E in H; vm_compute in H end;
    congruence.
Qed.

Section Created.
  Context {HA : Allocator} {HR : RandomSource} {S : Type}.
  Context (aeads : aead_name -> EVP_AEAD S) {T : AeadTable aeads}.

Lemma init_aead (A : EVP_AEAD S) key tag dir ctx : EVP_AEAD_CTX_init_with_direction A key tag dir = Some ctx -> aead ctx = A.
Proof.
  unfold EVP_AEAD_CTX_init_with_direction; case_if; [discriminate|].
  destruct (match init A with Some f => _ | None => _ end) as [[s t]|]; [|discriminate]; now intros [= <-].
Qed.

(** Suites with a MAC key are not suites of TLS 1.3. *)
Lemma mac_key_version c version dtls n mac_len iv_len : In c kCiphers ->
  ssl_cipher_get_evp_aead aeads c version dtls = Some (n, mac_len, iv_len) -> mac_len <> 0 ->
  version <= SSL_CIPHER_get_max_version c -> version < TLS1_3_VERSION.
Proof.
  intros Hin Ha Hm Hv; destruct (cipher_has_aead aeads c version dtls Hin) as (n' & m' & i' & Ha' & Hiff).
  rewrite Ha in Ha'; injection Ha' as <- <- <-.
  pose proof (each_cipher (fun c => SSL_CIPHER_is_aead c || (SSL_CIPHER_get_max_version c =? TLS1_2_VERSION)) eq_refl c Hin) as Hc.
  cbv beta in Hc; destruct (SSL_CIPHER_is_aead c); [now destruct Hm; apply Hiff|]; cbn [orb] in Hc; bool_facts.
  rewrite Hc in Hv; unfold TLS1_2_VERSION, TLS1_3_VERSION in *; lia.
Qed.

(** The two ends of a connection create contexts that belong together. *)
Lemma Create_paired sizeof version dtls c enc_key mac_key fixed_iv w r : In c kCiphers ->
  default 0 (ssl_protocol_version_from_wire version) <= SSL_CIPHER_get_max_version c ->
  Create aeads sizeof evp_aead_seal version dtls c enc_key mac_key fixed_iv = Some w ->
  Create aeads sizeof evp_aead_open version dtls c enc_key mac_key fixed_iv = Some r ->
  exists n, aead_paired (A := aeads n) (tag := table_tag n) (paired := table_paired n) w r /\
    params_ok (A := aeads n) (tag := table_tag n) w /\
    version_ w = version /\ is_dtls_ w = dtls /\ is_null_cipher w = false /\
    ad_is_header_ w = (TLS1_3_VERSION <=? ProtocolVersion w) /\
    ((TLS1_3_VERSION <=? ProtocolVersion w) = true -> variable_nonce_included_in_record_ w = false).
Proof.
  intros Hin Hmax; unfold Create; destruct (ssl_protocol_version_from_wire version) as [pv|] eqn:Epv; [|discriminate].
  change (default 0 (Some pv)) with pv in Hmax; destruct (ssl_cipher_get_evp_aead aeads c pv dtls) as [[[n ml] il]|] eqn:Ea; [|discriminate].
  destruct (evp_aead_kinds aeads _ _ _ _ _ _ Ea) as [Hkind Hlen].
  destruct (negb (il =? zlen fixed_iv) || negb (ml =? zlen mac_key)) eqn:Esz; [discriminate|]; bool_facts; subst il ml.
  case_if; [discriminate|]; destruct (negb (malloc_ok sizeof)); [discriminate|].
  set (key := if negb (zlen mac_key =? 0) then _ else enc_key).
  destruct (EVP_AEAD_CTX_init_with_direction (aeads n) key _ evp_aead_seal) as [x|] eqn:Ex; [|discriminate].
  destruct (EVP_AEAD_CTX_init_with_direction (aeads n) key _ evp_aead_open) as [y|] eqn:Ey; [|destruct (zlen mac_key =? 0); discriminate].
  assert (ctx_paired (A := aeads n) (tag := table_tag n) (paired := table_paired n) x y) as Hxy.
  { destruct (table_init n key x y Ex Ey) as (? & ? & ?); repeat split; auto; eapply init_aead; eauto. }
  pose proof (table_nonce n) as Hnl; pose proof (@aead_tag_fixed _ _ _ _ (table_laws n)) as Htf.
  unfold EVP_AEAD_nonce_length.
  destruct (Z.eqb_spec (zlen mac_key) 0) as [E0|E0]; intros [= <-] [= <-]; exists n.
  - destruct (Hlen E0) as [Hn12 Hiv]; destruct (table_overhead n Hkind) as [Hnone Hov].
    split; [split; [exact (conj eq_refl Hxy)|repeat split]|]; unfold ProtocolVersion; cbn [version_]; rewrite Epv; cbn [default].
    split; [|repeat split; cbn; intros ->; apply andb_false_r]; split; [|split]; cbn [variable_nonce_len_ random_variable_nonce_ omit_length_in_ad_].
    + unfold EVP_AEAD_MAX_NONCE_LENGTH; destruct (Z.leb_spec TLS1_3_VERSION pv) as [?|Hlt]; cbn [orb]; [lia|].
      specialize (Hiv Hlt); destruct (Z.land (algorithm_enc c) SSL_CHACHA20POLY1305 =? 0); cbn [negb]; [|lia].
      rewrite Hnl, Hn12, Hiv; vm_compute; split; congruence.
    + destruct (Z.leb_spec TLS1_3_VERSION pv) as [?|Hlt]; cbn [orb]; [lia|].
      specialize (Hiv Hlt); destruct (Z.land (algorithm_enc c) SSL_CHACHA20POLY1305 =? 0); cbn [negb]; [|lia].
      rewrite Hnl, Hn12, Hiv; vm_compute; congruence.
    + intros _; split; [lia|]; intros s k x0; unfold method_tag_len; rewrite Hnone; lia.
  - split; [split; [exact (conj eq_refl Hxy)|repeat split]|].
    assert (pv < TLS1_3_VERSION) as Hlt by (eapply mac_key_version; eauto; lia).
    unfold ProtocolVersion; cbn [version_]; rewrite Epv; cbn [default].
    split; [|repeat split; cbn; try (symmetry; apply Z.leb_gt; exact Hlt); intros E%Z.leb_le; unfold id in E; lia].
    split; [cbn [variable_nonce_len_]; rewrite Hnl; destruct n; vm_compute; split; congruence|]; split; [reflexivity|discriminate].
Qed.
End Created.

(** The table of the concrete AEAD, with keys of sixteen bytes. *)
Definition toy_table (n : aead_name) : EVP_AEAD Z := toy_aead 16 (documented_nonce_len n).

#[export] Instance toy_table_ok : AeadTable toy_table.
Proof.
  refine {| table_tag := fun _ => 16; table_paired := fun _ => eq |}.
  - reflexivity.
  - intros n _; split; reflexivity.
  - intros n key c d; unfold EVP_AEAD_CTX_init_with_direction, toy_table; cbn [key_len init toy_aead].
    case_if; [discriminate|]; intros [= <-] [= <-]; repeat split.
Defined.

(** Sealing changes nothing but the state of the AEAD. *)
Lemma SealScatter_same {HR : RandomSource} {S} (w w' : SSLAEADContext S) out_prefix out out_suffix type version seqnum header in_ extra r :
  SealScatter w out_prefix out out_suffix type version seqnum header in_ extra = (r, w') ->
  same_params w w' /\ is_null_cipher w' = is_null_cipher w /\ option_map fst (keyed w') = option_map fst (keyed w).
Proof.
  unfold SealScatter; destruct (SuffixLen w _ _) as [n|]; [|now intros [= <- <-]].
  case_if; [now intros [= <- <-]|]; unfold is_null_cipher; destruct (keyed w) as [[c ctx]|] eqn:K; [|intros [= <- <-]; now rewrite K].
  destruct (if random_variable_nonce_ w then _ else _); [|intros [= <- <-]; now rewrite K].
  case_if; [intros [= <- <-]; now rewrite K|].
  destruct (EVP_AEAD_CTX_seal_scatter _ _ _ _ _ _ _ _) as [[[] [? ?]] ?]; now intros [= <- <-].
Qed.
