(* ===== verification/TlsMessage.v ===== *)
(** Handshake messages over TLS records (ssl/s3_both.cc): the buffer in which
    the bodies of handshake records are joined, the reader of the first message
    in it, and the limits on what is buffered.

    [connection] has the fields of [SSL] that the record layer only reads;
    [messages] is the part of [SSL3_STATE] that this file changes. *)

From S2P Require Import Prelude Mem Cbs BufMem SslVersions.

Definition SSL_R_EXCESSIVE_MESSAGE_SIZE : Z := 150.
Definition SSL_AD_INTERNAL_ERROR : Z := 80.
Definition SSL_AD_ILLEGAL_PARAMETER : Z := 47.

(** [in_init] is [SSL_in_init]; [verify_peer] is the flag [SSL_VERIFY_PEER] of
    [config->verify_mode]; [negotiated_version] is [ssl->version], final once
    [have_version] holds. *)
Record connection : Type := {
  server : bool;
  mode : Z;
  in_init : bool;
  verify_peer : bool;
  max_cert_list : Z;
  have_version : bool;
  negotiated_version : Z
}.

Record messages : Type := {
  hs_buf : option BUF_MEM;
  has_message : bool;
  is_v2_hello : bool
}.

Record SSLMessage : Type := {
  msg_is_v2_hello : bool;
  msg_type : Z;
  msg_body : CBS;
  msg_raw : CBS
}.

(** [ssl_protocol_version] (ssl_versions.cc). *)
Definition ssl_protocol_version (ssl : connection) : Z :=
  default 0 (ssl_protocol_version_from_wire (negotiated_version ssl)).

(** [ssl_max_handshake_message_len] (handshake.cc). *)
Definition kMaxMessageLen : Z := 16384.

Definition ssl_max_handshake_message_len (ssl : connection) : Z :=
  if in_init ssl then
    if (negb (server ssl) || verify_peer ssl) && (kMaxMessageLen <? max_cert_list ssl) then max_cert_list ssl
    else kMaxMessageLen
  else if ssl_protocol_version ssl <? TLS1_3_VERSION then 0
  else if server ssl then 1
  else kMaxMessageLen.

(** The message, or the number of bytes that are needed. *)
Definition parse_message (m : messages) : Z + SSLMessage :=
  match hs_buf m with
  | None => inl 4
  | Some buf =>
      let cbs := CBS_init (bm_data buf) (bm_length buf) in
      match (let! type := CBS_get_u8 in let! len := CBS_get_u24 in st_ret (type, len)) cbs with
      | (None, _) => inl 4
      | (Some (type, len), cbs) =>
          match CBS_get_bytes len cbs with
          | (None, _) => inl (4 + len)
          | (Some body, _) =>
              inr {| msg_is_v2_hello := is_v2_hello m; msg_type := type; msg_body := body;
                     msg_raw := CBS_init (bm_data buf) (4 + len) |}
          end
      end
  end.

Definition with_has_message (m : messages) (b : bool) : messages :=
  {| hs_buf := hs_buf m; has_message := b; is_v2_hello := is_v2_hello m |}.

Definition tls_get_message (m : messages) : option SSLMessage * messages :=
  match parse_message m with
  | inl _ => (None, m)
  | inr out => (Some out, if negb (has_message m) then with_has_message m true else m)
  end.

(** [None]: handshake data may be read. *)
Definition tls_can_accept_handshake_data (ssl : connection) (m : messages) : option ssl_error :=
  match parse_message m with
  | inr _ => Some {| reason := ERR_R_INTERNAL_ERROR; out_alert := SSL_AD_INTERNAL_ERROR |}
  | inl bytes_needed =>
      if u64 (4 + ssl_max_handshake_message_len ssl) <? bytes_needed
      then Some {| reason := SSL_R_EXCESSIVE_MESSAGE_SIZE; out_alert := SSL_AD_ILLEGAL_PARAMETER |}
      else None
  end.

Definition tls_has_unprocessed_handshake_data (m : messages) : bool :=
  let msg_len :=
    if has_message m then match parse_message m with inr msg => CBS_len (msg_raw msg) | inl _ => 0 end else 0 in
  match hs_buf m with
  | None => false
  | Some buf => msg_len <? bm_length buf
  end.

Section Buffer.
  Context `{Allocator}.
  (** sizeof(BUF_MEM). *)
  Variable sizeof_buf : Z.

Definition with_hs_buf (m : messages) (b : option BUF_MEM) : messages :=
  {| hs_buf := b; has_message := has_message m; is_v2_hello := is_v2_hello m |}.

Definition tls_append_handshake_data (m : messages) (data : list Z) : bool * messages :=
  let m := match hs_buf m with
           | None => with_hs_buf m (if malloc_ok sizeof_buf then Some BUF_MEM_new else None)
           | Some _ => m
           end in
  match hs_buf m with
  | None => (false, m)
  | Some buf => let '(ok, buf) := BUF_MEM_append buf data in (ok, with_hs_buf m (Some buf))
  end.
End Buffer.

(** The assertion that there is a message is the outer [None]. *)
Definition tls_next_message (ssl : connection) (m : messages) : option messages :=
  match tls_get_message m with
  | (None, _) => None
  | (Some msg, m) =>
      match hs_buf m with
      | None => None
      | Some buf =>
          let n := CBS_len (msg_raw msg) in
          if bm_length buf <? n then None
          else
            let rest := ztake (bm_length buf - n) (zdrop n (bm_data buf)) in
            let buf := {| bm_length := bm_length buf - n; bm_data := zsplice (bm_data buf) 0 rest; bm_max := bm_max buf |} in
            Some {| hs_buf := if negb (in_init ssl) && (bm_length buf =? 0) then None else Some buf;
                    has_message := false; is_v2_hello := false |}
      end
  end.

(** * The messages in a stream of bytes *)

(** The wire form of a message (RFC 8446, section 4). *)
Definition wire_message (x : Z * list Z) : list Z := fst x :: be_enc 3 (zlen (snd x)) ++ snd x.

Definition message_ok (x : Z * list Z) : Prop := byte (fst x) /\ bytes (snd x) /\ zlen (snd x) < 2 ^ 24.

(** The first message of a byte string, or how many bytes it needs. *)
Definition first_message (c : list Z) : Z + (Z * list Z * list Z) :=
  match c with
  | t :: a :: b :: d :: rest =>
      let len := be_val [a; b; d] in
      if zlen rest <? len then inl (4 + len) else inr (t, ztake len rest, zdrop len rest)
  | _ => inl 4
  end.

(** All complete messages of a byte string, and what is left. *)
Fixpoint split_messages (fuel : nat) (c : list Z) : list (Z * list Z) * list Z :=
  match fuel with
  | O => ([], c)
  | S fuel =>
      match first_message c with
      | inl _ => ([], c)
      | inr (t, body, rest) => let '(ms, tail) := split_messages fuel rest in ((t, body) :: ms, tail)
      end
  end.

Definition messages_of (c : list Z) : list (Z * list Z) * list Z := split_messages (length c) c.

Lemma first_message_inr c t body rest : bytes c -> first_message c = inr (t, body, rest) ->
  c = wire_message (t, body) ++ rest /\ message_ok (t, body) /\ (length rest < length c)%nat.
Proof.
  unfold first_message; destruct c as [|t' [|a [|b [|d r]]]]; try discriminate; intros Hb.
  destruct (Z.ltb_spec (zlen r) (be_val [a; b; d])) as [|Hge]; [discriminate|]; intros [= -> <- <-].
  apply bytes_cons in Hb as [Ht Hb]; change (a :: b :: d :: r) with ([a; b; d] ++ r) in Hb; apply bytes_app in Hb as [Hh Hr].
  pose proof (be_val_nonneg _ Hh) as H0; pose proof (be_val_bound _ Hh) as H1; change (256 ^ zlen [a; b; d]) with (2 ^ 24) in H1.
  unfold wire_message, message_ok; cbn [fst snd]; rewrite zlen_ztake by lia.
  split; [|repeat split; try apply Ht; auto with zlist; unfold zdrop; cbn [length]; rewrite length_drop; lia].
  pose proof (be_enc_be_val [a; b; d] Hh) as E; cbn [length] in E; rewrite E; cbn [app]; now rewrite ztake_zdrop.
Qed.

Lemma first_message_wire x rest : message_ok x -> first_message (wire_message x ++ rest) = inr (x, rest).
Proof.
  destruct x as [t body]; unfold message_ok, wire_message; cbn [fst snd]; intros (Ht & Hb & Hl).
  pose proof (length_be_enc 3 (zlen body)) as L; pose proof (be_val_be_enc 3 (zlen body)) as V.
  rewrite Z.mod_small in V by (pose proof (zlen_nonneg body); lia).
  destruct (be_enc 3 (zlen body)) as [|a [|b [|d [|]]]]; try discriminate L; cbn [app first_message].
  rewrite V, zlen_app, (proj2 (Z.ltb_ge _ _)) by zl; now rewrite ztake_app, zdrop_app.
Qed.

Lemma wire_message_len x : zlen (wire_message x) = 4 + zlen (snd x).
Proof. unfold wire_message; rewrite zlen_cons, zlen_app, zlen_be_enc; lia. Qed.

(** More fuel than bytes changes nothing. *)
Lemma split_fuel n : forall m c, bytes c -> (length c <= n)%nat -> (length c <= m)%nat -> split_messages n c = split_messages m c.
Proof.
  induction n as [|n IH]; intros [|m] c Hb Hn Hm; cbn [split_messages];
    try (assert (c = []) as -> by (now apply nil_length_inv; lia); reflexivity).
  destruct (first_message c) as [|[[t body] rest]] eqn:E; [reflexivity|].
  destruct (first_message_inr c t body rest Hb E) as (Ec & _ & Hl).
  rewrite (IH m rest); [reflexivity| |lia|lia]; rewrite Ec in Hb; now apply bytes_app in Hb.
Qed.

Lemma split_app n : forall c d, bytes (c ++ d) -> (length c <= n)%nat ->
  let '(ms, t) := split_messages n c in
  messages_of (c ++ d) = let '(ms', t') := messages_of (t ++ d) in (ms ++ ms', t').
Proof.
  induction n as [|n IH]; intros c d Hb Hn; cbn [split_messages]; [now destruct (messages_of (c ++ d))|].
  pose proof (proj1 (proj1 (bytes_app _ _) Hb)) as Hc.
  destruct (first_message c) as [|[[t body] rest]] eqn:E; [now destruct (messages_of (c ++ d))|].
  destruct (first_message_inr c t body rest Hc E) as (Ec & Hok & Hl).
  assert (bytes (rest ++ d)) as Hr by (rewrite Ec, <- app_assoc in Hb; now apply bytes_app in Hb).
  specialize (IH rest d Hr ltac:(lia)); destruct (split_messages n rest) as [ms tl] eqn:Es.
  unfold messages_of at 1; pose proof (first_message_wire (t, body) (rest ++ d) Hok) as Ef.
  rewrite app_assoc, <- Ec in Ef; destruct (length (c ++ d)) as [|k] eqn:Ek; [apply nil_length_inv in Ek; now rewrite Ek in Ef|].
  cbn [split_messages]; rewrite Ef, (split_fuel k (length (rest ++ d))); auto; [|rewrite length_app in *; lia].
  fold (messages_of (rest ++ d)); rewrite IH; destruct (messages_of (tl ++ d)) as [ms' t']; reflexivity.
Qed.

(** Reading a stream in two parts. *)
Lemma messages_of_app c d : bytes (c ++ d) ->
  messages_of (c ++ d) = let '(ms, t) := messages_of c in let '(ms', t') := messages_of (t ++ d) in (ms ++ ms', t').
Proof.
  intros Hb; pose proof (split_app (length c) c d Hb (le_n _)) as H; unfold messages_of at 2.
  destruct (split_messages (length c) c) as [ms t]; exact H.
Qed.

Lemma messages_bytes ms : Forall message_ok ms -> bytes (concat (map wire_message ms)).
Proof.
  induction 1 as [|[t b] ms (Ht & Hb & _) _ IH]; cbn [map concat]; [constructor|].
  apply bytes_app; split; [|exact IH]; apply bytes_cons; split; [exact Ht|]; apply bytes_app; auto using bytes_be_enc.
Qed.

Lemma messages_of_wire ms : Forall message_ok ms -> messages_of (concat (map wire_message ms)) = (ms, []).
Proof.
  pose proof messages_bytes as Hbytes; intros H; induction H as [|x ms Hx Hms IH]; [reflexivity|]; cbn [map concat].
  unfold messages_of; destruct (length _) as [|k] eqn:Ek; [now apply nil_length_inv in Ek|].
  cbn [split_messages]; rewrite first_message_wire by exact Hx.
  rewrite (split_fuel k (length (concat (map wire_message ms)))); auto; [|rewrite length_app in Ek; cbn in Ek; lia].
  fold (messages_of (concat (map wire_message ms))); rewrite IH; now destruct x.
Qed.

(** Nothing is lost. *)
Lemma messages_of_rebuild c : bytes c ->
  c = concat (map wire_message (fst (messages_of c))) ++ snd (messages_of c).
Proof.
  unfold messages_of; generalize (length c) as n; intros n; revert c.
  induction n as [|n IH]; intros c Hb; cbn [split_messages]; [reflexivity|].
  destruct (first_message c) as [|[[t body] rest]] eqn:E; [reflexivity|].
  destruct (first_message_inr c t body rest Hb E) as (Ec & _ & _).
  assert (bytes rest) as Hr by (rewrite Ec in Hb; now apply bytes_app in Hb).
  specialize (IH rest Hr); destruct (split_messages n rest) as [ms tl]; cbn [fst snd map concat] in *.
  rewrite Ec at 1; rewrite IH at 1; apply app_assoc.
Qed.

(** What is left of a stream is incomplete. *)
Lemma messages_of_tail c : bytes c -> exists n, first_message (snd (messages_of c)) = inl n.
Proof.
  unfold messages_of; intros Hb; generalize (le_n (length c)); generalize (length c) at 2 3 as n; intros n; revert c Hb.
  induction n as [|n IH]; intros c Hb Hn; cbn [split_messages].
  - assert (c = []) as -> by (apply nil_length_inv; lia); now exists 4.
  - destruct (first_message c) as [k|[[t body] rest]] eqn:E; [exists k; exact E|].
    destruct (first_message_inr c t body rest Hb E) as (Ec & _ & Hl).
    assert (bytes rest) as Hr by (rewrite Ec in Hb; now apply bytes_app in Hb).
    destruct (IH rest Hr ltac:(lia)) as [k Hk]; exists k; destruct (split_messages n rest); exact Hk.
Qed.

(** An incomplete message needs no more than it will have. *)
Lemma needed_bound t d x rest n : t ++ d = wire_message x ++ rest -> message_ok x -> first_message t = inl n ->
  n <= 4 + zlen (snd x).
Proof.
  intros E Hok Hf; pose proof (zlen_nonneg (snd x)); destruct t as [|t [|a [|b [|c r]]]]; cbn [first_message] in Hf;
    try (injection Hf as <-; lia).
  destruct (zlen r <? be_val [a; b; c]); [|discriminate]; injection Hf as <-.
  unfold wire_message in E; destruct x as [u body]; cbn [fst snd] in *.
  pose proof (length_be_enc 3 (zlen body)) as L; pose proof (be_val_be_enc 3 (zlen body)) as V.
  rewrite Z.mod_small in V by (destruct Hok as (_ & _ & ?); cbn [snd] in *; lia).
  destruct (be_enc 3 (zlen body)) as [|a' [|b' [|c' [|]]]]; try discriminate L; cbn [app] in E.
  injection E as -> -> -> -> _; lia.
Qed.

(** * The buffer delivers the messages of the stream *)

Definition buffered (m : messages) : list Z := match hs_buf m with None => [] | Some b => bm_contents b end.
Definition messages_wf (m : messages) : Prop :=
  match hs_buf m with None => True | Some b => bm_ok b end /\ bytes (buffered m).

Lemma parse_message_spec m : messages_wf m ->
  parse_message m =
    match first_message (buffered m) with
    | inl n => inl n
    | inr (t, body, _) => inr {| msg_is_v2_hello := is_v2_hello m; msg_type := t; msg_body := body;
                                 msg_raw := wire_message (t, body) |}
    end.
Proof.
  intros [Hw Hb]; unfold parse_message, buffered in *; destruct (hs_buf m) as [b|]; [|reflexivity].
  unfold CBS_init at 1; fold (bm_contents b); pose proof (zlen_bm_contents b Hw) as Hl.
  assert (forall n, 0 <= n <= zlen (bm_contents b) -> ztake n (bm_data b) = ztake n (bm_contents b)) as Ht by
    (intros n Hn; unfold bm_contents; rewrite ztake_ztake by lia; reflexivity).
  revert Hl Hb Ht; generalize (bm_contents b) as c; intros c Hl Hb Ht.
  destruct c as [|t c]; [reflexivity|]; erewrite st_bind_some by apply CBS_get_u8_cons.
  destruct c as [|a1 [|a2 [|a3 r]]]; try reflexivity.
  apply bytes_cons in Hb as [Hbt Hb]; change (a1 :: a2 :: a3 :: r) with ([a1; a2; a3] ++ r) in Hb |- *.
  apply bytes_app in Hb as [Hh Hr]; pose proof (be_val_nonneg _ Hh) as H0; pose proof (be_val_bound _ Hh) as H1.
  change (256 ^ zlen [a1; a2; a3]) with (2 ^ 24) in H1.
  pose proof (be_enc_be_val [a1; a2; a3] Hh) as Ee; cbn [length] in Ee; rewrite <- Ee at 1.
  erewrite st_bind_some by (apply CBS_get_u24_be; lia); unfold st_ret; cbn [first_message app].
  unfold CBS_get_bytes, cbs_get, st_bind, CBS_len; destruct (Z.ltb_spec (zlen r) (be_val [a1; a2; a3])); [reflexivity|].
  unfold CBS_init; rewrite (ztake_all _ (ztake _ r)) by (rewrite zlen_ztake; lia); repeat f_equal.
  rewrite Ht by (autorewrite with zlist; lia); unfold wire_message; cbn [fst snd].
  rewrite zlen_ztake, Ee by lia; replace (4 + be_val [a1; a2; a3]) with (1 + (1 + (1 + (1 + be_val [a1; a2; a3])))) by lia.
  cbn [app]; rewrite !ztake_cons by lia; do 4 f_equal; f_equal; lia.
Qed.

(** The reader: every complete message, in order. *)
Fixpoint drain (fuel : nat) (ssl : connection) (m : messages) : option (list (Z * list Z) * messages) :=
  match tls_get_message m with
  | (None, m) => Some ([], m)
  | (Some msg, m) =>
      match fuel, tls_next_message ssl m with
      | S fuel, Some m => match drain fuel ssl m with
                          | Some (ms, m) => Some ((msg_type msg, msg_body msg) :: ms, m)
                          | None => None
                          end
      | _, _ => None
      end
  end.

(** Removing the first message. *)
Lemma next_message_spec ssl m t body rest : messages_wf m -> first_message (buffered m) = inr (t, body, rest) ->
  exists m', tls_next_message ssl m = Some m' /\ buffered m' = rest /\ messages_wf m'.
Proof.
  intros [Hw Hb] Hf; destruct (first_message_inr _ _ _ _ Hb Hf) as (Ec & Hok & _).
  unfold tls_next_message, tls_get_message; rewrite parse_message_spec by (split; assumption); rewrite Hf.
  set (m1 := if negb (has_message m) then _ else m).
  assert (hs_buf m1 = hs_buf m) as -> by (unfold m1; now case_if); clear m1; unfold buffered in *.
  destruct (hs_buf m) as [b|]; [|discriminate Hf]; cbn [msg_raw]; unfold CBS_len; rewrite wire_message_len; cbn [snd].
  pose proof (zlen_bm_contents b Hw) as Hl; pose proof (f_equal zlen Ec) as Hz; rewrite zlen_app, wire_message_len in Hz; cbn [snd] in Hz.
  pose proof (zlen_nonneg rest); pose proof (zlen_nonneg body); rewrite (proj2 (Z.ltb_ge _ _)) by lia.
  set (n := 4 + zlen body) in *; assert (zlen rest = bm_length b - n) as Hr by lia.
  assert (ztake (bm_length b - n) (zdrop n (bm_data b)) = rest) as Erest.
  { destruct Hw as (? & ? & ?).
    assert (zdrop n (ztake (n + (bm_length b - n)) (bm_data b)) = ztake (bm_length b - n) (zdrop n (bm_data b))) as <- by
      (apply zdrop_ztake; lia).
    replace (n + (bm_length b - n)) with (bm_length b) by lia; fold (bm_contents b); rewrite Ec.
    apply zdrop_app_eq; rewrite wire_message_len; reflexivity. }
  rewrite Erest; cbn [bm_length]; eexists; split; [reflexivity|]; unfold messages_wf, buffered; cbn [hs_buf].
  assert (bytes rest) as Hbr by (rewrite Ec in Hb; now apply bytes_app in Hb).
  destruct (negb (in_init ssl) && (bm_length b - n =? 0)) eqn:E0.
  - apply andb_true_iff in E0 as [_ E0%Z.eqb_eq]; rewrite (zlen_0_nil rest) by lia; repeat split; constructor.
  - destruct Hw as (H1 & H2 & H3); unfold bm_contents, bm_ok; cbn [bm_length bm_data bm_max].
    rewrite zsplice_0, ztake_app_eq by lia; repeat split; try lia; auto; rewrite zlen_app, zlen_zdrop; lia.
Qed.

Lemma drain_spec ssl n : forall m, messages_wf m -> (length (buffered m) <= n)%nat ->
  exists m', drain n ssl m = Some (fst (messages_of (buffered m)), m') /\
    buffered m' = snd (messages_of (buffered m)) /\ messages_wf m'.
Proof.
  intros m Hw Hn; assert (bytes (buffered m)) as Hb by apply Hw.
  assert (messages_of (buffered m) = split_messages n (buffered m)) as -> by (apply split_fuel; auto).
  revert m Hw Hn Hb; induction n as [|n IH]; intros m Hw Hn Hb; cbn [drain split_messages].
  all: unfold tls_get_message; rewrite parse_message_spec by exact Hw.
  { assert (buffered m = []) as E by (apply nil_length_inv; lia); rewrite E; cbn [first_message fst snd]; eauto. }
  destruct (first_message (buffered m)) as [k|[[t body] rest]] eqn:E; [cbn [fst snd]; eauto|].
  set (m1 := if negb (has_message m) then _ else m).
  assert (buffered m1 = buffered m /\ messages_wf m1) as [E1 Hw1] by (unfold m1; case_if; split; auto).
  rewrite <- E1 in E; destruct (next_message_spec ssl m1 t body rest Hw1 E) as (m2 & -> & Eb & Hw2).
  rewrite E1 in E; destruct (first_message_inr _ _ _ _ Hb E) as (_ & _ & Hl).
  assert (bytes (buffered m2)) as Hb2 by apply Hw2.
  destruct (IH m2 Hw2 ltac:(rewrite Eb; lia) Hb2) as (m3 & -> & E3 & Hw3); rewrite Eb in *.
  cbn [msg_type msg_body]; destruct (split_messages n rest); cbn [fst snd] in *; eauto.
Qed.

Section Feed.
  Context {HA : Allocator} (sizeof_buf : Z).

(** The handshake loop: each record body is appended if the buffer accepts
    data, then every complete message is taken out. *)
Fixpoint feed (ssl : connection) (m : messages) (chunks : list (list Z)) : option (list (Z * list Z) * messages) :=
  match chunks with
  | [] => Some ([], m)
  | chunk :: chunks =>
      match tls_can_accept_handshake_data ssl m with
      | Some _ => None
      | None =>
          match tls_append_handshake_data sizeof_buf m chunk with
          | (false, _) => None
          | (true, m) =>
              match drain (length (buffered m)) ssl m with
              | None => None
              | Some (ms, m) =>
                  match feed ssl m chunks with
                  | None => None
                  | Some (ms', m) => Some (ms ++ ms', m)
                  end
              end
          end
      end
  end.

Lemma append_data_spec m data : messages_wf m -> bytes data -> zlen (buffered m) + zlen data < 2 ^ 63 ->
  (forall n, malloc_ok n = true) ->
  exists m', tls_append_handshake_data sizeof_buf m data = (true, m') /\ messages_wf m' /\ buffered m' = buffered m ++ data.
Proof.
  intros [Hw Hb] Hd Hl Hmem; pose proof (zlen_nonneg data); pose proof (zlen_nonneg (buffered m)).
  unfold tls_append_handshake_data; rewrite Hmem.
  set (m1 := match hs_buf m with None => _ | Some _ => m end).
  assert (exists b, hs_buf m1 = Some b /\ bm_ok b /\ bm_contents b = buffered m) as (b & Eb & Hok & Ec).
  { unfold m1, buffered; destruct (hs_buf m) as [b|] eqn:E; [eauto|]; exists BUF_MEM_new; auto using bm_new_ok. }
  rewrite Eb; pose proof (BUF_MEM_append_correct b data Hok ltac:(pow2; lia)) as Ha.
  destruct (BUF_MEM_append b data) as [ok b']; destruct Ha as (H1 & H2 & _ & H4).
  assert (ok = true) as -> by (apply H4; [rewrite <- (zlen_bm_contents b Hok), Ec; lia|intros n _; apply Hmem]).
  eexists; split; [reflexivity|]; unfold messages_wf, buffered at 1 2; cbn [hs_buf with_hs_buf].
  rewrite H2, Ec by reflexivity; split; [split; [exact H1|now apply bytes_app]|reflexivity].
Qed.

Lemma max_len_nonneg ssl : 0 <= ssl_max_handshake_message_len ssl.
Proof. unfold ssl_max_handshake_message_len, kMaxMessageLen; repeat case_if; bool_facts; lia. Qed.

(** What is buffered while a stream of acceptable messages arrives never
    exceeds the limit. *)
Lemma stream_accepted ssl m d ms : messages_wf m -> bytes d -> ssl_max_handshake_message_len ssl < 2 ^ 63 ->
  Forall message_ok ms -> Forall (fun x => zlen (snd x) <= ssl_max_handshake_message_len ssl) ms ->
  (exists n, first_message (buffered m) = inl n) -> messages_of (buffered m ++ d) = (ms, []) ->
  tls_can_accept_handshake_data ssl m = None.
Proof.
  intros Hw Hd H63 Hms Hmax [n Hn] He; pose proof (max_len_nonneg ssl); assert (bytes (buffered m)) as Hb by apply Hw.
  unfold tls_can_accept_handshake_data; rewrite parse_message_spec, Hn by exact Hw.
  rewrite uw_small by (pow2; lia); rewrite (proj2 (Z.ltb_ge _ _)); [reflexivity|].
  pose proof (messages_of_rebuild (buffered m ++ d) ltac:(rewrite bytes_app; auto)) as E; rewrite He in E.
  destruct ms as [|x ms]; cbn [fst snd map concat app] in E.
  - apply app_eq_nil in E as [E _]; rewrite E in Hn; cbn in Hn; injection Hn as <-; lia.
  - rewrite <- app_assoc in E; pose proof (needed_bound _ _ _ _ _ E (Forall_inv Hms) Hn).
    pose proof (Forall_inv Hmax) as Hx; cbv beta in Hx; lia.
Qed.

Lemma feed_spec ssl : ssl_max_handshake_message_len ssl < 2 ^ 63 -> (forall n, malloc_ok n = true) ->
  forall chunks ms m, messages_wf m -> Forall bytes chunks -> zlen (buffered m ++ concat chunks) < 2 ^ 63 ->
  Forall message_ok ms -> Forall (fun x => zlen (snd x) <= ssl_max_handshake_message_len ssl) ms ->
  (exists n, first_message (buffered m) = inl n) -> messages_of (buffered m ++ concat chunks) = (ms, []) ->
  exists m', feed ssl m chunks = Some (ms, m') /\ buffered m' = [] /\ messages_wf m'.
Proof.
  intros H63 Hmem; induction chunks as [|chunk chunks IH]; intros ms m Hw Hch Hl Hms Hmax Hn He; cbn [feed concat] in *.
  - destruct Hn as [n Hn]; rewrite app_nil_r in He; assert (messages_of (buffered m) = ([], buffered m)) as E.
    { unfold messages_of; destruct (length (buffered m)); cbn [split_messages]; [reflexivity|now rewrite Hn]. }
    rewrite E in He; injection He as <- He; eauto.
  - inversion_clear Hch as [|? ? Hc Hcs]; assert (bytes (buffered m)) as Hbm by apply Hw.
    assert (bytes (concat chunks)) as Hcc by (clear -Hcs; induction Hcs; cbn; [constructor|apply bytes_app; auto]).
    rewrite (stream_accepted ssl m (chunk ++ concat chunks) ms) by (auto; now apply bytes_app).
    rewrite !zlen_app in Hl; pose proof (zlen_nonneg (concat chunks)).
    destruct (append_data_spec m chunk Hw Hc ltac:(lia) Hmem) as (m1 & -> & Hw1 & E1).
    destruct (drain_spec ssl (length (buffered m1)) m1 Hw1 (le_n _)) as (m2 & -> & E2 & Hw2).
    rewrite app_assoc, messages_of_app, <- E1 in He by (rewrite !bytes_app; auto).
    pose proof (messages_of_tail (buffered m1) ltac:(apply Hw1)) as Htail; rewrite <- E2 in Htail.
    pose proof (f_equal zlen (messages_of_rebuild (buffered m1) ltac:(apply Hw1))) as Hz; rewrite zlen_app, <- E2 in Hz.
    pose proof (f_equal zlen E1) as Hz1; rewrite zlen_app in Hz1.
    destruct (messages_of (buffered m1)) as [ms1 t1]; cbn [fst snd] in *; subst t1.
    destruct (messages_of (buffered m2 ++ concat chunks)) as [ms2 t2] eqn:E3; injection He as <- ->.
    apply Forall_app in Hms as [_ Hms2], Hmax as [_ Hmax2].
    destruct (IH ms2 m2 Hw2 Hcs ltac:(rewrite zlen_app; pose proof (zlen_nonneg (concat (map wire_message ms1))); lia) Hms2 Hmax2 Htail E3)
      as (m3 & -> & E4 & Hw4); eauto.
Qed.

(** Handshake messages are delivered as they were sent, however they are cut
    into records: the limit on buffered data is never hit by messages that are
    no longer than it, every message comes out once, in order, and the buffer
    is empty at the end. *)
Theorem tls_messages_delivered (ssl : connection) (ms : list (Z * list Z)) (chunks : list (list Z)) :
  Forall message_ok ms -> Forall (fun x => zlen (snd x) <= ssl_max_handshake_message_len ssl) ms ->
  concat chunks = concat (map wire_message ms) -> Forall bytes chunks -> zlen (concat chunks) < 2 ^ 63 ->
  ssl_max_handshake_message_len ssl < 2 ^ 63 -> (forall n, malloc_ok n = true) ->
  exists m, feed ssl {| hs_buf := None; has_message := false; is_v2_hello := false |} chunks = Some (ms, m) /\
    buffered m = [] /\ tls_has_unprocessed_handshake_data m = false.
Proof.
  intros Hms Hmax E Hch Hl H63 Hmem.
  destruct (feed_spec ssl H63 Hmem chunks ms {| hs_buf := None; has_message := false; is_v2_hello := false |})
    as (m & Hf & Hb & Hw); auto; [split; [exact I|constructor]|now exists 4| |].
  - cbn [buffered hs_buf app]; rewrite E; now apply messages_of_wire.
  - exists m; split; [exact Hf|]; split; [exact Hb|]; unfold tls_has_unprocessed_handshake_data.
    rewrite parse_message_spec, Hb by exact Hw; cbn [first_message]; destruct Hw as [Hw _]; unfold buffered in Hb.
    destruct (hs_buf m) as [b|]; [|reflexivity]; pose proof (zlen_bm_contents b Hw) as Hl'; rewrite Hb, zlen_nil in Hl'.
    rewrite <- Hl'; now destruct (has_message m).
Qed.
End Feed.

Lemma tls_messages_delivered_witness :
  let ssl := {| server := false; mode := 0; in_init := true; verify_peer := false; max_cert_list := 102400;
                have_version := false; negotiated_version := 0 |} in
  exists m, feed (HA := allocator_total) 24 ssl {| hs_buf := None; has_message := false; is_v2_hello := false |}
      [[2; 0]; [0; 3; 7; 8; 9; 20; 0]; [0; 1]; []; [5; 14; 0; 0; 0]] = Some ([(2, [7; 8; 9]); (20, [5]); (14, [])], m) /\
    buffered m = [] /\ tls_has_unprocessed_handshake_data m = false.
Proof.
  apply (tls_messages_delivered (HA := allocator_total) 24).
  - repeat apply List.Forall_cons; try apply List.Forall_nil; (split; [cbn; unfold byte; lia|]; split; [cbn; each_literal|reflexivity]).
  - repeat apply List.Forall_cons; try apply List.Forall_nil; vm_compute; congruence.
  - reflexivity.
  - repeat apply List.Forall_cons; try apply List.Forall_nil; unfold byte; lia.
  - vm_compute; reflexivity.
  - vm_compute; reflexivity.
  - reflexivity.
Defined.
