(* ===== verification/TlsRecord.v ===== *)
(** The TLS record layer (ssl/tls_record.cc): reading one record from the
    network, with its limits on empty records, warning alerts and skipped early
    data, and writing one, with the splitting of TLS 1.0 CBC records.

    The state is split by direction: [read_state] and [write_state] are the
    fields of [SSL3_STATE] that reading and writing change. The message and info
    callbacks only observe and are left out. *)

From S2P Require Import Prelude Mem Cbs BufMem Words Md32 Sha256 Sha512 Sha1 Md5 Digest Aead.
From S2P Require Import SslVersions SslCipher SslAead TlsMessage.

(** * Constants *)

Definition SSL3_RT_HEADER_LENGTH : Z := 5.
Definition SSL3_RT_MAX_PLAIN_LENGTH : Z := 16384.
Definition SSL3_RT_MAX_ENCRYPTED_OVERHEAD : Z := 256 + 64.
Definition SSL3_RT_MAX_ENCRYPTED_LENGTH : Z := SSL3_RT_MAX_ENCRYPTED_OVERHEAD + SSL3_RT_MAX_PLAIN_LENGTH.
Definition SSL3_RT_CHANGE_CIPHER_SPEC : Z := 20.
Definition SSL3_RT_ALERT : Z := 21.
Definition SSL3_RT_HANDSHAKE : Z := 22.
Definition SSL3_RT_APPLICATION_DATA : Z := 23.
Definition SSL3_VERSION_MAJOR : Z := 3.
Definition SSL3_AL_WARNING : Z := 1.
Definition SSL3_AL_FATAL : Z := 2.
Definition SSL_MODE_CBC_RECORD_SPLITTING : Z := 0x100.
Definition SSL_AD_REASON_OFFSET : Z := 1000.

Definition SSL_AD_CLOSE_NOTIFY : Z := 0.
Definition SSL_AD_UNEXPECTED_MESSAGE : Z := 10.
Definition SSL_AD_BAD_RECORD_MAC : Z := 20.
Definition SSL_AD_RECORD_OVERFLOW : Z := 22.
Definition SSL_AD_DECRYPT_ERROR : Z := 51.
Definition SSL_AD_USER_CANCELLED : Z := 90.

Definition SSL_R_BAD_ALERT : Z := 102.
Definition SSL_R_DATA_LENGTH_TOO_LONG : Z := 136.
Definition SSL_R_DECRYPTION_FAILED_OR_BAD_RECORD_MAC : Z := 139.
Definition SSL_R_ENCRYPTED_LENGTH_TOO_LONG : Z := 146.
Definition SSL_R_TOO_MANY_EMPTY_FRAGMENTS : Z := 219.
Definition SSL_R_TOO_MANY_WARNING_ALERTS : Z := 220.
Definition SSL_R_UNEXPECTED_RECORD : Z := 225.
Definition SSL_R_UNKNOWN_ALERT_TYPE : Z := 227.
Definition SSL_R_WRONG_VERSION_NUMBER : Z := 247.
Definition SSL_R_INVALID_OUTER_RECORD_TYPE : Z := 251.
Definition SSL_R_TOO_MUCH_SKIPPED_EARLY_DATA : Z := 270.

Definition kMaxEmptyRecords : Z := 32.
Definition kMaxEarlyDataSkipped : Z := 16384.
Definition kMaxWarningAlerts : Z := 4.

(** * State *)

Inductive ssl_shutdown_t : Type := ssl_shutdown_none | ssl_shutdown_close_notify | ssl_shutdown_error.

Record read_state (S : Type) : Type := {
  read_shutdown : ssl_shutdown_t;
  aead_read_ctx : SSLAEADContext S;
  read_sequence : Z;
  early_data_skipped : Z;
  empty_record_count : Z;
  warning_alert_count : Z;
  skip_early_data_flag : bool
}.
Arguments read_shutdown {S}. Arguments aead_read_ctx {S}. Arguments read_sequence {S}. Arguments early_data_skipped {S}.
Arguments empty_record_count {S}. Arguments warning_alert_count {S}. Arguments skip_early_data_flag {S}.

Record write_state (S : Type) : Type := {
  aead_write_ctx : SSLAEADContext S;
  write_sequence : Z
}.
Arguments aead_write_ctx {S}. Arguments write_sequence {S}.

(** [ssl_open_record_t] with the out-parameters of each case: [out_consumed],
    and the type and body of the record or the alert and the error. *)
Inductive ssl_open_record_t : Type :=
  | ssl_open_record_success (out_type : Z) (out : list Z) (out_consumed : Z)
  | ssl_open_record_discard (out_consumed : Z)
  | ssl_open_record_partial (out_consumed : Z)
  | ssl_open_record_close_notify (out_consumed : Z)
  | ssl_open_record_error (e : ssl_error) (out_consumed : Z).

Definition open_error (alert why consumed : Z) : ssl_open_record_t :=
  ssl_open_record_error {| reason := why; out_alert := alert |} consumed.

Section Read.
  Context {S : Type}.
  Implicit Types rd : read_state S.

Definition set_read_shutdown rd (x : ssl_shutdown_t) : read_state S :=
  {| read_shutdown := x; aead_read_ctx := aead_read_ctx rd; read_sequence := read_sequence rd;
     early_data_skipped := early_data_skipped rd; empty_record_count := empty_record_count rd;
     warning_alert_count := warning_alert_count rd; skip_early_data_flag := skip_early_data_flag rd |}.

Definition set_early_data_skipped rd (x : Z) : read_state S :=
  {| read_shutdown := read_shutdown rd; aead_read_ctx := aead_read_ctx rd; read_sequence := read_sequence rd;
     early_data_skipped := x; empty_record_count := empty_record_count rd;
     warning_alert_count := warning_alert_count rd; skip_early_data_flag := skip_early_data_flag rd |}.

Definition set_empty_record_count rd (x : Z) : read_state S :=
  {| read_shutdown := read_shutdown rd; aead_read_ctx := aead_read_ctx rd; read_sequence := read_sequence rd;
     early_data_skipped := early_data_skipped rd; empty_record_count := x;
     warning_alert_count := warning_alert_count rd; skip_early_data_flag := skip_early_data_flag rd |}.

Definition set_warning_alert_count rd (x : Z) : read_state S :=
  {| read_shutdown := read_shutdown rd; aead_read_ctx := aead_read_ctx rd; read_sequence := read_sequence rd;
     early_data_skipped := early_data_skipped rd; empty_record_count := empty_record_count rd;
     warning_alert_count := x; skip_early_data_flag := skip_early_data_flag rd |}.

Definition set_aead_read_ctx rd (x : SSLAEADContext S) : read_state S :=
  {| read_shutdown := read_shutdown rd; aead_read_ctx := x; read_sequence := read_sequence rd;
     early_data_skipped := early_data_skipped rd; empty_record_count := empty_record_count rd;
     warning_alert_count := warning_alert_count rd; skip_early_data_flag := skip_early_data_flag rd |}.

(** A record has been decrypted: early data is no longer skipped. *)
Definition count_record rd : read_state S :=
  {| read_shutdown := read_shutdown rd; aead_read_ctx := aead_read_ctx rd; read_sequence := u64 (read_sequence rd + 1);
     early_data_skipped := early_data_skipped rd; empty_record_count := empty_record_count rd;
     warning_alert_count := warning_alert_count rd; skip_early_data_flag := false |}.

(** * Reading *)

Definition skip_early_data rd (consumed : Z) : ssl_open_record_t * read_state S :=
  let skipped := u16 (early_data_skipped rd + consumed) in
  let skipped := if skipped <? consumed then kMaxEarlyDataSkipped + 1 else skipped in
  let rd := set_early_data_skipped rd skipped in
  if kMaxEarlyDataSkipped <? skipped
  then (open_error SSL_AD_UNEXPECTED_MESSAGE SSL_R_TOO_MUCH_SKIPPED_EARLY_DATA consumed, rd)
  else (ssl_open_record_discard consumed, rd).

Definition ssl_process_alert (ssl : connection) rd (consumed : Z) (in_ : list Z) : ssl_open_record_t * read_state S :=
  if negb (zlen in_ =? 2) then (open_error SSL_AD_DECODE_ERROR SSL_R_BAD_ALERT consumed, rd)
  else
    let alert_level := znth in_ 0 in
    let alert_descr := znth in_ 1 in
    if alert_level =? SSL3_AL_WARNING then
      if alert_descr =? SSL_AD_CLOSE_NOTIFY
      then (ssl_open_record_close_notify consumed, set_read_shutdown rd ssl_shutdown_close_notify)
      else if have_version ssl && (TLS1_3_VERSION <=? ssl_protocol_version ssl) && negb (alert_descr =? SSL_AD_USER_CANCELLED)
      then (open_error SSL_AD_DECODE_ERROR SSL_R_BAD_ALERT consumed, rd)
      else
        let rd := set_warning_alert_count rd (u8 (warning_alert_count rd + 1)) in
        if kMaxWarningAlerts <? warning_alert_count rd
        then (open_error SSL_AD_UNEXPECTED_MESSAGE SSL_R_TOO_MANY_WARNING_ALERTS consumed, rd)
        else (ssl_open_record_discard consumed, rd)
    else if alert_level =? SSL3_AL_FATAL then (open_error 0 (SSL_AD_REASON_OFFSET + alert_descr) consumed, rd)
    else (open_error SSL_AD_ILLEGAL_PARAMETER SSL_R_UNKNOWN_ALERT_TYPE consumed, rd).

(** The loop that removes the padding of a TLS 1.3 record, on the reversed
    plaintext: the last byte that is not zero is the type. *)
Fixpoint strip_padding (rev_out : list Z) : option (Z * list Z) :=
  match rev_out with
  | [] => None
  | type :: rev_out => if type =? 0 then strip_padding rev_out else Some (type, rev rev_out)
  end.

(** The limit on consecutive empty records. *)
Definition count_empty rd (empty : bool) : bool * read_state S :=
  if empty then
    let rd := set_empty_record_count rd (u8 (empty_record_count rd + 1)) in
    (kMaxEmptyRecords <? empty_record_count rd, rd)
  else (false, set_empty_record_count rd 0).

(** What follows the decryption of a record of outer type [type] to [out]. *)
Definition process_plaintext (ssl : connection) (m : messages) rd (consumed type : Z) (out : list Z) :
    ssl_open_record_t * read_state S :=
  let has_padding := negb (is_null_cipher (aead_read_ctx rd)) && (TLS1_3_VERSION <=? ProtocolVersion (aead_read_ctx rd)) in
  let plaintext_limit := if has_padding then SSL3_RT_MAX_PLAIN_LENGTH + 1 else SSL3_RT_MAX_PLAIN_LENGTH in
  if plaintext_limit <? zlen out then (open_error SSL_AD_RECORD_OVERFLOW SSL_R_DATA_LENGTH_TOO_LONG consumed, rd)
  else if has_padding && negb (type =? SSL3_RT_APPLICATION_DATA)
  then (open_error SSL_AD_DECODE_ERROR SSL_R_INVALID_OUTER_RECORD_TYPE consumed, rd)
  else
    match (if has_padding then strip_padding (rev out) else Some (type, out)) with
    | None => (open_error SSL_AD_DECRYPT_ERROR SSL_R_DECRYPTION_FAILED_OR_BAD_RECORD_MAC consumed, rd)
    | Some (type, out) =>
        let '(too_many, rd) := count_empty rd (zlen out =? 0) in
        if too_many then (open_error SSL_AD_UNEXPECTED_MESSAGE SSL_R_TOO_MANY_EMPTY_FRAGMENTS consumed, rd)
        else if type =? SSL3_RT_ALERT then ssl_process_alert ssl rd consumed out
        else if negb (type =? SSL3_RT_HANDSHAKE) && tls_has_unprocessed_handshake_data m
        then (open_error SSL_AD_UNEXPECTED_MESSAGE SSL_R_UNEXPECTED_RECORD consumed, rd)
        else (ssl_open_record_success type out consumed, set_warning_alert_count rd 0)
    end.

(** [in_] starts at address [p]. *)
Definition tls_open_record (ssl : connection) (m : messages) rd (p : Z) (in_ : list Z) : ssl_open_record_t * read_state S :=
  match read_shutdown rd with
  | ssl_shutdown_close_notify => (ssl_open_record_close_notify 0, rd)
  | _ =>
      match tls_can_accept_handshake_data ssl m with
      | Some e => (ssl_open_record_error e 0, rd)
      | None =>
          match (let! type := CBS_get_u8 in let! version := CBS_get_u16 in let! ciphertext_len := CBS_get_u16 in
                 st_ret (type, version, ciphertext_len)) in_ with
          | (None, _) => (ssl_open_record_partial SSL3_RT_HEADER_LENGTH, rd)
          | (Some (type, version, ciphertext_len), cbs) =>
              let version_ok :=
                if is_null_cipher (aead_read_ctx rd) then Z.shiftr version 8 =? SSL3_VERSION_MAJOR
                else version =? RecordVersion (aead_read_ctx rd) in
              if negb version_ok then (open_error SSL_AD_PROTOCOL_VERSION SSL_R_WRONG_VERSION_NUMBER 0, rd)
              else if SSL3_RT_MAX_ENCRYPTED_LENGTH <? ciphertext_len
              then (open_error SSL_AD_RECORD_OVERFLOW SSL_R_ENCRYPTED_LENGTH_TOO_LONG 0, rd)
              else
                match CBS_get_bytes ciphertext_len cbs with
                | (None, _) => (ssl_open_record_partial (SSL3_RT_HEADER_LENGTH + ciphertext_len), rd)
                | (Some body, cbs) =>
                    let header := ztake SSL3_RT_HEADER_LENGTH in_ in
                    let consumed := zlen in_ - CBS_len cbs in
                    if have_version ssl && (TLS1_3_VERSION <=? ssl_protocol_version ssl) && in_init ssl &&
                       (type =? SSL3_RT_CHANGE_CIPHER_SPEC) && (ciphertext_len =? 1) && (znth body 0 =? 1) then
                      let rd := set_empty_record_count rd (u8 (empty_record_count rd + 1)) in
                      if kMaxEmptyRecords <? empty_record_count rd
                      then (open_error SSL_AD_UNEXPECTED_MESSAGE SSL_R_TOO_MANY_EMPTY_FRAGMENTS consumed, rd)
                      else (ssl_open_record_discard consumed, rd)
                    else if skip_early_data_flag rd && is_null_cipher (aead_read_ctx rd) && (type =? SSL3_RT_APPLICATION_DATA)
                    then skip_early_data rd consumed
                    else if u64 (read_sequence rd + 1) =? 0
                    then (open_error SSL_AD_INTERNAL_ERROR ERR_R_OVERFLOW consumed, rd)
                    else
                      match Open (aead_read_ctx rd) type version (read_sequence rd) header (p + SSL3_RT_HEADER_LENGTH) body with
                      | (None, a) =>
                          let rd := set_aead_read_ctx rd a in
                          if skip_early_data_flag rd && negb (is_null_cipher a) then skip_early_data rd consumed
                          else (open_error SSL_AD_BAD_RECORD_MAC SSL_R_DECRYPTION_FAILED_OR_BAD_RECORD_MAC consumed, rd)
                      | (Some out, a) => process_plaintext ssl m (count_record (set_aead_read_ctx rd a)) consumed type out
                      end
                end
          end
      end
  end.
End Read.

(** * Writing *)

Section Write.
  Context {HR : RandomSource} {S : Type}.
  Implicit Types wr : write_state S.

Definition is_tls13 (a : SSLAEADContext S) : bool := negb (is_null_cipher a) && (TLS1_3_VERSION <=? ProtocolVersion a).

Definition ssl_needs_record_splitting (ssl : connection) wr : bool :=
  match keyed (aead_write_ctx wr) with
  | None => false
  | Some (c, _) =>
      (ProtocolVersion (aead_write_ctx wr) <? TLS1_1_VERSION) && negb (Z.land (mode ssl) SSL_MODE_CBC_RECORD_SPLITTING =? 0) &&
      SSL_CIPHER_is_block_cipher c
  end.

Definition split_len wr : Z :=
  match keyed (aead_write_ctx wr) with None => 0 | Some (c, _) => ssl_cipher_get_record_split_len c end.

(** [ssl_record_prefix_len] and [ssl_seal_align_prefix_len] for TLS. *)
Definition ssl_record_prefix_len (a : SSLAEADContext S) : Z := SSL3_RT_HEADER_LENGTH + ExplicitNonceLen a.

Definition ssl_seal_align_prefix_len (ssl : connection) wr : Z :=
  let ret := SSL3_RT_HEADER_LENGTH + ExplicitNonceLen (aead_write_ctx wr) in
  if ssl_needs_record_splitting ssl wr then ret + SSL3_RT_HEADER_LENGTH + split_len wr else ret.

(** The prefix (header and explicit nonce), the body and the suffix, for the
    buffers at these addresses. *)
Definition do_seal_record wr (out_prefix out out_suffix type : Z) (in_ : buffer) :
    option (list Z * list Z * list Z) * write_state S :=
  let a := aead_write_ctx wr in
  let in_len := zlen (contents in_) in
  let extra_in := if is_tls13 a then [type] else [] in
  match SuffixLen a in_len (zlen extra_in), CiphertextLen a in_len (zlen extra_in) with
  | Some _, Some ciphertext_len =>
      let outer := if negb (zlen extra_in =? 0) then SSL3_RT_APPLICATION_DATA else type in
      let record_version := RecordVersion a in
      let header := [outer; u8 (Z.shiftr record_version 8); Z.land record_version 0xff;
                     u8 (Z.shiftr ciphertext_len 8); Z.land ciphertext_len 0xff] in
      if u64 (write_sequence wr + 1) =? 0 then (None, wr)
      else
        match SealScatter a (out_prefix + SSL3_RT_HEADER_LENGTH) out out_suffix outer record_version (write_sequence wr)
                header in_ extra_in with
        | (None, a) => (None, {| aead_write_ctx := a; write_sequence := write_sequence wr |})
        | (Some (explicit, o, t), a) =>
            (Some (header ++ explicit, o, t), {| aead_write_ctx := a; write_sequence := u64 (write_sequence wr + 1) |})
        end
  | _, _ => (None, wr)
  end.

Definition splits (ssl : connection) wr (type in_len : Z) : bool :=
  (type =? SSL3_RT_APPLICATION_DATA) && (1 <? in_len) && ssl_needs_record_splitting ssl wr.

Definition tls_seal_scatter_prefix_len (ssl : connection) wr (type in_len : Z) : Z :=
  if splits ssl wr type in_len then SSL3_RT_HEADER_LENGTH + split_len wr + (SSL3_RT_HEADER_LENGTH - 1)
  else SSL3_RT_HEADER_LENGTH + ExplicitNonceLen (aead_write_ctx wr).

Definition tls_seal_scatter_suffix_len (ssl : connection) wr (type in_len : Z) : option Z :=
  let extra_in_len := if is_tls13 (aead_write_ctx wr) then 1 else 0 in
  SuffixLen (aead_write_ctx wr) (if splits ssl wr type in_len then in_len - 1 else in_len) extra_in_len.

(** [tmp_prefix] is the address of the local array of that name. *)
Definition tls_seal_scatter_record (ssl : connection) wr (tmp_prefix out_prefix out out_suffix type : Z) (in_ : buffer) :
    option (list Z * list Z * list Z) * write_state S :=
  if splits ssl wr type (zlen (contents in_)) then
    let split_body := out_prefix + SSL3_RT_HEADER_LENGTH in
    match do_seal_record wr out_prefix split_body (split_body + 1) type {| addr := addr in_; contents := ztake 1 (contents in_) |} with
    | (None, wr) => (None, wr)
    | (Some (p1, o1, t1), wr) =>
        match do_seal_record wr tmp_prefix (out + 1) out_suffix type {| addr := addr in_ + 1; contents := zdrop 1 (contents in_) |} with
        | (None, wr) => (None, wr)
        | (Some (p2, o2, t2), wr) =>
            (Some (p1 ++ o1 ++ t1 ++ ztake (SSL3_RT_HEADER_LENGTH - 1) p2,
                   ztake 1 (zdrop (SSL3_RT_HEADER_LENGTH - 1) p2) ++ o2, t2), wr)
        end
    end
  else do_seal_record wr out_prefix out out_suffix type in_.

(** The parts are stored in the buffer [out]; the result is the part of it
    that [*out_len] covers. *)
Definition tls_seal_record (ssl : connection) wr (tmp_prefix type : Z) (out in_ : buffer) : option (list Z) * write_state S :=
  let in_len := zlen (contents in_) in
  let max_out_len := zlen (contents out) in
  if buffers_alias (addr in_) in_len (addr out) max_out_len then (None, wr)
  else
    let prefix_len := tls_seal_scatter_prefix_len ssl wr type in_len in
    match tls_seal_scatter_suffix_len ssl wr type in_len with
    | None => (None, wr)
    | Some suffix_len =>
        if (u64 (in_len + prefix_len) <? in_len) ||
           (u64 (prefix_len + in_len + suffix_len) <? u64 (prefix_len + in_len)) then (None, wr)
        else if max_out_len <? u64 (in_len + prefix_len + suffix_len) then (None, wr)
        else
          let body := addr out + prefix_len in
          match tls_seal_scatter_record ssl wr tmp_prefix (addr out) body (body + in_len) type in_ with
          | (None, wr) => (None, wr)
          | (Some (p, o, t), wr) =>
              let buf := zsplice (zsplice (zsplice (contents out) 0 p) prefix_len o) (prefix_len + in_len) t in
              (Some (ztake (prefix_len + in_len + suffix_len) buf), wr)
          end
    end.

Definition SSL_max_seal_overhead (ssl : connection) wr : Z :=
  let ret := SSL3_RT_HEADER_LENGTH + MaxOverhead (aead_write_ctx wr) in
  let ret := if is_tls13 (aead_write_ctx wr) then ret + 1 else ret in
  if ssl_needs_record_splitting ssl wr then ret * 2 else ret.
End Write.

(** * What is written is read *)

Section RoundTrip.
  Context {HR : RandomSource} {S : Type} {A : EVP_AEAD S} {tag : Z} {paired : S -> S -> Prop} {L : AeadLaws A tag paired}.
  Implicit Types (wr : write_state S) (rd : read_state S).

(** Facts of a context that sealing does not change: a record version of TLS,
    no explicit nonce without a cipher, and for TLS 1.3 the header as additional
    data and no explicit nonce. *)
Definition tls_ctx_ok (a : SSLAEADContext S) : Prop :=
  0x0300 <= RecordVersion a < 0x0400 /\
  (is_null_cipher a = true -> variable_nonce_included_in_record_ a = false) /\
  (is_tls13 a = true -> ad_is_header_ a = true /\ variable_nonce_included_in_record_ a = false).

(** A writer and a reader that have handled the same records. *)
Definition in_sync wr rd : Prop :=
  aead_paired (A := A) (tag := tag) (paired := paired) (aead_write_ctx wr) (aead_read_ctx rd) /\
  params_ok (A := A) (tag := tag) (aead_write_ctx wr) /\ tls_ctx_ok (aead_write_ctx wr) /\
  read_sequence rd = write_sequence wr /\ 0 <= write_sequence wr < 2 ^ 64.

(** A reader that is open, is not skipping early data and has no handshake data
    to process first. *)
Definition idle rd : Prop := read_shutdown rd = ssl_shutdown_none /\ skip_early_data_flag rd = false.
Definition ready (ssl : connection) (m : messages) : Prop :=
  tls_can_accept_handshake_data ssl m = None /\ tls_has_unprocessed_handshake_data m = false.

(** One that takes a record of this type next: part of a message may be buffered
    when the record has more of it. *)
Definition accepts (ssl : connection) (m : messages) (type : Z) : Prop :=
  tls_can_accept_handshake_data ssl m = None /\ (type = SSL3_RT_HANDSHAKE \/ tls_has_unprocessed_handshake_data m = false).

Lemma ready_accepts ssl m type : ready ssl m -> accepts ssl m type.
Proof. intros [H1 H2]; split; auto. Qed.

Lemma same_is_tls13 (a b : SSLAEADContext S) : same_params a b -> is_null_cipher b = is_null_cipher a ->
  is_tls13 b = is_tls13 a /\ RecordVersion b = RecordVersion a /\ ProtocolVersion b = ProtocolVersion a.
Proof.
  intros (_ & _ & _ & Ev & Ed & _) En; unfold is_tls13, RecordVersion, ProtocolVersion; now rewrite Ev, Ed, En.
Qed.

Lemma tls_ctx_ok_same (a b : SSLAEADContext S) : same_params a b -> is_null_cipher b = is_null_cipher a -> tls_ctx_ok a -> tls_ctx_ok b.
Proof.
  intros Hs Hn (H1 & H2 & H3); destruct (same_is_tls13 a b Hs Hn) as (E1 & E2 & _).
  destruct Hs as (_ & _ & _ & _ & _ & E6 & _ & _ & _ & E10); unfold tls_ctx_ok; now rewrite E1, E2, E6, E10, Hn.
Qed.

Lemma paired_null w r : aead_paired (A := A) (tag := tag) (paired := paired) w r -> is_null_cipher r = is_null_cipher w.
Proof. intros [H _]; unfold is_null_cipher; destruct (keyed w) as [[? ?]|], (keyed r) as [[? ?]|]; easy. Qed.

Lemma u16_bytes v : 0 <= v < 2 ^ 16 -> [u8 (Z.shiftr v 8); Z.land v 0xff] = be_enc 2 v.
Proof.
  intros Hv; cbn [be_enc app]; change 0xff with (2 ^ 8 - 1); rewrite land_low, Z.shiftr_div_pow2 by lia; reflexivity.
Qed.

(** The length in the header. *)
Lemma CiphertextLen_spec (a : SSLAEADContext S) n x len : SuffixLen a n x = Some len -> 0 <= len <= 1 + EVP_AEAD_MAX_OVERHEAD -> 0 <= n <= 16384 ->
  0 <= ExplicitNonceLen a <= EVP_AEAD_MAX_NONCE_LENGTH -> CiphertextLen a n x = Some (ExplicitNonceLen a + n + len).
Proof.
  intros E Hl Hn He; unfold CiphertextLen, EVP_AEAD_MAX_OVERHEAD, EVP_AEAD_MAX_NONCE_LENGTH in *; rewrite E.
  rewrite (uw_small 64 (len + _)) by (pow2; lia); rewrite uw_small by (pow2; lia).
  rewrite (proj2 (Z.ltb_ge _ _)), (proj2 (Z.leb_gt _ _)) by lia; cbn [orb]; f_equal; lia.
Qed.

Lemma suffix_bound w r n x len : aead_paired (A := A) (tag := tag) (paired := paired) w r -> 0 <= n -> 0 <= x <= 1 ->
  SuffixLen w n x = Some len -> 0 <= len <= x + EVP_AEAD_MAX_OVERHEAD.
Proof.
  intros Hp Hn Hx; rewrite (suffix_len_spec w r n x Hp Hx); intros [= <-]; pose proof aead_overhead_bound as Ho.
  destruct (keyed w) as [[c ctx]|]; [pose proof (aead_tag_bound (state ctx) n x Hn Hx); lia|].
  unfold EVP_AEAD_MAX_OVERHEAD; lia.
Qed.

(** Types of records that carry data. *)
Definition data_type (type : Z) : Prop := type = SSL3_RT_HANDSHAKE \/ type = SSL3_RT_APPLICATION_DATA.

Definition inner_extra (tls13 : bool) (type : Z) : list Z := if tls13 then [type] else [].
Definition outer_type (tls13 : bool) (type : Z) : Z := if tls13 then SSL3_RT_APPLICATION_DATA else type.

Lemma process_plaintext_data ssl m rd consumed type data : accepts ssl m type -> data_type type -> 0 < zlen data <= 16384 ->
  let tls13 := is_tls13 (aead_read_ctx rd) in
  process_plaintext ssl m rd consumed (outer_type tls13 type) (data ++ inner_extra tls13 type) =
    (ssl_open_record_success type data consumed, set_warning_alert_count (set_empty_record_count rd 0) 0).
Proof.
  intros [_ Hu] Ht Hl tls13; unfold process_plaintext; fold (is_tls13 (aead_read_ctx rd)); fold tls13.
  assert (type <> 0 /\ type <> SSL3_RT_ALERT) as [Ht0 Hta] by
    (unfold SSL3_RT_ALERT; destruct Ht as [-> | ->]; unfold SSL3_RT_HANDSHAKE, SSL3_RT_APPLICATION_DATA; lia).
  rewrite zlen_app, (proj2 (Z.ltb_ge _ _)) by (unfold SSL3_RT_MAX_PLAIN_LENGTH, inner_extra, zlen in *; destruct tls13; cbn [length]; lia).
  assert ((if tls13 then strip_padding (rev (data ++ inner_extra tls13 type)) else Some (outer_type tls13 type, data ++ inner_extra tls13 type)) =
    Some (type, data)) as ->.
  { unfold inner_extra, outer_type; destruct tls13; [|now rewrite app_nil_r].
    rewrite rev_app_distr; cbn [rev app strip_padding]; now rewrite (proj2 (Z.eqb_neq _ _) Ht0), rev_involutive. }
  rewrite (proj2 (Z.eqb_neq (zlen data) 0)) by lia; cbn [count_empty].
  assert (negb (type =? SSL3_RT_HANDSHAKE) && tls_has_unprocessed_handshake_data m = false) as -> by (destruct Hu as [-> | ->]; [reflexivity|apply andb_false_r]).
  rewrite (proj2 (Z.eqb_neq _ _) Hta); unfold outer_type; now destruct tls13.
Qed.

(** A complete record reaches the decryption. *)
Lemma tls_open_complete ssl m rd q outer version body rest out a :
  idle rd -> tls_can_accept_handshake_data ssl m = None -> outer <> SSL3_RT_CHANGE_CIPHER_SPEC -> 0 <= version < 2 ^ 16 ->
  (if is_null_cipher (aead_read_ctx rd) then Z.shiftr version 8 =? SSL3_VERSION_MAJOR
   else version =? RecordVersion (aead_read_ctx rd)) = true ->
  zlen body <= SSL3_RT_MAX_ENCRYPTED_LENGTH -> u64 (read_sequence rd + 1) <> 0 ->
  let header := outer :: be_enc 2 version ++ be_enc 2 (zlen body) in
  (forall q, Open (aead_read_ctx rd) outer version (read_sequence rd) header q body = (Some out, a)) ->
  tls_open_record ssl m rd q ((header ++ body) ++ rest) =
    process_plaintext ssl m (count_record (set_aead_read_ctx rd a)) (zlen (header ++ body)) outer out.
Proof.
  intros [Hsd Hsk] Hacc Ho Hv Hvok Hl Hseq header Hopen; pose proof (zlen_nonneg body) as H0.
  assert (0 <= zlen body < 2 ^ 16) as Hl16 by
    (unfold SSL3_RT_MAX_ENCRYPTED_LENGTH, SSL3_RT_MAX_ENCRYPTED_OVERHEAD, SSL3_RT_MAX_PLAIN_LENGTH in *; lia).
  assert (zlen header = 5) as Hh by (unfold header; rewrite zlen_cons, zlen_app, !zlen_be_enc; reflexivity).
  unfold tls_open_record; rewrite Hsd, Hacc.
  assert ((header ++ body) ++ rest = outer :: be_enc 2 version ++ be_enc 2 (zlen body) ++ body ++ rest) as Ein by
    (unfold header; rewrite <- !app_assoc; cbn [app]; now rewrite <- !app_assoc).
  rewrite Ein at 1; erewrite st_bind_some by apply CBS_get_u8_cons.
  erewrite st_bind_some by (now apply CBS_get_u16_be); erewrite st_bind_some by (now apply CBS_get_u16_be).
  unfold st_ret; rewrite Hvok, (proj2 (Z.ltb_ge _ _)) by exact Hl; cbn [negb].
  rewrite CBS_get_bytes_app by reflexivity.
  assert (ztake SSL3_RT_HEADER_LENGTH ((header ++ body) ++ rest) = header) as -> by
    (rewrite <- app_assoc; apply ztake_app_eq; symmetry; exact Hh).
  assert (zlen ((header ++ body) ++ rest) - CBS_len rest = zlen (header ++ body)) as -> by (unfold CBS_len; rewrite zlen_app; lia).
  rewrite (proj2 (Z.eqb_neq _ _) Ho), !andb_false_r; cbn [andb]; rewrite Hsk; cbn [andb].
  rewrite (proj2 (Z.eqb_neq _ _) Hseq), Hopen; reflexivity.
Qed.

(** For a part of a record more is asked for: the header first, then the rest. *)
Lemma tls_open_incomplete ssl m rd q outer version body k :
  idle rd -> tls_can_accept_handshake_data ssl m = None -> 0 <= version < 2 ^ 16 ->
  (if is_null_cipher (aead_read_ctx rd) then Z.shiftr version 8 =? SSL3_VERSION_MAJOR
   else version =? RecordVersion (aead_read_ctx rd)) = true ->
  zlen body <= SSL3_RT_MAX_ENCRYPTED_LENGTH ->
  let record := (outer :: be_enc 2 version ++ be_enc 2 (zlen body)) ++ body in 0 <= k < zlen record ->
  tls_open_record ssl m rd q (ztake k record) = (ssl_open_record_partial (if k <? SSL3_RT_HEADER_LENGTH then SSL3_RT_HEADER_LENGTH else zlen record), rd).
Proof.
  intros [Hsd _] Hacc Hv Hvok Hl record Hk; pose proof (zlen_nonneg body) as H0; unfold SSL3_RT_HEADER_LENGTH.
  set (header := outer :: be_enc 2 version ++ be_enc 2 (zlen body)) in *.
  assert (0 <= zlen body < 2 ^ 16) as Hl16 by
    (unfold SSL3_RT_MAX_ENCRYPTED_LENGTH, SSL3_RT_MAX_ENCRYPTED_OVERHEAD, SSL3_RT_MAX_PLAIN_LENGTH in *; lia).
  assert (zlen header = 5) as Hh by (unfold header; rewrite zlen_cons, zlen_app, !zlen_be_enc; reflexivity).
  assert (zlen record = 5 + zlen body) as Lr by (unfold record; rewrite zlen_app; lia).
  unfold tls_open_record; rewrite Hsd, Hacc; destruct (Z.ltb_spec k 5) as [Hlt|Hge].
  - assert (zlen (ztake k record) < 5) as Hs by (rewrite zlen_ztake; lia); destruct (ztake k record) as [|x1 [|x2 [|x3 [|x4 [|x5 l]]]]]; try reflexivity.
    rewrite !zlen_cons in Hs; pose proof (zlen_nonneg l); lia.
  - assert (ztake k record = outer :: be_enc 2 version ++ be_enc 2 (zlen body) ++ ztake (k - 5) body) as ->.
    { unfold record; rewrite ztake_app_ge, Hh by lia; unfold header; cbn [app]; now rewrite <- app_assoc. }
    erewrite st_bind_some by apply CBS_get_u8_cons; erewrite st_bind_some by (now apply CBS_get_u16_be); erewrite st_bind_some by (now apply CBS_get_u16_be).
    unfold st_ret; rewrite Hvok, (proj2 (Z.ltb_ge _ _)) by exact Hl; cbn [negb].
    unfold CBS_get_bytes, cbs_get, st_bind, CBS_len; rewrite zlen_ztake, (proj2 (Z.ltb_lt _ _)) by lia; rewrite Lr; reflexivity.
Qed.

(** What [do_seal_record] writes: a header with the length of the rest, and a
    body that the reader's context opens. *)
Lemma do_seal_record_inv wr rd out_prefix out out_suffix type p data pre body suf wr' :
  in_sync wr rd -> data_type type -> bytes data -> 0 < zlen data <= 16384 ->
  do_seal_record wr out_prefix out out_suffix type {| addr := p; contents := data |} = (Some (pre, body, suf), wr') ->
  let a := aead_write_ctx wr in
  let extra := inner_extra (is_tls13 a) type in
  exists e a' r', let sealed := e ++ body ++ suf in
  let header := outer_type (is_tls13 a) type :: be_enc 2 (RecordVersion a) ++ be_enc 2 (zlen sealed) in
  (pre = header ++ e /\ zlen e = ExplicitNonceLen a /\ zlen body = zlen data /\ SuffixLen a (zlen data) (zlen extra) = Some (zlen suf)) /\
  zlen sealed <= SSL3_RT_MAX_ENCRYPTED_LENGTH /\
  wr' = {| aead_write_ctx := a'; write_sequence := u64 (write_sequence wr + 1) |} /\ u64 (write_sequence wr + 1) <> 0 /\
  (same_params a a' /\ option_map fst (keyed a') = option_map fst (keyed a) /\
   forall n x, 0 <= x <= 1 -> SuffixLen a' n x = SuffixLen a n x) /\ is_null_cipher a' = is_null_cipher a /\
  params_ok (A := A) (tag := tag) a' /\
  aead_paired (A := A) (tag := tag) (paired := paired) a' r' /\
  forall q, Open (aead_read_ctx rd) (outer_type (is_tls13 a) type) (RecordVersion a) (write_sequence wr) header q sealed =
    (Some (data ++ extra), r').
Proof.
  intros (Hp & Hok & (Hv & Hctx2 & Hctx3) & _ & _) Ht Hd Hl; unfold do_seal_record; cbn [contents].
  set (a := aead_write_ctx wr) in *; fold (inner_extra (is_tls13 a) type); cbv zeta; set (extra := inner_extra (is_tls13 a) type).
  assert (bytes extra /\ 0 <= zlen extra <= 1) as [Hex Hexl].
  { unfold extra, inner_extra; destruct Ht as [-> | ->]; case_if; split; try (unfold zlen; cbn [length]; lia); each_literal. }
  destruct (SuffixLen a (zlen data) (zlen extra)) as [sl|] eqn:Esl; [|discriminate].
  pose proof (suffix_bound _ _ _ _ _ Hp (zlen_nonneg data) Hexl Esl) as Hsl; pose proof (explicit_nonce_bound a Hok) as Hen.
  rewrite (CiphertextLen_spec a _ _ sl) by (auto; lia); set (clen := ExplicitNonceLen a + zlen data + sl).
  assert (0 <= clen <= SSL3_RT_MAX_ENCRYPTED_LENGTH) as Hc.
  { unfold clen, SSL3_RT_MAX_ENCRYPTED_LENGTH, SSL3_RT_MAX_ENCRYPTED_OVERHEAD, SSL3_RT_MAX_PLAIN_LENGTH,
      EVP_AEAD_MAX_OVERHEAD, EVP_AEAD_MAX_NONCE_LENGTH in *; lia. }
  assert ((if negb (zlen extra =? 0) then SSL3_RT_APPLICATION_DATA else type) = outer_type (is_tls13 a) type) as ->.
  { unfold extra, inner_extra, outer_type; now destruct (is_tls13 a). }
  set (outer := outer_type (is_tls13 a) type); set (header := [outer; _; _; _; _]).
  destruct (Z.eqb_spec (u64 (write_sequence wr + 1)) 0) as [|Hseq1]; [discriminate|].
  destruct (SealScatter a _ _ _ _ _ _ _ _ _) as [[[[e o] t]|] a'] eqn:Es; [|discriminate].
  intros E; apply pair_equal_spec in E as [E <-]; apply (f_equal (fun x => default ([], [], []) x)) in E.
  change (default ([], [], []) (Some (header ++ e, o, t)) = (pre, body, suf)) in E; apply pair_equal_spec in E as [E <-].
  apply pair_equal_spec in E as [<- <-].
  destruct (SealScatter_same _ _ _ _ _ _ _ _ _ _ _ _ Es) as (Hsame & Hnull & Hcipher).
  destruct (SealScatter_Open _ _ _ _ _ _ _ _ _ _ _ _ _ _ _ _ Hp Hok Hd Hex ltac:(
    unfold extra, inner_extra; destruct (is_tls13 a); [right|now left]; destruct (Hctx3 eq_refl); repeat split; auto) Es)
    as (Le & Lo & Lt & _ & Hok' & r' & Hp' & Hopen).
  assert (zlen e = ExplicitNonceLen a) as Lee.
  { rewrite Le; destruct (is_null_cipher a); [unfold ExplicitNonceLen; rewrite Hctx2 by reflexivity; lia|lia]. }
  assert (sl = zlen t) as -> by congruence; assert (zlen (e ++ o ++ t) = clen) as Lbody by (rewrite !zlen_app; unfold clen; lia).
  assert (header = outer :: be_enc 2 (RecordVersion a) ++ be_enc 2 (zlen (e ++ o ++ t))) as Ehdr.
  { rewrite Lbody, <- !u16_bytes; [reflexivity|pow2; unfold SSL3_RT_MAX_ENCRYPTED_LENGTH, SSL3_RT_MAX_ENCRYPTED_OVERHEAD,
      SSL3_RT_MAX_PLAIN_LENGTH in *; lia|lia]. }
  exists e, a', r'; rewrite <- Ehdr; split; [auto|]; split; [lia|]; split; [reflexivity|]; split; [exact Hseq1|].
  pose proof (SealScatter_suffix _ _ _ _ _ _ _ _ _ _ _ _ _ Hp Es); split; [auto|]; repeat (split; [assumption|]); exact Hopen.
Qed.

(** One record: what [do_seal_record] writes, [tls_open_record] reads. *)
(** What sealing keeps of a writer. *)
Definition keeps wr wr' : Prop :=
  same_params (aead_write_ctx wr) (aead_write_ctx wr') /\
  option_map fst (keyed (aead_write_ctx wr')) = option_map fst (keyed (aead_write_ctx wr)) /\
  forall n x, 0 <= x <= 1 -> SuffixLen (aead_write_ctx wr') n x = SuffixLen (aead_write_ctx wr) n x.

(** The reader takes the bytes [bs] as one record. *)
Definition reads_one rd (type : Z) (data bs : list Z) rd' : Prop :=
  (znth bs 0 = SSL3_RT_HANDSHAKE \/ znth bs 0 = SSL3_RT_APPLICATION_DATA) /\ SSL3_RT_HEADER_LENGTH < zlen bs <= SSL3_RT_HEADER_LENGTH + SSL3_RT_MAX_ENCRYPTED_LENGTH /\
  forall ssl m, accepts ssl m type ->
    (forall q rest, tls_open_record ssl m rd q (bs ++ rest) = (ssl_open_record_success type data (zlen bs), rd')) /\
    (forall q k, 0 <= k < zlen bs ->
      tls_open_record ssl m rd q (ztake k bs) = (ssl_open_record_partial (if k <? SSL3_RT_HEADER_LENGTH then SSL3_RT_HEADER_LENGTH else zlen bs), rd)).

Lemma seal_read_one wr rd out_prefix out out_suffix type p data pre body suf wr' :
  in_sync wr rd -> idle rd -> data_type type -> bytes data -> 0 < zlen data <= 16384 ->
  do_seal_record wr out_prefix out out_suffix type {| addr := p; contents := data |} = (Some (pre, body, suf), wr') ->
  (zlen pre = SSL3_RT_HEADER_LENGTH + ExplicitNonceLen (aead_write_ctx wr) /\ zlen body = zlen data /\
   SuffixLen (aead_write_ctx wr) (zlen data) (zlen (inner_extra (is_tls13 (aead_write_ctx wr)) type)) = Some (zlen suf)) /\
  keeps wr wr' /\
  exists rd', in_sync wr' rd' /\ idle rd' /\ reads_one rd type data (pre ++ body ++ suf) rd'.
Proof.
  intros Hsync [Hsd Hsk] Ht Hd Hl Hseal; pose proof Hsync as (Hp & Hok & Hctx & Hseq & Hw64).
  destruct (do_seal_record_inv _ _ _ _ _ _ _ _ _ _ _ _ Hsync Ht Hd Hl Hseal)
    as (e & a' & r' & (-> & Le & Lo & Lt) & Hmax & -> & Hseq1 & (Hsame & Hcipher & Hstable) & Hnull & Hok' & Hp' & Hopen).
  set (a := aead_write_ctx wr) in *; set (outer := outer_type (is_tls13 a) type) in *.
  set (header := outer :: _) in *; assert (zlen header = 5) as Lh by
    (unfold header; rewrite zlen_cons, zlen_app, !zlen_be_enc; reflexivity).
  split; [rewrite zlen_app, Lh, Le; auto|]; split; [split; auto|].
  destruct (same_is_tls13 a (aead_read_ctx rd) (proj2 Hp) (paired_null _ _ Hp)) as (E13 & Erv & _).
  destruct (same_is_tls13 a' r' (proj2 Hp') (paired_null _ _ Hp')) as (E13' & _ & _).
  destruct (same_is_tls13 a a' Hsame Hnull) as (E13'' & _ & _).
  exists (set_warning_alert_count (set_empty_record_count (count_record (set_aead_read_ctx rd r')) 0) 0); split; [|split].
  - split; [exact Hp'|]; split; [exact Hok'|]; split; [exact (tls_ctx_ok_same a a' Hsame Hnull Hctx)|].
    split; [cbn; now rewrite Hseq|apply (uw_bound 64); lia].
  - split; [exact Hsd|reflexivity].
  - assert ((header ++ e) ++ body ++ suf = header ++ e ++ body ++ suf) as -> by (symmetry; apply app_assoc).
    assert (outer = SSL3_RT_HANDSHAKE \/ outer = SSL3_RT_APPLICATION_DATA) as Houter by (unfold outer, outer_type; destruct (is_tls13 a); auto).
    destruct Hctx as (Hv & _ & _); assert ((if is_null_cipher (aead_read_ctx rd) then Z.shiftr (RecordVersion a) 8 =? SSL3_VERSION_MAJOR
      else RecordVersion a =? RecordVersion (aead_read_ctx rd)) = true) as Hvok.
    { rewrite Erv, Z.eqb_refl; destruct (is_null_cipher (aead_read_ctx rd)); [|reflexivity].
      rewrite Z.shiftr_div_pow2 by lia; apply Z.eqb_eq; unfold SSL3_VERSION_MAJOR; symmetry; apply Z.div_unique with (RecordVersion a - 0x300); pow2; lia. }
    split; [exact Houter|]; split; [rewrite !zlen_app, Lh in *; pose proof (zlen_nonneg e); pose proof (zlen_nonneg suf); unfold SSL3_RT_HEADER_LENGTH; lia|]; intros ssl m Hacc; split.
    + intros q rest; refine (eq_trans (tls_open_complete ssl m rd q outer (RecordVersion a) (e ++ body ++ suf) rest
        (data ++ inner_extra (is_tls13 a) type) r' (conj Hsd Hsk) (proj1 Hacc) _ _ Hvok Hmax _ _) _); [|lia|now rewrite Hseq|now rewrite Hseq|].
      * unfold SSL3_RT_CHANGE_CIPHER_SPEC; destruct Houter as [-> | ->]; discriminate.
      * pose proof (process_plaintext_data ssl m (count_record (set_aead_read_ctx rd r')) (zlen (header ++ e ++ body ++ suf))
          type data Hacc Ht Hl) as Hpp; cbv zeta in Hpp; cbn [aead_read_ctx count_record set_aead_read_ctx] in Hpp.
        rewrite E13', E13'' in Hpp; exact Hpp.
    + intros q k Hk; apply tls_open_incomplete; [exact (conj Hsd Hsk)|exact (proj1 Hacc)|lia|exact Hvok|exact Hmax|exact Hk].
Qed.

(** Record splitting needs a cipher without explicit nonce whose record of one
    byte has the length that [ssl_cipher_get_record_split_len] says. *)
Definition splitting_ok (ssl : connection) wr : Prop := ssl_needs_record_splitting ssl wr = true ->
  ExplicitNonceLen (aead_write_ctx wr) = 0 /\ SuffixLen (aead_write_ctx wr) 1 0 = Some (split_len wr - 1).

Lemma splitting_kept ssl wr wr' : keeps wr wr' ->
  ssl_needs_record_splitting ssl wr' = ssl_needs_record_splitting ssl wr /\ (splitting_ok ssl wr -> splitting_ok ssl wr').
Proof.
  intros ((_ & _ & E3 & E4 & _ & E6 & _) & Ek & Hs).
  assert (split_len wr' = split_len wr /\ ssl_needs_record_splitting ssl wr' = ssl_needs_record_splitting ssl wr) as [El En].
  { unfold split_len, ssl_needs_record_splitting, ProtocolVersion; rewrite E4.
    destruct (keyed (aead_write_ctx wr')) as [[? ?]|], (keyed (aead_write_ctx wr)) as [[? ?]|]; try discriminate Ek; [|auto].
    injection Ek as ->; auto. }
  split; [exact En|]; unfold splitting_ok, ExplicitNonceLen; rewrite En, E6, E3, El, Hs by lia; auto.
Qed.

(** The records into which a fragment goes. *)
Definition fragments (ssl : connection) wr (type : Z) (data : list Z) : list (list Z) :=
  if splits ssl wr type (zlen data) then [ztake 1 data; zdrop 1 data] else [data].

(** The reader's loop: records until one is incomplete, or an error. *)
Fixpoint read_records (fuel : nat) (ssl : connection) (m : messages) rd (q : Z) (in_ : list Z) :
    list (Z * list Z) * read_state S * list Z :=
  match fuel with
  | O => ([], rd, in_)
  | Datatypes.S fuel =>
      match tls_open_record ssl m rd q in_ with
      | (ssl_open_record_success type out consumed, rd) =>
          let '(records, rd, in_) := read_records fuel ssl m rd (q + consumed) (zdrop consumed in_) in
          ((type, out) :: records, rd, in_)
      | _ => ([], rd, in_)
      end
  end.

Lemma read_records_step fuel ssl m rd q rec type out rd' rest :
  tls_open_record ssl m rd q (rec ++ rest) = (ssl_open_record_success type out (zlen rec), rd') ->
  read_records (Datatypes.S fuel) ssl m rd q (rec ++ rest) =
    let '(records, rd, in_) := read_records fuel ssl m rd' (q + zlen rec) rest in ((type, out) :: records, rd, in_).
Proof. intros E; cbn [read_records]; rewrite E, zdrop_app; reflexivity. Qed.

(** Three stores one after the other. *)
Lemma splice_parts (buf p o t : list Z) : zlen p + zlen o + zlen t <= zlen buf ->
  ztake (zlen p + zlen o + zlen t) (zsplice (zsplice (zsplice buf 0 p) (zlen p) o) (zlen p + zlen o) t) = p ++ o ++ t.
Proof.
  intros Hl; pose proof (zlen_nonneg p); pose proof (zlen_nonneg o); pose proof (zlen_nonneg t).
  pose proof (zsplice_zsplice buf p o 0 ltac:(lia) ltac:(lia)) as E1; rewrite Z.add_0_l in E1; rewrite E1.
  pose proof (zsplice_zsplice buf (p ++ o) t 0 ltac:(lia) ltac:(rewrite zlen_app; lia)) as E2.
  rewrite Z.add_0_l, zlen_app in E2; rewrite E2, <- app_assoc.
  pose proof (ztake_zsplice buf (p ++ o ++ t) 0 ltac:(lia)) as E3.
  rewrite Z.add_0_l, !zlen_app, ztake_0 in E3; now rewrite Z.add_assoc in E3.
Qed.

(** What a call of [tls_seal_scatter_record] writes the reader's loop reads,
    and goes on behind it. *)
Definition reads_as (ssl : connection) (m : messages) rd (bs : list Z) (records : list (Z * list Z)) rd' : Prop :=
  forall fuel q rest, read_records (length records + fuel) ssl m rd q (bs ++ rest) =
    let '(more, rd'', in_) := read_records fuel ssl m rd' (q + zlen bs) rest in (records ++ more, rd'', in_).

Lemma reads_as_app ssl m rd bs records rd1 bs' records' rd2 :
  reads_as ssl m rd bs records rd1 -> reads_as ssl m rd1 bs' records' rd2 -> reads_as ssl m rd (bs ++ bs') (records ++ records') rd2.
Proof.
  intros H1 H2 fuel q rest; rewrite length_app, <- Nat.add_assoc, <- app_assoc, H1, H2, zlen_app, Z.add_assoc.
  destruct (read_records fuel _ _ _ _ _) as [[? ?] ?]; now rewrite app_assoc.
Qed.

Lemma reads_as_one ssl m rd bs type data rd' :
  (forall q rest, tls_open_record ssl m rd q (bs ++ rest) = (ssl_open_record_success type data (zlen bs), rd')) ->
  reads_as ssl m rd bs [(type, data)] rd'.
Proof. intros H fuel q rest; cbn [length Nat.add app]; now rewrite (read_records_step _ _ _ _ _ _ _ _ _ _ (H q rest)). Qed.

Lemma splits_not_tls13 ssl wr type n : splits ssl wr type n = true -> is_tls13 (aead_write_ctx wr) = false.
Proof.
  unfold splits, ssl_needs_record_splitting, is_tls13; intros H; apply andb_true_iff in H as [_ H].
  destruct (keyed (aead_write_ctx wr)) as [[c ctx]|]; [|discriminate]; bool_facts.
  unfold TLS1_1_VERSION, TLS1_3_VERSION in *; rewrite (proj2 (Z.leb_gt _ _)) by lia; apply andb_false_r.
Qed.

Lemma keeps_trans wr1 wr2 wr3 : keeps wr1 wr2 -> keeps wr2 wr3 -> keeps wr1 wr3.
Proof.
  intros (H1 & H2 & H3) (G1 & G2 & G3); split; [|split; [congruence|intros; now rewrite G3, H3]].
  destruct H1 as (? & ? & ? & ? & ? & ? & ? & ? & ? & ?), G1 as (? & ? & ? & ? & ? & ? & ? & ? & ? & ?); repeat split; congruence.
Qed.

Lemma keeps_tls13 wr wr' : keeps wr wr' -> is_tls13 (aead_write_ctx wr') = is_tls13 (aead_write_ctx wr).
Proof.
  intros (Hs & Hc & _); apply same_is_tls13; [exact Hs|]; unfold is_null_cipher.
  now destruct (keyed (aead_write_ctx wr')) as [[? ?]|], (keyed (aead_write_ctx wr)) as [[? ?]|].
Qed.

(** The split record as it lies in memory: the two records one after the other. *)
Lemma split_concat (p1 o1 t1 p2 o2 t2 : list Z) : zlen p2 = SSL3_RT_HEADER_LENGTH ->
  (p1 ++ o1 ++ t1 ++ ztake (SSL3_RT_HEADER_LENGTH - 1) p2) ++ (ztake 1 (zdrop (SSL3_RT_HEADER_LENGTH - 1) p2) ++ o2) ++ t2 =
    (p1 ++ o1 ++ t1) ++ (p2 ++ o2 ++ t2).
Proof.
  intros H; assert (ztake 1 (zdrop (SSL3_RT_HEADER_LENGTH - 1) p2) = zdrop (SSL3_RT_HEADER_LENGTH - 1) p2) as ->.
  { apply ztake_all; rewrite zlen_zdrop; unfold SSL3_RT_HEADER_LENGTH in *; lia. }
  rewrite <- !app_assoc, (app_assoc (ztake _ p2)); now rewrite ztake_zdrop.
Qed.

Lemma seal_scatter_read ssl wr rd tmp out_prefix out out_suffix type p data P O T wr' :
  in_sync wr rd -> idle rd -> splitting_ok ssl wr -> data_type type -> bytes data -> 0 < zlen data <= 16384 ->
  tls_seal_scatter_record ssl wr tmp out_prefix out out_suffix type {| addr := p; contents := data |} = (Some (P, O, T), wr') ->
  (zlen P = tls_seal_scatter_prefix_len ssl wr type (zlen data) /\ zlen O = zlen data /\
   tls_seal_scatter_suffix_len ssl wr type (zlen data) = Some (zlen T)) /\ keeps wr wr' /\
  exists rd', in_sync wr' rd' /\ idle rd' /\
    (forall ssl' m, ready ssl' m -> reads_as ssl' m rd (P ++ O ++ T) (map (pair type) (fragments ssl wr type data)) rd') /\
    (type = SSL3_RT_HANDSHAKE -> reads_one rd type data (P ++ O ++ T) rd').
Proof.
  intros Hs Hi Hsp Ht Hd Hl; unfold tls_seal_scatter_record, tls_seal_scatter_prefix_len, tls_seal_scatter_suffix_len, fragments.
  cbn [contents addr]; destruct (splits ssl wr type (zlen data)) eqn:Esp; intros H.
  2:{ destruct (seal_read_one _ _ _ _ _ _ _ _ _ _ _ _ Hs Hi Ht Hd Hl H) as ((LP & LO & LT) & Hk & rd' & Hs' & Hi' & Ho).
      split; [split; [exact LP|split; [exact LO|]]|split; [exact Hk|exists rd'; split; [exact Hs'|split; [exact Hi'|split; [|auto]]]]].
      - rewrite <- LT; unfold inner_extra; now destruct (is_tls13 (aead_write_ctx wr)).
      - intros ssl' m Hr; apply reads_as_one, (proj2 (proj2 Ho) ssl' m (ready_accepts _ _ _ Hr)). }
  pose proof (splits_not_tls13 _ _ _ _ Esp) as E13; pose proof Esp as Esp'; unfold splits in Esp'; bool_facts.
  destruct (Hsp ltac:(assumption)) as [Hen Hs1]; rewrite E13.
  destruct (do_seal_record wr _ _ _ _ _) as [[[[p1 o1] t1]|] wr1] eqn:E1; [|discriminate].
  destruct (do_seal_record wr1 _ _ _ _ _) as [[[[p2 o2] t2]|] wr2] eqn:E2; [|discriminate]; injection H as <- <- <- <-.
  assert (zlen (ztake 1 data) = 1 /\ zlen (zdrop 1 data) = zlen data - 1) as [L1 L2] by (rewrite zlen_ztake, zlen_zdrop; lia).
  assert (0 < zlen (ztake 1 data) <= 16384 /\ 0 < zlen (zdrop 1 data) <= 16384) as [B1 B2] by lia.
  destruct (seal_read_one _ _ _ _ _ _ _ _ _ _ _ _ Hs Hi Ht (bytes_ztake _ _ Hd) B1 E1)
    as ((LP1 & LO1 & LT1) & Hk1 & rd1 & Hs1' & Hi1 & Ho1).
  destruct (seal_read_one _ _ _ _ _ _ _ _ _ _ _ _ Hs1' Hi1 Ht (bytes_zdrop _ _ Hd) B2 E2)
    as ((LP2 & LO2 & LT2) & Hk2 & rd2 & Hs2' & Hi2 & Ho2).
  destruct (splitting_kept ssl wr wr1 Hk1) as [En1 Hsp1]; destruct (Hsp1 Hsp ltac:(congruence)) as [Hen1 _].
  pose proof (keeps_tls13 wr wr1 Hk1) as E13'; rewrite E13 in E13', LT1; rewrite E13' in LT2; cbn [inner_extra] in LT1, LT2.
  rewrite L1 in LO1, LT1; rewrite L2 in LO2, LT2; change (zlen (@nil Z)) with 0 in *; rewrite Hs1 in LT1.
  rewrite (proj2 (proj2 Hk1)) in LT2 by lia.
  assert (zlen t1 = split_len wr - 1) as Lt1 by congruence; rewrite Hen1, Z.add_0_r in LP2; rewrite Hen, Z.add_0_r in LP1.
  split; [split; [|split; [|exact LT2]]|split; [exact (keeps_trans _ _ _ Hk1 Hk2)|]].
  - rewrite !zlen_app, zlen_ztake by (unfold SSL3_RT_HEADER_LENGTH in *; lia); lia.
  - rewrite zlen_app, zlen_ztake by (rewrite zlen_zdrop; unfold SSL3_RT_HEADER_LENGTH in *; lia); lia.
  - exists rd2; split; [exact Hs2'|]; split; [exact Hi2|]; rewrite split_concat by exact LP2; split.
    + intros ssl' m Hr; pose proof (fun t => ready_accepts ssl' m t Hr) as Ha; destruct Ho1 as (_ & _ & Ho1), Ho2 as (_ & _ & Ho2).
      exact (reads_as_app _ _ _ _ _ _ _ _ _ (reads_as_one _ _ _ _ _ _ _ (proj1 (Ho1 _ _ (Ha _)))) (reads_as_one _ _ _ _ _ _ _ (proj1 (Ho2 _ _ (Ha _))))).
    + intros ->; discriminate.
Qed.

(** The lengths that [tls_seal_record] adds do not wrap around. *)
Lemma seal_lengths_small ssl wr rd type n s : in_sync wr rd -> splitting_ok ssl wr -> 0 < n <= 16384 ->
  tls_seal_scatter_suffix_len ssl wr type n = Some s ->
  0 <= s <= 1 + EVP_AEAD_MAX_OVERHEAD /\ 0 <= tls_seal_scatter_prefix_len ssl wr type n <= 128.
Proof.
  intros (Hp & Hok & _) Hsp Hn; unfold tls_seal_scatter_suffix_len, tls_seal_scatter_prefix_len; intros E.
  set (x := if is_tls13 _ then _ else _) in E; assert (0 <= x <= 1) as Hx by (unfold x; case_if; lia).
  destruct (splits ssl wr type n) eqn:Esp.
  - unfold splits in Esp; bool_facts; destruct (Hsp ltac:(assumption)) as [_ Hs1].
    pose proof (suffix_bound _ _ (n - 1) _ _ Hp ltac:(lia) Hx E); pose proof (suffix_bound _ _ 1 0 _ Hp ltac:(lia) ltac:(lia) Hs1).
    unfold SSL3_RT_HEADER_LENGTH, EVP_AEAD_MAX_OVERHEAD in *; lia.
  - pose proof (suffix_bound _ _ n _ _ Hp ltac:(lia) Hx E); pose proof (explicit_nonce_bound _ Hok).
    unfold SSL3_RT_HEADER_LENGTH, EVP_AEAD_MAX_OVERHEAD, EVP_AEAD_MAX_NONCE_LENGTH in *; lia.
Qed.

(** One call of [tls_seal_record]. *)
Lemma seal_record_read ssl wr rd tmp type out p data bs wr' :
  in_sync wr rd -> idle rd -> splitting_ok ssl wr -> data_type type -> bytes data -> 0 < zlen data <= 16384 ->
  tls_seal_record ssl wr tmp type out {| addr := p; contents := data |} = (Some bs, wr') ->
  keeps wr wr' /\
  exists rd', in_sync wr' rd' /\ idle rd' /\
    (forall ssl' m, ready ssl' m -> reads_as ssl' m rd bs (map (pair type) (fragments ssl wr type data)) rd') /\
    (type = SSL3_RT_HANDSHAKE -> reads_one rd type data bs rd') /\ 0 < zlen bs <= zlen (contents out).
Proof.
  intros Hs Hi Hsp Ht Hd Hl; unfold tls_seal_record; cbn [addr contents].
  destruct (buffers_alias _ _ _ _); [discriminate|].
  destruct (tls_seal_scatter_suffix_len _ _ _ _) as [s|] eqn:Es; [|discriminate].
  pose proof (seal_lengths_small _ _ _ _ _ _ Hs Hsp Hl Es) as [Bs Bp]; unfold EVP_AEAD_MAX_OVERHEAD in Bs.
  destruct (_ || _); [discriminate|]; destruct (Z.ltb_spec (zlen (contents out)) (u64 (zlen data + tls_seal_scatter_prefix_len ssl wr type (zlen data) + s)))
    as [|Hbig]; [discriminate|]; rewrite uw_small in Hbig by (pow2; lia).
  destruct (tls_seal_scatter_record _ _ _ _ _ _ _ _) as [[[[P O] T]|] wr2] eqn:E; [|discriminate].
  destruct (seal_scatter_read ssl _ _ _ _ _ _ _ _ _ _ _ _ _ Hs Hi Hsp Ht Hd Hl E) as ((LP & LO & LT) & Hk & rd' & Hs' & Hi' & Ho).
  rewrite Es in LT; injection LT as ->; rewrite <- LP, <- LO in *; rewrite splice_parts by lia; intros [= <- <-]; split; [exact Hk|]; exists rd'; rewrite !zlen_app; pose proof (zlen_nonneg P); pose proof (zlen_nonneg T); do 4 (split; [tauto|]); lia.
Qed.

(** A connection that writes records, each from its own buffers. *)
Fixpoint seal_all (ssl : connection) wr (tmp : Z) (jobs : list (Z * buffer * buffer)) : option (list Z) * write_state S :=
  match jobs with
  | [] => (Some [], wr)
  | (type, out, in_) :: jobs =>
      match tls_seal_record ssl wr tmp type out in_ with
      | (None, wr) => (None, wr)
      | (Some bs, wr) => let '(more, wr) := seal_all ssl wr tmp jobs in (option_map (app bs) more, wr)
      end
  end.

Definition job_ok (job : Z * buffer * buffer) : Prop :=
  let '(type, _, in_) := job in data_type type /\ bytes (contents in_) /\ 0 < zlen (contents in_) <= 16384.

Definition job_records (ssl : connection) wr (job : Z * buffer * buffer) : list (Z * list Z) :=
  let '(type, _, in_) := job in map (pair type) (fragments ssl wr type (contents in_)).

Lemma job_records_kept ssl wr wr' jobs : keeps wr wr' -> flat_map (job_records ssl wr') jobs = flat_map (job_records ssl wr) jobs.
Proof.
  intros Hk; apply flat_map_ext; intros [[type out] in_]; unfold job_records, fragments, splits.
  now rewrite (proj1 (splitting_kept ssl _ _ Hk)).
Qed.

Lemma reads_as_nil ssl m rd : reads_as ssl m rd [] [] rd.
Proof. intros fuel q rest; rewrite Z.add_0_r; cbn [app length Nat.add]; now destruct (read_records _ _ _ _ _ _) as [[? ?] ?]. Qed.

Lemma seal_all_read ssl ssl' m tmp jobs : ready ssl' m -> forall wr rd bs wr',
  in_sync wr rd -> idle rd -> splitting_ok ssl wr -> Forall job_ok jobs -> seal_all ssl wr tmp jobs = (Some bs, wr') ->
  exists rd', in_sync wr' rd' /\ idle rd' /\ reads_as ssl' m rd bs (flat_map (job_records ssl wr) jobs) rd'.
Proof.
  intros Hr; induction jobs as [|[[type out] [p data]] jobs IH]; intros wr rd bs wr' Hs Hi Hsp Hj E; cbn [seal_all flat_map] in *.
  { injection E as <- <-; eauto using reads_as_nil. }
  apply Forall_cons_1 in Hj as [Hj1 Hj']; unfold job_ok in Hj1; destruct Hj1 as (Ht & Hd & Hl); cbn [contents] in *; destruct (tls_seal_record _ _ _ _ _ _) as [[b1|] wr1] eqn:E1; [|discriminate].
  destruct (seal_record_read ssl _ _ _ _ _ _ _ _ _ Hs Hi Hsp Ht Hd Hl E1) as (Hk & rd1 & Hs1 & Hi1 & Hr1 & _ & _); specialize (Hr1 ssl' m Hr).
  destruct (seal_all ssl wr1 tmp jobs) as [[b2|] wr2] eqn:E2; [|discriminate]; injection E as <- <-.
  destruct (IH _ _ _ _ Hs1 Hi1 (proj2 (splitting_kept ssl _ _ Hk) Hsp) Hj' E2) as (rd2 & Hs2 & Hi2 & Hr2).
  rewrite (job_records_kept ssl _ _ _ Hk) in Hr2; exists rd2; eauto using reads_as_app.
Qed.

(** C12. Whatever sequence of handshake and application data records, of 1 to 16384
    bytes each, a side writes with [tls_seal_record], application data split after
    the first byte where the connection splits records, under whatever cipher the
    record layer keys, the other side, calling [tls_open_record] on the bytes of all
    of them, gets exactly these types and contents in this order, consumes all the
    bytes, and is again in step with the writer, sequence numbers included. *)
Theorem tls_stream_roundtrip ssl ssl' m tmp jobs wr rd q bs wr' :
  in_sync wr rd -> idle rd -> ready ssl' m -> splitting_ok ssl wr -> Forall job_ok jobs ->
  seal_all ssl wr tmp jobs = (Some bs, wr') ->
  exists rd', in_sync wr' rd' /\ idle rd' /\
    read_records (length (flat_map (job_records ssl wr) jobs)) ssl' m rd q bs = (flat_map (job_records ssl wr) jobs, rd', []).
Proof.
  intros Hs Hi Hr Hsp Hj E; destruct (seal_all_read ssl ssl' m tmp jobs Hr _ _ _ _ Hs Hi Hsp Hj E) as (rd' & Hs' & Hi' & Hread).
  exists rd'; split; [exact Hs'|]; split; [exact Hi'|]; specialize (Hread 0%nat q []).
  rewrite app_nil_r, Nat.add_0_r in Hread; rewrite Hread; cbn [read_records]; now rewrite app_nil_r.
Qed.
End RoundTrip.

(** * Limits and progress of the reader *)

Section Limits.
  Context {S : Type}.
  Implicit Types rd : read_state S.
















End Limits.

(** * The start of a connection *)

(** Two ends that key their contexts with the same secrets, for any suite and
    version of TLS, start in step. *)
Lemma Create_in_sync {HA : Allocator} {HR : RandomSource} {S} (aeads : aead_name -> EVP_AEAD S) {T : AeadTable aeads}
    sizeof version c enc_key mac_key fixed_iv w r shutdown skipped empty warnings skip :
  In version kTLSVersions -> In c kCiphers -> version <= SSL_CIPHER_get_max_version c ->
  Create aeads sizeof evp_aead_seal version false c enc_key mac_key fixed_iv = Some w ->
  Create aeads sizeof evp_aead_open version false c enc_key mac_key fixed_iv = Some r ->
  exists n, in_sync (A := aeads n) (tag := table_tag n) (paired := table_paired n)
    {| aead_write_ctx := w; write_sequence := 0 |}
    {| read_shutdown := shutdown; aead_read_ctx := r; read_sequence := 0; early_data_skipped := skipped;
       empty_record_count := empty; warning_alert_count := warnings; skip_early_data_flag := skip |}.
Proof.
  intros Hv Hc Hmax Hw Hr.
  assert (ssl_protocol_version_from_wire version = Some version) as Ev by
    (destruct Hv as [<-|[<-|[<-|[<-|[]]]]]; reflexivity).
  destruct (Create_paired aeads sizeof version false c enc_key mac_key fixed_iv w r Hc) as (n & Hp & Hok & E1 & E2 & E3 & E4 & E5);
    [rewrite Ev; exact Hmax|exact Hw|exact Hr|].
  exists n; split; [exact Hp|]; split; [exact Hok|]; split; [|cbn; lia]; unfold tls_ctx_ok; cbn [aead_write_ctx].
  split; [|split; [congruence|]].
  - unfold RecordVersion, ProtocolVersion; rewrite E1, Ev; destruct Hv as [<-|[<-|[<-|[<-|[]]]]]; vm_compute; split; congruence.
  - unfold is_tls13; rewrite E3; cbn [negb andb]; intros H; rewrite E4, H; auto.
Qed.

(** A TLS 1.3 connection in both directions, keyed by [Create]. *)
Definition sample_ssl : connection :=
  {| server := false; mode := 0; in_init := false; verify_peer := false; max_cert_list := 0; have_version := true;
     negotiated_version := TLS1_3_VERSION |}.
Definition no_messages : messages := {| hs_buf := None; has_message := false; is_v2_hello := false |}.
Definition sample_random : RandomSource.
Proof. refine {| RAND_bytes := fun _ _ => None |}; discriminate. Defined.
(** TLS_AES_128_GCM_SHA256. *)
Definition sample_cipher : SSL_CIPHER := nth 7 kCiphers (cipher String.EmptyString String.EmptyString 0 0 0 0 0 0).
Definition sample_create (dir : evp_aead_direction_t) : option (SSLAEADContext Z) :=
  Create (HA := allocator_total) toy_table 256 dir TLS1_3_VERSION false sample_cipher (zrep 16 0x5a) [] (zrep 12 7).
Definition sample_writer : write_state Z :=
  {| aead_write_ctx := default (CreateNullCipher false) (sample_create evp_aead_seal); write_sequence := 0 |}.
Definition sample_reader : read_state Z :=
  {| read_shutdown := ssl_shutdown_none; aead_read_ctx := default (CreateNullCipher false) (sample_create evp_aead_open);
     read_sequence := 0; early_data_skipped := 0; empty_record_count := 3; warning_alert_count := 1; skip_early_data_flag := false |}.
Definition sample_jobs : list (Z * buffer * buffer) :=
  [(SSL3_RT_APPLICATION_DATA, {| addr := 4096; contents := zrep 64 0 |}, {| addr := 0; contents := [104; 105] |});
   (SSL3_RT_HANDSHAKE, {| addr := 4096; contents := zrep 64 0 |}, {| addr := 0; contents := [1; 2; 3] |})].
Definition sample_sealed : option (list Z) * write_state Z := seal_all (HR := sample_random) sample_ssl sample_writer 8192 sample_jobs.

Lemma some_default {A} (x : option A) d : match x with Some _ => true | None => false end = true -> x = Some (default d x).
Proof. now destruct x. Qed.

Lemma sealed_default {A B} (x : option A * B) d : match fst x with Some _ => true | None => false end = true ->
  x = (Some (default d (fst x)), snd x).
Proof. now destruct x as [[a|] b]. Qed.

Lemma sample_in_sync : exists n, in_sync (A := toy_table n) (tag := 16) (paired := eq) sample_writer sample_reader.
Proof.
  destruct (Create_in_sync (HA := allocator_total) (HR := sample_random) toy_table 256 TLS1_3_VERSION sample_cipher
    (zrep 16 0x5a) [] (zrep 12 7) (aead_write_ctx sample_writer) (aead_read_ctx sample_reader) ssl_shutdown_none 0 3 1 false)
    as [n Hn]; [| | | | |exists n; exact Hn].
  - now left.
  - apply nth_In, Nat.ltb_lt; reflexivity.
  - vm_compute; congruence.
  - apply some_default; vm_compute; reflexivity.
  - apply some_default; vm_compute; reflexivity.
Qed.

(** ** A TLS 1.0 connection that splits its records *)

(** An AEAD of the shape of those of the CBC suites with SHA-1: a MAC of twenty
    bytes, padding to whole blocks of sixteen bytes, each byte of which is the
    length of the padding less one, and no extra input. *)
Definition toy_mac (k : Z) (ad : list Z) : list Z := zrep 20 (u8 (k + fold_right Z.add 0 ad)).
Definition toy_pad (n : Z) : Z := 16 - (n + 20) mod 16.
Definition toy_trailer (k n : Z) (ad : list Z) : list Z := toy_mac k ad ++ zrep (toy_pad n) (toy_pad n - 1).

Definition toy_cbc (nonces : Z) : EVP_AEAD Z := {|
  key_len := 52; nonce_len := nonces; overhead := 36; max_tag_len := 20; seal_scatter_supports_extra_in := false;
  init := Some (fun key tag => Some (znth key 0, 20));
  init_with_direction := fun key tag dir => None;
  open := Some (fun k max_out nonce in_ ad =>
    let p := toy_mask k in_ in
    let n := zlen p - 20 - (znth p (zlen p - 1) + 1) in
    (if bool_decide (zdrop n p = toy_trailer k n ad) then Some (ztake n p) else None, k));
  seal_scatter := fun k room nonce in_ extra ad =>
    (if zlen extra =? 0 then Some (toy_mask k in_, toy_mask k (toy_trailer k (zlen in_) ad)) else None, k);
  open_gather := None;
  tag_len := Some (fun _ n x => x + 20 + toy_pad n) |}.

Lemma toy_pad_bound n : 1 <= toy_pad n <= 16.
Proof. unfold toy_pad; pose proof (Z.mod_pos_bound (n + 20) 16); lia. Qed.

Lemma toy_trailer_len k n ad : zlen (toy_trailer k n ad) = 20 + toy_pad n /\ bytes (toy_trailer k n ad) /\ znth (toy_trailer k n ad) (19 + toy_pad n) = toy_pad n - 1.
Proof.
  pose proof (toy_pad_bound n); unfold toy_trailer, toy_mac; rewrite zlen_app, !zlen_zrep by lia; split; [reflexivity|]; split.
  - apply bytes_app; split; apply bytes_zrep; [apply (uw_bound 8); lia|unfold byte; lia].
  - rewrite znth_app2, znth_zrep by (rewrite ?zlen_zrep; lia); reflexivity.
Qed.

#[export] Instance toy_cbc_laws nonces : AeadLaws (toy_cbc nonces) 20 eq.
Proof.
  split; cbn [overhead toy_cbc open open_gather seal_scatter tag_len]; unfold EVP_AEAD_MAX_OVERHEAD, method_tag_len; cbn [tag_len toy_cbc]; try (intros; lia).
  - intros s n x Hn Hx; pose proof (toy_pad_bound n); lia.
  - intros s room nonce in_ extra ad out t s' Hi He; destruct (Z.eqb_spec (zlen extra) 0) as [->|]; [|discriminate].
    destruct (toy_trailer_len s (zlen in_) ad) as (Hl & Hb & _); revert Hl Hb; generalize (toy_trailer s (zlen in_) ad); intros tr Hl Hb [= <- <- <-].
    assert (forall l, zlen (toy_mask s l) = zlen l) as Hm by (intros; apply zlen_map); rewrite !Hm, Hl; repeat split; try lia; now apply bytes_toy_mask.
  - intros s r room nonce in_ extra ad out t s' <- Hi He; destruct (Z.eqb_spec (zlen extra) 0) as [E0|]; [|discriminate].
    destruct (toy_trailer_len s (zlen in_) ad) as (Hl & _ & Hz); pose proof (toy_pad_bound (zlen in_)).
    remember (toy_trailer s (zlen in_) ad) as tr eqn:Etr; intros [= <- <- <-].
    exists s; split; [reflexivity|]; intros max_out _; rewrite <- toy_mask_app, toy_mask_involutive, (zlen_0_nil extra E0), app_nil_r, zlen_app, Hl.
    rewrite znth_app2 by lia; replace (zlen in_ + (20 + toy_pad (zlen in_)) - 1 - zlen in_) with (19 + toy_pad (zlen in_)) by lia; rewrite Hz.
    replace (zlen in_ + (20 + toy_pad (zlen in_)) - 20 - (toy_pad (zlen in_) - 1 + 1)) with (zlen in_) by lia.
    now rewrite zdrop_app, ztake_app, bool_decide_true.
Qed.

Definition toy_cbc_table (n : aead_name) : EVP_AEAD Z := if is_aead_name n then toy_table n else toy_cbc (documented_nonce_len n).

#[local] Instance toy_cbc_table_ok : AeadTable toy_cbc_table.
Proof.
  refine {| table_tag := fun n => if is_aead_name n then 16 else 20; table_paired := fun _ => eq |}.
  - intros n; unfold toy_cbc_table; destruct (is_aead_name n); [apply toy_aead_laws|apply toy_cbc_laws].
  - intros n; unfold toy_cbc_table; now destruct (is_aead_name n).
  - intros n; unfold toy_cbc_table; now intros ->.
  - intros n key c d; unfold EVP_AEAD_CTX_init_with_direction, toy_cbc_table; destruct (is_aead_name n); cbn [toy_table toy_aead toy_cbc key_len init].
    all: case_if; [discriminate|]; intros [= <-] [= <-]; repeat split.
Defined.

Definition zero_random : RandomSource.
Proof.
  refine {| RAND_bytes := fun _ n => if 0 <=? n then Some (zrep n 0) else None |}.
  intros seqnum n l; destruct (Z.leb_spec 0 n); [|discriminate]; intros [= <-]; split; [now apply zlen_zrep|apply bytes_zrep; unfold byte; lia].
Defined.

(** TLS_RSA_WITH_AES_128_CBC_SHA. *)
Definition split_cipher : SSL_CIPHER := nth 1 kCiphers sample_cipher.
Definition split_ssl : connection :=
  {| server := false; mode := SSL_MODE_CBC_RECORD_SPLITTING; in_init := false; verify_peer := false; max_cert_list := 0; have_version := true;
     negotiated_version := TLS1_VERSION |}.
Definition split_create (dir : evp_aead_direction_t) : option (SSLAEADContext Z) :=
  Create (HA := allocator_total) toy_cbc_table 256 dir TLS1_VERSION false split_cipher (zrep 16 0x5a) (zrep 20 0x33) (zrep 16 7).
Definition split_writer : write_state Z :=
  {| aead_write_ctx := default (CreateNullCipher false) (split_create evp_aead_seal); write_sequence := 0 |}.
Definition split_reader : read_state Z :=
  {| read_shutdown := ssl_shutdown_none; aead_read_ctx := default (CreateNullCipher false) (split_create evp_aead_open);
     read_sequence := 0; early_data_skipped := 0; empty_record_count := 0; warning_alert_count := 0; skip_early_data_flag := false |}.
Definition split_jobs : list (Z * buffer * buffer) :=
  [(SSL3_RT_APPLICATION_DATA, {| addr := 4096; contents := zrep 128 0 |}, {| addr := 0; contents := [104; 105; 106] |})].
Definition split_sealed : option (list Z) * write_state Z := seal_all (HR := zero_random) split_ssl split_writer 8192 split_jobs.

Lemma split_in_sync : exists n, in_sync (A := toy_cbc_table n) (tag := table_tag n) (paired := table_paired n) split_writer split_reader.
Proof.
  destruct (Create_in_sync (HA := allocator_total) (HR := zero_random) toy_cbc_table 256 TLS1_VERSION split_cipher
    (zrep 16 0x5a) (zrep 20 0x33) (zrep 16 7) (aead_write_ctx split_writer) (aead_read_ctx split_reader) ssl_shutdown_none 0 0 0 false)
    as [n Hn]; [| | | | |exists n; exact Hn].
  - vm_compute; auto.
  - apply nth_In, Nat.ltb_lt; reflexivity.
  - vm_compute; congruence.
  - apply some_default; vm_compute; reflexivity.
  - apply some_default; vm_compute; reflexivity.
Qed.

(** Records are split, and as the lengths promise. *)
Lemma split_splitting : ssl_needs_record_splitting split_ssl split_writer = true /\ splitting_ok split_ssl split_writer.
Proof. split; [vm_compute; reflexivity|]; intros _; split; vm_compute; reflexivity. Qed.

(** Two records of TLS 1.3, and three bytes of TLS 1.0 that are split into two
    records. *)
Lemma tls_stream_roundtrip_witness :
  (exists rd', read_records 2 sample_ssl no_messages sample_reader 16384 (default [] (fst sample_sealed)) =
    ([(SSL3_RT_APPLICATION_DATA, [104; 105]); (SSL3_RT_HANDSHAKE, [1; 2; 3])], rd', [])) /\
  (exists rd', read_records 2 split_ssl no_messages split_reader 16384 (default [] (fst split_sealed)) =
    ([(SSL3_RT_APPLICATION_DATA, [104]); (SSL3_RT_APPLICATION_DATA, [105; 106])], rd', [])).
Proof.
  destruct sample_in_sync as [n Hs]; destruct split_in_sync as [n' Hs']; split.
  - destruct (tls_stream_roundtrip (HR := sample_random) (A := toy_table n) (tag := 16) (paired := eq) sample_ssl sample_ssl no_messages 8192 sample_jobs
      sample_writer sample_reader 16384 (default [] (fst sample_sealed)) (snd sample_sealed)) as (rd' & _ & _ & E).
    + exact Hs.
    + split; reflexivity.
    + split; reflexivity.
    + intros H; vm_compute in H; discriminate.
    + repeat apply List.Forall_cons; try apply List.Forall_nil; (split; [cbn; unfold data_type; auto|]; split; [cbn; each_literal|vm_compute; easy]).
    + apply sealed_default; vm_compute; reflexivity.
    + assert (flat_map (job_records sample_ssl sample_writer) sample_jobs =
        [(SSL3_RT_APPLICATION_DATA, [104; 105]); (SSL3_RT_HANDSHAKE, [1; 2; 3])]) as ER by (vm_compute; reflexivity).
      rewrite ER in E; exists rd'; exact E.
  - destruct (tls_stream_roundtrip (HR := zero_random) (L := table_laws n') split_ssl split_ssl no_messages 8192 split_jobs
      split_writer split_reader 16384 (default [] (fst split_sealed)) (snd split_sealed)) as (rd' & _ & _ & E).
    + exact Hs'.
    + split; reflexivity.
    + split; reflexivity.
    + exact (proj2 split_splitting).
    + apply List.Forall_cons; [|apply List.Forall_nil]; (split; [cbn; unfold data_type; auto|]; split; [cbn; each_literal|vm_compute; easy]).
    + apply sealed_default; vm_compute; reflexivity.
    + assert (flat_map (job_records split_ssl split_writer) split_jobs =
        [(SSL3_RT_APPLICATION_DATA, [104]); (SSL3_RT_APPLICATION_DATA, [105; 106])]) as ER by (vm_compute; reflexivity).
      rewrite ER in E; exists rd'; exact E.
Defined.

