(* ===== verification/DtlsRecord.v ===== *)
(** The DTLS record layer (ssl/dtls_record.cc, and the changes of epoch in
    ssl/dtls_method.cc): records carry their sequence number, arrive in any
    order, or twice, or not at all, and a sliding window of sixty-four numbers
    rejects replays.

    The state is that of TlsRecord.v with the fields of [DTLS1_STATE] that
    records change. *)

From S2P Require Import Prelude Mem Cbs BufMem Words Md32 Sha256 Sha512 Sha1 Md5 Digest Aead.
From S2P Require Import SslVersions SslCipher SslAead TlsMessage TlsRecord.

Definition DTLS1_RT_HEADER_LENGTH : Z := 13.
Definition DTLS1_VERSION_MAJOR : Z := 0xfe.
Definition kMaxSequenceNumber : Z := 2 ^ 48 - 1.

(** * The replay window *)

Record DTLS1_BITMAP : Type := { bitmap_map : Z; max_seq_num : Z }.

Definition kWindowSize : Z := 64.

Definition dtls1_bitmap_should_discard (b : DTLS1_BITMAP) (seq_num : Z) : bool :=
  if max_seq_num b <? seq_num then false
  else
    let idx := max_seq_num b - seq_num in
    (kWindowSize <=? idx) || negb (Z.land (bitmap_map b) (Z.shiftl 1 idx) =? 0).

Definition dtls1_bitmap_record (b : DTLS1_BITMAP) (seq_num : Z) : DTLS1_BITMAP :=
  let b :=
    if max_seq_num b <? seq_num then
      let shift := seq_num - max_seq_num b in
      {| bitmap_map := if kWindowSize <=? shift then 0 else u64 (Z.shiftl (bitmap_map b) shift); max_seq_num := seq_num |}
    else b in
  let idx := max_seq_num b - seq_num in
  if idx <? kWindowSize
  then {| bitmap_map := Z.lor (bitmap_map b) (Z.shiftl 1 idx); max_seq_num := max_seq_num b |}
  else b.

(** * State *)

Record dtls_read_state (S : Type) : Type := {
  d_read : read_state S;
  r_epoch : Z;
  bitmap : DTLS1_BITMAP
}.
Arguments d_read {S}. Arguments r_epoch {S}. Arguments bitmap {S}.

Record dtls_write_state (S : Type) : Type := {
  d_write : write_state S;
  w_epoch : Z;
  last_write_sequence : Z;
  last_aead_write_ctx : SSLAEADContext S
}.
Arguments d_write {S}. Arguments w_epoch {S}. Arguments last_write_sequence {S}. Arguments last_aead_write_ctx {S}.

Inductive dtls1_use_epoch_t : Type := dtls1_use_previous_epoch | dtls1_use_current_epoch.

(** * Reading *)

Section DtlsRead.
  Context {S : Type}.
  Implicit Types rd : dtls_read_state S.

Definition with_read rd (r : read_state S) : dtls_read_state S := {| d_read := r; r_epoch := r_epoch rd; bitmap := bitmap rd |}.
Definition with_bitmap rd (b : DTLS1_BITMAP) : dtls_read_state S := {| d_read := d_read rd; r_epoch := r_epoch rd; bitmap := b |}.

Definition dtls_open_record (ssl : connection) rd (p : Z) (in_ : list Z) : ssl_open_record_t * dtls_read_state S :=
  match read_shutdown (d_read rd) with
  | ssl_shutdown_close_notify => (ssl_open_record_close_notify 0, rd)
  | _ =>
      if zlen in_ =? 0 then (ssl_open_record_partial 0, rd)
      else
        match (let! type := CBS_get_u8 in let! version := CBS_get_u16 in let! sequence_bytes := CBS_copy_bytes 8 in
               let! body := CBS_get_u16_length_prefixed in st_ret (type, version, sequence_bytes, body)) in_ with
        | (None, _) => (ssl_open_record_discard (zlen in_), rd)
        | (Some (type, version, sequence_bytes, body), cbs) =>
            if SSL3_RT_MAX_ENCRYPTED_LENGTH <? CBS_len body then (ssl_open_record_discard (zlen in_), rd)
            else
              let a := aead_read_ctx (d_read rd) in
              let version_ok :=
                if is_null_cipher a then Z.shiftr version 8 =? DTLS1_VERSION_MAJOR else version =? RecordVersion a in
              if negb version_ok then (ssl_open_record_discard (zlen in_), rd)
              else
                let header := ztake DTLS1_RT_HEADER_LENGTH in_ in
                let sequence := CRYPTO_load_u64_be sequence_bytes in
                let epoch := u16 (Z.shiftr sequence 48) in
                let consumed := zlen in_ - CBS_len cbs in
                if negb (epoch =? r_epoch rd) || dtls1_bitmap_should_discard (bitmap rd) sequence
                then (ssl_open_record_discard consumed, rd)
                else
                  match Open a type version sequence header (p + DTLS1_RT_HEADER_LENGTH) body with
                  | (None, a) => (ssl_open_record_discard consumed, with_read rd (set_aead_read_ctx (d_read rd) a))
                  | (Some out, a) =>
                      let rd := with_read rd (set_aead_read_ctx (d_read rd) a) in
                      if SSL3_RT_MAX_PLAIN_LENGTH <? zlen out
                      then (open_error SSL_AD_RECORD_OVERFLOW SSL_R_DATA_LENGTH_TOO_LONG consumed, rd)
                      else
                        let rd := with_bitmap rd (dtls1_bitmap_record (bitmap rd) sequence) in
                        if type =? SSL3_RT_ALERT then
                          let '(r, read) := ssl_process_alert ssl (d_read rd) consumed out in (r, with_read rd read)
                        else (ssl_open_record_success type out consumed, with_read rd (set_warning_alert_count (d_read rd) 0))
                  end
        end
  end.

(** A new epoch of reading; [unprocessed] is whether handshake data of the old
    one is left ([None]: the error SSL_R_EXCESS_HANDSHAKE_DATA). *)
Definition dtls1_set_read_state rd (unprocessed : bool) (aead_ctx : SSLAEADContext S) : option (dtls_read_state S) :=
  if unprocessed then None
  else
    let r := d_read rd in
    Some {| d_read := {| read_shutdown := read_shutdown r; aead_read_ctx := aead_ctx; read_sequence := 0;
                         early_data_skipped := early_data_skipped r; empty_record_count := empty_record_count r;
                         warning_alert_count := warning_alert_count r; skip_early_data_flag := skip_early_data_flag r |};
            r_epoch := u16 (r_epoch rd + 1); bitmap := {| bitmap_map := 0; max_seq_num := 0 |} |}.
End DtlsRead.

(** * Writing *)

Section DtlsWrite.
  Context {HR : RandomSource} {S : Type}.
  Implicit Types wr : dtls_write_state S.

Definition get_write_aead wr (use_epoch : dtls1_use_epoch_t) : SSLAEADContext S :=
  match use_epoch with
  | dtls1_use_previous_epoch => last_aead_write_ctx wr
  | dtls1_use_current_epoch => aead_write_ctx (d_write wr)
  end.

Definition dtls_max_seal_overhead wr (use_epoch : dtls1_use_epoch_t) : Z :=
  DTLS1_RT_HEADER_LENGTH + MaxOverhead (get_write_aead wr use_epoch).

Definition dtls_seal_prefix_len wr (use_epoch : dtls1_use_epoch_t) : Z :=
  DTLS1_RT_HEADER_LENGTH + ExplicitNonceLen (get_write_aead wr use_epoch).

(** The sequence number and the context of an epoch. *)
Definition epoch_sequence wr (use_epoch : dtls1_use_epoch_t) : Z :=
  match use_epoch with
  | dtls1_use_previous_epoch => last_write_sequence wr
  | dtls1_use_current_epoch => write_sequence (d_write wr)
  end.

Definition with_epoch wr (use_epoch : dtls1_use_epoch_t) (a : SSLAEADContext S) (seq : Z) : dtls_write_state S :=
  match use_epoch with
  | dtls1_use_previous_epoch =>
      {| d_write := d_write wr; w_epoch := w_epoch wr; last_write_sequence := seq; last_aead_write_ctx := a |}
  | dtls1_use_current_epoch =>
      {| d_write := {| aead_write_ctx := a; write_sequence := seq |}; w_epoch := w_epoch wr;
         last_write_sequence := last_write_sequence wr; last_aead_write_ctx := last_aead_write_ctx wr |}
  end.

(** [out] is the address of the buffer of [max_out] bytes; the result is what
    the function writes there. *)
Definition dtls_seal_record wr (out max_out type : Z) (in_ : buffer) (use_epoch : dtls1_use_epoch_t) :
    option (list Z) * dtls_write_state S :=
  let in_len := zlen (contents in_) in
  let prefix := dtls_seal_prefix_len wr use_epoch in
  if buffers_alias (addr in_) in_len out max_out && ((max_out <? prefix) || negb (out + prefix =? addr in_)) then (None, wr)
  else
    let epoch := match use_epoch with
                 | dtls1_use_previous_epoch => u16 (w_epoch wr - 1)
                 | dtls1_use_current_epoch => w_epoch wr
                 end in
    let a := get_write_aead wr use_epoch in
    let seq := epoch_sequence wr use_epoch in
    if max_out <? DTLS1_RT_HEADER_LENGTH then (None, wr)
    else
      let record_version := RecordVersion (aead_write_ctx (d_write wr)) in
      if kMaxSequenceNumber <? u64 (seq + 1) then (None, wr)
      else
        let seq_with_epoch := Z.lor (Z.shiftl epoch 48) seq in
        match CiphertextLen a in_len 0 with
        | None => (None, wr)
        | Some ciphertext_len =>
            let header := [type; u8 (Z.shiftr record_version 8); Z.land record_version 0xff] ++
                          CRYPTO_store_u64_be seq_with_epoch ++
                          [u8 (Z.shiftr ciphertext_len 8); Z.land ciphertext_len 0xff] in
            match Seal a (out + DTLS1_RT_HEADER_LENGTH) (max_out - DTLS1_RT_HEADER_LENGTH) type record_version
                    seq_with_epoch header in_ with
            | (None, a) => (None, with_epoch wr use_epoch a seq)
            | (Some body, a) => (Some (header ++ body), with_epoch wr use_epoch a (u64 (seq + 1)))
            end
        end.

Definition dtls1_set_write_state wr (aead_ctx : SSLAEADContext S) : dtls_write_state S :=
  {| d_write := {| aead_write_ctx := aead_ctx; write_sequence := 0 |}; w_epoch := u16 (w_epoch wr + 1);
     last_write_sequence := write_sequence (d_write wr); last_aead_write_ctx := aead_write_ctx (d_write wr) |}.
End DtlsWrite.

(** * The window is the set of the numbers seen *)

Definition newest (seen : list Z) : Z := fold_right Z.max 0 seen.

(** Seen, or too old to tell. *)
Definition stale (seen : list Z) (s : Z) : Prop := s ∈ seen \/ s + kWindowSize <= newest seen.

#[export] Instance stale_dec seen s : Decision (stale seen s).
Proof. unfold stale; apply _. Defined.

Definition window_of (b : DTLS1_BITMAP) (seen : list Z) : Prop :=
  max_seq_num b = newest seen /\ 0 <= bitmap_map b < 2 ^ 64 /\ Forall (Z.le 0) seen /\
  forall i, 0 <= i < kWindowSize -> Z.testbit (bitmap_map b) i = bool_decide (newest seen - i ∈ seen).

Lemma newest_ge seen s : s ∈ seen -> s <= newest seen.
Proof.
  induction seen as [|x l IH]; intros H; [now apply elem_of_nil in H|]; unfold newest in *; cbn [fold_right].
  apply elem_of_cons in H as [-> |H]; [|specialize (IH H)]; lia.
Qed.

Lemma newest_nonneg seen : 0 <= newest seen.
Proof. unfold newest; induction seen; cbn [fold_right]; lia. Qed.

Lemma bit_of_mask m i : 0 <= i -> negb (Z.land m (Z.shiftl 1 i) =? 0) = Z.testbit m i.
Proof.
  intros Hi; destruct (Z.testbit m i) eqn:E.
  - apply negb_true_iff, Z.eqb_neq; intros H; apply (f_equal (fun x => Z.testbit x i)) in H.
    rewrite Z.land_spec, E, Z.shiftl_spec, Z.sub_diag, Z.bits_0 in H by lia; discriminate.
  - apply negb_false_iff, Z.eqb_eq, Z.bits_inj'; intros k Hk; rewrite Z.land_spec, Z.bits_0.
    destruct (Z.eq_dec k i) as [-> |Hne]; [now rewrite E|].
    rewrite Z.shiftl_1_l, Z.pow2_bits_false by lia; apply andb_false_r.
Qed.

Lemma should_discard_spec b seen s : window_of b seen -> dtls1_bitmap_should_discard b s = bool_decide (stale seen s).
Proof.
  intros (Em & Hm & _ & Hb); unfold dtls1_bitmap_should_discard; rewrite Em.
  destruct (Z.ltb_spec (newest seen) s) as [Hlt|Hge].
  - symmetry; apply bool_decide_false; intros [H|H]; [apply newest_ge in H|unfold kWindowSize in H]; lia.
  - rewrite bit_of_mask by lia; destruct (Z.leb_spec kWindowSize (newest seen - s)) as [H|H]; cbn [orb].
    + symmetry; apply bool_decide_true; right; lia.
    + rewrite Hb by lia; replace (newest seen - (newest seen - s)) with s by lia; apply bool_decide_ext; unfold stale.
      split; [now left|intros [|]; [auto|lia]].
Qed.

(** A shift of the map. *)
Lemma shifted_bit m k i : 0 <= k -> 0 <= i < 64 -> Z.testbit (u64 (Z.shiftl m k)) i = (k <=? i) && Z.testbit m (i - k).
Proof.
  intros Hk Hi; unfold uw; rewrite Z.mod_pow2_bits_low, Z.shiftl_spec by lia; destruct (Z.leb_spec k i); [reflexivity|].
  now rewrite Z.testbit_neg_r by lia.
Qed.

Lemma set_bit m k i : 0 <= k -> 0 <= i -> Z.testbit (Z.lor m (Z.shiftl 1 k)) i = Z.testbit m i || (i =? k).
Proof.
  intros Hk Hi; rewrite Z.lor_spec, Z.shiftl_1_l; destruct (Z.eqb_spec i k) as [-> |Hne].
  - now rewrite Z.pow2_bits_true by lia.
  - now rewrite Z.pow2_bits_false by lia.
Qed.

Lemma lor_bit_bound m k : 0 <= m < 2 ^ 64 -> 0 <= k < 64 -> 0 <= Z.lor m (Z.shiftl 1 k) < 2 ^ 64.
Proof.
  intros Hm Hk; rewrite Z.shiftl_1_l; apply lor_small; [lia|exact Hm|].
  split; [apply Z.pow_nonneg; lia|apply Z.pow_lt_mono_r; lia].
Qed.

Lemma record_spec b seen s : window_of b seen -> 0 <= s -> ~ stale seen s -> window_of (dtls1_bitmap_record b s) (s :: seen).
Proof.
  intros (Em & Hm & Hf & Hb) Hs Hns; pose proof (newest_nonneg seen) as Hn0; unfold dtls1_bitmap_record; rewrite Em.
  assert (newest (s :: seen) = Z.max s (newest seen)) as En by reflexivity.
  assert (Forall (Z.le 0) (s :: seen)) as Hf' by now constructor.
  destruct (Z.ltb_spec (newest seen) s) as [Hlt|Hge]; cbn [max_seq_num bitmap_map].
  - rewrite Z.sub_diag; change (0 <? kWindowSize) with true; cbn [max_seq_num bitmap_map].
    split; [rewrite En; cbn [max_seq_num]; lia|]; cbn [max_seq_num bitmap_map].
    split; [apply lor_bit_bound; [|lia]; case_if; [lia|apply uw_bound; lia]|]; split; [exact Hf'|]; intros i Hi.
    rewrite set_bit, En, Z.max_l by lia.
    destruct (Z.eqb_spec i 0) as [-> |Hi0]; [rewrite Z.sub_0_r, orb_true_r, bool_decide_true; [reflexivity|constructor]|rewrite orb_false_r].
    transitivity (bool_decide (s - i ∈ seen)); [|apply bool_decide_ext; rewrite elem_of_cons; split; [auto|intros [|]; [lia|auto]]].
    assert (newest seen < s - i -> bool_decide (s - i ∈ seen) = false) as Hout by
      (intros Hl; apply bool_decide_false; intros H%newest_ge; lia).
    destruct (Z.leb_spec kWindowSize (s - newest seen)) as [Hw|Hw]; [rewrite Z.bits_0; symmetry; apply Hout; unfold kWindowSize in *; lia|].
    rewrite shifted_bit by (unfold kWindowSize in *; lia); destruct (Z.leb_spec (s - newest seen) i) as [Hl|Hl]; cbn [andb];
      [|symmetry; apply Hout; lia].
    rewrite Hb by (unfold kWindowSize in *; lia); replace (newest seen - (i - (s - newest seen))) with (s - i) by lia; reflexivity.
  - assert (newest seen - s < kWindowSize) as Hw by (destruct (Z.lt_ge_cases (newest seen - s) kWindowSize); [auto|destruct Hns; right; lia]).
    rewrite Em, (proj2 (Z.ltb_lt _ _)) by exact Hw; unfold kWindowSize in *; split; [rewrite En; cbn [max_seq_num]; rewrite ?Em; lia|]; cbn [max_seq_num bitmap_map].
    split; [apply lor_bit_bound; lia|]; split; [exact Hf'|]; intros i Hi; unfold kWindowSize in Hi; rewrite set_bit, En, Z.max_r, Hb by lia.
    destruct (Z.eqb_spec i (newest seen - s)) as [-> |Hne].
    + rewrite orb_true_r; symmetry; apply bool_decide_true; replace (newest seen - (newest seen - s)) with s by lia; constructor.
    + rewrite orb_false_r; apply bool_decide_ext; rewrite elem_of_cons; split; [auto|intros [|]; [lia|auto]].
Qed.

Lemma window_start : window_of {| bitmap_map := 0; max_seq_num := 0 |} [].
Proof.
  split; [reflexivity|]; split; [cbn; lia|]; split; [constructor|]; intros i _; cbn [bitmap_map].
  rewrite Z.bits_0; symmetry; apply bool_decide_false; apply not_elem_of_nil.
Qed.

(** * What is sealed is received *)

(** Datagrams are opened in any order: opening does not change the state. *)
Class DatagramAead {S : Type} (A : EVP_AEAD S) (tag : Z) (paired : S -> S -> Prop) : Prop := {
  datagram_laws : AeadLaws A tag paired;
  datagram_stateless : forall r, AeadLaws A tag (fun s r' => paired s r' /\ r' = r)
}.

Section Datagrams.
  Context {HR : RandomSource} {S : Type} {A : EVP_AEAD S} {tag : Z} {paired : S -> S -> Prop} {D : DatagramAead A tag paired}.
  Implicit Types (w R : SSLAEADContext S).

Abbreviation partners := (aead_paired (A := A) (tag := tag) (paired := paired)).

Lemma same_reader w w' R r' : same_params w R -> same_params w w' -> same_params w' r' -> keyed r' = keyed R -> r' = R.
Proof.
  intros H1 H2 H3 Hk; destruct R, r'; unfold same_params in *; cbn in *; subst; f_equal; intuition congruence.
Qed.

(** What a context seals any number of times, its partner opens in any order. *)
Lemma datagram_open w R out_prefix out out_suffix type version seqnum header p data e c t w' :
  partners w R -> params_ok (A := A) (tag := tag) w -> bytes data ->
  SealScatter w out_prefix out out_suffix type version seqnum header {| addr := p; contents := data |} [] = (Some (e, c, t), w') ->
  zlen e = ExplicitNonceLen w * (if is_null_cipher w then 0 else 1) /\ zlen c = zlen data /\
  SuffixLen w (zlen data) 0 = Some (zlen t) /\ params_ok (A := A) (tag := tag) w' /\ partners w' R /\
  forall q, Open R type version seqnum header q (e ++ c ++ t) = (Some data, R).
Proof.
  intros Hp Hok Hd Es; pose proof Hp as [Hk Hsame]; destruct (SealScatter_same _ _ _ _ _ _ _ _ _ _ _ _ Es) as (Hs' & Hn' & Hc').
  assert (forall P (L : AeadLaws A tag P), aead_paired (A := A) (tag := tag) (paired := P) w R ->
    zlen e = ExplicitNonceLen w * (if is_null_cipher w then 0 else 1) /\ zlen c = zlen data /\
    SuffixLen w (zlen data) 0 = Some (zlen t) /\ params_ok (A := A) (tag := tag) w' /\
    exists r', aead_paired (A := A) (tag := tag) (paired := P) w' r' /\
      forall q, Open R type version seqnum header q (e ++ c ++ t) = (Some data, r')) as Hgen.
  { intros P L HP; destruct (SealScatter_Open (L := L) _ _ _ _ _ _ _ _ _ _ _ _ _ _ _ _ HP Hok Hd ltac:(constructor) (or_introl eq_refl) Es)
      as (L1 & L2 & L3 & _ & Hok' & r' & Hp' & Ho); rewrite app_nil_r in Ho; eauto 10. }
  destruct (keyed R) as [[cr y]|] eqn:KR.
  - destruct (keyed w) as [[cw x]|] eqn:Kw; [|easy]; destruct Hk as [-> (E1 & E2 & E3 & E4 & E5)].
    destruct (Hgen _ (datagram_stateless (state y))) as (L1 & L2 & L3 & Hok' & r' & [Hk' Hsame'] & Ho).
    { split; [|exact Hsame]; rewrite Kw, KR; repeat split; auto. }
    destruct (keyed w') as [[cw' x']|] eqn:Kw'; [|discriminate Hc'].
    destruct (keyed r') as [[cr' y']|] eqn:Kr'; [|easy]; destruct Hk' as [-> (F1 & F2 & F3 & F4 & F5 & F6)].
    assert (r' = R) as ->.
    { apply (same_reader w w' R r' Hsame Hs' Hsame'); rewrite Kr', KR; injection Hc' as ->.
      do 2 f_equal; destruct y, y'; cbn in *; congruence. }
    repeat (split; [assumption|]); split; [|exact Ho]; split; [|exact Hsame'].
    rewrite Kw', KR; rewrite KR in Kr'; injection Kr' as -> ->; repeat split; auto.
  - destruct (keyed w) as [[cw x]|] eqn:Kw; [easy|].
    destruct (Hgen _ datagram_laws Hp) as (L1 & L2 & L3 & Hok' & r' & [Hk' Hsame'] & Ho).
    assert (keyed w' = None) as Kw' by (destruct (keyed w') as [[]|]; [discriminate Hc'|auto]).
    rewrite Kw' in Hk'; assert (keyed r' = None) as Kr' by (destruct (keyed r') as [[]|]; easy).
    assert (r' = R) as -> by (apply (same_reader w w' R r' Hsame Hs' Hsame'); congruence).
    repeat (split; [assumption|]); split; [|exact Ho]; split; [rewrite Kw', KR; exact I|exact Hsame'].
Qed.

(** A context of DTLS: a record version of DTLS, and no explicit nonce without a
    cipher. *)
Definition dtls_ctx_ok w : Prop :=
  Z.shiftr (RecordVersion w) 8 = DTLS1_VERSION_MAJOR /\ 0 <= RecordVersion w < 2 ^ 16 /\
  (is_null_cipher w = true -> variable_nonce_included_in_record_ w = false).

Lemma dtls_ctx_ok_same w w' : same_params w w' -> is_null_cipher w' = is_null_cipher w -> dtls_ctx_ok w ->
  dtls_ctx_ok w' /\ RecordVersion w' = RecordVersion w.
Proof.
  intros (_ & _ & _ & E4 & E5 & E6 & _) En; unfold dtls_ctx_ok, RecordVersion, ProtocolVersion; rewrite E4, E5, E6, En; auto.
Qed.

(** The writer in the epoch of the reader's context [R]. *)
Definition writes_to R (wr : dtls_write_state S) : Prop :=
  let w := aead_write_ctx (d_write wr) in
  partners w R /\ params_ok (A := A) (tag := tag) w /\ dtls_ctx_ok w /\ 0 <= w_epoch wr < 2 ^ 16 /\
  0 <= write_sequence (d_write wr) < 2 ^ 48.

(** The number of the next record, epoch included. *)
Definition next_number (wr : dtls_write_state S) : Z := w_epoch wr * 2 ^ 48 + write_sequence (d_write wr).

Definition dtls_header (type version sequence len : Z) : list Z := type :: be_enc 2 version ++ be_enc 8 sequence ++ be_enc 2 len.

(** A record that the context [R] opens. *)
Definition opens_to R (s type : Z) (data bs : list Z) : Prop :=
  exists version body, let header := dtls_header type version s (zlen body) in
  bs = header ++ body /\ zlen body <= SSL3_RT_MAX_ENCRYPTED_LENGTH /\ 0 <= version < 2 ^ 16 /\
  version = RecordVersion R /\ Z.shiftr version 8 = DTLS1_VERSION_MAJOR /\
  forall q, Open R type version s header q body = (Some data, R).

#[local] Existing Instance datagram_laws.

Lemma Seal_inv w out max_out type version seqnum header in_ body w' : Seal w out max_out type version seqnum header in_ = (Some body, w') ->
  (exists out_prefix o out_suffix e c t, body = e ++ c ++ t /\
    SealScatter w out_prefix o out_suffix type version seqnum header in_ [] = (Some (e, c, t), w')) /\
  exists sl, SuffixLen w (zlen (contents in_)) 0 = Some sl /\ u64 (zlen (contents in_) + ExplicitNonceLen w + sl) <= max_out.
Proof.
  unfold Seal; destruct (SuffixLen w _ 0) as [sl|]; [|discriminate]; case_if; [discriminate|]; case_if; [discriminate|].
  destruct (SealScatter _ _ _ _ _ _ _ _ _ _) as [[[[e c] t]|] a] eqn:E; [|discriminate]; intros [= <- <-].
  split; [eauto 10|]; exists sl; bool_facts; auto.
Qed.

(** The header as the code writes it. *)
Lemma dtls_header_bytes type version sequence len : 0 <= version < 2 ^ 16 -> 0 <= sequence < 2 ^ 64 -> 0 <= len < 2 ^ 16 ->
  [type; u8 (Z.shiftr version 8); Z.land version 0xff] ++ CRYPTO_store_u64_be sequence ++ [u8 (Z.shiftr len 8); Z.land len 0xff] =
    dtls_header type version sequence len.
Proof.
  intros Hv Hs Hl; unfold dtls_header; rewrite <- (u16_bytes version), <- (u16_bytes len) by assumption.
  now rewrite store_u64_be_spec.
Qed.

Lemma dtls_seal_opens R wr out max_out type p data bs wr' :
  writes_to R wr -> bytes data -> zlen data <= SSL3_RT_MAX_PLAIN_LENGTH ->
  dtls_seal_record wr out max_out type {| addr := p; contents := data |} dtls1_use_current_epoch = (Some bs, wr') ->
  opens_to R (next_number wr) type data bs /\ writes_to R wr' /\ w_epoch wr' = w_epoch wr /\ next_number wr' = next_number wr + 1 /\ zlen bs <= max_out.
Proof.
  intros (Hp & Hok & Hctx & He & Hs) Hd Hl; unfold dtls_seal_record; cbn [contents get_write_aead epoch_sequence with_epoch].
  case_if; [discriminate|]; destruct (Z.ltb_spec max_out DTLS1_RT_HEADER_LENGTH) as [|Hroom]; [discriminate|].
  set (w := aead_write_ctx (d_write wr)) in *; set (seq := write_sequence (d_write wr)) in *.
  rewrite (uw_small 64 (seq + 1)) by lia; destruct (Z.ltb_spec kMaxSequenceNumber (seq + 1)) as [|Hmax]; [discriminate|].
  rewrite Z.shiftl_mul_pow2, lor_disjoint by lia; fold (next_number wr); set (s := next_number wr).
  assert (0 <= s < 2 ^ 64) as Hs64 by (unfold s, next_number; fold seq; lia).
  destruct (SuffixLen w (zlen data) 0) as [sl|] eqn:Esl; [|unfold CiphertextLen; now rewrite Esl].
  pose proof (zlen_nonneg data) as Hd0; pose proof (suffix_bound w R _ 0 sl Hp Hd0 ltac:(lia) Esl) as Hsl.
  pose proof (explicit_nonce_bound w Hok) as Hen; unfold SSL3_RT_MAX_PLAIN_LENGTH in Hl.
  rewrite (CiphertextLen_spec w _ _ sl) by (auto; lia); destruct (Seal _ _ _ _ _ _ _ _) as [[body|] a] eqn:ES; [|discriminate].
  intros E; apply pair_equal_spec in E as [E <-]; apply (inj Some) in E; subst bs.
  destruct (Seal_inv _ _ _ _ _ _ _ _ _ _ ES) as ((o1 & o2 & o3 & e & c & t & -> & Es) & sl' & Esl' & Hfit); cbn [contents] in Esl', Hfit.
  rewrite Esl in Esl'; injection Esl' as <-.
  destruct (SealScatter_same _ _ _ _ _ _ _ _ _ _ _ _ Es) as (Hsame & Hnull & _).
  destruct (datagram_open _ _ _ _ _ _ _ _ _ _ _ _ _ _ _ Hp Hok Hd Es) as (Le & Lc & Lt & Hok' & Hp' & Hopen).
  destruct Hctx as (Hv1 & Hv2 & Hv3); destruct (dtls_ctx_ok_same w a Hsame Hnull (conj Hv1 (conj Hv2 Hv3))) as [Hctx' _].
  assert (zlen (e ++ c ++ t) = ExplicitNonceLen w + zlen data + sl) as Lb.
  { rewrite !zlen_app, Le, Lc; assert (zlen t = sl) as -> by congruence.
    destruct (is_null_cipher w) eqn:En; [unfold ExplicitNonceLen; rewrite Hv3 by auto; lia|lia]. }
  unfold EVP_AEAD_MAX_OVERHEAD, EVP_AEAD_MAX_NONCE_LENGTH in *.
  rewrite dtls_header_bytes in * by (auto; pow2; lia); rewrite <- Lb in *.
  split; [|split; [split; [exact Hp'|split; [exact Hok'|split; [exact Hctx'|split; [exact He|]]]]|split; [reflexivity|split]]].
  - exists (RecordVersion w), (e ++ c ++ t); split; [reflexivity|].
    split; [unfold SSL3_RT_MAX_ENCRYPTED_LENGTH, SSL3_RT_MAX_ENCRYPTED_OVERHEAD, SSL3_RT_MAX_PLAIN_LENGTH in *; lia|].
    split; [exact Hv2|]; split; [|split; [exact Hv1|exact Hopen]].
    destruct (same_is_tls13 w R (proj2 Hp) (paired_null _ _ Hp)) as (_ & <- & _); reflexivity.
  - cbn; unfold kMaxSequenceNumber in *; lia.
  - unfold s, next_number; cbn; fold seq; lia.
  - rewrite uw_small in Hfit by (pow2; lia); rewrite zlen_app, Lb; unfold dtls_header; rewrite zlen_cons, !zlen_app, !zlen_be_enc.
    unfold DTLS1_RT_HEADER_LENGTH in *; lia.
Qed.

(** The reader in the epoch [e] that has accepted the numbers [seen]. *)
Definition reading R (e : Z) (seen : list Z) (rd : dtls_read_state S) : Prop :=
  aead_read_ctx (d_read rd) = R /\ read_shutdown (d_read rd) = ssl_shutdown_none /\ r_epoch rd = e /\ window_of (bitmap rd) seen.

Lemma dtls_parse type version s body rest : 0 <= version < 2 ^ 16 -> zlen body < 2 ^ 16 ->
  (let! type := CBS_get_u8 in let! version := CBS_get_u16 in let! sequence_bytes := CBS_copy_bytes 8 in
   let! body := CBS_get_u16_length_prefixed in st_ret (type, version, sequence_bytes, body))
    ((dtls_header type version s (zlen body) ++ body) ++ rest) = (Some (type, version, be_enc 8 s, body), rest).
Proof.
  intros Hv Hb; unfold dtls_header; cbn [app]; rewrite <- !app_assoc; erewrite st_bind_some by apply CBS_get_u8_cons.
  erewrite st_bind_some by (now apply CBS_get_u16_be); unfold CBS_copy_bytes.
  erewrite st_bind_some by (apply cbs_get_app; now rewrite zlen_be_enc).
  erewrite st_bind_some by (exact (get_length_prefixed_be 2 body rest ltac:(lia) Hb)); reflexivity.
Qed.

(** What follows a record in its packet does not matter. *)
Lemma dtls_open_sealed_then ssl rd R e seen s type data bs rest q :
  reading R e seen rd -> opens_to R s type data bs -> 0 <= s < 2 ^ 64 -> s / 2 ^ 48 = e -> 0 <= e < 2 ^ 16 ->
  type <> SSL3_RT_ALERT -> zlen data <= SSL3_RT_MAX_PLAIN_LENGTH ->
  if decide (stale seen s) then dtls_open_record ssl rd q (bs ++ rest) = (ssl_open_record_discard (zlen bs), rd)
  else exists rd', dtls_open_record ssl rd q (bs ++ rest) = (ssl_open_record_success type data (zlen bs), rd') /\ reading R e (s :: seen) rd'.
Proof.
  intros (ER & Esd & Ee & Hw) (version & body & -> & Hmax & Hv & Ev & Emaj & Hopen) Hs Hse He Ht Hl.
  set (header := dtls_header type version s (zlen body)) in *.
  assert (zlen header = DTLS1_RT_HEADER_LENGTH) as Lh by (unfold header, dtls_header; rewrite zlen_cons, !zlen_app, !zlen_be_enc; reflexivity).
  pose proof (zlen_nonneg body) as H0; pose proof (zlen_nonneg rest) as H1; unfold DTLS1_RT_HEADER_LENGTH in Lh.
  assert (dtls_open_record ssl rd q ((header ++ body) ++ rest) =
    if dtls1_bitmap_should_discard (bitmap rd) s then (ssl_open_record_discard (zlen (header ++ body)), rd)
    else (ssl_open_record_success type data (zlen (header ++ body)),
          let rd := with_bitmap (with_read rd (set_aead_read_ctx (d_read rd) R)) (dtls1_bitmap_record (bitmap rd) s) in
          with_read rd (set_warning_alert_count (d_read rd) 0))) as ->.
  { unfold dtls_open_record; rewrite Esd, (proj2 (Z.eqb_neq _ _)) by (rewrite !zlen_app; lia).
    unfold header at 1; rewrite dtls_parse by (auto; unfold SSL3_RT_MAX_ENCRYPTED_LENGTH, SSL3_RT_MAX_ENCRYPTED_OVERHEAD,
      SSL3_RT_MAX_PLAIN_LENGTH in *; pow2; lia); fold header; unfold CBS_len.
    rewrite (proj2 (Z.ltb_ge _ _)) by exact Hmax; rewrite ER, Emaj, <- Ev, !Z.eqb_refl.
    assert (CRYPTO_load_u64_be (be_enc 8 s) = s) as ->.
    { rewrite <- (app_nil_r (be_enc 8 s)), load_u64_be_spec by (apply bytes_be_enc || apply zlen_be_enc).
      rewrite be_val_be_enc; apply Z.mod_small; exact Hs. }
    replace (if is_null_cipher R then true else true) with true by now destruct (is_null_cipher R).
    cbn [negb]; rewrite Z.shiftr_div_pow2, Hse, uw_small, Ee, Z.eqb_refl by lia; cbn [negb orb].
    replace (zlen ((header ++ body) ++ rest) - zlen rest) with (zlen (header ++ body)) by (rewrite (zlen_app (header ++ body)); lia).
    rewrite <- app_assoc, ztake_app_eq by (unfold DTLS1_RT_HEADER_LENGTH; lia).
    rewrite Hopen, (proj2 (Z.ltb_ge _ _)), (proj2 (Z.eqb_neq _ _) Ht) by exact Hl; reflexivity. }
  rewrite (should_discard_spec _ seen) by exact Hw; case_bool_decide as Hst; case_decide; try easy; eexists; split; [reflexivity|].
  split; [reflexivity|]; split; [exact Esd|]; split; [exact Ee|]; now apply record_spec.
Qed.

(** A sender: each job has the buffer for the record, its size, and the type
    and content of the record. *)
Definition job : Type := Z * Z * Z * buffer.
Definition no_job : job := (0, 0, 0, {| addr := 0; contents := [] |}).
Definition job_record (j : job) : Z * list Z := let '(_, _, type, in_) := j in (type, contents in_).
Definition dtls_job_ok (j : job) : Prop :=
  fst (job_record j) <> SSL3_RT_ALERT /\ bytes (snd (job_record j)) /\ zlen (snd (job_record j)) <= SSL3_RT_MAX_PLAIN_LENGTH.

Fixpoint dtls_seal_all (wr : dtls_write_state S) (jobs : list job) : option (list (list Z)) * dtls_write_state S :=
  match jobs with
  | [] => (Some [], wr)
  | (out, max_out, type, in_) :: jobs =>
      match dtls_seal_record wr out max_out type in_ dtls1_use_current_epoch with
      | (None, wr) => (None, wr)
      | (Some bs, wr) => let '(more, wr) := dtls_seal_all wr jobs in (option_map (cons bs) more, wr)
      end
  end.

(** A receiver of datagrams of one record each, at the address [q]. *)
Fixpoint dtls_receive (ssl : connection) (rd : dtls_read_state S) (q : Z) (datagrams : list (list Z)) :
    list (Z * list Z) * dtls_read_state S :=
  match datagrams with
  | [] => ([], rd)
  | d :: datagrams =>
      match dtls_open_record ssl rd q d with
      | (ssl_open_record_success type out _, rd) =>
          let '(records, rd) := dtls_receive ssl rd q datagrams in ((type, out) :: records, rd)
      | (_, rd) => dtls_receive ssl rd q datagrams
      end
  end.

(** The arrivals that are accepted, datagram [i] having the number [base + i]:
    those that are new when they arrive and not sixty-four or more behind. *)
Fixpoint accepted (base : Z) (seen : list Z) (arrivals : list nat) : list nat :=
  match arrivals with
  | [] => []
  | i :: arrivals =>
      let s := base + Z.of_nat i in
      if decide (stale seen s) then accepted base seen arrivals else i :: accepted base (s :: seen) arrivals
  end.

Definition sealed_as R (e s : Z) (r : Z * list Z) (bs : list Z) : Prop :=
  opens_to R s (fst r) (snd r) bs /\ 0 <= s < 2 ^ 64 /\ s / 2 ^ 48 = e.

Lemma dtls_seal_all_opens R jobs : forall wr ds wr', writes_to R wr -> Forall dtls_job_ok jobs ->
  dtls_seal_all wr jobs = (Some ds, wr') ->
  forall i j, jobs !! i = Some j -> sealed_as R (w_epoch wr) (next_number wr + Z.of_nat i) (job_record j) (nth i ds []).
Proof.
  induction jobs as [|[[[out max_out] type] [p data]] jobs IH]; intros wr ds wr' Hw Hj E i j Hi; [discriminate|]; cbn [dtls_seal_all] in E.
  apply Forall_cons_1 in Hj as [(Ht & Hd & Hl) Hj]; destruct (dtls_seal_record _ _ _ _ _ _) as [[bs|] wr1] eqn:E1; [|discriminate].
  destruct (dtls_seal_opens _ _ _ _ _ _ _ _ _ Hw Hd Hl E1) as (Ho & Hw1 & Ee & En & _).
  destruct (dtls_seal_all wr1 jobs) as [[more|] wr2] eqn:E2; [|discriminate]; injection E as <- <-.
  destruct i as [|i]; cbn in Hi.
  - injection Hi as <-; rewrite Z.add_0_r; split; [exact Ho|]; destruct Hw as (_ & _ & _ & He & Hs); unfold next_number.
    split; [lia|]; rewrite Z.div_add_l, Z.div_small by lia; lia.
  - specialize (IH _ _ _ Hw1 Hj E2 i j Hi); rewrite Ee, En in IH; cbn [nth].
    now replace (next_number wr + Z.of_nat (Datatypes.S i)) with (next_number wr + 1 + Z.of_nat i) by lia.
Qed.

Lemma dtls_receive_accepted ssl q R e base jobs ds : 0 <= e < 2 ^ 16 -> Forall dtls_job_ok jobs ->
  (forall i j, jobs !! i = Some j -> sealed_as R e (base + Z.of_nat i) (job_record j) (nth i ds [])) ->
  forall arrivals seen rd, Forall (fun i => i < length jobs)%nat arrivals -> reading R e seen rd ->
  fst (dtls_receive ssl rd q (map (fun i => nth i ds []) arrivals)) =
    map (fun i => job_record (nth i jobs no_job)) (accepted base seen arrivals).
Proof.
  intros He Hj Hds; induction arrivals as [|i arrivals IH]; intros seen rd Ha Hr; [reflexivity|]; cbn [map dtls_receive accepted].
  apply Forall_cons_1 in Ha as [Hi Ha]; destruct (lookup_lt_is_Some_2 jobs i Hi) as [j Ej].
  assert (nth i jobs no_job = j) as Enth by (rewrite nth_lookup, Ej; reflexivity).
  destruct (Hds i j Ej) as (Ho & Hs & Hse); destruct (proj1 (Forall_lookup _ _) Hj i j Ej) as (Ht & Hd & Hl).
  pose proof (dtls_open_sealed_then ssl rd R e seen _ _ _ _ [] q Hr Ho Hs Hse He Ht Hl) as Hopen; rewrite app_nil_r in Hopen; case_decide.
  - rewrite Hopen; now apply IH.
  - destruct Hopen as (rd' & -> & Hr'); specialize (IH _ _ Ha Hr').
    destruct (dtls_receive _ rd' _ _) as [records rd2]; cbn [fst map] in *; rewrite IH, Enth; f_equal.
    now destruct (job_record j).
Qed.

(** No datagram is accepted twice. *)
Lemma accepted_fresh base arrivals : forall seen i, i ∈ accepted base seen arrivals -> base + Z.of_nat i ∉ seen.
Proof.
  induction arrivals as [|k arrivals IH]; intros seen i H; cbn [accepted] in H; [now apply elem_of_nil in H|].
  case_decide as Hst; [now apply IH|]; apply elem_of_cons in H as [-> |H]; [intros Hin; apply Hst; now left|].
  apply IH in H; intros Hin; apply H; now right.
Qed.

Lemma accepted_once base arrivals : forall seen, NoDup (accepted base seen arrivals).
Proof.
  induction arrivals as [|k arrivals IH]; intros seen; cbn [accepted]; [constructor|]; case_decide; [apply IH|].
  constructor; [|apply IH]; intros Hin%accepted_fresh; apply Hin; left.
Qed.

(** Datagrams in order are all accepted. *)
Lemma accepted_in_order base n : forall k seen, newest seen < base + Z.of_nat k -> 0 <= base -> accepted base seen (List.seq k n) = List.seq k n.
Proof.
  induction n as [|n IH]; intros k seen Hk Hb; [reflexivity|]; cbn [List.seq accepted]; case_decide as Hst.
  - destruct Hst as [H|H]; [apply newest_ge in H|unfold kWindowSize in H]; lia.
  - f_equal; apply IH; [|exact Hb]; unfold newest in *; cbn [fold_right]; lia.
Qed.

(** C14. Whatever the network does to the datagrams of an epoch (it may lose, repeat
    and reorder them), the receiver delivers the records of exactly those that
    are new when they arrive and less than sixty-four behind the newest: each
    with the type and the content it was sealed with, none twice, and all of
    them when they arrive in order. *)
Theorem dtls_delivery ssl q R wr jobs ds wr' rd seen arrivals :
  writes_to R wr -> Forall dtls_job_ok jobs -> dtls_seal_all wr jobs = (Some ds, wr') ->
  reading R (w_epoch wr) seen rd -> Forall (fun i => i < length jobs)%nat arrivals ->
  let delivered := accepted (next_number wr) seen arrivals in
  fst (dtls_receive ssl rd q (map (fun i => nth i ds []) arrivals)) =
    map (fun i => job_record (nth i jobs no_job)) delivered /\
  NoDup delivered /\ Forall (fun i => next_number wr + Z.of_nat i ∉ seen) delivered /\
  (newest seen < next_number wr -> arrivals = List.seq 0 (length jobs) -> delivered = arrivals).
Proof.
  intros Hw Hj E Hr Ha delivered; pose proof Hw as (_ & _ & _ & He & Hs).
  split; [|split; [apply accepted_once|split]].
  - exact (dtls_receive_accepted ssl q R (w_epoch wr) _ jobs ds He Hj (dtls_seal_all_opens R jobs _ _ _ Hw Hj E) arrivals seen rd Ha Hr).
  - apply Forall_forall; intros i; apply accepted_fresh.
  - intros Hn ->; apply accepted_in_order; [lia|unfold next_number; lia].
Qed.
End Datagrams.

(** * The start of an epoch *)

Section Epoch.
  Context {HA : Allocator} {HR : RandomSource} {S : Type} (aeads : aead_name -> EVP_AEAD S) {T : AeadTable aeads}.

(** Two ends that change the epoch with contexts keyed by the same secrets are
    in the same epoch, with an empty window, if they were in the same before. *)
Lemma epoch_in_sync sizeof version c enc_key mac_key fixed_iv w r wr rd rd' :
  In version kDTLSVersions -> In c kCiphers -> default 0 (ssl_protocol_version_from_wire version) <= SSL_CIPHER_get_max_version c ->
  Create aeads sizeof evp_aead_seal version true c enc_key mac_key fixed_iv = Some w ->
  Create aeads sizeof evp_aead_open version true c enc_key mac_key fixed_iv = Some r ->
  r_epoch rd = w_epoch wr -> read_shutdown (d_read rd) = ssl_shutdown_none -> dtls1_set_read_state rd false r = Some rd' ->
  exists n, writes_to (A := aeads n) (tag := table_tag n) (paired := table_paired n) r (dtls1_set_write_state wr w) /\
    reading r (w_epoch (dtls1_set_write_state wr w)) [] rd'.
Proof.
  intros Hv Hc Hmax Hw Hr He Hsd [= <-].
  destruct (Create_paired aeads sizeof version true c enc_key mac_key fixed_iv w r Hc Hmax Hw Hr) as (n & Hp & Hok & E1 & E2 & E3 & _).
  exists n; split.
  - split; [exact Hp|]; split; [exact Hok|]; split; [|split; [cbn; apply (uw_bound 16); lia|cbn; lia]].
    unfold dtls_ctx_ok, RecordVersion, ProtocolVersion; cbn [aead_write_ctx d_write dtls1_set_write_state]; rewrite E1, E3.
    destruct Hv as [<-|[<-|[]]]; vm_compute; repeat split; congruence.
  - split; [reflexivity|]; split; [exact Hsd|]; split; [cbn; now rewrite He|apply window_start].
Qed.
End Epoch.

#[export] Instance toy_datagrams keys nonces : DatagramAead (toy_aead keys nonces) 16 eq.
Proof.
  split; [apply toy_aead_laws|]; intros r; pose proof (toy_aead_laws keys nonces) as [H1 H2 H3 H4 H5 H6]; split; auto.
  intros s r' room nonce in_ extra ad out t s' [<- ->] Hi He Es; destruct (H6 _ _ _ _ _ _ _ _ _ _ eq_refl Hi He Es) as (r2 & <- & Ho).
  exists s'; split; [split; [reflexivity|now injection Es]|exact Ho].
Qed.

(** A DTLS 1.2 connection that enters its first epoch with a cipher
    (ECDHE-RSA-AES128-GCM-SHA256). *)
Definition dtls_cipher : SSL_CIPHER := nth 17 kCiphers sample_cipher.
Definition dtls_create (dir : evp_aead_direction_t) : SSLAEADContext Z :=
  default (CreateNullCipher true)
    (Create (HA := allocator_total) toy_table 256 dir DTLS1_2_VERSION true dtls_cipher (zrep 16 0x33) [] [1; 2; 3; 4]).
Definition dtls_writer0 : dtls_write_state Z :=
  {| d_write := {| aead_write_ctx := CreateNullCipher true; write_sequence := 5 |}; w_epoch := 0; last_write_sequence := 0;
     last_aead_write_ctx := CreateNullCipher true |}.
Definition dtls_writer : dtls_write_state Z := dtls1_set_write_state dtls_writer0 (dtls_create evp_aead_seal).
Definition dtls_reader0 : dtls_read_state Z :=
  {| d_read := {| read_shutdown := ssl_shutdown_none; aead_read_ctx := CreateNullCipher true; read_sequence := 0;
                  early_data_skipped := 0; empty_record_count := 0; warning_alert_count := 0; skip_early_data_flag := false |};
     r_epoch := 0; bitmap := {| bitmap_map := 3; max_seq_num := 1 |} |}.
Definition dtls_reader : dtls_read_state Z := default dtls_reader0 (dtls1_set_read_state dtls_reader0 false (dtls_create evp_aead_open)).
Definition dtls_jobs : list job :=
  [(4096, 64, SSL3_RT_APPLICATION_DATA, {| addr := 0; contents := [104; 105] |});
   (4096, 64, SSL3_RT_APPLICATION_DATA, {| addr := 0; contents := [] |});
   (4096, 64, SSL3_RT_HANDSHAKE, {| addr := 4117; contents := [1; 2; 3] |})].
Definition dtls_sealed : option (list (list Z)) * dtls_write_state Z := dtls_seal_all (HR := sample_random) dtls_writer dtls_jobs.

Lemma dtls_sample_epoch :
  exists n, writes_to (A := toy_table n) (tag := 16) (paired := eq) (dtls_create evp_aead_open) dtls_writer /\
    reading (dtls_create evp_aead_open) (w_epoch dtls_writer) [] dtls_reader.
Proof.
  destruct (epoch_in_sync (HA := allocator_total) toy_table 256 DTLS1_2_VERSION dtls_cipher (zrep 16 0x33) [] [1; 2; 3; 4]
    (dtls_create evp_aead_seal) (dtls_create evp_aead_open) dtls_writer0 dtls_reader0 dtls_reader) as [n Hn]; [..|exists n; exact Hn].
  - now left.
  - apply nth_In, Nat.ltb_lt; reflexivity.
  - vm_compute; congruence.
  - apply some_default; vm_compute; reflexivity.
  - apply some_default; vm_compute; reflexivity.
  - reflexivity.
  - reflexivity.
  - reflexivity.
Qed.

Lemma dtls_delivery_witness :
  fst (dtls_receive sample_ssl dtls_reader 0 (map (fun i => nth i (default [] (fst dtls_sealed)) []) [2; 0; 2; 1; 0]%nat)) =
    [(SSL3_RT_HANDSHAKE, [1; 2; 3]); (SSL3_RT_APPLICATION_DATA, [104; 105]); (SSL3_RT_APPLICATION_DATA, [])].
Proof.
  destruct dtls_sample_epoch as (n & Hw & Hr).
  destruct (dtls_delivery (HR := sample_random) (A := toy_table n) (tag := 16) (paired := eq) sample_ssl 0 (dtls_create evp_aead_open) dtls_writer
    dtls_jobs (default [] (fst dtls_sealed)) (snd dtls_sealed) dtls_reader [] [2; 0; 2; 1; 0]%nat) as [E _].
  - exact Hw.
  - repeat apply List.Forall_cons; try apply List.Forall_nil; (split; [cbn; discriminate|]; split; [cbn; each_literal|vm_compute; congruence]).
  - apply sealed_default; vm_compute; reflexivity.
  - exact Hr.
  - repeat apply List.Forall_cons; try apply List.Forall_nil; cbn; lia.
  - assert (accepted (next_number dtls_writer) [] [2; 0; 2; 1; 0]%nat = [2; 0; 1]%nat) as Ea by (vm_compute; reflexivity).
    rewrite Ea in E; exact E.
Defined.
