(* ===== verification/SslBuffer.v ===== *)
(** The read and write buffers of a connection (ssl/ssl_buffer.cc): a window into
    a block on the heap or, for short reads, into five bytes of the buffer
    itself. Bytes come in at the end of the window and are consumed from its
    front.

    The transport is a channel of the class [ByteStream]. An outer [None] is a
    call of abort() or the end of the fuel. *)

From S2P Require Import Prelude Mem Bio.

Definition SSL3_ALIGN_PAYLOAD : Z := 8.
Definition sizeof_inline_buf : Z := 5.

(** * The buffer *)

(** Where [buf_] points to; [buf_allocated_] says that it is the heap. *)
Inductive buf_ptr : Type := buf_null | buf_inline | buf_heap (block : list Z).

Record SSLBuffer : Type := {
  buf_ : buf_ptr;
  offset_ : Z;
  size_ : Z;
  cap_ : Z;
  inline_buf_ : list Z
}.

Definition block (b : SSLBuffer) : list Z :=
  match buf_ b with buf_null => [] | buf_inline => inline_buf_ b | buf_heap l => l end.

(** [span()] *)
Definition span (b : SSLBuffer) : list Z := ztake (size_ b) (zdrop (offset_ b) (block b)).

Definition buffer_empty (b : SSLBuffer) : bool := size_ b =? 0.

Definition Clear (b : SSLBuffer) : SSLBuffer :=
  {| buf_ := buf_null; offset_ := 0; size_ := 0; cap_ := 0; inline_buf_ := inline_buf_ b |}.

Section Buffer.
  Context {HA : Allocator}.

(** [new_buf] is the address of a new block. *)
Definition EnsureCap (new_buf header_len new_cap : Z) (b : SSLBuffer) : bool * SSLBuffer :=
  if 0xffff <? new_cap then (false, b)
  else if new_cap <=? cap_ b then (true, b)
  else if new_cap <=? sizeof_inline_buf then
    (true, {| buf_ := buf_inline; offset_ := 0; size_ := size_ b; cap_ := u16 new_cap; inline_buf_ := zsplice (inline_buf_ b) 0 (span b) |})
  else if negb (malloc_ok (new_cap + SSL3_ALIGN_PAYLOAD - 1)) then (false, b)
  else
    let new_offset := Z.land (u64 (0 - header_len - new_buf)) (SSL3_ALIGN_PAYLOAD - 1) in
    (true, {| buf_ := buf_heap (zsplice (fresh (new_cap + SSL3_ALIGN_PAYLOAD - 1)) new_offset (span b)); offset_ := u16 new_offset; size_ := size_ b;
              cap_ := u16 new_cap; inline_buf_ := inline_buf_ b |}).
End Buffer.

(** A store at [data() + size()]. *)
Definition store_after (b : SSLBuffer) (bs : list Z) : SSLBuffer :=
  let at_ := offset_ b + size_ b in
  match buf_ b with
  | buf_null => b
  | buf_inline => {| buf_ := buf_inline; offset_ := offset_ b; size_ := size_ b; cap_ := cap_ b; inline_buf_ := zsplice (inline_buf_ b) at_ bs |}
  | buf_heap l => {| buf_ := buf_heap (zsplice l at_ bs); offset_ := offset_ b; size_ := size_ b; cap_ := cap_ b; inline_buf_ := inline_buf_ b |}
  end.

Definition DidWrite (new_size : Z) (b : SSLBuffer) : option SSLBuffer :=
  if u64 (cap_ b - size_ b) <? new_size then None
  else Some {| buf_ := buf_ b; offset_ := offset_ b; size_ := u16 (size_ b + new_size); cap_ := cap_ b; inline_buf_ := inline_buf_ b |}.

Definition Consume (len : Z) (b : SSLBuffer) : option SSLBuffer :=
  if size_ b <? len then None
  else Some {| buf_ := buf_ b; offset_ := u16 (offset_ b + u16 len); size_ := u16 (size_ b - u16 len); cap_ := u16 (cap_ b - u16 len);
               inline_buf_ := inline_buf_ b |}.

Definition DiscardConsumed (b : SSLBuffer) : SSLBuffer := if size_ b =? 0 then Clear b else b.

(** * Reading and writing *)

Section Transport.
  Context {HA : Allocator} {C : Type} {CS : ByteStream C}.

(** The result, the channel and the buffer. *)
Definition dtls_read_buffer_next_packet (c : C) (b : SSLBuffer) : option (Z * C * SSLBuffer) :=
  if negb (buffer_empty b) then Some (-1, c, b)
  else
    let '(ret, bs, c) := stream_read c (cap_ b) in
    if ret <=? 0 then Some (ret, c, b)
    else b ← DidWrite ret (store_after b bs); Some (1, c, b).

Fixpoint extend_loop (fuel : nat) (len : Z) (c : C) (b : SSLBuffer) : option (Z * C * SSLBuffer) :=
  if size_ b <? len then
    match fuel with
    | O => None
    | S fuel =>
        let '(ret, bs, c) := stream_read c (len - size_ b) in
        if ret <=? 0 then Some (ret, c, b)
        else b ← DidWrite ret (store_after b bs); extend_loop fuel len c b
    end
  else Some (1, c, b).

Definition tls_read_buffer_extend_to (len : Z) (c : C) (b : SSLBuffer) : option (Z * C * SSLBuffer) :=
  if cap_ b <? len then Some (-1, c, b) else extend_loop (Z.to_nat (len - size_ b)) len c b.

(** [header_len] is [ssl_record_prefix_len]; [dtls_len] is the length of the
    largest record of DTLS with its header. *)
Definition dtls_len : Z := 13 + (256 + 64 + 16384).

Definition ssl_read_buffer_extend_to (dtls : bool) (new_buf header_len len : Z) (rbio : option C) (b : SSLBuffer) :
    option (Z * option C * SSLBuffer) :=
  let b := DiscardConsumed b in
  let len := if dtls then dtls_len else len in
  match EnsureCap new_buf header_len len b with
  | (false, b) => Some (-1, rbio, b)
  | (true, b) =>
      match rbio with
      | None => Some (-1, rbio, b)
      | Some c =>
          r ← (if dtls then dtls_read_buffer_next_packet c b else tls_read_buffer_extend_to len c b);
          let '(ret, c, b) := r in
          Some (ret, Some c, if ret <=? 0 then DiscardConsumed b else b)
      end
  end.

Fixpoint flush_loop (fuel : nat) (c : C) (b : SSLBuffer) : option (Z * C * SSLBuffer) :=
  if buffer_empty b then Some (1, c, Clear b)
  else
    match fuel with
    | O => None
    | S fuel =>
        let '(ret, c) := stream_write c (span b) in
        if ret <=? 0 then Some (ret, c, b) else b ← Consume ret b; flush_loop fuel c b
    end.

Definition tls_write_buffer_flush (c : C) (b : SSLBuffer) : option (Z * C * SSLBuffer) := flush_loop (Z.to_nat (size_ b)) c b.

Definition dtls_write_buffer_flush (c : C) (b : SSLBuffer) : option (Z * C * SSLBuffer) :=
  if buffer_empty b then Some (1, c, b)
  else let '(ret, c) := stream_write c (span b) in Some (if ret <=? 0 then ret else 1, c, Clear b).

Definition ssl_write_buffer_flush (dtls : bool) (wbio : option C) (b : SSLBuffer) : option (Z * option C * SSLBuffer) :=
  match wbio with
  | None => Some (-1, None, b)
  | Some c =>
      r ← (if dtls then dtls_write_buffer_flush c b else tls_write_buffer_flush c b);
      let '(ret, c, b) := r in Some (ret, Some c, b)
  end.
End Transport.

(** * What the buffer holds *)

Definition buffer_ok (b : SSLBuffer) : Prop :=
  0 <= offset_ b /\ 0 <= size_ b <= cap_ b /\ offset_ b + cap_ b <= zlen (block b) /\ offset_ b + cap_ b < 2 ^ 16 /\
  zlen (inline_buf_ b) = sizeof_inline_buf.

Lemma span_len b : buffer_ok b -> zlen (span b) = size_ b.
Proof. intros (Ho & Hs & Hb & _); unfold span; rewrite zlen_ztake; [reflexivity|rewrite zlen_zdrop; lia]. Qed.

Lemma clear_ok b : buffer_ok b -> buffer_ok (Clear b).
Proof. intros (_ & _ & _ & _ & Hi); unfold buffer_ok; cbn [Clear offset_ size_ cap_ block buf_ inline_buf_]; change (zlen []) with 0; repeat (split; [lia|]); exact Hi. Qed.

Lemma discard_spec b : buffer_ok b -> buffer_ok (DiscardConsumed b) /\ span (DiscardConsumed b) = span b.
Proof.
  intros Hb; unfold DiscardConsumed; destruct (Z.eqb_spec (size_ b) 0) as [E|]; [|auto]; split; [now apply clear_ok|].
  pose proof (span_len b Hb) as Hl; rewrite E in Hl; now rewrite (zlen_0_nil _ Hl).
Qed.

Section Spec.
  Context {HA : Allocator}.

Lemma ensure_cap_spec new_buf header_len new_cap b : buffer_ok b -> 0 <= new_cap < 2 ^ 16 - SSL3_ALIGN_PAYLOAD ->
  let '(ok, b') := EnsureCap new_buf header_len new_cap b in
  buffer_ok b' /\ span b' = span b /\ (ok = true -> new_cap <= cap_ b') /\ (AllocUpTo (2 ^ 16) -> ok = true).
Proof.
  intros Hb Hn; pose proof (span_len b Hb) as Hl; pose proof Hb as (Ho & Hs & Hblk & Hc & Hi); unfold EnsureCap, SSL3_ALIGN_PAYLOAD, sizeof_inline_buf in *.
  rewrite (proj2 (Z.ltb_ge 0xffff new_cap)) by lia; destruct (Z.leb_spec new_cap (cap_ b)); [auto|]; rewrite (uw_small 16 new_cap) by lia.
  destruct (Z.leb_spec new_cap 5).
  - unfold buffer_ok; cbn [block buf_ offset_ size_ cap_ inline_buf_]; rewrite zlen_zsplice, Hi by (rewrite ?Hl; lia); unfold sizeof_inline_buf.
    repeat (split; [lia|]); split; [|split; [intros _; lia|auto]].
    unfold span at 1; cbn [block buf_ offset_ size_ inline_buf_]; rewrite zsplice_0, zdrop_0, ztake_app_eq by (rewrite ?Hl; lia); reflexivity.
  - destruct (malloc_ok _) eqn:Em; cbn [negb]; [|split; [exact Hb|]; split; [reflexivity|]; split; [discriminate|]; intros Ha; rewrite Ha in Em by lia; discriminate].
    set (o := Z.land _ _); assert (0 <= o < 8) as Ho8 by (unfold o; change (8 - 1) with (Z.ones 3); rewrite Z.land_ones by lia; apply Z.mod_pos_bound; lia).
    rewrite (uw_small 16 o) by lia; set (blk := zsplice _ o (span b)).
    assert (zlen blk = new_cap + 8 - 1) as Lb by (unfold blk; rewrite zlen_zsplice, zlen_fresh by (rewrite ?zlen_fresh, ?Hl; lia); reflexivity).
    unfold buffer_ok, sizeof_inline_buf; cbn [block buf_ offset_ size_ cap_ inline_buf_]; rewrite Lb; repeat (split; [lia|]); split; [|split; [intros _; lia|auto]].
    unfold span at 1; cbn [block buf_ offset_ size_]; unfold blk, zsplice; rewrite zdrop_app_eq by (rewrite zlen_ztake; rewrite ?zlen_fresh; lia).
    now rewrite ztake_app_eq by lia.
Qed.
End Spec.

Lemma did_write_spec b bs : buffer_ok b -> 0 < zlen bs <= cap_ b - size_ b ->
  exists b', DidWrite (zlen bs) (store_after b bs) = Some b' /\ buffer_ok b' /\ span b' = span b ++ bs /\ cap_ b' = cap_ b.
Proof.
  intros Hb Hbs; pose proof Hb as (Ho & Hs & Hblk & Hc & Hi); set (blk := zsplice (block b) (offset_ b + size_ b) bs).
  assert (offset_ (store_after b bs) = offset_ b /\ size_ (store_after b bs) = size_ b /\ cap_ (store_after b bs) = cap_ b /\
    block (store_after b bs) = blk /\ zlen (inline_buf_ (store_after b bs)) = sizeof_inline_buf) as (E1 & E2 & E3 & E4 & E5).
  { unfold blk, store_after, block in *; destruct (buf_ b); cbn in *; repeat (split; [reflexivity|]); auto; [rewrite zlen_nil in Hblk; lia|].
    rewrite zlen_zsplice by lia; exact Hi. }
  unfold DidWrite; rewrite E2, E3, uw_small, (proj2 (Z.ltb_ge _ _)) by lia; eexists; split; [reflexivity|].
  rewrite (uw_small 16) by lia; unfold buffer_ok, span; set (b' := store_after b bs) in *.
  change (block {| buf_ := buf_ b'; offset_ := _; size_ := _; cap_ := _; inline_buf_ := inline_buf_ b' |}) with (block b'); cbn [offset_ size_ cap_ inline_buf_].
  assert (zlen blk = zlen (block b)) as Lb by (apply zlen_zsplice; lia).
  rewrite E1, E4, E5, Lb; repeat (split; [try lia; reflexivity|]); split; [|reflexivity].
  unfold blk, zsplice; rewrite zdrop_app_le by (rewrite zlen_ztake; lia).
  assert (zdrop (offset_ b) (ztake (offset_ b + size_ b) (block b)) = ztake (size_ b) (zdrop (offset_ b) (block b))) as -> by (apply zdrop_ztake; lia).
  pose proof (span_len b Hb) as Hl; fold (span b); rewrite app_assoc; apply ztake_app_eq; rewrite zlen_app; lia.
Qed.

Lemma consume_spec b len : buffer_ok b -> 0 <= len <= size_ b ->
  exists b', Consume len b = Some b' /\ buffer_ok b' /\ span b' = zdrop len (span b) /\ size_ b' = size_ b - len.
Proof.
  intros Hb Hlen; pose proof Hb as (Ho & Hs & Hblk & Hc & Hi); unfold Consume; rewrite (proj2 (Z.ltb_ge _ _)) by lia.
  rewrite !(uw_small 16) by (rewrite ?uw_small by lia; lia); eexists; split; [reflexivity|]; unfold buffer_ok, span.
  change (block {| buf_ := buf_ b; offset_ := _; size_ := _; cap_ := _; inline_buf_ := inline_buf_ b |}) with (block b); cbn [offset_ size_ cap_ inline_buf_].
  repeat (split; [first [lia|exact Hi]|]); split; [|reflexivity]; rewrite <- zdrop_zdrop by lia.
  replace (size_ b) with (len + (size_ b - len)) at 2 by lia; symmetry; apply zdrop_ztake; lia.
Qed.

(** * Reading *)

Section Channel.
  Context {HA : Allocator} {C : Type} {CS : ByteStream C}.

(** What a read may do: the bytes it takes from the channel are appended, and no
    more than [len] bytes are asked for. *)
Definition extended (len : Z) (c : C) (b : SSLBuffer) (r : option (Z * C * SSLBuffer)) : Prop :=
  exists ret c' b' got, r = Some (ret, c', b') /\ buffer_ok b' /\ stream_ok c' /\ contents c = got ++ contents c' /\ span b' = span b ++ got /\
    ret <= 1 /\ size_ b' <= Z.max len (size_ b) /\ (ret = 1 -> len <= size_ b') /\ cap_ b' = cap_ b.

Lemma extend_loop_spec fuel len : forall c b, buffer_ok b -> stream_ok c -> len <= cap_ b -> len - size_ b <= Z.of_nat fuel ->
  extended len c b (extend_loop fuel len c b).
Proof.
  induction fuel as [|fuel IH]; intros c b Hb Hc Hcap Hf; cbn [extend_loop]; destruct (Z.ltb_spec (size_ b) len) as [Hlt|Hge]; try lia.
  1, 3: exists 1, c, b, []; rewrite app_nil_r; repeat (split; [first [assumption|reflexivity|lia]|]); reflexivity.
  pose proof Hb as (Ho & Hs & _ & H16 & _); assert (0 < len - size_ b <= INT_MAX) as Hreq by (unfold INT_MAX; lia).
  pose proof (stream_read_spec c (len - size_ b) Hc Hreq) as Hr; destruct (stream_read c (len - size_ b)) as [[ret bs] c1].
  destruct Hr as (Hc1 & Hn & Hpos & Hneg & Econt); destruct (Z.leb_spec ret 0) as [Hle|Hgt].
  { rewrite (Hneg Hle) in Econt; exists ret, c1, b, []; rewrite app_nil_r; repeat (split; [first [assumption|reflexivity|lia]|]); reflexivity. }
  specialize (Hpos Hgt); rewrite <- Hpos in *; destruct (did_write_spec b bs Hb ltac:(lia)) as (b1 & -> & Hb1 & Es & Ec); cbn [mbind option_bind].
  assert (size_ b1 = size_ b + zlen bs) as E1 by (rewrite <- (span_len b1 Hb1), <- (span_len b Hb), Es; apply zlen_app).
  destruct (IH c1 b1 Hb1 Hc1 ltac:(lia) ltac:(lia)) as (r & c2 & b2 & got & -> & G1 & G2 & G3 & G4 & G5 & G6 & G7 & G8).
  exists r, c2, b2, (bs ++ got); split; [reflexivity|]; rewrite Econt, G3, G4, Es, !app_assoc; repeat (split; [first [assumption|reflexivity|lia]|]); lia.
Qed.

(** A call of [ssl_read_buffer_extend_to] on a TLS connection. *)
Lemma extend_to_spec new_buf header_len len c b : buffer_ok b -> stream_ok c -> 0 <= len < 2 ^ 16 - SSL3_ALIGN_PAYLOAD ->
  exists ret c' b' got, ssl_read_buffer_extend_to false new_buf header_len len (Some c) b = Some (ret, Some c', b') /\
    buffer_ok b' /\ stream_ok c' /\ contents c = got ++ contents c' /\ span b' = span b ++ got /\
    ret <= 1 /\ zlen (span b') <= Z.max len (zlen (span b)) /\ (ret = 1 -> len <= zlen (span b')).
Proof.
  intros Hb Hc Hlen; unfold ssl_read_buffer_extend_to; destruct (discard_spec b Hb) as [Hd Ed].
  pose proof (ensure_cap_spec new_buf header_len len (DiscardConsumed b) Hd Hlen) as He; destruct (EnsureCap _ _ _ _) as [ok b1].
  destruct He as (Hb1 & E1 & Hcap & _); rewrite Ed in E1; destruct ok.
  2: { exists (-1), c, b1, []; rewrite app_nil_r, E1; repeat (split; [first [assumption|reflexivity|lia]|]); lia. }
  specialize (Hcap eq_refl); unfold tls_read_buffer_extend_to; rewrite (proj2 (Z.ltb_ge _ _)) by lia.
  destruct (extend_loop_spec (Z.to_nat (len - size_ b1)) len c b1 Hb1 Hc Hcap ltac:(lia)) as (ret & c' & b' & got & -> & G1 & G2 & G3 & G4 & G5 & G6 & G7 & _).
  cbn [mbind option_bind]; destruct (discard_spec b' G1) as [Hd' Ed'].
  exists ret, c', (if ret <=? 0 then DiscardConsumed b' else b'), got; split; [reflexivity|].
  assert (buffer_ok (if ret <=? 0 then DiscardConsumed b' else b') /\ span (if ret <=? 0 then DiscardConsumed b' else b') = span b') as [K1 K2] by (case_if; auto).
  rewrite K2, G4, E1; split; [exact K1|]; split; [exact G2|]; split; [exact G3|]; split; [reflexivity|]; split; [exact G5|].
  pose proof (span_len b' G1) as L1; pose proof (span_len b1 Hb1) as L2; rewrite E1 in L2; rewrite <- E1, <- G4, L1, E1, L2; split; [lia|exact G7].
Qed.

(** * Writing *)

Lemma flush_loop_spec fuel : forall c b, buffer_ok b -> stream_ok c -> size_ b <= Z.of_nat fuel ->
  exists ret c' b' put, flush_loop fuel c b = Some (ret, c', b') /\ buffer_ok b' /\ stream_ok c' /\ contents c' = contents c ++ put /\
    span b = put ++ span b' /\ ret <= 1 /\ (ret = 1 -> span b' = []).
Proof.
  induction fuel as [|fuel IH]; intros c b Hb Hc Hf; cbn [flush_loop]; unfold buffer_empty; pose proof Hb as (Ho & Hs & _ & H16 & _);
    pose proof (span_len b Hb) as Hl; destruct (Z.eqb_spec (size_ b) 0) as [E|E]; try lia.
  1, 2: exists 1, c, (Clear b), []; rewrite app_nil_r; split; [reflexivity|]; rewrite E in Hl; rewrite (zlen_0_nil _ Hl);
    repeat (split; [first [assumption|reflexivity|lia|now apply clear_ok]|]); reflexivity.
  pose proof (stream_write_spec c (span b) Hc ltac:(unfold INT_MAX; lia)) as Hw; destruct (stream_write c (span b)) as [ret c1].
  destruct Hw as (Hc1 & Hn & Econt); destruct (Z.leb_spec ret 0) as [Hle|Hgt].
  { exists ret, c1, b, []; rewrite app_nil_r; assert (ztake ret (span b) = []) as Ez by (unfold ztake; now rewrite Z2Nat.nonpos by lia).
    rewrite Ez, app_nil_r in Econt; repeat (split; [first [assumption|reflexivity|lia]|]); lia. }
  destruct (consume_spec b ret Hb ltac:(lia)) as (b1 & -> & Hb1 & Es & E1); cbn [mbind option_bind].
  destruct (IH c1 b1 Hb1 Hc1 ltac:(lia)) as (r & c2 & b2 & put & -> & G1 & G2 & G3 & G4 & G5 & G6).
  exists r, c2, b2, (ztake ret (span b) ++ put); split; [reflexivity|]; rewrite G3, Econt, <- !app_assoc, <- G4, Es, ztake_zdrop.
  repeat (split; [first [assumption|reflexivity|lia]|]); exact G6.
Qed.

(** A flush that fails leaves bytes in the buffer. *)
Lemma flush_loop_waits fuel : forall c b ret c' b', flush_loop fuel c b = Some (ret, c', b') -> ret <= 0 -> buffer_empty b' = false.
Proof.
  induction fuel as [|fuel IH]; intros c b ret c' b'; cbn [flush_loop]; destruct (buffer_empty b) eqn:Eb; try discriminate; try (intros [= <- _ _]; lia).
  destruct (stream_write c (span b)) as [n c1]; destruct (n <=? 0); [now intros [= <- _ <-]|].
  destruct (Consume n b) as [b1|]; [exact (IH c1 b1 ret c' b')|discriminate].
Qed.

(** A prompt channel that has the bytes gives them all. *)
Lemma extend_loop_prompt {CP : PromptStream C} fuel len : forall c b, buffer_ok b -> stream_ok c -> len <= cap_ b -> len - size_ b <= Z.of_nat fuel ->
  len - size_ b <= zlen (contents c) -> exists c' b', extend_loop fuel len c b = Some (1, c', b').
Proof.
  induction fuel as [|fuel IH]; intros c b Hb Hc Hcap Hf Hav; cbn [extend_loop]; destruct (Z.ltb_spec (size_ b) len) as [Hlt|Hge]; try lia; eauto.
  pose proof Hb as (Ho & Hs & _ & H16 & _); assert (0 < len - size_ b <= INT_MAX) as Hreq by (unfold INT_MAX; lia).
  assert (contents c <> []) as Hne by (intros E; rewrite E in Hav; change (zlen (@nil Z)) with 0 in Hav; lia).
  pose proof (read_prompt c _ Hc Hreq Hne) as Hp; pose proof (stream_read_spec c (len - size_ b) Hc Hreq) as Hr; destruct (stream_read c (len - size_ b)) as [[ret bs] c1].
  cbn [fst] in Hp; destruct Hr as (Hc1 & Hn & Hpos & _ & Econt); specialize (Hpos Hp); subst ret; rewrite (proj2 (Z.leb_gt _ _)) by lia.
  destruct (did_write_spec b bs Hb ltac:(lia)) as (b1 & -> & Hb1 & Es & Ec); cbn [mbind option_bind].
  assert (size_ b1 = size_ b + zlen bs) as E1 by (rewrite <- (span_len b1 Hb1), <- (span_len b Hb), Es; apply zlen_app).
  rewrite Econt, zlen_app in Hav; apply IH; auto; lia.
Qed.

(** The call of [ssl_read_buffer_extend_to] that finds what it asks for takes
    those bytes and no more. *)
Lemma extend_to_prompt {CP : PromptStream C} new_buf header_len len c b more rest : AllocUpTo (2 ^ 16) -> buffer_ok b -> stream_ok c ->
  0 <= len < 2 ^ 16 - SSL3_ALIGN_PAYLOAD -> contents c = more ++ rest -> zlen (span b ++ more) = len ->
  exists c' b', ssl_read_buffer_extend_to false new_buf header_len len (Some c) b = Some (1, Some c', b') /\
    buffer_ok b' /\ stream_ok c' /\ contents c' = rest /\ span b' = span b ++ more.
Proof.
  intros Hmem Hb Hc Hlen Econt Hl; rewrite zlen_app in Hl; pose proof (zlen_nonneg more); pose proof (zlen_nonneg rest).
  destruct (extend_to_spec new_buf header_len len c b Hb Hc Hlen) as (ret & c' & b' & got & E & G1 & G2 & G3 & G4 & G5 & G6 & G7).
  assert (ret = 1) as ->.
  { revert E; unfold ssl_read_buffer_extend_to; destruct (discard_spec b Hb) as [Hd Ed].
    pose proof (ensure_cap_spec new_buf header_len len (DiscardConsumed b) Hd Hlen) as He; destruct (EnsureCap _ _ _ _) as [ok b1].
    destruct He as (Hb1 & E1 & Hcap & Hok); specialize (Hok Hmem); subst ok; specialize (Hcap eq_refl).
    pose proof (span_len b1 Hb1) as L1; rewrite E1, Ed in L1; unfold tls_read_buffer_extend_to; rewrite (proj2 (Z.ltb_ge _ _)) by lia.
    destruct (extend_loop_prompt (Z.to_nat (len - size_ b1)) len c b1 Hb1 Hc Hcap ltac:(lia)) as (c2 & b2 & ->); [rewrite Econt, zlen_app; lia|].
    cbn [mbind option_bind]; intros [= <- _ _]; reflexivity. }
  specialize (G7 eq_refl); rewrite G4, zlen_app in G6, G7; rewrite Econt in G3.
  apply app_inj_1 in G3 as [-> ->]; [|unfold zlen in *; lia]; exists c', b'; auto 6.
Qed.
End Channel.
