(* ===== verification/TlsFlight.v ===== *)
(** Handshake messages over TLS records (ssl/s3_both.cc), the sending side and the
    records that are received: messages are packed into records, the records are
    collected into a flight and the flight is written to the transport; a record
    that arrives is opened and its body joins the buffer of TlsMessage.v, after
    a check for an SSL 2 ClientHello at the start of a connection.

    The connection has no QUIC method. [transcript] is whether the transcript, if
    there is one, takes the data. [place] gives the address of the block of a
    buffer, [tmp_prefix] that of an array on the stack, which the aliasing checks
    of the record layer compare. *)

From S2P Require Import Prelude Mem Bio Cbs Cbb BufMem Words Md32 Sha256 Sha512 Sha1 Md5 Digest Aead.
From S2P Require Import SslVersions SslCipher SslAead TlsMessage TlsRecord SslBuffer.

Definition SSL3_MT_CCS : Z := 1.
Definition SSL3_MT_CLIENT_HELLO : Z := 1.
Definition SSL2_MT_CLIENT_HELLO : Z := 1.
Definition SSL3_RANDOM_SIZE : Z := 32.
Definition SSL3_HM_HEADER_LENGTH : Z := 4.
Definition SSL_R_HTTPS_PROXY_REQUEST : Z := 155.
Definition SSL_R_HTTP_REQUEST : Z := 156.
Definition SSL_R_RECORD_LENGTH_MISMATCH : Z := 199.
Definition SSL_R_RECORD_TOO_LARGE : Z := 200.
Definition SSL_R_APPLICATION_DATA_INSTEAD_OF_HANDSHAKE : Z := 281.

(** * The outgoing flight *)

(** The fields of [SSL3_STATE] that the sending side changes. *)
Record tls_out (S : Type) : Type := {
  o_write : write_state S;
  pending_hs_data : option BUF_MEM;
  pending_flight : option BUF_MEM;
  pending_flight_offset : Z
}.
Arguments o_write {S}. Arguments pending_hs_data {S}. Arguments pending_flight {S}. Arguments pending_flight_offset {S}.

Definition tls_init_message {HA : Allocator} (type : Z) : option CBB :=
  cbb ← CBB_init 64;
  match (CBB_add_u8 0 type ;;; CBB_add_u24_length_prefixed 0) cbb with
  | (None, _) => None
  | (Some _, cbb) => Some cbb
  end.

Definition tls_finish_message {HA : Allocator} (cbb : CBB) : option (list Z) := fst (CBB_finish cbb).

Section Out.
  Context {HA : Allocator} {HR : RandomSource} {S : Type}.
  (** sizeof(BUF_MEM), and the addresses of blocks and of a temporary. *)
  Variable sizeof_buf : Z.
  Variable place : BUF_MEM -> Z.
  Variable tmp_prefix : Z.
  Variable ssl : connection.
  Implicit Types w : tls_out S.

Definition with_o_write w (x : write_state S) : tls_out S :=
  {| o_write := x; pending_hs_data := pending_hs_data w; pending_flight := pending_flight w; pending_flight_offset := pending_flight_offset w |}.
Definition with_hs_data w (x : option BUF_MEM) : tls_out S :=
  {| o_write := o_write w; pending_hs_data := x; pending_flight := pending_flight w; pending_flight_offset := pending_flight_offset w |}.
Definition with_flight_buf w (x : option BUF_MEM) (offset : Z) : tls_out S :=
  {| o_write := o_write w; pending_hs_data := pending_hs_data w; pending_flight := x; pending_flight_offset := offset |}.

(** [BUF_MEM_new] *)
Definition new_buffer : option BUF_MEM := if malloc_ok sizeof_buf then Some BUF_MEM_new else None.

Definition add_record_to_flight (type : Z) (in_ : buffer) w : bool * tls_out S :=
  let size := zlen (Aead.contents in_) in
  let w := match pending_flight w with None => with_flight_buf w new_buffer (pending_flight_offset w) | Some _ => w end in
  match pending_flight w with
  | None => (false, w)
  | Some flight =>
      let max_out := u64 (size + SSL_max_seal_overhead ssl (o_write w)) in
      let new_cap := u64 (bm_length flight + max_out) in
      if (max_out <? size) || (new_cap <? max_out) then (false, w)
      else
        let '(ok, flight) := BUF_MEM_reserve flight new_cap in
        let w := with_flight_buf w (Some flight) (pending_flight_offset w) in
        if negb ok then (false, w)
        else
          let out := {| addr := place flight + bm_length flight; Aead.contents := ztake max_out (zdrop (bm_length flight) (bm_data flight)) |} in
          match tls_seal_record ssl (o_write w) tmp_prefix type out in_ with
          | (None, wr) => (false, with_o_write w wr)
          | (Some bs, wr) =>
              let flight := {| bm_length := u64 (bm_length flight + zlen bs); bm_data := zsplice (bm_data flight) (bm_length flight) bs; bm_max := bm_max flight |} in
              (true, with_flight_buf (with_o_write w wr) (Some flight) (pending_flight_offset w))
          end
  end.

Definition tls_flush_pending_hs_data w : bool * tls_out S :=
  match pending_hs_data w with
  | None => (true, w)
  | Some b =>
      if bm_length b =? 0 then (true, w)
      else add_record_to_flight SSL3_RT_HANDSHAKE {| addr := place b; Aead.contents := ztake (bm_length b) (bm_data b) |} (with_hs_data w None)
  end.

(** The loops of [tls_add_message] over what is left of a message at the address
    [p]; [None] is the end of the fuel. *)
Fixpoint add_records (fuel : nat) (max_send_fragment p : Z) (rest : list Z) w : option (bool * tls_out S) :=
  match rest, fuel with
  | [], _ => Some (true, w)
  | _, O => None
  | _, Datatypes.S fuel =>
      let chunk := ztake max_send_fragment rest in
      match add_record_to_flight SSL3_RT_HANDSHAKE {| addr := p; Aead.contents := chunk |} w with
      | (false, w) => Some (false, w)
      | (true, w) => add_records fuel max_send_fragment (p + zlen chunk) (zdrop (zlen chunk) rest) w
      end
  end.

Fixpoint add_pending (fuel : nat) (max_send_fragment : Z) (rest : list Z) w : option (bool * tls_out S) :=
  match rest, fuel with
  | [], _ => Some (true, w)
  | _, O => None
  | _, Datatypes.S fuel =>
      let '(ok, w) :=
        match pending_hs_data w with
        | Some b => if max_send_fragment <=? bm_length b then tls_flush_pending_hs_data w else (true, w)
        | None => (true, w)
        end in
      if negb ok then Some (false, w)
      else
        let pending_len := match pending_hs_data w with Some b => bm_length b | None => 0 end in
        let chunk := ztake (max_send_fragment - pending_len) rest in
        let w := match pending_hs_data w with None => with_hs_data w new_buffer | Some _ => w end in
        match pending_hs_data w with
        | None => Some (false, w)
        | Some b =>
            let '(ok, b) := BUF_MEM_append b chunk in
            let w := with_hs_data w (Some b) in
            if negb ok then Some (false, w) else add_pending fuel max_send_fragment (zdrop (zlen chunk) rest) w
        end
  end.

(** [max_send_fragment] is a field of the connection; the message is at the
    address [p]. *)
Definition tls_add_message (max_send_fragment : Z) (transcript : bool) (p : Z) (msg : list Z) w : option (bool * tls_out S) :=
  r ← (if is_null_cipher (aead_write_ctx (o_write w)) then add_records (length msg) max_send_fragment p msg w
       else add_pending (length msg) max_send_fragment msg w);
  match r with
  | (false, w) => Some (false, w)
  | (true, w) => Some (transcript, w)
  end.

(** The constant is at the address [p]. *)
Definition tls_add_change_cipher_spec (p : Z) w : bool * tls_out S :=
  let '(ok, w) := tls_flush_pending_hs_data w in
  if negb ok then (false, w) else add_record_to_flight SSL3_RT_CHANGE_CIPHER_SPEC {| addr := p; Aead.contents := [SSL3_MT_CCS] |} w.

(** * Writing the flight *)

Context {C : Type} {CS : ByteStream C}.

(** The loop over the bytes of the flight; every successful write takes a byte or
    more. *)
Fixpoint write_flight (fuel : nat) (c : C) (flight : BUF_MEM) w : option (Z * C * tls_out S) :=
  if pending_flight_offset w <? bm_length flight then
    match fuel with
    | O => None
    | Datatypes.S fuel =>
        let '(ret, c) := stream_write c (zdrop (pending_flight_offset w) (bm_contents flight)) in
        if ret <=? 0 then Some (ret, c, w)
        else write_flight fuel c flight (with_flight_buf w (pending_flight w) (u32 (pending_flight_offset w + ret)))
    end
  else Some (1, c, w).

(** [flush] is the result of BIO_flush. *)
Definition tls_flush_flight (write_shutdown : ssl_shutdown_t) (flush : Z) (wbio : option C) (write_buffer : SSLBuffer) w :
    option (Z * option C * SSLBuffer * tls_out S) :=
  let '(ok, w) := tls_flush_pending_hs_data w in
  if negb ok then Some (-1, wbio, write_buffer, w)
  else
    match pending_flight w, write_shutdown with
    | None, _ => Some (1, wbio, write_buffer, w)
    | Some flight, ssl_shutdown_none =>
        if INT_MAX <? bm_length flight then Some (-1, wbio, write_buffer, w)
        else
          r ← (if negb (buffer_empty write_buffer) then ssl_write_buffer_flush false wbio write_buffer else Some (1, wbio, write_buffer));
          let '(ret, wbio, write_buffer) := r in
          if ret <=? 0 then Some (ret, wbio, write_buffer, w)
          else
            match wbio with
            | None => Some (-1, wbio, write_buffer, w)
            | Some c =>
                r ← write_flight (Z.to_nat (bm_length flight - pending_flight_offset w)) c flight w;
                let '(ret, c, w) := r in
                if ret <=? 0 then Some (ret, Some c, write_buffer, w)
                else if flush <=? 0 then Some (-1, Some c, write_buffer, w)
                else Some (1, Some c, write_buffer, with_flight_buf w None 0)
            end
    | Some _, _ => Some (-1, wbio, write_buffer, w)
    end.
End Out.

(** * Received records *)

Section In.
  Context {HA : Allocator}.
  Variable sizeof_buf : Z.

(** A [V2ClientHello] that has been parsed. *)
Definition v2_client_hello_fields : ST CBS (Z * CBS * CBS * CBS) :=
  let! msg_type := CBS_get_u8 in
  let! version := CBS_get_u16 in
  let! cipher_spec_length := CBS_get_u16 in
  let! session_id_length := CBS_get_u16 in
  let! challenge_length := CBS_get_u16 in
  let! cipher_specs := CBS_get_bytes cipher_spec_length in
  let! session_id := CBS_get_bytes session_id_length in
  let! challenge := CBS_get_bytes challenge_length in
  st_ret (version, cipher_specs, session_id, challenge).

(** The challenge, cut or padded with zeros on the left. *)
Definition v2_random (challenge : CBS) : list Z :=
  let rand_len := if SSL3_RANDOM_SIZE <? CBS_len challenge then SSL3_RANDOM_SIZE else CBS_len challenge in
  zsplice (zrep SSL3_RANDOM_SIZE 0) (SSL3_RANDOM_SIZE - rand_len) (ztake rand_len challenge).

(** The loop over the cipher suites; a failure has its error. *)
Fixpoint copy_suites (fuel : nat) (cipher_specs : CBS) (cipher_suites : nat) (cbb : CBB) : option (option Z * CBB) :=
  if 0 <? CBS_len cipher_specs then
    match fuel with
    | O => None
    | S fuel =>
        match CBS_get_u24 cipher_specs with
        | (None, _) => Some (Some SSL_R_DECODE_ERROR, cbb)
        | (Some cipher_spec, cipher_specs) =>
            if negb (Z.land cipher_spec 0xff0000 =? 0) then copy_suites fuel cipher_specs cipher_suites cbb
            else
              match CBB_add_u16 cipher_suites cipher_spec cbb with
              | (None, cbb) => Some (Some ERR_R_INTERNAL_ERROR, cbb)
              | (Some _, cbb) => copy_suites fuel cipher_specs cipher_suites cbb
              end
        end
    end
  else Some (None, cbb).

(** The builder calls before the suites; the results are the depths of the body and
    of the list of suites. *)
Definition hello_start (version : Z) (random : list Z) : ST CBB (nat * nat) :=
  CBB_add_u8 0 SSL3_MT_CLIENT_HELLO ;;;
  let! hello_body := CBB_add_u24_length_prefixed 0 in
  CBB_add_u16 hello_body version ;;; CBB_add_bytes hello_body random ;;; CBB_add_u8 hello_body 0 ;;;
  let! cipher_suites := CBB_add_u16_length_prefixed hello_body in
  st_ret (hello_body, cipher_suites).

(** Errors of [read_v2_client_hello] have no alert; [reason] is 0 where the call
    that fails has reported the error. *)
Definition v2_error (why : Z) : ssl_open_record_t := ssl_open_record_error {| reason := why; out_alert := 0 |} 0.

(** The buffer with what a builder has written into it. *)
Definition written_by (b : BUF_MEM) (cbb : CBB) : BUF_MEM :=
  {| bm_length := bm_length b; bm_data := buf (cbb_base cbb); bm_max := bm_max b |}.

Definition read_v2_client_hello (transcript : bool) (m : messages) (in_ : list Z) : option (ssl_open_record_t * messages) :=
  let msg_length := Z.lor (Z.shiftl (Z.land (znth in_ 0) 0x7f) 8) (znth in_ 1) in
  if 1024 * 4 <? msg_length then Some (v2_error SSL_R_RECORD_TOO_LARGE, m)
  else if msg_length <? SSL3_RT_HEADER_LENGTH - 2 then Some (v2_error SSL_R_RECORD_LENGTH_MISMATCH, m)
  else if zlen in_ <? 2 + msg_length then Some (ssl_open_record_partial (2 + msg_length), m)
  else if negb transcript then Some (v2_error 0, m)
  else
    match v2_client_hello_fields (ztake msg_length (zdrop 2 in_)) with
    | (None, _) => Some (v2_error SSL_R_DECODE_ERROR, m)
    | (Some (version, cipher_specs, session_id, challenge), rest) =>
        if negb (CBS_len rest =? 0) then Some (v2_error SSL_R_DECODE_ERROR, m)
        else
          let random := v2_random challenge in
          let max_v3_client_hello := SSL3_HM_HEADER_LENGTH + 2 + SSL3_RANDOM_SIZE + 1 + 2 + CBS_len cipher_specs / 3 * 2 + 1 + 1 in
          let m := match hs_buf m with
                   | None => with_hs_buf m (if malloc_ok sizeof_buf then Some BUF_MEM_new else None)
                   | Some _ => m
                   end in
          match hs_buf m with
          | None => Some (v2_error 0, m)
          | Some b =>
              let '(ok, b) := BUF_MEM_reserve b max_v3_client_hello in
              if negb ok then Some (v2_error 0, with_hs_buf m (Some b))
              else
                match hello_start version random (CBB_init_fixed (bm_data b) (bm_max b)) with
                | (None, cbb) => Some (v2_error 0, with_hs_buf m (Some (written_by b cbb)))
                | (Some (hello_body, cipher_suites), cbb) =>
                    r ← copy_suites (length cipher_specs) cipher_specs cipher_suites cbb;
                    match r with
                    | (Some e, cbb) => Some (v2_error e, with_hs_buf m (Some (written_by b cbb)))
                    | (None, cbb) =>
                        match (CBB_add_u8 hello_body 1 ;;; CBB_add_u8 hello_body 0 ;;; CBB_flush 0) cbb with
                        | (None, cbb) => Some (v2_error ERR_R_INTERNAL_ERROR, with_hs_buf m (Some (written_by b cbb)))
                        | (Some _, cbb) =>
                            let b := {| bm_length := len (cbb_base cbb); bm_data := buf (cbb_base cbb); bm_max := bm_max b |} in
                            Some (ssl_open_record_success 0 [] (2 + msg_length), {| hs_buf := Some b; has_message := has_message m; is_v2_hello := true |})
                        end
                    end
                end
          end
    end.

(** The starts of requests of HTTP. *)
Definition http_request (in_ : list Z) : bool :=
  bool_decide (ztake 4 in_ = [71; 69; 84; 32]) || bool_decide (ztake 5 in_ = [80; 79; 83; 84; 32]) ||
  bool_decide (ztake 5 in_ = [72; 69; 65; 68; 32]) || bool_decide (ztake 4 in_ = [80; 85; 84; 32]).
Definition proxy_request (in_ : list Z) : bool := bool_decide (ztake 5 in_ = [67; 79; 78; 78; 69]).

Context {S : Type}.
Implicit Types rd : read_state S.

(** The part of [tls_open_handshake] behind the record layer. *)
Definition open_handshake_record (ssl : connection) (m : messages) rd (p : Z) (in_ : list Z) :
    ssl_open_record_t * messages * read_state S :=
  let '(ret, rd) := tls_open_record ssl m rd p in_ in
  match ret with
  | ssl_open_record_success type body consumed =>
      if negb (server ssl) && (type =? SSL3_RT_APPLICATION_DATA) && is_null_cipher (aead_read_ctx rd)
      then (open_error SSL_AD_UNEXPECTED_MESSAGE SSL_R_APPLICATION_DATA_INSTEAD_OF_HANDSHAKE consumed, m, rd)
      else if negb (type =? SSL3_RT_HANDSHAKE) then (open_error SSL_AD_UNEXPECTED_MESSAGE SSL_R_UNEXPECTED_RECORD consumed, m, rd)
      else
        match tls_append_handshake_data sizeof_buf m body with
        | (false, m) => (open_error SSL_AD_INTERNAL_ERROR 0 consumed, m, rd)
        | (true, m) => (ret, m, rd)
        end
  | _ => (ret, m, rd)
  end.

(** The result, [v2_hello_done], the messages and the state of the record layer;
    [in_] is at the address [p]. *)
Definition tls_open_handshake (transcript : bool) (ssl : connection) (v2_hello_done : bool) (m : messages) rd (p : Z) (in_ : list Z) :
    option (ssl_open_record_t * bool * messages * read_state S) :=
  if server ssl && negb v2_hello_done then
    if zlen in_ <? SSL3_RT_HEADER_LENGTH then Some (ssl_open_record_partial SSL3_RT_HEADER_LENGTH, false, m, rd)
    else if http_request in_ then Some (open_error 0 SSL_R_HTTP_REQUEST 0, false, m, rd)
    else if proxy_request in_ then Some (open_error 0 SSL_R_HTTPS_PROXY_REQUEST 0, false, m, rd)
    else if negb (Z.land (znth in_ 0) 0x80 =? 0) && (znth in_ 2 =? SSL2_MT_CLIENT_HELLO) && (znth in_ 3 =? SSL3_VERSION_MAJOR) then
      r ← read_v2_client_hello transcript m in_;
      match r with
      | (ssl_open_record_success type out consumed, m) => Some (ssl_open_record_success type out consumed, true, m, rd)
      | (ret, m) => Some (ret, false, m, rd)
      end
    else let '(ret, m, rd) := open_handshake_record ssl m rd p in_ in Some (ret, true, m, rd)
  else let '(ret, m, rd) := open_handshake_record ssl m rd p in_ in Some (ret, v2_hello_done, m, rd).
End In.
