(* ===== verification/TlsHandshake.v ===== *)
(** Handshake messages from one end of a TLS connection to the other: the flight
    that is sent (TlsFlight.v), the transport, the read buffer (SslBuffer.v), the
    record layer (TlsRecord.v) and the buffer of messages (TlsMessage.v)
    together. *)

From S2P Require Import Prelude Mem Bio BioMem Cbs Cbb BufMem Words Md32 Sha256 Sha512 Sha1 Md5 Digest Aead.
From S2P Require Import SslVersions SslCipher SslAead TlsMessage TlsRecord SslBuffer TlsFlight.

(** * Opening records from the transport *)

Section Read.
  Context {HA : Allocator} {C : Type} {CS : ByteStream C}.

(** The return value, [out_retry], the alert to be sent, the transport and the
    buffer. [new_buf] and [header_len] are those of [EnsureCap]. *)
Definition ssl_handle_open_record (dtls : bool) (new_buf header_len : Z) (ret : ssl_open_record_t) (rbio : option C) (b : SSLBuffer) :
    option (Z * bool * option Z * option C * SSLBuffer) :=
  match ret with
  | ssl_open_record_success _ _ consumed => b ← Consume consumed b; Some (1, false, None, rbio, b)
  | ssl_open_record_partial consumed =>
      r ← ssl_read_buffer_extend_to dtls new_buf header_len consumed rbio (DiscardConsumed b);
      let '(read_ret, rbio, b) := r in
      if read_ret <=? 0 then Some (read_ret, false, None, rbio, b) else Some (1, true, None, rbio, b)
  | ssl_open_record_discard consumed => b ← Consume consumed b; Some (1, true, None, rbio, DiscardConsumed b)
  | ssl_open_record_close_notify consumed => b ← Consume consumed b; Some (0, false, None, rbio, DiscardConsumed b)
  | ssl_open_record_error e consumed =>
      b ← Consume consumed b;
      Some (-1, false, if out_alert e =? 0 then None else Some (out_alert e), rbio, DiscardConsumed b)
  end.

Context {S : Type}.
Variable sizeof_buf new_buf header_len p : Z.
Variable transcript : bool.
Variable ssl : connection.

(** The reading side of a TLS connection. *)
Record tls_in : Type := {
  in_v2_hello_done : bool;
  in_messages : messages;
  in_read : read_state S;
  in_channel : option C;
  in_buffer : SSLBuffer
}.

(** The wait for a message in [ssl_run_handshake]; the result is the return value,
    1 for a record that has been read, and the alert to be sent. *)
Fixpoint read_message (fuel : nat) (i : tls_in) : option (Z * option Z * tls_in) :=
  match fuel with
  | O => None
  | Datatypes.S fuel =>
      r ← tls_open_handshake sizeof_buf transcript ssl (in_v2_hello_done i) (in_messages i) (in_read i) p (span (in_buffer i));
      let '(ret, v2, m, rd) := r in
      match ssl_handle_open_record false new_buf header_len ret (in_channel i) (in_buffer i) with
      | None => None
      | Some (bio_ret, retry, alert, c, b) =>
          let i := {| in_v2_hello_done := v2; in_messages := m; in_read := rd; in_channel := c; in_buffer := b |} in
          if bio_ret <=? 0 then Some (bio_ret, alert, i)
          else if retry then read_message fuel i
          else Some (1, alert, {| in_v2_hello_done := v2; in_messages := m; in_read := rd; in_channel := c; in_buffer := DiscardConsumed b |})
      end
  end.

Definition with_messages (i : tls_in) (m : messages) : tls_in :=
  {| in_v2_hello_done := in_v2_hello_done i; in_messages := m; in_read := in_read i; in_channel := in_channel i; in_buffer := in_buffer i |}.

(** A reader that takes [k] messages, and waits for records as it needs them. *)
Fixpoint receive_messages (fuel k : nat) (i : tls_in) : option (list (Z * list Z) * tls_in) :=
  match k with
  | O => Some ([], i)
  | Datatypes.S k' =>
      match fuel with
      | O => None
      | Datatypes.S fuel =>
          match tls_get_message (in_messages i) with
          | (Some msg, m) =>
              m ← tls_next_message ssl m; r ← receive_messages fuel k' (with_messages i m);
              Some ((msg_type msg, msg_body msg) :: fst r, snd r)
          | (None, m) =>
              match read_message 3 (with_messages i m) with
              | Some (1, _, i) => receive_messages fuel k i
              | _ => None
              end
          end
      end
  end.
End Read.
Arguments tls_in C S : clear implicits.

(** * What a flight has *)

Section Sent.
  Context {HA : Allocator} {HR : RandomSource} {S : Type} {A : EVP_AEAD S} {tag : Z} {paired : S -> S -> Prop} {L : AeadLaws A tag paired}.
  Variable sizeof_buf : Z.
  Variable place : BUF_MEM -> Z.
  Variable tmp_prefix : Z.
  Variable ssl : connection.
  Implicit Types w : tls_out S.

(** One handshake record that has been sealed. *)
Definition sealed_record (wr : write_state S) (data bs : list Z) (wr' : write_state S) : Prop :=
  bytes data /\ 0 < zlen data <= 16384 /\
  exists out p, tls_seal_record ssl wr tmp_prefix SSL3_RT_HANDSHAKE out {| addr := p; Aead.contents := data |} = (Some bs, wr').

Inductive sealed_records : write_state S -> list (list Z) -> list (list Z) -> write_state S -> Prop :=
  | sealed_none wr : sealed_records wr [] [] wr
  | sealed_more wr data bs wr1 datas bss wr' : sealed_record wr data bs wr1 -> sealed_records wr1 datas bss wr' ->
      sealed_records wr (data :: datas) (bs :: bss) wr'.

Lemma sealed_snoc wr datas bss wr1 data bs wr' : sealed_records wr datas bss wr1 -> sealed_record wr1 data bs wr' ->
  sealed_records wr (datas ++ [data]) (bss ++ [bs]) wr'.
Proof. induction 1; intros Hone; cbn [app]; [econstructor; [exact Hone|constructor]|econstructor; eauto]. Qed.

Abbreviation sync wr rd := (in_sync (A := A) (tag := tag) (paired := paired) wr rd).

(** A writer that stays in step with some reader. *)
Definition writer_ok (wr : write_state S) : Prop := (exists rd : read_state S, sync wr rd /\ idle rd) /\ splitting_ok ssl wr.

Lemma seal_step wr type out p data bs wr' : writer_ok wr -> data_type type -> bytes data -> 0 < zlen data <= 16384 ->
  tls_seal_record ssl wr tmp_prefix type out {| addr := p; Aead.contents := data |} = (Some bs, wr') ->
  writer_ok wr' /\ keeps wr wr' /\ 0 < zlen bs <= zlen (Aead.contents out).
Proof.
  intros [(rd & Hs & Hi) Hsp] Ht Hd Hl E.
  destruct (seal_record_read ssl wr rd tmp_prefix _ out p data bs wr' Hs Hi Hsp Ht Hd Hl E) as (Hk & rd' & Hs' & Hi' & _ & _ & Hlen).
  split; [|auto]; split; [eauto|]; now apply (splitting_kept ssl wr wr' Hk).
Qed.

Definition buffer_bytes (b : option BUF_MEM) : list Z := match b with None => [] | Some b => bm_contents b end.
Definition buffer_good (b : option BUF_MEM) : Prop := match b with None => True | Some b => bm_ok b end.

(** The flight has the records [bss], with the data [datas]. *)
Definition flight_part (wr0 : write_state S) (datas bss : list (list Z)) w : Prop :=
  sealed_records wr0 datas bss (o_write w) /\ writer_ok (o_write w) /\ keeps wr0 (o_write w) /\ buffer_good (pending_flight w) /\
  buffer_bytes (pending_flight w) = concat bss /\ pending_flight_offset w = 0.

(** A sum of two words that is not less than one of them has not wrapped around. *)
Lemma no_wrap a b : 0 <= a < 2 ^ 64 -> 0 <= b < 2 ^ 64 -> b <= u64 (a + b) -> u64 (a + b) = a + b.
Proof.
  intros Ha Hb H; destruct (Z.lt_ge_cases (a + b) (2 ^ 64)); [apply uw_small; lia|].
  unfold uw in *; rewrite <- (Z.mod_add _ (-1) (2 ^ 64)), Z.mod_small in * by lia; lia.
Qed.

Lemma add_record_spec wr0 datas bss w p data w' : flight_part wr0 datas bss w -> bytes data -> 0 < zlen data <= 16384 ->
  add_record_to_flight sizeof_buf place tmp_prefix ssl SSL3_RT_HANDSHAKE {| addr := p; Aead.contents := data |} w = (true, w') ->
  exists bs, flight_part wr0 (datas ++ [data]) (bss ++ [bs]) w' /\ pending_hs_data w' = pending_hs_data w.
Proof.
  intros (Hs & Hw & Hk & Hg & Hb & Ho) Hd Hl; unfold add_record_to_flight; cbn [Aead.contents].
  set (w1 := match pending_flight w with None => _ | Some _ => w end).
  assert (o_write w1 = o_write w /\ pending_hs_data w1 = pending_hs_data w /\ pending_flight_offset w1 = 0) as (E1 & E2 & E3)
    by (unfold w1; destruct (pending_flight w); auto).
  destruct (pending_flight w1) as [fl|] eqn:Ef; [|discriminate].
  assert (bm_ok fl /\ bm_contents fl = concat bss) as [Hfl Ec].
  { unfold w1 in Ef; destruct (pending_flight w) as [f|] eqn:Ep; [rewrite Ep in Ef; injection Ef as <-; auto|].
    cbn [with_flight_buf pending_flight] in Ef; unfold new_buffer in Ef; destruct (malloc_ok sizeof_buf); [|discriminate]; injection Ef as <-; split; [apply bm_new_ok|exact Hb]. }
  set (max_out := u64 _); set (new_cap := u64 (bm_length fl + max_out)).
  assert (0 <= max_out < 2 ^ 64) as Hmax by (apply (uw_bound 64); lia); assert (0 <= new_cap < 2 ^ 64) as Hcap by (apply (uw_bound 64); lia).
  destruct ((max_out <? zlen data) || (new_cap <? max_out)) eqn:Eg; [discriminate|]; apply orb_false_iff in Eg as [_ Eg%Z.ltb_ge].
  pose proof Hfl as ((Hfl1 & Hfl2) & Hfl3 & Hfl4); pose proof (no_wrap (bm_length fl) max_out ltac:(lia) Hmax Eg) as Enew; fold new_cap in Enew.
  pose proof (bm_reserve_spec fl new_cap Hfl Hcap) as Hr; destruct (BUF_MEM_reserve fl new_cap) as [[] b']; cbn [negb]; [|discriminate].
  destruct Hr as (((Hl1 & Hl2) & Hl3 & Hl4) & Hc' & El & Ec'); cbn [with_flight_buf o_write]; rewrite E1.
  destruct (tls_seal_record _ _ _ _ _ _) as [[bs|] wr] eqn:Eseal; [|discriminate]; intros [= <-].
  destruct (seal_step _ _ _ _ _ _ _ Hw (or_introl eq_refl) Hd Hl Eseal) as (Hw' & Hk' & Hlen); cbn [Aead.contents] in Hlen; rewrite zlen_ztake in Hlen by (rewrite ?zlen_zdrop; lia).
  pose proof (zlen_nonneg bs); rewrite (uw_small 64) by lia; exists bs; split; [|exact E2]; unfold flight_part, buffer_good, buffer_bytes.
  cbn [with_flight_buf with_o_write o_write pending_flight pending_flight_offset]; split; [apply (sealed_snoc _ _ _ (o_write w)); [exact Hs|]; repeat (split; [assumption|]); eauto|].
  split; [exact Hw'|]; split; [exact (keeps_trans _ _ _ Hk Hk')|]; split; [|split; [|exact E3]].
  - unfold bm_ok; cbn [bm_length bm_data bm_max]; rewrite zlen_zsplice by lia; lia.
  - unfold bm_contents; cbn [bm_length bm_data]; rewrite ztake_zsplice by lia; fold (bm_contents b'); rewrite Ec', Ec, concat_app; cbn [concat]; now rewrite app_nil_r.
Qed.

(** The state of the sending side after the bytes [sent] of messages: those in
    records, and the rest pending. *)
Definition flight_inv (wr0 : write_state S) (max : Z) (sent : list Z) w : Prop :=
  exists datas bss, flight_part wr0 datas bss w /\ buffer_good (pending_hs_data w) /\ zlen (buffer_bytes (pending_hs_data w)) <= max /\
    concat datas ++ buffer_bytes (pending_hs_data w) = sent.

Lemma zlen_buffer_bytes b : bm_ok b -> zlen (buffer_bytes (Some b)) = bm_length b.
Proof. apply zlen_bm_contents. Qed.

Lemma flush_pending_spec wr0 max sent w w' : flight_inv wr0 max sent w -> bytes sent -> 0 <= max <= 16384 ->
  tls_flush_pending_hs_data sizeof_buf place tmp_prefix ssl w = (true, w') ->
  exists datas bss, flight_part wr0 datas bss w' /\ buffer_good (pending_hs_data w') /\ buffer_bytes (pending_hs_data w') = [] /\ concat datas = sent.
Proof.
  intros (datas & bss & Hf & Hg & Hl & Es) Hb Hmax; unfold tls_flush_pending_hs_data; destruct (pending_hs_data w) as [b|] eqn:Ep; cbn [buffer_bytes buffer_good] in *.
  2: { intros [= <-]; exists datas, bss; rewrite Ep, app_nil_r in *; auto. }
  pose proof (zlen_bm_contents b Hg) as Lb; destruct (Z.eqb_spec (bm_length b) 0) as [E0|E0].
  { intros [= <-]; exists datas, bss; rewrite Ep; cbn [buffer_bytes buffer_good]; rewrite E0 in Lb; rewrite (zlen_0_nil _ Lb) in *; rewrite app_nil_r in Es; auto. }
  intros E; fold (bm_contents b) in E; assert (bytes (bm_contents b)) as Hbb by (rewrite <- Es in Hb; now apply bytes_app in Hb).
  pose proof Hg as ((Hg1 & _) & _); destruct (add_record_spec wr0 datas bss (with_hs_data w None) _ (bm_contents b) w' Hf Hbb ltac:(lia) E) as (bs & Hf' & Ep').
  cbn [with_hs_data pending_hs_data] in Ep'; exists (datas ++ [bm_contents b]), (bss ++ [bs]); rewrite Ep'; cbn [buffer_good buffer_bytes].
  split; [exact Hf'|]; split; [exact I|]; split; [reflexivity|]; rewrite concat_app; cbn [concat]; now rewrite app_nil_r.
Qed.

Lemma flight_inv_none wr0 max datas bss w : flight_part wr0 datas bss w -> buffer_good (pending_hs_data w) -> buffer_bytes (pending_hs_data w) = [] -> 0 <= max ->
  flight_inv wr0 max (concat datas) w.
Proof. intros Hf Hg Hb Hm; exists datas, bss; rewrite Hb, app_nil_r; change (zlen (@nil Z)) with 0; auto. Qed.

(** A part of at most [n] bytes. *)
Lemma chunk_spec n (r : list Z) : 0 < n -> 0 < zlen r ->
  ztake n r ++ zdrop (zlen (ztake n r)) r = r /\ 0 < zlen (ztake n r) <= n /\ (length (zdrop (zlen (ztake n r)) r) < length r)%nat.
Proof.
  intros Hn Hr; assert (0 < zlen (ztake n r) <= n) as Hc by (unfold ztake, zlen in *; rewrite length_take; lia); split; [|split; [exact Hc|]].
  - destruct (Z.le_gt_cases (zlen r) n); [rewrite ztake_all, zdrop_all by lia; apply app_nil_r|rewrite zlen_ztake by lia; apply ztake_zdrop].
  - unfold zdrop, zlen in *; rewrite length_drop; lia.
Qed.

(** Messages in the clear: a record for each part. *)
Lemma add_records_spec wr0 max fuel : 1 <= max <= 16384 -> forall p rest w datas bss, (length rest <= fuel)%nat -> bytes rest ->
  flight_part wr0 datas bss w -> buffer_good (pending_hs_data w) -> buffer_bytes (pending_hs_data w) = [] ->
  exists ok w', add_records sizeof_buf place tmp_prefix ssl fuel max p rest w = Some (ok, w') /\
    (ok = true -> exists datas' bss', flight_part wr0 datas' bss' w' /\ buffer_good (pending_hs_data w') /\ buffer_bytes (pending_hs_data w') = [] /\
      concat datas' = concat datas ++ rest).
Proof.
  intros Hmax; induction fuel as [|fuel IH]; intros p rest w datas bss Hf Hb Hw Hg Hp; (destruct rest as [|x rest]; [exists true, w; split; [reflexivity|]; intros _; exists datas, bss; rewrite app_nil_r; auto|]).
  { cbn [length] in Hf; lia. }
  cbn [add_records]; set (r := x :: rest) in *; set (chunk := ztake max r).
  assert (0 < zlen r) as Hr by (unfold r; rewrite zlen_cons; pose proof (zlen_nonneg rest); lia).
  destruct (chunk_spec max r ltac:(lia) Hr) as (Er & Hc & Hlen); fold chunk in Er, Hc, Hlen.
  destruct (add_record_to_flight _ _ _ _ _ _ _) as [[] w1] eqn:Ea; [|exists false, w1; split; [reflexivity|discriminate]].
  destruct (add_record_spec wr0 datas bss w p chunk w1 Hw (bytes_ztake _ _ Hb) ltac:(lia) Ea) as (bs & Hw1 & Ep1).
  rewrite <- Ep1 in Hg, Hp; destruct (IH (p + zlen chunk) (zdrop (zlen chunk) r) w1 _ _ ltac:(lia) (bytes_zdrop _ _ Hb) Hw1 Hg Hp) as (ok & w2 & E2 & H2).
  exists ok, w2; split; [exact E2|]; intros Hok; destruct (H2 Hok) as (ds & bs' & K1 & K2 & K3 & K4); exists ds, bs'; repeat (split; [assumption|]).
  rewrite K4, concat_app; cbn [concat]; rewrite app_nil_r, <- app_assoc, Er; reflexivity.
Qed.

(** Pending data that fill a record are flushed. *)
Lemma make_room_spec wr0 max sent w : 1 <= max <= 16384 -> bytes sent -> flight_inv wr0 max sent w ->
  exists ok w1, match pending_hs_data w with
    | Some b => if max <=? bm_length b then tls_flush_pending_hs_data sizeof_buf place tmp_prefix ssl w else (true, w)
    | None => (true, w)
    end = (ok, w1) /\ (ok = true -> flight_inv wr0 max sent w1 /\ zlen (buffer_bytes (pending_hs_data w1)) < max).
Proof.
  intros Hmax Hbs Hw; pose proof Hw as (datas & bss & Hp & Hg & Hl & Es); destruct (pending_hs_data w) as [b|] eqn:Ep; cbn [buffer_good buffer_bytes] in *.
  2: { exists true, w; split; [reflexivity|]; intros _; split; [exact Hw|rewrite Ep; change (zlen (buffer_bytes None)) with 0; lia]. }
  destruct (Z.leb_spec max (bm_length b)); [|exists true, w; split; [reflexivity|]; intros _; split; [exact Hw|rewrite Ep; cbn [buffer_bytes]; rewrite zlen_bm_contents by exact Hg; lia]].
  destruct (tls_flush_pending_hs_data _ _ _ _ w) as [ok w1] eqn:Efl; exists ok, w1; split; [reflexivity|]; intros ->.
  destruct (flush_pending_spec wr0 max sent w w1 Hw Hbs ltac:(lia) Efl) as (ds & bs & K1 & K2 & K3 & <-).
  split; [apply (flight_inv_none wr0 max ds bs); auto; lia|rewrite K3; change (zlen (@nil Z)) with 0; lia].
Qed.

(** Messages under a cipher: full records. *)
Lemma add_pending_spec wr0 max fuel : 1 <= max <= 16384 -> forall rest w sent, (length rest <= fuel)%nat -> bytes (sent ++ rest) -> flight_inv wr0 max sent w ->
  exists ok w', add_pending sizeof_buf place tmp_prefix ssl fuel max rest w = Some (ok, w') /\ (ok = true -> flight_inv wr0 max (sent ++ rest) w').
Proof.
  intros Hmax; induction fuel as [|fuel IH]; intros rest w sent Hf Hb Hw; (destruct rest as [|x rest]; [exists true, w; split; [reflexivity|]; intros _; now rewrite app_nil_r|]).
  { cbn [length] in Hf; lia. }
  cbn [add_pending]; set (r := x :: rest) in *; assert (0 < zlen r) as Hr by (unfold r; rewrite zlen_cons; pose proof (zlen_nonneg rest); lia).
  assert (bytes sent /\ bytes r) as [Hbs Hbr] by now apply bytes_app.
  destruct (make_room_spec wr0 max sent w Hmax Hbs Hw) as (ok & w1 & E1 & H1); rewrite E1.
  destruct ok; cbn [negb]; [|exists false, w1; split; [reflexivity|discriminate]]; destruct (H1 eq_refl) as [Hw1 Hlt]; clear H1 E1.
  set (pl := match pending_hs_data w1 with Some b => bm_length b | None => 0 end); set (chunk := ztake (max - pl) r).
  set (w2 := match pending_hs_data w1 with None => _ | Some _ => w1 end); pose proof Hw1 as (datas & bss & Hp & Hg & Hl & Es).
  destruct (pending_hs_data w2) as [b|] eqn:Ep2; [|exists false, w2; split; [reflexivity|discriminate]].
  assert (bm_ok b /\ bm_contents b = buffer_bytes (pending_hs_data w1) /\ flight_part wr0 datas bss w2 /\ pl = zlen (bm_contents b)) as (Hbok & Ebc & Hp2 & Epl).
  { unfold w2, pl in *; destruct (pending_hs_data w1) as [b1|] eqn:Ep1; [rewrite Ep1 in Ep2; injection Ep2 as <-; cbn [buffer_good buffer_bytes] in *; rewrite zlen_bm_contents by auto; auto|].
    cbn [with_hs_data pending_hs_data] in Ep2; unfold new_buffer in Ep2; destruct (malloc_ok sizeof_buf); [|discriminate]; injection Ep2 as <-.
    split; [apply bm_new_ok|]; split; [reflexivity|]; split; [exact Hp|reflexivity]. }
  rewrite <- Ebc in Hlt, Es; destruct (chunk_spec (max - pl) r ltac:(lia) Hr) as (Er & Hc & Hlen); fold chunk in Er, Hc, Hlen.
  pose proof (zlen_nonneg (bm_contents b)); pose proof (bm_append_spec b chunk Hbok ltac:(lia)) as Ha; destruct (BUF_MEM_append b chunk) as [ok b']; destruct Ha as (Hb' & Ec' & _).
  destruct ok; cbn [negb]; [|eexists false, _; split; [reflexivity|discriminate]]; specialize (Ec' eq_refl).
  destruct (IH (zdrop (zlen chunk) r) (with_hs_data w2 (Some b')) (sent ++ chunk) ltac:(lia)) as (ok & w3 & E3 & H3).
  - rewrite <- app_assoc, Er; exact Hb.
  - exists datas, bss; split; [exact Hp2|]; cbn [with_hs_data pending_hs_data buffer_good buffer_bytes]; split; [exact Hb'|]; rewrite Ec', zlen_app.
    split; [lia|]; rewrite app_assoc, Es; reflexivity.
  - exists ok, w3; split; [exact E3|]; intros Hok; specialize (H3 Hok); rewrite <- app_assoc, Er in H3; exact H3.
Qed.

(** Under the null cipher nothing is pending between messages. *)
Definition sender_ok (wr0 : write_state S) (max : Z) (sent : list Z) w : Prop :=
  flight_inv wr0 max sent w /\ (is_null_cipher (aead_write_ctx wr0) = true -> buffer_bytes (pending_hs_data w) = []).

Lemma keeps_null (wr wr' : write_state S) : keeps wr wr' -> is_null_cipher (aead_write_ctx wr') = is_null_cipher (aead_write_ctx wr).
Proof. intros (_ & Hc & _); unfold is_null_cipher; now destruct (keyed (aead_write_ctx wr')) as [[? ?]|], (keyed (aead_write_ctx wr)) as [[? ?]|]. Qed.

Lemma add_message_spec wr0 max transcript p msg sent w : 1 <= max <= 16384 -> bytes (sent ++ msg) -> sender_ok wr0 max sent w ->
  exists ok w', tls_add_message sizeof_buf place tmp_prefix ssl max transcript p msg w = Some (ok, w') /\ (ok = true -> sender_ok wr0 max (sent ++ msg) w').
Proof.
  intros Hmax Hb [Hw Hn]; unfold tls_add_message; pose proof Hw as (datas & bss & Hp & Hg & _ & Es); pose proof (proj1 (proj2 (proj2 Hp))) as Hk.
  rewrite (keeps_null wr0 (o_write w) Hk) in *; assert (bytes msg) as Hm by (now apply bytes_app in Hb); destruct (is_null_cipher (aead_write_ctx wr0)) eqn:En.
  - rewrite (Hn eq_refl), app_nil_r in Es.
    destruct (add_records_spec wr0 max (length msg) Hmax p msg w datas bss (le_n _) Hm Hp Hg (Hn eq_refl)) as (ok & w' & -> & H); cbn [mbind option_bind].
    destruct ok; [|exists false, w'; split; [reflexivity|discriminate]]; exists transcript, w'; split; [reflexivity|]; intros _.
    destruct (H eq_refl) as (ds & bs & K1 & K2 & K3 & K4); split; [rewrite <- Es, <- K4; apply (flight_inv_none wr0 max ds bs); auto; lia|auto].
  - destruct (add_pending_spec wr0 max (length msg) Hmax msg w sent (le_n _) Hb Hw) as (ok & w' & -> & H); cbn [mbind option_bind].
    destruct ok; [|exists false, w'; split; [reflexivity|discriminate]]; exists transcript, w'; split; [reflexivity|]; intros _; split; [auto|congruence].
Qed.

(** The messages of a flight, each with the address of its bytes. *)
Fixpoint add_messages (max : Z) (msgs : list (Z * list Z)) w : option (bool * tls_out S) :=
  match msgs with
  | [] => Some (true, w)
  | (p, msg) :: msgs =>
      r ← tls_add_message sizeof_buf place tmp_prefix ssl max true p msg w;
      match r with (false, w) => Some (false, w) | (true, w) => add_messages max msgs w end
  end.

Lemma add_messages_spec wr0 max msgs : 1 <= max <= 16384 -> forall sent w, bytes (sent ++ concat (map snd msgs)) -> sender_ok wr0 max sent w ->
  exists ok w', add_messages max msgs w = Some (ok, w') /\ (ok = true -> sender_ok wr0 max (sent ++ concat (map snd msgs)) w').
Proof.
  intros Hmax; induction msgs as [|[p msg] msgs IH]; intros sent w Hb Hw; cbn [add_messages map concat snd] in *; [exists true, w; rewrite app_nil_r; auto|].
  rewrite app_assoc in *; destruct (add_message_spec wr0 max true p msg sent w Hmax (proj1 (proj1 (bytes_app _ _) Hb)) Hw) as (ok & w1 & -> & H1).
  cbn [mbind option_bind]; destruct ok; [apply (IH _ _ Hb), H1; reflexivity|exists false, w1; split; [reflexivity|discriminate]].
Qed.

(** Before the first message. *)
Definition new_sender (wr : write_state S) : tls_out S := {| o_write := wr; pending_hs_data := None; pending_flight := None; pending_flight_offset := 0 |}.

Lemma new_sender_ok wr max : writer_ok wr -> 0 <= max -> sender_ok wr max [] (new_sender wr).
Proof.
  intros Hw Hm; split; [|reflexivity]; apply (flight_inv_none wr max [] []); [|exact I|reflexivity|exact Hm].
  split; [exact (sealed_none wr)|]; split; [exact Hw|]; split; [|cbn; auto]; split; [repeat split|auto].
Qed.

(** * Writing it *)

Section Write.
  Context {C : Type} {CS : ByteStream C}.

Lemma write_flight_spec fuel flight : bm_ok flight -> bm_length flight <= INT_MAX -> forall (c : C) w, stream_ok c ->
  0 <= pending_flight_offset w -> bm_length flight - pending_flight_offset w <= Z.of_nat fuel ->
  exists ret c' w', write_flight fuel c flight w = Some (ret, c', w') /\ stream_ok c' /\ o_write w' = o_write w /\
    (0 < ret -> ret = 1 /\ Bio.contents c' = Bio.contents c ++ zdrop (pending_flight_offset w) (bm_contents flight)).
Proof.
  intros Hok Hmax; pose proof (zlen_bm_contents flight Hok) as Hl; induction fuel as [|fuel IH]; intros c w Hc Ho Hf; cbn [write_flight];
    destruct (Z.ltb_spec (pending_flight_offset w) (bm_length flight)) as [Hlt|Hge]; try lia.
  1, 3: exists 1, c, w; rewrite zdrop_all, app_nil_r by lia; auto 6.
  set (data := zdrop (pending_flight_offset w) (bm_contents flight)); assert (zlen data = bm_length flight - pending_flight_offset w) as Ld by (unfold data; rewrite zlen_zdrop; lia).
  pose proof (stream_write_spec c data Hc ltac:(lia)) as Hw; destruct (stream_write c data) as [ret c1]; destruct Hw as (Hc1 & Hn & Ec).
  destruct (Z.leb_spec ret 0); [exists ret, c1, w; split; [reflexivity|]; split; [exact Hc1|]; split; [reflexivity|lia]|].
  rewrite (uw_small 32) by (unfold INT_MAX in *; lia).
  destruct (IH c1 (with_flight_buf w (pending_flight w) (pending_flight_offset w + ret)) Hc1) as (r & c2 & w2 & E2 & Hc2 & Ew & Hr); cbn [with_flight_buf pending_flight_offset o_write] in *; [lia|lia|].
  exists r, c2, w2; split; [exact E2|]; split; [exact Hc2|]; split; [exact Ew|]; intros Hpos; destruct (Hr Hpos) as [-> ->]; split; [reflexivity|].
  rewrite Ec, <- app_assoc; unfold data; rewrite <- zdrop_zdrop, ztake_zdrop by lia; reflexivity.
Qed.

Lemma flush_flight_spec wr0 max sent w flush (c : C) wb : 0 <= max <= 16384 -> bytes sent -> flight_inv wr0 max sent w -> stream_ok c -> buffer_ok wb -> span wb = [] ->
  forall c' wb' w', tls_flush_flight sizeof_buf place tmp_prefix ssl ssl_shutdown_none flush (Some c) wb w = Some (1, c', wb', w') ->
  exists c1 datas bss, c' = Some c1 /\ stream_ok c1 /\ sealed_records wr0 datas bss (o_write w') /\ concat datas = sent /\ Bio.contents c1 = Bio.contents c ++ concat bss.
Proof.
  intros Hmax Hb Hw Hc Hwb Ewb c' wb' w'; unfold tls_flush_flight; destruct (tls_flush_pending_hs_data _ _ _ _ w) as [ok w1] eqn:Ep; destruct ok; cbn [negb]; [|discriminate].
  destruct (flush_pending_spec wr0 max sent w w1 Hw Hb Hmax Ep) as (datas & bss & (Hs & _ & _ & Hg & Ebs & Ho) & _ & _ & Es).
  destruct (pending_flight w1) as [fl|]; cbn [buffer_good buffer_bytes] in *.
  2: { intros [= <- <- <-]; exists c, datas, bss; rewrite <- Ebs, app_nil_r; auto. }
  destruct (Z.ltb_spec INT_MAX (bm_length fl)); [discriminate|]; assert (buffer_empty wb = true) as -> by (unfold buffer_empty; now rewrite <- (span_len wb Hwb), Ewb).
  cbn [negb mbind option_bind Z.leb Z.compare]; rewrite Ho.
  destruct (write_flight_spec (Z.to_nat (bm_length fl - 0)) fl Hg ltac:(lia) c w1 Hc ltac:(lia) ltac:(lia)) as (ret & c1 & w2 & -> & Hc1 & Ew & Hr); cbn [mbind option_bind].
  destruct (Z.leb_spec ret 0); [intros [= -> <- <- <-]; lia|]; destruct (Hr ltac:(lia)) as [_ Ec]; rewrite Ho, zdrop_0, Ebs in Ec.
  destruct (flush <=? 0); [discriminate|]; intros [= <- <- <-]; exists c1, datas, bss; cbn [with_flight_buf o_write]; rewrite Ew; auto.
Qed.
End Write.
End Sent.

(** * What arrives *)

(** What the check for an SSL 2 ClientHello makes of the start of a record. *)
Lemma not_v2_hello (in_ : list Z) : znth in_ 0 = SSL3_RT_HANDSHAKE \/ znth in_ 0 = SSL3_RT_APPLICATION_DATA ->
  http_request in_ = false /\ proxy_request in_ = false /\ (Z.land (znth in_ 0) 0x80 =? 0) = true.
Proof.
  intros H; assert (forall n x l, (0 < n) -> x <> SSL3_RT_HANDSHAKE -> x <> SSL3_RT_APPLICATION_DATA -> bool_decide (ztake n in_ = x :: l) = false) as Hne.
  { intros n x l Hn H1 H2; apply bool_decide_eq_false; destruct in_ as [|y r]; [rewrite ztake_all by (change (zlen (@nil Z)) with 0; lia); discriminate|].
    rewrite ztake_cons by lia; intros [= -> _]; destruct H as [H|H]; [apply H1|apply H2]; exact H. }
  unfold http_request, proxy_request; rewrite !Hne by (unfold SSL3_RT_HANDSHAKE, SSL3_RT_APPLICATION_DATA; lia); split; [reflexivity|]; split; [reflexivity|].
  now destruct H as [-> | ->].
Qed.

Section Received.
  Context {HA : Allocator} {C : Type} {CS : ByteStream C} {CP : PromptStream C} {S : Type}.
  Variable sizeof_buf new_buf header_len p : Z.
  Variable transcript : bool.
  Variable ssl : connection.
  Hypothesis mem : forall n, malloc_ok n = true.
  Implicit Types i : tls_in C S.

(** A record of handshake data, complete or not, through [tls_open_handshake]. *)
Lemma open_handshake_complete v2 m (rd rd' : read_state S) q data bs rest : reads_one rd SSL3_RT_HANDSHAKE data bs rd' -> accepts ssl m SSL3_RT_HANDSHAKE ->
  messages_wf m -> bytes data -> zlen (buffered m) + zlen data < 2 ^ 63 ->
  exists v2' m', tls_open_handshake sizeof_buf transcript ssl v2 m rd q (bs ++ rest) = Some (ssl_open_record_success SSL3_RT_HANDSHAKE data (zlen bs), v2', m', rd') /\
    messages_wf m' /\ buffered m' = buffered m ++ data.
Proof.
  intros (H0 & Hl & Hread) Hacc Hm Hd Hz; destruct (append_data_spec sizeof_buf m data Hm Hd Hz mem) as (m' & Ea & Hm' & Eb).
  assert (open_handshake_record sizeof_buf ssl m rd q (bs ++ rest) = (ssl_open_record_success SSL3_RT_HANDSHAKE data (zlen bs), m', rd')) as E.
  { unfold open_handshake_record; rewrite (proj1 (Hread ssl m Hacc)); cbn [Z.eqb SSL3_RT_HANDSHAKE SSL3_RT_APPLICATION_DATA Pos.eqb]; rewrite andb_false_r; cbn [andb negb]; now rewrite Ea. }
  unfold SSL3_RT_HEADER_LENGTH in Hl; assert (znth (bs ++ rest) 0 = znth bs 0) as E0 by (destruct bs; [rewrite zlen_nil in Hl; lia|reflexivity]).
  rewrite <- E0 in H0; destruct (not_v2_hello _ H0) as (N1 & N2 & N3); unfold tls_open_handshake; rewrite N1, N2, N3, E; cbn [negb andb].
  pose proof (zlen_nonneg rest); rewrite (proj2 (Z.ltb_ge _ _)) by (rewrite zlen_app; unfold SSL3_RT_HEADER_LENGTH; lia); case_if; eauto.
Qed.

Lemma open_handshake_incomplete v2 m (rd rd' : read_state S) q data bs k : reads_one rd SSL3_RT_HANDSHAKE data bs rd' -> accepts ssl m SSL3_RT_HANDSHAKE ->
  0 <= k < zlen bs ->
  exists v2', tls_open_handshake sizeof_buf transcript ssl v2 m rd q (ztake k bs) =
    Some (ssl_open_record_partial (if k <? SSL3_RT_HEADER_LENGTH then SSL3_RT_HEADER_LENGTH else zlen bs), v2', m, rd).
Proof.
  intros (H0 & Hl & Hread) Hacc Hk; pose proof (proj2 (Hread ssl m Hacc) q k Hk) as E; unfold tls_open_handshake, open_handshake_record; rewrite E, zlen_ztake by lia.
  destruct (Z.ltb_spec k SSL3_RT_HEADER_LENGTH) as [|Hge]; [case_if; eauto|]; unfold SSL3_RT_HEADER_LENGTH in *.
  assert (znth (ztake k bs) 0 = znth bs 0) as E0 by (destruct bs; [rewrite zlen_nil in Hl; lia|rewrite ztake_cons by lia; reflexivity]).
  rewrite <- E0 in H0; destruct (not_v2_hello _ H0) as (-> & -> & ->); cbn [negb andb]; case_if; eauto.
Qed.

(** The channel and the buffer, with what the channel has. *)
Definition channel_has i (rest : list Z) : Prop :=
  buffer_ok (in_buffer i) /\ exists c, in_channel i = Some c /\ stream_ok c /\ Bio.contents c = rest.

(** [k] bytes of a record are buffered, the others and [rest] are in the channel. *)
Definition waiting i (m : messages) (rd : read_state S) (bs : list Z) (k : Z) (rest : list Z) : Prop :=
  in_messages i = m /\ in_read i = rd /\ span (in_buffer i) = ztake k bs /\ channel_has i (zdrop k bs ++ rest).

Abbreviation wait_record := (read_message sizeof_buf new_buf header_len p transcript ssl).

Lemma read_more fuel i m rd rd' data bs k rest : reads_one rd SSL3_RT_HANDSHAKE data bs rd' -> accepts ssl m SSL3_RT_HANDSHAKE -> 0 <= k < zlen bs ->
  waiting i m rd bs k rest -> let l := if k <? SSL3_RT_HEADER_LENGTH then SSL3_RT_HEADER_LENGTH else zlen bs in
  exists i', wait_record (Datatypes.S fuel) i = wait_record fuel i' /\ waiting i' m rd bs l rest.
Proof.
  intros Hread Hacc Hk (<- & <- & Es & Hb & c & Ec & Hc & Econt) l; cbn [read_message]; rewrite Es.
  destruct (open_handshake_incomplete (in_v2_hello_done i) _ _ _ p _ _ k Hread Hacc Hk) as (v2 & ->); fold l; cbn [mbind option_bind ssl_handle_open_record].
  destruct (discard_spec (in_buffer i) Hb) as [Hd Ed]; destruct Hread as (_ & Hl & _); unfold SSL3_RT_HEADER_LENGTH in *; change SSL3_RT_MAX_ENCRYPTED_LENGTH with 16704 in *.
  assert (k <= l <= zlen bs /\ 5 <= l) as Hkl by (unfold l; destruct (Z.ltb_spec k 5); lia).
  assert (ztake k bs ++ ztake (l - k) (zdrop k bs) = ztake l bs) as El.
  { rewrite <- (ztake_zdrop k (ztake l bs)), ztake_ztake by lia; f_equal; replace l with (k + (l - k)) at 2 by lia; symmetry; apply zdrop_ztake; lia. }
  rewrite Ec; destruct (extend_to_prompt new_buf header_len l c (DiscardConsumed (in_buffer i)) (ztake (l - k) (zdrop k bs)) (zdrop l bs ++ rest)) as (c' & b' & -> & Hb' & Hc' & Ec' & Es');
    [intros n _; apply mem|exact Hd|exact Hc|unfold SSL3_ALIGN_PAYLOAD; lia| |now rewrite Ed, Es, El, zlen_ztake by lia|].
  { rewrite Econt, app_assoc; f_equal; replace l with (k + (l - k)) at 2 by lia; rewrite <- zdrop_zdrop by lia; now rewrite ztake_zdrop. }
  cbn [mbind option_bind Z.leb Z.compare]; eexists; split; [reflexivity|]; split; [reflexivity|]; split; [reflexivity|]; cbn [in_buffer in_channel].
  split; [now rewrite Es', Ed, Es|split; eauto].
Qed.

Lemma read_done fuel i m rd rd' data bs rest : reads_one rd SSL3_RT_HANDSHAKE data bs rd' -> accepts ssl m SSL3_RT_HANDSHAKE -> messages_wf m -> bytes data ->
  zlen (buffered m) + zlen data < 2 ^ 63 -> waiting i m rd bs (zlen bs) rest ->
  exists i', wait_record (Datatypes.S fuel) i = Some (1, None, i') /\ messages_wf (in_messages i') /\ buffered (in_messages i') = buffered m ++ data /\
    in_read i' = rd' /\ span (in_buffer i') = [] /\ channel_has i' rest.
Proof.
  intros Hread Hacc Hm Hd Hz (<- & <- & Es & Hb & c & Ec & Hc & Econt); cbn [read_message]; rewrite ztake_all in Es by lia; rewrite zdrop_all in Econt by lia.
  rewrite Es, <- (app_nil_r bs); destruct (open_handshake_complete (in_v2_hello_done i) _ _ _ p _ _ [] Hread Hacc Hm Hd Hz) as (v2 & m' & -> & Hm' & Eb).
  cbn [mbind option_bind ssl_handle_open_record]; pose proof (span_len (in_buffer i) Hb) as Hl; rewrite Es in Hl.
  destruct (consume_spec (in_buffer i) (zlen bs) Hb ltac:(pose proof (zlen_nonneg bs); lia)) as (b' & -> & Hb' & Es' & _); cbn [mbind option_bind Z.leb Z.compare].
  destruct (discard_spec b' Hb') as [Hd' Ed']; eexists; split; [reflexivity|]; cbn [in_messages in_read in_buffer]; rewrite Ed', Es', Es, zdrop_all by lia.
  split; [exact Hm'|]; split; [exact Eb|]; split; [reflexivity|]; split; [reflexivity|]; split; [exact Hd'|]; exists c; auto.
Qed.

(** Waiting for a record that is in the channel. *)
Lemma read_message_spec i m rd rd' data bs rest : reads_one rd SSL3_RT_HANDSHAKE data bs rd' -> accepts ssl m SSL3_RT_HANDSHAKE -> messages_wf m -> bytes data ->
  zlen (buffered m) + zlen data < 2 ^ 63 -> waiting i m rd bs 0 rest ->
  exists i', wait_record 3 i = Some (1, None, i') /\ messages_wf (in_messages i') /\ buffered (in_messages i') = buffered m ++ data /\
    in_read i' = rd' /\ span (in_buffer i') = [] /\ channel_has i' rest.
Proof.
  intros Hread Hacc Hm Hd Hz Hw; pose proof Hread as (_ & Hl & _); unfold SSL3_RT_HEADER_LENGTH in Hl.
  destruct (read_more 2 i m rd rd' data bs 0 rest Hread Hacc ltac:(lia) Hw) as (i1 & -> & Hw1).
  destruct (read_more 1 i1 m rd rd' data bs 5 rest Hread Hacc ltac:(lia) Hw1) as (i2 & -> & Hw2).
  exact (read_done 0 i2 m rd rd' data bs rest Hread Hacc Hm Hd Hz Hw2).
Qed.

(** Records that a reader takes one after the other. *)
Inductive record_stream : read_state S -> list (list Z) -> list (list Z) -> read_state S -> Prop :=
  | stream_end rd : record_stream rd [] [] rd
  | stream_record rd data bs rd1 datas bss rd' : bytes data -> 0 < zlen data -> reads_one rd SSL3_RT_HANDSHAKE data bs rd1 ->
      record_stream rd1 datas bss rd' -> record_stream rd (data :: datas) (bs :: bss) rd'.

Lemma record_stream_bytes rd datas bss rd' : record_stream rd datas bss rd' -> bytes (concat datas) /\ (length datas <= length (concat datas))%nat.
Proof.
  induction 1 as [|rd data bs rd1 datas bss rd' Hd Hl _ _ [IH1 IH2]]; cbn [concat length]; [split; [constructor|lia]|].
  split; [now apply bytes_app|]; rewrite length_app; unfold zlen in Hl; lia.
Qed.

(** A reader before the messages [ms], of which some bytes are buffered and the
    others are in records in the channel. *)
Definition receiving i (ms : list (Z * list Z)) (datas bss : list (list Z)) (rd' : read_state S) : Prop :=
  record_stream (in_read i) datas bss rd' /\ messages_wf (in_messages i) /\ buffered (in_messages i) ++ concat datas = concat (map wire_message ms) /\
  zlen (concat (map wire_message ms)) < 2 ^ 63 /\ span (in_buffer i) = [] /\ channel_has i (concat bss).

Definition acceptable (x : Z * list Z) : Prop := message_ok x /\ zlen (snd x) <= ssl_max_handshake_message_len ssl.

(** The first message is buffered: it is taken. *)
Lemma take_message i x ms datas bss rd' t body rest : receiving i (x :: ms) datas bss rd' -> acceptable x ->
  first_message (buffered (in_messages i)) = inr (t, body, rest) ->
  exists m m', tls_get_message (in_messages i) = (Some m, m') /\ (msg_type m, msg_body m) = x /\
    exists m2, tls_next_message ssl m' = Some m2 /\ receiving (with_messages i m2) ms datas bss rd'.
Proof.
  intros (Hs & Hm & E & Hz & Hsp & Hc) [Hx _] Ef; unfold tls_get_message; rewrite parse_message_spec, Ef by exact Hm.
  set (m1 := if negb (has_message (in_messages i)) then _ else in_messages i); eexists _, _; split; [reflexivity|].
  assert (buffered m1 = buffered (in_messages i) /\ messages_wf m1) as [E1 Hm1] by (unfold m1; case_if; split; auto).
  destruct (first_message_inr _ _ _ _ (proj2 Hm) Ef) as (Eb & Hok & _); cbn [map concat] in E, Hz; rewrite Eb, <- app_assoc in E.
  pose proof (first_message_wire x (concat (map wire_message ms)) Hx) as F; rewrite <- E, first_message_wire in F by exact Hok; injection F as Ex Er.
  split; [exact Ex|]; rewrite <- E1 in Ef; destruct (next_message_spec ssl m1 t body rest Hm1 Ef) as (m2 & -> & Eb2 & Hm2); exists m2; split; [reflexivity|].
  rewrite zlen_app in Hz; pose proof (zlen_nonneg (wire_message x)); unfold receiving; cbn [with_messages in_read in_messages in_buffer]; rewrite Eb2; repeat (split; [first [assumption|lia]|]); exact Hc.
Qed.

(** It is not: a record is read. *)
Lemma take_record i x ms datas bss rd' n : receiving i (x :: ms) datas bss rd' -> Forall acceptable (x :: ms) -> ssl_max_handshake_message_len ssl < 2 ^ 63 ->
  first_message (buffered (in_messages i)) = inl n ->
  exists data bs datas' bss' i', datas = data :: datas' /\ bss = bs :: bss' /\ wait_record 3 i = Some (1, None, i') /\ receiving i' (x :: ms) datas' bss' rd'.
Proof.
  intros (Hs & Hm & E & Hz & Hsp & Hc) Hok Hmax Ef.
  assert (Forall message_ok (x :: ms) /\ Forall (fun x => zlen (snd x) <= ssl_max_handshake_message_len ssl) (x :: ms)) as [Hok1 Hok2] by
    (split; (eapply Forall_impl; [exact Hok|intros y [? ?]; assumption])).
  remember (in_read i) as rd0 eqn:Erd; destruct Hs as [rd|rd data bs rd1 datas bss rd' Hd Hl Hr Hs].
  { rewrite app_nil_r in E; rewrite E in Ef; cbn [map concat] in Ef; rewrite first_message_wire in Ef by (apply (Forall_inv Hok1)); discriminate. }
  destruct (record_stream_bytes _ _ _ _ Hs) as [Hbd _]; cbn [concat] in *.
  assert (accepts ssl (in_messages i) SSL3_RT_HANDSHAKE) as Hacc.
  { split; [|auto]; apply (stream_accepted ssl (in_messages i) (data ++ concat datas) (x :: ms)); eauto; [now apply bytes_app|rewrite E; now apply messages_of_wire]. }
  rewrite <- E, !zlen_app in Hz; pose proof (zlen_nonneg (concat datas)).
  destruct (read_message_spec i (in_messages i) rd rd1 data bs (concat bss) Hr Hacc Hm Hd ltac:(lia)) as (i' & Ei & Hm' & Eb & Er & Esp & Hc').
  { split; [reflexivity|]; split; [now symmetry|]; rewrite Hsp; split; [reflexivity|]; rewrite zdrop_0; exact Hc. }
  exists data, bs, datas, bss, i'; split; [reflexivity|]; split; [reflexivity|]; split; [exact Ei|]; unfold receiving; rewrite Er, Eb, <- app_assoc, <- E, !zlen_app.
  repeat (split; [first [assumption|reflexivity|lia]|]); exact Hc'.
Qed.

Lemma receive_spec fuel : ssl_max_handshake_message_len ssl < 2 ^ 63 -> forall ms datas bss i rd', receiving i ms datas bss rd' -> Forall acceptable ms ->
  (length ms + length datas <= fuel)%nat ->
  exists i', receive_messages sizeof_buf new_buf header_len p transcript ssl fuel (length ms) i = Some (ms, i') /\ in_read i' = rd' /\
    buffered (in_messages i') = [] /\ span (in_buffer i') = [] /\ channel_has i' [].
Proof.
  intros Hmax; induction fuel as [|fuel IH]; intros ms datas bss i rd' Hi Hok Hf; (destruct ms as [|x ms]; [try clear IH|]); cbn [receive_messages length] in *; try lia.
  1, 2: destruct Hi as (Hs & _ & E & _ & Hsp & Hc); remember (in_read i) as rd0 eqn:Erd; apply app_eq_nil in E as [E Ed]; pose proof (proj2 (record_stream_bytes _ _ _ _ Hs)) as Hl; rewrite Ed in Hl;
    destruct Hs as [rd|rd data bs rd1 datas bss rd' Hd0 Hl0 Hr0 Hs0]; [|cbn in Hl; lia]; try destruct fuel; exists i; auto 6.
  destruct (first_message (buffered (in_messages i))) as [n|[[t body] rest]] eqn:Ef.
  - pose proof Hi as (_ & Hm & _); assert (tls_get_message (in_messages i) = (None, in_messages i)) as -> by (unfold tls_get_message; now rewrite parse_message_spec, Ef by exact Hm).
    destruct (take_record i x ms datas bss rd' n Hi Hok Hmax Ef) as (data & bs & datas' & bss' & i' & -> & -> & Ei & Hi').
    assert (with_messages i (in_messages i) = i) as -> by (now destruct i); rewrite Ei; cbn [length] in Hf.
    exact (IH (x :: ms) datas' bss' i' rd' Hi' Hok ltac:(cbn [length]; lia)).
  - apply Forall_cons_1 in Hok as [Hx Hok]; destruct (take_message i x ms datas bss rd' t body rest Hi Hx Ef) as (m & m' & -> & <- & m2 & -> & Hi').
    cbn [mbind option_bind]; destruct (IH ms datas bss _ rd' Hi' Hok ltac:(lia)) as (i' & -> & H); exists i'; split; [reflexivity|exact H].
Qed.
End Received.

(** * From one end to the other *)

Section Delivery.
  Context {HA : Allocator} {HR : RandomSource} {S : Type} {A : EVP_AEAD S} {tag : Z} {paired : S -> S -> Prop} {L : AeadLaws A tag paired}.
  Context {C : Type} {CS : ByteStream C} {CP : PromptStream C}.

(** A reader that is in step takes the records that were sealed. *)
Lemma sealed_stream tmp ssl wr datas bss wr' : sealed_records tmp ssl wr datas bss wr' -> forall rd : read_state S,
  in_sync (A := A) (tag := tag) (paired := paired) wr rd -> idle rd -> splitting_ok ssl wr ->
  exists rd', record_stream rd datas bss rd' /\ in_sync (A := A) (tag := tag) (paired := paired) wr' rd' /\ idle rd'.
Proof.
  induction 1 as [wr|wr data bs wr1 datas bss wr' (Hd & Hl & out & q & E) _ IH]; intros rd Hs Hi Hsp; [exists rd; split; [constructor|auto]|].
  destruct (seal_record_read ssl wr rd tmp _ out q data bs wr1 Hs Hi Hsp (or_introl eq_refl) Hd Hl E) as (Hk & rd1 & Hs1 & Hi1 & _ & Hone & _).
  destruct (IH rd1 Hs1 Hi1 (proj2 (splitting_kept ssl wr wr1 Hk) Hsp)) as (rd' & Hst & Hs' & Hi').
  exists rd'; split; [|auto]; econstructor; [exact Hd|lia|exact (Hone eq_refl)|exact Hst].
Qed.

(** C21. The handshake messages that one end adds to a flight and flushes are the ones
    that the other end receives: however the messages share records, whatever
    the cipher, and however the transport cuts the bytes, the reader gets each
    of them once, in order, in at most one step for each message and one for each
    byte of the messages. At the end the two record layers are in step, nothing is
    left in the channel or in the buffers of the reader. Allocations succeed and
    the messages are within the size limit of the reader. *)
Theorem tls_handshake_delivered sizeof_buf place tmp_prefix new_buf header_len p flush max_send_fragment transcript
    (writer reader : connection) (wr : write_state S) (ps : list Z) (ms : list (Z * list Z)) (c : C) wb w1 c1 wb1 w2 (i : tls_in C S) fuel :
  in_sync (A := A) (tag := tag) (paired := paired) wr (in_read i) -> idle (in_read i) -> splitting_ok writer wr -> 1 <= max_send_fragment <= 16384 ->
  Forall (acceptable reader) ms -> ssl_max_handshake_message_len reader < 2 ^ 63 -> zlen (concat (map wire_message ms)) < 2 ^ 63 -> length ps = length ms ->
  add_messages sizeof_buf place tmp_prefix writer max_send_fragment (combine ps (map wire_message ms)) (new_sender wr) = Some (true, w1) ->
  stream_ok c -> Bio.contents c = [] -> buffer_ok wb -> span wb = [] ->
  tls_flush_flight sizeof_buf place tmp_prefix writer ssl_shutdown_none flush (Some c) wb w1 = Some (1, Some c1, wb1, w2) ->
  (forall n, malloc_ok n = true) -> in_channel i = Some c1 -> buffer_ok (in_buffer i) -> span (in_buffer i) = [] ->
  messages_wf (in_messages i) -> buffered (in_messages i) = [] -> (length ms + length (concat (map wire_message ms)) <= fuel)%nat ->
  exists i' c', receive_messages sizeof_buf new_buf header_len p transcript reader fuel (length ms) i = Some (ms, i') /\
    in_sync (A := A) (tag := tag) (paired := paired) (o_write w2) (in_read i') /\ idle (in_read i') /\
    in_channel i' = Some c' /\ Bio.contents c' = [] /\ buffered (in_messages i') = [] /\ span (in_buffer i') = [].
Proof.
  intros Hs Hi Hsp Hmax Hms H63 Hz Hps Eadd Hc Ec Hwb Ewb Eflush Hmem Eci Hbi Esi Hmi Ebi Hfuel.
  assert (concat (map snd (combine ps (map wire_message ms))) = concat (map wire_message ms)) as Esnd by
    (f_equal; clear -Hps; revert ps Hps; induction ms; intros [|? ?]; cbn; intros; try discriminate; f_equal; auto).
  assert (bytes (concat (map wire_message ms))) as Hb by (apply messages_bytes; eapply Forall_impl; [exact Hms|now intros ? [? _]]).
  destruct (add_messages_spec (A := A) (tag := tag) (paired := paired) sizeof_buf place tmp_prefix writer wr max_send_fragment (combine ps (map wire_message ms)) Hmax [] (new_sender wr))
    as (ok & w & E & Hw); [cbn [app]; now rewrite Esnd|apply new_sender_ok; [split; eauto|lia]|].
  rewrite Eadd in E; injection E as <- <-; specialize (Hw eq_refl); cbn [app] in Hw; rewrite Esnd in Hw.
  destruct (flush_flight_spec sizeof_buf place tmp_prefix writer wr max_send_fragment _ w1 flush c wb ltac:(lia) Hb (proj1 Hw) Hc Hwb Ewb _ _ _ Eflush)
    as (c2 & datas & bss & [= <-] & Hc1 & Hsealed & Ed & Ec1); rewrite Ec in Ec1.
  destruct (sealed_stream _ _ _ _ _ _ Hsealed (in_read i) Hs Hi Hsp) as (rd' & Hst & Hs' & Hi').
  pose proof (proj2 (record_stream_bytes _ _ _ _ Hst)) as Hn; rewrite Ed in Hn.
  destruct (receive_spec sizeof_buf new_buf header_len p transcript reader Hmem fuel H63 ms datas bss i rd') as (i' & Er & Erd & Eb & Esp & _ & c' & Ech & _ & Ec'); [|exact Hms|lia|].
  { split; [exact Hst|]; split; [exact Hmi|]; rewrite Ebi; cbn [app]; split; [exact Ed|]; split; [exact Hz|]; split; [exact Esi|]; split; [exact Hbi|]; exists c1; auto. }
  exists i', c'; rewrite Erd; auto 8.
Qed.
End Delivery.

(** * A flight of two messages over a memory BIO *)

Section Sample.
  Local Existing Instances allocator_total sample_random.

(** The block of a buffer, by its capacity. *)
Definition sample_place (b : BUF_MEM) : Z := 65536 * bm_max b.
Definition sample_messages : list (Z * list Z) := [(1, [3; 3; 7]); (20, [9])].
Definition sample_empty : SSLBuffer := {| buf_ := buf_null; offset_ := 0; size_ := 0; cap_ := 0; inline_buf_ := zrep 5 0 |}.
Definition sample_bio : MemBIO :=
  {| Bio.init := true; Bio.shutdown := 1; Bio.flags := 0; Bio.retry_reason := 0; Bio.num := -1; Bio.num_read := 0; Bio.num_write := 0;
     Bio.ptr := Some {| mem := BUF_MEM_new; behind := [] |} |}.
Abbreviation sample_added := (add_messages 24 sample_place 8192 sample_ssl 5 (combine [0; 128] (map wire_message sample_messages)) (new_sender sample_writer)).
Definition sample_flight : tls_out Z := match sample_added with Some (_, w) => w | None => new_sender sample_writer end.
Abbreviation sample_flush := (tls_flush_flight 24 sample_place 8192 sample_ssl ssl_shutdown_none 1 (Some sample_bio) sample_empty sample_flight).
Definition sample_sent : MemBIO := match sample_flush with Some (_, Some c, _, _) => c | _ => sample_bio end.
Definition sample_in : tls_in MemBIO Z :=
  {| in_v2_hello_done := false; in_messages := no_messages; in_read := sample_reader; in_channel := Some sample_sent; in_buffer := sample_empty |}.

Lemma added_ok (r : option (bool * tls_out Z)) d : match r with Some (b, _) => b | None => false end = true ->
  r = Some (true, match r with Some (_, w) => w | None => d end).
Proof. now destruct r as [[[] w]|]. Qed.

Lemma flushed_ok (r : option (Z * option MemBIO * SSLBuffer * tls_out Z)) d e f : match r with Some (n, Some _, _, _) => n =? 1 | _ => false end = true ->
  r = Some (1, Some (match r with Some (_, Some c, _, _) => c | _ => d end), match r with Some (_, _, b, _) => b | _ => e end, match r with Some (_, _, _, w) => w | _ => f end).
Proof. destruct r as [[[[n [c|]] b] w]|]; [|discriminate|discriminate]; now intros ->%Z.eqb_eq. Qed.

Lemma tls_handshake_delivered_witness :
  exists i' c', receive_messages 24 4096 5 16384 true sample_ssl 16 2 sample_in = Some (sample_messages, i') /\
    idle (in_read i') /\ in_channel i' = Some c' /\ Bio.contents c' = [] /\ buffered (in_messages i') = [] /\ span (in_buffer i') = [].
Proof.
  destruct sample_in_sync as [n Hs].
  destruct (tls_handshake_delivered (A := toy_table n) (tag := 16) (paired := eq) 24 sample_place 8192 4096 5 16384 1 5 true sample_ssl sample_ssl sample_writer
    [0; 128] sample_messages sample_bio sample_empty sample_flight sample_sent (match sample_flush with Some (_, _, b, _) => b | _ => sample_empty end)
    (match sample_flush with Some (_, _, _, w) => w | _ => sample_flight end) sample_in 16) as (i' & c' & Hr & _ & H).
  - exact Hs.
  - split; reflexivity.
  - intros H; vm_compute in H; discriminate.
  - lia.
  - repeat apply List.Forall_cons; try apply List.Forall_nil; (split; [split; [cbn; unfold byte; lia|]; split; [cbn; each_literal|reflexivity]|vm_compute; discriminate]).
  - vm_compute; reflexivity.
  - vm_compute; reflexivity.
  - reflexivity.
  - apply added_ok; vm_compute; reflexivity.
  - split; [reflexivity|]; split; [cbn; lia|]; eexists; split; [reflexivity|]; apply bm_new_ok.
  - reflexivity.
  - repeat split; vm_compute; congruence.
  - reflexivity.
  - apply flushed_ok; vm_compute; reflexivity.
  - reflexivity.
  - reflexivity.
  - repeat split; vm_compute; congruence.
  - reflexivity.
  - split; [exact I|constructor].
  - reflexivity.
  - vm_compute; lia.
  - exists i', c'; split; [exact Hr|exact H].
Defined.
End Sample.
