(* ===== verification/Transcript.v ===== *)
(** The transcript of a handshake (ssl/ssl_transcript.cc): the messages so far,
    as they are while the digest is not known, as a running hash, or both.

    An outer [None] is a NULL dereference. [sizeof_buf] is sizeof(BUF_MEM). *)

From S2P Require Import Prelude Mem Cbs BufMem Words Md32 Sha256 Sha512 Sha1 Md5 Digest Hmac Kdf TlsKdf.
From S2P Require Import Aead SslVersions SslCipher.

Definition SSL3_MT_MESSAGE_HASH : Z := 254.

(** The fields of an [SSL_SESSION] that derive keys; [secret] is the span of
    [secret_length] bytes. *)
Record SSL_SESSION : Type := {
  ssl_version : Z;
  session_cipher : SSL_CIPHER;
  session_secret : list Z
}.

Definition ssl_session_protocol_version (session : SSL_SESSION) : Z :=
  default 0 (ssl_protocol_version_from_wire (ssl_version session)).

Definition ssl_session_get_digest (session : SSL_SESSION) : option EVP_MD :=
  ssl_get_handshake_digest (ssl_session_protocol_version session) (session_cipher session).

Section Transcript.
  Context {HA : Allocator}.
  Variable sizeof_buf : Z.

(** [out] before the call and after it. *)
Definition tls1_prf (md : EVP_MD) (out secret label seed1 seed2 : list Z) : option (bool * list Z) :=
  CRYPTO_tls1_prf md out secret label seed1 seed2.

Record SSLTranscript : Type := {
  buffer_ : option BUF_MEM;
  hash_ : EVP_MD_CTX
}.

Definition transcript_new : SSLTranscript := {| buffer_ := None; hash_ := EVP_MD_CTX_init |}.

(** [Init] *)
Definition transcript_Init (t : SSLTranscript) : bool * SSLTranscript :=
  if malloc_ok sizeof_buf then (true, {| buffer_ := Some BUF_MEM_new; hash_ := EVP_MD_CTX_reset (hash_ t) |})
  else (false, {| buffer_ := None; hash_ := hash_ t |}).

(** [Digest] *)
Definition transcript_digest (t : SSLTranscript) : option EVP_MD := digest (hash_ t).

Definition with_hash (t : SSLTranscript) (ctx : EVP_MD_CTX) : SSLTranscript := {| buffer_ := buffer_ t; hash_ := ctx |}.

(** The two calls of [EVP_DigestInit_ex] and [EVP_DigestUpdate] with the data of
    the buffer. *)
Definition hash_buffer (ctx : EVP_MD_CTX) (md : EVP_MD) (buffer : option BUF_MEM) : option (bool * EVP_MD_CTX) :=
  r ← EVP_DigestInit_ex ctx md;
  match r with
  | (false, ctx) => Some (false, ctx)
  | (true, ctx) => b ← buffer; ctx ← EVP_DigestUpdate ctx (bm_contents b); Some (true, ctx)
  end.

(** [InitHash] *)
Definition InitHash (version : Z) (cipher : SSL_CIPHER) (t : SSLTranscript) : option (bool * SSLTranscript) :=
  let md := ssl_get_handshake_digest version cipher in
  if same_md (transcript_digest t) md then Some (true, t)
  else md ← md; r ← hash_buffer (hash_ t) md (buffer_ t); let '(ok, ctx) := r in Some (ok, with_hash t ctx).

Definition FreeBuffer (t : SSLTranscript) : SSLTranscript := {| buffer_ := None; hash_ := hash_ t |}.

Definition DigestLen (t : SSLTranscript) : option Z := md ← transcript_digest t; Some (md_size md).

(** [Update] *)
Definition transcript_Update (in_ : list Z) (t : SSLTranscript) : option (bool * SSLTranscript) :=
  let '(ok, t) :=
    match buffer_ t with
    | None => (true, t)
    | Some b => let '(ok, b) := BUF_MEM_append b in_ in (ok, {| buffer_ := Some b; hash_ := hash_ t |})
    end in
  if negb ok then Some (false, t)
  else
    match transcript_digest t with
    | None => Some (true, t)
    | Some _ => ctx ← EVP_DigestUpdate (hash_ t) in_; Some (true, with_hash t ctx)
    end.

(** The hash, or an inner [None] for a failure. *)
Definition GetHash (t : SSLTranscript) : option (option (list Z)) :=
  match EVP_MD_CTX_copy_ex EVP_MD_CTX_init (hash_ t) with
  | (false, _) => Some None
  | (true, ctx) => r ← EVP_DigestFinal_ex ctx; let '(out, len, _) := r in Some (Some (ztake len out))
  end.

Definition UpdateForHelloRetryRequest (t : SSLTranscript) : option (bool * SSLTranscript) :=
  let t := match buffer_ t with
           | None => t
           | Some b => {| buffer_ := Some {| bm_length := 0; bm_data := bm_data b; bm_max := bm_max b |}; hash_ := hash_ t |}
           end in
  r ← GetHash t;
  match r with
  | None => Some (false, t)
  | Some old_hash =>
      let header := [SSL3_MT_MESSAGE_HASH; 0; 0; u8 (zlen old_hash)] in
      md ← transcript_digest t;
      r ← EVP_DigestInit_ex (hash_ t) md;
      match r with
      | (false, ctx) => Some (false, with_hash t ctx)
      | (true, ctx) =>
          r ← transcript_Update header (with_hash t ctx);
          match r with (false, t) => Some (false, t) | (true, t) => transcript_Update old_hash t end
      end
  end.

Definition CopyToHashContext (ctx : EVP_MD_CTX) (md : EVP_MD) (t : SSLTranscript) : option (bool * EVP_MD_CTX) :=
  if same_md (transcript_digest t) (Some md) then Some (EVP_MD_CTX_copy_ex ctx (hash_ t))
  else match buffer_ t with Some _ => hash_buffer ctx md (buffer_ t) | None => Some (false, ctx) end.

(** "client finished" and "server finished" *)
Definition kClientLabel : list Z := [99; 108; 105; 101; 110; 116; 32; 102; 105; 110; 105; 115; 104; 101; 100].
Definition kServerLabel : list Z := [115; 101; 114; 118; 101; 114; 32; 102; 105; 110; 105; 115; 104; 101; 100].
Definition kFinishedLen : Z := 12.

Definition GetFinishedMAC (session : SSL_SESSION) (from_server : bool) (t : SSLTranscript) : option (option (list Z)) :=
  r ← GetHash t;
  match r with
  | None => Some None
  | Some h =>
      md ← transcript_digest t;
      r ← tls1_prf md (zrep kFinishedLen uninit_byte) (session_secret session) (if from_server then kServerLabel else kClientLabel) h [];
      match r with (false, _) => Some None | (true, out) => Some (Some out) end
  end.
End Transcript.

(** * The digests of a handshake *)

Inductive handshake_md : Type := HS_sha256 | HS_sha384 | HS_md5_sha1.

Definition md_of (m : handshake_md) : EVP_MD :=
  match m with HS_sha256 => EVP_sha256 | HS_sha384 => EVP_sha384 | HS_md5_sha1 => EVP_md5_sha1 end.
Definition hash_of (m : handshake_md) : list Z -> list Z :=
  match m with HS_sha256 => sha256_spec sha256_iv 32 | HS_sha384 => sha512_spec sha384_iv 48 | HS_md5_sha1 => md5_sha1_spec end.

#[export] Instance handshake_digest (m : handshake_md) : Digest (md_of m) (hash_of m) :=
  match m with HS_sha256 => sha256_digest | HS_sha384 => sha384_digest | HS_md5_sha1 => md5_sha1_digest end.

#[export] Instance handshake_md_dec : EqDecision handshake_md.
Proof. solve_decision. Defined.

Lemma same_handshake_md m n : same_md (Some (md_of m)) (Some (md_of n)) = bool_decide (m = n).
Proof. now destruct m, n. Qed.

(** The digest of a suite: every suite of the table has one. *)
Definition handshake_md_of (version : Z) (c : SSL_CIPHER) : handshake_md :=
  if algorithm_prf c =? SSL_HANDSHAKE_MAC_DEFAULT then if TLS1_2_VERSION <=? version then HS_sha256 else HS_md5_sha1
  else if algorithm_prf c =? SSL_HANDSHAKE_MAC_SHA256 then HS_sha256 else HS_sha384.

Lemma handshake_digest_of version c : In c kCiphers -> ssl_get_handshake_digest version c = Some (md_of (handshake_md_of version c)).
Proof.
  intros Hc; pose proof (each_cipher (fun c => (algorithm_prf c =? SSL_HANDSHAKE_MAC_DEFAULT) || (algorithm_prf c =? SSL_HANDSHAKE_MAC_SHA256) ||
    (algorithm_prf c =? SSL_HANDSHAKE_MAC_SHA384)) ltac:(vm_compute; reflexivity) c Hc) as H; cbv beta in H.
  unfold ssl_get_handshake_digest, handshake_md_of; destruct (algorithm_prf c =? _); [now destruct (_ <=? _)|].
  destruct (algorithm_prf c =? _); [reflexivity|]; cbn [orb] in H; now rewrite H.
Qed.

(** The pseudorandom function of a handshake. *)
Definition prf_of (m : handshake_md) (secret seed : list Z) (len : Z) : list Z :=
  match m with
  | HS_md5_sha1 => prf_tls10_spec secret seed len
  | _ => p_hash_spec (hmac_spec (hash_of m) (block_size (md_of m)) secret) (md_size (md_of m)) seed len
  end.

Lemma tls1_prf_value {HA : Allocator} m out secret label seed1 seed2 : Forall (fun x => bytes x /\ zlen x < 2 ^ 63) [secret; label; seed1; seed2] ->
  exists ok o, tls1_prf (md_of m) out secret label seed1 seed2 = Some (ok, o) /\
    (ok = true -> o = prf_of m secret (label ++ seed1 ++ seed2) (zlen out)) /\ ((forall n, malloc_ok n = true) -> ok = true).
Proof.
  intros Hc; destruct (tls1_prf_spec out secret label seed1 seed2 Hc) as (H1 & o & E & Eo); unfold tls1_prf; destruct m.
  1: rewrite (H1 _ _ (handshake_digest HS_sha256) eq_refl).
  2: rewrite (H1 _ _ (handshake_digest HS_sha384) eq_refl).
  1, 2: case_if; [eexists true, _; split; [reflexivity|]; auto|eexists false, _; split; [reflexivity|]; split; [discriminate|]; bool_facts; intros Hm; rewrite Hm in *; discriminate].
  eexists _, o; split; [exact E|]; split; [exact Eo|]; intros Hm; rewrite !Hm; apply orb_true_r.
Qed.

(** * What a transcript is *)

(** The messages so far, the digest once it is known, and whether the messages are
    kept. *)
Record script : Type := {
  s_md : option handshake_md;
  s_msg : list Z;
  s_kept : bool
}.

Inductive transcript_op : Type :=
  | TUpdate (in_ : list Z)
  | TInitHash (version : Z) (c : SSL_CIPHER)
  | TFreeBuffer
  | THelloRetryRequest.

(** The message that stands for the first ClientHello (RFC 8446, section 4.4.1). *)
Definition message_hash (h : list Z) : list Z := [SSL3_MT_MESSAGE_HASH; 0; 0; zlen h] ++ h.

(** [None]: the calls that the interface forbids. *)
Definition op_meaning (op : transcript_op) (s : script) : option script :=
  match op with
  | TUpdate x => Some {| s_md := s_md s; s_msg := s_msg s ++ x; s_kept := s_kept s |}
  | TInitHash version c =>
      let m := handshake_md_of version c in
      if bool_decide (s_md s = Some m) then Some s
      else if s_kept s then Some {| s_md := Some m; s_msg := s_msg s; s_kept := true |} else None
  | TFreeBuffer => match s_md s with None => None | Some _ => Some {| s_md := s_md s; s_msg := s_msg s; s_kept := false |} end
  | THelloRetryRequest => m ← s_md s; Some {| s_md := s_md s; s_msg := message_hash (hash_of m (s_msg s)); s_kept := s_kept s |}
  end.

Definition op_allowed (op : transcript_op) : Prop :=
  match op with TUpdate x => bytes x /\ zlen x < 2 ^ 63 | TInitHash _ c => In c kCiphers | _ => True end.

Fixpoint ops_meaning (ops : list transcript_op) (s : script) : option script :=
  match ops with [] => Some s | op :: ops => s ← op_meaning op s; ops_meaning ops s end.

Section Meaning.
  Context {HA : Allocator}.

Definition run_op (op : transcript_op) (t : SSLTranscript) : option (bool * SSLTranscript) :=
  match op with
  | TUpdate x => transcript_Update x t
  | TInitHash version c => InitHash version c t
  | TFreeBuffer => Some (true, FreeBuffer t)
  | THelloRetryRequest => UpdateForHelloRetryRequest t
  end.

(** The calls until one fails. *)
Fixpoint run_ops (ops : list transcript_op) (t : SSLTranscript) : option (bool * SSLTranscript) :=
  match ops with
  | [] => Some (true, t)
  | op :: ops => r ← run_op op t; match r with (false, t) => Some (false, t) | (true, t) => run_ops ops t end
  end.

(** The transcript has the meaning [s]. *)
Definition transcribes (t : SSLTranscript) (s : script) : Prop :=
  bytes (s_msg s) /\ (s_kept s = true \/ s_md s <> None) /\
  match s_md s with None => hash_ t = EVP_MD_CTX_init | Some m => ctx_holds (md := md_of m) (hash_ t) (s_msg s) end /\
  match buffer_ t with Some b => s_kept s = true /\ bm_ok b /\ bm_contents b = s_msg s | None => s_kept s = false end.

Lemma transcribes_digest t s : transcribes t s -> transcript_digest t = option_map md_of (s_md s).
Proof. intros (_ & _ & Hh & _); unfold transcript_digest; destruct (s_md s) as [m|]; [exact (proj1 Hh)|now rewrite Hh]. Qed.

Lemma handshake_md_size m msg : zlen (hash_of m msg) = md_size (md_of m) /\ bytes (hash_of m msg) /\ 0 < md_size (md_of m) < 65.
Proof. destruct (digest_output (Digest := handshake_digest m) msg); split; [assumption|]; split; [assumption|]; now destruct m. Qed.

(** The hash of the messages, unless memory runs out. *)
Lemma GetHash_spec t s m : transcribes t s -> s_md s = Some m ->
  GetHash t = Some (if malloc_ok (ctx_size (md_of m)) then Some (hash_of m (s_msg s)) else None).
Proof.
  intros (_ & _ & Hh & _) Em; rewrite Em in Hh; unfold GetHash; pose proof (proj1 Hh) as Ed.
  destruct (ctx_copy_holds EVP_MD_CTX_init (hash_ t) (s_msg s) Hh) as [(c & E & Hc)|(E & _ & ->)]; [|now rewrite E].
  assert (malloc_ok (ctx_size (md_of m)) = true) as -> by (unfold EVP_MD_CTX_copy_ex in E; rewrite Ed in E; cbn in E; destruct (malloc_ok _); [reflexivity|discriminate]).
  rewrite E; destruct (DigestFinal_holds c (s_msg s) Hc) as (c' & -> & _); cbn [mbind option_bind]; rewrite ztake_all; [reflexivity|].
  rewrite (proj1 (handshake_md_size m _)); lia.
Qed.

Lemma GetFinishedMAC_spec t s m session from_server : transcribes t s -> s_md s = Some m -> bytes (session_secret session) -> zlen (session_secret session) < 2 ^ 63 ->
  (forall n, malloc_ok n = true) ->
  GetFinishedMAC session from_server t =
    Some (Some (prf_of m (session_secret session) ((if from_server then kServerLabel else kClientLabel) ++ hash_of m (s_msg s)) kFinishedLen)).
Proof.
  intros Ht Em Hb Hl Hm; unfold GetFinishedMAC; rewrite (GetHash_spec t s m Ht Em), Hm; cbn [mbind option_bind].
  destruct Ht as (_ & _ & Hh & _); rewrite Em in Hh; unfold transcript_digest; rewrite (proj1 Hh); cbn [mbind option_bind].
  destruct (handshake_md_size m (s_msg s)) as (Hz & Hs & Hlt).
  destruct (tls1_prf_value m (zrep kFinishedLen uninit_byte) (session_secret session) (if from_server then kServerLabel else kClientLabel) (hash_of m (s_msg s)) [])
    as (ok & o & -> & Ho & Hok).
  - apply List.Forall_cons; [auto|]; apply List.Forall_cons; [destruct from_server; split; [each_literal|reflexivity|each_literal|reflexivity]|].
    apply List.Forall_cons; [split; [exact Hs|lia]|]; apply List.Forall_cons; [split; [constructor|reflexivity]|constructor].
  - rewrite (Hok Hm) in *; cbn [mbind option_bind]; rewrite (Ho eq_refl), app_nil_r; reflexivity.
Qed.

Lemma Update_spec t s x : transcribes t s -> bytes x -> zlen x < 2 ^ 63 ->
  exists ok t', transcript_Update x t = Some (ok, t') /\ (ok = true -> transcribes t' {| s_md := s_md s; s_msg := s_msg s ++ x; s_kept := s_kept s |}) /\
    ((forall n, malloc_ok n = true) -> zlen (s_msg s ++ x) < 2 ^ 63 -> ok = true).
Proof.
  intros (Hb & Hk & Hh & Hbuf) Hx Hz; unfold transcript_Update; pose proof (zlen_nonneg (s_msg s)).
  set (r := match buffer_ t with None => _ | Some _ => _ end).
  assert (exists ok t1, r = (ok, t1) /\ hash_ t1 = hash_ t /\ (ok = true -> match buffer_ t1 with Some b => s_kept s = true /\ bm_ok b /\ bm_contents b = s_msg s ++ x | None => s_kept s = false end) /\
    ((forall n, malloc_ok n = true) -> zlen (s_msg s ++ x) < 2 ^ 63 -> ok = true)) as (ok & t1 & -> & Eh & Hb1 & Hok).
  { unfold r; destruct (buffer_ t) as [b|] eqn:Eb; [|exists true, t; rewrite Eb; auto].
    destruct Hbuf as (Hkept & Hbok & Ebc); pose proof (BUF_MEM_append_correct b x Hbok ltac:(pow2; lia)) as Ha; destruct (BUF_MEM_append b x) as [ok b'].
    destruct Ha as (H1 & H2 & _ & H3); exists ok, {| buffer_ := Some b'; hash_ := hash_ t |}; split; [reflexivity|]; split; [reflexivity|]; cbn [buffer_]; split.
    - intros Hok; rewrite (H2 Hok), Ebc; auto.
    - intros Hm Hl; apply H3; [|intros n _; apply Hm]; rewrite zlen_app in Hl; rewrite <- (zlen_bm_contents b Hbok), Ebc; exact Hl. }
  destruct ok; cbn [negb]; [|exists false, t1; split; [reflexivity|]; split; [discriminate|exact Hok]]; specialize (Hb1 eq_refl); unfold transcript_digest; rewrite Eh.
  assert (bytes (s_msg s ++ x)) as Hbx by now apply bytes_app.
  destruct (s_md s) as [m|] eqn:Em.
  - rewrite (proj1 Hh); destruct (DigestUpdate_holds (hash_ t) (s_msg s) x Hh Hx Hz) as (c & -> & Hc); cbn [mbind option_bind].
    exists true, (with_hash t1 c); split; [reflexivity|]; split; [|auto]; intros _; split; [exact Hbx|]; split; [right; discriminate|]; split; [exact Hc|exact Hb1].
  - rewrite Hh; cbn [digest EVP_MD_CTX_init]; exists true, t1; split; [reflexivity|]; split; [|auto]; intros _; split; [exact Hbx|]; split; [destruct Hk; [now left|easy]|].
    split; [cbn [s_md]; congruence|exact Hb1].
Qed.

Lemma hash_buffer_spec ctx m b : ctx_ready (md := md_of m) ctx -> bytes (bm_contents b) -> zlen (bm_contents b) < 2 ^ 63 ->
  exists ok ctx', hash_buffer ctx (md_of m) (Some b) = Some (ok, ctx') /\ (ok = true -> ctx_holds (md := md_of m) ctx' (bm_contents b)) /\
    (malloc_ok (ctx_size (md_of m)) = true -> ok = true).
Proof.
  intros Hr Hbytes Hz; unfold hash_buffer.
  destruct (DigestInit_holds (md := md_of m) ctx Hr) as [(c & -> & Hc)|(-> & _ & Em)]; cbn [mbind option_bind].
  - destruct (DigestUpdate_holds c [] (bm_contents b) Hc Hbytes Hz) as (c' & -> & Hc'); cbn [mbind option_bind]; exists true, c'; auto.
  - exists false, ctx; split; [reflexivity|]; split; [discriminate|congruence].
Qed.

Lemma InitHash_spec t s version c s' : transcribes t s -> zlen (s_msg s) < 2 ^ 63 -> In c kCiphers -> op_meaning (TInitHash version c) s = Some s' ->
  exists ok t', InitHash version c t = Some (ok, t') /\ (ok = true -> transcribes t' s') /\ ((forall n, malloc_ok n = true) -> ok = true).
Proof.
  intros Ht Hz Hc; pose proof (transcribes_digest t s Ht) as Ed; unfold InitHash, op_meaning; cbv zeta; rewrite (handshake_digest_of version c Hc), Ed.
  set (m := handshake_md_of version c); pose proof Ht as (Hb & Hk & Hh & Hbuf); destruct (bool_decide_reflect (s_md s = Some m)) as [E|E].
  { intros [= <-]; rewrite E; cbn [option_map]; rewrite same_handshake_md, bool_decide_true by reflexivity; exists true, t; auto. }
  destruct (s_kept s) eqn:Ek; [|discriminate]; intros [= <-].
  assert (same_md (option_map md_of (s_md s)) (Some (md_of m)) = false) as Es.
  { destruct (s_md s) as [n|]; [|reflexivity]; cbn [option_map]; rewrite same_handshake_md, bool_decide_false by congruence; reflexivity. }
  rewrite Es; cbn [mbind option_bind]; destruct (buffer_ t) as [b|] eqn:Eb; [|discriminate Hbuf]; destruct Hbuf as (_ & Hbok & Ebc).
  destruct (hash_buffer_spec (hash_ t) m b) as (ok & ctx & -> & H1 & H2); [intros X|now rewrite Ebc|now rewrite Ebc|].
  { unfold transcript_digest in Ed; rewrite Ed, Es in X; discriminate. }
  cbn [mbind option_bind]; exists ok, (with_hash t ctx); split; [reflexivity|]; split; [|auto]; intros Hok; specialize (H1 Hok); rewrite Ebc in H1.
  split; [exact Hb|]; split; [now left|]; split; [exact H1|]; cbn [with_hash buffer_]; rewrite Eb; auto.
Qed.

Lemma HelloRetryRequest_spec t s s' : transcribes t s -> op_meaning THelloRetryRequest s = Some s' ->
  exists ok t', UpdateForHelloRetryRequest t = Some (ok, t') /\ (ok = true -> transcribes t' s') /\ ((forall n, malloc_ok n = true) -> ok = true).
Proof.
  intros Ht; unfold op_meaning; destruct (s_md s) as [m|] eqn:Em; [|discriminate]; cbn [mbind option_bind]; intros [= <-].
  pose proof (GetHash_spec t s m Ht Em) as Eg; pose proof Ht as (Hb & Hk & Hh & Hbuf); rewrite Em in Hh; unfold UpdateForHelloRetryRequest.
  set (t1 := match buffer_ t with None => t | Some _ => _ end); assert (hash_ t1 = hash_ t) as Eh by (unfold t1; now destruct (buffer_ t)).
  assert (GetHash t1 = GetHash t) as -> by (unfold GetHash; now rewrite Eh); rewrite Eg; cbn [mbind option_bind].
  destruct (malloc_ok (ctx_size (md_of m))) eqn:Emem; [|exists false, t1; split; [reflexivity|]; split; [discriminate|congruence]].
  set (h := hash_of m (s_msg s)); destruct (handshake_md_size m (s_msg s)) as (Lh & Hhb & Hsz); fold h in Lh, Hhb.
  unfold transcript_digest; rewrite Eh, (proj1 Hh); cbn [mbind option_bind].
  destruct (DigestInit_holds (hash_ t) (ctx_holds_ready _ _ Hh)) as [(c & -> & Hc)|(E & _)]; [|exfalso; unfold EVP_DigestInit_ex in E; rewrite (proj1 Hh), same_md_refl in E; cbn in E; now destruct (md_block _)].
  cbn [mbind option_bind]; rewrite u8_id by (unfold byte; lia); set (header := [_; 0; 0; zlen h]).
  assert (bytes header) as Hhd by (unfold header; apply bytes_cons; split; [unfold byte, SSL3_MT_MESSAGE_HASH; lia|]; repeat constructor; unfold byte; lia).
  assert (transcribes (with_hash t1 c) {| s_md := Some m; s_msg := []; s_kept := s_kept s |}) as H0.
  { split; [constructor|]; split; [right; discriminate|]; split; [exact Hc|]; cbn [with_hash buffer_ s_kept s_msg]; unfold t1.
    destruct (buffer_ t) as [b|] eqn:Eb; [|now rewrite Eb]; destruct Hbuf as (E & ((? & ?) & ? & ?) & _); cbn [buffer_]; split; [exact E|]; unfold bm_ok, bm_contents; cbn [bm_length bm_data bm_max]; split; [lia|reflexivity]. }
  assert (zlen header = 4) as Lhd by reflexivity.
  destruct (Update_spec _ _ header H0 Hhd ltac:(lia)) as (ok1 & t2 & -> & H1 & M1); cbn [mbind option_bind s_md s_msg s_kept app] in *.
  destruct ok1; [|exists false, t2; split; [reflexivity|]; split; [discriminate|intros Hm; apply (M1 Hm); lia]].
  destruct (Update_spec _ _ h (H1 eq_refl) Hhb ltac:(lia)) as (ok2 & t3 & -> & H2 & M2); cbn [s_md s_msg s_kept] in *.
  exists ok2, t3; split; [reflexivity|]; split; [exact H2|]; intros Hm; apply (M2 Hm); rewrite zlen_app; lia.
Qed.

(** A hash context with the transcript so far. *)
Lemma CopyToHashContext_spec t s m : transcribes t s -> zlen (s_msg s) < 2 ^ 63 -> s_md s = Some m \/ s_kept s = true ->
  exists ok ctx, CopyToHashContext EVP_MD_CTX_init (md_of m) t = Some (ok, ctx) /\ (ok = true -> ctx_holds (md := md_of m) ctx (s_msg s)) /\
    (malloc_ok (ctx_size (md_of m)) = true -> ok = true).
Proof.
  intros Ht Hz Hm; pose proof (transcribes_digest t s Ht) as Ed; pose proof Ht as (Hb & Hk & Hh & Hbuf); unfold CopyToHashContext; rewrite Ed.
  destruct (decide (s_md s = Some m)) as [E|E].
  - rewrite E in Hh |- *; cbn [option_map]; rewrite same_md_refl; destruct (ctx_copy_holds EVP_MD_CTX_init (hash_ t) (s_msg s) Hh) as [(c & -> & Hc)|(-> & _ & Em)];
      [exists true, c; auto|eexists false, _; split; [reflexivity|]; split; [discriminate|congruence]].
  - destruct Hm as [|Hm]; [easy|]; assert (same_md (option_map md_of (s_md s)) (Some (md_of m)) = false) as ->.
    { destruct (s_md s) as [n|]; [|reflexivity]; cbn [option_map]; rewrite same_handshake_md, bool_decide_false by congruence; reflexivity. }
    destruct (buffer_ t) as [b|]; [|congruence]; destruct Hbuf as (_ & Hbok & Ebc); rewrite <- Ebc; apply hash_buffer_spec; [apply ctx_init_ready|now rewrite Ebc|now rewrite Ebc].
Qed.

Definition op_bytes (op : transcript_op) : Z := match op with TUpdate x => zlen x | _ => 0 end.
Definition ops_bytes (ops : list transcript_op) : Z := fold_right (fun op n => op_bytes op + n) 0 ops.

Lemma ops_bytes_nonneg ops : 0 <= ops_bytes ops.
Proof. induction ops as [|op ops IH]; cbn; [lia|]; fold (ops_bytes ops); destruct op; cbn [op_bytes]; try lia; pose proof (zlen_nonneg in_); lia. Qed.

(** The message stays within what was added and one hash. *)
Lemma op_meaning_length op s s' : op_meaning op s = Some s' -> zlen (s_msg s') <= Z.max 68 (zlen (s_msg s) + op_bytes op).
Proof.
  pose proof (zlen_nonneg (s_msg s)); destruct op as [x|version c| |]; cbn [op_meaning op_bytes].
  - intros [= <-]; cbn [s_msg]; rewrite zlen_app; lia.
  - case_bool_decide; [intros [= <-]; lia|]; destruct (s_kept s); [|discriminate]; intros [= <-]; cbn [s_msg]; lia.
  - destruct (s_md s); [|discriminate]; intros [= <-]; cbn [s_msg]; lia.
  - destruct (s_md s) as [m|]; [|discriminate]; intros [= <-]; cbn [s_msg]; unfold message_hash; rewrite zlen_app.
    destruct (handshake_md_size m (s_msg s)) as (-> & _ & ?); change (zlen [_; 0; 0; _]) with 4; lia.
Qed.

Lemma ops_meaning_length ops : forall s s', ops_meaning ops s = Some s' -> zlen (s_msg s') <= Z.max 68 (zlen (s_msg s)) + ops_bytes ops.
Proof.
  induction ops as [|op ops IH]; intros s s'; cbn [ops_meaning ops_bytes fold_right]; [intros [= <-]; lia|]; fold (ops_bytes ops).
  destruct (op_meaning op s) as [s1|] eqn:E; [|discriminate]; intros E'; pose proof (op_meaning_length op s s1 E); pose proof (IH s1 s' E').
  pose proof (ops_bytes_nonneg [op]) as Hop0; cbn in Hop0; lia.
Qed.

Lemma run_op_spec op t s s' : transcribes t s -> zlen (s_msg s) < 2 ^ 63 -> op_allowed op -> op_meaning op s = Some s' ->
  exists ok t', run_op op t = Some (ok, t') /\ (ok = true -> transcribes t' s') /\ ((forall n, malloc_ok n = true) -> zlen (s_msg s') < 2 ^ 63 -> ok = true).
Proof.
  intros Ht Hz Hop E; destruct op as [x|version c| |]; cbn [run_op].
  - injection E as <-; destruct Hop as [Hb Hx]; destruct (Update_spec t s x Ht Hb Hx) as (ok & t' & E' & H1 & H2); exists ok, t'; auto.
  - destruct (InitHash_spec t s version c s' Ht Hz Hop E) as (ok & t' & E' & H1 & H2); exists ok, t'; auto.
  - exists true, (FreeBuffer t); split; [reflexivity|]; split; [|auto]; intros _; cbn [op_meaning] in E; destruct Ht as (Hb & Hk & Hh & _).
    destruct (s_md s) as [m|] eqn:Em; [|discriminate]; injection E as <-; split; [exact Hb|]; split; [right; cbn; congruence|]; split; [cbn [s_md s_msg]; exact Hh|reflexivity].
  - destruct (HelloRetryRequest_spec t s s' Ht E) as (ok & t' & E' & H1 & H2); exists ok, t'; auto.
Qed.

Lemma run_ops_spec ops : forall t s s', transcribes t s -> Forall op_allowed ops -> ops_meaning ops s = Some s' -> Z.max 68 (zlen (s_msg s)) + ops_bytes ops < 2 ^ 63 ->
  exists ok t', run_ops ops t = Some (ok, t') /\ (ok = true -> transcribes t' s') /\ ((forall n, malloc_ok n = true) -> ok = true).
Proof.
  induction ops as [|op ops IH]; intros t s s' Ht Hops E Hz; cbn [run_ops ops_meaning ops_bytes fold_right] in *; [injection E as <-; exists true, t; auto|].
  fold (ops_bytes ops) in Hz; apply Forall_cons_1 in Hops as [Hop Hops]; destruct (op_meaning op s) as [s1|] eqn:E1; [|discriminate]; cbn [mbind option_bind] in E.
  pose proof (op_meaning_length op s s1 E1); pose proof (ops_bytes_nonneg ops); pose proof (ops_bytes_nonneg [op]) as Hop0; cbn in Hop0.
  destruct (run_op_spec op t s s1 Ht ltac:(lia) Hop E1) as (ok & t1 & -> & H1 & M1); cbn [mbind option_bind].
  destruct ok; [|exists false, t1; split; [reflexivity|]; split; [discriminate|intros Hm; apply (M1 Hm); lia]].
  apply (IH t1 s1 s'); auto; lia.
Qed.

(** C24. The transcript is the hash of the messages. After any calls that the
    interface allows (messages before and after the digest is chosen, a change
    of the digest while the messages are kept, their release, the replacement
    of the first ClientHello by its hash), the hash is that of the messages so
    far under the digest that was chosen last, and a copy of the transcript can
    be taken under any digest while the messages are kept. A call fails only
    when memory runs out; while it lasts, the MAC of a Finished message is that of
    RFC 5246 over this hash. *)
Theorem transcript_refines (sizeof_buf : Z) (t0 t : SSLTranscript) (ops : list transcript_op) (s : script) (m : handshake_md) :
  transcript_Init sizeof_buf t0 = (true, t) -> Forall op_allowed ops -> 68 + ops_bytes ops < 2 ^ 63 ->
  ops_meaning ops {| s_md := None; s_msg := []; s_kept := true |} = Some s ->
  exists ok t', run_ops ops t = Some (ok, t') /\ ((forall n, malloc_ok n = true) -> ok = true) /\
    (ok = true -> s_md s = Some m ->
       GetHash t' = Some (if malloc_ok (ctx_size (md_of m)) then Some (hash_of m (s_msg s)) else None)) /\
    (ok = true -> s_md s = Some m \/ s_kept s = true -> malloc_ok (ctx_size (md_of m)) = true ->
       exists ctx r, CopyToHashContext EVP_MD_CTX_init (md_of m) t' = Some (true, ctx) /\ EVP_DigestFinal_ex ctx = Some (hash_of m (s_msg s), md_size (md_of m), r)) /\
    (forall session from_server, s_md s = Some m -> bytes (session_secret session) -> zlen (session_secret session) < 2 ^ 63 -> (forall n, malloc_ok n = true) ->
       GetFinishedMAC session from_server t' =
         Some (Some (prf_of m (session_secret session) ((if from_server then kServerLabel else kClientLabel) ++ hash_of m (s_msg s)) kFinishedLen))).
Proof.
  intros Hinit Hops Hz E; assert (transcribes t {| s_md := None; s_msg := []; s_kept := true |}) as Ht.
  { unfold transcript_Init in Hinit; destruct (malloc_ok sizeof_buf); [|discriminate]; injection Hinit as <-; split; [constructor|]; split; [now left|]; split; [reflexivity|].
    cbn [buffer_ s_kept s_msg]; auto using bm_new_ok. }
  destruct (run_ops_spec ops t _ s Ht Hops E) as (ok & t' & Er & H1 & M1); [cbn [s_msg]; change (zlen (@nil Z)) with 0; lia|].
  exists ok, t'; split; [exact Er|]; split; [exact M1|]; split; [intros Hok Hm; apply GetHash_spec; auto|].
  split; [|intros session from_server Hm Hb Hl Hmem; apply GetFinishedMAC_spec; auto]; intros Hok Hm Hmem; specialize (H1 Hok).
  assert (zlen (s_msg s) < 2 ^ 63) as Hl by (pose proof (ops_meaning_length ops _ s E) as X; cbn [s_msg] in X; change (zlen (@nil Z)) with 0 in X; pose proof (ops_bytes_nonneg ops); lia).
  destruct (CopyToHashContext_spec t' s m H1 Hl Hm) as (ok2 & ctx & -> & Hc & M2); rewrite (M2 Hmem) in *; destruct (DigestFinal_holds ctx (s_msg s) (Hc eq_refl)) as (r & Ef & _); eauto.
Qed.
End Meaning.

(** A handshake with a HelloRetryRequest: the first ClientHello, the choice of
    SHA-256, its hash, the retry and the second ClientHello. *)
Lemma transcript_refines_witness :
  let c := nth 7 kCiphers (cipher String.EmptyString String.EmptyString 0 0 0 0 0 0) in
  let ops := [TUpdate [1; 0; 0; 2; 7; 7]; TInitHash TLS1_3_VERSION c; THelloRetryRequest; TUpdate [2; 0; 0; 1; 9]; TFreeBuffer; TUpdate [1; 0; 0; 0]] in
  let msg := message_hash (hash_of HS_sha256 [1; 0; 0; 2; 7; 7]) ++ [2; 0; 0; 1; 9; 1; 0; 0; 0] in
  exists t', run_ops (HA := allocator_total) ops {| buffer_ := Some BUF_MEM_new; hash_ := EVP_MD_CTX_init |} = Some (true, t') /\
    GetHash (HA := allocator_total) t' = Some (Some (hash_of HS_sha256 msg)).
Proof.
  intros c ops msg; destruct (transcript_refines (HA := allocator_total) 24 transcript_new {| buffer_ := Some BUF_MEM_new; hash_ := EVP_MD_CTX_init |} ops
    {| s_md := Some HS_sha256; s_msg := msg; s_kept := false |} HS_sha256) as (ok & t' & Er & Hok & Hg & _).
  - reflexivity.
  - repeat apply List.Forall_cons; try apply List.Forall_nil; try exact I; [split; [each_literal|reflexivity]|apply nth_In, Nat.ltb_lt; reflexivity|split; [each_literal|reflexivity]|split; [each_literal|reflexivity]].
  - vm_compute; reflexivity.
  - vm_compute; reflexivity.
  - specialize (Hok ltac:(reflexivity)); subst ok; exists t'; split; [exact Er|exact (Hg eq_refl eq_refl)].
Defined.
