(* ===== verification/Tls1Enc.v ===== *)
(** The keys of TLS 1.0 to 1.2 (ssl/t1_enc.cc) and their installation
    (ssl/tls_method.cc): the master secret, the key block, the cipher states of
    the two directions and the exporter.

    An outer [None] is a NULL dereference or a call of abort(). The connection
    has no QUIC method; [read_level] and [write_level], which only accessors
    read, are left out. *)

From S2P Require Import Prelude Mem Cbs BufMem Words Md32 Sha256 Sha512 Sha1 Md5 Digest Hmac Kdf TlsKdf Aead.
From S2P Require Import SslVersions SslCipher SslAead TlsMessage TlsRecord TlsFlight Transcript.

Definition SSL3_MASTER_SECRET_SIZE : Z := 48.
Definition SSL_R_EXCESS_HANDSHAKE_DATA : Z := 255.

(** [Span::subspan] *)
Definition subspan (l : list Z) (pos len : Z) : option (list Z) :=
  if zlen l <? pos then None else Some (ztake len (zdrop pos l)).

(** * Installing a cipher state *)

Section State.
  Context {HA : Allocator} {HR : RandomSource} {S : Type}.
  Variable sizeof_buf : Z.
  Variable place : BUF_MEM -> Z.
  Variable tmp_prefix : Z.

Definition tls_set_read_state (m : messages) (aead_ctx : SSLAEADContext S) (rd : read_state S) : ssl_error + read_state S :=
  if tls_has_unprocessed_handshake_data m
  then inl {| reason := SSL_R_EXCESS_HANDSHAKE_DATA; out_alert := SSL_AD_UNEXPECTED_MESSAGE |}
  else inr {| read_shutdown := read_shutdown rd; aead_read_ctx := aead_ctx; read_sequence := 0; early_data_skipped := early_data_skipped rd;
              empty_record_count := empty_record_count rd; warning_alert_count := warning_alert_count rd; skip_early_data_flag := skip_early_data_flag rd |}.

Definition tls_set_write_state (ssl : connection) (aead_ctx : SSLAEADContext S) (w : tls_out S) : bool * tls_out S :=
  let '(ok, w) := tls_flush_pending_hs_data sizeof_buf place tmp_prefix ssl w in
  if negb ok then (false, w) else (true, with_o_write w {| aead_write_ctx := aead_ctx; write_sequence := 0 |}).

(** The parts of a connection that the key derivation changes. *)
Record tls_keyed : Type := {
  k_out : tls_out S;
  k_messages : messages;
  k_read : read_state S
}.

Definition set_state (ssl : connection) (direction : evp_aead_direction_t) (aead_ctx : SSLAEADContext S) (k : tls_keyed) : bool * tls_keyed :=
  match direction with
  | evp_aead_open =>
      match tls_set_read_state (k_messages k) aead_ctx (k_read k) with
      | inl _ => (false, k)
      | inr rd => (true, {| k_out := k_out k; k_messages := k_messages k; k_read := rd |})
      end
  | evp_aead_seal =>
      let '(ok, w) := tls_set_write_state ssl aead_ctx (k_out k) in
      (ok, {| k_out := w; k_messages := k_messages k; k_read := k_read k |})
  end.

(** * The key block *)

Variable aeads : aead_name -> EVP_AEAD S.
Variable sizeof_ctx : Z.

(** [ssl->s3->client_random] and [server_random]. *)
Record randoms : Type := { client_random : list Z; server_random : list Z }.

(** The lengths of the MAC key, of the key and of the fixed vector. *)
Definition get_key_block_lengths (ssl : connection) (c : SSL_CIPHER) : option (Z * Z * Z) :=
  match ssl_cipher_get_evp_aead aeads c (ssl_protocol_version ssl) false with
  | None => None
  | Some (aead, mac_secret_len, iv_len) =>
      let key_len := EVP_AEAD_key_length (aeads aead) in
      if 0 <? mac_secret_len then
        if key_len <? mac_secret_len + iv_len then None else Some (mac_secret_len, key_len - (mac_secret_len + iv_len), iv_len)
      else Some (mac_secret_len, key_len, iv_len)
  end.

(** "key expansion" *)
Definition kLabel : list Z := [107; 101; 121; 32; 101; 120; 112; 97; 110; 115; 105; 111; 110].

Definition generate_key_block (r : randoms) (out : list Z) (session : SSL_SESSION) : option (bool * list Z) :=
  md ← ssl_session_get_digest session; tls1_prf md out (session_secret session) kLabel (server_random r) (client_random r).

(** [Array::Init] *)
Definition array_init (n : Z) : option (list Z) := if n =? 0 then Some [] else if malloc_ok n then Some (fresh n) else None.

(** The MAC key, the key and the vector of one direction. *)
Definition key_block_keys (client_write : bool) (key_block : list Z) (mac_secret_len key_len iv_len : Z) : option (list Z * list Z * list Z) :=
  if client_write then
    mac_secret ← subspan key_block 0 mac_secret_len;
    key ← subspan key_block (2 * mac_secret_len) key_len;
    iv ← subspan key_block (2 * mac_secret_len + 2 * key_len) iv_len;
    Some (mac_secret, key, iv)
  else
    mac_secret ← subspan key_block mac_secret_len mac_secret_len;
    key ← subspan key_block (2 * mac_secret_len + key_len) key_len;
    iv ← subspan key_block (2 * mac_secret_len + 2 * key_len + iv_len) iv_len;
    Some (mac_secret, key, iv).

(** The result, the cache of the key block and the connection. *)
Definition tls1_configure_aead (ssl : connection) (r : randoms) (direction : evp_aead_direction_t) (key_block_cache : list Z) (session : SSL_SESSION)
    (iv_override : list Z) (k : tls_keyed) : option (bool * list Z * tls_keyed) :=
  match get_key_block_lengths ssl (session_cipher session) with
  | None => Some (false, key_block_cache, k)
  | Some (mac_secret_len, key_len, iv_len) =>
      let key_block_size := 2 * (mac_secret_len + key_len + iv_len) in
      cache ← (if zlen key_block_cache =? 0 then
                 match array_init key_block_size with
                 | None => Some (false, [])
                 | Some block => generate_key_block r block session
                 end
               else Some (true, key_block_cache));
      match cache with
      | (false, cache) => Some (false, cache, k)
      | (true, cache) =>
          let client_write := match direction, server ssl with evp_aead_open, true | evp_aead_seal, false => true | _, _ => false end in
          keys ← key_block_keys client_write cache mac_secret_len key_len iv_len;
          let '(mac_secret, key, iv) := keys in
          if negb (zlen iv_override =? 0) && negb (zlen iv_override =? iv_len) then Some (false, cache, k)
          else
            let iv := if negb (zlen iv_override =? 0) then iv_override else iv in
            match Create aeads sizeof_ctx direction (negotiated_version ssl) false (session_cipher session) key mac_secret iv with
            | None => Some (false, cache, k)
            | Some aead_ctx => let '(ok, k) := set_state ssl direction aead_ctx k in Some (ok, cache, k)
            end
      end
  end.

(** [hs->key_block] is the cache, [session] the session of the handshake. *)
Definition tls1_change_cipher_state (ssl : connection) (r : randoms) (key_block : list Z) (session : SSL_SESSION) (direction : evp_aead_direction_t) (k : tls_keyed) :
    option (bool * list Z * tls_keyed) :=
  tls1_configure_aead ssl r direction key_block session [] k.

(** * The master secret *)

(** "master secret" and "extended master secret" *)
Definition kMasterSecretLabel : list Z := [109; 97; 115; 116; 101; 114; 32; 115; 101; 99; 114; 101; 116].
Definition kExtendedMasterSecretLabel : list Z := [101; 120; 116; 101; 110; 100; 101; 100; 32] ++ kMasterSecretLabel.

(** The return value and [out], which has [SSL3_MASTER_SECRET_SIZE] bytes. *)
Definition tls1_generate_master_secret (extended_master_secret : bool) (t : SSLTranscript) (r : randoms) (out premaster : list Z) : option (Z * list Z) :=
  let done (x : option (bool * list Z)) := match x with None => None | Some (false, out) => Some (0, out) | Some (true, out) => Some (SSL3_MASTER_SECRET_SIZE, out) end in
  if extended_master_secret then
    match GetHash t with
    | None => None
    | Some None => Some (0, out)
    | Some (Some digests) => match transcript_digest t with None => None | Some md => done (tls1_prf md out premaster kExtendedMasterSecretLabel digests []) end
    end
  else match transcript_digest t with None => None | Some md => done (tls1_prf md out premaster kMasterSecretLabel (client_random r) (server_random r)) end.

(** * The interface for applications *)

(** [session] is the established session of the connection, with its cipher. *)
Definition SSL_get_key_block_len (ssl : connection) (session : SSL_SESSION) : Z :=
  if in_init ssl || (TLS1_2_VERSION <? ssl_protocol_version ssl) then 0
  else match get_key_block_lengths ssl (session_cipher session) with
       | None => 0
       | Some (mac_secret_len, key_len, fixed_iv_len) => 2 * (mac_secret_len + key_len + fixed_iv_len)
       end.

Definition SSL_generate_key_block (ssl : connection) (r : randoms) (session : SSL_SESSION) (out : list Z) : option (bool * list Z) :=
  if in_init ssl || (TLS1_2_VERSION <? ssl_protocol_version ssl) then Some (false, out) else generate_key_block r out session.
End State.
Arguments tls_keyed S : clear implicits.

(** * The two ends have the same keys *)

Section Paired.
  Context {HA : Allocator} {HR : RandomSource} {S : Type} (aeads : aead_name -> EVP_AEAD S) {T : AeadTable aeads}.
  Variable sizeof_buf : Z.
  Variable place : BUF_MEM -> Z.
  Variable tmp_prefix sizeof_ctx : Z.

(** The size of the key block of a session. *)
Definition key_block_size (ssl : connection) (session : SSL_SESSION) : Z :=
  match get_key_block_lengths aeads ssl (session_cipher session) with Some (mac, key, iv) => 2 * (mac + key + iv) | None => 0 end.

(** The key block of RFC 5246, section 6.3. *)
Definition key_block_of (ssl : connection) (r : randoms) (session : SSL_SESSION) : list Z :=
  prf_of (handshake_md_of (ssl_session_protocol_version session) (session_cipher session)) (session_secret session)
    (kLabel ++ server_random r ++ client_random r) (key_block_size ssl session).

Definition material_ok (r : randoms) (session : SSL_SESSION) : Prop :=
  In (session_cipher session) kCiphers /\ Forall (fun x => bytes x /\ zlen x < 2 ^ 63) [session_secret session; kLabel; server_random r; client_random r].

(** Nothing is cached, or the key block is. *)
Definition cache_ok (ssl : connection) (r : randoms) (session : SSL_SESSION) (cache : list Z) : Prop :=
  cache = [] \/ cache = key_block_of ssl r session.

Lemma generate_key_block_spec ssl r session block : material_ok r session -> zlen block = key_block_size ssl session ->
  exists ok o, generate_key_block r block session = Some (ok, o) /\ (ok = true -> o = key_block_of ssl r session).
Proof.
  intros [Hc Hm] Hl; unfold generate_key_block, ssl_session_get_digest; rewrite (handshake_digest_of _ _ Hc); cbn [mbind option_bind].
  destruct (tls1_prf_value (handshake_md_of (ssl_session_protocol_version session) (session_cipher session)) block _ _ _ _ Hm) as (ok & o & E & Eo & _).
  exists ok, o; split; [exact E|]; unfold key_block_of; now rewrite <- Hl.
Qed.

Lemma array_init_length n block : 0 <= n -> array_init n = Some block -> zlen block = n.
Proof. intros Hn; unfold array_init; destruct (Z.eqb_spec n 0); [intros [= <-]; now subst|]; destruct (malloc_ok n); [|discriminate]; intros [= <-]; now apply zlen_fresh. Qed.

(** A cipher state that was configured has its part of the key block. *)
Lemma configure_inv ssl r direction cache session k cache' k' : material_ok r session -> cache_ok ssl r session cache -> 0 <= key_block_size ssl session ->
  tls1_change_cipher_state sizeof_buf place tmp_prefix aeads sizeof_ctx ssl r cache session direction k = Some (true, cache', k') ->
  exists mac_len key_len iv_len mac key iv ctx, get_key_block_lengths aeads ssl (session_cipher session) = Some (mac_len, key_len, iv_len) /\
    key_block_keys (match direction, server ssl with evp_aead_open, true | evp_aead_seal, false => true | _, _ => false end)
      (key_block_of ssl r session) mac_len key_len iv_len = Some (mac, key, iv) /\
    Create aeads sizeof_ctx direction (negotiated_version ssl) false (session_cipher session) key mac iv = Some ctx /\
    set_state sizeof_buf place tmp_prefix ssl direction ctx k = (true, k') /\ cache' = key_block_of ssl r session.
Proof.
  intros Hm Hc Hsz; unfold tls1_change_cipher_state, tls1_configure_aead; destruct (get_key_block_lengths aeads ssl (session_cipher session)) as [[[ml kl] il]|] eqn:El; [|discriminate].
  set (x := if zlen cache =? 0 then _ else _); assert (2 * (ml + kl + il) = key_block_size ssl session) as Es by (unfold key_block_size; now rewrite El).
  assert (forall c, x = Some (true, c) -> c = key_block_of ssl r session) as Hx.
  { intros c; subst x; destruct (Z.eqb_spec (zlen cache) 0) as [E|E]; [|intros [= <-]; destruct Hc as [Hc|Hc]; [subst cache; now contradict E|exact Hc]].
    rewrite Es; destruct (array_init (key_block_size ssl session)) as [block|] eqn:Ea; [|discriminate]; pose proof (array_init_length _ _ Hsz Ea) as Hl.
    destruct (generate_key_block_spec ssl r session block Hm Hl) as (ok & o & -> & Eo); intros [= -> <-]; auto. }
  destruct x as [[[] c]|] eqn:Ex; cbn [mbind option_bind]; [|discriminate|discriminate]; rewrite (Hx c eq_refl).
  destruct (key_block_keys _ _ ml kl il) as [[[mac key] iv]|] eqn:Ek; [|discriminate]; cbn [mbind option_bind]; change (zlen (@nil Z) =? 0) with true; cbn [negb andb].
  destruct (Create _ _ _ _ _ _ _ _ _) as [ctx|] eqn:Ec; [|discriminate]; destruct (set_state _ _ _ _ _ _ _) as [ok k2] eqn:Est; intros [= -> <- <-].
  exists ml, kl, il, mac, key, iv, ctx; auto.
Qed.

(** C27. The two ends of a connection of TLS 1.0 to 1.2 that share a session, the
    random values and the version get cipher states that belong together: what
    one end seals after its change of cipher state the other end opens after
    its own, in both directions, whether the key block is computed or was
    cached by the change of the other direction. The key block is that of RFC
    5246. *)
Theorem tls1_cipher_states_paired (a b : connection) (r : randoms) (session : SSL_SESSION) (cache_a cache_b : list Z) ka kb cache_a' cache_b' ka' kb' :
  server b = negb (server a) -> negotiated_version b = negotiated_version a -> material_ok r session ->
  In (negotiated_version a) kTLSVersions -> negotiated_version a <= SSL_CIPHER_get_max_version (session_cipher session) ->
  cache_ok a r session cache_a -> cache_ok b r session cache_b -> 0 <= key_block_size a session ->
  tls1_change_cipher_state sizeof_buf place tmp_prefix aeads sizeof_ctx a r cache_a session evp_aead_seal ka = Some (true, cache_a', ka') ->
  tls1_change_cipher_state sizeof_buf place tmp_prefix aeads sizeof_ctx b r cache_b session evp_aead_open kb = Some (true, cache_b', kb') ->
  cache_a' = key_block_of a r session /\ cache_b' = key_block_of a r session /\
  exists n, in_sync (A := aeads n) (tag := table_tag n) (paired := table_paired n) (o_write (k_out ka')) (k_read kb').
Proof.
  intros Hs Hv Hm Hin Hmax Hca Hcb Hsz Ea Eb; assert (forall c, get_key_block_lengths aeads b c = get_key_block_lengths aeads a c) as Elen by
    (intros c; unfold get_key_block_lengths, ssl_protocol_version; now rewrite Hv).
  assert (key_block_size b session = key_block_size a session) as Es by (unfold key_block_size; now rewrite Elen).
  assert (key_block_of b r session = key_block_of a r session) as Ek by (unfold key_block_of; now rewrite Es).
  destruct (configure_inv a r _ _ session ka _ _ Hm Hca Hsz Ea) as (ml & kl & il & mac & key & iv & ctx & L1 & K1 & C1 & S1 & ->).
  destruct (configure_inv b r _ _ session kb _ _ Hm Hcb ltac:(lia) Eb) as (ml' & kl' & il' & mac' & key' & iv' & ctx' & L2 & K2 & C2 & S2 & ->).
  rewrite Elen, L1 in L2; injection L2 as <- <- <-; rewrite Ek, Hs in K2; rewrite Hv in C2.
  assert (mac' = mac /\ key' = key /\ iv' = iv) as (-> & -> & ->) by (destruct (server a); cbn [negb] in K2; rewrite K1 in K2; injection K2 as <- <- <-; auto).
  split; [reflexivity|]; split; [exact Ek|]; cbn [set_state] in S1, S2; unfold tls_set_write_state, tls_set_read_state in *.
  destruct (tls_flush_pending_hs_data _ _ _ _ _) as [[] w]; [|discriminate S1]; destruct (tls_has_unprocessed_handshake_data _); [discriminate S2|].
  injection S1 as <-; injection S2 as <-; cbn [k_out k_read with_o_write o_write].
  exact (Create_in_sync aeads sizeof_ctx (negotiated_version a) (session_cipher session) key mac iv ctx ctx' _ _ _ _ _ Hin (proj1 Hm) Hmax C1 C2).
Qed.
End Paired.

(** * A connection of TLS 1.2 *)

Section Sample.
  Local Existing Instances allocator_total sample_random.

Definition sample12 (s : bool) : connection :=
  {| server := s; mode := 0; in_init := true; verify_peer := false; max_cert_list := 0; have_version := true; negotiated_version := TLS1_2_VERSION |}.
(** TLS_RSA_WITH_AES_128_GCM_SHA256. *)
Definition sample12_session : SSL_SESSION :=
  {| ssl_version := TLS1_2_VERSION; session_cipher := nth 5 kCiphers (cipher String.EmptyString String.EmptyString 0 0 0 0 0 0); session_secret := zrep 48 0x11 |}.
Definition sample12_randoms : randoms := {| client_random := zrep 32 1; server_random := zrep 32 2 |}.
Definition sample12_start : tls_keyed Z :=
  {| k_out := {| o_write := {| aead_write_ctx := CreateNullCipher false; write_sequence := 3 |}; pending_hs_data := None; pending_flight := None; pending_flight_offset := 0 |};
     k_messages := no_messages; k_read := sample_reader |}.
Abbreviation change s cache d := (tls1_change_cipher_state 24 (fun _ => 65536) 8192 toy_table 256 (sample12 s) sample12_randoms cache sample12_session d sample12_start).
Abbreviation changed r := (match r with Some (_, c, k) => (c, k) | None => ([], sample12_start) end).

Lemma change_ok (r : option (bool * list Z * tls_keyed Z)) : match r with Some (b, _, _) => b | None => false end = true -> r = Some (true, fst (changed r), snd (changed r)).
Proof. now destruct r as [[[[] c] k]|]. Qed.

(** The client seals with a new key block, the server opens with the one that its
    other direction has cached. *)
Lemma tls1_cipher_states_paired_witness :
  let client := changed (change false [] evp_aead_seal) in
  let server := changed (change true (fst (changed (change true [] evp_aead_seal))) evp_aead_open) in
  fst client = fst server /\
  exists n, in_sync (A := toy_table n) (tag := table_tag n) (paired := table_paired n) (o_write (k_out (snd client))) (k_read (snd server)).
Proof.
  intros client server.
  destruct (tls1_cipher_states_paired toy_table 24 (fun _ => 65536) 8192 256 (sample12 false) (sample12 true) sample12_randoms sample12_session
    [] (fst (changed (change true [] evp_aead_seal))) sample12_start sample12_start (fst client) (fst server) (snd client) (snd server)) as (E1 & E2 & H).
  - reflexivity.
  - reflexivity.
  - split; [apply nth_In, Nat.ltb_lt; reflexivity|]; assert (forall n x, byte x -> bytes (zrep n x)) as Hz by (intros n x Hx; apply Forall_replicate; exact Hx).
    repeat apply List.Forall_cons; try apply List.Forall_nil; (split; [first [apply Hz; unfold byte; cbn; lia|cbn; each_literal]|vm_compute; reflexivity]).
  - cbn; auto.
  - vm_compute; discriminate.
  - now left.
  - right; vm_compute; reflexivity.
  - vm_compute; discriminate.
  - apply change_ok; vm_compute; reflexivity.
  - apply change_ok; vm_compute; reflexivity.
  - exact (conj (eq_trans E1 (eq_sym E2)) H).
Defined.
End Sample.
