(* ===== verification/Tls13Enc.v ===== *)
(** The key schedule of TLS 1.3 (ssl/tls13_enc.cc): the secrets of a handshake,
    the traffic keys and their updates, the MACs of Finished messages and of
    pre-shared keys, the exporter, and the confirmation of an encrypted
    ClientHello; with [SSL_export_keying_material] of ssl/t1_enc.cc.

    A secret of the handshake is an array of [SSL_MAX_MD_SIZE] bytes of which a
    prefix is in use. There is no key log callback, and no QUIC method. *)

From S2P Require Import Prelude Mem Cbs BufMem Words Md32 Sha256 Sha512 Sha1 Md5 Digest Hmac Kdf TlsKdf Aead.
From S2P Require Import SslVersions SslCipher SslAead TlsMessage TlsRecord TlsFlight Transcript Tls1Enc.

Definition SSL_MAX_MD_SIZE : Z := 48.
Definition SSL_MAX_MASTER_KEY_LENGTH : Z := 48.
Definition ECH_CONFIRMATION_SIGNAL_LEN : Z := 8.

(** "derived", "exp master", "c e traffic", "c hs traffic", "s hs traffic",
    "c ap traffic", "s ap traffic", "traffic upd", "res master", "finished",
    "resumption", "exporter", "res binder", "key" and "iv" *)
Definition kTLS13LabelDerived : list Z := [100; 101; 114; 105; 118; 101; 100].
Definition kTLS13LabelExporter : list Z := [101; 120; 112; 32; 109; 97; 115; 116; 101; 114].
Definition kTLS13LabelClientEarlyTraffic : list Z := [99; 32; 101; 32; 116; 114; 97; 102; 102; 105; 99].
Definition kTLS13LabelClientHandshakeTraffic : list Z := [99; 32; 104; 115; 32; 116; 114; 97; 102; 102; 105; 99].
Definition kTLS13LabelServerHandshakeTraffic : list Z := [115; 32; 104; 115; 32; 116; 114; 97; 102; 102; 105; 99].
Definition kTLS13LabelClientApplicationTraffic : list Z := [99; 32; 97; 112; 32; 116; 114; 97; 102; 102; 105; 99].
Definition kTLS13LabelServerApplicationTraffic : list Z := [115; 32; 97; 112; 32; 116; 114; 97; 102; 102; 105; 99].
Definition kTLS13LabelApplicationTraffic : list Z := [116; 114; 97; 102; 102; 105; 99; 32; 117; 112; 100].
Definition kTLS13LabelResumption : list Z := [114; 101; 115; 32; 109; 97; 115; 116; 101; 114].
Definition kTLS13LabelFinished : list Z := [102; 105; 110; 105; 115; 104; 101; 100].
Definition kTLS13LabelResumptionPSK : list Z := [114; 101; 115; 117; 109; 112; 116; 105; 111; 110].
Definition kTLS13LabelExportKeying : list Z := [101; 120; 112; 111; 114; 116; 101; 114].
Definition kTLS13LabelPSKBinder : list Z := [114; 101; 115; 32; 98; 105; 110; 100; 101; 114].
Definition label_key : list Z := [107; 101; 121].
Definition label_iv : list Z := [105; 118].

(** * The secrets of a handshake *)

(** The fields of [SSL_HANDSHAKE] that the schedule changes, with
    [exporter_secret] of [SSL3_STATE] and the secret of [new_session]. *)
Record tls13_hs : Type := {
  transcript : SSLTranscript;
  inner_transcript : SSLTranscript;
  selected_ech_config : bool;
  handback : bool;
  new_cipher : SSL_CIPHER;
  hash_len_ : Z;
  secret_ : list Z;
  early_traffic_secret_ : list Z;
  client_handshake_secret_ : list Z;
  server_handshake_secret_ : list Z;
  client_traffic_secret_0_ : list Z;
  server_traffic_secret_0_ : list Z;
  exporter_secret_len : Z;
  exporter_secret : list Z;
  new_session_secret_length : Z;
  new_session_secret : list Z
}.

(** The arrays. *)
Inductive slot : Type :=
  | Secret | EarlyTraffic | ClientHandshake | ServerHandshake | ClientTraffic | ServerTraffic | Exporter | NewSession.

Definition get_slot (s : slot) (hs : tls13_hs) : list Z :=
  match s with
  | Secret => secret_ hs | EarlyTraffic => early_traffic_secret_ hs | ClientHandshake => client_handshake_secret_ hs
  | ServerHandshake => server_handshake_secret_ hs | ClientTraffic => client_traffic_secret_0_ hs | ServerTraffic => server_traffic_secret_0_ hs
  | Exporter => exporter_secret hs | NewSession => new_session_secret hs
  end.

Definition slot_len (s : slot) (hs : tls13_hs) : Z :=
  match s with Exporter => exporter_secret_len hs | NewSession => new_session_secret_length hs | _ => hash_len_ hs end.

#[export] Instance slot_dec : EqDecision slot.
Proof. solve_decision. Defined.

Definition put_slot (s : slot) (x : list Z) (hs : tls13_hs) : tls13_hs :=
  let f t := if bool_decide (s = t) then x else get_slot t hs in
  {| transcript := transcript hs; inner_transcript := inner_transcript hs; selected_ech_config := selected_ech_config hs; handback := handback hs;
     new_cipher := new_cipher hs; hash_len_ := hash_len_ hs; secret_ := f Secret; early_traffic_secret_ := f EarlyTraffic;
     client_handshake_secret_ := f ClientHandshake; server_handshake_secret_ := f ServerHandshake; client_traffic_secret_0_ := f ClientTraffic;
     server_traffic_secret_0_ := f ServerTraffic; exporter_secret_len := exporter_secret_len hs; exporter_secret := f Exporter;
     new_session_secret_length := new_session_secret_length hs; new_session_secret := f NewSession |}.

Definition with_transcripts (hs : tls13_hs) (t inner : SSLTranscript) : tls13_hs :=
  {| transcript := t; inner_transcript := inner; selected_ech_config := selected_ech_config hs; handback := handback hs;
     new_cipher := new_cipher hs; hash_len_ := hash_len_ hs; secret_ := secret_ hs; early_traffic_secret_ := early_traffic_secret_ hs;
     client_handshake_secret_ := client_handshake_secret_ hs; server_handshake_secret_ := server_handshake_secret_ hs;
     client_traffic_secret_0_ := client_traffic_secret_0_ hs; server_traffic_secret_0_ := server_traffic_secret_0_ hs;
     exporter_secret_len := exporter_secret_len hs; exporter_secret := exporter_secret hs;
     new_session_secret_length := new_session_secret_length hs; new_session_secret := new_session_secret hs |}.

Definition with_lengths (hs : tls13_hs) (hash_len exporter_len session_len : Z) : tls13_hs :=
  {| transcript := transcript hs; inner_transcript := inner_transcript hs; selected_ech_config := selected_ech_config hs; handback := handback hs;
     new_cipher := new_cipher hs; hash_len_ := hash_len; secret_ := secret_ hs; early_traffic_secret_ := early_traffic_secret_ hs;
     client_handshake_secret_ := client_handshake_secret_ hs; server_handshake_secret_ := server_handshake_secret_ hs;
     client_traffic_secret_0_ := client_traffic_secret_0_ hs; server_traffic_secret_0_ := server_traffic_secret_0_ hs;
     exporter_secret_len := exporter_len; exporter_secret := exporter_secret hs;
     new_session_secret_length := session_len; new_session_secret := new_session_secret hs |}.

(** [secret()] and the other spans. *)
Definition span_of (s : slot) (hs : tls13_hs) : list Z := ztake (slot_len s hs) (get_slot s hs).
Definition write_span (s : slot) (x : list Z) (hs : tls13_hs) : tls13_hs := put_slot s (zsplice (get_slot s hs) 0 x) hs.

Definition ResizeSecrets (hash_len : Z) (hs : tls13_hs) : option tls13_hs :=
  if SSL_MAX_MD_SIZE <? hash_len then None else Some (with_lengths hs hash_len (exporter_secret_len hs) (new_session_secret_length hs)).

(** * Calls that may fail *)

(** A call: [None] is a NULL dereference or abort(), an inner [None] is the result
    false. *)
Definition HS (A : Type) : Type := tls13_hs -> option (option A * tls13_hs).

Definition hs_ret {A} (a : A) : HS A := fun hs => Some (Some a, hs).
Definition hs_bind {A B} (m : HS A) (k : A -> HS B) : HS B :=
  fun hs => match m hs with None => None | Some (None, hs) => Some (None, hs) | Some (Some a, hs) => k a hs end.
(** A call that does not change the state. *)
Definition hs_call {A} (r : option (option A)) : HS A := fun hs => match r with None => None | Some a => Some (a, hs) end.
Definition hs_get {A} (f : tls13_hs -> A) : HS A := fun hs => Some (Some (f hs), hs).
Definition hs_set (f : tls13_hs -> tls13_hs) : HS unit := fun hs => Some (Some tt, f hs).

Declare Scope hs_scope.
Delimit Scope hs_scope with hs.
Notation "'do' x <- m ; k" := (hs_bind m (fun x => k)) (at level 100, x name, m at level 99, k at level 200, right associativity) : hs_scope.
Notation "m ;; k" := (hs_bind m (fun _ => k)) (at level 100, k at level 200, right associativity) : hs_scope.
Local Open Scope hs_scope.

Section Schedule.
  Context {HA : Allocator}.

(** A result with the buffer that was written. *)
Definition made (r : option (bool * list Z)) : option (option (list Z)) :=
  match r with None => None | Some (false, _) => Some None | Some (true, out) => Some (Some out) end.

(** A NULL pointer where a method is expected. *)
Definition not_null {A} (x : option A) : option (option A) := match x with None => None | Some a => Some (Some a) end.

Definition hkdf_expand_label (out : list Z) (md : EVP_MD) (secret label hash : list Z) : option (option (list Z)) :=
  made (CRYPTO_tls13_hkdf_expand_label out md secret label hash).

(** [EVP_Digest], the bytes that are its result. *)
Definition digest_bytes (data : list Z) (md : EVP_MD) : option (option (list Z)) :=
  match EVP_Digest data md with None => None | Some None => Some None | Some (Some (out, len)) => Some (Some (ztake len out)) end.

(** [HKDF_extract], the bytes that are its result. *)
Definition extract_bytes (md : EVP_MD) (secret : list Z) (salt : option (list Z)) : option (option (list Z)) :=
  match HKDF_extract md secret salt with None => None | Some None => Some None | Some (Some (out, len)) => Some (Some (ztake len out)) end.

(** The transcript of the inner ClientHello, or the main one. *)
Definition chosen (inner : bool) (hs : tls13_hs) : SSLTranscript := if inner then inner_transcript hs else transcript hs.
Definition set_chosen (inner : bool) (t : SSLTranscript) (hs : tls13_hs) : tls13_hs :=
  if inner then with_transcripts hs (transcript hs) t else with_transcripts hs t (inner_transcript hs).

(** A call on a transcript. *)
Definition on_transcript (inner : bool) (f : SSLTranscript -> option (bool * SSLTranscript)) : HS unit :=
  fun hs => match f (chosen inner hs) with
            | None => None
            | Some (ok, t) => Some (if ok then Some tt else None, set_chosen inner t hs)
            end.

Definition init_key_schedule (inner : bool) (version : Z) (cipher : SSL_CIPHER) : HS unit :=
  on_transcript inner (InitHash version cipher) ;;
  do t <- hs_get (chosen inner);
  do len <- hs_call (not_null (DigestLen t));
  (fun hs => match ResizeSecrets len hs with None => None | Some hs => Some (Some tt, hs) end) ;;
  hs_set (fun hs => write_span Secret (zrep (slot_len Secret hs) 0) hs).

Definition hkdf_extract_to_secret (inner : bool) (in_ : list Z) : HS unit :=
  do t <- hs_get (chosen inner);
  do salt <- hs_get (span_of Secret);
  do md <- hs_call (not_null (transcript_digest t));
  do out <- hs_call (extract_bytes md in_ (Some salt));
  hs_set (write_span Secret out).

Definition tls13_init_key_schedule (ssl : connection) (psk : list Z) : HS unit :=
  do cipher <- hs_get new_cipher;
  init_key_schedule false (ssl_protocol_version ssl) cipher ;;
  do keep <- hs_get handback;
  (if keep then hs_ret tt else hs_set (fun hs => set_chosen false (FreeBuffer (transcript hs)) hs)) ;;
  hkdf_extract_to_secret false psk.

Definition tls13_init_early_key_schedule (session : SSL_SESSION) : HS unit :=
  do inner <- hs_get selected_ech_config;
  init_key_schedule inner (ssl_session_protocol_version session) (session_cipher session) ;;
  hkdf_extract_to_secret inner (session_secret session).

Definition tls13_advance_key_schedule (in_ : list Z) : HS unit :=
  do md <- hs_get (fun hs => transcript_digest (transcript hs));
  do md <- hs_call (not_null md);
  do derive_context <- hs_call (digest_bytes [] md);
  do secret <- hs_get (span_of Secret);
  do out <- hs_call (hkdf_expand_label secret md secret kTLS13LabelDerived derive_context);
  hs_set (write_span Secret out) ;;
  hkdf_extract_to_secret false in_.

Definition derive_secret_with_transcript (s : slot) (inner : bool) (label : list Z) : HS unit :=
  do t <- hs_get (chosen inner);
  do context_hash <- hs_call (GetHash t);
  do md <- hs_call (not_null (transcript_digest t));
  do out <- hs_get (span_of s);
  do secret <- hs_get (span_of Secret);
  do out <- hs_call (hkdf_expand_label out md secret label context_hash);
  hs_set (write_span s out).

Definition derive_secret (s : slot) (label : list Z) : HS unit := derive_secret_with_transcript s false label.

Definition tls13_derive_early_secret (ssl : connection) : HS unit :=
  do ech <- hs_get selected_ech_config;
  derive_secret_with_transcript EarlyTraffic (negb (server ssl) && ech) kTLS13LabelClientEarlyTraffic.

Definition tls13_derive_handshake_secrets : HS unit :=
  derive_secret ClientHandshake kTLS13LabelClientHandshakeTraffic ;; derive_secret ServerHandshake kTLS13LabelServerHandshakeTraffic.

Definition tls13_derive_application_secrets : HS unit :=
  do t <- hs_get transcript;
  do len <- hs_call (not_null (DigestLen t));
  hs_set (fun hs => with_lengths hs (hash_len_ hs) len (new_session_secret_length hs)) ;;
  derive_secret ClientTraffic kTLS13LabelClientApplicationTraffic ;;
  derive_secret ServerTraffic kTLS13LabelServerApplicationTraffic ;;
  derive_secret Exporter kTLS13LabelExporter.

Definition tls13_derive_resumption_secret : HS unit :=
  do t <- hs_get transcript;
  do len <- hs_call (not_null (DigestLen t));
  if SSL_MAX_MASTER_KEY_LENGTH <? len then hs_call (Some None)
  else
    hs_set (fun hs => with_lengths hs (hash_len_ hs) (exporter_secret_len hs) len) ;;
    derive_secret NewSession kTLS13LabelResumption.

(** * The MACs *)

(** The result of [tls13_verify_data]. *)
Definition tls13_verify_data (md : EVP_MD) (secret context : list Z) : option (option (list Z)) :=
  match hkdf_expand_label (zrep (md_size md) uninit_byte) md secret kTLS13LabelFinished [] with
  | Some (Some key) => match HMAC md (Some key) context with None => None | Some None => Some None | Some (Some (out, len)) => Some (Some (ztake len out)) end
  | r => r
  end.

Definition tls13_finished_mac (is_server : bool) : HS (list Z) :=
  do traffic_secret <- hs_get (span_of (if is_server then ServerHandshake else ClientHandshake));
  do t <- hs_get transcript;
  do context_hash <- hs_call (GetHash t);
  do md <- hs_call (not_null (transcript_digest t));
  hs_call (tls13_verify_data md traffic_secret context_hash).

(** The session with its pre-shared key in place of the resumption secret. *)
Definition tls13_derive_session_psk (session : SSL_SESSION) (nonce : list Z) : option (option SSL_SESSION) :=
  match ssl_session_get_digest session with
  | None => None
  | Some md =>
      match hkdf_expand_label (session_secret session) md (session_secret session) kTLS13LabelResumptionPSK nonce with
      | None => None
      | Some None => Some None
      | Some (Some out) => Some (Some {| ssl_version := ssl_version session; session_cipher := session_cipher session; session_secret := out |})
      end
  end.

(** The calls of [tls13_psk_binder]: the binder key, the hash of the transcript and
    of the truncated ClientHello, and the MAC. *)
Definition binder_key_of (md : EVP_MD) (psk : list Z) : option (option (list Z)) :=
  match digest_bytes [] md with
  | Some (Some binder_context) =>
      match extract_bytes md psk None with
      | Some (Some early_secret) => hkdf_expand_label (zrep (md_size md) 0) md early_secret kTLS13LabelPSKBinder binder_context
      | r => r
      end
  | r => r
  end.

Definition hash_with_transcript (t : SSLTranscript) (md : EVP_MD) (data : list (list Z)) : option (option (list Z)) :=
  match CopyToHashContext EVP_MD_CTX_init md t with
  | None => None
  | Some (false, _) => Some None
  | Some (true, ctx) =>
      match EVP_DigestUpdates ctx data with
      | None => None
      | Some ctx => match EVP_DigestFinal_ex ctx with None => None | Some (out, len, _) => Some (Some (ztake len out)) end
      end
  end.

Definition tls13_psk_binder (session : SSL_SESSION) (t : SSLTranscript) (client_hello : list Z) (binders_len : Z) : option (option (list Z)) :=
  match ssl_session_get_digest session with
  | None => None
  | Some md =>
      match binder_key_of md (session_secret session) with
      | Some (Some binder_key) =>
          if zlen client_hello <? binders_len then Some None
          else match hash_with_transcript t md [ztake (zlen client_hello - binders_len) client_hello] with
               | Some (Some context) => tls13_verify_data md binder_key context
               | r => r
               end
      | r => r
      end
  end.

(** The message with the binder at its end. *)
Definition tls13_write_psk_binder (session : SSL_SESSION) (t : SSLTranscript) (msg : list Z) : option (option (list Z)) :=
  match ssl_session_get_digest session with
  | None => None
  | Some md =>
      let hash_len := md_size md in
      match tls13_psk_binder session t msg (3 + hash_len) with
      | Some (Some verify_data) =>
          if negb (zlen verify_data =? hash_len) then Some None
          else if zlen msg <? zlen verify_data then None
          else Some (Some (zsplice msg (zlen msg - zlen verify_data) verify_data))
      | r => r
      end
  end.

(** [raw] is the ClientHello, [binders] the list of binders without its length. *)
Definition tls13_verify_psk_binder (session : SSL_SESSION) (t : SSLTranscript) (raw : list Z) (binders : CBS) : option bool :=
  match tls13_psk_binder session t raw (2 + CBS_len binders) with
  | None => None
  | Some None => Some false
  | Some (Some verify_data) =>
      match CBS_get_u8_length_prefixed binders with
      | (None, _) => Some false
      | (Some binder, _) => Some ((CBS_len binder =? zlen verify_data) && (CRYPTO_memcmp binder verify_data (zlen verify_data) =? 0))
      end
  end.

(** * The exporter *)

(** [out] before the call; [session] is the session of the connection. *)
Definition tls13_export_keying_material (session : SSL_SESSION) (out secret label context : list Z) : option (option (list Z)) :=
  if zlen secret =? 0 then Some None
  else
    match ssl_session_get_digest session with
    | None => None
    | Some md =>
        match digest_bytes context md with
        | Some (Some hash) =>
            match digest_bytes [] md with
            | Some (Some export_context) =>
                match hkdf_expand_label (zrep (md_size md) uninit_byte) md secret label export_context with
                | Some (Some derived_secret) => hkdf_expand_label out md derived_secret kTLS13LabelExportKeying hash
                | r => r
                end
            | r => r
            end
        | r => r
        end
    end.

(** [false_start] is [SSL_in_false_start]; [exporter] is the exporter secret of the
    connection; [context] is [None] without [use_context]. *)
Definition SSL_export_keying_material (ssl : connection) (false_start : bool) (r : randoms) (session : SSL_SESSION) (exporter : list Z)
    (out label : list Z) (context : option (list Z)) : option (option (list Z)) :=
  if have_version ssl && (TLS1_3_VERSION <=? ssl_protocol_version ssl) then
    if zlen exporter =? 0 then Some None else tls13_export_keying_material session out exporter label (default [] context)
  else if in_init ssl && negb false_start then Some None
  else if match context with Some c => 2 ^ 16 <=? zlen c | None => false end then Some None
  else
    let seed_len := 2 * SSL3_RANDOM_SIZE + match context with Some c => 2 + zlen c | None => 0 end in
    match array_init seed_len with
    | None => Some None
    | Some seed =>
        let seed := zsplice (zsplice seed 0 (client_random r)) SSL3_RANDOM_SIZE (server_random r) in
        let seed := match context with
                    | None => seed
                    | Some c => zsplice (zsplice seed (2 * SSL3_RANDOM_SIZE) [u8 (Z.shiftr (zlen c) 8); u8 (zlen c)]) (2 * SSL3_RANDOM_SIZE + 2) c
                    end in
        match ssl_session_get_digest session with
        | None => None
        | Some md => made (tls1_prf md out (session_secret session) label seed [])
        end
    end.

(** * Encrypted ClientHello *)

Definition ssl_ech_confirmation_signal_hello_offset (dtls : bool) : Z :=
  (if dtls then 12 else SSL3_HM_HEADER_LENGTH) + 2 + SSL3_RANDOM_SIZE - ECH_CONFIRMATION_SIGNAL_LEN.

(** "ech accept confirmation" *)
Definition label_ech : list Z :=
  [101; 99; 104; 32; 97; 99; 99; 101; 112; 116; 32; 99; 111; 110; 102; 105; 114; 109; 97; 116; 105; 111; 110].

(** The signal, of [ECH_CONFIRMATION_SIGNAL_LEN] bytes. *)
Definition ssl_ech_accept_confirmation (client_random : list Z) (t : SSLTranscript) (is_hrr : bool) (msg : list Z) (offset : Z) : option (option (list Z)) :=
  if zlen msg <? u64 (offset + ECH_CONFIRMATION_SIGNAL_LEN) then Some None
  else
    match transcript_digest t with
    | None => None
    | Some md =>
        match hash_with_transcript t md [ztake offset msg; zrep ECH_CONFIRMATION_SIGNAL_LEN 0; zdrop (offset + ECH_CONFIRMATION_SIGNAL_LEN) msg] with
        | Some (Some context) =>
            match extract_bytes md client_random (Some (zrep (md_size md) 0)) with
            | Some (Some secret) =>
                hkdf_expand_label (zrep ECH_CONFIRMATION_SIGNAL_LEN uninit_byte) md secret (if is_hrr then [104; 114; 114; 32] ++ label_ech else label_ech) context
            | r => r
            end
        | r => r
        end
    end.
End Schedule.

(** * The traffic keys *)

Section Traffic.
  Context {HA : Allocator} {HR : RandomSource} {S : Type}.
  Variable sizeof_buf : Z.
  Variable place : BUF_MEM -> Z.
  Variable tmp_prefix : Z.
  Variable aeads : aead_name -> EVP_AEAD S.
  Variable sizeof_ctx : Z.
  Variable ssl : connection.

(** A connection with the traffic secrets of its two directions, as far as they
    are in use. *)
Record tls13_conn : Type := {
  c_keyed : tls_keyed S;
  read_traffic_secret : list Z;
  write_traffic_secret : list Z
}.

Definition with_traffic_secret (direction : evp_aead_direction_t) (x : list Z) (c : tls13_conn) : tls13_conn :=
  match direction with
  | evp_aead_open => {| c_keyed := c_keyed c; read_traffic_secret := x; write_traffic_secret := write_traffic_secret c |}
  | evp_aead_seal => {| c_keyed := c_keyed c; read_traffic_secret := read_traffic_secret c; write_traffic_secret := x |}
  end.

(** The key and the vector of a traffic secret. *)
Definition traffic_keys (session : SSL_SESSION) (traffic_secret : list Z) : option (option (list Z * list Z)) :=
  match ssl_cipher_get_evp_aead aeads (session_cipher session) (ssl_session_protocol_version session) false with
  | None => Some None
  | Some (aead, _, _) =>
      match ssl_session_get_digest session with
      | None => None
      | Some md =>
          match hkdf_expand_label (zrep (EVP_AEAD_key_length (aeads aead)) uninit_byte) md traffic_secret label_key [] with
          | None => None
          | Some None => Some None
          | Some (Some key) =>
              match hkdf_expand_label (zrep (EVP_AEAD_nonce_length (aeads aead)) uninit_byte) md traffic_secret label_iv [] with
              | None => None
              | Some None => Some None
              | Some (Some iv) => Some (Some (key, iv))
              end
          end
      end
  end.

Definition tls13_set_traffic_key (direction : evp_aead_direction_t) (session : SSL_SESSION) (traffic_secret : list Z) (c : tls13_conn) :
    option (bool * tls13_conn) :=
  match traffic_keys session traffic_secret with
  | None => None
  | Some None => Some (false, c)
  | Some (Some (key, iv)) =>
      match Create aeads sizeof_ctx direction (ssl_version session) false (session_cipher session) key [] iv with
      | None => Some (false, c)
      | Some traffic_aead =>
          if SSL_MAX_MD_SIZE <? zlen traffic_secret then Some (false, c)
          else
            let '(ok, k) := set_state sizeof_buf place tmp_prefix ssl direction traffic_aead (c_keyed c) in
            let c := {| c_keyed := k; read_traffic_secret := read_traffic_secret c; write_traffic_secret := write_traffic_secret c |} in
            if negb ok then Some (false, c) else Some (true, with_traffic_secret direction traffic_secret c)
      end
  end.

(** The secret is replaced in its place before the key is set. *)
Definition tls13_rotate_traffic_key (session : SSL_SESSION) (direction : evp_aead_direction_t) (c : tls13_conn) : option (bool * tls13_conn) :=
  let secret := match direction with evp_aead_open => read_traffic_secret c | evp_aead_seal => write_traffic_secret c end in
  match ssl_session_get_digest session with
  | None => None
  | Some md =>
      match hkdf_expand_label secret md secret kTLS13LabelApplicationTraffic [] with
      | None => None
      | Some None => Some (false, c)
      | Some (Some secret) => tls13_set_traffic_key direction session secret (with_traffic_secret direction secret c)
      end
  end.
End Traffic.
Arguments tls13_conn S : clear implicits.
