(* ===== verification/Tls13Spec.v ===== *)
(** The key schedule of Tls13Enc.v computes the secrets of RFC 8446, section 7:
    the functions of the standard, the schedule as a machine over them, and the
    refinement. Memory is assumed not to run out: a call fails otherwise. *)

From S2P Require Import Prelude Mem Cbs BufMem Words Md32 Sha256 Sha512 Sha1 Md5 Digest Hmac Kdf TlsKdf Aead.
From S2P Require Import SslVersions SslCipher SslAead TlsMessage TlsRecord TlsFlight Transcript Tls1Enc Tls13Enc.

(** * The standard *)

Abbreviation hash_size m := (md_size (md_of m)).
Abbreviation chunk x := (bytes x /\ zlen x < 2 ^ 63).

(** HKDF-Extract, HKDF-Expand-Label and Derive-Secret. *)
Definition extract_of (m : handshake_md) (salt ikm : list Z) : list Z := hmac_spec (hash_of m) (block_size (md_of m)) salt ikm.
Definition expand_label_of (m : handshake_md) (secret label context : list Z) (len : Z) : list Z :=
  hkdf_expand_spec (hmac_spec (hash_of m) (block_size (md_of m)) secret) (hash_size m) (hkdf_label_spec len label context) len.
Definition derive_secret_of (m : handshake_md) (secret label msgs : list Z) : list Z :=
  expand_label_of m secret label (hash_of m msgs) (hash_size m).

Lemma hkdf_blocks_output mac info k n : (forall x, bytes (mac x) /\ zlen (mac x) = k) -> forall i prev,
  bytes (concat (hkdf_blocks mac info n i prev)) /\ zlen (concat (hkdf_blocks mac info n i prev)) = Z.of_nat n * k.
Proof.
  intros Hm; induction n as [|n IH]; intros i prev; cbn [hkdf_blocks concat]; [split; [constructor|reflexivity]|].
  destruct (Hm (prev ++ info ++ [i + 1])) as [Hb Hl]; destruct (IH (i + 1) (mac (prev ++ info ++ [i + 1]))) as [IH1 IH2].
  split; [now apply bytes_app|]; rewrite zlen_app, Hl, IH2; lia.
Qed.

Lemma extract_output m salt ikm : bytes (extract_of m salt ikm) /\ zlen (extract_of m salt ikm) = hash_size m.
Proof. apply (mac_output (md := md_of m) (H := hash_of m) salt ikm). Qed.

Lemma expand_output m secret label context len : 0 <= len ->
  bytes (expand_label_of m secret label context len) /\ zlen (expand_label_of m secret label context len) = len.
Proof.
  intros Hlen; unfold expand_label_of, hkdf_expand_spec; set (k := hash_size m).
  assert (0 < k) as Hk by (unfold k; destruct m; reflexivity).
  destruct (hkdf_blocks_output (hmac_spec (hash_of m) (block_size (md_of m)) secret) (hkdf_label_spec len label context) k
    (Z.to_nat ((len + k - 1) / k)) (mac_output (md := md_of m) (H := hash_of m) secret) 0 []) as [Hb Hl].
  split; [now apply bytes_ztake|]; rewrite zlen_ztake; [reflexivity|]; rewrite Hl.
  pose proof (Z.div_mod (len + k - 1) k); pose proof (Z.mod_pos_bound (len + k - 1) k); pose proof (Z.div_pos (len + k - 1) k); nia.
Qed.

Lemma hash_size_bound m : 0 < hash_size m <= 48.
Proof. destruct m; split; vm_compute; congruence. Qed.

Lemma hash_chunk m msg : bytes (hash_of m msg) /\ zlen (hash_of m msg) = hash_size m.
Proof. destruct (handshake_md_size m msg) as (? & ? & _); auto. Qed.

Create HintDb tls13.
#[export] Hint Resolve extract_output expand_output hash_chunk : tls13.

(** * The calls *)

(** The labels of the code. *)
Ltac literal_label := split; [unfold byte; repeat constructor; lia|vm_compute; discriminate].

Section Calls.
  Context {HA : Allocator}.
  Hypothesis mem : forall n, malloc_ok n = true.

Definition label_ok (label : list Z) : Prop := bytes label /\ zlen label <= 249.

Lemma expand_label_value m out secret label context : chunk secret -> label_ok label -> bytes context -> zlen context < 256 -> zlen out <= 255 * hash_size m ->
  hkdf_expand_label out (md_of m) secret label context = Some (Some (expand_label_of m secret label context (zlen out))).
Proof.
  intros Hs [Hl Hll] Hc Hcl Ho; pose proof (hash_size_bound m); unfold hkdf_expand_label.
  assert (Forall (fun x => bytes x /\ zlen x < 2 ^ 63) [secret; label; context]) as Hf.
  { constructor; [exact Hs|]; constructor; [split; [exact Hl|pow2; lia]|]; constructor; [split; [exact Hc|pow2; lia]|constructor]. }
  pose proof (tls13_expand_label_spec (md := md_of m) (H := hash_of m) out secret label context Hf ltac:(pow2; lia)) as H0.
  destruct (CRYPTO_tls13_hkdf_expand_label _ _ _ _ _) as [[[] o]|]; [|exfalso; destruct H0 as [_ H0]; specialize (H0 mem)|easy].
  - destruct H0 as [_ ->]; reflexivity.
  - rewrite !(proj2 (Z.ltb_lt _ _)), (proj2 (Z.leb_le _ _)) in H0 by (change (zlen kProtocolLabel) with 6; lia); discriminate.
Qed.

Lemma digest_bytes_value m data : chunk data -> digest_bytes data (md_of m) = Some (Some (hash_of m data)).
Proof.
  intros [Hb Hl]; unfold digest_bytes, EVP_Digest.
  destruct (DigestInit_holds (md := md_of m) EVP_MD_CTX_init ctx_init_ready) as [(c & -> & Hc)|(_ & _ & E)]; [|rewrite mem in E; discriminate].
  destruct (DigestUpdate_holds c [] data Hc Hb Hl) as (c1 & -> & Hc1); destruct (DigestFinal_holds c1 data Hc1) as (c2 & -> & _).
  rewrite ztake_all; [reflexivity|rewrite (proj2 (hash_chunk m data)); lia].
Qed.

Lemma extract_bytes_value m secret salt : chunk secret -> chunk (default [] salt) ->
  extract_bytes (md_of m) secret salt = Some (Some (extract_of m (default [] salt) secret)).
Proof.
  intros [Hs Hsl] Hk; unfold extract_bytes, HKDF_extract.
  rewrite (HMAC_value (md := md_of m) (H := hash_of m) salt secret ltac:(intros k ->; exact Hk) Hs Hsl), mem; fold (extract_of m (match salt with Some k => k | None => [] end) secret).
  rewrite ztake_all by (rewrite (proj2 (extract_output m _ _)); lia); destruct salt; reflexivity.
Qed.

Lemma verify_data_value m secret context : chunk secret -> chunk context ->
  tls13_verify_data (md_of m) secret context =
    Some (Some (extract_of m (expand_label_of m secret kTLS13LabelFinished [] (hash_size m)) context)).
Proof.
  intros Hs [Hc Hcl]; pose proof (hash_size_bound m); unfold tls13_verify_data.
  rewrite (expand_label_value m) by (first [assumption|rewrite zlen_zrep by lia; lia|literal_label|reflexivity|constructor]).
  rewrite zlen_zrep by lia; set (key := expand_label_of _ _ _ _ _); destruct (expand_output m secret kTLS13LabelFinished [] (hash_size m) ltac:(lia)) as [Hkb Hkl]; fold key in Hkb, Hkl.
  rewrite (HMAC_value (md := md_of m) (H := hash_of m) (Some key) context ltac:(intros k [= <-]; split; [exact Hkb|pow2; lia]) Hc Hcl), mem.
  fold (extract_of m key context); now rewrite ztake_all by (rewrite (proj2 (extract_output m _ _)); lia).
Qed.
End Calls.

(** * The schedule of the standard *)

(** The transcript and the secrets that have been derived. *)
Record schedule : Type := {
  ks_script : script;
  ks_secret : slot -> option (list Z)
}.

Inductive schedule_step : Type :=
  | KMessage (x : list Z)
  | KInit (psk : list Z)
  | KAdvance (in_ : list Z)
  | KHandshake
  | KApplication
  | KResumption.

Definition with_secret (a : schedule) (s : slot) (v : list Z) : schedule :=
  {| ks_script := ks_script a; ks_secret := fun t => if bool_decide (s = t) then Some v else ks_secret a t |}.

(** RFC 8446, section 7.1, for a connection of the given version and suite. *)
Definition step_meaning (version : Z) (c : SSL_CIPHER) (step : schedule_step) (a : schedule) : option schedule :=
  match step with
  | KMessage x => t ← op_meaning (TUpdate x) (ks_script a); Some {| ks_script := t; ks_secret := ks_secret a |}
  | KInit psk =>
      t ← op_meaning (TInitHash version c) (ks_script a); t ← op_meaning TFreeBuffer t;
      let m := handshake_md_of version c in
      Some (with_secret {| ks_script := t; ks_secret := fun _ => None |} Secret (extract_of m (zrep (hash_size m) 0) psk))
  | _ =>
      m ← s_md (ks_script a); v ← ks_secret a Secret;
      let derive label := derive_secret_of m v label (s_msg (ks_script a)) in
      Some match step with
      | KAdvance in_ => with_secret a Secret (extract_of m (derive_secret_of m v kTLS13LabelDerived []) in_)
      | KHandshake =>
          with_secret (with_secret a ClientHandshake (derive kTLS13LabelClientHandshakeTraffic)) ServerHandshake (derive kTLS13LabelServerHandshakeTraffic)
      | KApplication =>
          with_secret (with_secret (with_secret a ClientTraffic (derive kTLS13LabelClientApplicationTraffic))
            ServerTraffic (derive kTLS13LabelServerApplicationTraffic)) Exporter (derive kTLS13LabelExporter)
      | _ => with_secret a NewSession (derive kTLS13LabelResumption)
      end
  end.

Fixpoint schedule_meaning (version : Z) (c : SSL_CIPHER) (steps : list schedule_step) (a : schedule) : option schedule :=
  match steps with [] => Some a | step :: steps => a ← step_meaning version c step a; schedule_meaning version c steps a end.

Definition step_ok (step : schedule_step) : Prop :=
  match step with KMessage x => chunk x | KInit x => chunk x | KAdvance x => chunk x | _ => True end.

(** * The schedule of the code *)

Section Refines.
  Context {HA : Allocator}.
  Hypothesis mem : forall n, malloc_ok n = true.
  Variable ssl : connection.
  Variable c : SSL_CIPHER.
  Hypothesis suite : In c kCiphers.
  Local Open Scope hs_scope.

Definition run_step (step : schedule_step) : HS unit :=
  match step with
  | KMessage x => on_transcript false (transcript_Update x)
  | KInit psk => tls13_init_key_schedule ssl psk
  | KAdvance in_ => tls13_advance_key_schedule in_
  | KHandshake => tls13_derive_handshake_secrets
  | KApplication => tls13_derive_application_secrets
  | KResumption => tls13_derive_resumption_secret
  end.

Fixpoint run_steps (steps : list schedule_step) : HS unit :=
  match steps with [] => hs_ret tt | step :: steps => run_step step ;; run_steps steps end.

(** The state of the code and that of the standard. *)
Definition schedule_ok (hs : tls13_hs) (a : schedule) : Prop :=
  transcribes (transcript hs) (ks_script a) /\ new_cipher hs = c /\ handback hs = false /\ (forall s, zlen (get_slot s hs) = SSL_MAX_MD_SIZE) /\
  forall s v, ks_secret a s = Some v -> exists m, s_md (ks_script a) = Some m /\ bytes v /\ zlen v = hash_size m /\ slot_len s hs = hash_size m /\ span_of s hs = v.

Lemma get_put s t x hs : get_slot t (put_slot s x hs) = if bool_decide (s = t) then x else get_slot t hs.
Proof. now destruct t. Qed.

Lemma slot_len_put s t x hs : slot_len t (put_slot s x hs) = slot_len t hs.
Proof. now destruct t. Qed.

Lemma write_span_spec s t x hs : zlen x = slot_len s hs -> slot_len s hs <= zlen (get_slot s hs) ->
  span_of t (write_span s x hs) = (if bool_decide (s = t) then x else span_of t hs) /\ zlen (get_slot t (write_span s x hs)) = zlen (get_slot t hs).
Proof.
  intros Hl Ha; unfold span_of, write_span; rewrite get_put, slot_len_put; pose proof (zlen_nonneg x); case_bool_decide as E; [subst t|auto].
  split; [rewrite zsplice_0; apply ztake_app_eq; lia|apply zlen_zsplice; lia].
Qed.

(** A secret that is written where the schedule has it. *)
Lemma write_ok hs a m s v : schedule_ok hs a -> s_md (ks_script a) = Some m -> bytes v -> zlen v = hash_size m -> slot_len s hs = hash_size m ->
  schedule_ok (write_span s v hs) (with_secret a s v).
Proof.
  intros (Ht & Hc & Hh & Harr & Hv) Em Hb Hl Hs; pose proof (hash_size_bound m) as Hm.
  assert (forall t, span_of t (write_span s v hs) = (if bool_decide (s = t) then v else span_of t hs) /\ zlen (get_slot t (write_span s v hs)) = zlen (get_slot t hs)) as W.
  { intros t; apply write_span_spec; [lia|rewrite Harr; unfold SSL_MAX_MD_SIZE; lia]. }
  split; [exact Ht|]; split; [exact Hc|]; split; [exact Hh|]; split; [intros t; now rewrite (proj2 (W t)), Harr|].
  intros t v' E; rewrite (proj1 (W t)); unfold write_span; rewrite slot_len_put; cbn [with_secret ks_secret ks_script] in *.
  case_bool_decide; [injection E as <-; subst t; eauto 8|exact (Hv t v' E)].
Qed.

Ltac hs_run := unfold hs_bind, hs_get, hs_call, hs_set, not_null; cbv beta iota.

Lemma schedule_digest hs a m : schedule_ok hs a -> s_md (ks_script a) = Some m -> transcript_digest (transcript hs) = Some (md_of m).
Proof. intros (Ht & _) Em; rewrite (transcribes_digest _ _ Ht), Em; reflexivity. Qed.

Lemma secret_facts hs a m s v : schedule_ok hs a -> s_md (ks_script a) = Some m -> ks_secret a s = Some v ->
  span_of s hs = v /\ chunk v /\ zlen v = hash_size m /\ slot_len s hs = hash_size m.
Proof.
  intros (_ & _ & _ & _ & Hv) Em E; destruct (Hv s v E) as (m' & Em' & Hb & Hl & Hsl & Es); rewrite Em in Em'; injection Em' as <-.
  pose proof (hash_size_bound m); split; [exact Es|]; split; [split; [exact Hb|pow2; lia]|auto].
Qed.

Lemma derive_ok hs a m v s label : schedule_ok hs a -> s_md (ks_script a) = Some m -> ks_secret a Secret = Some v -> label_ok label -> slot_len s hs = hash_size m ->
  exists hs', derive_secret s label hs = Some (Some tt, hs') /\ schedule_ok hs' (with_secret a s (derive_secret_of m v label (s_msg (ks_script a)))) /\
    forall t, slot_len t hs' = slot_len t hs.
Proof.
  intros Ha Em Ev Hlab Hlen; pose proof Ha as (Ht & _ & _ & Harr & _); destruct (secret_facts hs a m Secret v Ha Em Ev) as (Es & Hc & Hl & _); pose proof (hash_size_bound m).
  unfold derive_secret, derive_secret_with_transcript; hs_run; cbn [chosen]; rewrite (GetHash_spec _ _ m Ht Em), mem, (schedule_digest hs a m Ha Em), Es.
  destruct (hash_chunk m (s_msg (ks_script a))) as [Hhb Hhl]; assert (zlen (span_of s hs) = hash_size m) as Hsp.
  { unfold span_of; rewrite Hlen; apply zlen_ztake; rewrite Harr; unfold SSL_MAX_MD_SIZE; lia. }
  rewrite (expand_label_value mem m (span_of s hs) v label (hash_of m (s_msg (ks_script a))) Hc Hlab Hhb ltac:(lia) ltac:(lia)), Hsp.
  fold (derive_secret_of m v label (s_msg (ks_script a))); destruct (expand_output m v label (hash_of m (s_msg (ks_script a))) (hash_size m) ltac:(lia)) as [Hob Hol].
  eexists; split; [reflexivity|]; split; [now apply write_ok with m|intros t; apply slot_len_put].
Qed.

Lemma extract_ok hs a m v in_ : schedule_ok hs a -> s_md (ks_script a) = Some m -> ks_secret a Secret = Some v -> chunk in_ ->
  exists hs', hkdf_extract_to_secret false in_ hs = Some (Some tt, hs') /\ schedule_ok hs' (with_secret a Secret (extract_of m v in_)).
Proof.
  intros Ha Em Ev Hin; destruct (secret_facts hs a m Secret v Ha Em Ev) as (Es & Hc & Hl & Hlen).
  unfold hkdf_extract_to_secret; hs_run; cbn [chosen]; rewrite (schedule_digest hs a m Ha Em), Es, (extract_bytes_value mem m in_ (Some v) Hin Hc); cbn [default].
  eexists; split; [reflexivity|]; destruct (extract_output m v in_); now apply write_ok with m.
Qed.

Lemma with_secret_twice hs a s x y : schedule_ok hs (with_secret (with_secret a s x) s y) -> schedule_ok hs (with_secret a s y).
Proof.
  intros (H1 & H2 & H3 & H4 & H5); repeat (split; [assumption|]); intros t v E; apply (H5 t v); cbn [with_secret ks_secret] in *; case_bool_decide; assumption.
Qed.

Lemma advance_ok hs a a' in_ : schedule_ok hs a -> chunk in_ -> step_meaning (ssl_protocol_version ssl) c (KAdvance in_) a = Some a' ->
  exists hs', tls13_advance_key_schedule in_ hs = Some (Some tt, hs') /\ schedule_ok hs' a'.
Proof.
  intros Ha Hin; cbn [step_meaning]; destruct (s_md (ks_script a)) as [m|] eqn:Em; [|discriminate]; destruct (ks_secret a Secret) as [v|] eqn:Ev; [|discriminate].
  cbn [mbind option_bind]; intros [= <-]; destruct (secret_facts hs a m Secret v Ha Em Ev) as (Es & Hc & Hl & Hlen); pose proof (hash_size_bound m).
  unfold tls13_advance_key_schedule, hs_bind at 1 2 3 4 5 6; unfold hs_get, hs_call, hs_set, not_null; cbv beta iota.
  assert (chunk (@nil Z)) as Hnil by (split; [constructor|reflexivity]); destruct (hash_chunk m []) as [Hhb Hhl].
  rewrite (schedule_digest hs a m Ha Em), (digest_bytes_value mem m [] Hnil), Es, (expand_label_value mem m v v kTLS13LabelDerived (hash_of m []) Hc ltac:(literal_label) Hhb ltac:(lia) ltac:(lia)), Hl.
  fold (derive_secret_of m v kTLS13LabelDerived []); set (d := derive_secret_of _ _ _ _); destruct (expand_output m v kTLS13LabelDerived (hash_of m []) (hash_size m) ltac:(lia)) as [Hob Hol].
  assert (schedule_ok (write_span Secret d hs) (with_secret a Secret d)) as Hw by (apply write_ok with m; auto).
  destruct (extract_ok _ _ m d in_ Hw Em ltac:(reflexivity) Hin) as (hs' & -> & H'); exists hs'; split; [reflexivity|now apply with_secret_twice in H'].
Qed.

Lemma handshake_ok hs a a' : schedule_ok hs a -> step_meaning (ssl_protocol_version ssl) c KHandshake a = Some a' ->
  exists hs', tls13_derive_handshake_secrets hs = Some (Some tt, hs') /\ schedule_ok hs' a'.
Proof.
  intros Ha; cbn [step_meaning]; destruct (s_md (ks_script a)) as [m|] eqn:Em; [|discriminate]; destruct (ks_secret a Secret) as [v|] eqn:Ev; [|discriminate].
  cbn [mbind option_bind]; intros [= <-]; destruct (secret_facts hs a m Secret v Ha Em Ev) as (_ & _ & _ & Hlen); unfold tls13_derive_handshake_secrets, hs_bind.
  destruct (derive_ok hs a m v ClientHandshake kTLS13LabelClientHandshakeTraffic Ha Em Ev ltac:(literal_label) Hlen) as (hs1 & -> & H1 & L1).
  destruct (derive_ok hs1 _ m v ServerHandshake kTLS13LabelServerHandshakeTraffic H1 Em Ev ltac:(literal_label)) as (hs2 & -> & H2 & _); [rewrite L1; exact Hlen|eauto].
Qed.

(** The lengths of the exporter secret and of the session secret are set. *)
Lemma lengths_ok hs a m exporter session : schedule_ok hs a -> s_md (ks_script a) = Some m ->
  exporter = exporter_secret_len hs \/ exporter = hash_size m -> session = new_session_secret_length hs \/ session = hash_size m ->
  schedule_ok (with_lengths hs (hash_len_ hs) exporter session) a.
Proof.
  intros (H1 & H2 & H3 & H4 & H5) Em He Hn; split; [exact H1|]; split; [exact H2|]; split; [exact H3|]; split; [intros s; rewrite <- (H4 s); now destruct s|].
  intros s v E; destruct (H5 s v E) as (m' & Em' & Hb & Hl & Hs & Es); rewrite Em in Em'; injection Em' as <-; exists m; repeat (split; [assumption|]); rewrite <- Es; unfold span_of.
  assert (slot_len s (with_lengths hs (hash_len_ hs) exporter session) = slot_len s hs) as ->.
  { destruct s; try reflexivity; cbn [slot_len with_lengths exporter_secret_len new_session_secret_length] in *; [destruct He|destruct Hn]; congruence. }
  split; [exact Hs|]; now destruct s.
Qed.

Lemma digest_len_ok hs a m : schedule_ok hs a -> s_md (ks_script a) = Some m -> DigestLen (transcript hs) = Some (hash_size m).
Proof. intros Ha Em; unfold DigestLen; now rewrite (schedule_digest hs a m Ha Em). Qed.

Lemma application_ok hs a a' : schedule_ok hs a -> step_meaning (ssl_protocol_version ssl) c KApplication a = Some a' ->
  exists hs', tls13_derive_application_secrets hs = Some (Some tt, hs') /\ schedule_ok hs' a'.
Proof.
  intros Ha; cbn [step_meaning]; destruct (s_md (ks_script a)) as [m|] eqn:Em; [|discriminate]; destruct (ks_secret a Secret) as [v|] eqn:Ev; [|discriminate].
  cbn [mbind option_bind]; intros [= <-]; destruct (secret_facts hs a m Secret v Ha Em Ev) as (_ & _ & _ & Hlen); unfold tls13_derive_application_secrets; hs_run.
  rewrite (digest_len_ok hs a m Ha Em); set (hs0 := with_lengths hs _ _ _).
  assert (schedule_ok hs0 a) as H0 by (apply lengths_ok with m; auto).
  destruct (derive_ok hs0 a m v ClientTraffic kTLS13LabelClientApplicationTraffic H0 Em Ev ltac:(literal_label) Hlen) as (hs1 & -> & H1 & L1).
  destruct (derive_ok hs1 _ m v ServerTraffic kTLS13LabelServerApplicationTraffic H1 Em Ev ltac:(literal_label)) as (hs2 & -> & H2 & L2); [rewrite L1; exact Hlen|].
  destruct (derive_ok hs2 _ m v Exporter kTLS13LabelExporter H2 Em Ev ltac:(literal_label)) as (hs3 & -> & H3 & _); [rewrite L2, L1; reflexivity|eauto].
Qed.

Lemma resumption_ok hs a a' : schedule_ok hs a -> step_meaning (ssl_protocol_version ssl) c KResumption a = Some a' ->
  exists hs', tls13_derive_resumption_secret hs = Some (Some tt, hs') /\ schedule_ok hs' a'.
Proof.
  intros Ha; cbn [step_meaning]; destruct (s_md (ks_script a)) as [m|] eqn:Em; [|discriminate]; destruct (ks_secret a Secret) as [v|] eqn:Ev; [|discriminate].
  cbn [mbind option_bind]; intros [= <-]; pose proof (hash_size_bound m); unfold tls13_derive_resumption_secret; hs_run; rewrite (digest_len_ok hs a m Ha Em), (proj2 (Z.ltb_ge _ _)) by (unfold SSL_MAX_MASTER_KEY_LENGTH; lia).
  set (hs0 := with_lengths hs _ _ _); assert (schedule_ok hs0 a) as H0 by (apply lengths_ok with m; auto).
  destruct (derive_ok hs0 a m v NewSession kTLS13LabelResumption H0 Em Ev ltac:(literal_label) ltac:(reflexivity)) as (hs1 & -> & H1 & _); eauto.
Qed.

Lemma transcript_ok hs a t inner sc : schedule_ok hs a -> transcribes t sc -> s_md sc = s_md (ks_script a) ->
  schedule_ok (with_transcripts hs t inner) {| ks_script := sc; ks_secret := ks_secret a |}.
Proof.
  intros (H1 & H2 & H3 & H4 & H5) Ht Em; split; [exact Ht|]; split; [exact H2|]; split; [exact H3|]; split; [intros s; rewrite <- (H4 s); now destruct s|].
  intros s v E; destruct (H5 s v E) as (m & Em' & Hb & Hl & Hs & Es); exists m; cbn [ks_script]; rewrite Em.
  split; [exact Em'|]; split; [exact Hb|]; split; [exact Hl|]; split; [rewrite <- Hs|rewrite <- Es]; now destruct s.
Qed.

Lemma message_step_ok hs a a' x : schedule_ok hs a -> chunk x -> step_meaning (ssl_protocol_version ssl) c (KMessage x) a = Some a' -> zlen (s_msg (ks_script a')) < 2 ^ 63 ->
  exists hs', on_transcript false (transcript_Update x) hs = Some (Some tt, hs') /\ schedule_ok hs' a'.
Proof.
  intros Ha [Hx Hl]; cbn [step_meaning op_meaning mbind option_bind]; intros [= <-] Hz; cbn [ks_script s_msg] in Hz; pose proof Ha as (Ht & _).
  destruct (Update_spec (transcript hs) (ks_script a) x Ht Hx Hl) as (ok & t & E & H1 & H2); specialize (H2 mem Hz); subst ok.
  unfold on_transcript; cbn [chosen]; rewrite E; eexists; split; [reflexivity|]; cbn [set_chosen]; apply transcript_ok; auto.
Qed.

Lemma init_ok hs a a' psk : schedule_ok hs a -> chunk psk -> zlen (s_msg (ks_script a)) < 2 ^ 63 -> step_meaning (ssl_protocol_version ssl) c (KInit psk) a = Some a' ->
  exists hs', tls13_init_key_schedule ssl psk hs = Some (Some tt, hs') /\ schedule_ok hs' a'.
Proof.
  intros Ha Hpsk Hz; cbn [step_meaning]; set (version := ssl_protocol_version ssl); set (m := handshake_md_of version c); pose proof Ha as (Ht & Hc & Hh & Harr & _).
  destruct (op_meaning (TInitHash version c) (ks_script a)) as [s1|] eqn:E1; [|discriminate]; cbn [mbind option_bind].
  destruct (op_meaning TFreeBuffer s1) as [s2|] eqn:E2; [|discriminate]; cbn [mbind option_bind]; intros [= <-]; pose proof (hash_size_bound m) as Hm.
  destruct (InitHash_spec (transcript hs) (ks_script a) version c s1 Ht Hz suite E1) as (ok & t1 & Ei & H1 & Hok); rewrite (Hok mem) in *; specialize (H1 eq_refl).
  assert (s_md s1 = Some m) as Em1 by (cbn [op_meaning] in E1; case_bool_decide; [injection E1 as <-; assumption|]; destruct (s_kept (ks_script a)); [|discriminate]; now injection E1 as <-).
  assert (s_md s2 = Some m) as Em2 by (cbn [op_meaning] in E2; rewrite Em1 in E2; now injection E2 as <-).
  assert (transcribes (FreeBuffer t1) s2) as H2.
  { destruct (run_op_spec TFreeBuffer t1 s1 s2 H1 ltac:(cbn [op_meaning] in E1; case_bool_decide; [injection E1 as <-; exact Hz|]; destruct (s_kept _); [injection E1 as <-; exact Hz|discriminate]) I E2) as (ok2 & t2 & [= <- <-] & H2 & _); auto. }
  unfold tls13_init_key_schedule, init_key_schedule, on_transcript; hs_run; rewrite Hc; cbn [chosen set_chosen]; fold version; rewrite Ei.
  assert (DigestLen t1 = Some (hash_size m)) as El by (unfold DigestLen; now rewrite (transcribes_digest t1 s1 H1), Em1).
  cbn [with_transcripts transcript]; rewrite El; unfold ResizeSecrets; rewrite (proj2 (Z.ltb_ge _ _)) by (unfold SSL_MAX_MD_SIZE; lia).
  match goal with |- context [handback ?h] => change (handback h) with (handback hs) end; rewrite Hh.
  match goal with |- exists hs', hkdf_extract_to_secret false psk ?h = _ /\ _ => set (hs1 := h) end.
  destruct (extract_ok hs1 (with_secret {| ks_script := s2; ks_secret := fun _ => None |} Secret (zrep (hash_size m) 0)) m (zrep (hash_size m) 0) psk) as (hs' & -> & H').
  - split; [exact H2|]; split; [exact Hc|]; split; [exact Hh|]; set (hs2 := with_lengths (with_transcripts hs t1 (inner_transcript hs)) (hash_size m) (exporter_secret_len hs) (new_session_secret_length hs)).
    assert (forall t, get_slot t hs2 = get_slot t hs) as Eg by (intros t; now destruct t).
    assert (forall t, span_of t (write_span Secret (zrep (hash_size m) 0) hs2) = (if bool_decide (Secret = t) then zrep (hash_size m) 0 else span_of t hs2) /\
      zlen (get_slot t (write_span Secret (zrep (hash_size m) 0) hs2)) = zlen (get_slot t hs2)) as W.
    { intros t; apply write_span_spec; change (slot_len Secret hs2) with (hash_size m); [apply zlen_zrep; lia|]; rewrite Eg, Harr; unfold SSL_MAX_MD_SIZE; lia. }
    split; [intros t; rewrite <- (Harr t), <- Eg, <- (proj2 (W t)); now destruct t|].
    intros t v E; cbn [with_secret ks_secret] in E; case_bool_decide as Et; [subst t; injection E as <-|discriminate]; exists m; cbn [with_secret ks_script].
    split; [exact Em2|]; split; [apply bytes_zrep; unfold byte; lia|]; split; [apply zlen_zrep; lia|]; split; [reflexivity|exact (proj1 (W Secret))].
  - exact Em2.
  - reflexivity.
  - exact Hpsk.
  - exists hs'; split; [reflexivity|]; now apply with_secret_twice in H'.
Qed.

Lemma step_length version step a a' : step_meaning version c step a = Some a' -> zlen (s_msg (ks_script a)) <= zlen (s_msg (ks_script a')).
Proof.
  destruct step as [x|psk|in_| | |]; cbn [step_meaning].
  3, 4, 5, 6: destruct (s_md (ks_script a)); [|discriminate]; destruct (ks_secret a Secret); [|discriminate]; cbn [mbind option_bind]; intros [= <-]; cbn [with_secret ks_script]; lia.
  - cbn [op_meaning mbind option_bind]; intros [= <-]; cbn [ks_script s_msg]; rewrite zlen_app; pose proof (zlen_nonneg x); lia.
  - destruct (op_meaning (TInitHash version c) (ks_script a)) as [s1|] eqn:E1; [|discriminate]; cbn [mbind option_bind].
    destruct (op_meaning TFreeBuffer s1) as [s2|] eqn:E2; [|discriminate]; cbn [mbind option_bind]; intros [= <-]; cbn [with_secret ks_script].
    assert (s_msg s1 = s_msg (ks_script a)) as <- by (cbn [op_meaning] in E1; case_bool_decide; [congruence|]; destruct (s_kept (ks_script a)); [|discriminate]; now injection E1 as <-).
    cbn [op_meaning] in E2; destruct (s_md s1); [|discriminate]; injection E2 as <-; cbn [s_msg]; lia.
Qed.

Lemma schedule_length version steps : forall a a', schedule_meaning version c steps a = Some a' -> zlen (s_msg (ks_script a)) <= zlen (s_msg (ks_script a')).
Proof.
  induction steps as [|step steps IH]; intros a a'; cbn [schedule_meaning]; [intros [= <-]; lia|].
  destruct (step_meaning version c step a) as [a1|] eqn:E; [|discriminate]; cbn [mbind option_bind]; intros E'; pose proof (step_length _ _ _ _ E); pose proof (IH _ _ E'); lia.
Qed.

Lemma run_steps_ok steps : forall hs a a', schedule_ok hs a -> Forall step_ok steps -> schedule_meaning (ssl_protocol_version ssl) c steps a = Some a' ->
  zlen (s_msg (ks_script a')) < 2 ^ 63 -> exists hs', run_steps steps hs = Some (Some tt, hs') /\ schedule_ok hs' a'.
Proof.
  induction steps as [|step steps IH]; intros hs a a' Ha Hok E Hz; cbn [schedule_meaning run_steps] in *; [injection E as <-; exists hs; auto|].
  apply Forall_cons_1 in Hok as [Hs Hok]; destruct (step_meaning (ssl_protocol_version ssl) c step a) as [a1|] eqn:E1; [|discriminate]; cbn [mbind option_bind] in E.
  pose proof (step_length _ _ _ _ E1); pose proof (schedule_length _ _ _ _ E).
  assert (exists hs1, run_step step hs = Some (Some tt, hs1) /\ schedule_ok hs1 a1) as (hs1 & Es & H1).
  { destruct step as [x|psk|in_| | |]; cbn [run_step step_ok] in *; eauto using handshake_ok, application_ok, resumption_ok, advance_ok.
    - apply message_step_ok with a; auto; lia.
    - apply init_ok with a; auto; lia. }
  unfold hs_bind; rewrite Es; exact (IH hs1 a1 a' H1 Hok E Hz).
Qed.

Lemma finished_value hs a m v (is_server : bool) : schedule_ok hs a -> s_md (ks_script a) = Some m ->
  ks_secret a (if is_server then ServerHandshake else ClientHandshake) = Some v ->
  tls13_finished_mac is_server hs =
    Some (Some (extract_of m (expand_label_of m v kTLS13LabelFinished [] (hash_size m)) (hash_of m (s_msg (ks_script a)))), hs).
Proof.
  intros Ha Em Ev; pose proof Ha as (Ht & _); destruct (secret_facts hs a m _ v Ha Em Ev) as (Es & Hc & _); pose proof (hash_size_bound m).
  unfold tls13_finished_mac; hs_run; rewrite Es, (GetHash_spec _ _ m Ht Em), mem, (schedule_digest hs a m Ha Em).
  destruct (hash_chunk m (s_msg (ks_script a))) as [Hb Hl]; now rewrite (verify_data_value mem m v _ Hc ltac:(split; [exact Hb|pow2; lia])).
Qed.

(** C25. The key schedule is that of RFC 8446. For any sequence of messages, starts of
    the schedule with a pre-shared key, steps to the next secret with a shared
    secret, and derivations of the handshake, application, exporter and
    resumption secrets, the calls succeed while memory lasts, every array of the
    handshake has the secret that the standard defines from the messages so
    far, and the MAC of a Finished message is the one of the standard. *)
Theorem tls13_key_schedule_refines (steps : list schedule_step) (hs : tls13_hs) (sc : script) (a : schedule) :
  transcribes (transcript hs) sc -> new_cipher hs = c -> handback hs = false -> (forall s, zlen (get_slot s hs) = SSL_MAX_MD_SIZE) -> Forall step_ok steps ->
  schedule_meaning (ssl_protocol_version ssl) c steps {| ks_script := sc; ks_secret := fun _ => None |} = Some a -> zlen (s_msg (ks_script a)) < 2 ^ 63 ->
  exists hs', run_steps steps hs = Some (Some tt, hs') /\ transcribes (transcript hs') (ks_script a) /\
    (forall s v, ks_secret a s = Some v -> span_of s hs' = v) /\
    (forall m v (is_server : bool), s_md (ks_script a) = Some m -> ks_secret a (if is_server then ServerHandshake else ClientHandshake) = Some v ->
       tls13_finished_mac is_server hs' =
         Some (Some (extract_of m (expand_label_of m v kTLS13LabelFinished [] (hash_size m)) (hash_of m (s_msg (ks_script a)))), hs')).
Proof.
  intros Ht Hc Hh Harr Hok E Hz; assert (schedule_ok hs {| ks_script := sc; ks_secret := fun _ => None |}) as H0 by (repeat (split; [assumption|]); discriminate).
  destruct (run_steps_ok steps hs _ a H0 Hok E Hz) as (hs' & Er & H').
  exists hs'; split; [exact Er|]; split; [apply H'|]; split; [intros s v Ev|intros m v is_server; now apply finished_value].
  destruct H' as (_ & _ & _ & _ & H'); now destruct (H' s v Ev) as (? & _ & _ & _ & _ & ?).
Qed.
End Refines.

(** * A handshake without a pre-shared key *)

Section Sample.
  Local Existing Instance allocator_total.

Definition sample_hs : tls13_hs :=
  let z := zrep 48 0 in
  {| transcript := {| buffer_ := Some BUF_MEM_new; hash_ := EVP_MD_CTX_init |}; inner_transcript := transcript_new; selected_ech_config := false;
     handback := false; new_cipher := sample_cipher; hash_len_ := 0; secret_ := z; early_traffic_secret_ := z; client_handshake_secret_ := z;
     server_handshake_secret_ := z; client_traffic_secret_0_ := z; server_traffic_secret_0_ := z; exporter_secret_len := 0; exporter_secret := z;
     new_session_secret_length := 0; new_session_secret := z |}.
Definition sample_steps : list schedule_step :=
  [KMessage [1; 0; 0; 1; 5]; KInit (zrep 32 0); KMessage [2; 0; 0; 1; 6]; KAdvance (zrep 32 9); KHandshake; KMessage [20; 0; 0; 1; 7]; KAdvance (zrep 32 0); KApplication].
Definition sample_start : schedule := {| ks_script := {| s_md := None; s_msg := []; s_kept := true |}; ks_secret := fun _ => None |}.
Abbreviation sample_end := (schedule_meaning TLS1_3_VERSION sample_cipher sample_steps sample_start).

(** The secret before the first step is the early secret of RFC 8448, section 3. *)
Lemma tls13_key_schedule_refines_witness :
  extract_of HS_sha256 (zrep 32 0) (zrep 32 0) = be_enc 32 0x33ad0a1c607ec03b09e6cd9893680ce210adf300aa1f2660e1b22e10f170f92a /\
  exists hs', run_steps sample_ssl sample_steps sample_hs = Some (Some tt, hs') /\
    span_of ClientTraffic hs' = default [] (a ← sample_end; ks_secret a ClientTraffic).
Proof.
  split; [vm_compute; reflexivity|]; assert (sample_end = Some (default sample_start sample_end)) as E by (apply some_default; vm_compute; reflexivity).
  destruct (tls13_key_schedule_refines (HA := allocator_total) (fun _ => eq_refl) sample_ssl sample_cipher ltac:(apply nth_In, Nat.ltb_lt; reflexivity) sample_steps sample_hs
    {| s_md := None; s_msg := []; s_kept := true |} (default sample_start sample_end)) as (hs' & Er & _ & Hs & _).
  - split; [constructor|]; split; [now left|]; split; [reflexivity|]; split; [reflexivity|]; split; [apply bm_new_ok|reflexivity].
  - reflexivity.
  - reflexivity.
  - intros s; destruct s; reflexivity.
  - assert (forall x, byte x -> chunk (zrep 32 x)) as Hz by (intros x Hx; split; [now apply bytes_zrep|reflexivity]).
    repeat apply List.Forall_cons; try apply List.Forall_nil; try exact I; first [apply Hz; unfold byte; lia|split; [each_literal|reflexivity]].
  - exact E.
  - vm_compute; reflexivity.
  - exists hs'; split; [exact Er|]; apply Hs; vm_compute; reflexivity.
Defined.
End Sample.
