(* ===== verification/Tls13Keys.v ===== *)
(** The uses of the secrets of TLS 1.3 (Tls13Enc.v): the traffic keys of the two
    ends of a connection, through any number of updates; the binders of
    pre-shared keys; and exported keying material. *)

From S2P Require Import Prelude Mem Cbs BufMem Words Md32 Sha256 Sha512 Sha1 Md5 Digest Hmac Kdf TlsKdf Aead.
From S2P Require Import SslVersions SslCipher SslAead TlsMessage TlsRecord TlsFlight Transcript Tls1Enc Tls13Enc Tls13Spec.

(** The digest of a session. *)
Definition session_md (session : SSL_SESSION) : handshake_md := handshake_md_of (ssl_session_protocol_version session) (session_cipher session).

Lemma session_digest session : In (session_cipher session) kCiphers -> ssl_session_get_digest session = Some (md_of (session_md session)).
Proof. apply handshake_digest_of. Qed.

(** * Traffic keys *)

Section Paired.
  Context {HA : Allocator} {HR : RandomSource} {S : Type} (aeads : aead_name -> EVP_AEAD S) {T : AeadTable aeads}.
  Variable sizeof_buf : Z.
  Variable place : BUF_MEM -> Z.
  Variable tmp_prefix sizeof_ctx : Z.

Abbreviation set_key ssl d session secret c := (tls13_set_traffic_key sizeof_buf place tmp_prefix aeads sizeof_ctx ssl d session secret c).
Abbreviation rotate ssl d session c := (tls13_rotate_traffic_key sizeof_buf place tmp_prefix aeads sizeof_ctx ssl session d c).

(** The secret of one direction. *)
Definition secret_of (d : evp_aead_direction_t) (c : tls13_conn S) : list Z :=
  match d with evp_aead_open => read_traffic_secret c | evp_aead_seal => write_traffic_secret c end.

Lemma set_key_inv ssl d session secret c c' : set_key ssl d session secret c = Some (true, c') ->
  exists key iv ctx, traffic_keys aeads session secret = Some (Some (key, iv)) /\
    Create aeads sizeof_ctx d (ssl_version session) false (session_cipher session) key [] iv = Some ctx /\
    set_state sizeof_buf place tmp_prefix ssl d ctx (c_keyed c) = (true, c_keyed c') /\ secret_of d c' = secret.
Proof.
  unfold tls13_set_traffic_key; destruct (traffic_keys aeads session secret) as [[[key iv]|]|]; [|discriminate|discriminate].
  destruct (Create _ _ _ _ _ _ _ _ _) as [ctx|] eqn:Ec; [|discriminate]; destruct (SSL_MAX_MD_SIZE <? zlen secret); [discriminate|].
  destruct (set_state _ _ _ _ _ _ _) as [[] k] eqn:Es; cbn [negb]; [|discriminate]; intros [= <-].
  exists key, iv, ctx; destruct d; auto.
Qed.

(** The states that the two ends install. *)
Lemma installed_in_sync a b session key iv ctx ctx' ka kb ka' kb' : In (ssl_version session) kTLSVersions -> In (session_cipher session) kCiphers ->
  ssl_version session <= SSL_CIPHER_get_max_version (session_cipher session) ->
  Create aeads sizeof_ctx evp_aead_seal (ssl_version session) false (session_cipher session) key [] iv = Some ctx ->
  Create aeads sizeof_ctx evp_aead_open (ssl_version session) false (session_cipher session) key [] iv = Some ctx' ->
  set_state sizeof_buf place tmp_prefix a evp_aead_seal ctx ka = (true, ka') -> set_state sizeof_buf place tmp_prefix b evp_aead_open ctx' kb = (true, kb') ->
  exists n, in_sync (A := aeads n) (tag := table_tag n) (paired := table_paired n) (o_write (k_out ka')) (k_read kb').
Proof.
  intros Hv Hc Hmax C1 C2; cbn [set_state]; unfold tls_set_write_state, tls_set_read_state.
  destruct (tls_flush_pending_hs_data _ _ _ _ _) as [[] w]; [|discriminate]; destruct (tls_has_unprocessed_handshake_data _); [discriminate|].
  intros [= <-] [= <-]; cbn [k_out k_read with_o_write o_write]; exact (Create_in_sync aeads sizeof_ctx _ _ key [] iv ctx ctx' _ _ _ _ _ Hv Hc Hmax C1 C2).
Qed.

(** What a call that has succeeded has computed. *)
Lemma expand_label_result m out secret label context o : chunk secret -> label_ok label -> chunk context -> zlen out < 2 ^ 64 ->
  hkdf_expand_label out (md_of m) secret label context = Some (Some o) -> o = expand_label_of m secret label context (zlen out).
Proof.
  intros Hs [Hl Hll] Hc Ho; unfold hkdf_expand_label.
  assert (Forall (fun x => bytes x /\ zlen x < 2 ^ 63) [secret; label; context]) as Hf by
    (constructor; [exact Hs|]; constructor; [split; [exact Hl|pow2; lia]|]; constructor; [exact Hc|constructor]).
  pose proof (tls13_expand_label_spec (md := md_of m) (H := hash_of m) out secret label context Hf Ho) as H0.
  destruct (CRYPTO_tls13_hkdf_expand_label _ _ _ _ _) as [[[] o']|]; [|discriminate|discriminate]; intros [= <-]; apply H0.
Qed.

(** A change of the traffic keys of one direction. *)
Inductive key_change : Type := KSet (secret : list Z) | KUpdate.

Definition change_keys (ssl : connection) (d : evp_aead_direction_t) (session : SSL_SESSION) (ch : key_change) (c : tls13_conn S) : option (bool * tls13_conn S) :=
  match ch with KSet secret => set_key ssl d session secret c | KUpdate => rotate ssl d session c end.

(** RFC 8446, section 7.2. *)
Definition changed_secret (session : SSL_SESSION) (ch : key_change) (old : list Z) : list Z :=
  match ch with KSet secret => secret | KUpdate => expand_label_of (session_md session) old kTLS13LabelApplicationTraffic [] (zlen old) end.

Lemma change_keys_inv ssl d session ch c c' : In (session_cipher session) kCiphers -> (ch = KUpdate -> chunk (secret_of d c)) ->
  change_keys ssl d session ch c = Some (true, c') ->
  let secret := changed_secret session ch (secret_of d c) in
  exists key iv ctx k0, traffic_keys aeads session secret = Some (Some (key, iv)) /\
    Create aeads sizeof_ctx d (ssl_version session) false (session_cipher session) key [] iv = Some ctx /\
    set_state sizeof_buf place tmp_prefix ssl d ctx k0 = (true, c_keyed c') /\ secret_of d c' = secret.
Proof.
  intros Hc Hs; destruct ch as [secret|]; cbn [change_keys changed_secret].
  - intros E; destruct (set_key_inv _ _ _ _ _ _ E) as (key & iv & ctx & H); exists key, iv, ctx, (c_keyed c); exact H.
  - unfold tls13_rotate_traffic_key; rewrite (session_digest session Hc); fold (secret_of d c); specialize (Hs eq_refl).
    destruct (hkdf_expand_label _ _ _ _ _) as [[o|]|] eqn:Eo; [|discriminate|discriminate]; intros E.
    apply (expand_label_result (session_md session)) in Eo; [|exact Hs|literal_label|split; [constructor|reflexivity]|destruct Hs; pow2; lia]; subst o.
    destruct (set_key_inv _ _ _ _ _ _ E) as (key & iv & ctx & H); eauto 6.
Qed.

(** C26. The traffic keys of the two ends go together. When one end changes the keys
    that it writes with, to a new secret or by an update, and the other the keys
    that it reads with, in the same way and from the same secret, the record
    layers are in step, whatever records have passed before, and both have the
    next secret of RFC 8446, so that the next update keeps them in step again. *)
Theorem tls13_traffic_keys_paired (a b : connection) (session : SSL_SESSION) (ch : key_change) (ca cb ca' cb' : tls13_conn S) :
  In (ssl_version session) kTLSVersions -> In (session_cipher session) kCiphers -> ssl_version session <= SSL_CIPHER_get_max_version (session_cipher session) ->
  (ch = KUpdate -> read_traffic_secret cb = write_traffic_secret ca /\ chunk (write_traffic_secret ca)) ->
  change_keys a evp_aead_seal session ch ca = Some (true, ca') -> change_keys b evp_aead_open session ch cb = Some (true, cb') ->
  write_traffic_secret ca' = changed_secret session ch (write_traffic_secret ca) /\ read_traffic_secret cb' = write_traffic_secret ca' /\
  exists n, in_sync (A := aeads n) (tag := table_tag n) (paired := table_paired n) (o_write (k_out (c_keyed ca'))) (k_read (c_keyed cb')).
Proof.
  intros Hv Hc Hmax Hs Ea Eb; destruct (change_keys_inv a evp_aead_seal session ch ca ca' Hc ltac:(intros E; exact (proj2 (Hs E))) Ea) as (key & iv & ctx & k0 & T1 & C1 & S1 & W1).
  destruct (change_keys_inv b evp_aead_open session ch cb cb' Hc ltac:(intros E; cbn [secret_of]; rewrite (proj1 (Hs E)); exact (proj2 (Hs E))) Eb) as (key' & iv' & ctx' & k1 & T2 & C2 & S2 & W2).
  assert (changed_secret session ch (secret_of evp_aead_open cb) = changed_secret session ch (secret_of evp_aead_seal ca)) as Es by
    (destruct ch; [reflexivity|]; cbn [changed_secret secret_of]; now rewrite (proj1 (Hs eq_refl))).
  rewrite Es in T2, W2; rewrite T1 in T2; injection T2 as <- <-; cbn [secret_of] in W1, W2.
  split; [exact W1|]; split; [congruence|]; exact (installed_in_sync a b session key iv ctx ctx' k0 k1 _ _ Hv Hc Hmax C1 C2 S1 S2).
Qed.
End Paired.

(** * The binders of pre-shared keys *)

(** RFC 8446, section 4.2.11.2: the MAC over the transcript [msgs] and the
    ClientHello up to its binders. *)
Definition binder_of (m : handshake_md) (psk msgs truncated : list Z) : list Z :=
  let binder_key := derive_secret_of m (extract_of m [] psk) kTLS13LabelPSKBinder [] in
  extract_of m (expand_label_of m binder_key kTLS13LabelFinished [] (hash_size m)) (hash_of m (msgs ++ truncated)).

(** What a string with a length byte is. *)
Lemma get_prefixed_inv c y rest : bytes c -> CBS_get_u8_length_prefixed c = (Some y, rest) -> c = zlen y :: y ++ rest /\ bytes y.
Proof.
  intros Hc; unfold CBS_get_u8_length_prefixed, cbs_get_length_prefixed; destruct c as [|n r]; [discriminate|]; apply bytes_cons in Hc as [Hn Hr].
  pose proof (cbs_get_u_be 1 n r ltac:(lia) ltac:(cbn; unfold byte in Hn; lia)) as E; change (Z.of_nat 1) with 1 in E.
  assert (be_enc 1 n = [n]) as E1 by (cbn; unfold byte in Hn; rewrite Z.mod_small by lia; reflexivity); rewrite E1 in E; cbn [app] in E.
  erewrite st_bind_some by exact E; unfold CBS_get_bytes, cbs_get, st_bind, st_ret, CBS_len, CBS_init; destruct (Z.ltb_spec (zlen r) n) as [|Hle]; [discriminate|].
  intros [= <- <-]; unfold byte in Hn; rewrite (ztake_all n (ztake n r)), zlen_ztake, ztake_zdrop by (rewrite ?zlen_ztake; lia); split; [reflexivity|now apply bytes_ztake].
Qed.

Section Binders.
  Context {HA : Allocator}.
  Hypothesis mem : forall n, malloc_ok n = true.
  Variable session : SSL_SESSION.
  Hypothesis suite : In (session_cipher session) kCiphers.
  Hypothesis psk_ok : chunk (session_secret session).
  Variables (t : SSLTranscript) (sc : script).
  Hypothesis messages_ok : transcribes t sc.
  Hypothesis messages_len : zlen (s_msg sc) < 2 ^ 63.
  Hypothesis same_digest : s_md sc = Some (session_md session) \/ s_kept sc = true.

Abbreviation m := (session_md session).
Abbreviation binder hello := (binder_of m (session_secret session) (s_msg sc) hello).

Lemma binder_output hello : bytes (binder hello) /\ zlen (binder hello) = hash_size m.
Proof. apply extract_output. Qed.

Lemma hash_with_transcript_value pieces : Forall (fun x => chunk x) pieces -> hash_with_transcript t (md_of m) pieces = Some (Some (hash_of m (s_msg sc ++ concat pieces))).
Proof.
  intros Hp; unfold hash_with_transcript; destruct (CopyToHashContext_spec t sc m messages_ok messages_len same_digest) as (ok & ctx & -> & Hc & Hok).
  specialize (Hok (mem _)); subst ok; destruct (DigestUpdates_holds pieces ctx (s_msg sc) (Hc eq_refl) Hp) as (ctx' & -> & Hc').
  destruct (DigestFinal_holds ctx' _ Hc') as (c & -> & _); rewrite ztake_all; [reflexivity|rewrite (proj2 (hash_chunk m _)); lia].
Qed.

Lemma psk_binder_value hello binders_len : chunk hello -> 0 <= binders_len <= zlen hello ->
  tls13_psk_binder session t hello binders_len = Some (Some (binder (ztake (zlen hello - binders_len) hello))).
Proof.
  intros [Hb Hl] Hlen; unfold tls13_psk_binder, binder_key_of; rewrite (session_digest session suite); pose proof (hash_size_bound m).
  assert (chunk (@nil Z)) as Hnil by (split; [constructor|reflexivity]); destruct (hash_chunk m []) as [Hhb Hhl].
  destruct (extract_output m [] (session_secret session)) as [Heb Hel].
  rewrite (digest_bytes_value mem m [] Hnil), (extract_bytes_value mem m (session_secret session) None psk_ok Hnil); cbn [default].
  rewrite (expand_label_value mem m (zrep (hash_size m) 0) _ kTLS13LabelPSKBinder (hash_of m []) ltac:(split; [exact Heb|pow2; lia]) ltac:(literal_label) Hhb ltac:(lia) ltac:(rewrite zlen_zrep; lia)).
  rewrite zlen_zrep, (proj2 (Z.ltb_ge _ _)) by lia; set (h := ztake _ hello).
  assert (chunk h) as Hh by (split; [now apply bytes_ztake|unfold h; rewrite zlen_ztake by lia; lia]).
  rewrite (hash_with_transcript_value [h]) by (constructor; [exact Hh|constructor]); cbn [concat]; rewrite app_nil_r; unfold binder_of, derive_secret_of.
  set (key := expand_label_of m _ kTLS13LabelPSKBinder _ _); destruct (expand_output m (extract_of m [] (session_secret session)) kTLS13LabelPSKBinder (hash_of m []) (hash_size m) ltac:(lia)) as [Hkb Hkl].
  destruct (hash_chunk m (s_msg sc ++ h)); fold key in Hkb, Hkl; apply (verify_data_value mem); split; auto; pow2; lia.
Qed.

Lemma verify_spec raw binders : chunk raw -> bytes binders -> 2 + zlen binders <= zlen raw ->
  exists b, tls13_verify_psk_binder session t raw binders = Some b /\
    (b = true <-> exists rest, binders = hash_size m :: binder (ztake (zlen raw - (2 + zlen binders)) raw) ++ rest).
Proof.
  intros Hraw Hb Hlen; pose proof (zlen_nonneg binders); pose proof (hash_size_bound m) as Hm; unfold tls13_verify_psk_binder, CBS_len.
  rewrite (psk_binder_value raw (2 + zlen binders) Hraw ltac:(lia)); set (x := binder _); destruct (binder_output (ztake (zlen raw - (2 + zlen binders)) raw)) as [Hxb Hxl]; fold x in Hxb, Hxl.
  assert (be_enc 1 (zlen x) = [hash_size m]) as Ex by (rewrite Hxl; cbn; rewrite Z.mod_small by lia; reflexivity).
  destruct (CBS_get_u8_length_prefixed binders) as [[y|] rest] eqn:Ey.
  - destruct (get_prefixed_inv binders y rest Hb Ey) as (Ebin & Hyb); pose proof (zlen_nonneg y); eexists; split; [reflexivity|]; rewrite andb_true_iff, !Z.eqb_eq; split.
    + intros [El Ec]; apply memcmp_equality in Ec; [|exact Hyb|exact Hxb|lia|lia]; rewrite !ztake_all in Ec by lia; exists rest; rewrite Ebin, Ec, Hxl; reflexivity.
    + intros [rest' E]; assert (y = x) as -> by (rewrite Ebin in E; injection E as E1 E2; apply app_inj_1 in E2 as [-> _]; [reflexivity|unfold zlen in *; lia]).
      split; [reflexivity|]; apply memcmp_equality; auto; lia.
  - eexists; split; [reflexivity|]; split; [discriminate|]; intros [rest' E]; exfalso.
    pose proof (get_length_prefixed_be 1 x rest' ltac:(lia) ltac:(cbn; lia)) as G; rewrite Ex in G; change (Z.of_nat 1) with 1 in G; fold CBS_get_u8_length_prefixed in G.
    cbn [app] in G; rewrite <- E, Ey in G; discriminate.
Qed.

Lemma binder_written msg : chunk msg -> 3 + hash_size m <= zlen msg ->
  tls13_write_psk_binder session t msg = Some (Some (ztake (zlen msg - hash_size m) msg ++ binder (ztake (zlen msg - (3 + hash_size m)) msg))).
Proof.
  intros Hmsg Hlen; pose proof (hash_size_bound m); unfold tls13_write_psk_binder; rewrite (session_digest session suite), (psk_binder_value msg (3 + hash_size m) Hmsg ltac:(lia)).
  set (x := binder _); destruct (binder_output (ztake (zlen msg - (3 + hash_size m)) msg)) as [Hxb Hxl]; fold x in Hxb, Hxl; rewrite Hxl, Z.eqb_refl, (proj2 (Z.ltb_ge _ _)) by lia; cbn [negb].
  unfold zsplice; rewrite zdrop_all by lia; now rewrite app_nil_r.
Qed.

(** C28. The binder of a pre-shared key. What a client writes over the placeholder at
    the end of its ClientHello the server accepts when it has the same session
    and transcript; and the server accepts nothing else: the first binder of the
    list must be the MAC of RFC 8446 over the transcript and the ClientHello up
    to its binders. *)
Theorem tls13_psk_binder_correct (pre placeholder : list Z) :
  zlen placeholder = hash_size m -> chunk (pre ++ be_enc 2 (1 + hash_size m) ++ hash_size m :: placeholder) ->
  let hello x := pre ++ be_enc 2 (1 + hash_size m) ++ hash_size m :: x in
  tls13_write_psk_binder session t (hello placeholder) = Some (Some (hello (binder pre))) /\
  tls13_verify_psk_binder session t (hello (binder pre)) (hash_size m :: binder pre) = Some true /\
  (forall raw binders, chunk raw -> bytes binders -> 2 + zlen binders <= zlen raw ->
     exists b, tls13_verify_psk_binder session t raw binders = Some b /\
       (b = true <-> exists rest, binders = hash_size m :: binder (ztake (zlen raw - (2 + zlen binders)) raw) ++ rest)).
Proof.
  intros Hp Hc hello; pose proof (hash_size_bound m) as Hm; destruct (binder_output pre) as [Hb Hl]; assert (byte (hash_size m)) as Hbyte by (unfold byte; lia).
  assert (forall x, zlen (hello x) = zlen pre + 3 + zlen x) as Hz by (intros x; unfold hello; rewrite !zlen_app, zlen_be_enc, zlen_cons; lia).
  assert (forall x, ztake (zlen pre) (hello x) = pre) as Hpre by (intros x; apply ztake_app_eq; reflexivity).
  assert (chunk (hello (binder pre))) as Hc'.
  { destruct Hc as [Hc Hcl]; split; [|fold (hello placeholder) in Hcl; rewrite Hz in *; lia]; apply bytes_app in Hc as [Hpb _]; unfold hello.
    apply bytes_app; split; [exact Hpb|]; apply bytes_app; split; [apply bytes_be_enc|now apply bytes_cons]. }
  pose proof (zlen_nonneg pre); split; [|split; [|exact verify_spec]].
  - fold (hello placeholder) in Hc; rewrite (binder_written (hello placeholder) Hc) by (rewrite Hz; lia); replace (zlen (hello placeholder) - (3 + hash_size m)) with (zlen pre) by (rewrite Hz; lia).
    assert (ztake (zlen (hello placeholder) - hash_size m) (hello placeholder) = pre ++ be_enc 2 (1 + hash_size m) ++ [hash_size m]) as E.
    { rewrite Hz; replace (hello placeholder) with ((pre ++ be_enc 2 (1 + hash_size m) ++ [hash_size m]) ++ placeholder) by (unfold hello; now rewrite <- !app_assoc).
      apply ztake_app_eq; rewrite !zlen_app, zlen_be_enc; change (zlen [hash_size m]) with 1; lia. }
    rewrite E, Hpre; unfold hello; now rewrite <- !app_assoc.
  - assert (bytes (hash_size m :: binder pre)) as Hbb by now apply bytes_cons.
    destruct (verify_spec (hello (binder pre)) (hash_size m :: binder pre) Hc' Hbb) as (b & -> & Hiff); [rewrite Hz, zlen_cons; lia|].
    assert (b = true) as ->; [|reflexivity]; apply Hiff; exists [].
    replace (zlen (hello (binder pre)) - (2 + zlen (hash_size m :: binder pre))) with (zlen pre) by (rewrite Hz, zlen_cons; lia); now rewrite Hpre, app_nil_r.
Qed.

(** * Exported keying material *)

(** RFC 8446, section 7.5. *)
Lemma export_value out secret label context : chunk secret -> 0 < zlen secret -> label_ok label -> chunk context -> zlen out <= 255 * hash_size m ->
  tls13_export_keying_material session out secret label context =
    Some (Some (expand_label_of m (derive_secret_of m secret label []) kTLS13LabelExportKeying (hash_of m context) (zlen out))).
Proof.
  intros Hs Hpos Hl Hc Ho; unfold tls13_export_keying_material; rewrite (proj2 (Z.eqb_neq _ _)), (session_digest session suite) by lia; pose proof (hash_size_bound m).
  assert (chunk (@nil Z)) as Hnil by (split; [constructor|reflexivity]); destruct (hash_chunk m []) as [Hb Hz], (hash_chunk m context) as [Hb' Hz'].
  rewrite (digest_bytes_value mem m context Hc), (digest_bytes_value mem m [] Hnil), (expand_label_value mem m (zrep (hash_size m) uninit_byte) secret label (hash_of m []) Hs Hl Hb ltac:(lia) ltac:(rewrite zlen_zrep; lia)), zlen_zrep by lia.
  fold (derive_secret_of m secret label []); destruct (expand_output m secret label (hash_of m []) (hash_size m) ltac:(lia)) as [Hdb Hdl]; fold (derive_secret_of m secret label []) in Hdb, Hdl.
  apply (expand_label_value mem); [split; [exact Hdb|pow2; lia]|literal_label|exact Hb'|lia|exact Ho].
Qed.
End Binders.

(** * Examples *)

Section Sample.
  Local Existing Instances allocator_total sample_random.

Definition sample_session : SSL_SESSION := {| ssl_version := TLS1_3_VERSION; session_cipher := sample_cipher; session_secret := zrep 32 3 |}.

(** A ClientHello of two bytes before the binders, at the start of a handshake. *)
Lemma tls13_psk_binder_correct_witness :
  let t := {| buffer_ := Some BUF_MEM_new; hash_ := EVP_MD_CTX_init |} in
  let hello x := [1; 7] ++ be_enc 2 33 ++ 32 :: x in
  let b := binder_of HS_sha256 (zrep 32 3) [] [1; 7] in
  tls13_write_psk_binder sample_session t (hello (zrep 32 0)) = Some (Some (hello b)) /\ tls13_verify_psk_binder sample_session t (hello b) (32 :: b) = Some true.
Proof.
  intros t hello b; destruct (tls13_psk_binder_correct (HA := allocator_total) (fun _ => eq_refl) sample_session ltac:(apply nth_In, Nat.ltb_lt; reflexivity)
    ltac:(split; [apply bytes_zrep; unfold byte; lia|reflexivity]) t {| s_md := None; s_msg := []; s_kept := true |}
    ltac:(split; [constructor|split; [now left|split; [reflexivity|split; [reflexivity|split; [apply bm_new_ok|reflexivity]]]]]) ltac:(reflexivity) (or_intror eq_refl)
    [1; 7] (zrep 32 0)) as (H1 & H2 & _).
  - reflexivity.
  - split; [|vm_compute; reflexivity]; apply bytes_app; split; [each_literal|]; apply bytes_app; split; [apply bytes_be_enc|].
    apply bytes_cons; split; [vm_compute; split; congruence|apply bytes_zrep; unfold byte; lia].
  - exact (conj H1 H2).
Defined.

(** A connection between records, with traffic secrets. *)
Definition sample_conn : tls13_conn Z := {| c_keyed := sample12_start; read_traffic_secret := zrep 32 4; write_traffic_secret := zrep 32 4 |}.
Abbreviation updated d := (change_keys toy_table 24 (fun _ => 65536) 8192 256 sample_ssl d sample_session KUpdate sample_conn).
Abbreviation updated_conn r := (match r with Some (_, c) => c | None => sample_conn end).

Lemma updated_ok (r : option (bool * tls13_conn Z)) : match r with Some (b, _) => b | None => false end = true -> r = Some (true, updated_conn r).
Proof. now destruct r as [[[] c]|]. Qed.

Lemma tls13_traffic_keys_paired_witness :
  let a := updated_conn (updated evp_aead_seal) in
  let b := updated_conn (updated evp_aead_open) in
  read_traffic_secret b = write_traffic_secret a /\
  exists n, in_sync (A := toy_table n) (tag := table_tag n) (paired := table_paired n) (o_write (k_out (c_keyed a))) (k_read (c_keyed b)).
Proof.
  intros a b; destruct (tls13_traffic_keys_paired toy_table 24 (fun _ => 65536) 8192 256 sample_ssl sample_ssl sample_session KUpdate sample_conn sample_conn a b) as (_ & H).
  - cbn; auto.
  - apply nth_In, Nat.ltb_lt; reflexivity.
  - vm_compute; discriminate.
  - intros _; split; [reflexivity|]; split; [apply bytes_zrep; unfold byte; lia|reflexivity].
  - apply updated_ok; vm_compute; reflexivity.
  - apply updated_ok; vm_compute; reflexivity.
  - exact H.
Defined.
End Sample.
