(* ===== verification/AppData.v ===== *)
(** Application data and alerts over TLS records (ssl/s3_pkt.cc): records are
    sealed into the write buffer behind what is left of a flight, the buffer is
    flushed, and a write that the transport does not take is finished by a
    retry; records that arrive are dispatched by their type.

    An outcome of a write has the return value, the number of bytes written (zero
    where the code does not set it) and the writer.

    [place] gives the address of the block of a [BUF_MEM], [buf_place] that of the
    block of the write buffer, [tmp_prefix] that of an array on the stack. An
    outer [None] is a call of abort() or the end of the fuel. The connection has
    no QUIC method; callbacks, rwstate, the flush of a BIO, which does nothing on
    the channels of Bio.v, and the errors that are queued are left out. *)

From S2P Require Import Prelude Mem Bio Cbs Cbb BufMem Words Md32 Sha256 Sha512 Sha1 Md5 Digest Aead.
From S2P Require Import SslVersions SslCipher SslAead TlsMessage TlsRecord SslBuffer TlsFlight.

Definition SSL_MODE_ENABLE_PARTIAL_WRITE : Z := 0x1.
Definition SSL_MODE_ACCEPT_MOVING_WRITE_BUFFER : Z := 0x2.
Definition SSL_AD_NO_RENEGOTIATION : Z := 100.
Definition SSL_R_BAD_CHANGE_CIPHER_SPEC : Z := 103.
Definition SSL_R_NO_RENEGOTIATION : Z := 182.
Definition SSL_R_TOO_MUCH_READ_EARLY_DATA : Z := 300.
Definition kMaxEarlyDataAccepted : Z := 14336.

(** The early data that a client may write: [early_session->ticket_max_early_data]
    is the limit of the server. *)
Record early_write : Type := {
  can_early_write : bool;
  early_data_written : Z;
  ticket_max_early_data : Z
}.

(** The writing side of a connection. [pending_write] has no bytes when no write is
    pending. *)
Record tls_writer (S C : Type) : Type := {
  a_out : tls_out S;
  write_buffer : SSLBuffer;
  a_wbio : option C;
  write_shutdown : ssl_shutdown_t;
  pending_write : buffer;
  pending_write_type : Z;
  unreported_bytes_written : Z;
  key_update_pending : bool;
  alert_dispatch : bool;
  send_alert : list Z;
  early : early_write
}.
Arguments a_out {S C}. Arguments write_buffer {S C}. Arguments a_wbio {S C}. Arguments write_shutdown {S C}. Arguments pending_write {S C}.
Arguments pending_write_type {S C}. Arguments unreported_bytes_written {S C}. Arguments key_update_pending {S C}. Arguments alert_dispatch {S C}.
Arguments send_alert {S C}. Arguments early {S C}.

Definition no_write : buffer := {| addr := 0; Aead.contents := [] |}.

Section Write.
  Context {HA : Allocator} {HR : RandomSource} {S C : Type} {CS : ByteStream C}.
  Variable sizeof_buf : Z.
  Variable place : BUF_MEM -> Z.
  Variable buf_place : SSLBuffer -> Z.
  Variable tmp_prefix new_buf : Z.
  Variable ssl : connection.
  Implicit Types w : tls_writer S C.

Definition with_io w (o : tls_out S) (b : SSLBuffer) (c : option C) : tls_writer S C :=
  {| a_out := o; write_buffer := b; a_wbio := c; write_shutdown := write_shutdown w; pending_write := pending_write w; pending_write_type := pending_write_type w;
     unreported_bytes_written := unreported_bytes_written w; key_update_pending := key_update_pending w; alert_dispatch := alert_dispatch w;
     send_alert := send_alert w; early := early w |}.
Definition with_pending w (x : buffer) (type : Z) : tls_writer S C :=
  {| a_out := a_out w; write_buffer := write_buffer w; a_wbio := a_wbio w; write_shutdown := write_shutdown w; pending_write := x; pending_write_type := type;
     unreported_bytes_written := unreported_bytes_written w; key_update_pending := key_update_pending w; alert_dispatch := alert_dispatch w;
     send_alert := send_alert w; early := early w |}.
Definition with_unreported w (n : Z) : tls_writer S C :=
  {| a_out := a_out w; write_buffer := write_buffer w; a_wbio := a_wbio w; write_shutdown := write_shutdown w; pending_write := pending_write w;
     pending_write_type := pending_write_type w; unreported_bytes_written := n; key_update_pending := key_update_pending w; alert_dispatch := alert_dispatch w;
     send_alert := send_alert w; early := early w |}.
Definition with_early w (e : early_write) : tls_writer S C :=
  {| a_out := a_out w; write_buffer := write_buffer w; a_wbio := a_wbio w; write_shutdown := write_shutdown w; pending_write := pending_write w;
     pending_write_type := pending_write_type w; unreported_bytes_written := unreported_bytes_written w; key_update_pending := key_update_pending w;
     alert_dispatch := alert_dispatch w; send_alert := send_alert w; early := e |}.
Definition with_update_sent w : tls_writer S C :=
  {| a_out := a_out w; write_buffer := write_buffer w; a_wbio := a_wbio w; write_shutdown := write_shutdown w; pending_write := pending_write w;
     pending_write_type := pending_write_type w; unreported_bytes_written := unreported_bytes_written w; key_update_pending := false;
     alert_dispatch := alert_dispatch w; send_alert := send_alert w; early := early w |}.
Definition with_alert w (sd : ssl_shutdown_t) (dispatch : bool) (alert : list Z) : tls_writer S C :=
  {| a_out := a_out w; write_buffer := write_buffer w; a_wbio := a_wbio w; write_shutdown := sd; pending_write := pending_write w;
     pending_write_type := pending_write_type w; unreported_bytes_written := unreported_bytes_written w; key_update_pending := key_update_pending w;
     alert_dispatch := dispatch; send_alert := alert; early := early w |}.

(** [ssl_write_buffer_flush] *)
Definition flush_writer w : option (Z * tls_writer S C) :=
  r ← ssl_write_buffer_flush false (a_wbio w) (write_buffer w);
  let '(ret, c, b) := r in Some (ret, with_io w (a_out w) b c).

(** What is left of the flight. *)
Definition flight_rest (o : tls_out S) : option (list Z) :=
  match pending_flight o with
  | None => Some []
  | Some fl => if bm_length fl <? pending_flight_offset o then None else Some (zdrop (pending_flight_offset o) (bm_contents fl))
  end.

(** [buf->remaining()] *)
Definition remaining (b : SSLBuffer) : buffer :=
  {| addr := buf_place b + offset_ b + size_ b; Aead.contents := ztake (cap_ b - size_ b) (zdrop (offset_ b + size_ b) (block b)) |}.

(** Everything of [do_tls_write] after the checks on a pending write: the flight
    and the record go into the buffer. *)
Definition fill_buffer (type : Z) (in_ : buffer) (flight : list Z) (max_out : Z) w : option (bool * tls_writer S C) :=
  let header_len := zlen flight + ssl_seal_align_prefix_len ssl (o_write (a_out w)) in
  let '(ok, b) := EnsureCap new_buf header_len max_out (write_buffer w) in
  let w := with_io w (a_out w) b (a_wbio w) in
  if negb ok then Some (false, w)
  else
    w ← (if zlen flight =? 0 then Some w
         else b ← DidWrite (zlen flight) (store_after b flight); Some (with_io w (with_flight_buf (a_out w) None 0) b (a_wbio w)));
    if zlen (Aead.contents in_) =? 0 then Some (true, w)
    else
      match tls_seal_record ssl (o_write (a_out w)) tmp_prefix type (remaining (write_buffer w)) in_ with
      | (None, wr) => Some (false, with_io w (with_o_write (a_out w) wr) (write_buffer w) (a_wbio w))
      | (Some bs, wr) =>
          b ← DidWrite (zlen bs) (store_after (write_buffer w) bs);
          Some (true, with_io w (with_o_write (a_out w) wr) b (a_wbio w))
      end.

(** The return value, [out_bytes_written] and the writer. *)
Definition do_tls_write (type : Z) (in_ : buffer) w : option (Z * Z * tls_writer S C) :=
  let size := zlen (Aead.contents in_) in
  let pending := zlen (Aead.contents (pending_write w)) in
  if negb (pending =? 0) &&
     ((size <? pending) || ((Z.land (mode ssl) SSL_MODE_ACCEPT_MOVING_WRITE_BUFFER =? 0) && negb (addr (pending_write w) =? addr in_)) || negb (pending_write_type w =? type))
  then Some (-1, 0, w)
  else
    r ← flush_writer w;
    let '(ret, w) := r in
    if ret <=? 0 then Some (ret, 0, w)
    else if negb (pending =? 0) then Some (1, pending, with_pending w no_write (pending_write_type w))
    else if (SSL3_RT_MAX_PLAIN_LENGTH <? size) || (0 <? size_ (write_buffer w)) then Some (-1, 0, w)
    else
      let '(ok, o) := tls_flush_pending_hs_data sizeof_buf place tmp_prefix ssl (a_out w) in
      let w := with_io w o (write_buffer w) (a_wbio w) in
      if negb ok then Some (-1, 0, w)
      else
        flight ← flight_rest (a_out w);
        let max_ciphertext_len := u64 (size + SSL_max_seal_overhead ssl (o_write (a_out w))) in
        if negb (size =? 0) && ((max_ciphertext_len <? size) || (u64 (zlen flight + max_ciphertext_len) <? zlen flight)) then Some (-1, 0, w)
        else
          let max_out := if size =? 0 then zlen flight else u64 (zlen flight + max_ciphertext_len) in
          if max_out =? 0 then Some (1, 0, w)
          else
            r ← fill_buffer type in_ flight max_out w;
            match r with
            | (false, w) => Some (-1, 0, w)
            | (true, w) =>
                r ← flush_writer (with_update_sent w);
                let '(ret, w) := r in
                if ret <=? 0 then Some (ret, 0, if size =? 0 then w else with_pending w in_ type) else Some (1, size, w)
            end.

(** * Application data *)

Variable max_send_fragment : Z.
Variable in_early_data : bool.

(** [is_early_data_write] *)
Definition is_early_write w : bool := negb (server ssl) && in_early_data && can_early_write (early w).

(** What one record may have: [max_send_fragment] in the loop. *)
Definition send_limit (is_early : bool) w : Z :=
  if is_early then Z.min max_send_fragment (ticket_max_early_data (early w) - early_data_written (early w)) else max_send_fragment.

Definition count_early (is_early : bool) (n : Z) w : tls_writer S C :=
  if is_early then
    with_early w {| can_early_write := can_early_write (early w); early_data_written := u16 (early_data_written (early w) + n);
                    ticket_max_early_data := ticket_max_early_data (early w) |}
  else w.

Definition stop_early w : tls_writer S C :=
  with_early w {| can_early_write := false; early_data_written := early_data_written (early w); ticket_max_early_data := ticket_max_early_data (early w) |}.

Fixpoint app_write_loop (fuel : nat) (is_early : bool) (total_bytes_written : Z) (in_ : buffer) w : option (Z * bool * Z * tls_writer S C) :=
  match fuel with
  | O => None
  | Datatypes.S fuel =>
      if is_early && (ticket_max_early_data (early w) <=? early_data_written (early w))
      then Some (-1, true, 0, stop_early (with_unreported w total_bytes_written))
      else
        let to_write := Z.min (send_limit is_early w) (zlen (Aead.contents in_)) in
        r ← do_tls_write SSL3_RT_APPLICATION_DATA {| addr := addr in_; Aead.contents := ztake to_write (Aead.contents in_) |} w;
        let '(ret, bytes_written, w) := r in
        if ret <=? 0 then Some (ret, false, 0, with_unreported w total_bytes_written)
        else if zlen (Aead.contents in_) <? bytes_written then None
        else
          let total_bytes_written := u64 (total_bytes_written + bytes_written) in
          let in_ := {| addr := addr in_ + bytes_written; Aead.contents := zdrop bytes_written (Aead.contents in_) |} in
          let w := count_early is_early bytes_written w in
          if (zlen (Aead.contents in_) =? 0) || negb (Z.land (mode ssl) SSL_MODE_ENABLE_PARTIAL_WRITE =? 0)
          then Some (1, false, total_bytes_written, with_unreported w 0)
          else app_write_loop fuel is_early total_bytes_written in_ w
  end.

(** The return value, [out_needs_handshake], [out_bytes_written] and the writer. *)
Definition tls_write_app_data (in_ : buffer) w : option (Z * bool * Z * tls_writer S C) :=
  match write_shutdown w with
  | ssl_shutdown_none =>
      let total_bytes_written := unreported_bytes_written w in
      if zlen (Aead.contents in_) <? total_bytes_written then Some (-1, false, 0, w)
      else
        app_write_loop (Datatypes.S (length (Aead.contents in_))) (is_early_write w) total_bytes_written
          {| addr := addr in_ + total_bytes_written; Aead.contents := zdrop total_bytes_written (Aead.contents in_) |} w
  | _ => Some (-1, false, 0, w)
  end.

(** * Alerts *)

(** The address of [ssl->s3->send_alert]. *)
Variable alert_p : Z.

Definition tls_dispatch_alert w : option (Z * tls_writer S C) :=
  r ← do_tls_write SSL3_RT_ALERT {| addr := alert_p; Aead.contents := send_alert w |} w;
  let '(ret, _, w) := r in
  if ret <=? 0 then Some (ret, w) else Some (1, with_alert w (write_shutdown w) false (send_alert w)).

Definition ssl_send_alert_impl (level desc : Z) w : option (Z * tls_writer S C) :=
  match write_shutdown w with
  | ssl_shutdown_none =>
      let sd := if (level =? SSL3_AL_WARNING) && (desc =? SSL_AD_CLOSE_NOTIFY) then ssl_shutdown_close_notify else ssl_shutdown_error in
      let w := with_alert w sd true [u8 level; u8 desc] in
      if buffer_empty (write_buffer w) then tls_dispatch_alert w else Some (-1, w)
  | _ => Some (-1, w)
  end.

Definition ssl_send_alert (level desc : Z) w : option (tls_writer S C) := r ← ssl_send_alert_impl level desc w; Some (snd r).
End Write.

(** * Records that are received *)

Section Read.
  Context {HA : Allocator} {S : Type}.
  Variable sizeof_buf : Z.
  Implicit Types rd : read_state S.

(** The result, whose data are those of [out], the messages, the state of the record
    layer and [early_data_read]. *)
Definition tls_open_app_data (ssl : connection) (in_early_data : bool) (early_data_read : Z) (m : messages) rd (p : Z) (in_ : list Z) :
    ssl_open_record_t * messages * read_state S * Z :=
  let '(ret, rd) := tls_open_record ssl m rd p in_ in
  match ret with
  | ssl_open_record_success type body consumed =>
      let is_early_data_read := server ssl && in_early_data in
      if type =? SSL3_RT_HANDSHAKE then
        if server ssl && (ssl_protocol_version ssl <? TLS1_3_VERSION)
        then (open_error SSL_AD_NO_RENEGOTIATION SSL_R_NO_RENEGOTIATION consumed, m, rd, early_data_read)
        else
          match tls_append_handshake_data sizeof_buf m body with
          | (false, m) => (open_error SSL_AD_INTERNAL_ERROR 0 consumed, m, rd, early_data_read)
          | (true, m) => (ssl_open_record_discard consumed, m, rd, early_data_read)
          end
      else if negb (type =? SSL3_RT_APPLICATION_DATA)
      then (open_error SSL_AD_UNEXPECTED_MESSAGE SSL_R_UNEXPECTED_RECORD consumed, m, rd, early_data_read)
      else if is_early_data_read && (u64 (kMaxEarlyDataAccepted - early_data_read) <? zlen body)
      then (open_error SSL_AD_UNEXPECTED_MESSAGE SSL_R_TOO_MUCH_READ_EARLY_DATA consumed, m, rd, early_data_read)
      else
        let early_data_read := if is_early_data_read then u16 (early_data_read + zlen body) else early_data_read in
        if zlen body =? 0 then (ssl_open_record_discard consumed, m, rd, early_data_read) else (ret, m, rd, early_data_read)
  | _ => (ret, m, rd, early_data_read)
  end.

Definition tls_open_change_cipher_spec (ssl : connection) (m : messages) rd (p : Z) (in_ : list Z) : ssl_open_record_t * read_state S :=
  let '(ret, rd) := tls_open_record ssl m rd p in_ in
  match ret with
  | ssl_open_record_success type body consumed =>
      if negb (type =? SSL3_RT_CHANGE_CIPHER_SPEC) then (open_error SSL_AD_UNEXPECTED_MESSAGE SSL_R_UNEXPECTED_RECORD consumed, rd)
      else if negb (zlen body =? 1) || negb (znth body 0 =? SSL3_MT_CCS)
      then (open_error SSL_AD_ILLEGAL_PARAMETER SSL_R_BAD_CHANGE_CIPHER_SPEC consumed, rd)
      else (ret, rd)
  | _ => (ret, rd)
  end.
End Read.
