(* ===== verification/AppDataSpec.v ===== *)
(** Application data from the caller to the wire (ssl/s3_pkt.cc): whatever the
    transport takes, refuses and delivers between the calls, the records it gets
    have the caller's bytes, once and in order. *)

From S2P Require Import Prelude Mem Bio BioMem BioPair Cbs Cbb BufMem Words Md32 Sha256 Sha512 Sha1 Md5 Digest Aead.
From S2P Require Import SslVersions SslCipher SslAead TlsMessage TlsRecord SslBuffer TlsFlight TlsHandshake AppData.

Section Wire.
  Context {HA : Allocator} {HR : RandomSource} {S C : Type} {CS : ByteStream C}.
  Context {A : EVP_AEAD S} {tag : Z} {paired : S -> S -> Prop} {L : AeadLaws A tag paired}.
  Variable sizeof_buf : Z.
  Variable place : BUF_MEM -> Z.
  Variable buf_place : SSLBuffer -> Z.
  Variable tmp_prefix new_buf : Z.
  Variable ssl : connection.
  Implicit Types w : tls_writer S C.

Abbreviation good wr := (writer_ok (A := A) (tag := tag) (paired := paired) ssl wr).

(** * What is on the wire *)

Definition app_job (job : Z * buffer * buffer) : Prop := job_ok job /\ fst (fst job) = SSL3_RT_APPLICATION_DATA.
Definition job_data (job : Z * buffer * buffer) : list Z := Aead.contents (snd job).

Lemma seal_all_snoc jobs : forall (wr : write_state S) bs wr1 type out in_ b wr2,
  seal_all ssl wr tmp_prefix jobs = (Some bs, wr1) -> tls_seal_record ssl wr1 tmp_prefix type out in_ = (Some b, wr2) ->
  seal_all ssl wr tmp_prefix (jobs ++ [(type, out, in_)]) = (Some (bs ++ b), wr2).
Proof.
  induction jobs as [|[[ty o] i] jobs IH]; intros wr bs wr1 type out in_ b wr2 E Eb; cbn [app seal_all] in *.
  { injection E as <- <-; rewrite Eb; cbn [option_map app]; now rewrite app_nil_r. }
  destruct (tls_seal_record ssl wr tmp_prefix ty o i) as [[b1|] w1]; [|discriminate].
  destruct (seal_all ssl w1 tmp_prefix jobs) as [[more|] w2] eqn:E2; [|discriminate]; injection E as <- <-.
  rewrite (IH _ _ _ _ _ _ _ _ E2 Eb); cbn [option_map]; now rewrite app_assoc.
Qed.

(** From the state [wr0] the data [sent] were sealed, which led to [wr]; of the
    records the peer has taken [got], and the rest is in the transport and in
    the write buffer. *)
Definition wire (wr0 wr : write_state S) (got sent : list Z) w : Prop :=
  exists jobs bs c, seal_all ssl wr0 tmp_prefix jobs = (Some bs, wr) /\ Forall app_job jobs /\ concat (map job_data jobs) = sent /\
    a_wbio w = Some c /\ stream_ok c /\ got ++ Bio.contents c ++ span (write_buffer w) = bs /\ buffer_ok (write_buffer w).

(** A writer that can go on: it has no handshake data to send. *)
Definition on_wire (wr0 : write_state S) (got sent : list Z) w : Prop :=
  wire wr0 (o_write (a_out w)) got sent w /\ good (o_write (a_out w)) /\ pending_hs_data (a_out w) = None /\ pending_flight (a_out w) = None.

(** What the transport and the buffer do not concern. *)
Definition same_rest w w' : Prop :=
  unreported_bytes_written w' = unreported_bytes_written w /\ early w' = early w /\ write_shutdown w' = write_shutdown w.

(** A flush moves bytes from the buffer to the transport. *)
Lemma flush_writer_spec wr0 wr got sent w : wire wr0 wr got sent w ->
  exists ret c b, flush_writer w = Some (ret, with_io w (a_out w) b (Some c)) /\ wire wr0 wr got sent (with_io w (a_out w) b (Some c)) /\ ret <= 1 /\
    (ret = 1 -> span b = []) /\ (ret <= 0 -> span b <> []) /\ (span (write_buffer w) = [] -> ret = 1).
Proof.
  intros (jobs & bs & c & E & Hj & Ed & Ec & Hc & Eb & Hb); unfold flush_writer, ssl_write_buffer_flush, tls_write_buffer_flush; rewrite Ec.
  destruct (flush_loop_spec (Z.to_nat (size_ (write_buffer w))) c (write_buffer w) Hb Hc) as (ret & c' & b' & put & Ef & Hb' & Hc' & Ec' & Es & Hr & H1);
    [pose proof Hb as (_ & ? & _); lia|].
  rewrite Ef; cbn [mbind option_bind]; exists ret, c', b'; split; [reflexivity|]; split.
  { exists jobs, bs, c'; cbn [with_io a_wbio write_buffer a_out]; repeat (split; [assumption || reflexivity|]); split; [|exact Hb'].
    rewrite Ec', <- app_assoc, <- Es; exact Eb. }
  split; [exact Hr|]; split; [exact H1|].
  assert (ret <= 0 -> span b' <> []) as H0.
  { intros Hle En; pose proof (flush_loop_waits _ _ _ _ _ _ Ef Hle) as Hw; unfold buffer_empty in Hw; rewrite <- (span_len b' Hb'), En in Hw; discriminate. }
  split; [exact H0|]; intros En; rewrite En in Es; symmetry in Es; apply app_eq_nil in Es as [_ Es]; destruct (Z.le_gt_cases ret 0); [now destruct (H0 ltac:(assumption))|lia].
Qed.

(** The records of TLS are small. *)
Lemma overhead_bound wr : good wr -> 0 <= SSL_max_seal_overhead ssl wr <= 256.
Proof.
  intros [(rd & (Hp & Hok & _) & _) _]; pose proof (explicit_nonce_bound _ Hok) as Hn; pose proof (aead_overhead_bound (A := A) (tag := tag) (paired := paired)) as Ho.
  assert (0 <= MaxOverhead (aead_write_ctx wr) <= EVP_AEAD_MAX_NONCE_LENGTH + EVP_AEAD_MAX_OVERHEAD) as Hm.
  { unfold MaxOverhead, EVP_AEAD_max_overhead, EVP_AEAD_MAX_OVERHEAD in *; destruct Hp as [Hk _]; destruct (keyed (aead_write_ctx wr)) as [[c x]|]; [|lia].
    destruct (keyed (aead_read_ctx rd)) as [[c' y]|]; [|easy]; destruct Hk as (_ & -> & _); lia. }
  unfold SSL_max_seal_overhead, SSL3_RT_HEADER_LENGTH, EVP_AEAD_MAX_NONCE_LENGTH, EVP_AEAD_MAX_OVERHEAD in *; repeat case_if; lia.
Qed.

Lemma remaining_len b : buffer_ok b -> zlen (Aead.contents (remaining buf_place b)) = cap_ b - size_ b.
Proof. intros (Ho & Hs & Hb & _); cbn [remaining Aead.contents]; rewrite zlen_ztake; rewrite ?zlen_zdrop; lia. Qed.

(** A record goes into the empty buffer, or nothing does. *)
Lemma fill_buffer_spec wr0 got sent w a d max_out : on_wire wr0 got sent w -> span (write_buffer w) = [] -> bytes d -> 0 < zlen d <= 16384 ->
  0 <= max_out < 2 ^ 16 - SSL3_ALIGN_PAYLOAD ->
  exists ok w', fill_buffer buf_place tmp_prefix new_buf ssl SSL3_RT_APPLICATION_DATA {| addr := a; Aead.contents := d |} [] max_out w = Some (ok, w') /\
    same_rest w w' /\ pending_write w' = pending_write w /\
    if ok then on_wire wr0 got (sent ++ d) w' else wire wr0 (o_write (a_out w)) got sent w' /\ span (write_buffer w') = [].
Proof.
  intros ((jobs & bs & c & E & Hj & Ed & Ec & Hc & Eb & Hb) & Hg & Hh & Hf) Es Hd Hl Hm; unfold fill_buffer; rewrite Es, app_nil_r in Eb.
  set (header_len := zlen [] + _); pose proof (ensure_cap_spec new_buf header_len max_out (write_buffer w) Hb Hm) as He; destruct (EnsureCap _ _ _ _) as [ok b].
  destruct He as (Hb' & Es' & _ & _); rewrite Es in Es'.
  assert (forall o, wire wr0 (o_write (a_out w)) got sent (with_io w o b (a_wbio w))) as Hw.
  { intros o; exists jobs, bs, c; cbn [with_io a_wbio write_buffer]; rewrite Es', app_nil_r; auto 8. }
  destruct ok; cbn [negb]; [|exists false, (with_io w (a_out w) b (a_wbio w)); split; [reflexivity|]; split; [easy|]; split; [reflexivity|]; split; [apply Hw|exact Es']].
  change (zlen (@nil Z) =? 0) with true; cbn [mbind option_bind Aead.contents with_io a_out write_buffer]; rewrite (proj2 (Z.eqb_neq _ _)) by lia.
  destruct (tls_seal_record _ _ _ _ _ _) as [[r|] wr] eqn:Er; [|eexists false, _; split; [reflexivity|]; split; [easy|]; split; [reflexivity|]; split; [apply Hw|exact Es']].
  destruct (seal_step _ _ _ _ _ _ _ _ _ Hg (or_intror eq_refl) Hd Hl Er) as (Hg' & Hk & Hlen); rewrite remaining_len in Hlen by exact Hb'.
  destruct (did_write_spec b r Hb' Hlen) as (b2 & -> & Hb2 & Es2 & _); cbn [mbind option_bind]; eexists true, _; split; [reflexivity|]; split; [easy|]; split; [reflexivity|].
  split; [|split; [exact Hg'|split; [exact Hh|exact Hf]]]; cbn [with_io with_o_write a_out o_write].
  eexists _, (bs ++ r), c; split; [exact (seal_all_snoc jobs _ _ _ _ _ _ _ _ E Er)|].
  split; [apply Forall_app; split; [exact Hj|]; apply List.Forall_cons; [split; [split; [now right|auto]|reflexivity]|constructor]|].
  split; [rewrite map_app, concat_app, Ed; cbn [map concat job_data snd Aead.contents]; now rewrite app_nil_r|].
  cbn [with_io a_wbio write_buffer]; repeat (split; [assumption|]); split; [|exact Hb2]; rewrite Es2, Es', <- Eb, <- !app_assoc; reflexivity.
Qed.

(** * One record *)

(** The record with the data [d] at [a] is in the buffer, or no write is pending. *)
Definition waits (a : Z) (d : list Z) w : Prop :=
  pending_write w = {| addr := a; Aead.contents := d |} /\ pending_write_type w = SSL3_RT_APPLICATION_DATA /\ d <> [].
Definition settled w : Prop := Aead.contents (pending_write w) = [] /\ span (write_buffer w) = [].

(** What becomes of the record: it is in the transport, it waits, or it was not made. *)
Definition write_outcome wr0 got sent a d w (ret n : Z) w' : Prop :=
  same_rest w w' /\
  ((ret = 1 /\ n = zlen d /\ settled w' /\ on_wire wr0 got (sent ++ d) w') \/
   (ret <= 0 /\ waits a d w' /\ span (write_buffer w') <> [] /\ on_wire wr0 got (sent ++ d) w') \/
   (ret <= 0 /\ settled w' /\ exists wr, wire wr0 wr got sent w')).

Lemma do_tls_write_pending wr0 got sent w a d : on_wire wr0 got (sent ++ d) w -> waits a d w ->
  exists ret n w', do_tls_write sizeof_buf place buf_place tmp_prefix new_buf ssl SSL3_RT_APPLICATION_DATA {| addr := a; Aead.contents := d |} w = Some (ret, n, w') /\
    write_outcome wr0 got sent a d w ret n w'.
Proof.
  intros (Hw & Hg & Hh & Hf) (Ep & Et & Hd); unfold do_tls_write; rewrite Ep, Et; cbn [Aead.contents addr]; rewrite (not_empty_eqb d Hd), Z.ltb_irrefl, !Z.eqb_refl, andb_false_r.
  cbn [negb orb andb]; destruct (flush_writer_spec wr0 _ got (sent ++ d) w Hw) as (ret & c & b & -> & Hw' & Hr & H1 & H0 & He); cbn [mbind option_bind].
  destruct (Z.leb_spec ret 0) as [Hle|Hgt].
  - eexists ret, 0, _; split; [reflexivity|]; split; [easy|]; right; left; split; [exact Hle|]; split; [easy|]; split; [exact (H0 Hle)|easy].
  - eexists 1, (zlen d), _; split; [reflexivity|]; split; [easy|]; left; split; [reflexivity|]; split; [reflexivity|]; split; [split; [reflexivity|exact (H1 ltac:(lia))]|easy].
Qed.

Lemma do_tls_write_fresh wr0 got sent w a d : on_wire wr0 got sent w -> settled w -> bytes d -> zlen d <= 16384 ->
  exists ret n w', do_tls_write sizeof_buf place buf_place tmp_prefix new_buf ssl SSL3_RT_APPLICATION_DATA {| addr := a; Aead.contents := d |} w = Some (ret, n, w') /\
    write_outcome wr0 got sent a d w ret n w'.
Proof.
  intros (Hw & Hg & Hh & Hf) (Ep & Es) Hd Hl; pose proof (zlen_nonneg d); unfold do_tls_write; rewrite Ep; cbn [Aead.contents addr]; change (zlen (@nil Z) =? 0) with true.
  cbn [negb andb]; destruct (flush_writer_spec wr0 _ got sent w Hw) as (ret & c & b & -> & Hw' & Hr & H1 & H0 & He); cbn [mbind option_bind].
  specialize (He Es); subst ret; specialize (H1 eq_refl); cbn [Z.leb Z.compare Pos.compare with_io write_buffer a_out a_wbio].
  unfold SSL3_RT_MAX_PLAIN_LENGTH; rewrite (proj2 (Z.ltb_ge 16384 _)) by lia; set (w1 := with_io w (a_out w) b (Some c)) in *.
  assert (on_wire wr0 got sent w1) as Ho by easy; pose proof Hw' as (_ & _ & _ & _ & _ & _ & _ & _ & _ & Hb); cbn [w1 with_io write_buffer] in Hb.
  pose proof (span_len b Hb) as Lb; rewrite H1 in Lb; change (zlen (@nil Z)) with 0 in Lb; rewrite <- Lb, Z.ltb_irrefl; cbn [orb].
  unfold tls_flush_pending_hs_data, flight_rest; rewrite Hh; cbn [negb with_io a_out]; rewrite Hf; cbn [mbind option_bind].
  pose proof (overhead_bound _ Hg) as Hov; set (ov := SSL_max_seal_overhead _ _) in *; change (zlen (@nil Z)) with 0; rewrite Z.add_0_l, !uw_small by (pow2; lia).
  change (with_io w1 (a_out w) b (Some c)) with w1.
  destruct (Z.eqb_spec (zlen d) 0) as [E0|E0]; cbn [negb andb].
  { rewrite Z.eqb_refl; exists 1, 0, w1; split; [reflexivity|]; split; [easy|]; left; rewrite (zlen_0_nil d E0), app_nil_r; easy. }
  rewrite !(proj2 (Z.ltb_ge _ _)), (proj2 (Z.eqb_neq _ _)) by lia; cbn [orb].
  destruct (fill_buffer_spec wr0 got sent w1 a d (zlen d + ov) Ho H1 Hd ltac:(lia) ltac:(unfold SSL3_ALIGN_PAYLOAD; lia)) as (ok & w2 & -> & Hs & Ep2 & H2); cbn [mbind option_bind].
  destruct ok; [|exists (-1), 0, w2; split; [reflexivity|]; split; [exact Hs|]; right; right; split; [lia|]; split; [split; [rewrite Ep2; exact Ep|apply H2]|eexists; apply H2]].
  destruct H2 as (W2 & G2); assert (wire wr0 (o_write (a_out w2)) got (sent ++ d) (with_update_sent w2)) as W3 by exact W2.
  destruct (flush_writer_spec wr0 _ got (sent ++ d) (with_update_sent w2) W3) as (ret & c' & b' & -> & W4 & R4 & H41 & H40 & _); cbn [mbind option_bind].
  destruct (Z.leb_spec ret 0) as [Hle|Hgt].
  - eexists ret, 0, _; split; [reflexivity|]; split; [exact Hs|]; right; left; split; [exact Hle|]; split; [split; [reflexivity|split; [reflexivity|]]|split; [exact (H40 Hle)|split; [exact W4|exact G2]]].
    intros ->; now apply E0.
  - eexists 1, (zlen d), _; split; [reflexivity|]; split; [exact Hs|]; left; split; [reflexivity|]; split; [reflexivity|].
    split; [split; [exact (eq_trans (f_equal Aead.contents Ep2) Ep)|exact (H41 ltac:(lia))]|split; [exact W4|exact G2]].
Qed.

(** * A call *)

Variable max_send_fragment : Z.
Variable in_early_data : bool.
Hypothesis fragment_size : 1 <= max_send_fragment <= SSL3_RT_MAX_PLAIN_LENGTH.

Section Call.
  (** The data that were reported to the caller before, and those of the call. *)
  Variable wr0 : write_state S.
  Variable got reported : list Z.
  Variable p : Z.
  Variable rest : list Z.
  Hypothesis rest_bytes : bytes rest.
  Hypothesis rest_size : zlen rest < 2 ^ 63.

Definition next_part (e : bool) (t : Z) w : list Z := ztake (send_limit max_send_fragment e w) (zdrop t rest).

(** The record behind the first [t] bytes is waiting. *)
Definition part_waits (e : bool) (t : Z) w : Prop :=
  on_wire wr0 got ((reported ++ ztake t rest) ++ next_part e t w) w /\ waits (p + t) (next_part e t w) w.
Definition part_settled (t : Z) w : Prop := on_wire wr0 got (reported ++ ztake t rest) w /\ settled w.

Definition call_outcome (e : bool) (ret n : Z) w' : Prop :=
  (ret = 1 /\ 0 <= n <= zlen rest /\ unreported_bytes_written w' = 0 /\ part_settled n w') \/
  (ret <= 0 /\ span (write_buffer w') <> [] /\ is_early_write ssl in_early_data w' = e /\ 0 <= unreported_bytes_written w' <= zlen rest /\
     part_waits e (unreported_bytes_written w') w') \/
  (ret <= 0 /\ span (write_buffer w') = [] /\ exists t wr, 0 <= t <= zlen rest /\ wire wr0 wr got (reported ++ ztake t rest) w').

Lemma ztake_more t (n : Z) : 0 <= t -> 0 <= n -> ztake (t + zlen (ztake n (zdrop t rest))) rest = ztake t rest ++ ztake n (zdrop t rest).
Proof.
  intros Ht Hn; pose proof (zlen_nonneg (ztake n (zdrop t rest))); rewrite ztake_add by lia; f_equal.
  destruct (Z.le_gt_cases n (zlen (zdrop t rest))); [now rewrite zlen_ztake by lia|rewrite (ztake_all n) by lia; now apply ztake_all].
Qed.

(** The record of one turn of the loop. *)
Lemma part_written e t w : part_settled t w \/ part_waits e t w -> 0 < send_limit max_send_fragment e w ->
  exists ret n w', do_tls_write sizeof_buf place buf_place tmp_prefix new_buf ssl SSL3_RT_APPLICATION_DATA {| addr := p + t; Aead.contents := next_part e t w |} w =
    Some (ret, n, w') /\ write_outcome wr0 got (reported ++ ztake t rest) (p + t) (next_part e t w) w ret n w'.
Proof.
  intros [[Hw Hs]|[Hw Hp]] Hlim; [|exact (do_tls_write_pending _ _ _ _ _ _ Hw Hp)].
  apply do_tls_write_fresh; [exact Hw|exact Hs|now apply bytes_ztake, bytes_zdrop|].
  unfold next_part; assert (send_limit max_send_fragment e w <= max_send_fragment) by (unfold send_limit; destruct e; lia); unfold SSL3_RT_MAX_PLAIN_LENGTH in *.
  unfold ztake, zlen; rewrite length_take; lia.
Qed.

Lemma app_write_loop_spec fuel e : forall t w, 0 <= t <= zlen rest -> zlen rest - t < Z.of_nat fuel -> is_early_write ssl in_early_data w = e ->
  part_settled t w \/ part_waits e t w ->
  exists ret needs n w', app_write_loop sizeof_buf place buf_place tmp_prefix new_buf ssl max_send_fragment fuel e t
      {| addr := p + t; Aead.contents := zdrop t rest |} w = Some (ret, needs, n, w') /\
    write_shutdown w' = write_shutdown w /\ call_outcome e ret n w'.
Proof.
  induction fuel as [|fuel IH]; intros t w Ht Hf He Hw; [lia|]; cbn [app_write_loop Aead.contents addr].
  destruct (e && (ticket_max_early_data (early w) <=? early_data_written (early w))) eqn:Ee.
  { eexists (-1), true, 0, _; split; [reflexivity|]; split; [reflexivity|]; destruct Hw as [[Hw Hs]|[_ (_ & _ & Hne)]].
    - right; right; split; [lia|]; split; [apply Hs|]; exists t; eexists; split; [lia|]; apply Hw.
    - apply andb_prop in Ee as [-> Ee%Z.leb_le]; destruct Hne; unfold next_part, send_limit, ztake; now rewrite Z2Nat.nonpos by lia. }
  assert (0 < send_limit max_send_fragment e w) as Hlim.
  { unfold send_limit; destruct e; [|lia]; cbn [andb] in Ee; apply Z.leb_gt in Ee; lia. }
  set (d := next_part e t w); assert (ztake (Z.min (send_limit max_send_fragment e w) (zlen (zdrop t rest))) (zdrop t rest) = d) as ->.
  { unfold d, next_part; destruct (Z.le_gt_cases (zlen (zdrop t rest)) (send_limit max_send_fragment e w)); [|now rewrite Z.min_l by lia].
    rewrite Z.min_r by lia; now rewrite !ztake_all by lia. }
  assert (zlen d <= zlen (zdrop t rest) /\ (0 < zlen (zdrop t rest) -> 0 < zlen d)) as [Hd Hpos] by (unfold d, next_part, ztake, zlen; rewrite length_take; lia).
  pose proof (zlen_nonneg d); rewrite zlen_zdrop in Hd, Hpos by lia; destruct (part_written e t w Hw Hlim) as (ret & n & w1 & Ew & (Eu & Er & Esd) & Ho).
  fold d in Ew; rewrite Ew; cbn [mbind option_bind]; destruct Ho as [(-> & -> & Hs & Ho)|Ho].
  2: { assert (ret <= 0) as Hle by (destruct Ho as [[? _]|[? _]]; assumption); rewrite (proj2 (Z.leb_le ret 0) Hle); eexists ret, false, 0, _; split; [reflexivity|]; split; [exact Esd|].
       right; destruct Ho as [(_ & Hp & Hsp & Ho)|(_ & Hs & wr & Ho)]; [left|right; split; [exact Hle|]; split; [apply Hs|]; exists t, wr; split; [lia|exact Ho]].
       assert (next_part e t (with_unreported w1 t) = d) as En by (unfold next_part, send_limit; cbn [with_unreported early]; now rewrite Er).
       split; [exact Hle|]; split; [exact Hsp|]; unfold is_early_write in *; cbn [with_unreported early unreported_bytes_written]; rewrite Er; split; [exact He|]; split; [lia|].
       split; rewrite En; assumption. }
  cbn [Z.leb Z.compare]; fold d in Ho |- *; rewrite (zlen_zdrop t rest), (proj2 (Z.ltb_ge (zlen rest - t) (zlen d))), (uw_small 64 (t + zlen d)) by (pow2; lia); set (w2 := count_early e (zlen d) w1).
  assert (write_shutdown w2 = write_shutdown w1 /\ is_early_write ssl in_early_data w2 = e) as [Esd2 He2].
  { unfold w2, count_early, is_early_write in *; destruct e; cbn [with_early early can_early_write write_shutdown]; now rewrite ?Er. }
  assert (part_settled (t + zlen d) w2) as Hset.
  { split; [unfold d, next_part; rewrite ztake_more by lia; fold (next_part e t w); fold d; rewrite app_assoc|]; unfold w2, count_early; destruct e; assumption. }
  rewrite zdrop_zdrop, <- Z.add_assoc by lia; destruct (_ || _) eqn:Estop.
  - eexists 1, false, _, _; split; [reflexivity|]; split; [exact (eq_trans Esd2 Esd)|]; left; split; [reflexivity|]; split; [lia|]; split; [reflexivity|exact Hset].
  - apply orb_false_elim in Estop as [En%Z.eqb_neq _]; rewrite zlen_zdrop in En by lia.
    destruct (IH (t + zlen d) w2 ltac:(lia) ltac:(lia) He2 (or_introl Hset)) as (ret & needs & n & w' & E' & Esd' & Hc).
    exists ret, needs, n, w'; split; [exact E'|]; split; [congruence|exact Hc].
Qed.

(** A state between two calls for the data [rest]. *)
Definition between w : Prop :=
  write_shutdown w = ssl_shutdown_none /\ 0 <= unreported_bytes_written w <= zlen rest /\
  (part_settled (unreported_bytes_written w) w \/
   part_waits (is_early_write ssl in_early_data w) (unreported_bytes_written w) w /\ span (write_buffer w) <> []).

Lemma tls_write_app_data_spec w : between w ->
  exists ret needs n w', tls_write_app_data sizeof_buf place buf_place tmp_prefix new_buf ssl max_send_fragment in_early_data {| addr := p; Aead.contents := rest |} w =
    Some (ret, needs, n, w') /\ write_shutdown w' = ssl_shutdown_none /\ call_outcome (is_early_write ssl in_early_data w) ret n w'.
Proof.
  intros (Hsd & Hu & Hw); unfold tls_write_app_data; rewrite Hsd; cbn [Aead.contents addr]; rewrite (proj2 (Z.ltb_ge _ _)) by lia; rewrite <- Hsd.
  apply app_write_loop_spec; [exact Hu|unfold zlen in *; lia|reflexivity|tauto].
Qed.
End Call.

(** * Calls and deliveries in any order *)

(** A call of the application, or a read at the other end of the transport. *)
Inductive app_event : Type := AppCall | PeerRead (len : Z).

Definition event_ok (ev : app_event) : Prop := match ev with AppCall => True | PeerRead len => 0 < len <= INT_MAX end.

(** An application that writes the data at [p], goes on behind what a call reports,
    and retries with the same buffer while the transport is what refuses, that
    is while bytes wait in the write buffer. The result has the bytes the peer
    has taken, the data not reported and the writer. *)
Fixpoint app_run (evs : list app_event) (p : Z) (rest got : list Z) w : option (list Z * list Z * tls_writer S C) :=
  match evs with
  | [] => Some (got, rest, w)
  | PeerRead len :: evs =>
      c ← a_wbio w;
      let '(_, out, c) := stream_read c len in app_run evs p rest (got ++ out) (with_io w (a_out w) (write_buffer w) (Some c))
  | AppCall :: evs =>
      r ← tls_write_app_data sizeof_buf place buf_place tmp_prefix new_buf ssl max_send_fragment in_early_data {| addr := p; Aead.contents := rest |} w;
      let '(ret, _, n, w) := r in
      if 0 <? ret then app_run evs (p + n) (zdrop n rest) got w
      else if buffer_empty (write_buffer w) then Some (got, rest, w)
      else app_run evs p rest got w
  end.

Lemma wire_read wr0 wr got sent w len : wire wr0 wr got sent w -> 0 < len <= INT_MAX ->
  exists c n out c', a_wbio w = Some c /\ stream_read c len = (n, out, c') /\ wire wr0 wr (got ++ out) sent (with_io w (a_out w) (write_buffer w) (Some c')).
Proof.
  intros (jobs & bs & c & E & Hj & Ed & Ec & Hc & Eb & Hb) Hl; pose proof (stream_read_spec c len Hc Hl) as Hr; destruct (stream_read c len) as [[n out] c'] eqn:Er.
  destruct Hr as (Hc' & _ & _ & _ & Econt); exists c, n, out, c'; split; [exact Ec|]; split; [exact Er|]; exists jobs, bs, c'; cbn [with_io a_wbio write_buffer].
  repeat (split; [assumption || reflexivity|]); split; [|exact Hb]; rewrite <- app_assoc, (app_assoc out), <- Econt; exact Eb.
Qed.

(** The end of a run: the data that are on the wire start with those reported. *)
Definition run_end wr0 (data got rest : list Z) w : Prop :=
  exists reported t wr, data = reported ++ rest /\ 0 <= t <= zlen rest /\ wire wr0 wr got (reported ++ ztake t rest) w /\ (rest = [] -> span (write_buffer w) = []).

Lemma between_end wr0 got reported p rest w : between wr0 got reported p rest w -> run_end wr0 (reported ++ rest) got rest w.
Proof.
  intros (_ & Hu & Hw); set (t := unreported_bytes_written w) in *; destruct Hw as [[Hw Hs]|[[Hw (_ & _ & Hne)] _]].
  { exists reported, t; eexists; split; [reflexivity|]; split; [lia|]; split; [apply Hw|intros _; apply Hs]. }
  unfold next_part in *; set (lim := send_limit _ _ _) in *; assert (0 < lim) by (destruct (Z.le_gt_cases lim 0); [destruct Hne; unfold ztake; now rewrite Z2Nat.nonpos by lia|lia]).
  exists reported, (t + zlen (ztake lim (zdrop t rest))); eexists; split; [reflexivity|]; rewrite ztake_more, app_assoc by lia.
  assert (zlen (ztake lim (zdrop t rest)) <= zlen (zdrop t rest)) as Hz by (unfold ztake, zlen; rewrite length_take; lia).
  pose proof (zlen_nonneg (ztake lim (zdrop t rest))); rewrite zlen_zdrop in Hz by lia; split; [lia|]; split; [apply Hw|].
  intros ->; destruct Hne; unfold zdrop, ztake; now rewrite skipn_nil, firstn_nil.
Qed.

Lemma between_read wr0 got reported p rest w len : between wr0 got reported p rest w -> 0 < len <= INT_MAX ->
  exists c n out c', a_wbio w = Some c /\ stream_read c len = (n, out, c') /\
    between wr0 (got ++ out) reported p rest (with_io w (a_out w) (write_buffer w) (Some c')).
Proof.
  intros (Hsd & Hu & Hw) Hl; destruct Hw as [[[Hw Hg] Hs]|[[[Hw Hg] Hp] Hsp]].
  - destruct (wire_read _ _ _ _ _ len Hw Hl) as (c & n & out & c' & Ec & Er & Hw'); exists c, n, out, c'; repeat (split; [assumption|]); left; split; [split; assumption|assumption].
  - destruct (wire_read _ _ _ _ _ len Hw Hl) as (c & n & out & c' & Ec & Er & Hw'); exists c, n, out, c'; repeat (split; [assumption|]); right; split; [|assumption]; split; [split; assumption|assumption].
Qed.

Lemma app_run_spec wr0 evs : Forall event_ok evs -> forall reported p rest got w, bytes rest -> zlen rest < 2 ^ 63 -> between wr0 got reported p rest w ->
  exists got' rest' w', app_run evs p rest got w = Some (got', rest', w') /\ run_end wr0 (reported ++ rest) got' rest' w'.
Proof.
  induction 1 as [|ev evs Hev _ IH]; intros reported p rest got w Hb Hz Hw; cbn [app_run]; [eauto 6 using between_end|].
  destruct ev as [|len].
  2: { destruct (between_read _ _ _ _ _ _ len Hw Hev) as (c & n & out & c' & -> & E & Hw'); cbn [mbind option_bind]; rewrite E; eauto. }
  destruct (tls_write_app_data_spec wr0 got reported p rest Hb Hz w Hw) as (ret & needs & n & w' & -> & Hsd & Ho); cbn [mbind option_bind].
  destruct Ho as [(-> & Hn & Hu & Hs)|[(Hle & Hsp & He & Hu & Hp)|(Hle & Hsp & t & wr & Ht & Hw')]].
  - cbn [Z.ltb Z.compare]; assert (reported ++ rest = (reported ++ ztake n rest) ++ zdrop n rest) as -> by now rewrite <- app_assoc, ztake_zdrop.
    apply IH; [now apply bytes_zdrop|rewrite zlen_zdrop; lia|].
    split; [exact Hsd|]; rewrite Hu; split; [pose proof (zlen_nonneg (zdrop n rest)); lia|]; left; unfold part_settled; now rewrite ztake_0, app_nil_r.
  - rewrite (proj2 (Z.ltb_ge 0 ret)) by lia; assert (buffer_empty (write_buffer w') = false) as ->.
    { destruct Hp as [[(j & b & c & _ & _ & _ & _ & _ & _ & Hbuf) _] _]; unfold buffer_empty; rewrite <- (span_len _ Hbuf); now apply not_empty_eqb. }
    apply IH; auto; split; [exact Hsd|]; split; [exact Hu|]; right; rewrite He; auto.
  - rewrite (proj2 (Z.ltb_ge 0 ret)) by lia; assert (buffer_empty (write_buffer w') = true) as ->.
    { destruct Hw' as (j & b & c & _ & _ & _ & _ & _ & _ & Hbuf); unfold buffer_empty; now rewrite <- (span_len _ Hbuf), Hsp. }
    exists got, rest, w'; split; [reflexivity|]; exists reported, t, wr; auto.
Qed.

(** * At the other end *)

(** The loop over [tls_open_app_data], until a record is incomplete or not data. *)
Fixpoint read_app_data (fuel : nat) (ssl' : connection) (in_early : bool) (early_read : Z) (m : messages) (rd : read_state S) (q : Z) (in_ : list Z) :
    list Z * read_state S * list Z :=
  match fuel with
  | O => ([], rd, in_)
  | Datatypes.S fuel =>
      match tls_open_app_data sizeof_buf ssl' in_early early_read m rd q in_ with
      | (ssl_open_record_success _ out consumed, m, rd, early_read) =>
          let '(data, rd, in_) := read_app_data fuel ssl' in_early early_read m rd (q + consumed) (zdrop consumed in_) in (out ++ data, rd, in_)
      | (_, _, rd, _) => ([], rd, in_)
      end
  end.

Lemma read_app_data_spec ssl' early_read m fuel : forall rd q in_ records rd' in', read_records fuel ssl' m rd q in_ = (records, rd', in') -> length records = fuel ->
  Forall (fun r => fst r = SSL3_RT_APPLICATION_DATA /\ snd r <> []) records ->
  read_app_data fuel ssl' false early_read m rd q in_ = (concat (map snd records), rd', in').
Proof.
  induction fuel as [|fuel IH]; intros rd q in_ records rd' in'; cbn [read_records read_app_data]; [now intros [= <- <- <-]|].
  unfold tls_open_app_data; destruct (tls_open_record ssl' m rd q in_) as [[type out consumed| | | |] rd1]; try (intros [= <- _ _]; discriminate).
  destruct (read_records fuel _ _ _ _ _) as [[records1 rd2] in2] eqn:E; intros [= <- <- <-] Hl [[Ht Ho] Hr]%Forall_cons_1; cbn [fst snd] in *; subst type.
  rewrite andb_false_r; cbn [andb]; change (SSL3_RT_APPLICATION_DATA =? SSL3_RT_HANDSHAKE) with false; rewrite Z.eqb_refl, (not_empty_eqb out Ho); cbn [negb].
  injection Hl as Hl; now rewrite (IH _ _ _ _ _ _ E Hl Hr).
Qed.

(** The records of application data. *)
Lemma app_records (wr : write_state S) jobs : Forall app_job jobs ->
  Forall (fun r => fst r = SSL3_RT_APPLICATION_DATA /\ snd r <> []) (flat_map (job_records ssl wr) jobs) /\
  concat (map snd (flat_map (job_records ssl wr) jobs)) = concat (map job_data jobs).
Proof.
  induction 1 as [|[[type out] in_] jobs [(_ & _ & Hl) Ht] _ [IH1 IH2]]; [split; [constructor|reflexivity]|]; cbn [fst] in Ht; subst type; cbn [flat_map map concat].
  rewrite map_app, concat_app, IH2; unfold job_records, fragments, job_data; cbn [snd]; set (d := Aead.contents in_) in *.
  assert (d <> []) as Hd by (intros E; rewrite E in Hl; change (zlen (@nil Z)) with 0 in Hl; lia).
  destruct (splits _ _ _ _) eqn:Es; cbn [map snd concat]; rewrite app_nil_r; (split; [apply Forall_app; split; [|exact IH1]|]); try reflexivity.
  2: f_equal; apply ztake_zdrop.
  2: repeat constructor; exact Hd.
  unfold splits in Es; bool_facts; repeat constructor; cbn [snd]; intros E; apply (f_equal zlen) in E; rewrite ?zlen_ztake, ?zlen_zdrop in E by lia;
    change (zlen (@nil Z)) with 0 in E; lia.
Qed.

(** A writer before its first record of application data. *)
Definition new_writer (wr0 : write_state S) (c : C) w : Prop :=
  o_write (a_out w) = wr0 /\ pending_hs_data (a_out w) = None /\ pending_flight (a_out w) = None /\ a_wbio w = Some c /\
  buffer_ok (write_buffer w) /\ settled w /\ unreported_bytes_written w = 0 /\ write_shutdown w = ssl_shutdown_none.

Lemma new_writer_between wr0 c p data w : good wr0 -> stream_ok c -> Bio.contents c = [] -> new_writer wr0 c w -> between wr0 [] [] p data w.
Proof.
  intros Hg Hc Ec (Ew & Hh & Hf & Eb & Hb & Hs & Hu & Hsd); split; [exact Hsd|]; rewrite Hu; split; [pose proof (zlen_nonneg data); lia|]; left; split; [|exact Hs].
  split; [|rewrite Ew; auto]; exists [], [], c; rewrite Ew, Eb, Ec, (proj2 Hs); auto 8.
Qed.

(** C22. The application's data reach the peer once and in order. An application
    writes its data, cut into records of any size by the library, with partial
    writes or without, and retries what the transport does not take; between the
    calls the peer reads from the transport as it likes. After any number of
    calls and reads the bytes the peer has, with those on their way, are
    records that its loop over [tls_open_app_data] opens to the data that were
    reported as written and a further part of those that were not; when all
    were reported nothing is left in the write buffer. *)
Theorem tls_app_data_delivered (ssl' : connection) (m : messages) wr0 (rd0 : read_state S) (c : C) w p data evs early_read :
  in_sync (A := A) (tag := tag) (paired := paired) wr0 rd0 -> idle rd0 -> splitting_ok ssl wr0 -> ready ssl' m -> bytes data -> zlen data < 2 ^ 63 ->
  stream_ok c -> Bio.contents c = [] -> new_writer wr0 c w -> Forall event_ok evs ->
  exists got rest w' c' reported ahead more, app_run evs p data [] w = Some (got, rest, w') /\ data = reported ++ rest /\ rest = ahead ++ more /\
    a_wbio w' = Some c' /\ (rest = [] -> span (write_buffer w') = []) /\
    exists n rd', forall q, read_app_data n ssl' false early_read m rd0 q (got ++ Bio.contents c' ++ span (write_buffer w')) = (reported ++ ahead, rd', []).
Proof.
  intros Hs Hi Hsp Hr Hb Hz Hc Ec Hw Hev; assert (good wr0) as Hg by (split; eauto).
  destruct (app_run_spec wr0 evs Hev [] p data [] w Hb Hz (new_writer_between _ _ _ _ _ Hg Hc Ec Hw)) as (got & rest & w' & E & reported & t & wr & Ed & Ht & Hwire & Hfin).
  destruct Hwire as (jobs & bs & c' & Es & Hj & Esent & Ew & _ & Eb & _).
  exists got, rest, w', c', reported, (ztake t rest), (zdrop t rest); split; [exact E|]; split; [exact Ed|]; split; [symmetry; apply ztake_zdrop|].
  split; [exact Ew|]; split; [exact Hfin|]; destruct (app_records wr0 jobs Hj) as [Hrec Econ].
  destruct (seal_all_read (A := A) (tag := tag) (paired := paired) ssl ssl' m tmp_prefix jobs Hr wr0 rd0 bs wr Hs Hi Hsp) as (rd' & _ & _ & Hread); [|exact Es|].
  { apply (List.Forall_impl job_ok (P := app_job)); [intros job [H _]; exact H|exact Hj]. }
  exists (length (flat_map (job_records ssl wr0) jobs)), rd'; intros q; rewrite Eb, <- Esent, <- Econ; apply read_app_data_spec; [|reflexivity|exact Hrec].
  specialize (Hread 0%nat q []); rewrite app_nil_r, Nat.add_0_r in Hread; rewrite Hread; cbn [read_records]; now rewrite app_nil_r.
Qed.
End Wire.

(** * Early data *)

Section Early.
  Context {HA : Allocator} {HR : RandomSource} {S C : Type} {CS : ByteStream C}.
  Variable sizeof_buf : Z.
  Variable place : BUF_MEM -> Z.
  Variable buf_place : SSLBuffer -> Z.
  Variable tmp_prefix new_buf : Z.
  Variable ssl : connection.
  Variable max_send_fragment : Z.
  Variable in_early_data : bool.
  Implicit Types w : tls_writer S C.

(** What writing a record does not change. *)
Definition kept w : early_write * ssl_shutdown_t := (early w, write_shutdown w).

Lemma flush_writer_kept w ret w' : flush_writer w = Some (ret, w') -> kept w' = kept w.
Proof. unfold flush_writer; destruct (ssl_write_buffer_flush _ _ _) as [[[? ?] ?]|]; cbn [mbind option_bind]; [|easy]; now intros [= _ <-]. Qed.

Lemma fill_buffer_kept type in_ flight max_out w ok w' : fill_buffer buf_place tmp_prefix new_buf ssl type in_ flight max_out w = Some (ok, w') -> kept w' = kept w.
Proof.
  unfold fill_buffer; destruct (EnsureCap _ _ _ _) as [[] b]; cbn [negb]; [|now intros [= _ <-]].
  destruct (if zlen flight =? 0 then _ else _) as [w1|] eqn:E1; cbn [mbind option_bind]; [|easy].
  assert (kept w1 = kept w) as <- by (revert E1; case_if; [now intros [= <-]|]; destruct (DidWrite _ _); cbn [mbind option_bind]; [|easy]; now intros [= <-]).
  clear E1; case_if; [now intros [= _ <-]|]; destruct (tls_seal_record _ _ _ _ _ _) as [[bs|] wr]; [|now intros [= _ <-]].
  destruct (DidWrite _ _); cbn [mbind option_bind]; [|easy]; now intros [= _ <-].
Qed.

(** A record has no more than the data it is given. *)
Lemma do_tls_write_kept type in_ w ret n w' : do_tls_write sizeof_buf place buf_place tmp_prefix new_buf ssl type in_ w = Some (ret, n, w') ->
  kept w' = kept w /\ 0 <= n <= zlen (Aead.contents in_).
Proof.
  pose proof (zlen_nonneg (Aead.contents in_)); pose proof (zlen_nonneg (Aead.contents (pending_write w))).
  unfold do_tls_write; destruct (_ && (_ || _ || _)) eqn:Eretry; [intros [= _ <- <-]; split; [reflexivity|lia]|].
  destruct (flush_writer w) as [[ret1 w1]|] eqn:Ef; cbn [mbind option_bind]; [|discriminate]; apply flush_writer_kept in Ef; rewrite <- Ef; clear Ef.
  destruct (ret1 <=? 0); [intros [= _ <- <-]; split; [reflexivity|lia]|].
  destruct (Z.eqb_spec (zlen (Aead.contents (pending_write w))) 0) as [E0|E0]; cbn [negb andb] in *.
  2: { apply orb_false_elim in Eretry as [[Hs%Z.ltb_ge _]%orb_false_elim _]; intros [= _ <- <-]; split; [reflexivity|lia]. }
  destruct (_ || _); [intros [= _ <- <-]; split; [reflexivity|lia]|].
  destruct (tls_flush_pending_hs_data _ _ _ _ _) as [[] o]; cbn [negb]; [|intros [= _ <- <-]; split; [reflexivity|lia]].
  destruct (flight_rest _) as [flight|]; cbn [mbind option_bind]; [|discriminate]; destruct (negb _ && _); [intros [= _ <- <-]; split; [reflexivity|lia]|].
  destruct (_ =? 0); [intros [= _ <- <-]; split; [reflexivity|lia]|].
  destruct (fill_buffer _ _ _ _ _ _ _ _ _) as [[[] w2]|] eqn:E2; cbn [mbind option_bind]; [| |discriminate]; apply fill_buffer_kept in E2; change (kept w2 = kept w1) in E2; rewrite <- E2.
  2: intros [= _ <- <-]; split; [reflexivity|lia].
  destruct (flush_writer (with_update_sent w2)) as [[ret3 w3]|] eqn:E3; cbn [mbind option_bind]; [|discriminate]; apply flush_writer_kept in E3; change (kept w3 = kept w2) in E3; rewrite <- E3.
  case_if; [|intros [= _ <- <-]; split; [reflexivity|lia]]; intros [= _ <- <-]; split; [case_if; reflexivity|lia].
Qed.

Abbreviation write_app := (tls_write_app_data sizeof_buf place buf_place tmp_prefix new_buf ssl max_send_fragment in_early_data).
Abbreviation written w := (early_data_written (early w)).
Abbreviation limit w := (ticket_max_early_data (early w)).

Lemma app_write_loop_early fuel : forall total in_ w ret needs n w', 0 <= written w <= limit w -> limit w < 2 ^ 16 -> 0 <= total -> total + zlen (Aead.contents in_) < 2 ^ 63 ->
  app_write_loop sizeof_buf place buf_place tmp_prefix new_buf ssl max_send_fragment fuel true total in_ w = Some (ret, needs, n, w') ->
  limit w' = limit w /\ written w <= written w' <= limit w /\ written w' - written w = (if 0 <? ret then n else unreported_bytes_written w') - total.
Proof.
  induction fuel as [|fuel IH]; intros total in_ w ret needs n w' Hw Hmax Ht Hz; cbn [app_write_loop andb]; [discriminate|]; pose proof (zlen_nonneg (Aead.contents in_)).
  destruct (Z.leb_spec (limit w) (written w)).
  { intros [= <- <- <- <-]; cbn [stop_early with_early with_unreported early early_data_written ticket_max_early_data unreported_bytes_written Z.ltb Z.compare]; lia. }
  unfold send_limit; set (to_write := Z.min _ _).
  destruct (do_tls_write _ _ _ _ _ _ _ _ _) as [[[r k] w1]|] eqn:E1; cbn [mbind option_bind]; [|discriminate].
  apply do_tls_write_kept in E1 as [[= E1 _] Hk]; cbn [Aead.contents] in Hk.
  assert (k <= limit w - written w /\ k <= zlen (Aead.contents in_)) as [Hk1 Hk2] by (unfold ztake, zlen, to_write in *; rewrite length_take in Hk; lia).
  destruct (Z.leb_spec r 0) as [Hr|Hr].
  { intros [= <- <- <- <-]; cbn [with_unreported early unreported_bytes_written]; rewrite E1, (proj2 (Z.ltb_ge 0 r)) by lia; lia. }
  destruct (_ <? k); [discriminate|]; rewrite (uw_small 64) by (pow2; lia); set (w2 := count_early true k w1).
  assert (written w2 = written w + k /\ limit w2 = limit w) as [E2 E3].
  { unfold w2; cbn [count_early with_early early early_data_written ticket_max_early_data]; rewrite E1, (uw_small 16) by lia; auto. }
  case_if; [intros [= <- <- <- <-]; cbn [with_unreported early Z.ltb Z.compare]; rewrite E2, E3; lia|].
  intros E; apply IH in E; cbn [Aead.contents] in *; rewrite ?E2, ?E3, ?zlen_zdrop in * by lia; lia.
Qed.

(** An alert closes the writing side: whether it went out, waits in the buffer or
    is left to be dispatched, neither data nor another alert is written after
    it. *)
Lemma alert_closes alert_p level desc w ret w' :
  ssl_send_alert_impl sizeof_buf place buf_place tmp_prefix new_buf ssl alert_p level desc w = Some (ret, w') ->
  write_shutdown w' <> ssl_shutdown_none /\ (forall in_, write_app in_ w' = Some (-1, false, 0, w')) /\
  (forall l d, ssl_send_alert_impl sizeof_buf place buf_place tmp_prefix new_buf ssl alert_p l d w' = Some (-1, w')).
Proof.
  intros E; assert (write_shutdown w' <> ssl_shutdown_none) as Hs.
  { revert E; unfold ssl_send_alert_impl; destruct (write_shutdown w) eqn:Ew; [|intros [= _ <-]; congruence..]; 
    set (sd := if (level =? SSL3_AL_WARNING) && (desc =? SSL_AD_CLOSE_NOTIFY) then ssl_shutdown_close_notify else ssl_shutdown_error).
    assert (sd <> ssl_shutdown_none) as Hsd by (unfold sd; case_if; discriminate); set (w1 := with_alert w sd true _); case_if; [|now intros [= _ <-]].
    unfold tls_dispatch_alert; destruct (do_tls_write _ _ _ _ _ _ _ _ _) as [[[r k] w2]|] eqn:E1; cbn [mbind option_bind]; [|easy].
    apply do_tls_write_kept in E1 as [[= _ E2] _]; change (write_shutdown w2 = sd) in E2; case_if; intros [= _ <-]; cbn [with_alert write_shutdown]; congruence. }
  split; [exact Hs|]; unfold tls_write_app_data, ssl_send_alert_impl; now destruct (write_shutdown w').
Qed.

(** C23. The limit on early data. While the limit of the ticket fits the sixteen bits
    of the counter, a call of a client in early data never lets the counter pass
    the limit, and the counter has grown by exactly the bytes that the call
    added to those reported or kept for a later report. *)
Theorem early_data_limit in_ w ret needs n w' : is_early_write ssl in_early_data w = true -> 0 <= written w <= limit w -> limit w < 2 ^ 16 -> 0 <= unreported_bytes_written w ->
  zlen (Aead.contents in_) < 2 ^ 63 -> write_app in_ w = Some (ret, needs, n, w') ->
  limit w' = limit w /\ written w <= written w' <= limit w /\
  (write_shutdown w = ssl_shutdown_none -> unreported_bytes_written w <= zlen (Aead.contents in_) ->
   written w' - written w = (if 0 <? ret then n else unreported_bytes_written w') - unreported_bytes_written w).
Proof.
  intros He Hw Hmax Hu Hz; unfold tls_write_app_data; destruct (write_shutdown w); [|intros [= _ _ _ <-]; repeat (split; [lia|]); discriminate..].
  destruct (Z.ltb_spec (zlen (Aead.contents in_)) (unreported_bytes_written w)); [intros [= _ _ _ <-]; repeat (split; [lia|]); lia|]; rewrite He; intros E.
  apply app_write_loop_early in E; cbn [Aead.contents]; [|exact Hw|exact Hmax|exact Hu|rewrite zlen_zdrop; lia]; destruct E as (? & ? & ?); auto.
Qed.

(** ** Past sixteen bits *)

Lemma counter_add a b : u16 (u16 a + b) = u16 (a + b).
Proof. apply Zplus_mod_idemp_l. Qed.

(** The loop with a limit that the counter cannot reach. *)
Lemma app_write_loop_wraps fuel : forall total in_ w ret needs n w', 0 <= written w < 2 ^ 16 -> 2 ^ 16 <= limit w -> 0 <= total -> total + zlen (Aead.contents in_) < 2 ^ 63 ->
  app_write_loop sizeof_buf place buf_place tmp_prefix new_buf ssl max_send_fragment fuel true total in_ w = Some (ret, needs, n, w') ->
  needs = false /\ can_early_write (early w') = can_early_write (early w) /\ limit w' = limit w /\ 0 <= unreported_bytes_written w' /\
  written w' = u16 (written w + (if 0 <? ret then n else 0) + unreported_bytes_written w' - total).
Proof.
  induction fuel as [|fuel IH]; intros total in_ w ret needs n w' Hw Hmax Ht Hz; cbn [app_write_loop andb]; [discriminate|]; pose proof (zlen_nonneg (Aead.contents in_)).
  rewrite (proj2 (Z.leb_gt _ _)) by lia; set (to_write := Z.min _ _).
  destruct (do_tls_write _ _ _ _ _ _ _ _ _) as [[[r k] w1]|] eqn:E1; cbn [mbind option_bind]; [|discriminate].
  apply do_tls_write_kept in E1 as [[= E1 _] Hk]; cbn [Aead.contents] in Hk.
  assert (k <= zlen (Aead.contents in_)) as Hk2 by (unfold ztake, zlen in *; rewrite length_take in Hk; lia).
  destruct (Z.leb_spec r 0) as [Hr|Hr].
  { intros [= <- <- <- <-]; cbn [with_unreported early unreported_bytes_written]; rewrite E1, (proj2 (Z.ltb_ge 0 r)) by lia; repeat (split; [auto|]); rewrite uw_small; lia. }
  destruct (_ <? k); [discriminate|]; rewrite (uw_small 64) by (pow2; lia); set (w2 := count_early true k w1).
  assert (written w2 = u16 (written w + k) /\ limit w2 = limit w /\ can_early_write (early w2) = can_early_write (early w)) as (E2 & E3 & E4).
  { unfold w2; cbn [count_early with_early early early_data_written ticket_max_early_data can_early_write]; rewrite E1; auto. }
  case_if.
  - intros [= <- <- <- <-]; cbn [with_unreported early unreported_bytes_written Z.ltb Z.compare]; rewrite E2, E3, E4; repeat (split; [first [reflexivity|lia]|]); f_equal; lia.
  - intros E; apply IH in E; cbn [Aead.contents] in *; rewrite ?E2, ?zlen_zdrop in *; try (pose proof (uw_bound 16 (written w + k)); lia).
    destruct E as (? & E5 & E6 & ? & ->); rewrite E5, E6, E3, E4; repeat (split; [auto|]); rewrite <- !Z.add_assoc, <- !Z.add_sub_assoc, counter_add; f_equal; lia.
Qed.

(** Calls one after the other: the bytes reported in all, and whether a call said
    that the handshake has to finish first. *)
Fixpoint early_calls (ins : list buffer) w : option (Z * bool * tls_writer S C) :=
  match ins with
  | [] => Some (0, false, w)
  | in_ :: ins =>
      r ← write_app in_ w;
      let '(ret, needs, n, w) := r in
      r ← early_calls ins w;
      let '(total, stopped, w) := r in Some ((if 0 <? ret then n else 0) + total, needs || stopped, w)
  end.

(** C39. The counter of early data has sixteen bits while the limit of a ticket has
    thirty-two. With a limit of 65536 bytes or more the limit is never enforced:
    over any sequence of calls, however much they write, none stops for it, the
    client stays in early data, and the counter is the number of bytes written
    modulo 65536. *)
Theorem early_data_counter_wraps ins w total stopped w' : is_early_write ssl in_early_data w = true -> 0 <= written w < 2 ^ 16 -> 2 ^ 16 <= limit w ->
  0 <= unreported_bytes_written w -> Forall (fun in_ => zlen (Aead.contents in_) < 2 ^ 63) ins -> early_calls ins w = Some (total, stopped, w') ->
  stopped = false /\ is_early_write ssl in_early_data w' = true /\ limit w' = limit w /\
  written w' = (written w + total + unreported_bytes_written w' - unreported_bytes_written w) mod 2 ^ 16.
Proof.
  intros He Hw Hmax Hu Hins; revert w He Hw Hmax Hu total stopped w'; induction Hins as [|in_ ins Hz _ IH]; intros w He Hw Hmax Hu total stopped w'; cbn [early_calls].
  { intros [= <- <- <-]; repeat (split; [auto|]); rewrite Z.mod_small; lia. }
  destruct (write_app in_ w) as [[[[ret needs] n] w1]|] eqn:E1; cbn [mbind option_bind]; [|discriminate].
  assert (needs = false /\ can_early_write (early w1) = can_early_write (early w) /\ limit w1 = limit w /\ 0 <= unreported_bytes_written w1 /\
    written w1 = u16 (written w + (if 0 <? ret then n else 0) + unreported_bytes_written w1 - unreported_bytes_written w)) as (-> & E2 & E3 & Hu1 & E4).
  { revert E1; unfold tls_write_app_data; destruct (write_shutdown w).
    1: destruct (Z.ltb_spec (zlen (Aead.contents in_)) (unreported_bytes_written w)).
    2: { rewrite He; intros E; apply app_write_loop_wraps in E; cbn [Aead.contents]; [exact E|assumption..|rewrite zlen_zdrop; lia]. }
    all: intros [= <- <- <- <-]; cbn [Z.ltb Z.compare]; repeat (split; [auto|]); rewrite uw_small; lia. }
  assert (0 <= written w1 < 2 ^ 16) as Hw1 by (rewrite E4; apply (uw_bound 16); lia).
  destruct (early_calls ins w1) as [[[total1 stopped1] w2]|] eqn:E5; cbn [mbind option_bind]; [|discriminate]; intros [= <- <- <-].
  destruct (IH w1 ltac:(unfold is_early_write in *; now rewrite E2) Hw1 ltac:(lia) Hu1 _ _ _ E5) as (-> & H1 & H2 & H3); repeat (split; [auto; congruence|]).
  rewrite H3, E4; match goal with |- ?x mod _ = ?y mod _ => change (u16 x = u16 y) end; rewrite <- !Z.add_assoc, <- !Z.add_sub_assoc, counter_add; f_equal; lia.
Qed.
End Early.

(** * Three bytes through a ring of three *)

Section Sample.
  Local Existing Instances allocator_total sample_random.

Definition sample_app_writer : tls_writer Z Pair :=
  {| a_out := new_sender sample_writer; write_buffer := sample_empty; a_wbio := Some sample_pair; write_shutdown := ssl_shutdown_none; pending_write := no_write;
     pending_write_type := 0; unreported_bytes_written := 0; key_update_pending := false; alert_dispatch := false; send_alert := [0; 0];
     early := {| can_early_write := false; early_data_written := 0; ticket_max_early_data := 0 |} |}.
Definition sample_events : list app_event := concat (repeat [AppCall; PeerRead 3] 20).
Abbreviation sample_run := (app_run 24 sample_place (fun _ => 65536) 8192 4096 sample_ssl 2 false sample_events 100 [104; 105; 33] [] sample_app_writer).

(** Two records, of two bytes and of one, go through the ring; the calls in between
    are refused and retried. *)
Lemma tls_app_data_delivered_witness :
  exists got w' c' n rd', sample_run = Some (got, [], w') /\ a_wbio w' = Some c' /\
    read_app_data 24 n sample_ssl false 0 no_messages sample_reader 16384 (got ++ Bio.contents c' ++ span (write_buffer w')) = ([104; 105; 33], rd', []).
Proof.
  destruct sample_in_sync as [n Hs].
  destruct (tls_app_data_delivered (A := toy_table n) (tag := 16) (paired := eq) 24 sample_place (fun _ => 65536) 8192 4096 sample_ssl 2 false ltac:(unfold SSL3_RT_MAX_PLAIN_LENGTH; lia)
    sample_ssl no_messages sample_writer sample_reader sample_pair sample_app_writer 100 [104; 105; 33] sample_events 0)
    as (got & rest & w' & c' & reported & ahead & more & E & Ed & Er & Ec & _ & k & rd' & Hread).
  - exact Hs.
  - split; reflexivity.
  - intros H; vm_compute in H; discriminate.
  - split; reflexivity.
  - each_literal.
  - reflexivity.
  - exact sample_pair_ok.
  - reflexivity.
  - repeat split; vm_compute; congruence.
  - repeat (apply List.Forall_cons; [vm_compute; intuition congruence|]); apply List.Forall_nil.
  - assert (option_map (fun r => snd (fst r)) sample_run = Some []) as Ev by (vm_compute; reflexivity).
    rewrite E in Ev; cbn [option_map fst snd] in Ev; injection Ev as ->; symmetry in Er; apply app_eq_nil in Er as [-> _]; rewrite app_nil_r in Ed, Hread; subst reported.
    exists got, w', c', k, rd'; split; [exact E|]; split; [exact Ec|apply Hread].
Defined.

(** A client in early data with a limit of [max], over a memory BIO. *)
Definition early_writer (max sent : Z) : tls_writer Z MemBIO :=
  {| a_out := new_sender sample_writer; write_buffer := sample_empty; a_wbio := Some sample_bio; write_shutdown := ssl_shutdown_none; pending_write := no_write;
     pending_write_type := 0; unreported_bytes_written := 0; key_update_pending := false; alert_dispatch := false; send_alert := [0; 0];
     early := {| can_early_write := true; early_data_written := sent; ticket_max_early_data := max |} |}.
Abbreviation early_call := (tls_write_app_data 24 sample_place (fun _ => 65536) 8192 4096 sample_ssl 16384 true).

(** The parts of a result that are compared. *)
Definition call_facts (r : option (Z * bool * Z * tls_writer Z MemBIO)) : option (Z * bool * Z * Z * Z) :=
  match r with Some (ret, needs, n, w) => Some (ret, needs, n, early_data_written (early w), unreported_bytes_written w) | None => None end.

Lemma call_facts_inv r ret needs n e u : call_facts r = Some (ret, needs, n, e, u) ->
  exists w, r = Some (ret, needs, n, w) /\ early_data_written (early w) = e /\ unreported_bytes_written w = u.
Proof. destruct r as [[[[? ?] ?] w]|]; [|discriminate]; intros [= <- <- <- <- <-]; eauto. Qed.

Lemma early_data_limit_witness :
  exists w', early_call {| addr := 0; Aead.contents := [1; 2; 3] |} (early_writer 5 3) = Some (-1, true, 0, w') /\
    ticket_max_early_data (early w') = 5 /\ 3 <= early_data_written (early w') <= 5 /\ unreported_bytes_written w' = 2.
Proof.
  destruct (call_facts_inv (early_call {| addr := 0; Aead.contents := [1; 2; 3] |} (early_writer 5 3)) (-1) true 0 5 2) as (w' & E & _ & Eu); [vm_compute; reflexivity|].
  destruct (early_data_limit 24 sample_place (fun _ => 65536) 8192 4096 sample_ssl 16384 true {| addr := 0; Aead.contents := [1; 2; 3] |} (early_writer 5 3) (-1) true 0 w'
    eq_refl ltac:(cbn; lia) ltac:(cbn; lia) ltac:(cbn; lia) ltac:(reflexivity) E) as (E1 & E2 & _).
  exists w'; exact (conj E (conj E1 (conj E2 Eu))).
Defined.

(** Five calls of 16384 bytes under a limit of 65536: 81920 bytes are written, more
    than the limit. *)
Definition five_calls : list buffer := repeat {| addr := 0; Aead.contents := zrep 16384 7 |} 5.
Abbreviation five_run := (early_calls 24 sample_place (fun _ => 65536) 8192 4096 sample_ssl 16384 true five_calls (early_writer 65536 0)).

Lemma early_data_counter_wraps_witness :
  exists w', five_run = Some (81920, false, w') /\ ticket_max_early_data (early w') = 65536 /\ early_data_written (early w') = 16384.
Proof.
  assert (exists w', five_run = Some (81920, false, w') /\ unreported_bytes_written w' = 0) as (w' & E & Eu).
  { assert (match five_run with Some (t, s, w) => (t =? 81920) && negb s && (unreported_bytes_written w =? 0) | None => false end = true) as H by (vm_compute; reflexivity).
    destruct five_run as [[[t []] w]|]; [rewrite andb_false_r in H; discriminate| |discriminate]; rewrite andb_true_r in H; apply andb_prop in H as [->%Z.eqb_eq Hu%Z.eqb_eq]; eauto. }
  destruct (early_data_counter_wraps 24 sample_place (fun _ => 65536) 8192 4096 sample_ssl 16384 true five_calls (early_writer 65536 0) 81920 false w'
    eq_refl ltac:(cbn; lia) ltac:(cbn; lia) ltac:(cbn; lia)) as (_ & _ & El & Ew); [|exact E|].
  - unfold five_calls; cbn [repeat]; repeat apply List.Forall_cons; try apply List.Forall_nil; reflexivity.
  - exists w'; split; [exact E|]; split; [exact El|]; rewrite Ew, Eu; reflexivity.
Defined.
End Sample.
