(* ===== verification/DtlsMessage.v ===== *)
(** Handshake messages over DTLS, the receiving side (ssl/d1_both.cc, lines
    143-484): fragments of up to seven messages arrive in any order, overlap and
    repeat, and are put together under a mask with a bit for every byte.

    [dtls_messages] has the fields of [DTLS1_STATE] and [SSL3_STATE] that the
    receiving side changes. The slot of a message is its number modulo seven; a
    slot without a message is [None]. *)

From S2P Require Import Prelude Mem Cbs Cbb BufMem Words Md32 Sha256 Sha512 Sha1 Md5 Digest Aead.
From S2P Require Import SslVersions SslCipher SslAead TlsMessage TlsRecord DtlsRecord.

Definition SSL_MAX_HANDSHAKE_FLIGHT : Z := 7.
Definition DTLS1_HM_HEADER_LENGTH : Z := 12.
Definition SSL3_MT_CCS : Z := 1.
Definition SSL_R_BAD_CHANGE_CIPHER_SPEC : Z := 103.
Definition SSL_R_BAD_HANDSHAKE_RECORD : Z := 109.
Definition SSL_R_FRAGMENT_MISMATCH : Z := 152.

Record hm_header_st : Type := { hdr_type : Z; hdr_msg_len : Z; hdr_seq : Z; hdr_frag_off : Z; hdr_frag_len : Z }.

Record hm_fragment : Type := {
  frag_type : Z;
  frag_seq : Z;
  frag_msg_len : Z;
  frag_data : list Z;
  reassembly : option (list Z)
}.

Record dtls_messages : Type := {
  incoming_messages : list (option hm_fragment);
  handshake_read_seq : Z;
  dtls_has_message : bool;
  has_change_cipher_spec : bool;
  outgoing_messages_complete : bool;
  flight_has_reply : bool
}.

Definition with_incoming (m : dtls_messages) (l : list (option hm_fragment)) : dtls_messages :=
  {| incoming_messages := l; handshake_read_seq := handshake_read_seq m; dtls_has_message := dtls_has_message m;
     has_change_cipher_spec := has_change_cipher_spec m; outgoing_messages_complete := outgoing_messages_complete m;
     flight_has_reply := flight_has_reply m |}.

Definition with_ccs (m : dtls_messages) (b : bool) : dtls_messages :=
  {| incoming_messages := incoming_messages m; handshake_read_seq := handshake_read_seq m; dtls_has_message := dtls_has_message m;
     has_change_cipher_spec := b; outgoing_messages_complete := outgoing_messages_complete m; flight_has_reply := flight_has_reply m |}.

Definition with_dtls_message (m : dtls_messages) (b : bool) : dtls_messages :=
  {| incoming_messages := incoming_messages m; handshake_read_seq := handshake_read_seq m; dtls_has_message := b;
     has_change_cipher_spec := has_change_cipher_spec m; outgoing_messages_complete := outgoing_messages_complete m;
     flight_has_reply := flight_has_reply m |}.

(** * The mask of the bytes received *)

Definition bit_range (start end_ : Z) : Z :=
  u8 (Z.land (Z.lxor (Z.shiftl 1 start - 1) UINT_MAX) (Z.shiftl 1 end_ - 1)).

(** [mask[i] |= v] *)
Definition or_byte (i v : Z) (mask : list Z) : list Z := zsplice mask i [Z.lor (znth mask i) v].

(** [n] bytes from [i] on become 0xff. *)
Fixpoint fill_ff (n : nat) (i : Z) (mask : list Z) : list Z :=
  match n with
  | O => mask
  | S n => fill_ff n (i + 1) (zsplice mask i [0xff])
  end.

Definition mark_range (start end_ : Z) (mask : list Z) : list Z :=
  if Z.shiftr start 3 =? Z.shiftr end_ 3 then or_byte (Z.shiftr start 3) (bit_range (Z.land start 7) (Z.land end_ 7)) mask
  else
    let mask := or_byte (Z.shiftr start 3) (bit_range (Z.land start 7) 8) mask in
    let mask := fill_ff (Z.to_nat (Z.shiftr end_ 3 - (Z.shiftr start 3 + 1))) (Z.shiftr start 3 + 1) mask in
    if negb (Z.land end_ 7 =? 0) then or_byte (Z.shiftr end_ 3) (bit_range 0 (Z.land end_ 7)) mask else mask.

Definition mask_complete (msg_len : Z) (mask : list Z) : bool :=
  forallb (fun x => x =? 0xff) (ztake (Z.shiftr msg_len 3) mask) &&
  ((Z.land msg_len 7 =? 0) || (znth mask (Z.shiftr msg_len 3) =? bit_range 0 (Z.land msg_len 7))).

Definition with_reassembly (frag : hm_fragment) (mask : option (list Z)) : hm_fragment :=
  {| frag_type := frag_type frag; frag_seq := frag_seq frag; frag_msg_len := frag_msg_len frag; frag_data := frag_data frag;
     reassembly := mask |}.

Definition dtls1_hm_fragment_mark (frag : hm_fragment) (start end_ : Z) : hm_fragment :=
  let msg_len := frag_msg_len frag in
  match reassembly frag with
  | None => frag
  | Some mask =>
      if (end_ <? start) || (msg_len <? end_) then frag
      else if start =? end_ then frag
      else
        let mask := mark_range start end_ mask in
        with_reassembly frag (if mask_complete msg_len mask then None else Some mask)
  end.

(** * Messages *)

Definition slot_of (seq : Z) : nat := Z.to_nat (seq mod SSL_MAX_HANDSHAKE_FLIGHT).

Definition slot (m : dtls_messages) (seq : Z) : option hm_fragment := default None (incoming_messages m !! slot_of seq).

Definition set_slot (m : dtls_messages) (seq : Z) (frag : option hm_fragment) : dtls_messages :=
  with_incoming m (<[slot_of seq := frag]> (incoming_messages m)).

Definition dtls1_is_current_message_complete (m : dtls_messages) : bool :=
  match slot m (handshake_read_seq m) with
  | None => false
  | Some frag => bool_decide (reassembly frag = None)
  end.

Definition dtls1_parse_fragment : ST CBS (hm_header_st * CBS) :=
  let! type := CBS_get_u8 in
  let! msg_len := CBS_get_u24 in
  let! seq := CBS_get_u16 in
  let! frag_off := CBS_get_u24 in
  let! frag_len := CBS_get_u24 in
  let! body := CBS_get_bytes frag_len in
  st_ret ({| hdr_type := type; hdr_msg_len := msg_len; hdr_seq := seq; hdr_frag_off := frag_off; hdr_frag_len := frag_len |}, body).

(** [reason] is 0 where the code reports an alert and no error of its own. *)
Definition hs_error (alert why : Z) : ssl_error := {| reason := why; out_alert := alert |}.

Section Reassembly.
  Context {HA : Allocator}.
  (** sizeof(hm_fragment). *)
  Variable sizeof_fragment : Z.

(** The calls that write a header into a builder. *)
Definition header_calls (type msg_len seq frag_off frag_len : Z) : ST CBB unit :=
  CBB_add_u8 0 type ;;; CBB_add_u24 0 msg_len ;;; CBB_add_u16 0 seq ;;; CBB_add_u24 0 frag_off ;;; CBB_add_u24 0 frag_len.

Definition dtls1_hm_fragment_new (h : hm_header_st) : option hm_fragment :=
  if negb (malloc_ok sizeof_fragment) then None
  else
    data ← OPENSSL_malloc (u32 (DTLS1_HM_HEADER_LENGTH + hdr_msg_len h));
    let cbb := CBB_init_fixed (ztake DTLS1_HM_HEADER_LENGTH data) DTLS1_HM_HEADER_LENGTH in
    header ← fst ((header_calls (hdr_type h) (hdr_msg_len h) (hdr_seq h) 0 (hdr_msg_len h) ;;; CBB_finish) cbb);
    let frag mask := {| frag_type := hdr_type h; frag_seq := hdr_seq h; frag_msg_len := hdr_msg_len h;
                        frag_data := zsplice data 0 header; reassembly := mask |} in
    if 0 <? hdr_msg_len h then
      if u32 (hdr_msg_len h + 7) <? hdr_msg_len h then None
      else mask ← OPENSSL_zalloc (u32 (hdr_msg_len h + 7) / 8); Some (frag (Some mask))
    else Some (frag None).

(** The message of a header, made if there is none, in its slot. *)
Definition dtls1_get_incoming_message (m : dtls_messages) (h : hm_header_st) : (ssl_error + hm_fragment) * dtls_messages :=
  if (hdr_seq h <? handshake_read_seq m) || (SSL_MAX_HANDSHAKE_FLIGHT <=? hdr_seq h - handshake_read_seq m)
  then (inl (hs_error SSL_AD_INTERNAL_ERROR 0), m)
  else
    match slot m (hdr_seq h) with
    | Some frag =>
        if negb (frag_type frag =? hdr_type h) || negb (frag_msg_len frag =? hdr_msg_len h)
        then (inl (hs_error SSL_AD_ILLEGAL_PARAMETER SSL_R_FRAGMENT_MISMATCH), m)
        else (inr frag, m)
    | None =>
        let frag := dtls1_hm_fragment_new h in
        let m := set_slot m (hdr_seq h) frag in
        match frag with
        | None => (inl (hs_error SSL_AD_INTERNAL_ERROR 0), m)
        | Some frag => (inr frag, m)
        end
    end.

Definition copy_body (frag : hm_fragment) (off : Z) (body : list Z) : hm_fragment :=
  {| frag_type := frag_type frag; frag_seq := frag_seq frag; frag_msg_len := frag_msg_len frag;
     frag_data := zsplice (frag_data frag) (DTLS1_HM_HEADER_LENGTH + off) body; reassembly := reassembly frag |}.

(** The loop over the fragments of a record; [None] is the end of the fuel. *)
Fixpoint process_fragments (fuel : nat) (ssl : connection) (epoch : Z) (cbs : CBS) (m : dtls_messages) :
    option (option ssl_error * dtls_messages) :=
  match fuel with
  | O => None
  | S fuel =>
      if CBS_len cbs =? 0 then Some (None, m)
      else
        match dtls1_parse_fragment cbs with
        | (None, _) => Some (Some (hs_error SSL_AD_DECODE_ERROR SSL_R_BAD_HANDSHAKE_RECORD), m)
        | (Some (h, body), cbs) =>
            let frag_off := hdr_frag_off h in
            let frag_len := hdr_frag_len h in
            let msg_len := hdr_msg_len h in
            if (msg_len <? frag_off) || (u64 (frag_off + frag_len) <? frag_off) || (msg_len <? u64 (frag_off + frag_len)) ||
               (ssl_max_handshake_message_len ssl <? msg_len)
            then Some (Some (hs_error SSL_AD_ILLEGAL_PARAMETER SSL_R_EXCESSIVE_MESSAGE_SIZE), m)
            else if (epoch =? 1) && negb (hdr_seq h =? handshake_read_seq m)
            then Some (Some (hs_error SSL_AD_UNEXPECTED_MESSAGE SSL_R_UNEXPECTED_RECORD), m)
            else if (hdr_seq h <? handshake_read_seq m) || (u32 (handshake_read_seq m + SSL_MAX_HANDSHAKE_FLIGHT) <? hdr_seq h)
            then process_fragments fuel ssl epoch cbs m
            else
              match dtls1_get_incoming_message m h with
              | (inl e, m) => Some (Some e, m)
              | (inr frag, m) =>
                  match reassembly frag with
                  | None => process_fragments fuel ssl epoch cbs m
                  | Some _ =>
                      let frag := copy_body frag frag_off body in
                      let frag := dtls1_hm_fragment_mark frag frag_off (u64 (frag_off + frag_len)) in
                      process_fragments fuel ssl epoch cbs (set_slot m (hdr_seq h) (Some frag))
                  end
              end
        end
  end.

Section Open.
  Context {S : Type}.
  Implicit Types rd : dtls_read_state S.

(** Of the result [ssl_open_record_success] only the number of bytes consumed is
    an out-parameter of the function. *)
Definition dtls1_open_handshake (ssl : connection) rd (m : dtls_messages) (p : Z) (in_ : list Z) :
    option (ssl_open_record_t * dtls_read_state S * dtls_messages) :=
  let '(ret, rd) := dtls_open_record ssl rd p in_ in
  match ret with
  | ssl_open_record_success type record consumed =>
      let a := aead_read_ctx (d_read rd) in
      if type =? SSL3_RT_APPLICATION_DATA then
        if is_null_cipher a then Some (open_error SSL_AD_UNEXPECTED_MESSAGE SSL_R_UNEXPECTED_RECORD consumed, rd, m)
        else Some (ssl_open_record_discard consumed, rd, m)
      else if type =? SSL3_RT_CHANGE_CIPHER_SPEC then
        if negb (is_null_cipher a) then Some (open_error SSL_AD_UNEXPECTED_MESSAGE SSL_R_UNEXPECTED_RECORD consumed, rd, m)
        else if negb (zlen record =? 1) || negb (znth record 0 =? SSL3_MT_CCS)
        then Some (open_error SSL_AD_ILLEGAL_PARAMETER SSL_R_BAD_CHANGE_CIPHER_SPEC consumed, rd, m)
        else Some (ret, rd, with_ccs m true)
      else if negb (type =? SSL3_RT_HANDSHAKE)
      then Some (open_error SSL_AD_UNEXPECTED_MESSAGE SSL_R_UNEXPECTED_RECORD consumed, rd, m)
      else
        r ← process_fragments (Datatypes.S (length record)) ssl (r_epoch rd) (CBS_init record (zlen record)) m;
        match r with
        | (Some e, m) => Some (ssl_open_record_error e consumed, rd, m)
        | (None, m) => Some (ret, rd, m)
        end
  | _ => Some (ret, rd, m)
  end.

Definition dtls1_open_change_cipher_spec (ssl : connection) rd (m : dtls_messages) (p : Z) (in_ : list Z) (consumed : Z) :
    option (ssl_open_record_t * dtls_read_state S * dtls_messages) :=
  r ← (if negb (has_change_cipher_spec m) then dtls1_open_handshake ssl rd m p in_
       else Some (ssl_open_record_success SSL3_RT_CHANGE_CIPHER_SPEC [] consumed, rd, m));
  match r with
  | (ssl_open_record_success type out consumed, rd, m) =>
      if has_change_cipher_spec m then Some (ssl_open_record_success type out consumed, rd, with_ccs m false)
      else Some (ssl_open_record_discard consumed, rd, m)
  | r => Some r
  end.
End Open.
End Reassembly.

Definition dtls1_get_message (m : dtls_messages) : option SSLMessage * dtls_messages :=
  if negb (dtls1_is_current_message_complete m) then (None, m)
  else
    match slot m (handshake_read_seq m) with
    | None => (None, m)
    | Some frag =>
        (Some {| msg_is_v2_hello := false; msg_type := frag_type frag;
                 msg_body := CBS_init (zdrop DTLS1_HM_HEADER_LENGTH (frag_data frag)) (frag_msg_len frag);
                 msg_raw := CBS_init (frag_data frag) (DTLS1_HM_HEADER_LENGTH + frag_msg_len frag) |},
         if negb (dtls_has_message m) then with_dtls_message m true else m)
    end.

Definition dtls1_next_message (m : dtls_messages) : dtls_messages :=
  let m := set_slot m (handshake_read_seq m) None in
  {| incoming_messages := incoming_messages m; handshake_read_seq := u16 (handshake_read_seq m + 1); dtls_has_message := false;
     has_change_cipher_spec := has_change_cipher_spec m; outgoing_messages_complete := outgoing_messages_complete m;
     flight_has_reply := if outgoing_messages_complete m then true else flight_has_reply m |}.

Definition dtls_has_unprocessed_handshake_data (m : dtls_messages) : bool :=
  let current := slot_of (handshake_read_seq m) in
  existsb (fun i => negb (dtls_has_message m && (i =? current)%nat) && negb (bool_decide (default None (incoming_messages m !! i) = None)))
    (seq 0 (Z.to_nat SSL_MAX_HANDSHAKE_FLIGHT)).
