(* ===== verification/DtlsMessageSpec.v ===== *)
(** What the reassembly of DTLS handshake messages does (DtlsMessage.v): the mask
    has the bytes that have been received, and from fragments of whatever cut,
    order and repetition the messages come out as they were sent. *)

From S2P Require Import Prelude Mem Cbs Asn1 Der Cbb CbbSpec BufMem Words Md32 Sha256 Sha512 Sha1 Md5 Digest Aead.
From S2P Require Import SslVersions SslCipher SslAead TlsMessage TlsRecord DtlsRecord DtlsMessage.

(** * The mask *)

(** Decides an equation between comparisons. *)
Ltac compare_cases :=
  repeat match goal with
  | |- context [?a <=? ?b] => destruct (Z.leb_spec a b)
  | |- context [?a <? ?b] => destruct (Z.ltb_spec a b)
  | |- context [?a =? ?b] => destruct (Z.eqb_spec a b)
  end; cbn [andb orb negb]; first [reflexivity | lia].

(** The bit of byte [k] of a message. *)
Definition mask_bit (mask : list Z) (k : Z) : bool := Z.testbit (znth mask (k / 8)) (k mod 8).

Lemma bit_range_bits a b j : 0 <= a <= 8 -> 0 <= b <= 8 -> 0 <= j < 8 -> Z.testbit (bit_range a b) j = (a <=? j) && (j <? b).
Proof.
  intros Ha Hb Hj.
  assert (zall (fun a => zall (fun b => zall (fun j => eqb (Z.testbit (bit_range a b) j) ((a <=? j) && (j <? b))) 0 8) 0 9) 0 9 = true) as H
    by (vm_compute; reflexivity).
  apply eqb_prop, (zall_spec _ _ _ (zall_spec _ _ _ (zall_spec _ _ _ H a ltac:(lia)) b ltac:(lia)) j Hj).
Qed.

Lemma bit_range_byte a b : byte (bit_range a b).
Proof. apply (uw_bound 8); lia. Qed.

Lemma byte_bits x j : byte x -> 8 <= j -> Z.testbit x j = false.
Proof. intros Hx Hj; rewrite Z.testbit_false by lia; rewrite Z.div_small; [reflexivity|]; split; [apply Hx|]; apply (Z.lt_le_trans _ (2 ^ 8)); [apply Hx|]; apply Z.pow_le_mono_r; lia. Qed.

(** Two bytes with the same bits are equal. *)
Lemma byte_ext x y : byte x -> byte y -> (forall j, 0 <= j < 8 -> Z.testbit x j = Z.testbit y j) -> x = y.
Proof.
  intros Hx Hy H; apply Z.bits_inj'; intros j Hj; destruct (Z.lt_ge_cases j 8); [apply H; lia|]; now rewrite !byte_bits.
Qed.

Lemma shiftr_3 x : Z.shiftr x 3 = x / 8.
Proof. rewrite Z.shiftr_div_pow2 by lia; reflexivity. Qed.
Lemma land_7 x : Z.land x 7 = x mod 8.
Proof. exact (Z.land_ones x 3 ltac:(lia)). Qed.

Lemma or_byte_spec i v mask k : 0 <= i < zlen mask -> 0 <= k ->
  mask_bit (or_byte i v mask) k = mask_bit mask k || ((k / 8 =? i) && Z.testbit v (k mod 8)).
Proof.
  intros Hi Hk; unfold mask_bit, or_byte; rewrite znth_zsplice1 by (auto; apply Z.div_pos; lia).
  destruct (Z.eqb_spec (k / 8) i) as [->|]; [apply Z.lor_spec|now rewrite orb_false_r].
Qed.

Definition mask_ok (n : Z) (mask : list Z) : Prop := bytes mask /\ zlen mask = n.

Lemma zsplice_mask_ok n i v mask : 0 <= i < n -> byte v -> mask_ok n mask -> mask_ok n (zsplice mask i [v]).
Proof.
  intros Hi Hv [Hb Hl]; split; [unfold zsplice; repeat apply Forall_app_2; [now apply Forall_take| |now apply Forall_drop]; now constructor|].
  rewrite zlen_zsplice; [exact Hl|lia|rewrite zlen_cons, zlen_nil; lia].
Qed.

Lemma or_byte_ok n i v mask : 0 <= i < n -> byte v -> mask_ok n mask -> mask_ok n (or_byte i v mask).
Proof.
  intros Hi Hv Hm; pose proof Hm as [Hb Hl]; apply zsplice_mask_ok; auto.
  apply (lor_small _ _ 8); [lia|apply bytes_znth; exact Hb|exact Hv].
Qed.

Lemma fill_ff_spec n c : forall i mask, 0 <= i -> i + Z.of_nat c <= n -> mask_ok n mask ->
  mask_ok n (fill_ff c i mask) /\
  forall k, 0 <= k -> mask_bit (fill_ff c i mask) k = mask_bit mask k || ((i <=? k / 8) && (k / 8 <? i + Z.of_nat c)).
Proof.
  induction c as [|c IH]; intros i mask Hi Hn Hm; cbn [fill_ff].
  - split; [exact Hm|]; intros k Hk; destruct (Z.leb_spec i (k / 8)), (Z.ltb_spec (k / 8) (i + Z.of_nat 0)); try lia; now rewrite orb_false_r.
  - destruct (IH (i + 1) (zsplice mask i [0xff])) as [H1 H2]; [lia|lia|apply zsplice_mask_ok; auto; [lia|split; lia]|].
    split; [exact H1|]; intros k Hk; rewrite H2 by exact Hk; unfold mask_bit at 1; pose proof (Z.div_pos k 8 Hk ltac:(lia)) as Hd.
    destruct Hm as [_ Hl]; rewrite znth_zsplice1 by lia; pose proof (Z.mod_pos_bound k 8 ltac:(lia)) as Hk8.
    destruct (Z.eqb_spec (k / 8) i) as [E|E].
    + change 255 with (Z.ones 8); rewrite Z.ones_spec_low by lia; cbn [orb]; rewrite E, Z.leb_refl, (proj2 (Z.ltb_lt _ _)) by lia; cbn [andb]; now rewrite orb_true_r.
    + fold (mask_bit mask k); f_equal; destruct (Z.leb_spec (i + 1) (k / 8)), (Z.leb_spec i (k / 8)), (Z.ltb_spec (k / 8) (i + 1 + Z.of_nat c)),
        (Z.ltb_spec (k / 8) (i + Z.of_nat (S c))); try lia; reflexivity.
Qed.

(** Marking sets the bits of the range and no others. *)
Lemma mark_range_spec start end_ n mask : 0 <= start < end_ -> end_ <= 8 * n -> mask_ok n mask ->
  mask_ok n (mark_range start end_ mask) /\
  forall k, 0 <= k -> mask_bit (mark_range start end_ mask) k = mask_bit mask k || ((start <=? k) && (k <? end_)).
Proof.
  intros Hs He Hm; unfold mark_range; rewrite !shiftr_3, !land_7.
  pose proof (Z.mod_pos_bound start 8 ltac:(lia)) as Hs8; pose proof (Z.mod_pos_bound end_ 8 ltac:(lia)) as He8.
  pose proof (Z.div_mod start 8 ltac:(lia)) as Es; pose proof (Z.div_mod end_ 8 ltac:(lia)) as Ee; pose proof Hm as [Hb Hl].
  destruct (Z.eqb_spec (start / 8) (end_ / 8)) as [E|E].
  - split; [apply or_byte_ok; auto; [lia|apply bit_range_byte]|]; intros k Hk; rewrite or_byte_spec by lia; f_equal.
    pose proof (Z.mod_pos_bound k 8 ltac:(lia)); pose proof (Z.div_mod k 8 ltac:(lia)); rewrite bit_range_bits by lia; compare_cases.
  - assert (start / 8 < end_ / 8) as Hlt by lia; set (m1 := or_byte _ _ mask).
    assert (mask_ok n m1) as Hm1 by (apply or_byte_ok; auto; [lia|apply bit_range_byte]).
    destruct (fill_ff_spec n (Z.to_nat (end_ / 8 - (start / 8 + 1))) (start / 8 + 1) m1 ltac:(lia) ltac:(lia) Hm1) as [Hm2 H2].
    set (m2 := fill_ff _ _ m1) in *.
    assert (forall k, 0 <= k -> mask_bit m2 k = mask_bit mask k || ((start <=? k) && (k <? 8 * (end_ / 8)))) as H3.
    { intros k Hk; rewrite H2 by exact Hk; unfold m1; rewrite or_byte_spec by lia; rewrite <- orb_assoc; f_equal.
      pose proof (Z.mod_pos_bound k 8 ltac:(lia)); pose proof (Z.div_mod k 8 ltac:(lia)); rewrite bit_range_bits by lia; compare_cases. }
    destruct (Z.eqb_spec (end_ mod 8) 0) as [E0|E0]; cbn [negb].
    + split; [exact Hm2|]; intros k Hk; rewrite H3 by exact Hk; do 2 f_equal; lia.
    + split; [apply or_byte_ok; auto; [lia|apply bit_range_byte]|]; intros k Hk.
      rewrite or_byte_spec by (destruct Hm2; lia); rewrite H3 by exact Hk; rewrite <- orb_assoc; f_equal.
      pose proof (Z.mod_pos_bound k 8 ltac:(lia)); pose proof (Z.div_mod k 8 ltac:(lia)); rewrite bit_range_bits by lia; compare_cases.
Qed.

Lemma znth_In (l : list Z) i : 0 <= i < zlen l -> In (znth l i) l.
Proof. intros Hi; rewrite znth_lookup; destruct (lookup_lt_is_Some_2 l (Z.to_nat i)) as [x E]; [unfold zlen in Hi; lia|]; rewrite E; apply list_elem_of_In, (list_elem_of_lookup_2 _ _ _ E). Qed.

Lemma znth_of_In (l : list Z) x : In x l -> exists i, 0 <= i < zlen l /\ znth l i = x.
Proof.
  intros Hx; apply list_elem_of_In, list_elem_of_lookup in Hx as [i E]; exists (Z.of_nat i); pose proof (lookup_lt_Some _ _ _ E).
  split; [unfold zlen; lia|]; now rewrite znth_lookup, Nat2Z.id, E.
Qed.

(** A mask with no bit beyond the message is complete when all others are set. *)
Lemma mask_complete_iff n mask : 0 < n -> mask_ok ((n + 7) / 8) mask -> (forall k, n <= k < 8 * zlen mask -> mask_bit mask k = false) ->
  mask_complete n mask = true <-> forall k, 0 <= k < n -> mask_bit mask k = true.
Proof.
  intros Hn [Hb Hl] Hz; unfold mask_complete; rewrite shiftr_3, land_7, andb_true_iff, orb_true_iff, forallb_forall.
  pose proof (Z.div_mod n 8 ltac:(lia)) as En; pose proof (Z.mod_pos_bound n 8 ltac:(lia)) as Hn8.
  assert (n / 8 <= zlen mask) as Hle by (rewrite Hl; apply Z.div_le_mono; lia).
  assert (n mod 8 <> 0 -> n / 8 < zlen mask) as Hlt by (intros; rewrite Hl; apply Z.le_succ_l, Z.div_le_lower_bound; lia).
  assert (forall i j, 0 <= i -> 0 <= j < 8 -> mask_bit mask (8 * i + j) = Z.testbit (znth mask i) j) as Hbit.
  { intros i j Hi Hj; unfold mask_bit; rewrite (Z.mul_comm 8), Z.div_add_l, Z.div_small, Z.add_0_r, Z.add_comm, Z.mod_add, Z.mod_small by lia; reflexivity. }
  split.
  - intros [Hall Hlast] k Hk; pose proof (Z.div_mod k 8 ltac:(lia)) as Ek; pose proof (Z.mod_pos_bound k 8 ltac:(lia)) as Hk8.
    pose proof (Z.div_pos k 8 ltac:(lia) ltac:(lia)); unfold mask_bit; destruct (Z.lt_ge_cases (k / 8) (n / 8)) as [Hlow|Hhigh].
    + assert (znth mask (k / 8) = 255) as ->; [|change 255 with (Z.ones 8); rewrite Z.ones_spec_low by lia; reflexivity].
      apply Z.eqb_eq, Hall; rewrite <- (znth_ztake mask (n / 8)) by lia; apply znth_In; rewrite zlen_ztake; lia.
    + assert (k / 8 = n / 8) as E by (apply Z.le_antisymm; [apply Z.div_le_mono; lia|lia]).
      destruct Hlast as [H0|H0]; bool_facts; [lia|]; rewrite E, H0, bit_range_bits by lia; lia.
  - intros Hall; split.
    + intros x Hx; apply znth_of_In in Hx as (i & Hi & <-); rewrite zlen_ztake in Hi by lia; rewrite znth_ztake by lia.
      apply Z.eqb_eq, byte_ext; [now apply bytes_znth|split; lia|]; intros j Hj; rewrite <- Hbit by lia.
      change 255 with (Z.ones 8); rewrite Z.ones_spec_low by lia; apply Hall; lia.
    + destruct (Z.eqb_spec (n mod 8) 0) as [|H0]; [now left|]; right; apply Z.eqb_eq, byte_ext; [now apply bytes_znth|apply bit_range_byte|].
      intros j Hj; rewrite <- Hbit, bit_range_bits by lia; specialize (Hlt H0).
      destruct (Z.ltb_spec j (n mod 8)); [rewrite Hall by lia; lia|rewrite Hz by lia; lia].
Qed.

(** * Headers *)

Definition fragment_header (type msg_len seq off len : Z) : list Z :=
  type :: be_enc 3 msg_len ++ be_enc 2 seq ++ be_enc 3 off ++ be_enc 3 len.

Definition header_ok (h : hm_header_st) : Prop :=
  byte (hdr_type h) /\ 0 <= hdr_msg_len h < 2 ^ 24 /\ 0 <= hdr_seq h < 2 ^ 16 /\ 0 <= hdr_frag_off h < 2 ^ 24 /\ 0 <= hdr_frag_len h < 2 ^ 24.

Lemma zlen_fragment_header type msg_len seq off len : zlen (fragment_header type msg_len seq off len) = 12.
Proof. unfold fragment_header; rewrite zlen_cons, !zlen_app, !zlen_be_enc; reflexivity. Qed.

Lemma parse_fragment h body rest : header_ok h -> hdr_frag_len h = zlen body ->
  dtls1_parse_fragment (fragment_header (hdr_type h) (hdr_msg_len h) (hdr_seq h) (hdr_frag_off h) (hdr_frag_len h) ++ body ++ rest) =
    (Some (h, body), rest).
Proof.
  intros (H1 & H2 & H3 & H4 & H5) Hl; unfold dtls1_parse_fragment, fragment_header; cbn [app]; rewrite <- !app_assoc.
  erewrite st_bind_some by apply CBS_get_u8_cons; erewrite st_bind_some by (now apply CBS_get_u24_be).
  erewrite st_bind_some by (now apply CBS_get_u16_be); do 2 erewrite st_bind_some by (now apply CBS_get_u24_be).
  erewrite st_bind_some by (now apply CBS_get_bytes_app); now destruct h.
Qed.

(** A builder in a block of fixed size, of which [l] bytes are in use. *)
Definition fixed_cbb (b : list Z) (l : Z) : CBB :=
  {| cbb_base := {| buf := b; len := l; cap := zlen b; can_resize := false; error := false |}; cbb_children := [] |}.

Section Headers.
  Context {HA : Allocator}.

Lemma add_u_fixed n v pre old post : length old = n -> 0 <= v < 256 ^ Z.of_nat n -> zlen (pre ++ old ++ post) < 2 ^ 64 ->
  cbb_add_u 0 v (Z.of_nat n) (fixed_cbb (pre ++ old ++ post) (zlen pre)) =
    (Some tt, fixed_cbb (pre ++ be_enc n v ++ post) (zlen (pre ++ be_enc n v))).
Proof.
  intros Hn Hv Hc; assert (zlen old = Z.of_nat n) as Ho by (unfold zlen; lia).
  pose proof (zlen_nonneg pre) as Hp; pose proof (zlen_nonneg post) as Hp'; rewrite !zlen_app in Hc.
  assert (CBB_add_space 0 (Z.of_nat n) (fixed_cbb (pre ++ old ++ post) (zlen pre)) =
    (Some (zlen pre), fixed_cbb (pre ++ old ++ post) (zlen pre + Z.of_nat n))) as Es.
  { unfold CBB_add_space, CBB_flush, on_base, cbb_buffer_add, cbb_buffer_reserve, fixed_cbb, st_bind; cbn.
    rewrite uw_small by lia; rewrite (proj2 (Z.ltb_ge (_ + _) (zlen pre))), (proj2 (Z.ltb_ge (zlen _) _)) by (rewrite ?zlen_app; lia).
    unfold set_len; cbn; rewrite uw_small by lia; reflexivity. }
  unfold cbb_add_u; erewrite st_bind_some by exact Es; cbn [cbb_base buf fixed_cbb]; rewrite Nat2Z.id, store_be_spec by (auto; lia).
  rewrite Z.div_small by exact Hv; cbn [Z.eqb negb]; unfold fixed_cbb, set_buf; cbn; rewrite !zlen_app, zlen_be_enc, Ho; reflexivity.
Qed.

Lemma add_u_then {A} n v pre old post (k : ST CBB A) : length old = n -> 0 <= v < 256 ^ Z.of_nat n -> zlen (pre ++ old ++ post) < 2 ^ 64 ->
  (cbb_add_u 0 v (Z.of_nat n) ;;; k) (fixed_cbb (pre ++ old ++ post) (zlen pre)) =
    k (fixed_cbb ((pre ++ be_enc n v) ++ post) (zlen (pre ++ be_enc n v))).
Proof. intros Hn Hv Hc; erewrite st_bind_some by (now apply add_u_fixed); now rewrite app_assoc. Qed.

Lemma split_front n (l : list Z) : 0 <= n <= zlen l -> exists a b, l = a ++ b /\ length a = Z.to_nat n /\ zlen b = zlen l - n.
Proof.
  intros Hn; exists (ztake n l), (zdrop n l); split; [now rewrite ztake_zdrop|]; pose proof (zlen_ztake n l Hn) as E.
  split; [unfold zlen in E; lia|apply zlen_zdrop; lia].
Qed.

(** The calls that write the front of a header, up to the offset. *)
Lemma front_then {A} type msg_len seq off b (k : ST CBB A) : byte type -> 0 <= msg_len < 2 ^ 24 -> 0 <= seq < 2 ^ 16 -> 0 <= off < 2 ^ 24 ->
  9 <= zlen b < 2 ^ 64 ->
  let front := type :: be_enc 3 msg_len ++ be_enc 2 seq ++ be_enc 3 off in
  (CBB_add_u8 0 type ;;; CBB_add_u24 0 msg_len ;;; CBB_add_u16 0 seq ;;; CBB_add_u24 0 off ;;; k) (fixed_cbb b 0) =
    k (fixed_cbb (front ++ zdrop 9 b) (zlen front)).
Proof.
  intros Ht Hm Hs Ho Hb front; assert (be_enc 1 type = [type]) as Et by (cbn; rewrite Z.mod_small by exact Ht; reflexivity).
  destruct (split_front 1 b ltac:(lia)) as (b1 & r1 & Eb & L1 & Z1); destruct (split_front 3 r1 ltac:(lia)) as (b2 & r2 & E1 & L2 & Z2).
  destruct (split_front 2 r2 ltac:(lia)) as (b3 & r3 & E2 & L3 & Z3); destruct (split_front 3 r3 ltac:(lia)) as (b4 & r4 & E3 & L4 & Z4).
  assert (zdrop 9 b = r4) as -> by (subst; rewrite !app_assoc; apply zdrop_app_eq; rewrite !zlen_app; unfold zlen; lia).
  subst b; unfold CBB_add_u8, CBB_add_u16, CBB_add_u24.
  assert (zlen b1 = 1 /\ zlen b2 = 3 /\ zlen b3 = 2 /\ zlen b4 = 3) as (G1 & G2 & G3 & G4) by (unfold zlen; lia).
  change (fixed_cbb (b1 ++ r1) 0) with (fixed_cbb ([] ++ b1 ++ r1) (zlen (@nil Z))).
  rewrite (add_u_then 1 type [] b1 r1) by (auto; unfold byte in *; rewrite ?zlen_app, ?zlen_be_enc, ?zlen_nil; pow2; cbn; lia).
  rewrite E1, (add_u_then 3) by (auto; unfold byte in *; rewrite ?zlen_app, ?zlen_be_enc, ?zlen_nil; pow2; cbn; lia).
  rewrite E2, (add_u_then 2) by (auto; unfold byte in *; rewrite ?zlen_app, ?zlen_be_enc, ?zlen_nil; pow2; cbn; lia).
  rewrite E3, (add_u_then 3) by (auto; unfold byte in *; rewrite ?zlen_app, ?zlen_be_enc, ?zlen_nil; pow2; cbn; lia).
  unfold front; rewrite Et, <- !app_assoc; reflexivity.
Qed.

Lemma header_built h b : header_ok h -> zlen b = 12 ->
  fst ((header_calls (hdr_type h) (hdr_msg_len h) (hdr_seq h) 0 (hdr_msg_len h) ;;; CBB_finish) (CBB_init_fixed b 12)) =
    Some (fragment_header (hdr_type h) (hdr_msg_len h) (hdr_seq h) 0 (hdr_msg_len h)).
Proof.
  intros (H1 & H2 & H3 & _) Hb; unfold header_calls, CBB_init_fixed.
  change (cbb_init b 12 false) with ({| cbb_base := {| buf := b; len := 0; cap := 12; can_resize := false; error := false |}; cbb_children := [] |}).
  rewrite <- Hb; fold (fixed_cbb b 0); erewrite st_bind_some; [|rewrite front_then by (auto; lia); rewrite <- (app_nil_r (zdrop 9 b))].
  2: { apply (add_u_fixed 3); [|pow2; lia|rewrite !zlen_app, !zlen_cons, !zlen_app, !zlen_be_enc, zlen_zdrop, zlen_nil; lia].
       pose proof (zlen_zdrop 9 b ltac:(lia)) as E; unfold zlen at 1 in E; lia. }
  unfold CBB_finish, CBB_flush, st_bind, fixed_cbb; cbn [detached cbb_children length Nat.ltb Nat.leb cbb_base error flush_children drop fst buf len].
  f_equal; rewrite app_nil_r, ztake_all by lia; unfold fragment_header; cbn [app]; now rewrite <- !app_assoc.
Qed.

Variable sizeof_fragment : Z.

(** A new message has its header, and no byte of its body. *)
Lemma fragment_new_spec h : header_ok h -> 0 <= sizeof_fragment <= 2 ^ 25 -> AllocUpTo (2 ^ 25) ->
  exists junk, zlen junk = hdr_msg_len h /\
  dtls1_hm_fragment_new sizeof_fragment h = Some {| frag_type := hdr_type h; frag_seq := hdr_seq h; frag_msg_len := hdr_msg_len h;
    frag_data := fragment_header (hdr_type h) (hdr_msg_len h) (hdr_seq h) 0 (hdr_msg_len h) ++ junk;
    reassembly := if 0 <? hdr_msg_len h then Some (zrep ((hdr_msg_len h + 7) / 8) 0) else None |}.
Proof.
  intros Hh Hs HM; pose proof Hh as (H1 & H2 & H3 & H4 & H5); unfold dtls1_hm_fragment_new, OPENSSL_malloc, OPENSSL_zalloc.
  assert (0 <= (hdr_msg_len h + 7) / 8 <= 2 ^ 25) as Hd by (split; [apply Z.div_pos; lia|apply Z.div_le_upper_bound; lia]).
  change DTLS1_HM_HEADER_LENGTH with 12; rewrite !(uw_small 32) by lia; unfold OPENSSL_malloc; rewrite !HM by lia; cbn [negb mbind option_bind].
  pose proof (zlen_fresh (12 + hdr_msg_len h) ltac:(lia)) as Hf.
  rewrite header_built by (auto; rewrite zlen_ztake; lia); cbn [mbind option_bind].
  exists (zdrop 12 (fresh (12 + hdr_msg_len h))); split; [rewrite zlen_zdrop; lia|].
  rewrite zsplice_0, zlen_fragment_header, (proj2 (Z.ltb_ge (hdr_msg_len h + 7) _)) by lia.
  rewrite zsplice_0, zlen_zrep by lia; rewrite (zdrop_all _ (fresh ((hdr_msg_len h + 7) / 8))), app_nil_r by (rewrite zlen_fresh; lia); destruct (0 <? hdr_msg_len h); reflexivity.
Qed.
End Headers.

(** * What the receiving side promises *)

(** A piece of a message: the number of the message, the offset and the length. *)
Definition piece : Type := Z * Z * Z.

Definition covered (seen : list piece) (seq k : Z) : bool :=
  existsb (fun '(s, off, len) => (s =? seq) && ((off <=? k) && (k <? off + len))) seen.
Definition started (seen : list piece) (seq : Z) : bool := existsb (fun '(s, _, _) => s =? seq) seen.

(** The number of the current message, and the pieces of it and of the next six
    that have been received. *)
Record assembly : Type := { next_seq : Z; seen : list piece }.

(** One more piece; a failure ends the connection. *)
Definition spec_piece (epoch : Z) (st : assembly) (p : piece) : ssl_error + assembly :=
  let '(seq, _, _) := p in
  if (epoch =? 1) && negb (seq =? next_seq st) then inl (hs_error SSL_AD_UNEXPECTED_MESSAGE SSL_R_UNEXPECTED_RECORD)
  else if (seq <? next_seq st) || (next_seq st + SSL_MAX_HANDSHAKE_FLIGHT <? seq) then inr st
  else if seq =? next_seq st + SSL_MAX_HANDSHAKE_FLIGHT then inl (hs_error SSL_AD_INTERNAL_ERROR 0)
  else inr {| next_seq := next_seq st; seen := p :: seen st |}.

Fixpoint spec_pieces (epoch : Z) (st : assembly) (ps : list piece) : option ssl_error * assembly :=
  match ps with
  | [] => (None, st)
  | p :: ps => match spec_piece epoch st p with inl e => (Some e, st) | inr st => spec_pieces epoch st ps end
  end.

Definition spec_next (st : assembly) : assembly :=
  {| next_seq := u16 (next_seq st + 1); seen := List.filter (fun '(s, _, _) => negb (s =? next_seq st)) (seen st) |}.

Section Assembly.
  Context {HA : Allocator}.
  Variable sizeof_fragment : Z.
  Variable ssl : connection.
  (** The type and the body of every message. *)
  Variable msgs : Z -> Z * list Z.

Abbreviation msg_len s := (zlen (snd (msgs s))).

Definition msgs_ok : Prop := forall s, byte (fst (msgs s)) /\ msg_len s < 2 ^ 24 /\ msg_len s <= ssl_max_handshake_message_len ssl.

Definition piece_ok (p : piece) : Prop :=
  let '(s, off, len) := p in 0 <= s < 2 ^ 16 /\ 0 <= off /\ 0 <= len /\ off + len <= msg_len s.

(** A piece on the wire. *)
Definition wire_piece (p : piece) : list Z :=
  let '(s, off, len) := p in
  fragment_header (fst (msgs s)) (msg_len s) s off len ++ ztake len (zdrop off (snd (msgs s))).

Definition raw_message (s : Z) : list Z := fragment_header (fst (msgs s)) (msg_len s) s 0 (msg_len s) ++ snd (msgs s).

Definition complete (st : assembly) : bool :=
  started (seen st) (next_seq st) && forallb (covered (seen st) (next_seq st)) (map Z.of_nat (seq 0 (length (snd (msgs (next_seq st)))))).

Definition spec_get (st : assembly) : option SSLMessage :=
  let s := next_seq st in
  if complete st
  then Some {| msg_is_v2_hello := false; msg_type := fst (msgs s); msg_body := snd (msgs s); msg_raw := raw_message s |}
  else None.

(** ** The slots *)

Definition mask_covers (seen : list piece) (s : Z) (mask : option (list Z)) : Prop :=
  match mask with
  | None => forall k, 0 <= k < msg_len s -> covered seen s k = true
  | Some mask => 0 < msg_len s /\ mask_ok ((msg_len s + 7) / 8) mask /\ (forall k, 0 <= k < 8 * zlen mask -> mask_bit mask k = covered seen s k) /\
      exists k, 0 <= k < msg_len s /\ covered seen s k = false
  end.

(** The message has its header, and the bytes of its body that are covered. *)
Definition holds_covered (seen : list piece) (s : Z) (data : list Z) : Prop :=
  exists content, data = fragment_header (fst (msgs s)) (msg_len s) s 0 (msg_len s) ++ content /\ zlen content = msg_len s /\
    forall k, 0 <= k < msg_len s -> covered seen s k = true -> znth content k = znth (snd (msgs s)) k.

Definition frag_rep (seen : list piece) (s : Z) (f : hm_fragment) : Prop :=
  frag_type f = fst (msgs s) /\ frag_seq f = s /\ frag_msg_len f = msg_len s /\ mask_covers seen s (reassembly f) /\
  holds_covered seen s (frag_data f).

Definition slot_rep (seen : list piece) (s : Z) (f : option hm_fragment) : Prop :=
  match f with
  | None => started seen s = false
  | Some f => started seen s = true /\ frag_rep seen s f
  end.

Definition in_window (st : assembly) (s : Z) : Prop := next_seq st <= s < next_seq st + SSL_MAX_HANDSHAKE_FLIGHT.

Definition assembles (m : dtls_messages) (st : assembly) : Prop :=
  length (incoming_messages m) = 7%nat /\ handshake_read_seq m = next_seq st /\ 0 <= next_seq st < 2 ^ 16 /\
  Forall (fun p => piece_ok p /\ in_window st (fst (fst p))) (seen st) /\
  forall s, in_window st s -> slot_rep (seen st) s (slot m s).

(** ** One piece *)

Lemma covered_cons s off len seen s' k :
  covered ((s, off, len) :: seen) s' k = ((s =? s') && ((off <=? k) && (k <? off + len))) || covered seen s' k.
Proof. reflexivity. Qed.

Lemma covered_other s off len seen s' k : s <> s' -> covered ((s, off, len) :: seen) s' k = covered seen s' k.
Proof. intros Hs; rewrite covered_cons, (proj2 (Z.eqb_neq _ _) Hs); reflexivity. Qed.

Lemma covered_started seen s k : covered seen s k = true -> started seen s = true.
Proof.
  unfold covered, started; induction seen as [|[[s' off] len] seen IH]; cbn [existsb]; [auto|]; intros H.
  apply orb_true_iff in H as [H|H]; apply orb_true_iff; [left; now apply andb_true_iff in H as [? _]|right; auto].
Qed.

Lemma slot_rep_other s off len seen s' f : s <> s' -> slot_rep seen s' f -> slot_rep ((s, off, len) :: seen) s' f.
Proof.
  intros Hs; assert (forall k, covered ((s, off, len) :: seen) s' k = covered seen s' k) as E by (intros; now apply covered_other).
  destruct f as [f|]; cbn [slot_rep started existsb]; rewrite (proj2 (Z.eqb_neq _ _) Hs); [|auto]; intros (H0 & H1 & H2 & H3 & H4 & c & Hc & Hl & H5).
  split; [exact H0|]; split; [exact H1|]; split; [exact H2|]; split; [exact H3|]; split.
  - destruct (reassembly f) as [mask|]; cbn [mask_covers] in *; [|intros k; rewrite E; auto].
    destruct H4 as (G1 & G2 & G3 & k & Hk & Hck); split; [exact G1|]; split; [exact G2|]; split; [intros j; rewrite E; auto|exists k; rewrite E; auto].
  - exists c; split; [exact Hc|]; split; [exact Hl|]; intros k; rewrite E; auto.
Qed.

Lemma znth_zsplice (l d : list Z) off k : 0 <= off -> off + zlen d <= zlen l -> 0 <= k ->
  znth (zsplice l off d) k = if (off <=? k) && (k <? off + zlen d) then znth d (k - off) else znth l k.
Proof.
  intros Ho Hl Hk; pose proof (zlen_nonneg d) as Hd; unfold zsplice; destruct (Z.leb_spec off k); cbn [andb].
  - rewrite znth_app2, zlen_ztake by (rewrite ?zlen_ztake; lia); destruct (Z.ltb_spec k (off + zlen d)); [apply znth_app1; lia|].
    rewrite znth_app2, znth_zdrop by lia; f_equal; lia.
  - rewrite znth_app1, znth_ztake by (rewrite ?zlen_ztake; lia); reflexivity.
Qed.

Lemma zsplice_behind (pre l d : list Z) n off : zlen pre = n -> 0 <= off -> zsplice (pre ++ l) (n + off) d = pre ++ zsplice l off d.
Proof.
  intros Hn Ho; pose proof (zlen_nonneg d); unfold zsplice; rewrite ztake_app_ge, zdrop_app_ge by lia; rewrite <- app_assoc.
  replace (n + off - zlen pre) with off by lia; now replace (n + off + zlen d - zlen pre) with (off + zlen d) by lia.
Qed.

(** A message that is complete stays so. *)
Lemma rep_complete p seen s f : frag_rep seen s f -> reassembly f = None -> frag_rep (p :: seen) s f.
Proof.
  intros (H1 & H2 & H3 & H4 & c & Hc & Hl & H5) Em; rewrite Em in H4; cbn [mask_covers] in H4; destruct p as [[s' off] len].
  split; [exact H1|]; split; [exact H2|]; split; [exact H3|]; split; [rewrite Em; intros k Hk; rewrite covered_cons, H4 by exact Hk; apply orb_true_r|].
  exists c; split; [exact Hc|]; split; [exact Hl|]; intros k Hk _; apply H5; auto.
Qed.

Lemma missing_or_covered n (f : Z -> bool) : (forall k, 0 <= k < n -> f k = true) \/ (exists k, 0 <= k < n /\ f k = false).
Proof.
  destruct (forallb f (map Z.of_nat (seq 0 (Z.to_nat n)))) eqn:E.
  - left; rewrite forallb_forall in E; intros k Hk; apply E, in_map_iff; exists (Z.to_nat k); split; [lia|]; apply in_seq; lia.
  - right; apply not_true_iff_false in E; rewrite forallb_forall in E; destruct (existsb (fun k => negb (f k)) (map Z.of_nat (seq 0 (Z.to_nat n)))) eqn:Ex.
    + apply existsb_exists in Ex as (k & Hk & Hf); apply in_map_iff in Hk as (i & <- & Hi); apply in_seq in Hi.
      exists (Z.of_nat i); split; [lia|now apply negb_true_iff in Hf].
    + exfalso; apply E; intros k Hk; destruct (f k) eqn:Ef; [reflexivity|]; apply not_true_iff_false in Ex; exfalso; apply Ex.
      apply existsb_exists; exists k; now rewrite Ef.
Qed.

Lemma covered_beyond seen s k : Forall piece_ok seen -> msg_len s <= k -> covered seen s k = false.
Proof.
  intros Hseen Hk; apply not_true_is_false; intros Hcv; apply existsb_exists in Hcv as ([[s' o'] l'] & Hin & Hcv).
  rewrite List.Forall_forall in Hseen; destruct (Hseen _ Hin) as (_ & _ & _ & Hpe).
  apply andb_true_iff in Hcv as [E Hr]; apply Z.eqb_eq in E; subst s'; lia.
Qed.

Lemma copy_piece s off len seen data : piece_ok (s, off, len) -> holds_covered seen s data ->
  holds_covered ((s, off, len) :: seen) s (zsplice data (DTLS1_HM_HEADER_LENGTH + off) (ztake len (zdrop off (snd (msgs s))))).
Proof.
  intros (Hs & Hoff & Hlen & Hend) (c & -> & Hl & H5); set (d := ztake len (zdrop off (snd (msgs s)))).
  assert (zlen d = len) as Hd by (unfold d; rewrite zlen_ztake; [reflexivity|rewrite zlen_zdrop; lia]).
  exists (zsplice c off d); split; [apply zsplice_behind; [apply zlen_fragment_header|lia]|]; split; [rewrite zlen_zsplice; lia|].
  intros k Hk; rewrite covered_cons, Z.eqb_refl, znth_zsplice, Hd by lia; cbn [andb]; destruct ((off <=? k) && (k <? off + len)) eqn:E; cbn [orb].
  - intros _; unfold d; rewrite znth_ztake, znth_zdrop by lia; f_equal; lia.
  - apply H5; exact Hk.
Qed.

(** A piece is copied and marked. *)
Lemma rep_piece s off len seen f mask : piece_ok (s, off, len) -> Forall piece_ok seen -> frag_rep seen s f -> reassembly f = Some mask ->
  frag_rep ((s, off, len) :: seen) s (dtls1_hm_fragment_mark (copy_body f off (ztake len (zdrop off (snd (msgs s))))) off (off + len)).
Proof.
  intros Hp Hseen (H1 & H2 & H3 & H4 & Hc) Em; pose proof (copy_piece s off len seen _ Hp Hc) as Hcontent.
  rewrite Em in H4; destruct H4 as (Hpos & Hmask & Hbits & Hmiss).
  pose proof (fun k => covered_beyond ((s, off, len) :: seen) s k (Forall_cons_2 _ _ _ Hp Hseen)) as Hbeyond; destruct Hp as (Hs & Hoff & Hlen & Hend).
  unfold dtls1_hm_fragment_mark; cbn [copy_body reassembly frag_msg_len]; rewrite Em, H3.
  rewrite (proj2 (Z.ltb_ge (off + len) off)), (proj2 (Z.ltb_ge (msg_len s) (off + len))) by lia; cbn [orb].
  destruct (Z.eqb_spec off (off + len)) as [E0|E0].
  - assert (forall k, covered ((s, off, len) :: seen) s k = covered seen s k) as E.
    { intros k; rewrite covered_cons; destruct ((off <=? k) && (k <? off + len)) eqn:E; [lia|]; now rewrite andb_false_r. }
    split; [exact H1|]; split; [exact H2|]; split; [exact H3|]; split; [|exact Hcontent]; cbn [copy_body reassembly]; rewrite Em.
    destruct Hmiss as (k & Hk & Hck); split; [exact Hpos|]; split; [exact Hmask|].
    split; [intros j Hj; rewrite E; auto|exists k; rewrite E; auto].
  - pose proof Hmask as [_ Hml].
    assert (msg_len s <= 8 * ((msg_len s + 7) / 8)) as H8 by (pose proof (Z.div_mod (msg_len s + 7) 8 ltac:(lia)); pose proof (Z.mod_pos_bound (msg_len s + 7) 8 ltac:(lia)); lia).
    destruct (mark_range_spec off (off + len) ((msg_len s + 7) / 8) mask ltac:(lia) ltac:(lia) Hmask) as [Hm' Hb'].
    assert (forall k, 0 <= k < 8 * zlen (mark_range off (off + len) mask) -> mask_bit (mark_range off (off + len) mask) k = covered ((s, off, len) :: seen) s k) as Hall.
    { intros k Hk; pose proof Hm' as [_ El]; rewrite Hb', Hbits, covered_cons, Z.eqb_refl, orb_comm by lia; reflexivity. }
    pose proof (mask_complete_iff (msg_len s) _ Hpos Hm') as Hiff; pose proof Hm' as [_ El].
    assert (forall k, msg_len s <= k < 8 * zlen (mark_range off (off + len) mask) -> mask_bit (mark_range off (off + len) mask) k = false) as Hz
      by (intros k Hk; rewrite Hall by lia; apply Hbeyond; lia).
    specialize (Hiff Hz); split; [exact H1|]; split; [exact H2|]; split; [exact H3|]; split; [|exact Hcontent].
    cbn [with_reassembly reassembly]; destruct (mask_complete _ _); cbn [mask_covers].
    + intros k Hk; rewrite <- Hall by lia; now apply Hiff.
    + split; [exact Hpos|]; split; [exact Hm'|]; split; [exact Hall|].
      destruct (missing_or_covered (msg_len s) (covered ((s, off, len) :: seen) s)) as [Hc'|Hc']; [|exact Hc'].
      enough (false = true) by discriminate; apply Hiff; intros k Hk; rewrite Hall by lia; auto.
Qed.

(** ** The ring of slots *)

Lemma slot_of_window st s s' : in_window st s -> in_window st s' -> slot_of s = slot_of s' -> s = s'.
Proof.
  unfold in_window, slot_of, SSL_MAX_HANDSHAKE_FLIGHT; intros H H' E.
  pose proof (Z.mod_pos_bound s 7 ltac:(lia)); pose proof (Z.mod_pos_bound s' 7 ltac:(lia)).
  pose proof (Z.div_mod s 7 ltac:(lia)); pose proof (Z.div_mod s' 7 ltac:(lia)); lia.
Qed.

Lemma slot_set_same m s f : length (incoming_messages m) = 7%nat -> slot (set_slot m s f) s = f.
Proof.
  intros Hl; unfold slot, set_slot; cbn [with_incoming incoming_messages]; rewrite list_lookup_insert_eq; [reflexivity|].
  unfold slot_of, SSL_MAX_HANDSHAKE_FLIGHT; pose proof (Z.mod_pos_bound s 7 ltac:(lia)); lia.
Qed.

Lemma slot_set_other m s s' f : slot_of s <> slot_of s' -> slot (set_slot m s f) s' = slot m s'.
Proof. intros Hs; unfold slot, set_slot; cbn [with_incoming incoming_messages]; now rewrite list_lookup_insert_ne. Qed.

(** A piece in the window goes to its slot. *)
Lemma assembles_piece m st s off len f : assembles m st -> piece_ok (s, off, len) -> in_window st s ->
  frag_rep ((s, off, len) :: seen st) s f ->
  assembles (set_slot m s (Some f)) {| next_seq := next_seq st; seen := (s, off, len) :: seen st |}.
Proof.
  intros (Hl & Hn & Hr & Hs & Hslots) Hp Hw Hf; split; [cbn; now rewrite length_insert|]; split; [exact Hn|]; split; [exact Hr|].
  split; [constructor; [split; [exact Hp|exact Hw]|exact Hs]|]; intros s' Hw'; cbn [seen]; destruct (decide (s = s')) as [<-|Hne].
  - rewrite slot_set_same by exact Hl; split; [cbn; now rewrite Z.eqb_refl|exact Hf].
  - rewrite slot_set_other by (intros E; now apply (slot_of_window st) in E); apply slot_rep_other; [exact Hne|]; now apply Hslots.
Qed.

Lemma set_slot_same m s : set_slot m s (slot m s) = m \/ length (incoming_messages m) <> 7%nat.
Proof.
  destruct (decide (length (incoming_messages m) = 7%nat)) as [Hl|]; [left|now right]; unfold set_slot, slot.
  rewrite list_insert_id; [now destruct m|]; destruct (lookup_lt_is_Some_2 (incoming_messages m) (slot_of s)) as [x E]; [|now rewrite E].
  unfold slot_of, SSL_MAX_HANDSHAKE_FLIGHT; pose proof (Z.mod_pos_bound s 7 ltac:(lia)); lia.
Qed.

Hypothesis sizeof_ok : 0 <= sizeof_fragment <= 2 ^ 25.
Hypothesis memory : AllocUpTo (2 ^ 25).
Hypothesis messages_ok : msgs_ok.

Definition piece_header (p : piece) : hm_header_st :=
  let '(s, off, len) := p in {| hdr_type := fst (msgs s); hdr_msg_len := msg_len s; hdr_seq := s; hdr_frag_off := off; hdr_frag_len := len |}.

Lemma piece_header_ok p : piece_ok p -> header_ok (piece_header p).
Proof.
  destruct p as [[s off] len]; intros (Hs & Ho & Hl & He); destruct (messages_ok s) as (Hb & Hm & _); pose proof (zlen_nonneg (snd (msgs s))).
  split; [exact Hb|]; cbn [piece_header hdr_msg_len hdr_seq hdr_frag_off hdr_frag_len]; lia.
Qed.

(** The message of a piece is found or made. *)
Lemma incoming_found m st s off len : assembles m st -> piece_ok (s, off, len) -> in_window st s ->
  exists f m', dtls1_get_incoming_message sizeof_fragment m (piece_header (s, off, len)) = (inr f, m') /\ frag_rep (seen st) s f /\
    m' = set_slot m s (Some f).
Proof.
  intros Ha Hp Hw; pose proof Ha as (Hl & Hn & Hr & Hs & Hslots); unfold dtls1_get_incoming_message; unfold in_window, SSL_MAX_HANDSHAKE_FLIGHT in Hw.
  cbn [piece_header hdr_seq hdr_type hdr_msg_len]; rewrite Hn, (proj2 (Z.ltb_ge _ _)), (proj2 (Z.leb_gt _ _)) by (unfold SSL_MAX_HANDSHAKE_FLIGHT; lia); cbn [orb].
  specialize (Hslots s Hw); destruct (slot m s) as [f|] eqn:Es; cbn [slot_rep] in Hslots.
  - destruct Hslots as [_ Hf]; pose proof Hf as (H1 & _ & H3 & _); rewrite H1, H3, !Z.eqb_refl; exists f, m; split; [reflexivity|]; split; [exact Hf|].
    rewrite <- Es; destruct (set_slot_same m s) as [E|E]; [now rewrite E|contradiction].
  - destruct (fragment_new_spec sizeof_fragment (piece_header (s, off, len)) (piece_header_ok _ Hp) sizeof_ok memory) as (junk & Hj & Ef).
    cbn [piece_header hdr_seq hdr_type hdr_msg_len] in Hj, Ef; rewrite Ef; eexists _, _; split; [reflexivity|]; split; [|reflexivity].
    assert (forall k, covered (seen st) s k = false) as Hnone.
    { intros k; apply not_true_is_false; intros H; apply covered_started in H; congruence. }
    split; [reflexivity|]; split; [reflexivity|]; split; [reflexivity|]; split; [|exists junk; split; [reflexivity|]; split; [exact Hj|]; intros k _; now rewrite Hnone].
    cbn [reassembly]; destruct (Z.ltb_spec 0 (msg_len s)) as [Hpos|Hpos]; cbn [mask_covers]; [|intros k Hk; lia].
    assert (0 <= (msg_len s + 7) / 8) as Hd by (apply Z.div_pos; lia).
    split; [exact Hpos|]; split; [split; [apply bytes_zrep; split; lia|apply zlen_zrep; exact Hd]|].
    split; [|exists 0; split; [lia|apply Hnone]]; intros k Hk; rewrite zlen_zrep in Hk by exact Hd; rewrite Hnone; unfold mask_bit.
    rewrite znth_zrep, Z.bits_0 by (split; [apply Z.div_pos; lia|apply Z.div_lt_upper_bound; lia]); reflexivity.
Qed.

(** ** Records *)

Lemma zlen_wire_piece p : piece_ok p -> zlen (wire_piece p) = 12 + snd p.
Proof.
  destruct p as [[s off] len]; intros (_ & Ho & Hl & He); cbn [wire_piece snd].
  rewrite zlen_app, zlen_fragment_header, zlen_ztake; [reflexivity|rewrite zlen_zdrop; lia].
Qed.

(** The loop reads a piece whatever follows it, and its checks pass. *)
Lemma process_parsed fuel epoch m s off len rest : 0 <= handshake_read_seq m < 2 ^ 16 -> piece_ok (s, off, len) ->
  let body := ztake len (zdrop off (snd (msgs s))) in
  process_fragments sizeof_fragment (S fuel) ssl epoch (wire_piece (s, off, len) ++ rest) m =
    if (epoch =? 1) && negb (s =? handshake_read_seq m) then Some (Some (hs_error SSL_AD_UNEXPECTED_MESSAGE SSL_R_UNEXPECTED_RECORD), m)
    else if (s <? handshake_read_seq m) || (handshake_read_seq m + SSL_MAX_HANDSHAKE_FLIGHT <? s)
    then process_fragments sizeof_fragment fuel ssl epoch rest m
    else match dtls1_get_incoming_message sizeof_fragment m (piece_header (s, off, len)) with
         | (inl e, m) => Some (Some e, m)
         | (inr frag, m) =>
             match reassembly frag with
             | None => process_fragments sizeof_fragment fuel ssl epoch rest m
             | Some _ => process_fragments sizeof_fragment fuel ssl epoch rest
                 (set_slot m s (Some (dtls1_hm_fragment_mark (copy_body frag off body) off (off + len))))
             end
         end.
Proof.
  intros Hn Hp body; pose proof (zlen_wire_piece _ Hp) as Hz; pose proof (zlen_nonneg rest) as Hz'.
  pose proof Hp as (Hs1 & Hs2 & Hs3 & Hs4); cbn [process_fragments snd] in *; unfold CBS_len.
  rewrite (proj2 (Z.eqb_neq _ _)) by (rewrite zlen_app; lia).
  pose proof (parse_fragment (piece_header (s, off, len)) body rest (piece_header_ok _ Hp)) as Ep.
  cbn [piece_header hdr_type hdr_msg_len hdr_seq hdr_frag_off hdr_frag_len] in Ep; rewrite app_assoc in Ep.
  cbn [wire_piece]; fold body; rewrite Ep by (unfold body; rewrite zlen_ztake; [reflexivity|rewrite zlen_zdrop; lia]); destruct (messages_ok s) as (_ & Hm1 & Hm2).
  cbn [hdr_type hdr_msg_len hdr_seq hdr_frag_off hdr_frag_len]; rewrite (uw_small 64) by lia; rewrite (uw_small 32) by (unfold SSL_MAX_HANDSHAKE_FLIGHT; lia).
  rewrite (proj2 (Z.ltb_ge (msg_len s) off)), (proj2 (Z.ltb_ge (off + len) off)), (proj2 (Z.ltb_ge (msg_len s) (off + len))), (proj2 (Z.ltb_ge _ (msg_len s))) by lia.
  reflexivity.
Qed.

(** What the loop does with one piece. *)
Lemma process_piece fuel epoch m st p rest : assembles m st -> piece_ok p ->
  match spec_piece epoch st p with
  | inl e => process_fragments sizeof_fragment (S fuel) ssl epoch (wire_piece p ++ rest) m = Some (Some e, m)
  | inr st' => exists m', process_fragments sizeof_fragment (S fuel) ssl epoch (wire_piece p ++ rest) m =
      process_fragments sizeof_fragment fuel ssl epoch rest m' /\ assembles m' st'
  end.
Proof.
  intros Ha Hp; pose proof Ha as (Hl & Hn & Hr & Hs & Hslots); destruct p as [[s off] len].
  rewrite process_parsed by (rewrite ?Hn; auto); rewrite Hn; cbn [spec_piece]; case_if; [reflexivity|]; case_if; [exists m; auto|].
  destruct (Z.eqb_spec s (next_seq st + SSL_MAX_HANDSHAKE_FLIGHT)) as [E7|E7].
  - unfold dtls1_get_incoming_message; cbn [piece_header hdr_seq]; rewrite Hn, (proj2 (Z.leb_le SSL_MAX_HANDSHAKE_FLIGHT _)), orb_true_r by lia; reflexivity.
  - assert (in_window st s) as Hw by (unfold in_window; bool_facts; lia).
    destruct (incoming_found m st s off len Ha Hp Hw) as (f & m' & -> & Hf & ->).
    destruct (reassembly f) as [mask|] eqn:Em; eexists; (split; [reflexivity|]); [|apply assembles_piece; auto; now apply rep_complete].
    assert (forall g, set_slot (set_slot m s (Some f)) s g = set_slot m s g) as Eset
      by (intros g; unfold set_slot; cbn [with_incoming incoming_messages]; rewrite list_insert_insert_eq; reflexivity).
    rewrite Eset; apply assembles_piece; auto; apply (rep_piece _ _ _ _ _ mask); auto; refine (Forall_impl _ _ _ Hs _); now intros p [? _].
Qed.

(** The loop does what the pieces of the record say, and the fuel lasts. *)
Lemma process_record epoch ps : forall fuel m st, (length (concat (map wire_piece ps)) < fuel)%nat -> assembles m st -> Forall piece_ok ps ->
  exists m', process_fragments sizeof_fragment fuel ssl epoch (concat (map wire_piece ps)) m = Some (fst (spec_pieces epoch st ps), m') /\
    assembles m' (snd (spec_pieces epoch st ps)).
Proof.
  induction ps as [|p ps IH]; intros fuel m st Hf Ha Hp; (destruct fuel as [|fuel]; [lia|]); [exists m; auto|].
  apply Forall_cons_1 in Hp as [Hp Hps]; cbn [map concat spec_pieces] in *; rewrite length_app in Hf.
  assert (0 < length (wire_piece p))%nat as Hpos.
  { pose proof (zlen_wire_piece p Hp); destruct p as [[s off] len]; destruct Hp as (_ & _ & Hl & _); unfold zlen in *; cbn [snd] in *; lia. }
  pose proof (process_piece fuel epoch m st p (concat (map wire_piece ps)) Ha Hp) as H; destruct (spec_piece epoch st p) as [e|st'].
  - exists m; auto.
  - destruct H as (m' & -> & Ha'); apply IH; auto; lia.
Qed.

(** ** Messages *)

Lemma get_message_spec m st : assembles m st ->
  fst (dtls1_get_message m) = spec_get st /\ assembles (snd (dtls1_get_message m)) st.
Proof.
  intros Ha; pose proof Ha as (Hl & Hn & Hr & Hs & Hslots); unfold dtls1_get_message, dtls1_is_current_message_complete, spec_get, complete.
  rewrite Hn; specialize (Hslots (next_seq st) ltac:(unfold in_window, SSL_MAX_HANDSHAKE_FLIGHT; lia)).
  set (s := next_seq st) in *; destruct (slot m s) as [f|]; cbn [slot_rep] in Hslots; [|rewrite Hslots; auto].
  destruct Hslots as (-> & H1 & H2 & H3 & H4 & c & Hc & Hlen & Hcov); cbn [andb].
  assert (bool_decide (reassembly f = None) = forallb (covered (seen st) s) (map Z.of_nat (seq 0 (length (snd (msgs s)))))) as Ecomp.
  { destruct (reassembly f) as [mask|]; cbn [mask_covers] in H4.
    - destruct H4 as (_ & _ & _ & k & Hk & Hck); rewrite bool_decide_false by discriminate; symmetry; apply not_true_is_false.
      rewrite forallb_forall; intros H; rewrite H in Hck; [discriminate|]; apply in_map_iff; exists (Z.to_nat k); split; [lia|].
      apply in_seq; unfold zlen in Hk; lia.
    - rewrite bool_decide_true by reflexivity; symmetry; apply forallb_forall; intros k Hk; apply in_map_iff in Hk as (i & <- & Hi).
      apply in_seq in Hi; apply H4; unfold zlen; lia. }
  rewrite <- Ecomp; case_bool_decide as Em; cbn [negb fst snd]; [|auto]; rewrite Em in H4; split.
  - assert (c = snd (msgs s)) as -> by (apply znth_ext; [exact Hlen|]; intros k Hk; apply Hcov; [lia|apply H4; lia]).
    assert (zlen (fragment_header (fst (msgs s)) (msg_len s) s 0 (msg_len s)) = 12) as Hh by apply zlen_fragment_header.
    unfold CBS_init; rewrite Hc, H1, H3; do 2 f_equal.
    + rewrite zdrop_app_eq by (unfold DTLS1_HM_HEADER_LENGTH; lia); apply ztake_all; lia.
    + unfold raw_message; apply ztake_all; rewrite zlen_app, Hh; unfold DTLS1_HM_HEADER_LENGTH; lia.
  - case_if; [|exact Ha]; exact Ha.
Qed.

Lemma dropped_pieces s n l : s <> n ->
  let rest := List.filter (fun '(s, _, _) => negb (s =? n)) l in
  started rest s = started l s /\ forall k, covered rest s k = covered l s k.
Proof.
  intros Hs rest; unfold rest; induction l as [|[[s' off] len] l [IH1 IH2]]; [auto|]; cbn [List.filter].
  destruct (Z.eqb_spec s' n) as [->|Hne]; cbn [negb].
  - split; [cbn [started existsb]; now rewrite (proj2 (Z.eqb_neq n s)) by auto|]; intros k; rewrite covered_other by auto; apply IH2.
  - split; [cbn [started existsb] in *; unfold started in IH1; now rewrite IH1|]; intros k; now rewrite !covered_cons, IH2.
Qed.

Lemma slot_rep_ext l l' s f : started l s = started l' s -> (forall k, covered l s k = covered l' s k) -> slot_rep l' s f -> slot_rep l s f.
Proof.
  intros E1 E2; destruct f as [f|]; cbn [slot_rep]; rewrite E1; [|auto]; intros (H0 & H1 & H2 & H3 & H4 & c & Hc & Hl & H5).
  split; [exact H0|]; split; [exact H1|]; split; [exact H2|]; split; [exact H3|]; split.
  - destruct (reassembly f) as [mask|]; cbn [mask_covers] in *; [|intros k; rewrite E2; auto].
    destruct H4 as (G1 & G2 & G3 & k & Hk & Hck); split; [exact G1|]; split; [exact G2|]; split; [intros j; rewrite E2; auto|exists k; rewrite E2; auto].
  - exists c; split; [exact Hc|]; split; [exact Hl|]; intros k; rewrite E2; auto.
Qed.

Lemma not_started st s l : Forall (fun p => piece_ok p /\ in_window st (fst (fst p))) l -> ~ in_window st s \/ 2 ^ 16 <= s -> started l s = false.
Proof.
  intros Hl Hs; apply not_true_is_false; intros H; apply existsb_exists in H as ([[s' off] len] & Hin & E); apply Z.eqb_eq in E; subst s'.
  rewrite List.Forall_forall in Hl; destruct (Hl _ Hin) as ((H1 & _) & H2); cbn [fst] in H2; destruct Hs as [Hs|Hs]; [contradiction|lia].
Qed.

Lemma slot_alias m s s' : slot_of s = slot_of s' -> slot m s = slot m s'.
Proof. intros E; unfold slot; now rewrite E. Qed.

(** When the numbers wrap around, no slot but the current one is in use. *)
Lemma wrap_slots m st s : assembles m st -> next_seq st = 2 ^ 16 - 1 -> slot (set_slot m (next_seq st) None) s = None.
Proof.
  intros (Hl & Hn & Hr & Hs & Hslots) Elast; set (n := next_seq st) in *; set (s' := n + (s - n) mod 7).
  pose proof (Z.mod_pos_bound (s - n) 7 ltac:(lia)) as Hmod.
  assert (slot_of s = slot_of s') as Eslot by (unfold slot_of, s', SSL_MAX_HANDSHAKE_FLIGHT; rewrite Z.add_mod_idemp_r by lia; do 2 f_equal; lia).
  rewrite (slot_alias _ s s' Eslot); destruct (Z.eq_dec s' n) as [->|Hne]; [now apply slot_set_same|].
  assert (in_window st s' /\ in_window st n) as [Hw' Hw] by (unfold in_window, SSL_MAX_HANDSHAKE_FLIGHT, s'; fold n; lia).
  rewrite slot_set_other by (intros E; apply (slot_of_window st) in E; auto).
  specialize (Hslots s' Hw'); destruct (slot m s') as [f|]; [|reflexivity].
  destruct Hslots as [H _]; rewrite (not_started st) in H by (auto; right; unfold s' in *; lia); discriminate.
Qed.

(** The slot of the current message becomes that of the seventh after it. *)
Lemma dtls_next_spec m st : assembles m st -> assembles (dtls1_next_message m) (spec_next st).
Proof.
  intros Ha; pose proof Ha as (Hl & Hn & Hr & Hs & Hslots); set (n := next_seq st) in *; unfold dtls1_next_message; rewrite Hn.
  assert (forall s, in_window st s -> s <> n -> slot (set_slot m n None) s = slot m s) as Hother.
  { intros s Hw Hne; apply slot_set_other; intros E; apply (slot_of_window st) in E; auto; unfold in_window, SSL_MAX_HANDSHAKE_FLIGHT; fold n; lia. }
  pose proof (slot_set_same m n None Hl) as Hsame; split; [cbn; now rewrite length_insert|]; split; [cbn; now rewrite Hn|].
  split; [apply (uw_bound 16); lia|]; unfold spec_next; fold n; cbn [seen next_seq].
  set (l := List.filter (fun '(s, _, _) => negb (s =? n)) (seen st)).
  assert (Forall (fun p => (piece_ok p /\ in_window st (fst (fst p))) /\ fst (fst p) <> n) l) as Hfl.
  { apply List.Forall_forall; intros [[s off] len] Hin; apply filter_In in Hin as [Hin Hne]; rewrite List.Forall_forall in Hs.
    split; [now apply Hs|]; cbn [fst]; now apply negb_true_iff, Z.eqb_neq in Hne. }
  assert (forall s, ~ in_window st s \/ 2 ^ 16 <= s -> started l s = false) as Hnot
    by (intros s; apply not_started; refine (Forall_impl _ _ _ Hfl _); now intros p [? _]).
  destruct (Z.eq_dec n (2 ^ 16 - 1)) as [Elast|Hnl].
  - assert (l = []) as El.
    { destruct l as [|[[s off] len] l']; [reflexivity|]; apply Forall_cons_1 in Hfl as [(((H1 & _) & H2) & H3) _]; cbn [fst] in *.
      unfold in_window in H2; fold n in H2; lia. }
    split; [rewrite El; constructor|]; intros s Hw; change (slot _ s) with (slot (set_slot m n None) s); rewrite El.
    assert (slot (set_slot m n None) s = None) as -> by (apply (wrap_slots m st); [exact Ha|exact Elast]); reflexivity.
  - rewrite (uw_small 16) by lia; split.
    + refine (Forall_impl _ _ _ Hfl _); intros [[s off] len] [[H1 H2] H3]; split; [exact H1|]; unfold in_window in *; cbn [fst next_seq] in *; fold n in H2; lia.
    + intros s Hw; change (slot _ s) with (slot (set_slot m n None) s); unfold in_window, SSL_MAX_HANDSHAKE_FLIGHT in Hw; cbn [next_seq] in Hw; destruct (Z.eq_dec s (n + 7)) as [->|Hne].
      * assert (slot (set_slot m n None) (n + 7) = None) as ->; [|apply Hnot; left; unfold in_window, SSL_MAX_HANDSHAKE_FLIGHT; fold n; lia].
        rewrite (slot_alias _ (n + 7) n); [exact Hsame|]; unfold slot_of, SSL_MAX_HANDSHAKE_FLIGHT; f_equal; exact (Z.mod_add n 1 7 ltac:(lia)).
      * assert (in_window st s) as Hw' by (unfold in_window, SSL_MAX_HANDSHAKE_FLIGHT; fold n; lia); rewrite Hother by (auto; lia).
        destruct (dropped_pieces s n (seen st) ltac:(lia)) as [E1 E2]; apply (slot_rep_ext l (seen st)); auto.
Qed.

(** ** Sequences of calls *)

(** The handler receives records with the pieces [ps], asks for the current
    message, and moves on to the next. *)
Inductive hs_call : Type := Receive (ps : list piece) | Get | Next.
Inductive hs_result : Type := Received (e : option ssl_error) | Got (msg : option SSLMessage) | Moved.

Definition run_call (epoch : Z) (c : hs_call) (m : dtls_messages) : option (hs_result * dtls_messages) :=
  match c with
  | Receive ps =>
      let record := concat (map wire_piece ps) in
      r ← process_fragments sizeof_fragment (S (length record)) ssl epoch record m; Some (Received (fst r), snd r)
  | Get => let '(msg, m) := dtls1_get_message m in Some (Got msg, m)
  | Next => Some (Moved, dtls1_next_message m)
  end.

Definition spec_call (epoch : Z) (c : hs_call) (st : assembly) : hs_result * assembly :=
  match c with
  | Receive ps => let '(e, st) := spec_pieces epoch st ps in (Received e, st)
  | Get => (Got (spec_get st), st)
  | Next => (Moved, spec_next st)
  end.

Fixpoint run_hs_calls (epoch : Z) (cs : list hs_call) (m : dtls_messages) : option (list hs_result * dtls_messages) :=
  match cs with
  | [] => Some ([], m)
  | c :: cs => r ← run_call epoch c m; rs ← run_hs_calls epoch cs (snd r); Some (fst r :: fst rs, snd rs)
  end.

Fixpoint spec_hs_calls (epoch : Z) (cs : list hs_call) (st : assembly) : list hs_result * assembly :=
  match cs with
  | [] => ([], st)
  | c :: cs => let '(r, st) := spec_call epoch c st in let '(rs, st) := spec_hs_calls epoch cs st in (r :: rs, st)
  end.

Definition hs_call_ok (c : hs_call) : Prop := match c with Receive ps => Forall piece_ok ps | _ => True end.

Lemma run_hs_call_spec epoch c m st : assembles m st -> hs_call_ok c ->
  exists m', run_call epoch c m = Some (fst (spec_call epoch c st), m') /\ assembles m' (snd (spec_call epoch c st)).
Proof.
  intros Ha Hc; destruct c as [ps| |]; cbn [run_call spec_call].
  - destruct (process_record epoch ps (S (length (concat (map wire_piece ps)))) m st ltac:(lia) Ha Hc) as (m' & -> & Ha').
    exists m'; cbn [mbind option_bind fst snd]; destruct (spec_pieces epoch st ps); auto.
  - destruct (get_message_spec m st Ha) as [E Ha']; destruct (dtls1_get_message m) as [msg m']; exists m'; cbn [fst snd] in *; now rewrite E.
  - eexists; split; [reflexivity|now apply dtls_next_spec].
Qed.

Lemma run_hs_calls_spec epoch cs : forall m st, assembles m st -> Forall hs_call_ok cs ->
  exists m', run_hs_calls epoch cs m = Some (fst (spec_hs_calls epoch cs st), m') /\ assembles m' (snd (spec_hs_calls epoch cs st)).
Proof.
  induction cs as [|c cs IH]; intros m st Ha Hc; cbn [run_hs_calls spec_hs_calls]; [exists m; auto|]; apply Forall_cons_1 in Hc as [Hc Hcs].
  destruct (run_hs_call_spec epoch c m st Ha Hc) as (m1 & -> & Ha1); destruct (spec_call epoch c st) as [r st1]; cbn [mbind option_bind fst snd] in *.
  destruct (IH m1 st1 Ha1 Hcs) as (m2 & -> & Ha2); destruct (spec_hs_calls epoch cs st1) as [rs st2]; exists m2; auto.
Qed.

(** The state at the start of a handshake. *)
Definition dtls_messages_new : dtls_messages :=
  {| incoming_messages := replicate 7 None; handshake_read_seq := 0; dtls_has_message := false; has_change_cipher_spec := false;
     outgoing_messages_complete := false; flight_has_reply := false |}.

Lemma assembles_new : assembles dtls_messages_new {| next_seq := 0; seen := [] |}.
Proof.
  split; [reflexivity|]; split; [reflexivity|]; split; [cbn; lia|]; split; [constructor|]; intros s _; cbn [seen].
  unfold slot; cbn [incoming_messages dtls_messages_new]; rewrite lookup_replicate_2 by (unfold slot_of, SSL_MAX_HANDSHAKE_FLIGHT; pose proof (Z.mod_pos_bound s 7 ltac:(lia)); lia); reflexivity.
Qed.
End Assembly.

(** C16. From the start of a handshake, for every sequence of calls: the receiving
    side, with its ring of seven slots, its buffers and their masks of received
    bytes, returns what the plain sets of received pieces say. The current
    message is returned when, and only when, each of its bytes has arrived in
    some piece, and then with the type, header and body that were sent, however
    the pieces were cut, ordered, repeated and spread over records. *)
Theorem dtls_reassembly_refines (HA : Allocator) (sizeof_fragment : Z) (ssl : connection) (msgs : Z -> Z * list Z) (epoch : Z)
    (calls : list hs_call) :
  0 <= sizeof_fragment <= 2 ^ 25 -> AllocUpTo (2 ^ 25) -> msgs_ok ssl msgs -> Forall (hs_call_ok msgs) calls ->
  let spec := spec_hs_calls msgs epoch calls {| next_seq := 0; seen := [] |} in
  exists m', run_hs_calls sizeof_fragment ssl msgs epoch calls dtls_messages_new = Some (fst spec, m') /\ assembles msgs m' (snd spec).
Proof. intros Hs HM Hm Hc spec; apply run_hs_calls_spec; auto; apply assembles_new. Qed.


(** * Witnesses *)

(** Every message has this type and body. *)
Definition sample_msgs (s : Z) : Z * list Z := (1, [10; 20; 30; 40; 50]).

Lemma sample_msgs_ok : msgs_ok sample_ssl sample_msgs.
Proof. intros s; split; [split; cbn; lia|]; split; vm_compute; congruence. Qed.

Definition sample_message (s : Z) : SSLMessage :=
  {| msg_is_v2_hello := false; msg_type := 1; msg_body := [10; 20; 30; 40; 50]; msg_raw := [1; 0; 0; 5; 0; s; 0; 0; 0; 0; 0; 5; 10; 20; 30; 40; 50] |}.

Lemma dtls_reassembly_refines_witness :
  exists m', run_hs_calls (HA := allocator_total) 64 sample_ssl sample_msgs 0
    [Receive [(0, 3, 2)]; Get; Receive [(1, 0, 5); (0, 0, 4)]; Get; Next; Get] dtls_messages_new =
    Some ([Received None; Got None; Received None; Got (Some (sample_message 0)); Moved; Got (Some (sample_message 1))], m').
Proof.
  destruct (dtls_reassembly_refines allocator_total 64 sample_ssl sample_msgs 0
    [Receive [(0, 3, 2)]; Get; Receive [(1, 0, 5); (0, 0, 4)]; Get; Next; Get]) as (m' & E & _).
  - lia.
  - intros n Hn; reflexivity.
  - exact sample_msgs_ok.
  - repeat apply List.Forall_cons; try apply List.Forall_nil; cbn; repeat apply List.Forall_cons; try apply List.Forall_nil; try exact I;
      (split; [lia|]; split; [lia|]; split; [lia|vm_compute; congruence]).
  - exists m'; exact E.
Defined.

