(* ===== verification/DtlsFlight.v ===== *)
(** Handshake messages over DTLS, the sending side (ssl/d1_both.cc, lines
    486-825) and its retransmission timer (ssl/d1_lib.cc): the messages of a
    flight are kept until the peer answers, cut into fragments that fit the path
    and sealed into packets, again after every timeout.

    The BIO that packets are written to is the class [DatagramBio]; the clock is
    an argument. The connection is one of DTLS. *)

From S2P Require Import Prelude Mem Cbs Cbb BufMem Words Md32 Sha256 Sha512 Sha1 Md5 Digest Aead.
From S2P Require Import SslVersions SslCipher SslAead TlsMessage TlsRecord DtlsRecord DtlsMessage.

Definition kMinMTU : Z := 256 - 28.
Definition kDefaultMTU : Z := 1500 - 28.
Definition DTLS1_MTU_TIMEOUTS : Z := 2.
Definition DTLS1_MAX_TIMEOUTS : Z := 12.
Definition SSL_R_READ_TIMEOUT_EXPIRED : Z := 198.
Definition SSL_R_MTU_TOO_SMALL : Z := 169.
Definition SSL_R_PROTOCOL_IS_SHUTDOWN : Z := 194.

(** * State *)

Record OPENSSL_timeval : Type := { tv_sec : Z; tv_usec : Z }.

Record dtls_timer : Type := {
  num_timeouts : Z;
  next_timeout : OPENSSL_timeval;
  timeout_duration_ms : Z
}.

Record DTLS_OUTGOING_MESSAGE : Type := { out_data : list Z; out_epoch : Z; out_is_ccs : bool }.

(** The fields of [DTLS1_STATE] that the sending side changes, those it shares
    with the receiving side included. Of [outgoing_messages] the model has the
    first [outgoing_messages_len]. *)
Record DTLS1_STATE (S : Type) : Type := {
  d1_in : dtls_messages;
  d1_out : dtls_write_state S;
  outgoing_messages : list DTLS_OUTGOING_MESSAGE;
  outgoing_written : Z;
  outgoing_offset : Z;
  handshake_write_seq : Z;
  mtu : Z;
  timer : dtls_timer
}.
Arguments d1_in {S}. Arguments d1_out {S}. Arguments outgoing_messages {S}. Arguments outgoing_written {S}.
Arguments outgoing_offset {S}. Arguments handshake_write_seq {S}. Arguments mtu {S}. Arguments timer {S}.

(** * The timer *)

(** [initial] is [ssl->initial_timeout_duration_ms], [now] the current time. *)
Definition timer_is_set (t : dtls_timer) : bool := negb ((tv_sec (next_timeout t) =? 0) && (tv_usec (next_timeout t) =? 0)).

Definition dtls1_start_timer (initial : Z) (now : OPENSSL_timeval) (t : dtls_timer) : dtls_timer :=
  let duration := if negb (timer_is_set t) then initial else timeout_duration_ms t in
  let sec := u64 (tv_sec now + duration / 1000) in
  let usec := u32 (tv_usec now + duration mod 1000 * 1000) in
  {| num_timeouts := num_timeouts t;
     next_timeout := if 1000000 <=? usec then {| tv_sec := u64 (sec + 1); tv_usec := usec - 1000000 |} else {| tv_sec := sec; tv_usec := usec |};
     timeout_duration_ms := duration |}.

(** The time that is left; [None] when the timer is not set. *)
Definition DTLSv1_get_timeout (now : OPENSSL_timeval) (t : dtls_timer) : option OPENSSL_timeval :=
  if negb (timer_is_set t) then None
  else
    let nxt := next_timeout t in
    if (tv_sec nxt <? tv_sec now) || ((tv_sec nxt =? tv_sec now) && (tv_usec nxt <=? tv_usec now)) then Some {| tv_sec := 0; tv_usec := 0 |}
    else
      let sec := u64 (tv_sec nxt - tv_sec now) in
      let '(sec, usec) :=
        if tv_usec now <=? tv_usec nxt then (sec, tv_usec nxt - tv_usec now)
        else (u64 (sec - 1), u32 (1000000 + tv_usec nxt - tv_usec now)) in
      let '(sec, usec) := if (sec =? 0) && (usec <? 15000) then (0, 0) else (sec, usec) in
      Some {| tv_sec := if INT_MAX <? sec then INT_MAX else sec; tv_usec := usec |}.

Definition dtls1_is_timer_expired (now : OPENSSL_timeval) (t : dtls_timer) : bool :=
  match DTLSv1_get_timeout now t with
  | None => false
  | Some timeleft => negb ((0 <? tv_sec timeleft) || (0 <? tv_usec timeleft))
  end.

Definition dtls1_double_timeout (t : dtls_timer) : dtls_timer :=
  let duration := u32 (timeout_duration_ms t * 2) in
  {| num_timeouts := num_timeouts t; next_timeout := next_timeout t; timeout_duration_ms := if 60000 <? duration then 60000 else duration |}.

Definition dtls1_stop_timer (initial : Z) : dtls_timer :=
  {| num_timeouts := 0; next_timeout := {| tv_sec := 0; tv_usec := 0 |}; timeout_duration_ms := initial |}.

(** * Messages *)

(** [dtls1_init_message]: a builder for the body of a message, which is written at
    depth 1. *)
Definition dtls1_init_message {HA : Allocator} (write_seq type : Z) : option CBB :=
  cbb ← CBB_init 64;
  match (CBB_add_u8 0 type ;;; CBB_add_u24 0 0 ;;; CBB_add_u16 0 write_seq ;;; CBB_add_u24 0 0 ;;; CBB_add_u24_length_prefixed 0) cbb with
  | (None, _) => None
  | (Some _, cbb) => Some cbb
  end.

Definition dtls1_finish_message {HA : Allocator} (cbb : CBB) : option (list Z) :=
  out ← fst (CBB_finish cbb);
  if zlen out <? DTLS1_HM_HEADER_LENGTH then None
  else Some (zsplice out 1 (ztake 3 (zdrop (DTLS1_HM_HEADER_LENGTH - 3) out))).

Section Flight.
  Context {HA : Allocator} {HR : RandomSource} {S : Type}.
  Implicit Types d : DTLS1_STATE S.

Definition with_in d (m : dtls_messages) : DTLS1_STATE S :=
  {| d1_in := m; d1_out := d1_out d; outgoing_messages := outgoing_messages d; outgoing_written := outgoing_written d;
     outgoing_offset := outgoing_offset d; handshake_write_seq := handshake_write_seq d; mtu := mtu d; timer := timer d |}.
Definition with_out d (w : dtls_write_state S) : DTLS1_STATE S :=
  {| d1_in := d1_in d; d1_out := w; outgoing_messages := outgoing_messages d; outgoing_written := outgoing_written d;
     outgoing_offset := outgoing_offset d; handshake_write_seq := handshake_write_seq d; mtu := mtu d; timer := timer d |}.
Definition with_position d (written offset : Z) : DTLS1_STATE S :=
  {| d1_in := d1_in d; d1_out := d1_out d; outgoing_messages := outgoing_messages d; outgoing_written := written;
     outgoing_offset := offset; handshake_write_seq := handshake_write_seq d; mtu := mtu d; timer := timer d |}.
Definition with_mtu d (n : Z) : DTLS1_STATE S :=
  {| d1_in := d1_in d; d1_out := d1_out d; outgoing_messages := outgoing_messages d; outgoing_written := outgoing_written d;
     outgoing_offset := outgoing_offset d; handshake_write_seq := handshake_write_seq d; mtu := n; timer := timer d |}.
Definition with_timer d (t : dtls_timer) : DTLS1_STATE S :=
  {| d1_in := d1_in d; d1_out := d1_out d; outgoing_messages := outgoing_messages d; outgoing_written := outgoing_written d;
     outgoing_offset := outgoing_offset d; handshake_write_seq := handshake_write_seq d; mtu := mtu d; timer := t |}.

Definition with_flight (m : dtls_messages) (complete has_reply : bool) : dtls_messages :=
  {| incoming_messages := incoming_messages m; handshake_read_seq := handshake_read_seq m; dtls_has_message := dtls_has_message m;
     has_change_cipher_spec := has_change_cipher_spec m; outgoing_messages_complete := complete; flight_has_reply := has_reply |}.

Definition dtls_clear_outgoing_messages d : DTLS1_STATE S :=
  {| d1_in := with_flight (d1_in d) false false; d1_out := d1_out d; outgoing_messages := []; outgoing_written := 0; outgoing_offset := 0;
     handshake_write_seq := handshake_write_seq d; mtu := mtu d; timer := timer d |}.

(** [transcript] is whether the transcript, if there is one, takes the data. *)
Definition add_outgoing (initial : Z) (transcript is_ccs : bool) (data : list Z) d : bool * DTLS1_STATE S :=
  let d := if outgoing_messages_complete (d1_in d)
           then dtls_clear_outgoing_messages (with_timer d (dtls1_stop_timer initial)) else d in
  if (SSL_MAX_HANDSHAKE_FLIGHT <=? zlen (outgoing_messages d)) || (0xffffffff <? zlen data) then (false, d)
  else if negb is_ccs && negb transcript then (false, d)
  else
    (true,
     {| d1_in := d1_in d; d1_out := d1_out d;
        outgoing_messages := outgoing_messages d ++ [{| out_data := data; out_epoch := w_epoch (d1_out d); out_is_ccs := is_ccs |}];
        outgoing_written := outgoing_written d; outgoing_offset := outgoing_offset d;
        handshake_write_seq := if is_ccs then handshake_write_seq d else u16 (handshake_write_seq d + 1);
        mtu := mtu d; timer := timer d |}).

Definition dtls1_add_message (initial : Z) (transcript : bool) (data : list Z) d : bool * DTLS1_STATE S :=
  add_outgoing initial transcript false data d.
Definition dtls1_add_change_cipher_spec (initial : Z) d : bool * DTLS1_STATE S := add_outgoing initial true true [] d.

(** * Packets *)

(** The results that make progress have the bytes they write. *)
Inductive seal_result_t : Type := seal_error | seal_no_progress | seal_partial (bs : list Z) | seal_success (bs : list Z).

(** The fragment that is assembled in the block [b]. *)
Definition fragment_calls (h : hm_header_st) (off : Z) (body : list Z) : ST CBB unit :=
  CBB_add_u8 0 (hdr_type h) ;;; CBB_add_u24 0 (hdr_msg_len h) ;;; CBB_add_u16 0 (hdr_seq h) ;;; CBB_add_u24 0 off ;;;
  let! child := CBB_add_u24_length_prefixed 0 in CBB_add_bytes child body.

(** [out] is an address; [room] is what the packet has from there on. *)
Definition seal_next_message (out : Z) (room : list Z) (msg : DTLS_OUTGOING_MESSAGE) d : seal_result_t * DTLS1_STATE S :=
  let max_out := zlen room in
  let wr := d1_out d in
  let use_epoch := if (1 <=? w_epoch wr) && (out_epoch msg =? w_epoch wr - 1) then Some dtls1_use_previous_epoch
                   else if negb (out_epoch msg =? w_epoch wr) then None else Some dtls1_use_current_epoch in
  match use_epoch with
  | None => (seal_error, d)
  | Some use_epoch =>
      let overhead := dtls_max_seal_overhead wr use_epoch in
      let prefix := dtls_seal_prefix_len wr use_epoch in
      if out_is_ccs msg then
        if max_out <? 1 + overhead then (seal_no_progress, d)
        else
          match dtls_seal_record wr out max_out SSL3_RT_CHANGE_CIPHER_SPEC {| addr := 0; contents := [SSL3_MT_CCS] |} use_epoch with
          | (None, wr) => (seal_error, with_out d wr)
          | (Some bs, wr) => (seal_success bs, with_out d wr)
          end
      else
        match dtls1_parse_fragment (CBS_init (out_data msg) (zlen (out_data msg))) with
        | (None, _) => (seal_error, d)
        | (Some (hdr, body), cbs) =>
            if negb (hdr_frag_off hdr =? 0) || negb (hdr_frag_len hdr =? CBS_len body) || negb (hdr_msg_len hdr =? CBS_len body)
            then (seal_error, d)
            else
              match CBS_skip (outgoing_offset d) body with
              | (None, _) => (seal_error, d)
              | (Some _, body) =>
                  if negb (CBS_len cbs =? 0) then (seal_error, d)
                  else if (max_out <? DTLS1_HM_HEADER_LENGTH + 1 + overhead) || (max_out <? prefix) then (seal_no_progress, d)
                  else
                    let todo := CBS_len body in
                    let todo := if max_out - DTLS1_HM_HEADER_LENGTH - overhead <? todo
                                then max_out - DTLS1_HM_HEADER_LENGTH - overhead else todo in
                    let cbb := CBB_init_fixed (zdrop prefix room) (max_out - prefix) in
                    match fst ((fragment_calls hdr (outgoing_offset d) (ztake todo body) ;;; CBB_finish) cbb) with
                    | None => (seal_error, d)
                    | Some frag =>
                        match dtls_seal_record wr out max_out SSL3_RT_HANDSHAKE {| addr := out + prefix; contents := frag |} use_epoch with
                        | (None, wr) => (seal_error, with_out d wr)
                        | (Some bs, wr) =>
                            let d := with_out d wr in
                            if todo =? CBS_len body then (seal_success bs, with_position d (outgoing_written d) 0)
                            else (seal_partial bs, with_position d (outgoing_written d) (u32 (outgoing_offset d + todo)))
                        end
                    end
              end
        end
  end.

(** The loop of [seal_next_packet]: [total] bytes of the packet are written. The
    result is the packet and its length, or the error, which is 0 where the call
    that failed has reported it. The fuel is the number of messages left. *)
Fixpoint seal_packet_loop (fuel : nat) (packet_addr : Z) (packet : list Z) (total : Z) (made_progress : bool) d :
    (Z + list Z * Z) * DTLS1_STATE S :=
  let full := if made_progress then inr (packet, total) else inl SSL_R_MTU_TOO_SMALL in
  match fuel with
  | O => (full, d)
  | Datatypes.S fuel =>
      match outgoing_messages d !! Z.to_nat (outgoing_written d) with
      | None => (full, d)
      | Some msg =>
          match seal_next_message (packet_addr + total) (zdrop total packet) msg d with
          | (seal_error, d) => (inl 0, d)
          | (seal_no_progress, d) => (full, d)
          | (seal_partial bs, d) => (inr (zsplice packet total bs, total + zlen bs), d)
          | (seal_success bs, d) =>
              seal_packet_loop fuel packet_addr (zsplice packet total bs) (total + zlen bs) true
                (with_position d (u8 (outgoing_written d + 1)) (outgoing_offset d))
          end
      end
  end.

Definition seal_next_packet (packet_addr : Z) (packet : list Z) d : (Z + list Z * Z) * DTLS1_STATE S :=
  seal_packet_loop (Z.to_nat (zlen (outgoing_messages d) - outgoing_written d)) packet_addr packet 0 false d.

(** * Flights *)

(** What the sending side needs of the BIO. *)
Class DatagramBio (B : Type) : Type := {
  bio_write : B -> list Z -> Z * B;
  bio_flush : B -> Z * B;
  bio_query_mtu : B -> Z * B;
  bio_set_mtu : B -> Z -> B;
  bio_fallback_mtu : B -> Z * B
}.

Context {B : Type} {DB : DatagramBio B}.

Definition dtls1_min_mtu : Z := kMinMTU.

Definition mtu_acceptable (n : Z) : bool := (0 <=? n) && (n <=? Z.shiftl 1 30) && (dtls1_min_mtu <=? n).

(** [no_query] is the option SSL_OP_NO_QUERY_MTU. *)
Definition dtls1_update_mtu (no_query : bool) (bio : B) d : B * DTLS1_STATE S :=
  if (mtu d <? dtls1_min_mtu) && negb no_query then
    let '(n, bio) := bio_query_mtu bio in
    if mtu_acceptable n then (bio, with_mtu d n) else (bio_set_mtu bio kDefaultMTU, with_mtu d kDefaultMTU)
  else (bio, d).

(** The bytes and messages of a flight that are still to be sent. *)
Definition flight_left d : Z :=
  fold_right (fun msg n => 1 + zlen (out_data msg) + n) 0 (zdrop (outgoing_written d) (outgoing_messages d)) - outgoing_offset d.

(** The loop of [send_flight]. The result is the return value; [None] is the end of
    the fuel. *)
Fixpoint send_packets (fuel : nat) (packet_addr : Z) (packet : list Z) (bio : B) d : option (Z * B * DTLS1_STATE S) :=
  match fuel with
  | O => None
  | Datatypes.S fuel =>
      if zlen (outgoing_messages d) <=? outgoing_written d then
        let '(r, bio) := bio_flush bio in Some (if r <=? 0 then -1 else 1, bio, d)
      else
        let old_written := outgoing_written d in
        let old_offset := outgoing_offset d in
        match seal_next_packet packet_addr packet d with
        | (inl _, d) => Some (-1, bio, d)
        | (inr (packet, packet_len), d) =>
            let '(bio_ret, bio) := bio_write bio (ztake packet_len packet) in
            if bio_ret <=? 0 then Some (bio_ret, bio, with_position d old_written old_offset)
            else send_packets fuel packet_addr packet bio d
        end
  end.

(** [wbio] is [None] when no BIO is set; the address of the packet is
    [packet_addr]. *)
Definition send_flight (write_shutdown : ssl_shutdown_t) (no_query : bool) (packet_addr : Z) (wbio : option B) d :
    option (Z * option B * DTLS1_STATE S) :=
  match write_shutdown, wbio with
  | ssl_shutdown_none, Some bio =>
      let '(bio, d) := dtls1_update_mtu no_query bio d in
      match (if mtu d =? 0 then Some [] else OPENSSL_malloc (mtu d)) with
      | None => Some (-1, Some bio, d)
      | Some packet =>
          r ← send_packets (Datatypes.S (Z.to_nat (flight_left d))) packet_addr packet bio d;
          let '(ret, bio, d) := r in Some (ret, Some bio, d)
      end
  | _, _ => Some (-1, wbio, d)
  end.

Definition dtls1_flush_flight (initial : Z) (now : OPENSSL_timeval) (write_shutdown : ssl_shutdown_t) (no_query : bool) (packet_addr : Z)
    (wbio : option B) d : option (Z * option B * DTLS1_STATE S) :=
  let d := with_in d (with_flight (d1_in d) true (flight_has_reply (d1_in d))) in
  let d := with_timer d (dtls1_start_timer initial now (timer d)) in
  send_flight write_shutdown no_query packet_addr wbio d.

Definition dtls1_retransmit_outgoing_messages (write_shutdown : ssl_shutdown_t) (no_query : bool) (packet_addr : Z) (wbio : option B) d :
    option (Z * option B * DTLS1_STATE S) :=
  send_flight write_shutdown no_query packet_addr wbio (with_position d 0 0).

(** * Timeouts *)

Definition count_timeout d : DTLS1_STATE S :=
  with_timer d {| num_timeouts := u32 (num_timeouts (timer d) + 1); next_timeout := next_timeout (timer d);
                  timeout_duration_ms := timeout_duration_ms (timer d) |}.

(** The result, the BIO and the state; a BIO is set. *)
Definition dtls1_check_timeout_num (no_query : bool) (bio : B) d : bool * B * DTLS1_STATE S :=
  let d := count_timeout d in
  let '(bio, d) :=
    if (DTLS1_MTU_TIMEOUTS <? num_timeouts (timer d)) && negb no_query then
      let '(n, bio) := bio_fallback_mtu bio in (bio, if mtu_acceptable n then with_mtu d n else d)
    else (bio, d) in
  (negb (DTLS1_MAX_TIMEOUTS <? num_timeouts (timer d)), bio, d).

Definition DTLSv1_handle_timeout (initial : Z) (now : OPENSSL_timeval) (write_shutdown : ssl_shutdown_t) (no_query : bool) (packet_addr : Z)
    (bio : B) d : option (Z * option B * DTLS1_STATE S) :=
  if negb (dtls1_is_timer_expired now (timer d)) then Some (0, Some bio, d)
  else
    match dtls1_check_timeout_num no_query bio d with
    | (false, bio, d) => Some (-1, Some bio, d)
    | (true, bio, d) =>
        let d := with_timer d (dtls1_start_timer initial now (dtls1_double_timeout (timer d))) in
        dtls1_retransmit_outgoing_messages write_shutdown no_query packet_addr (Some bio) d
    end.
End Flight.
