(* ===== verification/DtlsFlightSpec.v ===== *)
(** What the sending side of DTLS handshakes does (DtlsFlight.v): the fragments of
    a flight, joined, are its messages, whatever the size of the packets and
    whichever writes fail. DtlsDelivery.v and DtlsTimer.v build on it. *)

From S2P Require Import Prelude Mem Cbs Asn1 Der Cbb CbbSpec BufMem Words Md32 Sha256 Sha512 Sha1 Md5 Digest Aead.
From S2P Require Import SslVersions SslCipher SslAead TlsMessage TlsRecord DtlsRecord DtlsMessage DtlsMessageSpec DtlsFlight.

(** * A fragment in a block of fixed size *)

Definition at_cbb (b : list Z) (l : Z) (ch : list cbb_child) : CBB :=
  {| cbb_base := {| buf := b; len := l; cap := zlen b; can_resize := false; error := false |}; cbb_children := ch |}.

Section Build.
  Context {HA : Allocator}.

Lemma space_at ch b l n : 0 <= l -> 0 <= n -> l + n <= zlen b < 2 ^ 64 ->
  CBB_add_space (length ch) n (at_cbb b l ch) = (Some l, at_cbb b (l + n) ch).
Proof.
  intros Hl Hn Hb; unfold CBB_add_space, CBB_flush, on_base, cbb_buffer_add, cbb_buffer_reserve, at_cbb, st_bind, detached.
  cbn [cbb_children cbb_base error]; rewrite Nat.ltb_irrefl, drop_all, firstn_all; cbn [flush_children error len cap cbb_base cbb_children can_resize buf].
  rewrite uw_small by lia; rewrite (proj2 (Z.ltb_ge (l + n) l)), (proj2 (Z.ltb_ge (zlen b) _)) by lia.
  unfold set_len; cbn [len buf cap can_resize error]; rewrite uw_small by lia; reflexivity.
Qed.

Lemma poke_at ch pre old data post l : zlen old = zlen data ->
  poke (zlen pre) data (at_cbb (pre ++ old ++ post) l ch) = (Some tt, at_cbb (pre ++ data ++ post) l ch).
Proof.
  intros Ho; unfold poke, on_base, at_cbb, set_buf; cbn [cbb_base buf len cap can_resize error cbb_children].
  rewrite (zsplice_mid pre old data post) by auto; do 3 f_equal; rewrite !zlen_app; lia.
Qed.

(** A child with a prefix of three bytes, filled with [body] and finished. *)
Lemma child_built pre room body : let b := pre ++ room in 3 + zlen body <= zlen room -> zlen b < 2 ^ 64 -> zlen body < 2 ^ 24 ->
  fst (((let! child := CBB_add_u24_length_prefixed 0 in CBB_add_bytes child body) ;;; CBB_finish) (at_cbb b (zlen pre) [])) =
    Some (pre ++ be_enc 3 (zlen body) ++ body).
Proof.
  intros b Hr Hb Hbody; unfold b in *; clear b; pose proof (zlen_nonneg body) as H0; pose proof (zlen_nonneg pre) as H1.
  destruct (split_front 3 room ltac:(lia)) as (old & r1 & -> & L1 & Z1); destruct (split_front (zlen body) r1 ltac:(lia)) as (old2 & post & -> & L2 & Z2).
  assert (zlen old = 3 /\ zlen old2 = zlen body) as [Lo Lo2] by (unfold zlen in *; lia); rewrite !zlen_app in Hb.
  set (c := {| offset := zlen pre; pending_len_len := 3; pending_is_asn1 := false |}).
  assert (CBB_add_u24_length_prefixed 0 (at_cbb (pre ++ old ++ old2 ++ post) (zlen pre) []) =
    (Some 1%nat, at_cbb (pre ++ [0; 0; 0] ++ old2 ++ post) (zlen pre + 3) [c])) as E1.
  { pose proof (space_at [] (pre ++ old ++ old2 ++ post) (zlen pre) 3 H1 ltac:(lia) ltac:(rewrite !zlen_app; lia)) as E.
    assert (CBB_flush 0 (at_cbb (pre ++ old ++ old2 ++ post) (zlen pre) []) = (Some tt, at_cbb (pre ++ old ++ old2 ++ post) (zlen pre) [])) as Ef by reflexivity.
    unfold CBB_add_space in E; erewrite st_bind_some in E by exact Ef; unfold CBB_add_u24_length_prefixed, cbb_add_length_prefixed.
    erewrite st_bind_some by exact Ef; unfold cbb_add_child; erewrite st_bind_some by exact E.
    erewrite st_bind_some; [|change (zrep 3 0) with [0; 0; 0]; now apply (poke_at [] pre old [0; 0; 0])]; reflexivity. }
  assert (CBB_add_bytes 1 body (at_cbb (pre ++ [0; 0; 0] ++ old2 ++ post) (zlen pre + 3) [c]) =
    (Some tt, at_cbb (pre ++ [0; 0; 0] ++ body ++ post) (zlen pre + 3 + zlen body) [c])) as E2.
  { unfold CBB_add_bytes; erewrite st_bind_some by (apply (space_at [c]); [lia|lia|rewrite !zlen_app; change (zlen [0; 0; 0]) with 3; lia]).
    rewrite !(app_assoc pre); replace (zlen pre + 3) with (zlen (pre ++ [0; 0; 0])) at 1 by (rewrite zlen_app; reflexivity); now apply poke_at. }
  assert ((let! child := CBB_add_u24_length_prefixed 0 in CBB_add_bytes child body) (at_cbb (pre ++ old ++ old2 ++ post) (zlen pre) []) =
    (Some tt, at_cbb (pre ++ [0; 0; 0] ++ body ++ post) (zlen pre + 3 + zlen body) [c])) as E by (erewrite st_bind_some by exact E1; exact E2).
  erewrite st_bind_some by exact E; unfold CBB_finish, CBB_flush, st_bind, at_cbb, detached; cbn [cbb_children length Nat.ltb Nat.leb cbb_base error drop take].
  cbn [flush_children error]; unfold flush_one, flush_prefix, c; cbn [offset pending_len_len pending_is_asn1 len buf]; rewrite !uw_small by lia.
  rewrite (proj2 (Z.ltb_ge (zlen pre + 3) _)), (proj2 (Z.ltb_ge (zlen pre + 3 + zlen body) _)) by lia; cbn [negb orb].
  change (Z.to_nat 3) with 3%nat; rewrite store_be_spec by (auto; lia).
  rewrite Z.div_small by (pow2; lia); cbn [Z.eqb cbb_base set_buf buf len fst].
  replace (zlen pre + 3 + zlen body - (zlen pre + 3)) with (zlen body) by lia; f_equal.
  rewrite !app_assoc, <- (app_assoc pre), ztake_app_eq; [reflexivity|rewrite !zlen_app, zlen_be_enc; lia].
Qed.

(** The fragment of a message from [off] on. *)
Lemma fragment_built h off body room : header_ok h -> 0 <= off < 2 ^ 24 -> zlen body < 2 ^ 24 -> 12 + zlen body <= zlen room < 2 ^ 64 ->
  fst ((fragment_calls h off body ;;; CBB_finish) (CBB_init_fixed room (zlen room))) =
    Some (fragment_header (hdr_type h) (hdr_msg_len h) (hdr_seq h) off (zlen body) ++ body).
Proof.
  intros (H1 & H2 & H3 & _) Ho Hb Hr; change (CBB_init_fixed room (zlen room)) with (fixed_cbb room 0); unfold fragment_calls, st_bind at 1.
  pose proof (zlen_nonneg body); rewrite front_then by (auto; lia); set (front := hdr_type h :: _).
  assert (zlen front = 9) as Lf by (unfold front; rewrite zlen_cons, !zlen_app, !zlen_be_enc; reflexivity).
  etransitivity; [exact (child_built front (zdrop 9 room) body ltac:(rewrite zlen_zdrop; lia) ltac:(rewrite zlen_app, zlen_zdrop; lia) Hb)|].
  unfold front, fragment_header; cbn [app]; now rewrite <- !app_assoc.
Qed.
End Build.

(** * What is sent *)

(** What a record of a flight carries: a change of cipher, or a piece of a
    message. *)
Inductive item : Type := Change | Fragment (p : piece).

Section Sent.
  (** The type and the body of every message. *)
  Variable msgs : Z -> Z * list Z.

Abbreviation msg_len s := (zlen (snd (msgs s))).

Definition item_record (i : item) : Z * list Z :=
  match i with
  | Change => (SSL3_RT_CHANGE_CIPHER_SPEC, [SSL3_MT_CCS])
  | Fragment p => (SSL3_RT_HANDSHAKE, wire_piece msgs p)
  end.

(** The items that lead from one position to another in a flight, whose elements
    are the numbers of messages or, for a change of cipher, [None]. A position is
    the number of elements sent and the bytes sent of the next one. *)
Inductive sends (L : list (option Z)) : nat * Z -> list item -> nat * Z -> Prop :=
  | sends_nil pos : sends L pos [] pos
  | sends_change w items pos : L !! w = Some None -> sends L (S w, 0) items pos -> sends L (w, 0) (Change :: items) pos
  | sends_rest w o s items pos : L !! w = Some (Some s) -> 0 <= o <= msg_len s -> sends L (S w, 0) items pos ->
      sends L (w, o) (Fragment (s, o, msg_len s - o) :: items) pos
  | sends_part w o s len items pos : L !! w = Some (Some s) -> 0 <= o -> 0 < len -> o + len < msg_len s -> sends L (w, o + len) items pos ->
      sends L (w, o) (Fragment (s, o, len) :: items) pos.

Lemma sends_app L p1 i1 p2 i2 p3 : sends L p1 i1 p2 -> sends L p2 i2 p3 -> sends L p1 (i1 ++ i2) p3.
Proof. induction 1; intros Hnext; cbn [app]; [exact Hnext|econstructor; eauto..]. Qed.

Definition flight_msg_ok (s : Z) : Prop := 0 <= s < 2 ^ 16 /\ byte (fst (msgs s)) /\ bytes (snd (msgs s)) /\ msg_len s < 2 ^ 24.

(** An outgoing message of the epoch [e]. *)
Definition out_as (e : Z) (msg : DTLS_OUTGOING_MESSAGE) (k : option Z) : Prop :=
  out_epoch msg = e /\ match k with
  | None => out_is_ccs msg = true
  | Some s => out_is_ccs msg = false /\ out_data msg = raw_message msgs s /\ flight_msg_ok s
  end.

(** A position in a flight. *)
Definition position_ok (L : list (option Z)) (pos : nat * Z) : Prop :=
  match L !! fst pos with
  | Some (Some s) => 0 <= snd pos <= msg_len s
  | _ => snd pos = 0
  end.

Section Seal.
  Context {HA : Allocator} {HR : RandomSource} {S : Type} {A : EVP_AEAD S} {tag : Z} {paired : S -> S -> Prop} {D : DatagramAead A tag paired}.
  Implicit Types d : DTLS1_STATE S.

Abbreviation writes R wr := (writes_to (A := A) (tag := tag) (paired := paired) R wr).

(** A record that has been sealed for the reader [R], and the writer after it. *)
Definition sealed_item (R : SSLAEADContext S) (wr wr' : dtls_write_state S) (i : item) (bs : list Z) : Prop :=
  opens_to R (next_number wr) (fst (item_record i)) (snd (item_record i)) bs /\ writes R wr' /\ w_epoch wr' = w_epoch wr /\
  next_number wr' = next_number wr + 1 /\ zlen (snd (item_record i)) <= SSL3_RT_MAX_PLAIN_LENGTH.

Lemma bytes_wire_piece p : flight_msg_ok (fst (fst p)) -> bytes (wire_piece msgs p).
Proof.
  destruct p as [[s off] len]; intros (_ & Ht & Hb & _); cbn [wire_piece]; apply bytes_app; split; [|now apply bytes_ztake, bytes_zdrop].
  unfold fragment_header; constructor; [exact Ht|]; change (bytes (be_enc 3 (msg_len s) ++ be_enc 2 s ++ be_enc 3 off ++ be_enc 3 len)); rewrite !bytes_app; auto using bytes_be_enc.
Qed.

Lemma raw_parsed s : flight_msg_ok s -> exists h, dtls1_parse_fragment (raw_message msgs s) = (Some (h, snd (msgs s)), []) /\ header_ok h /\
  hdr_type h = fst (msgs s) /\ hdr_msg_len h = msg_len s /\ hdr_seq h = s /\ hdr_frag_off h = 0 /\ hdr_frag_len h = msg_len s.
Proof.
  intros (Hs & Ht & Hb & Hl); pose proof (zlen_nonneg (snd (msgs s))) as H0.
  set (h := {| hdr_type := fst (msgs s); hdr_msg_len := msg_len s; hdr_seq := s; hdr_frag_off := 0; hdr_frag_len := msg_len s |}).
  assert (header_ok h) as Hh by (repeat split; cbn; try lia; apply Ht); exists h; split; [|repeat (split; [auto|]); reflexivity].
  pose proof (parse_fragment h (snd (msgs s)) [] Hh eq_refl) as E; rewrite app_nil_r in E; exact E.
Qed.

Lemma prefix_overhead R wr : writes R wr ->
  0 <= dtls_seal_prefix_len wr dtls1_use_current_epoch <= dtls_max_seal_overhead wr dtls1_use_current_epoch.
Proof.
  intros (Hp & Hok & _); pose proof (explicit_nonce_bound _ Hok) as Hn; unfold dtls_seal_prefix_len, dtls_max_seal_overhead, MaxOverhead, get_write_aead.
  pose proof (datagram_laws (A := A) (tag := tag) (paired := paired)) as [_ Ho _ _ _ _]; destruct Hp as [Hk _]; unfold DTLS1_RT_HEADER_LENGTH, EVP_AEAD_max_overhead.
  destruct (keyed (aead_write_ctx (d_write wr))) as [[c x]|]; [|lia]; destruct (keyed R) as [[c' y]|]; [|easy].
  destruct Hk as (_ & -> & _); lia.
Qed.

(** One call on the message at the current position. *)
Definition sealed_result (R : SSLAEADContext S) (room : list Z) (L : list (option Z)) (k : option Z) (w : nat) d (r : seal_result_t * DTLS1_STATE S) : Prop :=
  match r with
  | (seal_error, d') => True
  | (seal_no_progress, d') => d' = d
  | (seal_partial bs, d') => exists s len wr', k = Some s /\ 0 < len /\ outgoing_offset d + len < msg_len s /\ zlen bs <= zlen room /\
      sealed_item R (d1_out d) wr' (Fragment (s, outgoing_offset d, len)) bs /\
      d' = with_position (with_out d wr') (outgoing_written d) (outgoing_offset d + len)
  | (seal_success bs, d') => exists i wr', zlen bs <= zlen room /\ sends L (w, outgoing_offset d) [i] (Datatypes.S w, 0) /\
      sealed_item R (d1_out d) wr' i bs /\ d' = with_position (with_out d wr') (outgoing_written d) 0
  end.

Lemma seal_handshake R out room msg s L w d : writes R (d1_out d) -> out_as (w_epoch (d1_out d)) msg (Some s) -> L !! w = Some (Some s) ->
  0 <= outgoing_offset d <= msg_len s -> zlen room <= SSL3_RT_MAX_PLAIN_LENGTH ->
  sealed_result R room L (Some s) w d (seal_next_message out room msg d).
Proof.
  intros Hw [He (Hccs & Hdata & Hs)] HL Hpos Hroom; unfold seal_next_message; rewrite He, Hccs, Hdata.
  rewrite (proj2 (Z.eqb_neq (w_epoch (d1_out d)) (w_epoch (d1_out d) - 1))), andb_false_r, Z.eqb_refl by lia; cbn [negb].
  unfold CBS_init; rewrite ztake_all by lia.
  destruct (raw_parsed s Hs) as (h & -> & Hh & Eh1 & Eh2 & Eh3 & Eh4 & Eh5); rewrite Eh4, Eh5, Eh2; unfold CBS_len; rewrite !Z.eqb_refl; cbn [negb orb].
  set (o := outgoing_offset d) in *; set (body := zdrop o (snd (msgs s))); pose proof Hs as (Hs1 & Hs2 & Hs3 & Hs4).
  assert (zlen body = msg_len s - o) as Lb by (unfold body; rewrite zlen_zdrop; lia).
  assert (CBS_skip o (snd (msgs s)) = (Some tt, body)) as ->.
  { unfold CBS_skip; erewrite st_bind_some; [reflexivity|]; rewrite <- (ztake_zdrop o (snd (msgs s))) at 1; apply cbs_get_app; rewrite zlen_ztake; lia. }
  change (zlen [] =? 0) with true; cbn [negb]; set (overhead := dtls_max_seal_overhead _ _); set (prefix := dtls_seal_prefix_len _ _).
  assert (0 <= prefix <= overhead) as Hov by now apply (prefix_overhead R).
  destruct ((zlen room <? DTLS1_HM_HEADER_LENGTH + 1 + overhead) || (zlen room <? prefix)) eqn:Ep; [reflexivity|].
  apply orb_false_iff in Ep as [Ep1%Z.ltb_ge Ep2%Z.ltb_ge]; unfold DTLS1_HM_HEADER_LENGTH in *.
  set (todo := if _ <? zlen body then _ else zlen body).
  assert (0 <= todo <= zlen body /\ 12 + todo + overhead <= zlen room /\ (todo < zlen body -> 0 < todo)) as (Ht1 & Ht2 & Ht3).
  { unfold todo; pose proof (zlen_nonneg body); destruct (Z.ltb_spec (zlen room - 12 - overhead) (zlen body)); lia. }
  assert (zlen (ztake todo body) = todo) as Lt by (apply zlen_ztake; lia).
  replace (zlen room - prefix) with (zlen (zdrop prefix room)) by (rewrite zlen_zdrop; lia).
  rewrite fragment_built by (auto; rewrite ?Lt, ?zlen_zdrop by lia; unfold SSL3_RT_MAX_PLAIN_LENGTH in *; lia); rewrite Lt, Eh1, Eh2, Eh3.
  fold (wire_piece msgs (s, o, todo)); change (fragment_header _ _ _ _ _ ++ _) with (wire_piece msgs (s, o, todo)).
  destruct (dtls_seal_record _ _ _ _ _ _) as [[bs|] wr'] eqn:Es; [|exact I].
  assert (zlen (wire_piece msgs (s, o, todo)) = 12 + todo) as Lw.
  { change (wire_piece msgs (s, o, todo)) with (fragment_header (fst (msgs s)) (msg_len s) s o todo ++ ztake todo body); rewrite zlen_app, zlen_fragment_header; lia. }
  assert (zlen (wire_piece msgs (s, o, todo)) <= SSL3_RT_MAX_PLAIN_LENGTH) as Hplain by (rewrite Lw; lia).
  apply (dtls_seal_opens R) in Es as (H1 & H2 & H3 & H4 & H5); [|exact Hw|now apply bytes_wire_piece|exact Hplain].
  destruct (Z.eqb_spec todo (zlen body)) as [Ed|Ed].
  - exists (Fragment (s, o, todo)), wr'; split; [exact H5|]; split; [|split; [repeat (split; [assumption|]); assumption|reflexivity]].
    rewrite Ed, Lb; apply sends_rest; [exact HL|lia|constructor].
  - exists s, todo, wr'; split; [reflexivity|]; split; [lia|]; split; [lia|]; split; [exact H5|]; split; [repeat (split; [assumption|]); assumption|].
    cbn [outgoing_offset outgoing_written with_out]; fold o; rewrite (uw_small 32 (o + todo)) by lia; reflexivity.
Qed.

Lemma seal_message_spec R out room msg k L w d : writes R (d1_out d) -> out_as (w_epoch (d1_out d)) msg k -> L !! w = Some k ->
  position_ok L (w, outgoing_offset d) -> zlen room <= SSL3_RT_MAX_PLAIN_LENGTH ->
  sealed_result R room L k w d (seal_next_message out room msg d).
Proof.
  intros Hw Hk HL Hpos Hroom; unfold position_ok in Hpos; cbn [fst snd] in Hpos; rewrite HL in Hpos.
  destruct k as [s|]; [now apply seal_handshake|]; destruct Hk as [He Hk]; unfold seal_next_message; rewrite He, Hk.
  rewrite (proj2 (Z.eqb_neq (w_epoch (d1_out d)) (w_epoch (d1_out d) - 1))), andb_false_r, Z.eqb_refl by lia; cbn [negb].
  case_if; [reflexivity|]; destruct (dtls_seal_record _ _ _ _ _ _) as [[bs|] wr'] eqn:Es; [|exact I].
  apply (dtls_seal_opens R) in Es as (H1 & H2 & H3 & H4 & H5); [|exact Hw|each_literal|vm_compute; discriminate].
  exists Change, wr'; split; [exact H5|]; rewrite Hpos; split; [apply sends_change; [exact HL|constructor]|]; split; [repeat (split; [assumption|]); vm_compute; discriminate|].
  destruct d; cbn in *; now subst.
Qed.

(** ** Packets *)

(** Records sealed one after the other. *)
Fixpoint sealed_items (R : SSLAEADContext S) (wr : dtls_write_state S) (items : list item) (bss : list (list Z)) (wr' : dtls_write_state S) : Prop :=
  match items, bss with
  | [], [] => wr' = wr
  | i :: items, bs :: bss => exists wr1, sealed_item R wr wr1 i bs /\ sealed_items R wr1 items bss wr'
  | _, _ => False
  end.

Lemma sealed_items_app R wr1 i1 b1 wr2 i2 b2 wr3 : sealed_items R wr1 i1 b1 wr2 -> sealed_items R wr2 i2 b2 wr3 ->
  sealed_items R wr1 (i1 ++ i2) (b1 ++ b2) wr3.
Proof.
  revert wr1 b1; induction i1 as [|i i1 IH]; intros wr1 [|b b1] H Hnext; try easy; cbn [app sealed_items] in *; [now subst|].
  destruct H as (wr & Hi & H); exists wr; split; [exact Hi|]; now apply IH.
Qed.

(** The sending side at a position of the flight [L]. *)
Definition flight_state (R : SSLAEADContext S) (L : list (option Z)) (pos : nat * Z) d : Prop :=
  writes R (d1_out d) /\ Forall2 (out_as (w_epoch (d1_out d))) (outgoing_messages d) L /\ outgoing_written d = Z.of_nat (fst pos) /\
  outgoing_offset d = snd pos /\ position_ok L pos /\ (fst pos <= length L)%nat /\ (length L <= 7)%nat.

Lemma flight_state_moved R L pos d wr' pos' : flight_state R L pos d -> writes R wr' -> w_epoch wr' = w_epoch (d1_out d) ->
  position_ok L pos' -> (fst pos' <= length L)%nat -> flight_state R L pos' (with_position (with_out d wr') (Z.of_nat (fst pos')) (snd pos')).
Proof.
  intros (_ & Hm & _ & _ & _ & _ & H7) Hw He Hp Hl; split; [exact Hw|]; cbn [with_position with_out d1_out outgoing_messages]; rewrite He.
  repeat (split; [auto|]); exact H7.
Qed.

Lemma position_start L w : position_ok L (w, 0).
Proof. unfold position_ok; cbn [fst snd]; destruct (L !! w) as [[s|]|]; [pose proof (zlen_nonneg (snd (msgs s))); lia|reflexivity..]. Qed.

Definition packet_result (R : SSLAEADContext S) (L : list (option Z)) (pos : nat * Z) (packet : list Z) (total : Z) (made : bool) d
    (r : (Z + list Z * Z) * DTLS1_STATE S) : Prop :=
  match r with
  | (inl _, _) => True
  | (inr (packet', total'), d') => exists items bss pos', sends L pos items pos' /\ sealed_items R (d1_out d) items bss (d1_out d') /\
      flight_state R L pos' d' /\ outgoing_messages d' = outgoing_messages d /\ zlen packet' = zlen packet /\
      total' = total + zlen (concat bss) /\ total' <= zlen packet /\ ztake total' packet' = ztake total packet ++ concat bss /\ (made = false -> items <> [])
  end.

(** A record is put behind those of the packet. *)
Lemma extend_packet (packet bs : list Z) total : 0 <= total -> total + zlen bs <= zlen packet ->
  zlen (zsplice packet total bs) = zlen packet /\ ztake (total + zlen bs) (zsplice packet total bs) = ztake total packet ++ bs.
Proof.
  intros Ht Hl; pose proof (zlen_nonneg bs); split; [apply zlen_zsplice; lia|]; unfold zsplice.
  rewrite app_assoc, ztake_app_eq; [reflexivity|]; rewrite zlen_app, zlen_ztake; lia.
Qed.

Lemma packet_loop_spec R L fuel : forall addr packet total made pos d, flight_state R L pos d -> zlen packet <= SSL3_RT_MAX_PLAIN_LENGTH ->
  0 <= total <= zlen packet -> packet_result R L pos packet total made d (seal_packet_loop fuel addr packet total made d).
Proof.
  assert (forall packet total made pos d, flight_state R L pos d -> 0 <= total <= zlen packet ->
    packet_result R L pos packet total made d (if made : bool then inr (packet, total) else inl SSL_R_MTU_TOO_SMALL, d)) as Hfull.
  { intros packet total [] pos d Hf Ht; [|exact I]; exists [], [], pos; cbn [concat sealed_items]; rewrite app_nil_r, zlen_nil.
    split; [constructor|]; split; [reflexivity|]; split; [exact Hf|]; split; [reflexivity|]; split; [reflexivity|]; split; [lia|]; split; [lia|]; split; [reflexivity|discriminate]. }
  induction fuel as [|fuel IH]; intros addr packet total made [w o] d Hf Hp Ht; cbn [seal_packet_loop]; [now apply Hfull|].
  pose proof Hf as (Hw & Hm & Ewr & Eo & Hpos & Hle & H7); cbn [fst snd] in *; rewrite Ewr, Nat2Z.id.
  destruct (outgoing_messages d !! w) as [msg|] eqn:Emsg; [|now apply Hfull].
  destruct (Forall2_lookup_l _ _ _ _ _ Hm Emsg) as (k & HL & Hk); pose proof (lookup_lt_Some _ _ _ HL) as Hlt.
  pose proof (seal_message_spec R (addr + total) (zdrop total packet) msg k L w d Hw Hk HL) as Hs; rewrite Eo in Hs.
  specialize (Hs Hpos ltac:(rewrite zlen_zdrop; lia)); unfold sealed_result in Hs; rewrite Eo, Ewr in Hs.
  destruct (seal_next_message _ _ _ _) as [[| |bs|bs] d1]; [exact I|subst d1; now apply Hfull|..].
  - destruct Hs as (s & len & wr' & -> & Hlen & Hmore & Hroom & Hsi & ->); rewrite zlen_zdrop in Hroom by lia.
    pose proof Hsi as (_ & Hw' & He' & _); destruct (extend_packet packet bs total ltac:(lia) ltac:(lia)) as [Lp Tp].
    exists [Fragment (s, o, len)], [bs], (w, o + len); unfold position_ok in Hpos; cbn [fst snd] in Hpos; rewrite HL in Hpos.
    split; [apply sends_part; auto; [lia|constructor]|]; split; [exists wr'; split; [exact Hsi|reflexivity]|].
    split; [apply (flight_state_moved R L (w, o) d wr' (w, o + len)); auto; unfold position_ok; cbn [fst snd]; rewrite HL; lia|].
    cbn [concat]; rewrite app_nil_r; repeat (split; [auto; lia|]); discriminate.
  - destruct Hs as (i & wr' & Hroom & Hsend & Hsi & ->); rewrite zlen_zdrop in Hroom by lia.
    pose proof Hsi as (_ & Hw' & He' & _); destruct (extend_packet packet bs total ltac:(lia) ltac:(lia)) as [Lp Tp].
    cbn [outgoing_written outgoing_offset with_position with_out]; rewrite (uw_small 8) by lia.
    replace (Z.of_nat w + 1) with (Z.of_nat (Datatypes.S w)) by lia.
    pose proof (zlen_nonneg bs); specialize (IH addr (zsplice packet total bs) (total + zlen bs) true (Datatypes.S w, 0)
      (with_position (with_out d wr') (Z.of_nat (Datatypes.S w)) 0)).
    assert (flight_state R L (Datatypes.S w, 0) (with_position (with_out d wr') (Z.of_nat (Datatypes.S w)) 0)) as Hf'
      by (apply (flight_state_moved R L (w, o) d wr' (Datatypes.S w, 0)); auto; apply position_start).
    specialize (IH Hf' ltac:(lia) ltac:(lia)); revert IH; unfold packet_result.
    destruct (seal_packet_loop _ _ _ _ _ _) as [[e|[packet' total']] d2]; [auto|]; intros (items & bss & pos' & G1 & G2 & G3 & G4 & G5 & G6 & G7 & G8 & _).
    exists (i :: items), (bs :: bss), pos'; split; [exact (sends_app L _ [i] _ items _ Hsend G1)|]; split; [exists wr'; split; [exact Hsi|exact G2]|].
    split; [exact G3|]; split; [exact G4|]; split; [lia|]; cbn [concat]; rewrite zlen_app; split; [lia|]; split; [lia|].
    split; [rewrite G8, Tp, <- app_assoc; reflexivity|discriminate].
Qed.

(** ** Flights *)

(** The measure of [flight_left], for a position. *)
Definition left_from (ms : list DTLS_OUTGOING_MESSAGE) (pos : nat * Z) : Z :=
  fold_right (fun msg n => 1 + zlen (out_data msg) + n) 0 (drop (fst pos) ms) - snd pos.

Lemma flight_left_from R L pos d : flight_state R L pos d -> flight_left d = left_from (outgoing_messages d) pos.
Proof. intros (_ & _ & Ew & Eo & _); unfold flight_left, left_from, zdrop; now rewrite Ew, Eo, Nat2Z.id. Qed.

Lemma left_nonneg e ms L pos : Forall2 (out_as e) ms L -> position_ok L pos -> 0 <= left_from ms pos.
Proof.
  intros Hm Hp; assert (forall ms, 0 <= fold_right (fun msg n => 1 + zlen (out_data msg) + n) 0 ms) as H0
    by (induction ms0 as [|m ms0 IH]; cbn [fold_right]; [lia|pose proof (zlen_nonneg (out_data m)); lia]).
  unfold left_from, position_ok in *; destruct (L !! fst pos) as [[s|]|] eqn:E; [|rewrite Hp; specialize (H0 (drop (fst pos) ms)); lia..].
  destruct (Forall2_lookup_r _ _ _ _ _ Hm E) as (msg & Em & _ & _ & Ed & _); rewrite (drop_S _ _ _ Em); cbn [fold_right]; rewrite Ed.
  specialize (H0 (drop (Datatypes.S (fst pos)) ms)); unfold raw_message; rewrite zlen_app, zlen_fragment_header; lia.
Qed.

Lemma sends_left e ms L pos items pos' : Forall2 (out_as e) ms L -> sends L pos items pos' -> left_from ms pos' + zlen items <= left_from ms pos.
Proof.
  intros Hm; induction 1 as [pos|w items pos HL _ IH|w o s items pos HL Ho _ IH|w o s len items pos HL Ho Hl He _ IH]; unfold left_from in *; cbn [fst snd] in *.
  - change (zlen (@nil item)) with 0; lia.
  - destruct (Forall2_lookup_r _ _ _ _ _ Hm HL) as (msg & Em & _); rewrite (drop_S _ _ _ Em), zlen_cons; cbn [fold_right].
    pose proof (zlen_nonneg (out_data msg)); lia.
  - destruct (Forall2_lookup_r _ _ _ _ _ Hm HL) as (msg & Em & _ & _ & Ed & _); rewrite (drop_S _ _ _ Em), zlen_cons; cbn [fold_right].
    rewrite Ed; unfold raw_message; rewrite zlen_app, zlen_fragment_header; lia.
  - rewrite zlen_cons; lia.
Qed.

(** A BIO that keeps the packets it has accepted. *)
#[export] Instance logged_bio {B : Type} (DB : DatagramBio B) : DatagramBio (B * list (list Z)) := {|
  bio_write := fun '(b, log) p => let '(r, b) := bio_write b p in (r, (b, if r <=? 0 then log else log ++ [p]));
  bio_flush := fun '(b, log) => let '(r, b) := bio_flush b in (r, (b, log));
  bio_query_mtu := fun '(b, log) => let '(r, b) := bio_query_mtu b in (r, (b, log));
  bio_set_mtu := fun '(b, log) n => (bio_set_mtu b n, log);
  bio_fallback_mtu := fun '(b, log) => let '(r, b) := bio_fallback_mtu b in (r, (b, log))
|}.

Context {B : Type} {DB : DatagramBio B}.

(** The packets [ps] carry the items from one position to another. *)
Definition packets_sent (R : SSLAEADContext S) (L : list (option Z)) (limit : Z) (wr : dtls_write_state S) (pos pos' : nat * Z) (ps : list (list Z)) (wr' : dtls_write_state S) : Prop :=
  exists records, ps = map (fun r => concat (map snd r)) records /\ Forall (fun p => zlen p <= limit) ps /\
    sends L pos (map fst (concat records)) pos' /\ sealed_items R wr (map fst (concat records)) (map snd (concat records)) wr'.

Lemma packets_none R L limit wr pos : packets_sent R L limit wr pos pos [] wr.
Proof. exists []; repeat split; constructor. Qed.

(** The records of one more packet. *)
Lemma packets_cons R L limit wr pos items bss wr1 pos1 pos' ps wr' : sends L pos items pos1 -> sealed_items R wr items bss wr1 ->
  zlen (concat bss) <= limit -> packets_sent R L limit wr1 pos1 pos' ps wr' -> packets_sent R L limit wr pos pos' (concat bss :: ps) wr'.
Proof.
  intros Hs Hi Hl (records & -> & Hf & Hs' & Hi').
  assert (length items = length bss) as Elen by (revert Hi; clear; revert wr bss; induction items as [|i items IH]; intros wr [|b bss]; try easy;
    intros (w & _ & H); cbn [length]; f_equal; now apply (IH w)).
  assert (map fst (zip items bss) = items /\ map snd (zip items bss) = bss) as [E1 E2] by (split; [apply fst_zip|apply snd_zip]; lia).
  exists (zip items bss :: records); cbn [map concat]; rewrite !map_app, E1, E2.
  split; [reflexivity|]; split; [now constructor|]; split; [now apply (sends_app L pos items pos1)|now apply (sealed_items_app R wr items bss wr1)].
Qed.

Lemma send_packets_spec R L addr fuel : forall packet b log d pos, flight_state R L pos d -> zlen packet <= SSL3_RT_MAX_PLAIN_LENGTH ->
  flight_left d < Z.of_nat fuel ->
  exists ret b' ps d' pos' wr', send_packets fuel addr packet (b, log) d = Some (ret, (b', log ++ ps), d') /\
    packets_sent R L (zlen packet) (d1_out d) pos pos' ps wr' /\ (ret = 1 -> pos' = (length L, 0) /\ d1_out d' = wr').
Proof.
  induction fuel as [|fuel IH]; intros packet b log d pos Hf Hp Hfuel; pose proof Hf as (Hw & Hm & Ewr & Eo & Hpos & Hle & H7).
  { pose proof (left_nonneg _ _ _ _ Hm Hpos); rewrite (flight_left_from R L pos d Hf) in Hfuel; lia. }
  cbn [send_packets]; pose proof (Forall2_length _ _ _ Hm) as Elen; destruct (Z.leb_spec (zlen (outgoing_messages d)) (outgoing_written d)) as [Hdone|Hmore].
  { cbn [bio_flush logged_bio]; destruct (bio_flush b) as [r b']; eexists _, b', [], d, pos, _; rewrite app_nil_r; split; [reflexivity|].
    split; [apply packets_none|]; intros _; split; [|reflexivity]; assert (fst pos = length L) as Ef by (unfold zlen in Hdone; lia).
    unfold position_ok in Hpos; rewrite Ef, lookup_ge_None_2 in Hpos by lia; now rewrite (surjective_pairing pos), Ef, Hpos. }
  pose proof (packet_loop_spec R L (Z.to_nat (zlen (outgoing_messages d) - outgoing_written d)) addr packet 0 false pos d Hf Hp ltac:(pose proof (zlen_nonneg packet); lia)) as Hr.
  unfold seal_next_packet; destruct (seal_packet_loop _ _ _ _ _ _) as [[e|[packet' total]] d1].
  { eexists _, b, [], d1, pos, _; rewrite app_nil_r; split; [reflexivity|]; split; [apply packets_none|discriminate]. }
  destruct Hr as (items & bss & pos1 & G1 & G2 & G3 & G4 & G5 & G6 & G7 & G8 & G9); change (ztake 0 packet) with (@nil Z) in G8; cbn [app] in G8; rewrite G8.
  cbn [bio_write logged_bio]; destruct (bio_write b _) as [r b'] eqn:Eb; destruct (Z.leb_spec r 0) as [Hr0|Hr0].
  { eexists _, b', [], _, pos, _; rewrite app_nil_r; split; [reflexivity|]; split; [apply packets_none|intros ->; lia]. }
  assert (flight_left d1 < Z.of_nat fuel) as Hless.
  { rewrite (flight_left_from R L pos1 d1 G3), G4; rewrite (flight_left_from R L pos d Hf) in Hfuel.
    pose proof (sends_left _ _ _ _ _ _ Hm G1); specialize (G9 eq_refl); destruct items; [easy|]; rewrite zlen_cons in *; pose proof (zlen_nonneg items); lia. }
  destruct (IH packet' b' (log ++ [concat bss]) d1 pos1 G3 ltac:(lia) Hless) as (ret & b2 & ps & d2 & pos2 & wr2 & -> & Hps & Hret).
  exists ret, b2, (concat bss :: ps), d2, pos2, wr2; split; [now rewrite <- app_assoc|]; split; [|exact Hret].
  rewrite G5 in Hps; apply (packets_cons R L _ _ _ items bss (d1_out d1) pos1); auto; lia.
Qed.

(** The call ends, and the packets it has written are the part of the flight up to
    the position it has reached. *)
Lemma send_flight_spec R L pos no_query addr b d : flight_state R L pos d -> kMinMTU <= mtu d <= SSL3_RT_MAX_PLAIN_LENGTH ->
  exists ret b' ps d' pos' wr', send_flight ssl_shutdown_none no_query addr (Some (b, [])) d = Some (ret, Some (b', ps), d') /\
    packets_sent R L (mtu d) (d1_out d) pos pos' ps wr' /\ (ret = 1 -> pos' = (length L, 0) /\ d1_out d' = wr').
Proof.
  intros Hf Hmtu; unfold send_flight, dtls1_update_mtu, dtls1_min_mtu; rewrite (proj2 (Z.ltb_ge _ _)) by lia; cbn [andb].
  unfold kMinMTU in Hmtu; rewrite (proj2 (Z.eqb_neq (mtu d) 0)) by lia; unfold OPENSSL_malloc; destruct (malloc_ok (mtu d)).
  2: { exists (-1), b, [], d, pos, (d1_out d); split; [reflexivity|]; split; [apply packets_none|discriminate]. }
  assert (zlen (fresh (mtu d)) = mtu d) as Hz by (apply zlen_fresh; lia).
  assert (zlen (fresh (mtu d)) <= SSL3_RT_MAX_PLAIN_LENGTH) as Hsmall by (rewrite Hz; apply Hmtu).
  destruct (send_packets_spec R L addr (Datatypes.S (Z.to_nat (flight_left d))) (fresh (mtu d)) b [] d pos Hf Hsmall ltac:(lia))
    as (ret & b' & ps & d' & pos' & wr' & -> & Hp & Hr); rewrite Hz in Hp.
  exists ret, b', ps, d', pos', wr'; auto.
Qed.

(** ** What the records of a flight cover *)

(** Every byte of the messages between two positions is in some fragment. *)
Lemma sends_covers L pos items pos' : sends L pos items pos' -> snd pos' = 0 ->
  forall j s, (fst pos <= j < fst pos')%nat -> L !! j = Some (Some s) ->
  (exists off len, Fragment (s, off, len) ∈ items) /\
  forall k, (if decide (j = fst pos) then snd pos else 0) <= k < msg_len s ->
    exists off len, Fragment (s, off, len) ∈ items /\ off <= k < off + len.
Proof.
  induction 1 as [pos|w items pos HL _ IH|w o s0 items pos HL Ho _ IH|w o s0 len items pos HL Ho Hl He _ IH]; intros H0 j s Hj Hs; cbn [fst snd] in *; [lia|..].
  - destruct (decide (j = w)) as [->|Hne]; [congruence|]; destruct (IH H0 j s ltac:(lia) Hs) as [(off & len & Hin) Hcov].
    split; [exists off, len; now right|]; intros k Hk; destruct (Hcov k) as (off' & len' & Hin' & Hk'); [case_decide; lia|exists off', len'; split; [now right|exact Hk']].
  - destruct (decide (j = w)) as [->|Hne].
    + assert (s0 = s) as -> by congruence; split; [exists o, (msg_len s - o); left|]; intros k Hk; exists o, (msg_len s - o); split; [left|lia].
    + destruct (IH H0 j s ltac:(lia) Hs) as [(off & len & Hin) Hcov]; split; [exists off, len; now right|].
      intros k Hk; destruct (Hcov k) as (off' & len' & Hin' & Hk'); [case_decide; lia|exists off', len'; split; [now right|exact Hk']].
  - destruct (IH H0 j s ltac:(lia) Hs) as [(off & len' & Hin) Hcov]; split; [exists off, len'; now right|]; intros k Hk.
    destruct (decide (j = w)) as [->|Hne]; [assert (s0 = s) as -> by congruence; destruct (Z.lt_ge_cases k (o + len)); [exists o, len; split; [left|lia]|]|];
      (destruct (Hcov k) as (off' & l' & Hin' & Hk'); [try (case_decide; lia); lia|exists off', l'; split; [now right|exact Hk']]).
Qed.

(** Every fragment is a piece of a message of the flight. *)
Lemma sends_pieces L pos items pos' : sends L pos items pos' -> Forall (fun k => match k with Some s => flight_msg_ok s | None => True end) L ->
  Forall (fun i => match i with Change => None ∈ L | Fragment p => piece_ok msgs p /\ Some (fst (fst p)) ∈ L end) items.
Proof.
  intros H HL; induction H as [pos|w items pos Hk _ IH|w o s items pos Hk Ho _ IH|w o s len items pos Hk Ho Hl He _ IH]; constructor; try exact IH.
  - apply (list_elem_of_lookup_2 _ _ _ Hk).
  - rewrite Forall_lookup in HL; destruct (HL _ _ Hk) as (Hs & _); split; [repeat split; lia|apply (list_elem_of_lookup_2 _ _ _ Hk)].
  - rewrite Forall_lookup in HL; destruct (HL _ _ Hk) as (Hs & _); split; [repeat split; lia|apply (list_elem_of_lookup_2 _ _ _ Hk)].
Qed.

Lemma sealed_items_count R items : forall wr bss wr', sealed_items R wr items bss wr' ->
  length bss = length items /\ next_number wr' = next_number wr + zlen items.
Proof.
  induction items as [|i items IH]; intros wr [|b bss] wr' H; try easy; cbn [sealed_items] in H; [subst; split; [reflexivity|change (zlen (@nil item)) with 0; lia]|].
  destruct H as (wr1 & (_ & _ & _ & Hn & _) & H); destruct (IH _ _ _ H) as [E1 E2]; cbn [length]; rewrite zlen_cons; split; lia.
Qed.

(** The records have consecutive numbers. *)
Lemma sealed_items_numbers R items : forall wr bss wr', writes R wr -> sealed_items R wr items bss wr' ->
  forall n i bs, items !! n = Some i -> bss !! n = Some bs ->
  sealed_as R (w_epoch wr) (next_number wr + Z.of_nat n) (item_record i) bs /\ zlen (snd (item_record i)) <= SSL3_RT_MAX_PLAIN_LENGTH.
Proof.
  induction items as [|i0 items IH]; intros wr [|b0 bss] wr' Hw H n i bs Hi Hb; try easy; destruct H as (wr1 & (Ho & Hw1 & He & Hn & Hl) & H).
  destruct n as [|n]; cbn in Hi, Hb.
  - injection Hi as <-; injection Hb as <-; rewrite Z.add_0_r; split; [|exact Hl]; split; [exact Ho|]; destruct Hw as (_ & _ & _ & Hep & Hs); unfold next_number.
    split; [lia|]; rewrite Z.div_add_l, Z.div_small by lia; lia.
  - specialize (IH _ _ _ Hw1 H n i bs Hi Hb); rewrite He, Hn in IH; now replace (next_number wr + Z.of_nat (Datatypes.S n)) with (next_number wr + 1 + Z.of_nat n) by lia.
Qed.
End Seal.
End Sent.
