(* ===== verification/DtlsDelivery.v ===== *)
(** The two sides of a DTLS handshake together: the packets of a flight
    (DtlsFlightSpec.v) that arrive in any order, and more than once, at a receiver
    (DtlsMessageSpec.v) through the record layer (DtlsRecord.v). *)

From S2P Require Import Prelude Mem Cbs Asn1 Der Cbb CbbSpec BufMem Words Md32 Sha256 Sha512 Sha1 Md5 Digest Aead.
From S2P Require Import SslVersions SslCipher SslAead TlsMessage TlsRecord DtlsRecord DtlsMessage DtlsMessageSpec DtlsFlight DtlsFlightSpec.

Section Delivery.
  Context {HA : Allocator} {HR : RandomSource} {S : Type} {A : EVP_AEAD S} {tag : Z} {paired : S -> S -> Prop} {D : DatagramAead A tag paired}.
  Variable sizeof_fragment : Z.
  Variable ssl : connection.
  Variable msgs : Z -> Z * list Z.

(** ** The receiver *)

(** A receiver that takes the records of a packet at the address [q] one after the
    other, until one is in error. [None] is the end of the fuel. *)
Fixpoint receive_packet (fuel : nat) (q : Z) (packet : list Z) (rd : dtls_read_state S) (m : dtls_messages) :
    option (option ssl_error * dtls_read_state S * dtls_messages) :=
  match packet, fuel with
  | [], _ => Some (None, rd, m)
  | _, O => None
  | _, Datatypes.S fuel =>
      r ← dtls1_open_handshake sizeof_fragment ssl rd m q packet;
      match r with
      | (ssl_open_record_success _ _ consumed, rd, m) | (ssl_open_record_discard consumed, rd, m) =>
          receive_packet fuel q (zdrop consumed packet) rd m
      | (ssl_open_record_error e _, rd, m) => Some (Some e, rd, m)
      | (_, rd, m) => Some (None, rd, m)
      end
  end.

Fixpoint receive_packets (q : Z) (packets : list (list Z)) (rd : dtls_read_state S) (m : dtls_messages) :
    option (option ssl_error * dtls_read_state S * dtls_messages) :=
  match packets with
  | [] => Some (None, rd, m)
  | p :: packets =>
      r ← receive_packet (length p) q p rd m;
      match r with
      | (None, rd, m) => receive_packets q packets rd m
      | r => Some r
      end
  end.

(** The next [n] messages that are complete. *)
Fixpoint take_messages (n : nat) (m : dtls_messages) : list (option SSLMessage) :=
  match n with
  | O => []
  | Datatypes.S n => let '(msg, m) := dtls1_get_message m in msg :: take_messages n (dtls1_next_message m)
  end.

(** ** Its specification *)

(** A record on its way: its number, the piece in it and its bytes. *)
Definition record : Type := Z * piece * list Z.

Definition accept_record (x : list Z * list piece) (r : record) : list Z * list piece :=
  let '(seen, ps) := x in
  let '(n, p, _) := r in
  if decide (stale seen n) then (seen, ps) else (n :: seen, p :: ps).

(** A record that the reader in the epoch [e] opens, with a piece of the window
    from message [s0] on. *)
Definition record_ok (R : SSLAEADContext S) (e s0 : Z) (r : record) : Prop :=
  let '(n, p, bs) := r in
  sealed_as R e n (item_record msgs (Fragment p)) bs /\ piece_ok msgs p /\ s0 <= fst (fst p) < s0 + SSL_MAX_HANDSHAKE_FLIGHT /\
  (e = 1 -> fst (fst p) = s0) /\ zlen (wire_piece msgs p) <= SSL3_RT_MAX_PLAIN_LENGTH.

Hypothesis sizeof_ok : 0 <= sizeof_fragment <= 2 ^ 25.
Hypothesis memory : AllocUpTo (2 ^ 25).
Hypothesis messages_ok : msgs_ok ssl msgs.

Lemma opens_nonempty (R : SSLAEADContext S) n type data bs : opens_to R n type data bs -> 0 < zlen bs.
Proof.
  intros (version & body & -> & _); unfold dtls_header; rewrite zlen_app, zlen_cons, !zlen_app, !zlen_be_enc; pose proof (zlen_nonneg body); lia.
Qed.

(** The receiver between two records: it has accepted the numbers [seen] and has
    the pieces [ps]. *)
Definition receiving (R : SSLAEADContext S) (e s0 : Z) (x : list Z * list piece) (rd : dtls_read_state S) (m : dtls_messages) : Prop :=
  reading R e (fst x) rd /\ assembles msgs m {| next_seq := s0; seen := snd x |}.

Lemma open_record R e s0 x rd m q r rest : receiving R e s0 x rd m -> record_ok R e s0 r -> 0 <= e < 2 ^ 16 ->
  exists res rd' m', dtls1_open_handshake sizeof_fragment ssl rd m q (snd r ++ rest) = Some (res, rd', m') /\
    receiving R e s0 (accept_record x r) rd' m' /\
    (res = ssl_open_record_discard (zlen (snd r)) \/ exists type out, res = ssl_open_record_success type out (zlen (snd r))).
Proof.
  destruct x as [seen ps], r as [[n p] bs]; intros [Hr Ha] ((Ho & Hn & Hne) & Hp & Hw & He1 & Hl) He; cbn [fst snd] in *.
  pose proof (dtls_open_sealed_then ssl rd R e seen n _ _ bs rest q Hr Ho Hn Hne He ltac:(discriminate) Hl) as Hopen.
  unfold dtls1_open_handshake, accept_record, item_record in *; cbn [fst snd] in *; destruct (decide (stale seen n)).
  { rewrite Hopen; eexists _, rd, m; split; [reflexivity|]; split; [split; [exact Hr|exact Ha]|now left]. }
  destruct Hopen as (rd' & -> & Hr'); unfold CBS_init; rewrite ztake_all by lia.
  change (SSL3_RT_HANDSHAKE =? SSL3_RT_APPLICATION_DATA) with false; change (SSL3_RT_HANDSHAKE =? SSL3_RT_CHANGE_CIPHER_SPEC) with false.
  rewrite Z.eqb_refl; cbn [negb]; pose proof Hr' as (_ & _ & -> & _).
  destruct (process_record sizeof_fragment ssl msgs sizeof_ok memory messages_ok e [p] (Datatypes.S (length (wire_piece msgs p))) m _
    ltac:(cbn [map concat]; rewrite app_nil_r; lia) Ha ltac:(now constructor)) as (m' & E & Ha'); cbn [map concat] in E; rewrite app_nil_r in E; rewrite E.
  assert (spec_pieces e {| next_seq := s0; seen := ps |} [p] = (None, {| next_seq := s0; seen := p :: ps |})) as Es.
  { cbn [spec_pieces]; unfold spec_piece; destruct p as [[s off] len]; cbn [fst next_seq DtlsMessageSpec.seen] in *.
    destruct (Z.eqb_spec e 1) as [E1|]; [rewrite (He1 E1), Z.eqb_refl|]; cbn [andb negb];
      rewrite (proj2 (Z.ltb_ge _ _)), (proj2 (Z.ltb_ge _ _)), (proj2 (Z.eqb_neq _ _)) by (unfold SSL_MAX_HANDSHAKE_FLIGHT in *; lia); reflexivity. }
  rewrite Es in Ha' |- *; cbn [fst snd mbind option_bind] in *; eexists _, rd', m'; split; [reflexivity|]; split; [split; [exact Hr'|exact Ha']|right; eauto].
Qed.

Lemma receive_records R e s0 q rs : 0 <= e < 2 ^ 16 -> Forall (record_ok R e s0) rs -> forall fuel x rd m, receiving R e s0 x rd m ->
  (length (concat (map snd rs)) <= fuel)%nat ->
  exists rd' m', receive_packet fuel q (concat (map snd rs)) rd m = Some (None, rd', m') /\ receiving R e s0 (fold_left accept_record rs x) rd' m'.
Proof.
  intros He Hrs; induction Hrs as [|r rs Hr Hrs IH]; intros fuel x rd m Hx Hf; cbn [map concat fold_left] in *.
  { exists rd, m; split; [now destruct fuel|exact Hx]. }
  assert (0 < zlen (snd r)) as Hpos by (destruct r as [[n p] bs]; destruct Hr as ((Ho & _) & _); exact (opens_nonempty _ _ _ _ _ Ho)).
  rewrite length_app in Hf; unfold zlen in Hpos; destruct fuel as [|fuel]; [lia|].
  destruct (open_record R e s0 x rd m q r (concat (map snd rs)) Hx Hr He) as (res & rd1 & m1 & E & Hx1 & Hres).
  assert (exists c l, snd r ++ concat (map snd rs) = c :: l) as (c & l & Ecl) by (destruct (snd r); [cbn in Hpos; lia|cbn [app]; eauto]).
  destruct (IH fuel _ rd1 m1 Hx1 ltac:(lia)) as (rd2 & m2 & E2 & Hx2); exists rd2, m2; split; [|exact Hx2].
  rewrite Ecl; cbn [receive_packet]; rewrite <- Ecl, E; cbn [mbind option_bind].
  assert (zdrop (zlen (snd r)) (snd r ++ concat (map snd rs)) = concat (map snd rs)) as Ez by now apply zdrop_app_eq.
  destruct Hres as [->|(type & out & ->)]; rewrite Ez; exact E2.
Qed.

Lemma receive_all R e s0 q packets : 0 <= e < 2 ^ 16 -> Forall (Forall (record_ok R e s0)) packets -> forall x rd m, receiving R e s0 x rd m ->
  exists rd' m', receive_packets q (map (fun rs => concat (map snd rs)) packets) rd m = Some (None, rd', m') /\
    receiving R e s0 (fold_left accept_record (concat packets) x) rd' m'.
Proof.
  intros He Hps; induction Hps as [|rs packets Hrs _ IH]; intros x rd m Hx; cbn [map receive_packets concat].
  { exists rd, m; auto. }
  destruct (receive_records R e s0 q rs He Hrs (length (concat (map snd rs))) x rd m Hx ltac:(lia)) as (rd1 & m1 & -> & Hx1); cbn [mbind option_bind].
  rewrite fold_left_app; now apply IH.
Qed.

(** ** Within the window no record is lost *)

Definition number (r : record) : Z := fst (fst r).
Definition carried (r : record) : piece := snd (fst r).

(** The records [U] have numbers of one window, and a number has one piece. *)
Definition one_window (base : Z) (U : list record) : Prop :=
  (forall r, r ∈ U -> base <= number r < base + kWindowSize) /\
  forall r r', r ∈ U -> r' ∈ U -> number r = number r' -> carried r = carried r'.

(** Each record of [U] whose number has been accepted has left its piece. *)
Definition accepting (base : Z) (U : list record) (x : list Z * list piece) : Prop :=
  newest (fst x) < base + kWindowSize /\ forall r, r ∈ U -> number r ∈ fst x -> carried r ∈ snd x.

Lemma accept_one base U r x : one_window base U -> r ∈ U -> accepting base U x ->
  accepting base U (accept_record x r) /\ (forall p, p ∈ snd x -> p ∈ snd (accept_record x r)) /\ carried r ∈ snd (accept_record x r).
Proof.
  intros [Hw Hone] Hr [Hn Hx]; destruct x as [sn ps], r as [[n p] bs]; unfold accept_record; case_decide as Hst; cbn [fst snd] in *.
  - split; [split; assumption|]; split; [auto|]; destruct Hst as [Hin|Hold]; [now apply (Hx _ Hr)|].
    specialize (Hw _ Hr); unfold number in Hw; cbn in Hw; lia.
  - split; [|split; [now right|left]]; split; [specialize (Hw _ Hr); unfold number in Hw; unfold newest in *; cbn in *; lia|].
    intros r' Hr' [E|Hin]%elem_of_cons; [|right; now apply Hx]; rewrite (Hone _ _ Hr' Hr E); left.
Qed.

Lemma accept_all base U rs : one_window base U -> (forall r, r ∈ rs -> r ∈ U) -> forall x, accepting base U x ->
  (forall p, p ∈ snd x -> p ∈ snd (fold_left accept_record rs x)) /\ forall r, r ∈ rs -> carried r ∈ snd (fold_left accept_record rs x).
Proof.
  intros Hw; induction rs as [|r rs IH]; intros Hrs x Hx; cbn [fold_left]; [split; [auto|intros r H; now apply elem_of_nil in H]|].
  destruct (accept_one base U r x Hw (Hrs r ltac:(left)) Hx) as (Hx' & Hkeep & Hr).
  destruct (IH (fun r' H => Hrs r' ltac:(now right)) _ Hx') as [Hkeep' Hall]; split; [auto|].
  intros r' [->|H]%elem_of_cons; [now apply Hkeep'|now apply Hall].
Qed.

(** ** The messages that come out *)

Definition sent_message (s : Z) : SSLMessage :=
  {| msg_is_v2_hello := false; msg_type := fst (msgs s); msg_body := snd (msgs s); msg_raw := raw_message msgs s |}.

Definition whole (seen : list piece) (s : Z) : Prop :=
  started seen s = true /\ forall k, 0 <= k < zlen (snd (msgs s)) -> covered seen s k = true.

Lemma whole_complete st : whole (seen st) (next_seq st) -> spec_get msgs st = Some (sent_message (next_seq st)).
Proof.
  intros [H1 H2]; unfold spec_get, complete; rewrite H1; cbn [andb]; assert (forallb (covered (seen st) (next_seq st))
    (map Z.of_nat (List.seq 0 (length (snd (msgs (next_seq st)))))) = true) as ->; [|reflexivity].
  apply forallb_forall; intros k Hk; apply in_map_iff in Hk as (i & <- & Hi); apply in_seq in Hi; apply H2; unfold zlen; lia.
Qed.

Lemma take_whole k : forall m st, assembles msgs m st -> next_seq st + Z.of_nat k <= 2 ^ 16 ->
  (forall s, next_seq st <= s < next_seq st + Z.of_nat k -> whole (seen st) s) ->
  take_messages k m = map (fun s => Some (sent_message s)) (seqZ (next_seq st) (Z.of_nat k)).
Proof.
  induction k as [|k IH]; intros m st Ha Hk Hall; [reflexivity|]; cbn [take_messages].
  destruct (get_message_spec msgs m st Ha) as [Eg Ha1]; destruct (dtls1_get_message m) as [msg m1]; cbn [fst snd] in *; subst msg.
  rewrite whole_complete by (apply Hall; lia); rewrite seqZ_cons by lia; cbn [map]; f_equal.
  pose proof (dtls_next_spec msgs m1 st Ha1) as Ha2; pose proof Ha as (_ & _ & Hr & _).
  destruct k as [|k]; [now replace (Z.of_nat 1 - 1) with 0 by lia|].
  assert (next_seq (spec_next st) = next_seq st + 1) as En by (apply (uw_small 16); lia).
  assert (forall s, next_seq st + 1 <= s < next_seq st + 1 + Z.of_nat (Datatypes.S k) -> whole (seen (spec_next st)) s) as Hrest.
  { intros s Hs; destruct (dropped_pieces s (next_seq st) (seen st) ltac:(lia)) as [E1 E2]; destruct (Hall s ltac:(lia)) as [W1 W2].
    unfold spec_next; split; cbn [seen]; [now rewrite E1|intros j Hj; rewrite E2; auto]. }
  rewrite (IH _ _ Ha2) by (rewrite En; first [lia|exact Hrest]).
  rewrite En; unfold Z.succ; do 2 f_equal; lia.
Qed.

(** ** The records of a flight *)

(** The records of packets, numbered from [base] on. *)
Definition tag_record (base : Z) (i : nat) (x : item * list Z) : record :=
  (base + Z.of_nat i, match fst x with Fragment p => p | Change => (0, 0, 0) end, snd x).

Fixpoint tag_packets (base : Z) (records : list (list (item * list Z))) : list (list record) :=
  match records with
  | [] => []
  | r :: records => imap (tag_record base) r :: tag_packets (base + zlen r) records
  end.

Lemma tag_concat records : forall base, concat (tag_packets base records) = imap (tag_record base) (concat records).
Proof.
  induction records as [|r records IH]; intros base; [reflexivity|]; cbn [tag_packets concat]; rewrite IH, imap_app; f_equal.
  apply imap_ext; intros i x _; unfold tag_record, zlen; do 2 f_equal; lia.
Qed.

Lemma tag_snd base r : map snd (imap (tag_record base) r) = map snd r.
Proof. revert base; induction r as [|x r IH]; intros base; [reflexivity|]; cbn [imap map]; f_equal; rewrite <- (IH (base + 1)); f_equal; apply imap_ext; intros i y _; unfold tag_record, compose; do 2 f_equal; lia. Qed.

Lemma tag_bytes records : forall base, map (fun rs => concat (map snd rs)) (tag_packets base records) = map (fun r => concat (map snd r)) records.
Proof. induction records as [|r records IH]; intros base; [reflexivity|]; cbn [tag_packets map]; now rewrite IH, tag_snd. Qed.

(** The flight of the messages from [s0] on. *)
Definition flight_of (s0 : Z) (k : nat) : list (option Z) := map Some (seqZ s0 (Z.of_nat k)).

Lemma flight_of_elem s0 k x : x ∈ flight_of s0 k <-> exists s, x = Some s /\ s0 <= s < s0 + Z.of_nat k.
Proof.
  unfold flight_of; rewrite list_elem_of_fmap; split; intros (s & -> & Hs); exists s; split; auto; [now apply elem_of_seqZ in Hs|now apply elem_of_seqZ].
Qed.

(** The numbered records of a flight can be opened, in any order. *)
Lemma flight_records R s0 k wr records wr' : writes_to (A := A) (tag := tag) (paired := paired) R wr -> (k <= 7)%nat -> (w_epoch wr = 1 -> k = 1%nat) ->
  Forall (fun x => match x with Some s => flight_msg_ok msgs s | None => True end) (flight_of s0 k) ->
  sends msgs (flight_of s0 k) (0%nat, 0) (map fst (concat records)) (k, 0) ->
  sealed_items msgs (A := A) (tag := tag) (paired := paired) R wr (map fst (concat records)) (map snd (concat records)) wr' ->
  Forall (record_ok R (w_epoch wr) s0) (concat (tag_packets (next_number wr) records)).
Proof.
  intros Hw Hk H1 HL Hs Hi; rewrite tag_concat; apply Forall_lookup; intros i r Hr.
  rewrite list_lookup_imap in Hr; destruct (concat records !! i) as [[it bs]|] eqn:E; [|discriminate]; injection Hr as <-.
  assert (map fst (concat records) !! i = Some it /\ map snd (concat records) !! i = Some bs) as [E1 E2]
    by (split; (etransitivity; [apply list_lookup_fmap|]); now rewrite E).
  destruct (sealed_items_numbers msgs (A := A) (tag := tag) (paired := paired) R _ _ _ _ Hw Hi i it bs E1 E2) as [Hsealed Hlen].
  pose proof (sends_pieces msgs _ _ _ _ Hs HL) as Hp; rewrite Forall_lookup in Hp; specialize (Hp _ _ E1); destruct it as [|p].
  - apply flight_of_elem in Hp as (s & ? & _); discriminate.
  - destruct Hp as [Hp Hin]; apply flight_of_elem in Hin as (s & [= <-] & Hrange); unfold tag_record, record_ok; cbn [fst snd].
    split; [exact Hsealed|]; split; [exact Hp|]; split; [unfold SSL_MAX_HANDSHAKE_FLIGHT; lia|]; split; [|exact Hlen].
    intros E0; specialize (H1 E0); subst k; lia.
Qed.

Lemma tagged_window base records : zlen (concat records) <= kWindowSize -> one_window base (concat (tag_packets base records)).
Proof.
  intros Hl; rewrite tag_concat.
  assert (forall r, r ∈ imap (tag_record base) (concat records) -> exists i x, concat records !! i = Some x /\ r = tag_record base i x) as Hel.
  { intros r (i & Hi)%list_elem_of_lookup_1; rewrite list_lookup_imap in Hi; destruct (concat records !! i) as [x|] eqn:E; [|discriminate].
    exists i, x; split; [exact E|]; now injection Hi as <-. }
  split.
  - intros r (i & x & Hx & ->)%Hel; apply lookup_lt_Some in Hx; unfold number, tag_record, zlen in *; cbn [fst]; lia.
  - intros r r' (i & x & Hx & ->)%Hel (i' & x' & Hx' & ->)%Hel; unfold number, carried, tag_record; cbn [fst snd]; intros E.
    assert (i = i') as -> by lia; assert (x = x') as -> by congruence; reflexivity.
Qed.

(** What has been received when every packet has arrived. *)
Lemma flight_whole s0 k base records rs x : sends msgs (flight_of s0 k) (0%nat, 0) (map fst (concat records)) (k, 0) ->
  zlen (concat records) <= kWindowSize -> (forall r, r ∈ rs <-> r ∈ concat (tag_packets base records)) ->
  accepting base (concat (tag_packets base records)) x ->
  forall s, s0 <= s < s0 + Z.of_nat k -> whole (snd (fold_left accept_record rs x)) s.
Proof.
  intros Hs Hl Hrs Hx s Hr; pose proof (tagged_window base records Hl) as Hw.
  destruct (accept_all base _ rs Hw (fun r => proj1 (Hrs r)) x Hx) as [_ Hall].
  assert (forall p, Fragment p ∈ map fst (concat records) -> p ∈ snd (fold_left accept_record rs x)) as Hin.
  { intros p ([it bs] & E & Hp)%list_elem_of_fmap; cbn in E; subst it; apply list_elem_of_lookup_1 in Hp as (i & Hi).
    apply (Hall (base + Z.of_nat i, p, bs)), Hrs; rewrite tag_concat; apply (list_elem_of_lookup_2 _ i); rewrite list_lookup_imap, Hi; reflexivity. }
  assert (flight_of s0 k !! Z.to_nat (s - s0) = Some (Some s)) as EL.
  { unfold flight_of; etransitivity; [apply list_lookup_fmap|]; rewrite lookup_seqZ_lt by lia; cbn; do 2 f_equal; lia. }
  destruct (sends_covers msgs _ _ _ _ Hs eq_refl (Z.to_nat (s - s0)) s ltac:(cbn; lia) EL) as [(off & len & H0) Hc]; split.
  - apply existsb_exists; exists (s, off, len); split; [now apply list_elem_of_In, Hin|apply Z.eqb_refl].
  - intros j Hj; destruct (Hc j ltac:(case_decide; cbn; lia)) as (off' & len' & H1 & H2); apply existsb_exists; exists (s, off', len').
    split; [now apply list_elem_of_In, Hin|]; rewrite Z.eqb_refl; lia.
Qed.

Lemma arrived {X} (l : list (list X)) arrivals : Forall (fun i => i < length l)%nat arrivals -> (forall i, (i < length l)%nat -> i ∈ arrivals) ->
  forall x, x ∈ concat (map (fun i => nth i l []) arrivals) <-> x ∈ concat l.
Proof.
  intros Ha Hall x; rewrite !list_elem_of_In, !in_concat; split.
  - intros (y & Hy & Hx); apply in_map_iff in Hy as (i & <- & Hi); rewrite List.Forall_forall in Ha; exists (nth i l []); split; [now apply nth_In, Ha|exact Hx].
  - intros (y & Hy & Hx); apply In_nth with (d := []) in Hy as (i & Hi & <-); exists (nth i l []); split; [|exact Hx].
    apply in_map_iff; exists i; split; [reflexivity|now apply list_elem_of_In, Hall].
Qed.

Lemma flight_msgs_ok e out L : Forall2 (out_as msgs e) out L -> Forall (fun x => match x with Some s => flight_msg_ok msgs s | None => True end) L.
Proof. induction 1 as [|msg [s|] out L [_ H] _ IH]; constructor; auto; now destruct H as (_ & _ & ?). Qed.

(** Only smaller numbers have been accepted before. *)
Lemma accepting_start base records seen : 0 <= base -> zlen (concat records) <= kWindowSize -> Forall (fun n => n < base) seen ->
  accepting base (concat (tag_packets base records)) (seen, []).
Proof.
  intros Hb Hz Hseen; rewrite List.Forall_forall in Hseen; split; cbn [fst snd].
  - assert (newest seen <= Z.max 0 base) as Hn; [|unfold kWindowSize; lia].
    clear - Hseen; unfold newest; induction seen as [|n seen IH]; cbn [fold_right]; [lia|].
    pose proof (Hseen n (or_introl eq_refl)); specialize (IH (fun x H => Hseen x (or_intror H))); lia.
  - intros r Hin Hn; destruct (tagged_window base _ Hz) as [Hrange _]; specialize (Hrange _ Hin); apply list_elem_of_In, Hseen in Hn; lia.
Qed.

Context {B : Type} {DB : DatagramBio B}.

(** C15. A flight of up to seven messages that has been sent, cut into fragments by
    whatever MTU of up to 16384 bytes, sealed and packed into packets, is
    received: when every packet arrives, in whatever order and however often, no
    packet is an error and the receiver takes from them exactly the messages that
    were sent, in their order. The records of the flight have to fit the replay
    window of sixty-four, and the records after a change of cipher carry one
    message. *)
Theorem dtls_flight_delivered R s0 k no_query addr b d b' ps d' rd seen m q arrivals :
  flight_state msgs (A := A) (tag := tag) (paired := paired) R (flight_of s0 k) (0%nat, 0) d -> kMinMTU <= mtu d <= SSL3_RT_MAX_PLAIN_LENGTH ->
  send_flight ssl_shutdown_none no_query addr (Some (b, [])) d = Some (1, Some (b', ps), d') ->
  next_number (d1_out d') <= next_number (d1_out d) + kWindowSize ->
  reading R (w_epoch (d1_out d)) seen rd -> Forall (fun n => n < next_number (d1_out d)) seen ->
  assembles msgs m {| next_seq := s0; DtlsMessageSpec.seen := [] |} -> (w_epoch (d1_out d) = 1 -> k = 1%nat) ->
  Forall (fun i => i < length ps)%nat arrivals -> (forall i, (i < length ps)%nat -> i ∈ arrivals) ->
  exists rd' m', receive_packets q (map (fun i => nth i ps []) arrivals) rd m = Some (None, rd', m') /\
    take_messages k m' = map (fun s => Some (sent_message s)) (seqZ s0 (Z.of_nat k)).
Proof.
  intros Hf Hmtu Es Hnum Hr Hseen Hm H1 Ha Hall.
  destruct (send_flight_spec msgs R _ _ no_query addr b d Hf Hmtu) as (ret & b2 & ps2 & d2 & pos2 & wr2 & E & (records & Hps & _ & Hs & Hi) & Hret).
  rewrite Es in E; injection E as <- <- <- <-; destruct (Hret eq_refl) as [-> Ewr]; clear Hret.
  assert (length (flight_of s0 k) = k) as Lk by (unfold flight_of; rewrite length_map, length_seqZ; lia); rewrite Lk in Hs.
  pose proof Hf as (Hw & Hout & _ & _ & _ & _ & H7); rewrite Lk in H7; pose proof Hw as (_ & _ & _ & He & _).
  destruct (sealed_items_count msgs R _ _ _ _ Hi) as [_ Hcount]; rewrite <- Ewr in Hcount.
  set (T := tag_packets (next_number (d1_out d)) records).
  assert (ps = map (fun rs => concat (map snd rs)) T) as Eps by (unfold T; now rewrite tag_bytes).
  assert (map (fun i => nth i ps []) arrivals = map (fun rs => concat (map snd rs)) (map (fun i => nth i T []) arrivals)) as ->
    by (rewrite map_map, Eps; apply map_ext; intros i; apply (map_nth (fun rs => concat (map snd rs)) T [])).
  rewrite Eps, length_map in Ha, Hall; pose proof (arrived T arrivals Ha Hall) as Harr.
  pose proof (flight_records R s0 k _ records _ Hw H7 H1 (flight_msgs_ok _ _ _ Hout) Hs Hi) as Hok; fold T in Hok.
  assert (Forall (Forall (record_ok R (w_epoch (d1_out d)) s0)) (map (fun i => nth i T []) arrivals)) as Hpk.
  { apply List.Forall_forall; intros rs Hrs; apply Forall_forall; intros r Hin; rewrite Forall_forall in Hok; apply Hok, Harr.
    apply list_elem_of_In, in_concat; exists rs; split; [exact Hrs|now apply list_elem_of_In]. }
  destruct (receive_all R _ s0 q _ He Hpk (seen, []) rd m (conj Hr Hm)) as (rd' & m' & -> & _ & Hm'); exists rd', m'; split; [reflexivity|].
  assert (zlen (concat records) <= kWindowSize) as Hz by (rewrite zlen_map in Hcount; lia).
  assert (accepting (next_number (d1_out d)) (concat T) (seen, [])) as Hacc
    by (apply accepting_start; auto; pose proof Hw as (_ & _ & _ & _ & Hseq); unfold next_number; lia).
  pose proof (flight_whole s0 k _ records _ (seen, []) Hs Hz Harr Hacc) as Hwhole.
  apply (take_whole k m' _ Hm'); [|exact Hwhole]; cbn [next_seq]; destruct k as [|k']; [pose proof Hm as (_ & _ & Hr0 & _); cbn in Hr0; lia|].
  pose proof (flight_msgs_ok _ _ _ Hout) as Hl; rewrite Forall_forall in Hl; specialize (Hl (Some (s0 + Z.of_nat k'))).
  destruct Hl as [Hl _]; [apply flight_of_elem; exists (s0 + Z.of_nat k'); split; [reflexivity|lia]|lia].
Qed.
End Delivery.

(** * Witness *)

(** A BIO that takes every packet. *)
#[export] Instance perfect_bio : DatagramBio unit :=
  {| bio_write := fun b p => (zlen p, b); bio_flush := fun b => (1, b); bio_query_mtu := fun b => (0, b); bio_set_mtu := fun b _ => b;
     bio_fallback_mtu := fun b => (0, b) |}.

(** Two messages of three hundred bytes, through packets of the least size. *)
Definition long_msgs (s : Z) : Z * list Z := (1, zrep 300 7).
Definition no_timer : dtls_timer := dtls1_stop_timer 1000.
Definition sample_flight : DTLS1_STATE Z :=
  {| d1_in := dtls_messages_new; d1_out := dtls_writer0;
     outgoing_messages := map (fun s => {| out_data := raw_message long_msgs s; out_epoch := 0; out_is_ccs := false |}) [0; 1];
     outgoing_written := 0; outgoing_offset := 0; handshake_write_seq := 2; mtu := kMinMTU; timer := no_timer |}.
Abbreviation sample_sent := (send_flight (HA := allocator_total) (HR := sample_random) ssl_shutdown_none true 4096 (Some (tt, [])) sample_flight).
Definition packets_of (x : option (Z * option (unit * list (list Z)) * DTLS1_STATE Z)) : list (list Z) :=
  match x with Some (_, Some (_, ps), _) => ps | _ => [] end.
Definition state_of (x : option (Z * option (unit * list (list Z)) * DTLS1_STATE Z)) : DTLS1_STATE Z :=
  match x with Some (_, _, d) => d | _ => sample_flight end.
Abbreviation sample_packets := (packets_of sample_sent).
Abbreviation flight_sent := (state_of sample_sent).
Definition sample_arrivals : list nat := [3; 1; 0; 1; 2; 3]%nat.

Lemma sent_default x : match x with Some (r, Some _, _) => r =? 1 | _ => false end = true -> x = Some (1, Some (tt, packets_of x), state_of x).
Proof. destruct x as [[[r [[[] ps]|]] d]|]; try discriminate; now intros ->%Z.eqb_eq. Qed.

Lemma sample_sent_all : sample_sent = Some (1, Some (tt, sample_packets), flight_sent) /\ length sample_packets = 4%nat /\
  next_number (d1_out flight_sent) = next_number (d1_out sample_flight) + 5.
Proof. split; [apply sent_default; vm_compute; reflexivity|split; vm_compute; reflexivity]. Qed.

Lemma sample_writes : writes_to (A := toy_aead 16 12) (tag := 16) (paired := eq) (CreateNullCipher true) dtls_writer0.
Proof.
  split; [split; [exact I|repeat split]|]; split; [split; [vm_compute; split; congruence|split; [vm_compute; congruence|intros _; split; [cbn; lia|reflexivity]]]|].
  split; [|cbn; lia]; split; [reflexivity|]; split; [vm_compute; split; congruence|reflexivity].
Qed.

Lemma long_msgs_ok : msgs_ok sample_ssl long_msgs.
Proof. intros s; split; [split; cbn; lia|]; split; vm_compute; congruence. Qed.

Lemma sample_flight_state : flight_state long_msgs (A := toy_aead 16 12) (tag := 16) (paired := eq) (CreateNullCipher true) (flight_of 0 2) (0%nat, 0) sample_flight.
Proof.
  change (flight_of 0 2) with [Some 0; Some 1].
  split; [exact sample_writes|]; split; [|split; [reflexivity|split; [reflexivity|split; [|split; [cbn; lia|cbn; lia]]]]].
  - assert (forall s, 0 <= s < 2 -> flight_msg_ok long_msgs s) as Hs
      by (intros s H; split; [lia|]; split; [split; cbn; lia|]; split; [apply bytes_zrep; split; lia|vm_compute; reflexivity]).
    repeat (constructor; [split; [reflexivity|]; split; [reflexivity|]; split; [reflexivity|apply Hs; lia]|]); constructor.
  - split; [reflexivity|vm_compute; congruence].
Qed.

Lemma dtls_flight_delivered_witness :
  exists rd' m', receive_packets (HA := allocator_total) 64 sample_ssl 0 (map (fun i => nth i sample_packets []) sample_arrivals) dtls_reader0 dtls_messages_new =
      Some (None, rd', m') /\ take_messages 2 m' = [Some (sent_message long_msgs 0); Some (sent_message long_msgs 1)].
Proof.
  destruct sample_sent_all as (E & El & En).
  destruct (dtls_flight_delivered (HA := allocator_total) (HR := sample_random) (A := toy_aead 16 12) (tag := 16) (paired := eq) 64 sample_ssl long_msgs
    ltac:(lia) ltac:(intros n _; reflexivity) long_msgs_ok (CreateNullCipher true) 0 2 true 4096 tt sample_flight tt sample_packets flight_sent
    dtls_reader0 [0; 1] dtls_messages_new 0 sample_arrivals) as (rd' & m' & E1 & E2).
  - exact sample_flight_state.
  - vm_compute; split; congruence.
  - exact E.
  - rewrite En; unfold kWindowSize; lia.
  - split; [reflexivity|]; split; [reflexivity|]; split; [reflexivity|]; split; [reflexivity|]; split; [cbn; lia|].
    split; [repeat constructor; lia|]; intros i Hi; assert (i = 0 \/ i = 1 \/ 2 <= i < 64) as [->|[->|H]] by (unfold kWindowSize in Hi; lia); [reflexivity..|].
    rewrite bool_decide_false by (cbn; rewrite !elem_of_cons, elem_of_nil; lia); cbn [bitmap dtls_reader0 bitmap_map]; rewrite (Z.bits_above_log2 3 i); [reflexivity|lia|change (Z.log2 3) with 1; lia].
  - repeat constructor; vm_compute; reflexivity.
  - exact (assembles_new long_msgs).
  - discriminate.
  - rewrite El; repeat constructor; lia.
  - rewrite El; intros i Hi; unfold sample_arrivals; assert (i = 0 \/ i = 1 \/ i = 2 \/ i = 3)%nat as H by lia; rewrite !elem_of_cons; lia.
  - exists rd', m'; split; [exact E1|exact E2].
Defined.
