(* ===== verification/DtlsTimer.v ===== *)
(** What the retransmission timer of DTLS handshakes does (DtlsFlight.v, from
    ssl/d1_lib.cc): the time that is left is exact, the intervals double up to a
    minute, and after twelve retransmissions the connection fails. *)

From S2P Require Import Prelude Mem Cbs Asn1 Der Cbb CbbSpec BufMem Words Md32 Sha256 Sha512 Sha1 Md5 Digest Aead.
From S2P Require Import SslVersions SslCipher SslAead TlsMessage TlsRecord DtlsRecord DtlsMessage DtlsMessageSpec DtlsFlight DtlsFlightSpec DtlsDelivery.

(** * Times *)

(** A time in microseconds. *)
Definition micros (t : OPENSSL_timeval) : Z := tv_sec t * 1000000 + tv_usec t.

Definition time_before (limit : Z) (t : OPENSSL_timeval) : Prop := 0 <= tv_sec t < limit /\ 0 <= tv_usec t < 1000000.

(** A time below this one, of thirty thousand million years, can be added to. *)
Abbreviation time_ok := (time_before (2 ^ 60)).

Definition after (t : OPENSSL_timeval) (ms : Z) : OPENSSL_timeval :=
  {| tv_sec := (micros t + ms * 1000) / 1000000; tv_usec := (micros t + ms * 1000) mod 1000000 |}.

Lemma time_unique s u n : 0 <= u < 1000000 -> s * 1000000 + u = n -> {| tv_sec := s; tv_usec := u |} = {| tv_sec := n / 1000000; tv_usec := n mod 1000000 |}.
Proof. intros Hu <-; f_equal; [rewrite Z.div_add_l, Z.div_small by lia; lia|rewrite Z.add_comm, Z.mod_add, Z.mod_small by lia; reflexivity]. Qed.

Lemma after_micros t ms : micros (after t ms) = micros t + ms * 1000.
Proof. unfold after; set (n := micros t + _); unfold micros; cbn [tv_sec tv_usec]; pose proof (Z.div_mod n 1000000 ltac:(lia)); lia. Qed.

Lemma after_ok t ms : time_ok t -> 0 <= ms < 2 ^ 32 -> time_before (2 ^ 61) (after t ms).
Proof.
  intros [Hs Hu] Hms; pose proof (after_micros t ms) as E; pose proof (Z.mod_pos_bound (micros t + ms * 1000) 1000000 ltac:(lia)) as Hm.
  split; [|exact Hm]; unfold micros at 1 in E; unfold micros in *; cbn [tv_usec after] in *; unfold after in *; cbn [tv_sec tv_usec] in *; unfold micros in *; lia.
Qed.

Lemma start_timer_next initial now t : time_ok now -> let D := if timer_is_set t then timeout_duration_ms t else initial in 0 <= D < 2 ^ 32 ->
  dtls1_start_timer initial now t = {| num_timeouts := num_timeouts t; next_timeout := after now D; timeout_duration_ms := D |}.
Proof.
  intros [Hs Hu] D HD; unfold dtls1_start_timer; replace (if negb (timer_is_set t) then initial else timeout_duration_ms t) with D by (unfold D; now destruct (timer_is_set t)).
  pose proof (Z.div_mod D 1000 ltac:(lia)) as Ed; pose proof (Z.mod_pos_bound D 1000 ltac:(lia)) as Em; assert (0 <= D / 1000) by (apply Z.div_pos; lia).
  rewrite (uw_small 64 (tv_sec now + _)), (uw_small 32 (tv_usec now + _)) by lia; f_equal; unfold after; destruct (Z.leb_spec 1000000 (tv_usec now + D mod 1000 * 1000)).
  - rewrite (uw_small 64) by lia; apply time_unique; unfold micros; lia.
  - apply time_unique; unfold micros; lia.
Qed.

(** The time that is left is the difference, but nothing below fifteen
    milliseconds. *)
Lemma get_timeout_spec now t : time_ok now -> time_before (2 ^ 61) (next_timeout t) -> timer_is_set t = true ->
  let left := micros (next_timeout t) - micros now in left < INT_MAX * 1000000 ->
  DTLSv1_get_timeout now t = Some (if left <? 15000 then {| tv_sec := 0; tv_usec := 0 |} else {| tv_sec := left / 1000000; tv_usec := left mod 1000000 |}).
Proof.
  intros [Hs Hu] [Ns Nu] Hset left Hmax; unfold DTLSv1_get_timeout; rewrite Hset; cbn [negb]; set (nxt := next_timeout t) in *.
  destruct ((tv_sec nxt <? tv_sec now) || _) eqn:E.
  { assert (left < 15000) as Hl by (unfold left, micros; lia); now rewrite (proj2 (Z.ltb_lt _ _) Hl). }
  rewrite (uw_small 64 (tv_sec nxt - tv_sec now)) by lia.
  assert (exists s u, (if tv_usec now <=? tv_usec nxt then (tv_sec nxt - tv_sec now, tv_usec nxt - tv_usec now)
    else (u64 (tv_sec nxt - tv_sec now - 1), u32 (1000000 + tv_usec nxt - tv_usec now))) = (s, u) /\ 0 <= s /\ 0 <= u < 1000000 /\ s * 1000000 + u = left)
    as (s & u & -> & H0 & H1 & H2).
  { unfold left, micros; destruct (Z.leb_spec (tv_usec now) (tv_usec nxt)); eexists _, _; (split; [reflexivity|]); [lia|].
    rewrite (uw_small 64), (uw_small 32) by lia; lia. }
  assert ((s =? 0) && (u <? 15000) = (left <? 15000)) as ->.
  { destruct (Z.eqb_spec s 0), (Z.ltb_spec u 15000), (Z.ltb_spec left 15000); cbn [andb]; first [reflexivity|lia]. }
  destruct (left <? 15000); [reflexivity|]; rewrite (proj2 (Z.ltb_ge INT_MAX s)) by lia; f_equal; now apply time_unique.
Qed.

Lemma timer_expired_spec now t : time_ok now -> time_before (2 ^ 61) (next_timeout t) -> timer_is_set t = true ->
  micros (next_timeout t) - micros now < INT_MAX * 1000000 ->
  dtls1_is_timer_expired now t = (micros (next_timeout t) - micros now <? 15000).
Proof.
  intros Hn Ht Hset Hmax; unfold dtls1_is_timer_expired; rewrite get_timeout_spec by auto; set (left := _ - _) in *.
  destruct (Z.ltb_spec left 15000) as [|Hl]; [reflexivity|]; cbn [tv_sec tv_usec]; apply negb_false_iff, orb_true_iff.
  pose proof (Z.div_mod left 1000000 ltac:(lia)); pose proof (Z.mod_pos_bound left 1000000 ltac:(lia)); lia.
Qed.

(** * Sending leaves the timer and the messages alone *)

Section Timer.
  Context {HA : Allocator} {HR : RandomSource} {S : Type} {B : Type} {DB : DatagramBio B}.
  Implicit Types d : DTLS1_STATE S.

Definition fixed_part d : dtls_timer * list DTLS_OUTGOING_MESSAGE := (timer d, outgoing_messages d).

Lemma seal_next_message_fixed out room msg d : fixed_part (snd (seal_next_message out room msg d)) = fixed_part d.
Proof. unfold seal_next_message; repeat first [case_match | case_if]; reflexivity. Qed.

Lemma seal_packet_loop_fixed fuel addr : forall packet total made d, fixed_part (snd (seal_packet_loop fuel addr packet total made d)) = fixed_part d.
Proof.
  induction fuel as [|fuel IH]; intros packet total made d; cbn [seal_packet_loop]; [reflexivity|]; destruct (outgoing_messages d !! _) as [msg|]; [|reflexivity].
  pose proof (seal_next_message_fixed (addr + total) (zdrop total packet) msg d) as H; destruct (seal_next_message _ _ _ _) as [[| | |] d1]; try exact H.
  rewrite IH; exact H.
Qed.

Lemma send_packets_fixed fuel addr : forall packet bio d r bio' d', send_packets fuel addr packet bio d = Some (r, bio', d') -> fixed_part d' = fixed_part d.
Proof.
  induction fuel as [|fuel IH]; intros packet bio d r bio' d' E; cbn [send_packets] in E; [discriminate|].
  destruct (zlen (outgoing_messages d) <=? _); [destruct (bio_flush bio); now injection E as <- <- <-|]; unfold seal_next_packet in E.
  pose proof (seal_packet_loop_fixed (Z.to_nat (zlen (outgoing_messages d) - outgoing_written d)) addr packet 0 false d) as H.
  destruct (seal_packet_loop _ _ _ _ _ _) as [[e|[packet' len]] d1]; cbn [snd] in H; [now injection E as <- <- <-|].
  destruct (bio_write bio _) as [w bio1]; destruct (w <=? 0); [injection E as <- <- <-; exact H|]; now rewrite (IH _ _ _ _ _ _ E).
Qed.

Lemma update_mtu_fixed no_query bio d : fixed_part (snd (dtls1_update_mtu no_query bio d)) = fixed_part d.
Proof. unfold dtls1_update_mtu; repeat first [case_match | case_if]; reflexivity. Qed.

(** * Sending ends *)

Lemma parsed_body cbs h body rest : dtls1_parse_fragment cbs = (Some (h, body), rest) -> zlen body <= zlen cbs.
Proof.
  assert (forall n c x r, 0 <= n -> cbs_get_u n c = (Some x, r) -> zlen r <= zlen c) as Hu.
  { intros n c x r Hn H; unfold cbs_get_u in H; apply st_bind_inv in H as (a & s & H & E); apply cbs_get_inv in H as [-> _]; [|exact Hn].
    injection E as _ <-; rewrite zlen_app; pose proof (zlen_nonneg a); lia. }
  assert (forall c x r, CBS_get_u24 c = (Some x, r) -> zlen r <= zlen c) as H24
    by (intros c x r H; apply st_bind_inv in H as (v & s & H & [= <- <-]); apply Hu in H; lia).
  assert (forall c x r, CBS_get_u16 c = (Some x, r) -> zlen r <= zlen c) as H16
    by (intros c x r H; apply st_bind_inv in H as (v & s & H & [= <- <-]); apply Hu in H; lia).
  unfold dtls1_parse_fragment; intros H; apply st_bind_inv in H as (type & s1 & H1%CBS_get_u8_inv & H).
  apply st_bind_inv in H as (ml & s2 & H2%H24 & H); apply st_bind_inv in H as (sq & s3 & H3%H16 & H).
  apply st_bind_inv in H as (fo & s4 & H4%H24 & H); apply st_bind_inv in H as (fl & s5 & H5%H24 & H).
  apply st_bind_inv in H as (b & s6 & H & [= <- <- <-]); subst cbs; rewrite zlen_cons; unfold CBS_get_bytes in H; apply st_bind_inv in H as (a & s7 & H & [= <- <-]).
  unfold cbs_get in H; case_if; [discriminate|]; injection H as <- _; unfold CBS_init, ztake, zlen in *; rewrite !length_take; lia.
Qed.

(** A call on the message [msg] that makes progress moves the position, and nothing
    else that matters to the flight. *)
Definition moves (msg : DTLS_OUTGOING_MESSAGE) d (r : seal_result_t * DTLS1_STATE S) : Prop :=
  let d' := snd r in
  match fst r with
  | seal_error => True
  | seal_no_progress => d' = d
  | seal_partial _ => outgoing_messages d' = outgoing_messages d /\ outgoing_written d' = outgoing_written d /\ out_is_ccs msg = false /\
      outgoing_offset d < outgoing_offset d' <= zlen (out_data msg)
  | seal_success _ => outgoing_messages d' = outgoing_messages d /\ outgoing_written d' = outgoing_written d /\
      outgoing_offset d' = if out_is_ccs msg then outgoing_offset d else 0
  end.

Lemma seal_next_message_moves out room msg d : zlen (out_data msg) < 2 ^ 32 -> 0 <= outgoing_offset d ->
  moves msg d (seal_next_message out room msg d).
Proof.
  intros Hl Ho; unfold moves, seal_next_message; destruct (if (1 <=? _) && _ then _ else _) as [e|]; [|exact I]; destruct (out_is_ccs msg) eqn:Ec.
  { case_if; [reflexivity|]; destruct (dtls_seal_record _ _ _ _ _ _) as [[bs|] wr]; [|exact I]; cbn; auto. }
  destruct (dtls1_parse_fragment _) as [[[h body]|] cbs] eqn:Ep; [|exact I]; apply parsed_body in Ep; unfold CBS_init in Ep; rewrite ztake_all in Ep by lia.
  case_if; [exact I|]; destruct (CBS_skip _ body) as [[[]|] rest] eqn:Es; [|exact I]; case_if; [exact I|].
  set (overhead := dtls_max_seal_overhead _ _); destruct (_ || (zlen room <? _)) eqn:E; [reflexivity|]; apply orb_false_iff in E as [E%Z.ltb_ge _].
  set (todo := if _ <? CBS_len rest then _ else CBS_len rest); destruct (fst ((fragment_calls _ _ _ ;;; CBB_finish) _)) as [frag|]; [|exact I].
  destruct (dtls_seal_record _ _ _ _ _ _) as [[bs|] wr]; [|exact I]; cbn [fst snd with_out outgoing_offset outgoing_written].
  destruct (Z.eqb_spec todo (CBS_len rest)) as [|Hne]; cbn; [auto|]; unfold CBS_skip in Es; apply st_bind_inv in Es as (a & s' & Eg & [= ->]).
  apply cbs_get_inv in Eg as [-> La]; [|exact Ho]; rewrite zlen_app in Ep; unfold CBS_len, DTLS1_HM_HEADER_LENGTH in *.
  assert (0 < todo < zlen rest) as Ht by (unfold todo in *; destruct (Z.ltb_spec (zlen room - 12 - overhead) (zlen rest)); lia).
  rewrite uw_small by lia; repeat (split; [reflexivity|]); lia.
Qed.

(** A position that a flight can have. *)
Definition position_valid d : Prop :=
  0 <= outgoing_written d <= zlen (outgoing_messages d) /\ zlen (outgoing_messages d) <= 7 /\ 0 <= outgoing_offset d /\
  Forall (fun msg => zlen (out_data msg) < 2 ^ 32) (outgoing_messages d) /\
  (outgoing_offset d <> 0 -> exists msg, outgoing_messages d !! Z.to_nat (outgoing_written d) = Some msg /\ out_is_ccs msg = false /\
    outgoing_offset d <= zlen (out_data msg)).

Abbreviation weight ms := (fold_right (fun msg n => 1 + zlen (out_data msg) + n) 0 ms).

Lemma weight_nonneg ms : 0 <= weight ms.
Proof. induction ms as [|msg ms IH]; cbn [fold_right]; [lia|]; pose proof (zlen_nonneg (out_data msg)); lia. Qed.

Lemma flight_left_at d msg : 0 <= outgoing_written d -> outgoing_messages d !! Z.to_nat (outgoing_written d) = Some msg ->
  flight_left d = 1 + zlen (out_data msg) + weight (zdrop (outgoing_written d + 1) (outgoing_messages d)) - outgoing_offset d.
Proof.
  intros Hw Hm; unfold flight_left, zdrop; rewrite (drop_S _ _ _ Hm); cbn [fold_right]; do 4 f_equal; lia.
Qed.

Lemma flight_left_nonneg d : position_valid d -> 0 <= flight_left d.
Proof.
  intros (Hw & _ & Ho & _ & Hpos); destruct (Z.eq_dec (outgoing_offset d) 0) as [E|E].
  - unfold flight_left; rewrite E; pose proof (weight_nonneg (zdrop (outgoing_written d) (outgoing_messages d))); lia.
  - destruct (Hpos E) as (msg & Em & _ & Hl); rewrite (flight_left_at d msg ltac:(lia) Em).
    pose proof (weight_nonneg (zdrop (outgoing_written d + 1) (outgoing_messages d))); lia.
Qed.

Lemma seal_packet_loop_moves fuel addr : forall packet total made d packet' len d', position_valid d ->
  seal_packet_loop fuel addr packet total made d = (inr (packet', len), d') ->
  position_valid d' /\ flight_left d' + (if made then 0 else 1) <= flight_left d.
Proof.
  induction fuel as [|fuel IH]; intros packet total made d packet' len d' Hd E; cbn [seal_packet_loop] in E.
  { destruct made; [injection E as <- <- <-; split; [exact Hd|lia]|discriminate]. }
  pose proof Hd as (Hw & H7 & Ho & Hf & Hpos); destruct (outgoing_messages d !! _) as [msg|] eqn:Em.
  2: { destruct made; [injection E as <- <- <-; split; [exact Hd|lia]|discriminate]. }
  assert (outgoing_written d < zlen (outgoing_messages d)) as Hlt by (apply lookup_lt_Some in Em; unfold zlen; lia).
  assert (zlen (out_data msg) < 2 ^ 32) as Hl by (rewrite Forall_lookup in Hf; apply (Hf _ _ Em)).
  pose proof (seal_next_message_moves (addr + total) (zdrop total packet) msg d Hl Ho) as Hm; pose proof (flight_left_at d msg ltac:(lia) Em) as El.
  destruct (seal_next_message _ _ _ _) as [[| |bs|bs] d1]; cbn [moves fst snd] in Hm; [discriminate|..].
  - subst d1; destruct made; [injection E as <- <- <-; split; [exact Hd|lia]|discriminate].
  - injection E as <- <- <-; destruct Hm as (E1 & E2 & E3 & E4); rewrite El; split.
    + unfold position_valid; rewrite E1, E2; repeat (split; [first [assumption|lia]|]); intros _; exists msg; split; [exact Em|split; [exact E3|lia]].
    + rewrite (flight_left_at d1 msg), E1, E2 by (rewrite ?E1, ?E2; first [lia|exact Em]); destruct made; lia.
  - destruct Hm as (E1 & E2 & E3).
    assert (outgoing_offset d1 = 0 /\ outgoing_offset d <= zlen (out_data msg)) as [E0 Hoff].
    { pose proof (zlen_nonneg (out_data msg)); destruct (Z.eq_dec (outgoing_offset d) 0) as [Ez|Ez]; [destruct (out_is_ccs msg); lia|].
      destruct (Hpos Ez) as (msg' & Em' & Ec & Hle); assert (msg' = msg) as -> by congruence; rewrite Ec in E3; lia. }
    apply IH in E as [Hd' Hleft]; rewrite E2, (uw_small 8) in * by lia.
    + split; [exact Hd'|]; rewrite El; unfold flight_left at 2 in Hleft; cbn [with_position outgoing_written outgoing_messages outgoing_offset] in Hleft.
      rewrite E1, E0 in Hleft; destruct made; lia.
    + unfold position_valid; cbn [with_position outgoing_written outgoing_messages outgoing_offset]; rewrite E1, E0.
      repeat (split; [first [assumption|lia]|]); intros []; reflexivity.
Qed.

Lemma send_packets_ends fuel addr : forall packet bio d, position_valid d -> flight_left d < Z.of_nat fuel ->
  is_Some (send_packets fuel addr packet bio d).
Proof.
  induction fuel as [|fuel IH]; intros packet bio d Hd Hf; [pose proof (flight_left_nonneg d Hd); lia|]; cbn [send_packets].
  case_if; [destruct (bio_flush bio); eauto|]; unfold seal_next_packet; destruct (seal_packet_loop _ _ _ _ _ _) as [[e|[packet' len]] d1] eqn:E; [eauto|].
  apply seal_packet_loop_moves in E as [Hd1 Hl]; [|exact Hd]; destruct (bio_write bio _) as [r bio1]; case_if; [eauto|]; apply IH; [exact Hd1|lia].
Qed.

Lemma update_mtu_position no_query bio d : position_valid d -> position_valid (snd (dtls1_update_mtu no_query bio d)).
Proof. intros Hd; unfold dtls1_update_mtu; repeat case_match; exact Hd. Qed.

(** The call ends, whatever the BIO and the AEAD do. *)
Lemma send_flight_ends shutdown no_query addr bio d : position_valid d ->
  exists r bio' d', send_flight shutdown no_query addr (Some bio) d = Some (r, Some bio', d') /\ fixed_part d' = fixed_part d.
Proof.
  intros Hd; unfold send_flight; destruct shutdown; [|eauto 10..]; apply (update_mtu_position no_query bio) in Hd; pose proof (update_mtu_fixed no_query bio d) as Hfix.
  destruct (dtls1_update_mtu no_query bio d) as [bio1 d1]; cbn [snd] in *; destruct (if mtu d1 =? 0 then _ else _) as [packet|]; [|eauto 10].
  pose proof (flight_left_nonneg d1 Hd).
  destruct (send_packets_ends (Datatypes.S (Z.to_nat (flight_left d1))) addr packet bio1 d1 Hd ltac:(lia)) as [[[ret bio2] d2] E]; rewrite E.
  exists ret, bio2, d2; split; [reflexivity|]; now rewrite (send_packets_fixed _ _ _ _ _ _ _ _ E).
Qed.

(** A positive result says that every message has been written. *)
Lemma send_packets_all fuel addr : forall packet bio d r bio' d', send_packets fuel addr packet bio d = Some (r, bio', d') -> 0 < r ->
  zlen (outgoing_messages d') <= outgoing_written d'.
Proof.
  induction fuel as [|fuel IH]; intros packet bio d r bio' d' E Hr; cbn [send_packets] in E; [discriminate|].
  destruct (Z.leb_spec (zlen (outgoing_messages d)) (outgoing_written d)) as [Hle|_]; [destruct (bio_flush bio); now injection E as _ _ <-|].
  destruct (seal_next_packet _ _ _) as [[e|[packet' len]] d1]; [injection E as <- _ _; lia|]; destruct (bio_write bio _) as [w bio1].
  destruct (Z.leb_spec w 0); [injection E as <- _ _; lia|]; now apply IH in E.
Qed.

Lemma send_flight_all shutdown no_query addr bio d r bio' d' : send_flight shutdown no_query addr (Some bio) d = Some (r, bio', d') -> 0 < r ->
  zlen (outgoing_messages d') <= outgoing_written d'.
Proof.
  unfold send_flight; intros E Hr; destruct shutdown; [|injection E as <- _ _; lia..]; destruct (dtls1_update_mtu no_query bio d) as [bio1 d1].
  destruct (if mtu d1 =? 0 then _ else _); [|injection E as <- _ _; lia]; destruct (send_packets _ _ _ _ _) as [[[ret bio2] d2]|] eqn:Es; [|discriminate].
  injection E as -> _ ->; now apply send_packets_all in Es.
Qed.

(** * Timeouts *)

(** The interval after [k] timeouts. *)
Definition backoff (initial : Z) (k : nat) : Z := Z.min 60000 (initial * 2 ^ Z.of_nat k).

(** The timer [k] timeouts after its start, last set at [now]. *)
Definition timer_after (initial : Z) (k : nat) (now : OPENSSL_timeval) : dtls_timer :=
  {| num_timeouts := Z.of_nat k; next_timeout := after now (backoff initial k); timeout_duration_ms := backoff initial k |}.

(** At [now] the timer set at [since] is due, up to fifteen milliseconds. *)
Definition due (initial : Z) (k : nat) (since now : OPENSSL_timeval) : Prop := micros since + backoff initial k * 1000 - micros now < 15000.

#[export] Instance due_dec initial k since now : Decision (due initial k since now).
Proof. unfold due; apply _. Defined.

Lemma backoff_bound initial k : 1 <= initial -> 1 <= backoff initial k <= 60000.
Proof. intros Hi; unfold backoff; assert (1 <= 2 ^ Z.of_nat k) by (pose proof (Z.pow_pos_nonneg 2 (Z.of_nat k)); lia); nia. Qed.

Lemma backoff_next initial k : 1 <= initial -> Z.min 60000 (backoff initial k * 2) = backoff initial (Datatypes.S k).
Proof. intros Hi; unfold backoff; rewrite Nat2Z.inj_succ, Z.pow_succ_r by lia; lia. Qed.

Lemma timer_after_set initial k now : 1 <= initial -> time_ok now -> timer_is_set (timer_after initial k now) = true.
Proof.
  intros Hi [Hs Hu]; pose proof (backoff_bound initial k Hi) as Hb; pose proof (after_micros now (backoff initial k)) as E.
  unfold timer_is_set; apply negb_true_iff, not_true_is_false; cbn [next_timeout timer_after]; intros H; apply andb_true_iff in H as [H1%Z.eqb_eq H2%Z.eqb_eq].
  unfold micros at 1 in E; rewrite H1, H2 in E; unfold micros in E; lia.
Qed.

Lemma timer_after_expired initial k since now : 1 <= initial -> time_ok since -> time_ok now ->
  micros since + backoff initial k * 1000 - micros now < INT_MAX * 1000000 ->
  dtls1_is_timer_expired now (timer_after initial k since) = bool_decide (due initial k since now).
Proof.
  intros Hi Hs Hn Hmax; pose proof (backoff_bound initial k Hi) as Hb; rewrite timer_expired_spec; cbn [next_timeout timer_after]; rewrite ?after_micros; auto.
  - unfold due; case_bool_decide; [now apply Z.ltb_lt|now apply Z.ltb_ge, Z.nlt_ge].
  - apply after_ok; [exact Hs|lia].
  - now apply timer_after_set.
Qed.

(** The messages of a flight, as [add_outgoing] leaves them. *)
Definition messages_ok (ms : list DTLS_OUTGOING_MESSAGE) : Prop := zlen ms <= 7 /\ Forall (fun msg => zlen (out_data msg) < 2 ^ 32) ms.

(** The BIO and the MTU at the timeout after [k] others: from the third on the
    BIO is asked for the MTU to fall back to. *)
Definition fallback (no_query : bool) (k : nat) (bio : B) d : B * DTLS1_STATE S :=
  if (2 <=? Z.of_nat k) && negb no_query
  then (snd (bio_fallback_mtu bio), if mtu_acceptable (fst (bio_fallback_mtu bio)) then with_mtu d (fst (bio_fallback_mtu bio)) else d)
  else (bio, d).

Lemma fallback_fixed no_query k bio d : fixed_part (snd (fallback no_query k bio d)) = fixed_part d.
Proof. unfold fallback; repeat case_if; reflexivity. Qed.

Lemma check_timeout_counts no_query bio d k next dur : (k < 100)%nat -> timer d = {| num_timeouts := Z.of_nat k; next_timeout := next; timeout_duration_ms := dur |} ->
  dtls1_check_timeout_num no_query bio d =
    (negb (DTLS1_MAX_TIMEOUTS <? Z.of_nat (Datatypes.S k)), fst (fallback no_query k bio d),
     with_timer (snd (fallback no_query k bio d)) {| num_timeouts := Z.of_nat (Datatypes.S k); next_timeout := next; timeout_duration_ms := dur |}).
Proof.
  intros Hk Ht; unfold dtls1_check_timeout_num.
  assert (count_timeout d = with_timer d {| num_timeouts := Z.of_nat (Datatypes.S k); next_timeout := next; timeout_duration_ms := dur |}) as ->
    by (unfold count_timeout; rewrite Ht; cbn [num_timeouts next_timeout timeout_duration_ms]; rewrite uw_small by lia; do 2 f_equal; lia).
  cbn [with_timer timer num_timeouts]; unfold fallback, DTLS1_MTU_TIMEOUTS.
  replace (2 <? Z.of_nat (Datatypes.S k)) with (2 <=? Z.of_nat k) by (destruct (Z.leb_spec 2 (Z.of_nat k)), (Z.ltb_spec 2 (Z.of_nat (Datatypes.S k))); lia).
  destruct (_ && _); [|reflexivity]; destruct (bio_fallback_mtu bio) as [n bio1]; cbn [fst snd]; now destruct (mtu_acceptable n).
Qed.

(** What a timeout that is due does, [k] others having passed: it sends the whole
    flight again, from its first byte, with the timer set for the next interval. *)
Definition resend (initial : Z) (shutdown : ssl_shutdown_t) (no_query : bool) (addr : Z) (k : nat) (now : OPENSSL_timeval) (bio : B) d :
    option (Z * option B * DTLS1_STATE S) :=
  send_flight shutdown no_query addr (Some (fst (fallback no_query k bio d)))
    (with_position (with_timer (snd (fallback no_query k bio d)) (timer_after initial (Datatypes.S k) now)) 0 0).

Lemma handle_timeout_resends initial k since now shutdown no_query addr bio d : 1 <= initial -> (k < 12)%nat -> time_ok since -> time_ok now ->
  due initial k since now -> timer d = timer_after initial k since ->
  DTLSv1_handle_timeout initial now shutdown no_query addr bio d = resend initial shutdown no_query addr k now bio d.
Proof.
  intros Hi Hk Hs Hn Hdue Ht; unfold DTLSv1_handle_timeout; rewrite Ht, timer_after_expired, bool_decide_true by (auto; unfold due, INT_MAX in *; lia).
  cbn [negb]; rewrite (check_timeout_counts no_query bio d k _ _ ltac:(lia) Ht), (proj2 (Z.ltb_ge DTLS1_MAX_TIMEOUTS _)) by (unfold DTLS1_MAX_TIMEOUTS; lia).
  cbn [negb]; unfold dtls1_retransmit_outgoing_messages, resend; do 2 f_equal; cbn [with_timer timer d1_in d1_out outgoing_messages outgoing_written outgoing_offset handshake_write_seq mtu].
  unfold with_timer at 1; cbn [d1_in d1_out outgoing_messages outgoing_written outgoing_offset handshake_write_seq mtu]; unfold with_timer; f_equal.
  pose proof (backoff_bound initial k Hi) as Hb; pose proof (backoff_next initial k Hi) as Hnx; pose proof (backoff_bound initial (Datatypes.S k) Hi) as Hb'.
  pose proof (timer_after_set initial k since Hi Hs) as Hset; unfold timer_is_set in Hset; cbn [timer_after next_timeout] in Hset.
  set (t2 := dtls1_double_timeout _); assert (timer_is_set t2 = true) as Hset2 by exact Hset.
  assert (timeout_duration_ms t2 = backoff initial (Datatypes.S k)) as Ed.
  { cbn [t2 dtls1_double_timeout timeout_duration_ms]; rewrite uw_small by lia; rewrite <- Hnx; destruct (Z.ltb_spec 60000 (backoff initial k * 2)); lia. }
  rewrite start_timer_next by (auto; rewrite Hset2, Ed; lia); rewrite Hset2, Ed; reflexivity.
Qed.

(** The call ends. *)
Lemma resend_ends initial shutdown no_query addr k now bio d : messages_ok (outgoing_messages d) ->
  exists r bio' d', resend initial shutdown no_query addr k now bio d = Some (r, Some bio', d') /\
    fixed_part d' = (timer_after initial (Datatypes.S k) now, outgoing_messages d).
Proof.
  intros [Hm1 Hm2]; pose proof (fallback_fixed no_query k bio d) as [= _ Em]; unfold resend; set (d2 := with_position _ 0 0).
  assert (position_valid d2) as Hv.
  { unfold position_valid, d2; cbn [with_position with_timer outgoing_messages outgoing_written outgoing_offset]; rewrite Em; pose proof (zlen_nonneg (outgoing_messages d)).
    repeat (split; [first [assumption|lia]|]); intros []; reflexivity. }
  destruct (send_flight_ends shutdown no_query addr (fst (fallback no_query k bio d)) d2 Hv) as (r & bio' & d' & E & Hfix); exists r, bio', d'; split; [exact E|].
  rewrite Hfix; unfold fixed_part, d2; cbn [with_position with_timer timer outgoing_messages]; now rewrite Em.
Qed.

(** A call before the time does nothing. *)
Lemma handle_timeout_early initial k since now shutdown no_query addr bio d : 1 <= initial -> time_ok since -> time_ok now ->
  ~ due initial k since now -> micros since <= micros now -> timer d = timer_after initial k since ->
  DTLSv1_handle_timeout initial now shutdown no_query addr bio d = Some (0, Some bio, d).
Proof.
  intros Hi Hs Hn Hdue Hle Ht; pose proof (backoff_bound initial k Hi) as Hb; unfold DTLSv1_handle_timeout.
  rewrite Ht, timer_after_expired, bool_decide_false by (auto; unfold INT_MAX; lia); reflexivity.
Qed.

(** The thirteenth timeout is an error, and nothing is sent. *)
Lemma handle_timeout_last initial since now shutdown no_query addr bio d : 1 <= initial -> time_ok since -> time_ok now ->
  due initial 12 since now -> timer d = timer_after initial 12 since ->
  exists d', DTLSv1_handle_timeout initial now shutdown no_query addr bio d = Some (-1, Some (if no_query then bio else snd (bio_fallback_mtu bio)), d').
Proof.
  intros Hi Hs Hn Hdue Ht; unfold DTLSv1_handle_timeout; rewrite Ht, timer_after_expired, bool_decide_true by (auto; unfold due, INT_MAX in *; lia).
  cbn [negb]; rewrite (check_timeout_counts no_query bio d 12 _ _ ltac:(lia) Ht); eexists; unfold fallback; cbn [negb]; now destruct no_query.
Qed.

(** * Sequences of timeouts *)

Fixpoint handle_timeouts (initial : Z) (shutdown : ssl_shutdown_t) (no_query : bool) (addr : Z) (nows : list OPENSSL_timeval) (bio : B) d :
    option (list Z * B * DTLS1_STATE S) :=
  match nows with
  | [] => Some ([], bio, d)
  | now :: nows =>
      match DTLSv1_handle_timeout initial now shutdown no_query addr bio d with
      | Some (r, Some bio, d) => rs ← handle_timeouts initial shutdown no_query addr nows bio d; let '(rs, bio, d) := rs in Some (r :: rs, bio, d)
      | _ => None
      end
  end.

(** Each call comes when the timer of the one before is due. *)
Fixpoint all_due (initial : Z) (k : nat) (since : OPENSSL_timeval) (nows : list OPENSSL_timeval) : Prop :=
  match nows with
  | [] => True
  | now :: nows => due initial k since now /\ all_due initial (Datatypes.S k) now nows
  end.

Lemma last_step (nows : list OPENSSL_timeval) : forall now since, List.last (now :: nows) since = List.last nows now.
Proof.
  induction nows as [|n nows IH]; intros now since; [reflexivity|]; change (List.last (now :: n :: nows) since) with (List.last (n :: nows) since).
  now rewrite !IH.
Qed.

Lemma last_ok nows : Forall time_ok nows -> forall t0, time_ok t0 -> time_ok (List.last nows t0).
Proof. induction 1 as [|now nows Hn _ IH]; intros t0 H0; [exact H0|]; rewrite last_step; now apply IH. Qed.

(** The timeouts send the flight again one after the other; a positive result is
    that of a flight that has been written to its end. *)
Inductive resends (initial : Z) (shutdown : ssl_shutdown_t) (no_query : bool) (addr : Z) :
    nat -> list OPENSSL_timeval -> B -> DTLS1_STATE S -> list Z -> B -> DTLS1_STATE S -> Prop :=
  | resends_nil k bio d : resends initial shutdown no_query addr k [] bio d [] bio d
  | resends_cons k now nows bio d r bio1 d1 rs bio' d' :
      resend initial shutdown no_query addr k now bio d = Some (r, Some bio1, d1) ->
      (0 < r -> zlen (outgoing_messages d1) <= outgoing_written d1) ->
      resends initial shutdown no_query addr (Datatypes.S k) nows bio1 d1 rs bio' d' ->
      resends initial shutdown no_query addr k (now :: nows) bio d (r :: rs) bio' d'.

Lemma handle_timeouts_spec initial shutdown no_query addr nows : 1 <= initial -> Forall time_ok nows -> forall k since bio d, time_ok since ->
  (k + length nows <= 12)%nat -> all_due initial k since nows -> timer d = timer_after initial k since -> messages_ok (outgoing_messages d) ->
  exists rs bio' d', handle_timeouts initial shutdown no_query addr nows bio d = Some (rs, bio', d') /\
    resends initial shutdown no_query addr k nows bio d rs bio' d' /\
    fixed_part d' = (timer_after initial (k + length nows) (List.last nows since), outgoing_messages d).
Proof.
  intros Hi Hnows; induction Hnows as [|now nows Hn _ IH]; intros k since bio d Hs Hk Hdue Ht Hm; cbn [handle_timeouts length all_due] in *.
  { exists [], bio, d; split; [reflexivity|]; split; [constructor|]; unfold fixed_part; rewrite Ht, Nat.add_0_r; reflexivity. }
  destruct Hdue as [Hd Hdue]; rewrite (handle_timeout_resends initial k since) by (auto; lia).
  destruct (resend_ends initial shutdown no_query addr k now bio d Hm) as (r & bio1 & d1 & E & [= Et Em]); rewrite E.
  destruct (IH (Datatypes.S k) now bio1 d1 Hn ltac:(lia) Hdue Et ltac:(now rewrite Em)) as (rs & bio2 & d2 & -> & Hr & Ef); exists (r :: rs), bio2, d2; split; [reflexivity|].
  split; [econstructor; [exact E|now apply (send_flight_all _ _ _ _ _ _ _ _ E)|exact Hr]|].
  rewrite Ef, Em; replace (Datatypes.S k + length nows)%nat with (k + Datatypes.S (length nows))%nat by lia; do 2 f_equal.
  symmetry; apply last_step.
Qed.

(** C17. From a flight whose timer has just been started: up to twelve timeouts that
    are each handled when due send the flight again, each call being [send_flight]
    from the first byte of the same messages and a positive result meaning that all
    of them were written, and set the timer again, the interval after the k-th
    being the initial one times 2^k, at most a minute; from the third on the MTU
    falls back to what the BIO says. Every call returns. A call before the time
    changes nothing and sends nothing; the thirteenth timeout is an error and sends
    nothing. *)
Theorem dtls_timeout_backoff initial shutdown no_query addr nows bio d t0 :
  1 <= initial <= 60000 -> time_ok t0 -> Forall time_ok nows -> (length nows <= 12)%nat -> messages_ok (outgoing_messages d) ->
  timer d = dtls1_start_timer initial t0 (dtls1_stop_timer initial) -> all_due initial 0 t0 nows ->
  let k := length nows in
  let last := List.last nows t0 in
  exists rs bio' d', handle_timeouts initial shutdown no_query addr nows bio d = Some (rs, bio', d') /\
    resends initial shutdown no_query addr 0 nows bio d rs bio' d' /\ outgoing_messages d' = outgoing_messages d /\
    timer d' = {| num_timeouts := Z.of_nat k; next_timeout := after last (backoff initial k); timeout_duration_ms := backoff initial k |} /\
    forall now, time_ok now ->
      (~ due initial k last now -> micros last <= micros now ->
        DTLSv1_handle_timeout initial now shutdown no_query addr bio' d' = Some (0, Some bio', d')) /\
      (k = 12%nat -> due initial k last now -> exists d'',
        DTLSv1_handle_timeout initial now shutdown no_query addr bio' d' = Some (-1, Some (if no_query then bio' else snd (bio_fallback_mtu bio')), d'')).
Proof.
  intros Hi H0 Hnows Hk Hm Ht Hdue k last.
  assert (timer d = timer_after initial 0 t0) as Ht0.
  { rewrite Ht, start_timer_next by (auto; cbn; lia); unfold timer_after; cbn [timer_is_set dtls1_stop_timer next_timeout tv_sec tv_usec Z.eqb andb negb num_timeouts].
    replace (backoff initial 0) with initial by (unfold backoff; cbn; lia); reflexivity. }
  destruct (handle_timeouts_spec initial shutdown no_query addr nows ltac:(lia) Hnows 0 t0 bio d H0 Hk Hdue Ht0 Hm) as (rs & bio' & d' & E & Hr & [= Et Em]).
  assert (time_ok last) as Hlast by now apply last_ok.
  exists rs, bio', d'; split; [exact E|]; split; [exact Hr|]; split; [exact Em|]; split; [exact Et|]; intros now Hnow; split.
  - intros Hnd Hle; apply (handle_timeout_early initial k last); auto; lia.
  - intros E12 Hd; apply (handle_timeout_last initial last); auto; [lia|rewrite <- E12; exact Hd|rewrite Et; fold k; now rewrite E12].
Qed.
End Timer.

(** * Witness *)

Definition first_flush : OPENSSL_timeval := {| tv_sec := 100; tv_usec := 500000 |}.

Lemma dtls_timeout_backoff_witness :
  exists bio' d', handle_timeouts (HA := allocator_total) (HR := sample_random) (DB := perfect_bio) 1000 ssl_shutdown_none true 4096
      [{| tv_sec := 101; tv_usec := 490000 |}; {| tv_sec := 103; tv_usec := 600000 |}] tt
      (with_timer sample_flight (dtls1_start_timer 1000 first_flush no_timer)) = Some ([1; 1], bio', d') /\
    timer d' = {| num_timeouts := 2; next_timeout := {| tv_sec := 107; tv_usec := 600000 |}; timeout_duration_ms := 4000 |}.
Proof.
  destruct (dtls_timeout_backoff (HA := allocator_total) (HR := sample_random) (DB := perfect_bio) 1000 ssl_shutdown_none true 4096
      [{| tv_sec := 101; tv_usec := 490000 |}; {| tv_sec := 103; tv_usec := 600000 |}] tt
      (with_timer sample_flight (dtls1_start_timer 1000 first_flush no_timer)) first_flush) as (rs & bio' & d' & E & _ & _ & Et & _).
  - lia.
  - split; cbn; lia.
  - repeat apply List.Forall_cons; try apply List.Forall_nil; split; cbn; lia.
  - cbn; lia.
  - split; [vm_compute; congruence|]; repeat apply List.Forall_cons; try apply List.Forall_nil; vm_compute; reflexivity.
  - reflexivity.
  - repeat split; vm_compute; reflexivity.
  - assert (rs = [1; 1]) as -> by (apply (f_equal (option_map (fun x => fst (fst x)))) in E; vm_compute in E; injection E as <-; reflexivity).
    exists bio', d'; split; [exact E|exact Et].
Defined.
