(* ===== verification/CipherList.v ===== *)
(** The language of cipher rules (ssl/ssl_cipher.cc, lines 480-570 and
    676-1277): the doubly linked list of suites that the rules reorder, the
    parser of a rule string and the list it makes.

    A text is a list of characters without the NUL that ends it. The nodes are an
    array; a pointer to a node is its index, a NULL pointer is
    [None], and reading through a NULL pointer makes an operation [None]. The
    parser is written over the class [CipherOrder], the operations it uses on the
    list: the linked list is one instance, its specification is another. *)

From Stdlib Require Import Ascii String.
From S2P Require Import Prelude Mem ErrString Stack Words Md32 Sha256 Sha512 Sha1 Md5 Digest SslVersions SslCipher.

Local Open Scope string_scope.
Local Open Scope Z_scope.

Definition CIPHER_ADD : Z := 1.
Definition CIPHER_KILL : Z := 2.
Definition CIPHER_DEL : Z := 3.
Definition CIPHER_ORD : Z := 4.
Definition CIPHER_SPECIAL : Z := 5.

Definition ERR_R_MALLOC_FAILURE : Z := Z.lor 1 64.
Definition SSL_R_INVALID_COMMAND : Z := 158.
Definition SSL_R_MIXED_SPECIAL_OPERATOR_WITH_GROUPS : Z := 168.
Definition SSL_R_NO_CIPHER_MATCH : Z := 177.
Definition SSL_R_UNEXPECTED_OPERATOR_IN_GROUP : Z := 224.

(** * Aliases *)

Record CIPHER_ALIAS : Type := alias {
  alias_name : string;
  alias_mkey : Z;
  alias_auth : Z;
  alias_enc : Z;
  alias_mac : Z;
  alias_min_version : Z;
  include_deprecated : bool
}.

Definition u32_max : Z := 2 ^ 32 - 1.

Definition kCipherAliases : list CIPHER_ALIAS :=
  [alias "ALL" u32_max u32_max u32_max u32_max 0 false;
   alias "kRSA" SSL_kRSA u32_max u32_max u32_max 0 false;
   alias "kECDHE" SSL_kECDHE u32_max u32_max u32_max 0 false;
   alias "kEECDH" SSL_kECDHE u32_max u32_max u32_max 0 false;
   alias "ECDH" SSL_kECDHE u32_max u32_max u32_max 0 false;
   alias "kPSK" SSL_kPSK u32_max u32_max u32_max 0 false;
   alias "aRSA" u32_max SSL_aRSA u32_max u32_max 0 false;
   alias "aECDSA" u32_max SSL_aECDSA u32_max u32_max 0 false;
   alias "ECDSA" u32_max SSL_aECDSA u32_max u32_max 0 false;
   alias "aPSK" u32_max SSL_aPSK u32_max u32_max 0 false;
   alias "ECDHE" SSL_kECDHE u32_max u32_max u32_max 0 false;
   alias "EECDH" SSL_kECDHE u32_max u32_max u32_max 0 false;
   alias "RSA" SSL_kRSA SSL_aRSA u32_max u32_max 0 false;
   alias "PSK" SSL_kPSK SSL_aPSK u32_max u32_max 0 false;
   alias "3DES" u32_max u32_max SSL_3DES u32_max 0 true;
   alias "AES128" u32_max u32_max (Z.lor SSL_AES128 SSL_AES128GCM) u32_max 0 false;
   alias "AES256" u32_max u32_max (Z.lor SSL_AES256 SSL_AES256GCM) u32_max 0 false;
   alias "AES" u32_max u32_max SSL_AES u32_max 0 false;
   alias "AESGCM" u32_max u32_max (Z.lor SSL_AES128GCM SSL_AES256GCM) u32_max 0 false;
   alias "CHACHA20" u32_max u32_max SSL_CHACHA20POLY1305 u32_max 0 false;
   alias "SHA1" u32_max u32_max u32_max SSL_SHA1 0 false;
   alias "SHA" u32_max u32_max u32_max SSL_SHA1 0 false;
   alias "SSLv3" u32_max u32_max u32_max u32_max SSL3_VERSION false;
   alias "TLSv1" u32_max u32_max u32_max u32_max SSL3_VERSION false;
   alias "TLSv1.2" u32_max u32_max u32_max u32_max TLS1_2_VERSION false;
   alias "HIGH" u32_max u32_max u32_max u32_max 0 false;
   alias "FIPS" u32_max u32_max u32_max u32_max 0 false;
   alias "SHA256" 0 0 0 0 0 false;
   alias "SHA384" 0 0 0 0 0 false].

(** * The linked list *)

(** What a node says of its suite. *)
Record entry : Type := { cipher_of : SSL_CIPHER; active : bool; in_group : bool }.

Record CIPHER_ORDER : Type := { co : entry; next : option nat; prev : option nat }.

Record order_list : Type := { co_list : list CIPHER_ORDER; head : option nat; tail : option nat }.

Definition set_head (st : order_list) (p : option nat) : order_list := {| co_list := co_list st; head := p; tail := tail st |}.
Definition set_tail (st : order_list) (p : option nat) : order_list := {| co_list := co_list st; head := head st; tail := p |}.

Definition set_next (p : option nat) (n : CIPHER_ORDER) : CIPHER_ORDER := {| co := co n; next := p; prev := prev n |}.
Definition set_prev (p : option nat) (n : CIPHER_ORDER) : CIPHER_ORDER := {| co := co n; next := next n; prev := p |}.
Definition set_active (b : bool) (n : CIPHER_ORDER) : CIPHER_ORDER :=
  {| co := {| cipher_of := cipher_of (co n); active := b; in_group := in_group (co n) |}; next := next n; prev := prev n |}.
Definition set_in_group (b : bool) (n : CIPHER_ORDER) : CIPHER_ORDER :=
  {| co := {| cipher_of := cipher_of (co n); active := active (co n); in_group := b |}; next := next n; prev := prev n |}.

(** A change of the node [i]. *)
Definition store (i : nat) (f : CIPHER_ORDER -> CIPHER_ORDER) (st : order_list) : option order_list :=
  match co_list st !! i with
  | None => None
  | Some n => Some {| co_list := <[i := f n]> (co_list st); head := head st; tail := tail st |}
  end.

(** A change of the node that the pointer [p] leads to, if it is not NULL. *)
Definition store_if (p : option nat) (f : CIPHER_ORDER -> CIPHER_ORDER) (st : order_list) : option order_list :=
  match p with None => Some st | Some i => store i f st end.

Definition ll_append_tail (curr : nat) (st : order_list) : option order_list :=
  if bool_decide (Some curr = tail st) then Some st
  else
    n ← co_list st !! curr;
    let st := if bool_decide (Some curr = head st) then set_head st (next n) else st in
    st ← store_if (prev n) (set_next (next n)) st;
    n ← co_list st !! curr;
    st ← store_if (next n) (set_prev (prev n)) st;
    t ← tail st;
    st ← store t (set_next (Some curr)) st;
    st ← store curr (set_prev (tail st)) st;
    st ← store curr (set_next None) st;
    Some (set_tail st (Some curr)).

Definition ll_append_head (curr : nat) (st : order_list) : option order_list :=
  if bool_decide (Some curr = head st) then Some st
  else
    n ← co_list st !! curr;
    let st := if bool_decide (Some curr = tail st) then set_tail st (prev n) else st in
    st ← store_if (next n) (set_prev (prev n)) st;
    n ← co_list st !! curr;
    st ← store_if (prev n) (set_next (next n)) st;
    h ← head st;
    st ← store h (set_prev (Some curr)) st;
    st ← store curr (set_next (head st)) st;
    st ← store curr (set_prev None) st;
    Some (set_head st (Some curr)).

(** The branch of [CIPHER_KILL]. *)
Definition ll_unlink (curr : nat) (st : order_list) : option order_list :=
  n ← co_list st !! curr;
  st ← (if bool_decide (head st = Some curr) then Some (set_head st (next n))
        else p ← prev n; store p (set_next (next n)) st);
  n ← co_list st !! curr;
  let st := if bool_decide (tail st = Some curr) then set_tail st (prev n) else st in
  st ← store curr (set_active false) st;
  n ← co_list st !! curr;
  st ← store_if (next n) (set_prev (prev n)) st;
  n ← co_list st !! curr;
  st ← store_if (prev n) (set_next (next n)) st;
  st ← store curr (set_next None) st;
  store curr (set_prev None) st.

(** * Rules *)

(** Whether a rule selects a suite. [None]: the alias, which is NULL, is used. *)
Definition selects (cipher_id : Z) (al : option CIPHER_ALIAS) (strength_bits : Z) (cp : SSL_CIPHER) : option bool :=
  if negb (cipher_id =? 0) then Some (cipher_id =? id cp)
  else if 0 <=? strength_bits then Some (strength_bits =? fst (SSL_CIPHER_get_bits cp))
  else
    al ← al;
    Some (negb (
      (Z.land (alias_mkey al) (algorithm_mkey cp) =? 0) || (Z.land (alias_auth al) (algorithm_auth cp) =? 0) ||
      (Z.land (alias_enc al) (algorithm_enc cp) =? 0) || (Z.land (alias_mac al) (algorithm_mac cp) =? 0) ||
      (negb (alias_min_version al =? 0) && negb (SSL_CIPHER_get_min_version cp =? alias_min_version al)) ||
      (negb (include_deprecated al) && ssl_cipher_is_deprecated cp))).

(** Whether the rule can select nothing. *)
Definition matches_nothing (cipher_id : Z) (al : option CIPHER_ALIAS) (strength_bits : Z) : option bool :=
  if (cipher_id =? 0) && (strength_bits =? -1) then
    al ← al;
    Some ((alias_min_version al =? 0) &&
          ((alias_mkey al =? 0) || (alias_auth al =? 0) || (alias_enc al =? 0) || (alias_mac al =? 0)))
  else Some false.

(** What the rule does to a selected node. *)
Definition apply_to (rule : Z) (group : bool) (curr : nat) (st : order_list) : option order_list :=
  n ← co_list st !! curr;
  if rule =? CIPHER_ADD then
    if active (co n) then Some st
    else st ← ll_append_tail curr st; st ← store curr (set_active true) st; store curr (set_in_group group) st
  else if rule =? CIPHER_ORD then
    if active (co n) then st ← ll_append_tail curr st; store curr (set_in_group false) st else Some st
  else if rule =? CIPHER_DEL then
    if active (co n) then st ← ll_append_head curr st; st ← store curr (set_active false) st; store curr (set_in_group false) st
    else Some st
  else if rule =? CIPHER_KILL then ll_unlink curr st
  else Some st.

Fixpoint apply_loop (fuel : nat) (select : SSL_CIPHER -> option bool) (rule : Z) (group reverse : bool) (last curr nxt : option nat)
    (st : order_list) : option order_list :=
  match fuel with
  | O => None
  | S fuel =>
      if bool_decide (curr = last) then Some st
      else
        match nxt with
        | None => Some st
        | Some i =>
            n ← co_list st !! i;
            let nxt := if reverse then prev n else next n in
            b ← select (cipher_of (co n));
            st ← (if b : bool then apply_to rule group i st else Some st);
            apply_loop fuel select rule group reverse last (Some i) nxt st
        end
  end.

Definition ssl_cipher_apply_rule (cipher_id : Z) (al : option CIPHER_ALIAS) (rule strength_bits : Z) (group : bool) (st : order_list) :
    option order_list :=
  nothing ← matches_nothing cipher_id al strength_bits;
  if nothing : bool then Some st
  else
    let reverse := rule =? CIPHER_DEL in
    let '(nxt, last) := if reverse then (tail st, head st) else (head st, tail st) in
    apply_loop (S (length (co_list st))) (selects cipher_id al strength_bits) rule group reverse last None nxt st.

(** The nodes from [p] on. *)
Fixpoint walk (fuel : nat) (p : option nat) (st : order_list) : option (list entry) :=
  match fuel with
  | O => None
  | S fuel =>
      match p with
      | None => Some []
      | Some i => n ← co_list st !! i; rest ← walk fuel (next n) st; Some (co n :: rest)
      end
  end.

(** * The operations of the parser *)

Class CipherOrder (L : Type) : Type := {
  apply_rule : Z -> option CIPHER_ALIAS -> Z -> Z -> bool -> L -> option L;
  end_group : L -> option L;
  entries : L -> option (list entry)
}.

#[export] Instance linked_order : CipherOrder order_list := {|
  apply_rule := ssl_cipher_apply_rule;
  end_group := fun st => store_if (tail st) (set_in_group false) st;
  entries := fun st => walk (S (length (co_list st))) (head st) st
|}.

Section Rules.
  Context {HA : Allocator} {L : Type} {CO : CipherOrder L}.

(** The strength of a suite, and the counts of the strengths in use. *)
Definition strength (e : entry) : Z := fst (SSL_CIPHER_get_bits (cipher_of e)).

Definition max_strength (es : list entry) : Z :=
  fold_left (fun m e => if active e && (m <? strength e) then strength e else m) es 0.

Definition count_uses (es : list entry) (uses : list Z) : list Z :=
  fold_left (fun uses e => if active e then <[Z.to_nat (strength e) := znth uses (strength e) + 1]> uses else uses) es uses.

(** From the strength [n] - 1 down to 0. *)
Fixpoint order_by_strength (uses : list Z) (n : nat) (st : L) : option L :=
  match n with
  | O => Some st
  | S n =>
      st ← (if 0 <? znth uses (Z.of_nat n) then apply_rule 0 None CIPHER_ORD (Z.of_nat n) false st else Some st);
      order_by_strength uses n st
  end.

(** The inner [None] is the failure of the allocation of the counts. *)
Definition ssl_cipher_strength_sort (st : L) : option (option L) :=
  es ← entries st;
  let max_strength_bits := max_strength es in
  if negb (malloc_ok (4 * (max_strength_bits + 1))) then Some None
  else
    let number_uses := count_uses es (zrep (max_strength_bits + 1) 0) in
    st ← order_by_strength number_uses (Z.to_nat (max_strength_bits + 1)) st; Some (Some st).

(** * The parser *)

Definition is_cipher_list_separator (c : Z) (is_strict : bool) : bool :=
  if c =? 58 then true else negb is_strict && ((c =? 32) || (c =? 59) || (c =? 44)).

(** [rule] is without its NUL. *)
Definition rule_equals (rule buf : list Z) : bool :=
  bool_decide (ztake (zlen buf) (rule ++ [0]) = buf) && (znth (rule ++ [0]) (zlen buf) =? 0).

Definition is_name_char (c : Z) : bool := OPENSSL_isalnum c || (c =? 45) || (c =? 46) || (c =? 95).

(** The name at the start of the text, and what follows it. *)
Fixpoint scan_name (l : list Z) : list Z * list Z :=
  match l with
  | c :: l' => if is_name_char c then let '(buf, rest) := scan_name l' in (c :: buf, rest) else ([], l)
  | [] => ([], [])
  end.

(** The character at the start of a text, which ends with a NUL. *)
Definition peek (l : list Z) : Z := match l with c :: _ => c | [] => 0 end.

Definition find_cipher (buf : list Z) : Z :=
  match List.find (fun c => rule_equals (str (name c)) buf || rule_equals (str (standard_name c)) buf) kCiphers with
  | Some c => id c
  | None => 0
  end.

Definition find_alias (buf : list Z) : option CIPHER_ALIAS := List.find (fun a => rule_equals (str (alias_name a)) buf) kCipherAliases.

(** The alias of a rule that has been read so far, and one more name in it. *)
Definition merge_alias (al a : CIPHER_ALIAS) (skip_rule : bool) : CIPHER_ALIAS * bool :=
  let differs := negb (alias_min_version al =? 0) && negb (alias_min_version al =? alias_min_version a) in
  ({| alias_name := alias_name al; alias_mkey := Z.land (alias_mkey al) (alias_mkey a); alias_auth := Z.land (alias_auth al) (alias_auth a);
      alias_enc := Z.land (alias_enc al) (alias_enc a); alias_mac := Z.land (alias_mac al) (alias_mac a);
      alias_min_version := if differs then alias_min_version al else alias_min_version a;
      include_deprecated := include_deprecated al || include_deprecated a |},
   skip_rule || differs).

(** What the loop over the parts of a rule has found: the last name, the suite,
    the alias, whether the rule is to be skipped, and the rest of the text. *)
Record parts : Type := { last_name : list Z; part_id : Z; part_alias : CIPHER_ALIAS; skip_rule : bool; part_rest : list Z }.

(** The outer [None] is the end of the fuel; the sum has the error. *)
Fixpoint read_parts (fuel : nat) (rule : Z) (strict multi : bool) (cipher_id : Z) (al : CIPHER_ALIAS) (skip : bool) (l : list Z) :
    option (Z + parts) :=
  match fuel with
  | O => None
  | S fuel =>
      let '(buf, l) := scan_name l in
      let ch := peek l in
      if zlen buf =? 0 then Some (inl SSL_R_INVALID_COMMAND)
      else if rule =? CIPHER_SPECIAL then
        Some (inr {| last_name := buf; part_id := cipher_id; part_alias := al; skip_rule := skip; part_rest := l |})
      else
        let cipher_id := if negb multi && negb (ch =? 43) then find_cipher buf else cipher_id in
        let found := if cipher_id =? 0 then find_alias buf else None in
        if (cipher_id =? 0) && bool_decide (found = None) && strict then Some (inl SSL_R_INVALID_COMMAND)
        else
          let '(al, skip) :=
            if cipher_id =? 0 then match found with Some a => merge_alias al a skip | None => (al, true) end
            else (al, skip) in
          if negb (ch =? 43)
          then Some (inr {| last_name := buf; part_id := cipher_id; part_alias := al; skip_rule := skip; part_rest := l |})
          else read_parts fuel rule strict true cipher_id al skip (tl l)
  end.

(** The text from the next separator on. *)
Fixpoint skip_to_separator (strict : bool) (l : list Z) : list Z :=
  match l with
  | [] => []
  | c :: l' => if is_cipher_list_separator c strict then l else skip_to_separator strict l'
  end.

(** The operator at the start of a rule outside of a group. *)
Definition operator (ch : Z) : option Z :=
  if ch =? 45 then Some CIPHER_DEL
  else if ch =? 43 then Some CIPHER_ORD
  else if ch =? 33 then Some CIPHER_KILL
  else if ch =? 64 then Some CIPHER_SPECIAL
  else None.

Definition no_alias (rule : Z) : CIPHER_ALIAS :=
  alias EmptyString u32_max u32_max u32_max u32_max 0 (negb (rule =? CIPHER_ADD)).

(** One rule, [l] being the text after its operator. *)
Definition process_rule (rule : Z) (strict group : bool) (l : list Z) (st : L) : option (Z + list Z * L) :=
  p ← read_parts (S (length l)) rule strict false 0 (no_alias rule) false l;
  match p with
  | inl e => Some (inl e)
  | inr p =>
      if rule =? CIPHER_SPECIAL then
        if negb (zlen (last_name p) =? 8) || negb (bool_decide (last_name p = str "STRENGTH")) then Some (inl SSL_R_INVALID_COMMAND)
        else
          st ← ssl_cipher_strength_sort st;
          match st with
          | None => Some (inl ERR_R_MALLOC_FAILURE)
          | Some st => Some (inr (skip_to_separator strict (part_rest p), st))
          end
      else if skip_rule p then Some (inr (part_rest p, st))
      else st ← apply_rule (part_id p) (Some (part_alias p)) rule (-1) group st; Some (inr (part_rest p, st))
  end.

Fixpoint process_rulestr (fuel : nat) (strict group has_group : bool) (l : list Z) (st : L) : option (Z + L) :=
  match fuel with
  | O => None
  | S fuel =>
      match l with
      | [] => Some (if group : bool then inl SSL_R_INVALID_COMMAND else inr st)
      | ch :: l' =>
          if group && (ch =? 93) then st ← end_group st; process_rulestr fuel strict false has_group l' st
          else if group && (ch =? 124) then process_rulestr fuel strict group has_group l' st
          else if group && negb (OPENSSL_isalnum ch) then Some (inl SSL_R_UNEXPECTED_OPERATOR_IN_GROUP)
          else if negb group && (ch =? 91) then process_rulestr fuel strict true true l' st
          else
            let '(rule, l) :=
              match (if group then None else operator ch) with Some rule => (rule, l') | None => (CIPHER_ADD, l) end in
            if has_group && negb (rule =? CIPHER_ADD) then Some (inl SSL_R_MIXED_SPECIAL_OPERATOR_WITH_GROUPS)
            else if is_cipher_list_separator ch strict then process_rulestr fuel strict group has_group (tl l) st
            else
              r ← process_rule rule strict group l st;
              match r with
              | inl e => Some (inl e)
              | inr (l, st) => process_rulestr fuel strict group has_group l st
              end
      end
  end.

Definition ssl_cipher_process_rulestr (rule_str : list Z) (strict : bool) (st : L) : option (Z + L) :=
  process_rulestr (S (length rule_str)) strict false false rule_str st.
End Rules.

(** * The list of a rule string *)

Definition kAESCiphers : list Z :=
  [Z.land TLS1_CK_ECDHE_ECDSA_WITH_AES_128_GCM_SHA256 0xffff; Z.land TLS1_CK_ECDHE_RSA_WITH_AES_128_GCM_SHA256 0xffff;
   Z.land TLS1_CK_ECDHE_ECDSA_WITH_AES_256_GCM_SHA384 0xffff; Z.land TLS1_CK_ECDHE_RSA_WITH_AES_256_GCM_SHA384 0xffff].

Definition kChaChaCiphers : list Z :=
  [Z.land TLS1_CK_ECDHE_ECDSA_WITH_CHACHA20_POLY1305_SHA256 0xffff; Z.land TLS1_CK_ECDHE_RSA_WITH_CHACHA20_POLY1305_SHA256 0xffff;
   Z.land TLS1_CK_ECDHE_PSK_WITH_CHACHA20_POLY1305_SHA256 0xffff].

Definition kLegacyCiphers : list Z :=
  [Z.land TLS1_CK_ECDHE_ECDSA_WITH_AES_128_CBC_SHA 0xffff; Z.land TLS1_CK_ECDHE_RSA_WITH_AES_128_CBC_SHA 0xffff;
   Z.land TLS1_CK_ECDHE_PSK_WITH_AES_128_CBC_SHA 0xffff; Z.land TLS1_CK_ECDHE_ECDSA_WITH_AES_256_CBC_SHA 0xffff;
   Z.land TLS1_CK_ECDHE_RSA_WITH_AES_256_CBC_SHA 0xffff; Z.land TLS1_CK_ECDHE_PSK_WITH_AES_256_CBC_SHA 0xffff;
   Z.land TLS1_CK_ECDHE_RSA_WITH_AES_128_CBC_SHA256 0xffff; Z.land TLS1_CK_RSA_WITH_AES_128_GCM_SHA256 0xffff;
   Z.land TLS1_CK_RSA_WITH_AES_256_GCM_SHA384 0xffff; Z.land TLS1_CK_RSA_WITH_AES_128_SHA 0xffff;
   Z.land TLS1_CK_PSK_WITH_AES_128_CBC_SHA 0xffff; Z.land TLS1_CK_RSA_WITH_AES_256_SHA 0xffff;
   Z.land TLS1_CK_PSK_WITH_AES_256_CBC_SHA 0xffff; Z.land SSL3_CK_RSA_DES_192_CBC3_SHA 0xffff].

(** The suites in the order of preference; [None] is a suite that is not in
    the table. *)
Definition preference (has_aes_hw : bool) : option (list SSL_CIPHER) :=
  mapM SSL_get_cipher_by_value
    ((if has_aes_hw then kAESCiphers else []) ++ kChaChaCiphers ++ (if has_aes_hw then [] else kAESCiphers) ++ kLegacyCiphers).

Definition initial_entry (c : SSL_CIPHER) : entry := {| cipher_of := c; active := false; in_group := false |}.

(** The nodes, linked in the order of the array. *)
Definition initial_list (cs : list SSL_CIPHER) : order_list :=
  let n := length cs in
  {| co_list := imap (fun i c => {| co := initial_entry c; next := if (i + 1 <? n)%nat then Some (i + 1)%nat else None;
                                    prev := if (i =? 0)%nat then None else Some (i - 1)%nat |}) cs;
     head := Some 0%nat; tail := Some (n - 1)%nat |}.

Definition SSL_DEFAULT_CIPHER_LIST : list Z := str "ALL".

(** The rules, [DEFAULT] at the start included. *)
Definition apply_rule_string {HA : Allocator} {L} {CO : CipherOrder L} (rule_str : list Z) (strict : bool) (st : L) : option (Z + L) :=
  r ← (if bool_decide (ztake 7 rule_str = str "DEFAULT") then
         st ← ssl_cipher_process_rulestr SSL_DEFAULT_CIPHER_LIST strict st;
         let rule_p := zdrop 7 rule_str in
         Some (if peek rule_p =? 58 then tl rule_p else rule_p, st)
       else Some (rule_str, inr st));
  match r with
  | (_, inl e) => Some (inl e)
  | ([], inr st) => Some (inr st)
  | (rule_p, inr st) => ssl_cipher_process_rulestr rule_p strict st
  end.

(** A pointer to a suite is its identifier. *)
Record SSLCipherPreferenceList : Type := { ciphers : STACK; in_group_flags : list bool }.

Section Create.
  Context {HA : Allocator}.

Fixpoint push_active (es : list entry) (sk : stack) (flags : list bool) : option (stack * list bool) :=
  match es with
  | [] => Some (sk, flags)
  | e :: es =>
      if active e then
        match OPENSSL_sk_push sk (id (cipher_of e)) with
        | (0, _) | (_, None) => None
        | (_, Some sk) => push_active es sk (flags ++ [in_group e])
        end
      else push_active es sk flags
  end.

(** [sizeof_list] is sizeof(SSLCipherPreferenceList). *)
Variable sizeof_list : Z.

Definition SSLCipherPreferenceList_Init (sk : stack) (flags : list bool) : option SSLCipherPreferenceList :=
  if negb (Stack.num sk =? zlen flags) then None
  else if negb ((zlen flags =? 0) || malloc_ok (zlen flags)) then None
  else Some {| ciphers := Some sk; in_group_flags := flags |}.

(** The copy of another list. *)
Definition SSLCipherPreferenceList_Init_copy (other : SSLCipherPreferenceList) : option SSLCipherPreferenceList :=
  let size := OPENSSL_sk_num (ciphers other) in
  match OPENSSL_sk_dup (ciphers other) with
  | None => None
  | Some other_ciphers => SSLCipherPreferenceList_Init other_ciphers (take (Z.to_nat size) (in_group_flags other))
  end.

(** The outer [None] is undefined behaviour; the result is the return value and
    the list that the function stores. *)
Definition ssl_create_cipher_list (has_aes_hw : bool) (rule_str : list Z) (strict : bool) :
    option (bool * option SSLCipherPreferenceList) :=
  cs ← preference has_aes_hw;
  r ← apply_rule_string rule_str strict (initial_list cs);
  match r with
  | inl _ => Some (false, None)
  | inr st =>
      match OPENSSL_sk_new_null with
      | None => Some (false, None)
      | Some cipherstack =>
          if negb (malloc_ok (zlen kCiphers)) then Some (false, None)
          else
            es ← entries st;
            match push_active es cipherstack [] with
            | None => Some (false, None)
            | Some (cipherstack, flags) =>
                if negb (malloc_ok sizeof_list) then Some (false, None)
                else
                  match SSLCipherPreferenceList_Init cipherstack flags with
                  | None => Some (false, None)
                  | Some pref_list => Some (negb (OPENSSL_sk_num (ciphers pref_list) =? 0), Some pref_list)
                  end
            end
      end
  end.

(** The shift of the flags behind a removed suite. *)
Fixpoint shift_flags (n : nat) (i : nat) (flags : list bool) : list bool :=
  match n with
  | O => flags
  | S n => shift_flags n (S i) (<[i := default false (flags !! S i)]> flags)
  end.

Definition SSLCipherPreferenceList_Remove (call_cmp_func : Z -> Z -> Z -> Z) (l : SSLCipherPreferenceList) (cipher : Z) :
    SSLCipherPreferenceList :=
  match OPENSSL_sk_find call_cmp_func (ciphers l) cipher with
  | None => l
  | Some index =>
      let i := Z.to_nat index in
      let flags := in_group_flags l in
      let flags := if negb (default false (flags !! i)) && (0 <? index) then <[(i - 1)%nat := false]> flags else flags in
      let flags := shift_flags (Z.to_nat (OPENSSL_sk_num (ciphers l) - 1 - index)) i flags in
      {| ciphers := snd (OPENSSL_sk_delete (ciphers l) index); in_group_flags := flags |}
  end.
End Create.
