(* ===== verification/CipherListSpec.v ===== *)
(** What the cipher rules mean (CipherList.v): on a plain list of suites a rule
    filters and moves entries. The linked list of the code implements it, for
    every rule string, without ever following a NULL pointer, and the parser
    ends. *)

From Stdlib Require Import Ascii String.
From S2P Require Import Prelude Mem ErrString Stack StackSpec Words Md32 Sha256 Sha512 Sha1 Md5 Digest SslVersions SslCipher CipherList.

(** * Rules on lists *)

Definition with_active (b g : bool) (e : entry) : entry := {| cipher_of := cipher_of e; active := b; in_group := g |}.

(** The entries that a rule moves, among those it selects, and what it makes of
    them. *)
Definition moves (rule : Z) (e : entry) : bool := if rule =? CIPHER_ADD then negb (active e) else active e.
Definition moved_entry (rule : Z) (group : bool) (e : entry) : entry :=
  if rule =? CIPHER_ADD then with_active true group e
  else if rule =? CIPHER_ORD then with_active (active e) false e
  else with_active false false e.

(** [+] and adding move to the end, [-] to the front, [!] removes. *)
Definition rule_on_list {X} (rule : Z) (group : bool) (select : X -> bool) (get : X -> entry) (put : X -> entry -> X) (l : list X) : list X :=
  let m x := select x && moves rule (get x) in
  let changed := map (fun x => put x (moved_entry rule group (get x))) (List.filter m l) in
  let rest := List.filter (fun x => negb (m x)) l in
  if (rule =? CIPHER_ADD) || (rule =? CIPHER_ORD) then rest ++ changed
  else if rule =? CIPHER_DEL then changed ++ rest
  else if rule =? CIPHER_KILL then List.filter (fun x => negb (select x)) l
  else l.

Definition selected (cipher_id : Z) (al : option CIPHER_ALIAS) (strength_bits : Z) (e : entry) : bool :=
  default false (selects cipher_id al strength_bits (cipher_of e)).

(** The last entry, changed. *)
Fixpoint map_last {X} (f : X -> X) (l : list X) : list X :=
  match l with [] => [] | [x] => [f x] | x :: l => x :: map_last f l end.

Definition list_rule (cipher_id : Z) (al : option CIPHER_ALIAS) (rule strength_bits : Z) (group : bool) (es : list entry) : list entry :=
  if default false (matches_nothing cipher_id al strength_bits) then es
  else rule_on_list rule group (selected cipher_id al strength_bits) (fun e => e) (fun _ e => e) es.

#[export] Instance list_order : CipherOrder (list entry) := {|
  apply_rule := fun cipher_id al rule strength_bits group es => Some (list_rule cipher_id al rule strength_bits group es);
  end_group := fun es => Some (map_last (fun e => with_active (active e) false e) es);
  entries := Some
|}.

(** * Doubly linked lists *)

Definition or_head (l : list (nat * entry)) (q : option nat) : option nat := match l with [] => q | (i, _) :: _ => Some i end.
Fixpoint or_last (l : list (nat * entry)) (p : option nat) : option nat := match l with [] => p | (i, _) :: l => or_last l (Some i) end.

(** The nodes of [l] are linked, [p] is before the first and [q] after the last. *)
Fixpoint chain (ns : list CIPHER_ORDER) (p : option nat) (l : list (nat * entry)) (q : option nat) : Prop :=
  match l with
  | [] => True
  | (i, e) :: l => ns !! i = Some {| co := e; next := or_head l q; prev := p |} /\ chain ns (Some i) l q
  end.

Definition names (l : list (nat * entry)) : list nat := map fst l.

Definition rep (st : order_list) (l : list (nat * entry)) : Prop :=
  chain (co_list st) None l None /\ NoDup (names l) /\ head st = or_head l None /\ tail st = or_last l None.

Lemma or_head_app a b q : or_head (a ++ b) q = or_head a (or_head b q).
Proof. now destruct a as [|[]]. Qed.

Lemma or_last_app a b p : or_last (a ++ b) p = or_last b (or_last a p).
Proof. revert p; induction a as [|[i e] a IH]; intros p; [reflexivity|apply IH]. Qed.

Lemma chain_app ns a b : forall p q, chain ns p (a ++ b) q <-> chain ns p a (or_head b q) /\ chain ns (or_last a p) b q.
Proof.
  induction a as [|[i e] a IH]; intros p q; cbn [app chain or_last]; [tauto|].
  rewrite IH, or_head_app; tauto.
Qed.

Lemma chain_frame ns i n l : i ∉ names l -> forall p q, chain ns p l q -> chain (<[i := n]> ns) p l q.
Proof.
  induction l as [|[j e] l IH]; intros Hi p q; [auto|]; cbn [names map chain] in *; apply not_elem_of_cons in Hi as [Hne Hi].
  intros [H1 H2]; split; [now rewrite list_lookup_insert_ne|now apply IH].
Qed.

(** The names of a list, taken apart. *)
Lemma names_app a b : names (a ++ b) = names a ++ names b.
Proof. apply map_app. Qed.

Lemma or_last_in l p : l <> [] -> exists i, or_last l p = Some i /\ (i ∈ names l).
Proof.
  revert p; induction l as [|[i e] l IH]; intros p Hl; [easy|]; cbn [or_last names map].
  destruct l as [|x l]; [exists i; split; [reflexivity|constructor]|].
  destruct (IH (Some i) ltac:(easy)) as (k & E & Hk); exists k; split; [exact E|now right].
Qed.

(** Changing the link behind the last node, and the one before the first. *)
Lemma chain_set_end ns q q' l : forall p k, NoDup (names l) -> chain ns p l q -> or_last l None = Some k ->
  exists n, ns !! k = Some n /\ chain (<[k := set_next q' n]> ns) p l q'.
Proof.
  induction l as [|[i e] l IH]; intros p k Hnd Hc Hk; [discriminate|]; cbn [names map chain or_last] in *.
  apply NoDup_cons in Hnd as [Hi Hnd]; destruct Hc as [Hn Hc]; destruct l as [|[j ej] l].
  - injection Hk as <-; eexists; split; [exact Hn|]; cbn [chain or_head] in *; split; [|exact I].
    now rewrite list_lookup_insert_eq by (eapply lookup_lt_Some; eauto).
  - assert (or_last ((j, ej) :: l) None = Some k) as Hk' by exact Hk.
    destruct (IH (Some i) k Hnd Hc Hk') as (n & En & Hc'); exists n; split; [exact En|].
    split; [|exact Hc']; destruct (or_last_in ((j, ej) :: l) None ltac:(easy)) as (k' & Ek & Hin).
    rewrite list_lookup_insert_ne; [exact Hn|]; intros ->; assert (k' = i) as -> by congruence; contradiction.
Qed.

Lemma chain_set_start ns p p' q j e l : j ∉ names l -> chain ns p ((j, e) :: l) q ->
  exists n, ns !! j = Some n /\ chain (<[j := set_prev p' n]> ns) p' ((j, e) :: l) q.
Proof.
  intros Hj [Hn Hc]; eexists; split; [exact Hn|]; split; [|now apply chain_frame].
  now rewrite list_lookup_insert_eq by (eapply lookup_lt_Some; eauto).
Qed.

(** * Unlinking a node *)

(** The node [i] between [a] and [b], with the links [pa] and [pb] of its
    neighbours. *)
Definition between (st : order_list) (a : list (nat * entry)) (i : nat) (e : entry) (b : list (nat * entry)) (pa pb : option nat) : Prop :=
  chain (co_list st) None a pa /\
  co_list st !! i = Some {| co := e; next := or_head b None; prev := or_last a None |} /\
  chain (co_list st) pb b None /\ NoDup (names (a ++ (i, e) :: b)).

Lemma rep_between st a i e b : rep st (a ++ (i, e) :: b) -> between st a i e b (Some i) (Some i).
Proof.
  intros (Hc & Hnd & _ & _); apply chain_app in Hc as [Ha [Hi Hb]]; split; [exact Ha|]; split; [exact Hi|]; split; [exact Hb|exact Hnd].
Qed.

Lemma between_names a i (e : entry) b : NoDup (names (a ++ (i, e) :: b)) ->
  NoDup (names a) /\ NoDup (names b) /\ (i ∉ names a) /\ (i ∉ names b) /\ (forall x, x ∈ names a -> x ∉ names b) /\
  NoDup (names (a ++ b)).
Proof.
  rewrite !names_app; cbn [names map fst]; intros H; apply NoDup_app in H as (Ha & Hab & Hb); apply NoDup_cons in Hb as [Hi Hb].
  split; [exact Ha|]; split; [exact Hb|]; split; [intros Hin; apply (Hab i Hin); left|]; split; [exact Hi|].
  assert (forall x, x ∈ names a -> x ∉ names b) as Hd by (intros x Hx Hx'; apply (Hab x Hx); now right).
  split; [exact Hd|]; apply NoDup_app; auto.
Qed.

Lemma relink_before st a i e b pa pb q : between st a i e b pa pb ->
  exists st', store_if (or_last a None) (set_next q) st = Some st' /\ between st' a i e b q pb /\ head st' = head st /\ tail st' = tail st.
Proof.
  intros (Ha & Hi & Hb & Hnd); destruct (between_names _ _ _ _ Hnd) as (Na & Nb & Ia & Ib & Hd & _).
  destruct a as [|x a]; [exists st; split; [reflexivity|]; split; [split; [exact I|auto]|auto]|].
  destruct (or_last_in (x :: a) None ltac:(easy)) as (k & Ek & Hk); rewrite Ek; cbn [store_if].
  destruct (chain_set_end _ _ q _ _ k Na Ha Ek) as (n & En & Hc); unfold store; rewrite En; eexists; split; [reflexivity|].
  split; [|auto]; split; [exact Hc|]; cbn [co_list].
  split; [rewrite list_lookup_insert_ne by (intros ->; contradiction); now rewrite Hi, Ek|].
  split; [apply chain_frame; [now apply Hd|exact Hb]|exact Hnd].
Qed.

Lemma relink_after st a i e b pa pb p : between st a i e b pa pb ->
  exists st', store_if (or_head b None) (set_prev p) st = Some st' /\ between st' a i e b pa p /\ head st' = head st /\ tail st' = tail st.
Proof.
  intros (Ha & Hi & Hb & Hnd); destruct (between_names _ _ _ _ Hnd) as (Na & Nb & Ia & Ib & Hd & _).
  destruct b as [|[j ej] b]; [exists st; split; [reflexivity|]; split; [split; [exact Ha|auto]|auto]|].
  cbn [or_head store_if]; cbn [names map fst] in Nb; apply NoDup_cons in Nb as [Ij Nb].
  destruct (chain_set_start _ _ p _ _ _ _ Ij Hb) as (n & En & Hc); unfold store; rewrite En; eexists; split; [reflexivity|].
  split; [|auto]; split; [apply chain_frame; [intros Hin; apply (Hd j Hin); left|exact Ha]|]; cbn [co_list].
  split; [rewrite list_lookup_insert_ne; [exact Hi|intros ->; apply Ib; left]|]; split; [exact Hc|exact Hnd].
Qed.

(** Once both neighbours are relinked the rest is a list. *)
Lemma between_rest st a i e b : between st a i e b (or_head b None) (or_last a None) ->
  chain (co_list st) None (a ++ b) None /\ NoDup (names (a ++ b)) /\ i ∉ names (a ++ b).
Proof.
  intros (Ha & Hi & Hb & Hnd); destruct (between_names _ _ _ _ Hnd) as (Na & Nb & Ia & Ib & Hd & Nab).
  split; [apply chain_app; auto|]; split; [exact Nab|]; rewrite names_app; apply not_elem_of_app; auto.
Qed.

Lemma store_eq i f st n : co_list st !! i = Some n ->
  store i f st = Some {| co_list := <[i := f n]> (co_list st); head := head st; tail := tail st |}.
Proof. intros E; unfold store; now rewrite E. Qed.

(** A node behind a list, or before it. *)
Lemma attach_tail st l i e n t : chain (co_list st) None l None -> NoDup (names l) -> i ∉ names l ->
  co_list st !! i = Some n -> co n = e -> or_last l None = Some t -> tail st = Some t ->
  exists st', (st ← store t (set_next (Some i)) st; st ← store i (set_prev (tail st)) st; st ← store i (set_next None) st;
               Some (set_tail st (Some i))) = Some st' /\
    chain (co_list st') None (l ++ [(i, e)]) None /\ head st' = head st /\ tail st' = Some i.
Proof.
  intros Hc Hnd Hi En <- Et Est; destruct (chain_set_end _ _ (Some i) _ _ t Hnd Hc Et) as (m & Em & Hc').
  assert (i <> t) as Hne.
  { destruct (or_last_in l None) as (k & Ek & Hk); [intros ->; discriminate|]; rewrite Et in Ek; injection Ek as <-; intros ->; contradiction. }
  rewrite (store_eq _ _ _ _ Em); cbn [mbind option_bind tail]; rewrite Est.
  assert (<[t := set_next (Some i) m]> (co_list st) !! i = Some n) as En' by now rewrite list_lookup_insert_ne.
  rewrite (store_eq i _ _ n) by exact En'; cbn [mbind option_bind co_list head tail].
  erewrite store_eq by (cbn [co_list]; apply list_lookup_insert_eq; eapply lookup_lt_Some; eauto).
  eexists; split; [reflexivity|]; cbn [co_list head tail set_tail]; split; [|auto]; rewrite list_insert_insert_eq.
  apply chain_app; split; [apply chain_frame; auto|]; cbn [chain or_head]; split; [|exact I].
  rewrite list_lookup_insert_eq by (eapply lookup_lt_Some; eauto); rewrite Et; reflexivity.
Qed.

Lemma attach_head st l i e n h : chain (co_list st) None l None -> NoDup (names l) -> i ∉ names l ->
  co_list st !! i = Some n -> co n = e -> or_head l None = Some h -> head st = Some h ->
  exists st', (st ← store h (set_prev (Some i)) st; st ← store i (set_next (head st)) st; st ← store i (set_prev None) st;
               Some (set_head st (Some i))) = Some st' /\
    chain (co_list st') None ((i, e) :: l) None /\ tail st' = tail st /\ head st' = Some i.
Proof.
  intros Hc Hnd Hi En <- Eh Est; destruct l as [|[j ej] l]; [discriminate|]; injection Eh as <-.
  cbn [names map fst] in Hnd, Hi; apply NoDup_cons in Hnd as [Ij Hnd]; apply not_elem_of_cons in Hi as [Hne Hi].
  destruct (chain_set_start _ _ (Some i) _ _ _ _ Ij Hc) as (m & Em & Hc'); rewrite (store_eq _ _ _ _ Em); cbn [mbind option_bind head]; rewrite Est.
  assert (<[j := set_prev (Some i) m]> (co_list st) !! i = Some n) as En' by now rewrite list_lookup_insert_ne.
  rewrite (store_eq i _ _ n) by exact En'; cbn [mbind option_bind co_list head tail].
  erewrite store_eq by (cbn [co_list]; apply list_lookup_insert_eq; eapply lookup_lt_Some; eauto).
  eexists; split; [reflexivity|]; cbn [co_list tail head set_head]; split; [|auto]; rewrite list_insert_insert_eq.
  split; [rewrite list_lookup_insert_eq by (eapply lookup_lt_Some; eauto); reflexivity|].
  apply chain_frame; [cbn [names map fst]; apply not_elem_of_cons; auto|exact Hc'].
Qed.

Lemma or_head_some l q i e b : l = (i, e) :: b -> or_head l q = Some i.
Proof. now intros ->. Qed.

(** The first and the last node are known by their names. *)
Lemma is_head a i (e : entry) b : NoDup (names (a ++ (i, e) :: b)) -> bool_decide (Some i = or_head (a ++ (i, e) :: b) None) = bool_decide (a = []).
Proof.
  intros Hnd; destruct (between_names _ _ _ _ Hnd) as (_ & _ & Ia & _); apply bool_decide_ext; destruct a as [|[j ej] a]; [easy|]; cbn.
  split; [intros [= ->]|easy]; destruct Ia; left.
Qed.

Lemma is_tail a i (e : entry) b : NoDup (names (a ++ (i, e) :: b)) -> bool_decide (Some i = or_last (a ++ (i, e) :: b) None) = bool_decide (b = []).
Proof.
  intros Hnd; destruct (between_names _ _ _ _ Hnd) as (_ & _ & _ & Ib & _); apply bool_decide_ext; rewrite or_last_app; cbn [or_last].
  destruct b as [|x b]; [easy|]; destruct (or_last_in (x :: b) (Some i) ltac:(easy)) as (k & -> & Hk); split; [intros [= ->]; contradiction|easy].
Qed.

Lemma or_last_nonempty l p p' : l <> [] -> or_last l p = or_last l p'.
Proof. now destruct l as [|[]]. Qed.

Lemma append_tail_rep st a i e b : rep st (a ++ (i, e) :: b) -> exists st', ll_append_tail i st = Some st' /\ rep st' (a ++ b ++ [(i, e)]).
Proof.
  intros Hr; pose proof Hr as (Hc & Hnd & Eh & Et); pose proof (rep_between _ _ _ _ _ Hr) as Hb.
  unfold ll_append_tail; rewrite Et, is_tail by exact Hnd; case_bool_decide as Hb0.
  { subst b; exists st; split; [reflexivity|]; exact Hr. }
  pose proof Hb as (_ & Ei & _); rewrite Ei; cbn [mbind option_bind next prev co]; rewrite Eh, is_head by exact Hnd.
  set (st0 := if bool_decide (a = []) then _ else _).
  assert (co_list st0 = co_list st /\ tail st0 = tail st /\ head st0 = or_head (a ++ b) None) as (E1 & E2 & E3).
  { unfold st0; case_bool_decide as Ha; [subst a; repeat split|]; rewrite Eh, !or_head_app; destruct a as [|[]]; [easy|repeat split]. }
  assert (between st0 a i e b (Some i) (Some i)) as Hb' by (unfold between; rewrite E1; exact Hb).
  destruct (relink_before _ _ _ _ _ _ _ (or_head b None) Hb') as (st1 & -> & Hb1 & F1 & F2); cbn [mbind option_bind].
  pose proof Hb1 as (_ & Ei1 & _); rewrite Ei1; cbn [mbind option_bind next prev co].
  destruct (relink_after _ _ _ _ _ _ _ (or_last a None) Hb1) as (st2 & -> & Hb2 & G1 & G2); cbn [mbind option_bind].
  destruct (between_rest _ _ _ _ _ Hb2) as (Hc2 & Hnd2 & Hi2); pose proof Hb2 as (_ & Ei2 & _).
  assert (tail st2 = or_last (a ++ b) None) as Et2 by
    (rewrite G2, F2, E2, Et, !or_last_app; cbn [or_last]; now apply or_last_nonempty).
  destruct (or_last_in (a ++ b) None) as (t & Ek & _); [intros [_ ->]%app_eq_nil; easy|].
  assert (tail st2 = Some t) as Etl by congruence; rewrite Etl; cbn [mbind option_bind].
  destruct (attach_tail st2 (a ++ b) i e _ t Hc2 Hnd2 Hi2 Ei2 eq_refl Ek Etl) as (st3 & Es & Hc3 & Eh3 & Et3).
  exists st3; split; [exact Es|]; rewrite app_assoc; split; [exact Hc3|]; split; [|split].
  - rewrite names_app; apply NoDup_app; split; [exact Hnd2|]; split; [|apply NoDup_singleton].
    intros x Hx Hx'; apply list_elem_of_singleton in Hx' as ->; contradiction.
  - rewrite Eh3, G1, F1, E3, !or_head_app; destruct a as [|[]]; [destruct b as [|[]]; easy|reflexivity].
  - now rewrite Et3, or_last_app.
Qed.

Lemma append_head_rep st a i e b : rep st (a ++ (i, e) :: b) -> exists st', ll_append_head i st = Some st' /\ rep st' ((i, e) :: a ++ b).
Proof.
  intros Hr; pose proof Hr as (Hc & Hnd & Eh & Et); pose proof (rep_between _ _ _ _ _ Hr) as Hb.
  unfold ll_append_head; rewrite Eh, is_head by exact Hnd; case_bool_decide as Ha0.
  { subst a; exists st; split; [reflexivity|]; exact Hr. }
  pose proof Hb as (_ & Ei & _); rewrite Ei; cbn [mbind option_bind next prev co]; rewrite Et, is_tail by exact Hnd.
  set (st0 := if bool_decide (b = []) then _ else _).
  assert (co_list st0 = co_list st /\ head st0 = head st /\ tail st0 = or_last (a ++ b) None) as (E1 & E2 & E3).
  { unfold st0; case_bool_decide as Hb0; [subst b; rewrite app_nil_r; repeat split|]; rewrite Et, !or_last_app; cbn [or_last].
    repeat split; now apply or_last_nonempty. }
  assert (between st0 a i e b (Some i) (Some i)) as Hb' by (unfold between; rewrite E1; exact Hb).
  destruct (relink_after _ _ _ _ _ _ _ (or_last a None) Hb') as (st1 & -> & Hb1 & F1 & F2); cbn [mbind option_bind].
  pose proof Hb1 as (_ & Ei1 & _); rewrite Ei1; cbn [mbind option_bind next prev co].
  destruct (relink_before _ _ _ _ _ _ _ (or_head b None) Hb1) as (st2 & -> & Hb2 & G1 & G2); cbn [mbind option_bind].
  destruct (between_rest _ _ _ _ _ Hb2) as (Hc2 & Hnd2 & Hi2); pose proof Hb2 as (_ & Ei2 & _).
  destruct a as [|[h eh] a]; [easy|].
  assert (head st2 = Some h) as Ehd by (now rewrite G1, F1, E2, Eh); rewrite Ehd; cbn [mbind option_bind].
  destruct (attach_head st2 _ i e _ h Hc2 Hnd2 Hi2 Ei2 eq_refl eq_refl Ehd) as (st3 & Es & Hc3 & Et3 & Eh3).
  exists st3; split; [exact Es|]; split; [exact Hc3|]; split; [|split].
  - apply NoDup_cons; auto.
  - exact Eh3.
  - rewrite Et3, G2, F2, E3; reflexivity.
Qed.

(** [CIPHER_KILL]: its steps, and the whole. *)
Lemma deactivate_between st a i e b pa pb : between st a i e b pa pb ->
  exists st', store i (set_active false) st = Some st' /\
    between st' a i (with_active false (in_group e) e) b pa pb /\ head st' = head st /\ tail st' = tail st.
Proof.
  intros (Ha & Hi & Hb & Hnd); destruct (between_names _ _ _ _ Hnd) as (_ & _ & Ia & Ib & _).
  rewrite (store_eq _ _ _ _ Hi); eexists; split; [reflexivity|]; split; [|auto].
  split; [now apply chain_frame|]; cbn [co_list]; split; [now rewrite list_lookup_insert_eq by (eapply lookup_lt_Some; eauto)|].
  split; [now apply chain_frame|]; rewrite names_app in *; exact Hnd.
Qed.

Lemma unlink_first st a i e b : rep st (a ++ (i, e) :: b) ->
  exists st1 pa, (if bool_decide (head st = Some i) then Some (set_head st (or_head b None))
      else p ← or_last a None; store p (set_next (or_head b None)) st) = Some st1 /\
    between st1 a i e b pa (Some i) /\ head st1 = or_head (a ++ b) None /\ tail st1 = tail st.
Proof.
  intros Hr; pose proof Hr as (Hc & Hnd & Eh & Et); pose proof (rep_between _ _ _ _ _ Hr) as Hb.
  rewrite Eh, (bool_decide_ext _ (Some i = or_head (a ++ (i, e) :: b) None)) by (split; congruence); rewrite is_head by exact Hnd.
  case_bool_decide as Ha; [subst a; eexists _, _; split; [reflexivity|]; split; [exact Hb|auto]|].
  destruct (relink_before _ _ _ _ _ _ _ (or_head b None) Hb) as (st1 & Es & Hb1 & F1 & F2).
  destruct (or_last_in a None Ha) as (k & Ek & _); rewrite Ek in *; cbn [mbind option_bind store_if] in *.
  exists st1, (or_head b None); split; [exact Es|]; split; [exact Hb1|]; split; [|exact F2].
  rewrite F1, Eh, !or_head_app; now destruct a as [|[]].
Qed.

Lemma unlink_rep st a i e b : rep st (a ++ (i, e) :: b) -> exists st', ll_unlink i st = Some st' /\ rep st' (a ++ b).
Proof.
  intros Hr; pose proof Hr as (Hc & Hnd & Eh & Et); pose proof (rep_between _ _ _ _ _ Hr) as Hb.
  unfold ll_unlink; pose proof Hb as (_ & Ei & _); rewrite Ei; cbn [mbind option_bind next prev co].
  destruct (unlink_first _ _ _ _ _ Hr) as (st1 & pa & -> & Hb1 & E1 & E2).
  cbn [mbind option_bind]; pose proof Hb1 as (_ & Ei1 & _); rewrite Ei1; cbn [mbind option_bind prev].
  set (st2 := if bool_decide (tail st1 = Some i) then _ else _).
  assert (co_list st2 = co_list st1 /\ head st2 = head st1 /\ tail st2 = or_last (a ++ b) None) as (F1 & F2 & F3).
  { unfold st2; rewrite E2, Et, (bool_decide_ext _ (Some i = or_last (a ++ (i, e) :: b) None)) by (split; congruence).
    rewrite is_tail by exact Hnd; case_bool_decide as Hb0; [subst b; rewrite app_nil_r; auto|].
    repeat split; rewrite E2, Et, !or_last_app; cbn [or_last]; now apply or_last_nonempty. }
  assert (between st2 a i e b pa (Some i)) as Hb2 by (unfold between; rewrite F1; exact Hb1).
  destruct (deactivate_between _ _ _ _ _ _ _ Hb2) as (st3 & -> & Hb3 & G1 & G2); cbn [mbind option_bind].
  pose proof Hb3 as (_ & Ei3 & _); rewrite Ei3; cbn [mbind option_bind next prev].
  destruct (relink_after _ _ _ _ _ _ _ (or_last a None) Hb3) as (st4 & -> & Hb4 & I1 & I2); cbn [mbind option_bind].
  pose proof Hb4 as (_ & Ei4 & _); rewrite Ei4; cbn [mbind option_bind next prev].
  destruct (relink_before _ _ _ _ _ _ _ (or_head b None) Hb4) as (st5 & -> & Hb5 & J1 & J2); cbn [mbind option_bind].
  destruct (between_rest _ _ _ _ _ Hb5) as (Hc5 & Hnd5 & Hi5); pose proof Hb5 as (_ & Ei5 & _).
  rewrite (store_eq _ _ _ _ Ei5); cbn [mbind option_bind].
  erewrite store_eq by (cbn [co_list]; apply list_lookup_insert_eq; eapply lookup_lt_Some; eauto).
  eexists; split; [reflexivity|]; split; [cbn [co_list]; now repeat apply chain_frame|]; split; [exact Hnd5|]; cbn [head tail].
  split; congruence.
Qed.

(** A change of an entry. *)
Lemma store_rep st a i e b f e' : rep st (a ++ (i, e) :: b) ->
  (forall n, co n = e -> f n = {| co := e'; next := next n; prev := prev n |}) ->
  exists st', store i f st = Some st' /\ rep st' (a ++ (i, e') :: b).
Proof.
  intros (Hc & Hnd & Eh & Et) Hf; destruct (between_names _ _ _ _ Hnd) as (_ & _ & Ia & Ib & _).
  apply chain_app in Hc as [Ha [Hi Hb]]; rewrite (store_eq _ _ _ _ Hi); eexists; split; [reflexivity|].
  split; [|split; [rewrite names_app in *; exact Hnd|cbn [head tail]; rewrite Eh, Et, !or_head_app, !or_last_app; auto]].
  apply chain_app; split; [now apply chain_frame|]; cbn [co_list chain or_head]; split; [|now apply chain_frame].
  rewrite list_lookup_insert_eq by (eapply lookup_lt_Some; eauto); now rewrite Hf.
Qed.

(** * A rule on the linked list *)

Lemma lookup_node st a i e b : rep st (a ++ (i, e) :: b) ->
  co_list st !! i = Some {| co := e; next := or_head b None; prev := or_last a None |}.
Proof. intros H; now destruct (rep_between _ _ _ _ _ H) as (_ & Hi & _). Qed.

Lemma apply_to_end rule group st a i e b : rule = CIPHER_ADD \/ rule = CIPHER_ORD -> rep st (a ++ (i, e) :: b) ->
  exists st', apply_to rule group i st = Some st' /\
    rep st' (if moves rule e then a ++ b ++ [(i, moved_entry rule group e)] else a ++ (i, e) :: b).
Proof.
  intros Hrule Hr; unfold apply_to; rewrite (lookup_node _ _ _ _ _ Hr); cbn [mbind option_bind co].
  destruct (append_tail_rep _ _ _ _ _ Hr) as (st1 & E1 & Hr1); rewrite app_assoc in Hr1.
  destruct Hrule as [-> | ->]; unfold moves, moved_entry; cbn [Z.eqb Pos.eqb CIPHER_ADD CIPHER_ORD].
  - destruct (active e); cbn [negb]; [eauto|]; rewrite E1; cbn [mbind option_bind].
    destruct (store_rep _ _ _ _ _ (set_active true) (with_active true (in_group e) e) Hr1) as (st2 & -> & Hr2); [now intros n <-|].
    destruct (store_rep _ _ _ _ _ (set_in_group group) (with_active true group e) Hr2) as (st3 & E3 & Hr3);
      [intros [[] ? ?] H; cbn in H; now injection H as -> -> ->|].
    cbn [mbind option_bind]; exists st3; split; [exact E3|]; now rewrite app_assoc.
  - destruct (active e) eqn:Ea; [|eauto]; rewrite E1; cbn [mbind option_bind].
    destruct (store_rep _ _ _ _ _ (set_in_group false) (with_active true false e) Hr1) as (st2 & E2 & Hr2);
      [intros n <-; unfold set_in_group, with_active; now rewrite Ea|].
    exists st2; split; [exact E2|]; now rewrite app_assoc.
Qed.

Lemma apply_to_front group st a i e b : rep st (a ++ (i, e) :: b) ->
  exists st', apply_to CIPHER_DEL group i st = Some st' /\
    rep st' (if moves CIPHER_DEL e then (i, moved_entry CIPHER_DEL group e) :: a ++ b else a ++ (i, e) :: b).
Proof.
  intros Hr; unfold apply_to; rewrite (lookup_node _ _ _ _ _ Hr); cbn [mbind option_bind co].
  unfold moves, moved_entry; cbn [Z.eqb Pos.eqb CIPHER_ADD CIPHER_ORD CIPHER_DEL]; destruct (active e) eqn:Ea; [|eauto].
  destruct (append_head_rep _ _ _ _ _ Hr) as (st1 & -> & Hr1); cbn [mbind option_bind].
  destruct (store_rep st1 [] _ _ _ (set_active false) (with_active false (in_group e) e) Hr1) as (st2 & -> & Hr2); [now intros n <-|].
  destruct (store_rep st2 [] _ _ _ (set_in_group false) (with_active false false e) Hr2) as (st3 & E3 & Hr3);
    [intros [[] ? ?] H; cbn in H; now injection H as -> -> ->|].
  cbn [mbind option_bind]; exists st3; auto.
Qed.

(** The rule on the nodes with their names. *)
Definition on_nodes (rule : Z) (group : bool) (sel : entry -> bool) : list (nat * entry) -> list (nat * entry) :=
  rule_on_list rule group (fun x => sel (snd x)) snd (fun x e => (fst x, e)).

Section Loop.
  Context (select : SSL_CIPHER -> option bool) (sel : entry -> bool) (rule : Z) (group : bool).
  Hypothesis select_total : forall e, select (cipher_of e) = Some (sel e).

Definition hit (x : nat * entry) : bool := sel (snd x) && moves rule (snd x).
Definition change (x : nat * entry) : nat * entry := (fst x, moved_entry rule group (snd x)).

Lemma forward_loop last todo : rule = CIPHER_ADD \/ rule = CIPHER_ORD -> forall fuel st kept done curr nxt,
  (length todo < fuel)%nat -> rep st (kept ++ todo ++ done) ->
  (todo = [] -> curr = last) -> (todo <> [] -> curr <> last /\ last = or_last todo None /\ nxt = or_head todo None) ->
  exists st', apply_loop fuel select rule group false last curr nxt st = Some st' /\
    rep st' (kept ++ List.filter (fun x => negb (hit x)) todo ++ done ++ map change (List.filter hit todo)).
Proof.
  intros Hrule; induction todo as [|[i e] todo IH]; intros fuel st kept done curr nxt Hf Hr Hnil Hcons; (destruct fuel as [|fuel]; [lia|]); cbn [apply_loop].
  { rewrite bool_decide_true by auto; exists st; cbn [List.filter map app] in *; now rewrite app_nil_r. }
  destruct (Hcons ltac:(easy)) as (Hne & El & ->); rewrite bool_decide_false by exact Hne; cbn [or_head app] in *.
  rewrite (lookup_node _ _ _ _ _ Hr); cbn [mbind option_bind co next]; rewrite select_total; cbn [mbind option_bind].
  assert (exists st1, (if sel e then apply_to rule group i st else Some st) = Some st1 /\
    rep st1 (if hit (i, e) then kept ++ todo ++ done ++ [change (i, e)] else (kept ++ [(i, e)]) ++ todo ++ done)) as (st1 & -> & Hr1).
  { unfold hit, change; cbn [snd fst]; destruct (sel e); cbn [andb]; [|rewrite <- app_assoc; eauto].
    destruct (apply_to_end rule group st kept i e (todo ++ done) Hrule Hr) as (st1 & E1 & Hr1); exists st1; split; [exact E1|].
    destruct (moves rule e); [now rewrite <- app_assoc in Hr1|rewrite <- app_assoc; exact Hr1]. }
  cbn [mbind option_bind]; pose proof Hr as (_ & Hnd & _); destruct (between_names _ _ _ _ Hnd) as (_ & _ & _ & Hi & _).
  assert (todo = [] -> Some i = last) as Hnil' by (intros ->; now rewrite El).
  assert (todo <> [] -> Some i <> last /\ last = or_last todo None /\ or_head (todo ++ done) None = or_head todo None) as Hcons'.
  { intros Ht; cbn [or_last] in El; rewrite (or_last_nonempty _ (Some i) None Ht) in El; destruct (or_last_in todo None Ht) as (k & Ek & Hk).
    rewrite El, Ek; split; [intros [= ->]; apply Hi; rewrite names_app; apply elem_of_app; now left|]; split; [reflexivity|].
    rewrite or_head_app; now destruct todo as [|[]]. }
  cbn [List.filter length] in *; destruct (hit (i, e)) eqn:Eh; cbn [negb map].
  - destruct (IH fuel st1 kept (done ++ [change (i, e)]) (Some i) (or_head (todo ++ done) None) ltac:(lia) Hr1 Hnil' Hcons') as (st2 & -> & Hr2).
    exists st2; split; [reflexivity|]; now rewrite <- (app_assoc done) in Hr2.
  - destruct (IH fuel st1 (kept ++ [(i, e)]) done (Some i) (or_head (todo ++ done) None) ltac:(lia) Hr1 Hnil' Hcons') as (st2 & -> & Hr2).
    exists st2; split; [reflexivity|]; now rewrite <- app_assoc in Hr2.
Qed.

Lemma kill_loop last todo : rule = CIPHER_KILL -> forall fuel st kept curr nxt,
  (length todo < fuel)%nat -> rep st (kept ++ todo) ->
  (todo = [] -> curr = last) -> (todo <> [] -> curr <> last /\ last = or_last todo None /\ nxt = or_head todo None) ->
  exists st', apply_loop fuel select rule group false last curr nxt st = Some st' /\
    rep st' (kept ++ List.filter (fun x => negb (sel (snd x))) todo).
Proof.
  intros ->; induction todo as [|[i e] todo IH]; intros fuel st kept curr nxt Hf Hr Hnil Hcons; (destruct fuel as [|fuel]; [lia|]); cbn [apply_loop].
  { rewrite bool_decide_true by auto; exists st; auto. }
  destruct (Hcons ltac:(easy)) as (Hne & El & ->); rewrite bool_decide_false by exact Hne; cbn [or_head] in *.
  rewrite (lookup_node _ _ _ _ _ Hr); cbn [mbind option_bind co next]; rewrite select_total; cbn [mbind option_bind].
  assert (exists st1, (if sel e then apply_to CIPHER_KILL group i st else Some st) = Some st1 /\
    rep st1 (if sel e then kept ++ todo else (kept ++ [(i, e)]) ++ todo)) as (st1 & -> & Hr1).
  { destruct (sel e); [|rewrite <- app_assoc; eauto]; unfold apply_to; rewrite (lookup_node _ _ _ _ _ Hr); now apply (unlink_rep _ _ _ e). }
  cbn [mbind option_bind]; pose proof Hr as (_ & Hnd & _); destruct (between_names _ _ _ _ Hnd) as (_ & _ & _ & Hi & _).
  assert (todo = [] -> Some i = last) as Hnil' by (intros ->; now rewrite El).
  assert (todo <> [] -> Some i <> last /\ last = or_last todo None /\ or_head todo None = or_head todo None) as Hcons'.
  { intros Ht; cbn [or_last] in El; rewrite (or_last_nonempty _ (Some i) None Ht) in El; destruct (or_last_in todo None Ht) as (k & Ek & Hk).
    rewrite El, Ek; split; [intros [= ->]; contradiction|auto]. }
  cbn [List.filter length snd] in *; destruct (sel e); cbn [negb].
  - apply (IH fuel st1 kept); auto; lia.
  - destruct (IH fuel st1 (kept ++ [(i, e)]) (Some i) (or_head todo None) ltac:(lia) Hr1 Hnil' Hcons') as (st2 & -> & Hr2).
    exists st2; split; [reflexivity|]; now rewrite <- app_assoc in Hr2.
Qed.

Lemma backward_loop last todo : rule = CIPHER_DEL -> forall fuel st kept done curr nxt,
  (length todo < fuel)%nat -> rep st (done ++ todo ++ kept) ->
  (todo = [] -> curr = last) -> (todo <> [] -> curr <> last /\ last = or_head todo None /\ nxt = or_last todo None) ->
  exists st', apply_loop fuel select rule group true last curr nxt st = Some st' /\
    rep st' (map change (List.filter hit todo) ++ done ++ List.filter (fun x => negb (hit x)) todo ++ kept).
Proof.
  intros Er; induction todo as [|[i e] todo IH] using rev_ind; intros fuel st kept done curr nxt Hf Hr Hnil Hcons;
    (destruct fuel as [|fuel]; [lia|]); cbn [apply_loop].
  { rewrite bool_decide_true by auto; exists st; auto. }
  destruct (Hcons ltac:(now destruct todo)) as (Hne & El & ->); rewrite bool_decide_false by exact Hne.
  rewrite or_last_app; cbn [or_last]; rewrite <- app_assoc, app_assoc in Hr; cbn [app] in Hr.
  rewrite (lookup_node _ _ _ _ _ Hr); cbn [mbind option_bind co prev]; rewrite select_total; cbn [mbind option_bind].
  assert (exists st1, (if sel e then apply_to rule group i st else Some st) = Some st1 /\
    rep st1 (if hit (i, e) then (change (i, e) :: done) ++ todo ++ kept else done ++ todo ++ (i, e) :: kept)) as (st1 & -> & Hr1).
  { unfold hit, change; cbn [snd fst]; destruct (sel e); cbn [andb]; [|rewrite <- app_assoc in Hr; eauto]; rewrite Er.
    destruct (apply_to_front group st (done ++ todo) i e kept Hr) as (st1 & E1 & Hr1); exists st1; split; [exact E1|].
    destruct (moves CIPHER_DEL e); rewrite <- app_assoc in Hr1; exact Hr1. }
  cbn [mbind option_bind]; pose proof Hr as (_ & Hnd & _); destruct (between_names _ _ _ _ Hnd) as (_ & _ & Hi & _).
  rewrite or_head_app in El.
  assert (todo = [] -> Some i = last) as Hnil' by (intros ->; now rewrite El).
  assert (todo <> [] -> Some i <> last /\ last = or_head todo None /\ or_last (done ++ todo) None = or_last todo None) as Hcons'.
  { intros Ht; rewrite or_last_app, (or_last_nonempty todo _ None) by exact Ht; destruct todo as [|[k ek] todo]; [easy|]; cbn in El; rewrite El.
    split; [intros [= ->]; apply Hi; rewrite names_app; apply elem_of_app; right; left|auto]. }
  rewrite length_app in Hf; cbn [length] in Hf; rewrite !List.filter_app; cbn [List.filter]; destruct (hit (i, e)) eqn:Eh; cbn [negb].
  - destruct (IH fuel st1 kept (change (i, e) :: done) (Some i) (or_last (done ++ todo) None) ltac:(lia) Hr1 Hnil' Hcons') as (st2 & -> & Hr2).
    exists st2; split; [reflexivity|]; rewrite map_app, <- app_assoc, app_nil_r; exact Hr2.
  - destruct (IH fuel st1 ((i, e) :: kept) done (Some i) (or_last (done ++ todo) None) ltac:(lia) Hr1 Hnil' Hcons') as (st2 & -> & Hr2).
    exists st2; split; [reflexivity|]; rewrite app_nil_r, <- app_assoc; exact Hr2.
Qed.
End Loop.

Lemma filter_map_snd (f : entry -> bool) (l : list (nat * entry)) : map snd (List.filter (fun x => f (snd x)) l) = List.filter f (map snd l).
Proof. induction l as [|[i e] l IH]; [reflexivity|]; cbn [List.filter map snd]; destruct (f e); cbn [map]; now rewrite IH. Qed.

Lemma on_nodes_entries rule group sel l : map snd (on_nodes rule group sel l) = rule_on_list rule group sel (fun e => e) (fun _ e => e) (map snd l).
Proof.
  unfold on_nodes, rule_on_list.
  pose proof (filter_map_snd (fun e => sel e && moves rule e) l) as E1; pose proof (filter_map_snd (fun e => negb (sel e && moves rule e)) l) as E2.
  repeat case_if; rewrite ?map_app, ?map_map; cbn [snd]; rewrite <- ?E1, <- ?E2, ?map_map; auto; apply (filter_map_snd (fun e => negb (sel e))).
Qed.

(** A list has no more nodes than there are. *)
Lemma rep_length st l : rep st l -> (length l <= length (co_list st))%nat.
Proof.
  intros (Hc & Hnd & _); rewrite <- (length_map fst l), <- (length_seq (length (co_list st)) 0); apply NoDup_incl_length.
  - apply NoDup_ListNoDup; exact Hnd.
  - clear Hnd; revert Hc; generalize (@None nat) at 1; generalize (@None nat); intros q; induction l as [|[i e] l IH]; intros p Hc x Hx; [easy|].
    destruct Hc as [Hi Hc]; destruct Hx as [<-|Hx]; [|now apply (IH _ Hc)]; apply in_seq; apply lookup_lt_Some in Hi; cbn; lia.
Qed.

Definition a_rule (rule : Z) : Prop := rule = CIPHER_ADD \/ rule = CIPHER_ORD \/ rule = CIPHER_DEL \/ rule = CIPHER_KILL.

(** A rule has a suite, a strength or an alias to select by. *)
Definition has_criterion (al : option CIPHER_ALIAS) (strength_bits : Z) : Prop := is_Some al \/ 0 <= strength_bits.

Lemma selects_total cipher_id al strength_bits e : has_criterion al strength_bits ->
  selects cipher_id al strength_bits (cipher_of e) = Some (selected cipher_id al strength_bits e).
Proof.
  intros H; unfold selected, selects; case_if; [reflexivity|]; destruct H as [[a ->]|H]; [case_if; reflexivity|].
  now rewrite (proj2 (Z.leb_le _ _) H).
Qed.

Lemma apply_rule_rep cipher_id al rule strength_bits group st l : a_rule rule -> has_criterion al strength_bits -> rep st l ->
  exists st' l', ssl_cipher_apply_rule cipher_id al rule strength_bits group st = Some st' /\ rep st' l' /\
    map snd l' = list_rule cipher_id al rule strength_bits group (map snd l).
Proof.
  intros Hrule Hcrit Hr; unfold ssl_cipher_apply_rule, list_rule.
  assert (exists b, matches_nothing cipher_id al strength_bits = Some b) as [b Eb].
  { unfold matches_nothing; case_if; [|eauto]; destruct Hcrit as [[a ->]|H]; [eauto|]; bool_facts; lia. }
  rewrite Eb; cbn [mbind option_bind]; change (default false (Some b)) with b; destruct b; [exists st, l; auto|].
  pose proof (rep_length _ _ Hr) as Hlen; pose proof Hr as (_ & _ & Eh & Et); rewrite <- on_nodes_entries.
  pose proof (fun e => selects_total cipher_id al strength_bits e Hcrit) as Hsel; unfold on_nodes, rule_on_list.
  assert (l = [] -> @None nat = tail st) as N1 by (intros ->; now rewrite Et).
  assert (l = [] -> @None nat = head st) as N2 by (intros ->; now rewrite Eh).
  assert (l <> [] -> None <> tail st /\ tail st = or_last l None /\ head st = or_head l None) as C1.
  { intros Hl; destruct (or_last_in l None Hl) as (k & Ek & _); rewrite Et, Ek; split; [easy|auto]. }
  assert (l <> [] -> None <> head st /\ head st = or_head l None /\ tail st = or_last l None) as C2.
  { intros Hl; split; [rewrite Eh; now destruct l as [|[]]|auto]. }
  assert (rule = CIPHER_ADD \/ rule = CIPHER_ORD \/ rule = CIPHER_DEL \/ rule = CIPHER_KILL) as [H|[H|[H|H]]] by exact Hrule.
  1,2: destruct (forward_loop (selects cipher_id al strength_bits) (selected cipher_id al strength_bits) rule group Hsel (tail st) l ltac:(auto)
    (S (length (co_list st))) st [] [] None (head st) ltac:(lia) ltac:(now rewrite app_nil_r) N1 C1) as (st' & E & Hr');
    subst rule; cbn [Z.eqb Pos.eqb CIPHER_ADD CIPHER_ORD CIPHER_DEL orb] in *; eexists _, _; split; [exact E|]; split; [exact Hr'|reflexivity].
  - destruct (backward_loop (selects cipher_id al strength_bits) (selected cipher_id al strength_bits) rule group Hsel (head st) l H
      (S (length (co_list st))) st [] [] None (tail st) ltac:(lia) ltac:(now rewrite app_nil_r) N2 C2) as (st' & E & Hr').
    subst rule; cbn [Z.eqb Pos.eqb CIPHER_ADD CIPHER_ORD CIPHER_DEL orb app] in *; rewrite app_nil_r in Hr'.
    eexists _, _; split; [exact E|]; split; [exact Hr'|reflexivity].
  - destruct (kill_loop (selects cipher_id al strength_bits) (selected cipher_id al strength_bits) rule group Hsel (tail st) l H
      (S (length (co_list st))) st [] None (head st) ltac:(lia) Hr N1 C1) as (st' & E & Hr').
    subst rule; cbn [Z.eqb Pos.eqb CIPHER_ADD CIPHER_ORD CIPHER_DEL CIPHER_KILL orb app] in *.
    eexists _, _; split; [exact E|]; split; [exact Hr'|reflexivity].
Qed.

(** * The linked list implements the list *)

Definition implements (st : order_list) (es : list entry) : Prop := exists l, rep st l /\ map snd l = es.

Lemma walk_chain st l : forall fuel p, (length l < fuel)%nat -> chain (co_list st) p l None ->
  walk fuel (or_head l None) st = Some (map snd l).
Proof.
  induction l as [|[i e] l IH]; intros fuel p Hf Hc; (destruct fuel as [|fuel]; [cbn in Hf; lia|]); [reflexivity|].
  destruct Hc as [Hi Hc]; cbn [or_head walk]; rewrite Hi; cbn [mbind option_bind next co].
  rewrite (IH fuel (Some i)) by (cbn in Hf; auto; lia); reflexivity.
Qed.

Lemma map_last_snoc {X} (f : X -> X) l x : map_last f (l ++ [x]) = l ++ [f x].
Proof. induction l as [|y l IH]; [reflexivity|]; cbn [app map_last]; destruct (l ++ [x]) eqn:E; [now destruct l|]; now rewrite IH. Qed.

Lemma implements_entries st es : implements st es -> entries st = Some es.
Proof.
  intros (l & Hr & <-); pose proof Hr as (Hc & _ & Eh & _); cbn [entries linked_order]; rewrite Eh.
  apply (walk_chain st l _ None); [pose proof (rep_length _ _ Hr); lia|exact Hc].
Qed.

Lemma implements_end_group st es : implements st es ->
  exists st' es', end_group st = Some st' /\ end_group es = Some es' /\ implements st' es'.
Proof.
  intros (l & Hr & <-); cbn [end_group linked_order list_order]; pose proof Hr as (_ & _ & _ & Et); rewrite Et.
  destruct l as [|x l _] using rev_ind; [exists st, []; split; [reflexivity|]; split; [reflexivity|]; exists []; auto|].
  destruct x as [i e]; rewrite or_last_app; cbn [or_last store_if].
  destruct (store_rep st l i e [] (set_in_group false) (with_active (active e) false e) Hr) as (st' & -> & Hr'); [now intros n <-|].
  eexists _, _; split; [reflexivity|]; split; [reflexivity|]; eexists; split; [exact Hr'|].
  rewrite !map_app; cbn [map snd]; now rewrite map_last_snoc.
Qed.

Lemma implements_apply_rule cipher_id al rule strength_bits group st es : a_rule rule -> has_criterion al strength_bits -> implements st es ->
  exists st' es', apply_rule cipher_id al rule strength_bits group st = Some st' /\
    apply_rule cipher_id al rule strength_bits group es = Some es' /\ implements st' es'.
Proof.
  intros Hrule Hcrit (l & Hr & <-); cbn [apply_rule linked_order list_order].
  destruct (apply_rule_rep cipher_id al rule strength_bits group st l Hrule Hcrit Hr) as (st' & l' & -> & Hr' & E).
  eexists _, _; split; [reflexivity|]; split; [reflexivity|]; exists l'; auto.
Qed.

(** * The parser *)

Section Simulation.
  Context {HA : Allocator}.

(** Both sides end, with the same error or with lists that correspond. *)
Definition same_outcome {X Y E} (R : X -> Y -> Prop) (x : option (E + X)) (y : option (E + Y)) : Prop :=
  (exists e, x = Some (inl e) /\ y = Some (inl e)) \/ (exists a b, x = Some (inr a) /\ y = Some (inr b) /\ R a b).

Lemma order_by_strength_sim uses n : forall st es, implements st es ->
  exists st' es', order_by_strength uses n st = Some st' /\ order_by_strength uses n es = Some es' /\ implements st' es'.
Proof.
  induction n as [|n IH]; intros st es H; cbn [order_by_strength]; [eauto|]; case_if; [|now apply IH].
  destruct (implements_apply_rule 0 None CIPHER_ORD (Z.of_nat n) false st es) as (st' & es' & -> & -> & H');
    [unfold a_rule; auto|right; lia|exact H|]; now apply IH.
Qed.

Lemma strength_sort_sim st es : implements st es ->
  exists r r', ssl_cipher_strength_sort st = Some r /\ ssl_cipher_strength_sort es = Some r' /\
    match r, r' with Some st', Some es' => implements st' es' | None, None => True | _, _ => False end.
Proof.
  intros H; unfold ssl_cipher_strength_sort; rewrite (implements_entries _ _ H); cbn [entries list_order mbind option_bind].
  case_if; [exists None, None; auto|]; edestruct order_by_strength_sim as (st' & es' & -> & -> & H'); [exact H|].
  exists (Some st'), (Some es'); auto.
Qed.

Lemma skip_to_separator_length strict l : (length (skip_to_separator strict l) <= length l)%nat.
Proof. induction l as [|c l IH]; cbn [skip_to_separator length]; [lia|]; case_if; cbn [length]; lia. Qed.

(** A name is not empty, and what follows it is shorter. *)
Lemma scan_name_length l : let '(buf, rest) := scan_name l in length l = (length buf + length rest)%nat.
Proof.
  induction l as [|c l IH]; [reflexivity|]; cbn [scan_name]; destruct (is_name_char c); [|reflexivity].
  destruct (scan_name l) as [buf rest]; cbn [length]; lia.
Qed.

Lemma read_parts_ends rule strict fuel : forall multi cipher_id al skip l, (length l < fuel)%nat ->
  exists r, read_parts fuel rule strict multi cipher_id al skip l = Some r /\
    match r with inl _ => True | inr p => (length (part_rest p) < length l)%nat end.
Proof.
  induction fuel as [|fuel IH]; intros multi cipher_id al skip l Hf; [lia|]; cbn [read_parts].
  pose proof (scan_name_length l) as Hl; destruct (scan_name l) as [buf rest].
  destruct (Z.eqb_spec (zlen buf) 0) as [|Hb]; [now eexists|]; assert (length rest < length l)%nat as Hr by (unfold zlen in Hb; lia).
  case_if; [now eexists|]; set (cid := if _ && _ then find_cipher buf else cipher_id); case_if; [now eexists|].
  destruct (if cid =? 0 then _ else (al, skip)) as [al' skip']; destruct (Z.eqb_spec (peek rest) 43) as [Hp|Hp]; cbn [negb]; [|now eexists].
  destruct rest as [|c rest]; [discriminate|]; cbn [tl length] in *.
  destruct (IH true cid al' skip' rest ltac:(lia)) as (r & -> & Hr'); exists r; split; [reflexivity|]; destruct r; [auto|lia].
Qed.

Lemma process_rule_sim rule strict group l st es : rule = CIPHER_SPECIAL \/ a_rule rule -> implements st es ->
  same_outcome (fun x y => fst x = fst y /\ (length (fst x) < length l)%nat /\ implements (snd x) (snd y))
    (process_rule rule strict group l st) (process_rule rule strict group l es).
Proof.
  intros Hrule H; unfold process_rule; destruct (read_parts_ends rule strict (S (length l)) false 0 (no_alias rule) false l ltac:(lia)) as (r & -> & Hr).
  cbn [mbind option_bind]; destruct r as [e|p]; [left; eauto|]; destruct (Z.eqb_spec rule CIPHER_SPECIAL) as [->|Hne].
  - case_if; [left; eauto|]; destruct (strength_sort_sim _ _ H) as (r & r' & -> & -> & H'); cbn [mbind option_bind].
    destruct r as [st'|], r' as [es'|]; try easy; [right; eexists _, _; split; [reflexivity|]; split; [reflexivity|]|left; eauto].
    cbn [fst snd]; split; [reflexivity|]; split; [|exact H']; pose proof (skip_to_separator_length strict (part_rest p)); lia.
  - destruct (skip_rule p); [right; eexists _, _; split; [reflexivity|]; split; [reflexivity|]; auto|].
    destruct Hrule as [|Hrule]; [easy|].
    destruct (implements_apply_rule (part_id p) (Some (part_alias p)) rule (-1) group st es Hrule ltac:(left; eauto) H) as (st' & es' & -> & -> & H').
    cbn [mbind option_bind]; right; eexists _, _; split; [reflexivity|]; split; [reflexivity|]; auto.
Qed.

Lemma operator_rule ch rule : operator ch = Some rule -> rule = CIPHER_SPECIAL \/ a_rule rule.
Proof. unfold operator, a_rule; repeat case_if; intros [= <-]; auto. Qed.

Lemma process_rulestr_sim strict fuel : forall group has_group l st es, (length l < fuel)%nat -> implements st es ->
  same_outcome implements (process_rulestr fuel strict group has_group l st) (process_rulestr fuel strict group has_group l es).
Proof.
  induction fuel as [|fuel IH]; intros group has_group l st es Hf H; [lia|]; cbn [process_rulestr]; destruct l as [|ch l].
  { destruct group; [left; eauto|right; eauto 6]. }
  cbn [length] in Hf; case_if.
  { destruct (implements_end_group _ _ H) as (st' & es' & -> & -> & H'); cbn [mbind option_bind]; apply IH; auto; lia. }
  case_if; [apply IH; auto; lia|]; case_if; [left; eauto|]; case_if; [apply IH; auto; lia|].
  set (op := if group then None else operator ch).
  assert (exists rule text, (match op with Some rule => (rule, l) | None => (CIPHER_ADD, ch :: l) end) = (rule, text) /\
    (rule = CIPHER_SPECIAL \/ a_rule rule) /\ (length text <= S (length l))%nat) as (rule & text & -> & Hrule & Ht).
  { unfold op; destruct group; [eexists _, _; split; [reflexivity|]; unfold a_rule; auto|].
    destruct (operator ch) as [rule|] eqn:Eo; eexists _, _; (split; [reflexivity|]); [apply operator_rule in Eo; auto|unfold a_rule; auto]. }
  case_if; [left; eauto|]; case_if; [apply IH; [destruct text; cbn [tl length] in *; lia|exact H]|].
  destruct (process_rule_sim rule strict group text st es Hrule H) as [(e & -> & ->)|([l1 st1] & [l2 es2] & -> & -> & E & Hl & H')];
    cbn [mbind option_bind]; [left; eauto|]; cbn [fst snd] in *; subst l2; apply IH; [lia|exact H'].
Qed.
Lemma rulestr_sim rule_str strict st es : implements st es ->
  same_outcome implements (ssl_cipher_process_rulestr rule_str strict st) (ssl_cipher_process_rulestr rule_str strict es).
Proof. intros H; apply process_rulestr_sim; [lia|exact H]. Qed.

Lemma rule_string_sim rule_str strict st es : implements st es ->
  same_outcome implements (apply_rule_string rule_str strict st) (apply_rule_string rule_str strict es).
Proof.
  intros H; unfold apply_rule_string; case_bool_decide; cbn [mbind option_bind].
  - destruct (rulestr_sim SSL_DEFAULT_CIPHER_LIST strict st es H) as [(e & -> & ->)|(st' & es' & -> & -> & H')]; cbn [mbind option_bind].
    + left; exists e; now destruct (if peek _ =? 58 then _ else _).
    + destruct (if peek _ =? 58 then _ else _); [right; eauto|now apply rulestr_sim].
  - destruct rule_str; [right; eauto|now apply rulestr_sim].
Qed.
End Simulation.

(** * The initial list *)

Lemma initial_chain cs : forall pre, let ns := co_list (initial_list (pre ++ cs)) in
  chain ns (if (length pre =? 0)%nat then None else Some (length pre - 1)%nat)
    (imap (fun i c => ((length pre + i)%nat, initial_entry c)) cs) None.
Proof.
  induction cs as [|c cs IH]; intros pre ns; [exact I|]; cbn [imap chain]; rewrite Nat.add_0_r; split.
  - unfold ns, initial_list; cbn [co_list]; rewrite list_lookup_imap, lookup_app_r, Nat.sub_diag by lia; cbn [fmap option_fmap option_map lookup list_lookup].
    rewrite length_app; cbn [length]; do 2 f_equal; destruct cs as [|c' cs]; cbn [imap or_head length];
      [rewrite (proj2 (Nat.ltb_ge _ _)) by lia; reflexivity|rewrite (proj2 (Nat.ltb_lt _ _)) by lia; f_equal; lia].
  - specialize (IH (pre ++ [c])); cbv zeta in IH; rewrite <- app_assoc, length_app in IH; cbn [app length] in IH.
    rewrite (proj2 (Nat.eqb_neq _ _)), Nat.add_sub in IH by lia; unfold ns.
    erewrite imap_ext; [exact IH|]; intros i x _; cbn; f_equal; lia.
Qed.

Lemma imap_shift (k : nat) cs : imap (fun i c => ((k + S i)%nat, initial_entry c)) cs = imap (fun i c => ((S k + i)%nat, initial_entry c)) cs.
Proof. apply imap_ext; intros i x _; cbn; f_equal; lia. Qed.

Lemma imap_nodes cs : forall k, let l := imap (fun i c => ((k + i)%nat, initial_entry c)) cs in
  names l = seq k (length cs) /\ map snd l = map initial_entry cs /\
  forall p, or_last l p = match cs with [] => p | _ => Some (k + length cs - 1)%nat end.
Proof.
  induction cs as [|c cs IH]; intros k; [easy|]; destruct (IH (S k)) as (E1 & E2 & E3); cbn [imap].
  change (imap ((fun i c0 => ((k + i)%nat, initial_entry c0)) ∘ S) cs) with (imap (fun i c => ((k + S i)%nat, initial_entry c)) cs).
  rewrite imap_shift; cbn [names map fst snd length seq or_last]; rewrite Nat.add_0_r; split; [now f_equal|]; split; [now f_equal|].
  intros p; rewrite E3; destruct cs; f_equal; cbn [length]; lia.
Qed.

Lemma initial_implements cs : cs <> [] -> implements (initial_list cs) (map initial_entry cs).
Proof.
  intros Hcs; exists (imap (fun i c => ((0 + i)%nat, initial_entry c)) cs); destruct (imap_nodes cs 0) as (E1 & E2 & E3); split; [|exact E2].
  split; [exact (initial_chain cs [])|]; split; [rewrite E1; apply NoDup_seq|]; rewrite E3.
  destruct cs as [|c cs]; [easy|]; split; reflexivity.
Qed.

(** * The result *)

Section Result.
  Context {HA : Allocator}.

Lemma push_active_spec es : forall sk flags sk' flags', stack_wf sk -> Stack.num sk = zlen flags -> push_active es sk flags = Some (sk', flags') ->
  stack_wf sk' /\ Stack.num sk' = zlen flags' /\
  StackSpec.contents sk' = StackSpec.contents sk ++ map (fun e => id (cipher_of e)) (List.filter active es) /\
  flags' = flags ++ map in_group (List.filter active es).
Proof.
  induction es as [|e es IH]; intros sk flags sk' flags' Hwf Hn; cbn [push_active List.filter].
  { intros [= <- <-]; cbn [map]; rewrite !app_nil_r; auto. }
  destruct (active e); [|now apply IH]; destruct (OPENSSL_sk_push sk (id (cipher_of e))) as [n r] eqn:Ep; intros H.
  destruct (Z.eq_dec n 0) as [->|Hnz]; [discriminate|].
  destruct (sk_insert_spec sk (id (cipher_of e)) (Stack.num sk) n r Hwf ltac:(destruct Hwf as (? & ? & ?); lia) Ep Hnz) as (s & -> & Hs & En & Es & _ & _ & Ec).
  assert (push_active es s (flags ++ [in_group e]) = Some (sk', flags')) as H' by (destruct n; [easy|exact H..]).
  destruct (IH s (flags ++ [in_group e]) _ _ Hs ltac:(rewrite zlen_app, zlen_cons, zlen_nil; lia) H') as (G1 & G2 & G3 & ->); split; [exact G1|]; split; [exact G2|].
  rewrite G3, Ec, ztake_all, zdrop_all by (rewrite zlen_contents by exact Hwf; lia); cbn [map]; now rewrite <- !app_assoc.
Qed.
End Result.

(** * What holds of every result *)

Section Invariants.
  Context {HA : Allocator}.

(** An invariant of the state of the parser: whether it is in a group, whether
    there has been one, and the list. *)
Lemma rulestr_invariant (P : bool -> bool -> list entry -> Prop) strict :
  (forall g hg cipher_id al rule bits es, a_rule rule -> (g || hg = true -> rule = CIPHER_ADD) -> P g hg es ->
     P g hg (list_rule cipher_id al rule bits g es)) ->
  (forall hg es, P true hg es -> P false hg (map_last (fun e => with_active (active e) false e) es)) ->
  (forall hg es, P false hg es -> P true true es) ->
  forall fuel g hg l es es', P g hg es -> process_rulestr fuel strict g hg l es = Some (inr es') -> exists hg', P false hg' es'.
Proof.
  intros Hrule Hend Hstart; induction fuel as [|fuel IH]; intros g hg l es es' HP; cbn [process_rulestr]; [discriminate|].
  destruct l as [|ch l]; [destruct g; [discriminate|]; intros [= <-]; eauto|].
  case_if; [bool_facts; subst g; cbn [end_group list_order mbind option_bind]; apply IH; auto|]; case_if; [now apply IH|].
  case_if; [discriminate|]; case_if; [bool_facts; subst g; apply IH; eauto|].
  set (op := if g then None else operator ch).
  destruct (match op with Some rule => (rule, l) | None => (CIPHER_ADD, ch :: l) end) as [rule text] eqn:Ert.
  assert ((rule = CIPHER_SPECIAL \/ a_rule rule) /\ (g = true -> rule = CIPHER_ADD)) as [Hr Hg].
  { unfold op in Ert; destruct g; [injection Ert as <- _; unfold a_rule; auto|]; split; [|easy].
    destruct (operator ch) as [r|] eqn:Eo; injection Ert as <- _; [now apply operator_rule in Eo|unfold a_rule; auto]. }
  destruct (hg && negb (rule =? CIPHER_ADD)) eqn:Ehg; [discriminate|].
  assert (g || hg = true -> rule = CIPHER_ADD) as Hadd.
  { intros H; apply orb_true_iff in H as [H|H]; [auto|]; rewrite H in Ehg; cbn [andb] in Ehg; bool_facts; auto. }
  case_if; [now apply IH|]; destruct (process_rule rule strict g text es) as [[e|[l2 es2]]|] eqn:Ep; try discriminate; cbn [mbind option_bind].
  apply IH; clear IH; revert Ep; unfold process_rule; destruct (read_parts _ _ _ _ _ _ _ _) as [[e|p]|]; try discriminate; cbn [mbind option_bind].
  destruct (Z.eqb_spec rule CIPHER_SPECIAL) as [->|Hne].
  - case_if; [discriminate|]; unfold ssl_cipher_strength_sort; cbn [entries list_order mbind option_bind]; case_if; [discriminate|].
    destruct (order_by_strength _ _ es) as [es3|] eqn:Eo; [|discriminate]; cbn [mbind option_bind]; intros [= _ <-].
    assert (g || hg = false) as Hf by (destruct (g || hg); [specialize (Hadd eq_refl); discriminate|reflexivity]).
    apply orb_false_iff in Hf as [-> ->]; revert Eo HP; clear - Hrule; generalize (Z.to_nat (max_strength es + 1)) as n.
    generalize (count_uses es (zrep (max_strength es + 1) 0)) as uses; intros uses n; revert es es3; induction n as [|n IHn]; intros es es3; cbn [order_by_strength].
    + intros [= <-]; auto.
    + case_if; cbn [apply_rule list_order mbind option_bind]; intros Eo HP; [|now apply (IHn es)].
      eapply IHn; [exact Eo|]; apply Hrule; [unfold a_rule; auto|discriminate|exact HP].
  - destruct (skip_rule p); [intros [= _ <-]; exact HP|]; cbn [apply_rule list_order mbind option_bind]; intros [= _ <-].
    apply Hrule; [now destruct Hr|exact Hadd|exact HP].
Qed.

Lemma partition_perm {X} (f : X -> bool) l : List.filter (fun x => negb (f x)) l ++ List.filter f l ≡ₚ l.
Proof.
  induction l as [|x l IH]; [reflexivity|]; cbn [List.filter]; destruct (f x); cbn [negb app].
  - now rewrite <- Permutation_middle, IH.
  - now rewrite IH.
Qed.

Lemma map_moved rule group l : map cipher_of (map (moved_entry rule group) l) = map cipher_of l.
Proof. rewrite map_map; apply map_ext; intros e; unfold moved_entry; now repeat case_if. Qed.

(** No rule adds a suite to the list. *)
Lemma list_rule_ciphers cipher_id al rule bits group es : map cipher_of (list_rule cipher_id al rule bits group es) ⊆+ map cipher_of es.
Proof.
  unfold list_rule; case_if; [reflexivity|]; unfold rule_on_list; cbv zeta.
  assert (map cipher_of (List.filter (fun x => negb (selected cipher_id al bits x && moves rule x)) es) ++
    map cipher_of (List.filter (fun x => selected cipher_id al bits x && moves rule x) es) ≡ₚ map cipher_of es) as Hp by
    (rewrite <- map_app; apply Permutation_map; exact (partition_perm (fun x => selected cipher_id al bits x && moves rule x) es)).
  repeat case_if; rewrite ?map_app, ?map_moved, ?Hp; [reflexivity|now rewrite Permutation_app_comm, Hp| |reflexivity].
  set (k := fun x => negb _); rewrite <- (partition_perm (fun x => negb (k x)) es) at 2; rewrite map_app.
  erewrite (List.filter_ext (fun x => negb (negb (k x))) k) by (intros; apply negb_involutive); apply submseteq_inserts_r; reflexivity.
Qed.

Lemma map_last_ciphers es : map cipher_of (map_last (fun e => with_active (active e) false e) es) = map cipher_of es.
Proof. induction es as [|x es _] using rev_ind; [reflexivity|]; rewrite map_last_snoc, !map_app; reflexivity. Qed.

(** The active suites are at the end of the list, only they can be in a group,
    and outside of a group the last one does not continue it. *)
Definition groups_ok (g hg : bool) (es : list entry) : Prop :=
  exists off on, es = off ++ on /\ Forall (fun e => active e = false /\ in_group e = false) off /\ Forall (fun e => active e = true) on /\
    (g = true -> hg = true) /\ (hg = false -> Forall (fun e => in_group e = false) on) /\ (g = false -> forall e, last on = Some e -> in_group e = false).

Lemma filter_agree {X} (f g : X -> bool) l : Forall (fun x => f x = g x) l -> List.filter f l = List.filter g l.
Proof. induction 1 as [|x l Hx _ IH]; [reflexivity|]; cbn [List.filter]; now rewrite Hx, IH. Qed.

Lemma Forall_filter {X} (P : X -> Prop) (f : X -> bool) l : Forall P l -> Forall P (List.filter f l).
Proof. induction 1 as [|x l Hx _ IH]; [constructor|]; cbn [List.filter]; destruct (f x); [now constructor|exact IH]. Qed.

Lemma filter_true {X} (l : list X) : List.filter (fun _ => true) l = l.
Proof. induction l as [|x l IH]; [reflexivity|]; cbn [List.filter]; now rewrite IH. Qed.

Lemma filter_false {X} (l : list X) : List.filter (fun _ => false) l = [].
Proof. now induction l. Qed.

(** What a rule makes of the inactive suites [off] and the active ones [on]. *)
Lemma rule_on_parts rule group sel off on : Forall (fun e => active e = false) off -> Forall (fun e => active e = true) on -> a_rule rule ->
  rule_on_list rule group sel (fun e => e) (fun _ e => e) (off ++ on) =
    let move := map (moved_entry rule group) in
    if rule =? CIPHER_ADD then List.filter (fun e => negb (sel e)) off ++ on ++ move (List.filter sel off)
    else if rule =? CIPHER_ORD then off ++ List.filter (fun e => negb (sel e)) on ++ move (List.filter sel on)
    else if rule =? CIPHER_DEL then move (List.filter sel on) ++ off ++ List.filter (fun e => negb (sel e)) on
    else List.filter (fun e => negb (sel e)) off ++ List.filter (fun e => negb (sel e)) on.
Proof.
  intros Hoff Hon Hrule; unfold rule_on_list; cbv zeta.
  assert (forall (f g : entry -> bool), (forall e, active e = false -> f e = g e) -> List.filter f off = List.filter g off) as Foff.
  { intros f g H; apply filter_agree; exact (Forall_impl _ _ _ Hoff H). }
  assert (forall (f g : entry -> bool), (forall e, active e = true -> f e = g e) -> List.filter f on = List.filter g on) as Fon.
  { intros f g H; apply filter_agree; exact (Forall_impl _ _ _ Hon H). }
  destruct Hrule as [-> |[-> |[-> | ->]]]; unfold moves; cbn [Z.eqb Pos.eqb CIPHER_ADD CIPHER_ORD CIPHER_DEL CIPHER_KILL orb]; rewrite !List.filter_app.
  - rewrite (Foff _ (fun e => negb (sel e))), (Foff (fun e => sel e && negb (active e)) sel),
      (Fon _ (fun _ => true)), (Fon (fun e => sel e && negb (active e)) (fun _ => false)), filter_true, filter_false, app_nil_r, <- app_assoc;
      try reflexivity; intros e ->; destruct (sel e); reflexivity.
  - rewrite (Fon _ (fun e => negb (sel e))), (Fon (fun e => sel e && active e) sel),
      (Foff _ (fun _ => true)), (Foff (fun e => sel e && active e) (fun _ => false)), filter_true, filter_false, <- app_assoc;
      try reflexivity; intros e ->; destruct (sel e); reflexivity.
  - rewrite (Fon _ sel), (Fon (fun e => negb (sel e && active e)) (fun e => negb (sel e))),
      (Foff _ (fun _ => false)), (Foff (fun e => negb (sel e && active e)) (fun _ => true)), filter_true, filter_false;
      try reflexivity; intros e ->; destruct (sel e); reflexivity.
  - reflexivity.
Qed.

Lemma last_flag (l : list entry) e : Forall (fun e => in_group e = false) l -> last l = Some e -> in_group e = false.
Proof. intros Hl He; apply last_Some in He as [l' ->]; apply Forall_app in Hl as [_ Hl]; now apply Forall_cons_1 in Hl as [Hl _]. Qed.

Lemma groups_flat off on hg : Forall (fun e => active e = false /\ in_group e = false) off ->
  Forall (fun e => active e = true /\ in_group e = false) on -> groups_ok false hg (off ++ on).
Proof.
  intros Hoff Hon; assert (Forall (fun e => in_group e = false) on) as Hf by (refine (Forall_impl _ _ _ Hon _); intros e He; apply He).
  exists off, on; split; [reflexivity|]; split; [exact Hoff|]; split; [refine (Forall_impl _ _ _ Hon _); intros e He; apply He|].
  split; [discriminate|]; split; [auto|]; intros _ e; now apply last_flag.
Qed.

Lemma list_rule_groups g hg cipher_id al rule bits es : a_rule rule -> (g || hg = true -> rule = CIPHER_ADD) ->
  groups_ok g hg es -> groups_ok g hg (list_rule cipher_id al rule bits g es).
Proof.
  intros Hrule Hadd (off & on & -> & Hoff & Hon & Hghg & Hhg & Hg); unfold list_rule; case_if; [exists off, on; auto 10|].
  set (sel := selected cipher_id al bits).
  assert (Forall (fun e => active e = false) off) as Hoff' by (refine (Forall_impl _ _ _ Hoff _); intros e He; apply He).
  rewrite rule_on_parts by assumption; cbv zeta; destruct (Z.eq_dec rule CIPHER_ADD) as [->|Hne].
  - assert (Forall (fun e => active e = true /\ in_group e = g) (map (moved_entry CIPHER_ADD g) (List.filter sel off))) as Hnew by
      (apply List.Forall_map, Forall_true; now intros e).
    exists (List.filter (fun e => negb (sel e)) off), (on ++ map (moved_entry CIPHER_ADD g) (List.filter sel off)).
    split; [reflexivity|]; split; [now apply Forall_filter|].
    split; [apply Forall_app; split; [exact Hon|refine (Forall_impl _ _ _ Hnew _); intros e He; apply He]|]; split; [exact Hghg|]; split.
    + intros Eh; assert (g = false) as Eg by (destruct g; [specialize (Hghg eq_refl); congruence|reflexivity]).
      apply Forall_app; split; [now apply Hhg|]; refine (Forall_impl _ _ _ Hnew _); intros e [_ ->]; exact Eg.
    + intros Eg e; destruct (List.filter sel off) as [|x l] eqn:Ef; [cbn [map]; rewrite app_nil_r; now apply Hg|].
      cbn [map] in *; rewrite last_app_cons; apply last_flag; refine (Forall_impl _ _ _ Hnew _); intros y [_ ->]; exact Eg.
  - assert (g = false /\ hg = false) as [-> ->] by (destruct g, hg; auto; now destruct (Hne (Hadd eq_refl))).
    assert (Forall (fun e => active e = true /\ in_group e = false) on) as Hon' by
      (apply Forall_forall; intros e He; rewrite Forall_forall in Hon; specialize (Hhg eq_refl); rewrite Forall_forall in Hhg; auto).
    destruct Hrule as [-> |[-> |[-> | ->]]]; [easy|..]; cbn [Z.eqb Pos.eqb CIPHER_ADD CIPHER_ORD CIPHER_DEL CIPHER_KILL];
      rewrite ?app_assoc; try rewrite <- (app_assoc off); apply groups_flat; rewrite ?Forall_app; repeat split; auto using Forall_filter.
    + apply List.Forall_map; refine (Forall_impl _ _ _ (Forall_filter _ sel _ Hon') _); intros e [He _]; split; [exact He|reflexivity].
    + apply List.Forall_map, Forall_true; now intros e.
Qed.

Lemma end_group_ok hg es : groups_ok true hg es -> groups_ok false hg (map_last (fun e => with_active (active e) false e) es).
Proof.
  intros (off & on & -> & Hoff & Hon & Hghg & Hhg & _); destruct on as [|x on _] using rev_ind.
  - rewrite app_nil_r; assert (map_last (fun e => with_active (active e) false e) off = off) as ->.
    { destruct off as [|y off _] using rev_ind; [reflexivity|]; rewrite map_last_snoc; apply Forall_app in Hoff as [_ Hy].
      apply Forall_cons_1 in Hy as [[Ha Hi] _]; destruct y; cbn in *; now subst. }
    rewrite <- (app_nil_r off); apply groups_flat; auto.
  - rewrite app_assoc, map_last_snoc, <- app_assoc; apply Forall_app in Hon as [Hon Hx]; apply Forall_cons_1 in Hx as [Hx _].
    eexists off, _; split; [reflexivity|]; split; [exact Hoff|]; split; [apply Forall_app; split; [exact Hon|now apply Forall_singleton]|].
    split; [discriminate|]; split; [intros Eh; specialize (Hghg eq_refl); congruence|]; intros _ e; rewrite last_snoc; now intros [= <-].
Qed.

Lemma start_group_ok hg es : groups_ok false hg es -> groups_ok true true es.
Proof. intros (off & on & -> & Hoff & Hon & _); exists off, on; repeat (split; [easy|]); easy. Qed.

Lemma rulestr_groups strict l es es' : groups_ok false false es -> ssl_cipher_process_rulestr l strict es = Some (inr es') ->
  exists hg, groups_ok false hg es'.
Proof.
  intros H E; eapply (rulestr_invariant groups_ok strict); [| | |exact H|exact E].
  - intros; now apply list_rule_groups.
  - intros; now apply end_group_ok.
  - intros; eapply start_group_ok; eauto.
Qed.

Lemma rulestr_ciphers fuel strict g hg l es es' : process_rulestr fuel strict g hg l es = Some (inr es') -> map cipher_of es' ⊆+ map cipher_of es.
Proof.
  intros E; edestruct (rulestr_invariant (fun _ _ es' => map cipher_of es' ⊆+ map cipher_of es) strict) as [_ H]; [| | | |exact E|exact H].
  - intros g' hg' cipher_id al rule bits es1 _ _ H; etransitivity; [apply list_rule_ciphers|exact H].
  - intros _ es1 H; now rewrite map_last_ciphers.
  - auto.
  - reflexivity.
Qed.

(** The default rule adds to the list what it selects. *)
Lemma default_rule strict (es : list entry) :
  ssl_cipher_process_rulestr SSL_DEFAULT_CIPHER_LIST strict es =
    Some (inr (list_rule 0 (Some (fst (merge_alias (no_alias CIPHER_ADD) (alias "ALL" u32_max u32_max u32_max u32_max 0 false) false)))
      CIPHER_ADD (-1) false es)).
Proof. destruct strict; reflexivity. Qed.

Lemma rule_string_ok rule_str strict es es' : groups_ok false false es -> apply_rule_string rule_str strict es = Some (inr es') ->
  (exists hg, groups_ok false hg es') /\ map cipher_of es' ⊆+ map cipher_of es.
Proof.
  intros H; assert (forall l es1, groups_ok false false es1 -> map cipher_of es1 ⊆+ map cipher_of es ->
    match l with [] => Some (inr es1) | _ => ssl_cipher_process_rulestr l strict es1 end = Some (inr es') ->
    (exists hg, groups_ok false hg es') /\ map cipher_of es' ⊆+ map cipher_of es) as Hrun.
  { intros [|c l] es1 H1 Hs; [intros [= <-]; eauto|]; intros E; split; [eapply rulestr_groups; eauto|].
    etransitivity; [eapply rulestr_ciphers; exact E|exact Hs]. }
  unfold apply_rule_string; case_bool_decide; [rewrite default_rule|]; cbn [mbind option_bind]; intros E.
  - refine (Hrun _ _ _ _ E); [apply list_rule_groups; [unfold a_rule; auto|auto|exact H]|apply list_rule_ciphers].
  - refine (Hrun _ _ H _ E); reflexivity.
Qed.

Lemma initial_groups cs : groups_ok false false (map initial_entry cs).
Proof. rewrite <- (app_nil_r (map _ cs)); apply groups_flat; [|constructor]; apply List.Forall_map, Forall_true; now intros c. Qed.

(** A suite that a rule with [!] removed is not in any list that later rules
    make. *)
Lemma killed_for_good fuel strict hg l cipher_id al bits es es' :
  default false (matches_nothing cipher_id al bits) = false ->
  process_rulestr fuel strict false hg l (list_rule cipher_id al CIPHER_KILL bits false es) = Some (inr es') ->
  Forall (fun e => selected cipher_id al bits e = false) es'.
Proof.
  intros Hn E; apply rulestr_ciphers in E; apply Forall_forall; intros e He.
  assert (cipher_of e ∈ map cipher_of (list_rule cipher_id al CIPHER_KILL bits false es)) as Hin.
  { eapply elem_of_submseteq; [|exact E]; rewrite list_elem_of_In; apply in_map, list_elem_of_In; exact He. }
  apply list_elem_of_In, in_map_iff in Hin as (e' & Ee & Hin); unfold list_rule in Hin; rewrite Hn in Hin.
  unfold rule_on_list in Hin; cbn [Z.eqb Pos.eqb CIPHER_KILL CIPHER_ADD CIPHER_ORD CIPHER_DEL orb] in Hin.
  apply filter_In in Hin as [_ Hs]; apply negb_true_iff in Hs; unfold selected in *; now rewrite <- Ee.
Qed.
End Invariants.

(** * Sorting by strength *)

Lemma znth_insert l i v k : 0 <= i < zlen l -> 0 <= k -> znth (<[Z.to_nat i := v]> l) k = if k =? i then v else znth l k.
Proof.
  intros Hi Hk; change (<[Z.to_nat i := v]> l) with (zset l i v).
  destruct (Z.eqb_spec k i) as [->|]; [now apply znth_zset_eq|apply znth_zset_ne; lia].
Qed.

Definition bounded (n : Z) (es : list entry) : Prop := Forall (fun e => active e = true -> 0 <= strength e < n) es.

Lemma strength_nonneg e : 0 <= strength e.
Proof. unfold strength, SSL_CIPHER_get_bits; repeat case_if; cbn; lia. Qed.

Lemma max_strength_bound es : 0 <= max_strength es /\ bounded (max_strength es + 1) es.
Proof.
  assert (forall m, 0 <= m -> let m' := fold_left (fun m e => if active e && (m <? strength e) then strength e else m) es m in
    m <= m' /\ bounded (m' + 1) es) as H; [|exact (H 0 (Z.le_refl 0))].
  induction es as [|e es IH]; intros m Hm; cbn [fold_left]; [split; [lia|constructor]|]; pose proof (strength_nonneg e) as He.
  set (m1 := if active e && (m <? strength e) then strength e else m).
  assert (m <= m1 /\ (active e = true -> strength e <= m1)) as [H1 H2].
  { unfold m1; destruct (active e); cbn [andb]; [|split; [lia|easy]]; destruct (Z.ltb_spec m (strength e)); split; intros; lia. }
  destruct (IH m1 ltac:(lia)) as [H3 H4]; split; [lia|]; constructor; [intros Ha; specialize (H2 Ha); lia|exact H4].
Qed.

(** A strength that is used is counted. *)
Lemma count_uses_pos n es : bounded n es -> forall uses, zlen uses = n -> (forall k, 0 <= k < n -> 0 <= znth uses k) ->
  let uses' := count_uses es uses in
  forall k, 0 <= k < n -> znth uses k <= znth uses' k /\ (Exists (fun e => active e = true /\ strength e = k) es -> 0 < znth uses' k).
Proof.
  induction 1 as [|e es He Hes IH]; intros uses Hl Hpos uses' k Hk; [split; [apply Z.le_refl|now intros H%Exists_nil]|].
  unfold uses', count_uses; cbn [fold_left]; fold (count_uses es) in *; destruct (active e) eqn:Ea.
  - specialize (He eq_refl); set (u1 := <[_ := _]> uses).
    assert (zlen u1 = n) as Hl1 by (unfold u1, zlen; now rewrite length_insert).
    assert (forall k, 0 <= k -> znth u1 k = if k =? strength e then znth uses (strength e) + 1 else znth uses k) as Hu by
      (intros j Hj; unfold u1; apply znth_insert; lia).
    destruct (IH u1 Hl1) with (k := k) as [H1 H2]; [intros j Hj; rewrite Hu by lia; case_if; [specialize (Hpos (strength e) ltac:(lia))|specialize (Hpos j Hj)]; lia|exact Hk|].
    fold (count_uses es u1); rewrite Hu in H1 by lia; split; [destruct (Z.eqb_spec k (strength e)) as [->|]; lia|].
    intros H; apply Exists_cons in H as [[_ E]|H]; [|now apply H2]; rewrite E, Z.eqb_refl in H1; specialize (Hpos k Hk); rewrite <- E in *; lia.
  - destruct (IH uses Hl Hpos k Hk) as [H1 H2]; split; [exact H1|]; intros H; apply Exists_cons in H as [[H _]|H]; [congruence|now apply H2].
Qed.

Definition ungroup : entry -> entry := moved_entry CIPHER_ORD false.
Definition of_strength (k : Z) (es : list entry) : list entry := List.filter (fun e => k =? strength e) es.

(** The entries of the strengths [n] - 1 down to 0. *)
Fixpoint by_strength (n : nat) (es : list entry) : list entry :=
  match n with O => [] | S n => map ungroup (of_strength (Z.of_nat n) es) ++ by_strength n es end.

Lemma strength_ungroup e : strength (ungroup e) = strength e.
Proof. reflexivity. Qed.

Lemma of_strength_other k n es : k <> n -> of_strength k (List.filter (fun e => negb (n =? strength e)) es) = of_strength k es.
Proof.
  intros Hne; unfold of_strength; induction es as [|e es IH]; [reflexivity|]; cbn [List.filter].
  destruct (Z.eqb_spec n (strength e)) as [E|E]; cbn [negb List.filter]; [|now rewrite IH].
  now rewrite (proj2 (Z.eqb_neq k (strength e))) by lia.
Qed.

Lemma by_strength_other n m es : (n <= m)%nat -> by_strength n (List.filter (fun e => negb (Z.of_nat m =? strength e)) es) = by_strength n es.
Proof. induction n as [|n IH]; intros Hn; [reflexivity|]; cbn [by_strength]; rewrite of_strength_other, IH by lia; reflexivity. Qed.

Lemma order_rule k off rest done : Forall (fun e => active e = false) off -> Forall (fun e => active e = true) (rest ++ done) ->
  Forall (fun e => k < strength e) done -> 0 <= k ->
  list_rule 0 None CIPHER_ORD k false (off ++ rest ++ done) =
    off ++ List.filter (fun e => negb (k =? strength e)) rest ++ done ++ map ungroup (of_strength k rest).
Proof.
  intros Hoff Hon Hdone Hk; unfold list_rule, matches_nothing; rewrite (proj2 (Z.eqb_neq k (-1))) by lia; cbn [Z.eqb andb default].
  rewrite rule_on_parts by (unfold a_rule; auto); cbv zeta; cbn [Z.eqb Pos.eqb CIPHER_ADD CIPHER_ORD CIPHER_DEL]; f_equal.
  assert (forall e, selected 0 None k e = (k =? strength e)) as Hsel.
  { intros e; unfold selected, selects; cbn [Z.eqb negb]; now rewrite (proj2 (Z.leb_le 0 k) Hk). }
  rewrite !(List.filter_ext (fun e => negb (selected 0 None k e)) (fun e => negb (k =? strength e))) by (intros e; now rewrite Hsel).
  rewrite !(List.filter_ext (selected 0 None k) (fun e => k =? strength e)) by exact Hsel; rewrite !List.filter_app.
  assert (List.filter (fun e => negb (k =? strength e)) done = done /\ List.filter (fun e => k =? strength e) done = []) as [-> ->].
  { split; [rewrite <- (filter_true done) at 2|rewrite <- (filter_false done)]; apply filter_agree; refine (Forall_impl _ _ _ Hdone _);
      intros e He; rewrite (proj2 (Z.eqb_neq k (strength e))) by lia; reflexivity. }
  now rewrite app_nil_r, <- app_assoc.
Qed.

Lemma order_by_strength_spec uses n : forall off rest done, Forall (fun e => active e = false) off ->
  Forall (fun e => active e = true) (rest ++ done) -> Forall (fun e => 0 <= strength e < Z.of_nat n) rest ->
  Forall (fun e => Z.of_nat n <= strength e) done ->
  (forall k, 0 <= k < Z.of_nat n -> of_strength k rest <> [] -> 0 < znth uses k) ->
  order_by_strength uses n (off ++ rest ++ done) = Some (off ++ done ++ by_strength n rest).
Proof.
  induction n as [|n IH]; intros off rest done Hoff Hon Hrest Hdone Huse; cbn [order_by_strength by_strength].
  { destruct rest as [|e rest]; [now rewrite app_nil_r|]; apply Forall_cons_1 in Hrest as [H _]; lia. }
  assert (Forall (fun e => Z.of_nat n < strength e) done) as Hdone' by (refine (Forall_impl _ _ _ Hdone _); intros e He; lia).
  set (sel := of_strength (Z.of_nat n) rest); set (rest' := List.filter (fun e => negb (Z.of_nat n =? strength e)) rest).
  assert (Forall (fun e => 0 <= strength e < Z.of_nat n) rest') as Hrest'.
  { apply Forall_forall; intros e He; apply list_elem_of_In, filter_In in He as [He Hne]; bool_facts.
    apply list_elem_of_In in He; rewrite Forall_forall in Hrest; specialize (Hrest e He); lia. }
  apply Forall_app in Hon as [Ha Hb].
  assert (forall k, 0 <= k < Z.of_nat n -> of_strength k rest' <> [] -> 0 < znth uses k) as Huse'.
  { intros k Hk; unfold rest'; rewrite of_strength_other by lia; apply Huse; lia. }
  destruct (Z.ltb_spec 0 (znth uses (Z.of_nat n))) as [Hu|Hu]; cbn [apply_rule list_order mbind option_bind].
  - rewrite order_rule by (auto; try lia; now apply Forall_app); fold rest' sel.
    rewrite (IH off rest' (done ++ map ungroup sel) Hoff); [unfold rest'; rewrite by_strength_other by lia; now rewrite <- app_assoc|..]; auto.
    + rewrite !Forall_app; split; [now apply Forall_filter|]; split; [exact Hb|]; apply List.Forall_map.
      refine (Forall_impl _ _ _ (Forall_filter _ _ _ Ha) _); now intros e.
    + apply Forall_app; split; [refine (Forall_impl _ _ _ Hdone' _); intros e He; lia|]; apply List.Forall_map, Forall_forall; intros e He.
      apply list_elem_of_In, filter_In in He as [_ He]; bool_facts; rewrite strength_ungroup; lia.
  - assert (sel = []) as Es by (destruct (decide (sel = [])) as [|Hne]; [auto|specialize (Huse (Z.of_nat n) ltac:(lia) Hne); lia]).
    assert (rest' = rest) as Er.
    { unfold rest'; rewrite <- (filter_true rest) at 2; apply filter_agree, Forall_forall; intros e He.
      destruct (Z.eqb_spec (Z.of_nat n) (strength e)) as [E|]; [exfalso|reflexivity].
      assert (In e sel) as Hin by (apply filter_In; split; [now apply list_elem_of_In|now apply Z.eqb_eq]); now rewrite Es in Hin. }
    rewrite Er in Hrest', Huse'; rewrite Es; cbn [map app]; apply IH; auto; [now apply Forall_app|].
    refine (Forall_impl _ _ _ Hdone' _); intros e He; lia.
Qed.

Lemma of_strength_by n : forall k es, of_strength k (by_strength n es) = if (0 <=? k) && (k <? Z.of_nat n) then map ungroup (of_strength k es) else [].
Proof.
  assert (forall k n es, of_strength k (map ungroup (of_strength n es)) = if k =? n then map ungroup (of_strength k es) else []) as Hm.
  { intros k m es; unfold of_strength; induction es as [|e es IH]; [now case_if|]; cbn [List.filter]; destruct (Z.eqb_spec m (strength e)) as [E|E].
    - cbn [map List.filter]; rewrite strength_ungroup, IH; destruct (Z.eqb_spec k m) as [->|]; [now rewrite (proj2 (Z.eqb_eq m (strength e)) E)|].
      now rewrite (proj2 (Z.eqb_neq k (strength e))) by lia.
    - rewrite IH; destruct (Z.eqb_spec k m) as [->|]; [now rewrite (proj2 (Z.eqb_neq m (strength e)) E)|reflexivity]. }
  induction n as [|n IH]; intros k es; cbn [by_strength]; [destruct (Z.leb_spec 0 k); cbn [andb]; [rewrite (proj2 (Z.ltb_ge _ _)) by lia|]; reflexivity|].
  unfold of_strength at 1; rewrite List.filter_app; fold (of_strength k); fold (of_strength k (map ungroup (of_strength (Z.of_nat n) es))).
  fold (of_strength k (by_strength n es)); rewrite Hm, IH; destruct (Z.eqb_spec k (Z.of_nat n)) as [->|].
  - rewrite (proj2 (Z.leb_le _ _)), Z.ltb_irrefl, (proj2 (Z.ltb_lt _ _)) by lia; cbn [andb]; apply app_nil_r.
  - destruct (Z.leb_spec 0 k); cbn [andb app]; [|reflexivity]; destruct (Z.ltb_spec k (Z.of_nat n)), (Z.ltb_spec k (Z.of_nat (S n))); try lia; reflexivity.
Qed.

Lemma by_strength_sorted n es : Sorted.StronglySorted (fun a b => strength b <= strength a) (by_strength n es) /\
  Forall (fun e => strength e < Z.of_nat n) (by_strength n es).
Proof.
  induction n as [|n [IH1 IH2]]; cbn [by_strength]; [split; constructor|].
  assert (Forall (fun e => strength e = Z.of_nat n) (map ungroup (of_strength (Z.of_nat n) es))) as Hn.
  { apply List.Forall_map, Forall_forall; intros e He; apply list_elem_of_In, filter_In in He as [_ He]; bool_facts; now rewrite strength_ungroup. }
  split; [|apply Forall_app; split; [refine (Forall_impl _ _ _ Hn _)|refine (Forall_impl _ _ _ IH2 _)]; intros e He; lia].
  induction Hn as [|e l He Hl IHl]; [exact IH1|]; cbn [app]; constructor; [exact IHl|].
  apply List.Forall_app; split; apply List.Forall_forall; intros x Hx; apply list_elem_of_In in Hx.
  - rewrite Forall_forall in Hl; specialize (Hl x Hx); lia.
  - rewrite Forall_forall in IH2; specialize (IH2 x Hx); lia.
Qed.

(** * The list of a rule string *)

Lemma preference_total hw : exists cs, preference hw = Some cs /\ zlen cs = 21 /\ NoDup (map id cs).
Proof.
  assert (match preference hw with Some cs => (zlen cs =? 21) && bool_decide (NoDup (map id cs)) | None => false end = true) as H
    by (destruct hw; vm_compute; reflexivity).
  destruct (preference hw) as [cs|]; [|discriminate]; apply andb_true_iff in H as [H1 H2].
  exists cs; split; [reflexivity|]; split; [now apply Z.eqb_eq|now apply bool_decide_eq_true in H2].
Qed.

Section Created.
  Context {HA : Allocator}.

Definition id_of (e : entry) : Z := id (cipher_of e).

Lemma grow_size_small a : 1 <= a <= 2 ^ 32 -> grow_size a = Some (2 * a).
Proof.
  intros Ha; unfold grow_size; rewrite Z.shiftl_mul_pow2, uw_small by lia; replace (a * 2 ^ 1) with (2 * a) by lia.
  assert (grow_overflows a (2 * a) = false) as E; [|cbv zeta; rewrite !E; reflexivity].
  unfold grow_overflows; rewrite (proj2 (Z.ltb_ge (2 * a) a)) by lia; change ptr_size with 8; rewrite uw_small, Z.div_mul, Z.eqb_refl by lia; reflexivity.
Qed.

(** There is room for the suites when there is memory. *)
Lemma push_active_succeeds es : AllocUpTo (2 ^ 64) -> forall sk flags, stack_wf sk -> Stack.num_alloc sk <= 2 * Stack.num sk + 4 ->
  Stack.num sk + zlen (List.filter active es) <= 2 ^ 30 -> is_Some (push_active es sk flags).
Proof.
  intros HM; induction es as [|e es IH]; intros sk flags Hwf Ha Hn; cbn [push_active List.filter] in *; [now eexists|].
  destruct (active e); [|now apply IH]; rewrite zlen_cons in Hn; pose proof (zlen_nonneg (List.filter active es)) as Hz.
  pose proof Hwf as (_ & Hnum & Hal).
  assert (exists s1, sk_grow sk = Some s1 /\ Stack.num_alloc s1 <= 2 * Stack.num sk + 6) as (s1 & Eg & Hs1).
  { unfold sk_grow; destruct (Z.leb_spec (Stack.num_alloc sk) (Stack.num sk + 1)); [|exists sk; split; [reflexivity|lia]].
    rewrite grow_size_small by lia; change ptr_size with 8.
    rewrite HM by (rewrite uw_small; lia); eexists; split; [reflexivity|]; cbn [Stack.num_alloc]; lia. }
  destruct (OPENSSL_sk_push sk (id (cipher_of e))) as [n r] eqn:Ep.
  assert (n = Stack.num sk + 1 /\ exists s2, r = Some s2 /\ Stack.num_alloc s2 = Stack.num_alloc s1) as (En & s2 & -> & Es2).
  { revert Ep; unfold OPENSSL_sk_push, OPENSSL_sk_insert; rewrite (proj2 (Z.leb_gt INT_MAX (Stack.num sk))) by (unfold INT_MAX; lia).
    destruct (sk_grow_spec sk s1 Hwf Eg) as (_ & E1 & _); rewrite Eg, E1; intros [= <- <-]; split; [reflexivity|]; now eexists. }
  destruct (sk_insert_spec sk (id (cipher_of e)) (Stack.num sk) n (Some s2) Hwf ltac:(lia) Ep ltac:(lia)) as (s & [= <-] & Hs & _ & Es & _).
  assert (is_Some (push_active es s2 (flags ++ [in_group e]))) as H by (apply IH; [exact Hs|lia|lia]).
  destruct n as [|n|n]; [lia|exact H|exact H].
Qed.
Definition chosen (es : list entry) : list entry := List.filter active es.

(** The list that the function stores for the entries [es]. *)
Definition created (es : list entry) (out : bool * option SSLCipherPreferenceList) : Prop :=
  exists l sk, out = (negb (zlen (chosen es) =? 0), Some l) /\ ciphers l = Some sk /\ stack_wf sk /\
    StackSpec.contents sk = map id_of (chosen es) /\ in_group_flags l = map in_group (chosen es).

Lemma new_null_wf sk : OPENSSL_sk_new_null = Some sk ->
  stack_wf sk /\ Stack.num sk = 0 /\ StackSpec.contents sk = [] /\ Stack.num_alloc sk = 4.
Proof. unfold OPENSSL_sk_new_null, OPENSSL_sk_new; case_if; [|discriminate]; intros [= <-]; repeat split; vm_compute; congruence. Qed.

Lemma init_created sk flags es : stack_wf sk -> Stack.num sk = zlen flags -> StackSpec.contents sk = map id_of (chosen es) ->
  flags = map in_group (chosen es) ->
  (SSLCipherPreferenceList_Init sk flags = None /\ malloc_ok (zlen flags) = false) \/
  exists l, SSLCipherPreferenceList_Init sk flags = Some l /\ created es (negb (OPENSSL_sk_num (ciphers l) =? 0), Some l).
Proof.
  intros Hwf Hn Hc Hf; unfold SSLCipherPreferenceList_Init; rewrite Hn, Z.eqb_refl; cbn [negb].
  destruct (Z.eqb_spec (zlen flags) 0), (malloc_ok (zlen flags)) eqn:Em; cbn [orb negb]; auto; right; eexists; (split; [reflexivity|]);
    eexists _, sk; (split; [cbn [ciphers OPENSSL_sk_num]; rewrite Hn, Hf, zlen_map; reflexivity|]); auto.
Qed.

Lemma create_spec sizeof_list hw rule_str strict : exists cs r,
  preference hw = Some cs /\ apply_rule_string rule_str strict (map initial_entry cs) = Some r /\
  match r with
  | inl _ => ssl_create_cipher_list sizeof_list hw rule_str strict = Some (false, None)
  | inr es =>
      (ssl_create_cipher_list sizeof_list hw rule_str strict = Some (false, None) /\ ~ (AllocUpTo (2 ^ 64) /\ 0 <= sizeof_list <= 2 ^ 64)) \/
      exists out, ssl_create_cipher_list sizeof_list hw rule_str strict = Some out /\ created es out
  end.
Proof.
  destruct (preference_total hw) as (cs & Ep & Hl & _); exists cs; unfold ssl_create_cipher_list; rewrite Ep; cbn [mbind option_bind].
  assert (cs <> []) as Hne by (intros ->; discriminate Hl).
  destruct (rule_string_sim rule_str strict _ _ (initial_implements cs Hne)) as [(e & E1 & E2)|(st & es & E1 & E2 & H)];
    rewrite E1, E2; cbn [mbind option_bind]; [exists (inl e); auto|exists (inr es); split; [reflexivity|]; split; [reflexivity|]].
  destruct OPENSSL_sk_new_null as [sk|] eqn:En; [|left; split; [reflexivity|]; intros [HM _]; revert En;
    unfold OPENSSL_sk_new_null, OPENSSL_sk_new; rewrite !HM by (vm_compute; split; discriminate); discriminate].
  destruct (malloc_ok (zlen kCiphers)) eqn:Em; cbn [negb]; [|left; split; [reflexivity|]; intros [HM _];
    rewrite HM in Em by (vm_compute; split; discriminate); discriminate].
  rewrite (implements_entries _ _ H); cbn [mbind option_bind]; destruct (new_null_wf _ En) as (Hwf & Hn & Hc & Ha).
  destruct (rule_string_ok _ _ _ _ (initial_groups cs) E2) as [_ Hsub]; apply submseteq_length in Hsub; rewrite !length_map in Hsub.
  assert (zlen (chosen es) <= 21) as Hch by (unfold chosen; pose proof (filter_length_le active es); unfold zlen in *; lia).
  destruct (push_active es sk []) as [[sk' flags]|] eqn:Eu; cbn [fst snd]; [|left; split; [reflexivity|]; intros [HM _];
    destruct (push_active_succeeds es HM sk [] Hwf ltac:(lia)) as [? E]; [fold (chosen es); lia|congruence]].
  destruct (push_active_spec es sk [] sk' flags Hwf Hn Eu) as (Hwf' & Hn' & Hc' & Hf); rewrite Hc in Hc'; cbn [app] in Hc', Hf.
  destruct (malloc_ok sizeof_list) eqn:Es; cbn [negb]; [|left; split; [reflexivity|]; intros [HM Hs]; rewrite HM in Es by exact Hs; discriminate].
  destruct (init_created sk' flags es Hwf' Hn' Hc' Hf) as [[-> Emf]|(l & -> & Hl')]; [|right; eauto].
  left; split; [reflexivity|]; intros [HM _]; rewrite HM in Emf; [discriminate|].
  rewrite Hf, zlen_map; fold (chosen es); pose proof (zlen_nonneg (chosen es)); lia.
Qed.

Lemma filter_sublist {X} (f : X -> bool) l : List.filter f l `sublist_of` l.
Proof. induction l as [|x l IH]; [constructor|]; cbn [List.filter]; destruct (f x); now constructor. Qed.

Lemma submseteq_NoDup {X} (l k : list X) : l ⊆+ k -> NoDup k -> NoDup l.
Proof. intros (k' & E)%submseteq_Permutation Hk; rewrite E in Hk; now apply NoDup_app in Hk as [? _]. Qed.

Lemma groups_last hg es : groups_ok false hg es -> last (map in_group (chosen es)) <> Some true.
Proof.
  intros (off & on & -> & Hoff & Hon & _ & _ & Hl); unfold chosen; rewrite List.filter_app.
  rewrite (filter_agree active (fun _ => false) off), (filter_agree active (fun _ => true) on), filter_false, filter_true; [|exact Hon|].
  - cbn [app]; destruct on as [|x on _] using rev_ind; [discriminate|]; rewrite map_app; cbn [map]; rewrite last_snoc.
    rewrite (Hl eq_refl x) by apply last_snoc; discriminate.
  - refine (Forall_impl _ _ _ Hoff _); now intros e [? _].
Qed.

(** The counts say which strengths the active entries have. *)
Lemma sort_parts off on : Forall (fun e => active e = false) off -> Forall (fun e => active e = true) on ->
  let m := max_strength (off ++ on) in
  order_by_strength (count_uses (off ++ on) (zrep (m + 1) 0)) (Z.to_nat (m + 1)) (off ++ on) = Some (off ++ by_strength (Z.to_nat (m + 1)) on).
Proof.
  intros Hoff Hon m; destruct (max_strength_bound (off ++ on)) as [Hm Hb]; fold m in Hm, Hb.
  pose proof (order_by_strength_spec (count_uses (off ++ on) (zrep (m + 1) 0)) (Z.to_nat (m + 1)) off on []) as H.
  rewrite !app_nil_r in H; apply H; auto; clear H; rewrite ?Z2Nat.id by lia.
  - apply Forall_app in Hb as [_ Hb]; apply Forall_forall; intros e He; rewrite Forall_forall in Hon, Hb; auto.
  - intros k Hk Hne; refine (proj2 (count_uses_pos (m + 1) (off ++ on) Hb (zrep (m + 1) 0) _ _ k Hk) _).
    + apply zlen_zrep; lia.
    + intros j Hj; rewrite znth_zrep by lia; lia.
    + destruct (of_strength k on) as [|e l] eqn:E; [easy|]; assert (In e (of_strength k on)) as He by (rewrite E; now left).
      apply filter_In in He as [He Hs]; apply Exists_app; right; apply Exists_exists; exists e; apply list_elem_of_In in He.
      rewrite Forall_forall in Hon; bool_facts; auto.
Qed.

Lemma no_strength_outside off on k : Forall (fun e => active e = true) on ->
  (0 <=? k) && (k <? Z.of_nat (Z.to_nat (max_strength (off ++ on) + 1))) = false -> of_strength k on = [].
Proof.
  intros Hon Hk; destruct (max_strength_bound (off ++ on)) as [Hm Hb]; rewrite Z2Nat.id in Hk by lia; apply Forall_app in Hb as [_ Hb].
  unfold of_strength; rewrite <- (filter_false on); apply filter_agree, Forall_forall; intros e He.
  rewrite Forall_forall in Hon, Hb; specialize (Hb e He (Hon e He)).
  apply Z.eqb_neq; intros ->; apply andb_false_iff in Hk as [Hk|Hk]; bool_facts; lia.
Qed.
End Created.

(** C18. Whatever the rule string, [ssl_create_cipher_list] ends without following a
    NULL pointer, and its linked list computes what the rules say of plain
    lists: when the rules are in error there it fails and stores nothing, and
    otherwise it stores the suites that the rules leave active, in their order
    and with their group flags, and succeeds exactly when there is one. It can
    also fail, storing nothing, but not when there is memory. *)
Theorem cipher_list_refines (HA : Allocator) (sizeof_list : Z) (has_aes_hw : bool) (rule_str : list Z) (strict : bool) :
  exists cs r out, preference has_aes_hw = Some cs /\ apply_rule_string rule_str strict (map initial_entry cs) = Some r /\
    ssl_create_cipher_list sizeof_list has_aes_hw rule_str strict = Some out /\
    match r with
    | inl _ => out = (false, None)
    | inr es => out = (false, None) /\ ~ (AllocUpTo (2 ^ 64) /\ 0 <= sizeof_list <= 2 ^ 64) \/ created es out
    end.
Proof.
  destruct (create_spec sizeof_list has_aes_hw rule_str strict) as (cs & [e|es] & Ep & Er & H); exists cs.
  - exists (inl e), (false, None); repeat (split; [assumption|]); reflexivity.
  - destruct H as [[H HM]|(out & H & Hc)]; [exists (inr es), (false, None)|exists (inr es), out]; repeat (split; [assumption|]); auto.
Qed.

(** C19. A list that [ssl_create_cipher_list] stores has a flag for every suite; no
    suite occurs twice, all of them are of the preference list, and the last one
    does not continue a group. *)
Theorem cipher_list_sound (HA : Allocator) (sizeof_list : Z) (has_aes_hw : bool) (rule_str : list Z) (strict ok : bool)
    (l : SSLCipherPreferenceList) :
  ssl_create_cipher_list sizeof_list has_aes_hw rule_str strict = Some (ok, Some l) ->
  exists cs sk, preference has_aes_hw = Some cs /\ ciphers l = Some sk /\ stack_wf sk /\ NoDup (StackSpec.contents sk) /\
    (StackSpec.contents sk ⊆ map id cs) /\ zlen (in_group_flags l) = Stack.num sk /\ last (in_group_flags l) <> Some true /\
    ok = negb (Stack.num sk =? 0).
Proof.
  destruct (create_spec sizeof_list has_aes_hw rule_str strict) as (cs & [e|es] & Ep & Er & H); [rewrite H; discriminate|].
  destruct H as [[-> _]|(out & -> & l' & sk & -> & Ec & Hwf & Es & Ef)]; [discriminate|]; intros [= <- <-]; exists cs, sk.
  destruct (rule_string_ok _ _ _ _ (initial_groups cs) Er) as [(hg & Hg) Hsub].
  destruct (preference_total has_aes_hw) as (cs' & Ep' & _ & Hnd); rewrite Ep in Ep'; injection Ep' as <-.
  assert (map id_of (chosen es) ⊆+ map id cs) as Hids.
  { unfold id_of; rewrite <- (map_map cipher_of id); apply (fmap_submseteq id); rewrite map_map, (map_ext _ (fun c => c)), map_id in Hsub by reflexivity.
    etransitivity; [apply (fmap_submseteq cipher_of), sublist_submseteq, filter_sublist|exact Hsub]. }
  assert (zlen (StackSpec.contents sk) = Stack.num sk) as Hn by now apply zlen_contents.
  split; [exact Ep|]; split; [exact Ec|]; split; [exact Hwf|]; rewrite Es in *; split; [now apply (submseteq_NoDup _ _ Hids)|].
  split; [intros x Hx; now apply (elem_of_submseteq _ _ _ Hx Hids)|]; rewrite zlen_map in Hn; rewrite Ef, zlen_map; split; [lia|].
  split; [|now rewrite Hn]; now apply (groups_last hg).
Qed.

(** [@STRENGTH] on a list whose inactive suites are first: it moves no inactive
    suite, and it sorts the active ones by strength, the strongest first, leaving
    those of the same strength in their order and taking every suite out of its
    group. It fails only for lack of memory. *)
Theorem strength_sort_correct (HA : Allocator) (st : order_list) (off on : list entry) :
  implements st (off ++ on) -> Forall (fun e => active e = false) off -> Forall (fun e => active e = true) on ->
  exists r, ssl_cipher_strength_sort st = Some r /\
    match r with
    | None => malloc_ok (4 * (max_strength (off ++ on) + 1)) = false
    | Some st' => exists sorted, entries st' = Some (off ++ sorted) /\
        Sorted.StronglySorted (fun a b => strength b <= strength a) sorted /\
        forall k, of_strength k sorted = map ungroup (of_strength k on)
    end.
Proof.
  intros H Hoff Hon; destruct (strength_sort_sim _ _ H) as (r & r' & -> & E & Hr); exists r; split; [reflexivity|].
  revert E; unfold ssl_cipher_strength_sort; cbn [entries list_order mbind option_bind].
  destruct (malloc_ok _) eqn:Em; cbn [negb]; [|intros [= <-]; destruct r; [contradiction|reflexivity]].
  rewrite (sort_parts off on Hoff Hon); cbn [mbind option_bind]; intros [= <-]; destruct r as [st'|]; [|contradiction].
  eexists; split; [exact (implements_entries _ _ Hr)|]; split; [apply by_strength_sorted|]; intros k; rewrite of_strength_by.
  destruct ((0 <=? k) && _) eqn:Ek; [reflexivity|]; now rewrite (no_strength_outside off on k).
Qed.

(** A list of three suites: one that is not active, one of 128 bits and one of
    256 bits in a group. *)
Definition sample_suite (v : Z) : SSL_CIPHER := default (cipher EmptyString EmptyString 0 0 0 0 0 0) (SSL_get_cipher_by_value v).
Definition sample_entries : list entry :=
  [initial_entry (sample_suite 0x000a); with_active true true (initial_entry (sample_suite 0x002f));
   with_active true false (initial_entry (sample_suite 0x0035))].
Definition sample_order : order_list :=
  {| co_list := [{| co := nth 1 sample_entries (initial_entry (sample_suite 0)); next := Some 2%nat; prev := Some 1%nat |};
                 {| co := nth 0 sample_entries (initial_entry (sample_suite 0)); next := Some 0%nat; prev := None |};
                 {| co := nth 2 sample_entries (initial_entry (sample_suite 0)); next := None; prev := Some 0%nat |}];
     head := Some 1%nat; tail := Some 2%nat |}.

Lemma sample_implements : implements sample_order sample_entries.
Proof.
  exists (combine [1; 0; 2]%nat sample_entries); split; [|reflexivity]; split; [repeat split|]; split; [|split; reflexivity].
  apply (bool_decide_unpack _); reflexivity.
Qed.

Lemma cipher_list_sound_witness :
  exists l, @ssl_create_cipher_list allocator_total 16 true (str "[ECDHE-ECDSA-AES128-GCM-SHA256|ECDHE-RSA-AES128-GCM-SHA256]:kRSA") true = Some (true, Some l) /\
    in_group_flags l = [true; false; false; false; false; false] /\ last (in_group_flags l) <> Some true.
Proof.
  eexists; split; [vm_compute; reflexivity|]; split; [vm_compute; reflexivity|].
  match goal with |- last (in_group_flags ?l) <> _ =>
    destruct (cipher_list_sound allocator_total 16 true (str "[ECDHE-ECDSA-AES128-GCM-SHA256|ECDHE-RSA-AES128-GCM-SHA256]:kRSA") true true l)
      as (cs & sk & _ & _ & _ & _ & _ & _ & H & _) end; [vm_compute; reflexivity|exact H].
Defined.

Lemma strength_sort_correct_witness :
  exists st', @ssl_cipher_strength_sort allocator_total order_list linked_order sample_order = Some (Some st') /\
    exists sorted, entries st' = Some (take 1 sample_entries ++ sorted) /\ Sorted.StronglySorted (fun a b => strength b <= strength a) sorted.
Proof.
  destruct (strength_sort_correct allocator_total sample_order (take 1 sample_entries) (drop 1 sample_entries)) as (r & E & H).
  - exact sample_implements.
  - repeat constructor.
  - repeat constructor.
  - destruct r as [st'|]; [|discriminate]; destruct H as (sorted & H1 & H2 & _); exists st'; split; [exact E|]; exists sorted; auto.
Defined.
