(* ===== verification/Modes.v ===== *)
(** Stream modes of a block cipher: crypto/fipsmodule/modes/ctr.c, ofb.c and
    cfb.c, with [CRYPTO_xor16] of modes/internal.h.

    The block function ([block128_f] with its key) is a parameter, as it is in
    the code. The output may be the input buffer: every byte is read before it is
    written, so the functions are modelled on byte strings. The reference for
    each mode is a machine that takes one byte at a time; since it does not know
    where a call ends, being equal to it makes the results independent of how
    the data is cut into calls. *)

From S2P Require Import Prelude Cbs Words.

(** * The code *)

(** Two words of eight bytes. *)
Definition CRYPTO_xor16 (a b : list Z) : list Z :=
  CRYPTO_store_word_le (Z.lxor (CRYPTO_load_word_le a) (CRYPTO_load_word_le b)) ++
  CRYPTO_store_word_le (Z.lxor (CRYPTO_load_word_le (zdrop 8 a)) (CRYPTO_load_word_le (zdrop 8 b))).

(** The loop that adds [c] to the first [n] bytes of a big-endian counter. *)
Fixpoint inc_loop (n : nat) (c : Z) (counter : list Z) : list Z :=
  match n with
  | O => counter
  | S n =>
      let c := u32 (c + znth counter (Z.of_nat n)) in
      inc_loop n (Z.shiftr c 8) (zsplice counter (Z.of_nat n) [u8 c])
  end.

Definition ctr128_inc (counter : list Z) : list Z := inc_loop 16 1 counter.
Definition ctr96_inc (counter : list Z) : list Z := inc_loop 12 1 counter.

(** [while (n && len)]: the output, the rest of the input and [n]. *)
Fixpoint use_rest (inp buf : list Z) (n : Z) : list Z * list Z * Z :=
  match inp with
  | [] => ([], [], n)
  | x :: rest =>
      if n =? 0 then ([], inp, n)
      else
        let '(out, rest, n') := use_rest rest buf ((n + 1) mod 16) in
        (Z.lxor x (znth buf n) :: out, rest, n')
  end.

(** [while (len--)]: the output and [n]. *)
Fixpoint use_tail (inp buf : list Z) (n : Z) : list Z * Z :=
  match inp with
  | [] => ([], n)
  | x :: rest => let '(out, n') := use_tail rest buf (n + 1) in (Z.lxor x (znth buf n) :: out, n')
  end.

Section Code.
  Variable block : list Z -> list Z.

(** ** Counter mode *)

Record ctr_state : Type := { ivec : list Z; ecount_buf : list Z; ctr_num : Z }.

(** [k] iterations of [while (len >= 16)]. *)
Fixpoint ctr_blocks (k : nat) (inp iv ecount : list Z) : list Z * list Z * list Z * list Z :=
  match k with
  | O => ([], inp, iv, ecount)
  | S k =>
      let ecount := block iv in
      let iv := ctr128_inc iv in
      let out := CRYPTO_xor16 inp ecount in
      let '(outs, inp, iv, ecount) := ctr_blocks k (zdrop 16 inp) iv ecount in
      (out ++ outs, inp, iv, ecount)
  end.

Definition CRYPTO_ctr128_encrypt (st : ctr_state) (inp : list Z) : list Z * ctr_state :=
  let '(out1, inp, n) := use_rest inp (ecount_buf st) (ctr_num st) in
  let k := Z.to_nat (zlen inp / 16) in
  let '(out2, inp, iv, ecount) := ctr_blocks k inp (ivec st) (ecount_buf st) in
  let n := if (0 <? k)%nat then 0 else n in
  if negb (zlen inp =? 0) then
    let ecount := block iv in
    let iv := ctr128_inc iv in
    let '(out3, n) := use_tail inp ecount n in
    (out1 ++ out2 ++ out3, {| ivec := iv; ecount_buf := ecount; ctr_num := n |})
  else (out1 ++ out2, {| ivec := iv; ecount_buf := ecount; ctr_num := n |}).

(** ** Output feedback *)

Record ofb_state : Type := { ofb_ivec : list Z; ofb_num : Z }.

Fixpoint ofb_blocks (k : nat) (inp iv : list Z) : list Z * list Z * list Z :=
  match k with
  | O => ([], inp, iv)
  | S k =>
      let iv := block iv in
      let out := CRYPTO_xor16 inp iv in
      let '(outs, inp, iv) := ofb_blocks k (zdrop 16 inp) iv in
      (out ++ outs, inp, iv)
  end.

Definition CRYPTO_ofb128_encrypt (st : ofb_state) (inp : list Z) : list Z * ofb_state :=
  let '(out1, inp, n) := use_rest inp (ofb_ivec st) (ofb_num st) in
  let k := Z.to_nat (zlen inp / 16) in
  let '(out2, inp, iv) := ofb_blocks k inp (ofb_ivec st) in
  let n := if (0 <? k)%nat then 0 else n in
  if negb (zlen inp =? 0) then
    let iv := block iv in
    let '(out3, n) := use_tail inp iv n in
    (out1 ++ out2 ++ out3, {| ofb_ivec := iv; ofb_num := n |})
  else (out1 ++ out2, {| ofb_ivec := iv; ofb_num := n |}).

(** ** Cipher feedback *)

(** [out = ivec[n] ^= in], respectively [out = ivec[n] ^ (c = in); ivec[n] = c]. *)
Definition cfb_byte (enc : bool) (iv : list Z) (n x : Z) : Z * list Z :=
  let out := Z.lxor (znth iv n) x in
  (out, zsplice iv n [if enc then out else x]).

Fixpoint cfb_rest (enc : bool) (inp iv : list Z) (n : Z) : list Z * list Z * list Z * Z :=
  match inp with
  | [] => ([], [], iv, n)
  | x :: rest =>
      if n =? 0 then ([], inp, iv, n)
      else
        let '(y, iv) := cfb_byte enc iv n x in
        let '(out, rest, iv, n') := cfb_rest enc rest iv ((n + 1) mod 16) in
        (y :: out, rest, iv, n')
  end.

Fixpoint cfb_tail (enc : bool) (inp iv : list Z) (n : Z) : list Z * list Z * Z :=
  match inp with
  | [] => ([], iv, n)
  | x :: rest =>
      let '(y, iv) := cfb_byte enc iv n x in
      let '(out, iv, n') := cfb_tail enc rest iv (n + 1) in
      (y :: out, iv, n')
  end.

(** One word of a full block: what is written to [out] at [n], and [ivec]. *)
Definition cfb_word (enc : bool) (inp iv : list Z) (n : Z) : list Z * list Z :=
  let t := CRYPTO_load_word_le (zdrop n inp) in
  let tmp := Z.lxor (CRYPTO_load_word_le (zdrop n iv)) t in
  (CRYPTO_store_word_le tmp, zsplice iv n (CRYPTO_store_word_le (if enc then tmp else t))).

Fixpoint cfb_blocks (enc : bool) (k : nat) (inp iv : list Z) : list Z * list Z * list Z :=
  match k with
  | O => ([], inp, iv)
  | S k =>
      let iv := block iv in
      let '(out0, iv) := cfb_word enc inp iv 0 in
      let '(out1, iv) := cfb_word enc inp iv 8 in
      let '(outs, inp, iv) := cfb_blocks enc k (zdrop 16 inp) iv in
      (out0 ++ out1 ++ outs, inp, iv)
  end.

Definition CRYPTO_cfb128_encrypt (enc : bool) (st : ofb_state) (inp : list Z) : list Z * ofb_state :=
  let '(out1, inp, iv, n) := cfb_rest enc inp (ofb_ivec st) (ofb_num st) in
  let k := Z.to_nat (zlen inp / 16) in
  let '(out2, inp, iv) := cfb_blocks enc k inp iv in
  let n := if (0 <? k)%nat then 0 else n in
  if negb (zlen inp =? 0) then
    let iv := block iv in
    let '(out3, iv, n) := cfb_tail enc inp iv n in
    (out1 ++ out2 ++ out3, {| ofb_ivec := iv; ofb_num := n |})
  else (out1 ++ out2, {| ofb_ivec := iv; ofb_num := n |}).
End Code.

(** ** Counter mode with a function for 32-bit counters

    [func inp blocks ivec] is a [ctr128_f]: it returns what is written to the
    output. The loop makes at least a block of progress in each iteration, so a
    sixteenth of the length is enough fuel. *)
Section Ctr32.
  Variable func : list Z -> Z -> list Z -> list Z.

(** [CRYPTO_store_u32_be(ivec + 12, ctr32)] and the carry. *)
Definition store_ctr32 (iv : list Z) (ctr32 : Z) : list Z :=
  let iv := zsplice iv 12 (CRYPTO_store_u32_be ctr32) in
  if ctr32 =? 0 then ctr96_inc iv else iv.

Fixpoint ctr32_blocks (fuel : nat) (inp iv : list Z) (ctr32 : Z) : option (list Z * list Z * list Z * Z) :=
  if 16 <=? zlen inp then
    match fuel with
    | O => None
    | S fuel =>
        let blocks := zlen inp / 16 in
        let blocks := if Z.shiftl 1 28 <? blocks then Z.shiftl 1 28 else blocks in
        let ctr32 := u32 (ctr32 + u32 blocks) in
        let '(blocks, ctr32) := if ctr32 <? blocks then (blocks - ctr32, 0) else (blocks, ctr32) in
        let out := func inp blocks iv in
        let iv := store_ctr32 iv ctr32 in
        match ctr32_blocks fuel (zdrop (blocks * 16) inp) iv ctr32 with
        | Some (outs, inp, iv, ctr32) => Some (out ++ outs, inp, iv, ctr32)
        | None => None
        end
    end
  else Some ([], inp, iv, ctr32).

(** [None] only when the fuel runs out. *)
Definition CRYPTO_ctr128_encrypt_ctr32 (st : ctr_state) (inp : list Z) : option (list Z * ctr_state) :=
  let '(out1, inp, n) := use_rest inp (ecount_buf st) (ctr_num st) in
  let ctr32 := CRYPTO_load_u32_be (zdrop 12 (ivec st)) in
  match ctr32_blocks (Z.to_nat (zlen inp / 16)) inp (ivec st) ctr32 with
  | None => None
  | Some (out2, inp, iv, ctr32) =>
      if negb (zlen inp =? 0) then
        let ecount := func (zrep 16 0) 1 iv in
        let ctr32 := u32 (ctr32 + 1) in
        let iv := store_ctr32 iv ctr32 in
        let '(out3, n) := use_tail inp ecount n in
        Some (out1 ++ out2 ++ out3, {| ivec := iv; ecount_buf := ecount; ctr_num := n |})
      else Some (out1 ++ out2, {| ivec := iv; ecount_buf := ecount_buf st; ctr_num := n |})
  end.
End Ctr32.

(** * Byte machines *)

(** A machine that maps one byte at a time. *)
Fixpoint run {S : Type} (step : S -> Z -> Z * S) (st : S) (inp : list Z) : list Z * S :=
  match inp with
  | [] => ([], st)
  | x :: inp => let '(y, st) := step st x in let '(out, st) := run step st inp in (y :: out, st)
  end.

Lemma run_app {S} (step : S -> Z -> Z * S) a : forall st b,
  run step st (a ++ b) = let '(o1, st) := run step st a in let '(o2, st) := run step st b in (o1 ++ o2, st).
Proof.
  induction a as [|x a IH]; intros st b; cbn [app run]; [now destruct (run step st b)|].
  destruct (step st x) as [y st1]; rewrite IH; destruct (run step st1 a) as [o1 st2].
  now destruct (run step st2 b).
Qed.

Lemma run_length {S} (step : S -> Z -> Z * S) inp : forall st, length (fst (run step st inp)) = length inp.
Proof.
  induction inp as [|x inp IH]; intros st; cbn [run]; [reflexivity|].
  destruct (step st x) as [y st1]; specialize (IH st1); destruct (run step st1 inp); cbn [fst length] in *; congruence.
Qed.

(** An input in three parts. *)
Lemma run_parts {S} (step : S -> Z -> Z * S) st pre mid last o1 st1 o2 st2 o3 st3 :
  run step st pre = (o1, st1) -> run step st1 mid = (o2, st2) -> run step st2 last = (o3, st3) ->
  run step st (pre ++ mid ++ last) = (o1 ++ o2 ++ o3, st3).
Proof. intros E1 E2 E3; now rewrite run_app, E1, run_app, E2, E3. Qed.

(** The full blocks of an input and what remains. *)
Lemma split_at_blocks (l : list Z) : let k := Z.to_nat (zlen l / 16) in
  16 * Z.of_nat k <= zlen l /\ 0 <= zlen (zdrop (16 * Z.of_nat k) l) < 16 /\
  l = ztake (16 * Z.of_nat k) l ++ zdrop (16 * Z.of_nat k) l.
Proof.
  intros k; pose proof (zlen_nonneg l); pose proof (Z.div_mod (zlen l) 16 ltac:(lia)).
  pose proof (Z.mod_pos_bound (zlen l) 16 ltac:(lia)); pose proof (Z.div_pos (zlen l) 16 ltac:(lia) ltac:(lia)).
  assert (Z.of_nat k = zlen l / 16) as Hk by (unfold k; now rewrite Z2Nat.id).
  rewrite Hk; split; [lia|]; split; [rewrite zlen_zdrop; lia|now rewrite ztake_zdrop].
Qed.

(** Calls on the pieces of an input, one after the other. *)
Fixpoint calls {S : Type} (f : S -> list Z -> list Z * S) (st : S) (chunks : list (list Z)) : list Z * S :=
  match chunks with
  | [] => ([], st)
  | x :: chunks => let '(o1, st) := f st x in let '(o2, st) := calls f st chunks in (o1 ++ o2, st)
  end.

Lemma calls_run {S} (f : S -> list Z -> list Z * S) (step : S -> Z -> Z * S) (P : S -> Prop) :
  (forall st inp, P st -> bytes inp -> f st inp = run step st inp /\ P (snd (run step st inp))) ->
  forall chunks st, P st -> Forall bytes chunks -> calls f st chunks = run step st (concat chunks).
Proof.
  intros Hf; induction chunks as [|x chunks IH]; intros st HP Hc; cbn [calls concat]; [reflexivity|].
  inversion_clear Hc as [|? ? Hx Hc']; destruct (Hf st x HP Hx) as [-> HP1]; rewrite run_app.
  destruct (run step st x) as [o1 st1]; cbn [snd] in HP1; now rewrite IH.
Qed.

Section Machines.
  Variable block : list Z -> list Z.

Definition ctr_byte (st : ctr_state) (x : Z) : Z * ctr_state :=
  let st := if ctr_num st =? 0
            then {| ivec := ctr128_inc (ivec st); ecount_buf := block (ivec st); ctr_num := 0 |} else st in
  (Z.lxor x (znth (ecount_buf st) (ctr_num st)),
   {| ivec := ivec st; ecount_buf := ecount_buf st; ctr_num := (ctr_num st + 1) mod 16 |}).

Definition ofb_byte (st : ofb_state) (x : Z) : Z * ofb_state :=
  let iv := if ofb_num st =? 0 then block (ofb_ivec st) else ofb_ivec st in
  (Z.lxor x (znth iv (ofb_num st)), {| ofb_ivec := iv; ofb_num := (ofb_num st + 1) mod 16 |}).

(** The byte of the register is replaced by the byte of the ciphertext. *)
Definition cfb_step (enc : bool) (st : ofb_state) (x : Z) : Z * ofb_state :=
  let iv := if ofb_num st =? 0 then block (ofb_ivec st) else ofb_ivec st in
  let y := Z.lxor (znth iv (ofb_num st)) x in
  (y, {| ofb_ivec := zsplice iv (ofb_num st) [if enc then y else x]; ofb_num := (ofb_num st + 1) mod 16 |}).
End Machines.

(** ** The loops over a buffer *)

Lemma zdrop_znth (l : list Z) n : 0 <= n < zlen l -> zdrop n l = znth l n :: zdrop (n + 1) l.
Proof.
  intros Hn; unfold zdrop, znth; replace (Z.to_nat (n + 1)) with (S (Z.to_nat n)) by lia.
  rewrite nth_lookup; destruct (l !! Z.to_nat n) as [x|] eqn:E; [now apply drop_S in E|].
  apply lookup_ge_None in E; unfold zlen in *; lia.
Qed.

Lemma use_tail_spec inp buf : forall n, 0 <= n -> n + zlen inp <= zlen buf ->
  use_tail inp buf n = (zip_with Z.lxor inp (zdrop n buf), n + zlen inp).
Proof.
  induction inp as [|x inp IH]; intros n Hn Hl; cbn [use_tail]; [now rewrite Z.add_0_r|].
  rewrite zlen_cons in *; pose proof (zlen_nonneg inp); rewrite IH by lia.
  rewrite (zdrop_znth buf n) by lia; cbn [zip_with]; f_equal; lia.
Qed.

Section Buffer.
  Context {S : Type}.
  Variables (step : S -> Z -> Z * S) (buf : list Z) (mk : Z -> S).
  Hypothesis buf_len : zlen buf = 16.
  Hypothesis step_mk : forall n x, 0 < n < 16 -> step (mk n) x = (Z.lxor x (znth buf n), mk ((n + 1) mod 16)).

Lemma run_rest inp : forall n, 0 <= n < 16 ->
  let '(out, rest, n') := use_rest inp buf n in
  0 <= n' < 16 /\ (n' = 0 \/ rest = []) /\ exists pre, inp = pre ++ rest /\ run step (mk n) pre = (out, mk n').
Proof.
  induction inp as [|x inp IH]; intros n Hn; cbn [use_rest].
  - split; [auto|split; [auto|]]; exists []; auto.
  - destruct (Z.eqb_spec n 0) as [-> |Hn0].
    + split; [auto|split; [auto|]]; exists []; auto.
    + pose proof (Z.mod_pos_bound (n + 1) 16 ltac:(lia)) as Hm; specialize (IH _ Hm).
      destruct (use_rest inp buf ((n + 1) mod 16)) as [[out rest] n'].
      destruct IH as (H1 & H2 & pre & -> & E); split; [auto|split; [auto|]]; exists (x :: pre).
      split; [reflexivity|]; cbn [run]; now rewrite step_mk, E by lia.
Qed.

Lemma run_within inp : forall n, 0 < n -> n + zlen inp <= 16 ->
  run step (mk n) inp = (zip_with Z.lxor inp (zdrop n buf), mk ((n + zlen inp) mod 16)) \/ inp = [].
Proof.
  induction inp as [|x inp IH]; intros n Hn Hl; [now right|left].
  rewrite zlen_cons in *; pose proof (zlen_nonneg inp); cbn [run]; rewrite step_mk by lia.
  rewrite (zdrop_znth buf n) by lia; cbn [zip_with].
  destruct (decide (inp = [])) as [-> |Hne].
  - cbn [run zip_with]; do 2 f_equal.
  - assert (0 < zlen inp) by (destruct inp; [congruence|rewrite zlen_cons; pose proof (zlen_nonneg inp); lia]).
    rewrite (Z.mod_small (n + 1)) by lia; destruct (IH (n + 1)) as [-> |]; [lia|lia| |congruence].
    do 3 f_equal; lia.
Qed.

(** From a state that asks for a new buffer. *)
Lemma run_fresh s0 inp : (forall x, step s0 x = (Z.lxor x (znth buf 0), mk 1)) -> inp <> [] -> zlen inp <= 16 ->
  run step s0 inp = (zip_with Z.lxor inp buf, mk (zlen inp mod 16)).
Proof.
  intros H0 Hne Hl; destruct inp as [|x inp]; [congruence|]; rewrite zlen_cons in *; pose proof (zlen_nonneg inp).
  cbn [run]; rewrite H0; rewrite <- (zdrop_0 buf), (zdrop_znth buf 0) by lia; cbn [zip_with].
  destruct (run_within inp 1) as [-> | ->]; [lia|lia| |reflexivity]; do 3 f_equal; lia.
Qed.
End Buffer.

(** What a block function promises. *)
Class BlockCipher (block : list Z -> list Z) : Prop :=
  block_output : forall x, bytes x -> zlen x = 16 -> bytes (block x) /\ zlen (block x) = 16.

Lemma xor16_spec a b : bytes a -> bytes b -> 16 <= zlen a -> zlen b = 16 ->
  CRYPTO_xor16 a b = zip_with Z.lxor (ztake 16 a) b.
Proof.
  intros Ha Hb Hla Hlb; unfold CRYPTO_xor16, CRYPTO_store_word_le, CRYPTO_load_word_le.
  assert (forall l : list Z, 8 <= zlen l -> length (ztake 8 l) = 8%nat) as Hl
    by (intros l Hl; pose proof (zlen_ztake 8 l) as E; unfold zlen in *; lia).
  rewrite !le_lxor by (auto with zlist; apply Hl; rewrite ?zlen_zdrop; lia).
  change 16 with (8 + 8); rewrite ztake_add by lia; rewrite <- (ztake_zdrop 8 b) at 3.
  rewrite (ztake_all 8 (zdrop 8 b)) by (rewrite zlen_zdrop; lia).
  symmetry; apply zip_with_app; rewrite !Hl; lia.
Qed.

Lemma bytes_zip_xor a : forall b, bytes a -> bytes b -> bytes (zip_with Z.lxor a b).
Proof.
  induction a as [|x a IH]; intros [|y b] Ha Hb; try constructor; apply bytes_cons in Ha as [Hx Ha], Hb as [Hy Hb]; auto.
  apply (lxor_small x y 8); auto; lia.
Qed.

(** ** The counters *)

(** The first [n] bytes are incremented by [c]. *)
Lemma inc_loop_spec n : forall c l k, bytes l -> zlen l = Z.of_nat n -> 0 <= c < 2 ^ 24 ->
  inc_loop n c (l ++ k) = be_enc n (be_val l + c) ++ k.
Proof.
  induction n as [|n IH]; intros c l k Hb Hl Hc; cbn [inc_loop be_enc].
  - now rewrite (zlen_0_nil l) by lia.
  - destruct l as [|x l _] using rev_ind; [discriminate Hl|].
    rewrite zlen_app in Hl; change (zlen [x]) with 1 in Hl; apply Forall_app in Hb as [Hb Hx].
    apply bytes_cons in Hx as [Hx _]; unfold byte in Hx.
    rewrite <- app_assoc; cbn [app].
    rewrite (zsplice_mid l [x] _ k) by (auto; lia).
    replace (znth (l ++ x :: k) (Z.of_nat n)) with x by
      (rewrite znth_app2 by lia; replace (Z.of_nat n - zlen l) with 0 by lia; reflexivity).
    rewrite (uw_small 32 (c + x)) by (pow2; lia); change (u8 (c + x) :: nil) with [u8 (c + x)].
    cbn [app]; rewrite IH, be_val_snoc; auto; [|lia|].
    + rewrite Z.shiftr_div_pow2 by lia; change (2 ^ 8) with 256.
      replace (be_val l * 256 + x + c) with (c + x + be_val l * 256) by lia.
      rewrite Z.div_add, Z.mod_add by lia; rewrite <- app_assoc; unfold uw; change (2 ^ 8) with 256.
      f_equal; f_equal; lia.
    + rewrite Z.shiftr_div_pow2 by lia; split; [apply Z.div_pos; lia|]; apply Z.div_lt_upper_bound; lia.
Qed.

Lemma ctr128_inc_spec iv : bytes iv -> zlen iv = 16 -> ctr128_inc iv = be_enc 16 (be_val iv + 1).
Proof.
  intros Hb Hl; pose proof (inc_loop_spec 16 1 iv [] Hb Hl ltac:(lia)) as E; rewrite !app_nil_r in E; exact E.
Qed.

Lemma ctr128_inc_shape iv : bytes iv -> zlen iv = 16 -> bytes (ctr128_inc iv) /\ zlen (ctr128_inc iv) = 16.
Proof. intros Hb Hl; rewrite ctr128_inc_spec by auto; split; [apply bytes_be_enc|apply zlen_be_enc]. Qed.

(** ** Counter mode is the byte machine *)

Definition ctr_ok (st : ctr_state) : Prop :=
  (bytes (ivec st) /\ zlen (ivec st) = 16) /\ zlen (ecount_buf st) = 16 /\ 0 <= ctr_num st < 16.

Section Ctr.
  Context (block : list Z -> list Z) {BC : BlockCipher block}.

Lemma ctr_step_within iv ec n x : 0 < n < 16 ->
  ctr_byte block {| ivec := iv; ecount_buf := ec; ctr_num := n |} x =
  (Z.lxor x (znth ec n), {| ivec := iv; ecount_buf := ec; ctr_num := (n + 1) mod 16 |}).
Proof. intros Hn; unfold ctr_byte; cbn [ctr_num ivec ecount_buf]; now rewrite (proj2 (Z.eqb_neq n 0)) by lia. Qed.

(** Up to a block from a state whose buffer is used up. *)
Lemma ctr_run_fresh iv ec inp : bytes iv -> zlen iv = 16 -> inp <> [] -> zlen inp <= 16 ->
  run (ctr_byte block) {| ivec := iv; ecount_buf := ec; ctr_num := 0 |} inp =
  (zip_with Z.lxor inp (block iv), {| ivec := ctr128_inc iv; ecount_buf := block iv; ctr_num := zlen inp mod 16 |}).
Proof.
  intros Hb Hl Hne Hi; destruct (block_output iv Hb Hl) as [_ Hlb].
  apply (run_fresh (ctr_byte block) (block iv) (fun n => {| ivec := ctr128_inc iv; ecount_buf := block iv; ctr_num := n |}));
    auto; intros; now apply ctr_step_within.
Qed.

Lemma ctr_blocks_spec k : forall inp iv ec, bytes inp -> bytes iv -> zlen iv = 16 -> 16 * Z.of_nat k <= zlen inp ->
  let '(out, rest, iv', ec') := ctr_blocks block k inp iv ec in
  rest = zdrop (16 * Z.of_nat k) inp /\ bytes iv' /\ zlen iv' = 16 /\ (zlen ec = 16 -> zlen ec' = 16) /\
  run (ctr_byte block) {| ivec := iv; ecount_buf := ec; ctr_num := 0 |} (ztake (16 * Z.of_nat k) inp) =
    (out, {| ivec := iv'; ecount_buf := ec'; ctr_num := 0 |}).
Proof.
  induction k as [|k IH]; intros inp iv ec Hi Hb Hl Hk; cbn [ctr_blocks].
  - rewrite Z.mul_0_r, zdrop_0, ztake_0; auto.
  - destruct (ctr128_inc_shape iv Hb Hl) as [Hb1 Hl1]; destruct (block_output iv Hb Hl) as [Hbb Hbl].
    specialize (IH (zdrop 16 inp) (ctr128_inc iv) (block iv) ltac:(auto with zlist) Hb1 Hl1
      ltac:(rewrite zlen_zdrop; lia)).
    destruct (ctr_blocks block k (zdrop 16 inp) (ctr128_inc iv) (block iv)) as [[[outs rest] iv'] ec'].
    destruct IH as (-> & Hb' & Hl' & He' & E).
    replace (16 * Z.of_nat (S k)) with (16 + 16 * Z.of_nat k) by lia.
    rewrite zdrop_zdrop by lia; split; [f_equal; lia|]; split; [auto|]; split; [auto|]; split; [auto|].
    assert (zlen (ztake 16 inp) = 16) as H16 by (rewrite zlen_ztake; lia).
    assert (ztake 16 inp <> []) as Hne by (intros E0; rewrite E0 in H16; discriminate H16).
    rewrite ztake_add, run_app, (ctr_run_fresh iv ec (ztake 16 inp)), H16 by (auto; lia).
    change (16 mod 16) with 0; now rewrite E, xor16_spec by (auto; lia).
Qed.

Lemma ctr_bytewise st inp : ctr_ok st -> bytes inp ->
  CRYPTO_ctr128_encrypt block st inp = run (ctr_byte block) st inp /\ ctr_ok (snd (run (ctr_byte block) st inp)).
Proof.
  intros ((Hb & Hl) & Hec & Hn) Hi; unfold CRYPTO_ctr128_encrypt; destruct st as [iv ec n]; cbn [ivec ecount_buf ctr_num] in *.
  pose proof (run_rest (ctr_byte block) ec (fun n => {| ivec := iv; ecount_buf := ec; ctr_num := n |})
    (fun n x Hn => ctr_step_within iv ec n x Hn) inp n Hn) as Hr.
  destruct (use_rest inp ec n) as [[out1 rest] n']; destruct Hr as (Hn' & Hz & pre & -> & E1).
  apply Forall_app in Hi as [_ Hrest]; destruct Hz as [-> | ->].
  2: { change (Z.to_nat (zlen (@nil Z) / 16)) with 0%nat; change (zlen (@nil Z)) with 0.
       cbn [ctr_blocks Nat.ltb Nat.leb Z.eqb negb]; rewrite !app_nil_r, E1.
       repeat split; cbn [snd ctr_num ivec ecount_buf]; auto; lia. }
  destruct (split_at_blocks rest) as (Hk & Hlr & Es); set (k := Z.to_nat (zlen rest / 16)) in *.
  pose proof (ctr_blocks_spec k rest iv ec Hrest Hb Hl Hk) as Hbk.
  destruct (ctr_blocks block k rest iv ec) as [[[out2 rest'] iv'] ec']; destruct Hbk as (-> & Hb' & Hl' & He' & E2).
  replace (if (0 <? k)%nat then 0 else 0) with 0 by (now destruct (0 <? k)%nat).
  set (last := zdrop _ rest) in *; rewrite Es; destruct (Z.eqb_spec (zlen last) 0) as [E0|E0]; cbn [negb].
  - rewrite (zlen_0_nil _ E0), app_nil_r, run_app, E1, E2.
    repeat split; cbn [snd ctr_num ivec ecount_buf]; auto; lia.
  - destruct (block_output iv' Hb' Hl') as [Hbb Hbl]; destruct (ctr128_inc_shape iv' Hb' Hl').
    assert (last <> []) as Hne by (intros E; rewrite E in E0; now apply E0).
    pose proof (ctr_run_fresh iv' ec' last Hb' Hl' Hne ltac:(lia)) as E3.
    rewrite use_tail_spec by (rewrite ?Hbl; lia); rewrite (run_parts _ _ _ _ _ _ _ _ _ _ _ E1 E2 E3), zdrop_0, Z.add_0_l.
    rewrite Z.mod_small by lia; repeat split; cbn [snd ctr_num ivec ecount_buf]; auto; lia.
Qed.
End Ctr.

(** ** Output feedback is the byte machine *)

Definition ofb_ok (st : ofb_state) : Prop := (bytes (ofb_ivec st) /\ zlen (ofb_ivec st) = 16) /\ 0 <= ofb_num st < 16.

Section Ofb.
  Context (block : list Z -> list Z) {BC : BlockCipher block}.

Lemma ofb_step_within iv n x : 0 < n < 16 ->
  ofb_byte block {| ofb_ivec := iv; ofb_num := n |} x =
  (Z.lxor x (znth iv n), {| ofb_ivec := iv; ofb_num := (n + 1) mod 16 |}).
Proof. intros Hn; unfold ofb_byte; cbn [ofb_num ofb_ivec]; now rewrite (proj2 (Z.eqb_neq n 0)) by lia. Qed.

Lemma ofb_run_fresh iv inp : bytes iv -> zlen iv = 16 -> inp <> [] -> zlen inp <= 16 ->
  run (ofb_byte block) {| ofb_ivec := iv; ofb_num := 0 |} inp =
  (zip_with Z.lxor inp (block iv), {| ofb_ivec := block iv; ofb_num := zlen inp mod 16 |}).
Proof.
  intros Hb Hl Hne Hi; destruct (block_output iv Hb Hl) as [_ Hlb].
  apply (run_fresh (ofb_byte block) (block iv) (fun n => {| ofb_ivec := block iv; ofb_num := n |}));
    auto; intros; now apply ofb_step_within.
Qed.

Lemma ofb_blocks_spec k : forall inp iv, bytes inp -> bytes iv -> zlen iv = 16 -> 16 * Z.of_nat k <= zlen inp ->
  let '(out, rest, iv') := ofb_blocks block k inp iv in
  rest = zdrop (16 * Z.of_nat k) inp /\ bytes iv' /\ zlen iv' = 16 /\
  run (ofb_byte block) {| ofb_ivec := iv; ofb_num := 0 |} (ztake (16 * Z.of_nat k) inp) =
    (out, {| ofb_ivec := iv'; ofb_num := 0 |}).
Proof.
  induction k as [|k IH]; intros inp iv Hi Hb Hl Hk; cbn [ofb_blocks].
  - rewrite Z.mul_0_r, zdrop_0, ztake_0; auto.
  - destruct (block_output iv Hb Hl) as [Hbb Hbl].
    specialize (IH (zdrop 16 inp) (block iv) ltac:(auto with zlist) Hbb Hbl ltac:(rewrite zlen_zdrop; lia)).
    destruct (ofb_blocks block k (zdrop 16 inp) (block iv)) as [[outs rest] iv']; destruct IH as (-> & Hb' & Hl' & E).
    replace (16 * Z.of_nat (S k)) with (16 + 16 * Z.of_nat k) by lia.
    rewrite zdrop_zdrop by lia; split; [f_equal; lia|]; split; [auto|]; split; [auto|].
    assert (zlen (ztake 16 inp) = 16) as H16 by (rewrite zlen_ztake; lia).
    assert (ztake 16 inp <> []) as Hne by (intros E0; rewrite E0 in H16; discriminate H16).
    rewrite ztake_add, run_app, (ofb_run_fresh iv (ztake 16 inp)), H16 by (auto; lia).
    change (16 mod 16) with 0; now rewrite E, xor16_spec by (auto; lia).
Qed.

Lemma ofb_bytewise st inp : ofb_ok st -> bytes inp ->
  CRYPTO_ofb128_encrypt block st inp = run (ofb_byte block) st inp /\ ofb_ok (snd (run (ofb_byte block) st inp)).
Proof.
  intros ((Hb & Hl) & Hn) Hi; unfold CRYPTO_ofb128_encrypt; destruct st as [iv n]; cbn [ofb_ivec ofb_num] in *.
  pose proof (run_rest (ofb_byte block) iv (fun n => {| ofb_ivec := iv; ofb_num := n |})
    (fun n x Hn => ofb_step_within iv n x Hn) inp n Hn) as Hr.
  destruct (use_rest inp iv n) as [[out1 rest] n']; destruct Hr as (Hn' & Hz & pre & -> & E1).
  apply Forall_app in Hi as [_ Hrest]; destruct Hz as [-> | ->].
  2: { change (Z.to_nat (zlen (@nil Z) / 16)) with 0%nat; change (zlen (@nil Z)) with 0.
       cbn [ofb_blocks Nat.ltb Nat.leb Z.eqb negb]; rewrite !app_nil_r, E1.
       repeat split; cbn [snd ofb_num ofb_ivec]; auto; lia. }
  destruct (split_at_blocks rest) as (Hk & Hlr & Es); set (k := Z.to_nat (zlen rest / 16)) in *.
  pose proof (ofb_blocks_spec k rest iv Hrest Hb Hl Hk) as Hbk.
  destruct (ofb_blocks block k rest iv) as [[out2 rest'] iv']; destruct Hbk as (-> & Hb' & Hl' & E2).
  replace (if (0 <? k)%nat then 0 else 0) with 0 by (now destruct (0 <? k)%nat).
  set (last := zdrop _ rest) in *; rewrite Es; destruct (Z.eqb_spec (zlen last) 0) as [E0|E0]; cbn [negb].
  - rewrite (zlen_0_nil _ E0), app_nil_r, run_app, E1, E2.
    repeat split; cbn [snd ofb_num ofb_ivec]; auto; lia.
  - destruct (block_output iv' Hb' Hl') as [Hbb Hbl].
    assert (last <> []) as Hne by (intros E; rewrite E in E0; now apply E0).
    pose proof (ofb_run_fresh iv' last Hb' Hl' Hne ltac:(lia)) as E3.
    rewrite use_tail_spec by (rewrite ?Hbl; lia); rewrite (run_parts _ _ _ _ _ _ _ _ _ _ _ E1 E2 E3), zdrop_0, Z.add_0_l.
    rewrite Z.mod_small by lia; repeat split; cbn [snd ofb_num ofb_ivec]; auto; lia.
Qed.
End Ofb.

(** ** Cipher feedback is the byte machine *)

(** The bytes of [inp] at [n] in the register. *)
Definition cfb_out (iv : list Z) (n : Z) (inp : list Z) : list Z := zip_with Z.lxor (zdrop n iv) inp.
Definition cfb_reg (enc : bool) (iv : list Z) (n : Z) (inp : list Z) : list Z :=
  zsplice iv n (if enc then cfb_out iv n inp else inp).

Lemma cfb_out_length iv n inp : 0 <= n -> n + zlen inp <= zlen iv -> zlen (cfb_out iv n inp) = zlen inp.
Proof.
  intros Hn Hl; pose proof (zlen_zdrop n iv ltac:(pose proof (zlen_nonneg inp); lia)); unfold cfb_out, zlen in *.
  rewrite length_zip_with; lia.
Qed.

Lemma cfb_reg_shape enc iv n inp : 0 <= n -> n + zlen inp <= zlen iv -> bytes iv -> bytes inp ->
  zlen (cfb_reg enc iv n inp) = zlen iv /\ bytes (cfb_reg enc iv n inp).
Proof.
  intros Hn Hl Hb Hi; unfold cfb_reg; pose proof (cfb_out_length iv n inp Hn Hl) as E.
  split; [destruct enc; rewrite zlen_zsplice; lia|]; unfold zsplice; repeat (apply Forall_app; split; auto with zlist).
  destruct enc; [|exact Hi]; apply bytes_zip_xor; auto with zlist.
Qed.

Lemma zdrop_zsplice_after (iv data : list Z) n : 0 <= n -> n + zlen data <= zlen iv ->
  zdrop (n + zlen data) (zsplice iv n data) = zdrop (n + zlen data) iv.
Proof.
  intros Hn Hl; pose proof (zlen_nonneg data); unfold zsplice; rewrite app_assoc.
  apply zdrop_app_eq; rewrite zlen_app, zlen_ztake; lia.
Qed.

(** Two pieces one after the other are one piece. *)
Lemma cfb_pieces enc iv n a b : 0 <= n -> n + zlen a + zlen b <= zlen iv ->
  cfb_out iv n (a ++ b) = cfb_out iv n a ++ cfb_out (cfb_reg enc iv n a) (n + zlen a) b /\
  cfb_reg enc iv n (a ++ b) = cfb_reg enc (cfb_reg enc iv n a) (n + zlen a) b.
Proof.
  intros Hn Hl; pose proof (zlen_nonneg a); pose proof (zlen_nonneg b).
  pose proof (cfb_out_length iv n a Hn ltac:(lia)) as Ea.
  assert (zlen (if enc then cfb_out iv n a else a) = zlen a) as El by (destruct enc; auto).
  assert (zdrop (n + zlen a) (cfb_reg enc iv n a) = zdrop (n + zlen a) iv) as Ed.
  { unfold cfb_reg; rewrite <- El; apply zdrop_zsplice_after; lia. }
  assert (cfb_out iv n (a ++ b) = cfb_out iv n a ++ cfb_out (cfb_reg enc iv n a) (n + zlen a) b) as Eo.
  { unfold cfb_out; rewrite Ed, zip_with_app_r; f_equal; [apply zip_with_take_l|].
    f_equal; unfold zdrop, zlen; rewrite drop_drop; f_equal; lia. }
  split; [exact Eo|].
  transitivity (zsplice iv n ((if enc then cfb_out iv n a else a) ++
    (if enc then cfb_out (cfb_reg enc iv n a) (n + zlen a) b else b))).
  - unfold cfb_reg at 1; f_equal; destruct enc; auto.
  - rewrite <- zsplice_zsplice by lia; rewrite El; reflexivity.
Qed.

Lemma cfb_byte_spec enc iv n x : 0 <= n < zlen iv -> cfb_byte enc iv n x = (znth (cfb_out iv n [x]) 0, cfb_reg enc iv n [x]).
Proof.
  intros Hn; unfold cfb_byte, cfb_reg, cfb_out; rewrite (zdrop_znth iv n) by lia.
  cbn [zip_with]; destruct (zdrop (n + 1) iv), enc; reflexivity.
Qed.

Lemma cfb_tail_spec enc inp : forall iv n, 0 <= n -> n + zlen inp <= zlen iv ->
  cfb_tail enc inp iv n = (cfb_out iv n inp, cfb_reg enc iv n inp, n + zlen inp).
Proof.
  induction inp as [|x inp IH]; intros iv n Hn Hl; cbn [cfb_tail].
  - rewrite Z.add_0_r; unfold cfb_reg, cfb_out; rewrite zip_with_nil_r; destruct enc;
      unfold zsplice; change (zlen (@nil Z)) with 0; rewrite Z.add_0_r; cbn [app]; now rewrite ztake_zdrop.
  - rewrite zlen_cons in *; pose proof (zlen_nonneg inp); rewrite cfb_byte_spec by lia.
    assert (zlen (cfb_reg enc iv n [x]) = zlen iv) as Er.
    { unfold cfb_reg; rewrite zlen_zsplice; auto; destruct enc; rewrite ?cfb_out_length;
        change (zlen [x]) with 1; lia. }
    rewrite IH by lia; destruct (cfb_pieces enc iv n [x] inp Hn) as [E1 E2]; [change (zlen [x]) with 1; lia|].
    change (x :: inp) with ([x] ++ inp); change (zlen [x]) with 1 in *; rewrite E1, E2.
    pose proof (cfb_out_length iv n [x] Hn ltac:(change (zlen [x]) with 1; lia)) as E.
    change (zlen [x]) with 1 in E; destruct (cfb_out iv n [x]) as [|y [|z l]]; [discriminate E| |];
      [|rewrite !zlen_cons in E; pose proof (zlen_nonneg l); lia].
    cbn [app]; f_equal; lia.
Qed.

Lemma cfb_word_spec enc inp iv n : bytes inp -> bytes iv -> 0 <= n -> n + 8 <= zlen iv -> n + 8 <= zlen inp ->
  let p := ztake 8 (zdrop n inp) in cfb_word enc inp iv n = (cfb_out iv n p, cfb_reg enc iv n p).
Proof.
  intros Hi Hb Hn Hl Hli p; unfold cfb_word, cfb_reg, cfb_out, CRYPTO_store_word_le, CRYPTO_load_word_le.
  assert (forall l : list Z, n + 8 <= zlen l -> length (ztake 8 (zdrop n l)) = 8%nat) as H8.
  { intros l Hll; pose proof (zlen_ztake 8 (zdrop n l)) as E; rewrite zlen_zdrop in E by lia; specialize (E ltac:(lia)); unfold zlen in E; lia. }
  assert (le_enc 8 (Z.lxor (le_val (ztake 8 (zdrop n iv))) (le_val p)) = zip_with Z.lxor (zdrop n iv) p) as E1.
  { unfold p; rewrite le_lxor by auto with zlist.
    unfold ztake at 1; apply zip_with_take_l'; rewrite H8 by lia; lia. }
  pose proof (le_enc_le_val p ltac:(unfold p; auto with zlist)) as E2; unfold p in E2 at 1; rewrite H8 in E2 by lia.
  fold p; rewrite E1; f_equal; f_equal; destruct enc; auto.
Qed.

Section Cfb.
  Context (block : list Z -> list Z) {BC : BlockCipher block} (enc : bool).
Abbreviation step := (cfb_step block enc).

Lemma cfb_step_within iv n x : 0 < n < 16 -> step {| ofb_ivec := iv; ofb_num := n |} x =
  let '(y, iv) := cfb_byte enc iv n x in (y, {| ofb_ivec := iv; ofb_num := (n + 1) mod 16 |}).
Proof. intros Hn; unfold cfb_step; cbn [ofb_num ofb_ivec]; now rewrite (proj2 (Z.eqb_neq n 0)) by lia. Qed.

Lemma cfb_run_rest inp : forall iv n, 0 <= n < 16 -> zlen iv = 16 -> bytes iv -> bytes inp ->
  let '(out, rest, iv', n') := cfb_rest enc inp iv n in
  (0 <= n' < 16 /\ zlen iv' = 16 /\ bytes iv') /\ (n' = 0 \/ rest = []) /\
  exists pre, inp = pre ++ rest /\ run step {| ofb_ivec := iv; ofb_num := n |} pre = (out, {| ofb_ivec := iv'; ofb_num := n' |}).
Proof.
  induction inp as [|x inp IH]; intros iv n Hn Hl Hb Hi; cbn [cfb_rest].
  - split; [auto|split; [auto|]]; exists []; auto.
  - destruct (Z.eqb_spec n 0) as [-> |Hn0]; [split; [auto|split; [auto|]]; exists []; auto|].
    apply bytes_cons in Hi as [Hx Hi]; pose proof (Z.mod_pos_bound (n + 1) 16 ltac:(lia)) as Hm.
    rewrite cfb_byte_spec by lia; destruct (cfb_reg_shape enc iv n [x] ltac:(lia) ltac:(change (zlen [x]) with 1; lia) Hb
      ltac:(repeat constructor; apply Hx)) as [Hl1 Hb1].
    specialize (IH (cfb_reg enc iv n [x]) _ Hm ltac:(lia) Hb1 Hi).
    destruct (cfb_rest enc inp _ ((n + 1) mod 16)) as [[[out rest] iv'] n'].
    destruct IH as (H1 & H2 & pre & -> & E); split; [auto|split; [auto|]]; exists (x :: pre).
    split; [reflexivity|]; cbn [run]; rewrite cfb_step_within, cfb_byte_spec by lia; now rewrite E.
Qed.

Lemma cfb_run_within inp : forall iv n, 0 < n -> n + zlen inp <= 16 -> zlen iv = 16 -> inp <> [] ->
  run step {| ofb_ivec := iv; ofb_num := n |} inp =
  let '(out, iv, n) := cfb_tail enc inp iv n in (out, {| ofb_ivec := iv; ofb_num := n mod 16 |}).
Proof.
  induction inp as [|x inp IH]; intros iv n Hn Hl Hiv Hne; [congruence|].
  rewrite zlen_cons in Hl; pose proof (zlen_nonneg inp); cbn [run cfb_tail]; rewrite cfb_step_within by lia.
  destruct (cfb_byte enc iv n x) as [y iv'] eqn:Eb; destruct (decide (inp = [])) as [-> |Hi]; [reflexivity|].
  assert (0 < zlen inp) by (destruct inp; [congruence|rewrite zlen_cons; pose proof (zlen_nonneg inp); lia]).
  assert (zlen iv' = 16) as Hl'.
  { unfold cfb_byte in Eb; injection Eb as _ <-; rewrite zlen_zsplice; auto; change (zlen [_]) with 1; lia. }
  rewrite (Z.mod_small (n + 1)), IH by (auto; lia); now destruct (cfb_tail enc inp iv' (n + 1)) as [[? ?] ?].
Qed.

Lemma cfb_run_fresh iv inp : bytes iv -> zlen iv = 16 -> inp <> [] -> zlen inp <= 16 ->
  run step {| ofb_ivec := iv; ofb_num := 0 |} inp =
  (cfb_out (block iv) 0 inp, {| ofb_ivec := cfb_reg enc (block iv) 0 inp; ofb_num := zlen inp mod 16 |}).
Proof.
  intros Hb Hl Hne Hi; destruct (block_output iv Hb Hl) as [Hbb Hbl].
  pose proof (cfb_tail_spec enc inp (block iv) 0 ltac:(lia) ltac:(lia)) as E; rewrite Z.add_0_l in E.
  destruct inp as [|x inp]; [congruence|]; cbn [run cfb_tail] in *.
  unfold cfb_step at 1; cbn [ofb_num ofb_ivec Z.eqb]; change ((0 + 1) mod 16) with 1 in *.
  fold (cfb_byte enc (block iv) 0 x); unfold cfb_byte in E.
  set (y := Z.lxor _ x) in *; set (r := zsplice (block iv) 0 _) in *.
  assert (zlen r = 16) as Hr by (unfold r; rewrite zlen_zsplice; auto; change (zlen [_]) with 1; lia).
  rewrite zlen_cons in *; destruct (decide (inp = [])) as [-> |Hi0].
  - cbn [run cfb_tail] in *; change (0 + 1) with 1 in E; injection E as E1 E2; now rewrite <- E1, <- E2.
  - rewrite cfb_run_within by (auto; lia); change (0 + 1) with 1 in E.
    destruct (cfb_tail enc inp r 1) as [[out iv'] n']; injection E as E1 E2 E3; now rewrite <- E1, <- E2, E3.
Qed.

(** The two words of a full block. *)
Lemma cfb_block iv inp : bytes iv -> zlen iv = 16 -> bytes inp -> 16 <= zlen inp ->
  let '(out0, iv1) := cfb_word enc inp iv 0 in
  let '(out1, iv2) := cfb_word enc inp iv1 8 in
  out0 ++ out1 = cfb_out iv 0 (ztake 16 inp) /\ iv2 = cfb_reg enc iv 0 (ztake 16 inp) /\ zlen iv2 = 16 /\ bytes iv2.
Proof.
  intros Hb Hl Hi Hli; rewrite (cfb_word_spec enc inp iv 0) by (auto; lia); rewrite zdrop_0; cbv zeta.
  assert (zlen (ztake 8 inp) = 8) as H0 by (rewrite zlen_ztake; lia).
  assert (zlen (ztake 8 (zdrop 8 inp)) = 8) as H1 by (rewrite zlen_ztake; [reflexivity|]; rewrite zlen_zdrop; lia).
  destruct (cfb_reg_shape enc iv 0 (ztake 8 inp)) as [Hl1 Hb1]; auto with zlist; [lia|lia|].
  rewrite (cfb_word_spec enc inp _ 8) by (auto; lia); cbv zeta.
  destruct (cfb_pieces enc iv 0 (ztake 8 inp) (ztake 8 (zdrop 8 inp)) ltac:(lia) ltac:(lia)) as [E1 E2].
  rewrite H0 in E1, E2; change (0 + 8) with 8 in *; change 16 with (8 + 8) in *; rewrite ztake_add by lia.
  rewrite <- E1, <- E2; split; [reflexivity|split; [reflexivity|]].
  destruct (cfb_reg_shape enc iv 0 (ztake 8 inp ++ ztake 8 (zdrop 8 inp))) as [Hl2 Hb2];
    [lia|rewrite zlen_app; lia|exact Hb|apply Forall_app; auto with zlist|]; split; [lia|exact Hb2].
Qed.

Lemma cfb_blocks_spec k : forall inp iv, bytes inp -> bytes iv -> zlen iv = 16 -> 16 * Z.of_nat k <= zlen inp ->
  let '(out, rest, iv') := cfb_blocks block enc k inp iv in
  rest = zdrop (16 * Z.of_nat k) inp /\ bytes iv' /\ zlen iv' = 16 /\
  run step {| ofb_ivec := iv; ofb_num := 0 |} (ztake (16 * Z.of_nat k) inp) = (out, {| ofb_ivec := iv'; ofb_num := 0 |}).
Proof.
  induction k as [|k IH]; intros inp iv Hi Hb Hl Hk; cbn [cfb_blocks].
  - rewrite Z.mul_0_r, zdrop_0, ztake_0; auto.
  - destruct (block_output iv Hb Hl) as [Hbb Hbl]; pose proof (cfb_block (block iv) inp Hbb Hbl Hi ltac:(lia)) as Hc.
    destruct (cfb_word enc inp (block iv) 0) as [out0 iv1]; destruct (cfb_word enc inp iv1 8) as [out1 iv2].
    destruct Hc as (Eo & Ei & Hl2 & Hb2).
    specialize (IH (zdrop 16 inp) iv2 ltac:(auto with zlist) Hb2 Hl2 ltac:(rewrite zlen_zdrop; lia)).
    destruct (cfb_blocks block enc k (zdrop 16 inp) iv2) as [[outs rest] iv']; destruct IH as (-> & Hb' & Hl' & E).
    replace (16 * Z.of_nat (S k)) with (16 + 16 * Z.of_nat k) by lia.
    rewrite zdrop_zdrop by lia; split; [f_equal; lia|]; split; [auto|]; split; [auto|].
    assert (zlen (ztake 16 inp) = 16) as H16 by (rewrite zlen_ztake; lia).
    assert (ztake 16 inp <> []) as Hne by (intros E0; rewrite E0 in H16; discriminate H16).
    rewrite ztake_add, run_app, (cfb_run_fresh iv (ztake 16 inp)), H16, <- Eo, <- Ei by (auto; lia).
    change (16 mod 16) with 0; now rewrite E, app_assoc.
Qed.

Lemma cfb_bytewise st inp : ofb_ok st -> bytes inp ->
  CRYPTO_cfb128_encrypt block enc st inp = run step st inp /\ ofb_ok (snd (run step st inp)).
Proof.
  intros ((Hb & Hl) & Hn) Hi; unfold CRYPTO_cfb128_encrypt; destruct st as [iv n]; cbn [ofb_ivec ofb_num] in *.
  pose proof (cfb_run_rest inp iv n Hn Hl Hb Hi) as Hr.
  destruct (cfb_rest enc inp iv n) as [[[out1 rest] iv1] n']; destruct Hr as ((Hn' & Hl1 & Hb1) & Hz & pre & -> & E1).
  apply Forall_app in Hi as [_ Hrest]; destruct Hz as [-> | ->].
  2: { change (Z.to_nat (zlen (@nil Z) / 16)) with 0%nat; change (zlen (@nil Z)) with 0.
       cbn [cfb_blocks Nat.ltb Nat.leb Z.eqb negb]; rewrite !app_nil_r, E1.
       repeat split; cbn [snd ofb_num ofb_ivec]; auto; lia. }
  destruct (split_at_blocks rest) as (Hk & Hlr & Es); set (k := Z.to_nat (zlen rest / 16)) in *.
  pose proof (cfb_blocks_spec k rest iv1 Hrest Hb1 Hl1 Hk) as Hbk.
  destruct (cfb_blocks block enc k rest iv1) as [[out2 rest'] iv']; destruct Hbk as (-> & Hb' & Hl' & E2).
  replace (if (0 <? k)%nat then 0 else 0) with 0 by (now destruct (0 <? k)%nat).
  set (last := zdrop _ rest) in *; rewrite Es; destruct (Z.eqb_spec (zlen last) 0) as [E0|E0]; cbn [negb].
  - rewrite (zlen_0_nil _ E0), app_nil_r, run_app, E1, E2.
    repeat split; cbn [snd ofb_num ofb_ivec]; auto; lia.
  - destruct (block_output iv' Hb' Hl') as [Hbb Hbl].
    assert (last <> []) as Hne by (intros E; rewrite E in E0; now apply E0).
    pose proof (cfb_run_fresh iv' last Hb' Hl' Hne ltac:(lia)) as E3.
    destruct (cfb_reg_shape enc (block iv') 0 last) as [Hl3 Hb3]; [lia|lia|exact Hbb|unfold last; auto with zlist|].
    rewrite cfb_tail_spec by lia; rewrite (run_parts _ _ _ _ _ _ _ _ _ _ _ E1 E2 E3), Z.add_0_l.
    rewrite Z.mod_small by lia; repeat split; cbn [snd ofb_num ofb_ivec]; auto; lia.
Qed.
End Cfb.

(** * Theorems *)

(** ** Decryption undoes encryption *)

Lemma lxor_twice a x : Z.lxor (Z.lxor x a) a = x.
Proof. now rewrite Z.lxor_assoc, Z.lxor_nilpotent, Z.lxor_0_r. Qed.

(** A machine [dec] that undoes each step of [enc] undoes a run of it. *)
Lemma run_inverse {S} (enc dec : S -> Z -> Z * S) :
  (forall st x, let '(y, st') := enc st x in dec st y = (x, st')) ->
  forall inp st, let '(out, st') := run enc st inp in run dec st out = (inp, st').
Proof.
  intros Hs; induction inp as [|x inp IH]; intros st; cbn [run]; [reflexivity|].
  specialize (Hs st x); destruct (enc st x) as [y st1]; specialize (IH st1); destruct (run enc st1 inp) as [out st2].
  cbn [run]; now rewrite Hs, IH.
Qed.

Lemma ctr_byte_inverse block st x : let '(y, st') := ctr_byte block st x in ctr_byte block st y = (x, st').
Proof. unfold ctr_byte; now rewrite lxor_twice. Qed.

Lemma ofb_byte_inverse block st x : let '(y, st') := ofb_byte block st x in ofb_byte block st y = (x, st').
Proof. unfold ofb_byte; now rewrite lxor_twice. Qed.

Lemma cfb_step_inverse block st x :
  let '(y, st') := cfb_step block true st x in cfb_step block false st y = (x, st').
Proof. unfold cfb_step; now rewrite (Z.lxor_comm _ x), (Z.lxor_comm _ (Z.lxor x _)), lxor_twice. Qed.

(** From the byte machines to the functions, on any pieces of plaintext and
    ciphertext. *)
Lemma calls_inverse {S} (P : S -> Prop) (f g : S -> list Z -> list Z * S) (enc dec : S -> Z -> Z * S) st plain cipher :
  (forall st inp, P st -> bytes inp -> f st inp = run enc st inp /\ P (snd (run enc st inp))) ->
  (forall st inp, P st -> bytes inp -> g st inp = run dec st inp /\ P (snd (run dec st inp))) ->
  (forall st x, let '(y, st') := enc st x in dec st y = (x, st')) ->
  P st -> Forall bytes plain -> Forall bytes cipher -> concat cipher = fst (calls f st plain) ->
  calls g st cipher = (concat plain, snd (calls f st plain)).
Proof.
  intros Hf Hg Hi HP Hp Hc E; rewrite (calls_run f enc P Hf) in * by auto; rewrite (calls_run g dec P Hg), E by auto.
  pose proof (run_inverse enc dec Hi (concat plain) st) as Hr; now destruct (run enc st (concat plain)).
Qed.

(** Decryption undoes encryption in counter, output feedback and cipher
    feedback mode, with any block function and from any state, however the
    plaintext and the ciphertext are cut into calls; both sides end in the same
    state. *)
Theorem stream_modes_roundtrip (block : list Z -> list Z) {BC : BlockCipher block}
    (cst : ctr_state) (ost : ofb_state) (plain c1 c2 c3 : list (list Z)) :
  ctr_ok cst -> ofb_ok ost -> Forall bytes plain -> Forall bytes c1 -> Forall bytes c2 -> Forall bytes c3 ->
  concat c1 = fst (calls (CRYPTO_ctr128_encrypt block) cst plain) ->
  concat c2 = fst (calls (CRYPTO_ofb128_encrypt block) ost plain) ->
  concat c3 = fst (calls (CRYPTO_cfb128_encrypt block true) ost plain) ->
  calls (CRYPTO_ctr128_encrypt block) cst c1 = (concat plain, snd (calls (CRYPTO_ctr128_encrypt block) cst plain)) /\
  calls (CRYPTO_ofb128_encrypt block) ost c2 = (concat plain, snd (calls (CRYPTO_ofb128_encrypt block) ost plain)) /\
  calls (CRYPTO_cfb128_encrypt block false) ost c3 = (concat plain, snd (calls (CRYPTO_cfb128_encrypt block true) ost plain)).
Proof.
  intros Hcs Hos Hp H1 H2 H3 E1 E2 E3; split; [|split].
  - exact (calls_inverse ctr_ok _ _ _ _ cst plain c1 (ctr_bytewise block) (ctr_bytewise block) (ctr_byte_inverse block)
      Hcs Hp H1 E1).
  - exact (calls_inverse ofb_ok _ _ _ _ ost plain c2 (ofb_bytewise block) (ofb_bytewise block) (ofb_byte_inverse block)
      Hos Hp H2 E2).
  - exact (calls_inverse ofb_ok _ _ _ _ ost plain c3 (cfb_bytewise block true) (cfb_bytewise block false)
      (cfb_step_inverse block) Hos Hp H3 E3).
Qed.

(** A toy block function: the counter block reversed and complemented. *)
Definition toy_block (x : list Z) : list Z := map (fun b => 255 - b) (rev x).

#[export] Instance toy_cipher : BlockCipher toy_block.
Proof.
  intros x Hb Hl; unfold toy_block; split.
  - apply Forall_map, Forall_rev; eapply Forall_impl; [exact Hb|]; unfold byte; intros; cbn; lia.
  - unfold zlen in *; now rewrite length_map, length_rev.
Qed.

Definition toy_ctr : ctr_state := {| ivec := zrep 16 255; ecount_buf := zrep 16 0; ctr_num := 0 |}.
Definition toy_ofb : ofb_state := {| ofb_ivec := zrep 16 7; ofb_num := 0 |}.

(** Twenty bytes in two pieces, with a counter that wraps around; the ciphertext
    comes back in one piece. *)
Lemma stream_modes_roundtrip_witness :
  let plain := [[1; 2; 3]; [4; 5; 6; 7; 8; 9; 10; 11; 12; 13; 14; 15; 16; 17; 18; 19; 20]] in
  fst (calls (CRYPTO_ctr128_encrypt toy_block) toy_ctr plain) <> concat plain /\
  calls (CRYPTO_cfb128_encrypt toy_block false) toy_ofb
    [fst (calls (CRYPTO_cfb128_encrypt toy_block true) toy_ofb plain)] =
  (concat plain, snd (calls (CRYPTO_cfb128_encrypt toy_block true) toy_ofb plain)).
Proof.
  intros plain; split; [vm_compute; discriminate|].
  refine (proj2 (proj2 (stream_modes_roundtrip toy_block toy_ctr toy_ofb plain
    [fst (calls (CRYPTO_ctr128_encrypt toy_block) toy_ctr plain)]
    [fst (calls (CRYPTO_ofb128_encrypt toy_block) toy_ofb plain)]
    [fst (calls (CRYPTO_cfb128_encrypt toy_block true) toy_ofb plain)] _ _ _ _ _ _ _ _ _)));
    try (cbn [concat]; now rewrite app_nil_r).
  - repeat split; try (vm_compute; congruence); each_literal.
  - repeat split; try (vm_compute; congruence); each_literal.
  - repeat constructor; unfold byte; lia.
  - constructor; [|constructor]; vm_compute; each_literal.
  - constructor; [|constructor]; vm_compute; each_literal.
  - constructor; [|constructor]; vm_compute; each_literal.
Defined.
