(* ===== verification/ModesCtr.v ===== *)
(** Counter mode: the keystream it applies, and the equivalence of the version
    that works through a function for 32-bit counters
    (crypto/fipsmodule/modes/ctr.c; the definitions are in Modes.v). *)

From S2P Require Import Prelude Cbs Words Modes.

(** * Counters as integers *)

Lemma be_enc_mod n v : be_enc n (v mod 256 ^ Z.of_nat n) = be_enc n v.
Proof.
  pose proof (be_enc_be_val (be_enc n v) (bytes_be_enc n v)) as E.
  now rewrite length_be_enc, be_val_be_enc in E.
Qed.

(** The counter block [k] places after [iv], modulo 2^128. *)
Definition ctr_add (iv : list Z) (k : Z) : list Z := be_enc 16 (be_val iv + k).

Lemma ctr_add_0 iv : bytes iv -> zlen iv = 16 -> ctr_add iv 0 = iv.
Proof.
  intros Hb Hl; unfold ctr_add; rewrite Z.add_0_r.
  rewrite <- (be_enc_be_val iv Hb) at 2; f_equal; unfold zlen in Hl; lia.
Qed.

Lemma ctr_add_shape iv k : bytes (ctr_add iv k) /\ zlen (ctr_add iv k) = 16.
Proof. split; [apply bytes_be_enc|apply zlen_be_enc]. Qed.

Lemma ctr_add_add iv j k : ctr_add (ctr_add iv j) k = ctr_add iv (j + k).
Proof.
  unfold ctr_add; rewrite be_val_be_enc, <- (be_enc_mod 16), Z.add_mod_idemp_l by lia.
  rewrite be_enc_mod; f_equal; lia.
Qed.

Lemma ctr128_inc_add iv k : ctr128_inc (ctr_add iv k) = ctr_add iv (k + 1).
Proof. destruct (ctr_add_shape iv k); rewrite ctr128_inc_spec by auto; apply (ctr_add_add iv k 1). Qed.

(** * The keystream *)

(** Byte [p] of the keystream: byte [p mod 16] of the image of the counter block
    number [p / 16]. *)
Definition keystream (block : list Z -> list Z) (iv : list Z) (p : Z) : Z := znth (block (ctr_add iv (p / 16))) (p mod 16).

Fixpoint xor_from (stream : Z -> Z) (p : Z) (inp : list Z) : list Z :=
  match inp with
  | [] => []
  | x :: inp => Z.lxor x (stream p) :: xor_from stream (p + 1) inp
  end.

(** The states of the machine after [p] bytes. *)
Definition ctr_at (block : list Z -> list Z) (iv : list Z) (p : Z) (st : ctr_state) : Prop :=
  ivec st = ctr_add iv ((p + 15) / 16) /\ ctr_num st = p mod 16 /\
  (p mod 16 <> 0 -> ecount_buf st = block (ctr_add iv (p / 16))).

Lemma ctr_at_step block iv p st x : 0 <= p -> ctr_at block iv p st ->
  let '(y, st') := ctr_byte block st x in y = Z.lxor x (keystream block iv p) /\ ctr_at block iv (p + 1) st'.
Proof.
  intros Hp (Ei & En & Ee); unfold ctr_byte, keystream; rewrite En.
  pose proof (Z.div_mod p 16 ltac:(lia)) as Hd; pose proof (Z.mod_pos_bound p 16 ltac:(lia)) as Hm.
  assert ((p + 1 + 15) / 16 = p / 16 + 1) as E1 by (symmetry; apply Z.div_unique with (p mod 16); lia).
  assert ((p + 1) mod 16 <> 0 -> (p + 1) / 16 = p / 16) as E2.
  { intros Hne; symmetry; apply Z.div_unique with (p mod 16 + 1); [|lia]; left; split; [lia|].
    assert (p mod 16 + 1 <> 16); [|lia]; intros E; apply Hne; replace (p + 1) with ((p / 16 + 1) * 16) by lia.
    apply Z.mod_mul; lia. }
  destruct (Z.eqb_spec (p mod 16) 0) as [E0|E0]; cbn [ctr_num ivec ecount_buf].
  - assert ((p + 15) / 16 = p / 16) as E3 by (symmetry; apply Z.div_unique with 15; lia).
    rewrite Ei, E3, E0 in *; split; [reflexivity|]; unfold ctr_at; cbn [ctr_num ivec ecount_buf].
    rewrite E1, ctr128_inc_add; repeat split; auto; [now rewrite <- (Zplus_mod_idemp_l p), E0|].
    intros Hne; now rewrite E2.
  - assert ((p + 15) / 16 = p / 16 + 1) as E3 by (symmetry; apply Z.div_unique with (p mod 16 - 1); lia).
    rewrite Ee, En by auto; split; [reflexivity|]; unfold ctr_at; cbn [ctr_num ivec ecount_buf].
    rewrite E1, <- E3; repeat split; auto; [now rewrite Zplus_mod_idemp_l|]; intros Hne; now rewrite E2.
Qed.

Lemma ctr_at_run block iv inp : forall p st, 0 <= p -> ctr_at block iv p st ->
  let '(out, st') := run (ctr_byte block) st inp in
  out = xor_from (keystream block iv) p inp /\ ctr_at block iv (p + zlen inp) st'.
Proof.
  induction inp as [|x inp IH]; intros p st Hp Hst; cbn [run xor_from]; [now rewrite Z.add_0_r|].
  pose proof (ctr_at_step block iv p st x Hp Hst) as Hs; destruct (ctr_byte block st x) as [y st1].
  destruct Hs as [-> Hst1]; specialize (IH (p + 1) st1 ltac:(lia) Hst1); destruct (run (ctr_byte block) st1 inp) as [out st2].
  destruct IH as [-> H2]; split; [reflexivity|]; replace (p + zlen (x :: inp)) with (p + 1 + zlen inp) by (rewrite zlen_cons; lia); exact H2.
Qed.

(** However the data is cut into calls, counter mode applies the exclusive
    or with the stream of the images of the counter blocks: the initial block
    read as a 128-bit big-endian integer, plus 0, 1, 2, ..., modulo 2^128. *)
Theorem ctr_keystream (block : list Z -> list Z) {BC : BlockCipher block} (iv ecount : list Z) (chunks : list (list Z)) :
  bytes iv -> zlen iv = 16 -> zlen ecount = 16 -> Forall bytes chunks ->
  let '(out, st) := calls (CRYPTO_ctr128_encrypt block) {| ivec := iv; ecount_buf := ecount; ctr_num := 0 |} chunks in
  out = xor_from (keystream block iv) 0 (concat chunks) /\
  ivec st = ctr_add iv ((zlen (concat chunks) + 15) / 16) /\ ctr_num st = zlen (concat chunks) mod 16.
Proof.
  intros Hb Hl He Hc; rewrite (calls_run _ (ctr_byte block) ctr_ok (ctr_bytewise block)) by
    (auto; repeat split; cbn [ivec ecount_buf ctr_num]; auto; lia).
  pose proof (ctr_at_run block iv (concat chunks) 0 {| ivec := iv; ecount_buf := ecount; ctr_num := 0 |} ltac:(lia)) as Hr.
  destruct (run (ctr_byte block) _ (concat chunks)) as [out st]; destruct Hr as (E & E1 & E2 & _); [|auto].
  repeat split; cbn [ivec ctr_num]; [now rewrite ctr_add_0|]; intros Hne; exfalso; now apply Hne.
Qed.

(** A counter of all ones: the second block is that of the counter zero. *)
Lemma ctr_keystream_witness :
  let '(out, _) := calls (CRYPTO_ctr128_encrypt toy_block) toy_ctr [zrep 5 0; zrep 13 0] in
  out = xor_from (keystream toy_block (zrep 16 255)) 0 (zrep 18 0) /\ out = zrep 16 0 ++ [255; 255].
Proof.
  split; [|vm_compute; reflexivity].
  refine (proj1 (ctr_keystream toy_block (zrep 16 255) (zrep 16 0) [zrep 5 0; zrep 13 0] _ _ _ _));
    [each_literal|reflexivity|reflexivity|repeat constructor; unfold byte; lia].
Defined.

(** * The version for 32-bit counters *)

(** The last four bytes of a counter block as an integer. *)
Definition low32 (iv : list Z) : Z := be_val (zdrop 12 iv).

(** What a [ctr128_f] computes: counter mode in which only the last four bytes
    are incremented, modulo 2^32. *)
Definition inc32 (iv : list Z) : list Z := ztake 12 iv ++ be_enc 4 (low32 iv + 1).

Fixpoint ctr32_ref (block : list Z -> list Z) (k : nat) (inp iv : list Z) : list Z :=
  match k with
  | O => []
  | S k => zip_with Z.lxor (ztake 16 inp) (block iv) ++ ctr32_ref block k (zdrop 16 inp) (inc32 iv)
  end.

Class Ctr32Func (block : list Z -> list Z) (func : list Z -> Z -> list Z -> list Z) : Prop :=
  ctr32_func : forall inp n iv, bytes inp -> bytes iv -> zlen iv = 16 -> 0 <= n -> 16 * n <= zlen inp ->
    func inp n iv = ctr32_ref block (Z.to_nat n) inp iv.

Section CounterParts.
  Variable iv : list Z.
  Hypothesis iv_bytes : bytes iv.
  Hypothesis iv_len : zlen iv = 16.

Lemma low32_bound : 0 <= low32 iv < 2 ^ 32.
Proof.
  unfold low32; assert (bytes (zdrop 12 iv)) as Hb by auto with zlist.
  pose proof (be_val_nonneg _ Hb); pose proof (be_val_bound _ Hb) as Hu; rewrite zlen_zdrop, iv_len in Hu by lia.
  change (256 ^ (16 - 12)) with (2 ^ 32) in Hu; lia.
Qed.

Lemma ctr_parts : be_val iv = be_val (ztake 12 iv) * 2 ^ 32 + low32 iv.
Proof.
  rewrite <- (ztake_zdrop 12 iv) at 1; rewrite be_val_app, zlen_zdrop, iv_len by lia; reflexivity.
Qed.

Lemma high_enc : be_enc 12 (be_val (ztake 12 iv)) = ztake 12 iv.
Proof.
  pose proof (be_enc_be_val (ztake 12 iv) ltac:(auto with zlist)) as E.
  pose proof (zlen_ztake 12 iv ltac:(lia)) as Hl; unfold zlen in Hl; now replace (length (ztake 12 iv)) with 12%nat in E by lia.
Qed.

(** Adding without and with a carry out of the last four bytes. *)
Lemma ctr_add_low k : 0 <= k -> low32 iv + k < 2 ^ 32 -> ctr_add iv k = ztake 12 iv ++ be_enc 4 (low32 iv + k).
Proof.
  intros Hk Hlt; pose proof low32_bound; unfold ctr_add; rewrite ctr_parts, <- Z.add_assoc.
  pose proof (be_enc_app 12 4 (be_val (ztake 12 iv)) (low32 iv + k)) as E; change (256 ^ Z.of_nat 4) with (2 ^ 32) in E.
  change (12 + 4)%nat with 16%nat in E; now rewrite E, high_enc by lia.
Qed.

Lemma ctr_add_carry k : low32 iv + k = 2 ^ 32 -> ctr_add iv k = be_enc 12 (be_val (ztake 12 iv) + 1) ++ be_enc 4 0.
Proof.
  intros Hk; unfold ctr_add; rewrite ctr_parts, <- Z.add_assoc, Hk.
  pose proof (be_enc_app 12 4 (be_val (ztake 12 iv) + 1) 0) as E; change (256 ^ Z.of_nat 4) with (2 ^ 32) in E.
  change (12 + 4)%nat with 16%nat in E; rewrite <- E by lia; f_equal; lia.
Qed.

Lemma low32_add k : 0 <= k -> low32 iv + k <= 2 ^ 32 -> low32 (ctr_add iv k) = (low32 iv + k) mod 2 ^ 32.
Proof.
  intros Hk Hle; assert (zlen (ztake 12 iv) = 12) as H12 by (rewrite zlen_ztake; lia); unfold low32 at 1.
  destruct (decide (low32 iv + k < 2 ^ 32)) as [Hlt|Hge].
  - rewrite ctr_add_low, zdrop_app_eq, be_val_be_enc by lia; reflexivity.
  - assert (low32 iv + k = 2 ^ 32) as E by lia; rewrite ctr_add_carry, E, zdrop_app_eq by (auto; now rewrite zlen_be_enc).
    reflexivity.
Qed.

Lemma store_ctr32_spec k : 1 <= k -> low32 iv + k <= 2 ^ 32 -> store_ctr32 iv ((low32 iv + k) mod 2 ^ 32) = ctr_add iv k.
Proof.
  intros Hk Hle; pose proof low32_bound; unfold store_ctr32.
  assert (zlen (ztake 12 iv) = 12) as H12 by (rewrite zlen_ztake; lia).
  assert (forall v, 0 <= v < 2 ^ 32 -> zsplice iv 12 (CRYPTO_store_u32_be v) = ztake 12 iv ++ be_enc 4 v) as Hs.
  { intros v Hv; rewrite store_u32_be_spec by auto; unfold zsplice; rewrite zlen_be_enc.
    now rewrite zdrop_all, app_nil_r by lia. }
  destruct (decide (low32 iv + k < 2 ^ 32)) as [Hlt|Hge].
  - rewrite Z.mod_small, Hs, (proj2 (Z.eqb_neq (low32 iv + k) 0)), ctr_add_low by lia; reflexivity.
  - assert (low32 iv + k = 2 ^ 32) as E by lia; rewrite ctr_add_carry, E, Z.mod_same, Hs by lia; cbn [Z.eqb].
    apply (inc_loop_spec 12 1 (ztake 12 iv) (be_enc 4 0)); [auto with zlist|exact H12|lia].
Qed.
End CounterParts.

Section Ctr32.
  Context (block : list Z -> list Z) {BC : BlockCipher block}.
  Context (func : list Z -> Z -> list Z -> list Z) {CF : Ctr32Func block func}.

Lemma ctr_blocks_add a b : forall inp iv ec, ctr_blocks block (a + b) inp iv ec =
  let '(o1, inp, iv, ec) := ctr_blocks block a inp iv ec in
  let '(o2, inp, iv, ec) := ctr_blocks block b inp iv ec in (o1 ++ o2, inp, iv, ec).
Proof.
  induction a as [|a IH]; intros inp iv ec; cbn [Nat.add ctr_blocks];
    [now destruct (ctr_blocks block b inp iv ec) as [[[? ?] ?] ?]|].
  rewrite IH; destruct (ctr_blocks block a _ _ _) as [[[o1 i1] v1] e1].
  destruct (ctr_blocks block b i1 v1 e1) as [[[o2 i2] v2] e2]; now rewrite app_assoc.
Qed.

(** Until the 32-bit counter wraps around the two agree. *)
Lemma ctr32_ref_blocks k : forall inp iv ec, bytes inp -> bytes iv -> zlen iv = 16 ->
  16 * Z.of_nat k <= zlen inp -> low32 iv + Z.of_nat k <= 2 ^ 32 ->
  exists ec', ctr_blocks block k inp iv ec =
    (ctr32_ref block k inp iv, zdrop (16 * Z.of_nat k) inp, ctr_add iv (Z.of_nat k), ec').
Proof.
  induction k as [|k IH]; intros inp iv ec Hi Hb Hl Hk Hlow; cbn [ctr_blocks ctr32_ref].
  - exists ec; now rewrite Z.mul_0_r, zdrop_0, ctr_add_0.
  - destruct (block_output iv Hb Hl) as [Hbb Hbl]; rewrite xor16_spec by (auto; lia).
    assert (ctr128_inc iv = ctr_add iv 1) as E1 by (rewrite ctr128_inc_spec by auto; reflexivity).
    destruct (ctr_add_shape iv 1) as [Hb1 Hl1]; rewrite E1.
    replace (16 * Z.of_nat (S k)) with (16 + 16 * Z.of_nat k) by lia.
    replace (Z.of_nat (S k)) with (1 + Z.of_nat k) by lia.
    destruct k as [|k].
    { cbn [ctr_blocks ctr32_ref]; exists (block iv); now rewrite Z.mul_0_r, !Z.add_0_r, app_nil_r. }
    assert (inc32 iv = ctr_add iv 1) as -> by (unfold inc32; now rewrite ctr_add_low by (auto; lia)).
    pose proof (low32_bound iv Hb Hl); pose proof (low32_add iv Hb Hl 1 ltac:(lia) ltac:(lia)) as El.
    rewrite Z.mod_small in El by lia.
    destruct (IH (zdrop 16 inp) (ctr_add iv 1) (block iv)) as [ec' ->]; auto with zlist; [rewrite zlen_zdrop; lia|lia|].
    exists ec'; rewrite ctr_add_add, zdrop_zdrop by lia; reflexivity.
Qed.

(** How many blocks an iteration takes and what the counter becomes. *)
Lemma ctr32_amount ctr B : 0 <= ctr < 2 ^ 32 -> 1 <= B ->
  let b := if Z.shiftl 1 28 <? B then Z.shiftl 1 28 else B in
  let c := u32 (ctr + u32 b) in
  let '(n, c') := if c <? b then (b - c, 0) else (b, c) in
  1 <= n <= B /\ ctr + n <= 2 ^ 32 /\ c' = (ctr + n) mod 2 ^ 32.
Proof.
  intros Hc HB; change (Z.shiftl 1 28) with (2 ^ 28); set (b := if 2 ^ 28 <? B then 2 ^ 28 else B); cbv zeta.
  assert (1 <= b <= 2 ^ 28 /\ b <= B) as [Hb HbB] by (unfold b; destruct (Z.ltb_spec (2 ^ 28) B); lia).
  rewrite (uw_small 32 b) by lia; unfold uw; destruct (decide (ctr + b < 2 ^ 32)) as [Hlt|Hge].
  - rewrite (Z.mod_small (ctr + b)) by lia; destruct (Z.ltb_spec (ctr + b) b); [lia|].
    split; [lia|]; split; [lia|]; symmetry; apply Z.mod_small; lia.
  - assert ((ctr + b) mod 2 ^ 32 = ctr + b - 2 ^ 32) as -> by (symmetry; apply Z.mod_unique with 1; lia).
    destruct (Z.ltb_spec (ctr + b - 2 ^ 32) b); [|lia].
    split; [lia|]; split; [lia|]; replace (ctr + _) with (2 ^ 32) by lia; reflexivity.
Qed.

Lemma ctr32_blocks_spec fuel : forall inp iv ec, bytes inp -> bytes iv -> zlen iv = 16 ->
  zlen inp / 16 <= Z.of_nat fuel ->
  exists out rest iv' ec', ctr_blocks block (Z.to_nat (zlen inp / 16)) inp iv ec = (out, rest, iv', ec') /\
    ctr32_blocks func fuel inp iv (low32 iv) = Some (out, rest, iv', low32 iv').
Proof.
  induction fuel as [|fuel IH]; intros inp iv ec Hi Hb Hl Hf; pose proof (zlen_nonneg inp);
    pose proof (Z.div_mod (zlen inp) 16 ltac:(lia)) as Hdm; pose proof (Z.mod_pos_bound (zlen inp) 16 ltac:(lia));
    pose proof (Z.div_pos (zlen inp) 16 ltac:(lia) ltac:(lia)); unfold ctr32_blocks; fold (ctr32_blocks func);
    destruct (Z.leb_spec 16 (zlen inp)) as [H16|H16]; try lia.
  1, 3: rewrite Z.div_small by lia; exists [], inp, iv, ec; auto.
  set (B := zlen inp / 16) in *; pose proof (low32_bound iv Hb Hl) as Hlow.
  pose proof (ctr32_amount (low32 iv) B Hlow ltac:(lia)) as Ha; cbv zeta in Ha.
  destruct (if u32 (_ + _) <? _ then _ else _) as [n c']; destruct Ha as (Hn & Hle & ->).
  rewrite (ctr32_func (block := block) (func := func) inp n iv), store_ctr32_spec by (auto; lia).
  replace (Z.to_nat B) with (Z.to_nat n + Z.to_nat (B - n))%nat by lia; rewrite ctr_blocks_add.
  destruct (ctr32_ref_blocks (Z.to_nat n) inp iv ec) as [ec1 ->]; auto; [lia|lia|]; rewrite Z2Nat.id by lia.
  destruct (ctr_add_shape iv n) as [Hb1 Hl1].
  assert (zlen (zdrop (16 * n) inp) / 16 = B - n) as EB.
  { rewrite zlen_zdrop by lia; symmetry; apply Z.div_unique with (zlen inp mod 16); lia. }
  destruct (IH (zdrop (16 * n) inp) (ctr_add iv n) ec1) as (out & rest & iv' & ec' & E1 & E2); auto with zlist; [lia|].
  rewrite EB in E1; rewrite E1; rewrite (Z.mul_comm n 16), <- (low32_add iv Hb Hl n) by lia; rewrite E2.
  do 4 eexists; split; reflexivity.
Qed.
End Ctr32.

Lemma ctr32_load iv : bytes iv -> zlen iv = 16 -> CRYPTO_load_u32_be (zdrop 12 iv) = low32 iv.
Proof.
  intros Hb Hl; unfold low32; rewrite <- (app_nil_r (zdrop 12 iv)) at 1.
  apply load_u32_be_spec; [auto with zlist|]; rewrite zlen_zdrop; lia.
Qed.

Lemma zip_xor_zeros l : zip_with Z.lxor (zrep (zlen l) 0) l = l.
Proof.
  unfold zrep, zlen; rewrite Nat2Z.id; induction l as [|x l IH]; cbn [length replicate zip_with]; [reflexivity|].
  now rewrite IH.
Qed.

(** C34. The version of counter mode that works through a function for 32-bit
    counters computes the same as the one that encrypts block by block: the same
    output, counter and position, and the same buffered block when part of it is
    still to be used. The splitting of the input at the points where the 32-bit
    counter wraps around, and the carry into the upper 96 bits, are right, and
    the loop ends. *)
Theorem ctr32_equivalent (block : list Z -> list Z) {BC : BlockCipher block}
    (func : list Z -> Z -> list Z -> list Z) {CF : Ctr32Func block func} (st : ctr_state) (inp : list Z) :
  ctr_ok st -> bytes inp ->
  let '(out, st1) := CRYPTO_ctr128_encrypt block st inp in
  exists st2, CRYPTO_ctr128_encrypt_ctr32 func st inp = Some (out, st2) /\
    ivec st2 = ivec st1 /\ ctr_num st2 = ctr_num st1 /\ (ctr_num st2 <> 0 -> ecount_buf st2 = ecount_buf st1).
Proof.
  intros ((Hb & Hl) & Hec & Hn) Hi; unfold CRYPTO_ctr128_encrypt, CRYPTO_ctr128_encrypt_ctr32.
  destruct st as [iv ec n]; cbn [ivec ecount_buf ctr_num] in *; rewrite ctr32_load by auto.
  pose proof (run_rest (ctr_byte block) ec (fun n => {| ivec := iv; ecount_buf := ec; ctr_num := n |})
    (fun n x Hn => ctr_step_within block iv ec n x Hn) inp n Hn) as Hr.
  destruct (use_rest inp ec n) as [[out1 rest] n']; destruct Hr as (Hn' & Hz & pre & -> & _).
  apply Forall_app in Hi as [_ Hrest]; destruct (split_at_blocks rest) as (Hk & Hlr & _).
  destruct (ctr32_blocks_spec block func (Z.to_nat (zlen rest / 16)) rest iv ec Hrest Hb Hl ltac:(lia))
    as (out2 & rest2 & iv2 & ec2 & E1 & E2).
  pose proof (ctr_blocks_spec block _ rest iv ec Hrest Hb Hl Hk) as Hs; rewrite E1 in *; rewrite E2.
  set (k := Z.to_nat (zlen rest / 16)) in *; destruct Hs as (-> & Hb2 & Hl2 & _ & _).
  destruct Hz as [-> | ->].
  2: { cbn [k Z.to_nat ctr_blocks] in E1; change (zlen (zdrop (16 * Z.of_nat k) [])) with 0; cbn [Z.eqb negb].
       change (0 <? k)%nat with false; injection E1 as <- <- <-; eexists; split; [reflexivity|auto]. }
  replace (if (0 <? k)%nat then 0 else 0) with 0 by (now destruct (0 <? k)%nat).
  set (last := zdrop _ rest) in *; destruct (Z.eqb_spec (zlen last) 0) as [E0|E0]; cbn [negb].
  - eexists; split; [reflexivity|]; cbn [ivec ctr_num ecount_buf]; repeat split; auto; congruence.
  - rewrite (ctr32_func (block := block) (func := func) (zrep 16 0) 1 iv2) by (auto; try lia; try reflexivity; apply bytes_zrep; unfold byte; lia).
    destruct (block_output iv2 Hb2 Hl2) as [_ Hbl]; change (Z.to_nat 1) with 1%nat; cbn [ctr32_ref].
    rewrite (ztake_all 16 (zrep 16 0)), <- Hbl, zip_xor_zeros, app_nil_r by reflexivity.
    pose proof (low32_bound iv2 Hb2 Hl2).
    unfold uw; rewrite (store_ctr32_spec iv2 Hb2 Hl2 1), ctr128_inc_spec by (auto; lia); destruct (use_tail last (block iv2) 0) as [out3 n3].
    eexists; split; [reflexivity|]; cbn [ivec ctr_num ecount_buf]; auto.
Qed.

(** The reference for the toy block function is a [ctr128_f]; with a counter one
    below the carry, the second block is in the next group of 2^32. *)
#[export] Instance toy_ctr32 : Ctr32Func toy_block (fun inp n iv => ctr32_ref toy_block (Z.to_nat n) inp iv).
Proof. intros inp n iv _ _ _ _ _; reflexivity. Qed.

Lemma ctr32_equivalent_witness :
  let '(out, st1) := CRYPTO_ctr128_encrypt toy_block toy_ctr (zrep 40 1) in
  exists st2, CRYPTO_ctr128_encrypt_ctr32 (fun inp n iv => ctr32_ref toy_block (Z.to_nat n) inp iv) toy_ctr (zrep 40 1) =
    Some (out, st2) /\ ivec st2 = ivec st1 /\ ctr_num st2 = ctr_num st1 /\
    (ctr_num st2 <> 0 -> ecount_buf st2 = ecount_buf st1).
Proof.
  apply (ctr32_equivalent toy_block (fun inp n iv => ctr32_ref toy_block (Z.to_nat n) inp iv) toy_ctr (zrep 40 1)).
  - repeat split; try (vm_compute; congruence); each_literal.
  - apply bytes_zrep; unfold byte; lia.
Defined.
