(* ===== verification/Cbc.v ===== *)
(** Cipher block chaining: crypto/fipsmodule/modes/cbc.c.

    The functions may be called with overlapping buffers, and decryption chooses
    its algorithm by how the pointers lie. They are therefore modelled on one
    memory [mem] with the offsets of [in] and [out] in it; the vector [ivec] is
    an array of the caller's apart from it. A pointer [iv] is either [ivec]
    ([None]) or an offset. The block function with its key is a parameter. *)

From S2P Require Import Prelude Cbs Words Modes.

(** The [n] bytes at [off]. *)
Definition slice (mem : list Z) (off n : Z) : list Z := ztake n (zdrop off mem).

(** The sixteen bytes at the pointer [iv]. *)
Definition at_iv (ivec : list Z) (iv : option Z) (mem : list Z) : list Z :=
  match iv with None => ivec | Some off => slice mem off 16 end.

(** [CRYPTO_xor16] in memory: [a] and [b] say what is read through the
    pointers; the second word is read after the first has been written. *)
Definition xor16_mem (mem : list Z) (out : Z) (a b : list Z -> list Z) : list Z :=
  let word i mem := CRYPTO_store_word_le (Z.lxor (CRYPTO_load_word_le (zdrop i (a mem)))
                                                 (CRYPTO_load_word_le (zdrop i (b mem)))) in
  let mem := zsplice mem out (word 0 mem) in
  zsplice mem (out + 8) (word 8 mem).

Section Cbc.
  Variable block : list Z -> list Z.

(** * Encryption *)

(** [k] iterations of [while (len >= 16)]: the memory and the pointer [iv]. *)
Fixpoint cbc_enc_blocks (ivec : list Z) (k : nat) (mem : list Z) (inp out : Z) (iv : option Z) : list Z * option Z :=
  match k with
  | O => (mem, iv)
  | S k =>
      let mem := xor16_mem mem out (fun mem => slice mem inp 16) (at_iv ivec iv) in
      let mem := zsplice mem out (block (slice mem out 16)) in
      cbc_enc_blocks ivec k mem (inp + 16) (out + 16) (Some out)
  end.

(** The two byte loops of the last, partial block. *)
Fixpoint cbc_enc_bytes (ivec : list Z) (k : nat) (n len : Z) (mem : list Z) (inp out : Z) (iv : option Z) : list Z :=
  match k with
  | O => mem
  | S k =>
      let x := znth (at_iv ivec iv mem) n in
      let v := if n <? len then Z.lxor (znth mem (inp + n)) x else x in
      cbc_enc_bytes ivec k (n + 1) len (zsplice mem (out + n) [v]) inp out iv
  end.

(** The memory and [ivec]. The second loop runs once at most: less than a block
    is left. *)
Definition CRYPTO_cbc128_encrypt (mem : list Z) (inp out len : Z) (ivec : list Z) : list Z * list Z :=
  if len =? 0 then (mem, ivec)
  else
    let k := Z.to_nat (len / 16) in
    let '(mem, iv) := cbc_enc_blocks ivec k mem inp out None in
    let done := len / 16 * 16 in
    let '(inp, out, len) := (inp + done, out + done, len - done) in
    if negb (len =? 0) then
      let mem := cbc_enc_bytes ivec 16 0 len mem inp out iv in
      let mem := zsplice mem out (block (slice mem out 16)) in
      (mem, slice mem out 16)
    else (mem, at_iv ivec iv mem).

(** * Decryption *)

(** The loop for buffers that are disjoint or two blocks apart. *)
Fixpoint cbc_dec_far (ivec : list Z) (k : nat) (mem : list Z) (inp out : Z) (iv : option Z) : list Z * option Z :=
  match k with
  | O => (mem, iv)
  | S k =>
      let mem := zsplice mem out (block (slice mem inp 16)) in
      let mem := xor16_mem mem out (fun mem => slice mem out 16) (at_iv ivec iv) in
      cbc_dec_far ivec k mem (inp + 16) (out + 16) (Some inp)
  end.

(** One word of the loop for buffers that are close together. *)
Definition cbc_dec_word (n : Z) (tmp : list Z) (mem : list Z) (inp out : Z) (ivec : list Z) : list Z * list Z :=
  let c := CRYPTO_load_word_le (zdrop (inp + n) mem) in
  let v := Z.lxor (CRYPTO_load_word_le (zdrop n tmp)) (CRYPTO_load_word_le (zdrop n ivec)) in
  (zsplice mem (out + n) (CRYPTO_store_word_le v), zsplice ivec n (CRYPTO_store_word_le c)).

Fixpoint cbc_dec_near (k : nat) (mem : list Z) (inp out : Z) (ivec : list Z) : list Z * list Z :=
  match k with
  | O => (mem, ivec)
  | S k =>
      let tmp := block (slice mem inp 16) in
      let '(mem, ivec) := cbc_dec_word 0 tmp mem inp out ivec in
      let '(mem, ivec) := cbc_dec_word 8 tmp mem inp out ivec in
      cbc_dec_near k mem (inp + 16) (out + 16) ivec
  end.

(** The byte loop of the last, partial block. *)
Fixpoint cbc_dec_bytes (k : nat) (n : Z) (tmp mem : list Z) (inp out : Z) (ivec : list Z) : list Z * list Z :=
  match k with
  | O => (mem, ivec)
  | S k =>
      let c := znth mem (inp + n) in
      let mem := zsplice mem (out + n) [Z.lxor (znth tmp n) (znth ivec n)] in
      cbc_dec_bytes k (n + 1) tmp mem inp out (zsplice ivec n [c])
  end.

Definition CRYPTO_cbc128_decrypt (mem : list Z) (inp out len : Z) (ivec : list Z) : list Z * list Z :=
  if len =? 0 then (mem, ivec)
  else
    let k := Z.to_nat (len / 16) in
    let '(mem, ivec) :=
      if (out + 32 <=? inp) || (inp <? out) then
        let '(mem, iv) := cbc_dec_far ivec k mem inp out None in (mem, at_iv ivec iv mem)
      else cbc_dec_near k mem inp out ivec in
    let done := len / 16 * 16 in
    let '(inp, out, len) := (inp + done, out + done, len - done) in
    if negb (len =? 0) then
      let tmp := block (slice mem inp 16) in
      let '(mem, ivec) := cbc_dec_bytes (Z.to_nat len) 0 tmp mem inp out ivec in
      (mem, zsplice ivec len (slice mem (inp + len) (16 - len)))
    else (mem, ivec).

(** * Chaining on byte strings *)

Fixpoint cbc_enc (k : nat) (iv p : list Z) : list Z :=
  match k with
  | O => []
  | S k => let c := block (zip_with Z.lxor (ztake 16 p) iv) in c ++ cbc_enc k c (zdrop 16 p)
  end.

Fixpoint cbc_dec (k : nat) (iv c : list Z) : list Z :=
  match k with
  | O => []
  | S k => zip_with Z.lxor (block (ztake 16 c)) iv ++ cbc_dec k (ztake 16 c) (zdrop 16 c)
  end.
End Cbc.

(** * Reading and writing memory *)

Lemma slice_len mem off n : 0 <= off -> 0 <= n -> off + n <= zlen mem -> zlen (slice mem off n) = n.
Proof. intros; unfold slice; rewrite zlen_ztake; [reflexivity|]; rewrite zlen_zdrop; lia. Qed.

Lemma slice_bytes mem off n : bytes mem -> bytes (slice mem off n).
Proof. intros; unfold slice; auto with zlist. Qed.

Lemma slice_slice mem off n a m : 0 <= off -> 0 <= a -> 0 <= m -> a + m <= n ->
  slice (slice mem off n) a m = slice mem (off + a) m.
Proof.
  intros Ho Ha Hm Hn; unfold slice; replace n with (a + (n - a)) by lia; rewrite zdrop_ztake by lia.
  rewrite ztake_ztake, zdrop_zdrop by lia; reflexivity.
Qed.

Lemma slice_split mem off n m : 0 <= off -> 0 <= n -> 0 <= m -> slice mem off (n + m) = slice mem off n ++ slice mem (off + n) m.
Proof. intros Ho Hn Hm; unfold slice; rewrite ztake_add, zdrop_zdrop by lia; reflexivity. Qed.

(** What was written is read back. *)
Lemma slice_written mem off d n : 0 <= off -> off + n <= zlen mem -> n = zlen d -> slice (zsplice mem off d) off n = d.
Proof.
  intros Ho Hl ->; pose proof (zlen_nonneg d); unfold slice, zsplice.
  rewrite zdrop_app_eq, ztake_app_eq by (rewrite ?zlen_ztake; lia); reflexivity.
Qed.

(** Reading elsewhere. *)
Lemma slice_apart mem off d a n : 0 <= off -> off + zlen d <= zlen mem -> 0 <= a -> 0 <= n -> a + n <= zlen mem ->
  a + n <= off \/ off + zlen d <= a -> slice (zsplice mem off d) a n = slice mem a n.
Proof.
  intros Ho Hl Ha Hn Hr [H|H]; pose proof (zlen_nonneg d); unfold slice, zsplice.
  - assert (forall k : list Z, ztake n (zdrop a (ztake off mem ++ k)) = ztake n (zdrop a (ztake off mem))) as Hk.
    { intros k; assert (zlen (ztake off mem) = off) as E by (rewrite zlen_ztake; lia).
      rewrite zdrop_app_le, ztake_app_le by (rewrite ?zlen_zdrop; lia); reflexivity. }
    rewrite Hk, <- (Hk (zdrop off mem)), ztake_zdrop; reflexivity.
  - rewrite app_assoc; replace a with (off + zlen d + (a - off - zlen d)) by lia.
    rewrite <- zdrop_zdrop by lia; rewrite zdrop_app_eq by (rewrite zlen_app, zlen_ztake; lia).
    rewrite !zdrop_zdrop by lia; reflexivity.
Qed.

(** Writing next to what was written. *)
Lemma write_next (mem d1 d2 : list Z) off : 0 <= off -> off + zlen d1 <= zlen mem ->
  zsplice (zsplice mem off d1) (off + zlen d1) d2 = zsplice mem off (d1 ++ d2).
Proof. intros; now apply zsplice_zsplice. Qed.

Lemma write_bytes mem off d : bytes mem -> bytes d -> bytes (zsplice mem off d).
Proof. intros; unfold zsplice; repeat (apply Forall_app; split); auto with zlist. Qed.

Lemma write_nothing (mem : list Z) off : zsplice mem off [] = mem.
Proof. unfold zsplice; change (zlen (@nil Z)) with 0; rewrite Z.add_0_r; apply ztake_zdrop. Qed.

(** The words at [i] of two blocks. *)
Lemma word_xor i x y : bytes x -> bytes y -> 0 <= i -> i + 8 <= zlen x -> i + 8 <= zlen y ->
  CRYPTO_store_word_le (Z.lxor (CRYPTO_load_word_le (zdrop i x)) (CRYPTO_load_word_le (zdrop i y))) =
  zip_with Z.lxor (slice x i 8) (slice y i 8).
Proof.
  intros Hx Hy Hi Hlx Hly; unfold CRYPTO_store_word_le, CRYPTO_load_word_le.
  fold (slice x i 8); fold (slice y i 8).
  pose proof (slice_len x i 8 ltac:(lia) ltac:(lia) ltac:(lia)); pose proof (slice_len y i 8 ltac:(lia) ltac:(lia) ltac:(lia)).
  apply le_lxor; auto using slice_bytes; unfold zlen in *; lia.
Qed.

Lemma zip_slices x y : zlen x = 16 -> zlen y = 16 ->
  zip_with Z.lxor (slice x 0 8) (slice y 0 8) ++ zip_with Z.lxor (slice x 8 8) (slice y 8 8) = zip_with Z.lxor x y.
Proof.
  intros Hx Hy; assert (forall l, zlen l = 16 -> l = slice l 0 8 ++ slice l 8 8) as Hs.
  { intros l Hl; pose proof (slice_split l 0 8 8 ltac:(lia) ltac:(lia) ltac:(lia)) as E; change (0 + 8) with 8 in E.
    rewrite <- E; unfold slice; rewrite zdrop_0, ztake_all by lia; reflexivity. }
  rewrite (Hs x Hx) at 3; rewrite (Hs y Hy) at 3; symmetry; apply zip_with_app.
  pose proof (slice_len x 0 8); pose proof (slice_len y 0 8); unfold zlen in *; lia.
Qed.

Lemma zip_len (x y : list Z) : zlen x = zlen y -> zlen (zip_with Z.lxor x y) = zlen x.
Proof. unfold zlen; rewrite length_zip_with; lia. Qed.

(** [CRYPTO_xor16] writes the exclusive or when the second words do not change
    under the first store. *)
Lemma xor16_mem_spec mem out a b x y : 0 <= out -> out + 16 <= zlen mem ->
  a mem = x -> b mem = y -> bytes x -> bytes y -> zlen x = 16 -> zlen y = 16 ->
  (forall d, zlen d = 8 -> bytes d -> bytes (a (zsplice mem out d)) /\ bytes (b (zsplice mem out d)) /\
     zlen (a (zsplice mem out d)) = 16 /\ zlen (b (zsplice mem out d)) = 16 /\
     slice (a (zsplice mem out d)) 8 8 = slice x 8 8 /\ slice (b (zsplice mem out d)) 8 8 = slice y 8 8) ->
  xor16_mem mem out a b = zsplice mem out (zip_with Z.lxor x y).
Proof.
  intros Ho Hl <- <- Hx Hy Hlx Hly Hs; unfold xor16_mem; rewrite word_xor by (auto; lia).
  set (w := zip_with Z.lxor (slice (a mem) 0 8) _).
  assert (zlen w = 8) as Hw by (unfold w; rewrite zip_len; rewrite !slice_len; lia).
  destruct (Hs w Hw) as (B1 & B2 & L1 & L2 & E1 & E2); [apply bytes_zip_xor; auto using slice_bytes|].
  rewrite word_xor by (auto; lia); rewrite E1, E2; replace (out + 8) with (out + zlen w) by lia.
  rewrite write_next by lia; f_equal; apply zip_slices; auto.
Qed.

Lemma overwrite (mem d1 d2 : list Z) off : 0 <= off -> off + zlen d1 <= zlen mem -> zlen d1 = zlen d2 ->
  zsplice (zsplice mem off d1) off d2 = zsplice mem off d2.
Proof.
  intros Ho Hl E; pose proof (zlen_nonneg d1); unfold zsplice at 1 3; rewrite <- E at 1.
  assert (zlen (ztake off mem) = off) as Et by (rewrite zlen_ztake; lia).
  assert (zdrop (off + zlen d1) (zsplice mem off d1) = zdrop (off + zlen d1) mem) as ->.
  { unfold zsplice; rewrite app_assoc; apply zdrop_app_eq; rewrite zlen_app; lia. }
  unfold zsplice; rewrite ztake_app_eq, <- E by lia; reflexivity.
Qed.

Lemma write_len (mem d : list Z) off : 0 <= off -> off + zlen d <= zlen mem -> zlen (zsplice mem off d) = zlen mem.
Proof. intros; apply zlen_zsplice; lia. Qed.

(** A block pointer that a store of eight bytes at [out] does not disturb in its
    second word. *)
Definition clear_of (out : Z) (mem : list Z) (p : Z) : Prop := 0 <= p /\ p + 16 <= zlen mem /\ (out <= p \/ p + 16 <= out).

Lemma clear_stable mem out p d : 0 <= out -> out + 8 <= zlen mem -> zlen d = 8 -> bytes d -> bytes mem -> clear_of out mem p ->
  bytes (slice (zsplice mem out d) p 16) /\ zlen (slice (zsplice mem out d) p 16) = 16 /\
  slice (slice (zsplice mem out d) p 16) 8 8 = slice (slice mem p 16) 8 8.
Proof.
  intros Ho Hl Hd Hb Hm (Hp & Hpl & Hc); split; [apply slice_bytes, write_bytes; auto|].
  split; [apply slice_len; rewrite ?write_len; lia|].
  rewrite !slice_slice by lia; apply slice_apart; lia.
Qed.

Lemma xor16_at mem out p ivec iv : 0 <= out -> out + 16 <= zlen mem -> bytes mem -> clear_of out mem p ->
  bytes ivec -> zlen ivec = 16 -> (forall q, iv = Some q -> clear_of out mem q) ->
  xor16_mem mem out (fun mem => slice mem p 16) (at_iv ivec iv) =
  zsplice mem out (zip_with Z.lxor (slice mem p 16) (at_iv ivec iv mem)).
Proof.
  intros Ho Hl Hm Hp Hb Hi Hq; assert (bytes (at_iv ivec iv mem) /\ zlen (at_iv ivec iv mem) = 16) as [Hb1 Hl1].
  { destruct iv as [q|]; cbn [at_iv]; [|auto]; destruct (Hq q eq_refl) as (? & ? & _).
    split; [now apply slice_bytes|apply slice_len; lia]. }
  apply xor16_mem_spec; auto using slice_bytes; [apply slice_len; destruct Hp; lia|].
  intros d Hd Hdb; destruct (clear_stable mem out p d Ho ltac:(lia) Hd Hdb Hm Hp) as (A1 & A2 & A3).
  destruct iv as [q|]; cbn [at_iv] in *; [|auto 7].
  destruct (clear_stable mem out q d Ho ltac:(lia) Hd Hdb Hm (Hq q eq_refl)) as (B1 & B2 & B3); auto 7.
Qed.

(** * The loops *)

Section Loops.
  Context (block : list Z -> list Z) {BC : BlockCipher block} (ivec : list Z).
  Hypothesis ivec_bytes : bytes ivec.
  Hypothesis ivec_len : zlen ivec = 16.

Lemma cbc_enc_len k : forall iv p, bytes iv -> zlen iv = 16 -> bytes p -> zlen p = 16 * Z.of_nat k ->
  bytes (cbc_enc block k iv p) /\ zlen (cbc_enc block k iv p) = 16 * Z.of_nat k.
Proof.
  induction k as [|k IH]; intros iv p Hb Hl Hp Hlp; cbn [cbc_enc]; [split; [constructor|reflexivity]|].
  assert (zlen (ztake 16 p) = 16) as H16 by (rewrite zlen_ztake; lia).
  destruct (block_output (zip_with Z.lxor (ztake 16 p) iv)) as [Hcb Hcl];
    [apply bytes_zip_xor; auto with zlist|rewrite zip_len; lia|].
  destruct (IH (block (zip_with Z.lxor (ztake 16 p) iv)) (zdrop 16 p) Hcb Hcl ltac:(auto with zlist)
    ltac:(rewrite zlen_zdrop; lia)) as [IHb IHl].
  split; [now apply Forall_app|rewrite zlen_app; lia].
Qed.

Lemma cbc_enc_blocks_spec k : forall mem inp out iv, bytes mem -> 0 <= inp -> inp + 16 * Z.of_nat k <= zlen mem ->
  0 <= out -> out + 16 * Z.of_nat k <= zlen mem ->
  inp = out \/ inp + 16 * Z.of_nat k <= out \/ out + 16 * Z.of_nat k <= inp ->
  match iv with Some q => 0 <= q /\ q + 16 = out | None => True end ->
  cbc_enc_blocks block ivec k mem inp out iv =
    (zsplice mem out (cbc_enc block k (at_iv ivec iv mem) (slice mem inp (16 * Z.of_nat k))),
     match k with O => iv | S j => Some (out + 16 * Z.of_nat j) end).
Proof.
  induction k as [|k IH]; intros mem inp out iv Hm Hi Hil Ho Hol Hio Hiv; cbn [cbc_enc_blocks cbc_enc];
    [now rewrite write_nothing|].
  assert (bytes (at_iv ivec iv mem) /\ zlen (at_iv ivec iv mem) = 16) as [Hb1 Hl1].
  { destruct iv as [q|]; cbn [at_iv]; [|auto]; split; [now apply slice_bytes|apply slice_len; lia]. }
  rewrite (xor16_at mem out inp ivec iv Ho ltac:(lia) Hm); [|unfold clear_of; lia|exact ivec_bytes|exact ivec_len|
    intros q ->; unfold clear_of; lia].
  set (X := zip_with Z.lxor (slice mem inp 16) (at_iv ivec iv mem)).
  assert (zlen (slice mem inp 16) = 16) as Hs by (apply slice_len; lia).
  assert (zlen X = 16) as HX by (unfold X; rewrite zip_len; lia).
  assert (bytes X) as HXb by (apply bytes_zip_xor; auto using slice_bytes).
  destruct (block_output X HXb HX) as [HCb HCl].
  rewrite slice_written, overwrite by lia; set (C := block X) in *.
  rewrite IH; rewrite ?write_len by lia; [|now apply write_bytes|lia|lia|lia|lia|lia|lia].
  cbn [at_iv]; rewrite slice_written by lia.
  rewrite slice_apart by lia; replace (out + 16) with (out + zlen C) by lia; rewrite write_next by lia.
  replace (16 * Z.of_nat (S k)) with (16 + 16 * Z.of_nat k) by lia; rewrite slice_split by lia.
  rewrite ztake_app_eq, zdrop_app_eq by lia; fold X; fold C; f_equal.
  destruct k as [|j]; f_equal; lia.
Qed.

(** One block of decryption writes the plaintext block, whichever way. *)
Lemma cbc_dec_far_spec k : forall mem inp out iv, bytes mem -> 0 <= inp -> inp + 16 * Z.of_nat k <= zlen mem ->
  0 <= out -> out + 16 * Z.of_nat k <= zlen mem -> out + 32 <= inp \/ inp + 16 * Z.of_nat k <= out ->
  match iv with Some q => 0 <= q /\ q + 16 = inp | None => True end ->
  cbc_dec_far block ivec k mem inp out iv =
    (zsplice mem out (cbc_dec block k (at_iv ivec iv mem) (slice mem inp (16 * Z.of_nat k))),
     match k with O => iv | S j => Some (inp + 16 * Z.of_nat j) end).
Proof.
  induction k as [|k IH]; intros mem inp out iv Hm Hi Hil Ho Hol Hio Hiv; cbn [cbc_dec_far cbc_dec];
    [now rewrite write_nothing|].
  set (C := slice mem inp 16); assert (zlen C = 16) as HC by (apply slice_len; lia).
  destruct (block_output C (slice_bytes _ _ _ Hm) HC) as [HDb HDl]; set (D := block C) in *.
  assert (zlen (zsplice mem out D) = zlen mem) as Hml by (apply write_len; lia).
  assert (at_iv ivec iv (zsplice mem out D) = at_iv ivec iv mem) as Eiv.
  { destruct iv as [q|]; cbn [at_iv]; [|reflexivity]; apply slice_apart; lia. }
  assert (zlen (at_iv ivec iv mem) = 16) as Hl1 by (destruct iv as [q|]; cbn [at_iv]; [apply slice_len; lia|exact ivec_len]).
  assert (bytes (at_iv ivec iv mem)) as Hb1 by (destruct iv as [q|]; cbn [at_iv]; [now apply slice_bytes|exact ivec_bytes]).
  rewrite (xor16_at (zsplice mem out D) out out ivec iv Ho ltac:(lia) ltac:(now apply write_bytes));
    [|unfold clear_of; lia|exact ivec_bytes|exact ivec_len|intros q ->; unfold clear_of; lia].
  rewrite slice_written, Eiv by lia; set (P := zip_with Z.lxor D (at_iv ivec iv mem)).
  assert (zlen P = 16) as HP by (unfold P; rewrite zip_len; lia).
  assert (bytes P) as HPb by (now apply bytes_zip_xor).
  rewrite overwrite by lia; rewrite IH; rewrite ?write_len by lia; [|now apply write_bytes|lia|lia|lia|lia|lia|lia].
  cbn [at_iv]; rewrite !slice_apart by lia; replace (out + 16) with (out + zlen P) by lia; rewrite write_next by lia.
  replace (16 * Z.of_nat (S k)) with (16 + 16 * Z.of_nat k) by lia; rewrite slice_split by lia.
  fold C; rewrite ztake_app_eq, zdrop_app_eq by lia; f_equal; destruct k as [|j]; f_equal; lia.
Qed.
End Loops.

(** The two words of a block when the buffers are close together. *)
Lemma cbc_dec_words tmp mem inp out ivec : bytes tmp -> zlen tmp = 16 -> bytes mem -> bytes ivec -> zlen ivec = 16 ->
  0 <= out <= inp -> inp + 16 <= zlen mem ->
  (let '(mem, ivec) := cbc_dec_word 0 tmp mem inp out ivec in cbc_dec_word 8 tmp mem inp out ivec) =
  (zsplice mem out (zip_with Z.lxor tmp ivec), slice mem inp 16).
Proof.
  intros Ht Hlt Hm Hb Hl Ho Hi; unfold cbc_dec_word; cbv zeta.
  assert (forall m off, bytes m -> off + 8 <= zlen m -> 0 <= off ->
    CRYPTO_store_word_le (CRYPTO_load_word_le (zdrop off m)) = slice m off 8) as Hw.
  { intros m off Hmb Hml Hoff; unfold CRYPTO_store_word_le, CRYPTO_load_word_le; fold (slice m off 8).
    pose proof (slice_len m off 8 ltac:(lia) ltac:(lia) ltac:(lia)) as E; unfold zlen in E.
    replace 8%nat with (length (slice m off 8)) by lia; apply le_enc_le_val; now apply slice_bytes. }
  rewrite !Z.add_0_r, !word_xor, !Hw by (auto; lia).
  set (w := zip_with Z.lxor (slice tmp 0 8) (slice ivec 0 8)).
  assert (zlen w = 8) as Hwl by (unfold w; rewrite zip_len; rewrite !slice_len; lia).
  assert (bytes w) as Hwb by (apply bytes_zip_xor; auto using slice_bytes).
  assert (zlen (slice mem inp 8) = 8) as Hc by (apply slice_len; lia).
  assert (bytes (slice mem inp 8)) as Hcb by (now apply slice_bytes).
  assert (bytes (zsplice mem out w)) as Hmb by (now apply write_bytes).
  rewrite word_xor, Hw by (auto; rewrite ?write_len by lia; try lia; now apply write_bytes).
  rewrite (slice_apart mem out w) by lia; rewrite (slice_apart ivec 0 (slice mem inp 8)) by lia.
  assert (zsplice (zsplice mem out w) (out + 8) (zip_with Z.lxor (slice tmp 8 8) (slice ivec 8 8)) =
          zsplice mem out (zip_with Z.lxor tmp ivec)) as ->.
  { replace (out + 8) with (out + zlen w) by lia; rewrite write_next by lia; f_equal; apply zip_slices; auto. }
  f_equal; pose proof (write_next ivec (slice mem inp 8) (slice mem (inp + 8) 8) 0 ltac:(lia) ltac:(lia)) as E.
  rewrite Hc in E; change (0 + 8) with 8 in E; rewrite E, <- slice_split by lia; change (8 + 8) with 16; rewrite zsplice_0, zdrop_all, app_nil_r; [reflexivity|]; rewrite slice_len; lia.
Qed.

Lemma cbc_dec_near_spec block {BC : BlockCipher block} k : forall mem inp out ivec, bytes mem -> bytes ivec -> zlen ivec = 16 ->
  0 <= out <= inp -> inp + 16 * Z.of_nat k <= zlen mem ->
  cbc_dec_near block k mem inp out ivec =
    (zsplice mem out (cbc_dec block k ivec (slice mem inp (16 * Z.of_nat k))),
     match k with O => ivec | S j => slice mem (inp + 16 * Z.of_nat j) 16 end).
Proof.
  induction k as [|k IH]; intros mem inp out ivec Hm Hb Hl Ho Hi; cbn [cbc_dec_near cbc_dec]; [now rewrite write_nothing|].
  set (C := slice mem inp 16); assert (zlen C = 16) as HC by (apply slice_len; lia).
  destruct (block_output C (slice_bytes _ _ _ Hm) HC) as [HDb HDl].
  pose proof (cbc_dec_words (block C) mem inp out ivec HDb HDl Hm Hb Hl Ho ltac:(lia)) as Hw.
  destruct (cbc_dec_word 0 _ mem inp out ivec) as [mem1 ivec1]; rewrite Hw; clear Hw mem1 ivec1.
  set (P := zip_with Z.lxor (block C) ivec); fold C.
  assert (zlen P = 16) as HP by (unfold P; rewrite zip_len; lia).
  assert (bytes P) as HPb by (now apply bytes_zip_xor).
  rewrite IH; rewrite ?write_len by lia; [|now apply write_bytes|now apply slice_bytes|exact HC|lia|lia].
  rewrite slice_apart by lia; replace (out + 16) with (out + zlen P) by lia; rewrite write_next by lia.
  replace (16 * Z.of_nat (S k)) with (16 + 16 * Z.of_nat k) by lia; rewrite slice_split by lia.
  fold C; rewrite ztake_app_eq, zdrop_app_eq by lia; f_equal.
  destruct k as [|j]; [now rewrite Z.mul_0_r, Z.add_0_r|].
  rewrite slice_apart by lia; f_equal; lia.
Qed.

(** * Theorems *)

(** The vector after [n] blocks at [off]: the last of them. *)
Definition last_block (ivec mem : list Z) (off n : Z) : list Z :=
  if n =? 0 then ivec else slice mem (off + 16 * (n - 1)) 16.

Lemma cbc_dec_len block {BC : BlockCipher block} k : forall iv c, bytes iv -> zlen iv = 16 -> bytes c -> zlen c = 16 * Z.of_nat k ->
  bytes (cbc_dec block k iv c) /\ zlen (cbc_dec block k iv c) = 16 * Z.of_nat k.
Proof.
  induction k as [|k IH]; intros iv c Hb Hl Hc Hlc; cbn [cbc_dec]; [split; [constructor|reflexivity]|].
  assert (zlen (ztake 16 c) = 16) as H16 by (rewrite zlen_ztake; lia).
  destruct (block_output (ztake 16 c)) as [Hpb Hpl]; auto with zlist.
  destruct (IH (ztake 16 c) (zdrop 16 c)) as [IHb IHl]; auto with zlist; [rewrite zlen_zdrop; lia|].
  split; [apply Forall_app; split; auto; now apply bytes_zip_xor|]; rewrite zlen_app, zip_len by lia; lia.
Qed.

(** The loops over whole blocks, whichever of the two is chosen. *)
Lemma cbc_dec_whole block {BC : BlockCipher block} mem inp out n ivec : bytes mem -> bytes ivec -> zlen ivec = 16 ->
  0 <= n -> 0 <= inp -> inp + 16 * n <= zlen mem -> 0 <= out -> out + 16 * n <= zlen mem -> out <= inp \/ inp + 16 * n <= out ->
  (if (out + 32 <=? inp) || (inp <? out)
   then let '(mem, iv) := cbc_dec_far block ivec (Z.to_nat n) mem inp out None in (mem, at_iv ivec iv mem)
   else cbc_dec_near block (Z.to_nat n) mem inp out ivec) =
    (zsplice mem out (cbc_dec block (Z.to_nat n) ivec (slice mem inp (16 * n))), last_block ivec mem inp n).
Proof.
  intros Hm Hb Hl Hn Hi Hil Ho Hol Hio; unfold last_block.
  destruct (Z.eqb_spec n 0) as [-> |Hn0]; [cbn [Z.to_nat cbc_dec_far cbc_dec_near cbc_dec at_iv]; rewrite write_nothing; now destruct (_ || _)|].
  assert (exists j, Z.to_nat n = S j /\ Z.of_nat j = n - 1) as (j & Ej & Hj) by
    (exists (Z.to_nat (n - 1)); split; lia).
  assert (16 * Z.of_nat (S j) = 16 * n) as E16 by lia; rewrite Ej.
  set (p := cbc_dec block (S j) ivec (slice mem inp (16 * n))).
  assert (zlen p = 16 * n) as Hp by (unfold p; rewrite <- E16; apply cbc_dec_len; auto using slice_bytes; apply slice_len; lia).
  destruct ((out + 32 <=? inp) || (inp <? out)) eqn:Efar.
  - assert (out + 32 <= inp \/ inp + 16 * n <= out) as Hfar.
    { apply orb_prop in Efar as [E%Z.leb_le|E%Z.ltb_lt]; lia. }
    rewrite (cbc_dec_far_spec block ivec Hb Hl (S j) mem inp out None), E16 by (auto; lia); cbn [at_iv]; fold p.
    rewrite slice_apart, Hj by lia; reflexivity.
  - apply orb_false_elim in Efar as [E1%Z.leb_gt E2%Z.ltb_ge].
    rewrite (cbc_dec_near_spec block (S j) mem inp out ivec), E16, Hj by (auto; lia); reflexivity.
Qed.

Lemma last_block_len ivec mem off n : bytes mem -> bytes ivec -> zlen ivec = 16 -> 0 <= n -> 0 <= off -> off + 16 * n <= zlen mem ->
  bytes (last_block ivec mem off n) /\ zlen (last_block ivec mem off n) = 16.
Proof. intros; unfold last_block; destruct (Z.eqb_spec n 0); [auto|]; split; [now apply slice_bytes|apply slice_len; lia]. Qed.

Lemma cbc_decrypt_value block {BC : BlockCipher block} mem inp out n ivec : bytes mem -> bytes ivec -> zlen ivec = 16 ->
  0 <= n -> 0 <= inp -> inp + 16 * n <= zlen mem -> 0 <= out -> out + 16 * n <= zlen mem ->
  out <= inp \/ inp + 16 * n <= out ->
  CRYPTO_cbc128_decrypt block mem inp out (16 * n) ivec =
    (zsplice mem out (cbc_dec block (Z.to_nat n) ivec (slice mem inp (16 * n))), last_block ivec mem inp n).
Proof.
  intros Hm Hb Hl Hn Hi Hil Ho Hol Hio; unfold CRYPTO_cbc128_decrypt.
  destruct (Z.eqb_spec (16 * n) 0) as [E|Hn0]; [replace n with 0 by lia; now rewrite write_nothing|].
  rewrite (Z.mul_comm 16 n), Z.div_mul, Z.sub_diag by lia; rewrite (Z.mul_comm n 16), cbc_dec_whole by auto; reflexivity.
Qed.

(** The byte loop of a partial block. *)
Lemma cbc_dec_bytes_spec k : forall n tmp mem inp out ivec, 0 <= n -> n + Z.of_nat k <= 16 -> zlen tmp = 16 -> zlen ivec = 16 ->
  0 <= inp -> inp + 16 <= zlen mem -> 0 <= out -> out + n + Z.of_nat k <= zlen mem -> out <= inp \/ inp + 16 <= out ->
  cbc_dec_bytes k n tmp mem inp out ivec =
    (zsplice mem (out + n) (zip_with Z.lxor (slice tmp n (Z.of_nat k)) (slice ivec n (Z.of_nat k))),
     zsplice ivec n (slice mem (inp + n) (Z.of_nat k))).
Proof.
  assert (forall l i m, 0 <= i -> 0 <= m -> i < zlen l -> slice l i (1 + m) = znth l i :: slice l (i + 1) m) as Hc.
  { intros l i m Hi Hm Hl; rewrite slice_split by lia; enough (slice l i 1 = [znth l i]) as -> by reflexivity.
    apply znth_ext; rewrite slice_len by lia; [reflexivity|]; intros j Hj; unfold slice; rewrite znth_ztake, znth_zdrop by lia.
    replace j with 0 by lia; now rewrite Z.add_0_r. }
  induction k as [|k IH]; intros n tmp mem inp out ivec Hn Hk Ht Hv Hi Hil Ho Hol Hio; cbn [cbc_dec_bytes].
  { assert (forall l i, slice l i (Z.of_nat 0) = []) as Hz by (intros; apply ztake_0); rewrite !Hz; cbn [zip_with]; now rewrite !write_nothing. }
  replace (Z.of_nat (S k)) with (1 + Z.of_nat k) in * by lia; rewrite !Hc by lia; cbn [zip_with].
  set (v := Z.lxor _ _); set (c := znth mem _).
  rewrite IH by (rewrite ?write_len by (change (zlen [v]) with 1 || change (zlen [c]) with 1; lia); lia).
  rewrite (slice_apart ivec n [c]), (slice_apart mem (out + n) [v]) by (change (zlen [v]) with 1; change (zlen [c]) with 1; lia).
  pose proof (write_next mem [v]) as W1; pose proof (write_next ivec [c]) as W2; change (zlen [v]) with 1 in W1; change (zlen [c]) with 1 in W2.
  rewrite Z.add_assoc, W1, (Z.add_assoc inp), W2 by lia; reflexivity.
Qed.

Lemma cbc_dec_snoc block j : forall iv c, zlen c = 16 * (Z.of_nat j + 1) ->
  cbc_dec block (S j) iv c = cbc_dec block j iv (ztake (16 * Z.of_nat j) c) ++
    zip_with Z.lxor (block (zdrop (16 * Z.of_nat j) c)) (last_block iv c 0 (Z.of_nat j)).
Proof.
  induction j as [|j IH]; intros iv c Hc.
  - cbn [cbc_dec app]; unfold last_block; cbn [Z.of_nat Z.eqb]; rewrite app_nil_r, zdrop_0, ztake_all by lia; reflexivity.
  - rewrite Nat2Z.inj_succ in *; change (cbc_dec block (S (S j)) iv c) with (zip_with Z.lxor (block (ztake 16 c)) iv ++ cbc_dec block (S j) (ztake 16 c) (zdrop 16 c)).
    assert (last_block iv c 0 (Z.succ (Z.of_nat j)) = last_block (ztake 16 c) (zdrop 16 c) 0 (Z.of_nat j)) as ->.
    { unfold last_block; rewrite (proj2 (Z.eqb_neq (Z.succ _) 0)) by lia; destruct (Z.eqb_spec (Z.of_nat j) 0) as [E|E]; unfold slice.
      - rewrite E; now rewrite zdrop_0.
      - rewrite zdrop_zdrop by lia; do 2 f_equal; lia. }
    rewrite IH by (rewrite zlen_zdrop; lia); cbn [cbc_dec]; rewrite <- app_assoc, ztake_ztake by lia.
    replace (16 * Z.succ (Z.of_nat j)) with (16 + 16 * Z.of_nat j) by lia; now rewrite zdrop_ztake, zdrop_zdrop by lia.
Qed.

(** The last, partial block. *)
Lemma cbc_dec_tail block {BC : BlockCipher block} mem inp out r ivec : bytes mem -> bytes ivec -> zlen ivec = 16 -> 0 < r < 16 ->
  0 <= inp -> inp + 16 <= zlen mem -> 0 <= out -> out + r <= zlen mem -> out <= inp \/ inp + 16 <= out ->
  (let '(mem, ivec) := cbc_dec_bytes (Z.to_nat r) 0 (block (slice mem inp 16)) mem inp out ivec in
   (mem, zsplice ivec r (slice mem (inp + r) (16 - r)))) =
    (zsplice mem out (ztake r (zip_with Z.lxor (block (slice mem inp 16)) ivec)), slice mem inp 16).
Proof.
  intros Hm Hb Hl Hr Hi Hil Ho Hol Hio; assert (zlen (slice mem inp 16) = 16) as Hs by (apply slice_len; lia).
  destruct (block_output _ (slice_bytes mem inp 16 Hm) Hs) as [_ Ht].
  rewrite cbc_dec_bytes_spec by lia; rewrite Z2Nat.id, !Z.add_0_r by lia.
  set (q := zip_with _ _ _); assert (q = ztake r (zip_with Z.lxor (block (slice mem inp 16)) ivec)) as Eq.
  { unfold q, slice; rewrite !zdrop_0; unfold ztake; now rewrite zip_with_take. }
  assert (zlen q = r) as Hq by (rewrite Eq, zlen_ztake; [reflexivity|rewrite zip_len; lia]).
  rewrite slice_apart, <- Eq by lia; f_equal; assert (zlen (slice mem inp r) = r) as Hsr by (apply slice_len; lia).
  pose proof (write_next ivec (slice mem inp r) (slice mem (inp + r) (16 - r)) 0 ltac:(lia) ltac:(lia)) as W; rewrite Hsr, Z.add_0_l in W; rewrite W, <- slice_split by lia.
  replace (r + (16 - r)) with 16 by lia; now rewrite zsplice_0, zdrop_all, app_nil_r by lia.
Qed.

(** The blocks that [len] bytes reach into. *)
Definition blocks_of (len : Z) : Z := (len + 15) / 16.

Lemma cbc_decrypt_partial block {BC : BlockCipher block} mem inp out n r ivec : bytes mem -> bytes ivec -> zlen ivec = 16 -> 0 <= n -> 0 < r < 16 ->
  0 <= inp -> inp + 16 * (n + 1) <= zlen mem -> 0 <= out -> out + 16 * n + r <= zlen mem -> out <= inp \/ inp + 16 * (n + 1) <= out ->
  CRYPTO_cbc128_decrypt block mem inp out (16 * n + r) ivec =
    (zsplice mem out (ztake (16 * n + r) (cbc_dec block (Z.to_nat (n + 1)) ivec (slice mem inp (16 * (n + 1))))), slice mem (inp + 16 * n) 16).
Proof.
  intros Hm Hb Hl Hn Hr Hi Hil Ho Hol Hio; unfold CRYPTO_cbc128_decrypt; rewrite (proj2 (Z.eqb_neq _ 0)) by lia.
  assert ((16 * n + r) / 16 = n) as -> by (symmetry; apply (Z.div_unique_pos _ _ _ r); lia).
  replace (16 * n + r - n * 16) with r by lia; rewrite (Z.mul_comm n 16), cbc_dec_whole, (proj2 (Z.eqb_neq r 0)) by (auto; lia); cbn [negb].
  set (C := slice mem inp (16 * n)); assert (zlen C = 16 * n) as HC by (apply slice_len; lia).
  destruct (cbc_dec_len block (Z.to_nat n) ivec C Hb Hl (slice_bytes _ _ _ Hm) ltac:(lia)) as [Hpb Hpl]; set (p := cbc_dec block _ ivec C) in *; rewrite Z2Nat.id in Hpl by lia.
  destruct (last_block_len ivec mem inp n Hm Hb Hl Hn Hi ltac:(lia)) as [Hvb Hvl].
  pose proof (cbc_dec_tail block (zsplice mem out p) (inp + 16 * n) (out + 16 * n) r (last_block ivec mem inp n) ltac:(now apply write_bytes) Hvb Hvl Hr
    ltac:(lia) ltac:(rewrite write_len; lia) ltac:(lia) ltac:(rewrite write_len; lia) ltac:(lia)) as ->.
  rewrite slice_apart by lia; f_equal; set (D := zip_with _ _ _).
  replace (out + 16 * n) with (out + zlen p) by lia; rewrite write_next by lia; f_equal.
  replace (Z.to_nat (n + 1)) with (S (Z.to_nat n)) by lia; rewrite cbc_dec_snoc, Z2Nat.id by (rewrite ?slice_len; lia).
  replace (16 * (n + 1)) with (16 * n + 16) by lia; rewrite slice_split by lia; fold C.
  rewrite (ztake_app_eq (16 * n) C), (zdrop_app_eq (16 * n) C) by lia; fold p.
  assert (last_block ivec (C ++ slice mem (inp + 16 * n) 16) 0 n = last_block ivec mem inp n) as ->.
  { unfold C; rewrite <- slice_split by lia; unfold last_block; case_if; [reflexivity|]; rewrite slice_slice by lia; f_equal; lia. }
  fold D; replace (16 * n + r) with (zlen p + r) by lia; rewrite ztake_app_ge by lia; do 3 f_equal; lia.
Qed.

(** C33. CBC decryption is right for every length and every position of the
    buffers: the output anywhere before the input, at any distance, equal to it,
    or behind all that is read, which is the input rounded up to whole blocks. In
    each case, and in each of its two algorithms, it writes the first [len] bytes
    of the decryption of what the input held before the call, changes no other
    byte, and leaves the last block of the ciphertext in the vector. *)
Theorem cbc_decrypt_overlap (block : list Z -> list Z) {BC : BlockCipher block} (mem : list Z) (inp out len : Z) (ivec : list Z) :
  let m := blocks_of len in
  bytes mem -> bytes ivec -> zlen ivec = 16 -> 0 <= len -> 0 <= inp -> inp + 16 * m <= zlen mem ->
  0 <= out -> out + len <= zlen mem -> out <= inp \/ inp + 16 * m <= out ->
  CRYPTO_cbc128_decrypt block mem inp out len ivec =
    (ztake out mem ++ ztake len (cbc_dec block (Z.to_nat m) ivec (slice mem inp (16 * m))) ++ zdrop (out + len) mem,
     if len =? 0 then ivec else slice mem (inp + 16 * (m - 1)) 16).
Proof.
  intros m Hm Hb Hl Hn Hi Hil Ho Hol Hio; unfold m, blocks_of in *; clear m.
  pose proof (Z.div_mod len 16 ltac:(lia)) as Ed; pose proof (Z.mod_pos_bound len 16 ltac:(lia)) as Hr; set (n := len / 16) in *; set (r := len mod 16) in *.
  assert (0 <= n) as Hn0 by lia; set (m := (len + 15) / 16) in *; set (p := cbc_dec block (Z.to_nat m) ivec (slice mem inp (16 * m))).
  assert (0 <= m) as Hm0 by (apply Z.div_pos; lia); assert (len <= 16 * m) as Hlm by (pose proof (Z.div_mod (len + 15) 16); pose proof (Z.mod_pos_bound (len + 15) 16); lia).
  destruct (cbc_dec_len block (Z.to_nat m) ivec (slice mem inp (16 * m)) Hb Hl (slice_bytes _ _ _ Hm) ltac:(rewrite slice_len; lia)) as [_ Hp]; fold p in Hp.
  assert (zlen (ztake len p) = len) as Hpl by (rewrite zlen_ztake; lia).
  enough (CRYPTO_cbc128_decrypt block mem inp out len ivec = (zsplice mem out (ztake len p), if len =? 0 then ivec else slice mem (inp + 16 * (m - 1)) 16)) as ->
    by (unfold zsplice; now rewrite Hpl).
  destruct (Z.eq_dec r 0) as [Er|Er].
  - assert (m = n) as Emn by (symmetry; apply (Z.div_unique_pos _ _ _ 15); lia).
    rewrite Ed, Er, Z.add_0_r, cbc_decrypt_value by (auto; lia); unfold p; rewrite Emn, ztake_all by (rewrite Emn in Hp; unfold p in Hp; rewrite Emn in Hp; lia).
    f_equal; unfold last_block; repeat case_if; bool_facts; first [reflexivity|lia].
  - assert (m = n + 1) as Emn by (symmetry; apply (Z.div_unique_pos _ _ _ (r - 1)); lia).
    rewrite Ed, cbc_decrypt_partial by (auto; lia); unfold p; rewrite Emn, (proj2 (Z.eqb_neq _ 0)) by lia; do 3 f_equal; lia.
Qed.

(** Three blocks decrypted in place, to five bytes further down, and twenty bytes
    behind the two blocks that they are read from. *)
Lemma cbc_decrypt_overlap_witness :
  let mem := map Z.of_nat (seq 0 60) in
  fst (CRYPTO_cbc128_decrypt toy_block mem 10 10 48 (zrep 16 0)) =
    ztake 10 mem ++ cbc_dec toy_block 3 (zrep 16 0) (slice mem 10 48) ++ zdrop 58 mem /\
  fst (CRYPTO_cbc128_decrypt toy_block mem 10 5 48 (zrep 16 0)) =
    ztake 5 mem ++ cbc_dec toy_block 3 (zrep 16 0) (slice mem 10 48) ++ zdrop 53 mem /\
  fst (CRYPTO_cbc128_decrypt toy_block mem 0 32 20 (zrep 16 0)) =
    ztake 32 mem ++ ztake 20 (cbc_dec toy_block 2 (zrep 16 0) (slice mem 0 32)) ++ zdrop 52 mem.
Proof.
  intros mem; assert (bytes mem) as Hm by (vm_compute; each_literal).
  assert (bytes (zrep 16 0)) as Hz by (apply bytes_zrep; unfold byte; lia).
  assert (zlen mem = 60) as Hl by reflexivity.
  assert (blocks_of 48 = 3 /\ blocks_of 20 = 2) as [B1 B2] by (split; reflexivity).
  assert (forall inp out len, 0 <= len -> 0 <= inp -> inp + 16 * blocks_of len <= 60 -> 0 <= out -> out + len <= 60 -> out <= inp \/ inp + 16 * blocks_of len <= out ->
    CRYPTO_cbc128_decrypt toy_block mem inp out len (zrep 16 0) = _) as H by (intros inp out len ? ? ? ? ? ?; apply (cbc_decrypt_overlap toy_block mem inp out len (zrep 16 0) Hm Hz eq_refl); lia).
  rewrite !H by (rewrite ?B1, ?B2; lia); rewrite B1, B2; repeat split; vm_compute; reflexivity.
Defined.

(** The length in the assertion of the code is not enough for a partial block:
    twenty bytes, written right behind the twenty bytes of the input, go over the
    rest of the second block before it is read. *)
Lemma cbc_decrypt_assert_short :
  let mem := map Z.of_nat (seq 0 60) in
  slice (fst (CRYPTO_cbc128_decrypt toy_block mem 0 20 20 (zrep 16 0))) 20 20 <> slice (fst (CRYPTO_cbc128_decrypt toy_block mem 0 32 20 (zrep 16 0))) 32 20.
Proof. vm_compute; discriminate. Qed.

Lemma cbc_inverse (enc dec : list Z -> list Z) {BC : BlockCipher enc} k : forall iv p,
  (forall x, bytes x -> zlen x = 16 -> dec (enc x) = x) ->
  bytes iv -> zlen iv = 16 -> bytes p -> zlen p = 16 * Z.of_nat k -> cbc_dec dec k iv (cbc_enc enc k iv p) = p.
Proof.
  induction k as [|k IH]; intros iv p Hd Hb Hl Hp Hlp; cbn [cbc_enc cbc_dec].
  - symmetry; apply zlen_0_nil; lia.
  - assert (zlen (ztake 16 p) = 16) as H16 by (rewrite zlen_ztake; lia).
    set (X := zip_with Z.lxor (ztake 16 p) iv); assert (zlen X = 16) as HX by (unfold X; rewrite zip_len; lia).
    assert (bytes X) as HXb by (apply bytes_zip_xor; auto with zlist).
    destruct (block_output X HXb HX) as [Hcb Hcl].
    rewrite ztake_app_eq, zdrop_app_eq, Hd, IH by (auto with zlist; rewrite ?zlen_zdrop; lia).
    rewrite <- (ztake_zdrop 16 p) at 2; f_equal; unfold X; clear -H16 Hl.
    revert H16 Hl; generalize (ztake 16 p) as a; unfold zlen; intros a Ha Hl.
    assert (length a = length iv) as E by lia; clear Ha Hl; revert iv E.
    induction a as [|x a IH]; intros [|y iv] E; try discriminate; cbn [zip_with]; [reflexivity|].
    injection E as E; now rewrite IH, lxor_twice.
Qed.

(** What CBC encryption wrote, in place or to a disjoint buffer, CBC
    decryption turns back into the plaintext, to any place it allows, and both
    leave the same vector for the next call. *)
Theorem cbc_roundtrip (enc dec : list Z -> list Z) {BE : BlockCipher enc} {BD : BlockCipher dec}
    (mem : list Z) (inp out dst n : Z) (ivec : list Z) :
  (forall x, bytes x -> zlen x = 16 -> dec (enc x) = x) ->
  bytes mem -> bytes ivec -> zlen ivec = 16 -> 0 < n -> 0 <= inp -> inp + 16 * n <= zlen mem ->
  0 <= out -> out + 16 * n <= zlen mem -> 0 <= dst -> dst + 16 * n <= zlen mem ->
  inp = out \/ inp + 16 * n <= out \/ out + 16 * n <= inp -> dst <= out \/ out + 16 * n <= dst ->
  let '(mem1, ivec1) := CRYPTO_cbc128_encrypt enc mem inp out (16 * n) ivec in
  let '(mem2, ivec2) := CRYPTO_cbc128_decrypt dec mem1 out dst (16 * n) ivec in
  slice mem2 dst (16 * n) = slice mem inp (16 * n) /\ ivec2 = ivec1.
Proof.
  intros Hinv Hm Hb Hl Hn Hi Hil Ho Hol Hd Hdl Hio Hod; unfold CRYPTO_cbc128_encrypt.
  rewrite (proj2 (Z.eqb_neq (16 * n) 0)), (Z.mul_comm 16 n), Z.div_mul, Z.sub_diag by lia; rewrite (Z.mul_comm n 16).
  assert (exists j, Z.to_nat n = S j /\ Z.of_nat j = n - 1) as (j & Ej & Hj) by
    (exists (Z.to_nat (n - 1)); split; lia).
  assert (16 * Z.of_nat (S j) = 16 * n) as E16 by lia; rewrite Ej.
  rewrite (cbc_enc_blocks_spec enc ivec Hb Hl (S j) mem inp out None), E16 by (auto; lia); cbn [at_iv Z.eqb negb].
  assert (zlen (slice mem inp (16 * n)) = 16 * n) as Hs by (apply slice_len; lia).
  destruct (cbc_enc_len enc (S j) ivec (slice mem inp (16 * n))) as [Hcb Hcl]; auto using slice_bytes; [lia|].
  set (c := cbc_enc enc (S j) ivec (slice mem inp (16 * n))) in *; rewrite E16 in Hcl.
  rewrite cbc_decrypt_value by (rewrite ?write_len by lia; auto using write_bytes; lia).
  rewrite (slice_written mem out c), Ej by lia; unfold c at 2; rewrite cbc_inverse by (auto using slice_bytes; lia).
  unfold last_block; rewrite (proj2 (Z.eqb_neq n 0)), <- Hj by lia; split; [|reflexivity].
  apply slice_written; rewrite ?write_len; lia.
Qed.

(** With the toy block function, which is its own inverse: in place and back. *)
Lemma cbc_roundtrip_witness :
  let mem := map Z.of_nat (seq 0 48) in
  let '(mem1, _) := CRYPTO_cbc128_encrypt toy_block mem 0 0 48 (zrep 16 0) in
  let '(mem2, _) := CRYPTO_cbc128_decrypt toy_block mem1 0 0 48 (zrep 16 0) in
  mem1 <> mem /\ slice mem2 0 48 = slice mem 0 48.
Proof.
  intros mem; assert (bytes mem) as Hm by (vm_compute; each_literal).
  assert (bytes (zrep 16 0)) as Hz by (apply bytes_zrep; unfold byte; lia).
  assert (forall x, bytes x -> zlen x = 16 -> toy_block (toy_block x) = x) as Hinv.
  { intros x _ _; unfold toy_block; rewrite <- map_rev, rev_involutive, map_map.
    rewrite (map_ext _ (fun b => b)), map_id; [reflexivity|]; intros; lia. }
  pose proof (cbc_roundtrip toy_block toy_block mem 0 0 0 3 (zrep 16 0) Hinv Hm Hz eq_refl ltac:(lia) ltac:(lia)
    ltac:(change (zlen mem) with 48; lia) ltac:(lia) ltac:(change (zlen mem) with 48; lia) ltac:(lia)
    ltac:(change (zlen mem) with 48; lia) ltac:(lia) ltac:(lia)) as E.
  change (16 * 3) with 48 in E; destruct (CRYPTO_cbc128_encrypt toy_block mem 0 0 48 (zrep 16 0)) as [mem1 iv1] eqn:E1.
  destruct (CRYPTO_cbc128_decrypt toy_block mem1 0 0 48 (zrep 16 0)) as [mem2 iv2]; split; [|apply E].
  apply (f_equal fst) in E1; cbn [fst] in E1; rewrite <- E1; vm_compute; discriminate.
Defined.
